(* ===== verification/_CoqProject ===== *)
-Q . S2P
Prelude.v
F64.v
Seq.v
Packet.v
Message.v
RecvRing.v
Policy.v
SendRing.v
Channel.v
Envelope.v
Pmtu.v
SendSafety.v
Session.v
SessionInv.v
SessionProps.v
Crc32.v
Stun.v
Conn.v
Endpoint.v
Delivery.v
Sink.v
Payload.v
Init.v
Png.v
Fallible.v
Datagram.v
Control.v
Reliable.v
Handshake.v
Records.v
Migration.v
AckWindow.v
Scheduler.v
Ordering.v
Capability.v
MediaWire.v
Jitter.v
Assembler.v
InputMaps.v
Inject.v
InputEvents.v
Broker.v
Gate.v
Floor.v
Budget.v
Stream.v
Spsc.v
Frames.v
HostIpc.v
Lifecycle.v
Grant.v
BrokerSession.v
HostText.v
Connect.v
