(* ===== verification/Prelude.v ===== *)
(** * OpenStream's streaming engine: a verification development

    OpenStream streams a desktop over UDP. The engine under [src/engine/lowlat]
    is a set of Rust crates; this library models the ones whose logic does no
    I/O: the protocol core ([crates/core]) with its pacing and congestion policy
    ([crates/transport-policy]), the OpenStream datagram protocol
    ([crates/protocol]) and the client runtime's controllers
    ([crates/client-core]), media framing ([crates/media]), the capture and
    encoder planner ([crates/capability]), input injection ([crates/inject]),
    the host's encode loop ([crates/host]) and the privileged broker with its
    protocol ([crates/host-broker], [crates/host-ipc]), and the signalling
    server's Connect broker ([crates/signal-server]). The shells hand these parts datagrams, buffers and the
    time, and act on what they hand back.

    ** The files and what they model

    Foundations
    - [Prelude.v] (this file): the error enumeration of [error.rs], the
      [Result] monad, machine integers with their wrap-around, slices and
      in-place writes with Rust's bounds checks, byte orders, a notation for
      record updates [r <| field := v |>], and shared lemmas and tactics.
    - [F64.v]: Rust's [f64] as binary64 ([SpecFloat]).
    - [Fallible.v]: results with an error type of their own.
    - [Sink.v]: writing through [put(out, &mut at, ..)] into a caller's buffer.
    - [Ordering.v]: comparisons with their laws and the stable sort.

    The protocol core, [core/src], one file per source module
    - [Seq.v] serial numbers; [Packet.v] the four packets; [Message.v] messages
      and fragments; [RecvRing.v] ([channel.rs]) and [SendRing.v] ([send.rs])
      the two rings of a channel, [SendSafety.v] the part of the send ring's
      invariant that needs no positions; [Channel.v] the three composed end to
      end; [Policy.v] ([transport-policy/src/lib.rs]) pacer and rate controller;
      [Envelope.v] ([envelope.rs], [demux.rs]) record sealing; [Pmtu.v] path MTU
      discovery.
    - [Session.v] ([session.rs]) owns rings, envelope, pacer and controller;
      [SessionInv.v] proves its invariant, [SessionProps.v] what it guarantees.
    - [Crc32.v], [Stun.v], [Conn.v]: the checksum, the STUN codec and the
      connection engine; [Endpoint.v] composes connection, session and path MTU
      behind one input, one output and one timer.
    - [Payload.v] ([control.rs], [video.rs], [audio.rs], [microphone.rs],
      [cursor.rs]), [Init.v] ([init.rs]), [Png.v] ([png.rs]): what messages
      contain. [Delivery.v] ([transport-policy/src/delivery.rs]): the estimator.

    The OpenStream protocol and its client runtime
    - [Datagram.v] sealed datagrams and the replay window, [Handshake.v] key
      exchange and identity, [Control.v] the ordered control channel (all
      [protocol/src/lib.rs]); [Records.v] relay, path-control and
      acknowledgement records.
    - [Reliable.v] ([client-core/src/lib.rs], [ReliableControl]) drives the
      control channel over a network that loses, repeats and reorders;
      [Migration.v] ([path.rs]) the migration controllers of a host and a
      client; [AckWindow.v] ([transport_ack.rs]); [Scheduler.v]
      ([scheduler.rs]).

    Media, planning and input
    - [MediaWire.v], [Jitter.v], [Assembler.v] ([media/src/lib.rs]): formats and
      fragmenter, audio queue, video reassembler.
    - [Capability.v] ([capability/src]): records and planner.
    - [InputMaps.v] and [Inject.v] ([inject/src]): code tables and a guest's
      injector.
    - [InputEvents.v] ([media/src/input.rs]): the platform-independent events,
      the coalescing queue, the input lease and the gate on absolute motion.

    The host
    - [Spsc.v] ([common/src/spsc.rs]): the ring between two threads, as a whole
      and split at its accesses to shared memory.
    - [Frames.v] ([host/src/frames.rs]): the pool of encoded frames shared by the
      guests' rings.
    - [Gate.v], [Floor.v], [Budget.v] ([host/src/gate.rs], [floor.rs],
      [stream.rs]): who takes a coded frame, who holds the pointer, how the
      bitrate is divided. [Stream.v] ([host/src/stream.rs]): seats, the roster
      and the delivery of a frame by the encode loop, over the three.

    The privileged broker and the machine service
    - [Broker.v] ([host-broker/src/inject.rs], [linux-host], [token.rs]): the
      input sink under a grant and a lease, over [Inject] and [InputEvents].
    - [HostIpc.v] ([host-ipc/src/wire.rs], [protocol.rs], [transport.rs]): the
      messages between service and broker; [Lifecycle.v] ([lifecycle.rs]): what
      is captured as the seat changes; [Grant.v] ([grant.rs], [token.rs]): the
      signed approval.
    - [BrokerSession.v] ([host-broker/src/session.rs], [device.rs],
      [machine-service/src/main.rs]): one connection's state machine, the
      server's leases across connections ([World], [Served]) and the service
      driving a connection from the lifecycle, with requests and answers on the
      socket between them and every order of the two loops' branches
      ([service_step]).
    - [HostText.v]: the operator's ceiling, the choice of an approval, and the
      login manager's session files.

    The signalling server
    - [Connect.v] ([signal-server/src/connect.rs]): presence, requests, approvals
      and the two role credentials; [Ran] is a run of the server with its log.

    ** Interfaces

    Code outside the repository, and what a client needs of a component, is a
    class with its laws: [Aead]/[AeadLaws] and [Gcm]/[GcmLaws] for the ciphers,
    [Hashes]/[HashLaws] for HMAC-SHA1, [Crypto]/[CryptoLaws] for X25519,
    Ed25519 and SHA-256. Each has an instance that satisfies the laws, so the
    theorems that assume them are not vacuous. [Payload]/[PayloadLaws] and
    [Wire]/[WireLaws] state what a payload format and a record format promise;
    [OrdLaws] what a comparison promises to the sort; [Fifo]/[FifoLaws] what a
    ring promises to the frame pool; [FrameSource]/[FrameLaws] and [InputSink],
    the source's device traits, what the broker needs of its devices. The
    broker's keyed hash is a parameter of [Grant] and [BrokerSession].

    ** How the code is translated

    A struct is a record with a field per field, an enum an inductive type. A
    method taking [&mut self] returns the new state; one that writes into a
    caller's buffer or sink returns it; [Result] is [result] or [fallible],
    [Option] is [option]. Integers are [Z] with wrapping, saturating and checked
    operations written out where the source uses them; bytes are [Z] in
    [0..255]. Slices that may be out of range return [None] where the source's
    [get] does. Hash maps are finite maps; where the source iterates over one
    the model's result does not depend on the order.

    ** Loops

    Loops that walk a cursor to a bound are structural in the serial distance
    left, so that fuel runs out exactly where the source's condition fails:
    [advance], [scan_stall], [gather], [due_loop], [poll_loop], [account]. The
    copy loop of [take_message] gets the number of gathered fragments, which
    [copy_out_ok] shows is enough; the channel loop of [get_output] gets
    [CHANNEL_COUNT - drain_channel]. Elsewhere the fuel is a size the loop
    consumes: the bytes left for the STUN attribute walk, [Init.scan], the PNG
    rows and blocks and [chunks]; the number of waiting frames for
    [Control.drain]; the size of the map for the evictions of [Jitter] and
    [Assembler]. [Migration.pump] bounds an exchange by the records it can
    take. Each is shown to be enough where a theorem needs the result.
    [BrokerSession.pump] pulls until a device has nothing ready: how long that
    takes is the device's affair, its fuel is arbitrary and its only use is as a
    step of the server that may happen.

    ** What the theorems show

    - Codecs: packets, records, payloads and media formats have one encoding
      each; decoders are total and strict and accept only what encodes.
    - Rings: an abstract window that the receive ring refines; ordered positions
      in every reachable send ring; exact enqueueing, emission and
      acknowledgement accounting; a message crosses a channel byte for byte.
    - Policies: rates inside their bounds and never NaN; datagram sizes always
      legal and raised only by an exact acknowledgement.
    - Session and endpoint: nonces of a pair never repeat; what one session
      emits is what its peer acts on; refused datagrams leave no trace; owed
      feedback leaves first; path sizes agree; every output is routed.
    - Connectivity: a path is an address that was checked and answered under
      the peer's password; a check that arrives establishes the path.
    - OpenStream protocol: the handshake opens a channel; the replay window is
      equivalent to remembering every counter; control messages arrive in order
      and, given undisturbed retries, all of them; host and client never send on
      paths the other has left, and a migration ends; acknowledgements and
      queues are exact and video is served.
    - Media: frames cross fragmentation and reassembly in order, byte for byte;
      in every run releases go forward and memory is bounded; audio plays
      consecutive sequence numbers.
    - Planner: exactly the viable pairings, in cost order.
    - Input: nothing stays held on any device after a release, a withdrawn
      keyboard or pointer, or a lost floor, but a pointer button that was pressed
      again while the other pointer was in use ([stranded]); positions land on
      the output.
      A client's events reach a device only as the grant allows, and a lease
      that runs out leaves nothing down that is not stranded once it is polled.
    - Host: in every interleaving the ring is a queue and a pooled frame is never
      overwritten while a guest holds it; a guest is never sent a frame over a
      gap, as long as no seat is given back while its entry stays; one guest
      moves the pointer at a time; what the guests are given together stays
      inside the configured rate.
    - Broker: approvals verify exactly when they were signed for this machine and
      this time; a session never exceeds request, approval, operator's ceiling
      and seat; an approval is held by one live connection; messages cross the
      socket exactly; the capture follows the seat, and the broker follows the
      lifecycle whatever is still on the socket, unless a switch is asked for
      before the first capture was answered.
    - Signalling: a host and a client credential of one session reach exactly the
      device that approved and the device that asked, as often as they ask within
      the approval's window, and nobody else.
    - Limits: [wrap_aliases_slots] and [reserved_sequence_wedges] prove what
      happens at the end of the 32-bit sequence space. The position-based
      theorems about rings therefore assume [regular] windows: the slot count
      divides 2^32, or the window does not straddle the wrap.
      [revoked_gamepad_stays_down], [repeated_press_sticks] and
      [registration_order_matters] evaluate inputs on which the code does not
      do what its comments say, as do [given_up_seat_is_lost],
      [wait_serves_a_seat_twice] and [live_change_forgotten] of the encode loop,
      [refused_approval_stays_leased], [closed_capture_strands_input],
      [capability_outlives_approval] and [retried_approval_is_another] of the
      broker, [login_before_answer_ends] of the machine service and
      [abandoned_read_desyncs] of the socket between the two. The theorems they
      touch hold for all runs and name the exception: [stranded] in [Inject],
      [Floor] and [Broker], the labels [fits] and [tidy] of a run of [Stream],
      [hurried] in [BrokerSession].

    ** Not modelled

    Display strings of errors; the socket shells and transport adapters; the
    session I/O of [client-core] ([PeerSession], the runtime that holds the
    sockets of the paths); capture, encoding and playback, which are calls into
    drivers; the hosts' orchestration outside the encode loop's roster; the
    broker's sockets and key store; the signalling server outside its Connect
    broker, settings and desktop services; the front ends, which are in other languages. They are I/O around
    the parts above, or code whose logic is calls to libraries. Timing side
    channels and the strength of the cryptography are outside the model. *)

From stdpp Require Export base option list numbers.
From Stdlib Require Export ZArith Lia.

Global Open Scope Z_scope.

(** ** Field update

    [r <| f := v |>] is [r] with field [f] set to [v], the model of an
    assignment to a field of [self]. A record supports it once its eta
    expansion is declared with [Eta]. *)

Class Eta (R : Type) := eta : R -> R.
Class Setter {R E : Type} (proj : R -> E) := set_field : (E -> E) -> R -> R.
#[global] Arguments set_field {R E} proj {_} _ _ /.
#[global] Hint Mode Eta ! : typeclass_instances.

Ltac derive_setter R proj :=
  let e := constr:(eta : R -> R) in
  let e := eval hnf in e in
  match e with
  | context [proj] =>
      match eval pattern proj in e with
      | ?setter _ =>
          let s := constr:(fun f => setter (fun r => f (proj r))) in
          let s := eval cbv beta in s in exact s
      end
  end.

#[global] Hint Extern 1 (@Setter ?R _ ?proj) => derive_setter R proj : typeclass_instances.

Notation "r <| f := v |>" := (set_field f (fun _ => v) r)
  (at level 12, left associativity, f at level 1, v at level 99, format "r  <|  f  :=  v  |>").

(** ** Errors ([error.rs])

    [Error] has the source's constructors; [result] is Rust's [Result] at the
    crate's own error type, and stdpp's do-notation [x ← c; k] is the [?]
    operator. *)

Inductive Error :=
  | ShortDatagram
  | Decrypt
  | ShortPacket
  | Malformed
  | ShortAck
  | BufferTooSmall
  | BadLength
  | Oversized
  | BadKeyLength.

#[export] Instance Error_eq_dec : EqDecision Error.
Proof. solve_decision. Defined.

Inductive result (A : Type) :=
  | Ok (a : A)
  | Err (e : Error).
Arguments Ok {A} a.
Arguments Err {A} e.

#[export] Instance result_eq_dec `{EqDecision A} : EqDecision (result A).
Proof. solve_decision. Defined.

#[export] Instance result_ret : MRet result := fun A a => Ok a.
#[export] Instance result_bind : MBind result :=
  fun A B f m => match m with Ok a => f a | Err e => Err e end.
#[export] Instance result_fmap : FMap result :=
  fun A B f m => match m with Ok a => Ok (f a) | Err e => Err e end.

(** [Option::ok_or]. *)
Definition ok_or {A} (o : option A) (e : Error) : result A :=
  match o with Some a => Ok a | None => Err e end.

Definition is_ok {A} (r : result A) : bool :=
  match r with Ok _ => true | Err _ => false end.

(** Inverting a successful [?]. *)
Lemma bind_ok {A B} (m : result A) (f : A -> result B) b :
  (m ≫= f) = Ok b -> exists a, m = Ok a /\ f a = Ok b.
Proof. destruct m; cbn; [eauto|discriminate]. Qed.

Lemma ok_or_ok {A} (o : option A) e a : ok_or o e = Ok a <-> o = Some a.
Proof. destruct o; cbn; split; congruence. Qed.

Lemma ok_or_err {A} (o : option A) e e' : ok_or o e = Err e' -> o = None /\ e' = e.
Proof. destruct o; cbn; [done|]. by intros [= <-]. Qed.

(** ** Machine integers

    A [w]-bit unsigned integer is a [Z] in [0 <= z < 2^w]; the wrapping,
    saturating and checked operations the source uses are written out. [usize]
    is 64 bits wide. *)

Definition U8_MAX : Z := 255.
Definition U16_MAX : Z := 65535.
Definition U32_MAX : Z := 4294967295.
Definition U64_MAX : Z := 18446744073709551615.
Definition M32 : Z := 4294967296.

Definition wrap32 (z : Z) : Z := z mod M32.
Definition wrapping_add32 (a b : Z) : Z := wrap32 (a + b).
Definition wrapping_sub32 (a b : Z) : Z := wrap32 (a - b).
(** [x as i32] of a [u32]. *)
Definition as_i32 (z : Z) : Z := if z <? 2147483648 then z else z - M32.
Definition saturating_add (max a b : Z) : Z := Z.min max (a + b).
Definition saturating_sub (a b : Z) : Z := Z.max 0 (a - b).
Definition checked_add64 (a b : Z) : option Z :=
  if a + b <=? U64_MAX then Some (a + b) else None.
Definition checked_sub (a b : Z) : option Z :=
  if b <=? a then Some (a - b) else None.
Definition checked_mul64 (a b : Z) : option Z :=
  if a * b <=? U64_MAX then Some (a * b) else None.
(** [uN::try_from]. *)
Definition try_from (max z : Z) : option Z :=
  if (0 <=? z) && (z <=? max) then Some z else None.

Definition is_u8 (z : Z) : Prop := 0 <= z < 256.
Definition is_u16 (z : Z) : Prop := 0 <= z < 65536.
Definition is_u32 (z : Z) : Prop := 0 <= z < M32.
Definition is_u64 (z : Z) : Prop := 0 <= z <= U64_MAX.

(** ** Slices

    A Rust slice is a list; [zlen] is its length as a [usize], [get] and
    [slice] are [.get(i)] and [.get(a..b)], and [write] is
    [.get_mut(a..a + src.len())] followed by [copy_from_slice]. All of them
    return [None] exactly where the source's accessor does. *)

Definition zlen {A} (l : list A) : Z := Z.of_nat (length l).

Definition get {A} (l : list A) (i : Z) : option A :=
  if i <? 0 then None else l !! Z.to_nat i.

Definition slice {A} (l : list A) (a b : Z) : option (list A) :=
  if (0 <=? a) && (a <=? b) && (b <=? zlen l)
  then Some (take (Z.to_nat (b - a)) (drop (Z.to_nat a) l)) else None.

Definition slice_from {A} (l : list A) (a : Z) : option (list A) :=
  slice l a (zlen l).

Definition slice_to {A} (l : list A) (b : Z) : option (list A) :=
  slice l 0 b.

Definition write {A} (l : list A) (a : Z) (src : list A) : option (list A) :=
  if (0 <=? a) && (a + zlen src <=? zlen l)
  then Some (take (Z.to_nat a) l ++ src ++ drop (Z.to_nat (a + zlen src)) l)
  else None.

(** [slot = value] through [.get_mut(i)]; out of range nothing happens, which
    is what every [if let Some(slot) = ...] in the source does. *)
Definition set_at {A} (l : list A) (i : Z) (v : A) : list A :=
  if i <? 0 then l else <[Z.to_nat i := v]> l.

#[global] Arguments zlen : simpl never.
#[global] Arguments get : simpl never.
#[global] Arguments slice : simpl never.
#[global] Arguments slice_from : simpl never.
#[global] Arguments slice_to : simpl never.
#[global] Arguments write : simpl never.
#[global] Arguments set_at : simpl never.

(** ** Byte order *)

Definition bytes_ok (l : list Z) : Prop := Forall is_u8 l.

Fixpoint le_bytes (n : nat) (v : Z) : list Z :=
  match n with
  | O => []
  | S n => v mod 256 :: le_bytes n (v / 256)
  end.

Fixpoint le_val (bs : list Z) : Z :=
  match bs with
  | [] => 0
  | b :: bs => b + 256 * le_val bs
  end.

(** [to_be_bytes] and [from_be_bytes]. *)
Definition be_bytes (n : nat) (v : Z) : list Z := rev (le_bytes n v).
Definition be_val (bs : list Z) : Z := le_val (rev bs).

(** ** Lemmas: lengths and slices *)

Create Rewrite HintDb slices.

Lemma zlen_nonneg {A} (l : list A) : 0 <= zlen l.
Proof. unfold zlen; lia. Qed.

Lemma zlen_nil {A} : zlen (@nil A) = 0.
Proof. reflexivity. Qed.

Lemma zlen_cons {A} (x : A) l : zlen (x :: l) = 1 + zlen l.
Proof. unfold zlen; cbn [length]; lia. Qed.

Lemma zlen_app {A} (l k : list A) : zlen (l ++ k) = zlen l + zlen k.
Proof. unfold zlen; rewrite length_app; lia. Qed.

Lemma zlen_take {A} (n : nat) (l : list A) : zlen (take n l) = Z.min (Z.of_nat n) (zlen l).
Proof. unfold zlen; rewrite length_take; lia. Qed.

Lemma zlen_drop {A} (n : nat) (l : list A) : zlen (drop n l) = Z.max 0 (zlen l - Z.of_nat n).
Proof. unfold zlen; rewrite length_drop; lia. Qed.

Lemma zlen_replicate {A} (n : nat) (x : A) : zlen (replicate n x) = Z.of_nat n.
Proof. unfold zlen; rewrite length_replicate; lia. Qed.

Lemma zlen_insert {A} (l : list A) (i : nat) x : zlen (<[i:=x]> l) = zlen l.
Proof. unfold zlen; rewrite length_insert; lia. Qed.

Lemma zlen_le_bytes n v : zlen (le_bytes n v) = Z.of_nat n.
Proof.
  unfold zlen; f_equal; revert v; induction n; intros v; cbn; [done|].
  by rewrite IHn.
Qed.

Lemma zlen_be_bytes n v : zlen (be_bytes n v) = Z.of_nat n.
Proof. unfold be_bytes, zlen; rewrite length_rev; apply zlen_le_bytes. Qed.

Lemma zlen_set_at {A} (l : list A) i v : zlen (set_at l i v) = zlen l.
Proof. unfold set_at; case_match; [done|apply zlen_insert]. Qed.

Lemma zlen_map {A B} (f : A -> B) l : zlen (map f l) = zlen l.
Proof. unfold zlen; by rewrite length_map. Qed.

#[export] Hint Rewrite @zlen_nil @zlen_cons @zlen_app @zlen_take @zlen_drop
  @zlen_replicate @zlen_insert @zlen_le_bytes @zlen_be_bytes @zlen_set_at @zlen_map : slices.

(** Arithmetic over lengths: normalise every length, remember that lengths are
    not negative, and finish with [lia]. *)
Ltac zlen_pose :=
  repeat match goal with
  | |- context [zlen ?l] =>
      lazymatch goal with
      | _ : 0 <= zlen l |- _ => fail
      | _ => pose proof (zlen_nonneg l)
      end
  | _ : context [zlen ?l] |- _ =>
      lazymatch goal with
      | _ : 0 <= zlen l |- _ => fail
      | _ => pose proof (zlen_nonneg l)
      end
  end.

Ltac zlia := autorewrite with slices in *; zlen_pose; lia.

(** Turns the boolean guards of the model into propositions [lia] reads. *)
Ltac bool_prop :=
  repeat match goal with
  | H : _ && _ = true |- _ => apply andb_true_iff in H; destruct H
  | H : _ || _ = false |- _ => apply orb_false_iff in H; destruct H
  | H : negb _ = true |- _ => apply negb_true_iff in H
  | H : negb _ = false |- _ => apply negb_false_iff in H
  | H : (_ <=? _) = true |- _ => apply Z.leb_le in H
  | H : (_ <=? _) = false |- _ => apply Z.leb_gt in H
  | H : (_ <? _) = true |- _ => apply Z.ltb_lt in H
  | H : (_ <? _) = false |- _ => apply Z.ltb_ge in H
  | H : (_ =? _) = true |- _ => apply Z.eqb_eq in H
  | H : (_ =? _) = false |- _ => apply Z.eqb_neq in H
  end.

(** One step through a model: split the outermost [if] or [match] of a
    hypothesis, keeping the equation. *)
Ltac step_in H :=
  match type of H with
  | context [match ?x with _ => _ end] => destruct x eqn:?; try discriminate H
  end.

Lemma slice_some {A} (l : list A) a b :
  0 <= a -> a <= b -> b <= zlen l ->
  slice l a b = Some (take (Z.to_nat (b - a)) (drop (Z.to_nat a) l)).
Proof.
  intros. unfold slice.
  rewrite (proj2 (Z.leb_le 0 a)), (proj2 (Z.leb_le a b)), (proj2 (Z.leb_le b (zlen l))); by try lia.
Qed.

Lemma slice_inv {A} (l : list A) a b s :
  slice l a b = Some s ->
  0 <= a /\ a <= b /\ b <= zlen l /\ s = take (Z.to_nat (b - a)) (drop (Z.to_nat a) l).
Proof. unfold slice. case_match; [|done]. intros [= <-]. bool_prop. auto. Qed.

Lemma slice_none {A} (l : list A) a b :
  slice l a b = None -> 0 <= a -> a <= b -> zlen l < b.
Proof.
  intros H ??. destruct (Z.lt_ge_cases (zlen l) b); [done|].
  rewrite slice_some in H by lia. done.
Qed.

Lemma zlen_slice {A} (l : list A) a b s : slice l a b = Some s -> zlen s = b - a.
Proof. intros (?&?&?&->)%slice_inv. zlia. Qed.

(** The middle of a concatenation. *)
Lemma slice_mid {A} (p s q : list A) a b :
  a = zlen p -> b = zlen p + zlen s -> slice (p ++ s ++ q) a b = Some s.
Proof.
  intros -> ->. rewrite slice_some; [|zlia..].
  f_equal. unfold zlen.
  rewrite Nat2Z.id, drop_app_length.
  replace (Z.to_nat _) with (length s) by lia.
  apply take_app_length.
Qed.

Lemma slice_at {A} (l p s q : list A) a b :
  l = p ++ s ++ q -> a = zlen p -> b = zlen p + zlen s -> slice l a b = Some s.
Proof. intros ->. apply slice_mid. Qed.

Lemma slice_all {A} (l : list A) : slice l 0 (zlen l) = Some l.
Proof. rewrite slice_some by zlia. rewrite Z.sub_0_r. unfold zlen. rewrite Nat2Z.id, drop_0, firstn_all. done. Qed.

Lemma slice_tail {A} (p s : list A) a : a = zlen p -> slice_from (p ++ s) a = Some s.
Proof.
  intros ->. unfold slice_from. rewrite <- (app_nil_r s) at 1.
  apply slice_mid; [done|]. zlia.
Qed.

Lemma slice_head {A} (s q : list A) b : b = zlen s -> slice_to (s ++ q) b = Some s.
Proof. intros ->. apply (slice_mid [] s q); zlia. Qed.

Lemma get_some {A} (l : list A) i : 0 <= i < zlen l -> exists x, get l i = Some x.
Proof.
  intros H. unfold get. rewrite (proj2 (Z.ltb_ge i 0)) by lia.
  destruct (lookup_lt_is_Some_2 l (Z.to_nat i)) as [x Hx]; [unfold zlen in *; lia|].
  eauto.
Qed.

Lemma get_inv {A} (l : list A) i x : get l i = Some x -> 0 <= i < zlen l /\ l !! Z.to_nat i = Some x.
Proof.
  unfold get. case_match; [done|]. intros Hx. bool_prop.
  pose proof (lookup_lt_Some _ _ _ Hx). unfold zlen. split; [lia|done].
Qed.

Lemma get_lookup {A} (l : list A) i : 0 <= i -> get l i = l !! Z.to_nat i.
Proof. intros. unfold get. rewrite (proj2 (Z.ltb_ge i 0)) by lia. done. Qed.

Lemma get_cons_0 {A} (x : A) l : get (x :: l) 0 = Some x.
Proof. done. Qed.

Lemma get_none {A} (l : list A) i : zlen l <= i -> get l i = None.
Proof.
  intros H. unfold get. case_match; [done|]. bool_prop.
  apply lookup_ge_None. unfold zlen in *. lia.
Qed.

Lemma get_set_at {A} (l : list A) i j v :
  0 <= i < zlen l ->
  get (set_at l i v) j = if decide (i = j) then Some v else get l j.
Proof.
  intros Hi. unfold get, set_at, zlen in *. rewrite (proj2 (Z.ltb_ge i 0)) by lia.
  case_decide; subst.
  - rewrite (proj2 (Z.ltb_ge j 0)) by lia. apply list_lookup_insert_eq. lia.
  - case_match; [done|]. bool_prop. apply list_lookup_insert_ne. lia.
Qed.

Lemma Forall_set_at {A} (P : A -> Prop) (l : list A) i v : Forall P l -> P v -> Forall P (set_at l i v).
Proof. intros Hl Hv. unfold set_at. case_match; [done|]. by apply Forall_insert. Qed.

Lemma Forall_get {A} (P : A -> Prop) (l : list A) i x : Forall P l -> get l i = Some x -> P x.
Proof. intros Hl (_ & Hx)%get_inv. by apply (Forall_lookup_1 P l _ x Hl Hx). Qed.

Lemma get_replicate {A} (n : nat) (x : A) i : 0 <= i < Z.of_nat n -> get (replicate n x) i = Some x.
Proof. intros. rewrite get_lookup by lia. apply lookup_replicate. split; [done|lia]. Qed.

Lemma write_some {A} (l : list A) a src :
  0 <= a -> a + zlen src <= zlen l ->
  write l a src = Some (take (Z.to_nat a) l ++ src ++ drop (Z.to_nat (a + zlen src)) l).
Proof.
  intros. unfold write. rewrite (proj2 (Z.leb_le 0 a)), (proj2 (Z.leb_le _ (zlen l))); by try lia.
Qed.

Lemma write_inv {A} (l : list A) a src l' :
  write l a src = Some l' ->
  0 <= a /\ a + zlen src <= zlen l /\
  l' = take (Z.to_nat a) l ++ src ++ drop (Z.to_nat (a + zlen src)) l.
Proof. unfold write. case_match; [|done]. intros [= <-]. bool_prop. auto. Qed.

Lemma zlen_write {A} (l : list A) a src l' : write l a src = Some l' -> zlen l' = zlen l.
Proof. intros (?&?&->)%write_inv. zlia. Qed.

(** What was written is read back, and a disjoint range is untouched. *)
Lemma slice_write_same {A} (l : list A) a src l' :
  write l a src = Some l' -> slice l' a (a + zlen src) = Some src.
Proof. intros (?&?&->)%write_inv. apply slice_mid; zlia. Qed.

Lemma get_write {A} (l : list A) a src l' i :
  write l a src = Some l' ->
  get l' i = if (a <=? i) && (i <? a + zlen src) then get src (i - a) else get l i.
Proof.
  intros (?&?&->)%write_inv.
  destruct (Z.ltb_spec i 0) as [Hneg|Hneg].
  { unfold get. rewrite (proj2 (Z.ltb_lt i 0)), (proj2 (Z.leb_gt a i)) by lia. done. }
  rewrite !get_lookup by lia.
  destruct (Z.leb_spec a i); cbn [andb].
  - rewrite lookup_app_r by (rewrite length_take; lia).
    rewrite length_take, Nat.min_l by (unfold zlen in *; lia).
    destruct (Z.ltb_spec i (a + zlen src)).
    + rewrite get_lookup by lia. rewrite lookup_app_l by (unfold zlen in *; lia).
      f_equal. lia.
    + rewrite lookup_app_r by (unfold zlen in *; lia). rewrite lookup_drop.
      rewrite get_lookup by lia. f_equal. unfold zlen in *. lia.
  - rewrite lookup_app_l by (rewrite length_take; unfold zlen in *; lia).
    rewrite get_lookup by lia. apply lookup_take_lt. lia.
Qed.

(** Two slices are equal when every element is. *)
Lemma list_eq_get {A} (l k : list A) :
  zlen l = zlen k -> (forall i, 0 <= i < zlen l -> get l i = get k i) -> l = k.
Proof.
  intros Hlen H. apply list_eq. intros i.
  destruct (Nat.lt_ge_cases i (length l)) as [Hi|Hi].
  - specialize (H (Z.of_nat i)). rewrite !get_lookup, Nat2Z.id in H by lia.
    apply H. unfold zlen; lia.
  - rewrite !lookup_ge_None_2; [done|unfold zlen in *; lia..].
Qed.

Lemma get_slice {A} (l : list A) a b s i :
  slice l a b = Some s -> 0 <= i < b - a -> get s i = get l (a + i).
Proof.
  intros (?&?&?&->)%slice_inv Hi. rewrite !get_lookup by lia.
  rewrite lookup_take_lt by lia. rewrite lookup_drop. f_equal. lia.
Qed.

Lemma slice_write_disjoint {A} (l : list A) a src l' c d :
  write l a src = Some l' -> d <= a \/ a + zlen src <= c ->
  slice l' c d = slice l c d.
Proof.
  intros Hw Hdis. pose proof (zlen_write _ _ _ _ Hw) as Hlen.
  destruct (slice l c d) as [s|] eqn:Hs; destruct (slice l' c d) as [s'|] eqn:Hs'; [|exfalso..|done].
  - f_equal. pose proof (zlen_slice _ _ _ _ Hs). pose proof (zlen_slice _ _ _ _ Hs').
    apply list_eq_get; [lia|]. intros i Hi.
    rewrite (get_slice _ _ _ _ _ Hs), (get_slice _ _ _ _ _ Hs') by lia.
    rewrite (get_write _ _ _ _ _ Hw).
    destruct (Z.leb_spec a (c + i)), (Z.ltb_spec (c + i) (a + zlen src)); cbn [andb]; try done; lia.
  - apply slice_inv in Hs. apply slice_none in Hs'; lia.
  - apply slice_inv in Hs'. apply slice_none in Hs; lia.
Qed.

Lemma slice_write_prefix {A} (l : list A) src l' :
  write l 0 src = Some l' -> slice_to l' (zlen src) = Some src.
Proof. intros H. apply (slice_write_same _ _ _ _ H). Qed.

Lemma take_write {A} (l : list A) a src l' n :
  write l a src = Some l' -> n = a + zlen src -> take (Z.to_nat n) l' = take (Z.to_nat a) l ++ src.
Proof.
  intros (?&?&->)%write_inv ->. rewrite app_assoc. apply take_app_length'.
  rewrite length_app, length_take. unfold zlen in *. lia.
Qed.

Lemma drop_write {A} (l : list A) a src l' n :
  write l a src = Some l' -> a + zlen src <= n -> drop (Z.to_nat n) l' = drop (Z.to_nat n) l.
Proof.
  intros (?&?&->)%write_inv Hn. zlen_pose. rewrite app_assoc, drop_app_ge by (rewrite length_app, length_take; unfold zlen in *; lia).
  rewrite drop_drop. f_equal. rewrite length_app, length_take. unfold zlen in *. lia.
Qed.

(** Overwriting a part of a list in place. *)
Lemma write_mid {A} (l p s s' q : list A) a : l = p ++ s ++ q -> a = zlen p -> zlen s' = zlen s -> write l a s' = Some (p ++ s' ++ q).
Proof.
  intros -> -> H. rewrite write_some by zlia. f_equal. rewrite take_app_length' by (unfold zlen; lia). do 2 f_equal. rewrite app_assoc.
  apply drop_app_length'. rewrite length_app. unfold zlen in *. lia.
Qed.

(** ** Lemmas: byte order *)

Lemma le_bytes_ok n v : bytes_ok (le_bytes n v).
Proof.
  revert v. induction n; intros v; cbn; [constructor|]. constructor; [|apply IHn].
  unfold is_u8. apply Z.mod_pos_bound. lia.
Qed.

Lemma be_bytes_ok n v : bytes_ok (be_bytes n v).
Proof. unfold be_bytes, bytes_ok. apply Forall_rev, le_bytes_ok. Qed.

Lemma le_val_range bs : bytes_ok bs -> 0 <= le_val bs < 256 ^ zlen bs.
Proof.
  induction 1 as [|b bs Hb _ IH]; [by vm_compute|].
  cbn [le_val]. unfold is_u8 in Hb. rewrite zlen_cons, Z.pow_add_r by (zlen_pose; lia). nia.
Qed.

Lemma be_val_range bs : bytes_ok bs -> 0 <= be_val bs < 256 ^ zlen bs.
Proof.
  intros H. unfold be_val. replace (zlen bs) with (zlen (rev bs)).
  - apply le_val_range, Forall_rev, H.
  - unfold zlen. by rewrite length_rev.
Qed.

Lemma le_val_bytes n v : 0 <= v < 256 ^ Z.of_nat n -> le_val (le_bytes n v) = v.
Proof.
  revert v. induction n as [|n IH]; intros v Hv; cbn [le_bytes le_val].
  - cbn in Hv. lia.
  - rewrite Nat2Z.inj_succ, Z.pow_succ_r in Hv by lia.
    rewrite IH; [|split; [apply Z.div_pos; lia|apply Z.div_lt_upper_bound; lia]].
    pose proof (Z.div_mod v 256 ltac:(lia)). lia.
Qed.

Lemma be_val_bytes n v : 0 <= v < 256 ^ Z.of_nat n -> be_val (be_bytes n v) = v.
Proof. intros. unfold be_val, be_bytes. rewrite rev_involutive. by apply le_val_bytes. Qed.

Lemma le_bytes_val bs : bytes_ok bs -> le_bytes (length bs) (le_val bs) = bs.
Proof.
  induction 1 as [|b bs Hb _ IH]; [done|]. cbn [length le_bytes le_val]. unfold is_u8 in Hb.
  f_equal.
  - rewrite (Z.mul_comm 256), Z.mod_add, Z.mod_small; lia.
  - etransitivity; [|exact IH]. f_equal.
    rewrite (Z.mul_comm 256), Z.div_add, Z.div_small; lia.
Qed.

Lemma be_bytes_val bs n : bytes_ok bs -> length bs = n -> be_bytes n (be_val bs) = bs.
Proof.
  intros H <-. unfold be_val, be_bytes. rewrite <- (length_rev bs).
  rewrite le_bytes_val by (apply Forall_rev, H). apply rev_involutive.
Qed.

Lemma bytes_ok_slice l a b s : bytes_ok l -> slice l a b = Some s -> bytes_ok s.
Proof. intros H (?&?&?&->)%slice_inv. apply Forall_take, Forall_drop, H. Qed.

Lemma bytes_ok_get l i b : bytes_ok l -> get l i = Some b -> is_u8 b.
Proof. intros H [_ Hg]%get_inv. eapply Forall_lookup_1; eauto. Qed.

Lemma bytes_ok_app l k : bytes_ok (l ++ k) <-> bytes_ok l /\ bytes_ok k.
Proof. apply Forall_app. Qed.

Lemma bytes_ok_replicate0 n : bytes_ok (replicate n 0).
Proof. apply Forall_replicate. unfold is_u8; lia. Qed.

(** The bytes of a fixed-width integer, spelled out. *)
Lemma be_bytes_2 v : exists a b, be_bytes 2 v = [a; b].
Proof. eexists _, _. reflexivity. Qed.

Lemma be_bytes_4 v : exists a b c d, be_bytes 4 v = [a; b; c; d].
Proof. eexists _, _, _, _. reflexivity. Qed.

(** ** Lemmas: machine integers *)

Lemma wrap32_range z : 0 <= wrap32 z < M32.
Proof. apply Z.mod_pos_bound. unfold M32; lia. Qed.

Lemma wrapping_add32_u32 a b : is_u32 (wrapping_add32 a b).
Proof. apply wrap32_range. Qed.

Lemma wrap32_small z : 0 <= z < M32 -> wrap32 z = z.
Proof. apply Z.mod_small. Qed.

Lemma wrap32_add_l a b : wrap32 (wrap32 a + b) = wrap32 (a + b).
Proof. unfold wrap32. apply Zplus_mod_idemp_l. Qed.

Lemma wrap32_add_r a b : wrap32 (a + wrap32 b) = wrap32 (a + b).
Proof. unfold wrap32. apply Zplus_mod_idemp_r. Qed.

Lemma wrap32_sub_l a b : wrap32 (wrap32 a - b) = wrap32 (a - b).
Proof. unfold wrap32. apply Zminus_mod_idemp_l. Qed.

Lemma wrap32_sub_r a b : wrap32 (a - wrap32 b) = wrap32 (a - b).
Proof. unfold wrap32. apply Zminus_mod_idemp_r. Qed.

Lemma wrap32_wrap32 a : wrap32 (wrap32 a) = wrap32 a.
Proof. unfold wrap32. apply Z.mod_mod. unfold M32; lia. Qed.

Create Rewrite HintDb wrap.
#[export] Hint Rewrite wrap32_add_l wrap32_add_r wrap32_sub_l wrap32_sub_r wrap32_wrap32 : wrap.

Lemma checked_add64_some a b : 0 <= a -> 0 <= b -> a + b <= U64_MAX -> checked_add64 a b = Some (a + b).
Proof. intros. unfold checked_add64. rewrite (proj2 (Z.leb_le _ _)); [done|lia]. Qed.

Lemma checked_mul64_some a b : a * b <= U64_MAX -> checked_mul64 a b = Some (a * b).
Proof. intros. unfold checked_mul64. rewrite (proj2 (Z.leb_le _ _)); [done|lia]. Qed.

Lemma try_from_some max z : 0 <= z <= max -> try_from max z = Some z.
Proof. intros. unfold try_from. rewrite (proj2 (Z.leb_le 0 z)), (proj2 (Z.leb_le z max)) by lia. done. Qed.

Lemma try_from_inv max z v : try_from max z = Some v -> v = z /\ 0 <= z <= max.
Proof. unfold try_from. case_match; [|done]. intros [= <-]. bool_prop. lia. Qed.

(** A property of every byte value is decided by enumeration: used for the
    flag bytes of the wire formats. *)
Definition all_bytes : list Z := seqZ 0 256.

Lemma byte_cases (P : Z -> bool) : forallb P all_bytes = true -> forall b, is_u8 b -> P b = true.
Proof.
  intros H b Hb. rewrite forallb_forall in H. apply H.
  apply list_elem_of_In, elem_of_seqZ. unfold is_u8 in Hb. lia.
Qed.

(** Boolean forms of the range predicates, for concrete inputs. *)
Definition rangeb (m : Z) (l : list Z) : bool := forallb (fun b => (0 <=? b) && (b <? m)) l.

Lemma rangeb_spec m l : rangeb m l = true -> Forall (fun b => 0 <= b < m) l.
Proof.
  induction l as [|b l IH]; cbn; intros H; constructor.
  - bool_prop. lia.
  - apply IH. by bool_prop.
Qed.

Lemma bytes_ok_b l : rangeb 256 l = true -> bytes_ok l.
Proof. apply rangeb_spec. Qed.

Lemma u32s_ok_b l : rangeb M32 l = true -> Forall is_u32 l.
Proof. apply rangeb_spec. Qed.
