(* ===== verification/F64.v ===== *)
(** * IEEE 754 binary64, as the source's [f64]

    Times, rates and round trips are [f64] throughout the core. They are
    modelled by the Standard Library's executable specification of IEEE 754
    arithmetic ([SpecFloat], [prec = 53], [emax = 1024], round to nearest even),
    so NaN, infinities, signed zero and rounding behave as on the machine. The
    comparisons are Rust's operators: every one of them is [false] on a NaN. *)

From Stdlib Require Import SpecFloat.
From S2P Require Import Prelude.

Definition f64 : Type := spec_float.

Declare Scope f64_scope.
Delimit Scope f64_scope with f64.
Bind Scope f64_scope with f64.

Definition f_zero : f64 := S754_zero false.
Definition f_inf : f64 := S754_infinity false.
Definition f_nan : f64 := S754_nan.

Definition f_add : f64 -> f64 -> f64 := SFadd 53 1024.
Definition f_sub : f64 -> f64 -> f64 := SFsub 53 1024.
Definition f_mul : f64 -> f64 -> f64 := SFmul 53 1024.
Definition f_div : f64 -> f64 -> f64 := SFdiv 53 1024.

(** [x as f64] and [f64::from]: round the integer to nearest even. *)
Definition f_of_Z (z : Z) : f64 := binary_normalize 53 1024 z 0 false.

(** A decimal literal [n / d]: both parts are exact, so the correctly rounded
    quotient is the literal's value. *)
Definition f_lit (n d : Z) : f64 := f_div (f_of_Z n) (f_of_Z d).

Definition f_ltb (x y : f64) : bool := SFltb x y.
Definition f_leb (x y : f64) : bool := SFleb x y.
Definition f_is_nan (x : f64) : bool :=
  match x with S754_nan => true | _ => false end.
Definition f_is_finite (x : f64) : bool :=
  match x with S754_zero _ | S754_finite _ _ _ => true | _ => false end.

Infix "+" := f_add : f64_scope.
Infix "-" := f_sub : f64_scope.
Infix "*" := f_mul : f64_scope.
Infix "/" := f_div : f64_scope.
Infix "<?" := f_ltb : f64_scope.
Infix "<=?" := f_leb : f64_scope.
Notation "x >? y" := (f_ltb y x) (only parsing) : f64_scope.
Notation "x >=? y" := (f_leb y x) (only parsing) : f64_scope.

(** [f64::max] and [f64::min]: the other argument when one is a NaN. *)
Definition f_max (a b : f64) : f64 :=
  if f_is_nan a then b else if f_is_nan b then a
  else if (a <? b)%f64 then b else a.
Definition f_min (a b : f64) : f64 :=
  if f_is_nan a then b else if f_is_nan b then a
  else if (b <? a)%f64 then b else a.

(** [f64::clamp], for bounds that satisfy its assertion [min <= max]. *)
Definition f_clamp (x lo hi : f64) : f64 :=
  let x := if (x <? lo)%f64 then lo else x in
  if (hi <? x)%f64 then hi else x.

(** [x as usize]: truncate toward zero and saturate; a NaN is zero. *)
Definition f_to_usize (x : f64) : Z :=
  match x with
  | S754_finite false m e =>
      Z.min U64_MAX (if 0 <=? e then Z.shiftl (Zpos m) e else Z.shiftr (Zpos m) (- e))
  | S754_infinity false => U64_MAX
  | _ => 0
  end.

(** ** Order *)

Create HintDb f64.

Ltac f_crush :=
  repeat match goal with
  | x : f64 |- _ => destruct x as [[]|[]| |[]]
  end; cbn in *; try done.

Lemma f_ltb_leb x y : (x <? y)%f64 = true -> (x <=? y)%f64 = true.
Proof. unfold f_ltb, f_leb, SFltb, SFleb. repeat case_match; done. Qed.

Lemma pos_compare_cont m n : Pos.compare_cont Eq m n = (m ?= n)%positive.
Proof. done. Qed.

Lemma SFcompare_opp x y : SFcompare y x = CompOpp <$> SFcompare x y.
Proof.
  destruct x as [[]|[]| |[] m e], y as [[]|[]| |[] m' e']; cbn [SFcompare fmap option_fmap option_map CompOpp]; try done.
  all: rewrite (pos_compare_cont m m'), (pos_compare_cont m' m), (Z.compare_antisym e e'), (Pos.compare_antisym m m').
  all: destruct (e ?= e'), (m ?= m')%positive; cbn; done.
Qed.

Lemma f_leb_refl x : f_is_nan x = false -> (x <=? x)%f64 = true.
Proof.
  intros H. unfold f_leb, SFleb.
  destruct x as [[]|[]| |[] m e]; cbn [SFcompare] in *; try done.
  all: rewrite pos_compare_cont, Z.compare_refl, Pos.compare_refl; done.
Qed.

(** On numbers the order is total. *)
Lemma f_ltb_false x y :
  f_is_nan x = false -> f_is_nan y = false -> (x <? y)%f64 = false -> (y <=? x)%f64 = true.
Proof.
  unfold f_ltb, f_leb, SFltb, SFleb. rewrite (SFcompare_opp x y).
  destruct (SFcompare x y) as [[]|] eqn:E; cbn; try done.
  destruct x, y; done.
Qed.

Lemma f_ltb_not_leb x y : (x <? y)%f64 = true -> (y <=? x)%f64 = false.
Proof.
  unfold f_ltb, f_leb, SFltb, SFleb. rewrite (SFcompare_opp x y).
  by destruct (SFcompare x y) as [[]|].
Qed.

Lemma f_leb_num x y : (x <=? y)%f64 = true -> f_is_nan x = false /\ f_is_nan y = false.
Proof. unfold f_leb, SFleb. destruct x, y; cbn; done. Qed.

Lemma f_ltb_num x y : (x <? y)%f64 = true -> f_is_nan x = false /\ f_is_nan y = false.
Proof. intros H. apply f_leb_num, f_ltb_leb, H. Qed.

Definition cmp_leb (c : option comparison) : bool :=
  match c with Some (Lt | Eq) => true | _ => false end.

Lemma f_leb_trans x y z :
  (x <=? y)%f64 = true -> (y <=? z)%f64 = true -> (x <=? z)%f64 = true.
Proof.
  change (cmp_leb (SFcompare x y) = true -> cmp_leb (SFcompare y z) = true ->
          cmp_leb (SFcompare x z) = true).
  destruct x as [[]|[]| |[] m1 e1], y as [[]|[]| |[] m2 e2], z as [[]|[]| |[] m3 e3];
    cbn [SFcompare cmp_leb]; try done.
  all: rewrite ?(pos_compare_cont m1 m2), ?(pos_compare_cont m2 m3), ?(pos_compare_cont m1 m3).
  all: destruct (Z.compare_spec e1 e2), (Z.compare_spec e2 e3), (Z.compare_spec e1 e3);
    cbn [CompOpp]; try done; try (exfalso; lia).
  all: destruct (Pos.compare_spec m1 m2), (Pos.compare_spec m2 m3), (Pos.compare_spec m1 m3);
    cbn [CompOpp]; try done; exfalso; lia.
Qed.

Lemma f_min_le_r a b : f_is_nan b = false -> (f_min a b <=? b)%f64 = true.
Proof.
  intros Hb. unfold f_min. destruct (f_is_nan a) eqn:Ha; [by apply f_leb_refl|].
  rewrite Hb. destruct (b <? a)%f64 eqn:E; [by apply f_leb_refl|].
  by apply f_ltb_false.
Qed.

Lemma f_min_le_l a b : f_is_nan a = false -> (f_min a b <=? a)%f64 = true.
Proof.
  intros Ha. unfold f_min. rewrite Ha. destruct (f_is_nan b) eqn:Hb; [by apply f_leb_refl|].
  destruct (b <? a)%f64 eqn:E; [by apply f_ltb_leb|by apply f_leb_refl].
Qed.

Lemma f_max_ge_r a b : f_is_nan b = false -> (b <=? f_max a b)%f64 = true.
Proof.
  intros Hb. unfold f_max. destruct (f_is_nan a) eqn:Ha; [by apply f_leb_refl|].
  rewrite Hb. destruct (a <? b)%f64 eqn:E; [by apply f_leb_refl|].
  by apply f_ltb_false.
Qed.

Lemma f_max_ge_l a b : f_is_nan a = false -> (a <=? f_max a b)%f64 = true.
Proof.
  intros Ha. unfold f_max. rewrite Ha. destruct (f_is_nan b) eqn:Hb; [by apply f_leb_refl|].
  destruct (a <? b)%f64 eqn:E; [by apply f_ltb_leb|by apply f_leb_refl].
Qed.

Lemma f_min_num a b : f_is_nan b = false -> f_is_nan (f_min a b) = false.
Proof. intros Hb. unfold f_min. repeat case_match; congruence. Qed.

Lemma f_max_num a b : f_is_nan b = false -> f_is_nan (f_max a b) = false.
Proof. intros Hb. unfold f_max. repeat case_match; congruence. Qed.

(** A lower bound of both is a lower bound of the minimum. *)
Lemma f_min_glb c a b : (c <=? a)%f64 = true -> (c <=? b)%f64 = true -> (c <=? f_min a b)%f64 = true.
Proof. intros. unfold f_min. repeat case_match; done. Qed.

Lemma f_clamp_range x lo hi :
  f_is_nan x = false -> (lo <=? hi)%f64 = true ->
  (lo <=? f_clamp x lo hi)%f64 = true /\ (f_clamp x lo hi <=? hi)%f64 = true.
Proof.
  intros Hx Hlh. destruct (f_leb_num _ _ Hlh) as [Hlo Hhi]. unfold f_clamp.
  destruct (x <? lo)%f64 eqn:E1.
  - destruct (hi <? lo)%f64 eqn:E2.
    + apply f_ltb_not_leb in E2. congruence.
    + split; [by apply f_leb_refl|done].
  - destruct (hi <? x)%f64 eqn:E2.
    + split; [done|by apply f_leb_refl].
    + split; by apply f_ltb_false.
Qed.

Lemma f_finite_num x : f_is_finite x = true -> f_is_nan x = false.
Proof. destruct x; done. Qed.

(** ** Operations that stay numbers

    Rounding a magnitude never yields a NaN, so a sum, difference or product is
    a NaN only when the standard says so: [inf - inf], [0 * inf], or a NaN
    operand. *)

Lemma shr_1_nonneg r : 0 <= shr_m r -> 0 <= shr_m (shr_1 r).
Proof. destruct r as [[|[]|[]] r s]; cbn; lia. Qed.

Lemma iter_shr_nonneg p r : 0 <= shr_m r -> 0 <= shr_m (SpecFloat.iter_pos shr_1 p r).
Proof. revert r. induction p as [p IH|p IH|]; intros r H; cbn [SpecFloat.iter_pos]; auto using shr_1_nonneg. Qed.

Lemma shr_fexp_nonneg m e l : 0 <= m -> 0 <= shr_m (shr_fexp 53 1024 m e l).1.
Proof.
  intros H. assert (H0 : 0 <= shr_m (shr_record_of_loc m l)) by (by destruct l as [|[]]).
  unfold shr_fexp, shr. case_match; cbn [fst]; auto using iter_shr_nonneg.
Qed.

Lemma round_nearest_even_nonneg m l : 0 <= m -> 0 <= round_nearest_even m l.
Proof. intros H. destruct l as [|[]]; cbn; repeat case_match; lia. Qed.

Lemma binary_round_aux_num s m e l : 0 <= m -> f_is_nan (binary_round_aux 53 1024 s m e l) = false.
Proof.
  intros H. unfold binary_round_aux.
  pose proof (shr_fexp_nonneg m e l H) as H1. destruct (shr_fexp 53 1024 m e l) as [r1 e1]. cbn [fst] in H1.
  pose proof (shr_fexp_nonneg _ e1 loc_Exact (round_nearest_even_nonneg (shr_m r1) (loc_of_shr_record r1) H1)) as H2.
  destruct (shr_fexp _ _ _ _ _) as [r2 e2]. cbn [fst] in H2. destruct (shr_m r2); [done| |lia]. by case_match.
Qed.

Lemma binary_normalize_num z e s : f_is_nan (binary_normalize 53 1024 z e s) = false.
Proof.
  destruct z; cbn [binary_normalize]; [done|..]; unfold binary_round; case_match; by apply binary_round_aux_num.
Qed.

Lemma f_of_Z_num z : f_is_nan (f_of_Z z) = false.
Proof. apply binary_normalize_num. Qed.

Lemma f_add_num x y : f_is_nan x = false -> f_is_finite y = true -> f_is_nan (x + y)%f64 = false.
Proof.
  intros Hx Hy. destruct x as [[]|[]| |[] m e], y as [[]|[]| |[] m' e']; try done; cbn [f_add SFadd]; try done;
    apply binary_normalize_num.
Qed.

Lemma f_sub_num x y : f_is_nan x = false -> f_is_finite y = true -> f_is_nan (x - y)%f64 = false.
Proof.
  intros Hx Hy. destruct x as [[]|[]| |[] m e], y as [[]|[]| |[] m' e']; try done; cbn [f_sub SFsub]; try done;
    apply binary_normalize_num.
Qed.

(** A non-zero finite factor keeps a number a number. *)
Definition f_is_nonzero (x : f64) : bool := match x with S754_finite _ _ _ => true | _ => false end.

Lemma f_mul_num x y : f_is_nan x = false -> f_is_nonzero y = true -> f_is_nan (x * y)%f64 = false.
Proof.
  intros Hx Hy. destruct x as [[]|[]| |[] m e], y as [[]|[]| |[] m' e']; try done; cbn [f_mul SFmul]; try done;
    by apply binary_round_aux_num.
Qed.

#[export] Hint Resolve f_of_Z_num f_add_num f_sub_num f_mul_num : f64.

#[export] Hint Resolve f_ltb_leb f_leb_refl f_min_le_r f_min_le_l f_max_ge_r f_max_ge_l
  f_min_num f_max_num f_finite_num : f64.

#[global] Arguments f_add : simpl never.
#[global] Arguments f_sub : simpl never.
#[global] Arguments f_mul : simpl never.
#[global] Arguments f_div : simpl never.
#[global] Arguments f_of_Z : simpl never.
#[global] Arguments f_lit : simpl never.
#[global] Arguments f_ltb : simpl never.
#[global] Arguments f_leb : simpl never.
#[global] Arguments f_min : simpl never.
#[global] Arguments f_max : simpl never.
#[global] Arguments f_clamp : simpl never.
