(* ===== verification/Seq.v ===== *)
(** * Serial number arithmetic ([core/src/seq.rs])

    The RFC 1982 comparisons every sequence number goes through, on [u32], and
    their meaning: on sequence numbers that are the low 32 bits of unbounded
    stream positions less than [2^31] apart, they are the integer order. *)

From S2P Require Import Prelude.

(** [seq::gt]: [a] is after [b]. *)
Definition gt (a b : Z) : bool := 0 <? as_i32 (wrapping_sub32 a b).
(** [seq::ge]: [a] is at or after [b]. *)
Definition ge (a b : Z) : bool := 0 <=? as_i32 (wrapping_sub32 a b).
(** [seq::lt]. *)
Definition lt (a b : Z) : bool := gt b a.
(** [seq::le]. *)
Definition le (a b : Z) : bool := ge b a.
(** [seq::distance]: from [a] forward to [b]. *)
Definition distance (a b : Z) : Z := wrapping_sub32 b a.

(** The distance, read as a signed 32-bit offset, is the true offset while it
    fits in 32 signed bits. *)
Lemma as_i32_offset (d : Z) : -2147483648 <= d < 2147483648 -> as_i32 (wrap32 d) = d.
Proof.
  intros Hd. unfold as_i32, wrap32, M32.
  destruct (Z.lt_ge_cases d 0).
  - replace (d mod 4294967296) with (d + 4294967296).
    + case_match; bool_prop; lia.
    + symmetry. rewrite <- (Z.mod_add d 1) by lia. apply Z.mod_small. lia.
  - rewrite Z.mod_small by lia. case_match; bool_prop; lia.
Qed.

Lemma wrapping_sub_wrap (a b : Z) : wrapping_sub32 (wrap32 a) (wrap32 b) = wrap32 (a - b).
Proof. unfold wrapping_sub32. by autorewrite with wrap. Qed.

Lemma gt_wrap (a b : Z) : -2147483648 <= a - b < 2147483648 -> gt (wrap32 a) (wrap32 b) = (b <? a).
Proof.
  intros H. unfold gt. rewrite wrapping_sub_wrap, as_i32_offset by lia.
  destruct (Z.ltb_spec 0 (a - b)), (Z.ltb_spec b a); done || lia.
Qed.

Lemma ge_wrap (a b : Z) : -2147483648 <= a - b < 2147483648 -> ge (wrap32 a) (wrap32 b) = (b <=? a).
Proof.
  intros H. unfold ge. rewrite wrapping_sub_wrap, as_i32_offset by lia.
  destruct (Z.leb_spec 0 (a - b)), (Z.leb_spec b a); done || lia.
Qed.

Lemma lt_wrap (a b : Z) : -2147483648 <= b - a < 2147483648 -> lt (wrap32 a) (wrap32 b) = (a <? b).
Proof. apply gt_wrap. Qed.

Lemma le_wrap (a b : Z) : -2147483648 <= b - a < 2147483648 -> le (wrap32 a) (wrap32 b) = (a <=? b).
Proof. apply ge_wrap. Qed.

Lemma distance_wrap (a b : Z) : 0 <= b - a < M32 -> distance (wrap32 a) (wrap32 b) = b - a.
Proof. intros H. unfold distance. rewrite wrapping_sub_wrap. by apply wrap32_small. Qed.

(** The two halves of the circle: [lt a b] holds exactly when the forward
    distance from [a] to [b] is in the near half. *)
Lemma lt_distance (a b : Z) : lt a b = (0 <? distance a b) && (distance a b <? 2147483648).
Proof.
  unfold lt, gt, distance, as_i32.
  pose proof (wrap32_range (b - a)) as H. unfold wrapping_sub32, M32 in *.
  destruct (Z.ltb_spec (wrap32 (b - a)) 2147483648);
    destruct (Z.ltb_spec 0 (wrap32 (b - a))); cbn [andb]; try done;
    match goal with |- (?x <? ?y) = _ => destruct (Z.ltb_spec x y); done || lia end.
Qed.

Lemma ge_distance (a b : Z) : ge a b = (distance b a <? 2147483648).
Proof.
  unfold ge, distance, as_i32.
  pose proof (wrap32_range (a - b)) as H. unfold wrapping_sub32, M32 in *.
  destruct (Z.ltb_spec (wrap32 (a - b)) 2147483648);
    match goal with |- (?x <=? ?y) = _ => destruct (Z.leb_spec x y); done || lia end.
Qed.

(** Serial comparison is the integer order across the wrap: for stream
    positions [a] and [b] (unbounded integers) less than [2^31] apart, all four
    comparisons of their 32-bit sequence numbers agree with the order of the
    positions, and [distance] recovers the gap. *)
Theorem serial_order_is_stream_order (a b : Z) :
  Z.abs (a - b) < 2147483648 ->
  gt (wrap32 a) (wrap32 b) = (b <? a) /\
  ge (wrap32 a) (wrap32 b) = (b <=? a) /\
  lt (wrap32 a) (wrap32 b) = (a <? b) /\
  le (wrap32 a) (wrap32 b) = (a <=? b) /\
  (a <= b -> distance (wrap32 a) (wrap32 b) = b - a).
Proof.
  intros H. rewrite gt_wrap, ge_wrap, lt_wrap, le_wrap by lia.
  repeat split; try done. intros Hab. apply distance_wrap. unfold M32. lia.
Qed.

(** Position [2^32 + 5] is after [2^32 - 6], though its sequence number is 5. *)
Lemma serial_order_witness :
  wrap32 4294967301 = 5 /\ gt (wrap32 4294967301) (wrap32 4294967290) = true.
Proof.
  split; [reflexivity|].
  destruct (serial_order_is_stream_order 4294967301 4294967290 ltac:(reflexivity)) as [H _].
  rewrite H. reflexivity.
Defined.
