(* ===== verification/Packet.v ===== *)
(** * Cleartext packets ([core/src/packet.rs])

    Data, acknowledgement and path-MTU probe packets: the four record types,
    the strict parser and the four encoders. The buffer constants of
    [core/src/lib.rs] live here too. An encoder takes the output buffer and
    returns it with the result; on an error the buffer is returned as it was,
    because every check of the source precedes its first write. *)

From S2P Require Import Prelude.

(** ** Constants ([core/src/lib.rs], [envelope.rs], [packet.rs]) *)

Definition MAX_DATAGRAM : Z := 2000.
Definition DEFAULT_DATAGRAM : Z := 1229.
Definition ENVELOPE_LEN : Z := 29.

Definition MARKER : Z := 0x01.
Definition HEADER_LEN : Z := 7.
Definition ACK_LEN : Z := 83.
Definition CHANNEL_COUNT : Z := 19.
Definition FLAG_DATA : Z := 0x01.
Definition FLAG_ACK : Z := 0x02.
Definition FLAG_PROBE : Z := 0x04.
Definition FLAG_KEEPALIVE : Z := 0x08.
Definition FLAG_NACK : Z := 0x10.
Definition FLAG_LAST : Z := 0x20.
Definition FLAG_PROBE_ACK : Z := 0x40.
Definition RESERVED_MASK : Z := 0x80.
Definition KIND_MASK : Z := 0x0B.

(** ** Data *)

Record Data := mkData {
  data_channel : Z;
  data_seq : Z;
  data_last : bool;
  data_body : list Z;
}.

Record Probe := mkProbe { probe_id : Z; probe_size : Z }.

Record ProbeAck := mkProbeAck { pack_id : Z; pack_size : Z }.

Inductive AckKind := KAck | KKeepalive.

#[export] Instance AckKind_eq_dec : EqDecision AckKind.
Proof. solve_decision. Defined.

Record Ack := mkAck {
  ack_kind : AckKind;
  ack_nack : bool;
  trigger_channel : Z;
  trigger_seq : Z;
  ack_cumulative : list Z;  (* [u32; CHANNEL_COUNT] *)
  ack_reported : Z;
}.

Inductive Packet :=
  | PData (d : Data)
  | PAck (a : Ack)
  | PProbe (p : Probe)
  | PProbeAck (p : ProbeAck).

(** ** Parsing *)

Definition be32 (src : list Z) (offset : Z) : result Z :=
  ok_or (be_val <$> slice src offset (offset + 4)) ShortPacket.

(** [(DEFAULT_DATAGRAM..=MAX_DATAGRAM).contains(&size)]. *)
Definition legal_datagram (size : Z) : bool :=
  (DEFAULT_DATAGRAM <=? size) && (size <=? MAX_DATAGRAM).

(** The probe branch of [parse]. *)
Definition parse_probe (cleartext : list Z) (marker flags channel probe_kind : Z) : result Packet :=
  if negb (flags =? FLAG_PROBE) && negb (flags =? FLAG_PROBE_ACK) then Err Malformed else
  if negb (channel =? 0) then Err Malformed else
  if negb (marker =? MARKER) then Err Malformed else
  id ← be32 cleartext 3;
  if id =? U32_MAX then Err Malformed else
  size ← ok_or (be_val <$> slice cleartext HEADER_LEN (HEADER_LEN + 2)) ShortPacket;
  if negb (legal_datagram size) then Err Malformed else
  if probe_kind =? FLAG_PROBE then
    expected_cleartext_len ← ok_or (checked_sub size ENVELOPE_LEN) Malformed;
    if negb (zlen cleartext =? expected_cleartext_len)
       || match slice_from cleartext (HEADER_LEN + 2) with
          | None => true
          | Some padding => existsb (fun byte => negb (byte =? 0)) padding
          end
    then Err Malformed
    else Ok (PProbe (mkProbe id size))
  else
    if negb (zlen cleartext =? HEADER_LEN + 2) then Err Malformed
    else Ok (PProbeAck (mkProbeAck id size)).

(** The acknowledgement branch of [parse]: as many cumulative values as the
    packet carries, up to [CHANNEL_COUNT], and zero for the rest. *)
Definition parse_ack (cleartext : list Z) (kind channel seq : Z) (nack : bool) : result Packet :=
  let reported := saturating_sub (zlen cleartext) HEADER_LEN / 4 in
  if reported =? 0 then Err ShortAck else
  let reported := Z.min reported CHANNEL_COUNT in
  values ← mapM (fun index => be32 cleartext (HEADER_LEN + index * 4)) (seqZ 0 reported);
  let cumulative := values ++ replicate (Z.to_nat (CHANNEL_COUNT - reported)) 0 in
  Ok (PAck (mkAck (if kind =? FLAG_ACK then KAck else KKeepalive)
                  nack channel seq cumulative reported)).

Definition parse (cleartext : list Z) : result Packet :=
  marker ← ok_or (get cleartext 0) ShortPacket;
  flags ← ok_or (get cleartext 1) ShortPacket;
  channel ← ok_or (get cleartext 2) ShortPacket;
  if zlen cleartext <? HEADER_LEN then Err ShortPacket else
  if negb (Z.land flags RESERVED_MASK =? 0) then Err Malformed else
  let probe_kind := Z.land flags (Z.lor FLAG_PROBE FLAG_PROBE_ACK) in
  if negb (probe_kind =? 0) then parse_probe cleartext marker flags channel probe_kind else
  let kind := Z.land flags KIND_MASK in
  if negb (kind =? FLAG_DATA) && negb (kind =? FLAG_ACK) && negb (kind =? FLAG_KEEPALIVE)
  then Err Malformed else
  let nack := negb (Z.land flags FLAG_NACK =? 0) in
  if nack && negb (kind =? FLAG_ACK) then Err Malformed else
  let last := negb (Z.land flags FLAG_LAST =? 0) in
  if last && (negb (kind =? FLAG_DATA) || nack) then Err Malformed else
  if negb (marker =? MARKER) then Err Malformed else
  if CHANNEL_COUNT <=? channel then Err Malformed else
  seq ← be32 cleartext 3;
  if seq =? U32_MAX then Err Malformed else
  if kind =? FLAG_DATA then
    body ← ok_or (slice_from cleartext HEADER_LEN) ShortPacket;
    Ok (PData (mkData channel seq last body))
  else parse_ack cleartext kind channel seq nack.

(** ** Encoding *)

Definition data_header (flags channel seq : Z) : list Z :=
  [MARKER; flags; channel] ++ be_bytes 4 seq.

Definition encode_data (out : list Z) (data : Data) : list Z * result Z :=
  if (CHANNEL_COUNT <=? data_channel data) || (data_seq data =? U32_MAX)
  then (out, Err Malformed) else
  match checked_add64 HEADER_LEN (zlen (data_body data)) with
  | None => (out, Err BufferTooSmall)
  | Some total =>
      let flags := if data_last data then Z.lor FLAG_DATA FLAG_LAST else FLAG_DATA in
      match write out 0 (data_header flags (data_channel data) (data_seq data) ++ data_body data) with
      | None => (out, Err BufferTooSmall)
      | Some out => (out, Ok total)
      end
  end.

Definition encode_probe (out : list Z) (probe : Probe) : list Z * result Z :=
  if (probe_id probe =? U32_MAX) || negb (legal_datagram (probe_size probe))
  then (out, Err Malformed) else
  match checked_sub (probe_size probe) ENVELOPE_LEN with
  | None => (out, Err BufferTooSmall)
  | Some cleartext_len =>
      if cleartext_len <? HEADER_LEN + 2 then (out, Err BufferTooSmall) else
      if zlen out <? cleartext_len then (out, Err BufferTooSmall) else
      match try_from U16_MAX (probe_size probe) with
      | None => (out, Err BadLength)
      | Some m =>
          match write out 0 (data_header FLAG_PROBE 0 (probe_id probe) ++ be_bytes 2 m
                             ++ replicate (Z.to_nat (cleartext_len - (HEADER_LEN + 2))) 0) with
          | None => (out, Err BufferTooSmall)
          | Some out => (out, Ok cleartext_len)
          end
      end
  end.

Definition encode_probe_ack (out : list Z) (ack : ProbeAck) : list Z * result Z :=
  if (pack_id ack =? U32_MAX) || negb (legal_datagram (pack_size ack))
  then (out, Err Malformed) else
  if zlen out <? HEADER_LEN + 2 then (out, Err BufferTooSmall) else
  match try_from U16_MAX (pack_size ack) with
  | None => (out, Err BadLength)
  | Some m =>
      match write out 0 (data_header FLAG_PROBE_ACK 0 (pack_id ack) ++ be_bytes 2 m) with
      | None => (out, Err BufferTooSmall)
      | Some out => (out, Ok (HEADER_LEN + 2))
      end
  end.

Definition encode_ack (out : list Z) (ack : Ack) : list Z * result Z :=
  if CHANNEL_COUNT <=? trigger_channel ack then (out, Err Malformed) else
  if ack_nack ack && negb (bool_decide (ack_kind ack = KAck)) then (out, Err Malformed) else
  if zlen out <? ACK_LEN then (out, Err BufferTooSmall) else
  let flags := match ack_kind ack with KAck => FLAG_ACK | KKeepalive => FLAG_KEEPALIVE end in
  let flags := if ack_nack ack then Z.lor flags FLAG_NACK else flags in
  match write out 0 (data_header flags (trigger_channel ack) (trigger_seq ack)
                     ++ mjoin (be_bytes 4 <$> ack_cumulative ack)) with
  | None => (out, Err BufferTooSmall)
  | Some out => (out, Ok ACK_LEN)
  end.

(** ** Well-formed values: what the Rust types guarantee, plus what a legal
    packet carries. *)

Definition Data_ok (d : Data) : Prop :=
  0 <= data_channel d < CHANNEL_COUNT /\ 0 <= data_seq d < U32_MAX /\ bytes_ok (data_body d).

Definition Probe_ok (id size : Z) : Prop :=
  0 <= id < U32_MAX /\ DEFAULT_DATAGRAM <= size <= MAX_DATAGRAM.

Definition Ack_ok (a : Ack) : Prop :=
  0 <= trigger_channel a < CHANNEL_COUNT /\ 0 <= trigger_seq a < U32_MAX /\
  Forall is_u32 (ack_cumulative a) /\ length (ack_cumulative a) = 19%nat /\
  1 <= ack_reported a <= CHANNEL_COUNT /\
  (ack_nack a = true -> ack_kind a = KAck) /\
  (forall i, ack_reported a <= i < CHANNEL_COUNT -> get (ack_cumulative a) i = Some 0).

Definition Packet_ok (p : Packet) : Prop :=
  match p with
  | PData d => Data_ok d
  | PAck a => Ack_ok a
  | PProbe p => Probe_ok (probe_id p) (probe_size p)
  | PProbeAck p => Probe_ok (pack_id p) (pack_size p)
  end.

(** ** Lemmas *)

Lemma be32_mid (p q : list Z) v a : a = zlen p -> is_u32 v -> be32 (p ++ be_bytes 4 v ++ q) a = Ok v.
Proof.
  intros -> Hv. unfold be32. rewrite slice_mid by (done || zlia). cbn [fmap option_fmap option_map ok_or].
  rewrite be_val_bytes; [done|]. unfold is_u32, M32 in Hv. lia.
Qed.

Lemma be32_ok (l : list Z) a v :
  bytes_ok l -> be32 l a = Ok v ->
  is_u32 v /\ exists s, slice l a (a + 4) = Some s /\ s = be_bytes 4 v.
Proof.
  intros Hl H. unfold be32 in H. destruct (slice l a (a + 4)) as [s|] eqn:Hs; cbn in H; [|done].
  injection H as <-. pose proof (bytes_ok_slice _ _ _ _ Hl Hs) as Hok.
  pose proof (zlen_slice _ _ _ _ Hs) as Hlen.
  split.
  - pose proof (be_val_range s Hok) as Hr. rewrite Hlen in Hr. unfold is_u32, M32.
    replace (a + 4 - a) with 4 in Hr by lia. lia.
  - exists s. split; [done|]. symmetry. apply be_bytes_val; [done|]. unfold zlen in Hlen. lia.
Qed.

(** Any seven bytes or more are a header followed by the rest. *)
Lemma header_split (l : list Z) :
  bytes_ok l -> HEADER_LEN <= zlen l ->
  exists marker flags channel seq rest,
    l = [marker; flags; channel] ++ be_bytes 4 seq ++ rest /\
    is_u8 marker /\ is_u8 flags /\ is_u8 channel /\ is_u32 seq /\ bytes_ok rest.
Proof.
  intros Hl Hlen. unfold HEADER_LEN in *.
  destruct l as [|m [|f [|c l]]]; try (zlia || (cbn in Hlen; lia)).
  inversion_clear Hl as [|?? Hm Hl1]. inversion_clear Hl1 as [|?? Hf Hl2]. inversion_clear Hl2 as [|?? Hc Hl3].
  exists m, f, c, (be_val (take 4 l)), (drop 4 l).
  assert (Htake : bytes_ok (take 4 l)) by (apply Forall_take, Hl3).
  assert (Hl4 : length (take 4 l) = 4%nat) by (rewrite length_take; rewrite !zlen_cons in Hlen; unfold zlen in Hlen; lia).
  rewrite be_bytes_val by done. rewrite take_drop.
  repeat split; try done; try apply Hm; try apply Hf; try apply Hc; try (apply Forall_drop, Hl3).
  - apply be_val_range in Htake. lia.
  - apply be_val_range in Htake. unfold zlen in Htake. rewrite Hl4 in Htake. unfold M32. cbn in Htake. lia.
Qed.

(** [parse] on a header it can read: every accessor succeeds, and what is left
    is the decision the flags make. *)
Definition parse_decide (l : list Z) (marker flags channel seq : Z) (rest : list Z) : result Packet :=
  if negb (Z.land flags RESERVED_MASK =? 0) then Err Malformed else
  let probe_kind := Z.land flags (Z.lor FLAG_PROBE FLAG_PROBE_ACK) in
  if negb (probe_kind =? 0) then parse_probe l marker flags channel probe_kind else
  let kind := Z.land flags KIND_MASK in
  if negb (kind =? FLAG_DATA) && negb (kind =? FLAG_ACK) && negb (kind =? FLAG_KEEPALIVE)
  then Err Malformed else
  let nack := negb (Z.land flags FLAG_NACK =? 0) in
  if nack && negb (kind =? FLAG_ACK) then Err Malformed else
  let last := negb (Z.land flags FLAG_LAST =? 0) in
  if last && (negb (kind =? FLAG_DATA) || nack) then Err Malformed else
  if negb (marker =? MARKER) then Err Malformed else
  if CHANNEL_COUNT <=? channel then Err Malformed else
  if seq =? U32_MAX then Err Malformed else
  if kind =? FLAG_DATA then Ok (PData (mkData channel seq last rest))
  else parse_ack l kind channel seq nack.

Lemma parse_header (marker flags channel seq : Z) (rest : list Z) :
  is_u32 seq ->
  let l := [marker; flags; channel] ++ be_bytes 4 seq ++ rest in
  parse l = parse_decide l marker flags channel seq rest.
Proof.
  intros Hseq l. unfold parse.
  assert (Hlen : zlen l = 7 + zlen rest) by (unfold l; zlia).
  assert (Hrest : slice_from l HEADER_LEN = Some rest).
  { unfold l. rewrite app_assoc. apply slice_tail. unfold HEADER_LEN. zlia. }
  change (get l 0) with (Some marker). change (get l 1) with (Some flags). change (get l 2) with (Some channel).
  cbn [ok_or mbind result_bind].
  replace (zlen l <? HEADER_LEN) with false by (unfold HEADER_LEN; symmetry; apply Z.ltb_ge; zlen_pose; lia).
  replace (be32 l 3) with (Ok seq : result Z) by (symmetry; unfold l; by apply be32_mid).
  cbn [mbind result_bind]. rewrite Hrest. done.
Qed.

Lemma write_at_0 {A} (out src : list A) :
  zlen src <= zlen out -> write out 0 src = Some (src ++ drop (length src) out).
Proof.
  intros H. rewrite write_some by (zlen_pose; lia). rewrite Z.add_0_l. unfold zlen. rewrite Nat2Z.id. done.
Qed.

(** The cleartext an encoder writes for a data packet. *)
Definition data_bytes (d : Data) : list Z :=
  data_header (if data_last d then Z.lor FLAG_DATA FLAG_LAST else FLAG_DATA)
              (data_channel d) (data_seq d) ++ data_body d.

Lemma zlen_data_header f c s : zlen (data_header f c s) = HEADER_LEN.
Proof. unfold data_header, HEADER_LEN. zlia. Qed.
#[export] Hint Rewrite zlen_data_header : slices.

Lemma zlen_data_bytes d : zlen (data_bytes d) = HEADER_LEN + zlen (data_body d).
Proof. unfold data_bytes. zlia. Qed.
#[export] Hint Rewrite zlen_data_bytes : slices.

Lemma encode_data_ok (out : list Z) (d : Data) :
  Data_ok d -> HEADER_LEN + zlen (data_body d) <= zlen out -> zlen out <= U64_MAX ->
  encode_data out d =
    (data_bytes d ++ drop (length (data_bytes d)) out, Ok (HEADER_LEN + zlen (data_body d))).
Proof.
  intros (Hc & Hs & Hb) Hlen Hmax. unfold encode_data.
  replace ((CHANNEL_COUNT <=? data_channel d) || (data_seq d =? U32_MAX)) with false.
  - rewrite checked_add64_some by (zlen_pose; unfold HEADER_LEN in *; lia).
    fold (data_bytes d). rewrite write_at_0 by zlia. done.
  - symmetry. apply orb_false_iff. split; [apply Z.leb_gt|apply Z.eqb_neq]; lia.
Qed.

(** The other direction: whatever the encoder accepted fits and was written. *)
Lemma encode_data_inv (out out' : list Z) (d : Data) n :
  encode_data out d = (out', Ok n) ->
  data_channel d < CHANNEL_COUNT /\ data_seq d <> U32_MAX /\
  n = zlen (data_bytes d) /\ n <= zlen out /\
  out' = data_bytes d ++ drop (length (data_bytes d)) out.
Proof.
  unfold encode_data. intros H. repeat step_in H; injection H as <- <-.
  fold (data_bytes d) in *. apply orb_false_iff in Heqb as [??]. bool_prop.
  apply write_inv in Heqo0 as (_ & Hl & ->). unfold checked_add64 in Heqo. case_match; [|done].
  injection Heqo as <-.
  replace (Z.to_nat (0 + zlen (data_bytes d))) with (length (data_bytes d)) by (unfold zlen; lia).
  rewrite zlen_data_bytes in Hl |- *. repeat split; try done; lia.
Qed.

Lemma parse_data_bytes (d : Data) : Data_ok d -> parse (data_bytes d) = Ok (PData d).
Proof.
  intros (Hc & Hs & Hb). unfold data_bytes, data_header. rewrite <- app_assoc.
  rewrite parse_header by (unfold is_u32, U32_MAX, M32 in *; lia).
  unfold parse_decide.
  replace (CHANNEL_COUNT <=? data_channel d) with false by (symmetry; apply Z.leb_gt; lia).
  replace (data_seq d =? U32_MAX) with false by (symmetry; apply Z.eqb_neq; lia).
  destruct d as [c s [] b]; reflexivity.
Qed.

(** A data packet's flag byte is one of two values. *)
Lemma data_flags_canonical flags :
  is_u8 flags ->
  (Z.land flags RESERVED_MASK =? 0) && (Z.land flags (Z.lor FLAG_PROBE FLAG_PROBE_ACK) =? 0)
  && (Z.land flags KIND_MASK =? FLAG_DATA) && (Z.land flags FLAG_NACK =? 0) = true ->
  flags = if negb (Z.land flags FLAG_LAST =? 0) then Z.lor FLAG_DATA FLAG_LAST else FLAG_DATA.
Proof.
  intros Hf H.
  pose proof (byte_cases (fun f => negb ((Z.land f RESERVED_MASK =? 0) && (Z.land f (Z.lor FLAG_PROBE FLAG_PROBE_ACK) =? 0)
  && (Z.land f KIND_MASK =? FLAG_DATA) && (Z.land f FLAG_NACK =? 0)) ||
    (f =? if negb (Z.land f FLAG_LAST =? 0) then Z.lor FLAG_DATA FLAG_LAST else FLAG_DATA)) eq_refl flags Hf) as HH.
  cbv beta in HH. rewrite H in HH. cbn [negb orb] in HH. by apply Z.eqb_eq.
Qed.

(** Splits a chain of guards and [?]s in [H] until one branch is left. *)
Ltac guards H :=
  repeat match type of H with
  | (if ?c then _ else _) = _ => let E := fresh "G" in destruct c eqn:E; try discriminate H
  | (?m ≫= _) = _ =>
      let E := fresh "B" in destruct m eqn:E; cbn [mbind result_bind] in H; try discriminate H
  end.

Lemma parse_probe_not_data l m f c k d : parse_probe l m f c k <> Ok (PData d).
Proof. unfold parse_probe. intros H. guards H. Qed.

Lemma parse_ack_not_data l k c s n d : parse_ack l k c s n <> Ok (PData d).
Proof. unfold parse_ack. intros H. guards H. Qed.

Lemma parse_decide_data l m f c s rest d :
  is_u8 f -> parse_decide l m f c s rest = Ok (PData d) ->
  m = MARKER /\ c < CHANNEL_COUNT /\ s <> U32_MAX /\
  f = (if data_last d then Z.lor FLAG_DATA FLAG_LAST else FLAG_DATA) /\
  d = mkData c s (data_last d) rest.
Proof.
  intros Hf H. unfold parse_decide in H.
  destruct (Z.land f RESERVED_MASK =? 0) eqn:E1; cbn [negb] in H; [|done].
  destruct (Z.land f (Z.lor FLAG_PROBE FLAG_PROBE_ACK) =? 0) eqn:E2; cbn [negb] in H;
    [|by apply parse_probe_not_data in H].
  destruct (Z.land f KIND_MASK =? FLAG_DATA) eqn:E3; cbn [negb andb] in H;
    [|guards H; by apply parse_ack_not_data in H].
  destruct (Z.land f FLAG_NACK =? 0) eqn:E4; cbn [negb andb orb] in H.
  - guards H. injection H as <-. cbn [data_last]. bool_prop.
    repeat split; try done.
    apply data_flags_canonical; [done|]. by rewrite E1, E2, E3, E4.
  - rewrite (proj1 (Z.eqb_eq _ _) E3) in H. done.
Qed.

Lemma parse_short (l : list Z) : zlen l < HEADER_LEN -> parse l = Err ShortPacket.
Proof.
  intros Hlt. unfold parse.
  destruct (get l 0); [|done]. destruct (get l 1); [|done]. destruct (get l 2); [|done].
  cbn [ok_or mbind result_bind]. by rewrite (proj2 (Z.ltb_lt _ _) Hlt).
Qed.

(** Data packets and their wire form are in bijection. Encoding a legal
    packet into a buffer that can hold it writes exactly the header and the
    body, leaves the rest of the buffer alone, and parses back to the packet;
    and any byte string that parses as a data packet is the one the encoder
    produces for it, so there is no second spelling of a packet. *)
Theorem data_packet_bijection :
  (forall out d, Data_ok d -> HEADER_LEN + zlen (data_body d) <= zlen out -> zlen out <= U64_MAX ->
     exists wire, zlen wire = HEADER_LEN + zlen (data_body d) /\
       encode_data out d = (wire ++ drop (length wire) out, Ok (zlen wire)) /\
       parse wire = Ok (PData d)) /\
  (forall wire d, bytes_ok wire -> parse wire = Ok (PData d) ->
     forall out, zlen wire <= zlen out -> zlen out <= U64_MAX ->
       encode_data out d = (wire ++ drop (length wire) out, Ok (zlen wire))).
Proof.
  split.
  - intros out d Hd Hl Hm. exists (data_bytes d). rewrite zlen_data_bytes.
    split; [done|]. split; [by apply encode_data_ok|by apply parse_data_bytes].
  - intros wire d Hw Hp out Hl Hm.
    destruct (Z.lt_ge_cases (zlen wire) HEADER_LEN) as [Hlt|H7]; [by rewrite parse_short in Hp|].
    destruct (header_split wire Hw H7) as (m & f & c & s & rest & -> & Hm' & Hf & Hc & Hs & Hr).
    rewrite parse_header in Hp by done.
    destruct (parse_decide_data _ _ _ _ _ _ _ Hf Hp) as (-> & Hc' & Hs' & Hflags & Hd).
    assert (Hwire : [MARKER; f; c] ++ be_bytes 4 s ++ rest = data_bytes d).
    { unfold data_bytes, data_header. rewrite <- Hflags, Hd. done. }
    rewrite Hwire in *. rewrite encode_data_ok; [by rewrite zlen_data_bytes| |zlia|done].
    rewrite Hd. unfold Data_ok, is_u8, is_u32, U32_MAX, M32 in *. cbn. repeat split; (done || lia).
Qed.

Lemma data_packet_bijection_witness :
  parse ([1; 0x21; 5; 0x12; 0x34; 0x56; 0x78] ++ [170; 171]) = Ok (PData (mkData 5 0x12345678 true [170; 171])) /\
  encode_data (replicate 12 9) (mkData 5 0x12345678 true [170; 171]) =
    ([1; 0x21; 5; 0x12; 0x34; 0x56; 0x78; 170; 171; 9; 9; 9], Ok 9).
Proof.
  split; [reflexivity|].
  apply (proj2 data_packet_bijection [1; 0x21; 5; 0x12; 0x34; 0x56; 0x78; 170; 171]).
  - by apply bytes_ok_b.
  - reflexivity.
  - by vm_compute.
  - by vm_compute.
Defined.

(** ** Acknowledgements *)

Lemma zlen_mjoin_be (n : nat) (vs : list Z) : zlen (mjoin (be_bytes n <$> vs)) = Z.of_nat n * zlen vs.
Proof.
  induction vs as [|v vs IH]; [unfold zlen; cbn; lia|].
  change (mjoin (be_bytes n <$> v :: vs)) with (be_bytes n v ++ mjoin (be_bytes n <$> vs)).
  rewrite zlen_app, zlen_be_bytes, zlen_cons, IH. lia.
Qed.

Lemma mapM_be32 (vs p q : list Z) (k : Z) :
  Forall is_u32 vs -> zlen p = HEADER_LEN + k * 4 ->
  mapM (fun index => be32 (p ++ mjoin (be_bytes 4 <$> vs) ++ q) (HEADER_LEN + index * 4))
       (seqZ k (zlen vs)) = Ok vs.
Proof.
  intros Hvs. revert p k. induction Hvs as [|v vs Hv _ IH]; intros p k Hp; [done|].
  rewrite seqZ_cons by zlia. cbn [mapM].
  change (mjoin (be_bytes 4 <$> v :: vs)) with (be_bytes 4 v ++ mjoin (be_bytes 4 <$> vs)).
  rewrite <- !app_assoc. rewrite be32_mid by (done || lia).
  cbn [mbind result_bind].
  replace (Z.pred (zlen (v :: vs))) with (zlen vs) by zlia.
  rewrite app_assoc, IH; [done|]. rewrite zlen_app, zlen_be_bytes. lia.
Qed.

(** The cleartext of an acknowledgement that reports the channels in [vs]. *)
Definition ack_bytes (a : Ack) (vs : list Z) : list Z :=
  let flags := match ack_kind a with KAck => FLAG_ACK | KKeepalive => FLAG_KEEPALIVE end in
  let flags := if ack_nack a then Z.lor flags FLAG_NACK else flags in
  data_header flags (trigger_channel a) (trigger_seq a) ++ mjoin (be_bytes 4 <$> vs).

Lemma parse_ack_bytes (a : Ack) (vs : list Z) :
  0 <= trigger_channel a < CHANNEL_COUNT -> 0 <= trigger_seq a < U32_MAX ->
  (ack_nack a = true -> ack_kind a = KAck) ->
  Forall is_u32 vs -> 1 <= zlen vs <= CHANNEL_COUNT ->
  parse (ack_bytes a vs) =
    Ok (PAck (mkAck (ack_kind a) (ack_nack a) (trigger_channel a) (trigger_seq a)
                    (vs ++ replicate (Z.to_nat (CHANNEL_COUNT - zlen vs)) 0) (zlen vs))).
Proof.
  intros Hc Hs Hn Hvs Hlen. unfold ack_bytes.
  set (flags := if ack_nack a then _ else _).
  unfold data_header. rewrite <- app_assoc.
  rewrite parse_header by (unfold is_u32, U32_MAX, M32 in *; lia).
  unfold parse_decide.
  replace (CHANNEL_COUNT <=? trigger_channel a) with false by (symmetry; apply Z.leb_gt; lia).
  replace (trigger_seq a =? U32_MAX) with false by (symmetry; apply Z.eqb_neq; lia).
  assert (Hack : forall k n, parse_ack ([MARKER; flags; trigger_channel a] ++ be_bytes 4 (trigger_seq a)
       ++ mjoin (be_bytes 4 <$> vs)) k (trigger_channel a) (trigger_seq a) n =
    Ok (PAck (mkAck (if k =? FLAG_ACK then KAck else KKeepalive) n (trigger_channel a) (trigger_seq a)
       (vs ++ replicate (Z.to_nat (CHANNEL_COUNT - zlen vs)) 0) (zlen vs)))).
  { intros k n. unfold parse_ack.
    assert (Hrep : saturating_sub (zlen ([MARKER; flags; trigger_channel a] ++ be_bytes 4 (trigger_seq a)
       ++ mjoin (be_bytes 4 <$> vs))) HEADER_LEN / 4 = zlen vs).
    { rewrite !zlen_app, zlen_mjoin_be, zlen_be_bytes. unfold saturating_sub, HEADER_LEN.
      replace (zlen [MARKER; flags; trigger_channel a]) with 3 by done.
      replace (Z.max 0 _) with (zlen vs * 4) by (zlen_pose; lia). apply Z.div_mul. lia. }
    rewrite Hrep. rewrite (proj2 (Z.eqb_neq (zlen vs) 0)) by lia. rewrite Z.min_l by lia.
    rewrite app_assoc, <- (app_nil_r (mjoin _)), mapM_be32; [done|done|].
    rewrite zlen_app, zlen_be_bytes. done. }
  rewrite !Hack. destruct (ack_kind a) eqn:Ek, (ack_nack a) eqn:En; try (by specialize (Hn eq_refl)); reflexivity.
Qed.

(** An acknowledgement round-trips whatever number of channels it reports.
    The encoder's 83-byte packet parses back to the acknowledgement; and a
    packet from a peer that carries only [k] channels ([1 <= k <= 19]) is read
    as exactly those [k] values, the rest left unreported. *)
Theorem ack_round_trip (a : Ack) :
  Ack_ok a ->
  (ack_reported a = CHANNEL_COUNT ->
   forall out, ACK_LEN <= zlen out ->
     exists wire, zlen wire = ACK_LEN /\
       encode_ack out a = (wire ++ drop (length wire) out, Ok ACK_LEN) /\
       parse wire = Ok (PAck a)) /\
  parse (ack_bytes a (take (Z.to_nat (ack_reported a)) (ack_cumulative a))) = Ok (PAck a).
Proof.
  intros (Hc & Hs & Hu & Hlen & Hr & Hn & Hz).
  assert (Hvs : zlen (take (Z.to_nat (ack_reported a)) (ack_cumulative a)) = ack_reported a).
  { rewrite zlen_take. unfold zlen, CHANNEL_COUNT in *. lia. }
  assert (Hparse : parse (ack_bytes a (take (Z.to_nat (ack_reported a)) (ack_cumulative a))) = Ok (PAck a)).
  { rewrite parse_ack_bytes; rewrite ?Hvs; try done; [|by apply Forall_take].
    do 2 f_equal. destruct a as [k n c s cum rep]. cbn [ack_kind ack_nack trigger_channel trigger_seq ack_cumulative ack_reported] in *.
    f_equal. rewrite <- (take_drop (Z.to_nat rep) cum) at 2. f_equal.
    apply list_eq_get; unfold CHANNEL_COUNT in *.
    - rewrite zlen_replicate, zlen_drop. unfold zlen. lia.
    - intros i Hi. rewrite zlen_replicate in Hi. rewrite get_replicate by lia.
      rewrite get_lookup, lookup_drop by lia. rewrite <- (Hz (rep + i)) by lia.
      rewrite get_lookup by lia. f_equal. lia. }
  split; [|done]. intros Hrep out Hout. exists (ack_bytes a (ack_cumulative a)).
  assert (Htake : take (Z.to_nat (ack_reported a)) (ack_cumulative a) = ack_cumulative a).
  { apply take_ge. rewrite Hrep, Hlen. unfold CHANNEL_COUNT. lia. }
  rewrite Htake in Hparse.
  assert (Hwl : zlen (ack_bytes a (ack_cumulative a)) = ACK_LEN).
  { unfold ack_bytes. rewrite zlen_app, zlen_data_header, zlen_mjoin_be. unfold zlen. rewrite Hlen. done. }
  split; [done|]. split; [|done]. unfold encode_ack.
  rewrite (proj2 (Z.leb_gt _ _)) by lia.
  replace (ack_nack a && negb (bool_decide (ack_kind a = KAck))) with false.
  - rewrite (proj2 (Z.ltb_ge _ _)) by lia. fold (ack_bytes a (ack_cumulative a)).
    by rewrite write_at_0 by lia.
  - destruct (ack_nack a); [|done]. rewrite bool_decide_eq_true_2; auto.
Qed.

Lemma ack_round_trip_witness :
  let a := mkAck KAck true 5 77 ([100; 200; 300; 400] ++ replicate 15 0) 4 in
  parse ([1; 0x12; 5; 0; 0; 0; 77] ++ [0; 0; 0; 100; 0; 0; 0; 200; 0; 0; 1; 44; 0; 0; 1; 144]) = Ok (PAck a).
Proof.
  cbv zeta. refine (proj2 (ack_round_trip (mkAck KAck true 5 77 ([100; 200; 300; 400] ++ replicate 15 0) 4) _)).
  repeat split; try done.
  - by apply u32s_ok_b.
  - intros i Hi. cbn [ack_reported ack_cumulative] in *. unfold CHANNEL_COUNT in Hi. rewrite get_lookup by lia.
    rewrite lookup_app_r by (cbn; lia). apply lookup_replicate. cbn. lia.
Defined.

(** ** Path-MTU probes *)

Definition probe_bytes (p : Probe) : list Z :=
  data_header FLAG_PROBE 0 (probe_id p) ++ be_bytes 2 (probe_size p)
  ++ replicate (Z.to_nat (probe_size p - ENVELOPE_LEN - (HEADER_LEN + 2))) 0.

Definition probe_ack_bytes (p : ProbeAck) : list Z :=
  data_header FLAG_PROBE_ACK 0 (pack_id p) ++ be_bytes 2 (pack_size p).

Lemma legal_datagram_iff size : legal_datagram size = true <-> DEFAULT_DATAGRAM <= size <= MAX_DATAGRAM.
Proof. unfold legal_datagram. rewrite andb_true_iff, !Z.leb_le. done. Qed.

Lemma existsb_zeros n : existsb (fun byte => negb (byte =? 0)) (replicate n 0) = false.
Proof. induction n; done. Qed.

Lemma existsb_all_zero (l : list Z) :
  existsb (fun byte => negb (byte =? 0)) l = false -> l = replicate (length l) 0.
Proof.
  induction l as [|b l IH]; cbn; [done|]. intros H. bool_prop. subst. f_equal. by apply IH.
Qed.

(** The common part of the two probe branches on a well-formed header. *)
Lemma parse_probe_fields (flags id size : Z) (rest : list Z) :
  Probe_ok id size ->
  let l := data_header flags 0 id ++ be_bytes 2 size ++ rest in
  be32 l 3 = Ok id /\ (id =? U32_MAX) = false /\
  slice l HEADER_LEN (HEADER_LEN + 2) = Some (be_bytes 2 size) /\ be_val (be_bytes 2 size) = size /\
  legal_datagram size = true /\ slice_from l (HEADER_LEN + 2) = Some rest /\ zlen l = 9 + zlen rest.
Proof.
  intros [Hid Hsz] l. subst l. unfold data_header.
  repeat split.
  - rewrite <- app_assoc. apply be32_mid; [done|]. unfold is_u32, U32_MAX, M32 in *. lia.
  - apply Z.eqb_neq. lia.
  - apply slice_mid; unfold HEADER_LEN; zlia.
  - apply be_val_bytes. unfold DEFAULT_DATAGRAM, MAX_DATAGRAM in Hsz. lia.
  - by apply legal_datagram_iff.
  - rewrite app_assoc. apply slice_tail. unfold HEADER_LEN. zlia.
  - zlia.
Qed.

Lemma parse_probe_bytes p : Probe_ok (probe_id p) (probe_size p) -> parse (probe_bytes p) = Ok (PProbe p).
Proof.
  destruct p as [id size]. cbn [probe_id probe_size]. intros Hok.
  unfold probe_bytes. cbn [probe_id probe_size].
  set (rest := replicate _ 0).
  destruct (parse_probe_fields FLAG_PROBE id size rest Hok) as (H1 & H2 & H3 & H4 & H5 & H6 & H7).
  set (l := data_header FLAG_PROBE 0 id ++ be_bytes 2 size ++ rest) in *.
  assert (Hl : parse l = parse_probe l MARKER FLAG_PROBE 0 FLAG_PROBE).
  { unfold l, data_header. rewrite <- app_assoc. rewrite parse_header; [done|].
    destruct Hok. unfold is_u32, U32_MAX, M32 in *. lia. }
  assert (Hsz : 1229 <= size <= 2000) by apply Hok.
  rewrite Hl. unfold parse_probe. rewrite H1. cbn [negb andb mbind result_bind]. rewrite H2, H3.
  cbn [fmap option_fmap option_map ok_or mbind result_bind]. rewrite H4, H5. cbn [negb].
  unfold checked_sub. rewrite (proj2 (Z.leb_le ENVELOPE_LEN size)) by (unfold ENVELOPE_LEN; lia).
  cbn [ok_or mbind result_bind]. rewrite H6. unfold rest at 1. rewrite existsb_zeros.
  rewrite H7. unfold rest. rewrite zlen_replicate.
  replace (9 + _ =? size - ENVELOPE_LEN) with true; [done|].
  symmetry. apply Z.eqb_eq. unfold ENVELOPE_LEN, HEADER_LEN. lia.
Qed.

Lemma parse_probe_ack_bytes p :
  Probe_ok (pack_id p) (pack_size p) -> parse (probe_ack_bytes p) = Ok (PProbeAck p).
Proof.
  destruct p as [id size]. cbn [pack_id pack_size]. intros Hok.
  unfold probe_ack_bytes. cbn [pack_id pack_size]. rewrite <- (app_nil_r (be_bytes 2 size)).
  destruct (parse_probe_fields FLAG_PROBE_ACK id size [] Hok) as (H1 & H2 & H3 & H4 & H5 & H6 & H7).
  set (l := data_header FLAG_PROBE_ACK 0 id ++ be_bytes 2 size ++ []) in *.
  assert (Hl : parse l = parse_probe l MARKER FLAG_PROBE_ACK 0 FLAG_PROBE_ACK).
  { unfold l, data_header. rewrite <- app_assoc. rewrite parse_header; [done|].
    destruct Hok. unfold is_u32, U32_MAX, M32 in *. lia. }
  rewrite Hl. unfold parse_probe. rewrite H1. cbn [negb andb mbind result_bind]. rewrite H2, H3.
  cbn [fmap option_fmap option_map ok_or mbind result_bind]. rewrite H4, H5. cbn [negb].
  rewrite H7. done.
Qed.

(** Probes have exactly the size they declare. A legal probe encodes to
    [size - 29] cleartext bytes, so that the sealed datagram is [size] bytes
    long, and parses back to itself; its acknowledgement is nine bytes and
    round-trips too. *)
Theorem probe_round_trip (id size : Z) (out : list Z) :
  Probe_ok id size -> size - ENVELOPE_LEN <= zlen out ->
  (exists wire, zlen wire = size - ENVELOPE_LEN /\
     encode_probe out (mkProbe id size) = (wire ++ drop (length wire) out, Ok (size - ENVELOPE_LEN)) /\
     parse wire = Ok (PProbe (mkProbe id size))) /\
  (exists wire, zlen wire = HEADER_LEN + 2 /\
     encode_probe_ack out (mkProbeAck id size) = (wire ++ drop (length wire) out, Ok (HEADER_LEN + 2)) /\
     parse wire = Ok (PProbeAck (mkProbeAck id size))).
Proof.
  intros Hok Hout. pose proof Hok as [Hid Hsz].
  assert (Hguard : (id =? U32_MAX) || negb (legal_datagram size) = false).
  { apply orb_false_iff. split; [apply Z.eqb_neq; lia|]. apply negb_false_iff. by apply legal_datagram_iff. }
  unfold DEFAULT_DATAGRAM, MAX_DATAGRAM, ENVELOPE_LEN, HEADER_LEN in *.
  split.
  - exists (probe_bytes (mkProbe id size)).
    assert (Hlen : zlen (probe_bytes (mkProbe id size)) = size - 29).
    { unfold probe_bytes, ENVELOPE_LEN, HEADER_LEN. cbn [probe_size probe_id]. rewrite !zlen_app, zlen_data_header, zlen_be_bytes, zlen_replicate. unfold HEADER_LEN. lia. }
    split; [done|]. split; [|by apply parse_probe_bytes].
    unfold encode_probe, checked_sub. cbn [probe_id probe_size]. rewrite Hguard.
    rewrite (proj2 (Z.leb_le ENVELOPE_LEN size)) by (unfold ENVELOPE_LEN; lia).
    rewrite !(proj2 (Z.ltb_ge _ _)) by (unfold ENVELOPE_LEN, HEADER_LEN; lia).
    rewrite try_from_some by (unfold U16_MAX; lia).
    change (data_header FLAG_PROBE 0 id ++ _) with (probe_bytes (mkProbe id size)).
    rewrite write_at_0 by lia. done.
  - exists (probe_ack_bytes (mkProbeAck id size)). split; [done|].
    split; [|by apply parse_probe_ack_bytes].
    unfold encode_probe_ack. cbn [pack_id pack_size]. rewrite Hguard.
    rewrite (proj2 (Z.ltb_ge _ _)) by (unfold HEADER_LEN; lia).
    rewrite try_from_some by (unfold U16_MAX; lia).
    change (data_header FLAG_PROBE_ACK 0 id ++ _) with (probe_ack_bytes (mkProbeAck id size)).
    rewrite write_at_0; [done|]. change (zlen (probe_ack_bytes _)) with 9. lia.
Qed.

Lemma probe_round_trip_witness :
  parse (fst (encode_probe (replicate 1371 7) (mkProbe 9 1400))) = Ok (PProbe (mkProbe 9 1400)).
Proof.
  destruct (probe_round_trip 9 1400 (replicate 1371 7)) as [(w & Hl & He & Hp) _].
  - by vm_compute.
  - by vm_compute.
  - rewrite He. cbn [fst]. rewrite drop_ge; [by rewrite app_nil_r|].
    rewrite length_replicate. unfold zlen, ENVELOPE_LEN in Hl. lia.
Defined.

(** Everything that is not data round-trips as well. An acknowledgement
    the encoder writes in 83 bytes parses back to itself, and one from a peer
    that reports only [k] channels is read as exactly those [k] values; a legal
    probe fills exactly the datagram it declares and parses back to itself, and
    so does its nine-byte acknowledgement. *)
Theorem control_packets_round_trip (a : Ack) (id size : Z) (out : list Z) :
  Ack_ok a -> Probe_ok id size -> MAX_DATAGRAM <= zlen out ->
  (ack_reported a = CHANNEL_COUNT ->
   exists wire, zlen wire = ACK_LEN /\
     encode_ack out a = (wire ++ drop (length wire) out, Ok ACK_LEN) /\ parse wire = Ok (PAck a)) /\
  parse (ack_bytes a (take (Z.to_nat (ack_reported a)) (ack_cumulative a))) = Ok (PAck a) /\
  (exists wire, zlen wire = size - ENVELOPE_LEN /\
     encode_probe out (mkProbe id size) = (wire ++ drop (length wire) out, Ok (size - ENVELOPE_LEN)) /\
     parse wire = Ok (PProbe (mkProbe id size))) /\
  (exists wire, zlen wire = HEADER_LEN + 2 /\
     encode_probe_ack out (mkProbeAck id size) = (wire ++ drop (length wire) out, Ok (HEADER_LEN + 2)) /\
     parse wire = Ok (PProbeAck (mkProbeAck id size))).
Proof.
  intros Ha Hp Hout. pose proof Hp as [_ Hs]. unfold MAX_DATAGRAM, ENVELOPE_LEN, ACK_LEN in *.
  destruct (ack_round_trip a Ha) as [He Hd]. split; [|split; [done|]].
  - intros Hr. apply (He Hr). unfold ACK_LEN. lia.
  - apply probe_round_trip; [done|]. unfold ENVELOPE_LEN. lia.
Qed.

Lemma control_packets_round_trip_witness :
  exists wire, zlen wire = 1371 /\ fst (encode_probe (replicate 2000 7) (mkProbe 9 1400)) = wire ++ replicate 629 7 /\
    parse wire = Ok (PProbe (mkProbe 9 1400)).
Proof.
  destruct (control_packets_round_trip (mkAck KAck false 5 77 (replicate 19 3) 19) 9 1400 (replicate 2000 7)) as (_ & _ & (w & Hl & He & Hp) & _).
  - repeat split; try done; [by apply u32s_ok_b|]. intros i Hi. cbn in Hi. unfold CHANNEL_COUNT in Hi. lia.
  - by vm_compute.
  - by vm_compute.
  - exists w. split; [exact Hl|]. split; [|exact Hp]. rewrite He. cbn [fst]. f_equal.
    rewrite drop_replicate. f_equal. unfold zlen, ENVELOPE_LEN in Hl. lia.
Defined.

(** ** What the parser lets through *)

Lemma mapM_result_length {A B} (f : A -> result B) (l : list A) k : mapM f l = Ok k -> length k = length l.
Proof.
  revert k. induction l as [|a l IH]; cbn [mapM]; intros k H.
  - by injection H as <-.
  - apply bind_ok in H as (b & _ & H). apply bind_ok in H as (k' & Hk & H).
    injection H as <-. cbn [length]. by rewrite (IH _ Hk).
Qed.

Lemma mapM_result_forall {A B} (f : A -> result B) (P : B -> Prop) (l : list A) k :
  (forall a b, f a = Ok b -> P b) -> mapM f l = Ok k -> Forall P k.
Proof.
  intros Hf. revert k. induction l as [|a l IH]; cbn [mapM]; intros k H.
  - injection H as <-. constructor.
  - apply bind_ok in H as (b & Hb & H). apply bind_ok in H as (k' & Hk & H).
    injection H as <-. constructor; [by eapply Hf|by apply IH].
Qed.

Lemma mapM_result_err {A B} (f : A -> result B) (l : list A) e : mapM f l = Err e -> exists a, f a = Err e.
Proof.
  induction l as [|a l IH]; cbn [mapM]; [done|]. intros H.
  destruct (f a) eqn:Ea; cbn in H; [|injection H as <-; eauto].
  destruct (mapM f l); cbn in H; [done|]. injection H as <-. by apply IH.
Qed.

Lemma parse_ack_sound l kind channel seq nack p :
  bytes_ok l -> 0 <= channel < CHANNEL_COUNT -> 0 <= seq < U32_MAX ->
  (nack = true -> kind = FLAG_ACK) ->
  parse_ack l kind channel seq nack = Ok p -> Packet_ok p.
Proof.
  intros Hl Hc Hs Hn H. unfold parse_ack in H.
  set (rep := saturating_sub (zlen l) HEADER_LEN / 4) in *.
  destruct (rep =? 0) eqn:E0; [done|]. bool_prop.
  apply bind_ok in H as (vs & Hvs & H). injection H as <-.
  assert (Hrep : 1 <= Z.min rep CHANNEL_COUNT <= CHANNEL_COUNT).
  { assert (0 <= rep) by (apply Z.div_pos; unfold saturating_sub; lia). unfold CHANNEL_COUNT. lia. }
  pose proof (mapM_result_length _ _ _ Hvs) as Hlen. rewrite length_seqZ in Hlen.
  apply (mapM_result_forall _ is_u32) in Hvs; [|intros ? ? Hb; by eapply be32_ok in Hb as [? _]].
  cbn. unfold Ack_ok. cbn [trigger_channel trigger_seq ack_cumulative ack_reported ack_nack ack_kind].
  repeat split; try lia.
  - apply Forall_app. split; [done|]. apply Forall_replicate. unfold is_u32, M32. lia.
  - rewrite length_app, length_replicate, Hlen. unfold CHANNEL_COUNT in *. lia.
  - intros ->. by rewrite (proj2 (Z.eqb_eq _ _) (Hn eq_refl)).
  - intros i Hi. rewrite get_lookup, lookup_app_r by lia. apply lookup_replicate. split; [done|]. lia.
Qed.

Lemma parse_probe_sound l marker flags channel kind p :
  bytes_ok l -> parse_probe l marker flags channel kind = Ok p ->
  Packet_ok p /\ (forall q, p = PProbe q -> zlen l + ENVELOPE_LEN = probe_size q).
Proof.
  intros Hl H. unfold parse_probe in H.
  guards H; injection H as <-; cbn [Packet_ok probe_id probe_size pack_id pack_size].
  all: match goal with E : be32 _ 3 = Ok _ |- _ => apply be32_ok in E as [Hid _]; [|done] end.
  all: bool_prop; unfold Probe_ok.
  all: match goal with E : legal_datagram _ = true |- _ => apply legal_datagram_iff in E end.
  all: unfold is_u32, U32_MAX, M32 in *.
  all: split; [lia|]; intros q Hq; inversion Hq; subst; cbn.
  unfold checked_sub in *. repeat case_match; try done.
  match goal with E : ok_or (Some _) _ = Ok _ |- _ => injection E as <- end. lia.
Qed.

(** Whatever the parser accepts. *)
Lemma parse_ok_inv (l : list Z) p :
  bytes_ok l -> parse l = Ok p ->
  HEADER_LEN <= zlen l /\ Packet_ok p /\ (forall q, p = PProbe q -> zlen l + ENVELOPE_LEN = probe_size q).
Proof.
  intros Hl H.
  destruct (Z.lt_ge_cases (zlen l) HEADER_LEN) as [Hlt|H7]; [by rewrite parse_short in H|].
  destruct (header_split l Hl H7) as (m & f & c & s & rest & Heq & Hm & Hf & Hc & Hs & Hr).
  assert (Hp : parse l = parse_decide l m f c s rest) by (rewrite Heq; by apply parse_header).
  rewrite Hp in H. clear Hp Heq. split; [done|]. unfold parse_decide in H. guards H.
  - by eapply parse_probe_sound.
  - injection H as <-. split; [|done]. cbn. bool_prop. unfold Data_ok, is_u8, is_u32, U32_MAX, M32 in *.
    cbn. repeat split; (done || lia).
  - split; [|intros q ->; unfold parse_ack in H; guards H].
    eapply parse_ack_sound; [exact Hl| | | |exact H]; bool_prop; unfold is_u8, is_u32, U32_MAX, M32 in *; try lia.
Qed.

(** The parser is total and strict: it refuses with one of three errors,
    and whatever it accepts is a legal packet (channel below 19, sequence and
    probe identifiers below the reserved value, probe sizes within the protocol
    bounds, a negative acknowledgement only on an acknowledgement, unreported
    channels zero); a probe it accepts fills exactly the datagram it declares. *)
Theorem parse_sound (l : list Z) :
  bytes_ok l ->
  match parse l with
  | Ok p => HEADER_LEN <= zlen l /\ Packet_ok p /\
            (forall q, p = PProbe q -> zlen l + ENVELOPE_LEN = probe_size q)
  | Err e => e = ShortPacket \/ e = Malformed \/ e = ShortAck
  end.
Proof.
  intros Hl. destruct (parse l) as [p|e] eqn:H; [by apply parse_ok_inv|].
  destruct (Z.lt_ge_cases (zlen l) HEADER_LEN) as [Hlt|H7]; [rewrite parse_short in H by done; injection H as <-; auto|].
  destruct (header_split l Hl H7) as (m & f & c & s & rest & Heq & Hm & Hf & Hc & Hs & Hr).
  assert (Hp : parse l = parse_decide l m f c s rest) by (rewrite Heq; by apply parse_header).
  rewrite Hp in H. clear Hp Heq.
  assert (Hbe : forall a e, be32 l a = Err e -> e = ShortPacket).
  { intros a e0. unfold be32. destruct (slice l a (a + 4)); cbn; congruence. }
  unfold parse_decide, parse_probe, parse_ack in H.
  guards H; injection H as <-; auto.
  all: match goal with
       | B : be32 _ _ = Err _ |- _ => apply Hbe in B; auto
       | B : mapM _ _ = Err _ |- _ => apply mapM_result_err in B as (? & B); apply Hbe in B; auto
       | B : ok_or _ _ = Err _ |- _ => apply ok_or_err in B as [_ ->]; auto
       end.
Qed.

Lemma parse_sound_witness :
  parse ([1; 1; 18; 0; 0; 0; 7; 255]) = Ok (PData (mkData 18 7 false [255])) /\
  Data_ok (mkData 18 7 false [255]).
Proof.
  split; [reflexivity|].
  refine (proj1 (proj2 (parse_sound ([1; 1; 18; 0; 0; 0; 7; 255]) _))).
  by apply bytes_ok_b.
Defined.
