(* ===== verification/Message.v ===== *)
(** * Message framing and fragmentation ([core/src/message.rs])

    A message is the virtual byte stream [length prefix ++ header ++ payload],
    sliced into fragments of [body_capacity] bytes. *)

From S2P Require Import Prelude.

Definition LENGTH_PREFIX_LEN : Z := 4.

(** [message::fragment_count]. *)
Definition fragment_count (total_len body_capacity : Z) : Z :=
  if body_capacity =? 0 then 0 else
  let stream := total_len + LENGTH_PREFIX_LEN in
  let whole := stream / body_capacity in
  if stream mod body_capacity =? 0 then whole else whole + 1.

(** [message::parse_length_prefix]. *)
Definition parse_length_prefix (first_body : list Z) : result Z :=
  ok_or (be_val <$> slice_to first_body LENGTH_PREFIX_LEN) BadLength.

Record Message := mkMessage {
  msg_prefix : list Z;  (* [u8; LENGTH_PREFIX_LEN] *)
  msg_header : list Z;
  msg_payload : list Z;
}.

Record Fragment := mkFragment { frag_len : Z; frag_last : bool }.

(** [Message::new]. *)
Definition message_new (header payload : list Z) : result Message :=
  total ← ok_or (checked_add64 (zlen header) (zlen payload)) BadLength;
  total ← ok_or (try_from U32_MAX total) BadLength;
  Ok (mkMessage (be_bytes 4 total) header payload).

Definition total_len (m : Message) : Z := be_val (msg_prefix m).

Definition stream_len (m : Message) : Z :=
  LENGTH_PREFIX_LEN + zlen (msg_header m) + zlen (msg_payload m).

(** [Message::fragment_count]. *)
Definition message_fragment_count (m : Message) (body_capacity : Z) : Z :=
  fragment_count (total_len m) body_capacity.

Definition byte_at (m : Message) (position : Z) : option Z :=
  if position <? LENGTH_PREFIX_LEN then get (msg_prefix m) position else
  let position := position - LENGTH_PREFIX_LEN in
  if position <? zlen (msg_header m) then get (msg_header m) position else
  get (msg_payload m) (position - zlen (msg_header m)).

(** The byte loop of [Message::fragment]: [dst[offset] = byte_at(start + offset)]
    for each offset in turn, stopping with [BadLength] at a byte that is not
    there. *)
Fixpoint copy_stream (m : Message) (start : Z) (offsets : list Z) (out : list Z)
  : list Z * result unit :=
  match offsets with
  | [] => (out, Ok tt)
  | offset :: offsets =>
      match byte_at m (start + offset) with
      | Some value => copy_stream m start offsets (set_at out offset value)
      | None => (out, Err BadLength)
      end
  end.

(** [Message::fragment]. [None] is "past the end". *)
Definition fragment (m : Message) (index body_capacity : Z) (out : list Z)
  : list Z * option (result Fragment) :=
  if body_capacity =? 0 then (out, Some (Err BadLength)) else
  let len := stream_len m in
  match checked_mul64 index body_capacity with
  | None => (out, None)
  | Some start =>
      if len <=? start then (out, None) else
      let end_ := Z.min (start + body_capacity) len in
      let flen := end_ - start in
      if zlen out <? flen then (out, Some (Err BufferTooSmall)) else
      let '(out, r) := copy_stream m start (seqZ 0 flen) out in
      (out, Some (r ≫= fun _ => Ok (mkFragment flen (end_ =? len))))
  end.

(** ** The stream a message denotes *)

Definition stream (m : Message) : list Z := msg_prefix m ++ msg_header m ++ msg_payload m.

(** The bytes of fragment [index] at capacity [cap]: a window of the stream. *)
Definition fragment_body (m : Message) (index cap : Z) : list Z :=
  take (Z.to_nat cap) (drop (Z.to_nat (index * cap)) (stream m)).

(** What [message_new] establishes. *)
Definition Message_ok (m : Message) : Prop :=
  bytes_ok (msg_header m) /\ bytes_ok (msg_payload m) /\
  msg_prefix m = be_bytes 4 (zlen (msg_header m) + zlen (msg_payload m)) /\
  zlen (msg_header m) + zlen (msg_payload m) <= U32_MAX.

Lemma message_new_ok h p m :
  bytes_ok h -> bytes_ok p -> message_new h p = Ok m ->
  Message_ok m /\ msg_header m = h /\ msg_payload m = p.
Proof.
  intros Hh Hp H. unfold message_new in H.
  apply bind_ok in H as (t & Ht & H). apply bind_ok in H as (t' & Ht' & H). injection H as <-.
  apply ok_or_ok in Ht, Ht'. apply try_from_inv in Ht' as [-> ?]. unfold checked_add64 in Ht.
  case_match; [|done]. injection Ht as <-. unfold Message_ok; cbn. repeat split; try done; lia.
Qed.

Lemma message_new_total h p :
  zlen h + zlen p <= U32_MAX -> is_ok (message_new h p) = true.
Proof.
  intros H. unfold message_new. rewrite checked_add64_some by (unfold U32_MAX, U64_MAX in *; zlen_pose; lia).
  cbn [ok_or mbind result_bind]. rewrite try_from_some by (zlen_pose; lia). done.
Qed.

Lemma take_length_take {A} (n : nat) (l : list A) : take (length (take n l)) l = take n l.
Proof.
  rewrite length_take. destruct (Nat.min_spec n (length l)) as [[? ->]|[? ->]]; [done|].
  by rewrite !take_ge by lia.
Qed.

Section facts.
Context (m : Message) (Hm : Message_ok m).

Lemma zlen_stream : zlen (stream m) = stream_len m.
Proof. destruct Hm as (_ & _ & Hp & _). unfold stream, stream_len. rewrite Hp. unfold LENGTH_PREFIX_LEN. zlia. Qed.

Lemma total_len_ok : total_len m = zlen (msg_header m) + zlen (msg_payload m).
Proof.
  destruct Hm as (_ & _ & Hp & Hl). unfold total_len. rewrite Hp. apply be_val_bytes.
  unfold U32_MAX in Hl. zlen_pose. lia.
Qed.

Lemma bytes_ok_stream : bytes_ok (stream m).
Proof. destruct Hm as (? & ? & Hp & _). unfold stream. rewrite !bytes_ok_app, Hp. auto using be_bytes_ok. Qed.

Lemma byte_at_stream p : 0 <= p -> byte_at m p = get (stream m) p.
Proof.
  intros H. destruct Hm as (_ & _ & Hp & _).
  assert (H4 : length (msg_prefix m) = 4%nat) by (rewrite Hp; done).
  unfold byte_at, stream, LENGTH_PREFIX_LEN.
  destruct (Z.ltb_spec p 4).
  - rewrite !get_lookup by lia. rewrite lookup_app_l by lia. done.
  - destruct (Z.ltb_spec (p - 4) (zlen (msg_header m))); unfold zlen in *; rewrite !get_lookup by lia.
    + rewrite lookup_app_r, lookup_app_l by lia. f_equal. lia.
    + rewrite lookup_app_r, lookup_app_r by lia. f_equal. lia.
Qed.

(** The loop writes the stream's bytes at the front of the buffer. *)
Lemma copy_stream_eq start (k n : nat) out :
  0 <= start -> start + Z.of_nat k + Z.of_nat n <= stream_len m -> Z.of_nat k + Z.of_nat n <= zlen out ->
  copy_stream m start (seqZ (Z.of_nat k) (Z.of_nat n)) out =
    (take k out ++ take n (drop (Z.to_nat start + k) (stream m)) ++ drop (k + n) out, Ok tt).
Proof.
  intros Hs. revert k out. induction n as [|n IH]; intros k out H1 H2.
  - change (seqZ (Z.of_nat k) 0) with (@nil Z). cbn [copy_stream]. rewrite take_0, app_nil_l, Nat.add_0_r, take_drop. done.
  - rewrite seqZ_cons by lia. cbn [copy_stream]. rewrite byte_at_stream by lia.
    destruct (get_some (stream m) (start + Z.of_nat k)) as [v Hv]; [rewrite zlen_stream; lia|].
    rewrite Hv. replace (Z.succ (Z.of_nat k)) with (Z.of_nat (S k)) by lia.
    replace (Z.pred (Z.of_nat (S n))) with (Z.of_nat n) by lia.
    rewrite IH by (rewrite ?zlen_set_at; lia). f_equal.
    apply get_inv in Hv as [_ Hv]. replace (Z.to_nat (start + Z.of_nat k)) with (Z.to_nat start + k)%nat in Hv by lia.
    unfold set_at. rewrite (proj2 (Z.ltb_ge _ _)) by lia. rewrite Nat2Z.id.
    unfold zlen in H2.
    rewrite (drop_S _ _ _ Hv). cbn [take app].
    rewrite <- Nat.add_succ_r, drop_insert_lt by lia.
    rewrite (take_S_r _ _ v) by (rewrite list_lookup_insert_eq; [done|lia]).
    rewrite take_insert_ge by lia. rewrite <- app_assoc. cbn [app].
    do 4 f_equal. lia.
Qed.

(** How many fragments there are, as a bound on their start offsets. *)
Lemma fragment_count_spec cap :
  0 < cap ->
  let n := message_fragment_count m cap in
  1 <= n /\ (n - 1) * cap < stream_len m <= n * cap.
Proof.
  intros Hcap n. subst n. unfold message_fragment_count, fragment_count.
  rewrite total_len_ok. rewrite (proj2 (Z.eqb_neq cap 0)) by lia.
  replace (zlen (msg_header m) + zlen (msg_payload m) + LENGTH_PREFIX_LEN) with (stream_len m) by (unfold stream_len; lia).
  assert (4 <= stream_len m) by (unfold stream_len, LENGTH_PREFIX_LEN; zlen_pose; lia).
  pose proof (Z.div_mod (stream_len m) cap ltac:(lia)) as Hdm.
  pose proof (Z.mod_pos_bound (stream_len m) cap Hcap) as Hb.
  destruct (Z.eqb_spec (stream_len m mod cap) 0); nia.
Qed.

Lemma zlen_fragment_body i cap :
  0 < cap -> 0 <= i < message_fragment_count m cap ->
  zlen (fragment_body m i cap) = Z.min cap (stream_len m - i * cap) /\ 0 < zlen (fragment_body m i cap) <= cap.
Proof.
  intros Hcap Hi. destruct (fragment_count_spec cap Hcap) as [Hn Hs].
  assert (i * cap <= (message_fragment_count m cap - 1) * cap) by nia.
  unfold fragment_body. rewrite zlen_take, zlen_drop, zlen_stream. nia.
Qed.

(** [Message::fragment] writes exactly its window of the stream. *)
Lemma fragment_eq i cap out :
  0 < cap -> 0 <= i < message_fragment_count m cap -> cap <= zlen out -> stream_len m <= U64_MAX ->
  fragment m i cap out =
    (fragment_body m i cap ++ drop (length (fragment_body m i cap)) out,
     Some (Ok (mkFragment (zlen (fragment_body m i cap)) (i =? message_fragment_count m cap - 1)))).
Proof.
  intros Hcap Hi Hout Hmax. destruct (fragment_count_spec cap Hcap) as [Hn Hs].
  destruct (zlen_fragment_body i cap Hcap Hi) as [Hlen Hpos].
  assert (Hic : i * cap <= (message_fragment_count m cap - 1) * cap) by nia.
  unfold fragment. rewrite (proj2 (Z.eqb_neq cap 0)) by lia. rewrite checked_mul64_some by lia.
  rewrite (proj2 (Z.leb_gt _ _)) by lia.
  replace (Z.min (i * cap + cap) (stream_len m) - i * cap) with (zlen (fragment_body m i cap)) by lia.
  rewrite (proj2 (Z.ltb_ge _ _)) by lia.
  pose proof (copy_stream_eq (i * cap) 0 (length (fragment_body m i cap)) out) as Hc.
  unfold zlen at 1. change (Z.of_nat 0) with 0 in Hc. rewrite Hc by (unfold zlen in *; nia).
  rewrite Nat.add_0_r, take_0, app_nil_l, Nat.add_0_l. f_equal.
  - f_equal. unfold fragment_body. apply take_length_take.
  - cbn [mbind result_bind]. do 3 f_equal.
    destruct (Z.eqb_spec (Z.min (i * cap + cap) (stream_len m)) (stream_len m)),
      (Z.eqb_spec i (message_fragment_count m cap - 1)); try done; exfalso; nia.
Qed.

Lemma fragment_past_end i cap out :
  0 < cap -> message_fragment_count m cap <= i -> fragment m i cap out = (out, None).
Proof.
  intros Hcap Hi. destruct (fragment_count_spec cap Hcap) as [Hn Hs].
  unfold fragment. rewrite (proj2 (Z.eqb_neq cap 0)) by lia.
  assert (message_fragment_count m cap * cap <= i * cap) by (apply Z.mul_le_mono_nonneg_r; lia).
  unfold checked_mul64. destruct (i * cap <=? U64_MAX); [|done]. by rewrite (proj2 (Z.leb_le _ _)) by lia.
Qed.

End facts.

(** Fragments [0 .. n) of any list, glued together. *)
Lemma concat_windows {A} (l : list A) (cap n : nat) :
  (0 < cap)%nat ->
  mjoin ((fun i => take cap (drop (i * cap) l)) <$> seq 0 n) = take (n * cap) l.
Proof.
  intros Hcap. induction n as [|n IH]; [done|].
  rewrite seq_S, fmap_app, join_app, IH. cbn [fmap list_fmap mjoin list_join].
  rewrite app_nil_r, Nat.add_0_l.
  rewrite <- (take_drop (n * cap) (take (S n * cap) l)). f_equal.
  - rewrite take_take. f_equal. lia.
  - rewrite skipn_firstn_comm. f_equal. lia.
Qed.

Lemma join_fragments (m : Message) cap :
  Message_ok m -> 0 < cap ->
  mjoin ((fun i => fragment_body m i cap) <$> seqZ 0 (message_fragment_count m cap)) = stream m.
Proof.
  intros Hm Hcap. destruct (fragment_count_spec m Hm cap Hcap) as [Hn Hs].
  transitivity (take (Z.to_nat (message_fragment_count m cap) * Z.to_nat cap) (stream m)).
  - rewrite <- concat_windows by lia. unfold seqZ. rewrite <- list_fmap_compose. f_equal.
    apply list_fmap_ext. intros j x Hx. apply lookup_seq in Hx as [-> _]. cbn.
    unfold fragment_body. do 2 f_equal. lia.
  - apply take_ge. pose proof (zlen_stream m Hm) as Hz. unfold zlen in Hz. nia.
Qed.

(** Fragmentation is exact: for a message built by [Message::new] and any
    capacity the buffer can hold, fragment [i] is written for every
    [i < fragment_count] and refused past the end, its last flag is set on the
    final fragment and nowhere else, every fragment carries between 1 and
    [cap] bytes (exactly [cap] unless it is the final one), and the fragments in
    order are the stream [prefix ++ header ++ payload]. *)
Theorem fragmentation_exact (m : Message) (cap : Z) (out : list Z) :
  Message_ok m -> 0 < cap <= zlen out ->
  let n := message_fragment_count m cap in
  (forall i, 0 <= i < n ->
     fragment m i cap out =
       (fragment_body m i cap ++ drop (length (fragment_body m i cap)) out,
        Some (Ok (mkFragment (zlen (fragment_body m i cap)) (i =? n - 1)))) /\
     1 <= zlen (fragment_body m i cap) <= cap /\
     (i < n - 1 -> zlen (fragment_body m i cap) = cap)) /\
  (forall i, n <= i -> fragment m i cap out = (out, None)) /\
  mjoin ((fun i => fragment_body m i cap) <$> seqZ 0 n) = stream m.
Proof.
  intros Hm Hcap n. destruct (fragment_count_spec m Hm cap ltac:(lia)) as [Hn Hs]. fold n in Hn, Hs.
  assert (Hmax : stream_len m <= U64_MAX).
  { destruct Hm as (_ & _ & _ & Hl). unfold stream_len, LENGTH_PREFIX_LEN, U32_MAX, U64_MAX in *. lia. }
  split; [|split].
  - intros i Hi. destruct (zlen_fragment_body m Hm i cap ltac:(lia) Hi) as [Hl Hp].
    split; [apply fragment_eq; (done || lia)|]. split; [lia|]. intros Hlt. rewrite Hl. nia.
  - intros i Hi. apply fragment_past_end; (done || lia).
  - apply join_fragments; (done || lia).
Qed.

Lemma fragmentation_exact_witness :
  let m := mkMessage [0; 0; 0; 5] [10; 11] [12; 13; 14] in
  message_fragment_count m 4 = 3 /\
  fragment m 2 4 (replicate 4 0) = ([14; 0; 0; 0], Some (Ok (mkFragment 1 true))).
Proof.
  cbv zeta. split; [reflexivity|].
  refine (proj1 (proj1 (fragmentation_exact (mkMessage [0; 0; 0; 5] [10; 11] [12; 13; 14]) 4 (replicate 4 0) _ _) 2 _)).
  - repeat split; try (by vm_compute); by apply bytes_ok_b.
  - by vm_compute.
  - by vm_compute.
Defined.
