(* ===== verification/RecvRing.v ===== *)
(** * Receive ring and reassembly ([core/src/channel.rs])

    The direct-mapped receive ring of one channel: a flat byte arena, one
    [SlotMeta] per slot, and the three cursors [delivered], [cumulative] and
    [highest]. Methods that mutate the ring return it. Loops that walk a cursor
    to a bound are structural in the number of steps left, the serial distance
    between the two. *)

From stdpp Require Import gmap.
From S2P Require Import Prelude Seq Message.

(** Slots per channel, fixed by the protocol. *)
Definition RING_SLOTS : Z := 4000.

Inductive Stored := Accepted | Duplicate | OutOfWindow | TooLarge.

#[export] Instance Stored_eq_dec : EqDecision Stored.
Proof. solve_decision. Defined.

Record SlotMeta := mkSlotMeta { sm_len : Z; sm_ready : bool }.

Definition SlotMeta_default : SlotMeta := mkSlotMeta 0 false.

Record RecvRing := mkRecvRing {
  rr_bodies : list Z;
  rr_meta : list SlotMeta;
  rr_slot_len : Z;
  rr_delivered : Z;
  rr_cumulative : Z;
  rr_highest : Z;
}.

#[export] Instance eta_RecvRing : Eta RecvRing := fun r =>
  mkRecvRing (rr_bodies r) (rr_meta r) (rr_slot_len r) (rr_delivered r) (rr_cumulative r) (rr_highest r).

(** [RecvRing::new]. *)
Definition recv_new (bodies : list Z) (meta : list SlotMeta) (slot_len : Z) : result RecvRing :=
  if (slot_len =? 0) || (zlen meta =? 0) then Err BadLength else
  want ← ok_or (checked_mul64 (zlen meta) slot_len) BadLength;
  if negb (zlen bodies =? want) then Err BadLength else
  Ok (mkRecvRing bodies meta slot_len 0 0 0).

Definition reset_to (r : RecvRing) (start : Z) : RecvRing :=
  mkRecvRing (rr_bodies r) (map (fun _ => SlotMeta_default) (rr_meta r)) (rr_slot_len r)
             start start start.

Definition cumulative_ack (r : RecvRing) : Z := rr_cumulative r.

Definition has_gap (r : RecvRing) : bool := negb (rr_cumulative r =? rr_highest r).

Definition slots (r : RecvRing) : Z := zlen (rr_meta r).

Definition index (r : RecvRing) (sequence : Z) : Z := sequence mod zlen (rr_meta r).

Definition slot_body (r : RecvRing) (sequence : Z) : option (list Z) :=
  let i := index r sequence in
  meta ← get (rr_meta r) i;
  if negb (sm_ready meta) then None else
  start ← checked_mul64 i (rr_slot_len r);
  stop ← checked_add64 start (sm_len meta);
  slice (rr_bodies r) start stop.

(** The frontier walk of [advance]: at most [fuel] steps. *)
Fixpoint advance_loop (fuel : nat) (r : RecvRing) : RecvRing :=
  match fuel with
  | O => r
  | S fuel =>
      if rr_cumulative r =? rr_highest r then r else
      match get (rr_meta r) (index r (rr_cumulative r)) with
      | Some meta =>
          if sm_ready meta
          then advance_loop fuel (r <| rr_cumulative := wrapping_add32 (rr_cumulative r) 1 |>)
          else r
      | None => r
      end
  end.

Definition advance (r : RecvRing) : RecvRing :=
  advance_loop (Z.to_nat (distance (rr_cumulative r) (rr_highest r))) r.

Definition store (r : RecvRing) (sequence : Z) (body : list Z) : RecvRing * Stored :=
  if Seq.lt sequence (rr_delivered r) then (r, Duplicate) else
  if zlen (rr_meta r) <=? distance (rr_delivered r) sequence then (r, OutOfWindow) else
  if rr_slot_len r <? zlen body then (r, TooLarge) else
  match try_from U16_MAX (zlen body) with
  | None => (r, TooLarge)
  | Some len =>
      let i := index r sequence in
      match get (rr_meta r) i with
      | None => (r, OutOfWindow)
      | Some meta =>
          if sm_ready meta then (r, Duplicate) else
          match checked_mul64 i (rr_slot_len r) with
          | None => (r, OutOfWindow)
          | Some start =>
              match write (rr_bodies r) start body with
              | None => (r, OutOfWindow)
              | Some bodies =>
                  let r := r <| rr_bodies := bodies |>
                             <| rr_meta := set_at (rr_meta r) i (mkSlotMeta len true) |> in
                  let next := wrapping_add32 sequence 1 in
                  let r := if Seq.gt next (rr_highest r) then r <| rr_highest := next |> else r in
                  (advance r, Accepted)
              end
          end
      end
  end.

Definition window_used (r : RecvRing) : Z := wrapping_sub32 (rr_highest r) (rr_delivered r).

(** [meta[index(cursor + i)] = SlotMeta::default()] for [i < n]: the release
    loops of [escape_stall] and [take_message]. *)
Fixpoint release (n : nat) (r : RecvRing) (cursor : Z) : RecvRing :=
  match n with
  | O => r
  | S n =>
      release n (r <| rr_meta := set_at (rr_meta r) (index r cursor) SlotMeta_default |>)
              (wrapping_add32 cursor 1)
  end.

(** The scan of [escape_stall]: the furthest occupied and the furthest
    resumable slot from [cursor] on. *)
Fixpoint scan_stall (n : nat) (r : RecvRing) (resumable : list Z -> bool) (cursor : Z)
    (furthest furthest_resumable : option Z) : option Z * option Z :=
  match n with
  | O => (furthest, furthest_resumable)
  | S n =>
      match slot_body r cursor with
      | Some body =>
          scan_stall n r resumable (wrapping_add32 cursor 1) (Some cursor)
                     (if resumable body then Some cursor else furthest_resumable)
      | None => scan_stall n r resumable (wrapping_add32 cursor 1) furthest furthest_resumable
      end
  end.

Definition escape_stall (r : RecvRing) (resumable : list Z -> bool) : RecvRing * option Z :=
  if negb (has_gap r) then (r, None) else
  let '(furthest, furthest_resumable) :=
    scan_stall (Z.to_nat (distance (rr_delivered r) (rr_highest r))) r resumable
               (rr_delivered r) None None in
  match (match furthest_resumable with Some t => Some t | None => furthest end) with
  | None => (r, None)
  | Some target =>
      if Seq.le target (rr_delivered r) then (r, None) else
      let r := release (Z.to_nat (distance (rr_delivered r) target)) r (rr_delivered r) in
      let r := r <| rr_delivered := target |> in
      let r := if Seq.lt (rr_cumulative r) target then r <| rr_cumulative := target |> else r in
      (advance r, Some target)
  end.

(** The first loop of [take_message]: accumulate fragment lengths until they
    reach [stream]. [fuel] is the distance from the cursor to [cumulative], so
    it runs out exactly where the source finds [cursor == cumulative]. *)
Fixpoint gather (fuel : nat) (r : RecvRing) (stream collected fragments cursor : Z)
  : option (Z * Z) :=
  if stream <=? collected then Some (collected, fragments) else
  match fuel with
  | O => None
  | S fuel =>
      body ← slot_body r cursor;
      collected ← checked_add64 collected (zlen body);
      fragments ← (if fragments + 1 <=? U32_MAX then Some (fragments + 1) else None);
      gather fuel r stream collected fragments (wrapping_add32 cursor 1)
  end.

(** The second loop: copy the content out, skipping the prefix once. It runs
    while [written < total]; [fuel] is the number of fragments gathered, which
    [copy_out_ok] below shows is always enough. *)
Fixpoint copy_out (fuel : nat) (r : RecvRing) (total written skip cursor : Z) (out : list Z)
  : list Z * result unit :=
  if total <=? written then (out, Ok tt) else
  match fuel with
  | O => (out, Err BadLength)
  | S fuel =>
      match slot_body r cursor with
      | None => (out, Err BadLength)
      | Some body =>
          let src := default [] (slice_from body skip) in
          let n := Z.min (zlen src) (total - written) in
          match write out written (take (Z.to_nat n) src) with
          | None => (out, Err BufferTooSmall)
          | Some out => copy_out fuel r total (written + n) 0 (wrapping_add32 cursor 1) out
          end
      end
  end.

Definition take_message (r : RecvRing) (out : list Z) : RecvRing * list Z * option (result Z) :=
  if rr_delivered r =? rr_cumulative r then (r, out, None) else
  match slot_body r (rr_delivered r) with
  | None => (r, out, None)
  | Some first =>
      match parse_length_prefix first with
      | Err error => (r, out, Some (Err error))
      | Ok total =>
          match checked_add64 total LENGTH_PREFIX_LEN with
          | None => (r, out, None)
          | Some stream =>
              match gather (Z.to_nat (distance (rr_delivered r) (rr_cumulative r)))
                           r stream 0 0 (rr_delivered r) with
              | None => (r, out, None)
              | Some (collected, fragments) =>
                  if negb (collected =? stream) then (r, out, Some (Err BadLength)) else
                  if zlen out <? total then (r, out, Some (Err BufferTooSmall)) else
                  match copy_out (Z.to_nat fragments) r total 0 LENGTH_PREFIX_LEN (rr_delivered r) out with
                  | (out, Err error) => (r, out, Some (Err error))
                  | (out, Ok _) =>
                      let r := release (Z.to_nat fragments) r (rr_delivered r) in
                      (r <| rr_delivered := wrapping_add32 (rr_delivered r) fragments |>,
                       out, Some (Ok total))
                  end
              end
          end
      end
  end.

(** ** The ring as an array of cells

    [cell r i] is what slot [i] holds; [slot_body] reads it at the slot of a
    sequence number. The lemmas say what each write does to the cells. *)

Definition cell (r : RecvRing) (i : Z) : option (list Z) :=
  meta ← get (rr_meta r) i;
  if negb (sm_ready meta) then None else
  slice (rr_bodies r) (i * rr_slot_len r) (i * rr_slot_len r + sm_len meta).

Definition is_ready (r : RecvRing) (i : Z) : bool :=
  match get (rr_meta r) i with Some meta => sm_ready meta | None => false end.

(** The geometry [RecvRing::new] establishes, and no ready slot longer than a
    slot. *)
Record WF (r : RecvRing) : Prop := {
  wf_slot : 0 < rr_slot_len r;
  wf_slots : 0 < slots r < 2147483648;
  wf_bodies : zlen (rr_bodies r) = slots r * rr_slot_len r;
  wf_max : slots r * rr_slot_len r <= U64_MAX;
  wf_len : forall i m, get (rr_meta r) i = Some m -> sm_ready m = true -> 0 <= sm_len m <= rr_slot_len r;
}.

Lemma index_range r s : WF r -> 0 <= index r s < slots r.
Proof. intros H. apply Z.mod_pos_bound, (wf_slots r H). Qed.

Lemma slot_end r i : WF r -> 0 <= i < slots r -> 0 <= i * rr_slot_len r /\ i * rr_slot_len r + rr_slot_len r <= zlen (rr_bodies r).
Proof. intros H Hi. rewrite (wf_bodies r H). pose proof (wf_slot r H). nia. Qed.

Lemma slot_body_cell r s : WF r -> slot_body r s = cell r (index r s).
Proof.
  intros H. pose proof (index_range r s H) as Hi. pose proof (slot_end r _ H Hi) as He.
  pose proof (wf_bodies r H). pose proof (wf_max r H). unfold slot_body, cell. cbv zeta.
  destruct (get (rr_meta r) (index r s)) as [m|] eqn:Hm; [|done]. cbn [mbind option_bind].
  destruct (sm_ready m) eqn:Hr; [|done]. cbn [negb].
  pose proof (wf_len r H _ _ Hm Hr).
  rewrite checked_mul64_some by lia. cbn [mbind option_bind]. rewrite checked_add64_some by lia. done.
Qed.

(** In a well-formed ring a slot is ready exactly when it has a body. *)
Lemma cell_ready r i : WF r -> is_ready r i = true <-> is_Some (cell r i).
Proof.
  intros H. unfold is_ready, cell.
  destruct (get (rr_meta r) i) as [m|] eqn:Hm; cbn [mbind option_bind]; [|split; [done|by intros [? [=]]]].
  destruct (sm_ready m) eqn:Hr; cbn [negb]; [|split; [done|by intros [? [=]]]].
  pose proof (wf_len r H _ _ Hm Hr). apply get_inv in Hm as [Hi _].
  pose proof (slot_end r i H Hi). rewrite slice_some by lia. split; [eauto|done].
Qed.

Lemma cell_len r i b : cell r i = Some b -> 0 <= i < slots r.
Proof.
  unfold cell. destruct (get (rr_meta r) i) eqn:Hm; [|done]. intros _. by apply get_inv in Hm as [? _].
Qed.

(** Two rings with the same storage have the same cells: cursors do not matter. *)
Lemma WF_cursors r d c h :
  WF r -> WF (mkRecvRing (rr_bodies r) (rr_meta r) (rr_slot_len r) d c h).
Proof. intros []. constructor; done. Qed.

Lemma cell_clear r i j :
  0 <= i < slots r ->
  cell (r <| rr_meta := set_at (rr_meta r) i SlotMeta_default |>) j =
    if decide (i = j) then None else cell r j.
Proof. intros Hi. unfold cell. cbn. rewrite get_set_at by done. by case_decide. Qed.

Lemma WF_clear r i : 0 <= i < slots r -> WF r -> WF (r <| rr_meta := set_at (rr_meta r) i SlotMeta_default |>).
Proof.
  intros Hi []. unfold slots in *. constructor; unfold slots; cbn; rewrite ?zlen_set_at; try done.
  intros j m. rewrite get_set_at by done. case_decide; [by intros [= <-]|]. apply wf_len0.
Qed.

Lemma WF_fill r i body bodies :
  WF r -> 0 <= i < slots r -> zlen body <= rr_slot_len r -> write (rr_bodies r) (i * rr_slot_len r) body = Some bodies ->
  WF (r <| rr_bodies := bodies |> <| rr_meta := set_at (rr_meta r) i (mkSlotMeta (zlen body) true) |>).
Proof.
  intros [] Hi Hb Hw. unfold slots in *. constructor; unfold slots; cbn; rewrite ?zlen_set_at; try done.
  - by rewrite (zlen_write _ _ _ _ Hw).
  - intros j m. rewrite get_set_at by done. case_decide; [|apply wf_len0].
    intros [= <-] _. cbn. zlia.
Qed.

Lemma cell_fill r i body bodies j :
  WF r -> 0 <= i < slots r -> zlen body <= rr_slot_len r -> write (rr_bodies r) (i * rr_slot_len r) body = Some bodies ->
  cell (r <| rr_bodies := bodies |> <| rr_meta := set_at (rr_meta r) i (mkSlotMeta (zlen body) true) |>) j =
    if decide (i = j) then Some body else cell r j.
Proof.
  intros H Hi Hb Hw. unfold cell. cbn. rewrite get_set_at by done. case_decide as Hij.
  - subst j. cbn. apply (slice_write_same _ _ _ _ Hw).
  - destruct (get (rr_meta r) j) as [m|] eqn:Hm; [|done]. cbn [mbind option_bind].
    destruct (sm_ready m) eqn:Hr; [|done]. cbn [negb].
    pose proof (wf_len r H _ _ Hm Hr). pose proof (wf_slot r H).
    apply (slice_write_disjoint _ _ _ _ _ _ Hw). assert (j < i \/ i < j) as [] by lia; nia.
Qed.

Lemma advance_loop_storage n r :
  rr_bodies (advance_loop n r) = rr_bodies r /\ rr_meta (advance_loop n r) = rr_meta r /\
  rr_slot_len (advance_loop n r) = rr_slot_len r /\ rr_delivered (advance_loop n r) = rr_delivered r /\
  rr_highest (advance_loop n r) = rr_highest r.
Proof.
  revert r. induction n as [|n IH]; intros r; cbn [advance_loop]; [done|].
  case_match; [done|]. case_match; [|done]. case_match; [|done].
  destruct (IH (r <| rr_cumulative := wrapping_add32 (rr_cumulative r) 1 |>)) as (-> & -> & -> & -> & ->). done.
Qed.

(** [advance] is the source's loop: it satisfies the unfolding of
    [while cumulative != highest { if !ready(cumulative) break; cumulative += 1 }]. *)
Lemma advance_unfold r :
  is_u32 (rr_cumulative r) -> is_u32 (rr_highest r) ->
  advance r =
    if rr_cumulative r =? rr_highest r then r else
    if is_ready r (index r (rr_cumulative r))
    then advance (r <| rr_cumulative := wrapping_add32 (rr_cumulative r) 1 |>) else r.
Proof.
  intros Hc Hh. unfold advance at 1.
  destruct (Z.eqb_spec (rr_cumulative r) (rr_highest r)) as [He|Hne].
  { rewrite He. unfold distance, wrapping_sub32. by rewrite Z.sub_diag. }
  assert (Hpos : 0 < distance (rr_cumulative r) (rr_highest r)).
  { unfold distance, wrapping_sub32, wrap32, is_u32, M32 in *.
    pose proof (Z.mod_pos_bound (rr_highest r - rr_cumulative r) 4294967296 ltac:(lia)).
    assert ((rr_highest r - rr_cumulative r) mod 4294967296 <> 0); [|lia].
    intros Hz. apply Z.mod_divide in Hz as [k Hk]; lia. }
  assert (Hstep : distance (wrapping_add32 (rr_cumulative r) 1) (rr_highest r) = distance (rr_cumulative r) (rr_highest r) - 1).
  { unfold distance, wrapping_sub32, wrapping_add32 in *. rewrite wrap32_sub_r.
    replace (rr_highest r - (rr_cumulative r + 1)) with (rr_highest r - rr_cumulative r - 1) by lia.
    rewrite <- wrap32_sub_l. apply wrap32_small. pose proof (wrap32_range (rr_highest r - rr_cumulative r)). lia. }
  replace (Z.to_nat (distance (rr_cumulative r) (rr_highest r)))
    with (S (Z.to_nat (distance (rr_cumulative r) (rr_highest r) - 1))) by lia.
  cbn [advance_loop]. rewrite (proj2 (Z.eqb_neq _ _) Hne).
  unfold is_ready. destruct (get (rr_meta r) _) as [m|]; [|done]. destruct (sm_ready m); [|done].
  unfold advance. cbn. by rewrite Hstep.
Qed.

(** ** The window a ring denotes

    The abstract state of a channel: the position [w_base] the reader consumes
    next, and the fragments held at or after it, by unbounded stream position.
    Sequence numbers on the wire are positions modulo [2^32]. *)

Record Window := mkWindow { w_base : Z; w_held : gmap Z (list Z) }.

(** Two positions of one window never share a slot. With a slot count that does
    not divide [2^32] this fails for windows that straddle the wrap. *)
Definition regular (n base : Z) : Prop := M32 mod n = 0 \/ (0 <= base /\ base + n <= M32).

Lemma regular_index n base p :
  0 < n -> regular n base -> base <= p < base + n -> wrap32 p mod n = p mod n.
Proof.
  intros Hn [Hd|Hs] Hp.
  - unfold wrap32. apply Z.mod_divide in Hd as [k Hk]; [|lia].
    assert (M32 <> 0) by (unfold M32; lia).
    rewrite (Z.mod_eq p M32) by done. rewrite Hk at 1.
    replace (p - k * n * (p / M32)) with (p + (- (k * (p / M32))) * n) by ring. apply Z.mod_add. lia.
  - rewrite wrap32_small by lia. done.
Qed.

(** Within a span of [n], residues modulo [n] identify positions. *)
Lemma mod_window_inj n base p q :
  0 < n -> base <= p < base + n -> base <= q < base + n -> p mod n = q mod n -> p = q.
Proof.
  intros Hn Hp Hq He.
  pose proof (Z.div_mod p n ltac:(lia)). pose proof (Z.div_mod q n ltac:(lia)).
  assert (p / n = q / n \/ p / n < q / n \/ q / n < p / n) as [|[|]] by lia; nia.
Qed.

(** The cursors: [c] is the contiguous frontier candidate, [h] one past the
    furthest held position. *)
Record Cursors (w : Window) (c h : Z) : Prop := {
  cu_order : w_base w <= c <= h;
  cu_front : forall p, w_base w <= p < c -> is_Some (w_held w !! p);
  cu_held : forall p, is_Some (w_held w !! p) -> w_base w <= p < h;
  cu_top : h = w_base w \/ is_Some (w_held w !! (h - 1));
}.

(** The storage of [r] holds [w] with cursors [c] and [h]. *)
Record Repc (r : RecvRing) (w : Window) (c h : Z) : Prop := {
  re_wf : WF r;
  re_reg : regular (slots r) (w_base w);
  re_cur : Cursors w c h;
  re_span : h <= w_base w + slots r;
  re_delivered : rr_delivered r = wrap32 (w_base w);
  re_cumulative : rr_cumulative r = wrap32 c;
  re_highest : rr_highest r = wrap32 h;
  re_cells : forall p, w_base w <= p < w_base w + slots r -> cell r (p mod slots r) = w_held w !! p;
}.

(** [r] represents [w]: moreover [c] is the first missing position. *)
Definition Rep (r : RecvRing) (w : Window) (c h : Z) : Prop := Repc r w c h /\ w_held w !! c = None.

Lemma Repc_slot_body r w c h p :
  Repc r w c h -> w_base w <= p < w_base w + slots r -> slot_body r (wrap32 p) = w_held w !! p.
Proof.
  intros [] Hp. rewrite slot_body_cell by done. unfold index. fold (slots r).
  rewrite (regular_index _ (w_base w)) by (done || apply re_wf0). by apply re_cells0.
Qed.

Lemma Repc_ready r w c h p :
  Repc r w c h -> w_base w <= p < w_base w + slots r ->
  is_ready r (index r (wrap32 p)) = true <-> is_Some (w_held w !! p).
Proof.
  intros H Hp. rewrite <- (Repc_slot_body r w c h p H Hp).
  rewrite slot_body_cell by apply H. apply cell_ready, H.
Qed.

(** Moving a cursor leaves the rest of the representation alone. *)
Lemma Repc_cursor r w c h c' h' :
  Repc r w c h -> Cursors w c' h' -> h' <= w_base w + slots r ->
  Repc (mkRecvRing (rr_bodies r) (rr_meta r) (rr_slot_len r) (rr_delivered r) (wrap32 c') (wrap32 h')) w c' h'.
Proof. intros [] Hc Hh. constructor; try done. by apply WF_cursors. Qed.

Lemma advance_Repc r w c h :
  Repc r w c h -> exists c', c <= c' /\ Rep (advance r) w c' h.
Proof.
  intros H. remember (Z.to_nat (h - c)) as n eqn:Hn. revert r c H Hn.
  induction n as [|n IH]; intros r c H Hn;
    pose proof (re_cur _ _ _ _ H) as Hcur; pose proof (cu_order _ _ _ Hcur) as Ho;
    pose proof (re_span _ _ _ _ H) as Hsp; pose proof (wf_slots _ (re_wf _ _ _ _ H)) as Hsl.
  - assert (c = h) as -> by lia. exists h. split; [lia|].
    rewrite advance_unfold by (rewrite ?(re_cumulative _ _ _ _ H), ?(re_highest _ _ _ _ H); apply wrap32_range).
    rewrite (re_cumulative _ _ _ _ H), (re_highest _ _ _ _ H), Z.eqb_refl. split; [done|].
    destruct (w_held w !! h) eqn:E; [|done]. assert (is_Some (w_held w !! h)) as X by eauto.
    apply (cu_held _ _ _ Hcur) in X. lia.
  - rewrite advance_unfold by (rewrite ?(re_cumulative _ _ _ _ H), ?(re_highest _ _ _ _ H); apply wrap32_range).
    rewrite (re_cumulative _ _ _ _ H), (re_highest _ _ _ _ H).
    assert (Hd : distance (wrap32 c) (wrap32 h) = h - c) by (apply distance_wrap; unfold M32; lia).
    rewrite (proj2 (Z.eqb_neq _ _)).
    2: { intros E. rewrite E in Hd. unfold distance, wrapping_sub32 in Hd. rewrite Z.sub_diag in Hd. change (wrap32 0) with 0 in Hd. lia. }
    destruct (is_ready r (index r (wrap32 c))) eqn:Er.
    + apply (Repc_ready r w c h c H) in Er; [|lia].
      edestruct (IH (r <| rr_cumulative := wrap32 (c + 1) |>) (c + 1)) as (c' & ? & ?); [|lia|].
      { cbn. rewrite (re_highest _ _ _ _ H). apply (Repc_cursor r w c h); [done| |done].
        destruct Hcur. constructor; try done; [lia|]. intros p Hp.
        destruct (Z.eq_dec p c) as [->|]; [done|]. apply cu_front0. lia. }
      exists c'. split; [lia|]. unfold wrapping_add32. by autorewrite with wrap.
    + exists c. split; [lia|]. split; [done|].
      destruct (w_held w !! c) eqn:E; [|done].
      assert (is_ready r (index r (wrap32 c)) = true); [|congruence]. apply (Repc_ready r w c h c H); [lia|eauto].
Qed.

(** ** Storing a fragment *)

(** What offering a fragment at position [p] promises, for a ring of [n] slots
    of [slot_len] bytes. *)
Definition spec_store (n slot_len : Z) (w : Window) (p : Z) (body : list Z) : Window * Stored :=
  if p <? w_base w then (w, Duplicate) else
  if w_base w + n <=? p then (w, OutOfWindow) else
  if (slot_len <? zlen body) || (U16_MAX <? zlen body) then (w, TooLarge) else
  match w_held w !! p with
  | Some _ => (w, Duplicate)
  | None => (mkWindow (w_base w) (<[p := body]> (w_held w)), Accepted)
  end.

Definition same_geometry (r r' : RecvRing) : Prop :=
  slots r' = slots r /\ rr_slot_len r' = rr_slot_len r.

Lemma same_geometry_trans r1 r2 r3 : same_geometry r1 r2 -> same_geometry r2 r3 -> same_geometry r1 r3.
Proof. intros [] []. split; congruence. Qed.

Lemma advance_geometry r : same_geometry r (advance r).
Proof. unfold advance, same_geometry, slots. destruct (advance_loop_storage (Z.to_nat (distance (rr_cumulative r) (rr_highest r))) r) as (_ & -> & -> & _). done. Qed.

(** Filling the slot of a missing position of the window. *)
Lemma Repc_fill r w c h p body bodies :
  Rep r w c h -> w_base w <= p < w_base w + slots r -> w_held w !! p = None ->
  zlen body <= rr_slot_len r ->
  write (rr_bodies r) (p mod slots r * rr_slot_len r) body = Some bodies ->
  Repc (mkRecvRing bodies (set_at (rr_meta r) (p mod slots r) (mkSlotMeta (zlen body) true)) (rr_slot_len r)
          (rr_delivered r) (rr_cumulative r) (wrap32 (Z.max h (p + 1))))
       (mkWindow (w_base w) (<[p := body]> (w_held w))) c (Z.max h (p + 1)).
Proof.
  intros [H Hc] Hp Hnone Hlen Hw. pose proof (wf_slots _ (re_wf _ _ _ _ H)) as Hs.
  assert (Hi : 0 <= p mod slots r < slots r) by (apply Z.mod_pos_bound; lia).
  pose proof (WF_fill r _ _ _ (re_wf _ _ _ _ H) Hi Hlen Hw) as HWF.
  pose proof (fun j => cell_fill r _ _ _ j (re_wf _ _ _ _ H) Hi Hlen Hw) as Hcell.
  destruct H as [? ? [] ? ? ? ? ?]. constructor; cbn [w_base w_held rr_delivered rr_cumulative rr_highest];
    unfold slots in *; cbn [rr_meta]; rewrite ?zlen_set_at; try done.
  - by apply (WF_cursors _ (rr_delivered r) (rr_cumulative r) (wrap32 (Z.max h (p + 1)))) in HWF.
  - constructor; cbn [w_base w_held].
    + lia.
    + intros q Hq. rewrite lookup_insert_is_Some. destruct (Z.eq_dec p q); [by left|right]. auto.
    + intros q [->|[_ Hq]]%lookup_insert_is_Some; [lia|]. apply cu_held0 in Hq. lia.
    + right. destruct (Z.max_spec h (p + 1)) as [[Hm ->]|[Hm ->]].
      * rewrite Z.add_simpl_r, lookup_insert_eq. eauto.
      * rewrite lookup_insert_is_Some. destruct (Z.eq_dec p (h - 1)); [by left|right]. split; [done|].
        destruct cu_top0; [lia|done].
  - lia.
  - intros q Hq. etransitivity; [exact (Hcell (q mod zlen (rr_meta r)))|].
    case_decide as He.
    + apply (mod_window_inj _ (w_base w)) in He; [|lia..]. subst q. by rewrite lookup_insert_eq.
    + rewrite lookup_insert_ne by congruence. apply re_cells0. lia.
Qed.

Lemma store_refines_spec r w c h p body :
  Rep r w c h -> - 2147483648 < p - w_base w <= 2147483648 ->
  let '(r', st) := store r (wrap32 p) body in
  let '(w', st') := spec_store (slots r) (rr_slot_len r) w p body in
  st = st' /\ same_geometry r r' /\
  exists c' h', c <= c' /\ h' = (if decide (st = Accepted) then Z.max h (p + 1) else h) /\ Rep r' w' c' h'.
Proof.
  intros HR Hp. pose proof HR as [H Hc]. unfold store, spec_store.
  pose proof (wf_slots _ (re_wf _ _ _ _ H)) as Hs.
  rewrite (re_delivered _ _ _ _ H), Seq.lt_wrap by lia.
  assert (Hdone : forall st, st <> Accepted -> st = st /\ same_geometry r r /\
     exists c' h', c <= c' /\ h' = (if decide (st = Accepted) then Z.max h (p + 1) else h) /\ Rep r w c' h').
  { intros st Hst. split; [done|]. split; [done|]. exists c, h. rewrite decide_False by done. split; [lia|done]. }
  destruct (Z.ltb_spec p (w_base w)); [by apply Hdone|].
  rewrite Seq.distance_wrap by (unfold M32; lia). fold (slots r).
  destruct (Z.leb_spec (slots r) (p - w_base w)), (Z.leb_spec (w_base w + slots r) p); try lia; [by apply Hdone|].
  destruct (Z.ltb_spec (rr_slot_len r) (zlen body)); cbn [orb]; [by apply Hdone|].
  unfold try_from. rewrite (proj2 (Z.leb_le 0 _)) by apply zlen_nonneg. cbn [andb].
  destruct (Z.leb_spec (zlen body) U16_MAX), (Z.ltb_spec U16_MAX (zlen body)); try lia; [|by apply Hdone].
  assert (Hidx : index r (wrap32 p) = p mod slots r).
  { unfold index. fold (slots r). apply (regular_index _ (w_base w)); [lia|apply H|lia]. }
  rewrite Hidx. assert (Hi : 0 <= p mod slots r < slots r) by (apply Z.mod_pos_bound; lia).
  destruct (get_some (rr_meta r) _ Hi) as [m Hm]. rewrite Hm. cbv zeta.
  pose proof (Repc_ready r w c h p H ltac:(lia)) as Hr. unfold is_ready in Hr. rewrite Hidx, Hm in Hr.
  destruct (w_held w !! p) as [b|] eqn:Hp0.
  { rewrite (proj2 Hr) by eauto. by apply Hdone. }
  destruct (sm_ready m); [by destruct (proj1 Hr eq_refl)|].
  pose proof (slot_end r _ (re_wf _ _ _ _ H) Hi) as Hse. pose proof (wf_bodies _ (re_wf _ _ _ _ H)) as Hb.
  pose proof (wf_max _ (re_wf _ _ _ _ H)).
  pose proof (wf_slot _ (re_wf _ _ _ _ H)). rewrite checked_mul64_some by lia.
  destruct (write (rr_bodies r) (p mod slots r * rr_slot_len r) body) as [bodies|] eqn:Hw.
  2: { rewrite write_some in Hw by lia. done. }
  pose proof (Repc_fill r w c h p body bodies HR ltac:(lia) Hp0 ltac:(lia) Hw) as HF.
  apply advance_Repc in HF as (c' & Hcc & HF).
  match goal with |- advance ?x = _ \/ _ => idtac | |- context [advance ?x] => set (r1 := x) end.
  assert (Hr1 : r1 = mkRecvRing bodies (set_at (rr_meta r) (p mod slots r) (mkSlotMeta (zlen body) true)) (rr_slot_len r)
          (rr_delivered r) (rr_cumulative r) (wrap32 (Z.max h (p + 1)))).
  { subst r1. cbn. unfold wrapping_add32. rewrite wrap32_add_l, (re_highest _ _ _ _ H).
    pose proof (re_cur _ _ _ _ H) as Hcur. pose proof (cu_order _ _ _ Hcur). pose proof (re_span _ _ _ _ H).
    rewrite Seq.gt_wrap by lia. destruct (Z.ltb_spec h (p + 1)).
    - rewrite Z.max_r by lia. done.
    - rewrite Z.max_l by lia. done. }
  rewrite Hr1. split; [done|]. split.
  - eapply same_geometry_trans; [|apply advance_geometry].
    unfold same_geometry, slots. cbn. by rewrite zlen_set_at.
  - exists c', (Z.max h (p + 1)). rewrite decide_True by done. done.
Qed.

(** ** Moving the reader forward *)

(** The window from position [t] on. *)
Definition w_drop (t : Z) (w : Window) : Window :=
  mkWindow t (filter (fun kv : Z * list Z => t <= kv.1) (w_held w)).

Lemma lookup_w_drop t w p : w_held (w_drop t w) !! p = if decide (t <= p) then w_held w !! p else None.
Proof.
  cbn. case_decide.
  - destruct (w_held w !! p) eqn:E.
    + by apply map_lookup_filter_Some_2.
    + apply map_lookup_filter_None_2. by left.
  - apply map_lookup_filter_None_2. right. cbn. auto.
Qed.

Lemma release_cursors n r s :
  rr_bodies (release n r s) = rr_bodies r /\ rr_slot_len (release n r s) = rr_slot_len r /\
  rr_delivered (release n r s) = rr_delivered r /\ rr_cumulative (release n r s) = rr_cumulative r /\
  rr_highest (release n r s) = rr_highest r /\ slots (release n r s) = slots r.
Proof.
  revert r s. induction n as [|n IH]; intros r s; cbn [release]; [done|].
  destruct (IH (r <| rr_meta := set_at (rr_meta r) (index r s) SlotMeta_default |>) (wrapping_add32 s 1))
    as (-> & -> & -> & -> & -> & ->). unfold slots. cbn. by rewrite zlen_set_at.
Qed.

(** Releasing [n] slots from [k] empties exactly the cells of [k .. k+n). *)
Lemma release_cells n r b k :
  WF r -> regular (slots r) b -> b <= k -> k + Z.of_nat n <= b + slots r ->
  WF (release n r (wrap32 k)) /\
  forall p, b <= p < b + slots r ->
    cell (release n r (wrap32 k)) (p mod slots r) =
      if decide (k <= p < k + Z.of_nat n) then None else cell r (p mod slots r).
Proof.
  revert r k. induction n as [|n IH]; intros r k HWF Hreg Hk Hn; cbn [release].
  - split; [done|]. intros p Hp. by rewrite decide_False by lia.
  - pose proof (wf_slots _ HWF). unfold wrapping_add32. rewrite wrap32_add_l.
    assert (Hidx : index r (wrap32 k) = k mod slots r).
    { unfold index. fold (slots r). apply (regular_index _ b); [lia|done|lia]. }
    rewrite Hidx. assert (Hi : 0 <= k mod slots r < slots r) by (apply Z.mod_pos_bound; lia).
    pose proof (WF_clear r _ Hi HWF) as HWF'.
    assert (Hsl : slots (r <| rr_meta := set_at (rr_meta r) (k mod slots r) SlotMeta_default |>) = slots r)
      by (unfold slots; cbn; apply zlen_set_at).
    destruct (IH _ (k + 1) HWF' ltac:(by rewrite Hsl) ltac:(lia) ltac:(rewrite Hsl; lia)) as [HW Hcell].
    rewrite Hsl in Hcell. split; [done|]. intros p Hp. rewrite Hcell by done.
    rewrite cell_clear by done. destruct (Z.eq_dec p k) as [->|Hne].
    + rewrite (decide_True (P := k mod slots r = k mod slots r)) by done.
      rewrite (decide_True (P := k <= k < k + Z.of_nat (S n))) by lia. by case_decide.
    + rewrite (decide_False (P := k mod slots r = p mod slots r)).
      2: { intros He. apply (mod_window_inj _ b) in He; lia. }
      destruct (decide (k + 1 <= p < k + 1 + Z.of_nat n)), (decide (k <= p < k + Z.of_nat (S n))); done || lia.
Qed.

(** Releasing everything before [t] and moving [delivered] there. *)
Lemma Repc_drop r w c h t c' :
  Repc r w c h -> w_base w <= t <= h -> regular (slots r) t -> c' = Z.max c t ->
  let r1 := release (Z.to_nat (t - w_base w)) r (wrap32 (w_base w)) in
  Repc (mkRecvRing (rr_bodies r1) (rr_meta r1) (rr_slot_len r1) (wrap32 t) (wrap32 c') (rr_highest r1))
       (w_drop t w) c' h.
Proof.
  intros H Ht Hreg -> r1. pose proof (wf_slots _ (re_wf _ _ _ _ H)). pose proof (re_span _ _ _ _ H).
  destruct (release_cells (Z.to_nat (t - w_base w)) r (w_base w) (w_base w) (re_wf _ _ _ _ H) (re_reg _ _ _ _ H)
    ltac:(lia) ltac:(lia)) as [HWF Hcell].
  destruct (release_cursors (Z.to_nat (t - w_base w)) r (wrap32 (w_base w))) as (Eb & El & _ & _ & Eh & Es).
  fold r1 in HWF, Hcell, Eb, El, Eh, Es. destruct H as [? ? [] ? ? ? ? ?].
  constructor; cbn [rr_delivered rr_cumulative rr_highest w_drop w_base].
  - by apply WF_cursors.
  - by unfold slots in *; cbn [rr_meta]; rewrite Es.
  - constructor; cbn [w_drop w_base].
    + lia.
    + intros p Hp. rewrite (lookup_w_drop t w p), decide_True by lia. apply cu_front0. lia.
    + intros p. rewrite (lookup_w_drop t w p). case_decide; [|by intros []]. intros Hp%cu_held0. lia.
    + destruct (Z.eq_dec h t); [by left|right]. rewrite (lookup_w_drop t w (h - 1)), decide_True by lia.
      destruct cu_top0; [lia|done].
  - unfold slots in *. cbn [rr_meta]. lia.
  - done.
  - done.
  - by rewrite Eh.
  - unfold slots in *. cbn [rr_meta]. rewrite Es. intros p Hp.
    rewrite (lookup_w_drop t w p), decide_True by lia.
    change (cell (mkRecvRing (rr_bodies r1) (rr_meta r1) (rr_slot_len r1) (wrap32 t) (wrap32 (Z.max c t)) (rr_highest r1)) ?i) with (cell r1 i).
    destruct (Z.lt_ge_cases p (w_base w + zlen (rr_meta r))).
    + etransitivity; [apply Hcell; lia|]. rewrite decide_False by lia. apply re_cells0. lia.
    + destruct (w_held w !! p) eqn:E.
      { assert (is_Some (w_held w !! p)) as X by eauto. apply cu_held0 in X. lia. }
      replace (p mod zlen (rr_meta r)) with ((p - zlen (rr_meta r)) mod zlen (rr_meta r)).
      2: { rewrite <- (Z.mod_add p (-1)) by lia. f_equal. }
      etransitivity; [apply Hcell; lia|]. by rewrite decide_True by lia.
Qed.

(** ** Escaping a stall *)

(** The last position of [k .. k+n) that satisfies [P], or [acc]. *)
Fixpoint scan_last (P : Z -> bool) (n : nat) (k : Z) (acc : option Z) : option Z :=
  match n with
  | O => acc
  | S n => scan_last P n (k + 1) (if P k then Some k else acc)
  end.

Lemma scan_last_spec P n k acc :
  (exists t, scan_last P n k acc = Some t /\ k <= t < k + Z.of_nat n /\ P t = true /\
     forall q, t < q < k + Z.of_nat n -> P q = false) \/
  (scan_last P n k acc = acc /\ forall q, k <= q < k + Z.of_nat n -> P q = false).
Proof.
  revert k acc. induction n as [|n IH]; intros k acc; cbn [scan_last].
  - right. split; [done|]. lia.
  - destruct (IH (k + 1) (if P k then Some k else acc)) as [(t & -> & ? & ? & Hq)|[-> Hq]].
    + left. exists t. split; [done|]. split; [lia|]. split; [done|]. intros q ?. apply Hq. lia.
    + destruct (P k) eqn:E.
      * left. exists k. split; [done|]. split; [lia|]. split; [done|]. intros q ?. apply Hq. lia.
      * right. split; [done|]. intros q ?. destruct (Z.eq_dec q k) as [->|]; [done|]. apply Hq. lia.
Qed.

Definition heldb (w : Window) (p : Z) : bool := bool_decide (is_Some (w_held w !! p)).
Definition resumableb (resumable : list Z -> bool) (w : Window) (p : Z) : bool :=
  match w_held w !! p with Some body => resumable body | None => false end.

Lemma heldb_true w p : heldb w p = true <-> is_Some (w_held w !! p).
Proof. apply bool_decide_eq_true. Qed.

Lemma scan_stall_eq r w c h resumable n k f fr :
  Repc r w c h -> w_base w <= k -> k + Z.of_nat n <= w_base w + slots r ->
  scan_stall n r resumable (wrap32 k) (wrap32 <$> f) (wrap32 <$> fr) =
    (wrap32 <$> scan_last (heldb w) n k f, wrap32 <$> scan_last (resumableb resumable w) n k fr).
Proof.
  intros H. revert k f fr. induction n as [|n IH]; intros k f fr Hk Hn; cbn [scan_stall scan_last]; [done|].
  rewrite (Repc_slot_body r w c h) by (done || lia).
  unfold wrapping_add32. rewrite wrap32_add_l. unfold heldb at 2, resumableb at 2.
  destruct (w_held w !! k) as [body|].
  - rewrite <- IH by lia. rewrite bool_decide_true by eauto. by destruct (resumable body).
  - rewrite <- IH by lia. rewrite bool_decide_false by (by intros []). done.
Qed.

(** The position a stalled reader resumes at: the furthest held fragment the
    consumer can resume from, and failing any, the furthest held. *)
Definition resume_point (resumable : list Z -> bool) (w : Window) (h t : Z) : Prop :=
  is_Some (w_held w !! t) /\
  ((resumableb resumable w t = true /\ forall q, t < q -> resumableb resumable w q = false) \/
   ((forall q, resumableb resumable w q = false) /\ t = h - 1)).

Lemma resumableb_held resumable w p : resumableb resumable w p = true -> is_Some (w_held w !! p).
Proof. unfold resumableb. destruct (w_held w !! p); [eauto|done]. Qed.

Lemma resumableb_out resumable w c h q : Cursors w c h -> ~ (w_base w <= q < h) -> resumableb resumable w q = false.
Proof.
  intros Hc Hq. destruct (resumableb resumable w q) eqn:E; [|done].
  apply resumableb_held, (cu_held _ _ _ Hc) in E. lia.
Qed.

(** The scan finds the resume point. *)
Lemma scan_stall_resume r w c h resumable :
  Rep r w c h -> c < h ->
  exists t, resume_point resumable w h t /\
    let '(f, fr) := scan_stall (Z.to_nat (distance (rr_delivered r) (rr_highest r))) r resumable (rr_delivered r) None None in
    match fr with Some t => Some t | None => f end = Some (wrap32 t).
Proof.
  intros [H Hc] Hlt. pose proof (re_cur _ _ _ _ H) as Hcur. pose proof (cu_order _ _ _ Hcur) as Ho.
  pose proof (re_span _ _ _ _ H) as Hsp. pose proof (wf_slots _ (re_wf _ _ _ _ H)) as Hsl.
  rewrite (re_delivered _ _ _ _ H), (re_highest _ _ _ _ H), distance_wrap by (unfold M32; lia).
  pose proof (scan_stall_eq r w c h resumable (Z.to_nat (h - w_base w)) (w_base w) None None H ltac:(lia) ltac:(lia)) as E.
  cbn [fmap option_fmap option_map] in E. rewrite E. clear E.
  assert (Htop : is_Some (w_held w !! (h - 1))) by (destruct (cu_top _ _ _ Hcur); [lia|done]).
  destruct (scan_last_spec (resumableb resumable w) (Z.to_nat (h - w_base w)) (w_base w) None)
    as [(t & -> & Ht & HP & Hq)|[-> Hq]]; cbn [fmap option_fmap option_map].
  - exists t. split; [|done]. split; [by apply resumableb_held in HP|]. left. split; [done|].
    intros q Hlq. destruct (Z.lt_ge_cases q h); [apply Hq; lia|]. apply (resumableb_out _ _ _ _ _ Hcur). lia.
  - exists (h - 1). split.
    + split; [done|]. right. split; [|done]. intros q.
      destruct (decide (w_base w <= q < h)); [apply Hq; lia|]. by apply (resumableb_out _ _ _ _ _ Hcur).
    + destruct (scan_last_spec (heldb w) (Z.to_nat (h - w_base w)) (w_base w) None) as [(t & -> & Ht & HP & Hq')|[-> Hq']].
      * cbn. do 2 f_equal. destruct (Z.eq_dec t (h - 1)); [done|].
        assert (X : heldb w (h - 1) = true) by (by apply heldb_true). rewrite Hq' in X by lia. done.
      * assert (X : heldb w (h - 1) = true) by (by apply heldb_true). rewrite Hq' in X by lia. done.
Qed.

Lemma escape_stall_resume r w c h resumable :
  Rep r w c h -> c < h ->
  exists t, resume_point resumable w h t /\
    (t = w_base w -> escape_stall r resumable = (r, None)) /\
    (w_base w < t ->
     exists r', escape_stall r resumable = (r', Some (wrap32 t)) /\ same_geometry r r' /\ rr_delivered r' = wrap32 t /\
       (regular (slots r) t -> exists c', c <= c' /\ t < c' /\ Rep r' (w_drop t w) c' h)).
Proof.
  intros HR Hlt. pose proof HR as [H Hc]. pose proof (re_cur _ _ _ _ H) as Hcur. pose proof (cu_order _ _ _ Hcur) as Ho.
  pose proof (re_span _ _ _ _ H) as Hsp. pose proof (wf_slots _ (re_wf _ _ _ _ H)) as Hsl.
  destruct (scan_stall_resume r w c h resumable HR Hlt) as (t & Hres & Hscan).
  exists t. split; [done|]. destruct Hres as [Hheld _]. pose proof (cu_held _ _ _ Hcur t Hheld) as Hth.
  assert (Hgap : has_gap r = true).
  { unfold has_gap. rewrite (re_cumulative _ _ _ _ H), (re_highest _ _ _ _ H). apply negb_true_iff, Z.eqb_neq. intros E.
    assert (X : distance (wrap32 c) (wrap32 h) = h - c) by (apply distance_wrap; unfold M32; lia).
    rewrite E in X. unfold distance, wrapping_sub32 in X. rewrite Z.sub_diag in X. change (wrap32 0) with 0 in X. lia. }
  unfold escape_stall. rewrite Hgap. cbn [negb]. destruct (scan_stall _ _ _ _ _ _) as [f fr]. rewrite Hscan.
  rewrite (re_delivered _ _ _ _ H), le_wrap by lia. split.
  - intros ->. by rewrite Z.leb_refl.
  - intros Hbt. rewrite (proj2 (Z.leb_gt _ _)) by lia. rewrite distance_wrap by (unfold M32; lia).
    pose proof (fun Hreg => Repc_drop r w c h t _ H ltac:(lia) Hreg eq_refl) as HD. cbv zeta in HD.
    destruct (release_cursors (Z.to_nat (t - w_base w)) r (wrap32 (w_base w))) as (_ & El & _ & Ec & _ & Es).
    cbn. rewrite Ec, (re_cumulative _ _ _ _ H), lt_wrap by lia.
    match goal with |- context [advance ?x] => assert (Hx : x = mkRecvRing
      (rr_bodies (release (Z.to_nat (t - w_base w)) r (wrap32 (w_base w))))
      (rr_meta (release (Z.to_nat (t - w_base w)) r (wrap32 (w_base w))))
      (rr_slot_len (release (Z.to_nat (t - w_base w)) r (wrap32 (w_base w)))) (wrap32 t) (wrap32 (Z.max c t))
      (rr_highest (release (Z.to_nat (t - w_base w)) r (wrap32 (w_base w))))) end.
    { destruct (Z.ltb_spec c t); [rewrite Z.max_r by lia|rewrite Z.max_l by lia; rewrite <- (re_cumulative _ _ _ _ H), <- Ec]; done. }
    rewrite Hx. clear Hx. eexists. split; [done|]. split; [|split].
    + eapply same_geometry_trans; [|apply advance_geometry]. split; [exact Es|exact El].
    + apply advance_loop_storage.
    + intros Hreg. specialize (HD Hreg). apply advance_Repc in HD as (c' & Hcc & HD).
      exists c'. split; [lia|]. split; [|done]. destruct HD as [HD Hn]. pose proof (cu_order _ _ _ (re_cur _ _ _ _ HD)).
      destruct (Z.eq_dec c' t) as [->|]; [|cbn in *; lia].
      rewrite lookup_w_drop, decide_True in Hn by lia. rewrite Hn in Hheld. by destruct Hheld.
Qed.

(** ** Taking a message *)

(** The contiguous bodies of the window, from position [k], [n] of them. *)
Definition run (w : Window) (k : Z) (n : nat) : list (list Z) :=
  map (fun i => default [] (w_held w !! (k + Z.of_nat i))) (seq 0 n).

(** The fewest fragments that carry at least [s] bytes. *)
Fixpoint cover (bs : list (list Z)) (s : Z) : option nat :=
  if s <=? 0 then Some O else
  match bs with
  | [] => None
  | b :: bs => S <$> cover bs (s - zlen b)
  end.

(** What the reader is promised: from the contiguous bodies [bs] and the room
    in its buffer, nothing yet, an error, or the number of fragments consumed
    with the content they carry. *)
Definition spec_take (bs : list (list Z)) (room : Z) : option (result (nat * list Z)) :=
  first ← head bs;
  match parse_length_prefix first with
  | Err e => Some (Err e)
  | Ok total =>
      n ← cover bs (total + LENGTH_PREFIX_LEN);
      let bytes := mjoin (take n bs) in
      Some (if negb (zlen bytes =? total + LENGTH_PREFIX_LEN) then Err BadLength
            else if room <? total then Err BufferTooSmall
            else Ok (n, drop (Z.to_nat LENGTH_PREFIX_LEN) bytes))
  end.

Lemma run_S w k n : run w k (S n) = default [] (w_held w !! k) :: run w (k + 1) n.
Proof.
  unfold run. cbn [seq map]. f_equal; [by rewrite Z.add_0_r|].
  rewrite <- seq_shift, map_map. apply map_ext. intros i. do 2 f_equal. lia.
Qed.

Lemma length_run w k n : length (run w k n) = n.
Proof. unfold run. by rewrite length_map, length_seq. Qed.

Lemma cover_le bs s n : cover bs s = Some n -> (n <= length bs)%nat.
Proof.
  revert s n. induction bs as [|b bs IH]; intros s n; cbn [cover length]; case_match; try done.
  - intros [= <-]. lia.
  - intros [= <-]. lia.
  - intros (m & Hm & ->)%fmap_Some. apply IH in Hm. lia.
Qed.

Lemma mjoin_cons {A} (l : list A) (ls : list (list A)) : mjoin (l :: ls) = l ++ mjoin ls.
Proof. done. Qed.

Lemma Repc_body_len r w c h p b : Repc r w c h -> w_held w !! p = Some b -> 0 <= zlen b <= rr_slot_len r.
Proof.
  intros H Hb. assert (is_Some (w_held w !! p)) as Hp by eauto. apply (cu_held _ _ _ (re_cur _ _ _ _ H)) in Hp.
  pose proof (re_span _ _ _ _ H). rewrite <- (re_cells _ _ _ _ H p) in Hb by lia. unfold cell in Hb.
  destruct (get _ _) as [m|] eqn:Hm; [|done]. cbn [mbind option_bind] in Hb.
  destruct (sm_ready m) eqn:Hr; [|done]. cbn [negb] in Hb. apply zlen_slice in Hb.
  pose proof (wf_len _ (re_wf _ _ _ _ H) _ _ Hm Hr). lia.
Qed.

(** [gather] finds the cover of the bodies up to the frontier; no arithmetic
    on the way can overflow. *)
Lemma gather_eq r w c h stream n k collected fragments :
  Repc r w c h -> w_base w <= k -> k + Z.of_nat n = c -> fragments = k - w_base w ->
  0 <= collected <= fragments * rr_slot_len r ->
  gather n r stream collected fragments (wrap32 k) =
    (fun m => (collected + zlen (mjoin (take m (run w k n))), fragments + Z.of_nat m)) <$> cover (run w k n) (stream - collected).
Proof.
  intros H. revert k collected fragments. pose proof (wf_slots _ (re_wf _ _ _ _ H)) as Hsl.
  pose proof (re_cur _ _ _ _ H) as Hcur. pose proof (cu_order _ _ _ Hcur). pose proof (re_span _ _ _ _ H).
  pose proof (wf_max _ (re_wf _ _ _ _ H)). pose proof (wf_slot _ (re_wf _ _ _ _ H)).
  induction n as [|n IH]; intros k collected fragments Hk Hkn -> Hcol.
  - cbn. destruct (Z.leb_spec stream collected), (Z.leb_spec (stream - collected) 0); try lia; [|done].
    cbn. do 2 f_equal; rewrite ?zlen_nil; lia.
  - rewrite run_S. cbn [gather cover].
    destruct (Z.leb_spec stream collected), (Z.leb_spec (stream - collected) 0); try lia.
    { cbn. do 2 f_equal; rewrite ?zlen_nil; lia. }
    rewrite (Repc_slot_body r w c h) by (done || lia).
    destruct (cu_front _ _ _ Hcur k ltac:(lia)) as [b Hb]. rewrite Hb. cbn [mbind option_bind default].
    pose proof (Repc_body_len r w c h k b H Hb) as Hbl.
    assert (collected + zlen b <= (k - w_base w + 1) * rr_slot_len r) by nia.
    assert ((k - w_base w + 1) * rr_slot_len r <= slots r * rr_slot_len r) by (apply Z.mul_le_mono_nonneg_r; lia).
    rewrite checked_add64_some by lia. cbn [mbind option_bind].
    rewrite (proj2 (Z.leb_le _ _)) by (unfold U32_MAX; lia). cbn [mbind option_bind].
    unfold wrapping_add32. rewrite wrap32_add_l. rewrite IH by lia.
    change (id b) with b.
    replace (stream - collected - zlen b) with (stream - (collected + zlen b)) by lia.
    destruct (cover _ _) as [m|]; [|done]. cbn [fmap option_fmap option_map take firstn]. rewrite mjoin_cons, zlen_app. do 2 f_equal; lia.
Qed.

(** The copy loop never runs out of fragments and writes their bytes, less the
    first [skip], at [written]. *)
Lemma copy_out_ok r w c h total bs n k written skip out :
  Repc r w c h -> w_base w <= k -> k + Z.of_nat n <= c -> bs = run w k n ->
  0 <= written -> 0 <= skip ->
  zlen (mjoin bs) - skip = total - written -> total <= zlen out ->
  (forall b, head bs = Some b -> skip <= zlen b) ->
  skip <= zlen (mjoin bs) ->
  copy_out n r total written skip (wrap32 k) out =
    (take (Z.to_nat written) out ++ drop (Z.to_nat skip) (mjoin bs) ++ drop (Z.to_nat total) out, Ok tt).
Proof.
  intros H Hk Hn ->. revert k written skip out Hk Hn.
  pose proof (re_cur _ _ _ _ H) as Hcur. pose proof (cu_order _ _ _ Hcur). pose proof (re_span _ _ _ _ H).
  induction n as [|n IH]; intros k written skip out Hk Hn Hw Hs Hlen Hout Hhd Htl.
  - cbn in *. rewrite zlen_nil in *. rewrite (proj2 (Z.leb_le _ _)) by lia.
    replace skip with 0 by lia. replace total with written by lia. change (mjoin []) with (@nil Z). rewrite drop_nil. cbn [app]. by rewrite take_drop.
  - rewrite run_S in *. cbn [copy_out]. destruct (cu_front _ _ _ Hcur k ltac:(lia)) as [b Hb].
    rewrite (Repc_slot_body r w c h), Hb by (done || lia). rewrite Hb in *. cbn [default] in *. change (id b) with b in *.
    specialize (Hhd b eq_refl). rewrite mjoin_cons in *. rewrite zlen_app in *.
    destruct (Z.leb_spec total written).
    { zlen_pose. replace total with written by lia. f_equal.
      rewrite drop_ge by (rewrite length_app; unfold zlen in *; lia). cbn. by rewrite take_drop. }
    unfold slice_from. rewrite slice_some by lia. cbn [default]. rewrite (take_ge (drop (Z.to_nat skip) b)) by (rewrite length_drop; unfold zlen in *; lia).
    change (id ?x) with x. rewrite zlen_drop. zlen_pose. rewrite Z2Nat.id by lia. rewrite Z.min_l by lia.
    rewrite (take_ge (drop (Z.to_nat skip) b)) by (rewrite length_drop; unfold zlen in *; lia).
    destruct (write out written (drop (Z.to_nat skip) b)) as [out'|] eqn:Hwr.
    2: { rewrite write_some in Hwr by (rewrite ?zlen_drop; lia). done. }
    pose proof (zlen_write _ _ _ _ Hwr) as Hl'.
    unfold wrapping_add32. rewrite wrap32_add_l, IH by (done || lia || (intros; zlen_pose; lia)). f_equal.
    rewrite (take_write _ _ _ _ _ Hwr) by (rewrite zlen_drop; lia).
    rewrite (drop_write _ _ _ _ _ Hwr) by (rewrite zlen_drop; lia).
    rewrite drop_0, drop_app_le by (unfold zlen in *; lia). by rewrite <- !app_assoc.
Qed.

Definition bytes_held (w : Window) : Prop := map_Forall (fun _ b => bytes_ok b) (w_held w).

Lemma parse_length_prefix_range first total :
  bytes_ok first -> parse_length_prefix first = Ok total -> 0 <= total < M32 /\ LENGTH_PREFIX_LEN <= zlen first.
Proof.
  intros Hb H. unfold parse_length_prefix in H. apply ok_or_ok, fmap_Some in H as (s & Hs & ->).
  pose proof (zlen_slice _ _ _ _ Hs) as Hl. pose proof (be_val_range s (bytes_ok_slice _ _ _ _ Hb Hs)) as Hr.
  rewrite Hl in Hr. apply slice_inv in Hs. split; [exact Hr|lia].
Qed.

Lemma cover_length bs s n : cover bs s = Some n -> s <= zlen (mjoin (take n bs)).
Proof.
  revert s n. induction bs as [|b bs IH]; intros s n; cbn [cover]; case_match; try done; bool_prop.
  - intros [= <-]. zlen_pose. lia.
  - intros [= <-]. zlen_pose. lia.
  - intros (m & Hm & ->)%fmap_Some. apply IH in Hm. cbn [take firstn]. rewrite mjoin_cons, zlen_app. lia.
Qed.

Lemma take_run w k n m : (m <= n)%nat -> take m (run w k n) = run w k m.
Proof. intros H. unfold run. rewrite firstn_map, take_seq. do 2 f_equal. lia. Qed.

(** [take_message] computes [spec_take] on the contiguous bodies, and moves the
    reader past exactly the fragments consumed. *)
Lemma take_message_eq r w c h out :
  Rep r w c h -> bytes_held w ->
  match spec_take (run w (w_base w) (Z.to_nat (c - w_base w))) (zlen out) with
  | None => take_message r out = (r, out, None)
  | Some (Err e) => take_message r out = (r, out, Some (Err e))
  | Some (Ok (n, content)) =>
      exists r', take_message r out = (r', content ++ drop (length content) out, Some (Ok (zlen content))) /\
        same_geometry r r' /\ rr_delivered r' = wrap32 (w_base w + Z.of_nat n) /\ 0 < Z.of_nat n <= c - w_base w /\
        (regular (slots r) (w_base w + Z.of_nat n) -> Rep r' (w_drop (w_base w + Z.of_nat n) w) c h)
  end.
Proof.
  intros [H Hc] Hbytes. pose proof (re_cur _ _ _ _ H) as Hcur. pose proof (cu_order _ _ _ Hcur) as Ho.
  pose proof (re_span _ _ _ _ H) as Hsp. pose proof (wf_slots _ (re_wf _ _ _ _ H)) as Hsl.
  unfold take_message, spec_take. rewrite (re_delivered _ _ _ _ H), (re_cumulative _ _ _ _ H).
  assert (Hd : distance (wrap32 (w_base w)) (wrap32 c) = c - w_base w) by (apply distance_wrap; unfold M32; lia).
  rewrite Hd. destruct (Z.eq_dec c (w_base w)) as [->|Hne].
  { by rewrite Z.eqb_refl, Z.sub_diag. }
  rewrite (proj2 (Z.eqb_neq _ _)).
  2: { intros E. rewrite E in Hd. unfold distance, wrapping_sub32 in Hd. rewrite Z.sub_diag in Hd. change (wrap32 0) with 0 in Hd. lia. }
  rewrite (Repc_slot_body r w c h) by (done || lia).
  destruct (cu_front _ _ _ Hcur (w_base w) ltac:(lia)) as [first Hf]. rewrite Hf.
  destruct (Z.to_nat (c - w_base w)) as [|k] eqn:Hk; [lia|].
  assert (Hhd : head (run w (w_base w) (S k)) = Some first) by (rewrite run_S, Hf; done).
  rewrite Hhd. cbn [mbind option_bind].
  destruct (parse_length_prefix first) as [total|e] eqn:Hpre; [|done].
  destruct (parse_length_prefix_range first total) as [Htot Hfl]; [by apply (Hbytes (w_base w))|done|].
  rewrite checked_add64_some by (unfold LENGTH_PREFIX_LEN, U64_MAX, M32 in *; lia).
  rewrite (gather_eq r w c h _ (S k) (w_base w) 0 0) by (done || lia). rewrite Z.sub_0_r.
  destruct (cover _ _) as [n|] eqn:Hcov; [|done]. cbn [fmap option_fmap option_map mbind option_bind]. rewrite !Z.add_0_l.
  pose proof (cover_le _ _ _ Hcov) as Hnle. rewrite length_run in Hnle.
  pose proof (cover_length _ _ _ Hcov) as Hcl. rewrite take_run in * by done.
  destruct (Z.eqb_spec (zlen (mjoin (run w (w_base w) n))) (total + LENGTH_PREFIX_LEN)) as [Hcol|]; cbn [negb]; [|done].
  destruct (Z.ltb_spec (zlen out) total); [done|].
  assert (Hn0 : n <> O).
  { intros ->. change (mjoin (run w (w_base w) 0)) with (@nil Z) in Hcol. rewrite zlen_nil in Hcol. unfold LENGTH_PREFIX_LEN in *. lia. }
  rewrite Nat2Z.id. rewrite (copy_out_ok r w c h total _ n (w_base w) 0 LENGTH_PREFIX_LEN out H ltac:(lia) ltac:(lia) eq_refl);
    [|unfold LENGTH_PREFIX_LEN in *; try lia..].
  2: { intros b Hb. destruct n; [done|]. rewrite run_S, Hf in Hb. injection Hb as <-. done. }
  assert (Hdl : zlen (drop (Z.to_nat LENGTH_PREFIX_LEN) (mjoin (run w (w_base w) n))) = total).
  { rewrite zlen_drop. unfold LENGTH_PREFIX_LEN in *. lia. }
  eexists. split; [|split; [|split; [|split; [lia|]]]].
  - assert (Hto : Z.to_nat total = length (drop (Z.to_nat LENGTH_PREFIX_LEN) (mjoin (run w (w_base w) n)))) by (unfold zlen in Hdl; lia).
    by rewrite Hdl, Hto.
  - destruct (release_cursors n r (wrap32 (w_base w))) as (_ & El & _ & _ & _ & Es). split; [exact Es|exact El].
  - destruct (release_cursors n r (wrap32 (w_base w))) as (_ & _ & Ed & _). cbn.
    rewrite Ed, (re_delivered _ _ _ _ H). unfold wrapping_add32. apply wrap32_add_l.
  - intros Hreg. pose proof (Repc_drop r w c h (w_base w + Z.of_nat n) c H ltac:(lia) Hreg ltac:(lia)) as HD. cbv zeta in HD.
    replace (Z.to_nat (w_base w + Z.of_nat n - w_base w)) with n in HD by lia.
    destruct (release_cursors n r (wrap32 (w_base w))) as (_ & _ & Ed & Ec & _ & _).
    split; [|by rewrite lookup_w_drop, decide_True by lia].
    cbn. rewrite Ed, (re_delivered _ _ _ _ H), Ec, (re_cumulative _ _ _ _ H).
    unfold wrapping_add32. rewrite wrap32_add_l. exact HD.
Qed.

(** Taking never moves the cumulative cursor, and a reader that has caught up
    with it finds nothing. *)
Lemma take_message_cumulative r out : rr_cumulative (take_message r out).1.1 = rr_cumulative r.
Proof.
  unfold take_message. repeat (case_match; try done). cbn.
  match goal with |- rr_cumulative (release ?n ?r ?s) = _ => destruct (release_cursors n r s) as (_ & _ & _ & -> & _) end. done.
Qed.

Lemma take_message_caught_up r out : rr_delivered r = rr_cumulative r -> take_message r out = (r, out, None).
Proof. intros E. unfold take_message. by rewrite E, Z.eqb_refl. Qed.

(** A sequence number behind the reader is a duplicate, whatever it carries. *)
Lemma store_behind r p q body : rr_delivered r = wrap32 q -> 0 < q - p < 2147483648 -> store r (wrap32 p) body = (r, Duplicate).
Proof. intros E Hp. unfold store. rewrite E, Seq.lt_wrap by lia. by rewrite (proj2 (Z.ltb_lt _ _)) by lia. Qed.

(** ** Whole runs of a ring *)

Inductive ring_op :=
  | OStore (sequence : Z) (body : list Z)
  | OTake (out : list Z)
  | OEscape (resumable : list Z -> bool).

Definition ring_step (r : RecvRing) (op : ring_op) : RecvRing :=
  match op with
  | OStore sequence body => (store r sequence body).1
  | OTake out => (take_message r out).1.1
  | OEscape resumable => (escape_stall r resumable).1
  end.

(** What the wire can deliver: [u32] sequence numbers and byte bodies. *)
Definition op_ok (op : ring_op) : Prop :=
  match op with OStore sequence body => is_u32 sequence /\ bytes_ok body | _ => True end.

(** The step keeps the window inside one epoch of the sequence space, or the
    slot count divides [2^32] and epochs do not matter. *)
Definition epoch_ok (r r' : RecvRing) : Prop :=
  M32 mod slots r = 0 \/ (rr_delivered r <= rr_delivered r' /\ rr_delivered r' + slots r <= M32).

(** Rings reached from a freshly built one started at [start]. *)
Inductive reach : RecvRing -> Prop :=
  | reach_start bodies meta slot_len r start :
      recv_new bodies meta slot_len = Ok r -> slots r < 2147483648 ->
      is_u32 start -> regular (slots r) start -> reach (reset_to r start)
  | reach_step r op :
      reach r -> op_ok op -> epoch_ok r (ring_step r op) -> reach (ring_step r op).

Lemma reset_to_Rep r start :
  0 < rr_slot_len r -> 0 < slots r < 2147483648 -> zlen (rr_bodies r) = slots r * rr_slot_len r ->
  slots r * rr_slot_len r <= U64_MAX -> is_u32 start -> regular (slots r) start ->
  Rep (reset_to r start) (mkWindow start ∅) start start.
Proof.
  intros Hsl Hs Hb Hmax Hstart Hreg.
  assert (Hget : forall i m, get (rr_meta (reset_to r start)) i = Some m -> m = SlotMeta_default).
  { intros i m [_ Hm]%get_inv. cbn in Hm. rewrite list_lookup_fmap in Hm. apply fmap_Some in Hm as (? & _ & ->). done. }
  assert (Es : slots (reset_to r start) = slots r) by (unfold slots; cbn; apply zlen_map).
  split; [|apply lookup_empty]. constructor; rewrite ?Es; cbn [w_base w_held]; try done.
  - constructor; rewrite ?Es; try done. intros i m ->%Hget. done.
  - constructor; cbn [w_base w_held].
    + lia.
    + lia.
    + intros p. rewrite lookup_empty. by intros [].
    + by left.
  - lia.
  - cbn. by rewrite wrap32_small.
  - cbn. by rewrite wrap32_small.
  - cbn. by rewrite wrap32_small.
  - intros p Hp. rewrite lookup_empty. unfold cell.
    destruct (get _ _) as [m|] eqn:Hm; [|done]. apply Hget in Hm as ->. done.
Qed.

(** Every sequence number is the wire form of one position near the reader. *)
Lemma nearest_position base s :
  is_u32 s -> exists p, wrap32 p = s /\ - 2147483648 < p - base <= 2147483648.
Proof.
  intros Hs. unfold is_u32 in Hs. pose proof (wrap32_range (s - base)) as Hr.
  assert (E : wrap32 (base + wrap32 (s - base)) = s).
  { rewrite wrap32_add_r. replace (base + (s - base)) with s by lia. by apply wrap32_small. }
  destruct (Z.le_gt_cases (wrap32 (s - base)) 2147483648).
  - exists (base + wrap32 (s - base)). split; [done|lia].
  - exists (base + wrap32 (s - base) - M32). unfold M32 in *. split; [|lia].
    rewrite <- E at 2. unfold wrap32 at 1 3. unfold M32.
    rewrite <- (Z.mod_add (base + wrap32 (s - base) - 4294967296) 1) by lia. f_equal. lia.
Qed.

Lemma spec_store_bytes n sl w p body :
  bytes_held w -> bytes_ok body -> bytes_held (spec_store n sl w p body).1.
Proof.
  intros Hw Hb. unfold spec_store. repeat case_match; try done. by apply map_Forall_insert_2.
Qed.

Lemma w_drop_bytes t w : bytes_held w -> bytes_held (w_drop t w).
Proof. intros Hw p b Hp. rewrite lookup_w_drop in Hp. case_decide; [|done]. by apply (Hw p). Qed.

Lemma epoch_regular r r' w c h t :
  Repc r w c h -> w_base w <= t <= h -> rr_delivered r' = wrap32 t -> epoch_ok r r' -> regular (slots r) t.
Proof.
  intros H Ht Hd [He|[H1 H2]]; [by left|]. destruct (re_reg _ _ _ _ H) as [|Hb]; [by left|right].
  pose proof (wf_slots _ (re_wf _ _ _ _ H)). pose proof (re_span _ _ _ _ H).
  rewrite Hd, (re_delivered _ _ _ _ H), (wrap32_small (w_base w)) in * by lia.
  destruct (Z.eq_dec t M32) as [->|]; [|rewrite wrap32_small in * by lia; lia].
  change (wrap32 M32) with 0 in *. unfold M32 in *. lia.
Qed.

(** One operation of any kind keeps the representation, and neither the reader,
    the frontier nor the top ever moves back. *)
Lemma ring_step_Rep r w c h op :
  Rep r w c h -> bytes_held w -> op_ok op -> epoch_ok r (ring_step r op) ->
  exists w' c' h', Rep (ring_step r op) w' c' h' /\ bytes_held w' /\
    w_base w <= w_base w' /\ c <= c' /\ h <= h' /\ same_geometry r (ring_step r op).
Proof.
  intros HR Hb Hop He. pose proof HR as [H Hc]. pose proof (re_cur _ _ _ _ H) as Hcur. pose proof (cu_order _ _ _ Hcur) as Ho.
  pose proof (re_span _ _ _ _ H) as Hsp.
  assert (Hstay : exists w' c' h', Rep r w' c' h' /\ bytes_held w' /\
    w_base w <= w_base w' /\ c <= c' /\ h <= h' /\ same_geometry r r).
  { exists w, c, h. split; [done|]. split; [done|]. repeat split; try done; lia. }
  destruct op as [s body|out|resumable]; cbn [ring_step] in *.
  - destruct Hop as [Hs Hbody]. destruct (nearest_position (w_base w) s Hs) as (p & <- & Hp).
    pose proof (store_refines_spec r w c h p body HR Hp) as HS.
    pose proof (spec_store_bytes (slots r) (rr_slot_len r) w p body Hb Hbody) as Hb'.
    assert (Hbase : w_base (spec_store (slots r) (rr_slot_len r) w p body).1 = w_base w)
      by (unfold spec_store; repeat case_match; done).
    destruct (store r (wrap32 p) body) as [r' st], (spec_store (slots r) (rr_slot_len r) w p body) as [w' st'].
    destruct HS as (<- & Hg & c' & h' & Hcc & -> & HR'). cbn in *. eexists w', c', _. split; [exact HR'|].
    repeat split; try done; try apply Hg; try lia. case_decide; lia.
  - pose proof (take_message_eq r w c h out HR Hb) as HT.
    destruct (spec_take _ _) as [[[n content]|e]|]; [|rewrite HT in *; apply Hstay..].
    destruct HT as (r' & HT & Hg & Hd & Hn & Hrep). rewrite HT in *. cbn [fst] in *.
    eexists _, c, h. split; [apply Hrep, (epoch_regular r r' w c h); (done || lia)|].
    split; [by apply w_drop_bytes|]. cbn [w_drop w_base]. repeat split; try lia; apply Hg.
  - destruct (Z.eq_dec c h) as [->|Hne].
    { unfold escape_stall, has_gap in *. rewrite (re_cumulative _ _ _ _ H), (re_highest _ _ _ _ H), Z.eqb_refl in *. apply Hstay. }
    destruct (escape_stall_resume r w c h resumable HR ltac:(lia)) as (t & [Hheld _] & Hsame & Hmove).
    pose proof (cu_held _ _ _ Hcur t Hheld) as Ht.
    destruct (Z.eq_dec t (w_base w)) as [->|Hne']; [rewrite Hsame in * by done; apply Hstay|].
    destruct (Hmove ltac:(lia)) as (r' & HE & Hg & Hd & Hrep). rewrite HE in *. cbn [fst] in *.
    destruct Hrep as (c' & ? & ? & Hrep); [apply (epoch_regular r r' w c h); (done || lia)|].
    eexists _, c', h. split; [exact Hrep|]. split; [by apply w_drop_bytes|]. cbn [w_drop w_base]. repeat split; try lia; apply Hg.
Qed.

Lemma reach_Rep r : reach r -> exists w c h, Rep r w c h /\ bytes_held w.
Proof.
  induction 1 as [bodies meta sl r start Hnew Hs Hstart Hreg|r op _ (w & c & h & HR & Hb) Hop He].
  - unfold recv_new in Hnew. case_match; [done|]. apply bind_ok in Hnew as (want & Hwant & Hnew).
    apply ok_or_ok in Hwant. unfold checked_mul64 in Hwant. destruct (Z.leb_spec (zlen meta * sl) U64_MAX); [|done].
    injection Hwant as <-. destruct (negb _) eqn:Hlen in Hnew; [done|]. injection Hnew as <-. unfold slots in *. cbn in *. bool_prop. zlen_pose.
    exists (mkWindow start ∅), start, start. split; [|apply map_Forall_empty].
    apply reset_to_Rep; unfold slots; cbn; try done; zlen_pose; nia.
  - destruct (ring_step_Rep r w c h op HR Hb Hop He) as (w' & c' & h' & ? & ? & _). eauto.
Qed.

(** ** Reassembly of one message *)

(** Offer fragments [order] of [m], cut at [cap], to a ring that reads from
    position [base]. *)
Definition offer_all (m : Message) (cap base : Z) (order : list Z) (r : RecvRing) : RecvRing :=
  fold_left (fun r i => (store r (wrap32 (base + i)) (fragment_body m i cap)).1) order r.

(** A window that holds only fragments of [m], those of [seen]. *)
Definition holds (m : Message) (cap base : Z) (seen : list Z) (w : Window) : Prop :=
  w_base w = base /\
  forall p, w_held w !! p = if decide (p - base ∈ seen) then Some (fragment_body m (p - base) cap) else None.

Lemma offer_all_holds m cap base order r w c h seen :
  Message_ok m -> 0 < cap <= rr_slot_len r -> cap <= U16_MAX ->
  message_fragment_count m cap <= slots r ->
  Forall (fun i => 0 <= i < message_fragment_count m cap) order ->
  Rep r w c h -> holds m cap base seen w ->
  exists w' c' h', Rep (offer_all m cap base order r) w' c' h' /\ holds m cap base (order ++ seen) w'.
Proof.
  intros Hm Hcap Hmax Hn Hord. revert r w c h seen Hcap Hn.
  induction Hord as [|i order Hi _ IH]; intros r w c h seen Hcap Hn HR [Hb Hh]; cbn [offer_all fold_left].
  { exists w, c, h. done. }
  pose proof (wf_slots _ (re_wf _ _ _ _ (proj1 HR))) as Hs.
  pose proof (store_refines_spec r w c h (base + i) (fragment_body m i cap) HR ltac:(lia)) as HS.
  destruct (zlen_fragment_body m Hm i cap ltac:(lia) Hi) as [_ Hfl].
  unfold spec_store in HS. rewrite Hb in HS.
  rewrite (proj2 (Z.ltb_ge _ _)), (proj2 (Z.leb_gt _ _)) in HS by lia.
  rewrite (proj2 (Z.ltb_ge _ _)) in HS by lia. rewrite (proj2 (Z.ltb_ge _ _)) in HS by lia. cbn [orb] in HS.
  rewrite Hh in HS. replace (base + i - base) with i in HS by lia.
  destruct (store r (wrap32 (base + i)) (fragment_body m i cap)) as [r' st]. cbn [fst].
  assert (Hex : exists w' c' h', Rep r' w' c' h' /\ same_geometry r r' /\ holds m cap base (i :: seen) w').
  { case_decide as Hin; destruct HS as (_ & Hg & c' & h' & _ & _ & HR').
    - exists w, c', h'. split; [done|]. split; [done|]. split; [done|]. intros p. rewrite Hh.
      destruct (decide (p - base ∈ seen)) as [H1|H1], (decide (p - base ∈ i :: seen)) as [H2|H2]; try done.
      + destruct H2. by apply list_elem_of_further.
      + apply elem_of_cons in H2 as [E|]; [rewrite E in H1|]; done.
    - eexists _, c', h'. split; [exact HR'|]. split; [done|]. split; [done|]. intros p. cbn [w_held].
      destruct (Z.eq_dec p (base + i)) as [->|Hne].
      + rewrite lookup_insert_eq, decide_True; [|replace (base + i - base) with i by lia; apply list_elem_of_here].
        do 2 f_equal. lia.
      + rewrite lookup_insert_ne, Hh by done.
        destruct (decide (p - base ∈ seen)) as [H1|H1], (decide (p - base ∈ i :: seen)) as [H2|H2]; try done.
        * destruct H2. by apply list_elem_of_further.
        * apply elem_of_cons in H2 as [|]; [lia|done]. }
  destruct Hex as (w' & c' & h' & HR' & [Hg1 Hg2] & Hh').
  destruct (IH r' w' c' h' (i :: seen)) as (w2 & c2 & h2 & ? & [? Hh2]); [lia..|done|done|].
  exists w2, c2, h2. split; [done|]. split; [done|]. intros p. rewrite Hh2.
  destruct (decide (p - base ∈ order ++ i :: seen)) as [H1|H1], (decide (p - base ∈ (i :: order) ++ seen)) as [H2|H2]; try done; exfalso.
  - apply H2. rewrite elem_of_app in *. rewrite elem_of_cons in *. tauto.
  - apply H1. rewrite elem_of_app in *. rewrite elem_of_cons in *. tauto.
Qed.

Lemma cover_all bs : Forall (fun b => 0 < zlen b) bs -> cover bs (zlen (mjoin bs)) = Some (length bs).
Proof.
  induction 1 as [|b bs Hb _ IH]; [done|]. cbn [cover length]. rewrite mjoin_cons, zlen_app. zlen_pose.
  rewrite (proj2 (Z.leb_gt _ _)) by lia. replace (zlen b + zlen (mjoin bs) - zlen b) with (zlen (mjoin bs)) by lia.
  by rewrite IH.
Qed.

(** A contiguous run that is exactly the fragments of a message is taken as
    that message. *)
Lemma spec_take_message m cap room :
  Message_ok m -> LENGTH_PREFIX_LEN <= cap -> total_len m <= room ->
  let bs := (fun i => fragment_body m i cap) <$> seqZ 0 (message_fragment_count m cap) in
  spec_take bs room = Some (Ok (length bs, msg_header m ++ msg_payload m)).
Proof.
  intros Hm Hcap Hroom bs. pose proof (join_fragments m cap Hm ltac:(unfold LENGTH_PREFIX_LEN in *; lia)) as Hj. fold bs in Hj.
  destruct (fragment_count_spec m Hm cap ltac:(unfold LENGTH_PREFIX_LEN in *; lia)) as [Hn Hs].
  pose proof (total_len_ok m Hm) as Ht. pose proof (zlen_stream m Hm) as Hst.
  assert (Hpre : length (msg_prefix m) = 4%nat) by (destruct Hm as (_ & _ & -> & _); done).
  assert (Hpos : Forall (fun b => 0 < zlen b) bs).
  { apply Forall_fmap, Forall_forall. intros i Hi%list_elem_of_In%elem_of_seqZ. cbn.
    apply (zlen_fragment_body m Hm); unfold LENGTH_PREFIX_LEN in *; lia. }
  assert (Hhd : head bs = Some (fragment_body m 0 cap)).
  { subst bs. rewrite seqZ_cons by lia. done. }
  assert (Hp : parse_length_prefix (fragment_body m 0 cap) = Ok (total_len m)).
  { unfold parse_length_prefix, fragment_body. rewrite Z.mul_0_l, drop_0. unfold slice_to.
    rewrite slice_some; [|unfold LENGTH_PREFIX_LEN in *; rewrite ?zlen_take; unfold zlen in *;
      unfold stream_len, LENGTH_PREFIX_LEN in *; zlen_pose; lia..].
    cbn [fmap option_fmap option_map ok_or]. rewrite drop_0, take_take, Z.sub_0_r.
    replace (Nat.min _ _) with 4%nat by (unfold LENGTH_PREFIX_LEN in *; lia).
    unfold stream. by rewrite <- Hpre, take_app_length. }
  unfold spec_take. rewrite Hhd. cbn [mbind option_bind]. rewrite Hp.
  replace (total_len m + LENGTH_PREFIX_LEN) with (zlen (mjoin bs)) by (rewrite Hj, Hst, Ht; unfold stream_len; lia).
  rewrite (cover_all bs Hpos). cbn [mbind option_bind]. rewrite take_ge by done.
  rewrite Z.eqb_refl. cbn [negb]. rewrite (proj2 (Z.ltb_ge _ _)) by lia. do 4 f_equal.
  rewrite Hj. unfold stream. change (Z.to_nat LENGTH_PREFIX_LEN) with 4%nat. by rewrite <- Hpre, drop_app_length.
Qed.

Lemma recv_new_inv bodies meta sl r :
  recv_new bodies meta sl = Ok r ->
  r = mkRecvRing bodies meta sl 0 0 0 /\ sl <> 0 /\ zlen meta <> 0 /\ zlen bodies = zlen meta * sl /\ zlen meta * sl <= U64_MAX.
Proof.
  unfold recv_new. destruct ((sl =? 0) || (zlen meta =? 0)) eqn:E; [done|]. intros (want & Hw & H)%bind_ok.
  apply ok_or_ok in Hw. unfold checked_mul64 in Hw. destruct (Z.leb_spec (zlen meta * sl) U64_MAX); [|done].
  injection Hw as <-. destruct (negb _) eqn:Hlen in H; [done|]. injection H as <-. bool_prop. done.
Qed.

(** Reassembly on a ring that holds nothing. *)
Lemma reassemble r0 base m cap order out :
  Rep r0 (mkWindow base ∅) base base ->
  Message_ok m -> LENGTH_PREFIX_LEN <= cap <= rr_slot_len r0 -> cap <= U16_MAX ->
  message_fragment_count m cap <= slots r0 -> total_len m <= zlen out ->
  (forall i, i ∈ order <-> 0 <= i < message_fragment_count m cap) ->
  let r := offer_all m cap base order r0 in
  cumulative_ack r = wrap32 (base + message_fragment_count m cap) /\
  exists r', take_message r out =
      (r', msg_header m ++ msg_payload m ++ drop (Z.to_nat (total_len m)) out, Some (Ok (total_len m))) /\
    rr_delivered r' = wrap32 (base + message_fragment_count m cap).
Proof.
  intros HR Hm Hcap Hmax Hn Hout Hord r.
  destruct (offer_all_holds m cap base order r0 _ _ _ [] Hm ltac:(unfold LENGTH_PREFIX_LEN in *; lia) Hmax
    Hn ltac:(apply Forall_forall; intros i Hi%list_elem_of_In%Hord; exact Hi) HR)
    as (w & c & h & HR' & [Hbase Hheld]).
  { split; [done|]. intros p. cbn [w_held]. rewrite lookup_empty, decide_False; [done|]. apply not_elem_of_nil. }
  rewrite app_nil_r in Hheld. fold r in HR'. pose proof HR' as [Hc Hmiss].
  pose proof (cu_order _ _ _ (re_cur _ _ _ _ Hc)) as Ho. rewrite Hbase in Ho.
  pose proof (fragment_count_spec m Hm cap ltac:(unfold LENGTH_PREFIX_LEN in *; lia)) as [Hn1 _].
  assert (Hcn : c = base + message_fragment_count m cap).
  { rewrite Hheld in Hmiss. case_decide as Hin; [done|]. rewrite Hord in Hin.
    destruct (Z.lt_ge_cases (base + message_fragment_count m cap) c); [|lia].
    destruct (cu_front _ _ _ (re_cur _ _ _ _ Hc) (base + message_fragment_count m cap)) as [b Hb']; [lia|].
    rewrite Hheld in Hb'. case_decide as Hin'; [|done]. apply Hord in Hin'. lia. }
  assert (Hrun : run w (w_base w) (Z.to_nat (c - w_base w)) = (fun i => fragment_body m i cap) <$> seqZ 0 (message_fragment_count m cap)).
  { unfold run, seqZ. rewrite Hbase, Hcn, <- list_fmap_compose.
    replace (Z.to_nat (base + message_fragment_count m cap - base)) with (Z.to_nat (message_fragment_count m cap)) by lia.
    apply list_fmap_ext. intros j x Hx. apply lookup_seq in Hx as [-> Hx]. cbn.
    rewrite Hheld, decide_True by (apply Hord; lia). cbn. f_equal. lia. }
  assert (Hbytes : bytes_held w).
  { intros p b Hp. rewrite Hheld in Hp. case_decide; [|done]. injection Hp as <-.
    apply Forall_take, Forall_drop, bytes_ok_stream, Hm. }
  pose proof (take_message_eq r w c h out HR' Hbytes) as HT.
  rewrite Hrun, spec_take_message in HT by (done || lia). destruct HT as (r' & HT & _ & Hd & _).
  split; [unfold cumulative_ack; rewrite <- Hcn; apply (re_cumulative _ _ _ _ Hc)|].
  assert (Hl : zlen (msg_header m ++ msg_payload m) = total_len m) by (rewrite zlen_app, (total_len_ok m Hm); done).
  exists r'. split.
  - rewrite HT, Hl, <- app_assoc. do 4 f_equal. f_equal. unfold zlen in Hl. lia.
  - rewrite Hd, length_fmap, length_seqZ, Hbase. f_equal. lia.
Qed.

(** Reassembly is independent of arrival: whatever order the fragments of
    a message arrive in, with any repetitions, as long as each arrives at least
    once, a fresh ring hands the reader exactly [header ++ payload] at the front
    of its buffer, leaves the rest of the buffer alone, and acknowledges and
    consumes exactly the message's fragments. *)
Theorem reassembly_any_order bodies meta slot_len r0 start m cap order out :
  recv_new bodies meta slot_len = Ok r0 -> 0 < slot_len -> slots r0 < 2147483648 ->
  is_u32 start -> regular (slots r0) start ->
  Message_ok m -> LENGTH_PREFIX_LEN <= cap <= slot_len -> cap <= U16_MAX ->
  message_fragment_count m cap <= slots r0 -> total_len m <= zlen out ->
  (forall i, i ∈ order <-> 0 <= i < message_fragment_count m cap) ->
  let r := offer_all m cap start order (reset_to r0 start) in
  cumulative_ack r = wrap32 (start + message_fragment_count m cap) /\
  exists r', take_message r out =
      (r', msg_header m ++ msg_payload m ++ drop (Z.to_nat (total_len m)) out, Some (Ok (total_len m))) /\
    rr_delivered r' = wrap32 (start + message_fragment_count m cap).
Proof.
  intros Hnew Hsl Hs Hstart Hreg Hm Hcap Hmax Hn Hout Hord.
  apply recv_new_inv in Hnew as (-> & ? & ? & Hb & Hu). unfold slots in *. cbn [rr_meta rr_slot_len] in *. zlen_pose.
  apply reassemble; try done.
  - apply reset_to_Rep; unfold slots; cbn; (done || lia).
  - unfold slots. cbn. by rewrite zlen_map.
Qed.

(** Three fragments, delivered as 2, 0, 2, 1, across the top of the sequence space. *)
Lemma reassembly_any_order_witness :
  let m := mkMessage [0; 0; 0; 5] [10; 11] [12; 13; 14] in
  exists r0, recv_new (replicate 32 0) (replicate 8 SlotMeta_default) 4 = Ok r0 /\
  exists r', take_message (offer_all m 4 4294967295 [2; 0; 2; 1] (reset_to r0 4294967295)) (replicate 6 9) =
    (r', [10; 11; 12; 13; 14; 9], Some (Ok 5)) /\ rr_delivered r' = 2.
Proof.
  cbv zeta. eexists. split; [reflexivity|].
  refine (proj2 (reassembly_any_order (replicate 32 0) (replicate 8 SlotMeta_default) 4 _ 4294967295
    (mkMessage [0; 0; 0; 5] [10; 11] [12; 13; 14]) 4 [2; 0; 2; 1] (replicate 6 9) _ _ _ _ _ _ _ _ _ _ _)).
  - reflexivity.
  - lia.
  - by vm_compute.
  - by vm_compute.
  - left. by vm_compute.
  - repeat split; try (by vm_compute); by apply bytes_ok_b.
  - by vm_compute.
  - by vm_compute.
  - by vm_compute.
  - by vm_compute.
  - intros i. change (message_fragment_count (mkMessage [0; 0; 0; 5] [10; 11] [12; 13; 14]) 4) with 3.
    rewrite !elem_of_cons, elem_of_nil. lia.
Defined.

(** The acknowledgement never covers a missing fragment: in every ring
    reachable from a fresh one by any sequence of stores, message reads and
    stall escapes, the cursors are ordered, everything from [delivered] up to
    the acknowledged frontier is present, the fragment at the frontier is not,
    the gap flag is exactly "something lies beyond the frontier", and no step
    moves [delivered], the frontier or [highest] backwards. *)
Theorem ack_is_first_missing r :
  reach r ->
  exists base c h,
    base <= c <= h /\ h <= base + slots r /\
    rr_delivered r = wrap32 base /\ cumulative_ack r = wrap32 c /\ rr_highest r = wrap32 h /\
    (forall p, base <= p < c -> is_Some (slot_body r (wrap32 p))) /\
    (c < base + slots r -> slot_body r (wrap32 c) = None) /\
    has_gap r = (c <? h) /\
    forall op, op_ok op -> epoch_ok r (ring_step r op) ->
      exists base' c' h', base <= base' /\ c <= c' /\ h <= h' /\
        rr_delivered (ring_step r op) = wrap32 base' /\ cumulative_ack (ring_step r op) = wrap32 c' /\
        rr_highest (ring_step r op) = wrap32 h'.
Proof.
  intros (w & c & h & HR & Hb)%reach_Rep. pose proof HR as [H Hc]. exists (w_base w), c, h.
  pose proof (re_cur _ _ _ _ H) as Hcur. pose proof (cu_order _ _ _ Hcur) as Ho. pose proof (re_span _ _ _ _ H) as Hsp.
  pose proof (wf_slots _ (re_wf _ _ _ _ H)) as Hs.
  split; [lia|]. split; [lia|]. split; [apply H|]. split; [apply H|]. split; [apply H|]. split.
  { intros p Hp. rewrite (Repc_slot_body r w c h) by (done || lia). by apply (cu_front _ _ _ Hcur). }
  split; [intros ?; by rewrite (Repc_slot_body r w c h) by (done || lia)|]. split.
  { unfold has_gap. rewrite (re_cumulative _ _ _ _ H), (re_highest _ _ _ _ H).
    assert (Hd : distance (wrap32 c) (wrap32 h) = h - c) by (apply distance_wrap; unfold M32; lia).
    destruct (Z.ltb_spec c h) as [Hlt|]; [|by replace h with c by lia; rewrite Z.eqb_refl].
    apply negb_true_iff, Z.eqb_neq. intros E. rewrite E in Hd. unfold distance, wrapping_sub32 in Hd.
    rewrite Z.sub_diag in Hd. change (wrap32 0) with 0 in Hd. lia. }
  intros op Hop He. destruct (ring_step_Rep r w c h op HR Hb Hop He) as (w' & c' & h' & [H' _] & _ & ? & ? & ? & _).
  exists (w_base w'), c', h'. repeat split; try done; apply H'.
Qed.

Lemma ack_is_first_missing_witness :
  exists r, reach r /\ cumulative_ack r = 1 /\ has_gap r = true /\ slot_body r 1 = None.
Proof.
  set (r0 := reset_to (mkRecvRing (replicate 32 0) (replicate 8 SlotMeta_default) 4 0 0 0) 0).
  set (r := ring_step (ring_step r0 (OStore 0 [7])) (OStore 2 [8])). exists r.
  assert (Hr : reach r).
  { apply reach_step; [apply reach_step; [|by split; [|apply bytes_ok_b]|by left]|by split; [|apply bytes_ok_b]|by left].
    apply (reach_start (replicate 32 0) (replicate 8 SlotMeta_default) 4); [done|by vm_compute..|by left]. }
  split; [exact Hr|]. destruct (ack_is_first_missing r Hr) as (base & c & h & _).
  repeat split; vm_compute; reflexivity.
Defined.

(** (C4) [store] implements the window: at a position within half the sequence
    space of the reader it answers exactly as the abstract window does, changes
    the window exactly as it does (a duplicate, an oversized or an out-of-window
    fragment changes nothing), and re-establishes the representation with a
    frontier that is again the first missing position. *)
Theorem store_refines_window r w c h p body :
  Rep r w c h -> - 2147483648 < p - w_base w <= 2147483648 ->
  let '(r', st) := store r (wrap32 p) body in
  let '(w', st') := spec_store (slots r) (rr_slot_len r) w p body in
  st = st' /\ exists c' h', c <= c' /\ h <= h' /\ Rep r' w' c' h'.
Proof.
  intros HR Hp. pose proof (store_refines_spec r w c h p body HR Hp) as HS.
  destruct (store r (wrap32 p) body) as [r' st], (spec_store _ _ w p body) as [w' st'].
  destruct HS as (-> & _ & c' & h' & Hc & -> & HR'). split; [done|]. eexists c', _. split; [done|]. split; [|exact HR'].
  case_decide; lia.
Qed.

Lemma store_refines_window_witness :
  let r := reset_to (mkRecvRing (replicate 32 0) (replicate 8 SlotMeta_default) 4 0 0 0) 4294967295 in
  Rep r (mkWindow 4294967295 ∅) 4294967295 4294967295 /\
  (store r (wrap32 4294967296) [5]).2 = Accepted.
Proof.
  cbv zeta.
  assert (HR : Rep (reset_to (mkRecvRing (replicate 32 0) (replicate 8 SlotMeta_default) 4 0 0 0) 4294967295)
    (mkWindow 4294967295 ∅) 4294967295 4294967295).
  { apply reset_to_Rep; [by vm_compute..|by left]. }
  split; [exact HR|].
  pose proof (store_refines_window _ _ _ _ 4294967296 [5] HR ltac:(cbn; lia)) as HS.
  destruct (store _ _ _) as [r' st]. destruct HS as [-> _]. reflexivity.
Defined.

(** [take_message] is exact on every branch: on the contiguous bodies it
    answers "nothing yet", an error or a message exactly when [spec_take] does;
    in the first two cases ring and buffer are untouched; a message's content
    lands at the front of the buffer, the rest of the buffer is untouched, and
    the window moves past exactly the fragments consumed. *)
Theorem take_message_exact r w c h out :
  Rep r w c h -> bytes_held w ->
  match spec_take (run w (w_base w) (Z.to_nat (c - w_base w))) (zlen out) with
  | None => take_message r out = (r, out, None)
  | Some (Err e) => take_message r out = (r, out, Some (Err e))
  | Some (Ok (n, content)) =>
      exists r', take_message r out = (r', content ++ drop (length content) out, Some (Ok (zlen content))) /\
        0 < Z.of_nat n <= c - w_base w /\
        (regular (slots r) (w_base w + Z.of_nat n) -> Rep r' (w_drop (w_base w + Z.of_nat n) w) c h)
  end.
Proof.
  intros HR Hb. pose proof (take_message_eq r w c h out HR Hb) as HT.
  destruct (spec_take _ _) as [[[n content]|e]|]; [|done..]. destruct HT as (r' & ? & _ & _ & ? & ?). eauto.
Qed.

Lemma take_message_exact_witness :
  take_message (reset_to (mkRecvRing (replicate 32 0) (replicate 4 SlotMeta_default) 8 0 0 0) 7) [1] =
    (reset_to (mkRecvRing (replicate 32 0) (replicate 4 SlotMeta_default) 8 0 0 0) 7, [1], None).
Proof.
  refine (take_message_exact (reset_to (mkRecvRing (replicate 32 0) (replicate 4 SlotMeta_default) 8 0 0 0) 7)
    (mkWindow 7 ∅) 7 7 [1] _ _).
  - apply reset_to_Rep; [by vm_compute..|by left].
  - apply map_Forall_empty.
Defined.

(** A stall escape jumps to the furthest resumable fragment, never the
    nearest: with a gap, the ring lands on the furthest held fragment the
    consumer accepts (the furthest held one when it accepts none), everything
    before it is released in one step, the frontier moves past it, and when the
    reader already stands there nothing changes. *)
Theorem escape_stall_furthest r w c h resumable :
  Rep r w c h -> c < h ->
  exists t, resume_point resumable w h t /\
    (t = w_base w -> escape_stall r resumable = (r, None)) /\
    (w_base w < t -> regular (slots r) t ->
     exists r' c', escape_stall r resumable = (r', Some (wrap32 t)) /\
       c <= c' /\ t < c' /\ Rep r' (w_drop t w) c' h).
Proof.
  intros HR Hlt. destruct (escape_stall_resume r w c h resumable HR Hlt) as (t & Hres & Hsame & Hmove).
  exists t. split; [done|]. split; [done|]. intros Ht Hreg. destruct (Hmove Ht) as (r' & HE & _ & _ & Hrep).
  destruct (Hrep Hreg) as (c' & ? & ? & ?). eauto 10.
Qed.

(** Fragments 1, 3 and 5 of an eight-slot ring; 1 and 3 are resumable. *)
Lemma escape_stall_furthest_witness :
  let r0 := reset_to (mkRecvRing (replicate 32 0) (replicate 8 SlotMeta_default) 4 0 0 0) 0 in
  let r := (store (store (store r0 1 [1]).1 3 [1]).1 5 [0]).1 in
  exists t, 0 <= t /\ (escape_stall r (fun b => match b with [1] => true | _ => false end)).2 = Some 3.
Proof.
  cbv zeta.
  set (r0 := reset_to (mkRecvRing (replicate 32 0) (replicate 8 SlotMeta_default) 4 0 0 0) 0).
  assert (HR : Rep r0 (mkWindow 0 ∅) 0 0) by (apply reset_to_Rep; [by vm_compute..|by left]).
  pose proof (store_refines_spec r0 _ 0 0 1 [1] HR ltac:(cbn; lia)) as HS.
  assert (Hst : spec_store (slots r0) (rr_slot_len r0) (mkWindow 0 ∅) 1 [1] = (mkWindow 0 {[1 := [1]]}, Accepted)) by reflexivity.
  rewrite Hst in HS. change (wrap32 1) with 1 in HS.
  assert (He : (store r0 1 [1]).2 = Accepted) by reflexivity.
  assert (Hcum : rr_cumulative (store r0 1 [1]).1 = 0) by reflexivity.
  destruct (store r0 1 [1]) as [r1 st] eqn:E1. cbn in He, Hcum. subst st.
  destruct HS as (_ & _ & c & h & Hc & Hh & HR1). rewrite decide_True in Hh by done. change (Z.max 0 (1 + 1)) with 2 in Hh. subst h.
  assert (c = 0) as ->.
  { pose proof (re_cumulative _ _ _ _ (proj1 HR1)) as Hcw. pose proof (cu_order _ _ _ (re_cur _ _ _ _ (proj1 HR1))).
    rewrite wrap32_small in Hcw by (unfold M32; lia). lia. }
  destruct (escape_stall_furthest r1 _ 0 2 (fun b => match b with [1] => true | _ => false end) HR1 ltac:(lia)) as (t & [Ht _] & _).
  exists t. split; [apply (cu_held _ _ _ (re_cur _ _ _ _ (proj1 HR1))) in Ht; cbn in Ht; lia|].
  rewrite <- (f_equal fst E1). vm_compute. reflexivity.
Defined.

(** The production ring is not sound across the wrap: 4000 does not
    divide [2^32], so in a window that straddles the top of the sequence space
    two live positions share a slot. A ring of [RING_SLOTS] slots whose reader
    stands at sequence [2^32 - 3296] and has received nothing accepts sequence 0
    (3296 ahead, inside the window), and then acknowledges sequence
    [2^32 - 3296] as received and serves sequence 0's bytes in its place. *)
Theorem wrap_aliases_slots :
  let r := reset_to (mkRecvRing (replicate 4000 0) (replicate (Z.to_nat RING_SLOTS) SlotMeta_default) 1 0 0 0) 4294964000 in
  let '(r', st) := store r 0 [77] in
  cumulative_ack r = 4294964000 /\ st = Accepted /\
  cumulative_ack r' = 4294964001 /\ slot_body r' 4294964000 = Some [77].
Proof. vm_compute. repeat split. Qed.
