(* ===== verification/Policy.v ===== *)
(** * Pacing and congestion policy ([transport-policy/src/lib.rs])

    The token-bucket [Pacer] for bulk traffic and the per-channel rate
    [Controller]. Both are pure state machines over [f64]; a method that takes
    [&mut self] returns the new state with its result. *)

From S2P Require Import Prelude F64.

Definition MAX_BURST_DATAGRAMS : Z := 4.
Definition MAX_BURST_TIME_MS : f64 := f_of_Z 5.

Inductive ConfigError :=
  | ZeroDatagramSize | MinimumExceedsMaximum | ZeroBurstDatagrams | InvalidBurstTime.

Record PacerConfig := mkPacerConfig {
  min_datagram_bytes : Z;
  max_datagram_bytes : Z;
  max_burst_datagrams : Z;
  max_burst_time_ms : f64;
}.

Definition compatibility_default : PacerConfig :=
  mkPacerConfig 1229 2000 MAX_BURST_DATAGRAMS MAX_BURST_TIME_MS.

Definition validate (c : PacerConfig) : PacerConfig + ConfigError :=
  if (min_datagram_bytes c =? 0) || (max_datagram_bytes c =? 0) then inr ZeroDatagramSize else
  if max_datagram_bytes c <? min_datagram_bytes c then inr MinimumExceedsMaximum else
  if max_burst_datagrams c =? 0 then inr ZeroBurstDatagrams else
  if negb (f_is_finite (max_burst_time_ms c)) || (max_burst_time_ms c <=? f_zero)%f64
  then inr InvalidBurstTime else
  inl c.

Record Pacer := mkPacer {
  p_config : PacerConfig;
  p_rate_mbps : f64;
  p_tokens_bytes : f64;
  p_last_ms : f64;
  p_datagram_bytes : Z;
}.

#[export] Instance eta_Pacer : Eta Pacer := fun p =>
  mkPacer (p_config p) (p_rate_mbps p) (p_tokens_bytes p) (p_last_ms p) (p_datagram_bytes p).

(** [Pacer::new]. *)
Definition pacer_new (now_ms : f64) : Pacer :=
  mkPacer compatibility_default f_zero f_zero now_ms (min_datagram_bytes compatibility_default).

Definition with_config (now_ms : f64) (config : PacerConfig) : Pacer + ConfigError :=
  match validate config with
  | inr e => inr e
  | inl config => inl (mkPacer config f_zero f_zero now_ms (max_datagram_bytes config))
  end.

Definition enabled (p : Pacer) : bool := (p_rate_mbps p >? f_zero)%f64.

Definition datagram_size (p : Pacer) : Z := p_datagram_bytes p.

Definition bytes_per_ms (rate_mbps : f64) : option f64 :=
  let v := (rate_mbps * f_of_Z 1000000 / f_of_Z 8 / f_of_Z 1000)%f64 in
  if f_is_finite v && (v >? f_zero)%f64 then Some v else None.

Definition capacity (p : Pacer) : f64 :=
  match bytes_per_ms (p_rate_mbps p) with
  | None => f_zero
  | Some bpm =>
      let datagram_bytes := f_of_Z (p_datagram_bytes p) in
      let packet_cap := (datagram_bytes * f_of_Z (max_burst_datagrams (p_config p)))%f64 in
      let time_cap := (bpm * max_burst_time_ms (p_config p))%f64 in
      f_min (f_max time_cap datagram_bytes) packet_cap
  end.

Definition set_datagram_size (p : Pacer) (datagram_bytes : Z) : Pacer * bool :=
  if negb ((min_datagram_bytes (p_config p) <=? datagram_bytes) &&
           (datagram_bytes <=? max_datagram_bytes (p_config p))) then (p, false) else
  let p := p <| p_datagram_bytes := datagram_bytes |> in
  (if enabled p then p <| p_tokens_bytes := f_min (p_tokens_bytes p) (capacity p) |> else p, true).

Definition burst_capacity_bytes (p : Pacer) : Z := f_to_usize (capacity p).

Definition refill (p : Pacer) (now_ms : f64) : Pacer :=
  if negb (f_is_finite now_ms) then p else
  if negb (f_is_finite (p_last_ms p)) then p <| p_last_ms := now_ms |> else
  if (now_ms <=? p_last_ms p)%f64 then p else
  let p :=
    if enabled p then
      let elapsed_ms := (now_ms - p_last_ms p)%f64 in
      match bytes_per_ms (p_rate_mbps p) with
      | Some bpm =>
          p <| p_tokens_bytes := f_min (p_tokens_bytes p + elapsed_ms * bpm)%f64 (capacity p) |>
      | None => p
      end
    else p in
  p <| p_last_ms := now_ms |>.

Definition set_rate (p : Pacer) (now_ms rate_mbps : f64) : Pacer :=
  let p := refill p now_ms in
  match bytes_per_ms rate_mbps with
  | None => p <| p_rate_mbps := f_zero |> <| p_tokens_bytes := f_zero |>
  | Some _ =>
      let was_enabled := enabled p in
      let p := p <| p_rate_mbps := rate_mbps |> in
      if negb was_enabled
      then p <| p_tokens_bytes := capacity p |>
      else p <| p_tokens_bytes := f_min (p_tokens_bytes p) (capacity p) |>
  end.

Definition available (p : Pacer) (now_ms : f64) : f64 :=
  if negb (enabled p) || negb (f_is_finite now_ms) || negb (f_is_finite (p_last_ms p))
  then p_tokens_bytes p else
  if (now_ms <=? p_last_ms p)%f64 then p_tokens_bytes p else
  let elapsed_ms := (now_ms - p_last_ms p)%f64 in
  match bytes_per_ms (p_rate_mbps p) with
  | None => p_tokens_bytes p
  | Some bpm => f_min (p_tokens_bytes p + elapsed_ms * bpm)%f64 (capacity p)
  end.

Definition can_consume (p : Pacer) (now_ms : f64) (bytes : Z) : bool :=
  if negb (enabled p) || (bytes =? 0) then true else
  (available p now_ms >=? f_of_Z bytes)%f64.

Definition try_consume (p : Pacer) (now_ms : f64) (bytes : Z) : Pacer * bool :=
  if bytes =? 0 then (p, true) else
  if negb (enabled p) then (p, true) else
  let p := refill p now_ms in
  let bytes := f_of_Z bytes in
  if (p_tokens_bytes p <? bytes)%f64 then (p, false) else
  (p <| p_tokens_bytes := (p_tokens_bytes p - bytes)%f64 |>, true).

Definition wait_ms (p : Pacer) (now_ms : f64) (bytes : Z) : f64 :=
  if (bytes =? 0) || negb (enabled p) then f_zero else
  let bytes := f_of_Z bytes in
  let cap := capacity p in
  if (bytes >? cap)%f64 then f_inf else
  let avail := available p now_ms in
  if (avail >=? bytes)%f64 then f_zero else
  match bytes_per_ms (p_rate_mbps p) with
  | None => f_inf
  | Some bpm => ((bytes - avail) / bpm)%f64
  end.

(** ** Controller *)

Record CongestionObservation := mkCongestionObservation {
  in_flight : option Z;
  stale : option Z;
  delivery_rate_mbps : option f64;
  srtt_ms : option f64;
}.

Definition WINDOW_FLOOR : Z := 100.
Definition INCREASE_PERIOD : Z := 30.
Definition DECREASE_PERIOD : Z := 60.
Definition DECREASE_FACTOR : f64 := f_lit 7 10.
Definition INCREASE_STEP_MBPS : f64 := f_lit 15 100.
Definition STEP_GROWTH : Z := 2.
Definition STEP_CAP : Z := 5.

Record Level := mkLevel { rtt_mult : f64; base_ms : f64; stale_ratio : f64 }.

Definition LEVELS : list Level := [
  mkLevel f_zero f_zero f_zero;
  mkLevel (f_lit 11 10) (f_of_Z 20) (f_lit 15 100);
  mkLevel (f_lit 15 10) (f_of_Z 50) (f_lit 35 100)].

Definition DEFAULT_LEVEL : Z := 1.

Definition level (index : Z) : Level :=
  default (nth (Z.to_nat DEFAULT_LEVEL) LEVELS (mkLevel f_zero f_zero f_zero)) (get LEVELS index).

Record Controller := mkController {
  c_level : Z;
  c_min_mbps : f64;
  c_max_mbps : f64;
  c_current_mbps : f64;
  c_peak_mbps : f64;
  c_increase_ticks : Z;
  c_decrease_ticks : Z;
  c_step : Z;
  c_reset_pending : bool;
  c_total_decreases : Z;
}.

#[export] Instance eta_Controller : Eta Controller := fun c =>
  mkController (c_level c) (c_min_mbps c) (c_max_mbps c) (c_current_mbps c) (c_peak_mbps c)
    (c_increase_ticks c) (c_decrease_ticks c) (c_step c) (c_reset_pending c) (c_total_decreases c).

(** [Controller::new]. *)
Definition controller_new (level : Z) (min_mbps max_mbps : f64) : Controller :=
  mkController level min_mbps max_mbps min_mbps min_mbps 0 0 1 true 0.

Definition set_bounds (c : Controller) (min_mbps max_mbps : f64) : Controller :=
  let c := c <| c_min_mbps := min_mbps |> <| c_max_mbps := max_mbps |> in
  let c := if (c_current_mbps c >? max_mbps)%f64 then c <| c_current_mbps := max_mbps |> else c in
  let c := if (c_peak_mbps c >? max_mbps)%f64 then c <| c_peak_mbps := max_mbps |> else c in
  c <| c_reset_pending := true |>.

(** [Controller::rate_mbps]: [f64::clamp] panics ([None]) unless
    [min <= max]. *)
Definition rate_mbps (c : Controller) : option f64 :=
  if (c_min_mbps c <=? c_max_mbps c)%f64
  then Some (f_clamp (c_current_mbps c) (c_min_mbps c) (c_max_mbps c)) else None.

Definition is_congested (c : Controller) (window stale : Z) : bool :=
  if window <=? WINDOW_FLOOR then false else
  let ratio := (f_of_Z stale / f_of_Z window)%f64 in
  (ratio >? stale_ratio (level (c_level c)))%f64.

Definition tick (c : Controller) (window stale : Z) (measured_mbps : f64) : Controller * option f64 :=
  let c :=
    if is_congested c window stale then
      let observed := c_decrease_ticks c in
      let c := c <| c_decrease_ticks := wrapping_add32 (c_decrease_ticks c) 1 |> in
      if observed mod DECREASE_PERIOD =? 0 then
        let c := c <| c_total_decreases := saturating_add U32_MAX (c_total_decreases c) 1 |> in
        let c := c <| c_increase_ticks := 0 |> in
        let c := c <| c_peak_mbps := (c_peak_mbps c * DECREASE_FACTOR)%f64 |> in
        c <| c_current_mbps := c_peak_mbps c |>
      else c
    else
      let c := c <| c_increase_ticks := wrapping_add32 (c_increase_ticks c) 1 |> in
      if c_increase_ticks c mod INCREASE_PERIOD =? 0 then
        let c := c <| c_decrease_ticks := 0 |> in
        if c_reset_pending c then
          c <| c_current_mbps := c_min_mbps c |> <| c_peak_mbps := c_min_mbps c |>
            <| c_reset_pending := false |>
        else
          let c := if (measured_mbps >? c_peak_mbps c)%f64
                   then c <| c_peak_mbps := measured_mbps |> else c in
          let step := Z.min (c_step c) STEP_CAP in
          let c := c <| c_current_mbps := (c_current_mbps c + f_of_Z step * INCREASE_STEP_MBPS)%f64 |> in
          c <| c_step := saturating_add U32_MAX (c_step c) STEP_GROWTH |>
      else c in
  (c, rate_mbps c).

Definition tick_observation (c : Controller) (o : CongestionObservation) : Controller * option (option f64) :=
  match in_flight o, stale o with
  | Some window, Some stale =>
      let '(c, rate) := tick c window stale (default f_zero (delivery_rate_mbps o)) in (c, Some rate)
  | _, _ => (c, None)
  end.

(** ** Pacer: what the bucket guarantees *)

(** A pacer built by [Pacer::new] and driven with packet-sized requests. *)
Inductive pacer_op :=
  | PSetRate (now_ms rate_mbps : f64)
  | PSetDatagram (bytes : Z)
  | PConsume (now_ms : f64) (bytes : Z).

Definition pacer_step (p : Pacer) (op : pacer_op) : Pacer :=
  match op with
  | PSetRate now rate => set_rate p now rate
  | PSetDatagram bytes => (set_datagram_size p bytes).1
  | PConsume now bytes => (try_consume p now bytes).1
  end.

Definition pacer_op_ok (op : pacer_op) : Prop :=
  match op with PConsume _ bytes => 0 <= bytes <= 2000 | _ => True end.

Record Pacer_ok (p : Pacer) : Prop := {
  pk_config : p_config p = compatibility_default;
  pk_datagram : 1229 <= p_datagram_bytes p <= 2000;
  pk_tokens : f_is_nan (p_tokens_bytes p) = false;
}.

(** The packet sizes of the compatibility range, decided by evaluation. *)
Lemma datagram_cap_table :
  forallb (fun d => f_is_finite (f_of_Z d * f_of_Z MAX_BURST_DATAGRAMS)%f64 &&
                    (f_of_Z d <=? f_of_Z d * f_of_Z MAX_BURST_DATAGRAMS)%f64 &&
                    (f_of_Z d * f_of_Z MAX_BURST_DATAGRAMS <=? f_of_Z (4 * d))%f64) (seqZ 1229 772) = true.
Proof. vm_compute. reflexivity. Qed.

Lemma request_table : forallb (fun b => f_is_finite (f_of_Z b)) (seqZ 0 2001) = true.
Proof. vm_compute. reflexivity. Qed.

Lemma forallb_seqZ (P : Z -> bool) lo n : forallb P (seqZ lo n) = true -> forall x, lo <= x < lo + n -> P x = true.
Proof. rewrite forallb_forall. intros H x Hx. apply H, list_elem_of_In, elem_of_seqZ. lia. Qed.

Lemma request_finite b : 0 <= b <= 2000 -> f_is_finite (f_of_Z b) = true.
Proof. intros H. apply (forallb_seqZ _ _ _ request_table). lia. Qed.

Lemma datagram_cap d : 1229 <= d <= 2000 ->
  f_is_nan (f_of_Z d * f_of_Z MAX_BURST_DATAGRAMS)%f64 = false /\
  (f_of_Z d <=? f_of_Z d * f_of_Z MAX_BURST_DATAGRAMS)%f64 = true /\
  (f_of_Z d * f_of_Z MAX_BURST_DATAGRAMS <=? f_of_Z (4 * d))%f64 = true.
Proof.
  intros H. pose proof (forallb_seqZ _ _ _ datagram_cap_table d ltac:(lia)) as E.
  cbv beta in E. bool_prop. auto using f_finite_num.
Qed.

Lemma capacity_num p : Pacer_ok p -> f_is_nan (capacity p) = false.
Proof.
  intros [Hc Hd _]. unfold capacity. case_match; [|done]. rewrite Hc. apply f_min_num, (datagram_cap _ Hd).
Qed.

Lemma capacity_bounds p bpm :
  Pacer_ok p -> bytes_per_ms (p_rate_mbps p) = Some bpm ->
  (f_of_Z (p_datagram_bytes p) <=? capacity p)%f64 = true /\ (capacity p <=? f_of_Z (4 * p_datagram_bytes p))%f64 = true.
Proof.
  intros [Hc Hd _] Hb. destruct (datagram_cap _ Hd) as (Hn & H1 & H2). unfold capacity. rewrite Hb, Hc.
  change (max_burst_datagrams compatibility_default) with MAX_BURST_DATAGRAMS. split.
  - apply f_min_glb; [|done]. apply f_max_ge_r, f_of_Z_num.
  - eapply f_leb_trans; [|exact H2]. by apply f_min_le_r.
Qed.

Lemma refill_ok p now : Pacer_ok p -> Pacer_ok (refill p now).
Proof.
  intros H. pose proof (capacity_num p H) as Hc. unfold refill.
  repeat case_match; try done; destruct H; constructor; cbn; try done. by apply f_min_num.
Qed.

(** Credit after a refill is what the query without mutation reports. *)
Lemma refill_available p now : enabled p = true -> p_tokens_bytes (refill p now) = available p now.
Proof.
  intros He. unfold refill, available. rewrite He.
  destruct (f_is_finite now), (f_is_finite (p_last_ms p)); cbn [negb orb]; try done.
  destruct (now <=? p_last_ms p)%f64; [done|]. by destruct (bytes_per_ms _).
Qed.

Lemma pacer_step_ok p op : Pacer_ok p -> pacer_op_ok op -> Pacer_ok (pacer_step p op).
Proof.
  intros H Hop. destruct op as [now rate|bytes|now bytes]; cbn [pacer_step].
  - pose proof (refill_ok p now H) as [Hc Hd Ht]. unfold set_rate.
    destruct (bytes_per_ms rate) as [bpm|]; [|constructor; done].
    assert (H1 : Pacer_ok (refill p now <| p_rate_mbps := rate |>)) by (constructor; done).
    destruct (negb _); constructor; cbn; try done; [|apply f_min_num]; apply (capacity_num _ H1).
  - unfold set_datagram_size. rewrite (pk_config p H). destruct (negb _) eqn:E; [done|]. bool_prop. cbn in *.
    assert (HP : Pacer_ok (p <| p_datagram_bytes := bytes |>)) by (destruct H; constructor; cbn; try done; lia).
    pose proof (capacity_num _ HP) as Hcap.
    destruct (enabled _); [|done]. destruct HP as [Hc Hd Ht]. constructor; cbn; try done. apply f_min_num. exact Hcap.
  - unfold try_consume. destruct (bytes =? 0); [done|]. destruct (negb (enabled p)); [done|]. cbv zeta.
    pose proof (refill_ok p now H) as H1. destruct (_ <? _)%f64; [done|]. destruct H1 as [Hc Hd Ht].
    constructor; cbn; try done. apply f_sub_num; [done|]. by apply request_finite.
Qed.

Lemma pacer_steps_ok ops p : Pacer_ok p -> Forall pacer_op_ok ops -> Pacer_ok (fold_left pacer_step ops p).
Proof. intros H Hops. revert p H. induction Hops; cbn; intros; [done|]. auto using pacer_step_ok. Qed.

Lemma pacer_new_ok now : Pacer_ok (pacer_new now).
Proof. constructor; cbn; (done || lia). Qed.

(** The pacer never lets more than its burst through at once: after any
    sequence of rate changes, datagram-size changes and packet-sized requests,
    the credit ceiling of an enabled pacer lies between one and four datagrams;
    the non-mutating query answers exactly as the consuming call would; a
    request granted on a forward clock is at most the ceiling; a refused request
    leaves the credit where the refill put it; and a timestamp that is not
    finite or not ahead of the last one changes nothing. *)
Theorem pacer_burst_bounded start ops now bytes :
  Forall pacer_op_ok ops -> 0 < bytes <= 2000 ->
  let p := fold_left pacer_step ops (pacer_new start) in
  (forall bpm, bytes_per_ms (p_rate_mbps p) = Some bpm ->
     (f_of_Z (p_datagram_bytes p) <=? capacity p)%f64 = true /\
     (capacity p <=? f_of_Z (4 * p_datagram_bytes p))%f64 = true) /\
  (try_consume p now bytes).2 = can_consume p now bytes /\
  (enabled p = true -> (p_last_ms p <? now)%f64 = true -> f_is_finite now = true -> f_is_finite (p_last_ms p) = true ->
   bytes_per_ms (p_rate_mbps p) <> None -> can_consume p now bytes = true -> (f_of_Z bytes <=? capacity p)%f64 = true) /\
  (can_consume p now bytes = false -> (try_consume p now bytes).1 = refill p now) /\
  (f_is_finite now = false \/ (f_is_finite (p_last_ms p) = true /\ (now <=? p_last_ms p)%f64 = true) -> refill p now = p).
Proof.
  intros Hops Hb p. pose proof (pacer_steps_ok ops _ (pacer_new_ok start) Hops) as Hp. fold p in Hp.
  assert (Hbz : (bytes =? 0) = false) by (apply Z.eqb_neq; lia).
  assert (Hq : (try_consume p now bytes).2 = can_consume p now bytes /\
               (can_consume p now bytes = false -> (try_consume p now bytes).1 = refill p now)).
  { unfold try_consume, can_consume. rewrite Hbz, orb_false_r. destruct (enabled p) eqn:He; [|done]. cbn [negb].
    pose proof (pk_tokens _ (refill_ok p now Hp)) as Hn. rewrite (refill_available p now He) in *.
    destruct (available p now <? f_of_Z bytes)%f64 eqn:El.
    - by rewrite (f_ltb_not_leb _ _ El).
    - rewrite (f_ltb_false _ _ Hn (f_of_Z_num _) El). done. }
  split; [intros; by eapply capacity_bounds|]. split; [apply Hq|]. split; [|split; [apply Hq|]].
  - intros He Hlt Hfn Hfl Hbpm Hcan. unfold can_consume in Hcan. rewrite He, Hbz in Hcan. cbn [negb orb] in Hcan.
    eapply f_leb_trans; [exact Hcan|]. unfold available. rewrite He, Hfn, Hfl, (f_ltb_not_leb _ _ Hlt). cbn [negb orb].
    destruct (bytes_per_ms _); [|done]. by apply f_min_le_r, capacity_num.
  - intros [Hf|[Hf Hle]]; unfold refill; rewrite Hf; cbn [negb]; [done|]. rewrite Hle. by destruct (f_is_finite now).
Qed.

Lemma pacer_burst_bounded_witness :
  let p := fold_left pacer_step [PSetRate f_zero (f_of_Z 50)] (pacer_new f_zero) in
  can_consume p (f_of_Z 1) 1229 = true /\ (f_of_Z 1229 <=? capacity p)%f64 = true.
Proof.
  cbv zeta. split; [vm_compute; reflexivity|].
  refine (proj1 (proj2 (proj2 (pacer_burst_bounded f_zero [PSetRate f_zero (f_of_Z 50)] (f_of_Z 1) 1229 _ _))) _ _ _ _ _ _).
  - by repeat constructor.
  - lia.
  - vm_compute; reflexivity.
  - vm_compute; reflexivity.
  - vm_compute; reflexivity.
  - vm_compute; reflexivity.
  - by vm_compute.
  - vm_compute; reflexivity.
Defined.

(** ** Controller: bounds and schedule *)

Inductive controller_op :=
  | CTick (window stale : Z) (measured_mbps : f64)
  | CBounds (min_mbps max_mbps : f64).

Definition controller_step (c : Controller) (op : controller_op) : Controller :=
  match op with
  | CTick window stale measured => (tick c window stale measured).1
  | CBounds lo hi => set_bounds c lo hi
  end.

(** Bounds a caller may set: ordered, hence numbers. *)
Definition controller_op_ok (op : controller_op) : Prop :=
  match op with CBounds lo hi => (lo <=? hi)%f64 = true | _ => True end.

Record Controller_ok (c : Controller) : Prop := {
  ck_bounds : (c_min_mbps c <=? c_max_mbps c)%f64 = true;
  ck_current : f_is_nan (c_current_mbps c) = false;
  ck_peak : f_is_nan (c_peak_mbps c) = false;
  ck_step : 1 <= c_step c;
}.

Lemma step_table : forallb (fun k => f_is_finite (f_of_Z k * INCREASE_STEP_MBPS)%f64) (seqZ 1 5) = true.
Proof. vm_compute. reflexivity. Qed.

Lemma tick_ok c w s m : Controller_ok c -> Controller_ok (tick c w s m).1.
Proof.
  intros [Hb Hc Hp Hs]. destruct (f_leb_num _ _ Hb) as [Hlo Hhi]. unfold tick. cbn [fst].
  destruct (is_congested c w s); cbv zeta; cbn.
  - case_match; constructor; cbn; try done; apply f_mul_num; done.
  - case_match; [|constructor; done]. destruct (c_reset_pending c); [constructor; done|].
    pose proof (forallb_seqZ _ _ _ step_table (Z.min (c_step c) STEP_CAP) ltac:(unfold STEP_CAP; lia)) as Hst. cbv beta in Hst.
    destruct (c_peak_mbps c <? m)%f64 eqn:E; constructor; cbn; try done; try (by apply f_add_num);
      try (unfold saturating_add, U32_MAX, STEP_GROWTH; lia). apply f_ltb_num in E as [_ E]. done.
Qed.

Lemma set_bounds_ok c lo hi : Controller_ok c -> (lo <=? hi)%f64 = true -> Controller_ok (set_bounds c lo hi).
Proof.
  intros [Hb Hc Hp Hs] Hlh. destruct (f_leb_num _ _ Hlh). unfold set_bounds. cbn.
  destruct (hi <? c_current_mbps c)%f64; cbn; destruct (hi <? c_peak_mbps c)%f64; constructor; done.
Qed.

Lemma controller_steps_ok ops c :
  Controller_ok c -> Forall controller_op_ok ops -> Controller_ok (fold_left controller_step ops c).
Proof.
  intros H Hops. revert c H. induction Hops as [|op ops Ho _ IH]; cbn; intros c H; [done|]. apply IH.
  destruct op; [by apply tick_ok|by apply set_bounds_ok].
Qed.

Lemma controller_new_ok l lo hi : (lo <=? hi)%f64 = true -> Controller_ok (controller_new l lo hi).
Proof. intros H. destruct (f_leb_num _ _ H). constructor; cbn; (done || lia). Qed.

Lemma tick_bounds c w s m :
  c_min_mbps (tick c w s m).1 = c_min_mbps c /\ c_max_mbps (tick c w s m).1 = c_max_mbps c.
Proof.
  unfold tick. cbn [fst]. destruct (is_congested c w s); cbv zeta; cbn; case_match; try done.
  destruct (c_reset_pending c); [done|]. by destruct (c_peak_mbps c <? m)%f64.
Qed.

(** The controller never panics and never leaves its bounds: whatever
    windows, stale counts, throughput samples (NaN and infinities included) and
    ordered bound changes it has seen, a tick yields a rate, and the rate lies
    between the floor and the ceiling in force. *)
Theorem controller_rate_in_bounds l lo hi ops window stale measured :
  (lo <=? hi)%f64 = true -> Forall controller_op_ok ops ->
  let c := fold_left controller_step ops (controller_new l lo hi) in
  exists rate, (tick c window stale measured).2 = Some rate /\
    (c_min_mbps c <=? rate)%f64 = true /\ (rate <=? c_max_mbps c)%f64 = true.
Proof.
  intros Hlh Hops c. pose proof (controller_steps_ok ops _ (controller_new_ok l lo hi Hlh) Hops) as Hc. fold c in Hc.
  pose proof (tick_ok c window stale measured Hc) as [Hb Hcur _ _]. destruct (tick_bounds c window stale measured) as [Elo Ehi].
  assert (E : (tick c window stale measured).2 = rate_mbps (tick c window stale measured).1) by done.
  rewrite E. unfold rate_mbps. rewrite Hb. eexists. split; [done|].
  pose proof (f_clamp_range _ _ _ Hcur Hb) as Hr. by rewrite <- Elo, <- Ehi.
Qed.

Lemma controller_rate_in_bounds_witness :
  exists rate, (tick (controller_new 1 (f_of_Z 2) (f_of_Z 20)) 200 100 f_nan).2 = Some rate /\ (f_of_Z 2 <=? rate)%f64 = true.
Proof.
  destruct (controller_rate_in_bounds 1 (f_of_Z 2) (f_of_Z 20) [] 200 100 f_nan ltac:(vm_compute; reflexivity) ltac:(constructor))
    as (rate & H & Hlo & _). exists rate. split; [exact H|exact Hlo].
Defined.

(** [n] ticks with the same observation. *)
Definition ticks (n : nat) (window stale : Z) (measured : f64) (c : Controller) : Controller :=
  Nat.iter n (fun c => (tick c window stale measured).1) c.

Lemma tick_congested c w s m :
  is_congested c w s = true ->
  let c' := (tick c w s m).1 in
  c_level c' = c_level c /\ c_decrease_ticks c' = wrapping_add32 (c_decrease_ticks c) 1 /\
  (c_decrease_ticks c mod DECREASE_PERIOD = 0 ->
     c_total_decreases c' = saturating_add U32_MAX (c_total_decreases c) 1 /\
     c_peak_mbps c' = (c_peak_mbps c * DECREASE_FACTOR)%f64 /\ c_current_mbps c' = c_peak_mbps c') /\
  (c_decrease_ticks c mod DECREASE_PERIOD <> 0 ->
     c_total_decreases c' = c_total_decreases c /\ c_peak_mbps c' = c_peak_mbps c /\ c_current_mbps c' = c_current_mbps c).
Proof.
  intros H. unfold tick. rewrite H. cbn. destruct (Z.eqb_spec (c_decrease_ticks c mod DECREASE_PERIOD) 0); cbn; repeat split; done.
Qed.

(** Decreases are spaced: under uninterrupted congestion the first tick
    cuts the rate and then every sixtieth does, so [n] ticks make exactly
    [ceil(n / 60)] cuts, the peak is the initial peak with that many factors of
    0.7 applied, and from the first tick on the current rate equals the peak. *)
Theorem decrease_schedule c window stale measured (n : nat) :
  is_congested c window stale = true -> c_decrease_ticks c = 0 -> c_total_decreases c = 0 ->
  Z.of_nat n < U32_MAX ->
  let c' := ticks n window stale measured c in
  let cuts := (Z.of_nat n + 59) / 60 in
  c_decrease_ticks c' = Z.of_nat n /\ c_total_decreases c' = cuts /\
  c_peak_mbps c' = Nat.iter (Z.to_nat cuts) (fun x => (x * DECREASE_FACTOR)%f64) (c_peak_mbps c) /\
  (n <> O -> c_current_mbps c' = c_peak_mbps c').
Proof.
  intros Hcon Hd Ht Hn. cbv zeta.
  assert (Hgen : c_level (ticks n window stale measured c) = c_level c /\
    c_decrease_ticks (ticks n window stale measured c) = Z.of_nat n /\
    c_total_decreases (ticks n window stale measured c) = (Z.of_nat n + 59) / 60 /\
    c_peak_mbps (ticks n window stale measured c) =
      Nat.iter (Z.to_nat ((Z.of_nat n + 59) / 60)) (fun x => (x * DECREASE_FACTOR)%f64) (c_peak_mbps c) /\
    (n <> O -> c_current_mbps (ticks n window stale measured c) = c_peak_mbps (ticks n window stale measured c))).
  2: { tauto. }
  induction n as [|n IH]; [by repeat split|].
  destruct IH as (Hl & Hdec & Htot & Hpk & Hcur); [lia|].
  change (ticks (S n) window stale measured c) with (tick (ticks n window stale measured c) window stale measured).1.
  set (c1 := ticks n window stale measured c) in *.
  assert (Hcon1 : is_congested c1 window stale = true) by (unfold is_congested in *; by rewrite Hl).
  destruct (tick_congested c1 window stale measured Hcon1) as (Hl' & Hd' & Hact & Hskip).
  rewrite Hdec in *. unfold DECREASE_PERIOD in *. unfold U32_MAX in *.
  split; [congruence|]. split.
  { rewrite Hd'. unfold wrapping_add32. rewrite wrap32_small by (unfold M32; lia). lia. }
  pose proof (Z.div_mod (Z.of_nat n + 59) 60 ltac:(lia)). pose proof (Z.mod_pos_bound (Z.of_nat n + 59) 60 ltac:(lia)).
  pose proof (Z.div_mod (Z.of_nat (S n) + 59) 60 ltac:(lia)). pose proof (Z.mod_pos_bound (Z.of_nat (S n) + 59) 60 ltac:(lia)).
  pose proof (Z.div_mod (Z.of_nat n) 60 ltac:(lia)). pose proof (Z.mod_pos_bound (Z.of_nat n) 60 ltac:(lia)).
  destruct (Z.eq_dec (Z.of_nat n mod 60) 0) as [Hz|Hz].
  - assert (Hq : (Z.of_nat (S n) + 59) / 60 = (Z.of_nat n + 59) / 60 + 1) by lia.
    destruct (Hact Hz) as (-> & -> & ->). rewrite Hq, Htot, Hpk. unfold saturating_add. repeat split; [lia|].
    replace (Z.to_nat ((Z.of_nat n + 59) / 60 + 1)) with (S (Z.to_nat ((Z.of_nat n + 59) / 60))) by lia. done.
  - assert (Hq : (Z.of_nat (S n) + 59) / 60 = (Z.of_nat n + 59) / 60) by lia.
    destruct (Hskip Hz) as (-> & -> & ->). rewrite Hq. repeat split; try done. intros _. apply Hcur. intros ->. done.
Qed.

Lemma decrease_schedule_witness :
  c_total_decreases (ticks 61 200 100 f_zero (controller_new 1 (f_of_Z 2) (f_of_Z 20))) = 2.
Proof.
  refine (proj1 (proj2 (decrease_schedule (controller_new 1 (f_of_Z 2) (f_of_Z 20)) 200 100 f_zero 61 _ _ _ _)));
    vm_compute; reflexivity.
Defined.
