(* ===== verification/SendRing.v ===== *)
(** * Send ring, retransmission and the staleness scan ([core/src/send.rs])

    One channel's send window: fragments are written into slots by [enqueue],
    released by the scan [poll_send] under the outstanding cap, retransmitted on
    a timeout or once on a negative acknowledgement, and retired by [on_ack].
    Loops that walk a cursor to a bound are structural in the serial distance
    left; [poll_loop_unfold] shows the scan is the source's [while] loop. *)

From S2P Require Import Prelude F64 Seq Packet Message RecvRing Policy.

Definition OUTSTANDING_CAP : Z := WINDOW_FLOOR.
Definition RTO_FLOOR_MS : f64 := f_of_Z 50.
Definition RTO_CEILING_MS : f64 := f_of_Z 1000.
Definition RTO_GRACE_MS : f64 := f_of_Z 30.
Definition SLOT_BUDGET_MS : f64 := f_of_Z 100.

Record SendSlot := mkSendSlot {
  ss_len : Z;
  ss_occupied : bool;
  ss_last : bool;
  ss_sent : bool;
  ss_nack_resent : bool;
  ss_retransmits : Z;
  ss_first_sent_ms : f64;
  ss_last_sent_ms : f64;
  ss_acked_accounted : bool;
}.

#[export] Instance eta_SendSlot : Eta SendSlot := fun s =>
  mkSendSlot (ss_len s) (ss_occupied s) (ss_last s) (ss_sent s) (ss_nack_resent s)
    (ss_retransmits s) (ss_first_sent_ms s) (ss_last_sent_ms s) (ss_acked_accounted s).

Definition SendSlot_default : SendSlot :=
  mkSendSlot 0 false false false false 0 f_zero f_zero false.

Record SendRing := mkSendRing {
  sr_bodies : list Z;
  sr_meta : list SendSlot;
  sr_slot_len : Z;
  sr_fragment_capacity : Z;
  sr_channel : Z;
  sr_base : Z;
  sr_next : Z;
  sr_cursor : Z;
  sr_nack_below : option Z;
  sr_outstanding : Z;
  sr_stale : Z;
  sr_bytes_sent : Z;
  sr_acked : Z;
  sr_bytes_acked : Z;
  sr_retransmitted : Z;
}.

#[export] Instance eta_SendRing : Eta SendRing := fun s =>
  mkSendRing (sr_bodies s) (sr_meta s) (sr_slot_len s) (sr_fragment_capacity s) (sr_channel s)
    (sr_base s) (sr_next s) (sr_cursor s) (sr_nack_below s) (sr_outstanding s) (sr_stale s)
    (sr_bytes_sent s) (sr_acked s) (sr_bytes_acked s) (sr_retransmitted s).

(** [SendRing::new_with_capacity]. *)
Definition new_with_capacity (bodies : list Z) (meta : list SendSlot)
    (storage_len fragment_capacity channel : Z) : result SendRing :=
  if (storage_len =? 0) || (fragment_capacity =? 0) || (storage_len <? fragment_capacity)
     || (U16_MAX <? fragment_capacity) || (zlen meta =? 0) || (CHANNEL_COUNT <=? channel)
  then Err BadLength else
  want ← ok_or (checked_mul64 (zlen meta) storage_len) BadLength;
  if negb (zlen bodies =? want) then Err BadLength else
  Ok (mkSendRing bodies meta storage_len fragment_capacity channel 0 0 0 None 0 0 0 0 0 0).

(** [SendRing::new]. *)
Definition send_new (bodies : list Z) (meta : list SendSlot) (slot_len channel : Z) : result SendRing :=
  new_with_capacity bodies meta slot_len slot_len channel.

Definition can_set_fragment_capacity (s : SendRing) (capacity : Z) : bool :=
  (0 <? capacity) && (capacity <=? sr_slot_len s) && (capacity <=? U16_MAX) &&
  forallb (fun slot => negb (ss_occupied slot) || (ss_len slot <=? capacity)) (sr_meta s).

Definition set_fragment_capacity (s : SendRing) (capacity : Z) : SendRing * bool :=
  if negb (can_set_fragment_capacity s capacity) then (s, false)
  else (s <| sr_fragment_capacity := capacity |>, true).

(** [SendRing::in_flight]. *)
Definition in_flight (s : SendRing) : Z := wrapping_sub32 (sr_next s) (sr_base s).

Definition discard_pending (s : SendRing) : SendRing * Z :=
  let dropped := in_flight s in
  (s <| sr_meta := map (fun _ => SendSlot_default) (sr_meta s) |>
     <| sr_base := sr_next s |> <| sr_cursor := sr_next s |> <| sr_nack_below := None |>
     <| sr_outstanding := 0 |> <| sr_stale := 0 |>, dropped).

Definition window_free (s : SendRing) : Z :=
  let depth := default U32_MAX (try_from U32_MAX (zlen (sr_meta s))) in
  saturating_sub depth (in_flight s).

Definition next_sequence (s : SendRing) : Z := sr_next s.

(** [SendRing::index]. *)
Definition sindex (s : SendRing) (sequence : Z) : Z := sequence mod zlen (sr_meta s).

(** [2.0 * f64::from(u32::from(retransmits) + 1) * srtt_ms], clamped, plus the
    grace. *)
Definition rto_ms (retransmits : Z) (srtt_ms : f64) : f64 :=
  let scaled := (f_of_Z 2 * f_of_Z (retransmits + 1) * srtt_ms)%f64 in
  (f_clamp scaled RTO_FLOOR_MS RTO_CEILING_MS + RTO_GRACE_MS)%f64.

(** The negative-acknowledgement test shared by [next_due_len] and [poll_send]. *)
Definition is_nacked (nack_below : option Z) (sequence : Z) (slot : SendSlot) : bool :=
  match nack_below with
  | Some below => Seq.lt sequence below && negb (ss_nack_resent slot)
  | None => false
  end.

(** [SendRing::next_due_len], a walk of [fuel] steps from [cursor]. *)
Fixpoint due_loop (fuel : nat) (s : SendRing) (now_ms srtt_ms : f64) (cursor : Z) : option Z :=
  match fuel with
  | O => None
  | S fuel =>
      let sequence := cursor in
      match get (sr_meta s) (sindex s sequence) with
      | None => due_loop fuel s now_ms srtt_ms (wrapping_add32 cursor 1)
      | Some slot =>
          if negb (ss_occupied slot) then due_loop fuel s now_ms srtt_ms (wrapping_add32 cursor 1) else
          if OUTSTANDING_CAP <=? sr_outstanding s then None else
          let age := (now_ms - ss_last_sent_ms slot)%f64 in
          let nacked := is_nacked (sr_nack_below s) sequence slot in
          let due := negb (ss_sent slot) || nacked || (age >? rto_ms (ss_retransmits slot) srtt_ms)%f64 in
          if due then checked_add64 HEADER_LEN (ss_len slot)
          else due_loop fuel s now_ms srtt_ms (wrapping_add32 cursor 1)
      end
  end.

Definition next_due_len (s : SendRing) (now_ms srtt_ms : f64) (_level_index : Z) : option Z :=
  due_loop (Z.to_nat (distance (sr_cursor s) (sr_next s))) s now_ms srtt_ms (sr_cursor s).

(** The body of [enqueue]'s loop for one fragment index. *)
Definition enqueue_one (s : SendRing) (message : Message) (capacity index : Z) : SendRing * result unit :=
  match try_from U32_MAX index with
  | None => (s, Err BadLength)
  | Some step =>
      let sequence := wrapping_add32 (sr_next s) step in
      let slot := sindex s sequence in
      match checked_mul64 slot (sr_slot_len s) with
      | None => (s, Err BadLength)
      | Some start =>
          match slice (sr_bodies s) start (start + sr_slot_len s) with
          | None => (s, Err BadLength)
          | Some region =>
              let '(region, r) := fragment message index capacity region in
              let s := s <| sr_bodies := default (sr_bodies s) (write (sr_bodies s) start region) |> in
              match r with
              | None => (s, Err BadLength)
              | Some (Err e) => (s, Err e)
              | Some (Ok frag) =>
                  match get (sr_meta s) slot, try_from U16_MAX (frag_len frag) with
                  | Some _, Some len =>
                      (s <| sr_meta := set_at (sr_meta s) slot
                              (SendSlot_default <| ss_len := len |> <| ss_occupied := true |>
                                                <| ss_last := frag_last frag |>) |>, Ok tt)
                  | _, _ => (s, Err BadLength)
                  end
              end
          end
      end
  end.

Fixpoint enqueue_loop (s : SendRing) (message : Message) (capacity : Z) (indices : list Z)
  : SendRing * result unit :=
  match indices with
  | [] => (s, Ok tt)
  | index :: indices =>
      match enqueue_one s message capacity index with
      | (s, Ok _) => enqueue_loop s message capacity indices
      | (s, Err e) => (s, Err e)
      end
  end.

Definition enqueue (s : SendRing) (message : Message) : SendRing * result Z :=
  let capacity := sr_fragment_capacity s in
  let fragments := message_fragment_count message capacity in
  if window_free s <? fragments then (s, Err BufferTooSmall) else
  match enqueue_loop s message capacity (seqZ 0 fragments) with
  | (s, Err e) => (s, Err e)
  | (s, Ok _) =>
      match try_from U32_MAX fragments with
      | None => (s, Err BadLength)
      | Some count => (s <| sr_next := wrapping_add32 (sr_next s) count |>, Ok count)
      end
  end.

(** The accounting loop of [on_ack], [n] slots from [sequence]. *)
Fixpoint account (n : nat) (s : SendRing) (sequence : Z) : SendRing :=
  match n with
  | O => s
  | S n =>
      let index := sindex s sequence in
      let s :=
        match get (sr_meta s) index with
        | Some slot =>
            if ss_sent slot && negb (ss_acked_accounted slot)
            then s <| sr_meta := set_at (sr_meta s) index (slot <| ss_acked_accounted := true |>) |>
                   <| sr_bytes_acked := saturating_add U64_MAX (sr_bytes_acked s) (ss_len slot) |>
            else s
        | None => s
        end in
      account n s (wrapping_add32 sequence 1)
  end.

(** The first half of [on_ack]: the cumulative value. *)
Definition ack_cumulative_step (s : SendRing) (cumulative : Z) : SendRing :=
  if Seq.gt cumulative (sr_base s) && Seq.le cumulative (sr_next s) then
    let s := account (Z.to_nat (distance (sr_base s) cumulative)) s (sr_base s) in
    let s := s <| sr_acked := saturating_add U64_MAX (sr_acked s) (wrapping_sub32 cumulative (sr_base s)) |> in
    let s := s <| sr_base := cumulative |> in
    if Seq.lt (sr_cursor s) (sr_base s) then s <| sr_cursor := sr_base s |> else s
  else s.

Definition on_ack (s : SendRing) (ack : Ack) (now_ms : f64) : SendRing * option f64 :=
  let previous := sr_base s in
  let cumulative :=
    match get (ack_cumulative ack) (sr_channel s) with
    | Some c => if sr_channel s <? ack_reported ack then c else sr_base s
    | None => sr_base s
    end in
  let s := ack_cumulative_step s cumulative in
  let s :=
    if ack_nack ack && (trigger_channel ack =? sr_channel s)
    then s <| sr_nack_below := Some (trigger_seq ack) |> else s in
  if negb (trigger_channel ack =? sr_channel s) then (s, None) else
  if Seq.lt (trigger_seq ack) previous || Seq.ge (trigger_seq ack) (sr_next s) then (s, None) else
  let index := sindex s (trigger_seq ack) in
  match get (sr_meta s) index with
  | None => (s, None)
  | Some slot =>
      if negb (ss_occupied slot) || negb (ss_sent slot) then (s, None) else
      let sample := (now_ms - ss_first_sent_ms slot)%f64 in
      let s := s <| sr_meta := set_at (sr_meta s) index (slot <| ss_occupied := false |>) |> in
      (s, if f_is_finite sample && (sample >=? f_zero)%f64 then Some sample else None)
  end.

Definition classify (s : SendRing) (index : Z) (now_ms srtt_ms : f64) (level : Level) : SendRing :=
  match get (sr_meta s) index with
  | None => s
  | Some slot =>
      if negb (ss_occupied slot) then s else
      let age := (now_ms - ss_last_sent_ms slot)%f64 in
      let threshold := (rtt_mult level * srtt_ms + base_ms level)%f64 in
      let is_stale :=
        (age >? threshold)%f64
        || (srtt_ms >? rtt_mult level * SLOT_BUDGET_MS + base_ms level)%f64
        || (0 <? ss_retransmits slot) || ss_nack_resent slot || negb (ss_sent slot) in
      if is_stale then s <| sr_stale := saturating_add U32_MAX (sr_stale s) 1 |> else s
  end.

(** What committing an emission does to its slot. *)
Definition mark_sent (entry : SendSlot) (nacked : bool) (now_ms : f64) : SendSlot :=
  let entry :=
    if ss_sent entry then
      if nacked then entry <| ss_nack_resent := true |>
      else entry <| ss_retransmits := saturating_add U16_MAX (ss_retransmits entry) 1 |>
    else entry <| ss_sent := true |> <| ss_first_sent_ms := now_ms |> in
  entry <| ss_last_sent_ms := now_ms |>.

Definition advance_cursor (s : SendRing) : SendRing :=
  s <| sr_cursor := wrapping_add32 (sr_cursor s) 1 |>.

(** Emitting the due fragment at [sequence]: the part of [poll_send] from the
    encode on. *)
Definition emit (s : SendRing) (sequence index : Z) (slot : SendSlot) (nacked : bool)
    (now_ms srtt_ms : f64) (level : Level) (out : list Z) : SendRing * list Z * option (result Z) :=
  match checked_mul64 index (sr_slot_len s) with
  | None => (s, out, None)
  | Some start =>
      match stop ← checked_add64 start (ss_len slot); slice (sr_bodies s) start stop with
      | None => (s, out, None)
      | Some body =>
          match encode_data out (mkData (sr_channel s) sequence (ss_last slot) body) with
          | (out, Err error) => (s, out, Some (Err error))
          | (out, Ok written) =>
              match get (sr_meta s) index with
              | None => (s, out, Some (Err BadLength))
              | Some entry =>
                  let was_sent := ss_sent entry in
                  let s := s <| sr_meta := set_at (sr_meta s) index (mark_sent entry nacked now_ms) |> in
                  let s := s <| sr_outstanding := saturating_add U32_MAX (sr_outstanding s) 1 |> in
                  let s := s <| sr_bytes_sent := saturating_add U64_MAX (sr_bytes_sent s) (ss_len slot) |> in
                  let s := if was_sent
                           then s <| sr_retransmitted := saturating_add U64_MAX (sr_retransmitted s) 1 |> else s in
                  let s := classify s index now_ms srtt_ms level in
                  (advance_cursor s, out, Some (Ok written))
              end
          end
      end
  end.

(** The scan of [poll_send]; out of fuel is [cursor == next], where the pass
    completes. *)
Fixpoint poll_loop (fuel : nat) (s : SendRing) (now_ms srtt_ms : f64) (level : Level) (out : list Z)
  : SendRing * list Z * option (result Z) :=
  match fuel with
  | O => (s <| sr_nack_below := None |> <| sr_cursor := sr_base s |>, out, None)
  | S fuel =>
      let sequence := sr_cursor s in
      let index := sindex s sequence in
      match get (sr_meta s) index with
      | None => poll_loop fuel (advance_cursor s) now_ms srtt_ms level out
      | Some slot =>
          if negb (ss_occupied slot) then poll_loop fuel (advance_cursor s) now_ms srtt_ms level out else
          if OUTSTANDING_CAP <=? sr_outstanding s then
            poll_loop fuel (advance_cursor (classify s index now_ms srtt_ms level)) now_ms srtt_ms level out
          else
          let age := (now_ms - ss_last_sent_ms slot)%f64 in
          let nacked := is_nacked (sr_nack_below s) sequence slot in
          let due := if negb (ss_sent slot) then true else if nacked then true
                     else (age >? rto_ms (ss_retransmits slot) srtt_ms)%f64 in
          if negb due then
            let s := if (0 <? ss_retransmits slot) || ss_nack_resent slot
                     then s <| sr_outstanding := saturating_add U32_MAX (sr_outstanding s) 1 |> else s in
            poll_loop fuel (advance_cursor (classify s index now_ms srtt_ms level)) now_ms srtt_ms level out
          else emit s sequence index slot nacked now_ms srtt_ms level out
      end
  end.

Definition poll_send (s : SendRing) (now_ms srtt_ms : f64) (level_index : Z) (out : list Z)
  : SendRing * list Z * option (result Z) :=
  poll_loop (Z.to_nat (distance (sr_cursor s) (sr_next s))) s now_ms srtt_ms (level level_index) out.

Definition begin_pass (s : SendRing) : SendRing :=
  s <| sr_outstanding := 0 |> <| sr_stale := 0 |> <| sr_cursor := sr_base s |>.

(** ** Invariant *)

(** Slots of the ring. *)
Definition sslots (s : SendRing) : Z := zlen (sr_meta s).

(** The storage geometry [new_with_capacity] establishes. *)
Record Geometry (s : SendRing) : Prop := {
  ge_cap : 0 < sr_fragment_capacity s <= sr_slot_len s;
  ge_cap16 : sr_fragment_capacity s <= U16_MAX;
  ge_channel : 0 <= sr_channel s < CHANNEL_COUNT;
  ge_slots : 0 < sslots s < 2147483648;
  ge_bodies : zlen (sr_bodies s) = sslots s * sr_slot_len s;
  ge_max : sslots s * sr_slot_len s <= U64_MAX;
  ge_bytes : bytes_ok (sr_bodies s);
  ge_len : forall i slot, get (sr_meta s) i = Some slot -> 0 <= ss_len slot <= sr_slot_len s;
}.

(** The ring at absolute positions: [b] acknowledged up to, [c] scanned up to,
    [n] assigned up to. *)
Record SRep (s : SendRing) (b c n : Z) : Prop := {
  sp_geo : Geometry s;
  sp_reg : regular (sslots s) b;
  sp_order : b <= c <= n;
  sp_span : n <= b + sslots s;
  sp_base : sr_base s = wrap32 b;
  sp_cursor : sr_cursor s = wrap32 c;
  sp_next : sr_next s = wrap32 n;
}.

(** What the scan never touches. *)
Definition scan_frame (s s' : SendRing) : Prop :=
  sr_bodies s' = sr_bodies s /\ sr_slot_len s' = sr_slot_len s /\
  sr_fragment_capacity s' = sr_fragment_capacity s /\ sr_channel s' = sr_channel s /\
  sr_base s' = sr_base s /\ sr_next s' = sr_next s /\
  sr_acked s' = sr_acked s /\ sr_bytes_acked s' = sr_bytes_acked s.

Lemma classify_frame s i now srtt lvl :
  let s' := classify s i now srtt lvl in
  scan_frame s s' /\ sr_meta s' = sr_meta s /\ sr_cursor s' = sr_cursor s /\ sr_nack_below s' = sr_nack_below s /\
  sr_outstanding s' = sr_outstanding s /\ sr_bytes_sent s' = sr_bytes_sent s /\ sr_retransmitted s' = sr_retransmitted s.
Proof. unfold classify, scan_frame. cbv zeta. repeat case_match; cbn; tauto. Qed.

Lemma sp_index s b c n p : SRep s b c n -> b <= p < b + sslots s -> sindex s (wrap32 p) = p mod sslots s.
Proof. intros [] Hp. unfold sindex. fold (sslots s). apply (regular_index _ b); [apply sp_geo0|done|done]. Qed.

Lemma sp_slot s b c n p : SRep s b c n -> exists slot, get (sr_meta s) (p mod sslots s) = Some slot.
Proof. intros []. apply get_some. unfold sslots. apply Z.mod_pos_bound, sp_geo0. Qed.

(** The bytes a slot holds. *)
Definition slot_bytes (s : SendRing) (p : Z) (slot : SendSlot) : list Z :=
  take (Z.to_nat (ss_len slot)) (drop (Z.to_nat (p mod sslots s * sr_slot_len s)) (sr_bodies s)).

Lemma slot_bytes_slice s p slot :
  Geometry s -> get (sr_meta s) (p mod sslots s) = Some slot ->
  checked_mul64 (p mod sslots s) (sr_slot_len s) = Some (p mod sslots s * sr_slot_len s) /\
  checked_add64 (p mod sslots s * sr_slot_len s) (ss_len slot) = Some (p mod sslots s * sr_slot_len s + ss_len slot) /\
  slice (sr_bodies s) (p mod sslots s * sr_slot_len s) (p mod sslots s * sr_slot_len s + ss_len slot) =
    Some (slot_bytes s p slot) /\
  zlen (slot_bytes s p slot) = ss_len slot /\ bytes_ok (slot_bytes s p slot).
Proof.
  intros [] Hg. pose proof (ge_len0 _ _ Hg) as Hl. apply get_inv in Hg as [Hi _]. fold (sslots s) in Hi.
  assert (0 <= p mod sslots s * sr_slot_len s /\ p mod sslots s * sr_slot_len s + sr_slot_len s <= sslots s * sr_slot_len s) by nia.
  assert (Hs : slice (sr_bodies s) (p mod sslots s * sr_slot_len s) (p mod sslots s * sr_slot_len s + ss_len slot) =
    Some (slot_bytes s p slot)).
  { rewrite slice_some by lia. unfold slot_bytes. do 3 f_equal. lia. }
  rewrite checked_mul64_some, checked_add64_some by lia. split; [done|]. split; [done|]. split; [done|].
  split; [rewrite (zlen_slice _ _ _ _ Hs); lia|]. by apply (bytes_ok_slice _ _ _ _ ge_bytes0 Hs).
Qed.

(** Moving the cursor, and anything the scan leaves alone, keeps the invariant. *)
Lemma SRep_frame s s' b c n c' :
  SRep s b c n -> scan_frame s s' -> sr_meta s' = sr_meta s -> sr_cursor s' = wrap32 c' -> b <= c' <= n -> SRep s' b c' n.
Proof.
  intros [[] ? ? ? ? ? ?] (E1 & E2 & E3 & E4 & E5 & E6 & _) Em Ec Hc.
  constructor; [constructor|..]; unfold sslots in *; rewrite ?E1, ?E2, ?E3, ?E4, ?E5, ?E6, ?Em; try done; lia.
Qed.

Lemma SRep_set s b c n i slot :
  SRep s b c n -> 0 <= i < sslots s -> 0 <= ss_len slot <= sr_slot_len s ->
  SRep (s <| sr_meta := set_at (sr_meta s) i slot |>) b c n.
Proof.
  intros [[] ? ? ? ? ? ?] Hi Hl. unfold sslots in *.
  constructor; [constructor|..]; unfold sslots; cbn; rewrite ?zlen_set_at; try done.
  intros j slot'. rewrite get_set_at by done. case_decide; [by intros [= <-]|apply ge_len0].
Qed.

Lemma mark_sent_len e k now : ss_len (mark_sent e k now) = ss_len e.
Proof. unfold mark_sent. repeat case_match; done. Qed.

(** [due], as [poll_send] computes it. *)
Definition is_due (nack_below : option Z) (sequence : Z) (slot : SendSlot) (now_ms srtt_ms : f64) : bool :=
  if negb (ss_sent slot) then true else if is_nacked nack_below sequence slot then true
  else (now_ms - ss_last_sent_ms slot >? rto_ms (ss_retransmits slot) srtt_ms)%f64.

(** Committing an emission. *)
Lemma emit_spec s b p n slot now srtt lvl out :
  SRep s b p n -> p < n -> get (sr_meta s) (p mod sslots s) = Some slot -> 0 <= sr_outstanding s < OUTSTANDING_CAP ->
  let nacked := is_nacked (sr_nack_below s) (wrap32 p) slot in
  let d := mkData (sr_channel s) (wrap32 p) (ss_last slot) (slot_bytes s p slot) in
  let '(s', out', res) := emit s (wrap32 p) (p mod sslots s) slot nacked now srtt lvl out in
  match res with
  | None => False
  | Some (Err e) => encode_data out d = (out', Err e) /\ s' = s
  | Some (Ok w) =>
      encode_data out d = (out', Ok w) /\ SRep s' b (p + 1) n /\ scan_frame s s' /\
      sr_meta s' = set_at (sr_meta s) (p mod sslots s) (mark_sent slot nacked now) /\
      sr_outstanding s' = sr_outstanding s + 1 /\ sr_nack_below s' = sr_nack_below s /\
      sr_bytes_sent s' = saturating_add U64_MAX (sr_bytes_sent s) (ss_len slot) /\
      sr_retransmitted s' = (if ss_sent slot then saturating_add U64_MAX (sr_retransmitted s) 1 else sr_retransmitted s)
  end.
Proof.
  intros H Hp Hg Ho. cbv zeta. destruct (slot_bytes_slice s p slot (sp_geo _ _ _ _ H) Hg) as (E1 & E2 & E3 & E4 & E5).
  unfold emit. rewrite E1, E2. cbn [mbind option_bind]. rewrite E3.
  destruct (encode_data _ _) as [out' [w|e]]; [|done]. rewrite Hg. cbv zeta.
  set (nacked := is_nacked _ _ _). pose proof (get_inv _ _ _ Hg) as [Hi _].
  pose proof (ge_len _ (sp_geo _ _ _ _ H) _ _ Hg) as Hl.
  match goal with |- context [classify ?x _ _ _ _] => set (s1 := x) end.
  assert (Hs1 : SRep s1 b p n /\ scan_frame s s1 /\ sr_meta s1 = set_at (sr_meta s) (p mod sslots s) (mark_sent slot nacked now) /\
    sr_outstanding s1 = sr_outstanding s + 1 /\ sr_nack_below s1 = sr_nack_below s /\
    sr_bytes_sent s1 = saturating_add U64_MAX (sr_bytes_sent s) (ss_len slot) /\
    sr_retransmitted s1 = (if ss_sent slot then saturating_add U64_MAX (sr_retransmitted s) 1 else sr_retransmitted s) /\
    sr_cursor s1 = sr_cursor s).
  { split.
    - apply (SRep_frame (s <| sr_meta := set_at (sr_meta s) (p mod sslots s) (mark_sent slot nacked now) |>) s1 b p n p).
      + apply SRep_set; [done|done|]. by rewrite mark_sent_len.
      + subst s1. destruct (ss_sent slot); repeat split.
      + subst s1. by destruct (ss_sent slot).
      + subst s1. pose proof (sp_cursor _ _ _ _ H). by destruct (ss_sent slot).
      + pose proof (sp_order _ _ _ _ H). lia.
    - subst s1. unfold OUTSTANDING_CAP, WINDOW_FLOOR in *. unfold saturating_add at 1, U32_MAX.
      destruct (ss_sent slot); cbn; repeat split; unfold saturating_add; lia. }
  clearbody s1. destruct Hs1 as (HR & Hf & Hm & Hout & Hnb & Hbs & Hrt & Hcur).
  destruct (classify_frame s1 (p mod sslots s) now srtt lvl) as (Cf & Cm & Cc & Cn & Co & Cb & Cr).
  set (s2 := classify _ _ _ _ _) in *.
  split; [done|]. split; [|split; [|cbn; rewrite Cm, Co, Cn, Cb, Cr; tauto]].
  - apply (SRep_frame s1 _ b p n (p + 1)); [done|exact Cf|exact Cm| |pose proof (sp_order _ _ _ _ HR); lia].
    cbn. rewrite Cc, (sp_cursor _ _ _ _ HR). unfold wrapping_add32. apply wrap32_add_l.
  - unfold scan_frame in *. cbn. intuition congruence.
Qed.

(** ** The scan *)

(** Stepping over a slot: the cursor moves, the counters may. *)
Definition stepped (s s' : SendRing) : Prop :=
  scan_frame s s' /\ sr_meta s' = sr_meta s /\ sr_nack_below s' = sr_nack_below s /\
  sr_cursor s' = wrapping_add32 (sr_cursor s) 1 /\ sr_bytes_sent s' = sr_bytes_sent s /\
  sr_retransmitted s' = sr_retransmitted s /\
  (0 <= sr_outstanding s <= OUTSTANDING_CAP -> sr_outstanding s <= sr_outstanding s' <= OUTSTANDING_CAP).

Lemma stepped_advance s : stepped s (advance_cursor s).
Proof. unfold stepped, scan_frame, advance_cursor. cbn. intuition lia. Qed.

Lemma stepped_classify s i now srtt lvl : stepped s (advance_cursor (classify s i now srtt lvl)).
Proof.
  destruct (classify_frame s i now srtt lvl) as (Cf & Cm & Cc & Cn & Co & Cb & Cr).
  unfold stepped, advance_cursor, scan_frame in *. cbn. rewrite Cm, Cc, Cn, Co, Cb, Cr. intuition lia.
Qed.

Lemma stepped_count s i now srtt lvl (k : bool) :
  sr_outstanding s < OUTSTANDING_CAP ->
  stepped s (advance_cursor (classify (if k then s <| sr_outstanding := saturating_add U32_MAX (sr_outstanding s) 1 |> else s) i now srtt lvl)).
Proof.
  intros Ho. destruct k; [|apply stepped_classify].
  destruct (classify_frame (s <| sr_outstanding := saturating_add U32_MAX (sr_outstanding s) 1 |>) i now srtt lvl)
    as (Cf & Cm & Cc & Cn & Co & Cb & Cr).
  unfold stepped, advance_cursor, scan_frame in *. cbn in *. rewrite Cm, Cc, Cn, Co, Cb, Cr.
  unfold saturating_add, U32_MAX, OUTSTANDING_CAP, WINDOW_FLOOR in *. intuition lia.
Qed.

Lemma stepped_SRep s s' b c n : stepped s s' -> SRep s b c n -> c < n -> SRep s' b (c + 1) n.
Proof.
  intros (Hf & Hm & _ & Hc & _) H Hlt. apply (SRep_frame s s' b c n); [done..| |pose proof (sp_order _ _ _ _ H); lia].
  rewrite Hc, (sp_cursor _ _ _ _ H). unfold wrapping_add32. apply wrap32_add_l.
Qed.

(** One iteration of the scan: it stops at the end of the window, steps over the
    slot, or emits it. *)
Lemma poll_loop_step fuel s b c n now srtt lvl out :
  SRep s b c n -> c < n ->
  exists slot, get (sr_meta s) (c mod sslots s) = Some slot /\
  let here := ss_occupied slot && (sr_outstanding s <? OUTSTANDING_CAP) && is_due (sr_nack_below s) (wrap32 c) slot now srtt in
  (here = false -> exists s', stepped s s' /\ poll_loop (S fuel) s now srtt lvl out = poll_loop fuel s' now srtt lvl out) /\
  (here = true -> poll_loop (S fuel) s now srtt lvl out =
     emit s (wrap32 c) (c mod sslots s) slot (is_nacked (sr_nack_below s) (wrap32 c) slot) now srtt lvl out).
Proof.
  intros H Hlt. destruct (sp_slot s b c n c H) as [slot Hg]. exists slot. split; [done|]. cbv zeta.
  cbn [poll_loop]. rewrite (sp_cursor _ _ _ _ H), (sp_index s b c n) by (done || (pose proof (sp_order _ _ _ _ H); pose proof (sp_span _ _ _ _ H); lia)).
  rewrite Hg. destruct (ss_occupied slot); cbn [andb negb]; [|split; [|done]].
  2: { intros _. eexists. split; [apply stepped_advance|done]. }
  destruct (Z.leb_spec OUTSTANDING_CAP (sr_outstanding s)), (Z.ltb_spec (sr_outstanding s) OUTSTANDING_CAP); try lia; cbn [andb].
  { split; [|done]. intros _. eexists. split; [apply stepped_classify|done]. }
  fold (is_due (sr_nack_below s) (wrap32 c) slot now srtt).
  destruct (is_due _ _ _ _ _); cbn [negb]; (split; [|done]); [done|]. intros _. eexists. split; [by apply stepped_count|done].
Qed.

(** What one call of the scan did, from cursor position [c]. *)
Definition poll_post (s : SendRing) (b c n : Z) (now srtt : f64) (out : list Z)
    (s' : SendRing) (out' : list Z) (res : option (result Z)) : Prop :=
  scan_frame s s' /\
  match res with
  | None => SRep s' b b n /\ out' = out /\ sr_meta s' = sr_meta s /\ sr_nack_below s' = None /\
            sr_outstanding s <= sr_outstanding s' <= OUTSTANDING_CAP
  | Some r =>
      exists p slot, c <= p < n /\ get (sr_meta s) (p mod sslots s) = Some slot /\
        ss_occupied slot = true /\ is_due (sr_nack_below s) (wrap32 p) slot now srtt = true /\
        let d := mkData (sr_channel s) (wrap32 p) (ss_last slot) (slot_bytes s p slot) in
        encode_data out d = (out', r) /\ sr_outstanding s <= sr_outstanding s' <= OUTSTANDING_CAP /\
        match r with
        | Err _ => SRep s' b p n /\ sr_meta s' = sr_meta s /\ sr_bytes_sent s' = sr_bytes_sent s
        | Ok _ =>
            SRep s' b (p + 1) n /\ sr_outstanding s < sr_outstanding s' /\
            sr_meta s' = set_at (sr_meta s) (p mod sslots s) (mark_sent slot (is_nacked (sr_nack_below s) (wrap32 p) slot) now) /\
            sr_bytes_sent s' = saturating_add U64_MAX (sr_bytes_sent s) (ss_len slot)
        end
  end.

Lemma poll_loop_spec fuel s b c n now srtt lvl out :
  SRep s b c n -> 0 <= sr_outstanding s <= OUTSTANDING_CAP -> Z.of_nat fuel = n - c ->
  let '(s', out', res) := poll_loop fuel s now srtt lvl out in poll_post s b c n now srtt out s' out' res.
Proof.
  revert s c. induction fuel as [|fuel IH]; intros s c H Ho Hf.
  - cbn [poll_loop]. split; [repeat split|]. pose proof (sp_order _ _ _ _ H).
    split; [|repeat split; cbn; lia]. apply (SRep_frame s _ b c n b); try done; [|lia]. apply H.
  - destruct (poll_loop_step fuel s b c n now srtt lvl out H ltac:(lia)) as (slot & Hg & Hskip & Hemit).
    destruct (_ && _ && _) eqn:Here.
    + rewrite Hemit by done. clear Hskip Hemit. apply andb_true_iff in Here as [Here Hdue]. apply andb_true_iff in Here as [Hocc Hcap].
      apply Z.ltb_lt in Hcap.
      pose proof (emit_spec s b c n slot now srtt lvl out H ltac:(lia) Hg ltac:(lia)) as HE. cbv zeta in HE.
      destruct (emit _ _ _ _ _ _ _ _ _) as [[s' out'] [[w|e]|]]; [| |done].
      * destruct HE as (He & HR & Hfr & Hm & Hou & _ & Hbs & _). split; [done|]. exists c, slot.
        split; [lia|]. do 3 (split; [done|]). split; [done|]. split; [lia|]. split; [done|]. split; [lia|done].
      * destruct HE as (He & ->). split; [repeat split|]. exists c, slot.
        split; [lia|]. do 3 (split; [done|]). split; [done|]. split; [lia|done].
    + destruct (Hskip eq_refl) as (s1 & Hst & ->). clear Hskip Hemit.
      pose proof (stepped_SRep s s1 b c n Hst H ltac:(lia)) as H1. destruct Hst as (Hf1 & Hm1 & Hn1 & _ & Hb1 & _ & Ho1).
      specialize (Ho1 Ho). specialize (IH s1 (c + 1) H1 ltac:(lia) ltac:(lia)).
      destruct (poll_loop fuel s1 now srtt lvl out) as [[s' out'] res]. destruct IH as [Hfr IH].
      assert (Hsb : forall p sl, slot_bytes s1 p sl = slot_bytes s p sl).
      { intros. unfold slot_bytes, sslots. destruct Hf1 as (-> & -> & _). by rewrite Hm1. }
      assert (Hss : sslots s1 = sslots s) by (unfold sslots; by rewrite Hm1).
      split; [unfold scan_frame in *; intuition congruence|].
      destruct res as [r|].
      * destruct IH as (p & sl & Hp & Hg' & Ho' & Hd' & He' & Hou & Hr). rewrite Hm1, Hn1, Hss, Hsb, Hb1 in *.
        destruct Hf1 as (_ & _ & _ & Hch & _). rewrite Hch in *.
        exists p, sl. split; [lia|]. do 3 (split; [done|]). split; [done|]. split; [lia|].
        destruct r; [|exact Hr]. destruct Hr as (? & ? & ?). split; [done|]. split; [lia|done].
      * destruct IH as (? & ? & ? & ? & ?). rewrite Hm1 in *. split; [done|]. split; [done|]. split; [done|]. split; [done|lia].
Qed.

Lemma poll_send_spec s b c n now srtt lvl out :
  SRep s b c n -> 0 <= sr_outstanding s <= OUTSTANDING_CAP ->
  let '(s', out', res) := poll_send s now srtt lvl out in poll_post s b c n now srtt out s' out' res.
Proof.
  intros H Ho. unfold poll_send.
  pose proof (sp_order _ _ _ _ H). pose proof (sp_span _ _ _ _ H). pose proof (ge_slots _ (sp_geo _ _ _ _ H)).
  rewrite (sp_cursor _ _ _ _ H), (sp_next _ _ _ _ H), distance_wrap by (unfold M32; lia).
  apply poll_loop_spec; [done|done|lia].
Qed.

(** The scan is the source's loop: [while cursor != next]. *)
Lemma poll_loop_unfold s b c n now srtt li out :
  SRep s b c n ->
  poll_send s now srtt li out =
    if sr_cursor s =? sr_next s then (s <| sr_nack_below := None |> <| sr_cursor := sr_base s |>, out, None)
    else poll_loop (S (Z.to_nat (n - c - 1))) s now srtt (level li) out.
Proof.
  intros H. unfold poll_send. pose proof (sp_order _ _ _ _ H). pose proof (sp_span _ _ _ _ H).
  pose proof (ge_slots _ (sp_geo _ _ _ _ H)).
  rewrite (sp_cursor _ _ _ _ H), (sp_next _ _ _ _ H).
  assert (Hd : distance (wrap32 c) (wrap32 n) = n - c) by (apply distance_wrap; unfold M32; lia).
  destruct (Z.eqb_spec (wrap32 c) (wrap32 n)) as [E|E].
  - rewrite E in *. unfold distance, wrapping_sub32. by rewrite Z.sub_diag.
  - rewrite Hd. assert (c <> n) by (intros ->; done). f_equal. lia.
Qed.

(** ** Enqueueing *)

(** What position [p] holds: its slot and the bytes of its fragment. *)
Definition entry (s : SendRing) (p : Z) : option (SendSlot * list Z) :=
  (fun slot => (slot, slot_bytes s p slot)) <$> get (sr_meta s) (p mod sslots s).

Definition fresh_slot (len : Z) (last : bool) : SendSlot :=
  SendSlot_default <| ss_len := len |> <| ss_occupied := true |> <| ss_last := last |>.

(** Fragment [i] of [m], as a queued entry. *)
Definition queued (m : Message) (cap i : Z) : SendSlot * list Z :=
  (fresh_slot (zlen (fragment_body m i cap)) (i =? message_fragment_count m cap - 1), fragment_body m i cap).

(** [bytes_ok] of a ring's arena after a write of bytes. *)
Lemma bytes_ok_write l a src l' : bytes_ok l -> bytes_ok src -> write l a src = Some l' -> bytes_ok l'.
Proof.
  intros Hl Hs (_ & _ & ->)%write_inv. rewrite !bytes_ok_app. split; [|split]; [by apply Forall_take|done|by apply Forall_drop].
Qed.

Lemma slice_prefix_of_write (l l' src rest : list Z) a :
  write l a (src ++ rest) = Some l' -> slice l' a (a + zlen src) = Some src.
Proof.
  intros (? & ? & ->)%write_inv. rewrite <- app_assoc. apply slice_mid; zlia.
Qed.

Lemma SRep_bodies s b c n bodies :
  SRep s b c n -> zlen bodies = zlen (sr_bodies s) -> bytes_ok bodies -> SRep (s <| sr_bodies := bodies |>) b c n.
Proof.
  intros [[] ? ? ? ? ? ?] Hl Hb. constructor; try done. constructor; try done. unfold sslots in *. cbn in *. congruence.
Qed.

(** Filling the slot of one position: the entry there is replaced and every
    other entry of the window is kept. *)
Lemma entry_fill s b c n p slot bodies body rest s' :
  SRep s b c n -> b <= p < b + sslots s -> ss_len slot = zlen body -> zlen (body ++ rest) = sr_slot_len s ->
  bytes_ok (body ++ rest) -> write (sr_bodies s) (p mod sslots s * sr_slot_len s) (body ++ rest) = Some bodies ->
  s' = s <| sr_bodies := bodies |> <| sr_meta := set_at (sr_meta s) (p mod sslots s) slot |> ->
  SRep s' b c n /\ sslots s' = sslots s /\
  forall q, b <= q < b + sslots s -> entry s' q = if decide (q = p) then Some (slot, body) else entry s q.
Proof.
  intros H Hp Hlen Hz Hby Hw Es'. pose proof (sp_geo _ _ _ _ H) as HG.
  assert (Hpi : 0 <= p mod sslots s < sslots s) by (apply Z.mod_pos_bound, HG).
  assert (Hs' : sslots s' = sslots s) by (subst s'; unfold sslots; cbn; apply zlen_set_at).
  assert (Hb' : sr_bodies s' = bodies /\ sr_slot_len s' = sr_slot_len s /\ sr_meta s' = set_at (sr_meta s) (p mod sslots s) slot)
    by (by subst s'). destruct Hb' as (Eb & El & Em).
  assert (HR : SRep s' b c n).
  { assert (HB : SRep (s <| sr_bodies := bodies |>) b c n).
    { apply SRep_bodies; [done|by rewrite (zlen_write _ _ _ _ Hw)|]. exact (bytes_ok_write _ _ _ _ (ge_bytes _ HG) Hby Hw). }
    subst s'. assert (Hsl : 0 <= ss_len slot <= sr_slot_len s) by (rewrite Hlen, <- Hz; zlia).
    exact (SRep_set _ b c n _ _ HB Hpi Hsl). }
  split; [done|]. split; [done|]. intros q Hq.
  assert (Hgq : get (sr_meta s') (q mod sslots s') = if decide (q = p) then Some slot else get (sr_meta s) (q mod sslots s)).
  { rewrite Hs', Em, get_set_at by done. destruct (decide (q = p)) as [->|Hne]; [by rewrite decide_True|].
    rewrite decide_False; [done|]. intros He. apply (mod_window_inj _ b) in He; [congruence|apply HG|lia..]. }
  unfold entry at 1. rewrite Hgq.
  pose proof (fun sl => slot_bytes_slice s' q sl (sp_geo _ _ _ _ HR)) as Hsb. rewrite Hgq, Hs', Eb, El in Hsb.
  destruct (decide (q = p)) as [->|Hne].
  - destruct (Hsb slot eq_refl) as (_ & _ & Hsl & _). rewrite Hlen, (slice_prefix_of_write _ _ _ _ _ Hw) in Hsl.
    injection Hsl as Hsl. cbn. by rewrite <- Hsl.
  - unfold entry. destruct (get (sr_meta s) (q mod sslots s)) as [sl|] eqn:Hg; [|done]. cbn. do 2 f_equal.
    destruct (Hsb sl eq_refl) as (_ & _ & Hsl & _). destruct (slot_bytes_slice s q sl HG Hg) as (_ & _ & Hsl0 & _).
    pose proof (ge_len _ HG _ _ Hg) as Hll.
    rewrite (slice_write_disjoint _ _ _ _ _ _ Hw) in Hsl; [congruence|]. rewrite Hz.
    assert (q mod sslots s <> p mod sslots s) by (intros He; apply (mod_window_inj _ b) in He; [congruence|apply HG|lia..]).
    assert (0 <= q mod sslots s < sslots s) by (apply Z.mod_pos_bound, HG).
    assert (q mod sslots s < p mod sslots s \/ p mod sslots s < q mod sslots s) as [] by lia; nia.
Qed.

Lemma enqueue_one_ok s b c n m i :
  SRep s b c n -> Message_ok m ->
  0 <= i < message_fragment_count m (sr_fragment_capacity s) -> n + i < b + sslots s ->
  exists s', enqueue_one s m (sr_fragment_capacity s) i = (s', Ok tt) /\ SRep s' b c n /\
    sslots s' = sslots s /\
    s' = s <| sr_bodies := sr_bodies s' |> <| sr_meta := sr_meta s' |> /\
    forall q, b <= q < b + sslots s ->
      entry s' q = if decide (q = n + i) then Some (queued m (sr_fragment_capacity s) i) else entry s q.
Proof.
  intros H Hm Hi Hlt. pose proof (sp_order _ _ _ _ H) as Ho. pose proof (sp_span _ _ _ _ H) as Hsp.
  pose proof (sp_geo _ _ _ _ H) as [Hcap Hcap16 Hch Hsl Hb Hmax Hbytes Hlen].
  destruct (zlen_fragment_body m Hm i (sr_fragment_capacity s) ltac:(lia) Hi) as [_ Hfl].
  assert (Hu : stream_len m <= U64_MAX).
  { destruct Hm as (_ & _ & _ & Hml). unfold stream_len, LENGTH_PREFIX_LEN, U32_MAX, U64_MAX in *. lia. }
  set (p := n + i). set (start := p mod sslots s * sr_slot_len s).
  assert (Hpi : 0 <= p mod sslots s < sslots s) by (apply Z.mod_pos_bound; lia).
  assert (Hst : 0 <= start /\ start + sr_slot_len s <= sslots s * sr_slot_len s) by (unfold start; nia).
  set (frag := fragment_body m i (sr_fragment_capacity s)) in *.
  destruct (slice (sr_bodies s) start (start + sr_slot_len s)) as [region|] eqn:Hreg; [|rewrite slice_some in Hreg by lia; done].
  assert (Hrl : zlen region = sr_slot_len s) by (rewrite (zlen_slice _ _ _ _ Hreg); lia).
  assert (Hz : zlen (frag ++ drop (length frag) region) = sr_slot_len s) by (rewrite zlen_app, zlen_drop; unfold zlen in *; lia).
  destruct (write (sr_bodies s) start (frag ++ drop (length frag) region)) as [bodies|] eqn:Hw; [|rewrite write_some in Hw by lia; done].
  assert (Hby : bytes_ok (frag ++ drop (length frag) region)).
  { apply bytes_ok_app. split; [apply Forall_take, Forall_drop, (bytes_ok_stream m Hm)|].
    by apply Forall_drop, (bytes_ok_slice _ _ _ _ Hbytes Hreg). }
  pose proof (entry_fill s b c n p (queued m (sr_fragment_capacity s) i).1 bodies frag _ _ H ltac:(lia) eq_refl Hz Hby Hw eq_refl)
    as (HF1 & HF2 & HF3).
  eexists. split; [|split; [|split; [|split]]].
  - unfold enqueue_one. rewrite try_from_some by (unfold U32_MAX; lia). cbv zeta.
    unfold wrapping_add32. rewrite (sp_next _ _ _ _ H), wrap32_add_l. fold p. rewrite (sp_index s b c n) by (done || lia).
    rewrite checked_mul64_some by lia. fold start. rewrite Hreg.
    rewrite (fragment_eq m Hm) by (done || lia). fold frag. rewrite Hw. cbn.
    destruct (sp_slot s b c n p H) as [slot ->]. rewrite try_from_some by (unfold U16_MAX in *; lia). done.
  - exact HF1.
  - exact HF2.
  - done.
  - exact HF3.
Qed.

(** The loop writes fragments [k .. k + j) and nothing else. *)
Lemma enqueue_loop_ok s b c n m k (j : nat) :
  SRep s b c n -> Message_ok m -> 0 <= k ->
  k + Z.of_nat j <= message_fragment_count m (sr_fragment_capacity s) -> n + k + Z.of_nat j <= b + sslots s ->
  exists s', enqueue_loop s m (sr_fragment_capacity s) (seqZ k (Z.of_nat j)) = (s', Ok tt) /\ SRep s' b c n /\
    sslots s' = sslots s /\
    s' = s <| sr_bodies := sr_bodies s' |> <| sr_meta := sr_meta s' |> /\
    forall q, b <= q < b + sslots s ->
      entry s' q = if decide (n + k <= q < n + k + Z.of_nat j) then Some (queued m (sr_fragment_capacity s) (q - n)) else entry s q.
Proof.
  revert s k. induction j as [|j IH]; intros s k H Hm Hk Hc Hn.
  - exists s. split; [done|]. split; [done|]. split; [done|]. split; [by destruct s|].
    intros q Hq. by rewrite decide_False by lia.
  - rewrite seqZ_cons by lia. cbn [enqueue_loop].
    destruct (enqueue_one_ok s b c n m k H Hm ltac:(lia) ltac:(lia)) as (s1 & -> & H1 & Hs1 & E1 & He1).
    assert (Hc1 : sr_fragment_capacity s1 = sr_fragment_capacity s) by (rewrite E1; done).
    destruct (IH s1 (k + 1) H1 Hm ltac:(lia) ltac:(rewrite Hc1; lia) ltac:(rewrite Hs1; lia)) as (s2 & Hl2 & H2 & Hs2 & E2 & He2).
    rewrite Hc1 in *. replace (Z.pred (Z.of_nat (S j))) with (Z.of_nat j) by lia. replace (Z.succ k) with (k + 1) by lia.
    exists s2. split; [done|]. split; [done|]. split; [congruence|]. split; [rewrite E2, E1; done|].
    intros q Hq. rewrite He2 by lia. rewrite He1 by lia.
    destruct (decide (n + (k + 1) <= q < n + (k + 1) + Z.of_nat j)), (decide (n + k <= q < n + k + Z.of_nat (S j)));
      try done; try lia; destruct (decide (q = n + k)) as [->|]; try done; try lia.
    do 2 f_equal. lia.
Qed.

(** Queueing a whole message. *)
Lemma enqueue_ok s b c n m :
  SRep s b c n -> Message_ok m -> n + message_fragment_count m (sr_fragment_capacity s) <= b + sslots s ->
  let count := message_fragment_count m (sr_fragment_capacity s) in
  exists s', enqueue s m = (s', Ok count) /\ SRep s' b c (n + count) /\
    s' = s <| sr_bodies := sr_bodies s' |> <| sr_meta := sr_meta s' |> <| sr_next := wrap32 (n + count) |> /\
    sslots s' = sslots s /\
    forall q, b <= q < b + sslots s ->
      entry s' q = if decide (n <= q < n + count) then Some (queued m (sr_fragment_capacity s) (q - n)) else entry s q.
Proof.
  intros H Hm Hw count. pose proof (sp_order _ _ _ _ H). pose proof (sp_geo _ _ _ _ H) as HG. pose proof (ge_slots _ HG).
  destruct (fragment_count_spec m Hm (sr_fragment_capacity s) ltac:(apply HG)) as [Hc1 _]. fold count in Hc1, Hw.
  destruct (enqueue_loop_ok s b c n m 0 (Z.to_nat count) H Hm ltac:(lia) ltac:(lia) ltac:(lia)) as (s1 & Hl & HR1 & Hs1 & E1 & He).
  rewrite Z2Nat.id in * by lia. unfold enqueue. fold count. unfold window_free, in_flight. fold (sslots s).
  rewrite try_from_some by (unfold U32_MAX; lia). cbn [default]. change (id ?x) with x.
  rewrite (sp_next _ _ _ _ H), (sp_base _ _ _ _ H), wrapping_sub_wrap, wrap32_small by (unfold M32; lia).
  unfold saturating_sub. rewrite (proj2 (Z.ltb_ge _ _)) by lia. rewrite Hl, try_from_some by (unfold U32_MAX; lia).
  assert (En : sr_next s1 = wrap32 n) by (rewrite E1; apply (sp_next _ _ _ _ H)).
  rewrite En. unfold wrapping_add32. rewrite wrap32_add_l. eexists. split; [done|].
  assert (Hs : sslots (s1 <| sr_next := wrap32 (n + count) |>) = sslots s) by done.
  split; [|split; [|split; [done|]]].
  - destruct HR1 as [[] ? ? ? ? ? ?]. constructor; rewrite ?Hs; try done; try lia; try (by constructor). apply H.
  - rewrite E1. done.
  - intros q Hq. change (entry (s1 <| sr_next := wrap32 (n + count) |>) q) with (entry s1 q).
    rewrite He by done. by rewrite !Z.add_0_r.
Qed.

(** ** Acknowledgements *)

Definition sat64 (z : Z) : Z := Z.min U64_MAX z.

(** Payload bytes of position [p] not yet counted as delivered. *)
Definition owed (s : SendRing) (p : Z) : Z :=
  match get (sr_meta s) (p mod sslots s) with
  | Some slot => if ss_sent slot && negb (ss_acked_accounted slot) then ss_len slot else 0
  | None => 0
  end.

(** The sum of [f] over [k .. k + n). *)
Fixpoint sum_from (f : Z -> Z) (k : Z) (n : nat) : Z :=
  match n with
  | O => 0
  | S n => f k + sum_from f (k + 1) n
  end.

Lemma sum_from_ext f g k n : (forall p, k <= p < k + Z.of_nat n -> f p = g p) -> sum_from f k n = sum_from g k n.
Proof.
  revert k. induction n as [|n IH]; intros k H; cbn [sum_from]; [done|].
  rewrite H by lia. f_equal. apply IH. intros p Hp. apply H. lia.
Qed.

Lemma sum_from_nonneg f k n : (forall p, k <= p < k + Z.of_nat n -> 0 <= f p) -> 0 <= sum_from f k n.
Proof.
  revert k. induction n as [|n IH]; intros k H; cbn [sum_from]; [lia|].
  pose proof (H k ltac:(lia)). assert (0 <= sum_from f (k + 1) n) by (apply IH; intros p Hp; apply H; lia). lia.
Qed.

(** The slot once its delivery has been counted. *)
Definition counted (slot : SendSlot) : SendSlot :=
  if ss_sent slot && negb (ss_acked_accounted slot) then slot <| ss_acked_accounted := true |> else slot.

Lemma owed_nonneg s p : Geometry s -> 0 <= owed s p.
Proof.
  intros H. unfold owed. destruct (get _ _) as [slot|] eqn:Hg; [|lia]. apply (ge_len _ H) in Hg. case_match; lia.
Qed.

(** One step of the accounting loop. *)
Definition account_one (s : SendRing) (p : Z) : SendRing :=
  match get (sr_meta s) (p mod sslots s) with
  | Some slot =>
      if ss_sent slot && negb (ss_acked_accounted slot)
      then s <| sr_meta := set_at (sr_meta s) (p mod sslots s) (slot <| ss_acked_accounted := true |>) |>
             <| sr_bytes_acked := saturating_add U64_MAX (sr_bytes_acked s) (ss_len slot) |>
      else s
  | None => s
  end.

Lemma account_one_spec s b c n p :
  SRep s b c n -> b <= p < b + sslots s -> 0 <= sr_bytes_acked s <= U64_MAX ->
  let s' := account_one s p in
  SRep s' b c n /\ sslots s' = sslots s /\
  s' = s <| sr_meta := sr_meta s' |> <| sr_bytes_acked := sat64 (sr_bytes_acked s + owed s p) |> /\
  forall q, b <= q < b + sslots s -> get (sr_meta s') (q mod sslots s) =
    (if decide (q = p) then counted <$> get (sr_meta s) (q mod sslots s) else get (sr_meta s) (q mod sslots s)).
Proof.
  intros H Hp Hb. cbv zeta. unfold account_one, owed, sat64. destruct (sp_slot s b c n p H) as [slot Hg]. rewrite Hg.
  pose proof (get_inv _ _ _ Hg) as [Hi _]. unfold counted.
  destruct (ss_sent slot && negb (ss_acked_accounted slot)) eqn:E.
  - assert (HS : SRep (s <| sr_meta := set_at (sr_meta s) (p mod sslots s) (slot <| ss_acked_accounted := true |>) |>) b c n)
      by (apply SRep_set; [done|done|exact (ge_len _ (sp_geo _ _ _ _ H) _ _ Hg)]).
    split; [|split; [unfold sslots; cbn; apply zlen_set_at|split; [done|]]].
    + destruct HS as [[] ? ? ? ? ? ?]. constructor; try done; by constructor.
    + intros q Hq. cbn. rewrite get_set_at by done. case_decide as He; case_decide as Hqp; subst.
      * rewrite Hg. cbn. by rewrite E.
      * destruct Hqp. symmetry. apply (mod_window_inj _ b) in He; [done|apply H|lia..].
      * done.
      * done.
  - split; [done|]. split; [done|]. split; [rewrite Z.add_0_r, Z.min_r by lia; by destruct s|].
    intros q Hq. case_decide as He; [|done]. subst. rewrite Hg. cbn. by rewrite E.
Qed.

Lemma account_spec (j : nat) s b c n k :
  SRep s b c n -> b <= k -> k + Z.of_nat j <= b + sslots s -> 0 <= sr_bytes_acked s <= U64_MAX ->
  let s' := account j s (wrap32 k) in
  SRep s' b c n /\ sslots s' = sslots s /\
  s' = s <| sr_meta := sr_meta s' |> <| sr_bytes_acked := sat64 (sr_bytes_acked s + sum_from (owed s) k j) |> /\
  forall q, b <= q < b + sslots s -> get (sr_meta s') (q mod sslots s) =
    (if decide (k <= q < k + Z.of_nat j) then counted <$> get (sr_meta s) (q mod sslots s) else get (sr_meta s) (q mod sslots s)).
Proof.
  revert s k. induction j as [|j IH]; intros s k H Hk Hj Hb; cbv zeta.
  - cbn [account sum_from]. split; [done|]. split; [done|]. split.
    + unfold sat64. rewrite Z.add_0_r, Z.min_r by lia. by destruct s.
    + intros q Hq. by rewrite decide_False by lia.
  - destruct (account_one_spec s b c n k H ltac:(lia) Hb) as (H1 & Hs1 & E1 & Hm1).
    assert (Est : account (S j) s (wrap32 k) = account j (account_one s k) (wrap32 (k + 1))).
    { cbn [account]. rewrite (sp_index s b c n) by (done || lia). unfold wrapping_add32. by rewrite wrap32_add_l. }
    rewrite Est. set (s1 := account_one s k) in *. clear Est.
    assert (Hb1 : sr_bytes_acked s1 = sat64 (sr_bytes_acked s + owed s k)) by (rewrite E1; done).
    pose proof (owed_nonneg s k (sp_geo _ _ _ _ H)) as Hok.
    assert (Hb1' : 0 <= sr_bytes_acked s1 <= U64_MAX) by (rewrite Hb1; unfold sat64, U64_MAX in *; lia).
    destruct (IH s1 (k + 1) H1 ltac:(lia) ltac:(lia) Hb1') as (H2 & Hs2 & E2 & Hm2).
    set (s2 := account j s1 (wrap32 (k + 1))) in *.
    assert (Hsum : sum_from (owed s1) (k + 1) j = sum_from (owed s) (k + 1) j).
    { apply sum_from_ext. intros p Hp. unfold owed. rewrite Hs1, Hm1 by lia. by rewrite decide_False by lia. }
    split; [done|]. split; [congruence|]. split.
    + rewrite E2, Hsum, Hb1. rewrite E1 at 1. cbn [sum_from].
      assert (0 <= sum_from (owed s) (k + 1) j) by (apply sum_from_nonneg; intros; apply owed_nonneg, H).
      unfold sat64. replace (Z.min U64_MAX (Z.min U64_MAX (sr_bytes_acked s + owed s k) + sum_from (owed s) (k + 1) j))
        with (Z.min U64_MAX (sr_bytes_acked s + (owed s k + sum_from (owed s) (k + 1) j))) by lia. done.
    + intros q Hq. rewrite Hs1 in Hm2. rewrite Hm2, Hm1 by lia.
      destruct (decide (k + 1 <= q < k + 1 + Z.of_nat j)), (decide (q = k)), (decide (k <= q < k + Z.of_nat (S j))); try done; lia.
Qed.

(** The base after an acknowledgement whose cumulative value for this channel
    is the position [x]: it moves only forward, only up to what was assigned,
    and only for a channel the peer reported. *)
Definition acked_base (s : SendRing) (ack : Ack) (b n x : Z) : Z :=
  if (sr_channel s <? ack_reported ack) && (b <? x) && (x <=? n) then x else b.

(** How an acknowledgement may change one slot. *)
Definition slot_acked (inside : bool) (slot slot' : SendSlot) : Prop :=
  ss_len slot' = ss_len slot /\ ss_sent slot' = ss_sent slot /\ ss_last slot' = ss_last slot /\
  ss_acked_accounted slot' = ss_acked_accounted slot || (inside && ss_sent slot) /\
  (ss_occupied slot' = true -> ss_occupied slot = true).

Record AckPost (s s' : SendRing) (b c n b' : Z) : Prop := {
  ap_rep : regular (sslots s) b' -> SRep s' b' (Z.max c b') n;
  ap_base : sr_base s' = wrap32 b';
  ap_slots : sslots s' = sslots s;
  ap_bodies : sr_bodies s' = sr_bodies s;
  ap_acked : sr_acked s' = sat64 (sr_acked s + (b' - b));
  ap_bytes : sr_bytes_acked s' = sat64 (sr_bytes_acked s + sum_from (owed s) b (Z.to_nat (b' - b)));
  ap_out : sr_outstanding s' = sr_outstanding s;
  ap_frame : sr_next s' = sr_next s /\ sr_channel s' = sr_channel s /\ sr_slot_len s' = sr_slot_len s;
  ap_slot : forall q, b <= q < b + sslots s -> exists slot slot',
    get (sr_meta s) (q mod sslots s) = Some slot /\ get (sr_meta s') (q mod sslots s) = Some slot' /\
    slot_acked (bool_decide (b <= q < b')) slot slot';
}.

Lemma slot_acked_counted slot (i : bool) : slot_acked i slot (if i then counted slot else slot).
Proof.
  unfold slot_acked, counted. destruct i; cbn [andb]; [|rewrite orb_false_r; tauto].
  destruct (ss_sent slot) eqn:E, (ss_acked_accounted slot) eqn:E2; cbn; rewrite ?E, ?E2; tauto.
Qed.

Lemma SRep_rebase s b c n b' c' s' :
  SRep s b c n -> regular (sslots s) b' -> b <= b' <= n -> b' <= c' <= n ->
  s' = s <| sr_acked := sr_acked s' |> <| sr_base := wrap32 b' |> <| sr_cursor := wrap32 c' |> -> SRep s' b' c' n.
Proof. intros [[] ? ? ? ? ? ?] Hr Hb Hc ->. constructor; try done; try (by constructor); unfold sslots in *; cbn; lia. Qed.

Lemma ack_cumulative_spec s b c n x :
  SRep s b c n -> - 2147483648 < x - b <= 2147483648 ->
  0 <= sr_bytes_acked s <= U64_MAX -> 0 <= sr_acked s <= U64_MAX ->
  AckPost s (ack_cumulative_step s (wrap32 x)) b c n (if (b <? x) && (x <=? n) then x else b).
Proof.
  intros H Hx Hb Ha. pose proof (sp_order _ _ _ _ H) as Ho. pose proof (sp_span _ _ _ _ H) as Hsp.
  pose proof (ge_slots _ (sp_geo _ _ _ _ H)) as Hsl.
  assert (Hguard : Seq.gt (wrap32 x) (sr_base s) && Seq.le (wrap32 x) (sr_next s) = (b <? x) && (x <=? n)).
  { rewrite (sp_base _ _ _ _ H), (sp_next _ _ _ _ H). destruct (Z.eq_dec (x - b) 2147483648) as [E|E].
    - replace (Seq.gt (wrap32 x) (wrap32 b)) with false; [|unfold Seq.gt; rewrite wrapping_sub_wrap, E; done].
      rewrite (proj2 (Z.leb_gt x n)) by lia. by rewrite andb_false_r.
    - rewrite gt_wrap by lia. destruct (Z.ltb_spec b x); [|done]. by rewrite le_wrap by lia. }
  unfold ack_cumulative_step. rewrite Hguard. destruct ((b <? x) && (x <=? n)) eqn:Hg.
  - bool_prop. rewrite (sp_base _ _ _ _ H), distance_wrap by (unfold M32; lia).
    destruct (account_spec (Z.to_nat (x - b)) s b c n b H ltac:(lia) ltac:(lia) Hb) as (HR1 & Hs1 & E1 & Hm1).
    set (s1 := account _ _ _) in *.
    assert (F1 : sr_base s1 = wrap32 b /\ sr_cursor s1 = wrap32 c /\ sr_acked s1 = sr_acked s)
      by (rewrite E1; cbn; split; [apply H|split; [apply H|done]]). destruct F1 as (Eb & Ec & Ea).
    match goal with |- AckPost _ ?t _ _ _ _ => assert (Hfin : t = s1 <| sr_acked := sat64 (sr_acked s + (x - b)) |>
      <| sr_base := wrap32 x |> <| sr_cursor := wrap32 (Z.max c x) |>) end.
    { cbn. rewrite Ea, Ec, Eb, lt_wrap, wrapping_sub_wrap, (wrap32_small (x - b)) by (unfold M32; lia).
      destruct (Z.ltb_spec c x); [by rewrite Z.max_r by lia|]. rewrite Z.max_l by lia. rewrite <- Ec. done. }
    rewrite Hfin. clear Hfin.
    assert (E1f : sr_bodies s1 = sr_bodies s /\ sr_bytes_acked s1 = sat64 (sr_bytes_acked s + sum_from (owed s) b (Z.to_nat (x - b))) /\
      sr_outstanding s1 = sr_outstanding s /\ sr_next s1 = sr_next s /\ sr_channel s1 = sr_channel s /\ sr_slot_len s1 = sr_slot_len s)
      by (rewrite E1; done). destruct E1f as (? & ? & ? & ? & ? & ?).
    constructor; try done.
    + intros Hreg. apply (SRep_rebase s1 b c n x); [done|by rewrite Hs1|lia|lia|done].
    + intros q Hq. destruct (sp_slot s b c n q H) as [slot Hgs]. exists slot, (if bool_decide (b <= q < x) then counted slot else slot).
      split; [done|]. split; [|apply slot_acked_counted]. cbn [sr_meta set_field].
      rewrite Hm1, Hgs by done. replace (b + Z.of_nat (Z.to_nat (x - b))) with x by lia.
      destruct (decide (b <= q < x)) as [Hd|Hd]; [by rewrite bool_decide_true|by rewrite bool_decide_false].
  - constructor; try done.
    + intros _. rewrite Z.max_l by lia. done.
    + apply H.
    + unfold sat64. rewrite Z.sub_diag, Z.min_r by lia. lia.
    + unfold sat64. rewrite Z.sub_diag. change (Z.to_nat 0) with O. cbn [sum_from]. lia.
    + intros q Hq. destruct (sp_slot s b c n q H) as [slot Hgs]. exists slot, slot. split; [done|]. split; [done|].
      rewrite bool_decide_false by lia. apply (slot_acked_counted slot false).
Qed.

Lemma AckPost_nack s s1 b c n b' k : AckPost s s1 b c n b' -> AckPost s (s1 <| sr_nack_below := k |>) b c n b'.
Proof.
  intros []. constructor; try done. intros Hr. specialize (ap_rep0 Hr) as HR.
  apply (SRep_frame s1 _ b' (Z.max c b') n); [done|repeat split|done|apply HR|apply HR].
Qed.

Lemma AckPost_retire s s1 b c n b' i slot :
  AckPost s s1 b c n b' -> regular (sslots s) b -> 0 < sslots s -> get (sr_meta s1) i = Some slot ->
  AckPost s (s1 <| sr_meta := set_at (sr_meta s1) i (slot <| ss_occupied := false |>) |>) b c n b'.
Proof.
  intros [] Hreg Hpos Hg. pose proof (get_inv _ _ _ Hg) as [Hi _]. constructor; try done.
  - intros Hr. specialize (ap_rep0 Hr) as HR. apply SRep_set; [done|done|exact (ge_len _ (sp_geo _ _ _ _ HR) _ _ Hg)].
  - rewrite <- ap_slots0. unfold sslots. cbn. apply zlen_set_at.
  - intros q Hq. destruct (ap_slot0 q Hq) as (sl & sl' & H1 & H2 & H3). exists sl.
    cbn [sr_meta set_field]. rewrite get_set_at by done. destruct (decide (i = q mod sslots s)) as [He|He].
    + rewrite He, H2 in Hg. injection Hg as <-. eexists. split; [done|]. split; [done|].
      destruct H3 as (? & ? & ? & ? & ?). unfold slot_acked. cbn. repeat split; done.
    + eauto.
Qed.

Lemma on_ack_post s b c n ack now x :
  SRep s b c n -> - 2147483648 < x - b <= 2147483648 ->
  get (ack_cumulative ack) (sr_channel s) = Some (wrap32 x) ->
  0 <= sr_bytes_acked s <= U64_MAX -> 0 <= sr_acked s <= U64_MAX ->
  let '(s', rtt) := on_ack s ack now in
  AckPost s s' b c n (acked_base s ack b n x) /\
  forall v, rtt = Some v -> f_is_finite v = true /\ (f_zero <=? v)%f64 = true /\ trigger_channel ack = sr_channel s.
Proof.
  intros H Hx Hcum Hb Ha. pose proof (ge_slots _ (sp_geo _ _ _ _ H)) as Hsl. unfold on_ack. rewrite Hcum.
  assert (HP : AckPost s (ack_cumulative_step s (if sr_channel s <? ack_reported ack then wrap32 x else sr_base s)) b c n
    (acked_base s ack b n x)).
  { unfold acked_base. destruct (sr_channel s <? ack_reported ack); cbn [andb]; [by apply ack_cumulative_spec|].
    rewrite (sp_base _ _ _ _ H). pose proof (ack_cumulative_spec s b c n b H ltac:(lia) Hb Ha) as HP. by rewrite Z.ltb_irrefl in HP. }
  set (s1 := ack_cumulative_step _ _) in *. cbv zeta.
  assert (HP2 : AckPost s (if ack_nack ack && (trigger_channel ack =? sr_channel s1)
    then s1 <| sr_nack_below := Some (trigger_seq ack) |> else s1) b c n (acked_base s ack b n x))
    by (case_match; [by apply AckPost_nack|done]).
  set (s2 := if _ : bool then _ else s1) in *. destruct (ap_frame _ _ _ _ _ _ HP2) as (_ & Hch & _).
  destruct (Z.eqb_spec (trigger_channel ack) (sr_channel s2)) as [Et|]; cbn [negb]; [|done].
  destruct (Seq.lt _ _ || Seq.ge _ _); [done|].
  destruct (get (sr_meta s2) (sindex s2 (trigger_seq ack))) as [slot|] eqn:Hg; [|done].
  destruct (negb (ss_occupied slot) || negb (ss_sent slot)); [done|]. split.
  - apply (AckPost_retire s s2 b c n _ _ slot HP2 (sp_reg _ _ _ _ H)); [lia|done].
  - intros v. destruct (f_is_finite _ && _) eqn:E; [|done]. intros [= <-]. bool_prop. split; [done|]. split; [done|congruence].
Qed.

(** ** Whole runs *)

Record SInv (s : SendRing) (b c n : Z) : Prop := {
  si_rep : SRep s b c n;
  si_live : forall q slot, b <= q < n -> get (sr_meta s) (q mod sslots s) = Some slot -> ss_acked_accounted slot = false;
  si_out : 0 <= sr_outstanding s <= OUTSTANDING_CAP;
  si_acked : 0 <= sr_acked s <= U64_MAX;
  si_bytes : 0 <= sr_bytes_acked s <= U64_MAX;
}.

Inductive send_op :=
  | SEnqueue (m : Message)
  | SAck (ack : Ack) (now_ms : f64)
  | SPoll (now_ms srtt_ms : f64) (level_index : Z) (out : list Z)
  | SBegin
  | SDiscard
  | SCapacity (capacity : Z).

Definition send_step (s : SendRing) (op : send_op) : SendRing :=
  match op with
  | SEnqueue m => (enqueue s m).1
  | SAck ack now => (on_ack s ack now).1
  | SPoll now srtt li out => (poll_send s now srtt li out).1.1
  | SBegin => begin_pass s
  | SDiscard => (discard_pending s).1
  | SCapacity capacity => (set_fragment_capacity s capacity).1
  end.

(** Messages built by [Message::new]; acknowledgements are what [parse] yields. *)
Definition send_op_ok (op : send_op) : Prop :=
  match op with
  | SEnqueue m => Message_ok m
  | SAck ack _ => Forall is_u32 (ack_cumulative ack) /\ length (ack_cumulative ack) = 19%nat
  | _ => True
  end.

(** The step keeps the window inside one epoch of the sequence space, or the
    slot count divides [2^32]. *)
Definition send_epoch_ok (s s' : SendRing) : Prop :=
  M32 mod sslots s = 0 \/ (sr_base s <= sr_base s' /\ sr_base s' + sslots s <= M32).

Inductive send_reach : SendRing -> Prop :=
  | sreach_new bodies meta storage cap channel s :
      new_with_capacity bodies meta storage cap channel = Ok s ->
      Forall (fun slot => slot = SendSlot_default) meta -> bytes_ok bodies ->
      0 <= storage -> 0 <= cap -> 0 <= channel -> sslots s < 2147483648 -> send_reach s
  | sreach_step s op :
      send_reach s -> send_op_ok op -> send_epoch_ok s (send_step s op) -> send_reach (send_step s op).

Lemma SRep_same s s' b c n c' :
  SRep s b c n -> b <= c' <= n -> sr_cursor s' = wrap32 c' ->
  sr_bodies s' = sr_bodies s -> sr_meta s' = sr_meta s -> sr_slot_len s' = sr_slot_len s ->
  0 < sr_fragment_capacity s' <= sr_slot_len s -> sr_fragment_capacity s' <= U16_MAX ->
  sr_channel s' = sr_channel s -> sr_base s' = sr_base s -> sr_next s' = sr_next s -> SRep s' b c' n.
Proof.
  intros [[] ? ? ? ? ? ?] Hc Ec E1 E2 E3 Hcap Hcap16 E4 E5 E6.
  constructor; [constructor|..]; unfold sslots in *; rewrite ?E1, ?E2, ?E3, ?E4, ?E5, ?E6; done.
Qed.

Lemma epoch_regular_send s s' b c n b' :
  SRep s b c n -> b <= b' <= n -> sr_base s' = wrap32 b' -> send_epoch_ok s s' -> regular (sslots s) b'.
Proof.
  intros H Hb Eb [He|[H1 H2]]; [by left|]. destruct (sp_reg _ _ _ _ H) as [|Hr]; [by left|right].
  pose proof (ge_slots _ (sp_geo _ _ _ _ H)). pose proof (sp_span _ _ _ _ H).
  rewrite Eb, (sp_base _ _ _ _ H), (wrap32_small b) in * by lia.
  destruct (Z.eq_dec b' M32) as [->|]; [|rewrite wrap32_small in * by lia; lia].
  change (wrap32 M32) with 0 in *. unfold M32 in *. lia.
Qed.

Lemma enqueue_refused s b c n m :
  SRep s b c n -> Message_ok m -> b + sslots s < n + message_fragment_count m (sr_fragment_capacity s) ->
  enqueue s m = (s, Err BufferTooSmall).
Proof.
  intros H Hm Hw. pose proof (sp_order _ _ _ _ H). pose proof (sp_span _ _ _ _ H). pose proof (ge_slots _ (sp_geo _ _ _ _ H)).
  unfold enqueue, window_free, in_flight. fold (sslots s).
  rewrite try_from_some by (unfold U32_MAX; lia). cbn [default]. change (id ?x) with x.
  rewrite (sp_next _ _ _ _ H), (sp_base _ _ _ _ H), wrapping_sub_wrap, wrap32_small by (unfold M32; lia).
  unfold saturating_sub. by rewrite (proj2 (Z.ltb_lt _ _)) by lia.
Qed.

Lemma SInv_enqueue s b c n m : SInv s b c n -> Message_ok m ->
  let count := message_fragment_count m (sr_fragment_capacity s) in
  SInv (enqueue s m).1 b c (if b + sslots s <? n + count then n else n + count) /\ 0 < count /\ sslots (enqueue s m).1 = sslots s.
Proof.
  intros [H Hl Ho Ha Hb] Hm. pose proof (sp_span _ _ _ _ H). pose proof (ge_slots _ (sp_geo _ _ _ _ H)). pose proof (sp_order _ _ _ _ H).
  destruct (fragment_count_spec m Hm (sr_fragment_capacity s) ltac:(apply H)) as [Hc1 _]. cbv zeta.
  destruct (Z.ltb_spec (b + sslots s) (n + message_fragment_count m (sr_fragment_capacity s))).
  { rewrite (enqueue_refused s b c n) by done. split; [by constructor|]. split; [lia|done]. }
  destruct (enqueue_ok s b c n m H Hm ltac:(lia)) as (s' & -> & HR & E & Hs & He). cbn [fst].
  assert (F : sr_outstanding s' = sr_outstanding s /\ sr_acked s' = sr_acked s /\ sr_bytes_acked s' = sr_bytes_acked s) by (rewrite E; done).
  destruct F as (F1 & F2 & F3). split; [|split; [lia|done]].
  constructor; rewrite ?F1, ?F2, ?F3; try done. intros q slot Hq Hg. pose proof (sp_span _ _ _ _ HR) as Hsp'. rewrite Hs in *.
  specialize (He q ltac:(lia)). unfold entry in He. rewrite Hs, Hg in He. cbn in He. case_decide.
  - injection He as -> _. done.
  - destruct (get (sr_meta s) (q mod sslots s)) as [sl|] eqn:Hgs; [|done]. injection He as -> _. apply (Hl q); [lia|done].
Qed.

Lemma SInv_poll s b c n now srtt li out :
  SInv s b c n -> exists c', SInv (poll_send s now srtt li out).1.1 b c' n /\ sslots (poll_send s now srtt li out).1.1 = sslots s.
Proof.
  intros [H Hl Ho Ha Hb]. pose proof (poll_send_spec s b c n now srtt li out H Ho) as HP.
  destruct (poll_send s now srtt li out) as [[s' out'] res]. cbn [fst]. destruct HP as [Hf HP].
  assert (Hs : forall m, sr_meta s' = m -> zlen m = zlen (sr_meta s) -> sslots s' = sslots s) by (intros m <-; done).
  assert (F : sr_acked s' = sr_acked s /\ sr_bytes_acked s' = sr_bytes_acked s) by (unfold scan_frame in Hf; tauto).
  destruct F as [F1 F2]. destruct res as [[w|e]|].
  - destruct HP as (p & slot & Hp & Hg & _ & _ & _ & Ho' & HR & _ & Hm & _). exists (p + 1).
    specialize (Hs _ Hm (zlen_set_at _ _ _)). split; [|done]. constructor; rewrite ?F1, ?F2; try done; [|lia].
    intros q sl Hq. rewrite Hs, Hm. pose proof (get_inv _ _ _ Hg) as [Hi _]. rewrite get_set_at by done.
    case_decide; [|by apply Hl]. intros [= <-].
    assert (He : ss_acked_accounted slot = false) by (apply (Hl p); [pose proof (sp_order _ _ _ _ H); lia|done]).
    unfold mark_sent. by repeat case_match.
  - destruct HP as (p & slot & Hp & Hg & _ & _ & _ & Ho' & HR & Hm & _). exists p.
    specialize (Hs _ Hm eq_refl). split; [|done]. constructor; rewrite ?F1, ?F2; try done; [|lia].
    intros q sl Hq. rewrite Hs, Hm. by apply Hl.
  - destruct HP as (HR & _ & Hm & _ & Ho'). exists b.
    specialize (Hs _ Hm eq_refl). split; [|done]. constructor; rewrite ?F1, ?F2; try done; [|lia].
    intros q sl Hq. rewrite Hs, Hm. by apply Hl.
Qed.

Lemma SInv_of_ack s s' b c n b' :
  SInv s b c n -> AckPost s s' b c n b' -> b <= b' <= n -> regular (sslots s) b' -> SInv s' b' (Z.max c b') n.
Proof.
  intros [H Hl Ho Ha Hb] [] Hbb Hreg. constructor.
  - by apply ap_rep0.
  - intros q sl Hq Hg. rewrite ap_slots0 in Hg. pose proof (sp_span _ _ _ _ H).
    destruct (ap_slot0 q ltac:(lia)) as (slot & slot' & H1 & H2 & _ & _ & _ & H3 & _). rewrite H2 in Hg. injection Hg as <-.
    rewrite H3, bool_decide_false by lia. rewrite orb_false_r. apply (Hl q); [lia|done].
  - lia.
  - rewrite ap_acked0. unfold sat64, U64_MAX in *. lia.
  - rewrite ap_bytes0. assert (0 <= sum_from (owed s) b (Z.to_nat (b' - b)))
      by (apply sum_from_nonneg; intros; apply owed_nonneg, H). unfold sat64, U64_MAX in *. lia.
Qed.

Lemma SInv_ack s b c n ack now :
  SInv s b c n -> Forall is_u32 (ack_cumulative ack) -> length (ack_cumulative ack) = 19%nat ->
  send_epoch_ok s (on_ack s ack now).1 ->
  exists b' c', b <= b' <= n /\ SInv (on_ack s ack now).1 b' c' n /\ sslots (on_ack s ack now).1 = sslots s.
Proof.
  intros HI Hu Hlen He. pose proof HI as [H Hl Ho Ha Hb]. pose proof (ge_channel _ (sp_geo _ _ _ _ H)) as Hch.
  destruct (get_some (ack_cumulative ack) (sr_channel s)) as [v Hv]; [unfold zlen, CHANNEL_COUNT in *; rewrite Hlen; lia|].
  assert (Hvu : is_u32 v) by (apply get_inv in Hv as [_ Hv]; by eapply Forall_lookup_1 in Hv).
  destruct (nearest_position b v Hvu) as (x & <- & Hx).
  pose proof (on_ack_post s b c n ack now x H Hx Hv Hb Ha) as HP. destruct (on_ack s ack now) as [s' rtt]. cbn [fst] in *.
  destruct HP as [HP _]. assert (Hbb : b <= acked_base s ack b n x <= n).
  { unfold acked_base. pose proof (sp_order _ _ _ _ H). destruct (_ && _) eqn:E; bool_prop; lia. }
  assert (Hreg : regular (sslots s) (acked_base s ack b n x)) by (by apply (epoch_regular_send s s' b c n _ H Hbb (ap_base _ _ _ _ _ _ HP))).
  exists (acked_base s ack b n x), (Z.max c (acked_base s ack b n x)). split; [done|].
  split; [by apply (SInv_of_ack s s' b c n)|exact (ap_slots _ _ _ _ _ _ HP)].
Qed.

(** Where each operation may leave the two ends of the window [[b, n)]. *)
Definition window_moves (s : SendRing) (op : send_op) (b n b' n' : Z) : Prop :=
  match op with
  | SEnqueue m =>
      let count := message_fragment_count m (sr_fragment_capacity s) in
      b' = b /\ n' = if b + sslots s <? n + count then n else n + count
  | SAck _ _ => b <= b' <= n /\ n' = n
  | SDiscard => b' = n /\ n' = n
  | SPoll _ _ _ _ | SBegin | SCapacity _ => b' = b /\ n' = n
  end.

Lemma SInv_step s b c n op :
  SInv s b c n -> send_op_ok op -> send_epoch_ok s (send_step s op) ->
  exists b' c' n', SInv (send_step s op) b' c' n' /\ window_moves s op b n b' n' /\ b <= b' <= n /\ n <= n' /\
    sslots (send_step s op) = sslots s.
Proof.
  intros HI Hop He. pose proof HI as [H Hl Ho Ha Hb]. pose proof (sp_order _ _ _ _ H) as Hord. pose proof (sp_geo _ _ _ _ H) as HG.
  destruct op; cbn [send_step window_moves] in *.
  - destruct (SInv_enqueue s b c n m HI Hop) as (? & ? & ?). eexists b, c, _. split; [done|]. split; [done|]. split; [lia|]. split; [case_match; lia|done].
  - destruct Hop. destruct (SInv_ack s b c n ack now_ms) as (b' & c' & ? & ? & ?); try done. exists b', c', n. split_and?; done || lia.
  - destruct (SInv_poll s b c n now_ms srtt_ms level_index out HI) as (c' & ? & ?). exists b, c', n. split_and?; done || lia.
  - exists b, b, n. split; [|split_and?; done || lia]. constructor; try done.
    apply (SRep_same s _ b c n b); try done; [lia|apply H|apply HG|apply HG].
  - exists n, n, n. cbn [discard_pending fst] in *.
    assert (Hs : sslots (discard_pending s).1 = sslots s) by (unfold sslots; cbn; apply zlen_map).
    split; [|split_and?; done || lia].
    constructor; [|lia|cbn; unfold OUTSTANDING_CAP, WINDOW_FLOOR; lia|done|done].
    constructor; try (apply H || (cbn; lia)).
    + destruct HG. constructor; change (sslots _) with (sslots (discard_pending s).1); rewrite ?Hs; try done.
      intros i slot [_ Hg]%get_inv. cbn in Hg. rewrite list_lookup_fmap in Hg. apply fmap_Some in Hg as (? & _ & ->). cbn. lia.
    + change (regular (sslots (discard_pending s).1) n). rewrite Hs.
      apply (epoch_regular_send s (discard_pending s).1 b c n); [done|lia|apply H|done].
    + change (n <= n + sslots (discard_pending s).1). rewrite Hs. pose proof (ge_slots _ HG). lia.
  - exists b, c, n. unfold set_fragment_capacity in *. destruct (negb _) eqn:E; cbn [fst] in *; [split_and?; done || lia|].
    split; [|split_and?; done || lia]. apply negb_false_iff in E. unfold can_set_fragment_capacity in E. bool_prop.
    constructor; try done. apply (SRep_same s _ b c n c); try done; [apply H|cbn; lia..].
Qed.

Lemma send_reach_SInv s : send_reach s -> exists b c n, SInv s b c n.
Proof.
  induction 1 as [bodies meta storage cap channel s Hnew Hmeta Hby Hst Hcp Hch Hsl|s op _ (b & c & n & HI) Hop He].
  - unfold new_with_capacity in Hnew. destruct (_ || _) eqn:E in Hnew; [done|]. apply bind_ok in Hnew as (want & Hw & Hnew).
    apply ok_or_ok in Hw. unfold checked_mul64 in Hw. destruct (Z.leb_spec (zlen meta * storage) U64_MAX); [|done].
    injection Hw as <-. destruct (negb _) eqn:Hlen in Hnew; [done|]. injection Hnew as <-. bool_prop.
    exists 0, 0, 0. unfold sslots in *. cbn in *. zlen_pose.
    constructor; cbn; try (unfold OUTSTANDING_CAP, WINDOW_FLOOR, U64_MAX; lia).
    constructor; unfold sslots; cbn; try done; try lia.
    + constructor; unfold sslots; cbn; try done; try lia.
      intros i slot [_ Hg]%get_inv. pose proof (Forall_lookup_1 _ _ _ _ Hmeta Hg) as Hd. cbv beta in Hd. rewrite Hd. cbn. lia.
    + right. unfold M32. lia.
  - destruct (SInv_step s b c n op HI Hop He) as (b' & c' & n' & ? & _). eauto.
Qed.

(** ** The pacer's preview *)

Lemma encode_data_total out out' d n :
  encode_data out d = (out', Ok n) -> checked_add64 HEADER_LEN (zlen (data_body d)) = Some n.
Proof. unfold encode_data. intros H. repeat step_in H. by injection H as _ <-. Qed.

(** ** Claims *)

(** Sends of a sequence of scan calls. *)
Record poll_input := mkPollInput { pi_now : f64; pi_srtt : f64; pi_level : Z; pi_out : list Z }.

Fixpoint emissions (inputs : list poll_input) (s : SendRing) : SendRing * Z :=
  match inputs with
  | [] => (s, 0)
  | i :: inputs =>
      let '(s, _, res) := poll_send s (pi_now i) (pi_srtt i) (pi_level i) (pi_out i) in
      let '(s, k) := emissions inputs s in
      (s, k + match res with Some (Ok _) => 1 | _ => 0 end)
  end.

Lemma emissions_bound inputs s b c n :
  SInv s b c n ->
  let '(s', k) := emissions inputs s in sr_outstanding s + k <= sr_outstanding s' <= OUTSTANDING_CAP.
Proof.
  revert s c. induction inputs as [|i inputs IH]; intros s c HI; cbn [emissions]; [destruct HI; lia|].
  pose proof (poll_send_spec s b c n (pi_now i) (pi_srtt i) (pi_level i) (pi_out i) (si_rep _ _ _ _ HI) (si_out _ _ _ _ HI)) as HP.
  destruct (SInv_poll s b c n (pi_now i) (pi_srtt i) (pi_level i) (pi_out i) HI) as (c' & HI' & _).
  destruct (poll_send s _ _ _ _) as [[s1 out1] res]. cbn [fst] in HI'. specialize (IH s1 c' HI').
  destruct (emissions inputs s1) as [s2 k]. destruct HP as [_ HP]. destruct res as [[w|e]|].
  - destruct HP as (? & ? & _ & _ & _ & _ & _ & _ & _ & ? & _). lia.
  - destruct HP as (? & ? & _ & _ & _ & _ & _ & ? & _). lia.
  - destruct HP as (_ & _ & _ & _ & ?). lia.
Qed.

(** (C5) The send window is bounded by the peer's ring: in every ring reachable
    by enqueueing messages, applying acknowledgements, scanning, starting
    passes, discarding and resizing, the acknowledged base, the scan cursor and
    the next sequence are positions [b <= c <= n] with [n - b] at most the ring
    depth, [in_flight] is exactly [n - b], [window_free] the room left, the
    outstanding count never exceeds its cap. Each operation moves the window
    exactly so, with positions fixed by the sequence numbers since none moves
    by more than a ring's depth: an accepted enqueue moves the next sequence
    past its fragments and a refused one nothing, an acknowledgement moves the
    base forward at most to the next sequence, a discard moves the base to it,
    and no other operation moves either, so nothing moves back. *)
Theorem send_window_invariant s :
  send_reach s ->
  exists b c n, b <= c <= n /\ n - b <= sslots s /\
    sr_base s = wrap32 b /\ sr_cursor s = wrap32 c /\ next_sequence s = wrap32 n /\
    in_flight s = n - b /\ window_free s = sslots s - (n - b) /\ 0 <= sr_outstanding s <= OUTSTANDING_CAP /\
    forall op, send_op_ok op -> send_epoch_ok s (send_step s op) ->
      exists b' n', window_moves s op b n b' n' /\ b <= b' <= n /\ n <= n' <= b' + sslots s /\ sslots (send_step s op) = sslots s /\
        sr_base (send_step s op) = wrap32 b' /\ next_sequence (send_step s op) = wrap32 n'.
Proof.
  intros (b & c & n & HI)%send_reach_SInv. pose proof HI as [H _ Ho _ _]. exists b, c, n.
  pose proof (sp_order _ _ _ _ H). pose proof (sp_span _ _ _ _ H). pose proof (ge_slots _ (sp_geo _ _ _ _ H)).
  assert (Hif : in_flight s = n - b).
  { unfold in_flight. rewrite (sp_next _ _ _ _ H), (sp_base _ _ _ _ H), wrapping_sub_wrap. apply wrap32_small. unfold M32. lia. }
  split; [done|]. split; [lia|]. split; [apply H|]. split; [apply H|]. split; [apply H|]. split; [done|]. split.
  { unfold window_free. rewrite Hif. fold (sslots s). rewrite try_from_some by (unfold U32_MAX; lia). cbn. unfold saturating_sub. unfold id. lia. }
  split; [done|]. intros op Hop He. destruct (SInv_step s b c n op HI Hop He) as (b' & c' & n' & [H' _ _ _ _] & Hmv & ? & ? & Hs).
  exists b', n'. split; [done|]. split; [done|]. pose proof (sp_span _ _ _ _ H') as Hsp. rewrite Hs in Hsp. split; [lia|].
  split; [done|]. split; apply H'.
Qed.

(** A small ring and message for the concrete instances below. *)
Definition demo_new : SendRing :=
  mkSendRing (replicate 64 0) (replicate 8 SendSlot_default) 8 4 3 0 0 0 None 0 0 0 0 0 0.
Definition demo_message : Message := mkMessage [0; 0; 0; 5] [10; 11] [12; 13; 14].
Definition demo_ring : SendRing := send_step demo_new (SEnqueue demo_message).

Lemma demo_message_ok : Message_ok demo_message.
Proof. repeat split; try (by vm_compute); by apply bytes_ok_b. Qed.

Lemma demo_new_reach : send_reach demo_new.
Proof.
  apply (sreach_new (replicate 64 0) (replicate 8 SendSlot_default) 8 4 3); try (by vm_compute).
  - by repeat constructor.
  - apply bytes_ok_replicate0.
Qed.

Lemma demo_reach : send_reach demo_ring.
Proof. apply sreach_step; [apply demo_new_reach|apply demo_message_ok|by left]. Qed.

Lemma send_window_invariant_witness :
  exists b c n, b <= c <= n /\ in_flight demo_ring = n - b /\ n - b = 3 /\ sr_base (send_step demo_ring SDiscard) = wrap32 n.
Proof.
  destruct (send_window_invariant demo_ring demo_reach) as (b & c & n & Ho & _ & _ & _ & _ & Hif & _ & _ & Hmv). exists b, c, n.
  split; [exact Ho|]. split; [exact Hif|]. split; [rewrite <- Hif; vm_compute; reflexivity|].
  destruct (Hmv SDiscard I) as (b' & n' & [E _] & _ & _ & _ & Eb & _); [by left|]. rewrite Eb, E. reflexivity.
Defined.

(** Enqueueing is exact and all-or-nothing: a message that does not fit
    the window is refused with the ring unchanged; one that fits is always
    accepted, its fragments become the entries at the next positions, in order,
    fresh and unsent, with the last flag on the final one only, and every entry
    already in the window keeps its slot and its bytes. *)
Theorem enqueue_exact s b c n m :
  SInv s b c n -> Message_ok m ->
  let count := message_fragment_count m (sr_fragment_capacity s) in
  if window_free s <? count then enqueue s m = (s, Err BufferTooSmall)
  else exists s', enqueue s m = (s', Ok count) /\ SInv s' b c (n + count) /\ sr_bytes_sent s' = sr_bytes_sent s /\
    (forall i, 0 <= i < count -> entry s' (n + i) = Some (queued m (sr_fragment_capacity s) i)) /\
    (forall q, b <= q < n -> entry s' q = entry s q).
Proof.
  intros HI Hm count. pose proof HI as [H _ _ _ _]. pose proof (sp_span _ _ _ _ H). pose proof (sp_order _ _ _ _ H).
  pose proof (ge_slots _ (sp_geo _ _ _ _ H)).
  destruct (fragment_count_spec m Hm (sr_fragment_capacity s) ltac:(apply H)) as [Hc1 _]. fold count in Hc1.
  assert (Hwf : window_free s = sslots s - (n - b)).
  { unfold window_free, in_flight. fold (sslots s). rewrite try_from_some by (unfold U32_MAX; lia). cbn [default]. change (id ?x) with x.
    rewrite (sp_next _ _ _ _ H), (sp_base _ _ _ _ H), wrapping_sub_wrap, wrap32_small by (unfold M32; lia). unfold saturating_sub. lia. }
  rewrite Hwf. destruct (Z.ltb_spec (sslots s - (n - b)) count).
  - apply (enqueue_refused s b c n); [done|done|]. fold count. lia.
  - destruct (enqueue_ok s b c n m H Hm) as (s' & He & HR & E & Hs & Hent); [fold count; lia|]. cbv zeta in *. fold count in He, HR, E, Hent.
    destruct (SInv_enqueue s b c n m HI Hm) as (HI' & _). cbv zeta in HI'. fold count in HI'.
    rewrite He, (proj2 (Z.ltb_ge _ _)) in HI' by lia. cbn [fst] in HI'.
    exists s'. split; [done|]. split; [done|]. split; [rewrite E; done|]. split.
    + intros i Hi. rewrite Hent by lia. rewrite decide_True by lia. do 2 f_equal. lia.
    + intros q Hq. rewrite Hent by lia. by rewrite decide_False by lia.
Qed.

Lemma enqueue_exact_witness : (enqueue demo_new demo_message).2 = Ok 3 /\ (enqueue demo_ring (mkMessage [0; 0; 0; 20] (replicate 20 1) [])).2 = Err BufferTooSmall.
Proof.
  assert (H0 : exists b c n, SInv demo_new b c n) by apply send_reach_SInv, demo_new_reach.
  destruct H0 as (b & c & n & HI). pose proof (enqueue_exact demo_new b c n demo_message HI demo_message_ok) as HE.
  change (window_free demo_new <? message_fragment_count demo_message (sr_fragment_capacity demo_new)) with false in HE.
  destruct HE as (s' & HE & _). split; [rewrite HE; reflexivity|vm_compute; reflexivity].
Defined.

(** (C6) What the scan puts on the wire is the queued fragment: every emission
    is a packet that parses back to the fragment's channel, sequence, last flag
    and bytes, of a slot that was occupied and due (unsent, negatively
    acknowledged and not yet fast-retransmitted, or past its timeout); the slot
    is marked accordingly and the sent-byte counter grows by its length. An error
    is a buffer too small, or the reserved sequence number, and commits nothing. *)
Theorem poll_send_emission s now srtt li out s' out' r :
  send_reach s -> poll_send s now srtt li out = (s', out', Some r) ->
  exists p slot, get (sr_meta s) (p mod sslots s) = Some slot /\ ss_occupied slot = true /\
    is_due (sr_nack_below s) (wrap32 p) slot now srtt = true /\
    let d := mkData (sr_channel s) (wrap32 p) (ss_last slot) (slot_bytes s p slot) in
    match r with
    | Ok w =>
        parse (take (Z.to_nat w) out') = Ok (PData d) /\ drop (Z.to_nat w) out' = drop (Z.to_nat w) out /\
        sr_meta s' = set_at (sr_meta s) (p mod sslots s) (mark_sent slot (is_nacked (sr_nack_below s) (wrap32 p) slot) now) /\
        sr_bytes_sent s' = saturating_add U64_MAX (sr_bytes_sent s) (ss_len slot) /\
        sr_cursor s' = wrap32 (p + 1)
    | Err e =>
        out' = out /\ sr_meta s' = sr_meta s /\ sr_bytes_sent s' = sr_bytes_sent s /\ sr_cursor s' = wrap32 p /\
        (e = BufferTooSmall \/ e = Malformed /\ wrap32 p = U32_MAX)
    end.
Proof.
  intros (b & c & n & [H _ Ho _ _])%send_reach_SInv HP.
  pose proof (poll_send_spec s b c n now srtt li out H Ho) as HS. rewrite HP in HS.
  destruct HS as (_ & p & slot & Hp & Hg & Hocc & Hdue & Henc & _ & Hr). exists p, slot. do 3 (split; [done|]).
  destruct (slot_bytes_slice s p slot (sp_geo _ _ _ _ H) Hg) as (_ & _ & _ & _ & Hby).
  pose proof (ge_channel _ (sp_geo _ _ _ _ H)) as Hch. cbv zeta. destruct r as [w|e].
  - destruct Hr as (HR & _ & Hm & Hbs). apply encode_data_inv in Henc as (_ & Hne & -> & Hle & ->).
    unfold zlen at 1 2 3. rewrite Nat2Z.id, take_app_length, drop_app_length. cbn [data_seq] in Hne.
    pose proof (wrap32_range p). split; [|split; [done|split; [done|split; [done|apply HR]]]].
    apply parse_data_bytes. unfold Data_ok. cbn. unfold U32_MAX, M32 in *. split; [done|]. split; [lia|done].
  - destruct Hr as (HR & Hm & Hbs). unfold encode_data in Henc. cbn [data_channel data_seq data_body data_last] in Henc.
    rewrite (proj2 (Z.leb_gt _ _)) in Henc by lia. cbn [orb] in Henc.
    destruct (Z.eqb_spec (wrap32 p) U32_MAX); [injection Henc as <- <-; split; [done|split; [done|split; [done|split; [apply HR|by right]]]]|].
    repeat step_in Henc; injection Henc as <- <-; (split; [done|split; [done|split; [done|split; [apply HR|by left]]]]).
Qed.

Lemma poll_send_emission_witness :
  exists s', poll_send demo_ring f_zero f_zero 1 (replicate 16 9) =
    (s', [1; 1; 3; 0; 0; 0; 0; 0; 0; 0; 5; 9; 9; 9; 9; 9], Some (Ok 11)) /\
    exists p slot, get (sr_meta demo_ring) (p mod sslots demo_ring) = Some slot /\ ss_occupied slot = true /\ sr_cursor s' = wrap32 (p + 1).
Proof.
  eexists. split; [vm_compute; reflexivity|].
  match goal with |- exists p slot, _ /\ _ /\ sr_cursor ?s' = _ =>
    assert (HP : poll_send demo_ring f_zero f_zero 1 (replicate 16 9) =
      (s', [1; 1; 3; 0; 0; 0; 0; 0; 0; 0; 5; 9; 9; 9; 9; 9], Some (Ok 11))) by (vm_compute; reflexivity) end.
  destruct (poll_send_emission demo_ring _ _ _ _ _ _ _ demo_reach HP) as (p & slot & H1 & H2 & _ & _ & _ & _ & _ & H3).
  exists p, slot. split; [exact H1|]. split; [exact H2|exact H3].
Defined.

(** The outstanding cap holds: however often the scan is called after a
    pass begins, with whatever clocks, round trips and buffers, at most
    [OUTSTANDING_CAP] packets leave before the next pass, new sends and
    retransmissions together. *)
Theorem pass_send_cap s inputs :
  send_reach s -> (emissions inputs (begin_pass s)).2 <= OUTSTANDING_CAP.
Proof.
  intros (b & c & n & HI)%send_reach_SInv. pose proof HI as [H Hl Ho Ha Hb].
  assert (HI' : SInv (begin_pass s) b b n).
  { constructor; try done. pose proof (sp_order _ _ _ _ H).
    apply (SRep_same s _ b c n b); try done; [lia|apply H|apply H|apply H]. }
  pose proof (emissions_bound inputs (begin_pass s) b b n HI') as HE. destruct (emissions _ _) as [s' k].
  change (sr_outstanding (begin_pass s)) with 0 in HE. cbn. lia.
Qed.

Lemma pass_send_cap_witness :
  (emissions (replicate 5 (mkPollInput f_zero f_zero 1 (replicate 16 0))) (begin_pass demo_ring)).2 = 3 /\ 3 <= OUTSTANDING_CAP.
Proof.
  assert (E : (emissions (replicate 5 (mkPollInput f_zero f_zero 1 (replicate 16 0))) (begin_pass demo_ring)).2 = 3) by (vm_compute; reflexivity).
  split; [exact E|]. rewrite <- E. apply (pass_send_cap demo_ring). exact demo_reach.
Defined.

(** Acknowledgements account exactly: the base moves to the reported
    cumulative position exactly when this channel is reported and the position
    lies beyond the base and not beyond what was assigned (anything else, a
    stale or impossible value, moves nothing); the fragment counter grows by
    the distance moved and the byte counter by the payload of exactly the sent
    fragments crossed, each once; and a round-trip sample is a finite,
    non-negative time from a fragment of this channel. *)
Theorem on_ack_exact s b c n ack now x :
  SInv s b c n -> - 2147483648 < x - b <= 2147483648 ->
  get (ack_cumulative ack) (sr_channel s) = Some (wrap32 x) ->
  let '(s', rtt) := on_ack s ack now in
  let b' := if (sr_channel s <? ack_reported ack) && (b <? x) && (x <=? n) then x else b in
  sr_base s' = wrap32 b' /\ (regular (sslots s) b' -> exists c', SInv s' b' c' n) /\
  sr_acked s' = sat64 (sr_acked s + (b' - b)) /\
  sr_bytes_acked s' = sat64 (sr_bytes_acked s +
    sum_from (fun p => match get (sr_meta s) (p mod sslots s) with
                       | Some slot => if ss_sent slot then ss_len slot else 0 | None => 0 end) b (Z.to_nat (b' - b))) /\
  forall v, rtt = Some v -> f_is_finite v = true /\ (f_zero <=? v)%f64 = true /\ trigger_channel ack = sr_channel s.
Proof.
  intros HI Hx Hcum. pose proof HI as [H Hl Ho Ha Hb].
  pose proof (on_ack_post s b c n ack now x H Hx Hcum Hb Ha) as HP. destruct (on_ack s ack now) as [s' rtt].
  destruct HP as [HP Hrtt]. fold (acked_base s ack b n x). cbv zeta. pose proof HP as [].
  assert (Hbb : b <= acked_base s ack b n x <= n).
  { unfold acked_base. pose proof (sp_order _ _ _ _ H). destruct (_ && _) eqn:E; bool_prop; lia. }
  split; [done|]. split; [|split; [done|split; [|done]]].
  - intros Hr. exists (Z.max c (acked_base s ack b n x)). by apply (SInv_of_ack s s' b c n).
  - rewrite ap_bytes0. do 2 f_equal. apply sum_from_ext. intros p Hp. unfold owed.
    destruct (get (sr_meta s) (p mod sslots s)) as [slot|] eqn:Hg; [|done].
    rewrite (Hl p slot) by (done || lia). cbn. by rewrite andb_true_r.
Qed.

(** The demo message on the wire once. *)
Definition demo_sent : SendRing :=
  fold_left send_step [SBegin; SPoll f_zero f_zero 1 (replicate 16 0); SPoll f_zero f_zero 1 (replicate 16 0);
    SPoll f_zero f_zero 1 (replicate 16 0)] demo_ring.

Definition demo_ack : Ack := mkAck KAck false 3 1 ([0; 0; 0; 2] ++ replicate 15 0) 19.

Lemma demo_sent_reach : send_reach demo_sent.
Proof. unfold demo_sent. cbn [fold_left]. repeat (apply sreach_step; [|done|by left]). apply demo_reach. Qed.

Lemma on_ack_exact_witness :
  let '(s', rtt) := on_ack demo_sent demo_ack (f_of_Z 40) in
  sr_base s' = 2 /\ sr_acked s' = 2 /\ sr_bytes_acked s' = 8 /\ rtt = Some (f_of_Z 40) /\ f_is_finite (f_of_Z 40) = true.
Proof.
  destruct (send_reach_SInv demo_sent demo_sent_reach) as (b & c & n & HI).
  assert (Hb : wrap32 b = 0) by (rewrite <- (sp_base _ _ _ _ (si_rep _ _ _ _ HI)); vm_compute; reflexivity).
  assert (Hg : get (ack_cumulative demo_ack) (sr_channel demo_sent) = Some (wrap32 (b + 2))).
  { rewrite <- wrap32_add_l, Hb. vm_compute. reflexivity. }
  pose proof (on_ack_exact demo_sent b c n demo_ack (f_of_Z 40) (b + 2) HI ltac:(lia) Hg) as HE.
  assert (E : sr_base (on_ack demo_sent demo_ack (f_of_Z 40)).1 = 2 /\ sr_acked (on_ack demo_sent demo_ack (f_of_Z 40)).1 = 2 /\
    sr_bytes_acked (on_ack demo_sent demo_ack (f_of_Z 40)).1 = 8 /\ (on_ack demo_sent demo_ack (f_of_Z 40)).2 = Some (f_of_Z 40)) by (vm_compute; repeat split).
  destruct (on_ack demo_sent demo_ack (f_of_Z 40)) as [s' rtt]. destruct E as (E1 & E2 & E3 & E4). cbn [fst snd] in *.
  destruct HE as (_ & _ & _ & _ & HE). destruct (HE _ E4) as [Hf _]. repeat split; assumption.
Defined.

(** The channel stops at the reserved sequence number: sequence
    [0xffffffff] is legal for the ring to assign but [encode_data] refuses it,
    so once the scan reaches that fragment every call returns [Malformed] and
    leaves the ring exactly as it was, whatever the clock or the buffer: nothing
    beyond it is ever sent, and the serial arithmetic never gets to wrap. *)
Theorem reserved_sequence_wedges s b c n slot now srtt li out :
  SRep s b c n -> c < n -> wrap32 c = U32_MAX -> get (sr_meta s) (c mod sslots s) = Some slot ->
  ss_occupied slot = true -> ss_sent slot = false -> 0 <= sr_outstanding s < OUTSTANDING_CAP ->
  poll_send s now srtt li out = (s, out, Some (Err Malformed)).
Proof.
  intros H Hlt Hw Hg Hocc Hsent Ho. pose proof (sp_order _ _ _ _ H). pose proof (sp_span _ _ _ _ H).
  pose proof (ge_slots _ (sp_geo _ _ _ _ H)).
  rewrite (poll_loop_unfold s b c n) by done. rewrite (sp_cursor _ _ _ _ H), (sp_next _ _ _ _ H).
  assert (Hd : distance (wrap32 c) (wrap32 n) = n - c) by (apply distance_wrap; unfold M32; lia).
  rewrite (proj2 (Z.eqb_neq _ _)).
  2: { intros E. rewrite E in Hd. unfold distance, wrapping_sub32 in Hd. rewrite Z.sub_diag in Hd. change (wrap32 0) with 0 in Hd. lia. }
  destruct (poll_loop_step (Z.to_nat (n - c - 1)) s b c n now srtt (level li) out H Hlt) as (slot' & Hg' & _ & Hemit).
  rewrite Hg in Hg'. injection Hg' as <-. rewrite Hemit.
  2: { unfold is_due. rewrite Hocc, Hsent. rewrite (proj2 (Z.ltb_lt _ _)) by lia. done. }
  pose proof (emit_spec s b c n slot now srtt (level li) out H Hlt Hg Ho) as HE. cbv zeta in HE.
  destruct (emit _ _ _ _ _ _ _ _ _) as [[s' out'] [[w|e]|]]; [| |done].
  - destruct HE as (Henc & _). unfold encode_data in Henc. cbn [data_seq] in Henc. rewrite Hw in Henc.
    rewrite Z.eqb_refl, orb_true_r in Henc. done.
  - destruct HE as (Henc & ->). unfold encode_data in Henc. cbn [data_seq] in Henc. rewrite Hw in Henc.
    rewrite Z.eqb_refl, orb_true_r in Henc. by injection Henc as <- <-.
Qed.

Lemma reserved_sequence_wedges_witness :
  let s := mkSendRing (replicate 8 0) (replicate 8 (fresh_slot 1 true)) 1 1 0 4294967295 1 4294967295 None 0 0 0 0 0 0 in
  poll_send s (f_of_Z 5) f_zero 1 (replicate 100 0) = (s, replicate 100 0, Some (Err Malformed)).
Proof.
  refine (reserved_sequence_wedges _ 4294967295 4294967295 4294967297 (fresh_slot 1 true) (f_of_Z 5) f_zero 1 (replicate 100 0)
    _ _ _ _ _ _ _); try (vm_compute; (reflexivity || (split; [discriminate|reflexivity]))).
  constructor; try (vm_compute; (reflexivity || (split; [discriminate|reflexivity]))).
  - constructor; try (vm_compute; (reflexivity || discriminate || (split; [discriminate|reflexivity]) || (split; [reflexivity|discriminate]) || (split; reflexivity))).
    + apply bytes_ok_replicate0.
    + intros i slot [_ Hs]%get_inv. cbn [sr_meta] in Hs. apply lookup_replicate in Hs as [-> _]. cbn. lia.
  - by left.
  - lia.
  - vm_compute. discriminate.
Defined.

(** A drained ring can still refuse to shrink: cumulative acknowledgements never
    clear [occupied], so slots below [base] keep counting as queued. Here every
    fragment is acknowledged ([in_flight] is zero) and capacity 3 is refused. *)
Example drained_ring_refuses_shrink :
  let s := (on_ack demo_sent (mkAck KAck false 0 0 ([0; 0; 0; 3] ++ replicate 15 0) 19) f_zero).1 in
  in_flight s = 0 /\ set_fragment_capacity s 3 = (s, false).
Proof. vm_compute. split; reflexivity. Qed.

(** The preview can announce a packet the scan then withholds: fragments already
    in a retransmitting state count against the cap during the scan, and the
    preview does not count them. *)
Example preview_announces_withheld_packet :
  let busy := mkSendSlot 1 true true true false 1 f_zero f_zero false in
  let s := mkSendRing (replicate 101 0) (replicate 100 busy ++ [fresh_slot 1 true]) 1 1 0 0 101 0 None 0 0 0 0 0 0 in
  next_due_len s f_zero f_zero 1 = Some 8 /\ (poll_send s f_zero f_zero 1 (replicate 64 0)).2 = None.
Proof. vm_compute. split; reflexivity. Qed.
