(* ===== verification/Channel.v ===== *)
(** * One channel, end to end

    The composition the session performs for a message: [enqueue] on the send
    ring, the scan drained into packets, packets parsed and stored by the
    receiver in whatever order the network delivers them, and [take_message].
    This is the path [Session::send] -> [Session::get_output] ->
    [Session::process_input] -> [Session::receive] of [session.rs], with the
    envelope left out (see the file that models it). *)

From stdpp Require Import gmap.
From S2P Require Import Prelude F64 Seq Packet Message RecvRing Policy SendRing.

(** Call the scan [fuel] times, collecting the packets it writes. *)
Fixpoint drain (fuel : nat) (s : SendRing) (now srtt : f64) (li : Z) (out : list Z) : SendRing * list (list Z) :=
  match fuel with
  | O => (s, [])
  | S fuel =>
      match poll_send s now srtt li out with
      | (s, out', Some (Ok w)) =>
          let '(s, packets) := drain fuel s now srtt li out in (s, take (Z.to_nat w) out' :: packets)
      | (s, _, _) => (s, [])
      end
  end.

(** The data branch of [Session::process_packet] for this channel. *)
Definition deliver (channel : Z) (r : RecvRing) (packet : list Z) : RecvRing :=
  match parse packet with
  | Ok (PData d) => if data_channel d =? channel then (store r (data_seq d) (data_body d)).1 else r
  | _ => r
  end.

(** The packet that carries fragment [i] of [m] at position [n + i]. *)
Definition wire (m : Message) (cap channel n i : Z) : list Z :=
  data_bytes (mkData channel (wrap32 (n + i)) (i =? message_fragment_count m cap - 1) (fragment_body m i cap)).

(** ** Draining a queued message *)

(** Fragments [k ..] of [m] are queued, unsent, from position [n + k] on. *)
Definition pending (s : SendRing) (m : Message) (cap n k : Z) : Prop :=
  forall i, k <= i < message_fragment_count m cap -> entry s (n + i) = Some (queued m cap i).

Lemma poll_pending s b n m cap k now srtt li out :
  let count := message_fragment_count m cap in
  SRep s b (n + k) (n + count) -> Message_ok m -> 0 < cap -> b <= n -> 0 <= k < count ->
  pending s m cap n k -> 0 <= sr_outstanding s < OUTSTANDING_CAP ->
  wrap32 (n + k) <> U32_MAX -> HEADER_LEN + cap <= zlen out <= U64_MAX ->
  exists s' out', poll_send s now srtt li out = (s', out', Some (Ok (zlen (wire m cap (sr_channel s) n k)))) /\
    take (Z.to_nat (zlen (wire m cap (sr_channel s) n k))) out' = wire m cap (sr_channel s) n k /\
    SRep s' b (n + (k + 1)) (n + count) /\ sr_outstanding s' = sr_outstanding s + 1 /\
    sr_channel s' = sr_channel s /\ pending s' m cap n (k + 1).
Proof.
  intros count H Hm Hcap Hbn Hk Hpen Ho Hw Hout.
  pose proof (sp_order _ _ _ _ H). pose proof (sp_span _ _ _ _ H). pose proof (sp_geo _ _ _ _ H) as HG. pose proof (ge_slots _ HG).
  rewrite (poll_loop_unfold s b (n + k) (n + count)) by done. rewrite (sp_cursor _ _ _ _ H), (sp_next _ _ _ _ H).
  assert (Hd : distance (wrap32 (n + k)) (wrap32 (n + count)) = n + count - (n + k)) by (apply distance_wrap; unfold M32; lia).
  rewrite (proj2 (Z.eqb_neq _ _)).
  2: { intros E. rewrite E in Hd. unfold distance, wrapping_sub32 in Hd. rewrite Z.sub_diag in Hd. change (wrap32 0) with 0 in Hd. lia. }
  destruct (poll_loop_step (Z.to_nat (n + count - (n + k) - 1)) s b (n + k) (n + count) now srtt (level li) out H ltac:(lia))
    as (slot & Hg & _ & Hemit).
  pose proof (Hpen k ltac:(fold count; lia)) as Hent. unfold entry in Hent. rewrite Hg in Hent. cbn in Hent. injection Hent as Hslot Hbytes.
  rewrite Hemit by (rewrite Hslot; unfold is_due; rewrite (proj2 (Z.ltb_lt _ _)) by lia; done).
  pose proof (emit_spec s b (n + k) (n + count) slot now srtt (level li) out H ltac:(lia) Hg Ho) as HE. cbv zeta in HE.
  destruct (zlen_fragment_body m Hm k cap Hcap Hk) as [_ Hfl].
  assert (Hby : bytes_ok (fragment_body m k cap)) by (apply Forall_take, Forall_drop, (bytes_ok_stream m Hm)).
  rewrite Hbytes in HE. pose proof (wrap32_range (n + k)).
  rewrite encode_data_ok in HE.
  2: { unfold Data_ok. cbn. split; [apply HG|]. split; [unfold U32_MAX, M32 in *; lia|done]. }
  2: { cbn. lia. } 2: { lia. }
  assert (Hwire : data_bytes (mkData (sr_channel s) (wrap32 (n + k)) (ss_last slot) (fragment_body m k cap)) = wire m cap (sr_channel s) n k)
    by (rewrite Hslot; done).
  rewrite Hwire in HE.
  assert (Hz : HEADER_LEN + zlen (data_body (mkData (sr_channel s) (wrap32 (n + k)) (ss_last slot) (fragment_body m k cap))) =
    zlen (wire m cap (sr_channel s) n k)) by (unfold wire; rewrite zlen_data_bytes; done).
  rewrite Hz in HE. destruct (emit _ _ _ _ _ _ _ _ _) as [[s' out'] [[w|e]|]]; [|by destruct HE|done].
  destruct HE as (Henc & HR & (Eb & Esl & _ & Ech & _) & Hmeta & Hou & _). injection Henc as <- <-.
  exists s', (wire m cap (sr_channel s) n k ++ drop (length (wire m cap (sr_channel s) n k)) out). split; [done|].
  split; [unfold zlen; rewrite Nat2Z.id; apply take_app_length|].
  split; [by rewrite Z.add_assoc|]. split; [done|]. split; [done|].
  intros i Hi. assert (Hs : sslots s' = sslots s) by (unfold sslots; rewrite Hmeta; apply zlen_set_at).
  rewrite <- (Hpen i ltac:(lia)). unfold entry, slot_bytes. rewrite Hs, Hmeta, Eb, Esl.
  pose proof (get_inv _ _ _ Hg) as [Hi' _]. rewrite get_set_at by done.
  rewrite decide_False; [done|]. intros He. apply (mod_window_inj _ b) in He; unfold count in *; lia.
Qed.

Lemma drain_pending (j : nat) s b n m cap k now srtt li out :
  let count := message_fragment_count m cap in
  SRep s b (n + k) (n + count) -> Message_ok m -> 0 < cap -> b <= n -> 0 <= k -> k + Z.of_nat j = count ->
  pending s m cap n k -> 0 <= sr_outstanding s -> sr_outstanding s + Z.of_nat j <= OUTSTANDING_CAP ->
  (forall i, 0 <= i < count -> wrap32 (n + i) <> U32_MAX) -> HEADER_LEN + cap <= zlen out <= U64_MAX ->
  (drain j s now srtt li out).2 = (fun i => wire m cap (sr_channel s) n i) <$> seqZ k (Z.of_nat j).
Proof.
  intros count. revert s k. induction j as [|j IH]; intros s k H Hm Hcap Hbn Hk Hj Hpen Ho Hcap' Hw Hout; [done|].
  cbn [drain].
  destruct (poll_pending s b n m cap k now srtt li out H Hm Hcap Hbn ltac:(fold count; lia) Hpen ltac:(lia) (Hw k ltac:(lia)) Hout)
    as (s' & out' & -> & Htake & HR & Hou & Hch & Hpen').
  specialize (IH s' (k + 1) HR Hm Hcap Hbn ltac:(lia) ltac:(lia) Hpen' ltac:(lia) ltac:(lia) Hw Hout).
  destruct (drain j s' now srtt li out) as [s2 packets]. cbn [snd] in *. rewrite Htake, IH, Hch.
  rewrite (seqZ_cons k (Z.of_nat (S j))) by lia. cbn [fmap list_fmap]. f_equal.
  replace (Z.pred (Z.of_nat (S j))) with (Z.of_nat j) by lia. by replace (Z.succ k) with (k + 1) by lia.
Qed.

(** Packets of a message, delivered, are its fragments stored. *)
Lemma deliver_wire m cap channel n i r :
  Message_ok m -> 0 <= channel < CHANNEL_COUNT -> wrap32 (n + i) <> U32_MAX ->
  deliver channel r (wire m cap channel n i) = (store r (wrap32 (n + i)) (fragment_body m i cap)).1.
Proof.
  intros Hm Hch Hw. unfold deliver, wire. rewrite parse_data_bytes.
  - cbn. by rewrite Z.eqb_refl.
  - unfold Data_ok. cbn. pose proof (wrap32_range (n + i)). split; [done|]. split; [unfold U32_MAX, M32 in *; lia|].
    apply Forall_take, Forall_drop, (bytes_ok_stream m Hm).
Qed.

Lemma deliver_all m cap channel n order r :
  Message_ok m -> 0 <= channel < CHANNEL_COUNT -> (forall i, i ∈ order -> wrap32 (n + i) <> U32_MAX) ->
  fold_left (deliver channel) ((fun i => wire m cap channel n i) <$> order) r = offer_all m cap n order r.
Proof.
  intros Hm Hch. revert r. induction order as [|i order IH]; intros r Hw; [done|].
  cbn [fmap list_fmap fold_left offer_all]. rewrite deliver_wire by (try done; apply Hw, list_elem_of_here).
  apply IH. intros j Hj. apply Hw. by apply list_elem_of_further.
Qed.

Lemma wire_inj m cap channel n i j :
  Message_ok m -> 0 <= channel < CHANNEL_COUNT -> wrap32 (n + i) <> U32_MAX -> wrap32 (n + j) <> U32_MAX ->
  Z.abs (i - j) < M32 -> wire m cap channel n i = wire m cap channel n j -> i = j.
Proof.
  intros Hm Hch Hi Hj Hij E. unfold wire in E. apply (f_equal parse) in E.
  assert (Hok : forall k, wrap32 (n + k) <> U32_MAX ->
    Data_ok (mkData channel (wrap32 (n + k)) (k =? message_fragment_count m cap - 1) (fragment_body m k cap))).
  { intros k Hk. unfold Data_ok. cbn. pose proof (wrap32_range (n + k)). split; [done|]. split; [unfold U32_MAX, M32 in *; lia|].
    apply Forall_take, Forall_drop, (bytes_ok_stream m Hm). }
  rewrite !parse_data_bytes in E by auto. injection E as E _ _.
  assert (Hd : wrap32 (i - j) = 0).
  { replace (i - j) with (n + i - (n + j)) by lia. rewrite <- wrap32_sub_l, <- wrap32_sub_r, E, Z.sub_diag. done. }
  unfold wrap32 in Hd. apply Z.mod_divide in Hd as [k Hk]; [|unfold M32; lia]. unfold M32 in *. lia.
Qed.

(** Anything the network made of a message's packets is some order of its
    fragment indices. *)
Lemma arrivals_indices m cap channel n count (arrivals : list (list Z)) :
  (forall x, x ∈ arrivals -> x ∈ (fun i => wire m cap channel n i) <$> seqZ 0 count) ->
  exists order : list Z, arrivals = (fun i => wire m cap channel n i) <$> order /\ forall i, i ∈ order -> 0 <= i < count.
Proof.
  induction arrivals as [|x arrivals IH]; intros H.
  - exists []. split; [done|]. intros i Hi. by apply not_elem_of_nil in Hi.
  - destruct IH as (order & -> & Ho); [intros y Hy; apply H; by apply list_elem_of_further|].
    destruct (proj1 (list_elem_of_fmap _ _ _) (H x (list_elem_of_here _ _))) as (i & -> & Hi%elem_of_seqZ).
    exists (i :: order). split; [done|]. intros j [->|Hj]%elem_of_cons; [lia|auto].
Qed.

(** Packets of a message the reader is past are ignored. *)
Lemma deliver_behind m cap channel n count r (late : list (list Z)) :
  Message_ok m -> 0 <= channel < CHANNEL_COUNT -> (forall i, 0 <= i < count -> wrap32 (n + i) <> U32_MAX) ->
  count < 2147483648 -> rr_delivered r = wrap32 (n + count) ->
  (forall x, x ∈ late -> x ∈ (fun i => wire m cap channel n i) <$> seqZ 0 count) ->
  fold_left (deliver channel) late r = r.
Proof.
  intros Hm Hch Hw Hc Hd Hl. destruct (arrivals_indices m cap channel n count late Hl) as (order & -> & Ho). clear Hl.
  induction order as [|i order IH]; [done|]. cbn [fmap list_fmap fold_left].
  pose proof (Ho i (list_elem_of_here _ _)) as Hi. rewrite deliver_wire by (try done; by apply Hw).
  rewrite (store_behind r (n + i) (n + count)) by (done || lia). apply IH. intros j Hj. apply Ho. by apply list_elem_of_further.
Qed.

(** (C1) A message crosses the channel intact, and once: from an idle sender
    and an idle receiver at the same position, a message that fits both windows
    and one pass is enqueued, one pass of the scan yields exactly its packets,
    and whatever order the network delivers those packets in, with whatever
    duplicates, as long as none is lost for good and none is foreign, the
    receiver's [take_message] returns exactly [header ++ payload], with the
    cumulative acknowledgement one past the last fragment. Afterwards the
    receiver stands one past the last fragment, has nothing further to give to
    any buffer, and any later copies of those packets leave it as it is. *)
Theorem message_crosses_channel s r n m now srtt li out buf (arrivals : list (list Z)) :
  let cap := sr_fragment_capacity s in
  let count := message_fragment_count m cap in
  SInv s n n n -> Rep r (mkWindow n ∅) n n -> Message_ok m ->
  LENGTH_PREFIX_LEN <= cap <= rr_slot_len r ->
  count <= sslots s -> count <= slots r -> count <= OUTSTANDING_CAP ->
  (forall i, 0 <= i < count -> wrap32 (n + i) <> U32_MAX) ->
  HEADER_LEN + cap <= zlen out <= U64_MAX -> total_len m <= zlen buf ->
  let packets := (drain (Z.to_nat count) (begin_pass (enqueue s m).1) now srtt li out).2 in
  (forall x, x ∈ arrivals <-> x ∈ packets) ->
  let r1 := fold_left (deliver (sr_channel s)) arrivals r in
  cumulative_ack r1 = wrap32 (n + count) /\
  exists r', take_message r1 buf =
    (r', msg_header m ++ msg_payload m ++ drop (Z.to_nat (total_len m)) buf, Some (Ok (total_len m))) /\
    rr_delivered r' = wrap32 (n + count) /\ cumulative_ack r' = wrap32 (n + count) /\
    forall late buf', (forall x, x ∈ late -> x ∈ packets) ->
      fold_left (deliver (sr_channel s)) late r' = r' /\ take_message r' buf' = (r', buf', None).
Proof.
  intros cap count HI HR Hm Hcap Hc1 Hc2 Hc3 Hw Hout Hbuf packets Harr r1. pose proof HI as [H _ _ _ _].
  pose proof (sp_geo _ _ _ _ H) as HG. pose proof (ge_slots _ HG) as Hsl. pose proof (ge_channel _ HG) as Hch.
  destruct (fragment_count_spec m Hm cap ltac:(apply HG)) as [Hn1 _]. fold count in Hn1.
  destruct (enqueue_ok s n n n m H Hm) as (s1 & He & HR1 & E1 & Hs1 & Hent); [fold cap; fold count; lia|]. fold cap in Hent, HR1. cbv zeta in *.
  assert (HB : SRep (begin_pass s1) n n (n + count)).
  { apply (SRep_same s1 _ n n (n + count) n); try done; [lia|apply HR1|apply HR1|apply HR1]. }
  assert (Hpk : packets = (fun i => wire m cap (sr_channel s) n i) <$> seqZ 0 count).
  { subst packets. rewrite He. cbn [fst]. replace (sr_channel s) with (sr_channel (begin_pass s1)) by (rewrite E1; done).
    rewrite <- (Z2Nat.id count) at 2 by lia.
    apply (drain_pending (Z.to_nat count) (begin_pass s1) n n m cap 0); fold count; rewrite ?Z.add_0_r; try (done || lia).
    - unfold LENGTH_PREFIX_LEN in *. lia.
    - intros i Hi. change (entry (begin_pass s1) (n + i)) with (entry s1 (n + i)). fold count in Hi.
      rewrite Hent by lia. fold count. rewrite decide_True by lia. do 2 f_equal. lia.
    - change (sr_outstanding (begin_pass s1)) with 0. lia. }
  rewrite Hpk in Harr. destruct (arrivals_indices m cap (sr_channel s) n count arrivals) as (order & -> & Hord); [intros x; apply Harr|].
  assert (Hr1 : r1 = offer_all m cap n order r) by (apply deliver_all; [done|done|]; intros i Hi; apply Hw, Hord, Hi).
  destruct (reassemble r n m cap order buf HR Hm Hcap ltac:(apply HG) Hc2 Hbuf) as (Hack & r' & Ht & Hd).
  - intros i. split; [apply Hord|]. intros Hi.
    assert (Hin : wire m cap (sr_channel s) n i ∈ (fun i => wire m cap (sr_channel s) n i) <$> order).
    { apply Harr, list_elem_of_fmap. exists i. split; [done|]. apply elem_of_seqZ. fold count in Hi. lia. }
    apply list_elem_of_fmap in Hin as (j & Hj & Hjo). replace i with j; [done|]. symmetry. fold count in Hi.
    apply (wire_inj m cap (sr_channel s) n i j Hm Hch); try done; [apply Hw; lia|apply Hw, Hord, Hjo|].
    specialize (Hord j Hjo). unfold M32. lia.
  - rewrite Hr1. split; [done|]. exists r'. split; [exact Ht|]. split; [exact Hd|].
    assert (Hcum : rr_cumulative r' = wrap32 (n + count)).
    { pose proof (take_message_cumulative (offer_all m cap n order r) buf) as E. rewrite Ht in E. cbn [fst] in E. by rewrite E. }
    split; [exact Hcum|]. intros late buf' Hlate. rewrite Hpk in Hlate. split; [|apply take_message_caught_up; fold count in Hd; congruence].
    apply (deliver_behind m cap (sr_channel s) n count); try done. pose proof (wf_slots _ (re_wf _ _ _ _ (proj1 HR))). lia.
Qed.

(** The demo message over a real pair of rings, its three packets delivered as
    third, first, third, second. *)
Definition demo_recv : RecvRing := reset_to (mkRecvRing (replicate 32 0) (replicate 8 SlotMeta_default) 4 0 0 0) 0.

Definition demo_arrivals : list (list Z) :=
  (fun i => wire demo_message 4 3 0 i) <$> [2; 0; 2; 1].

Lemma demo_new_SInv : SInv demo_new 0 0 0.
Proof.
  constructor; try (vm_compute; (reflexivity || (split; discriminate))); [|lia].
  constructor; try (vm_compute; reflexivity); [|by left|lia|by vm_compute].
  constructor; try (vm_compute; (reflexivity || discriminate || (split; [discriminate|reflexivity]) || (split; [reflexivity|discriminate]) || (split; reflexivity))).
  - apply bytes_ok_replicate0.
  - intros i slot [_ Hs]%get_inv. cbn [sr_meta demo_new] in Hs. apply lookup_replicate in Hs as [-> _]. cbn. lia.
Qed.

Lemma message_crosses_channel_witness :
  exists r', take_message (fold_left (deliver 3) demo_arrivals demo_recv) (replicate 6 9) =
    (r', [10; 11; 12; 13; 14; 9], Some (Ok 5)) /\ rr_delivered r' = 3 /\ take_message r' [] = (r', [], None).
Proof.
  destruct (message_crosses_channel demo_new demo_recv 0 demo_message f_zero f_zero 1 (replicate 16 0) (replicate 6 9)
    demo_arrivals demo_new_SInv) as (_ & r' & Ht & Hd & _ & Hl).
  - apply reset_to_Rep; [by vm_compute..|by left].
  - apply demo_message_ok.
  - by vm_compute.
  - by vm_compute.
  - by vm_compute.
  - by vm_compute.
  - intros i Hi. change (message_fragment_count demo_message (sr_fragment_capacity demo_new)) with 3 in Hi.
    rewrite wrap32_small by (unfold M32; lia). unfold U32_MAX. lia.
  - by vm_compute.
  - by vm_compute.
  - assert (E : (drain (Z.to_nat (message_fragment_count demo_message (sr_fragment_capacity demo_new)))
      (begin_pass (enqueue demo_new demo_message).1) f_zero f_zero 1 (replicate 16 0)).2 =
      (fun i => wire demo_message 4 3 0 i) <$> [0; 1; 2]) by (vm_compute; reflexivity).
    intros x. rewrite E. unfold demo_arrivals. cbn [fmap list_fmap]. rewrite !elem_of_cons, !elem_of_nil. tauto.
  - exists r'. split; [exact Ht|]. split; [exact Hd|]. destruct (Hl [] []) as [_ E]; [intros x Hx; inversion Hx|exact E].
Defined.
