(* ===== verification/Envelope.v ===== *)
(** * Record envelope and demultiplexing ([core/src/envelope.rs], [core/src/demux.rs])

    Authenticated encryption around every media datagram. The AES-GCM
    implementation is a third-party crate: it is the interface [Aead], whose laws
    [AeadLaws] state the documented behaviour of the in-place detached API, and
    everything here is proved against that interface. *)

From S2P Require Import Prelude Packet.

Definition MAGIC : list Z := [0x17; 0xFE; 0xFD].
Definition NONCE_OFFSET : Z := 3.
Definition SIZE_OFFSET : Z := 11.
Definition TAG_OFFSET : Z := 13.
Definition TAG_LEN : Z := 16.
Definition NONCE_PREFIX_LEN : Z := 4.
Definition CIPHERTEXT_OFFSET : Z := 29.
Definition SIZE_FIELD_BIAS : Z := 45.

Inductive Direction := Host | Guest.

#[export] Instance Direction_eq_dec : EqDecision Direction.
Proof. solve_decision. Defined.

(** [(self as u64) << 63]. *)
Definition seal_bit (d : Direction) : Z :=
  Z.shiftl (match d with Host => 0 | Guest => 1 end) 63.

Definition opposite (d : Direction) : Direction :=
  match d with Host => Guest | Guest => Host end.

Definition from_datagram (datagram : list Z) : option Direction :=
  counter ← slice datagram NONCE_OFFSET (NONCE_OFFSET + 8);
  first ← get counter 0;
  Some (if Z.land first 0x80 =? 0 then Host else Guest).

Inductive Cipher := Aes128 | Aes256.

#[export] Instance Cipher_eq_dec : EqDecision Cipher.
Proof. solve_decision. Defined.

Definition key_len (c : Cipher) : Z := match c with Aes128 => 16 | Aes256 => 32 end.

(** ** The AEAD interface

    [encrypt_in_place_detached] and [decrypt_in_place_detached] with no
    associated data: they transform the buffer in place; encryption yields the
    tag or fails, decryption succeeds or fails. *)

Class Aead := {
  encrypt_in_place : Cipher -> list Z -> list Z -> list Z -> list Z * option (list Z);
  decrypt_in_place : Cipher -> list Z -> list Z -> list Z -> list Z -> list Z * bool;
}.

Class AeadLaws (A : Aead) : Prop := {
  encrypt_length c k n b : zlen (encrypt_in_place c k n b).1 = zlen b;
  encrypt_bytes c k n b : bytes_ok b -> bytes_ok (encrypt_in_place c k n b).1;
  encrypt_tag c k n b t : (encrypt_in_place c k n b).2 = Some t -> zlen t = TAG_LEN /\ bytes_ok t;
  decrypt_encrypt c k n b t :
    (encrypt_in_place c k n b).2 = Some t ->
    decrypt_in_place c k n (encrypt_in_place c k n b).1 t = (b, true);
  decrypt_length c k n b t : zlen (decrypt_in_place c k n b t).1 = zlen b;
  decrypt_bytes c k n b t : bytes_ok b -> bytes_ok (decrypt_in_place c k n b t).1;
}.

(** [Keyed] and [Envelope]. The cipher state is its key. *)
Record Envelope := mkEnvelope {
  env_cipher : Cipher;
  env_key : list Z;
  env_nonce_prefix : list Z;
}.

Record Opened := mkOpened { op_counter : Z; op_cleartext : list Z }.

(** [Envelope::build]. *)
Definition build (key : list Z) (cipher : Cipher) (nonce_prefix : list Z) : Envelope :=
  mkEnvelope cipher key nonce_prefix.

Definition from_credential (material : list Z) (cipher : Cipher) : result Envelope :=
  let key_len := key_len cipher in
  key ← ok_or (slice_to material key_len) BadKeyLength;
  prefix ← ok_or (slice material key_len (key_len + NONCE_PREFIX_LEN)) BadKeyLength;
  Ok (build key cipher prefix).

Definition from_key (key : list Z) : result Envelope :=
  if zlen key =? 16 then Ok (build key Aes128 (replicate 4 0)) else
  if zlen key =? 32 then Ok (build key Aes256 (replicate 4 0)) else
  Err BadKeyLength.

Definition nonce_bytes (e : Envelope) (counter : Z) : list Z :=
  env_nonce_prefix e ++ be_bytes 8 counter.

Section with_aead.
Context `{A : Aead}.

(** [Envelope::seal_in_place]. The header's slots tile its 29 bytes, so the
    source's four writes are one. *)
Definition seal_in_place (e : Envelope) (counter plaintext_len : Z) (out : list Z) : list Z * result Z :=
  match checked_add64 plaintext_len ENVELOPE_LEN with
  | None => (out, Err Oversized)
  | Some total =>
      if MAX_DATAGRAM <? total then (out, Err Oversized) else
      match slice out CIPHERTEXT_OFFSET total with
      | None => (out, Err BufferTooSmall)
      | Some body =>
          let '(body, tag) := encrypt_in_place (env_cipher e) (env_key e) (nonce_bytes e counter) body in
          match tag with
          | None => (default out (write out CIPHERTEXT_OFFSET body), Err Decrypt)
          | Some tag =>
              let size := (default U16_MAX (try_from U16_MAX plaintext_len) + SIZE_FIELD_BIAS) mod 65536 in
              (default out (write out 0 (MAGIC ++ be_bytes 8 counter ++ be_bytes 2 size ++ tag ++ body)), Ok total)
          end
      end
  end.

Definition seal (e : Envelope) (counter : Z) (plaintext out : list Z) : list Z * result Z :=
  match checked_add64 (zlen plaintext) ENVELOPE_LEN with
  | None => (out, Err Oversized)
  | Some total =>
      match write out CIPHERTEXT_OFFSET plaintext with
      | None => (out, Err BufferTooSmall)
      | Some out => seal_in_place e counter (zlen plaintext) out
      end
  end.

(** [Envelope::open]: the cleartext is the front of the returned buffer. *)
Definition open (e : Envelope) (datagram out : list Z) : list Z * result Opened :=
  if zlen datagram <? ENVELOPE_LEN then (out, Err ShortDatagram) else
  let cleartext_len := zlen datagram - ENVELOPE_LEN in
  match slice datagram NONCE_OFFSET (NONCE_OFFSET + 8),
        slice datagram TAG_OFFSET (TAG_OFFSET + TAG_LEN),
        slice_from datagram CIPHERTEXT_OFFSET with
  | Some counter_bytes, Some tag_bytes, Some ciphertext =>
      let counter := be_val counter_bytes in
      if zlen out <? cleartext_len then (out, Err BufferTooSmall) else
      let '(body, ok) := decrypt_in_place (env_cipher e) (env_key e) (nonce_bytes e counter) ciphertext tag_bytes in
      let out := default out (write out 0 body) in
      if ok then (out, Ok (mkOpened counter body)) else (out, Err Decrypt)
  | _, _, _ => (out, Err ShortDatagram)
  end.

End with_aead.

(** ** Demultiplexing *)

Inductive Datagram := Check | Record_.

Definition classify_datagram (datagram : list Z) : Datagram :=
  match get datagram 0, get datagram 1 with
  | Some high, Some low => if (high <=? 1) && (low =? 1) && (2 <? zlen datagram) then Check else Record_
  | _, _ => Record_
  end.

(** ** Round trip *)

(** The bytes of a sealed record. *)
Definition record_bytes (counter size : Z) (tag body : list Z) : list Z :=
  MAGIC ++ be_bytes 8 counter ++ be_bytes 2 size ++ tag ++ body.

Section facts.
Context `{A : Aead} {L : AeadLaws A}.

Lemma zlen_record counter size tag body : zlen tag = TAG_LEN -> zlen (record_bytes counter size tag body) = ENVELOPE_LEN + zlen body.
Proof. intros Ht. unfold record_bytes, MAGIC, TAG_LEN, ENVELOPE_LEN in *. zlia. Qed.

(** The fields of a record, read back. *)
Lemma record_slices counter size tag body rest :
  zlen tag = TAG_LEN ->
  let d := record_bytes counter size tag body ++ rest in
  slice d NONCE_OFFSET (NONCE_OFFSET + 8) = Some (be_bytes 8 counter) /\
  slice d TAG_OFFSET (TAG_OFFSET + TAG_LEN) = Some tag /\
  slice d CIPHERTEXT_OFFSET (CIPHERTEXT_OFFSET + zlen body) = Some body.
Proof.
  intros Ht d. unfold NONCE_OFFSET, TAG_OFFSET, CIPHERTEXT_OFFSET, TAG_LEN in *. split; [|split].
  - apply (slice_at _ MAGIC _ (be_bytes 2 size ++ tag ++ body ++ rest)); [|unfold MAGIC; zlia..].
    unfold d, record_bytes. by rewrite <- !app_assoc.
  - apply (slice_at _ (MAGIC ++ be_bytes 8 counter ++ be_bytes 2 size) _ (body ++ rest)); [|unfold MAGIC; zlia..].
    unfold d, record_bytes. by rewrite <- !app_assoc.
  - apply (slice_at _ (MAGIC ++ be_bytes 8 counter ++ be_bytes 2 size ++ tag) _ rest); [|unfold MAGIC; zlia..].
    unfold d, record_bytes. by rewrite <- !app_assoc.
Qed.

(** Sealing cleartext that already sits behind 29 bytes of room. *)
Lemma seal_in_place_eq e counter prefix body rest ct tag :
  zlen prefix = ENVELOPE_LEN -> ENVELOPE_LEN + zlen body <= MAX_DATAGRAM ->
  encrypt_in_place (env_cipher e) (env_key e) (nonce_bytes e counter) body = (ct, Some tag) ->
  seal_in_place e counter (zlen body) (prefix ++ body ++ rest) =
    (record_bytes counter ((zlen body + SIZE_FIELD_BIAS) mod 65536) tag ct ++ rest, Ok (zlen body + ENVELOPE_LEN)).
Proof.
  intros Hp Hmax Henc. pose proof (encrypt_length (env_cipher e) (env_key e) (nonce_bytes e counter) body) as Hel.
  pose proof (encrypt_tag (env_cipher e) (env_key e) (nonce_bytes e counter) body tag) as Het. rewrite Henc in *. cbn [fst snd] in *.
  destruct (Het eq_refl) as [Ht _]. pose proof (zlen_nonneg body). unfold ENVELOPE_LEN, MAX_DATAGRAM in *.
  set (size := (zlen body + SIZE_FIELD_BIAS) mod 65536).
  pose proof (zlen_record counter size tag ct Ht) as Hrl. unfold ENVELOPE_LEN in *.
  unfold seal_in_place, ENVELOPE_LEN, MAX_DATAGRAM, CIPHERTEXT_OFFSET. rewrite checked_add64_some by (unfold U64_MAX; lia).
  rewrite (proj2 (Z.ltb_ge _ _)) by lia. rewrite slice_mid by lia. rewrite Henc, try_from_some by (unfold U16_MAX; lia).
  cbn [default]. change (id ?x) with x. fold size (record_bytes counter size tag ct).
  destruct (write (prefix ++ body ++ rest) 0 (record_bytes counter size tag ct)) as [out|] eqn:Hw.
  - cbn [default]. change (id ?x) with x. f_equal. apply write_inv in Hw as (_ & _ & ->).
    change (take (Z.to_nat 0) (prefix ++ body ++ rest)) with (@nil Z). rewrite app_nil_l. f_equal.
    rewrite app_assoc. apply drop_app_length'. rewrite length_app. unfold zlen in *. lia.
  - rewrite write_some in Hw; [done|lia|]. zlia.
Qed.

Lemma seal_eq e counter plaintext out ct tag :
  zlen plaintext + ENVELOPE_LEN <= zlen out -> zlen plaintext + ENVELOPE_LEN <= MAX_DATAGRAM ->
  encrypt_in_place (env_cipher e) (env_key e) (nonce_bytes e counter) plaintext = (ct, Some tag) ->
  seal e counter plaintext out =
    (record_bytes counter ((zlen plaintext + SIZE_FIELD_BIAS) mod 65536) tag ct ++ drop (Z.to_nat (zlen plaintext + ENVELOPE_LEN)) out,
     Ok (zlen plaintext + ENVELOPE_LEN)).
Proof.
  intros Hout Hmax Henc. pose proof (zlen_nonneg plaintext). unfold seal.
  rewrite checked_add64_some by (unfold ENVELOPE_LEN, MAX_DATAGRAM, U64_MAX in *; lia).
  rewrite write_some by (unfold CIPHERTEXT_OFFSET, ENVELOPE_LEN in *; lia).
  rewrite (seal_in_place_eq e counter _ plaintext _ ct tag).
  - do 4 f_equal. unfold CIPHERTEXT_OFFSET, ENVELOPE_LEN. lia.
  - unfold CIPHERTEXT_OFFSET, ENVELOPE_LEN in *. zlia.
  - unfold ENVELOPE_LEN in *. lia.
  - done.
Qed.

(** Opening what a record carries. *)
Lemma open_record e counter size body tag ct out :
  0 <= counter < 2 ^ 64 ->
  encrypt_in_place (env_cipher e) (env_key e) (nonce_bytes e counter) body = (ct, Some tag) -> zlen body <= zlen out ->
  open e (record_bytes counter size tag ct) out = (body ++ drop (length body) out, Ok (mkOpened counter body)).
Proof.
  intros Hc Henc Hout. pose proof (encrypt_length (env_cipher e) (env_key e) (nonce_bytes e counter) body) as Hel.
  pose proof (encrypt_tag (env_cipher e) (env_key e) (nonce_bytes e counter) body tag) as Het.
  pose proof (decrypt_encrypt (env_cipher e) (env_key e) (nonce_bytes e counter) body tag) as Hde. rewrite Henc in *. cbn [fst snd] in *.
  destruct (Het eq_refl) as [Ht _]. specialize (Hde eq_refl). pose proof (zlen_nonneg body).
  pose proof (zlen_record counter size tag ct Ht) as Hrl. destruct (record_slices counter size tag ct [] Ht) as (H1 & H2 & H3).
  rewrite app_nil_r in *. unfold open, slice_from. rewrite Hrl, H1, H2. unfold ENVELOPE_LEN, CIPHERTEXT_OFFSET in *. rewrite H3.
  rewrite (proj2 (Z.ltb_ge _ _)) by lia. rewrite be_val_bytes by (cbn; lia). rewrite Hde.
  rewrite (proj2 (Z.ltb_ge _ _)) by lia. rewrite write_at_0 by done. done.
Qed.

(** Whatever [open] returns has the length the datagram leaves for it. *)
Lemma open_inv e datagram out out' o :
  open e datagram out = (out', Ok o) ->
  zlen datagram = ENVELOPE_LEN + zlen (op_cleartext o) /\ (bytes_ok datagram -> bytes_ok (op_cleartext o)).
Proof.
  unfold open. destruct (zlen datagram <? ENVELOPE_LEN); [done|].
  destruct (slice datagram NONCE_OFFSET _) as [cb|]; [|done]. destruct (slice datagram TAG_OFFSET _) as [tb|]; [|done].
  destruct (slice_from datagram CIPHERTEXT_OFFSET) as [ct|] eqn:Hs; [|done]. destruct (_ <? _); [done|].
  pose proof (decrypt_length (env_cipher e) (env_key e) (nonce_bytes e (be_val cb)) ct tb) as Hl.
  pose proof (decrypt_bytes (env_cipher e) (env_key e) (nonce_bytes e (be_val cb)) ct tb) as Hb.
  destruct (decrypt_in_place _ _ _ _ _) as [body ok]. cbn [fst] in *. destruct ok; [|done]. intros [= _ <-]. cbn [op_cleartext].
  pose proof (zlen_slice _ _ _ _ Hs). split; [unfold ENVELOPE_LEN, CIPHERTEXT_OFFSET in *; lia|].
  intros Hd. apply Hb. by apply (bytes_ok_slice _ _ _ _ Hd Hs).
Qed.

Lemma record_not_check counter size tag ct rest : classify_datagram (record_bytes counter size tag ct ++ rest) = Record_.
Proof. done. Qed.

(** Setting the direction bit of a counter below [2^63] is adding it. *)
Lemma lor_seal_bit d counter :
  0 <= counter < 2 ^ 63 -> Z.lor counter (seal_bit d) = counter + match d with Host => 0 | Guest => 2 ^ 63 end.
Proof.
  intros Hc. destruct d; unfold seal_bit; [by rewrite Z.lor_0_r, Z.add_0_r|]. change (Z.shiftl 1 63) with (2 ^ 63).
  rewrite <- Z.lxor_lor, <- Z.add_nocarry_lxor; [done|..]; apply Z.bits_inj'; intros k Hk; rewrite Z.land_spec, Z.bits_0, Z.pow2_bits_eqb by lia.
  all: destruct (Z.eqb_spec 63 k) as [<-|]; [|apply andb_false_r]; rewrite andb_true_r.
  all: rewrite <- (Z.mod_small counter (2 ^ 63)) by done; apply Z.mod_pow2_bits_high; lia.
Qed.

(** The direction bit of a counter below [2^63]. *)
Lemma record_direction d counter size tag ct rest :
  0 <= counter < 2 ^ 63 -> zlen tag = TAG_LEN ->
  from_datagram (record_bytes (Z.lor counter (seal_bit d)) size tag ct ++ rest) = Some d.
Proof.
  intros Hc Ht. destruct (record_slices (Z.lor counter (seal_bit d)) size tag ct rest Ht) as (H1 & _).
  unfold from_datagram. rewrite H1. cbn [mbind option_bind].
  rewrite lor_seal_bit by done. set (v := counter + _).
  assert (Hg : get (be_bytes 8 v) 0 = Some ((v / 2 ^ 56) mod 256)).
  { unfold be_bytes, get. cbn [le_bytes rev app Z.ltb Z.to_nat lookup list_lookup]. do 2 f_equal.
    rewrite !Z.div_div by lia. reflexivity. }
  rewrite Hg. cbn [mbind option_bind].
  assert (Hv : (v / 2 ^ 56) mod 256 = v / 2 ^ 56).
  { apply Z.mod_small. split; [apply Z.div_pos; [destruct d; lia|lia]|]. apply Z.div_lt_upper_bound; [lia|]. destruct d; lia. }
  rewrite Hv. clear Hg.
  destruct d; unfold v.
  - assert (0 <= (counter + 0) / 2 ^ 56 < 128) by (split; [apply Z.div_pos; lia|apply Z.div_lt_upper_bound; lia]).
    assert (Hb : forall x, is_u8 x -> (128 <=? x) || (Z.land x 128 =? 0) = true) by (intros x Hx; by apply (byte_cases (fun x => (128 <=? x) || (Z.land x 128 =? 0)))).
    specialize (Hb ((counter + 0) / 2 ^ 56) ltac:(unfold is_u8; lia)). rewrite (proj2 (Z.leb_gt _ _)) in Hb by lia. cbn [orb] in Hb. by rewrite Hb.
  - replace (counter + 2 ^ 63) with (counter + 128 * 2 ^ 56) by lia. rewrite Z.div_add by lia.
    assert (0 <= counter / 2 ^ 56 < 128) by (split; [apply Z.div_pos; lia|apply Z.div_lt_upper_bound; lia]).
    assert (Hb : forall x, is_u8 x -> (x <? 128) || negb (Z.land x 128 =? 0) = true) by (intros x Hx; by apply (byte_cases (fun x => (x <? 128) || negb (Z.land x 128 =? 0)))).
    specialize (Hb (counter / 2 ^ 56 + 128) ltac:(unfold is_u8; lia)). rewrite (proj2 (Z.ltb_ge _ _)) in Hb by lia. cbn [orb] in Hb.
    apply negb_true_iff in Hb. by rewrite Hb.
Qed.
End facts.

(** What a successful [seal] establishes. *)
Lemma seal_ok_inv `{A : Aead, L : !AeadLaws A} e counter plaintext out out' n :
  seal e counter plaintext out = (out', Ok n) ->
  exists ct tag, encrypt_in_place (env_cipher e) (env_key e) (nonce_bytes e counter) plaintext = (ct, Some tag) /\
    n = zlen plaintext + ENVELOPE_LEN /\ n <= MAX_DATAGRAM /\ n <= zlen out /\
    out' = record_bytes counter ((zlen plaintext + SIZE_FIELD_BIAS) mod 65536) tag ct ++ drop (Z.to_nat n) out.
Proof.
  intros H. pose proof H as H0. unfold seal in H. unfold checked_add64 in H.
  destruct (zlen plaintext + ENVELOPE_LEN <=? U64_MAX) eqn:E1; [|done].
  destruct (write out CIPHERTEXT_OFFSET plaintext) as [out1|] eqn:Hw; [|done].
  apply write_inv in Hw as (_ & Hl & ->). unfold CIPHERTEXT_OFFSET in *.
  unfold seal_in_place in H. unfold checked_add64 in H. rewrite E1 in H.
  destruct (Z.ltb_spec MAX_DATAGRAM (zlen plaintext + ENVELOPE_LEN)); [done|].
  destruct (slice _ _ _) as [body|] eqn:Hs; [|done].
  rewrite (slice_at _ (take (Z.to_nat 29) out) plaintext (drop (Z.to_nat (29 + zlen plaintext)) out)) in Hs;
    [|done|unfold CIPHERTEXT_OFFSET in *; zlia|unfold ENVELOPE_LEN in *; zlia].
  injection Hs as <-. destruct (encrypt_in_place _ _ _ _) as [ct [tag|]] eqn:Henc; [|done].
  exists ct, tag. split; [done|]. unfold ENVELOPE_LEN in *.
  rewrite (seal_eq e counter plaintext out ct tag) in H0; [|unfold ENVELOPE_LEN in *; lia..|done].
  injection H0 as <- <-. unfold ENVELOPE_LEN. split; [done|]. split; [done|]. split; [lia|done].
Qed.

(** Sealing and opening are inverse: whatever [seal] accepts is a datagram
    of the plaintext plus 29 bytes, within the protocol ceiling, that the
    demultiplexer routes to the record layer, and [open] under the same envelope
    returns the counter and the plaintext, for any AEAD that meets its
    interface. *)
Theorem envelope_round_trip (A : Aead) (L : AeadLaws A) e counter plaintext out out' n buf :
  0 <= counter < 2 ^ 64 -> seal e counter plaintext out = (out', Ok n) -> zlen plaintext <= zlen buf ->
  n = zlen plaintext + ENVELOPE_LEN /\ n <= MAX_DATAGRAM /\
  classify_datagram (take (Z.to_nat n) out') = Record_ /\
  drop (Z.to_nat n) out' = drop (Z.to_nat n) out /\
  open e (take (Z.to_nat n) out') buf = (plaintext ++ drop (length plaintext) buf, Ok (mkOpened counter plaintext)).
Proof.
  intros Hc Hs Hb. apply seal_ok_inv in Hs as (ct & tag & Henc & Hn & Hm & Hl & ->).
  pose proof (encrypt_length (env_cipher e) (env_key e) (nonce_bytes e counter) plaintext) as Hel.
  pose proof (encrypt_tag (env_cipher e) (env_key e) (nonce_bytes e counter) plaintext tag) as Het. rewrite Henc in Hel, Het.
  destruct (Het eq_refl) as [Ht _]. cbn [fst] in Hel.
  set (rec := record_bytes counter _ tag ct).
  assert (Hrl : length rec = Z.to_nat n) by (pose proof (zlen_record counter ((zlen plaintext + SIZE_FIELD_BIAS) mod 65536) tag ct Ht); unfold rec, zlen in *; lia).
  rewrite take_app_length', drop_app_length' by done. split; [done|]. split; [done|]. split; [done|]. split; [done|].
  by apply open_record.
Qed.

(** An AEAD that meets the interface: no secrecy, a constant tag. *)
#[export] Instance null_aead : Aead := {|
  encrypt_in_place _ _ _ b := (b, Some (replicate 16 7));
  decrypt_in_place _ _ _ b t := (b, bool_decide (t = replicate 16 7));
|}.

#[export] Instance null_aead_laws : AeadLaws null_aead.
Proof.
  constructor; cbn; try done.
  - intros c k n b t [= <-]. split; [done|by apply bytes_ok_b].
  - intros c k n b t [= <-]. by rewrite bool_decide_true.
Qed.

Lemma envelope_round_trip_witness :
  let e := build (replicate 16 1) Aes128 [9; 9; 9; 9] in
  exists out', seal e 5 [1; 2; 3] (replicate 40 0) = (out', Ok 32) /\
    open e (take 32 out') (replicate 4 8) = ([1; 2; 3; 8], Ok (mkOpened 5 [1; 2; 3])).
Proof.
  cbv zeta. eexists. split; [vm_compute; reflexivity|].
  refine (proj2 (proj2 (proj2 (proj2 (envelope_round_trip null_aead null_aead_laws (build (replicate 16 1) Aes128 [9; 9; 9; 9]) 5 [1; 2; 3]
    (replicate 40 0) _ 32 (replicate 4 8) _ _ _))))).
  - lia.
  - vm_compute. reflexivity.
  - by vm_compute.
Defined.

Lemma be_bytes_inj n v w : 0 <= v < 256 ^ Z.of_nat n -> 0 <= w < 256 ^ Z.of_nat n -> be_bytes n v = be_bytes n w -> v = w.
Proof. intros Hv Hw E. rewrite <- (be_val_bytes n v Hv), <- (be_val_bytes n w Hw). by rewrite E. Qed.

(** Nonces never repeat across directions: with one key and prefix, the
    nonces of two records are equal only when both the direction and the counter
    are, for counters below [2^63]; and a receiver reads the sealing direction
    off the datagram. *)
Theorem nonces_separate_directions (A : Aead) (L : AeadLaws A) e d1 d2 c1 c2 :
  0 <= c1 < 2 ^ 63 -> 0 <= c2 < 2 ^ 63 ->
  (nonce_bytes e (Z.lor c1 (seal_bit d1)) = nonce_bytes e (Z.lor c2 (seal_bit d2)) -> d1 = d2 /\ c1 = c2) /\
  (forall plaintext out out' n, seal e (Z.lor c1 (seal_bit d1)) plaintext out = (out', Ok n) ->
     from_datagram (take (Z.to_nat n) out') = Some d1).
Proof.
  intros H1 H2. split.
  - unfold nonce_bytes. intros E%app_inv_head. rewrite !lor_seal_bit in E by done.
    apply be_bytes_inj in E; [|cbn; destruct d1; lia|cbn; destruct d2; lia]. destruct d1, d2; (split; [done|lia]) || (exfalso; lia).
  - intros plaintext out out' n Hs. apply seal_ok_inv in Hs as (ct & tag & Henc & Hn & Hm & Hl & ->).
    pose proof (encrypt_length (env_cipher e) (env_key e) (nonce_bytes e (Z.lor c1 (seal_bit d1))) plaintext) as Hel.
    pose proof (encrypt_tag (env_cipher e) (env_key e) (nonce_bytes e (Z.lor c1 (seal_bit d1))) plaintext tag) as Het. rewrite Henc in Hel, Het.
    destruct (Het eq_refl) as [Ht _]. cbn [fst] in Hel.
    pose proof (zlen_record (Z.lor c1 (seal_bit d1)) ((zlen plaintext + SIZE_FIELD_BIAS) mod 65536) tag ct Ht).
    rewrite take_app_length' by (unfold zlen in *; lia).
    rewrite <- (app_nil_r (record_bytes _ _ _ _)). by apply record_direction.
Qed.

Lemma nonces_separate_directions_witness :
  nonce_bytes (build (replicate 16 1) Aes128 [9; 9; 9; 9]) (Z.lor 3 (seal_bit Host)) <>
  nonce_bytes (build (replicate 16 1) Aes128 [9; 9; 9; 9]) (Z.lor 3 (seal_bit Guest)).
Proof.
  intros E. destruct (nonces_separate_directions null_aead null_aead_laws (build (replicate 16 1) Aes128 [9; 9; 9; 9]) Host Guest 3 3
    ltac:(lia) ltac:(lia)) as [H _]. destruct (H E) as [? _]. discriminate.
Defined.
