(* ===== verification/Pmtu.v ===== *)
(** * Path MTU discovery ([core/src/pmtu.rs])

    The DPLPMTUD state machine of one path: it reserves exact-size probes,
    raises the datagram size only on the exact acknowledgement, retries a lost
    probe up to three times and falls back to the floor on a black hole. Every
    method that mutates the state returns it. *)

From S2P Require Import Prelude F64 Packet.

Definition FLOOR : Z := DEFAULT_DATAGRAM.
Definition CEILING : Z := MAX_DATAGRAM.
Definition IPV4_UDP_OVERHEAD : Z := 20 + 8.
Definition IPV6_UDP_OVERHEAD : Z := 40 + 8.
Definition MAX_PROBES : Z := 3.
Definition PROBE_TIMEOUT_MS : f64 := f_of_Z 1000.
Definition REPROBE_INTERVAL_MS : f64 := f_of_Z 600000.
Definition LADDER : list Z := [1280; 1350; 1400].
Definition RELAY_INDICATION_OVERHEAD : Z := 36.
Definition RELAY_CHANNEL_OVERHEAD : Z := 4.

Inductive Path := Direct | RelayIndication | RelayChannel.

Definition overhead (p : Path) : Z :=
  match p with
  | Direct => 0
  | RelayIndication => RELAY_INDICATION_OVERHEAD
  | RelayChannel => RELAY_CHANNEL_OVERHEAD
  end.

Inductive IpVersion := V4 | V6.

Definition ip_udp_overhead (v : IpVersion) : Z :=
  match v with V4 => IPV4_UDP_OVERHEAD | V6 => IPV6_UDP_OVERHEAD end.

Record PathConfig := mkPathConfig {
  pc_path : Path;
  pc_ip_version : IpVersion;
  pc_path_mtu : Z;
}.

Definition default_for (path : Path) : PathConfig := mkPathConfig path V4 1500.
Definition direct_v4 (path_mtu : Z) : PathConfig := mkPathConfig Direct V4 path_mtu.
Definition direct_v6 (path_mtu : Z) : PathConfig := mkPathConfig Direct V6 path_mtu.

(** [PathConfig::max_datagram_size]. *)
Definition config_max_datagram_size (c : PathConfig) : Z :=
  let size := saturating_sub (pc_path_mtu c) (ip_udp_overhead (pc_ip_version c) + overhead (pc_path c)) in
  if size <? CEILING then size else CEILING.

Inductive PathMtuState := Base | Searching | SearchComplete | ErrorState.

#[export] Instance PathMtuState_eq_dec : EqDecision PathMtuState.
Proof. solve_decision. Defined.

(** [pmtu::Probe]. *)
Record MtuProbe := mkMtuProbe { mp_id : Z; mp_size : Z; mp_attempt : Z }.

Record InFlight := mkInFlight { if_probe : MtuProbe; if_sent_ms : f64 }.

Record PathMtu := mkPathMtu {
  pm_config : PathConfig;
  pm_current : Z;
  pm_clamp : Z;
  pm_rung : Z;
  pm_state : PathMtuState;
  pm_next_probe_id : Z;
  pm_probe_attempts : Z;
  pm_probe : option InFlight;
  pm_next_action_ms : f64;
}.

#[export] Instance eta_PathMtu : Eta PathMtu := fun m =>
  mkPathMtu (pm_config m) (pm_current m) (pm_clamp m) (pm_rung m) (pm_state m) (pm_next_probe_id m)
    (pm_probe_attempts m) (pm_probe m) (pm_next_action_ms m).

Definition new_with_config (config : PathConfig) (now_ms : f64) : PathMtu :=
  let clamp := config_max_datagram_size config in
  let state := if clamp <? FLOOR then ErrorState else Base in
  mkPathMtu config FLOOR clamp 0 state 1 0 None (if f_is_finite now_ms then now_ms else f_zero).

(** [PathMtu::new]. *)
Definition pmtu_new (path : Path) : PathMtu := new_with_config (default_for path) f_zero.

Definition datagram_size (m : PathMtu) : Z := pm_current m.
Definition max_datagram_size (m : PathMtu) : Z := pm_clamp m.
Definition body_capacity (m : PathMtu) : Z := saturating_sub (pm_current m) (ENVELOPE_LEN + HEADER_LEN).

Definition settled (m : PathMtu) : bool :=
  match pm_state m with SearchComplete | ErrorState => true | _ => false end.

Definition in_flight_probe (m : PathMtu) : option MtuProbe := if_probe <$> pm_probe m.

(** [LADDER.iter().skip(rung).find(...)], then the exact path ceiling. *)
Definition candidate (m : PathMtu) : option Z :=
  match find (fun size => (pm_current m <? size) && (size <=? pm_clamp m) && (size <=? CEILING))
             (drop (Z.to_nat (pm_rung m)) LADDER) with
  | Some size => Some size
  | None => if (pm_current m <? pm_clamp m) && (pm_clamp m <=? CEILING) then Some (pm_clamp m) else None
  end.

Definition next_probe_size (m : PathMtu) : option Z :=
  if settled m || match pm_probe m with Some _ => true | None => false end then None else candidate m.

Definition allocate_probe_id (m : PathMtu) : PathMtu * Z :=
  let id := if pm_next_probe_id m =? U32_MAX then 1 else pm_next_probe_id m in
  (m <| pm_next_probe_id := saturating_add U32_MAX id 1 |>, id).

Definition complete (m : PathMtu) (now_ms : f64) : PathMtu :=
  m <| pm_probe := None |> <| pm_probe_attempts := 0 |> <| pm_state := SearchComplete |>
    <| pm_next_action_ms := if f_is_finite now_ms then (now_ms + REPROBE_INTERVAL_MS)%f64 else f_inf |>.

Definition start_probe (m : PathMtu) (now_ms : f64) : PathMtu * option MtuProbe :=
  if negb (f_is_finite now_ms) || bool_decide (pm_state m = ErrorState)
     || match pm_probe m with Some _ => true | None => false end then (m, None) else
  if bool_decide (pm_state m = SearchComplete) && (now_ms <? pm_next_action_ms m)%f64 then (m, None) else
  let m := if bool_decide (pm_state m = SearchComplete)
           then m <| pm_state := Searching |> <| pm_probe_attempts := 0 |> else m in
  if (now_ms <? pm_next_action_ms m)%f64 then (m, None) else
  match candidate m with
  | None => (complete m now_ms, None)
  | Some size =>
      let m := m <| pm_state := Searching |> in
      let attempt := saturating_add U8_MAX (pm_probe_attempts m) 1 in
      if MAX_PROBES <? attempt then (complete m now_ms, None) else
      let '(m, id) := allocate_probe_id m in
      let probe := mkMtuProbe id size attempt in
      (m <| pm_probe_attempts := attempt |> <| pm_probe := Some (mkInFlight probe now_ms) |>
         <| pm_next_action_ms := (now_ms + PROBE_TIMEOUT_MS)%f64 |>, Some probe)
  end.

Definition next_timer_ms (m : PathMtu) (now_ms : f64) : f64 :=
  if negb (f_is_finite now_ms) then f_inf else
  let deadline :=
    match pm_probe m with
    | Some in_flight => Some (if_sent_ms in_flight + PROBE_TIMEOUT_MS)%f64
    | None =>
        match pm_state m with
        | ErrorState => None
        | Base | Searching => match candidate m with Some _ => Some (pm_next_action_ms m) | None => None end
        | SearchComplete => Some (pm_next_action_ms m)
        end
    end in
  match deadline with
  | None => f_inf
  | Some deadline => f_max (deadline - now_ms)%f64 f_zero
  end.

Definition on_probe_ack (m : PathMtu) (id size : Z) (now_ms : f64) : PathMtu * bool :=
  match pm_probe m with
  | None => (m, false)
  | Some in_flight =>
      if negb (mp_id (if_probe in_flight) =? id) || negb (mp_size (if_probe in_flight) =? size) then (m, false) else
      if negb (f_is_finite now_ms) || (now_ms <? if_sent_ms in_flight)%f64 || (size <? FLOOR)
         || (pm_clamp m <? size) || (CEILING <? size) then (m, false) else
      let m := m <| pm_probe := None |> <| pm_current := size |>
                 <| pm_rung := Z.min (saturating_add U64_MAX (pm_rung m) 1) (zlen LADDER) |>
                 <| pm_probe_attempts := 0 |> in
      (match candidate m with
       | Some _ => m <| pm_state := Searching |> <| pm_next_action_ms := now_ms |>
       | None => complete m now_ms
       end, true)
  end.

Definition on_probe_timeout (m : PathMtu) (now_ms : f64) : PathMtu * bool :=
  match pm_probe m with
  | None => (m, false)
  | Some in_flight =>
      if negb (f_is_finite now_ms) || (now_ms <? if_sent_ms in_flight + PROBE_TIMEOUT_MS)%f64 then (m, false) else
      let m := m <| pm_probe := None |> in
      (if MAX_PROBES <=? pm_probe_attempts m then complete m now_ms
       else m <| pm_state := Searching |> <| pm_next_action_ms := now_ms |>, true)
  end.

Definition on_probe_send_failed (m : PathMtu) : PathMtu * bool :=
  match pm_probe m with
  | None => (m, false)
  | Some _ =>
      (m <| pm_probe := None |> <| pm_probe_attempts := saturating_sub (pm_probe_attempts m) 1 |>
         <| pm_next_action_ms := f_zero |>, true)
  end.

Definition on_timer (m : PathMtu) (now_ms : f64) : PathMtu * option MtuProbe :=
  let m := match pm_probe m with Some _ => (on_probe_timeout m now_ms).1 | None => m end in
  start_probe m now_ms.

Definition on_black_hole (m : PathMtu) (now_ms : f64) : PathMtu * bool :=
  if bool_decide (pm_state m = ErrorState) then (m, false) else
  let m := m <| pm_probe := None |> <| pm_probe_attempts := 0 |> in
  (if pm_current m =? FLOOR
   then m <| pm_state := ErrorState |> <| pm_next_action_ms := f_inf |>
   else m <| pm_current := FLOOR |> <| pm_rung := 0 |> <| pm_state := Base |>
          <| pm_next_action_ms := if f_is_finite now_ms then now_ms else f_zero |>, true).

(** [PathMtu::reset] and [PathMtu::reset_with_config]. *)
Definition pmtu_reset (_ : PathMtu) (path : Path) : PathMtu := pmtu_new path.
Definition reset_with_config (_ : PathMtu) (config : PathConfig) (now_ms : f64) : PathMtu :=
  new_with_config config now_ms.

(** ** The state machine as a transition system *)

Inductive pmtu_event :=
  | EStart (now_ms : f64)
  | EAck (id size : Z) (now_ms : f64)
  | ETimeout (now_ms : f64)
  | ESendFailed
  | ETimer (now_ms : f64)
  | EBlackHole (now_ms : f64)
  | EReset (config : PathConfig) (now_ms : f64).

Definition pmtu_step (m : PathMtu) (e : pmtu_event) : PathMtu :=
  match e with
  | EStart now => (start_probe m now).1
  | EAck id size now => (on_probe_ack m id size now).1
  | ETimeout now => (on_probe_timeout m now).1
  | ESendFailed => (on_probe_send_failed m).1
  | ETimer now => (on_timer m now).1
  | EBlackHole now => (on_black_hole m now).1
  | EReset config now => reset_with_config m config now
  end.

(** The invariant: sizes legal for the path, at most three attempts, at most
    one probe and only while searching, probe ids in range. *)
Record MtuInv (m : PathMtu) : Prop := {
  mi_floor : FLOOR <= pm_current m;
  mi_clamp : pm_state m <> ErrorState -> pm_current m <= pm_clamp m;
  mi_error : pm_state m = ErrorState -> pm_probe m = None /\ pm_current m = FLOOR;
  mi_ceiling : pm_clamp m <= CEILING;
  mi_attempts : 0 <= pm_probe_attempts m <= MAX_PROBES;
  mi_id : 1 <= pm_next_probe_id m <= U32_MAX;
  mi_probe : forall f, pm_probe m = Some f ->
    1 <= mp_id (if_probe f) < U32_MAX /\ pm_current m < mp_size (if_probe f) <= pm_clamp m /\
    mp_attempt (if_probe f) = pm_probe_attempts m /\ 1 <= pm_probe_attempts m /\ pm_state m = Searching;
}.

Lemma candidate_legal m size : pm_clamp m <= CEILING -> candidate m = Some size -> pm_current m < size <= pm_clamp m.
Proof.
  intros Hc. unfold candidate. destruct (find _ _) as [x|] eqn:Hf.
  - intros [= <-]. apply find_some in Hf as [_ Hf]. bool_prop. lia.
  - case_match; [|done]. intros [= <-]. bool_prop. lia.
Qed.

Lemma new_with_config_inv config now : MtuInv (new_with_config config now).
Proof.
  unfold new_with_config. constructor; cbn; try (unfold FLOOR, CEILING, DEFAULT_DATAGRAM, MAX_PROBES, U32_MAX; lia); try done.
  - intros H. destruct (Z.ltb_spec (config_max_datagram_size config) FLOOR); [done|lia].
  - unfold config_max_datagram_size. case_match; bool_prop; lia.
Qed.

Lemma complete_inv m now :
  FLOOR <= pm_current m -> pm_current m <= pm_clamp m -> pm_clamp m <= CEILING -> 1 <= pm_next_probe_id m <= U32_MAX -> MtuInv (complete m now).
Proof. intros. unfold complete. constructor; cbn; try done; unfold MAX_PROBES; lia. Qed.

Lemma start_probe_inv m now : MtuInv m -> MtuInv (start_probe m now).1.
Proof.
  intros H. unfold start_probe. destruct (_ || _ || _) eqn:Hg; [done|]. bool_prop.
  apply bool_decide_eq_false in H2. destruct (pm_probe m) eqn:Hp; [done|]. destruct H.
  specialize (mi_clamp0 H2).
  destruct (bool_decide (pm_state m = SearchComplete) && _) eqn:Hsc; [constructor; done|].
  set (m1 := if bool_decide (pm_state m = SearchComplete) then _ else m).
  assert (Hm1 : MtuInv m1 /\ pm_probe m1 = None /\ pm_state m1 <> ErrorState).
  { subst m1. case_match; [|split; [constructor; done|done]]. split; [|done]. constructor; cbn; try done; try (intros; congruence); unfold MAX_PROBES; lia. }
  clearbody m1. destruct Hm1 as (HI1 & Hp1 & He1).
  destruct (now <? pm_next_action_ms m1)%f64; [exact HI1|]. destruct HI1. specialize (mi_clamp1 He1).
  destruct (candidate m1) as [size|] eqn:Hcand; [|by apply complete_inv].
  apply candidate_legal in Hcand; [|done]. cbn [pm_probe_attempts set_field].
  destruct (Z.ltb_spec MAX_PROBES (saturating_add U8_MAX (pm_probe_attempts m1) 1)) as [|Hatt]; [by apply complete_inv|].
  unfold allocate_probe_id, saturating_add, U8_MAX, MAX_PROBES, U32_MAX in *. cbn.
  constructor; cbn; try done; unfold MAX_PROBES, U32_MAX; try lia.
  - destruct (Z.eqb_spec (pm_next_probe_id m1) 4294967295); lia.
  - intros f [= <-]. cbn. destruct (Z.eqb_spec (pm_next_probe_id m1) 4294967295); repeat split; try done; lia.
Qed.

Lemma on_probe_timeout_inv m now : MtuInv m -> MtuInv (on_probe_timeout m now).1.
Proof.
  intros H. unfold on_probe_timeout. destruct (pm_probe m) as [f|] eqn:Hp; [|done]. case_match; [done|].
  destruct H. destruct (mi_probe0 f Hp) as (Hid & Hsz & Hat & Ha1 & Hst). cbn [pm_probe_attempts set_field].
  assert (Hcl : pm_current m <= pm_clamp m) by lia.
  cbn [fst]. case_match; [by apply complete_inv|]. constructor; cbn; done.
Qed.

Lemma pmtu_step_inv m e : MtuInv m -> MtuInv (pmtu_step m e).
Proof.
  intros H. destruct e; cbn [pmtu_step].
  - by apply start_probe_inv.
  - unfold on_probe_ack. destruct (pm_probe m) as [f|] eqn:Hp; [|done]. case_match; [done|]. case_match; [done|]. bool_prop.
    destruct H. destruct (mi_probe0 f Hp) as (Hid & Hsz & Hat & Ha1 & Hst). cbn [fst].
    case_match; [|apply complete_inv; cbn; lia].
    constructor; cbn; try done; unfold MAX_PROBES; lia.
  - by apply on_probe_timeout_inv.
  - unfold on_probe_send_failed. destruct (pm_probe m) as [f|] eqn:Hp; [|done]. destruct H.
    constructor; cbn; try done; unfold saturating_sub, MAX_PROBES in *; try lia. intros He. by destruct (mi_error0 He).
  - unfold on_timer. apply start_probe_inv. case_match; [by apply on_probe_timeout_inv|done].
  - unfold on_black_hole. case_match; [done|]. destruct H. cbn [fst pm_current set_field].
    destruct (Z.eqb_spec (pm_current m) FLOOR) as [Hf|Hf]; constructor; cbn; try done; try (unfold MAX_PROBES; lia).
    intros _. apply bool_decide_eq_false in H0. specialize (mi_clamp0 H0). lia.
  - apply new_with_config_inv.
Qed.

Lemma pmtu_steps_inv es m : MtuInv m -> MtuInv (fold_left pmtu_step es m).
Proof. revert m. induction es as [|e es IH]; intros m H; [done|]. apply IH. by apply pmtu_step_inv. Qed.

(** The datagram size is always legal for its path: after any sequence of
    probe starts, acknowledgements (genuine, stale or forged), timeouts, send
    failures, black holes and path changes, the size in use lies between the
    floor and the path's ceiling unless the path is in the error state (where it
    is the floor), at most three attempts are made at one size, and a reserved
    probe is one [encode_probe] accepts, strictly above the current size and
    within the path. *)
Theorem datagram_size_legal config now es :
  let m := fold_left pmtu_step es (new_with_config config now) in
  FLOOR <= datagram_size m <= CEILING /\
  (pm_state m <> ErrorState -> datagram_size m <= max_datagram_size m) /\
  (pm_state m = ErrorState -> datagram_size m = FLOOR /\ in_flight_probe m = None) /\
  0 <= pm_probe_attempts m <= MAX_PROBES /\
  forall p, in_flight_probe m = Some p ->
    Probe_ok (mp_id p) (mp_size p) /\ datagram_size m < mp_size p <= max_datagram_size m /\ 1 <= mp_attempt p <= MAX_PROBES.
Proof.
  intros m. destruct (pmtu_steps_inv es _ (new_with_config_inv config now)) as [H1 H2 H3 H4 H5 H6 H7]. fold m in H1, H2, H3, H4, H5, H6, H7.
  unfold datagram_size, max_datagram_size, in_flight_probe. split; [|split; [done|split; [|split; [done|]]]].
  - destruct (decide (pm_state m = ErrorState)) as [He|He].
    + destruct (H3 He) as [_ ->]. unfold FLOOR, CEILING, DEFAULT_DATAGRAM, MAX_DATAGRAM. lia.
    + specialize (H2 He). lia.
  - intros He. destruct (H3 He) as [-> ->]. done.
  - intros p. destruct (pm_probe m) as [f|] eqn:Hp; [|done]. cbn. intros [= <-]. destruct (H7 f eq_refl) as (? & ? & -> & ? & ?).
    split; [|split; lia]. unfold Probe_ok. unfold FLOOR, CEILING in *. lia.
Qed.

(** Only the exact acknowledgement raises the size: an acknowledgement
    succeeds exactly when a probe is in flight with that id and size, on a clock
    not before the send; it then makes that size current and the search moves
    on; any other acknowledgement leaves the state exactly as it was. No other
    event ever raises the size. *)
Theorem only_exact_ack_raises config start es e :
  let m := fold_left pmtu_step es (new_with_config config start) in
  match e with
  | EAck id size now =>
      let accepted := match pm_probe m with
        | Some f => (mp_id (if_probe f) =? id) && (mp_size (if_probe f) =? size) && f_is_finite now && negb (now <? if_sent_ms f)%f64
        | None => false end in
      on_probe_ack m id size now = ((on_probe_ack m id size now).1, accepted) /\
      (accepted = false -> pmtu_step m e = m) /\
      (accepted = true -> datagram_size (pmtu_step m e) = size /\ datagram_size m < size /\ in_flight_probe (pmtu_step m e) = None /\
                          pm_probe_attempts (pmtu_step m e) = 0)
  | EReset _ _ => True
  | _ => datagram_size (pmtu_step m e) <= datagram_size m
  end.
Proof.
  intros m. pose proof (pmtu_steps_inv es _ (new_with_config_inv config start)) as HI. fold m in HI. clearbody m.
  assert (Hstart : forall m now, datagram_size (start_probe m now).1 = datagram_size m).
  { intros m' now. unfold start_probe, datagram_size, allocate_probe_id, complete.
    destruct (_ || _ || _); [done|]. destruct (_ && _); [done|]. destruct (bool_decide _); cbn; repeat (case_match; try done); cbn. }
  assert (Htime : forall m now, datagram_size (on_probe_timeout m now).1 = datagram_size m).
  { intros m' now. unfold on_probe_timeout, datagram_size, complete. repeat (case_match; try done); cbn. }
  destruct e; cbn [pmtu_step].
  - rewrite Hstart. lia.
  - unfold on_probe_ack. destruct (pm_probe m) as [f|] eqn:Hp; [|done]. destruct HI. destruct (mi_probe0 f Hp) as (Hid & Hsz & _).
    destruct (Z.eqb_spec (mp_id (if_probe f)) id) as [<-|]; cbn [negb orb andb]; [|done].
    destruct (Z.eqb_spec (mp_size (if_probe f)) size) as [<-|]; cbn [negb orb andb]; [|done].
    destruct (f_is_finite now_ms); cbn [negb orb andb]; [|done].
    destruct (_ <? _)%f64; cbn [negb orb]; [done|].
    rewrite (proj2 (Z.ltb_ge _ _)), (proj2 (Z.ltb_ge _ _)), (proj2 (Z.ltb_ge _ _)) by lia. cbn [orb fst]. split; [done|]. split; [done|].
    intros _. unfold datagram_size, in_flight_probe, complete. split; [by case_match|]. split; [lia|]. by case_match.
  - rewrite Htime. lia.
  - unfold on_probe_send_failed, datagram_size. case_match; cbn; lia.
  - unfold on_timer. rewrite Hstart. case_match; [rewrite Htime|]; lia.
  - unfold on_black_hole, datagram_size. case_match; [cbn; lia|]. cbn [fst pm_current set_field]. destruct HI.
    destruct (Z.eqb_spec (pm_current m) FLOOR); cbn; lia.
  - done.
Qed.
