(* ===== verification/SendSafety.v ===== *)
(** * Position-free safety of a send ring

    The part of a send ring's invariant that needs no absolute positions, so
    that it survives every operation, wrap-around included: cursors are [u32]
    values, storage holds bytes, and no occupied slot is longer than the
    fragment capacity. The session relies on it for everything it puts on the
    wire. *)

From S2P Require Import Prelude F64 Seq Packet Message RecvRing Policy SendRing.

Definition slot_fits (cap : Z) (slot : SendSlot) : Prop :=
  0 <= ss_len slot /\ (ss_occupied slot = true -> ss_len slot <= cap).

Record RingOk (r : SendRing) : Prop := {
  ro_channel : 0 <= sr_channel r < CHANNEL_COUNT;
  ro_bytes : bytes_ok (sr_bodies r);
  ro_base : is_u32 (sr_base r);
  ro_next : is_u32 (sr_next r);
  ro_cursor : is_u32 (sr_cursor r);
  ro_cap : 0 < sr_fragment_capacity r <= U16_MAX;
  ro_slots : Forall (slot_fits (sr_fragment_capacity r)) (sr_meta r);
}.

(** ** Cursor moves *)

Lemma RingOk_same r r' :
  RingOk r -> sr_channel r' = sr_channel r -> sr_bodies r' = sr_bodies r -> sr_meta r' = sr_meta r ->
  sr_fragment_capacity r' = sr_fragment_capacity r ->
  is_u32 (sr_base r') -> is_u32 (sr_next r') -> is_u32 (sr_cursor r') -> RingOk r'.
Proof. intros [] E1 E2 E3 E4 ???. constructor; rewrite ?E1, ?E2, ?E3, ?E4; done. Qed.

Lemma RingOk_set r i slot : RingOk r -> slot_fits (sr_fragment_capacity r) slot -> RingOk (r <| sr_meta := set_at (sr_meta r) i slot |>).
Proof. intros [] Hs. constructor; try done. by apply Forall_set_at. Qed.

Lemma RingOk_begin r : RingOk r -> RingOk (begin_pass r).
Proof. intros H. pose proof H as []. by apply (RingOk_same r). Qed.

Lemma RingOk_discard r : RingOk r -> RingOk (discard_pending r).1.
Proof.
  intros []. constructor; cbn; try done. apply Forall_fmap, Forall_true. intros ?. unfold slot_fits. cbn. lia.
Qed.

Lemma can_set_fits r cap :
  RingOk r -> can_set_fragment_capacity r cap = true -> 0 < cap <= U16_MAX /\ Forall (slot_fits cap) (sr_meta r).
Proof.
  intros [] H. unfold can_set_fragment_capacity in H. bool_prop. split; [lia|].
  match goal with E : forallb _ _ = true |- _ => rename E into Hf end. rewrite forallb_forall in Hf.
  rewrite Forall_forall in ro_slots0 |- *. intros slot Hin. specialize (ro_slots0 slot Hin) as [? _].
  split; [done|]. intros Ho. specialize (Hf slot). rewrite Ho in Hf. cbn in Hf. by apply Z.leb_le, Hf.
Qed.

Lemma RingOk_capacity r cap : RingOk r -> RingOk (set_fragment_capacity r cap).1.
Proof.
  intros H. unfold set_fragment_capacity. destruct (negb _) eqn:E; [done|]. apply negb_false_iff in E.
  destruct (can_set_fits r cap H E). destruct H. by constructor.
Qed.

(** ** Enqueueing *)

Definition message_bytes (m : Message) : Prop := bytes_ok (msg_prefix m) /\ bytes_ok (msg_header m) /\ bytes_ok (msg_payload m).

Lemma message_new_bytes h p m : bytes_ok h -> bytes_ok p -> message_new h p = Ok m -> message_bytes m.
Proof.
  intros Hh Hp H. destruct (message_new_ok h p m Hh Hp H) as ((? & ? & E & _) & _). split; [rewrite E; apply be_bytes_ok|done].
Qed.

Lemma byte_at_u8 m i v : message_bytes m -> byte_at m i = Some v -> is_u8 v.
Proof. intros (? & ? & ?). unfold byte_at. repeat case_match; by apply bytes_ok_get. Qed.

Lemma copy_stream_bytes m start offsets out :
  message_bytes m -> bytes_ok out -> bytes_ok (copy_stream m start offsets out).1.
Proof.
  intros Hm. revert out. induction offsets as [|o offsets IH]; intros out Ho; [done|]. cbn [copy_stream].
  destruct (byte_at m (start + o)) as [v|] eqn:Hv; [|done]. apply IH, Forall_set_at; [done|]. by apply (byte_at_u8 m (start + o)).
Qed.

Lemma fragment_safe m i cap out out' res :
  message_bytes m -> bytes_ok out -> 0 < cap -> fragment m i cap out = (out', res) ->
  bytes_ok out' /\ forall f, res = Some (Ok f) -> 0 <= frag_len f <= cap.
Proof.
  intros Hm Ho Hc H. unfold fragment in H. destruct (cap =? 0); [by injection H as <- <-|].
  destruct (checked_mul64 i cap) as [start|]; [|by injection H as <- <-].
  destruct (Z.leb_spec (stream_len m) start); [by injection H as <- <-|].
  destruct (zlen out <? _); [by injection H as <- <-|].
  pose proof (copy_stream_bytes m start (seqZ 0 (Z.min (start + cap) (stream_len m) - start)) out Hm Ho) as Hb.
  destruct (copy_stream _ _ _ _) as [o1 r1]. cbn [fst] in Hb. injection H as <- <-. split; [done|].
  intros f [= E]. apply bind_ok in E as (? & _ & E). injection E as <-. cbn [frag_len]. lia.
Qed.

Lemma RingOk_enqueue_one r m i : RingOk r -> message_bytes m -> RingOk (enqueue_one r m (sr_fragment_capacity r) i).1 /\
  sr_fragment_capacity (enqueue_one r m (sr_fragment_capacity r) i).1 = sr_fragment_capacity r.
Proof.
  intros H Hm. pose proof H as []. unfold enqueue_one.
  destruct (try_from U32_MAX i) as [step|]; [|done]. destruct (checked_mul64 _ _) as [start|]; [|done].
  destruct (slice _ _ _) as [region|] eqn:Hs; [|done].
  pose proof (bytes_ok_slice _ _ _ _ ro_bytes0 Hs) as Hreg.
  destruct (fragment m i _ region) as [region' res] eqn:Hf. destruct (fragment_safe _ _ _ _ _ _ Hm Hreg (proj1 ro_cap0) Hf) as [Hb Hl].
  set (r1 := r <| sr_bodies := _ |>).
  assert (H1 : RingOk r1).
  { constructor; try done. cbn. destruct (write (sr_bodies r) start region') as [l'|] eqn:Hw; [|done]. by apply (bytes_ok_write _ _ _ _ ro_bytes0 Hb Hw). }
  destruct res as [[f|e]|]; [|done|done]. destruct (get (sr_meta r1) _); [|done].
  destruct (try_from U16_MAX (frag_len f)) as [len|] eqn:Ht; [|done]. apply try_from_inv in Ht as [-> _]. cbn [fst]. split; [|done].
  apply RingOk_set; [done|]. specialize (Hl f eq_refl). unfold slot_fits. cbn. lia.
Qed.

Lemma RingOk_enqueue_loop ids r m : RingOk r -> message_bytes m -> RingOk (enqueue_loop r m (sr_fragment_capacity r) ids).1.
Proof.
  intros H Hm. revert r H. induction ids as [|i ids IH]; intros r H; [done|]. cbn [enqueue_loop].
  pose proof (RingOk_enqueue_one r m i H Hm) as [H1 E1]. destruct (enqueue_one _ _ _ _) as [r1 [?|e]]; cbn [fst] in *; [|done].
  rewrite <- E1. by apply IH.
Qed.

Lemma RingOk_enqueue r m : RingOk r -> message_bytes m -> RingOk (enqueue r m).1.
Proof.
  intros H Hm. unfold enqueue. destruct (_ <? _); [done|].
  pose proof (RingOk_enqueue_loop (seqZ 0 (message_fragment_count m (sr_fragment_capacity r))) r m H Hm) as H1.
  destruct (enqueue_loop _ _ _ _) as [r1 [?|e]]; cbn [fst] in *; [|done]. destruct (try_from _ _); [|done]. cbn [fst].
  pose proof H1 as []. apply (RingOk_same r1); try done. apply wrapping_add32_u32.
Qed.

(** Enqueueing never changes the capacity. *)
Lemma enqueue_one_capacity r m cap i : sr_fragment_capacity (enqueue_one r m cap i).1 = sr_fragment_capacity r.
Proof. unfold enqueue_one. by repeat case_match. Qed.

Lemma enqueue_loop_capacity r m cap ids : sr_fragment_capacity (enqueue_loop r m cap ids).1 = sr_fragment_capacity r.
Proof.
  revert r. induction ids as [|i ids IH]; intros r; [done|]. cbn [enqueue_loop]. pose proof (enqueue_one_capacity r m cap i) as E.
  destruct (enqueue_one r m cap i) as [r1 [|]]; cbn [fst] in *; [|done]. by rewrite IH.
Qed.

Lemma enqueue_capacity r m : sr_fragment_capacity (enqueue r m).1 = sr_fragment_capacity r.
Proof.
  unfold enqueue. cbv zeta. destruct (_ <? _); [done|]. set (cap := sr_fragment_capacity r) at 1 2. set (ids := seqZ 0 _).
  pose proof (enqueue_loop_capacity r m cap ids) as E. destruct (enqueue_loop r m cap ids) as [r1 [|]]; cbn [fst] in *; [|done].
  by destruct (try_from _ _).
Qed.

(** ** Acknowledgements *)

Lemma RingOk_account n r k : RingOk r -> RingOk (account n r k) /\ sr_base (account n r k) = sr_base r /\ sr_next (account n r k) = sr_next r.
Proof.
  revert r k. induction n as [|n IH]; intros r k H; [done|]. cbn [account]. cbv zeta.
  set (r1 := match get (sr_meta r) _ with Some _ => _ | None => _ end).
  assert (H1 : RingOk r1 /\ sr_base r1 = sr_base r /\ sr_next r1 = sr_next r).
  { subst r1. destruct (get (sr_meta r) (sindex r k)) as [slot|] eqn:Hg; [|done]. destruct (ss_sent slot && _); [|done]. split; [|done].
    pose proof (Forall_get _ _ _ _ (ro_slots _ H) Hg) as Hf.
    destruct H. constructor; try done. cbn. by apply Forall_set_at. }
  destruct H1 as (H1 & <- & <-). by apply IH.
Qed.

Lemma RingOk_cumulative r c : RingOk r -> is_u32 c -> RingOk (ack_cumulative_step r c).
Proof.
  intros H Hc. unfold ack_cumulative_step. destruct (_ && _); [|done]. cbv zeta.
  destruct (RingOk_account (Z.to_nat (distance (sr_base r) c)) r (sr_base r) H) as (H1 & _ & _).
  set (r1 := account _ _ _) in *. pose proof H1 as [].
  destruct (Seq.lt _ _); by apply (RingOk_same r1).
Qed.

Lemma RingOk_ack r ack now : RingOk r -> Forall is_u32 (ack_cumulative ack) -> RingOk (on_ack r ack now).1.
Proof.
  intros H Hu. unfold on_ack. cbv zeta.
  set (c := match get (ack_cumulative ack) _ with Some _ => _ | None => _ end).
  assert (Hc : is_u32 c).
  { subst c. destruct (get _ _) as [v|] eqn:Hg; [|apply H]. destruct (_ <? _); [|apply H]. by apply (Forall_get _ _ _ _ Hu Hg). }
  pose proof (RingOk_cumulative r c H Hc) as H1. set (r1 := ack_cumulative_step r c) in *. clearbody r1 c.
  set (r2 := if ack_nack ack && _ then _ else _).
  assert (H2 : RingOk r2) by (subst r2; destruct (_ && _); [|done]; pose proof H1 as []; by apply (RingOk_same r1)).
  clearbody r2. destruct (negb _); [done|]. destruct (_ || _); [done|].
  destruct (get (sr_meta r2) _) as [slot|] eqn:Hg; [|done]. destruct (_ || _); [done|]. cbn [fst].
  apply RingOk_set; [done|]. pose proof (Forall_get _ _ _ _ (ro_slots _ H2) Hg) as [? _]. by split.
Qed.

(** ** The scan *)

(** What a call of the scan can have done: nothing but move cursors and
    counters, or hand the encoder a legal packet that fits the capacity. *)
Definition scan_safe (r r' : SendRing) (out out' : list Z) (res : option (result Z)) : Prop :=
  RingOk r' /\ sr_fragment_capacity r' = sr_fragment_capacity r /\
  match res with
  | None => out' = out
  | Some x => exists d, encode_data out d = (out', x) /\ 0 <= data_channel d < CHANNEL_COUNT /\ is_u32 (data_seq d) /\
                bytes_ok (data_body d) /\ zlen (data_body d) <= sr_fragment_capacity r
  end.

Lemma RingOk_classify r i now srtt lvl : RingOk r -> RingOk (classify r i now srtt lvl).
Proof.
  intros H. pose proof H as []. destruct (classify_frame r i now srtt lvl) as ((E1 & _ & E3 & E4 & E5 & E6 & _) & Em & Ec & _).
  apply (RingOk_same r); congruence.
Qed.

Lemma RingOk_advance r : RingOk r -> RingOk (advance_cursor r).
Proof. intros H. pose proof H as []. apply (RingOk_same r); try done. apply wrapping_add32_u32. Qed.

Lemma mark_sent_fits cap e k now : slot_fits cap e -> slot_fits cap (mark_sent e k now).
Proof. unfold slot_fits, mark_sent. by repeat case_match. Qed.

Lemma emit_safe r i slot nacked now srtt lvl out r' out' res :
  RingOk r -> get (sr_meta r) i = Some slot -> ss_occupied slot = true ->
  emit r (sr_cursor r) i slot nacked now srtt lvl out = (r', out', res) -> scan_safe r r' out out' res.
Proof.
  intros H Hg Ho He. pose proof H as []. pose proof (Forall_get _ _ _ _ ro_slots0 Hg) as [Hl0 Hl]. specialize (Hl Ho).
  unfold emit in He. destruct (checked_mul64 i (sr_slot_len r)) as [start|]; [|injection He as <- <- <-; done].
  unfold checked_add64 in He. destruct (start + ss_len slot <=? U64_MAX); cbn [mbind option_bind] in He; [|injection He as <- <- <-; done].
  destruct (slice _ _ _) as [body|] eqn:Hs; [|injection He as <- <- <-; done].
  pose proof (zlen_slice _ _ _ _ Hs) as Hzl. pose proof (bytes_ok_slice _ _ _ _ ro_bytes0 Hs) as Hby.
  set (d := mkData _ _ _ body) in He. assert (Hd : 0 <= data_channel d < CHANNEL_COUNT /\ is_u32 (data_seq d) /\
    bytes_ok (data_body d) /\ zlen (data_body d) <= sr_fragment_capacity r) by (cbn; split; [done|]; split; [done|]; split; [done|lia]).
  clearbody d. destruct (encode_data out d) as [o1 [w|e]] eqn:Hen.
  2: { injection He as <- <- <-. split; [done|]. split; [done|]. by exists d. }
  rewrite Hg in He. cbv zeta in He. injection He as <- <- <-.
  match goal with |- scan_safe _ (advance_cursor (classify ?x _ _ _ _)) _ _ _ => set (r1 := x) end.
  assert (H1 : RingOk r1 /\ sr_fragment_capacity r1 = sr_fragment_capacity r).
  { subst r1. destruct (ss_sent slot); (split; [|done]); constructor; try done; cbn; (apply Forall_set_at; [done|]); apply mark_sent_fits; by split. }
  clearbody r1. destruct H1 as [H1 E1].
  split; [by apply RingOk_advance, RingOk_classify|]. split; [|by exists d].
  destruct (classify_frame r1 i now srtt lvl) as ((_ & _ & E & _) & _). unfold advance_cursor. cbn. congruence.
Qed.

Lemma poll_loop_safe fuel r now srtt lvl out r' out' res :
  RingOk r -> poll_loop fuel r now srtt lvl out = (r', out', res) -> scan_safe r r' out out' res.
Proof.
  revert r. induction fuel as [|fuel IH]; intros r H Hp; cbn [poll_loop] in Hp.
  { injection Hp as <- <- <-. split; [|done]. pose proof H as []. by apply (RingOk_same r). }
  assert (Hstep : forall r1, RingOk r1 -> sr_fragment_capacity r1 = sr_fragment_capacity r ->
    poll_loop fuel r1 now srtt lvl out = (r', out', res) -> scan_safe r r' out out' res).
  { intros r1 H1 E1 Hp1. destruct (IH r1 H1 Hp1) as (? & ? & Hr). split; [done|]. rewrite <- E1. split; [congruence|done]. }
  assert (Hcl : forall r1 j, RingOk r1 -> sr_fragment_capacity r1 = sr_fragment_capacity r ->
    RingOk (advance_cursor (classify r1 j now srtt lvl)) /\ sr_fragment_capacity (advance_cursor (classify r1 j now srtt lvl)) = sr_fragment_capacity r).
  { intros r1 j H1 E1. split; [by apply RingOk_advance, RingOk_classify|]. unfold advance_cursor. cbn.
    destruct (classify_frame r1 j now srtt lvl) as ((_ & _ & E & _) & _). congruence. }
  destruct (get (sr_meta r) _) as [slot|] eqn:Hg; [|apply (Hstep (advance_cursor r)); [by apply RingOk_advance|done|done]].
  destruct (ss_occupied slot) eqn:Ho; cbn [negb] in Hp; [|apply (Hstep (advance_cursor r)); [by apply RingOk_advance|done|done]].
  destruct (OUTSTANDING_CAP <=? _).
  { destruct (Hcl r (sindex r (sr_cursor r)) H eq_refl) as [??]. by eapply Hstep. }
  destruct (negb (if negb (ss_sent slot) then _ else _)).
  - set (r1 := if (0 <? ss_retransmits slot) || _ then _ else _) in Hp.
    assert (H1 : RingOk r1 /\ sr_fragment_capacity r1 = sr_fragment_capacity r).
    { subst r1. destruct (_ || _); (split; [|done]); [|done]. pose proof H as []. by apply (RingOk_same r). }
    destruct H1 as [H1 E1]. destruct (Hcl r1 (sindex r (sr_cursor r)) H1 E1) as [??]. by eapply Hstep.
  - by eapply emit_safe.
Qed.

Lemma poll_send_safe r now srtt li out r' out' res :
  RingOk r -> poll_send r now srtt li out = (r', out', res) -> scan_safe r r' out out' res.
Proof. apply poll_loop_safe. Qed.

(** A ring as [new_with_capacity] builds it over default slots. *)
Lemma RingOk_new bodies meta storage cap channel r :
  new_with_capacity bodies meta storage cap channel = Ok r -> Forall (fun slot => slot = SendSlot_default) meta ->
  bytes_ok bodies -> 0 <= cap -> 0 <= channel -> RingOk r.
Proof.
  intros H Hm Hb Hc Hch. unfold new_with_capacity in H. destruct (_ || _) eqn:E in H; [done|].
  apply bind_ok in H as (want & _ & H). destruct (negb _); [done|]. injection H as <-. bool_prop.
  constructor; cbn; try (unfold is_u32, M32; lia); try done.
  eapply Forall_impl; [|exact Hm]. intros ? ->. unfold slot_fits. cbn. split; [lia|done].
Qed.

(** ** The preview *)

(** Past the cap the scan sends nothing. *)
Lemma poll_loop_capped fuel r now srtt lvl out :
  OUTSTANDING_CAP <= sr_outstanding r -> (poll_loop fuel r now srtt lvl out).2 = None.
Proof.
  revert r. induction fuel as [|fuel IH]; intros r Ho; [done|]. cbn [poll_loop].
  destruct (get _ _) as [slot|]; [|by apply IH]. destruct (negb _); [by apply IH|].
  rewrite (proj2 (Z.leb_le _ _)) by done. apply IH. unfold advance_cursor. cbn.
  destruct (classify_frame r (sindex r (sr_cursor r)) now srtt lvl) as (_ & _ & _ & _ & -> & _). done.
Qed.

(** Whatever the scan sends, [next_due_len] has announced, whether or not the
    window straddles the wrap. *)
Lemma due_agrees fuel r0 r now srtt lvl out r' out' w :
  sr_meta r = sr_meta r0 -> sr_nack_below r = sr_nack_below r0 -> sr_outstanding r0 <= sr_outstanding r ->
  poll_loop fuel r now srtt lvl out = (r', out', Some (Ok w)) -> due_loop fuel r0 now srtt (sr_cursor r) = Some w.
Proof.
  revert r. induction fuel as [|fuel IH]; intros r Em En Ho Hp; [done|]. cbn [poll_loop due_loop] in *.
  assert (Hi : sindex r0 (sr_cursor r) = sindex r (sr_cursor r)) by (unfold sindex; by rewrite Em).
  rewrite Hi, <- Em, <- En. clear Hi.
  destruct (get (sr_meta r) (sindex r (sr_cursor r))) as [slot|] eqn:Hg; [|exact (IH (advance_cursor r) Em En Ho Hp)].
  destruct (ss_occupied slot); cbn [negb] in *; [|exact (IH (advance_cursor r) Em En Ho Hp)].
  destruct (Z.leb_spec OUTSTANDING_CAP (sr_outstanding r)) as [Hcap|Hcap].
  { match type of Hp with poll_loop _ ?r1 _ _ _ _ = _ => pose proof (poll_loop_capped fuel r1 now srtt lvl out) as Hn end.
    rewrite Hp in Hn. destruct (classify_frame r (sindex r (sr_cursor r)) now srtt lvl) as (_ & _ & _ & _ & Eo & _).
    unfold advance_cursor in Hn. cbn in Hn. rewrite Eo in Hn. by specialize (Hn Hcap). }
  rewrite (proj2 (Z.leb_gt _ _)) by lia.
  fold (is_due (sr_nack_below r) (sr_cursor r) slot now srtt) in Hp.
  assert (Hdue : negb (ss_sent slot) || is_nacked (sr_nack_below r) (sr_cursor r) slot ||
    (now - ss_last_sent_ms slot >? rto_ms (ss_retransmits slot) srtt)%f64 = is_due (sr_nack_below r) (sr_cursor r) slot now srtt)
    by (unfold is_due; by destruct (ss_sent slot), (is_nacked _ _ _)).
  rewrite Hdue. clear Hdue. destruct (is_due _ _ _ _ _); cbn [negb] in Hp.
  - unfold emit in Hp. destruct (checked_mul64 _ _) as [start|]; [|done]. unfold checked_add64 at 1 in Hp.
    destruct (start + ss_len slot <=? U64_MAX); cbn [mbind option_bind] in Hp; [|done]. destruct (slice _ _ _) as [body|] eqn:Hs; [|done].
    destruct (encode_data _ _) as [o [w1|e]] eqn:He; [|done]. rewrite Hg in Hp. injection Hp as _ _ <-.
    apply encode_data_total in He. cbn [data_body] in He. rewrite (zlen_slice _ _ _ _ Hs) in He. by replace (ss_len slot) with (start + ss_len slot - start) by lia.
  - set (r1 := if (0 <? ss_retransmits slot) || _ then _ else _) in Hp.
    assert (E1 : sr_meta r1 = sr_meta r /\ sr_nack_below r1 = sr_nack_below r /\ sr_cursor r1 = sr_cursor r /\ sr_outstanding r <= sr_outstanding r1).
    { subst r1. destruct (_ || _); cbn; repeat split; try lia. unfold saturating_add, U32_MAX, OUTSTANDING_CAP, WINDOW_FLOOR in *. lia. }
    clearbody r1. destruct E1 as (F1 & F2 & F3 & F4).
    destruct (classify_frame r1 (sindex r (sr_cursor r)) now srtt lvl) as (_ & G1 & G2 & G3 & G4 & _).
    set (r2 := advance_cursor _) in Hp.
    assert (E2 : sr_meta r2 = sr_meta r0 /\ sr_nack_below r2 = sr_nack_below r0 /\ sr_outstanding r0 <= sr_outstanding r2 /\ sr_cursor r2 = wrapping_add32 (sr_cursor r) 1).
    { unfold r2, advance_cursor. cbn. rewrite G1, G2, G3, G4, F1, F2, F3. repeat split; try done. lia. }
    clearbody r2. destruct E2 as (K1 & K2 & K3 & <-). by apply IH.
Qed.

Lemma next_due_len_agrees r now srtt li out r' out' w :
  poll_send r now srtt li out = (r', out', Some (Ok w)) -> next_due_len r now srtt li = Some w.
Proof. intros H. by apply (due_agrees _ r r now srtt (level li) out r' out'). Qed.
