(* ===== verification/Session.v ===== *)
(** * The sans-IO session ([core/src/session.rs])

    Bytes in, bytes out, time as a parameter: the per-channel rings, the
    envelope, the pacer and the rate controller behind one object. Arrays of
    [CHANNEL_COUNT] entries are lists of that length; a method that takes
    [&mut self] returns the new session, and one that writes a buffer returns
    the buffer. The AEAD is the interface of the envelope's file. *)

From S2P Require Import Prelude F64 Seq Packet Message RecvRing Policy SendRing Envelope Pmtu.

Definition ACK_CADENCE_MS : f64 := f_of_Z 30.
Definition LIVENESS_SOFT_MS : f64 := f_of_Z 60000.
Definition LIVENESS_HARD_MS : f64 := f_of_Z 120000.
Definition DELIVERY_DEADLINE_MS : f64 := f_of_Z 15000.
Definition SRTT_ALPHA : f64 := f_lit 1 10.
Definition TRANSPORT_SAMPLE_MIN_MS : f64 := f_of_Z 100.
Definition VIDEO_CHANNEL : Z := 1.
Definition AUDIO_CHANNEL : Z := 2.
Definition CONTROL_CHANNEL_INDEX : Z := 0.
Definition AUDIO_CHANNEL_INDEX : Z := AUDIO_CHANNEL.
Definition CONTROL_PRIORITY_QUANTUM_BYTES : Z := DEFAULT_DATAGRAM * MAX_BURST_DATAGRAMS.
Definition AUDIO_PRIORITY_QUANTUM_BYTES : Z := DEFAULT_DATAGRAM * MAX_BURST_DATAGRAMS.
Definition DRAIN_ORDER : list Z := [0; 2; 1; 3; 4; 5; 6; 7; 8; 9; 10; 11; 12; 13; 14; 15; 16; 17; 18].

Inductive Inbound :=
  | IData (channel : Z)
  | IAck
  | IKeepalive
  | IProbe (id size : Z)
  | IProbeAck (id size : Z)
  | IUnhandled (channel : Z).

Inductive Health := Alive | Stalled | Dead | Undeliverable.

#[export] Instance Health_eq_dec : EqDecision Health.
Proof. solve_decision. Defined.

Record TransportStats := mkTransportStats {
  ts_interval_ms : f64;
  ts_in_flight : Z;
  ts_stale : Z;
  ts_bytes_sent : Z;
  ts_bytes_acked : Z;
  ts_retransmitted_fragments : Z;
  ts_send_rate_mbps : f64;
  ts_delivery_rate_mbps : f64;
  ts_srtt_ms : f64;
}.

#[export] Instance eta_TransportStats : Eta TransportStats := fun t =>
  mkTransportStats (ts_interval_ms t) (ts_in_flight t) (ts_stale t) (ts_bytes_sent t) (ts_bytes_acked t)
    (ts_retransmitted_fragments t) (ts_send_rate_mbps t) (ts_delivery_rate_mbps t) (ts_srtt_ms t).

Definition TransportStats_default : TransportStats :=
  mkTransportStats f_zero 0 0 0 0 0 f_zero f_zero f_zero.

Record Delivery := mkDelivery { dl_acked_seen : Z; dl_since_ms : f64 }.

Record Session := mkSession {
  se_envelope : Envelope;
  se_direction : Direction;
  se_recv : list (option RecvRing);
  se_send : list (option SendRing);
  se_controller : Controller;
  se_level : Z;
  se_tx_counter : Z;
  se_srtt_ms : f64;
  se_srtt_seeded : bool;
  se_last_ack_sent_ms : f64;
  se_last_progress_ms : f64;
  se_delivery : list Delivery;
  se_transport_stats : TransportStats;
  se_channel_stats : list TransportStats;
  se_last_sample_ms : f64;
  se_last_sample_bytes_sent : list Z;
  se_last_sample_bytes_acked : list Z;
  se_ack_due : bool;
  se_ack_kind : AckKind;
  se_trigger : Z * Z;
  se_drain_channel : Z;
  se_drain_started : bool;
  se_pacer : Pacer;
  se_drain_bytes : list Z;
  se_path_datagram_size : Z;
  se_pending_probe_ack : option ProbeAck;
}.

#[export] Instance eta_Session : Eta Session := fun s =>
  mkSession (se_envelope s) (se_direction s) (se_recv s) (se_send s) (se_controller s) (se_level s)
    (se_tx_counter s) (se_srtt_ms s) (se_srtt_seeded s) (se_last_ack_sent_ms s) (se_last_progress_ms s)
    (se_delivery s) (se_transport_stats s) (se_channel_stats s) (se_last_sample_ms s)
    (se_last_sample_bytes_sent s) (se_last_sample_bytes_acked s) (se_ack_due s) (se_ack_kind s)
    (se_trigger s) (se_drain_channel s) (se_drain_started s) (se_pacer s) (se_drain_bytes s)
    (se_path_datagram_size s) (se_pending_probe_ack s).

Definition channels {A} (x : A) : list A := replicate (Z.to_nat CHANNEL_COUNT) x.

Definition with_direction (envelope : Envelope) (direction : Direction) (level : Z) (now_ms : f64) : Session :=
  mkSession envelope direction (channels None) (channels None) (controller_new level (f_of_Z 1) (f_of_Z 500)) level
    0 f_zero false now_ms now_ms (channels (mkDelivery 0 now_ms)) TransportStats_default
    (channels TransportStats_default) now_ms (channels 0) (channels 0) false KAck (0, 0) 0 false
    (pacer_new now_ms) (channels 0) DEFAULT_DATAGRAM None.

(** [Session::new] and [Session::new_guest]. *)
Definition session_new (envelope : Envelope) (level : Z) (now_ms : f64) : Session :=
  with_direction envelope Host level now_ms.
Definition new_guest (envelope : Envelope) (level : Z) (now_ms : f64) : Session :=
  with_direction envelope Guest level now_ms.

(** [self.send.get(channel)?.as_ref()] and its receive twin. *)
Definition send_ring (s : Session) (channel : Z) : option SendRing := mjoin (get (se_send s) channel).
Definition recv_ring (s : Session) (channel : Z) : option RecvRing := mjoin (get (se_recv s) channel).

Definition body_of (datagram_bytes : Z) : Z := saturating_sub datagram_bytes (ENVELOPE_LEN + HEADER_LEN).

Definition attach_recv (s : Session) (channel : Z) (ring : RecvRing) : Session * result unit :=
  if channel <? zlen (se_recv s)
  then (s <| se_recv := set_at (se_recv s) channel (Some ring) |>, Ok tt) else (s, Err Malformed).

Definition attach_send (s : Session) (channel : Z) (ring : SendRing) : Session * result unit :=
  let active_body := body_of (se_path_datagram_size s) in
  let '(ring, ok) :=
    if active_body <? sr_fragment_capacity ring then set_fragment_capacity ring active_body else (ring, true) in
  if negb ok then (s, Err BufferTooSmall) else
  if channel <? zlen (se_send s)
  then (s <| se_send := set_at (se_send s) channel (Some ring) |>, Ok tt) else (s, Err Malformed).

Definition set_pacing_rate_mbps (s : Session) (now_ms rate_mbps : f64) : Session :=
  s <| se_pacer := set_rate (se_pacer s) now_ms rate_mbps |>.

Definition set_pacing_datagram_size (s : Session) (datagram_bytes : Z) : Session * bool :=
  let '(p, ok) := set_datagram_size (se_pacer s) datagram_bytes in (s <| se_pacer := p |>, ok).

(** Apply [f] to every attached send ring: [self.send.iter_mut().flatten()]. *)
Definition map_send (f : SendRing -> SendRing) (rings : list (option SendRing)) : list (option SendRing) :=
  map (option_map f) rings.

Definition set_path_datagram_size (s : Session) (datagram_bytes : Z) : Session * bool :=
  if negb (legal_datagram datagram_bytes) then (s, false) else
  let body := body_of datagram_bytes in
  if existsb (fun ring => match ring with Some ring => negb (can_set_fragment_capacity ring body) | None => false end)
             (se_send s) then (s, false) else
  let '(p, ok) := set_datagram_size (se_pacer s) datagram_bytes in
  let s := s <| se_pacer := p |> in
  if negb ok then (s, false) else
  (s <| se_send := map_send (fun ring => (set_fragment_capacity ring body).1) (se_send s) |>
     <| se_path_datagram_size := datagram_bytes |>, true).

Definition can_recover_video_path_datagram_size (s : Session) (datagram_bytes : Z) : bool :=
  if (se_path_datagram_size s <=? datagram_bytes) || negb (legal_datagram datagram_bytes) then false else
  let body := body_of datagram_bytes in
  forallb (fun '(channel, ring) =>
             match ring with
             | None => true
             | Some ring => if channel =? VIDEO_CHANNEL then body <=? sr_slot_len ring
                            else can_set_fragment_capacity ring body
             end) (zip (seqZ 0 (zlen (se_send s))) (se_send s)).

Definition recover_video_path_datagram_size (s : Session) (datagram_bytes : Z) : Session * option Z :=
  if negb (can_recover_video_path_datagram_size s datagram_bytes) then (s, None) else
  let '(p, ok) := set_datagram_size (se_pacer s) datagram_bytes in
  let s := s <| se_pacer := p |> in
  if negb ok then (s, None) else
  let '(s, dropped) :=
    match send_ring s VIDEO_CHANNEL with
    | Some ring => let '(ring, dropped) := discard_pending ring in
                   (s <| se_send := set_at (se_send s) VIDEO_CHANNEL (Some ring) |>, dropped)
    | None => (s, 0)
    end in
  let body := body_of datagram_bytes in
  (s <| se_send := map_send (fun ring => (set_fragment_capacity ring body).1) (se_send s) |>
     <| se_path_datagram_size := datagram_bytes |>, Some dropped).

Definition apply_path_mtu (s : Session) (mtu : PathMtu) : Session * bool :=
  if bool_decide (pm_state mtu = ErrorState) then (s, false) else set_path_datagram_size s (Pmtu.datagram_size mtu).

Definition feedback_pending (s : Session) : bool :=
  se_ack_due s || match se_pending_probe_ack s with Some _ => true | None => false end.

Definition probe_ack_pending (s : Session) : bool :=
  match se_pending_probe_ack s with Some _ => true | None => false end.

Definition reset_delivery_watchdog (s : Session) (now_ms : f64) : Session :=
  if negb (f_is_finite now_ms) then s else
  s <| se_last_progress_ms := now_ms |>
    <| se_delivery := map (fun entry => mkDelivery (dl_acked_seen entry) now_ms) (se_delivery s) |>.

(** The per-ring fields of a channel's snapshot. *)
Definition refresh_stats (stats : TransportStats) (ring : SendRing) (srtt_ms : f64) : TransportStats :=
  stats <| ts_in_flight := in_flight ring |> <| ts_stale := sr_stale ring |> <| ts_bytes_sent := sr_bytes_sent ring |>
        <| ts_bytes_acked := sr_bytes_acked ring |> <| ts_retransmitted_fragments := sr_retransmitted ring |>
        <| ts_srtt_ms := srtt_ms |>.

Definition channel_transport_stats (s : Session) (channel : Z) : option TransportStats :=
  ring ← send_ring s channel;
  stats ← get (se_channel_stats s) channel;
  Some (refresh_stats stats ring (se_srtt_ms s)).

Definition undeliverable (s : Session) (now_ms : f64) : bool :=
  existsb (fun '(channel, ring) =>
             match ring with
             | None => false
             | Some ring =>
                 (0 <? in_flight ring) &&
                 match get (se_delivery s) channel with
                 | Some entry => (now_ms - dl_since_ms entry >=? DELIVERY_DEADLINE_MS)%f64
                 | None => false
                 end
             end) (zip (seqZ 0 (zlen (se_send s))) (se_send s)).

Definition health (s : Session) (now_ms : f64) : Health :=
  let idle := (now_ms - se_last_progress_ms s)%f64 in
  if (idle >=? LIVENESS_HARD_MS)%f64 then Dead else
  if undeliverable s now_ms then Undeliverable else
  if (idle >=? LIVENESS_SOFT_MS)%f64 then Stalled else Alive.

Definition send_pressure (s : Session) (channel : Z) : option (Z * Z * Z) :=
  ring ← send_ring s channel; Some (in_flight ring, sr_stale ring, sr_bytes_sent ring).

Definition recv_cumulative (s : Session) (channel : Z) : option Z :=
  cumulative_ack <$> recv_ring s channel.

Definition reset_recv (s : Session) (channel sequence : Z) : Session * result unit :=
  match recv_ring s channel with
  | None => (s, Err Malformed)
  | Some ring => (s <| se_recv := set_at (se_recv s) channel (Some (reset_to ring sequence)) |>, Ok tt)
  end.

Definition send_message (s : Session) (channel : Z) (header payload : list Z) : Session * result Z :=
  match send_ring s channel with
  | None => (s, Err Malformed)
  | Some ring =>
      match message_new header payload with
      | Err e => (s, Err e)
      | Ok message =>
          let '(ring, r) := enqueue ring message in
          (s <| se_send := set_at (se_send s) channel (Some ring) |>, r)
      end
  end.

(** [Session::take_message]. *)
Definition session_take_message (s : Session) (channel : Z) (out : list Z) : Session * list Z * option (result Z) :=
  match recv_ring s channel with
  | None => (s, out, None)
  | Some ring =>
      let '(ring, out, r) := take_message ring out in
      (s <| se_recv := set_at (se_recv s) channel (Some ring) |>, out, r)
  end.

(** [Session::has_gap] and [Session::escape_stall]. *)
Definition session_has_gap (s : Session) (channel : Z) : bool :=
  match recv_ring s channel with Some ring => has_gap ring | None => false end.

Definition session_escape_stall (s : Session) (channel : Z) (resumable : list Z -> bool) : Session * option Z :=
  match recv_ring s channel with
  | None => (s, None)
  | Some ring =>
      let '(ring, r) := escape_stall ring resumable in
      (s <| se_recv := set_at (se_recv s) channel (Some ring) |>, r)
  end.

Definition observe_rtt (s : Session) (sample_ms : f64) : Session :=
  if negb (f_is_finite sample_ms) || (sample_ms <? f_zero)%f64 then s else
  if se_srtt_seeded s
  then s <| se_srtt_ms := (se_srtt_ms s * (f_of_Z 1 - SRTT_ALPHA) + sample_ms * SRTT_ALPHA)%f64 |>
  else s <| se_srtt_ms := sample_ms |> <| se_srtt_seeded := true |>.

(** The acknowledgement loop of [process_input]: every attached send ring sees
    the acknowledgement, and the last sample taken is kept. *)
Fixpoint ack_all (rings : list (option SendRing)) (ack : Ack) (now_ms : f64) (sample : option f64)
  : list (option SendRing) * option f64 :=
  match rings with
  | [] => ([], sample)
  | None :: rings => let '(rings, sample) := ack_all rings ack now_ms sample in (None :: rings, sample)
  | Some ring :: rings =>
      let '(ring, taken) := on_ack ring ack now_ms in
      let sample := match taken with Some t => Some t | None => sample end in
      let '(rings, sample) := ack_all rings ack now_ms sample in (Some ring :: rings, sample)
  end.

(** ** Housekeeping *)

(** One delivery entry of [poll]. *)
Definition poll_delivery (ring : option SendRing) (entry : Delivery) (now_ms : f64) : Delivery :=
  match ring with
  | None => entry
  | Some ring =>
      if (in_flight ring =? 0) || negb (sr_acked ring =? dl_acked_seen entry)
      then mkDelivery (sr_acked ring) now_ms else entry
  end.

(** [Iterator::zip] writing through one side: entries beyond the shorter list
    are left alone. *)
Fixpoint zip_update {A B} (f : A -> B -> B) (l : list A) (k : list B) : list B :=
  match l, k with
  | a :: l, b :: k => f a b :: zip_update f l k
  | _, _ => k
  end.

Definition clean_rate (rate : f64) : f64 := if f_is_finite rate then f_max rate f_zero else f_zero.

(** The rate sample of one channel, with the counters it ends on. *)
Definition sample_rates (stats : TransportStats) (last_sent last_acked : Z) (elapsed : f64) : TransportStats :=
  let sent_delta := saturating_sub (ts_bytes_sent stats) last_sent in
  let acked_delta := saturating_sub (ts_bytes_acked stats) last_acked in
  let send_bits := (f_of_Z sent_delta * f_of_Z 8)%f64 in
  let acked_bits := (f_of_Z acked_delta * f_of_Z 8)%f64 in
  let seconds := (elapsed / f_of_Z 1000)%f64 in
  let send_rate_mbps := (send_bits / seconds / f_of_Z 1000000)%f64 in
  let delivery_rate_mbps := (acked_bits / seconds / f_of_Z 1000000)%f64 in
  stats <| ts_interval_ms := elapsed |> <| ts_send_rate_mbps := clean_rate send_rate_mbps |>
        <| ts_delivery_rate_mbps := clean_rate delivery_rate_mbps |>.

Definition add_stats (a s : TransportStats) : TransportStats :=
  a <| ts_in_flight := saturating_add U32_MAX (ts_in_flight a) (ts_in_flight s) |>
    <| ts_stale := saturating_add U32_MAX (ts_stale a) (ts_stale s) |>
    <| ts_bytes_sent := saturating_add U64_MAX (ts_bytes_sent a) (ts_bytes_sent s) |>
    <| ts_bytes_acked := saturating_add U64_MAX (ts_bytes_acked a) (ts_bytes_acked s) |>
    <| ts_retransmitted_fragments := saturating_add U64_MAX (ts_retransmitted_fragments a) (ts_retransmitted_fragments s) |>
    <| ts_send_rate_mbps := (ts_send_rate_mbps a + ts_send_rate_mbps s)%f64 |>
    <| ts_delivery_rate_mbps := (ts_delivery_rate_mbps a + ts_delivery_rate_mbps s)%f64 |>.

(** The stages of [Session::poll], in its order: a fresh pass and the keepalive
    cadence, ... *)
Definition poll_cadence (s : Session) (now_ms : f64) : Session :=
  let s := s <| se_drain_started := false |> in
  if negb (se_ack_due s) && (now_ms - se_last_ack_sent_ms s >=? ACK_CADENCE_MS)%f64
  then s <| se_ack_due := true |> <| se_ack_kind := KKeepalive |> else s.

(** ... the delivery watchdog, ... *)
Definition poll_watchdog (s : Session) (now_ms : f64) : Session :=
  s <| se_delivery := zip_update (fun ring entry => poll_delivery ring entry now_ms) (se_send s) (se_delivery s) |>.

(** ... the per-channel snapshots, ... *)
Definition poll_snapshots (s : Session) : Session :=
  s <| se_channel_stats :=
      zip_update (fun ring stats => match ring with
                                    | Some ring => refresh_stats stats ring (se_srtt_ms s)
                                    | None => TransportStats_default
                                    end) (se_send s) (se_channel_stats s) |>.

(** ... the rate samples, when [sampled], ... *)
Definition poll_samples (s : Session) (now_ms elapsed : f64) : Session :=
  let s := s <| se_channel_stats :=
      zip_update (fun '(sent, acked) stats => sample_rates stats sent acked elapsed)
                 (zip (se_last_sample_bytes_sent s) (se_last_sample_bytes_acked s)) (se_channel_stats s) |> in
  s <| se_last_sample_bytes_sent := zip_update (fun stats _ => ts_bytes_sent stats) (se_channel_stats s) (se_last_sample_bytes_sent s) |>
    <| se_last_sample_bytes_acked := zip_update (fun stats _ => ts_bytes_acked stats) (se_channel_stats s) (se_last_sample_bytes_acked s) |>
    <| se_last_sample_ms := now_ms |>.

(** ... the aggregate over the channels, ... *)
Definition poll_aggregate (s : Session) (sampled : bool) (elapsed : f64) : Session :=
  let aggregate := fold_left add_stats (se_channel_stats s)
    (TransportStats_default <| ts_interval_ms := ts_interval_ms (se_transport_stats s) |>) in
  let aggregate := if sampled then aggregate <| ts_interval_ms := elapsed |> else aggregate in
  s <| se_transport_stats := aggregate <| ts_srtt_ms := se_srtt_ms s |> |>.

(** ... and the controller, fed from the video channel alone. *)
Definition poll_controller (s : Session) : Session :=
  match get (se_channel_stats s) VIDEO_CHANNEL, send_ring s VIDEO_CHANNEL with
  | Some video, Some _ =>
      s <| se_controller := (tick (se_controller s) (ts_in_flight video) (ts_stale video) (ts_delivery_rate_mbps video)).1 |>
  | _, _ => s
  end.

(** [Session::poll]. *)
Definition session_poll (s : Session) (now_ms : f64) : Session :=
  let s := poll_watchdog (poll_cadence s now_ms) now_ms in
  let elapsed := (now_ms - se_last_sample_ms s)%f64 in
  let sampled := f_is_finite elapsed && (elapsed >=? TRANSPORT_SAMPLE_MIN_MS)%f64 && (now_ms >=? se_last_sample_ms s)%f64 in
  let s := poll_snapshots s in
  let s := if sampled then poll_samples s now_ms elapsed else s in
  poll_controller (poll_aggregate s sampled elapsed).

Definition priority_quantum (channel : Z) : option Z :=
  if channel =? CONTROL_CHANNEL_INDEX then Some CONTROL_PRIORITY_QUANTUM_BYTES else
  if channel =? AUDIO_CHANNEL_INDEX then Some AUDIO_PRIORITY_QUANTUM_BYTES else None.

Definition is_some {A} (o : option A) : bool := match o with Some _ => true | None => false end.

(** Length of the next due fragment of [channel]. *)
Definition channel_due (s : Session) (channel : Z) (now_ms : f64) : option Z :=
  ring ← send_ring s channel; next_due_len ring now_ms (se_srtt_ms s) (se_level s).

Definition has_due_after (s : Session) (position : Z) (now_ms : f64) : bool :=
  existsb (fun channel => is_some (channel_due s channel now_ms)) (drop (Z.to_nat (position + 1)) DRAIN_ORDER).

Definition has_due_priority (s : Session) (now_ms : f64) : bool :=
  existsb (fun channel => is_some (channel_due s channel now_ms)) [CONTROL_CHANNEL_INDEX; AUDIO_CHANNEL_INDEX].

(** [Session::next_timer_ms]. *)
Definition session_next_timer_ms (s : Session) (now_ms : f64) : f64 :=
  if is_some (se_pending_probe_ack s) then f_zero else
  let since_ack := (now_ms - se_last_ack_sent_ms s)%f64 in
  let next := f_max (ACK_CADENCE_MS - since_ack)%f64 f_zero in
  match channel_due s VIDEO_CHANNEL now_ms with
  | Some cleartext_len =>
      let wire_len := saturating_add U64_MAX ENVELOPE_LEN cleartext_len in
      let wait := if enabled (se_pacer s) then wait_ms (se_pacer s) now_ms wire_len else f_zero in
      let next := f_min next wait in
      if enabled (se_pacer s) && f_is_finite wait && (wait >? f_zero)%f64 then next else
      if has_due_priority s now_ms then f_zero else next
  | None => if has_due_priority s now_ms then f_zero else next
  end.

(** ** Input and output *)

Section io.
Context `{A : Aead}.

(** [Session::seal]: wrap cleartext already sitting at the ciphertext offset. *)
Definition session_seal (s : Session) (cleartext_len : Z) (out : list Z) : Session * list Z * result Z :=
  if 2 ^ 63 <=? se_tx_counter s then (s, out, Err Oversized) else
  let counter := Z.lor (se_tx_counter s) (seal_bit (se_direction s)) in
  match checked_add64 (se_tx_counter s) 1 with
  | None => (s, out, Err Oversized)
  | Some next =>
      let '(out, r) := seal_in_place (se_envelope s) counter cleartext_len out in
      (s <| se_tx_counter := next |>, out, r)
  end.

(** Encode at the ciphertext offset, then seal: the shape of every emission.
    [encode] is one of the packet encoders, applied to [out[ENVELOPE_LEN..]]. *)
Definition encode_and_seal (s : Session) (encode : list Z -> list Z * result Z) (out : list Z)
  : Session * list Z * result Z :=
  match slice_from out ENVELOPE_LEN with
  | None => (s, out, Err BufferTooSmall)
  | Some body =>
      let '(body, r) := encode body in
      let out := default out (write out ENVELOPE_LEN body) in
      match r with
      | Err e => (s, out, Err e)
      | Ok written => session_seal s written out
      end
  end.

Definition emit_path_probe (s : Session) (probe : MtuProbe) (out : list Z) : Session * list Z * result Z :=
  encode_and_seal s (fun body => encode_probe body (mkProbe (mp_id probe) (mp_size probe))) out.

(** The acknowledgement [emit_ack] builds from the receive rings. *)
Definition build_ack (s : Session) : Ack :=
  let cumulative := map (fun ring => match ring with Some ring => cumulative_ack ring | None => 0 end) (se_recv s) in
  let gap := existsb (fun ring => match ring with Some ring => has_gap ring | None => false end) (se_recv s) in
  let keepalive := bool_decide (se_ack_kind s = KKeepalive) in
  mkAck (se_ack_kind s) (gap && negb keepalive) (if keepalive then 0 else (se_trigger s).1)
        (if keepalive then 0 else (se_trigger s).2) cumulative CHANNEL_COUNT.

Definition emit_ack (s : Session) (out : list Z) : Session * list Z * result Z :=
  encode_and_seal s (fun body => encode_ack body (build_ack s)) out.

Definition emit_probe_ack (s : Session) (ack : ProbeAck) (out : list Z) : Session * list Z * result Z :=
  encode_and_seal s (fun body => encode_probe_ack body ack) out.

(** The part of [process_input] behind the parser: what each packet does. [len]
    is the length of the datagram it came in. *)
Definition handle_packet (s : Session) (packet : Packet) (len : Z) (now_ms : f64) : Session * result Inbound :=
  let s := s <| se_last_progress_ms := now_ms |> in
  match packet with
  | PData data =>
      let s := s <| se_trigger := (data_channel data, data_seq data) |>
                 <| se_ack_due := true |> <| se_ack_kind := KAck |> in
      match recv_ring s (data_channel data) with
      | None => (s, Ok (IUnhandled (data_channel data)))
      | Some ring =>
          (s <| se_recv := set_at (se_recv s) (data_channel data)
                  (Some (store ring (data_seq data) (data_body data)).1) |>,
           Ok (IData (data_channel data)))
      end
  | PAck ack =>
      let '(rings, sample) := ack_all (se_send s) ack now_ms None in
      let s := s <| se_send := rings |> in
      let s := match sample with Some sample => observe_rtt s sample | None => s end in
      (s, Ok (match ack_kind ack with KAck => IAck | KKeepalive => IKeepalive end))
  | PProbe probe =>
      if negb (len =? probe_size probe) then (s, Err Malformed) else
      (s <| se_pending_probe_ack := Some (mkProbeAck (probe_id probe) (probe_size probe)) |>,
       Ok (IProbe (probe_id probe) (probe_size probe)))
  | PProbeAck ack => (s, Ok (IProbeAck (pack_id ack) (pack_size ack)))
  end.

(** [Session::process_input]. *)
Definition process_input (s : Session) (datagram : list Z) (now_ms : f64) (scratch : list Z)
  : Session * list Z * result Inbound :=
  if negb (bool_decide (from_datagram datagram = Some (opposite (se_direction s)))) then (s, scratch, Err Decrypt) else
  match open (se_envelope s) datagram scratch with
  | (scratch, Err e) => (s, scratch, Err e)
  | (scratch, Ok opened) =>
      match parse (op_cleartext opened) with
      | Err e => (s, scratch, Err e)
      | Ok packet => let '(s, r) := handle_packet s packet (zlen datagram) now_ms in (s, scratch, r)
      end
  end.

(** What one iteration of [get_output]'s channel loop decides. *)
Inductive drain_step :=
  | DNext (s : Session)  (* drain_channel += 1; continue *)
  | DReturn (s : Session) (out : list Z) (r : option (result Z)).

Definition skip_channel (s : Session) : Session := s <| se_drain_channel := se_drain_channel s + 1 |>.

Definition drain_one (s : Session) (index : Z) (now_ms : f64) (out : list Z) : drain_step :=
  match channel_due s index now_ms with
  | None => DNext (skip_channel s)
  | Some cleartext_len =>
      let wire_len := saturating_add U64_MAX ENVELOPE_LEN cleartext_len in
      let priority_bytes := default 0 (get (se_drain_bytes s) index) in
      if match priority_quantum index with
         | Some quantum => (0 <? priority_bytes) && (quantum <? saturating_add U64_MAX priority_bytes wire_len)
                           && has_due_after s (se_drain_channel s) now_ms
         | None => false
         end then DNext (skip_channel s) else
      match send_ring s index with
      | None => DNext (skip_channel s)
      | Some ring =>
          let paced := (index =? VIDEO_CHANNEL) && enabled (se_pacer s) in
          if paced && negb (can_consume (se_pacer s) now_ms wire_len) then DReturn s out None else
          match slice_from out ENVELOPE_LEN with
          | None => DReturn s out (Some (Err BufferTooSmall))
          | Some body =>
              let '(ring, body, r) := poll_send ring now_ms (se_srtt_ms s) (se_level s) body in
              let s := s <| se_send := set_at (se_send s) index (Some ring) |> in
              let out := default out (write out ENVELOPE_LEN body) in
              match r with
              | None => DNext (skip_channel s)
              | Some (Err error) => DReturn s out (Some (Err error))
              | Some (Ok written) =>
                  match session_seal s written out with
                  | (s, out, Err e) => DReturn s out (Some (Err e))
                  | (s, out, Ok len) =>
                      let s := if paced then s <| se_pacer := (try_consume (se_pacer s) now_ms len).1 |> else s in
                      let s := match priority_quantum index, get (se_drain_bytes s) index with
                               | Some _, Some bytes =>
                                   s <| se_drain_bytes := set_at (se_drain_bytes s) index (saturating_add U64_MAX bytes len) |>
                               | _, _ => s
                               end in
                      DReturn s out (Some (Ok len))
                  end
              end
          end
      end
  end.

(** The loop of [get_output]: [fuel] is [CHANNEL_COUNT - drain_channel], so it
    runs out where the source's condition fails. *)
Fixpoint drain_loop (fuel : nat) (s : Session) (now_ms : f64) (out : list Z) : Session * list Z * option (result Z) :=
  match fuel with
  | O => (s <| se_drain_started := false |>, out, None)
  | S fuel =>
      match get DRAIN_ORDER (se_drain_channel s) with
      | None => (s <| se_drain_channel := CHANNEL_COUNT |> <| se_drain_started := false |>, out, None)
      | Some index =>
          match drain_one s index now_ms out with
          | DNext s => drain_loop fuel s now_ms out
          | DReturn s out r => (s, out, r)
          end
      end
  end.

Definition begin_output (s : Session) : Session :=
  if se_drain_started s then s else
  s <| se_send := map_send begin_pass (se_send s) |> <| se_drain_channel := 0 |>
    <| se_drain_bytes := channels 0 |> <| se_drain_started := true |>.

Definition get_output (s : Session) (now_ms : f64) (out : list Z) : Session * list Z * option (result Z) :=
  let s := begin_output s in
  if se_ack_due s then
    let '(s, out, r) := emit_ack s out in
    (if is_ok r then s <| se_ack_due := false |> <| se_last_ack_sent_ms := now_ms |> else s, out, Some r)
  else
  match se_pending_probe_ack s with
  | Some probe_ack =>
      let '(s, out, r) := emit_probe_ack s probe_ack out in
      (if is_ok r then s <| se_pending_probe_ack := None |> else s, out, Some r)
  | None => drain_loop (Z.to_nat (CHANNEL_COUNT - se_drain_channel s)) s now_ms out
  end.

End io.
