(* ===== verification/SessionInv.v ===== *)
(** * Session invariant

    The lemmas behind the session theorems: what sealing an encoded packet
    leaves in the buffer, the invariant every operation of a session keeps, one
    output pass step by step, and runs of operations with the datagrams they
    hand out. *)

From S2P Require Import Prelude F64 Seq Packet Message RecvRing Policy SendRing SendSafety Envelope Pmtu Session.

(** ** Sealed records *)

Section sealing.
Context `{A : Aead} {L : AeadLaws A}.

(** [dgram] is [pt] sealed by side [d] under counter [c]. *)
Definition sealed (e : Envelope) (d : Direction) (c : Z) (pt dgram : list Z) : Prop :=
  exists ct tag, encrypt_in_place (env_cipher e) (env_key e) (nonce_bytes e (Z.lor c (seal_bit d))) pt = (ct, Some tag) /\
    dgram = record_bytes (Z.lor c (seal_bit d)) ((zlen pt + SIZE_FIELD_BIAS) mod 65536) tag ct.

Lemma sealed_len e d c pt dgram : sealed e d c pt dgram -> zlen dgram = ENVELOPE_LEN + zlen pt.
Proof.
  intros (ct & tag & Henc & ->).
  pose proof (encrypt_length (env_cipher e) (env_key e) (nonce_bytes e (Z.lor c (seal_bit d))) pt) as Hl.
  pose proof (encrypt_tag (env_cipher e) (env_key e) (nonce_bytes e (Z.lor c (seal_bit d))) pt tag) as Ht.
  rewrite Henc in *. cbn [fst snd] in *. rewrite zlen_record by (by apply Ht). by rewrite Hl.
Qed.

Lemma seal_counter_range d c : 0 <= c < 2 ^ 63 -> 0 <= Z.lor c (seal_bit d) < 2 ^ 64.
Proof. intros Hc. rewrite lor_seal_bit by done. destruct d; lia. Qed.

(** The peer's view of a sealed record. *)
Lemma sealed_opens e d c pt dgram buf :
  sealed e d c pt dgram -> 0 <= c < 2 ^ 63 -> zlen pt <= zlen buf ->
  from_datagram dgram = Some d /\
  open e dgram buf = (pt ++ drop (length pt) buf, Ok (mkOpened (Z.lor c (seal_bit d)) pt)).
Proof.
  intros (ct & tag & Henc & ->) Hc Hb.
  pose proof (encrypt_tag (env_cipher e) (env_key e) (nonce_bytes e (Z.lor c (seal_bit d))) pt tag) as Ht.
  rewrite Henc in Ht. destruct (Ht eq_refl) as [Htl _]. split.
  - rewrite <- (app_nil_r (record_bytes _ _ _ _)). by apply record_direction.
  - apply open_record; [by apply seal_counter_range|done|done].
Qed.

(** The nonce field of a record. *)
Lemma sealed_nonce e d c pt dgram :
  sealed e d c pt dgram -> slice dgram NONCE_OFFSET (NONCE_OFFSET + 8) = Some (be_bytes 8 (Z.lor c (seal_bit d))).
Proof.
  intros (ct & tag & Henc & ->).
  pose proof (encrypt_tag (env_cipher e) (env_key e) (nonce_bytes e (Z.lor c (seal_bit d))) pt tag) as Ht.
  rewrite Henc in Ht. destruct (Ht eq_refl) as [Htl _].
  pose proof (record_slices (Z.lor c (seal_bit d)) ((zlen pt + SIZE_FIELD_BIAS) mod 65536) tag ct [] Htl) as (H & _).
  by rewrite app_nil_r in H.
Qed.

(** [Session::seal] moves the counter at most by one, and only forward. *)
Lemma session_seal_state s len out s' out' r :
  session_seal s len out = (s', out', r) ->
  (s' = s /\ exists e, r = Err e) \/ (se_tx_counter s < 2 ^ 63 /\ s' = s <| se_tx_counter := se_tx_counter s + 1 |>).
Proof.
  unfold session_seal. destruct (Z.leb_spec (2 ^ 63) (se_tx_counter s)); [intros [= <- <- <-]; eauto|].
  unfold checked_add64. destruct (Z.leb_spec (se_tx_counter s + 1) U64_MAX); [|intros [= <- <- <-]; eauto].
  destruct (seal_in_place _ _ _ _) as [out1 r1]. intros [= <- <- <-]. right. split; [lia|done].
Qed.

(** Sealing cleartext written at the ciphertext offset. *)
Lemma session_seal_ok s pre pt rest s' out' n :
  zlen pre = ENVELOPE_LEN -> session_seal s (zlen pt) (pre ++ pt ++ rest) = (s', out', Ok n) ->
  se_tx_counter s < 2 ^ 63 /\ s' = s <| se_tx_counter := se_tx_counter s + 1 |> /\
  n = ENVELOPE_LEN + zlen pt /\ n <= MAX_DATAGRAM /\
  exists dgram, out' = dgram ++ rest /\ sealed (se_envelope s) (se_direction s) (se_tx_counter s) pt dgram.
Proof.
  intros Hp H. destruct (session_seal_state _ _ _ _ _ _ H) as [[_ [? [=]]]|[Hc ->]]. split; [done|]. split; [done|].
  revert H. unfold session_seal. rewrite (proj2 (Z.leb_gt _ _)) by lia. unfold checked_add64 at 1.
  destruct (_ <=? U64_MAX); [|done].
  destruct (seal_in_place _ _ _ _) as [out1 r1] eqn:E. intros [= -> ->].
  pose proof E as E0. unfold seal_in_place in E0. pose proof (zlen_nonneg pt).
  destruct (checked_add64 (zlen pt) ENVELOPE_LEN) as [total|] eqn:Et; [|done].
  unfold checked_add64 in Et. destruct (zlen pt + ENVELOPE_LEN <=? U64_MAX); [|done]. injection Et as <-.
  destruct (Z.ltb_spec MAX_DATAGRAM (zlen pt + ENVELOPE_LEN)); [done|].
  rewrite slice_mid in E0 by (unfold CIPHERTEXT_OFFSET, ENVELOPE_LEN in *; lia).
  destruct (encrypt_in_place _ _ _ _) as [ct [tag|]] eqn:Henc; [|done]. clear E0.
  rewrite (seal_in_place_eq _ _ pre pt rest ct tag) in E by (done || lia).
  apply pair_equal_spec in E as [<- Hn]. assert (Hn' : zlen pt + ENVELOPE_LEN = n) by congruence.
  split; [lia|]. split; [lia|]. eexists. split; [done|]. by exists ct, tag.
Qed.

(** What one emission establishes: [pt] left sealed in the first [n] bytes. *)
Record emitted (s s' : Session) (pt out out' : list Z) (n : Z) : Prop := {
  em_room : se_tx_counter s < 2 ^ 63;
  em_state : s' = s <| se_tx_counter := se_tx_counter s + 1 |>;
  em_len : n = ENVELOPE_LEN + zlen pt;
  em_max : n <= MAX_DATAGRAM;
  em_fits : n <= zlen out;
  em_sealed : sealed (se_envelope s) (se_direction s) (se_tx_counter s) pt (take (Z.to_nat n) out');
  em_rest : drop (Z.to_nat n) out' = drop (Z.to_nat n) out;
}.

(** Cleartext [pt] written over the front of [out[ENVELOPE_LEN..]], then sealed. *)
Lemma seal_written s out body pt s' out' n :
  slice_from out ENVELOPE_LEN = Some body -> zlen pt <= zlen body ->
  session_seal s (zlen pt) (default out (write out ENVELOPE_LEN (pt ++ drop (length pt) body))) = (s', out', Ok n) ->
  emitted s s' pt out out' n.
Proof.
  intros Hs Hl H. pose proof (zlen_nonneg pt).
  unfold slice_from in Hs. pose proof (zlen_slice _ _ _ _ Hs) as Hbl. apply slice_inv in Hs as (_ & Hr & _ & Hb).
  assert (Hpl : zlen (pt ++ drop (length pt) body) = zlen body) by (rewrite zlen_app, zlen_drop; unfold zlen in *; lia).
  rewrite (write_some out ENVELOPE_LEN (pt ++ drop (length pt) body)) in H by (unfold ENVELOPE_LEN in *; lia).
  cbn [default] in H. change (id ?x) with x in H.
  rewrite (drop_ge out) in H by (rewrite Hpl; unfold ENVELOPE_LEN, zlen in *; lia).
  rewrite app_nil_r in H. apply session_seal_ok in H as (Hc & -> & -> & Hm & dgram & -> & Hsd);
    [|rewrite zlen_take; unfold ENVELOPE_LEN in *; lia].
  pose proof (sealed_len _ _ _ _ _ Hsd) as Hdl.
  assert (Hd : length dgram = Z.to_nat (ENVELOPE_LEN + zlen pt)) by (unfold zlen in *; lia).
  constructor; try done.
  - unfold ENVELOPE_LEN in *. lia.
  - by rewrite take_app_length'.
  - rewrite drop_app_length' by done. rewrite Hb, take_ge by (rewrite length_drop; unfold zlen, ENVELOPE_LEN in *; lia).
    rewrite drop_drop. f_equal. unfold zlen, ENVELOPE_LEN. lia.
Qed.

(** [encode] writes [pt] at the front of the buffer it is given, or fails. *)
Definition encodes (encode : list Z -> list Z * result Z) (pt : list Z) : Prop :=
  forall body body' w, encode body = (body', Ok w) ->
    w = zlen pt /\ zlen pt <= zlen body /\ body' = pt ++ drop (length pt) body.

Lemma encode_and_seal_ok s encode pt out s' out' n :
  encodes encode pt -> encode_and_seal s encode out = (s', out', Ok n) -> emitted s s' pt out out' n.
Proof.
  intros He H. unfold encode_and_seal in H. destruct (slice_from out ENVELOPE_LEN) as [body|] eqn:Hs; [|done].
  destruct (encode body) as [body' [w|e]] eqn:Hb; [|done]. apply He in Hb as (-> & Hl & ->).
  by apply (seal_written s out body).
Qed.
End sealing.

(** The encoders. *)

Lemma write_front (out src out' : list Z) :
  write out 0 src = Some out' -> zlen src <= zlen out /\ out' = src ++ drop (length src) out.
Proof.
  intros (_ & Hl & ->)%write_inv. split; [lia|]. change (take (Z.to_nat 0) out) with (@nil Z). rewrite app_nil_l.
  replace (Z.to_nat (0 + zlen src)) with (length src) by (unfold zlen; lia). done.
Qed.

Lemma encodes_data d : encodes (fun body => encode_data body d) (data_bytes d).
Proof. intros body body' w H. apply encode_data_inv in H as (_ & _ & -> & ? & ->). done. Qed.

Lemma encodes_ack a : length (ack_cumulative a) = 19%nat -> encodes (fun body => encode_ack body a) (ack_bytes a (ack_cumulative a)).
Proof.
  intros Hlen body body' w H. unfold encode_ack in H. repeat step_in H. injection H as <- <-.
  fold (ack_bytes a (ack_cumulative a)) in *. destruct (write_front _ _ _ Heqo). split; [|done].
  unfold ack_bytes. rewrite zlen_app, zlen_data_header, zlen_mjoin_be. unfold zlen. by rewrite Hlen.
Qed.

Lemma encodes_probe p : encodes (fun body => encode_probe body p) (probe_bytes p).
Proof.
  intros body body' w H. unfold encode_probe in H. repeat step_in H. injection H as <- <-.
  apply try_from_inv in Heqo0 as [-> _]. unfold checked_sub in Heqo. case_match; [|done]. injection Heqo as <-.
  change (data_header FLAG_PROBE 0 (probe_id p) ++ _) with (probe_bytes p) in *.
  destruct (write_front _ _ _ Heqo1). split; [|done]. bool_prop.
  unfold probe_bytes. rewrite !zlen_app, zlen_data_header, zlen_be_bytes, zlen_replicate. unfold HEADER_LEN in *. lia.
Qed.

Lemma encodes_probe_ack p : encodes (fun body => encode_probe_ack body p) (probe_ack_bytes p).
Proof.
  intros body body' w H. unfold encode_probe_ack in H. repeat step_in H. injection H as <- <-.
  apply try_from_inv in Heqo as [-> _].
  change (data_header FLAG_PROBE_ACK 0 (pack_id p) ++ _) with (probe_ack_bytes p) in *.
  by destruct (write_front _ _ _ Heqo0).
Qed.

(** ** Receive rings: cursors stay [u32] values *)

Record RecvOk (r : RecvRing) : Prop := {
  rk_delivered : is_u32 (rr_delivered r);
  rk_cumulative : is_u32 (rr_cumulative r);
  rk_highest : is_u32 (rr_highest r);
}.

Lemma RecvOk_advance_loop fuel r : RecvOk r -> RecvOk (advance_loop fuel r).
Proof.
  revert r. induction fuel as [|fuel IH]; intros r H; [done|]. cbn [advance_loop].
  destruct (_ =? _); [done|]. destruct (get _ _) as [m|]; [|done]. destruct (sm_ready m); [|done].
  apply IH. destruct H. constructor; try done. apply wrapping_add32_u32.
Qed.

Lemma RecvOk_store r k body : RecvOk r -> RecvOk (store r k body).1.
Proof.
  intros H. unfold store. repeat (case_match; try done); cbn [fst]; apply RecvOk_advance_loop; destruct H; constructor; try done.
  apply wrapping_add32_u32.
Qed.

Lemma RecvOk_release n r k : RecvOk r -> RecvOk (release n r k).
Proof. revert r k. induction n as [|n IH]; intros r k H; [done|]. cbn [release]. apply IH. by destruct H. Qed.

Lemma scan_stall_u32 n r f k a b :
  is_u32 k -> (forall x, a = Some x -> is_u32 x) -> (forall x, b = Some x -> is_u32 x) ->
  let '(a', b') := scan_stall n r f k a b in (forall x, a' = Some x -> is_u32 x) /\ (forall x, b' = Some x -> is_u32 x).
Proof.
  revert k a b. induction n as [|n IH]; intros k a b Hk Ha Hb; [done|]. cbn [scan_stall].
  destruct (slot_body r k) as [body|]; apply IH; try done; try apply wrapping_add32_u32.
  - by intros x [= <-].
  - destruct (f body); [by intros x [= <-]|done].
Qed.

Lemma RecvOk_escape r f : RecvOk r -> RecvOk (escape_stall r f).1.
Proof.
  intros H. unfold escape_stall. destruct (negb _); [done|].
  pose proof (scan_stall_u32 (Z.to_nat (distance (rr_delivered r) (rr_highest r))) r f (rr_delivered r) None None
    ltac:(apply H) ltac:(done) ltac:(done)) as Hs.
  destruct (scan_stall _ _ _ _ _ _) as [a b]. destruct Hs as [Ha Hb].
  assert (Ht : forall t, (match b with Some t => Some t | None => a end) = Some t -> is_u32 t) by (intros t; destruct b; auto).
  destruct (match b with Some t => Some t | None => a end) as [t|]; [|done]. specialize (Ht t eq_refl).
  destruct (Seq.le _ _); [done|]. cbn [fst]. apply RecvOk_advance_loop.
  pose proof (RecvOk_release (Z.to_nat (distance (rr_delivered r) t)) r (rr_delivered r) H) as [].
  destruct (Seq.lt _ _); constructor; done.
Qed.

Lemma RecvOk_take r out : RecvOk r -> RecvOk (take_message r out).1.1.
Proof.
  intros H. unfold take_message. repeat (case_match; try done); cbn [fst].
  all: match goal with |- context [release ?n ?r ?k] => pose proof (RecvOk_release n r k H) as [] end.
  all: constructor; try done; apply wrapping_add32_u32.
Qed.

(** ** The session invariant *)

Definition attached {R} (P : R -> Prop) (rings : list (option R)) : Prop := Forall (from_option P True) rings.

(** A send ring fit for a path body of [body] bytes. *)
Definition fits (body : Z) (r : SendRing) : Prop := RingOk r /\ sr_fragment_capacity r <= body.

Record SessOk (s : Session) : Prop := {
  so_recv_len : zlen (se_recv s) = CHANNEL_COUNT;
  so_send_len : zlen (se_send s) = CHANNEL_COUNT;
  so_recv : attached RecvOk (se_recv s);
  so_send : attached (fits (body_of (se_path_datagram_size s))) (se_send s);
  so_trigger : 0 <= (se_trigger s).1 < CHANNEL_COUNT /\ 0 <= (se_trigger s).2 < U32_MAX;
  so_probe : forall p, se_pending_probe_ack s = Some p -> Probe_ok (pack_id p) (pack_size p);
  so_tx : 0 <= se_tx_counter s;
  so_path : DEFAULT_DATAGRAM <= se_path_datagram_size s <= MAX_DATAGRAM;
}.

Lemma attached_get {R} (P : R -> Prop) rings i r : attached P rings -> mjoin (get rings i) = Some r -> P r.
Proof.
  intros H Hg. destruct (get rings i) as [o|] eqn:E; [|done]. cbn in Hg. subst o. by apply (Forall_get _ _ _ _ H E).
Qed.

Lemma attached_map {R} (P Q : R -> Prop) f rings :
  attached P rings -> (forall r, P r -> Q (f r)) -> attached Q (map (option_map f) rings).
Proof.
  intros H Hf. unfold attached. apply Forall_fmap. eapply Forall_impl; [|exact H]. intros [r|]; [|done]. cbn. apply Hf.
Qed.

(** Everything the invariant reads, kept. *)
Definition same_wire (s s' : Session) : Prop :=
  se_trigger s' = se_trigger s /\ se_pending_probe_ack s' = se_pending_probe_ack s /\
  se_path_datagram_size s' = se_path_datagram_size s /\ se_tx_counter s' = se_tx_counter s.

Lemma SessOk_rings s s' :
  SessOk s -> same_wire s s' -> zlen (se_recv s') = zlen (se_recv s) -> zlen (se_send s') = zlen (se_send s) ->
  attached RecvOk (se_recv s') -> attached (fits (body_of (se_path_datagram_size s))) (se_send s') -> SessOk s'.
Proof. intros [] (E1 & E2 & E3 & E4) El1 El2 Hr Hs. constructor; rewrite ?E1, ?E2, ?E3, ?E4, ?El1, ?El2; done. Qed.

(** ** One output pass *)

Section output.
Context `{A : Aead} {L : AeadLaws A}.

(** What draining may change: the send rings, the pacer, the scheduler's
    bookkeeping, and the nonce counter, which only moves forward. *)
Definition drained (s s' : Session) : Prop :=
  exists rings dc started pacer bytes tx,
    s' = s <| se_send := rings |> <| se_drain_channel := dc |> <| se_drain_started := started |>
           <| se_pacer := pacer |> <| se_drain_bytes := bytes |> <| se_tx_counter := tx |> /\
    se_tx_counter s <= tx.

Lemma drained_refl s : drained s s.
Proof.
  exists (se_send s), (se_drain_channel s), (se_drain_started s), (se_pacer s), (se_drain_bytes s), (se_tx_counter s).
  split; [by destruct s|lia].
Qed.

Lemma drained_trans s1 s2 s3 : drained s1 s2 -> drained s2 s3 -> drained s1 s3.
Proof.
  intros (? & ? & ? & ? & ? & ? & -> & ?) (r & dc & st & p & b & t & -> & Ht). exists r, dc, st, p, b, t. split; [done|]. cbn in *. lia.
Qed.

(** [pt] left the session sealed in the first [n] bytes of the buffer. *)
Record left_as (s s' : Session) (pt out out' : list Z) (n : Z) : Prop := {
  la_room : se_tx_counter s < 2 ^ 63;
  la_next : se_tx_counter s' = se_tx_counter s + 1;
  la_len : n = ENVELOPE_LEN + zlen pt;
  la_max : n <= MAX_DATAGRAM;
  la_fits : n <= zlen out;
  la_sealed : sealed (se_envelope s) (se_direction s) (se_tx_counter s) pt (take (Z.to_nat n) out');
}.

Lemma emitted_left s s' s'' pt out out' n :
  emitted s s' pt out out' n -> se_tx_counter s'' = se_tx_counter s' -> left_as s s'' pt out out' n.
Proof. intros [? -> ? ? ? ? ?] E. by constructor. Qed.

(** Packet [d] is what the scan of the ring attached at [idx] wrote. *)
Definition data_sent (s s' : Session) (now : f64) (out : list Z) (d : Data) (idx : Z) : Prop :=
  exists ring ring' body, send_ring s idx = Some ring /\ send_ring s' idx = Some ring' /\
    poll_send ring now (se_srtt_ms s) (se_level s) (drop (Z.to_nat ENVELOPE_LEN) out) = (ring', body, Some (Ok (zlen (data_bytes d)))) /\
    take (length (data_bytes d)) body = data_bytes d.

Lemma send_ring_set s idx ring j :
  0 <= idx < zlen (se_send s) ->
  send_ring (s <| se_send := set_at (se_send s) idx (Some ring) |>) j = if decide (idx = j) then Some ring else send_ring s j.
Proof. intros Hi. unfold send_ring. cbn. rewrite get_set_at by done. by case_decide. Qed.

Lemma SessOk_poll s idx ring :
  SessOk s -> fits (body_of (se_path_datagram_size s)) ring -> SessOk (s <| se_send := set_at (se_send s) idx (Some ring) |>).
Proof.
  intros H Hr. pose proof H as []. apply (SessOk_rings s); try done; cbn; [by rewrite zlen_set_at|]. by apply Forall_set_at.
Qed.

Lemma SessOk_same s s' :
  SessOk s -> se_recv s' = se_recv s -> se_send s' = se_send s -> se_trigger s' = se_trigger s ->
  se_pending_probe_ack s' = se_pending_probe_ack s -> se_path_datagram_size s' = se_path_datagram_size s ->
  se_tx_counter s <= se_tx_counter s' -> SessOk s'.
Proof. intros [] E1 E2 E3 E4 E5 Ht. constructor; rewrite ?E1, ?E2, ?E3, ?E4, ?E5; try done. lia. Qed.

Lemma drained_skip s s' : drained s s' -> drained s (skip_channel s').
Proof. intros (r & dc & st & p & b & t & -> & Ht). by exists r, (dc + 1), st, p, b, t. Qed.

(** One step of the channel loop. *)
Lemma drain_one_spec s idx now out :
  SessOk s -> 0 <= idx < CHANNEL_COUNT ->
  match drain_one s idx now out with
  | DNext s' => SessOk s' /\ drained s s' /\ se_tx_counter s' = se_tx_counter s /\
                se_drain_channel s' = se_drain_channel s + 1 /\ forall j, j <> idx -> send_ring s' j = send_ring s j
  | DReturn s' out' r => SessOk s' /\ drained s s' /\
      match r with
      | Some (Ok n) => exists d, Data_ok d /\ zlen (data_body d) <= body_of (se_path_datagram_size s) /\
                         left_as s s' (data_bytes d) out out' n /\
                         data_sent s s' now out d idx
      | _ => True
      end
  end.
Proof.
  intros H Hi. pose proof H as []. unfold drain_one.
  assert (Hskip : forall s', SessOk s' -> drained s s' -> se_tx_counter s' = se_tx_counter s ->
    se_drain_channel s' = se_drain_channel s -> (forall j, j <> idx -> send_ring s' j = send_ring s j) ->
    SessOk (skip_channel s') /\ drained s (skip_channel s') /\ se_tx_counter (skip_channel s') = se_tx_counter s /\
    se_drain_channel (skip_channel s') = se_drain_channel s + 1 /\ forall j, j <> idx -> send_ring (skip_channel s') j = send_ring s j).
  { intros s' H' D Et Ed Hj. split; [by apply (SessOk_same s')|]. split; [by apply drained_skip|]. split; [exact Et|]. split; [|exact Hj].
    cbn. by rewrite Ed. }
  destruct (channel_due s idx now) as [len|]; [|by apply Hskip; try apply drained_refl].
  destruct (match priority_quantum idx with Some _ => _ | None => _ end); [by apply Hskip; try apply drained_refl|].
  destruct (send_ring s idx) as [ring|] eqn:Hr; [|by apply Hskip; try apply drained_refl].
  destruct (_ && negb _); [split; [done|]; split; [apply drained_refl|done]|].
  destruct (slice_from out ENVELOPE_LEN) as [body|] eqn:Hs; [|split; [done|]; split; [apply drained_refl|done]].
  pose proof (attached_get _ _ _ _ so_send0 Hr) as [Hring Hcap].
  destruct (poll_send ring now (se_srtt_ms s) (se_level s) body) as [[ring' body'] res] eqn:Hp.
  destruct (poll_send_safe _ _ _ _ _ _ _ _ Hring Hp) as (Hring' & Ecap & Hres).
  set (s1 := s <| se_send := _ |>).
  assert (H1 : SessOk s1) by (apply SessOk_poll; [done|]; split; [done|lia]).
  assert (D1 : drained s s1).
  { exists (se_send s1), (se_drain_channel s), (se_drain_started s), (se_pacer s), (se_drain_bytes s), (se_tx_counter s). split; [by destruct s|lia]. }
  destruct res as [[w|e]|].
  - destruct Hres as (d & Hen & Hch & Hseq & Hby & Hl). pose proof Hen as Hen'. apply encode_data_inv in Hen' as (_ & Hneq & -> & Hle & Eb).
    assert (Hd : Data_ok d) by (repeat split; try done; unfold is_u32, U32_MAX, M32 in *; lia).
    destruct (session_seal s1 _ _) as [[s2 out2] [n|e]] eqn:Hseal; cycle 1.
    { destruct (session_seal_state _ _ _ _ _ _ Hseal) as [[-> _]|[_ ->]]; (split; [|split; [|done]]); try done.
      - apply (SessOk_same s1); try reflexivity; [exact H1|cbn; lia].
      - exists (se_send s1), (se_drain_channel s), (se_drain_started s), (se_pacer s), (se_drain_bytes s), (se_tx_counter s + 1). split; [by destruct s|lia]. }
    rewrite Eb in Hseal. pose proof (seal_written s1 out body (data_bytes d) s2 out2 n Hs Hle Hseal) as Hem. pose proof Hem as [_ -> _ _ _ _ _].
    set (s3 := if (_ && _) then _ else _). set (s4 := match priority_quantum idx with Some _ => _ | None => _ end).
    assert (E4 : exists p b, s4 = s1 <| se_tx_counter := se_tx_counter s1 + 1 |> <| se_pacer := p |> <| se_drain_bytes := b |>).
    { assert (E3 : exists p, s3 = s1 <| se_tx_counter := se_tx_counter s1 + 1 |> <| se_pacer := p |>)
        by (subst s3; destruct (_ && _); eexists; [done|by instantiate (1 := se_pacer s); destruct s]).
      destruct E3 as [p E3]. subst s4. rewrite E3. exists p. destruct (priority_quantum idx); [|by exists (se_drain_bytes s); destruct s].
      destruct (get _ idx); [by eexists|by exists (se_drain_bytes s); destruct s]. }
    clearbody s4. destruct E4 as (p & b & ->). split; [|split].
    + apply (SessOk_same s1); try reflexivity; [exact H1|cbn; lia].
    + exists (se_send s1), (se_drain_channel s), (se_drain_started s), p, b, (se_tx_counter s + 1). split; [by destruct s|lia].
    + exists d. split; [done|]. split; [lia|]. split.
      * destruct Hem. by constructor.
      * exists ring, ring', body'. split; [done|]. split; [unfold send_ring; cbn; rewrite get_set_at by (rewrite so_send_len0; done); by rewrite decide_True|].
        unfold slice_from in Hs. apply slice_inv in Hs as (_ & ? & _ & Hs). rewrite take_ge in Hs by (rewrite length_drop; unfold zlen, ENVELOPE_LEN in *; lia).
        rewrite <- Hs, Eb, Hp, Eb. split; [done|]. by rewrite take_app_length.
  - split; [done|]. by split.
  - apply Hskip; try done. intros j Hj. subst s1. rewrite send_ring_set by (rewrite so_send_len0; done). by rewrite decide_False by congruence.
Qed.

Lemma drain_order_inj i j idx : get DRAIN_ORDER i = Some idx -> get DRAIN_ORDER j = Some idx -> i = j.
Proof.
  intros [Hi Ei]%get_inv [Hj Ej]%get_inv. assert (Hnd : NoDup DRAIN_ORDER) by (apply (bool_decide_unpack _); vm_compute; exact I).
  pose proof (NoDup_lookup _ _ _ _ Hnd Ei Ej). lia.
Qed.

Lemma drain_order_range k idx : get DRAIN_ORDER k = Some idx -> 0 <= idx < CHANNEL_COUNT.
Proof.
  intros H. assert (HF : Forall (fun idx => 0 <= idx < CHANNEL_COUNT) DRAIN_ORDER) by (apply rangeb_spec; reflexivity).
  by apply (Forall_get _ _ _ _ HF H).
Qed.

(** What a call that reached the data channels did, seen from [s0]. *)
Definition drain_post (s0 s' : Session) (now : f64) (out out' : list Z) (r : option (result Z)) : Prop :=
  SessOk s' /\ drained s0 s' /\
  match r with
  | Some (Ok n) => exists d, Data_ok d /\ zlen (data_body d) <= body_of (se_path_datagram_size s0) /\
                     left_as s0 s' (data_bytes d) out out' n /\ exists idx, data_sent s0 s' now out d idx
  | _ => True
  end.

Lemma drain_loop_spec fuel s0 s now out s' out' r :
  SessOk s -> drained s0 s -> se_tx_counter s = se_tx_counter s0 ->
  (forall k idx, se_drain_channel s <= k -> get DRAIN_ORDER k = Some idx -> send_ring s idx = send_ring s0 idx) ->
  drain_loop fuel s now out = (s', out', r) -> drain_post s0 s' now out out' r.
Proof.
  revert s. induction fuel as [|fuel IH]; intros s H D Et Hsame Hd; cbn [drain_loop] in Hd.
  { injection Hd as <- <- <-. split; [by apply (SessOk_same s)|]. split; [|done].
    destruct D as (rs & dc & st & p & b & t & -> & Ht). by exists rs, dc, false, p, b, t. }
  destruct (get DRAIN_ORDER (se_drain_channel s)) as [idx|] eqn:Hidx.
  2: { injection Hd as <- <- <-. split; [by apply (SessOk_same s)|]. split; [|done].
    destruct D as (rs & dc & st & p & b & t & -> & Ht). by exists rs, CHANNEL_COUNT, false, p, b, t. }
  pose proof (drain_one_spec s idx now out H (drain_order_range _ _ Hidx)) as HO.
  destruct (drain_one s idx now out) as [s1|s1 out1 r1].
  - destruct HO as (H1 & D1 & Et1 & Ec1 & Hr1). apply (IH s1); try done; [by apply (drained_trans _ s)|congruence|].
    intros k j Hkj Hj. rewrite Hr1; [apply (Hsame k); [lia|done]|].
    intros ->. pose proof (drain_order_inj _ _ _ Hj Hidx). lia.
  - injection Hd as <- <- <-. destruct HO as (H1 & D1 & Hr). split; [done|]. split; [by apply (drained_trans _ s)|].
    destruct r1 as [[n|e]|]; [|done|done]. destruct Hr as (d & Hdok & Hl & [L1 L2 L3 L4 L5 L6] & Hsent).
    destruct Hsent as (ring1 & ring' & body & S1 & S2 & S3 & S4).
    assert (E : se_envelope s = se_envelope s0 /\ se_direction s = se_direction s0 /\ se_srtt_ms s = se_srtt_ms s0 /\ se_level s = se_level s0
      /\ se_path_datagram_size s = se_path_datagram_size s0) by (destruct D as (? & ? & ? & ? & ? & ? & -> & _); done).
    destruct E as (E1 & E2 & E3 & E4 & E5). rewrite ?Et, ?E1, ?E2, ?E3, ?E4, ?E5 in *.
    exists d. split; [done|]. split; [done|]. split; [by constructor|]. exists idx, ring1, ring', body.
    split; [|done]. by rewrite <- (Hsame (se_drain_channel s)).
Qed.

Lemma build_ack_ok s : SessOk s -> Ack_ok (build_ack s).
Proof.
  intros []. unfold Ack_ok, build_ack. cbn [trigger_channel trigger_seq ack_cumulative ack_reported ack_nack ack_kind].
  split; [case_bool_decide; [unfold CHANNEL_COUNT; lia|apply so_trigger0]|].
  split; [case_bool_decide; [unfold U32_MAX; lia|apply so_trigger0]|].
  split; [|split; [|split; [unfold CHANNEL_COUNT; lia|split]]].
  - apply Forall_fmap. eapply Forall_impl; [|exact so_recv0]. intros [r|]; cbn; [by intros []|]. intros _. unfold is_u32, M32. lia.
  - rewrite length_map. unfold zlen, CHANNEL_COUNT in *. lia.
  - intros Hn. bool_prop. destruct (se_ack_kind s); [done|]. by rewrite bool_decide_true in *.
  - intros i Hi. lia.
Qed.

Lemma zlen_ack_bytes a : length (ack_cumulative a) = 19%nat -> zlen (ack_bytes a (ack_cumulative a)) = ACK_LEN.
Proof. intros Hl. unfold ack_bytes. rewrite zlen_app, zlen_data_header, zlen_mjoin_be. unfold zlen. by rewrite Hl. Qed.

Lemma parse_full_ack a : Ack_ok a -> ack_reported a = CHANNEL_COUNT -> parse (ack_bytes a (ack_cumulative a)) = Ok (PAck a).
Proof.
  intros (Hc & Hs & Hu & Hlen & Hr & Hn & Hz) Hrep. assert (Hl : zlen (ack_cumulative a) = CHANNEL_COUNT) by (unfold zlen; by rewrite Hlen).
  rewrite parse_ack_bytes; rewrite ?Hl; try done. rewrite Z.sub_diag. cbn [replicate Z.to_nat]. rewrite app_nil_r. destruct a. cbn in *. by subst.
Qed.

(** The packet a successful [get_output] sent. *)
Definition sent_packet (s s' : Session) (now : f64) (out : list Z) (pkt : Packet) : Prop :=
  if se_ack_due s then pkt = PAck (build_ack s) else
  match se_pending_probe_ack s with
  | Some ack => pkt = PProbeAck ack
  | None => exists d idx, pkt = PData d /\ data_sent (begin_output s) s' now out d idx
  end.

Lemma begin_output_ok s : SessOk s -> SessOk (begin_output s).
Proof.
  intros H. unfold begin_output. destruct (se_drain_started s); [done|]. pose proof H as [].
  apply (SessOk_rings s); try done; cbn; [apply zlen_map|].
  apply (attached_map (fits (body_of (se_path_datagram_size s)))); [done|]. intros r [? ?]. split; [by apply RingOk_begin|done].
Qed.

Lemma begin_output_drained s : drained s (begin_output s) /\ se_tx_counter (begin_output s) = se_tx_counter s.
Proof.
  unfold begin_output. destruct (se_drain_started s); [split; [apply drained_refl|done]|]. split; [|done].
  exists (map_send begin_pass (se_send s)), 0, true, (se_pacer s), (channels 0), (se_tx_counter s). split; [by destruct s|lia].
Qed.

Lemma encode_and_seal_state s encode out s' out' r :
  encode_and_seal s encode out = (s', out', r) -> s' = s \/ s' = s <| se_tx_counter := se_tx_counter s + 1 |>.
Proof.
  unfold encode_and_seal. destruct (slice_from _ _); [|intros [= <- _ _]; auto]. destruct (encode _) as [b [w|e]]; [|intros [= <- _ _]; auto].
  intros H. destruct (session_seal_state _ _ _ _ _ _ H) as [[-> _]|[_ ->]]; auto.
Qed.

(** Everything about one call of [get_output]. *)
Definition output_post (s s' : Session) (now : f64) (out out' : list Z) (r : option (result Z)) : Prop :=
  SessOk s' /\ se_envelope s' = se_envelope s /\ se_direction s' = se_direction s /\ se_tx_counter s <= se_tx_counter s' /\
  match r with
  | Some (Ok n) => exists pkt pt, parse pt = Ok pkt /\ Packet_ok pkt /\ sent_packet s s' now out pkt /\ left_as s s' pt out out' n /\
                     n <= se_path_datagram_size s
  | _ => True
  end.

(** An acknowledgement or probe acknowledgement sealed out of turn. *)
Lemma feedback_post s s' s'' encode pkt pt now out out' r :
  SessOk s -> encodes encode pt -> encode_and_seal (begin_output s) encode out = (s', out', r) ->
  parse pt = Ok pkt -> Packet_ok pkt -> sent_packet s s'' now out pkt -> zlen pt <= ACK_LEN ->
  SessOk s'' -> se_envelope s'' = se_envelope s' -> se_direction s'' = se_direction s' -> se_tx_counter s'' = se_tx_counter s' ->
  output_post s s'' now out out' (Some r).
Proof.
  intros H He Hs Hp Hok Hsent Hl H'' E1 E2 E3. destruct (begin_output_drained s) as [D Et].
  assert (F : se_envelope (begin_output s) = se_envelope s /\ se_direction (begin_output s) = se_direction s)
    by (destruct D as (? & ? & ? & ? & ? & ? & -> & _); done). destruct F as [F1 F2].
  split; [done|]. pose proof (encode_and_seal_state _ _ _ _ _ _ Hs) as Hst.
  assert (G : se_envelope s' = se_envelope s /\ se_direction s' = se_direction s /\ se_tx_counter s <= se_tx_counter s')
    by (destruct Hst as [->| ->]; cbn; rewrite ?F1, ?F2, ?Et; split; [done|split; [done|lia]| done|split; [done|lia]]).
  destruct G as (G1 & G2 & G3). split; [congruence|]. split; [congruence|]. split; [lia|].
  destruct r as [n|e]; [|done]. pose proof (encode_and_seal_ok _ _ _ _ _ _ _ He Hs) as [M1 M2 M3 M4 M5 M6 M7].
  exists pkt, pt. do 3 (split; [done|]). split.
  - rewrite M2 in E3. cbn in E3. rewrite F1, F2, Et in *. by constructor.
  - pose proof (so_path _ H) as Hpath. unfold ENVELOPE_LEN, ACK_LEN, DEFAULT_DATAGRAM in *. lia.
Qed.

Lemma get_output_spec s now out s' out' r :
  SessOk s -> get_output s now out = (s', out', r) -> output_post s s' now out out' r.
Proof.
  intros H Hg. pose proof (begin_output_ok s H) as Hb. destruct (begin_output_drained s) as [D Et]. unfold get_output in Hg.
  assert (F : se_ack_due (begin_output s) = se_ack_due s /\ se_pending_probe_ack (begin_output s) = se_pending_probe_ack s /\
    build_ack (begin_output s) = build_ack s /\ se_envelope (begin_output s) = se_envelope s /\
    se_direction (begin_output s) = se_direction s /\ se_path_datagram_size (begin_output s) = se_path_datagram_size s)
    by (destruct D as (? & ? & ? & ? & ? & ? & -> & _); done). destruct F as (F1 & F2 & F3 & F4 & F5 & F6).
  rewrite F1, F2 in Hg. destruct (se_ack_due s) eqn:Ha.
  - destruct (emit_ack (begin_output s) out) as [[s1 out1] r1] eqn:He. injection Hg as <- <- <-. unfold emit_ack in He. rewrite F3 in He.
    pose proof (build_ack_ok s H) as Hok. pose proof Hok as (_ & _ & _ & Hlen & _).
    pose proof (encode_and_seal_state _ _ _ _ _ _ He) as Hst.
    assert (H1 : SessOk s1) by (destruct Hst as [->| ->]; [done|apply (SessOk_same (begin_output s)); try done; cbn; lia]).
    eapply (feedback_post s s1 _ _ _ _ now out); [done|by apply encodes_ack|exact He|by apply parse_full_ack|done| | | | | |].
    + unfold sent_packet. by rewrite Ha.
    + rewrite zlen_ack_bytes by done. done.
    + destruct (is_ok r1); [|done]. by apply (SessOk_same s1).
    + by destruct (is_ok r1).
    + by destruct (is_ok r1).
    + by destruct (is_ok r1).
  - destruct (se_pending_probe_ack s) as [pa|] eqn:Hpa.
    + destruct (emit_probe_ack (begin_output s) pa out) as [[s1 out1] r1] eqn:He. injection Hg as <- <- <-. unfold emit_probe_ack in He.
      pose proof (so_probe _ H _ Hpa) as Hok. pose proof (encode_and_seal_state _ _ _ _ _ _ He) as Hst.
      assert (H1 : SessOk s1) by (destruct Hst as [->| ->]; [done|apply (SessOk_same (begin_output s)); try done; cbn; lia]).
      eapply (feedback_post s s1 _ _ _ _ now out); [done|apply encodes_probe_ack|exact He|by apply parse_probe_ack_bytes|done| | | | | |].
      * unfold sent_packet. by rewrite Ha, Hpa.
      * unfold probe_ack_bytes. rewrite zlen_app, zlen_data_header, zlen_be_bytes. done.
      * destruct (is_ok r1); [|done]. destruct H1. constructor; try done.
      * by destruct (is_ok r1).
      * by destruct (is_ok r1).
      * by destruct (is_ok r1).
    + destruct (drain_loop_spec _ (begin_output s) (begin_output s) now out s' out' r Hb (drained_refl _) eq_refl ltac:(done) Hg) as (H' & D' & Hr).
      split; [done|]. assert (G : se_envelope s' = se_envelope (begin_output s) /\ se_direction s' = se_direction (begin_output s) /\ se_tx_counter (begin_output s) <= se_tx_counter s')
        by (destruct D' as (? & ? & ? & ? & ? & ? & -> & ?); done). destruct G as (G1 & G2 & G3).
      split; [congruence|]. split; [congruence|]. split; [lia|]. destruct r as [[n|e]|]; [|done|done].
      destruct Hr as (d & Hd & Hl & [L1 L2 L3 L4 L5 L6] & idx & Hsent). rewrite ?F4, ?F5, ?F6, ?Et in *.
      exists (PData d), (data_bytes d). split; [by apply parse_data_bytes|]. split; [done|]. split; [|split; [by constructor|]].
      * unfold sent_packet. rewrite Ha, Hpa. by exists d, idx.
      * pose proof (so_path _ H). rewrite zlen_data_bytes in L3. unfold body_of, saturating_sub, ENVELOPE_LEN, HEADER_LEN, DEFAULT_DATAGRAM in *. lia.
Qed.

(** ** Every operation *)

Lemma same_wire_refl s : same_wire s s.
Proof. done. Qed.

Lemma ack_all_spec (P : SendRing -> Prop) rings ack now sample :
  attached P rings -> (forall r, P r -> P (on_ack r ack now).1) ->
  attached P (ack_all rings ack now sample).1 /\ zlen (ack_all rings ack now sample).1 = zlen rings.
Proof.
  intros H HP. revert sample. induction H as [|[r|] rings Hr _ IH]; intros sample; [split; [constructor|done]| |]; cbn [ack_all].
  - specialize (HP r Hr). destruct (on_ack r ack now) as [r1 t]. cbn [fst] in HP.
    specialize (IH (match t with Some t => Some t | None => sample end)). destruct (ack_all rings _ _ _) as [rs sm]. cbn [fst] in *.
    destruct IH as [IH El]. split; [by constructor|]. by rewrite !zlen_cons, El.
  - specialize (IH sample). destruct (ack_all rings _ _ _) as [rs sm]. cbn [fst] in *.
    destruct IH as [IH El]. split; [by constructor|]. by rewrite !zlen_cons, El.
Qed.

Lemma fits_ack body ack now r : Forall is_u32 (ack_cumulative ack) -> fits body r -> fits body (on_ack r ack now).1.
Proof.
  intros Hu [H Hc]. split; [by apply RingOk_ack|]. enough (sr_fragment_capacity (on_ack r ack now).1 = sr_fragment_capacity r) by lia.
  clear. unfold on_ack. cbv zeta.
  assert (Ha : forall n r k, sr_fragment_capacity (account n r k) = sr_fragment_capacity r).
  { clear. induction n as [|n IH]; intros r k; [done|]. cbn [account]. cbv zeta. rewrite IH. by repeat case_match. }
  assert (Hcum : forall c, sr_fragment_capacity (ack_cumulative_step r c) = sr_fragment_capacity r).
  { intros c. unfold ack_cumulative_step. destruct (_ && _); [|done]. cbv zeta. destruct (Seq.lt _ _); cbn; by rewrite Ha. }
  set (r1 := ack_cumulative_step r _). assert (E : sr_fragment_capacity r1 = sr_fragment_capacity r) by apply Hcum.
  clearbody r1. destruct (ack_nack ack && _); repeat case_match; cbn; exact E.
Qed.

(** The inert side of a session: what packets and housekeeping do not reach. *)
Definition keeps_keys (s s' : Session) : Prop :=
  se_envelope s' = se_envelope s /\ se_direction s' = se_direction s /\ se_tx_counter s' = se_tx_counter s.

Lemma observe_rtt_ok s t : SessOk s -> SessOk (observe_rtt s t) /\ keeps_keys s (observe_rtt s t).
Proof.
  intros H. unfold observe_rtt. destruct (_ || _); [done|].
  destruct (se_srtt_seeded s); (split; [by apply (SessOk_same s)|done]).
Qed.

Lemma handle_packet_ok s pkt len now :
  SessOk s -> Packet_ok pkt -> SessOk (handle_packet s pkt len now).1 /\ keeps_keys s (handle_packet s pkt len now).1.
Proof.
  intros H Hp. unfold handle_packet. cbv zeta.
  set (s1 := s <| se_last_progress_ms := now |>). assert (H1 : SessOk s1) by (by apply (SessOk_same s)).
  assert (K1 : keeps_keys s s1) by done. clearbody s1. destruct pkt as [d|a|p|p]; cbn [Packet_ok] in Hp.
  - set (s2 := s1 <| se_trigger := _ |> <| se_ack_due := _ |> <| se_ack_kind := _ |>).
    assert (H2 : SessOk s2). { destruct Hp as (? & ? & ?), H1. by constructor. }
    assert (K2 : keeps_keys s s2) by exact K1. clearbody s2.
    destruct (recv_ring s2 (data_channel d)) as [r|] eqn:Hr; cbn [fst]; [|done]. split; [|done].
    pose proof H2 as []. pose proof (attached_get _ _ _ _ so_recv0 Hr) as Hrok.
    apply (SessOk_rings s2); try done; cbn; [by rewrite zlen_set_at|]. apply Forall_set_at; [done|]. by apply RecvOk_store.
  - destruct Hp as (_ & _ & Hu & _). pose proof H1 as [].
    destruct (ack_all_spec _ (se_send s1) a now None so_send0 (fun r => fits_ack _ a now r Hu)) as [Hr Hl].
    destruct (ack_all (se_send s1) a now None) as [rings sample]. cbn [fst] in *.
    assert (H2 : SessOk (s1 <| se_send := rings |>)) by (by apply (SessOk_rings s1)).
    destruct sample as [t|]; [|done]. destruct (observe_rtt_ok _ t H2) as [H3 K3]. cbn [fst]. split; [exact H3|].
    unfold keeps_keys in *. cbn in K3. destruct K1 as (<- & <- & <-). exact K3.
  - destruct (negb _); cbn [fst]; [done|]. split; [|done]. destruct H1. constructor; try done. by intros ? [= <-].
  - done.
Qed.

(** Changing the path size: the new capacity is the new body on every ring. *)
Lemma resized s size p rings :
  SessOk s -> legal_datagram size = true -> zlen rings = zlen (se_send s) -> attached (fits (body_of size)) rings ->
  SessOk (s <| se_pacer := p |> <| se_send := rings |> <| se_path_datagram_size := size |>).
Proof. intros [] Hs%legal_datagram_iff Hl Hr. constructor; try done. cbn. by rewrite Hl. Qed.

Lemma set_capacity_fits body r : RingOk r -> can_set_fragment_capacity r body = true -> fits body (set_fragment_capacity r body).1.
Proof.
  intros H Hc. split; [by apply RingOk_capacity|]. unfold set_fragment_capacity. rewrite Hc. cbn. lia.
Qed.

Definition can_set_all (rings : list (option SendRing)) (body : Z) : bool :=
  negb (existsb (fun ring => match ring with Some ring => negb (can_set_fragment_capacity ring body) | None => false end) rings).

Lemma set_all_fits rings body old :
  attached (fits old) rings -> can_set_all rings body = true ->
  attached (fits body) (map_send (fun ring => (set_fragment_capacity ring body).1) rings).
Proof.
  unfold can_set_all. intros H. induction H as [|[r|] rings Hr H IH]; cbn; intros E; [constructor| |].
  - bool_prop. destruct Hr. constructor; [by apply set_capacity_fits|apply IH; by apply negb_true_iff].
  - constructor; [done|by apply IH].
Qed.

Lemma set_path_ok s size : SessOk s -> SessOk (set_path_datagram_size s size).1 /\ keeps_keys s (set_path_datagram_size s size).1.
Proof.
  intros H. unfold set_path_datagram_size. destruct (legal_datagram size) eqn:Hl; cbn [negb]; [|done].
  destruct (existsb _ _) eqn:He; [done|]. destruct (set_datagram_size (se_pacer s) size) as [p ok].
  destruct ok; cbn [negb fst]; [|split; [by apply (SessOk_same s)|done]]. split; [|done]. apply resized; [done|done|apply zlen_map|].
  apply (set_all_fits _ _ _ (so_send _ H)). unfold can_set_all. by rewrite He.
Qed.

Lemma zip_seqZ_in {X} (l : list X) i x : get l i = Some x -> In (i, x) (zip (seqZ 0 (zlen l)) l).
Proof.
  intros [Hi Hx]%get_inv. apply list_elem_of_In, list_elem_of_lookup. exists (Z.to_nat i).
  rewrite lookup_zip_with, Hx. rewrite lookup_seqZ_lt by lia. cbn. do 2 f_equal. lia.
Qed.

Lemma can_set_all_intro rings body :
  (forall i r, get rings i = Some (Some r) -> can_set_fragment_capacity r body = true) -> can_set_all rings body = true.
Proof.
  intros H. apply negb_true_iff, not_true_iff_false. intros ([r|] & Hin & Hr)%existsb_exists; [|done].
  apply list_elem_of_In, list_elem_of_lookup in Hin as (i & Hi). specialize (H (Z.of_nat i) r).
  rewrite get_lookup, Nat2Z.id in H by lia. rewrite (H Hi) in Hr. done.
Qed.

Lemma body_of_legal size : legal_datagram size = true -> 0 < body_of size <= U16_MAX.
Proof. intros H%legal_datagram_iff. unfold body_of, saturating_sub, ENVELOPE_LEN, HEADER_LEN, DEFAULT_DATAGRAM, MAX_DATAGRAM, U16_MAX in *. lia. Qed.

(** The send rings once the video ring has dropped its backlog. *)
Definition video_dropped (s : Session) : list (option SendRing) :=
  match send_ring s VIDEO_CHANNEL with
  | Some ring => set_at (se_send s) VIDEO_CHANNEL (Some (discard_pending ring).1)
  | None => se_send s
  end.

Lemma can_set_discarded r body : 0 < body <= U16_MAX -> body <= sr_slot_len r -> can_set_fragment_capacity (discard_pending r).1 body = true.
Proof.
  intros Hb Hs. unfold can_set_fragment_capacity. cbn. rewrite (proj2 (Z.ltb_lt 0 body)), (proj2 (Z.leb_le body (sr_slot_len r))), (proj2 (Z.leb_le body U16_MAX)) by lia.
  cbn. apply forallb_forall. intros slot Hin. apply in_map_iff in Hin as (? & <- & _). done.
Qed.

Lemma recover_can_set s size :
  can_recover_video_path_datagram_size s size = true -> 
  legal_datagram size = true /\ can_set_all (video_dropped s) (body_of size) = true.
Proof.
  unfold can_recover_video_path_datagram_size. destruct (_ || _) eqn:E; [done|]. bool_prop. intros Hall. split; [done|].
  rewrite forallb_forall in Hall. apply can_set_all_intro. intros i r Hg. unfold video_dropped in Hg.
  assert (Hold : forall r0, get (se_send s) i = Some (Some r0) ->
    (if i =? VIDEO_CHANNEL then body_of size <=? sr_slot_len r0 else can_set_fragment_capacity r0 (body_of size)) = true).
  { intros r0 Hr0. specialize (Hall (i, Some r0) (zip_seqZ_in _ _ _ Hr0)). exact Hall. }
  unfold send_ring in Hg. destruct (get (se_send s) VIDEO_CHANNEL) as [[v|]|] eqn:Hv; cbn in Hg.
  2,3: specialize (Hold r Hg); destruct (Z.eqb_spec i VIDEO_CHANNEL) as [->|]; [congruence|done].
  pose proof (get_inv _ _ _ Hv) as [Hi _]. rewrite get_set_at in Hg by done. case_decide as Hd.
  - injection Hg as <-. subst i. specialize (Hold v Hv). cbn in Hold. apply can_set_discarded; [by apply body_of_legal|by apply Z.leb_le].
  - specialize (Hold r Hg). by rewrite (proj2 (Z.eqb_neq i VIDEO_CHANNEL)) in Hold by congruence.
Qed.

Lemma recover_eq s size :
  can_recover_video_path_datagram_size s size = true -> (set_datagram_size (se_pacer s) size).2 = true ->
  recover_video_path_datagram_size s size =
    (s <| se_pacer := (set_datagram_size (se_pacer s) size).1 |>
       <| se_send := map_send (fun ring => (set_fragment_capacity ring (body_of size)).1) (video_dropped s) |>
       <| se_path_datagram_size := size |>,
     Some (match send_ring s VIDEO_CHANNEL with Some ring => in_flight ring | None => 0 end)).
Proof.
  intros Hc Hp. unfold recover_video_path_datagram_size, video_dropped. rewrite Hc. cbn [negb].
  destruct (set_datagram_size (se_pacer s) size) as [p ok]. cbn [fst snd] in *. subst ok. cbn [negb].
  change (send_ring (s <| se_pacer := p |>) VIDEO_CHANNEL) with (send_ring s VIDEO_CHANNEL).
  destruct (send_ring s VIDEO_CHANNEL) as [ring|]; reflexivity.
Qed.

Lemma video_dropped_ok s : SessOk s -> attached (fits (body_of (se_path_datagram_size s))) (video_dropped s) /\ zlen (video_dropped s) = zlen (se_send s).
Proof.
  intros []. unfold video_dropped. destruct (send_ring s VIDEO_CHANNEL) as [r|] eqn:Hr; [|done]. split; [|apply zlen_set_at].
  apply Forall_set_at; [done|]. destruct (attached_get _ _ _ _ so_send0 Hr). split; [by apply RingOk_discard|done].
Qed.

Lemma recover_ok s size :
  SessOk s -> SessOk (recover_video_path_datagram_size s size).1 /\ keeps_keys s (recover_video_path_datagram_size s size).1.
Proof.
  intros H. destruct (can_recover_video_path_datagram_size s size) eqn:Hc.
  2: { unfold recover_video_path_datagram_size. by rewrite Hc. }
  destruct (set_datagram_size (se_pacer s) size).2 eqn:Hp.
  - rewrite recover_eq by done. cbn [fst]. destruct (recover_can_set s size Hc) as [Hl Hset]. destruct (video_dropped_ok s H) as [Hd Hlen].
    split; [|done]. apply resized; [done|done|unfold map_send; by rewrite zlen_map|]. by apply (set_all_fits _ _ _ Hd).
  - unfold recover_video_path_datagram_size. rewrite Hc. destruct (set_datagram_size _ _) as [p ok]. cbn in Hp. subst ok. cbn [negb fst].
    split; [by apply (SessOk_same s)|done].
Qed.

Lemma attach_send_ok s ch ring :
  SessOk s -> RingOk ring -> SessOk (attach_send s ch ring).1 /\ keeps_keys s (attach_send s ch ring).1.
Proof.
  intros H Hr. unfold attach_send. set (body := body_of (se_path_datagram_size s)).
  assert (Hfit : let '(r, ok) := if body <? sr_fragment_capacity ring then set_fragment_capacity ring body else (ring, true) in ok = true -> fits body r).
  { destruct (Z.ltb_spec body (sr_fragment_capacity ring)); [|intros _; by split].
    unfold set_fragment_capacity. destruct (can_set_fragment_capacity ring body) eqn:E; [|done]. cbn. intros _.
    pose proof (set_capacity_fits body ring Hr E) as Hf. unfold set_fragment_capacity in Hf. by rewrite E in Hf. }
  destruct (if body <? _ then _ else _) as [r [|]]; cbn [negb]; [|done]. destruct (_ <? _); cbn [fst]; [|done].
  split; [|done]. by apply SessOk_poll, Hfit.
Qed.

Lemma with_direction_ok e d level now : SessOk (with_direction e d level now).
Proof.
  constructor; cbn; try done; try (by apply Forall_replicate); try (unfold CHANNEL_COUNT, U32_MAX, DEFAULT_DATAGRAM, MAX_DATAGRAM; lia).
Qed.

(** Housekeeping leaves alone everything that reaches the wire. *)
Definition housekept (s s' : Session) : Prop :=
  se_recv s' = se_recv s /\ se_send s' = se_send s /\ se_trigger s' = se_trigger s /\
  se_pending_probe_ack s' = se_pending_probe_ack s /\ se_path_datagram_size s' = se_path_datagram_size s /\ keeps_keys s s'.

#[local] Instance housekept_po : PreOrder housekept.
Proof. split; [done|]. unfold housekept, keeps_keys. intros a b c (?&?&?&?&?&?&?&?) (?&?&?&?&?&?&?&?). repeat split; congruence. Qed.

Lemma housekept_poll s now : housekept s (session_poll s now).
Proof.
  unfold session_poll. cbv zeta.
  transitivity (poll_cadence s now); [unfold poll_cadence; by case_match|]. set (s1 := poll_cadence s now).
  transitivity (poll_watchdog s1 now); [done|]. set (s2 := poll_watchdog s1 now).
  transitivity (poll_snapshots s2); [done|]. set (s3 := poll_snapshots s2).
  match goal with |- housekept _ (poll_controller (poll_aggregate (if ?b then _ else _) _ _)) => destruct b end.
  - transitivity (poll_samples s3 now (now - se_last_sample_ms s2)%f64); [done|]. set (s4 := poll_samples _ _ _).
    unfold poll_controller. by repeat case_match.
  - unfold poll_controller. by repeat case_match.
Qed.

(** ** Runs of a session *)

(** Every method that takes [&mut self]. *)
Inductive session_op :=
  | OpAttachRecv (channel : Z) (ring : RecvRing)
  | OpAttachSend (channel : Z) (ring : SendRing)
  | OpPacingRate (now_ms rate_mbps : f64)
  | OpPacingSize (bytes : Z)
  | OpPathSize (bytes : Z)
  | OpRecover (bytes : Z)
  | OpPathMtu (mtu : PathMtu)
  | OpWatchdog (now_ms : f64)
  | OpResetRecv (channel sequence : Z)
  | OpSend (channel : Z) (header payload : list Z)
  | OpTake (channel : Z) (out : list Z)
  | OpEscape (channel : Z) (resumable : list Z -> bool)
  | OpInput (datagram : list Z) (now_ms : f64) (scratch : list Z)
  | OpPoll (now_ms : f64)
  | OpOutput (now_ms : f64) (out : list Z)
  | OpProbe (probe : MtuProbe) (out : list Z).

(** The datagram a call handed to the socket, if it returned one. *)
Definition datagram_of (out : list Z) (r : result Z) : option (list Z) :=
  match r with Ok n => Some (take (Z.to_nat n) out) | Err _ => None end.

Definition session_step (s : Session) (op : session_op) : Session * option (list Z) :=
  match op with
  | OpAttachRecv channel ring => ((attach_recv s channel ring).1, None)
  | OpAttachSend channel ring => ((attach_send s channel ring).1, None)
  | OpPacingRate now rate => (set_pacing_rate_mbps s now rate, None)
  | OpPacingSize bytes => ((set_pacing_datagram_size s bytes).1, None)
  | OpPathSize bytes => ((set_path_datagram_size s bytes).1, None)
  | OpRecover bytes => ((recover_video_path_datagram_size s bytes).1, None)
  | OpPathMtu mtu => ((apply_path_mtu s mtu).1, None)
  | OpWatchdog now => (reset_delivery_watchdog s now, None)
  | OpResetRecv channel sequence => ((reset_recv s channel sequence).1, None)
  | OpSend channel header payload => ((send_message s channel header payload).1, None)
  | OpTake channel out => ((session_take_message s channel out).1.1, None)
  | OpEscape channel resumable => ((session_escape_stall s channel resumable).1, None)
  | OpInput datagram now scratch => ((process_input s datagram now scratch).1.1, None)
  | OpPoll now => (session_poll s now, None)
  | OpOutput now out =>
      let '(s, out, r) := get_output s now out in
      (s, match r with Some r => datagram_of out r | None => None end)
  | OpProbe probe out => let '(s, out, r) := emit_path_probe s probe out in (s, datagram_of out r)
  end.

(** What the argument types carry: bytes and sequence numbers at their width,
    rings built by their constructors. *)
Definition session_op_ok (op : session_op) : Prop :=
  match op with
  | OpAttachRecv _ ring => RecvOk ring
  | OpAttachSend _ ring => RingOk ring
  | OpResetRecv _ sequence => is_u32 sequence
  | OpSend _ header payload => bytes_ok header /\ bytes_ok payload
  | OpInput datagram _ _ => bytes_ok datagram
  | _ => True
  end.

Lemma process_input_ok s datagram now scratch :
  SessOk s -> bytes_ok datagram ->
  SessOk (process_input s datagram now scratch).1.1 /\ keeps_keys s (process_input s datagram now scratch).1.1.
Proof.
  intros H Hb. unfold process_input. destruct (negb _); [done|].
  destruct (open (se_envelope s) datagram scratch) as [out [o|e]] eqn:Ho; [|done]. destruct (open_inv _ _ _ _ _ Ho) as [_ Hby].
  destruct (parse (op_cleartext o)) as [pkt|e] eqn:Hp; [|done]. destruct (parse_ok_inv _ _ (Hby Hb) Hp) as (_ & Hpk & _).
  pose proof (handle_packet_ok s pkt (zlen datagram) now H Hpk) as Hh. by destruct (handle_packet _ _ _ _).
Qed.

Lemma send_message_ok s ch h p : SessOk s -> bytes_ok h -> bytes_ok p -> SessOk (send_message s ch h p).1 /\ keeps_keys s (send_message s ch h p).1.
Proof.
  intros H Hh Hp. unfold send_message. destruct (send_ring s ch) as [ring|] eqn:Hr; [|done].
  destruct (message_new h p) as [m|e] eqn:Hm; [|done]. pose proof (attached_get _ _ _ _ (so_send _ H) Hr) as [Hring Hcap].
  pose proof (RingOk_enqueue ring m Hring (message_new_bytes h p m Hh Hp Hm)) as Hring'.
  pose proof (enqueue_capacity ring m) as Ec.
  destruct (enqueue ring m) as [ring' r]. cbn [fst] in *. split; [|done]. apply SessOk_poll; [done|]. split; [done|lia].
Qed.

Lemma recv_update_ok s ch r : SessOk s -> RecvOk r -> SessOk (s <| se_recv := set_at (se_recv s) ch (Some r) |>).
Proof. intros H Hr. pose proof H as []. apply (SessOk_rings s); try done; cbn; [by rewrite zlen_set_at|]. by apply Forall_set_at. Qed.

(** A step that hands nothing to the socket. *)
Definition quiet (s s' : Session) : Prop :=
  SessOk s' /\ se_envelope s' = se_envelope s /\ se_direction s' = se_direction s /\ se_tx_counter s <= se_tx_counter s'.

Lemma quiet_of s s' : SessOk s' -> keeps_keys s s' -> quiet s s'.
Proof. intros H (E1 & E2 & E3). split; [done|]. split; [done|]. split; [done|lia]. Qed.

Lemma session_step_ok s op :
  SessOk s -> session_op_ok op ->
  quiet s (session_step s op).1 /\
  forall d, (session_step s op).2 = Some d ->
    se_tx_counter s < 2 ^ 63 /\ se_tx_counter (session_step s op).1 = se_tx_counter s + 1 /\
    exists pt, sealed (se_envelope s) (se_direction s) (se_tx_counter s) pt d.
Proof.
  intros H Hop. pose proof (so_recv _ H) as Hrecv.
  assert (Hq : forall s', SessOk s' -> keeps_keys s s' -> quiet s s' /\
    forall d : list Z, None = Some d -> se_tx_counter s < 2 ^ 63 /\ se_tx_counter s' = se_tx_counter s + 1 /\ exists pt, sealed (se_envelope s) (se_direction s) (se_tx_counter s) pt d)
    by (intros s' H' K; split; [by apply quiet_of|done]).
  destruct op; cbn [session_step fst snd session_op_ok] in *.
  - unfold attach_recv. destruct (_ <? _); cbn [fst]; apply Hq; try done. by apply recv_update_ok.
  - destruct (attach_send_ok s channel ring H Hop). by apply Hq.
  - apply Hq; [by apply (SessOk_same s)|done].
  - unfold set_pacing_datagram_size. destruct (set_datagram_size _ _). apply Hq; [by apply (SessOk_same s)|done].
  - destruct (set_path_ok s bytes H). by apply Hq.
  - destruct (recover_ok s bytes H). by apply Hq.
  - unfold apply_path_mtu. case_bool_decide; cbn [fst]; [by apply Hq|]. destruct (set_path_ok s (Pmtu.datagram_size mtu) H). by apply Hq.
  - unfold reset_delivery_watchdog. destruct (negb _); apply Hq; try done. by apply (SessOk_same s).
  - unfold reset_recv. destruct (recv_ring s channel) as [r|] eqn:Hr; cbn [fst]; apply Hq; try done. apply recv_update_ok; [done|]. by constructor.
  - destruct Hop. destruct (send_message_ok s channel header payload H) as [? ?]; [done..|]. by apply Hq.
  - unfold session_take_message. destruct (recv_ring s channel) as [r|] eqn:Hr; [|by apply Hq].
    pose proof (RecvOk_take r out (attached_get _ _ _ _ Hrecv Hr)). destruct (take_message r out) as [[r1 o1] x]. cbn [fst] in *.
    apply Hq; [by apply recv_update_ok|done].
  - unfold session_escape_stall. destruct (recv_ring s channel) as [r|] eqn:Hr; [|by apply Hq].
    pose proof (RecvOk_escape r resumable (attached_get _ _ _ _ Hrecv Hr)). destruct (escape_stall r resumable) as [r1 x]. cbn [fst] in *.
    apply Hq; [by apply recv_update_ok|done].
  - destruct (process_input_ok s datagram now_ms scratch H Hop). by apply Hq.
  - destruct (housekept_poll s now_ms) as (E1 & E2 & E3 & E4 & E5 & K). apply Hq; [|done]. apply (SessOk_same s); try done. destruct K as (_ & _ & E). lia.
  - destruct (get_output s now_ms out) as [[s' out'] r] eqn:Hg. cbn [fst snd].
    destruct (get_output_spec s now_ms out s' out' r H Hg) as (H' & E1 & E2 & E3 & Hr). split; [done|].
    intros d Hd. destruct r as [[n|e]|]; [|done|done]. injection Hd as <-. destruct Hr as (_ & pt & _ & _ & _ & [L1 L2 _ _ _ L6] & _).
    split; [done|]. split; [done|]. by exists pt.
  - destruct (emit_path_probe s probe out) as [[s' out'] r] eqn:Hg. cbn [fst snd]. unfold emit_path_probe in Hg.
    pose proof (encode_and_seal_state _ _ _ _ _ _ Hg) as Hst. split.
    + destruct Hst as [->| ->]; [by apply quiet_of|]. split; [apply (SessOk_same s); try done; cbn; lia|]. cbn. split; [done|]. split; [done|lia].
    + intros d Hd. destruct r as [n|e]; [|done]. injection Hd as <-.
      pose proof (encode_and_seal_ok _ _ _ _ _ _ _ (encodes_probe _) Hg) as [M1 M2 M3 M4 M5 M6 M7].
      split; [done|]. split; [by rewrite M2|]. by eexists.
Qed.

(** A run: the session it ends in and the datagrams it handed out, in order. *)
Fixpoint session_run (ops : list session_op) (s : Session) : Session * list (list Z) :=
  match ops with
  | [] => (s, [])
  | op :: ops =>
      let '(s, d) := session_step s op in
      let '(s, ds) := session_run ops s in
      (s, match d with Some d => d :: ds | None => ds end)
  end.

(** The nonce field of a datagram. *)
Definition nonce_field (d : list Z) : option (list Z) := slice d NONCE_OFFSET (NONCE_OFFSET + 8).

(** The datagrams of a run are sealed under counters that strictly grow. *)
Lemma run_counters ops s :
  SessOk s -> Forall session_op_ok ops ->
  exists counters, (forall c, In c counters -> se_tx_counter s <= c < 2 ^ 63) /\ NoDup counters /\
    map nonce_field (session_run ops s).2 = map (fun c => Some (be_bytes 8 (Z.lor c (seal_bit (se_direction s))))) counters /\
    SessOk (session_run ops s).1.
Proof.
  intros H Hops. revert s H. induction Hops as [|op ops Hop Hops IH]; intros s H.
  { exists []. split; [done|]. split; [constructor|]. by split. }
  cbn [session_run]. destruct (session_step_ok s op H Hop) as [(H1 & E1 & E2 & E3) Hd].
  destruct (session_step s op) as [s1 d]. cbn [fst snd] in *. destruct (IH s1 H1) as (cs & Hr & Hnd & Hm & Hok).
  destruct (session_run ops s1) as [s2 ds]. cbn [fst snd] in *. rewrite E2 in Hm.
  destruct d as [d|].
  - destruct (Hd d eq_refl) as (Hlt & En & pt & Hs). exists (se_tx_counter s :: cs). split; [|split; [|split; [|done]]].
    + intros c [<-|Hc]; [split; [lia|done]|]. specialize (Hr c Hc). lia.
    + constructor; [|done]. rewrite list_elem_of_In. intros Hc. specialize (Hr _ Hc). lia.
    + cbn [map]. rewrite Hm. f_equal. by apply (sealed_nonce _ _ _ _ _ Hs).
  - exists cs. split; [|done]. intros c Hc. specialize (Hr c Hc). lia.
Qed.

Lemma seal_counter_inj d1 d2 c1 c2 :
  0 <= c1 < 2 ^ 63 -> 0 <= c2 < 2 ^ 63 ->
  be_bytes 8 (Z.lor c1 (seal_bit d1)) = be_bytes 8 (Z.lor c2 (seal_bit d2)) -> d1 = d2 /\ c1 = c2.
Proof.
  intros H1 H2 E. apply be_bytes_inj in E; [|cbn; by apply seal_counter_range|cbn; by apply seal_counter_range].
  rewrite !lor_seal_bit in E by done. destruct d1, d2; (split; [done|lia]) || (exfalso; lia).
Qed.
End output.
