(* ===== verification/SessionProps.v ===== *)
(** * What a session guarantees

    The theorems about [session.rs]: nonces are never reused, by either side of
    a pair; what leaves one session is what the other one acts on; a datagram
    that is refused leaves no trace; path-size changes are all-or-nothing; the
    pacer is charged for exactly what was sent; owed feedback leaves first. *)

From S2P Require Import Prelude F64 Seq Packet Message RecvRing Policy SendRing SendSafety Envelope Pmtu Session SessionInv.

(** A session some sequence of calls leads to. *)
Definition reachable (A : Aead) (s : Session) : Prop :=
  exists e d level now ops, Forall session_op_ok ops /\ s = (session_run ops (with_direction e d level now)).1.

Lemma reachable_ok (A : Aead) (L : AeadLaws A) s : reachable A s -> SessOk s.
Proof.
  intros (e & d & level & now & ops & Hops & ->).
  by destruct (run_counters ops _ (with_direction_ok e d level now) Hops) as (_ & _ & _ & _ & ?).
Qed.

Lemma fresh_reachable (A : Aead) e d level now : reachable A (with_direction e d level now).
Proof. by exists e, d, level, now, []. Qed.

(** A session with one small send ring on the video channel, and the guest it
    talks to. *)
Definition demo_key : Envelope := build (replicate 16 1) Aes128 [9; 9; 9; 9].
Definition demo_video : SendRing := mkSendRing (replicate 32 0) (replicate 8 SendSlot_default) 4 4 1 0 0 0 None 0 0 0 0 0 0.
Definition demo_ops : list session_op :=
  [OpAttachSend 1 demo_video; OpSend 1 [1; 2] [3]; OpOutput f_zero (replicate 64 0); OpOutput f_zero (replicate 64 0)].
Definition demo_ready : Session := (session_run (A := null_aead) (take 2 demo_ops) (session_new demo_key 1 f_zero)).1.

Lemma demo_video_ok : RingOk demo_video.
Proof.
  apply (RingOk_new (replicate 32 0) (replicate 8 SendSlot_default) 4 4 1); try done; [by apply Forall_replicate|by apply bytes_ok_b].
Qed.

Lemma demo_ops_ok : Forall session_op_ok demo_ops.
Proof. repeat constructor; try (apply demo_video_ok || done || (unfold is_u8; lia)). Qed.

Lemma demo_ready_reachable : reachable null_aead demo_ready.
Proof. exists demo_key, Host, 1, f_zero, (take 2 demo_ops). split; [apply Forall_take, demo_ops_ok|done]. Qed.

(** The nonce fields of a list of datagrams. *)
Definition nonces (datagrams : list (list Z)) : list (option (list Z)) := map nonce_field datagrams.

(** (C3) No nonce is ever used twice under one key. Take a host and a guest
    session sharing an envelope and any two sequences of calls, one on each
    (attaching rings, queueing, receiving anything, resizing the path, probing,
    polling, output with any buffer): the nonce fields of all the datagrams the
    two ever hand out are pairwise distinct. *)
Theorem pair_nonces_distinct (A : Aead) (L : AeadLaws A) e l1 l2 now1 now2 ops1 ops2 :
  Forall session_op_ok ops1 -> Forall session_op_ok ops2 ->
  let host := (session_run ops1 (session_new e l1 now1)).2 in
  let guest := (session_run ops2 (new_guest e l2 now2)).2 in
  NoDup (nonces (host ++ guest)) /\ Forall is_Some (nonces (host ++ guest)).
Proof.
  intros H1 H2. cbv zeta. unfold nonces. rewrite map_app. unfold session_new, new_guest.
  destruct (run_counters ops1 _ (with_direction_ok e Host l1 now1) H1) as (c1 & R1 & N1 & -> & _).
  destruct (run_counters ops2 _ (with_direction_ok e Guest l2 now2) H2) as (c2 & R2 & N2 & -> & _).
  cbn [se_tx_counter se_direction with_direction] in *. split.
  - apply list.NoDup_app. split; [|split].
    + apply NoDup_fmap_2_strong; [|done]. intros x y Hx Hy E%(inj Some). rewrite list_elem_of_In in Hx, Hy.
      by apply (seal_counter_inj Host Host x y) in E as [_ ?]; [|apply R1..].
    + intros x (a & -> & Ha)%list_elem_of_fmap (b & E & Hb)%list_elem_of_fmap. rewrite list_elem_of_In in Ha, Hb. apply (inj Some) in E.
      by apply (seal_counter_inj Host Guest a b) in E as [? _]; [|apply R1|apply R2].
    + apply NoDup_fmap_2_strong; [|done]. intros x y Hx Hy E%(inj Some). rewrite list_elem_of_In in Hx, Hy.
      by apply (seal_counter_inj Guest Guest x y) in E as [_ ?]; [|apply R2..].
  - apply Forall_app. split; apply Forall_fmap, Forall_true; by eexists.
Qed.

Lemma pair_nonces_distinct_witness :
  length (session_run (A := null_aead) demo_ops (session_new demo_key 1 f_zero)).2 = 2%nat /\
  NoDup (nonces ((session_run (A := null_aead) demo_ops (session_new demo_key 1 f_zero)).2
    ++ (session_run (A := null_aead) demo_ops (new_guest demo_key 1 f_zero)).2)).
Proof.
  split; [vm_compute; reflexivity|].
  exact (proj1 (pair_nonces_distinct null_aead null_aead_laws demo_key 1 1 f_zero f_zero demo_ops demo_ops demo_ops_ok demo_ops_ok)).
Defined.

(** (C2) What leaves a session is what its peer acts on. Whenever [get_output]
    of a reachable session returns a datagram, it is no longer than the path
    allows, and a peer with the same envelope and the opposite direction
    accepts it and does exactly what the packet says: the acknowledgement built
    from the receive rings if one was due, else the pending probe
    acknowledgement, else the data packet the scan of an attached ring wrote. *)
Theorem output_reaches_peer (A : Aead) (L : AeadLaws A) s now out s' out' n peer now' scratch :
  reachable A s -> get_output s now out = (s', out', Some (Ok n)) ->
  se_envelope peer = se_envelope s -> se_direction peer = opposite (se_direction s) ->
  MAX_DATAGRAM <= zlen scratch ->
  n <= se_path_datagram_size s <= MAX_DATAGRAM /\
  exists pkt, sent_packet s s' now out pkt /\ is_ok (handle_packet peer pkt n now').2 = true /\
    exists scratch', process_input peer (take (Z.to_nat n) out') now' scratch =
      ((handle_packet peer pkt n now').1, scratch', (handle_packet peer pkt n now').2).
Proof.
  intros Hs%(reachable_ok A L) Hg Ee Ed Hscr.
  destruct (get_output_spec s now out s' out' _ Hs Hg) as (_ & _ & _ & _ & pkt & pt & Hp & Hok & Hsent & [L1 L2 L3 L4 L5 L6] & Hn).
  split; [split; [done|apply (so_path _ Hs)]|]. exists pkt. split; [done|].
  pose proof (sealed_len _ _ _ _ _ L6) as Hlen. unfold ENVELOPE_LEN in *.
  destruct (sealed_opens _ _ _ _ _ scratch L6 ltac:(pose proof (so_tx _ Hs); lia) ltac:(lia)) as [Hdir Hopen].
  split.
  - unfold handle_packet, sent_packet in *. destruct pkt as [d|a|p|p]; [by destruct (recv_ring _ _)|by destruct (ack_all _ _ _ _)| |done].
    destruct (se_ack_due s); [done|]. destruct (se_pending_probe_ack s); [done|]. by destruct Hsent as (? & ? & ? & _).
  - unfold process_input. rewrite Hdir, Ed, Ee, bool_decide_true by (by destruct (se_direction s)). cbn [negb]. rewrite Hopen. cbn [op_cleartext].
    rewrite Hp, Hlen. replace (29 + zlen pt) with n by lia. destruct (handle_packet peer pkt n now') as [p' r]. by eexists.
Qed.

Lemma output_reaches_peer_witness :
  let '(_, out', r) := get_output (A := null_aead) demo_ready f_zero (replicate 64 0) in
  r = Some (Ok 40) /\
  is_ok (process_input (A := null_aead) (new_guest demo_key 1 f_zero) (take (Z.to_nat 40) out') f_zero (replicate 2000 0)).2 = true.
Proof.
  destruct (get_output (A := null_aead) demo_ready f_zero (replicate 64 0)) as [[s' out'] r] eqn:E.
  assert (Er : r = Some (Ok 40)) by (change r with (s', out', r).2; rewrite <- E; vm_compute; reflexivity). subst r.
  split; [reflexivity|].
  destruct (output_reaches_peer null_aead null_aead_laws demo_ready f_zero (replicate 64 0) s' out' 40 (new_guest demo_key 1 f_zero) f_zero (replicate 2000 0)
    demo_ready_reachable E eq_refl eq_refl ltac:(vm_compute; discriminate)) as [_ (pkt & _ & Hok & scr & ->)].
  exact Hok.
Defined.

(** (C7) A refused datagram leaves no trace: [process_input] either accepts, or
    returns an error (wrong direction, too short, failed authentication,
    malformed or illegal packet) with the session exactly what it was; in
    particular the length check on probes never fires behind the parser. And
    whatever a session on the same side sealed, reflected back, is refused
    before decryption. *)
Theorem refused_input_inert (A : Aead) (L : AeadLaws A) s datagram now scratch :
  bytes_ok datagram ->
  (is_ok (process_input s datagram now scratch).2 = true \/ (process_input s datagram now scratch).1.1 = s) /\
  forall s0 now0 out s0' out' n, reachable A s0 -> get_output s0 now0 out = (s0', out', Some (Ok n)) -> se_direction s0 = se_direction s ->
    process_input s (take (Z.to_nat n) out') now scratch = (s, scratch, Err Decrypt).
Proof.
  intros Hb. split.
  - unfold process_input. destruct (negb _); [by right|].
    destruct (open (se_envelope s) datagram scratch) as [out [o|e]] eqn:Ho; [|by right]. destruct (open_inv _ _ _ _ _ Ho) as [Hlen Hby].
    destruct (parse (op_cleartext o)) as [pkt|e] eqn:Hp; [|by right]. destruct (parse_ok_inv _ _ (Hby Hb) Hp) as (_ & _ & Hpr). left.
    unfold handle_packet. destruct pkt as [d|a|p|p]; [by destruct (recv_ring _ _)|by destruct (ack_all _ _ _ _)| |done].
    rewrite Hlen, Z.add_comm, (Hpr p eq_refl), Z.eqb_refl. done.
  - intros s0 now0 out s0' out' n Hs%(reachable_ok A L) Hg Ed.
    destruct (get_output_spec s0 now0 out s0' out' _ Hs Hg) as (_ & _ & _ & _ & pkt & pt & _ & _ & _ & [L1 _ _ _ _ L6] & _).
    destruct (sealed_opens _ _ _ _ _ (replicate (length pt) 0) L6) as [Hdir _]; [pose proof (so_tx _ Hs); lia|by rewrite zlen_replicate|].
    unfold process_input. rewrite Hdir, Ed, bool_decide_false by (by destruct (se_direction s)). done.
Qed.

Lemma refused_input_inert_witness :
  (process_input (A := null_aead) demo_ready [23; 254; 253; 0; 0] f_zero []).1.1 = demo_ready.
Proof.
  destruct (refused_input_inert null_aead null_aead_laws demo_ready [23; 254; 253; 0; 0] f_zero []) as [[H|H] _].
  - by apply bytes_ok_b.
  - vm_compute in H. discriminate.
  - exact H.
Defined.

(** Every attached ring packetizes at [body] bytes. *)
Definition rings_at (body : Z) (rings : list (option SendRing)) : Prop := attached (fun r => sr_fragment_capacity r = body) rings.

Lemma set_all_at rings body :
  can_set_all rings body = true -> rings_at body (map_send (fun ring => (set_fragment_capacity ring body).1) rings).
Proof.
  unfold can_set_all. induction rings as [|[r|] rings IH]; cbn; intros E; [constructor| |].
  - bool_prop. constructor; [|apply IH; by apply negb_true_iff]. cbn. unfold set_fragment_capacity.
    match goal with H : can_set_fragment_capacity r body = true |- _ => by rewrite H end.
  - constructor; [done|by apply IH].
Qed.

Lemma set_datagram_size_spec p size :
  let '(p', ok) := set_datagram_size p size in if ok then p_datagram_bytes p' = size else p' = p.
Proof. unfold set_datagram_size. destruct (negb _); [done|]. by destruct (enabled _). Qed.

(** Path-size changes are all-or-nothing. [set_path_datagram_size] succeeds
    exactly when the size is legal, every attached ring can take it and the
    pacer accepts it; then path, pacer and every ring agree on the new size,
    and otherwise nothing at all changed. *)
Theorem path_resize_atomic s size :
  let '(s', ok) := set_path_datagram_size s size in
  ok = legal_datagram size && can_set_all (se_send s) (body_of size) && (set_datagram_size (se_pacer s) size).2 /\
  if ok then se_path_datagram_size s' = size /\ p_datagram_bytes (se_pacer s') = size /\ rings_at (body_of size) (se_send s')
  else s' = s.
Proof.
  unfold set_path_datagram_size, can_set_all. destruct (legal_datagram size); cbn [negb andb]; [|done].
  destruct (existsb _ _) eqn:He; cbn [negb andb]; [done|].
  pose proof (set_datagram_size_spec (se_pacer s) size) as Hp. destruct (set_datagram_size (se_pacer s) size) as [p ok]. cbn [snd].
  destruct ok; cbn [negb].
  - split; [done|]. cbn. split; [done|]. split; [done|]. apply set_all_at. unfold can_set_all. by rewrite He.
  - split; [done|]. subst p. by destruct s.
Qed.

Lemma mjoin_get_map {R} (f : R -> R) rings i : mjoin (get (map (option_map f) rings) i) = option_map f (mjoin (get rings i)).
Proof. unfold get. destruct (i <? 0); [done|]. rewrite list_lookup_fmap. by destruct (rings !! _) as [[r|]|]. Qed.

Lemma can_set_all_elim rings body i r :
  can_set_all rings body = true -> mjoin (get rings i) = Some r -> can_set_fragment_capacity r body = true.
Proof.
  intros H Hr. destruct (get rings i) as [o|] eqn:Hg; [|done]. cbn in Hr. subst o.
  apply negb_true_iff, not_true_iff_false in H. destruct (can_set_fragment_capacity r body) eqn:E; [done|]. destruct H.
  apply existsb_exists. exists (Some r). rewrite E. split; [|done]. apply get_inv in Hg as [_ Hg]. apply list_elem_of_In, list_elem_of_lookup. eauto.
Qed.

Lemma video_dropped_ring s i :
  mjoin (get (video_dropped s) i) = option_map (fun r => if i =? VIDEO_CHANNEL then (discard_pending r).1 else r) (send_ring s i).
Proof.
  unfold video_dropped. destruct (send_ring s VIDEO_CHANNEL) as [v|] eqn:Hv.
  - assert (Hi : 0 <= VIDEO_CHANNEL < zlen (se_send s)).
    { unfold send_ring in Hv. destruct (get (se_send s) VIDEO_CHANNEL) eqn:E; [|done]. by apply get_inv in E as [? _]. }
    rewrite get_set_at by done. case_decide as Hd; [subst i; by rewrite Hv|].
    rewrite (proj2 (Z.eqb_neq i VIDEO_CHANNEL)) by congruence. unfold send_ring. by destruct (mjoin _).
  - destruct (Z.eqb_spec i VIDEO_CHANNEL) as [->|]; [|unfold send_ring; by destruct (mjoin _)]. fold (send_ring s VIDEO_CHANNEL). by rewrite Hv.
Qed.

(** Black-hole recovery drops video and nothing else.
    [recover_video_path_datagram_size] either refuses with the session unchanged,
    or shrinks path, pacer and every ring together, empties the video ring
    (reporting how many fragments it held, and keeping its sequence space), and
    leaves every other ring as it was but for the new capacity. *)
Theorem video_recovery_atomic s size :
  let '(s', dropped) := recover_video_path_datagram_size s size in
  match dropped with
  | None => s' = s
  | Some k =>
      size < se_path_datagram_size s /\ se_path_datagram_size s' = size /\ p_datagram_bytes (se_pacer s') = size /\
      rings_at (body_of size) (se_send s') /\
      (forall i, send_ring s' i = match send_ring s i with
                                  | None => None
                                  | Some r => Some ((if i =? VIDEO_CHANNEL then (discard_pending r).1 else r) <| sr_fragment_capacity := body_of size |>)
                                  end) /\
      match send_ring s VIDEO_CHANNEL, send_ring s' VIDEO_CHANNEL with
      | Some r, Some r' => k = in_flight r /\ in_flight r' = 0 /\ next_sequence r' = next_sequence r
      | _, _ => k = 0
      end
  end.
Proof.
  destruct (can_recover_video_path_datagram_size s size) eqn:Hc.
  2: { unfold recover_video_path_datagram_size. by rewrite Hc. }
  pose proof (set_datagram_size_spec (se_pacer s) size) as Hp. destruct (set_datagram_size (se_pacer s) size) as [p ok] eqn:Hps.
  destruct ok.
  2: { unfold recover_video_path_datagram_size. rewrite Hc, Hps. cbn. subst p. by destruct s. }
  rewrite recover_eq by (done || by rewrite Hps). rewrite Hps. cbn [fst]. destruct (recover_can_set s size Hc) as [Hl Hset].
  split; [unfold can_recover_video_path_datagram_size in Hc; destruct (_ || _) eqn:E in Hc; [done|]; bool_prop; lia|].
  split; [done|]. split; [done|]. split; [by apply set_all_at|].
  set (s' := s <| se_pacer := p |> <| se_send := _ |> <| se_path_datagram_size := size |>).
  assert (Hrings : forall i, send_ring s' i = match send_ring s i with None => None
    | Some r => Some ((if i =? VIDEO_CHANNEL then (discard_pending r).1 else r) <| sr_fragment_capacity := body_of size |>) end).
  { intros i. change (mjoin (get (map_send (fun ring => (set_fragment_capacity ring (body_of size)).1) (video_dropped s)) i) = match send_ring s i with None => None
    | Some r => Some ((if i =? VIDEO_CHANNEL then (discard_pending r).1 else r) <| sr_fragment_capacity := body_of size |>) end).
    unfold map_send. rewrite mjoin_get_map. pose proof (fun r => can_set_all_elim (video_dropped s) (body_of size) i r Hset) as Hel. rewrite video_dropped_ring in *.
    destruct (send_ring s i) as [r|]; [|done]. cbn [option_map] in *. unfold set_fragment_capacity. by rewrite (Hel _ eq_refl). }
  split; [exact Hrings|]. rewrite (Hrings VIDEO_CHANNEL). destruct (send_ring s VIDEO_CHANNEL) as [r|]; [|done].
  cbn [Z.eqb VIDEO_CHANNEL Pos.eqb]. split; [done|]. split; [|done]. unfold in_flight. cbn. unfold wrapping_sub32. by rewrite Z.sub_diag.
Qed.

(** ** Pacing *)

Lemma can_try_consume p now bytes : enabled p = true -> can_consume p now bytes = true -> (try_consume p now bytes).2 = true.
Proof.
  intros He. unfold can_consume, try_consume. rewrite He. cbn [negb orb]. destruct (bytes =? 0); [done|].
  rewrite refill_available by done. intros Hc. destruct (_ <? _)%f64 eqn:E; [|done].
  by rewrite (f_ltb_not_leb _ _ E) in Hc.
Qed.

Lemma session_seal_len (A : Aead) s len out s' out' n : session_seal s len out = (s', out', Ok n) -> n = len + ENVELOPE_LEN /\ n <= MAX_DATAGRAM.
Proof.
  unfold session_seal. destruct (_ <=? _); [done|]. destruct (checked_add64 _ _) as [c|]; [|done].
  destruct (seal_in_place _ _ _ _) as [o r] eqn:E. intros [= _ _ ->]. unfold seal_in_place, checked_add64 in E.
  destruct (_ <=? U64_MAX); [|done]. destruct (Z.ltb_spec MAX_DATAGRAM (len + ENVELOPE_LEN)); [done|].
  destruct (slice _ _ _); [|done]. destruct (encrypt_in_place _ _ _ _) as [ct [tag|]]; [|done]. injection E as _ <-. done.
Qed.

(** The bucket held [bytes] of credit and gave exactly them up. *)
Definition charged (p p' : Pacer) (now : f64) (bytes : Z) : Prop :=
  can_consume p now bytes = true /\ try_consume p now bytes = (p', true).

(** Video is paced to the byte. While pacing is on, a video step of the
    output loop that sends a datagram found credit for exactly that many bytes,
    charges exactly that many (the charge behind the debug assertion never
    fails); and a step that lacks credit for the
    next due fragment returns with the whole session untouched. *)
Theorem pacing_charges_exactly (A : Aead) s now out :
  enabled (se_pacer s) = true ->
  (forall s' out' n, drain_one s VIDEO_CHANNEL now out = DReturn s' out' (Some (Ok n)) ->
     charged (se_pacer s) (se_pacer s') now n) /\
  (forall len, channel_due s VIDEO_CHANNEL now = Some len -> 0 <= len <= MAX_DATAGRAM ->
     can_consume (se_pacer s) now (ENVELOPE_LEN + len) = false -> drain_one s VIDEO_CHANNEL now out = DReturn s out None).
Proof.
  intros He. split.
  - intros s' out' n. unfold drain_one. destruct (channel_due s VIDEO_CHANNEL now) as [len|] eqn:Hd; [|done].
    change (priority_quantum VIDEO_CHANNEL) with (@None Z). cbv iota. unfold channel_due in Hd.
    destruct (send_ring s VIDEO_CHANNEL) as [ring|]; [|done]. cbn [mbind option_bind] in Hd.
    rewrite Z.eqb_refl, He. cbn [andb]. destruct (can_consume _ _ _) eqn:Hc; cbn [negb]; [|done].
    destruct (slice_from out ENVELOPE_LEN) as [body|]; [|done].
    destruct (poll_send _ _ _ _ _) as [[ring' body'] [[w|e]|]] eqn:Hp; [|done|done].
    rewrite (next_due_len_agrees _ _ _ _ _ _ _ _ Hp) in Hd. injection Hd as <-.
    destruct (session_seal _ _ _) as [[s1 out1] [n1|e]] eqn:Hs; [|done]. intros [= <- <- <-].
    destruct (session_seal_len A _ _ _ _ _ _ Hs) as [En Hm].
    assert (E : saturating_add U64_MAX ENVELOPE_LEN w = n1) by (unfold saturating_add, U64_MAX, ENVELOPE_LEN, MAX_DATAGRAM in *; lia).
    rewrite E in Hc. split; [done|].
    assert (Ep : se_pacer s1 = se_pacer s) by (destruct (session_seal_state _ _ _ _ _ _ Hs) as [[-> _]|[_ ->]]; done).
    cbn [se_pacer set_field]. change (se_pacer (s1 <| se_pacer := (try_consume (se_pacer s1) now n1).1 |>)) with (try_consume (se_pacer s1) now n1).1.
    rewrite Ep. pose proof (can_try_consume _ _ _ He Hc) as Ht. by destruct (try_consume _ _ _) as [p []].
  - intros len Hd Hl Hc. unfold drain_one. rewrite Hd. change (priority_quantum VIDEO_CHANNEL) with (@None Z). cbv iota. unfold channel_due in Hd.
    destruct (send_ring s VIDEO_CHANNEL) as [ring|]; [|done]. rewrite Z.eqb_refl, He.
    assert (E : saturating_add U64_MAX ENVELOPE_LEN len = ENVELOPE_LEN + len) by (unfold saturating_add, U64_MAX, ENVELOPE_LEN, MAX_DATAGRAM in *; lia).
    by rewrite E, Hc.
Qed.

Definition demo_paced : Session := set_pacing_rate_mbps demo_ready f_zero (f_of_Z 8).

Lemma pacing_charges_exactly_witness :
  match drain_one (A := null_aead) demo_paced VIDEO_CHANNEL f_zero (replicate 64 0) with
  | DReturn s' _ r => r = Some (Ok 40) /\ try_consume (se_pacer demo_paced) f_zero 40 = (se_pacer s', true)
  | DNext _ => False
  end.
Proof.
  destruct (drain_one demo_paced VIDEO_CHANNEL f_zero (replicate 64 0)) as [s'|s' out' r] eqn:E.
  - vm_compute in E. discriminate.
  - assert (Er : r = Some (Ok 40)) by (vm_compute in E; congruence). split; [exact Er|]. subst r.
    refine (proj2 (proj1 (pacing_charges_exactly null_aead demo_paced f_zero (replicate 64 0) _) s' out' 40 E)). vm_compute. reflexivity.
Defined.

(** ** Feedback *)

(** AES-GCM encrypts every message of datagram size. *)
Definition always_seals (A : Aead) : Prop :=
  forall c k n b, zlen b <= MAX_DATAGRAM -> is_Some (encrypt_in_place c k n b).2.

Lemma encode_ack_ok a out : Ack_ok a -> ACK_LEN <= zlen out -> exists out', encode_ack out a = (out', Ok ACK_LEN).
Proof.
  intros (Hc & Hs & Hu & Hlen & Hr & Hn & Hz) Ho. unfold encode_ack. rewrite (proj2 (Z.leb_gt CHANNEL_COUNT (trigger_channel a))) by lia.
  replace (ack_nack a && negb (bool_decide (ack_kind a = KAck))) with false by (destruct (ack_nack a); [rewrite bool_decide_true by auto|]; done).
  rewrite (proj2 (Z.ltb_ge (zlen out) ACK_LEN)) by lia. fold (ack_bytes a (ack_cumulative a)). rewrite write_at_0; [by eexists|]. rewrite zlen_ack_bytes by done. exact Ho.
Qed.

Lemma encode_and_seal_total (A : Aead) (L : AeadLaws A) s encode pt out :
  always_seals A -> encodes encode pt -> (forall body, zlen pt <= zlen body -> exists b, encode body = (b, Ok (zlen pt))) ->
  0 <= se_tx_counter s < 2 ^ 63 -> ENVELOPE_LEN + zlen pt <= zlen out -> ENVELOPE_LEN + zlen pt <= MAX_DATAGRAM ->
  exists out', encode_and_seal s encode out = (s <| se_tx_counter := se_tx_counter s + 1 |>, out', Ok (ENVELOPE_LEN + zlen pt)).
Proof.
  intros Hal He Ht Htx Ho Hm. pose proof (zlen_nonneg pt). unfold encode_and_seal, slice_from, ENVELOPE_LEN in *. rewrite slice_some by lia.
  set (body := take _ (drop _ out)). assert (Hbl : zlen body = zlen out - 29) by (subst body; rewrite zlen_take, zlen_drop; lia).
  destruct (Ht body ltac:(lia)) as [b Hb]. rewrite Hb. apply He in Hb as (_ & Hl & ->).
  assert (Hpl : zlen (pt ++ drop (length pt) body) = zlen body) by (rewrite zlen_app, zlen_drop; unfold zlen in *; lia).
  rewrite write_some by lia. cbn [default]. change (id ?x) with x. rewrite (drop_ge out) by (rewrite Hpl; unfold zlen in *; lia). rewrite app_nil_r.
  unfold session_seal. rewrite (proj2 (Z.leb_gt _ _)) by lia. rewrite checked_add64_some by (unfold U64_MAX; lia).
  destruct (Hal (env_cipher (se_envelope s)) (env_key (se_envelope s)) (nonce_bytes (se_envelope s) (Z.lor (se_tx_counter s) (seal_bit (se_direction s)))) pt)
    as [tag Htag]; [unfold MAX_DATAGRAM in *; lia|].
  destruct (encrypt_in_place (env_cipher (se_envelope s)) _ _ pt) as [ct ot] eqn:Henc. cbn [snd] in Htag. subst ot.
  rewrite (seal_in_place_eq _ _ _ pt _ ct tag); [|rewrite zlen_take; unfold ENVELOPE_LEN; lia|unfold ENVELOPE_LEN; lia|done].
  unfold ENVELOPE_LEN. replace (zlen pt + 29) with (29 + zlen pt) by lia. by eexists.
Qed.

(** Feedback is never starved. In a reachable session whose nonce counter is
    not exhausted, if an acknowledgement is already due or none was sent for
    the cadence, then after [poll] the next [get_output] returns the 112-byte
    acknowledgement datagram, whatever is queued; it clears the debt, restarts
    the cadence, and the data rings have only begun their pass. *)
Theorem feedback_leaves_first (A : Aead) (L : AeadLaws A) s now out :
  reachable A s -> always_seals A -> se_tx_counter s < 2 ^ 63 -> ENVELOPE_LEN + ACK_LEN <= zlen out ->
  se_ack_due s || (now - se_last_ack_sent_ms s >=? ACK_CADENCE_MS)%f64 = true ->
  exists s' out', get_output (session_poll s now) now out = (s', out', Some (Ok 112)) /\
    se_ack_due s' = false /\ se_last_ack_sent_ms s' = now /\ se_send s' = map_send begin_pass (se_send s) /\
    sent_packet (session_poll s now) s' now out (PAck (build_ack (session_poll s now))).
Proof.
  intros Hs%(reachable_ok A L) Hal Htx Ho Hdue.
  destruct (housekept_poll s now) as (E1 & E2 & E3 & E4 & E5 & E6 & E7 & E8).
  assert (Hp : se_ack_due (session_poll s now) = true /\ se_drain_started (session_poll s now) = false).
  { assert (Hc : se_ack_due (poll_cadence s now) = true /\ se_drain_started (poll_cadence s now) = false).
    { unfold poll_cadence. cbn. destruct (se_ack_due s); cbn [negb andb orb] in *; [done|]. by rewrite Hdue. }
    unfold session_poll. cbv zeta. revert Hc. set (s1 := poll_cadence s now). clearbody s1. intros Hc. unfold poll_controller.
    destruct (f_is_finite _ && _ && _); repeat case_match; exact Hc. }
  assert (Hok : SessOk (session_poll s now)) by (apply (SessOk_same s); done || lia).
  set (s1 := session_poll s now) in *. clearbody s1. destruct Hp as [Ha Hst].
  pose proof (begin_output_ok s1 Hok) as Hb. pose proof (build_ack_ok s1 Hok) as Hack. pose proof Hack as (_ & _ & _ & Hlen & _).
  unfold get_output, begin_output. rewrite Hst.
  set (s2 := s1 <| se_send := map_send begin_pass (se_send s1) |> <| se_drain_channel := 0 |> <| se_drain_bytes := channels 0 |> <| se_drain_started := true |>).
  change (se_ack_due s2) with (se_ack_due s1). rewrite Ha. unfold emit_ack. change (build_ack s2) with (build_ack s1).
  destruct (encode_and_seal_total A L s2 (fun body => encode_ack body (build_ack s1)) (ack_bytes (build_ack s1) (ack_cumulative (build_ack s1))) out Hal)
    as [out' Hout].
  - by apply encodes_ack.
  - intros body Hbody. rewrite zlen_ack_bytes in * by done. by apply encode_ack_ok.
  - change (se_tx_counter s2) with (se_tx_counter s1). pose proof (so_tx _ Hs). lia.
  - by rewrite zlen_ack_bytes.
  - by rewrite zlen_ack_bytes.
  - rewrite Hout, zlen_ack_bytes by done. cbn [is_ok]. do 2 eexists. split; [reflexivity|]. split; [done|]. split; [done|].
    split; [cbn; by rewrite E2|]. unfold sent_packet. by rewrite Ha.
Qed.

Lemma null_always_seals : always_seals null_aead.
Proof. intros c k n b _. by eexists. Qed.

Lemma feedback_leaves_first_witness :
  exists s' out', get_output (A := null_aead) (session_poll demo_ready (f_of_Z 40)) (f_of_Z 40) (replicate 200 0) = (s', out', Some (Ok 112)) /\
    se_ack_due s' = false.
Proof.
  destruct (feedback_leaves_first null_aead null_aead_laws demo_ready (f_of_Z 40) (replicate 200 0) demo_ready_reachable null_always_seals) as (s' & out' & H & Ha & _).
  - vm_compute. reflexivity.
  - vm_compute. discriminate.
  - vm_compute. reflexivity.
  - exists s', out'. split; [exact H|exact Ha].
Defined.
