(* ===== verification/Crc32.v ===== *)
(** * CRC-32 ([core/src/crc32.rs])

    The reflected polynomial, bit by bit as the source computes it. It seals
    connectivity messages, and the theorem says what that buys: no error
    confined to one byte goes unnoticed. *)

From S2P Require Import Prelude.

(** [Crc32::new]; the running checksum is its [u32]. *)
Definition crc_new : Z := 0xFFFFFFFF.

(** [mask = (state & 1).wrapping_neg()]: all ones or zero. *)
Definition crc_bit (state : Z) : Z :=
  let mask := wrapping_sub32 0 (Z.land state 1) in
  Z.lxor (Z.shiftr state 1) (Z.land 0xEDB88320 mask).

Definition crc_byte (state byte : Z) : Z := Nat.iter 8 crc_bit (Z.lxor state byte).

#[global] Strategy 1000 [crc_bit].
#[global] Strategy 900 [crc_byte].
#[global] Arguments crc_byte : simpl never.

(** [Crc32::update]. *)
Definition crc_update (state : Z) (bytes : list Z) : Z := fold_left crc_byte bytes state.

(** [Crc32::finish]. *)
Definition crc_finish (state : Z) : Z := Z.lxor state 0xFFFFFFFF.

(** [crc32::of]. *)
Definition crc_of (bytes : list Z) : Z := crc_finish (crc_update crc_new bytes).

Lemma lxor_bound n a b : 0 <= n -> 0 <= a < 2 ^ n -> 0 <= b < 2 ^ n -> 0 <= Z.lxor a b < 2 ^ n.
Proof.
  intros H0 Ha Hb. assert (Hn : 0 <= Z.lxor a b) by (apply Z.lxor_nonneg; lia). split; [done|].
  assert (Hlog : forall x, 0 < x < 2 ^ n -> Z.log2 x < n) by (intros x Hx; apply Z.log2_lt_pow2; lia).
  destruct (Z.eq_dec (Z.lxor a b) 0) as [->|]; [lia|]. destruct (Z.eq_dec a 0) as [->|]; [rewrite Z.lxor_0_l; lia|].
  destruct (Z.eq_dec b 0) as [->|]; [rewrite Z.lxor_0_r; lia|]. apply Z.log2_lt_pow2; [lia|].
  pose proof (Z.log2_lxor a b ltac:(lia) ltac:(lia)). pose proof (Hlog a ltac:(lia)). pose proof (Hlog b ltac:(lia)). lia.
Qed.

Lemma lxor_u32 a b : is_u32 a -> is_u32 b -> is_u32 (Z.lxor a b).
Proof. apply (lxor_bound 32); lia. Qed.

(** The feedback of one bit: the polynomial when the low bit was set. *)
Lemma crc_bit_eq state : is_u32 state -> crc_bit state = Z.lxor (Z.shiftr state 1) (if Z.odd state then 0xEDB88320 else 0).
Proof.
  intros H. unfold crc_bit. change 1 with (Z.ones 1) at 2. rewrite Z.land_ones by lia. change (2 ^ 1) with 2. rewrite Zmod_odd. by destruct (Z.odd state).
Qed.

Lemma crc_bit_u32 state : is_u32 state -> is_u32 (crc_bit state).
Proof.
  intros H. rewrite crc_bit_eq by done. apply lxor_u32.
  - rewrite Z.shiftr_div_pow2 by lia. unfold is_u32, M32 in *. change (2 ^ 1) with 2. split; [apply Z.div_pos; lia|apply Z.div_lt_upper_bound; lia].
  - destruct (Z.odd state); unfold is_u32, M32; lia.
Qed.

Lemma crc_iter_u32 n state : is_u32 state -> is_u32 (Nat.iter n crc_bit state).
Proof. intros H. induction n as [|n IH]; [done|]. rewrite Nat.iter_succ. by apply crc_bit_u32. Qed.

Lemma crc_byte_u32 state byte : is_u32 state -> is_u8 byte -> is_u32 (crc_byte state byte).
Proof.
  intros Hs Hb. unfold crc_byte. assert (H : is_u32 (Z.lxor state byte)) by (apply lxor_u32; [done|]; unfold is_u32, is_u8, M32 in *; lia).
  by apply crc_iter_u32.
Qed.

Lemma crc_update_app s l k : crc_update s (l ++ k) = crc_update (crc_update s l) k.
Proof. apply fold_left_app. Qed.

Lemma crc_update_cons s b k : crc_update s (b :: k) = crc_update (crc_byte s b) k.
Proof. reflexivity. Qed.

Lemma crc_update_u32 bytes state : is_u32 state -> bytes_ok bytes -> is_u32 (crc_update state bytes).
Proof.
  revert state. induction bytes as [|b bytes IH]; intros state Hs Hb; [done|]. rewrite crc_update_cons. inversion_clear Hb.
  apply IH; [by apply crc_byte_u32|done].
Qed.

Lemma crc_new_u32 : is_u32 crc_new.
Proof. unfold is_u32, crc_new, M32. lia. Qed.

Lemma crc_of_u32 bytes : bytes_ok bytes -> is_u32 (crc_of bytes).
Proof. intros H. unfold crc_of, crc_finish. apply lxor_u32; [apply crc_update_u32; [apply crc_new_u32|done]|unfold is_u32, M32; lia]. Qed.

(** One bit is reversible: the top bit of the result tells whether the
    polynomial was fed back. *)
Lemma crc_bit_top state : is_u32 state -> Z.testbit (crc_bit state) 31 = Z.odd state.
Proof.
  intros H. rewrite crc_bit_eq by done. rewrite Z.lxor_spec, Z.shiftr_spec by lia.
  assert (Z.testbit state (31 + 1) = false) as ->.
  { destruct (Z.eq_dec state 0) as [->|]; [done|]. apply Z.bits_above_log2; [unfold is_u32 in H; lia|]. apply Z.log2_lt_pow2; unfold is_u32, M32 in H; lia. }
  by destruct (Z.odd state).
Qed.

Lemma crc_bit_inj a b : is_u32 a -> is_u32 b -> crc_bit a = crc_bit b -> a = b.
Proof.
  intros Ha Hb E. pose proof (crc_bit_top a Ha) as Ta. pose proof (crc_bit_top b Hb) as Tb. rewrite E, Tb in Ta.
  rewrite !crc_bit_eq, Ta in E by done. apply (f_equal (fun x => Z.lxor x (if Z.odd a then 3988292384 else 0))) in E.
  rewrite !Z.lxor_assoc, !Z.lxor_nilpotent, !Z.lxor_0_r in E. rewrite !Z.shiftr_div_pow2 in E by lia. change (2 ^ 1) with 2 in E.
  pose proof (Z.div_mod a 2 ltac:(lia)) as Da. pose proof (Z.div_mod b 2 ltac:(lia)) as Db. rewrite !Zmod_odd in *. rewrite Ta in Db. destruct (Z.odd a); lia.
Qed.

Lemma crc_iter_inj n a b : is_u32 a -> is_u32 b -> Nat.iter n crc_bit a = Nat.iter n crc_bit b -> a = b.
Proof.
  revert a b. induction n as [|n IH]; intros a b Ha Hb E; [done|]. rewrite !Nat.iter_succ_r in E.
  apply IH in E; [by apply crc_bit_inj|by apply crc_bit_u32..].
Qed.

Lemma crc_byte_inj s1 s2 b1 b2 :
  is_u32 s1 -> is_u32 s2 -> is_u8 b1 -> is_u8 b2 -> crc_byte s1 b1 = crc_byte s2 b2 -> Z.lxor s1 b1 = Z.lxor s2 b2.
Proof. intros. eapply (crc_iter_inj 8); try eassumption; apply lxor_u32; unfold is_u32, is_u8, M32 in *; lia. Qed.

Lemma lxor_inj_r a b c : Z.lxor a c = Z.lxor b c -> a = b.
Proof. intros E. apply (f_equal (fun x => Z.lxor x c)) in E. by rewrite !Z.lxor_assoc, Z.lxor_nilpotent, !Z.lxor_0_r in E. Qed.

Lemma crc_update_inj bytes s1 s2 :
  is_u32 s1 -> is_u32 s2 -> bytes_ok bytes -> crc_update s1 bytes = crc_update s2 bytes -> s1 = s2.
Proof.
  revert s1 s2. induction bytes as [|b bytes IH]; intros s1 s2 H1 H2 Hb E; [done|]. rewrite !crc_update_cons in E. inversion_clear Hb.
  apply IH in E; [|by apply crc_byte_u32..|done]. apply crc_byte_inj in E; try done. by apply lxor_inj_r in E.
Qed.

Lemma crc_detects_byte pre b1 b2 post :
  bytes_ok pre -> is_u8 b1 -> is_u8 b2 -> bytes_ok post -> crc_of (pre ++ b1 :: post) = crc_of (pre ++ b2 :: post) -> b1 = b2.
Proof.
  intros Hpre H1 H2 Hpost E. unfold crc_of, crc_finish in E. apply lxor_inj_r in E. rewrite !crc_update_app, !crc_update_cons in E.
  assert (Hs : is_u32 (crc_update crc_new pre)) by (apply crc_update_u32; [apply crc_new_u32|done]).
  revert E Hs. generalize (crc_update crc_new pre) as st. intros st E Hs.
  apply (crc_update_inj post) in E; [|by apply crc_byte_u32..|done].
  apply crc_byte_inj in E; [|done..]. rewrite (Z.lxor_comm st b1), (Z.lxor_comm st b2) in E. by apply lxor_inj_r in E.
Qed.

Example crc_check_value : crc_of [49; 50; 51; 52; 53; 54; 55; 56; 57] = 0xCBF43926.
Proof. vm_compute. reflexivity. Qed.
