(* ===== verification/Stun.v ===== *)
(** * Connectivity checks ([core/src/stun.rs])

    Binding requests and responses, their integrity and fingerprint, and the
    obfuscated address attribute. HMAC-SHA1 (the hmac and sha1 crates) is the
    class [Hashes]. A [&str] is the list of its bytes. The writer's methods
    return the writer with their result, so that a failed write keeps what was
    already in the caller's buffer. *)

From S2P Require Import Prelude Crc32.

Definition STUN_HEADER_LEN : Z := 20.
Definition MAGIC_COOKIE : Z := 0x2112A442.
Definition MIN_MESSAGE : Z := 52.
Definition MAX_MESSAGE : Z := 256.
Definition MAX_UFRAG : Z := 32.
Definition TYPE_BINDING_REQUEST : Z := 0x0001.
Definition TYPE_BINDING_SUCCESS : Z := 0x0101.
Definition ATTR_USERNAME : Z := 0x0006.
Definition ATTR_MESSAGE_INTEGRITY : Z := 0x0008.
Definition ATTR_XOR_MAPPED_ADDRESS : Z := 0x0020.
Definition ATTR_PRIORITY : Z := 0x0024.
Definition ATTR_FINGERPRINT : Z := 0x8028.
Definition ATTR_ICE_CONTROLLED : Z := 0x8029.
Definition ATTR_NETWORK_COST : Z := 0xC057.
Definition INTEGRITY_LEN : Z := 24.
Definition FINGERPRINT_LEN : Z := 8.
Definition TRAILER_LEN : Z := INTEGRITY_LEN + FINGERPRINT_LEN.
Definition FINGERPRINT_XOR : Z := 0x5354554E.
Definition PRIORITY_VALUE : Z := 0x6E001EFF.
Definition NETWORK_COST_VALUE : Z := 0x00000032.

(** [core::net::SocketAddr]: octets, port, and for IPv6 the flow label and
    scope that take part in equality. *)
Inductive SocketAddr :=
  | SV4 (octets : list Z) (port : Z)
  | SV6 (octets : list Z) (port flowinfo scope_id : Z).

#[export] Instance SocketAddr_eq_dec : EqDecision SocketAddr.
Proof. solve_decision. Defined.

Definition port (a : SocketAddr) : Z := match a with SV4 _ p => p | SV6 _ p _ _ => p end.

(** [Ipv6Addr::to_ipv4_mapped]. *)
Definition to_ipv4_mapped (octets : list Z) : option (list Z) :=
  if bool_decide (take 12 octets = replicate 10 0 ++ [255; 255]) then Some (drop 12 octets) else None.

Definition canonical (addr : SocketAddr) : SocketAddr :=
  match addr with
  | SV6 octets port _ _ =>
      match to_ipv4_mapped octets with Some v4 => SV4 v4 port | None => addr end
  | SV4 _ _ => addr
  end.

Class Hashes := {
  hmac_sha1 : list Z -> list Z -> list Z;  (* key, message *)
  sha1 : list Z -> list Z;
}.

Class HashLaws (H : Hashes) : Prop := {
  hmac_length k m : zlen (hmac_sha1 k m) = 20;
  hmac_bytes k m : bytes_ok (hmac_sha1 k m);
  sha1_length m : zlen (sha1 m) = 20;
  sha1_bytes m : bytes_ok (sha1 m);
}.

(** [be16], [be32] and [put_be16]. *)
Definition be16 (bytes : list Z) (at_ : Z) : result Z :=
  ok_or (be_val <$> slice bytes at_ (at_ + 2)) Malformed.

Definition stun_be32 (bytes : list Z) (at_ : Z) : result Z :=
  ok_or (be_val <$> slice bytes at_ (at_ + 4)) Malformed.

Definition put_be16 (bytes : list Z) (at_ value : Z) : list Z * result unit :=
  match write bytes at_ (be_bytes 2 value) with
  | Some bytes => (bytes, Ok tt)
  | None => (bytes, Err BufferTooSmall)
  end.

Section codec.
Context `{HS : Hashes}.

(** HMAC over the message up to [at_], the length field substituted. *)
Definition integrity_of (bytes : list Z) (at_ : Z) (password : list Z) : result (list Z) :=
  claimed ← ok_or (try_from U16_MAX (at_ + 4)) Oversized;
  head ← ok_or (slice_to bytes 2) Malformed;
  body ← ok_or (slice bytes 4 at_) Malformed;
  Ok (hmac_sha1 password (head ++ be_bytes 2 claimed ++ body)).

Definition fingerprint_of (bytes : list Z) (at_ : Z) : result Z :=
  claimed ← ok_or (try_from U16_MAX (at_ + 12)) Oversized;
  head ← ok_or (slice_to bytes 2) Malformed;
  body ← ok_or (slice bytes 4 (at_ + INTEGRITY_LEN)) Malformed;
  Ok (Z.lxor (crc_finish (crc_update (crc_update (crc_update crc_new head) (be_bytes 2 claimed)) body)) FINGERPRINT_XOR).

(** ** The writer *)

Record Writer := mkWriter { w_buf : list Z; w_at : Z; w_tid : list Z }.

#[export] Instance eta_Writer : Eta Writer := fun w => mkWriter (w_buf w) (w_at w) (w_tid w).

Definition writer_new (buf : list Z) : Writer := mkWriter buf 0 (replicate 12 0).

(** [first?; then]. *)
Definition w_then (x : Writer * result unit) (f : Writer -> Writer * result unit) : Writer * result unit :=
  match x with (w, Ok _) => f w | (w, Err e) => (w, Err e) end.
Local Notation "'do' w <- x ; y" := (w_then x (fun w => y)) (at level 100, w name, x at level 99, y at level 200).

Definition put (w : Writer) (bytes : list Z) : Writer * result unit :=
  match checked_add64 (w_at w) (zlen bytes) with
  | None => (w, Err Oversized)
  | Some end_ =>
      match write (w_buf w) (w_at w) bytes with
      | None => (w, Err BufferTooSmall)
      | Some buf => (w <| w_buf := buf |> <| w_at := end_ |>, Ok tt)
      end
  end.

Definition header (w : Writer) (kind : Z) (tid : list Z) : Writer * result unit :=
  let w := w <| w_tid := tid |> in
  do w <- put w (be_bytes 2 kind);
  do w <- put w (be_bytes 2 0);
  do w <- put w (be_bytes 4 MAGIC_COOKIE);
  put w tid.

Definition attribute_header (w : Writer) (kind len : Z) : Writer * result unit :=
  match try_from U16_MAX len with
  | None => (w, Err Oversized)
  | Some len => do w <- put w (be_bytes 2 kind); put w (be_bytes 2 len)
  end.

Definition padding (len : Z) : Z := (4 - len mod 4) mod 4.

Definition pad (w : Writer) (len : Z) : Writer * result unit :=
  match slice_to (replicate 3 0) (padding len) with
  | None => (w, Err Malformed)
  | Some zeros => put w zeros
  end.

Definition attribute (w : Writer) (kind : Z) (value : list Z) : Writer * result unit :=
  do w <- attribute_header w kind (zlen value);
  do w <- put w value;
  pad w (zlen value).

(** The steps of [seal] on [buf = &mut out[..total]]. *)
Definition b_then {A} (x : list Z * result unit) (f : list Z -> list Z * result A) : list Z * result A :=
  match x with (b, Ok _) => f b | (b, Err e) => (b, Err e) end.
Local Notation "'fill' b <- x ; y" := (b_then x (fun b => y)) (at level 100, b name, x at level 99, y at level 200).

Definition put_bytes (buf : list Z) (at_ : Z) (bytes : list Z) : list Z * result unit :=
  match write buf at_ bytes with Some buf => (buf, Ok tt) | None => (buf, Err BufferTooSmall) end.

Definition seal_buf (buf : list Z) (at_ : Z) (password : list Z) : list Z * result Z :=
  fill buf <- put_be16 buf at_ ATTR_MESSAGE_INTEGRITY;
  fill buf <- put_be16 buf (at_ + 2) 20;
  match integrity_of buf at_ password with
  | Err e => (buf, Err e)
  | Ok mac =>
      fill buf <- put_bytes buf (at_ + 4) mac;
      fill buf <- put_be16 buf (at_ + INTEGRITY_LEN) ATTR_FINGERPRINT;
      fill buf <- put_be16 buf (at_ + INTEGRITY_LEN + 2) 4;
      match fingerprint_of buf at_ with
      | Err e => (buf, Err e)
      | Ok crc =>
          fill buf <- put_bytes buf (at_ + INTEGRITY_LEN + 4) (be_bytes 4 crc);
          match try_from U16_MAX (at_ + 12) with
          | None => (buf, Err Oversized)
          | Some claimed => fill buf <- put_be16 buf 2 claimed; (buf, Ok (at_ + TRAILER_LEN))
          end
      end
  end.

(** [Writer::seal]. *)
Definition writer_seal (w : Writer) (password : list Z) : list Z * result Z :=
  match checked_add64 (w_at w) TRAILER_LEN with
  | None => (w_buf w, Err Oversized)
  | Some total =>
      if MAX_MESSAGE <? total then (w_buf w, Err Oversized) else
      if total <? MIN_MESSAGE then (w_buf w, Err Malformed) else
      match slice_to (w_buf w) total with
      | None => (w_buf w, Err BufferTooSmall)
      | Some buf =>
          let '(buf, r) := seal_buf buf (w_at w) password in
          (buf ++ drop (Z.to_nat total) (w_buf w), r)
      end
  end.

(** [w.f()?; ...; w.seal(password)]. *)
Definition finish (x : Writer * result unit) (f : Writer -> list Z * result Z) : list Z * result Z :=
  match x with (w, Ok _) => f w | (w, Err e) => (w_buf w, Err e) end.

Definition encode_binding_request (out tid local_ufrag remote_ufrag tiebreaker password : list Z) : list Z * result Z :=
  if (MAX_UFRAG <? zlen local_ufrag) || (MAX_UFRAG <? zlen remote_ufrag) then (out, Err Oversized) else
  let user_len := zlen remote_ufrag + 1 + zlen local_ufrag in
  finish (
    do w <- header (writer_new out) TYPE_BINDING_REQUEST tid;
    do w <- attribute_header w ATTR_USERNAME user_len;
    do w <- put w remote_ufrag;
    do w <- put w [58];
    do w <- put w local_ufrag;
    do w <- pad w user_len;
    do w <- attribute w ATTR_NETWORK_COST (be_bytes 4 NETWORK_COST_VALUE);
    do w <- attribute w ATTR_ICE_CONTROLLED tiebreaker;
    attribute w ATTR_PRIORITY (be_bytes 4 PRIORITY_VALUE)) (fun w => writer_seal w password).

Definition encode_reflexive_request (out tid : list Z) : list Z * result Z :=
  finish (header (writer_new out) TYPE_BINDING_REQUEST tid)
    (fun w => match put_be16 (w_buf w) 2 0 with (buf, Ok _) => (buf, Ok (w_at w)) | (buf, Err e) => (buf, Err e) end).

(** ** The obfuscated address *)

Definition cookie_bytes : list Z := be_bytes 4 MAGIC_COOKIE.

(** The mask of octet [index]: the cookie, then the transaction identifier. *)
Definition mapped_mask (tid : list Z) (index : Z) : Z :=
  match get cookie_bytes index with Some byte => byte | None => default 0 (get tid (index - 4)) end.

Definition xor_octets (octets : list Z) (mask : Z -> Z) : list Z :=
  map (fun '(index, byte) => Z.lxor byte (mask index)) (zip (seqZ 0 (zlen octets)) octets).

(** [encode_mapped]: the attribute value it leaves in [out], and its length. *)
Definition encode_mapped (out : list Z) (addr : SocketAddr) (tid : list Z) : result (list Z * Z) :=
  let addr := canonical addr in
  let p := Z.lxor (port addr) 0x2112 in
  out ← ok_or (write out 0 [0]) BufferTooSmall;
  out ← ok_or (write out 2 (be_bytes 2 p)) BufferTooSmall;
  match addr with
  | SV4 octets _ =>
      out ← ok_or (write out 1 [1]) BufferTooSmall;
      out ← ok_or (write out 4 (xor_octets octets (fun index => default 0 (get cookie_bytes index)))) BufferTooSmall;
      Ok (out, 8)
  | SV6 octets _ _ _ =>
      out ← ok_or (write out 1 [2]) BufferTooSmall;
      out ← ok_or (write out 4 (xor_octets octets (mapped_mask tid))) BufferTooSmall;
      Ok (out, 20)
  end.

Definition decode_mapped (value tid : list Z) : option SocketAddr :=
  family ← get value 1;
  p0 ← get value 2;
  p1 ← get value 3;
  let p := Z.lxor (be_val [p0; p1]) 0x2112 in
  if family =? 1 then
    raw ← slice value 4 8;
    Some (SV4 (xor_octets raw (fun index => default 0 (get cookie_bytes index))) p)
  else if family =? 2 then
    raw ← slice value 4 20;
    Some (canonical (SV6 (xor_octets raw (mapped_mask tid)) p 0 0))
  else None.

Definition encode_binding_response (out tid : list Z) (observed : SocketAddr) (password : list Z) : list Z * result Z :=
  finish (
    do w <- header (writer_new out) TYPE_BINDING_SUCCESS tid;
    match encode_mapped (replicate 20 0) observed tid with
    | Err e => (w, Err e)
    | Ok (value, written) =>
        match slice_to value written with
        | None => (w, Err BufferTooSmall)
        | Some value => attribute w ATTR_XOR_MAPPED_ADDRESS value
        end
    end) (fun w => writer_seal w password).

(** ** The parser *)

Inductive Method := BindingRequest | BindingSuccess.

#[export] Instance Method_eq_dec : EqDecision Method.
Proof. solve_decision. Defined.

Record StunMessage := mkStunMessage {
  sm_bytes : list Z;
  sm_method : Method;
  sm_tid : list Z;
  sm_integrity_at : option Z;
}.

(** [Attributes::next] at offset [at_]: the attribute and the offset past its
    padding; the iterator stops for good after an error. *)
Definition attr_next (bytes : list Z) (at_ end_ : Z) : option (result (Z * list Z * Z)) :=
  if end_ <? at_ + 4 then None else
  Some (
    kind ← be16 bytes at_;
    len ← be16 bytes (at_ + 2);
    let start := at_ + 4 in
    if end_ <? start + len then Err Malformed else
    value ← ok_or (slice bytes start (start + len)) Malformed;
    Ok (kind, value, start + len + padding len)).

(** The walk of [parse]: where the last attribute ends. Each attribute takes at
    least four bytes, so one more step than the message is long is enough. *)
Fixpoint walk (fuel : nat) (bytes : list Z) (at_ end_ : Z) : result Z :=
  match fuel with
  | O => Err Malformed
  | S fuel =>
      match attr_next bytes at_ end_ with
      | None => Ok at_
      | Some (Err e) => Err e
      | Some (Ok (_, _, next)) => walk fuel bytes next end_
      end
  end.

(** The loop of [username] and [mapped_address]: the first attribute of a kind. *)
Fixpoint find_attr (fuel : nat) (bytes : list Z) (at_ end_ kind : Z) : option (list Z) :=
  match fuel with
  | O => None
  | S fuel =>
      match attr_next bytes at_ end_ with
      | Some (Ok (k, value, next)) => if k =? kind then Some value else find_attr fuel bytes next end_ kind
      | _ => None
      end
  end.

Definition attr_fuel (bytes : list Z) : nat := S (length bytes).

(** The trailer test of [parse]. *)
Definition has_trailer (bytes : list Z) (at_ : Z) : bool :=
  bool_decide (be16 bytes at_ = Ok ATTR_MESSAGE_INTEGRITY) && bool_decide (be16 bytes (at_ + 2) = Ok 20) &&
  bool_decide (be16 bytes (at_ + INTEGRITY_LEN) = Ok ATTR_FINGERPRINT) && bool_decide (be16 bytes (at_ + INTEGRITY_LEN + 2) = Ok 4).

(** [Message::parse]. *)
Definition stun_parse (datagram : list Z) : result StunMessage :=
  if (zlen datagram <? STUN_HEADER_LEN) || (MAX_MESSAGE <? zlen datagram) then Err Malformed else
  head ← ok_or (slice_to datagram STUN_HEADER_LEN) Malformed;
  kind ← be16 head 0;
  method ← (if kind =? TYPE_BINDING_REQUEST then Ok BindingRequest else
            if kind =? TYPE_BINDING_SUCCESS then Ok BindingSuccess else Err Malformed);
  cookie ← stun_be32 head 4;
  if negb (cookie =? MAGIC_COOKIE) then Err Malformed else
  claimed ← be16 head 2;
  if negb (claimed =? zlen datagram - STUN_HEADER_LEN) then Err Malformed else
  tid ← ok_or (slice head 8 20) Malformed;
  let integrity_at :=
    if MIN_MESSAGE <=? zlen datagram then
      let at_ := zlen datagram - TRAILER_LEN in if has_trailer datagram at_ then Some at_ else None
    else None in
  let end_ := default (zlen datagram) integrity_at in
  reached ← walk (attr_fuel datagram) datagram STUN_HEADER_LEN end_;
  if negb (reached =? end_) then Err Malformed else
  Ok (mkStunMessage datagram method tid integrity_at).

Definition is_authenticated (m : StunMessage) : bool := match sm_integrity_at m with Some _ => true | None => false end.

(** The accumulated difference of [verify]'s comparison. *)
Definition ct_diff (a b : list Z) : Z := fold_left (fun diff '(x, y) => Z.lor diff (Z.lxor x y)) (zip a b) 0.

Definition verify (m : StunMessage) (password : list Z) : bool :=
  match sm_integrity_at m with
  | None => false
  | Some at_ =>
      match stun_be32 (sm_bytes m) (at_ + INTEGRITY_LEN + 4), fingerprint_of (sm_bytes m) at_ with
      | Ok expected, Ok actual =>
          if negb (expected =? actual) then false else
          match integrity_of (sm_bytes m) at_ password, slice (sm_bytes m) (at_ + 4) (at_ + 24) with
          | Ok mac, Some carried => ct_diff mac carried =? 0
          | _, _ => false
          end
      | _, _ => false
      end
  end.

Definition attributes_end (m : StunMessage) : Z := default (zlen (sm_bytes m)) (sm_integrity_at m).

(** [core::str::from_utf8(..).is_ok()]: well-formed sequences of one to four
    bytes, with neither overlong forms nor surrogates. *)
Definition utf8_cont (lo hi b : Z) : bool := (lo <=? b) && (b <=? hi).

Fixpoint utf8 (bs : list Z) : bool :=
  match bs with
  | [] => true
  | a :: bs =>
      if utf8_cont 0 0x7F a then utf8 bs else
      match bs with
      | [] => false
      | b :: bs =>
          if utf8_cont 0xC2 0xDF a then utf8_cont 0x80 0xBF b && utf8 bs else
          match bs with
          | [] => false
          | c :: bs =>
              if utf8_cont 0xE0 0xEF a then
                utf8_cont (if a =? 0xE0 then 0xA0 else 0x80) (if a =? 0xED then 0x9F else 0xBF) b && utf8_cont 0x80 0xBF c && utf8 bs
              else
              match bs with
              | [] => false
              | d :: bs =>
                  utf8_cont 0xF0 0xF4 a && utf8_cont (if a =? 0xF0 then 0x90 else 0x80) (if a =? 0xF4 then 0x8F else 0xBF) b &&
                  utf8_cont 0x80 0xBF c && utf8_cont 0x80 0xBF d && utf8 bs
              end
          end
      end
  end.

(** [Message::username]. *)
Definition username (m : StunMessage) : option (list Z) :=
  value ← find_attr (attr_fuel (sm_bytes m)) (sm_bytes m) STUN_HEADER_LEN (attributes_end m) ATTR_USERNAME;
  if utf8 value then Some value else None.

Definition mapped_address (m : StunMessage) : option SocketAddr :=
  value ← find_attr (attr_fuel (sm_bytes m)) (sm_bytes m) STUN_HEADER_LEN (attributes_end m) ATTR_XOR_MAPPED_ADDRESS;
  decode_mapped value (sm_tid m).

(** ** What the writer leaves in the buffer *)

(** [w] has written exactly [data] at the front of [out]. *)
Definition Wrote (out : list Z) (w : Writer) (data : list Z) : Prop :=
  w_at w = zlen data /\ w_buf w = data ++ drop (length data) out /\ zlen data <= zlen out.

(** Writing up to [data] succeeds exactly when the buffer holds it. *)
Definition Writes (out : list Z) (x : Writer * result unit) (data : list Z) : Prop :=
  (zlen data <= zlen out -> snd x = Ok tt /\ Wrote out (fst x) data) /\
  (zlen out < zlen data -> snd x = Err BufferTooSmall).

Lemma Writes_then out x f d1 d2 :
  zlen d1 <= zlen d2 -> Writes out x d1 -> (forall w, Wrote out w d1 -> Writes out (f w) d2) -> Writes out (w_then x f) d2.
Proof.
  intros Hle [H1 H1'] H2. destruct (Z.le_gt_cases (zlen d1) (zlen out)) as [Hd|Hd].
  - destruct (H1 Hd) as [E W]. destruct x as [w r]. cbn in E, W |- *. subst r. by apply H2.
  - pose proof (H1' ltac:(lia)) as E. destruct x as [w r]. cbn in E |- *. subst r. split; [lia|done].
Qed.

Lemma put_Writes out w data bytes :
  zlen out <= U64_MAX -> zlen data + zlen bytes <= U64_MAX -> Wrote out w data -> Writes out (put w bytes) (data ++ bytes).
Proof.
  intros Hout Hsum (Hat & Hbuf & Hd). unfold put. rewrite Hat. rewrite checked_add64_some by zlia.
  assert (Hlen : zlen (w_buf w) = zlen out) by (rewrite Hbuf; unfold zlen in *; rewrite length_app, length_drop; lia).
  split; intros H.
  - rewrite write_some by zlia. split; [done|]. split; [cbn; zlia|]. split; [|done]. cbn. rewrite Hbuf.
    rewrite take_app_length' by (unfold zlen; lia). rewrite <- app_assoc. f_equal. f_equal.
    rewrite drop_app_ge by (unfold zlen; lia). rewrite drop_drop. f_equal. rewrite length_app. unfold zlen. lia.
  - unfold write. rewrite (proj2 (Z.leb_gt _ (zlen (w_buf w)))) by zlia. by rewrite andb_false_r.
Qed.

Lemma Writes_eq out x d d' : Writes out x d -> d = d' -> Writes out x d'.
Proof. by intros ? <-. Qed.

Lemma Wrote_new out : Wrote out (writer_new out) [].
Proof. split; [done|]. split; [done|]. apply zlen_nonneg. Qed.

(** One more write of a sequence, and the last one. *)
Ltac write_step := eapply Writes_then; [|apply put_Writes; [| |eassumption]|cbv beta; intros ? ?]; [unfold U64_MAX in *; zlia..|].
Ltac write_last := eapply Writes_eq; [apply put_Writes; [| |eassumption]; unfold U64_MAX in *; zlia|by rewrite <- ?app_assoc].

(** The header with the length field [len], and one encoded attribute. *)
Definition stun_head (kind len : Z) (tid : list Z) : list Z :=
  be_bytes 2 kind ++ be_bytes 2 len ++ cookie_bytes ++ tid.

Definition enc_attr (a : Z * list Z) : list Z :=
  be_bytes 2 (fst a) ++ be_bytes 2 (zlen (snd a)) ++ snd a ++ replicate (Z.to_nat (padding (zlen (snd a)))) 0.

Lemma zlen_cookie : zlen cookie_bytes = 4.
Proof. reflexivity. Qed.

Lemma zlen_head kind len tid : zlen (stun_head kind len tid) = 8 + zlen tid.
Proof. unfold stun_head. rewrite !zlen_app, zlen_cookie. zlia. Qed.

Lemma padding_range len : 0 <= padding len < 4.
Proof. unfold padding. apply Z.mod_pos_bound. lia. Qed.

Lemma header_Writes out kind tid :
  zlen out <= U64_MAX -> zlen tid <= 256 -> Writes out (header (writer_new out) kind tid) (stun_head kind 0 tid).
Proof.
  intros Hout Htid. unfold header, stun_head. assert (W : Wrote out (writer_new out <| w_tid := tid |>) []) by apply Wrote_new.
  pose proof zlen_cookie.
  write_step. write_step. fold cookie_bytes. write_step. write_last.
Qed.
Lemma attribute_header_Writes out w data kind len :
  zlen out <= U64_MAX -> zlen data <= 1024 -> 0 <= len <= U16_MAX -> Wrote out w data ->
  Writes out (attribute_header w kind len) (data ++ be_bytes 2 kind ++ be_bytes 2 len).
Proof. intros Hout Hd Hlen W. unfold attribute_header. rewrite try_from_some by done. write_step. write_last. Qed.

Lemma pad_Writes out w data len :
  zlen out <= U64_MAX -> zlen data <= 1024 -> Wrote out w data ->
  Writes out (pad w len) (data ++ replicate (Z.to_nat (padding len)) 0).
Proof.
  intros Hout Hd W. pose proof (padding_range len) as Hp. unfold pad.
  assert (slice_to (replicate 3 0) (padding len) = Some (replicate (Z.to_nat (padding len)) 0)) as ->.
  { unfold slice_to. rewrite slice_some by zlia. f_equal. rewrite drop_0, take_replicate. f_equal. lia. }
  write_last.
Qed.

Lemma attribute_Writes out w data kind value :
  zlen out <= U64_MAX -> zlen data <= 512 -> zlen value <= 256 -> Wrote out w data ->
  Writes out (attribute w kind value) (data ++ enc_attr (kind, value)).
Proof.
  intros Hout Hd Hv W. unfold attribute, enc_attr. cbn [fst snd]. pose proof (padding_range (zlen value)).
  eapply Writes_then; [|apply attribute_header_Writes; try done; unfold U16_MAX; zlia|cbv beta; intros ? ?]; [zlia|].
  write_step. eapply Writes_eq; [apply pad_Writes; [done| |eassumption]; zlia|by rewrite <- ?app_assoc].
Qed.

Lemma zlen_enc_attr a : zlen (enc_attr a) = 4 + zlen (snd a) + padding (zlen (snd a)).
Proof. unfold enc_attr. pose proof (padding_range (zlen (snd a))). zlia. Qed.

(** ** The sealed message

    What [seal] makes of a message whose attributes are [attrs]: both hashes
    are taken over a length field that is not the one on the wire. *)
Definition mac_input (kind : Z) (tid attrs : list Z) : list Z := stun_head kind (24 + zlen attrs) tid ++ attrs.

Definition with_integrity (kind : Z) (tid attrs password : list Z) : list Z :=
  stun_head kind (32 + zlen attrs) tid ++ attrs ++
  be_bytes 2 ATTR_MESSAGE_INTEGRITY ++ be_bytes 2 20 ++ hmac_sha1 password (mac_input kind tid attrs).

Definition sealed_message (kind : Z) (tid attrs password : list Z) : list Z :=
  let m := with_integrity kind tid attrs password in
  m ++ be_bytes 2 ATTR_FINGERPRINT ++ be_bytes 2 4 ++ be_bytes 4 (Z.lxor (crc_of m) FINGERPRINT_XOR).

Lemma split_at {A} (l : list A) n : 0 <= n <= zlen l -> exists a b, l = a ++ b /\ zlen a = n /\ zlen b = zlen l - n.
Proof. intros. exists (take (Z.to_nat n) l), (drop (Z.to_nat n) l). rewrite take_drop. split; [done|]. zlia. Qed.

Lemma put_be16_mid p x q l at_ v :
  l = p ++ x ++ q -> at_ = zlen p -> zlen x = 2 -> put_be16 l at_ v = (p ++ be_bytes 2 v ++ q, Ok tt).
Proof. intros -> -> Hx. unfold put_be16. by rewrite (write_mid _ p x _ q) by (try done; zlia). Qed.

Lemma put_bytes_mid p x q l at_ v :
  l = p ++ x ++ q -> at_ = zlen p -> zlen x = zlen v -> put_bytes l at_ v = (p ++ v ++ q, Ok tt).
Proof. intros -> -> Hx. unfold put_bytes. by rewrite (write_mid _ p x _ q) by (try done; zlia). Qed.

(** Both hashes skip the length field: they see the same bytes whatever it holds. *)
Lemma integrity_of_eq a two body tail l at_ password :
  l = a ++ two ++ body ++ tail -> zlen a = 2 -> zlen two = 2 -> at_ = 4 + zlen body -> at_ + 4 <= U16_MAX ->
  integrity_of l at_ password = Ok (hmac_sha1 password (a ++ be_bytes 2 (at_ + 4) ++ body)).
Proof.
  intros -> Ha Ht -> Hb. unfold integrity_of. rewrite try_from_some by zlia. cbn [ok_or mbind result_bind].
  rewrite slice_head by done. cbn [ok_or mbind result_bind].
  rewrite (slice_at _ (a ++ two) body tail) by (rewrite <- ?app_assoc; try done; zlia). done.
Qed.

Lemma fingerprint_of_eq a two body tail l at_ :
  l = a ++ two ++ body ++ tail -> zlen a = 2 -> zlen two = 2 -> at_ + INTEGRITY_LEN = 4 + zlen body -> at_ + 12 <= U16_MAX -> 0 <= at_ ->
  fingerprint_of l at_ = Ok (Z.lxor (crc_of (a ++ be_bytes 2 (at_ + 12) ++ body)) FINGERPRINT_XOR).
Proof.
  intros -> Ha Ht Hat Hb H0. unfold fingerprint_of. rewrite try_from_some by lia. cbn [ok_or mbind result_bind].
  rewrite slice_head by done. cbn [ok_or mbind result_bind].
  rewrite (slice_at _ (a ++ two) body tail) by (rewrite <- ?app_assoc; try done; zlia). cbn [ok_or mbind result_bind].
  unfold crc_of. by rewrite !crc_update_app.
Qed.

Context `{!HashLaws HS}.

Lemma seal_buf_spec kind tid attrs rest password :
  zlen tid = 12 -> zlen rest = 32 -> zlen attrs <= 1024 ->
  seal_buf (stun_head kind 0 tid ++ attrs ++ rest) (20 + zlen attrs) password =
    (sealed_message kind tid attrs password, Ok (52 + zlen attrs)).
Proof.
  intros Htid Hrest Hat. pose proof zlen_cookie as Hc. pose proof (hmac_length password (mac_input kind tid attrs)) as Hm.
  destruct (split_at rest 2 ltac:(lia)) as (r1 & x1 & -> & H1 & G1). destruct (split_at x1 2 ltac:(lia)) as (r2 & x2 & -> & H2 & G2).
  destruct (split_at x2 20 ltac:(lia)) as (r3 & x3 & -> & H3 & G3). destruct (split_at x3 2 ltac:(lia)) as (r4 & x4 & -> & H4 & G4).
  destruct (split_at x4 2 ltac:(lia)) as (r5 & r6 & -> & H5 & G5).
  assert (H6 : zlen r6 = 4) by zlia. clear Hrest G1 G2 G3 G4 G5.
  set (h := stun_head kind 0 tid ++ attrs). assert (Hh : zlen h = 20 + zlen attrs) by (unfold h; rewrite zlen_app, zlen_head; lia).
  unfold seal_buf, TRAILER_LEN, FINGERPRINT_LEN, INTEGRITY_LEN.
  rewrite (put_be16_mid h r1 (r2 ++ r3 ++ r4 ++ r5 ++ r6)) by (unfold h; rewrite <- ?app_assoc; try done; zlia). cbn [b_then].
  rewrite (put_be16_mid (h ++ be_bytes 2 ATTR_MESSAGE_INTEGRITY) r2 (r3 ++ r4 ++ r5 ++ r6)) by (rewrite <- ?app_assoc; try done; zlia). cbn [b_then].
  unfold h at 1. unfold stun_head. rewrite <- !app_assoc.
  rewrite (integrity_of_eq (be_bytes 2 kind) (be_bytes 2 0) (cookie_bytes ++ tid ++ attrs)
    (be_bytes 2 ATTR_MESSAGE_INTEGRITY ++ be_bytes 2 20 ++ r3 ++ r4 ++ r5 ++ r6))
    by (rewrite <- ?app_assoc; try done; unfold U16_MAX; zlia).
  replace (20 + zlen attrs + 4) with (24 + zlen attrs) by lia.
  change (be_bytes 2 kind ++ be_bytes 2 (24 + zlen attrs) ++ cookie_bytes ++ tid ++ attrs) with (mac_input kind tid attrs).
  set (mac := hmac_sha1 password (mac_input kind tid attrs)) in *.
  set (i := be_bytes 2 ATTR_MESSAGE_INTEGRITY ++ be_bytes 2 20).
  assert (Hi : zlen i = 4) by reflexivity.
  rewrite (put_bytes_mid (h ++ i) r3 (r4 ++ r5 ++ r6)) by (unfold i; rewrite <- ?app_assoc; try done; zlia). cbn [b_then].
  rewrite (put_be16_mid (h ++ i ++ mac) r4 (r5 ++ r6)) by (rewrite <- ?app_assoc; try done; zlia). cbn [b_then].
  rewrite (put_be16_mid (h ++ i ++ mac ++ be_bytes 2 ATTR_FINGERPRINT) r5 r6) by (rewrite <- ?app_assoc; try done; zlia). cbn [b_then].
  rewrite (fingerprint_of_eq (be_bytes 2 kind) (be_bytes 2 0) (cookie_bytes ++ tid ++ attrs ++ i ++ mac)
    (be_bytes 2 ATTR_FINGERPRINT ++ be_bytes 2 4 ++ r6))
    by (unfold h, stun_head; rewrite <- ?app_assoc; try done; unfold U16_MAX, INTEGRITY_LEN; zlia).
  rewrite (put_bytes_mid (h ++ i ++ mac ++ be_bytes 2 ATTR_FINGERPRINT ++ be_bytes 2 4) r6 [])
    by (rewrite <- ?app_assoc, ?app_nil_r; try done; zlia). cbn [b_then].
  rewrite try_from_some by (unfold U16_MAX; zlia).
  replace (20 + zlen attrs + 12) with (32 + zlen attrs) by lia.
  set (crc := Z.lxor _ _).
  rewrite (put_be16_mid (be_bytes 2 kind) (be_bytes 2 0) (cookie_bytes ++ tid ++ attrs ++ i ++ mac ++
    be_bytes 2 ATTR_FINGERPRINT ++ be_bytes 2 4 ++ be_bytes 4 crc))
    by (unfold h, stun_head; rewrite <- ?app_assoc, ?app_nil_r; try done; zlia).
  cbn [b_then]. f_equal; [|f_equal; lia].
  unfold sealed_message, with_integrity, stun_head. fold mac. subst i crc. rewrite <- ?app_assoc. done.
Qed.
Lemma zlen_sealed kind tid attrs password : zlen tid = 12 -> zlen (sealed_message kind tid attrs password) = 52 + zlen attrs.
Proof.
  intros Ht. unfold sealed_message, with_integrity. pose proof (hmac_length password (mac_input kind tid attrs)).
  rewrite !zlen_app, zlen_head. zlia.
Qed.

(** Sealing what was written: the whole message, or the error of the first
    write that does not fit. *)
Lemma finish_seal out x kind tid attrs password :
  Writes out x (stun_head kind 0 tid ++ attrs) -> zlen tid = 12 -> zlen attrs <= 204 ->
  let message := sealed_message kind tid attrs password in
  (zlen message <= zlen out ->
     finish x (fun w => writer_seal w password) = (message ++ drop (length message) out, Ok (zlen message))) /\
  (zlen out < zlen message -> snd (finish x (fun w => writer_seal w password)) = Err BufferTooSmall).
Proof.
  intros [Hok Herr] Ht Ha message. assert (Hlen : zlen message = 52 + zlen attrs) by by apply zlen_sealed.
  rewrite zlen_app, zlen_head in Hok, Herr. rewrite Hlen.
  destruct (Z.lt_ge_cases (zlen out) (20 + zlen attrs)) as [Hsmall|Hbig].
  { split; [zlia|]. intros _. destruct x as [w r]. specialize (Herr ltac:(lia)). cbn in Herr. by subst r. }
  destruct Hok as [E (Hat & Hbuf & _)]; [lia|]. destruct x as [w r]. cbn [fst snd finish] in *. subst r.
  rewrite zlen_app, zlen_head in Hat. unfold writer_seal. rewrite Hat. replace (8 + zlen tid + zlen attrs) with (20 + zlen attrs) by lia.
  rewrite checked_add64_some by (unfold TRAILER_LEN, INTEGRITY_LEN, FINGERPRINT_LEN, U64_MAX; zlia).
  replace (20 + zlen attrs + TRAILER_LEN) with (52 + zlen attrs) by (unfold TRAILER_LEN, INTEGRITY_LEN, FINGERPRINT_LEN; lia).
  rewrite (proj2 (Z.ltb_ge MAX_MESSAGE _)) by (unfold MAX_MESSAGE; lia). rewrite (proj2 (Z.ltb_ge _ MIN_MESSAGE)) by (unfold MIN_MESSAGE; zlia).
  assert (Hbl : zlen (w_buf w) = zlen out).
  { rewrite Hbuf. rewrite zlen_app, zlen_drop. change (Z.of_nat (length ?l)) with (zlen l). rewrite zlen_app, zlen_head. zlia. }
  split; intros Hfit.
  - set (data := stun_head kind 0 tid ++ attrs) in *.
    destruct (split_at (drop (length data) out) 32) as (rest & tl & E & Hr & Htl).
    { rewrite zlen_drop. change (Z.of_nat (length ?l)) with (zlen l). unfold data. rewrite zlen_app, zlen_head. zlia. }
    rewrite Hbuf, E. rewrite app_assoc, (slice_head (data ++ rest) tl).
    2:{ unfold data. rewrite !zlen_app, zlen_head. lia. }
    unfold data. rewrite <- !app_assoc. rewrite seal_buf_spec by lia. apply f_equal2; [|done]. apply f_equal2; [done|].
    assert (Hd : length (stun_head kind 0 tid ++ attrs ++ rest) = length message).
    { apply Nat2Z.inj. change (zlen (stun_head kind 0 tid ++ attrs ++ rest) = zlen message). rewrite Hlen, !zlen_app, zlen_head. lia. }
    replace (Z.to_nat (52 + zlen attrs)) with (length message) by (unfold zlen in *; lia).
    rewrite (app_assoc attrs), (app_assoc (stun_head _ _ _)), drop_app_length' by (rewrite <- Hd; done).
    rewrite <- (drop_app_length' rest tl (Z.to_nat 32)) by (unfold zlen in *; lia). rewrite <- E, drop_drop. f_equal.
    rewrite <- Hd. fold data. rewrite app_assoc. fold data. rewrite length_app. unfold zlen in *. lia.
  - unfold slice_to. destruct (slice (w_buf w) 0 (52 + zlen attrs)) eqn:Es; [|done]. apply slice_inv in Es. zlia.
Qed.
Definition enc_attrs (l : list (Z * list Z)) : list Z := concat (map enc_attr l).

(** The attributes of a check and of its answer. *)
Definition request_attrs (local_ufrag remote_ufrag tiebreaker : list Z) : list (Z * list Z) :=
  [(ATTR_USERNAME, remote_ufrag ++ [58] ++ local_ufrag); (ATTR_NETWORK_COST, be_bytes 4 NETWORK_COST_VALUE);
   (ATTR_ICE_CONTROLLED, tiebreaker); (ATTR_PRIORITY, be_bytes 4 PRIORITY_VALUE)].

Lemma zlen_request_attrs local_ufrag remote_ufrag tiebreaker :
  zlen local_ufrag <= MAX_UFRAG -> zlen remote_ufrag <= MAX_UFRAG -> zlen tiebreaker = 8 ->
  zlen (enc_attrs (request_attrs local_ufrag remote_ufrag tiebreaker)) <= 100.
Proof.
  unfold MAX_UFRAG. intros Hl Hr Ht. unfold enc_attrs. cbn [request_attrs map concat]. rewrite app_nil_r. rewrite !zlen_app, !zlen_enc_attr. cbn [snd].
  rewrite Ht, !zlen_be_bytes. pose proof (padding_range (zlen (remote_ufrag ++ [58] ++ local_ufrag))).
  change (padding 8) with 0. change (padding (Z.of_nat 4)) with 0. zlia.
Qed.

(** A check is written whole or refused: never truncated. *)
Lemma encode_binding_request_exact out tid local_ufrag remote_ufrag tiebreaker password :
  zlen out <= U64_MAX -> zlen tid = 12 -> zlen tiebreaker = 8 -> zlen local_ufrag <= MAX_UFRAG -> zlen remote_ufrag <= MAX_UFRAG ->
  let message := sealed_message TYPE_BINDING_REQUEST tid (enc_attrs (request_attrs local_ufrag remote_ufrag tiebreaker)) password in
  let r := encode_binding_request out tid local_ufrag remote_ufrag tiebreaker password in
  (zlen message <= zlen out -> r = (message ++ drop (length message) out, Ok (zlen message))) /\
  (zlen out < zlen message -> snd r = Err BufferTooSmall).
Proof.
  intros Hout Ht Htb Hl Hr. pose proof (zlen_request_attrs local_ufrag remote_ufrag tiebreaker Hl Hr Htb) as Ha.
  unfold encode_binding_request. rewrite (proj2 (Z.ltb_ge _ _) Hl), (proj2 (Z.ltb_ge _ _) Hr). cbn [orb].
  apply finish_seal; [|done|lia]. unfold MAX_UFRAG in *. pose proof (zlen_head TYPE_BINDING_REQUEST 0 tid) as Hh.
  set (user := remote_ufrag ++ [58] ++ local_ufrag). pose proof (padding_range (zlen user)).
  assert (Hu : zlen user = zlen remote_ufrag + 1 + zlen local_ufrag) by (unfold user; zlia). rewrite <- Hu.
  unfold enc_attrs in *. cbn [request_attrs map concat] in *. fold user in Ha |- *. rewrite app_nil_r in *.
  assert (Hall : zlen (enc_attr (ATTR_USERNAME, user)) = 4 + zlen user + padding (zlen user)) by apply zlen_enc_attr.
  eapply Writes_then; [|apply header_Writes; [done|lia]|intros w1 W1]; [zlia|].
  eapply Writes_then; [|apply attribute_header_Writes; [done| | |exact W1]; unfold U16_MAX; zlia|intros w2 W2]; [rewrite !zlen_app, Hall in *; zlia|].
  eapply Writes_then; [|apply put_Writes; [done| |exact W2]; unfold U64_MAX; zlia|intros w3 W3]; [rewrite !zlen_app, Hall in *; zlia|].
  eapply Writes_then; [|apply put_Writes; [done| |exact W3]; unfold U64_MAX; zlia|intros w4 W4]; [rewrite !zlen_app, Hall in *; zlia|].
  eapply Writes_then; [|apply put_Writes; [done| |exact W4]; unfold U64_MAX; zlia|intros w5 W5]; [rewrite !zlen_app, Hall in *; zlia|].
  eapply (Writes_then _ _ _ (stun_head TYPE_BINDING_REQUEST 0 tid ++ enc_attr (ATTR_USERNAME, user))).
  { zlia. }
  { eapply Writes_eq; [apply pad_Writes; [done| |exact W5]; zlia|]. unfold enc_attr, user. cbn [fst snd]. by rewrite <- !app_assoc. }
  intros w6 W6. eapply Writes_then; [|apply attribute_Writes; [done| | |exact W6]; zlia|intros w7 W7]; [zlia|].
  eapply Writes_then; [|apply attribute_Writes; [done| | |exact W7]; zlia|intros w8 W8]; [zlia|].
  eapply Writes_eq; [apply attribute_Writes; [done| | |exact W8]; zlia|]. by rewrite <- !app_assoc.
Qed.
(** ** The obfuscated address is recovered *)

Definition addr_ok (a : SocketAddr) : Prop :=
  match a with
  | SV4 octets p => zlen octets = 4 /\ bytes_ok octets /\ is_u16 p
  | SV6 octets p _ _ => zlen octets = 16 /\ bytes_ok octets /\ is_u16 p
  end.

(** What survives the wire: the flow label and the scope do not. *)
Definition wire_addr (a : SocketAddr) : SocketAddr :=
  match canonical a with SV6 octets p _ _ => SV6 octets p 0 0 | a => a end.

Definition mapped_value (a : SocketAddr) (tid : list Z) : list Z :=
  match canonical a with
  | SV4 octets p => [0; 1] ++ be_bytes 2 (Z.lxor p 0x2112) ++ xor_octets octets (fun index => default 0 (get cookie_bytes index))
  | SV6 octets p _ _ => [0; 2] ++ be_bytes 2 (Z.lxor p 0x2112) ++ xor_octets octets (mapped_mask tid)
  end.

Lemma canonical_ok a : addr_ok a -> addr_ok (canonical a).
Proof.
  destruct a as [o p|o p f s]; [done|]. intros (Hl & Hb & Hp). cbn [canonical]. unfold to_ipv4_mapped. case_bool_decide; [|done].
  cbn. split; [zlia|]. split; [by apply Forall_drop|done].
Qed.

Lemma zlen_xor_octets l m : zlen (xor_octets l m) = zlen l.
Proof.
  unfold xor_octets. rewrite zlen_map. unfold zlen. rewrite length_zip_with, length_seqZ. lia.
Qed.

Lemma xor_octets_twice l m : xor_octets (xor_octets l m) m = l.
Proof.
  assert (Hget : forall k i, xor_octets k m !! i = (fun b => Z.lxor b (m (Z.of_nat i))) <$> k !! i).
  { intros k i. unfold xor_octets. rewrite list_lookup_fmap, lookup_zip_with. destruct (k !! i) as [b|] eqn:E.
    - rewrite lookup_seqZ_lt; [reflexivity|]. apply lookup_lt_Some in E. unfold zlen; lia.
    - by destruct (seqZ 0 (zlen k) !! i). }
  apply list_eq. intros i. rewrite !Hget. destruct (l !! i); [|done]. cbn. by rewrite Z.lxor_assoc, Z.lxor_nilpotent, Z.lxor_0_r.
Qed.

Lemma zlen_mapped_value a tid : addr_ok a -> zlen (mapped_value a tid) = match canonical a with SV4 _ _ => 8 | SV6 _ _ _ _ => 20 end.
Proof.
  intros Ha%canonical_ok. unfold mapped_value. destruct (canonical a); destruct Ha as (Hl & _); rewrite !zlen_app, zlen_xor_octets; zlia.
Qed.

Lemma mapped_writes {A} (k q : Z) (xs : list Z) (f : list Z -> result A) :
  zlen xs <= 16 ->
  (out ← ok_or (write (replicate 20 0) 0 [0]) BufferTooSmall;
   out ← ok_or (write out 2 (be_bytes 2 q)) BufferTooSmall;
   out ← ok_or (write out 1 [k]) BufferTooSmall;
   out ← ok_or (write out 4 xs) BufferTooSmall; f out) = f (([0; k] ++ be_bytes 2 q ++ xs) ++ replicate (16 - length xs) 0).
Proof.
  intros Hx. change (replicate 20 0) with ([0; 0; 0; 0] ++ replicate 16 0).
  rewrite (write_mid _ [] [0] _ ([0; 0; 0] ++ replicate 16 0)) by done. cbn [ok_or mbind result_bind].
  rewrite (write_mid _ [0; 0] [0; 0] _ (replicate 16 0)) by done. cbn [ok_or mbind result_bind].
  rewrite (write_mid _ [0] [0] _ (be_bytes 2 q ++ replicate 16 0)) by done. cbn [ok_or mbind result_bind].
  replace 16%nat with (length xs + (16 - length xs))%nat at 1 by (unfold zlen in Hx; lia). rewrite replicate_add.
  rewrite (write_mid _ ([0; k] ++ be_bytes 2 q) (replicate (length xs) 0) _ (replicate (16 - length xs) 0)).
  - cbn [ok_or mbind result_bind]. by rewrite <- !app_assoc.
  - by rewrite <- !app_assoc.
  - by rewrite zlen_app, zlen_be_bytes.
  - by rewrite zlen_replicate.
Qed.

Lemma lxor_u8 a b : is_u8 a -> is_u8 b -> is_u8 (Z.lxor a b).
Proof. apply (lxor_bound 8); lia. Qed.

Lemma bytes_ok_xor_octets l m : bytes_ok l -> (forall i, is_u8 (m i)) -> bytes_ok (xor_octets l m).
Proof.
  intros Hl Hm. unfold xor_octets, bytes_ok. apply Forall_fmap, Forall_lookup. intros i [k b] E. apply lookup_zip_with_Some in E as (? & ? & [= -> ->] & _ & E).
  cbn. apply lxor_u8; [by apply (Forall_lookup_1 _ _ _ _ Hl E)|done].
Qed.

Lemma get_default_u8 l i : bytes_ok l -> is_u8 (default 0 (get l i)).
Proof. intros Hl. destruct (get l i) as [b|] eqn:E; [by apply (bytes_ok_get l i)|by split]. Qed.

Lemma mapped_mask_u8 tid i : bytes_ok tid -> is_u8 (mapped_mask tid i).
Proof.
  intros Ht. unfold mapped_mask. destruct (get cookie_bytes i) as [b|] eqn:E; [|by apply get_default_u8].
  apply (bytes_ok_get cookie_bytes i); [apply be_bytes_ok|done].
Qed.

Lemma bytes_ok_mapped_value a tid : addr_ok a -> bytes_ok tid -> bytes_ok (mapped_value a tid).
Proof.
  intros Ha%canonical_ok Ht. unfold mapped_value. destruct (canonical a); destruct Ha as (_ & Hb & _); rewrite !bytes_ok_app;
    (split; [by repeat constructor|]; split; [apply be_bytes_ok|apply bytes_ok_xor_octets; [done|intros i]]).
  - apply get_default_u8, be_bytes_ok.
  - by apply mapped_mask_u8.
Qed.

Lemma encode_mapped_eq a tid :
  addr_ok a -> exists pad, encode_mapped (replicate 20 0) a tid = Ok (mapped_value a tid ++ pad, zlen (mapped_value a tid)).
Proof.
  intros Ha. rewrite zlen_mapped_value by done. apply canonical_ok in Ha. unfold encode_mapped, mapped_value.
  destruct (canonical a) as [o p|o p f s]; destruct Ha as (Hl & _); cbn [port];
    rewrite mapped_writes by (rewrite zlen_xor_octets; lia); eauto.
Qed.

Lemma canonical_twice a : canonical (canonical a) = canonical a.
Proof. destruct a as [o p|o p f s]; [done|]. cbn [canonical]. destruct (to_ipv4_mapped o) eqn:E; [done|]. cbn [canonical]. by rewrite E. Qed.

Lemma decode_mapped_value a tid : addr_ok a -> decode_mapped (mapped_value a tid) tid = Some (wire_addr a).
Proof.
  intros Ha%canonical_ok. pose proof (canonical_twice a) as Hc. unfold mapped_value, wire_addr.
  destruct (canonical a) as [o p|o p f s]; destruct Ha as (Hl & Hb & Hp).
  all: assert (Hx : be_val (be_bytes 2 (Z.lxor p 8466)) = Z.lxor p 8466) by (apply be_val_bytes, (lxor_bound 16); unfold is_u16 in Hp; lia).
  all: destruct (be_bytes_2 (Z.lxor p 8466)) as (q0 & q1 & Eq); rewrite Eq in Hx |- *; unfold decode_mapped.
  - set (l := [0; 1] ++ [q0; q1] ++ _). change (get l 1) with (Some 1). change (get l 2) with (Some q0). change (get l 3) with (Some q1).
    cbn [mbind option_bind]. rewrite Hx, Z.lxor_assoc, Z.lxor_nilpotent, Z.lxor_0_r. change (1 =? 1) with true. cbv iota.
    rewrite (slice_at l [0; 1; q0; q1] (xor_octets o (fun index => default 0 (get cookie_bytes index))) [])
      by (rewrite ?app_nil_r, ?zlen_xor_octets; try done; rewrite Hl; done).
    cbn [mbind option_bind]. by rewrite xor_octets_twice.
  - set (l := [0; 2] ++ [q0; q1] ++ _). change (get l 1) with (Some 2). change (get l 2) with (Some q0). change (get l 3) with (Some q1).
    cbn [mbind option_bind]. rewrite Hx, Z.lxor_assoc, Z.lxor_nilpotent, Z.lxor_0_r. change (2 =? 1) with false. change (2 =? 2) with true. cbv iota.
    rewrite (slice_at l [0; 2; q0; q1] (xor_octets o (mapped_mask tid)) []) by (rewrite ?app_nil_r, ?zlen_xor_octets; try done; rewrite Hl; done).
    cbn [mbind option_bind]. rewrite xor_octets_twice. cbn [canonical] in Hc |- *. by destruct (to_ipv4_mapped o).
Qed.
Definition response_attrs (observed : SocketAddr) (tid : list Z) : list (Z * list Z) :=
  [(ATTR_XOR_MAPPED_ADDRESS, mapped_value observed tid)].

Lemma zlen_response_attrs observed tid : addr_ok observed -> zlen (enc_attrs (response_attrs observed tid)) <= 24.
Proof.
  intros Ha. unfold enc_attrs. cbn [response_attrs map concat]. rewrite app_nil_r, zlen_enc_attr. cbn [snd]. rewrite zlen_mapped_value by done.
  by destruct (canonical observed).
Qed.

Lemma encode_binding_response_exact out tid observed password :
  zlen out <= U64_MAX -> zlen tid = 12 -> addr_ok observed ->
  let message := sealed_message TYPE_BINDING_SUCCESS tid (enc_attrs (response_attrs observed tid)) password in
  let r := encode_binding_response out tid observed password in
  (zlen message <= zlen out -> r = (message ++ drop (length message) out, Ok (zlen message))) /\
  (zlen out < zlen message -> snd r = Err BufferTooSmall).
Proof.
  intros Hout Ht Ha. pose proof (zlen_response_attrs observed tid Ha) as Hl. unfold encode_binding_response.
  destruct (encode_mapped_eq observed tid Ha) as (pad & ->). rewrite slice_head by done.
  apply finish_seal; [|done|lia]. pose proof (zlen_head TYPE_BINDING_SUCCESS 0 tid) as Hh. unfold enc_attrs in *. cbn [response_attrs map concat] in *.
  rewrite app_nil_r in *. eapply Writes_then; [|apply header_Writes; [done|lia]|intros w W]; [zlia|].
  apply attribute_Writes; try done; [lia|]. rewrite zlen_mapped_value by done. by destruct (canonical observed).
Qed.

(** ** The parser walks what the writer wrote *)

Definition attr_ok (a : Z * list Z) : Prop := is_u16 (fst a) /\ zlen (snd a) <= U16_MAX.

Lemma be16_at l p q at_ v : l = p ++ be_bytes 2 v ++ q -> at_ = zlen p -> is_u16 v -> be16 l at_ = Ok v.
Proof.
  intros -> -> Hv. unfold be16. rewrite (slice_at _ p (be_bytes 2 v) q) by (try done; rewrite zlen_be_bytes; done). cbn. f_equal.
  apply (be_val_bytes 2). unfold is_u16 in Hv. cbn. lia.
Qed.

Lemma attr_next_enc p a q l at_ end_ :
  l = p ++ enc_attr a ++ q -> at_ = zlen p -> attr_ok a -> zlen p + zlen (enc_attr a) <= end_ ->
  attr_next l at_ end_ = Some (Ok (fst a, snd a, zlen p + zlen (enc_attr a))).
Proof.
  intros -> -> [Hk Hv] Hend. pose proof (padding_range (zlen (snd a))) as Hp. rewrite zlen_enc_attr in *. unfold attr_next.
  rewrite (proj2 (Z.ltb_ge _ _)) by zlia. unfold enc_attr. f_equal. set (z := replicate _ 0).
  rewrite (be16_at _ p (be_bytes 2 (zlen (snd a)) ++ snd a ++ z ++ q) (zlen p) (fst a)) by (rewrite <- ?app_assoc; done). cbn [mbind result_bind].
  rewrite (be16_at _ (p ++ be_bytes 2 (fst a)) (snd a ++ z ++ q) (zlen p + 2) (zlen (snd a)))
    by (rewrite <- ?app_assoc; try done; first [rewrite zlen_app, zlen_be_bytes; lia|unfold is_u16, U16_MAX in *; zlia]). cbn [mbind result_bind].
  rewrite (proj2 (Z.ltb_ge end_ _)) by lia.
  rewrite (slice_at _ (p ++ be_bytes 2 (fst a) ++ be_bytes 2 (zlen (snd a))) (snd a) (z ++ q))
    by (rewrite <- ?app_assoc; try done; rewrite !zlen_app, !zlen_be_bytes; lia).
  cbn [ok_or mbind result_bind]. do 2 f_equal. lia.
Qed.

Lemma enc_attrs_cons a l : enc_attrs (a :: l) = enc_attr a ++ enc_attrs l.
Proof. reflexivity. Qed.

Lemma attr_next_end l at_ : attr_next l at_ at_ = None.
Proof. unfold attr_next. by rewrite (proj2 (Z.ltb_lt _ _)) by lia. Qed.

Lemma walk_attrs l p q bytes fuel :
  Forall attr_ok l -> bytes = p ++ enc_attrs l ++ q -> (length l < fuel)%nat ->
  walk fuel bytes (zlen p) (zlen p + zlen (enc_attrs l)) = Ok (zlen p + zlen (enc_attrs l)).
Proof.
  revert p fuel. induction l as [|a l IH]; intros p fuel Hl -> Hf; (destruct fuel as [|fuel]; [cbn in Hf; lia|]); cbn [walk].
  - change (zlen (enc_attrs [])) with 0. rewrite Z.add_0_r. by rewrite attr_next_end.
  - inversion_clear Hl as [|?? Ha Hl']. rewrite enc_attrs_cons. rewrite (attr_next_enc p a (enc_attrs l ++ q)); [|by rewrite <- app_assoc|done|done|zlia].
    replace (zlen p + zlen (enc_attr a)) with (zlen (p ++ enc_attr a)) by zlia.
    replace (zlen p + zlen (enc_attr a ++ enc_attrs l)) with (zlen (p ++ enc_attr a) + zlen (enc_attrs l)) by zlia.
    apply IH; [done|by rewrite enc_attrs_cons, <- !app_assoc|cbn in Hf; lia].
Qed.

Lemma find_attrs l p q bytes fuel kind :
  Forall attr_ok l -> bytes = p ++ enc_attrs l ++ q -> (length l < fuel)%nat ->
  find_attr fuel bytes (zlen p) (zlen p + zlen (enc_attrs l)) kind = snd <$> find (fun a => fst a =? kind) l.
Proof.
  revert p fuel. induction l as [|a l IH]; intros p fuel Hl -> Hf; (destruct fuel as [|fuel]; [cbn in Hf; lia|]); cbn [find_attr find].
  - change (zlen (enc_attrs [])) with 0. rewrite Z.add_0_r. by rewrite attr_next_end.
  - inversion_clear Hl as [|?? Ha Hl']. rewrite enc_attrs_cons. rewrite (attr_next_enc p a (enc_attrs l ++ q)); [|by rewrite <- app_assoc|done|done|zlia].
    destruct (fst a =? kind); [done|]. replace (zlen p + zlen (enc_attr a)) with (zlen (p ++ enc_attr a)) by zlia.
    replace (zlen p + zlen (enc_attr a ++ enc_attrs l)) with (zlen (p ++ enc_attr a) + zlen (enc_attrs l)) by zlia.
    apply IH; [done|by rewrite enc_attrs_cons, <- !app_assoc|cbn in Hf; lia].
Qed.

Lemma length_enc_attrs l : (length l <= length (enc_attrs l))%nat.
Proof.
  induction l as [|a l IH]; [done|]. rewrite enc_attrs_cons, length_app. cbn [length].
  pose proof (zlen_enc_attr a) as E. pose proof (padding_range (zlen (snd a))). unfold zlen in *. lia.
Qed.

Definition method_type (m : Method) : Z := match m with BindingRequest => TYPE_BINDING_REQUEST | BindingSuccess => TYPE_BINDING_SUCCESS end.

Lemma stun_be32_at l p q at_ v : l = p ++ be_bytes 4 v ++ q -> at_ = zlen p -> is_u32 v -> stun_be32 l at_ = Ok v.
Proof.
  intros -> -> Hv. unfold stun_be32. rewrite (slice_at _ p (be_bytes 4 v) q) by (try done; rewrite zlen_be_bytes; done). cbn. f_equal.
  apply (be_val_bytes 4). unfold is_u32, M32 in Hv. cbn. lia.
Qed.

(** The four fields of a header that [parse] reads. *)
Lemma parse_head method len tid :
  zlen tid = 12 -> is_u16 len ->
  let head := stun_head (method_type method) len tid in
  be16 head 0 = Ok (method_type method) /\ be16 head 2 = Ok len /\ stun_be32 head 4 = Ok MAGIC_COOKIE /\ slice head 8 20 = Some tid.
Proof.
  intros Ht Hl head. unfold head, stun_head. split; [|split; [|split]].
  - apply (be16_at _ [] (be_bytes 2 len ++ cookie_bytes ++ tid)); [done..|]. by destruct method.
  - by apply (be16_at _ (be_bytes 2 (method_type method)) (cookie_bytes ++ tid)).
  - by apply (stun_be32_at _ (be_bytes 2 (method_type method) ++ be_bytes 2 len) tid); [rewrite <- app_assoc|..].
  - apply (slice_at _ (be_bytes 2 (method_type method) ++ be_bytes 2 len ++ cookie_bytes) tid []).
    + by rewrite <- !app_assoc, app_nil_r.
    + done.
    + rewrite Ht. done.
Qed.

Lemma sealed_trailer kind tid attrs password :
  zlen tid = 12 -> has_trailer (sealed_message kind tid attrs password) (20 + zlen attrs) = true.
Proof.
  intros Ht. pose proof (zlen_head kind (32 + zlen attrs) tid) as Hh. pose proof (hmac_length password (mac_input kind tid attrs)) as Hm.
  unfold has_trailer, sealed_message, with_integrity, INTEGRITY_LEN. set (crc := be_bytes 4 _). set (h := stun_head _ _ _) in *. set (mac := hmac_sha1 _ _) in *.
  set (i := be_bytes 2 ATTR_MESSAGE_INTEGRITY). set (f := be_bytes 2 ATTR_FINGERPRINT). set (n := be_bytes 2 20). set (m := be_bytes 2 4).
  assert (Hi : zlen i = 2) by reflexivity. assert (Hn : zlen n = 2) by reflexivity. assert (Hf : zlen f = 2) by reflexivity.
  rewrite (be16_at _ (h ++ attrs) (n ++ mac ++ f ++ m ++ crc) _ ATTR_MESSAGE_INTEGRITY) by (try done; first [by rewrite <- !app_assoc|zlia]).
  rewrite (be16_at _ (h ++ attrs ++ i) (mac ++ f ++ m ++ crc) _ 20) by (try done; first [by rewrite <- !app_assoc|zlia]).
  rewrite (be16_at _ (h ++ attrs ++ i ++ n ++ mac) (m ++ crc) _ ATTR_FINGERPRINT) by (try done; first [by rewrite <- !app_assoc|zlia]).
  rewrite (be16_at _ (h ++ attrs ++ i ++ n ++ mac ++ f) crc _ 4) by (try done; first [by rewrite <- !app_assoc|zlia]).
  done.
Qed.

Lemma parse_sealed method tid l password :
  zlen tid = 12 -> Forall attr_ok l -> zlen (enc_attrs l) <= 204 ->
  let m := sealed_message (method_type method) tid (enc_attrs l) password in
  stun_parse m = Ok (mkStunMessage m method tid (Some (20 + zlen (enc_attrs l)))).
Proof.
  intros Ht Hl Hlen m. pose proof (zlen_nonneg (enc_attrs l)) as H0. assert (Hm : zlen m = 52 + zlen (enc_attrs l)) by by apply zlen_sealed.
  pose proof (parse_head method (32 + zlen (enc_attrs l)) tid Ht ltac:(unfold is_u16; lia)) as (P0 & P2 & P4 & P8).
  set (h := stun_head (method_type method) (32 + zlen (enc_attrs l)) tid) in *.
  assert (Hh : zlen h = 20) by (unfold h; rewrite zlen_head; lia).
  assert (Hsplit : exists t, m = h ++ enc_attrs l ++ t) by (eexists; unfold m, sealed_message, with_integrity, h; rewrite <- !app_assoc; reflexivity).
  destruct Hsplit as [t Et]. unfold stun_parse, STUN_HEADER_LEN, MAX_MESSAGE, MIN_MESSAGE, TRAILER_LEN, INTEGRITY_LEN, FINGERPRINT_LEN.
  rewrite (proj2 (Z.ltb_ge (zlen m) 20)), (proj2 (Z.ltb_ge 256 (zlen m))) by lia. cbn [orb].
  replace (slice_to m 20) with (Some h) by (symmetry; rewrite Et; by apply slice_head). cbn [ok_or mbind result_bind].
  rewrite P0. cbn [mbind result_bind]. replace (if method_type method =? TYPE_BINDING_REQUEST then Ok BindingRequest else _) with (Ok method) by by destruct method.
  cbn [mbind result_bind]. rewrite P4. cbn [mbind result_bind]. rewrite Z.eqb_refl. cbn [negb]. rewrite P2. cbn [mbind result_bind].
  rewrite (proj2 (Z.eqb_eq _ _)) by lia. cbn [negb]. rewrite P8. cbn [ok_or mbind result_bind].
  rewrite (proj2 (Z.leb_le 52 (zlen m))) by lia. replace (zlen m - (24 + 8)) with (20 + zlen (enc_attrs l)) by lia.
  assert (Htr : has_trailer m (20 + zlen (enc_attrs l)) = true) by by apply sealed_trailer. rewrite Htr. cbn [default]. change (id ?x) with x.
  assert (Hw : walk (attr_fuel m) m 20 (20 + zlen (enc_attrs l)) = Ok (20 + zlen (enc_attrs l))).
  { rewrite <- Hh. apply (walk_attrs l h t); [done..|]. unfold attr_fuel. rewrite Et, !length_app. pose proof (length_enc_attrs l). lia. }
  rewrite Hw. cbn [mbind result_bind]. by rewrite Z.eqb_refl.
Qed.

Lemma ct_diff_refl l : ct_diff l l = 0.
Proof. unfold ct_diff. induction l as [|b l IH]; [done|]. cbn [zip_with fold_left]. by rewrite Z.lxor_nilpotent. Qed.

Lemma bytes_ok_head kind len tid : bytes_ok tid -> bytes_ok (stun_head kind len tid).
Proof. intros H. unfold stun_head. rewrite !bytes_ok_app. repeat split; [apply be_bytes_ok..|done]. Qed.

Lemma bytes_ok_with_integrity kind tid attrs password : bytes_ok tid -> bytes_ok attrs -> bytes_ok (with_integrity kind tid attrs password).
Proof.
  intros Ht Ha. unfold with_integrity. rewrite !bytes_ok_app. split; [by apply bytes_ok_head|]. split; [done|].
  split; [apply be_bytes_ok|]. split; [apply be_bytes_ok|]. apply hmac_bytes.
Qed.

Lemma bytes_ok_sealed kind tid attrs password : bytes_ok tid -> bytes_ok attrs -> bytes_ok (sealed_message kind tid attrs password).
Proof.
  intros Ht Ha. unfold sealed_message. rewrite !bytes_ok_app. split; [by apply bytes_ok_with_integrity|].
  split; [apply be_bytes_ok|]. split; [apply be_bytes_ok|]. apply be_bytes_ok.
Qed.

Lemma crc_field_u32 m : bytes_ok m -> is_u32 (Z.lxor (crc_of m) FINGERPRINT_XOR).
Proof. intros H. apply lxor_u32; [by apply crc_of_u32|]. done. Qed.

(** The hashes of a message in sealed form, whatever its two check fields hold. *)
Lemma sealed_hashes kind tid attrs mac t password :
  zlen tid = 12 -> zlen attrs <= 1024 -> zlen mac = 20 ->
  let p := stun_head kind (32 + zlen attrs) tid ++ attrs ++ be_bytes 2 ATTR_MESSAGE_INTEGRITY ++ be_bytes 2 20 ++ mac in
  integrity_of (p ++ t) (20 + zlen attrs) password = Ok (hmac_sha1 password (mac_input kind tid attrs)) /\
  fingerprint_of (p ++ t) (20 + zlen attrs) = Ok (Z.lxor (crc_of p) FINGERPRINT_XOR).
Proof.
  intros Ht Ha Hm p. pose proof zlen_cookie as Hc. unfold p, stun_head. set (two := be_bytes 2 (32 + zlen attrs)).
  assert (Htwo : zlen two = 2) by reflexivity. split.
  - rewrite (integrity_of_eq (be_bytes 2 kind) two (cookie_bytes ++ tid ++ attrs) (be_bytes 2 ATTR_MESSAGE_INTEGRITY ++ be_bytes 2 20 ++ mac ++ t))
      by (rewrite <- ?app_assoc; try done; unfold U16_MAX; zlia).
    unfold mac_input, stun_head. rewrite <- !app_assoc. replace (20 + zlen attrs + 4) with (24 + zlen attrs) by lia. done.
  - rewrite (fingerprint_of_eq (be_bytes 2 kind) two (cookie_bytes ++ tid ++ attrs ++ be_bytes 2 ATTR_MESSAGE_INTEGRITY ++ be_bytes 2 20 ++ mac) t)
      by (rewrite <- ?app_assoc; try done; unfold U16_MAX, INTEGRITY_LEN; zlia).
    replace (20 + zlen attrs + 12) with (32 + zlen attrs) by lia. fold two. by rewrite <- !app_assoc.
Qed.
Lemma ct_diff_eq a b : zlen a = zlen b -> ct_diff a b = 0 -> a = b.
Proof.
  assert (Hacc : forall l d, fold_left (fun diff '(x, y) => Z.lor diff (Z.lxor x y)) l d = 0 -> d = 0 /\ Forall (fun '(x, y) => x = y) l).
  { induction l as [|[x y] l IH]; intros d; cbn [fold_left]; [by split|]. intros [Hd Hl]%IH. apply Z.lor_eq_0_iff in Hd as [-> Hx].
    split; [done|]. constructor; [|done]. by apply Z.lxor_eq. }
  intros Hlen [_ H]%Hacc. revert b Hlen H. induction a as [|x a IH]; intros [|y b] Hlen H; try done; try zlia.
  cbn [zip_with] in H. inversion_clear H. f_equal; [done|]. apply IH; [zlia|done].
Qed.

(** [verify] accepts a well-shaped message exactly when both check fields are
    the ones [seal] computes. *)
Lemma verify_iff method tid attrs mac fp password :
  zlen tid = 12 -> zlen attrs <= 1024 -> zlen mac = 20 -> zlen fp = 4 -> bytes_ok tid -> bytes_ok attrs -> bytes_ok mac -> bytes_ok fp ->
  let kind := method_type method in
  let p := stun_head kind (32 + zlen attrs) tid ++ attrs ++ be_bytes 2 ATTR_MESSAGE_INTEGRITY ++ be_bytes 2 20 ++ mac in
  let d := p ++ be_bytes 2 ATTR_FINGERPRINT ++ be_bytes 2 4 ++ fp in
  verify (mkStunMessage d method tid (Some (20 + zlen attrs))) password = true <-> d = sealed_message kind tid attrs password.
Proof.
  intros Ht Ha Hm Hf Bt Ba Bm Bf kind p d. unfold verify. cbn [sm_bytes sm_integrity_at].
  destruct (sealed_hashes kind tid attrs mac (be_bytes 2 ATTR_FINGERPRINT ++ be_bytes 2 4 ++ fp) password Ht Ha Hm) as [Ei Ef].
  fold p d in Ei, Ef. rewrite Ei, Ef. set (f4 := be_bytes 2 ATTR_FINGERPRINT ++ be_bytes 2 4) in *. assert (H4 : zlen f4 = 4) by reflexivity.
  pose proof (zlen_head kind (32 + zlen attrs) tid) as Hh. assert (Hp : zlen p = 44 + zlen attrs) by (unfold p; rewrite !zlen_app, Hh; zlia).
  assert (Hd : d = (p ++ f4) ++ fp) by (unfold d, f4; by rewrite <- !app_assoc).
  rewrite Hd at 1. rewrite (stun_be32_at _ (p ++ f4) [] _ (be_val fp)); [|by rewrite be_bytes_val, app_nil_r by (try done; unfold zlen in *; lia)|unfold INTEGRITY_LEN; zlia|].
  2:{ pose proof (be_val_range fp Bf). rewrite Hf in *. done. }
  rewrite (slice_at d (stun_head kind (32 + zlen attrs) tid ++ attrs ++ be_bytes 2 ATTR_MESSAGE_INTEGRITY ++ be_bytes 2 20) mac (f4 ++ fp));
    [|by rewrite Hd; unfold p; rewrite <- !app_assoc|rewrite !zlen_app, Hh; zlia..].
  assert (Bp : bytes_ok p) by (unfold p; rewrite !bytes_ok_app; split; [by apply bytes_ok_head|]; split; [done|]; split; [apply be_bytes_ok|]; split; [apply be_bytes_ok|done]).
  pose proof (crc_field_u32 p Bp) as Hcrc. pose proof (hmac_length password (mac_input kind tid attrs)) as Hhm.
  split.
  - destruct (Z.eqb_spec (be_val fp) (Z.lxor (crc_of p) FINGERPRINT_XOR)) as [Efp|]; [|done]. cbn [negb]. intros Hct%Z.eqb_eq%ct_diff_eq; [|lia].
    assert (Emac : p = with_integrity kind tid attrs password) by (unfold with_integrity; rewrite Hct; done).
    unfold sealed_message. rewrite <- Emac, <- Efp, be_bytes_val by (try done; unfold zlen in *; lia). by rewrite Hd; unfold f4; rewrite <- !app_assoc.
  - intros Es. assert (Hpe : p = with_integrity kind tid attrs password /\ f4 ++ fp = f4 ++ be_bytes 4 (Z.lxor (crc_of (with_integrity kind tid attrs password)) FINGERPRINT_XOR)).
    { apply (app_inj_1 p); [apply Nat2Z.inj; change (zlen p = zlen (with_integrity kind tid attrs password)); unfold with_integrity; rewrite Hp, !zlen_app, Hh; zlia|].
      rewrite Hd, <- app_assoc in Es. rewrite Es. unfold sealed_message, f4. by rewrite <- !app_assoc. }
    destruct Hpe as [Ep Efp%app_inv_head]. rewrite <- Ep in Efp. rewrite Efp, be_val_bytes by done. rewrite Z.eqb_refl. cbn [negb].
    assert (Emac : mac = hmac_sha1 password (mac_input kind tid attrs)) by (unfold p, with_integrity in Ep; by do 4 apply app_inv_head in Ep).
    rewrite Emac, ct_diff_refl. done.
Qed.
(** ** Reading a parsed message back *)

Lemma slice_join {A} (l : list A) a b c x y : slice l a b = Some x -> slice l b c = Some y -> slice l a c = Some (x ++ y).
Proof.
  intros (?&?&?&->)%slice_inv (?&?&?&->)%slice_inv. rewrite slice_some by lia. f_equal.
  replace (Z.to_nat (c - a)) with (Z.to_nat (b - a) + Z.to_nat (c - b))%nat by lia.
  replace (Z.to_nat b) with (Z.to_nat a + Z.to_nat (b - a))%nat by lia. rewrite <- drop_drop. symmetry. apply take_take_drop.
Qed.

Lemma slice_of_prefix {A} (l h : list A) n a b x : slice_to l n = Some h -> slice h a b = Some x -> slice l a b = Some x.
Proof.
  intros (?&?&?&->)%slice_inv (?&?&Hb&->)%slice_inv. autorewrite with slices in Hb. rewrite Z.sub_0_r, drop_0 in *. rewrite slice_some by zlia.
  f_equal. rewrite skipn_firstn_comm, take_take. f_equal. lia.
Qed.

Lemma be16_inv l at_ v : bytes_ok l -> be16 l at_ = Ok v -> slice l at_ (at_ + 2) = Some (be_bytes 2 v).
Proof.
  intros Hb. unfold be16. destruct (slice l at_ (at_ + 2)) as [x|] eqn:E; [|done]. intros [= <-]. f_equal.
  pose proof (zlen_slice _ _ _ _ E). symmetry. apply be_bytes_val; [by apply (bytes_ok_slice l at_ (at_ + 2))|unfold zlen in *; lia].
Qed.

Lemma stun_be32_inv l at_ v : bytes_ok l -> stun_be32 l at_ = Ok v -> slice l at_ (at_ + 4) = Some (be_bytes 4 v).
Proof.
  intros Hb. unfold stun_be32. destruct (slice l at_ (at_ + 4)) as [x|] eqn:E; [|done]. intros [= <-]. f_equal.
  pose proof (zlen_slice _ _ _ _ E). symmetry. apply be_bytes_val; [by apply (bytes_ok_slice l at_ (at_ + 4))|unfold zlen in *; lia].
Qed.

(** What a successful parse says: the header it read, and where the trailer is. *)
Lemma stun_parse_inv d m :
  bytes_ok d -> stun_parse d = Ok m ->
  sm_bytes m = d /\ 20 <= zlen d <= MAX_MESSAGE /\ zlen (sm_tid m) = 12 /\ bytes_ok (sm_tid m) /\
  slice d 0 20 = Some (stun_head (method_type (sm_method m)) (zlen d - 20) (sm_tid m)) /\
  forall at_, sm_integrity_at m = Some at_ -> at_ = zlen d - TRAILER_LEN /\ MIN_MESSAGE <= zlen d /\ has_trailer d at_ = true.
Proof.
  intros Hb. unfold stun_parse. destruct (_ || _) eqn:Hg; [done|]. apply orb_false_iff in Hg as [H1%Z.ltb_ge H2%Z.ltb_ge]. unfold STUN_HEADER_LEN in *.
  intros (head & Hhead%ok_or_ok & H)%bind_ok. assert (Bh : bytes_ok head) by (by apply (bytes_ok_slice d 0 20)).
  apply bind_ok in H as (kind & Hk%be16_inv & H); [|done]. apply bind_ok in H as (method & Hme & H).
  apply bind_ok in H as (cookie & Hc%stun_be32_inv & H); [|done]. destruct (Z.eqb_spec cookie MAGIC_COOKIE) as [->|]; [|done]. cbn [negb] in H.
  apply bind_ok in H as (claimed & Hcl%be16_inv & H); [|done]. destruct (Z.eqb_spec claimed (zlen d - 20)) as [->|]; [|done]. cbn [negb] in H.
  apply bind_ok in H as (tid & Htid%ok_or_ok & H). cbv zeta in H. apply bind_ok in H as (reached & _ & H). destruct (negb _); [done|]. injection H as <-. cbn [sm_bytes sm_tid sm_method sm_integrity_at].
  assert (Ek : kind = method_type method).
  { destruct (Z.eqb_spec kind TYPE_BINDING_REQUEST) as [->|]; [by injection Hme as <-|]. destruct (Z.eqb_spec kind TYPE_BINDING_SUCCESS) as [->|]; [by injection Hme as <-|done]. }
  split; [done|]. split; [unfold MAX_MESSAGE in *; lia|]. split; [by apply zlen_slice in Htid|]. split; [by apply (bytes_ok_slice head 8 20)|]. split.
  - rewrite <- Ek. change 20 with (0 + 20) at 1. apply (slice_of_prefix _ _ _ _ _ _ Hhead). unfold stun_head.
    apply (slice_join head 0 2 _ _ _ Hk), (slice_join head 2 4 _ _ _ Hcl), (slice_join head 4 8 _ _ _ Hc). done.
  - intros at_. destruct (Z.leb_spec MIN_MESSAGE (zlen d)); [|done]. destruct (has_trailer d (zlen d - TRAILER_LEN)) eqn:Ht; [|done]. by intros [= <-].
Qed.
(** The four fields of a trailer, as slices. *)
Lemma has_trailer_inv d at_ :
  bytes_ok d -> has_trailer d at_ = true ->
  slice d at_ (at_ + 4) = Some (be_bytes 2 ATTR_MESSAGE_INTEGRITY ++ be_bytes 2 20) /\
  slice d (at_ + 24) (at_ + 28) = Some (be_bytes 2 ATTR_FINGERPRINT ++ be_bytes 2 4).
Proof.
  intros Hb. unfold has_trailer, INTEGRITY_LEN. intros H. bool_prop.
  repeat match goal with H : bool_decide _ = true |- _ => apply bool_decide_eq_true, be16_inv in H; [|done] end. split.
  - apply (slice_join d at_ (at_ + 2)); [done|]. by replace (at_ + 4) with (at_ + 2 + 2) by lia.
  - apply (slice_join d (at_ + 24) (at_ + 24 + 2)); [done|]. by replace (at_ + 28) with (at_ + 24 + 2 + 2) by lia.
Qed.

(** A parsed message that carries credentials, taken apart. *)
Lemma authenticated_shape d m at_ :
  bytes_ok d -> stun_parse d = Ok m -> sm_integrity_at m = Some at_ ->
  exists attrs mac fp,
    m = mkStunMessage d (sm_method m) (sm_tid m) (Some (20 + zlen attrs)) /\ zlen (sm_tid m) = 12 /\ zlen attrs <= 204 /\ zlen mac = 20 /\ zlen fp = 4 /\
    bytes_ok (sm_tid m) /\ bytes_ok attrs /\ bytes_ok mac /\ bytes_ok fp /\
    d = (stun_head (method_type (sm_method m)) (32 + zlen attrs) (sm_tid m) ++ attrs ++ be_bytes 2 ATTR_MESSAGE_INTEGRITY ++ be_bytes 2 20 ++ mac) ++
        be_bytes 2 ATTR_FINGERPRINT ++ be_bytes 2 4 ++ fp.
Proof.
  intros Hb Hp Hat. destruct (stun_parse_inv d m Hb Hp) as (Hbytes & Hlen & Ht & Bt & Hhead & Htr). destruct (Htr at_ Hat) as (-> & Hmin & Htrail).
  apply has_trailer_inv in Htrail as [Hi Hf]; [|done]. unfold TRAILER_LEN, INTEGRITY_LEN, FINGERPRINT_LEN, MIN_MESSAGE, MAX_MESSAGE in *.
  set (at_ := zlen d - (24 + 8)) in *. destruct (slice d 20 at_) as [attrs|] eqn:Ha; [|apply slice_none in Ha; lia].
  destruct (slice d (at_ + 4) (at_ + 24)) as [mac|] eqn:Hm; [|apply slice_none in Hm; lia].
  destruct (slice d (at_ + 28) (zlen d)) as [fp|] eqn:Hfp; [|apply slice_none in Hfp; lia].
  pose proof (zlen_slice _ _ _ _ Ha) as La. pose proof (zlen_slice _ _ _ _ Hm) as Lm. pose proof (zlen_slice _ _ _ _ Hfp) as Lf.
  exists attrs, mac, fp. split.
  { destruct m as [b me t ia]. cbn in Hbytes, Hat |- *. subst b ia. do 2 f_equal. lia. }
  do 3 (split; [lia|]). split; [lia|]. split; [done|]. split; [by apply (bytes_ok_slice d 20 at_)|].
  split; [by apply (bytes_ok_slice d (at_ + 4) (at_ + 24))|]. split; [by apply (bytes_ok_slice d (at_ + 28) (zlen d))|].
  assert (Hall : slice d 0 (zlen d) = Some d) by apply slice_all.
  pose proof (slice_join _ _ _ _ _ _ Hhead (slice_join _ _ _ _ _ _ Ha (slice_join _ _ _ _ _ _ Hi (slice_join _ _ _ _ _ _ Hm (slice_join _ _ _ _ _ _ Hf Hfp))))) as E.
  rewrite Hall in E. replace (zlen d - 20) with (32 + zlen attrs) in E by lia. injection E as E. rewrite E at 1. by rewrite <- !app_assoc.
Qed.

(** A sealed message parses, verifies, and gives its attributes back. *)
Lemma bytes_ok_enc_attrs l : Forall (fun a => bytes_ok (snd a)) l -> bytes_ok (enc_attrs l).
Proof.
  induction 1 as [|a l Ha _ IH]; [constructor|]. rewrite enc_attrs_cons. unfold enc_attr. rewrite !bytes_ok_app.
  split; [|done]. split; [apply be_bytes_ok|]. split; [apply be_bytes_ok|]. split; [done|apply bytes_ok_replicate0].
Qed.

Lemma verify_sealed method tid attrs password :
  zlen tid = 12 -> zlen attrs <= 1024 -> bytes_ok tid -> bytes_ok attrs ->
  let m := sealed_message (method_type method) tid attrs password in verify (mkStunMessage m method tid (Some (20 + zlen attrs))) password = true.
Proof.
  intros Ht Ha Bt Ba m. apply (verify_iff method tid attrs (hmac_sha1 password (mac_input (method_type method) tid attrs))
    (be_bytes 4 (Z.lxor (crc_of (with_integrity (method_type method) tid attrs password)) FINGERPRINT_XOR))); try done.
  - apply hmac_length.
  - apply hmac_bytes.
  - apply be_bytes_ok.
Qed.

Lemma find_sealed method tid l password kind :
  zlen tid = 12 -> Forall attr_ok l ->
  let m := sealed_message (method_type method) tid (enc_attrs l) password in
  find_attr (attr_fuel m) m STUN_HEADER_LEN (20 + zlen (enc_attrs l)) kind = snd <$> find (fun a => fst a =? kind) l.
Proof.
  intros Ht Hl m. set (h := stun_head (method_type method) (32 + zlen (enc_attrs l)) tid).
  assert (Hh : zlen h = 20) by (unfold h; rewrite zlen_head; lia).
  assert (Hsplit : exists t, m = h ++ enc_attrs l ++ t) by (eexists; unfold m, sealed_message, with_integrity, h; rewrite <- !app_assoc; reflexivity).
  destruct Hsplit as [t Et]. unfold STUN_HEADER_LEN. rewrite <- Hh. apply (find_attrs l h t); [done..|]. unfold attr_fuel. rewrite Et, !length_app.
  pose proof (length_enc_attrs l). lia.
Qed.

Lemma utf8_app a b : utf8 a = true -> utf8 b = true -> utf8 (a ++ b) = true.
Proof.
  intros Ha Hb. revert Ha. remember (length a) as n eqn:Hn. revert a Hn. induction n as [n IH] using lt_wf_ind. intros a ->.
  destruct a as [|x a]; [done|]. cbn [utf8 app]. destruct (utf8_cont 0 127 x); [apply IH with (m := length a); [cbn; lia|done]|].
  destruct a as [|y a]; [done|]. cbn [app]. destruct (utf8_cont 194 223 x).
  { intros [-> H]%andb_prop. by apply IH with (m := length a); [cbn; lia| |]. }
  destruct a as [|z a]; [done|]. cbn [app]. destruct (utf8_cont 224 239 x).
  { intros [-> H]%andb_prop. by apply IH with (m := length a); [cbn; lia| |]. }
  destruct a as [|w a]; [done|]. cbn [app]. intros [-> H]%andb_prop. by apply IH with (m := length a); [cbn; lia| |].
Qed.

(** What a successful encoder left in the buffer, as the other side reads it. *)
Lemma encode_binding_request_ok out tid local_ufrag remote_ufrag tiebreaker password buf len :
  zlen out <= U64_MAX -> zlen tid = 12 -> bytes_ok tid -> zlen tiebreaker = 8 -> bytes_ok tiebreaker -> bytes_ok local_ufrag -> bytes_ok remote_ufrag ->
  encode_binding_request out tid local_ufrag remote_ufrag tiebreaker password = (buf, Ok len) ->
  exists m, stun_parse (take (Z.to_nat len) buf) = Ok m /\ bytes_ok (take (Z.to_nat len) buf) /\
    sm_method m = BindingRequest /\ sm_tid m = tid /\ verify m password = true.
Proof.
  intros Hout Ht Bt Htb Btb Bl Br He. assert (Hu : zlen local_ufrag <= MAX_UFRAG /\ zlen remote_ufrag <= MAX_UFRAG).
  { unfold encode_binding_request in He. destruct (_ || _) eqn:Hg; [done|]. bool_prop. lia. }
  destruct Hu as [Hl Hr]. set (l := request_attrs local_ufrag remote_ufrag tiebreaker). pose proof (zlen_request_attrs _ _ _ Hl Hr Htb) as Ha. fold l in Ha.
  set (m := sealed_message TYPE_BINDING_REQUEST tid (enc_attrs l) password).
  destruct (encode_binding_request_exact out tid local_ufrag remote_ufrag tiebreaker password) as [E1 E2]; try done. fold l m in E1, E2.
  rewrite He in E1, E2. assert (Hfit : zlen m <= zlen out) by (destruct (Z.le_gt_cases (zlen m) (zlen out)); [done|]; discriminate (E2 ltac:(lia))).
  apply E1 in Hfit. apply pair_equal_spec in Hfit as [-> [= ->]]. rewrite take_app_length' by (unfold zlen; lia).
  assert (Hok : Forall attr_ok l).
  { unfold MAX_UFRAG in *. repeat constructor; cbn [fst snd]; try done; unfold U16_MAX; [zlia|]. rewrite Htb. lia. }
  assert (Ba : bytes_ok (enc_attrs l)).
  { apply bytes_ok_enc_attrs. constructor; [|constructor; [apply be_bytes_ok|constructor; [done|constructor; [apply be_bytes_ok|constructor]]]].
    cbn [snd]. rewrite !bytes_ok_app. split; [done|]. split; [|done]. by constructor. }
  eexists. split; [apply (parse_sealed BindingRequest); [done..|lia]|]. split; [by apply (bytes_ok_sealed TYPE_BINDING_REQUEST)|].
  split; [done|]. split; [done|]. by apply (verify_sealed BindingRequest); [|lia|..].
Qed.

Lemma encode_binding_response_ok out tid observed password buf len :
  zlen out <= U64_MAX -> zlen tid = 12 -> bytes_ok tid -> addr_ok observed ->
  encode_binding_response out tid observed password = (buf, Ok len) ->
  exists m, stun_parse (take (Z.to_nat len) buf) = Ok m /\ bytes_ok (take (Z.to_nat len) buf) /\
    sm_method m = BindingSuccess /\ sm_tid m = tid /\ mapped_address m = Some (wire_addr observed) /\ verify m password = true.
Proof.
  intros Hout Ht Bt Ho He. set (l := response_attrs observed tid). pose proof (zlen_response_attrs observed tid Ho) as Ha. fold l in Ha.
  set (m := sealed_message TYPE_BINDING_SUCCESS tid (enc_attrs l) password).
  destruct (encode_binding_response_exact out tid observed password) as [E1 E2]; try done. fold l m in E1, E2.
  rewrite He in E1, E2. assert (Hfit : zlen m <= zlen out) by (destruct (Z.le_gt_cases (zlen m) (zlen out)); [done|]; discriminate (E2 ltac:(lia))).
  apply E1 in Hfit. apply pair_equal_spec in Hfit as [-> [= ->]]. rewrite take_app_length' by (unfold zlen; lia).
  assert (Hok : Forall attr_ok l).
  { repeat constructor; cbn [fst snd]; try done. unfold U16_MAX. rewrite zlen_mapped_value by done. by destruct (canonical observed). }
  assert (Ba : bytes_ok (enc_attrs l)) by (apply bytes_ok_enc_attrs; constructor; [|constructor]; by apply bytes_ok_mapped_value).
  eexists. split; [apply (parse_sealed BindingSuccess); [done..|lia]|]. split; [by apply (bytes_ok_sealed TYPE_BINDING_SUCCESS)|].
  split; [done|]. split; [done|]. split; [|by apply (verify_sealed BindingSuccess); [|lia|..]].
  unfold mapped_address, attributes_end. cbn [sm_bytes sm_integrity_at sm_tid default]. change (id ?x) with x.
  rewrite (find_sealed BindingSuccess tid l password ATTR_XOR_MAPPED_ADDRESS) by done. cbn [l response_attrs find fst]. change (ATTR_XOR_MAPPED_ADDRESS =? ATTR_XOR_MAPPED_ADDRESS) with true.
  cbn [fmap option_fmap option_map mbind option_bind snd]. by apply decode_mapped_value.
Qed.

(** A bare request is a header and nothing else, and parses without credentials. *)
Lemma parse_bare tid :
  zlen tid = 12 -> let d := stun_head TYPE_BINDING_REQUEST 0 tid in stun_parse d = Ok (mkStunMessage d BindingRequest tid None).
Proof.
  intros Ht d. destruct (parse_head BindingRequest 0 tid Ht ltac:(done)) as (P0 & P2 & P4 & P8). cbn [method_type] in *. fold d in P0, P2, P4, P8.
  assert (Hd : zlen d = 20) by (unfold d; rewrite zlen_head; lia). unfold stun_parse, STUN_HEADER_LEN. rewrite Hd. change ((20 <? 20) || (MAX_MESSAGE <? 20)) with false. cbv iota.
  assert (slice_to d 20 = Some d) as -> by (rewrite <- Hd; apply slice_all). cbn [ok_or mbind result_bind].
  rewrite P0. cbn [mbind result_bind]. change (TYPE_BINDING_REQUEST =? TYPE_BINDING_REQUEST) with true. cbn [mbind result_bind]. rewrite P4. cbn [mbind result_bind].
  rewrite Z.eqb_refl. cbn [negb]. rewrite P2. cbn [mbind result_bind]. change (0 =? 20 - 20) with true. cbn [negb]. rewrite P8. cbn [ok_or mbind result_bind].
  change (MIN_MESSAGE <=? 20) with false. cbn [default]. unfold attr_fuel. cbn [walk]. rewrite attr_next_end. reflexivity.
Qed.

Lemma encode_reflexive_request_ok out tid buf len :
  zlen out <= U64_MAX -> zlen tid = 12 -> encode_reflexive_request out tid = (buf, Ok len) ->
  exists m, stun_parse (take (Z.to_nat len) buf) = Ok m /\ sm_method m = BindingRequest /\ sm_tid m = tid /\ sm_integrity_at m = None.
Proof.
  intros Hout Ht He. unfold encode_reflexive_request in He. destruct (header_Writes out TYPE_BINDING_REQUEST tid Hout ltac:(lia)) as [Hok Herr].
  pose proof (zlen_head TYPE_BINDING_REQUEST 0 tid) as Hl. destruct (header _ _ _) as [w r]. cbn [fst snd] in Hok, Herr.
  assert (Hfit : zlen (stun_head TYPE_BINDING_REQUEST 0 tid) <= zlen out) by (destruct (Z.le_gt_cases (zlen (stun_head TYPE_BINDING_REQUEST 0 tid)) (zlen out)); [done|]; rewrite Herr in He by lia; done).
  destruct (Hok Hfit) as (-> & Hat & Hbuf & _). cbn [finish] in He. rewrite Hbuf, Hat in He. unfold stun_head in He at 1.
  rewrite (put_be16_mid (be_bytes 2 TYPE_BINDING_REQUEST) (be_bytes 2 0) (cookie_bytes ++ tid ++ drop (length (stun_head TYPE_BINDING_REQUEST 0 tid)) out)) in He
    by (rewrite <- ?app_assoc; done).
  apply pair_equal_spec in He as [<- [= <-]]. exists (mkStunMessage (stun_head TYPE_BINDING_REQUEST 0 tid) BindingRequest tid None). split; [|done].
  replace (take _ _) with (stun_head TYPE_BINDING_REQUEST 0 tid); [by apply parse_bare|].
  set (rest := drop _ _). symmetry.
  assert (be_bytes 2 TYPE_BINDING_REQUEST ++ be_bytes 2 0 ++ cookie_bytes ++ tid ++ rest = stun_head TYPE_BINDING_REQUEST 0 tid ++ rest) as ->
    by (unfold stun_head; by rewrite <- !app_assoc).
  apply take_app_length'. unfold zlen. lia.
Qed.

(** A check that authenticates is, byte for byte, a message sealed under
    that password: [verify] accepts exactly what [seal] produces, so nothing in
    the datagram, the length field included, is outside what the password
    vouches for. *)
Theorem verified_is_sealed d m password :
  bytes_ok d -> stun_parse d = Ok m ->
  verify m password = true <->
  exists attrs, d = sealed_message (method_type (sm_method m)) (sm_tid m) attrs password /\ sm_integrity_at m = Some (20 + zlen attrs).
Proof.
  intros Hb Hp. split.
  - destruct (sm_integrity_at m) as [at_|] eqn:Hat; [|unfold verify; by rewrite Hat].
    destruct (authenticated_shape d m at_ Hb Hp Hat) as (attrs & mac & fp & Em & Ht & La & Lm & Lf & Bt & Ba & Bm & Bf & Ed).
    intros Hv. rewrite Em, Ed in Hv. apply verify_iff in Hv; [|try done; lia..]. exists attrs. rewrite <- Ed in Hv. split; [done|]. by rewrite Em in Hat.
  - intros (attrs & Ed & Hat). destruct (authenticated_shape d m _ Hb Hp Hat) as (attrs' & mac & fp & Em & Ht & La & Lm & Lf & Bt & Ba & Bm & Bf & Ed').
    assert (El : zlen attrs' = zlen attrs) by (rewrite Em in Hat; injection Hat as Hat; lia).
    rewrite Em, Ed'. apply verify_iff; [try done; lia..|]. rewrite <- Ed', Ed. f_equal.
    rewrite Ed in Ed'. unfold sealed_message, with_integrity in Ed'. rewrite <- !app_assoc, El in Ed'. apply app_inv_head in Ed'.
    apply app_inj_1 in Ed' as [Ea _]; [done|unfold zlen in El; lia].
Qed.
(** Every check the engine can build comes back: into a buffer of the
    documented size it is written whole, and the peer's parser reads a binding
    request with the same transaction, the username in the order a peer matches
    on, and an authentic trailer. *)
Theorem binding_request_round_trip out tid local_ufrag remote_ufrag tiebreaker password :
  MAX_MESSAGE <= zlen out <= U64_MAX -> zlen tid = 12 -> bytes_ok tid -> zlen tiebreaker = 8 -> bytes_ok tiebreaker ->
  zlen local_ufrag <= MAX_UFRAG -> bytes_ok local_ufrag -> utf8 local_ufrag = true ->
  zlen remote_ufrag <= MAX_UFRAG -> bytes_ok remote_ufrag -> utf8 remote_ufrag = true ->
  exists buf len m,
    encode_binding_request out tid local_ufrag remote_ufrag tiebreaker password = (buf, Ok len) /\
    MIN_MESSAGE <= len <= MAX_MESSAGE /\ stun_parse (take (Z.to_nat len) buf) = Ok m /\
    sm_method m = BindingRequest /\ sm_tid m = tid /\ username m = Some (remote_ufrag ++ [58] ++ local_ufrag) /\ verify m password = true.
Proof.
  intros Hout Ht Bt Htb Btb Hl Bl Ul Hr Br Ur. set (l := request_attrs local_ufrag remote_ufrag tiebreaker).
  pose proof (zlen_request_attrs local_ufrag remote_ufrag tiebreaker Hl Hr Htb) as Ha. fold l in Ha. unfold MIN_MESSAGE, MAX_MESSAGE in *.
  set (m := sealed_message TYPE_BINDING_REQUEST tid (enc_attrs l) password).
  assert (Hm : zlen m = 52 + zlen (enc_attrs l)) by by apply zlen_sealed.
  destruct (encode_binding_request_exact out tid local_ufrag remote_ufrag tiebreaker password) as [E _]; try done; try lia.
  fold l m in E. specialize (E ltac:(lia)). pose proof E as Er. apply encode_binding_request_ok in Er as (m' & Hp & _ & Hme & Htid & Hv); [|try done; lia..].
  eexists _, _, m'. split; [exact E|]. split; [zlia|]. do 3 (split; [done|]). split; [|done].
  assert (Hok : Forall attr_ok l).
  { unfold MAX_UFRAG in *. repeat constructor; cbn [fst snd]; try done; unfold U16_MAX; [zlia|]. rewrite Htb. lia. }
  rewrite take_app_length' in Hp by (unfold zlen; lia).
  assert (m' = mkStunMessage m BindingRequest tid (Some (20 + zlen (enc_attrs l)))) as ->.
  { pose proof (parse_sealed BindingRequest tid l password Ht Hok ltac:(lia)) as Hp'. cbv zeta in Hp'. change (stun_parse m = Ok m') in Hp. change (sealed_message _ _ _ _) with m in Hp'. congruence. }
  unfold username, attributes_end. cbn [sm_bytes sm_integrity_at default]. change (id ?x) with x.
  pose proof (find_sealed BindingRequest tid l password ATTR_USERNAME Ht Hok) as Hf. cbv zeta in Hf. change (sealed_message _ _ _ _) with m in Hf. rewrite Hf. cbn [l request_attrs find fst]. change (ATTR_USERNAME =? ATTR_USERNAME) with true.
  cbn [fmap option_fmap option_map mbind option_bind snd]. by rewrite !utf8_app by done.
Qed.

(** Every answer comes back: the requester reads a success for its own
    transaction, authentic under the responder's password, and the address it
    was observed at, with a v4-mapped address collapsed to the IPv4 it is. *)
Theorem binding_response_round_trip out tid observed password :
  MAX_MESSAGE <= zlen out <= U64_MAX -> zlen tid = 12 -> bytes_ok tid -> addr_ok observed ->
  exists buf len m,
    encode_binding_response out tid observed password = (buf, Ok len) /\
    MIN_MESSAGE <= len <= MAX_MESSAGE /\ stun_parse (take (Z.to_nat len) buf) = Ok m /\
    sm_method m = BindingSuccess /\ sm_tid m = tid /\ mapped_address m = Some (wire_addr observed) /\ verify m password = true.
Proof.
  intros Hout Ht Bt Ho. set (l := response_attrs observed tid). pose proof (zlen_response_attrs observed tid Ho) as Ha. fold l in Ha.
  unfold MIN_MESSAGE, MAX_MESSAGE in *. set (m := sealed_message TYPE_BINDING_SUCCESS tid (enc_attrs l) password).
  assert (Hm : zlen m = 52 + zlen (enc_attrs l)) by by apply zlen_sealed.
  destruct (encode_binding_response_exact out tid observed password) as [E _]; try done; try lia.
  fold l m in E. specialize (E ltac:(lia)). pose proof E as Er. apply encode_binding_response_ok in Er as (m' & Hp & _ & Hme & Htid & Hma & Hv); [|try done; lia..].
  eexists _, _, m'. split; [exact E|]. split; [zlia|]. done.
Qed.

(** Checks and their answers round-trip. A binding request written into a
    buffer of the largest message size parses back as a request with its
    transaction, names the two fragments, remote first, and verifies under the
    password it was sealed with; a binding response parses back as a success
    with its transaction, verifies, and carries the address the request was
    seen from, a v4-mapped one as the IPv4 it is. *)
Theorem binding_messages_round_trip out tid local_ufrag remote_ufrag tiebreaker observed password :
  MAX_MESSAGE <= zlen out <= U64_MAX -> zlen tid = 12 -> bytes_ok tid -> zlen tiebreaker = 8 -> bytes_ok tiebreaker ->
  zlen local_ufrag <= MAX_UFRAG -> bytes_ok local_ufrag -> utf8 local_ufrag = true ->
  zlen remote_ufrag <= MAX_UFRAG -> bytes_ok remote_ufrag -> utf8 remote_ufrag = true -> addr_ok observed ->
  (exists buf len m,
    encode_binding_request out tid local_ufrag remote_ufrag tiebreaker password = (buf, Ok len) /\
    MIN_MESSAGE <= len <= MAX_MESSAGE /\ stun_parse (take (Z.to_nat len) buf) = Ok m /\
    sm_method m = BindingRequest /\ sm_tid m = tid /\ username m = Some (remote_ufrag ++ [58] ++ local_ufrag) /\ verify m password = true) /\
  (exists buf len m,
    encode_binding_response out tid observed password = (buf, Ok len) /\
    MIN_MESSAGE <= len <= MAX_MESSAGE /\ stun_parse (take (Z.to_nat len) buf) = Ok m /\
    sm_method m = BindingSuccess /\ sm_tid m = tid /\ mapped_address m = Some (wire_addr observed) /\ verify m password = true).
Proof. intros. split; [by apply binding_request_round_trip|by apply binding_response_round_trip]. Qed.

End codec.

(** ** Witnesses

    A keyed stand-in for the digests: twenty bytes that depend on the key and
    on every byte of the message. *)

#[export] Instance demo_hashes : Hashes := {|
  hmac_sha1 key message := be_bytes 20 (crc_of (key ++ message) * 65537);
  sha1 message := be_bytes 20 (crc_of message * 65537 * 2 ^ 80);
|}.

#[export] Instance demo_hash_laws : HashLaws demo_hashes.
Proof. split; intros; [apply zlen_be_bytes|apply be_bytes_ok|apply zlen_be_bytes|apply be_bytes_ok]. Qed.

Definition demo_tid : list Z := [1; 2; 3; 4; 5; 6; 7; 8; 9; 10; 11; 12].
Definition demo_local : list Z := [108; 111; 99; 97].
Definition demo_remote : list Z := [114; 101; 109; 111].
Definition demo_password : list Z := [112; 119; 100].
Definition demo_mapped : SocketAddr := SV6 (replicate 10 0 ++ [255; 255; 198; 51; 100; 7]) 4000 0 0.

Definition demo_check : list Z :=
  take 96 (fst (encode_binding_request (replicate 256 0) demo_tid demo_local demo_remote (replicate 8 170) demo_password)).

(** The check is the right length, is accepted under its password, and is
    refused under another and after a flipped bit. *)
Example demo_check_verifies :
  match stun_parse demo_check with
  | Ok m => verify m demo_password = true /\ verify m demo_local = false /\ username m = Some [114; 101; 109; 111; 58; 108; 111; 99; 97]
  | Err _ => False
  end.
Proof. vm_compute. split; [reflexivity|split; reflexivity]. Qed.

Example demo_check_tampered :
  match stun_parse (set_at demo_check 27 113) with Ok m => verify m demo_password = false | Err _ => False end.
Proof. vm_compute. reflexivity. Qed.

Lemma verified_is_sealed_witness :
  exists m, stun_parse demo_check = Ok m /\
    exists attrs, demo_check = sealed_message (method_type (sm_method m)) (sm_tid m) attrs demo_password /\ sm_integrity_at m = Some (20 + zlen attrs).
Proof.
  destruct (stun_parse demo_check) as [m|] eqn:E; [|vm_compute in E; discriminate E]. exists m. split; [reflexivity|].
  apply (verified_is_sealed demo_check m demo_password); [apply bytes_ok_b; vm_compute; reflexivity|exact E|].
  vm_compute in E. injection E as <-. vm_compute. reflexivity.
Defined.

Lemma binding_messages_round_trip_witness :
  (exists buf len m, encode_binding_request (replicate 256 0) demo_tid demo_local demo_remote (replicate 8 170) demo_password = (buf, Ok len) /\
    stun_parse (take (Z.to_nat len) buf) = Ok m /\ username m = Some (demo_remote ++ [58] ++ demo_local) /\ verify m demo_password = true) /\
  exists buf len m, encode_binding_response (replicate 256 0) demo_tid demo_mapped demo_password = (buf, Ok len) /\
    stun_parse (take (Z.to_nat len) buf) = Ok m /\ mapped_address m = Some (SV4 [198; 51; 100; 7] 4000) /\ verify m demo_password = true.
Proof.
  destruct (binding_messages_round_trip (replicate 256 0) demo_tid demo_local demo_remote (replicate 8 170) demo_mapped demo_password)
    as [(b1 & l1 & m1 & E1 & _ & P1 & _ & _ & U1 & V1) (b2 & l2 & m2 & E2 & _ & P2 & _ & _ & A2 & V2)];
    [vm_compute; split; discriminate|reflexivity|apply bytes_ok_b; vm_compute; reflexivity|reflexivity|apply bytes_ok_b; vm_compute; reflexivity|vm_compute; discriminate|apply bytes_ok_b; vm_compute; reflexivity|reflexivity|
     vm_compute; discriminate|apply bytes_ok_b; vm_compute; reflexivity|reflexivity| |].
  - split; [reflexivity|]. split; [apply bytes_ok_b; vm_compute; reflexivity|vm_compute; split; [discriminate|reflexivity]].
  - split; [exists b1, l1, m1|exists b2, l2, m2]; repeat split; assumption.
Defined.
