(* ===== verification/Conn.v ===== *)
(** * The punch ([core/src/conn.rs])

    Candidates in, checks out, a path or a typed failure. The arrays of
    optional entries are lists of the same length; a method that takes
    [&mut self] returns the new attempt, and one that writes a buffer returns
    the buffer. *)

From S2P Require Import Prelude F64 Crc32 Stun.

Definition CHECK_CADENCE_MS : f64 := f_of_Z 500.
Definition PUNCH_WINDOW_MS : f64 := f_of_Z 7500.
Definition PACING_MS : f64 := f_of_Z 10.
Definition MAX_CANDIDATES : nat := 16.
Definition MAX_PENDING : nat := 4.
Definition MAX_SERVERS : nat := 4.

Inductive Ttl := TtlDefault | TtlProbe.

#[export] Instance Ttl_eq_dec : EqDecision Ttl.
Proof. solve_decision. Defined.

Record Egress := mkEgress { eg_to : SocketAddr; eg_ttl : Ttl; eg_len : Z }.

Inductive Failure := ProbeTimeout | NoCandidates.

(** [conn::State]. *)
Inductive ConnState :=
  | Checking
  | Established (addr : SocketAddr)
  | Failed (failure : Failure).

(** [conn::Inbound]. *)
Inductive ConnInbound :=
  | CheckAnswered
  | PathEstablished (addr : SocketAddr)
  | Reflexive (addr : SocketAddr)
  | Redundant.

Record Credentials := mkCredentials {
  cr_local_ufrag : list Z;
  cr_local_pwd : list Z;
  cr_remote_ufrag : list Z;
  cr_remote_pwd : list Z;
}.

Record Candidate := mkCandidate {
  ca_addr : SocketAddr;
  ca_last_check_ms : option f64;
  ca_outstanding : option (list Z);
}.

#[export] Instance eta_Candidate : Eta Candidate := fun c => mkCandidate (ca_addr c) (ca_last_check_ms c) (ca_outstanding c).

Record Server := mkServer {
  sv_addr : SocketAddr;
  sv_last_probe_ms : option f64;
  sv_outstanding : option (list Z);
  sv_answered : bool;
  sv_mapped : option SocketAddr;
}.

#[export] Instance eta_Server : Eta Server := fun s =>
  mkServer (sv_addr s) (sv_last_probe_ms s) (sv_outstanding s) (sv_answered s) (sv_mapped s).

Record Conn := mkConn {
  cn_credentials : Credentials;
  cn_seed : list Z;
  cn_candidates : list (option Candidate);
  cn_servers : list (option Server);
  cn_pending : list (option (SocketAddr * list Z));
  cn_state : ConnState;
  cn_started_ms : f64;
  cn_last_sent_ms : option f64;
  cn_probe_sent : bool;
  cn_counter : Z;
}.

#[export] Instance eta_Conn : Eta Conn := fun c =>
  mkConn (cn_credentials c) (cn_seed c) (cn_candidates c) (cn_servers c) (cn_pending c) (cn_state c) (cn_started_ms c)
    (cn_last_sent_ms c) (cn_probe_sent c) (cn_counter c).

Definition conn_new (credentials : Credentials) (seed : list Z) (now_ms : f64) : Conn :=
  mkConn credentials seed (replicate MAX_CANDIDATES None) (replicate MAX_SERVERS None) (replicate MAX_PENDING None)
    Checking now_ms None false 0.

(** [iter().flatten()], and [find] over it: the first occupied slot that
    satisfies [p], with its index. *)
Definition flatten {A} (l : list (option A)) : list A := omap id l.

Fixpoint find_slot {A} (p : A -> bool) (l : list (option A)) : option (nat * A) :=
  match l with
  | [] => None
  | Some a :: l => if p a then Some (O, a) else (fun '(i, a) => (S i, a)) <$> find_slot p l
  | None :: l => (fun '(i, a) => (S i, a)) <$> find_slot p l
  end.

(** [iter_mut().find(|slot| slot.is_none())]. *)
Fixpoint free_slot {A} (l : list (option A)) : option nat :=
  match l with
  | [] => None
  | None :: _ => Some O
  | Some _ :: l => S <$> free_slot l
  end.

Definition reflexive (c : Conn) : list SocketAddr := omap sv_mapped (flatten (cn_servers c)).

(** [Conn::path]. *)
Definition conn_path (c : Conn) : option SocketAddr :=
  match cn_state c with Established addr => Some addr | _ => None end.

Definition is_checking (c : Conn) : bool := match cn_state c with Checking => true | _ => false end.

Definition add_candidate (c : Conn) (addr : SocketAddr) : Conn * result unit :=
  let addr := canonical addr in
  if existsb (fun x => bool_decide (ca_addr x = addr)) (flatten (cn_candidates c)) then (c, Ok tt) else
  match free_slot (cn_candidates c) with
  | None => (c, Err Oversized)
  | Some i => (c <| cn_candidates := <[i := Some (mkCandidate addr None None)]> (cn_candidates c) |>, Ok tt)
  end.

Definition candidate_count (c : Conn) : Z := zlen (flatten (cn_candidates c)).

Definition add_server (c : Conn) (addr : SocketAddr) : Conn * result unit :=
  let addr := canonical addr in
  if existsb (fun x => bool_decide (sv_addr x = addr)) (flatten (cn_servers c)) then (c, Ok tt) else
  match free_slot (cn_servers c) with
  | None => (c, Err Oversized)
  | Some i => (c <| cn_servers := <[i := Some (mkServer addr None None false None)]> (cn_servers c) |>, Ok tt)
  end.

Definition queue_response (c : Conn) (to : SocketAddr) (tid : list Z) : Conn * result unit :=
  match free_slot (cn_pending c) with
  | None => (c, Err Oversized)
  | Some i => (c <| cn_pending := <[i := Some (to, tid)]> (cn_pending c) |>, Ok tt)
  end.

(** [Conn::poll]. *)
Definition conn_poll (c : Conn) (now_ms : f64) : Conn :=
  if negb (is_checking c) then c else
  if (now_ms - cn_started_ms c >=? PUNCH_WINDOW_MS)%f64
  then c <| cn_state := Failed (if candidate_count c =? 0 then NoCandidates else ProbeTimeout) |> else c.

Definition pace_wait (c : Conn) (now_ms : f64) : f64 :=
  match cn_last_sent_ms c with
  | Some last => f_max (last + PACING_MS - now_ms)%f64 f_zero
  | None => f_zero
  end.

(** The wait of one candidate or server in [next_timer_ms]. *)
Definition due_in (last : option f64) (now_ms : f64) : f64 :=
  match last with Some last => f_max (last + CHECK_CADENCE_MS - now_ms)%f64 f_zero | None => f_zero end.

(** [Conn::next_timer_ms]. *)
Definition conn_next_timer_ms (c : Conn) (now_ms : f64) : f64 :=
  if negb (is_checking c) then f_inf else
  let soonest := f_max (cn_started_ms c + PUNCH_WINDOW_MS - now_ms)%f64 f_zero in
  let soonest := match flatten (cn_pending c) with [] => soonest | _ => f_min soonest (pace_wait c now_ms) end in
  let wait soonest last := f_min soonest (f_max (due_in last now_ms) (pace_wait c now_ms)) in
  let soonest := fold_left (fun soonest x => wait soonest (ca_last_check_ms x)) (flatten (cn_candidates c)) soonest in
  fold_left (fun soonest s => if sv_answered s then soonest else wait soonest (sv_last_probe_ms s)) (flatten (cn_servers c)) soonest.

(** The readiness test of candidates and servers. *)
Definition cadence_due (last : option f64) (now_ms : f64) : bool :=
  match last with Some last => (now_ms - last >=? CHECK_CADENCE_MS)%f64 | None => true end.

Section punch.
Context `{HS : Hashes}.

Definition next_transaction_id (c : Conn) : Conn * list Z :=
  let counter := cn_counter c in
  (c <| cn_counter := wrapping_add32 counter 1 |>, take 12 (sha1 (cn_seed c ++ be_bytes 4 counter))).

Definition tiebreaker (c : Conn) : list Z := take 8 (cn_seed c).

Definition emit_check (c : Conn) (to : SocketAddr) (ttl : Ttl) (now_ms : f64) (out : list Z) : Conn * list Z * result Egress :=
  let '(c, tid) := next_transaction_id c in
  match encode_binding_request out tid (cr_local_ufrag (cn_credentials c)) (cr_remote_ufrag (cn_credentials c))
          (tiebreaker c) (cr_remote_pwd (cn_credentials c)) with
  | (out, Err e) => (c, out, Err e)
  | (out, Ok len) =>
      let c := match find_slot (fun x => bool_decide (ca_addr x = to)) (cn_candidates c) with
               | Some (i, x) => c <| cn_candidates := <[i := Some (x <| ca_outstanding := Some tid |>)]> (cn_candidates c) |>
               | None => c
               end in
      (c <| cn_last_sent_ms := Some now_ms |>, out, Ok (mkEgress to ttl len))
  end.

Definition emit_reflexive (c : Conn) (index : nat) (to : SocketAddr) (now_ms : f64) (out : list Z) : Conn * list Z * result Egress :=
  let '(c, tid) := next_transaction_id c in
  match encode_reflexive_request out tid with
  | (out, Err e) => (c, out, Err e)
  | (out, Ok len) =>
      let c := match cn_servers c !! index with
               | Some (Some s) =>
                   c <| cn_servers := <[index := Some (s <| sv_last_probe_ms := Some now_ms |> <| sv_outstanding := Some tid |>)]> (cn_servers c) |>
               | _ => c
               end in
      (c <| cn_last_sent_ms := Some now_ms |>, out, Ok (mkEgress to TtlDefault len))
  end.

Definition emit_response (c : Conn) (to : SocketAddr) (tid : list Z) (now_ms : f64) (out : list Z) : Conn * list Z * result Egress :=
  match encode_binding_response out tid to (cr_local_pwd (cn_credentials c)) with
  | (out, Err e) => (c, out, Err e)
  | (out, Ok len) => (c <| cn_last_sent_ms := Some now_ms |>, out, Ok (mkEgress to TtlDefault len))
  end.

(** The last part of [get_output]: the first server due, else the first
    candidate due. *)
Definition emit_due (c : Conn) (now_ms : f64) (out : list Z) : Conn * list Z * option (result Egress) :=
  match find_slot (fun s => negb (sv_answered s) && cadence_due (sv_last_probe_ms s) now_ms) (cn_servers c) with
  | Some (index, s) => let '(c, out, r) := emit_reflexive c index (sv_addr s) now_ms out in (c, out, Some r)
  | None =>
      match find_slot (fun x => cadence_due (ca_last_check_ms x) now_ms) (cn_candidates c) with
      | None => (c, out, None)
      | Some (index, x) =>
          let '(c, out, r) := emit_check c (ca_addr x) TtlDefault now_ms out in
          let c := match r, cn_candidates c !! index with
                   | Ok _, Some (Some x) => c <| cn_candidates := <[index := Some (x <| ca_last_check_ms := Some now_ms |>)]> (cn_candidates c) |>
                   | _, _ => c
                   end in
          (c, out, Some r)
      end
  end.

(** [Conn::get_output]. *)
Definition conn_get_output (c : Conn) (now_ms : f64) (out : list Z) : Conn * list Z * option (result Egress) :=
  if (pace_wait c now_ms >? f_zero)%f64 then (c, out, None) else
  match find_slot (fun _ => true) (cn_pending c) with
  | Some (i, (to, tid)) =>
      let c := c <| cn_pending := <[i := None]> (cn_pending c) |> in
      let '(c, out, r) := emit_response c to tid now_ms out in (c, out, Some r)
  | None =>
      if negb (is_checking c) then (c, out, None) else
      match cn_probe_sent c, flatten (cn_candidates c) with
      | false, x :: _ =>
          let c := c <| cn_probe_sent := true |> in
          let '(c, out, r) := emit_check c (ca_addr x) TtlProbe now_ms out in (c, out, Some r)
      | _, _ => emit_due c now_ms out
      end
  end.

(** The two arms of [process_input]. *)
Definition on_request (c : Conn) (m : StunMessage) (from : SocketAddr) : Conn * result ConnInbound :=
  if negb (verify m (cr_local_pwd (cn_credentials c))) then (c, Err Decrypt) else
  let c := (add_candidate c from).1 in
  match queue_response c from (sm_tid m) with
  | (c, Ok _) => (c, Ok CheckAnswered)
  | (c, Err e) => (c, Err e)
  end.

Definition on_success (c : Conn) (m : StunMessage) (from : SocketAddr) : Conn * result ConnInbound :=
  let tid := sm_tid m in
  match find_slot (fun s => bool_decide (sv_outstanding s = Some tid) && bool_decide (sv_addr s = from)) (cn_servers c) with
  | Some (i, s) =>
      let s := s <| sv_outstanding := None |> <| sv_answered := true |> in
      match mapped_address m with
      | Some mapped => (c <| cn_servers := <[i := Some (s <| sv_mapped := Some mapped |>)]> (cn_servers c) |>, Ok (Reflexive mapped))
      | None => (c <| cn_servers := <[i := Some s]> (cn_servers c) |>, Err Malformed)
      end
  | None =>
      if negb (verify m (cr_remote_pwd (cn_credentials c))) then (c, Err Decrypt) else
      match find_slot (fun x => bool_decide (ca_outstanding x = Some tid)) (cn_candidates c) with
      | None => (c, Ok Redundant)
      | Some (i, x) =>
          let c := c <| cn_candidates := <[i := Some (x <| ca_outstanding := None |>)]> (cn_candidates c) |> in
          if is_checking c
          then (c <| cn_state := Established (ca_addr x) |>, Ok (PathEstablished (ca_addr x)))
          else (c, Ok Redundant)
      end
  end.

(** [Conn::process_input]. *)
Definition conn_process_input (c : Conn) (datagram : list Z) (from : SocketAddr) : Conn * result ConnInbound :=
  let from := canonical from in
  match stun_parse datagram with
  | Err e => (c, Err e)
  | Ok m =>
      match sm_method m with
      | BindingRequest => on_request c m from
      | BindingSuccess => on_success c m from
      end
  end.

(** ** Runs

    The calls a shell makes, and the log they leave: what was offered, what
    arrived and from where, and what was sent, with the bytes of the buffer. *)

Inductive conn_op :=
  | CAddCandidate (addr : SocketAddr)
  | CAddServer (addr : SocketAddr)
  | CInput (datagram : list Z) (from : SocketAddr)
  | CPoll (now_ms : f64)
  | COutput (now_ms : f64) (out : list Z).

Inductive conn_event :=
  | Offered (addr : SocketAddr)
  | Received (datagram : list Z) (from : SocketAddr)
  | Sent (to : SocketAddr) (ttl : Ttl) (bytes : list Z).

Definition sent_event (out : list Z) (r : option (result Egress)) : list conn_event :=
  match r with
  | Some (Ok e) => [Sent (eg_to e) (eg_ttl e) (take (Z.to_nat (eg_len e)) out)]
  | _ => []
  end.

Definition conn_step (c : Conn) (op : conn_op) : Conn * list conn_event :=
  match op with
  | CAddCandidate addr => ((add_candidate c addr).1, [Offered addr])
  | CAddServer addr => ((add_server c addr).1, [Offered addr])
  | CInput datagram from => ((conn_process_input c datagram from).1, [Received datagram from])
  | CPoll now_ms => (conn_poll c now_ms, [])
  | COutput now_ms out => let '(c, out, r) := conn_get_output c now_ms out in (c, sent_event out r)
  end.

Fixpoint conn_run (c : Conn) (ops : list conn_op) : Conn * list conn_event :=
  match ops with
  | [] => (c, [])
  | op :: ops => let '(c, e) := conn_step c op in let '(c, es) := conn_run c ops in (c, e ++ es)
  end.

(** What the types of the arguments guarantee. *)
Definition conn_op_ok (op : conn_op) : Prop :=
  match op with
  | CAddCandidate addr | CAddServer addr => addr_ok addr
  | CInput datagram from => bytes_ok datagram /\ addr_ok from
  | CPoll _ => True
  | COutput _ out => zlen out <= U64_MAX
  end.

Definition credentials_ok (cr : Credentials) : Prop := bytes_ok (cr_local_ufrag cr) /\ bytes_ok (cr_remote_ufrag cr).
Definition seed_ok (seed : list Z) : Prop := zlen seed = 16 /\ bytes_ok seed.

(** ** Slots *)

Lemma find_slot_some {A} (p : A -> bool) l i a : find_slot p l = Some (i, a) -> l !! i = Some (Some a) /\ p a = true.
Proof.
  revert i. induction l as [|[b|] l IH]; intros i; cbn [find_slot]; [done|destruct (p b) eqn:E|].
  - intros [= <- <-]. done.
  - destruct (find_slot p l) as [[j a']|]; [|done]. intros [= <- <-]. by apply IH.
  - destruct (find_slot p l) as [[j a']|]; [|done]. intros [= <- <-]. by apply IH.
Qed.

Lemma find_slot_in {A} (p : A -> bool) l i a : find_slot p l = Some (i, a) -> Some a ∈ l.
Proof. intros [H _]%find_slot_some. by apply list_elem_of_lookup_2 in H. Qed.

Lemma elem_of_slot_insert {A} (x : A) (i : nat) (o : option A) (l : list (option A)) : Some x ∈ <[i := o]> l -> o = Some x \/ Some x ∈ l.
Proof.
  intros [j Hj]%list_elem_of_lookup_1. apply list_lookup_insert_Some in Hj as [(_ & <- & _)|(_ & Hj)]; [by left|right].
  by apply list_elem_of_lookup_2 in Hj.
Qed.

Lemma elem_of_flatten {A} (x : A) (l : list (option A)) : x ∈ flatten l <-> Some x ∈ l.
Proof.
  unfold flatten. rewrite list_elem_of_omap. split; [intros (o & Ho & E); cbn in E; by subst o|]. intros H. by exists (Some x).
Qed.

Lemma none_in_replicate {A} n (x : A) : ~ Some x ∈ replicate n (@None A).
Proof. intros [? _]%elem_of_replicate. done. Qed.

(** ** What the log proves *)

Section log.
Context (cr : Credentials) (seed : list Z).

(** [req] is a check of ours, with this transaction. *)
Definition is_check (req tid : list Z) : Prop :=
  exists m, stun_parse req = Ok m /\ sm_method m = BindingRequest /\ sm_tid m = tid /\ verify m (cr_remote_pwd cr) = true.

(** A check authentic under our password arrived from [to]. *)
Definition checked_by (log : list conn_event) (to : SocketAddr) (tid : list Z) : Prop :=
  exists d from m, Received d from ∈ log /\ canonical from = to /\ stun_parse d = Ok m /\ sm_method m = BindingRequest /\ sm_tid m = tid /\
    verify m (cr_local_pwd cr) = true.

(** The address was offered by the application or proved by such a check. *)
Definition known (log : list conn_event) (a : SocketAddr) : Prop :=
  (exists b, Offered b ∈ log /\ canonical b = a) \/ exists tid, checked_by log a tid.

(** A check sent to [a], and after it an answer to that very check,
    authentic under the peer's password. *)
Definition answered (log : list conn_event) (a : SocketAddr) : Prop :=
  exists l1 ttl req l2 d from l3 m,
    log = l1 ++ Sent a ttl req :: l2 ++ Received d from :: l3 /\ is_check req (sm_tid m) /\
    stun_parse d = Ok m /\ sm_method m = BindingSuccess /\ verify m (cr_remote_pwd cr) = true.

(** A datagram may go to a known address; an answer only to the source of the
    check it answers, and never at the probe's TTL. *)
Definition legit (log : list conn_event) (to : SocketAddr) (ttl : Ttl) (bytes : list Z) : Prop :=
  known log to /\
  exists m, stun_parse bytes = Ok m /\
    (sm_method m = BindingSuccess -> ttl = TtlDefault /\ checked_by log to (sm_tid m) /\ verify m (cr_local_pwd cr) = true).

Definition is_probe (e : conn_event) : bool := match e with Sent _ TtlProbe _ => true | _ => false end.
Definition probes (log : list conn_event) : nat := length (List.filter is_probe log).

Record ConnInv (c : Conn) (log : list conn_event) : Prop := {
  ci_credentials : cn_credentials c = cr;
  ci_seed : cn_seed c = seed;
  ci_candidates x : Some x ∈ cn_candidates c -> known log (ca_addr x);
  ci_outstanding x tid : Some x ∈ cn_candidates c -> ca_outstanding x = Some tid ->
    exists ttl req, Sent (ca_addr x) ttl req ∈ log /\ is_check req tid;
  ci_servers s : Some s ∈ cn_servers c -> known log (sv_addr s);
  ci_pending to tid : Some (to, tid) ∈ cn_pending c -> checked_by log to tid;
  ci_state a : cn_state c = Established a -> answered log a;
  ci_probes : (probes log <= if cn_probe_sent c then 1 else 0)%nat;
  ci_sent l1 to ttl bytes l2 : log = l1 ++ Sent to ttl bytes :: l2 -> legit l1 to ttl bytes;
  ci_known a : known log a -> addr_ok a;
  ci_checked to tid : checked_by log to tid -> zlen tid = 12 /\ bytes_ok tid;
}.

Lemma checked_by_app log e to tid : checked_by log to tid -> checked_by (log ++ e) to tid.
Proof. intros (d & from & m & Hin & H). exists d, from, m. split; [apply elem_of_app; by left|done]. Qed.

Lemma known_app log e a : known log a -> known (log ++ e) a.
Proof.
  intros [(b & Hin & E)|(tid & H)]; [left; exists b; split; [apply elem_of_app; by left|done]|right; exists tid; by apply checked_by_app].
Qed.

Lemma answered_app log e a : answered log a -> answered (log ++ e) a.
Proof.
  intros (l1 & ttl & req & l2 & d & from & l3 & m & -> & H). exists l1, ttl, req, l2, d, from, (l3 ++ e), m. split; [|done].
  by rewrite <- !app_assoc; cbn; rewrite <- !app_assoc.
Qed.

Lemma legit_app log e to ttl bytes : legit log to ttl bytes -> legit (log ++ e) to ttl bytes.
Proof.
  intros (Hk & m & Hp & H). split; [by apply known_app|]. exists m. split; [done|]. intros Hm. destruct (H Hm) as (? & ? & ?).
  split; [done|]. split; [by apply checked_by_app|done].
Qed.

(** What an event adds: an address in the type's range, a well-formed
    datagram, or a datagram that was allowed to leave. *)
Definition event_ok (log : list conn_event) (e : conn_event) : Prop :=
  match e with
  | Offered a => addr_ok a
  | Received d from => bytes_ok d /\ addr_ok from
  | Sent to ttl bytes => legit log to ttl bytes
  end.

Lemma checked_by_snoc log e to tid :
  checked_by (log ++ [e]) to tid -> checked_by log to tid \/ exists d from, e = Received d from /\ checked_by [e] to tid.
Proof.
  intros (d & from & m & Hin & H). apply elem_of_app in Hin as [Hin|Hin].
  - left. by exists d, from, m.
  - right. apply list_elem_of_singleton in Hin. subst e. exists d, from. split; [done|]. exists d, from, m. split; [apply list_elem_of_here|done].
Qed.

Lemma checked_by_tid d from to tid : bytes_ok d -> checked_by [Received d from] to tid -> zlen tid = 12 /\ bytes_ok tid.
Proof.
  intros Hb (d' & f' & m & Hin & _ & Hp & _ & <- & _). apply list_elem_of_singleton in Hin. injection Hin as -> ->.
  destruct (stun_parse_inv d m Hb Hp) as (_ & _ & H1 & H2 & _). done.
Qed.

Lemma list_rev_case {A} (l : list A) : l = [] \/ exists l' x, l = l' ++ [x].
Proof. destruct l as [|x l' _] using rev_ind; [by left|right; by exists l', x]. Qed.

Lemma inv_event c log e :
  ConnInv c log -> event_ok log e -> (is_probe e = false \/ probes log = 0%nat /\ cn_probe_sent c = true) -> ConnInv c (log ++ [e]).
Proof.
  intros [] He Hpr. constructor; try done.
  - intros x Hx. by apply known_app, ci_candidates0.
  - intros x tid Hx Ho. destruct (ci_outstanding0 x tid Hx Ho) as (ttl & req & Hin & Hc). exists ttl, req. split; [apply elem_of_app; by left|done].
  - intros x Hx. by apply known_app, ci_servers0.
  - intros to tid Hx. by apply checked_by_app, ci_pending0.
  - intros a Ha. by apply answered_app, ci_state0.
  - unfold probes in *. rewrite filter_app, length_app. destruct Hpr as [Hn|[Hn Hs]].
    + cbn. rewrite Hn. cbn. lia.
    + rewrite Hn, Hs. cbn. destruct (is_probe e); cbn; lia.
  - intros l1 to ttl bytes l2 E. destruct (list_rev_case l2) as [->|(l2' & x & ->)].
    + apply app_inj_tail in E as [-> ->]. exact He.
    + change (Sent to ttl bytes :: l2' ++ [x]) with ((Sent to ttl bytes :: l2') ++ [x]) in E. rewrite app_assoc in E. apply app_inj_tail in E as [-> _].
      by apply (ci_sent0 l1 to ttl bytes l2').
  - intros a [(b & Hin & <-)|(tid & Hck)].
    + apply elem_of_app in Hin as [Hin|Hin]; [apply ci_known0; left; eauto|]. apply list_elem_of_singleton in Hin. subst e. by apply canonical_ok.
    + apply checked_by_snoc in Hck as [Hck|(d & from & -> & Hck)]; [apply ci_known0; right; eauto|].
      destruct Hck as (d' & f' & m & Hin & <- & _). apply list_elem_of_singleton in Hin. injection Hin as -> ->. apply canonical_ok, He.
  - intros to tid Hck. apply checked_by_snoc in Hck as [Hck|(d & from & -> & Hck)]; [by apply (ci_checked0 to)|]. destruct He. by apply (checked_by_tid d from to).
Qed.

(** Changing one table at a time. *)
Lemma inv_candidates c log l :
  ConnInv c log -> (forall x, Some x ∈ l -> known log (ca_addr x)) ->
  (forall x tid, Some x ∈ l -> ca_outstanding x = Some tid -> exists ttl req, Sent (ca_addr x) ttl req ∈ log /\ is_check req tid) ->
  ConnInv (c <| cn_candidates := l |>) log.
Proof. intros [] H1 H2. by constructor. Qed.

Lemma inv_servers c log l : ConnInv c log -> (forall s, Some s ∈ l -> known log (sv_addr s)) -> ConnInv (c <| cn_servers := l |>) log.
Proof. intros [] H. by constructor. Qed.

Lemma inv_pending c log l :
  ConnInv c log -> (forall to tid, Some (to, tid) ∈ l -> checked_by log to tid) -> ConnInv (c <| cn_pending := l |>) log.
Proof. intros [] H. by constructor. Qed.

Lemma inv_state c log st : ConnInv c log -> (forall a, st = Established a -> answered log a) -> ConnInv (c <| cn_state := st |>) log.
Proof. intros [] H. by constructor. Qed.

Lemma inv_counter c log n : ConnInv c log -> ConnInv (c <| cn_counter := n |>) log.
Proof. intros []. by constructor. Qed.

Lemma inv_last_sent c log t : ConnInv c log -> ConnInv (c <| cn_last_sent_ms := t |>) log.
Proof. intros []. by constructor. Qed.

Lemma inv_probe c log : ConnInv c log -> ConnInv (c <| cn_probe_sent := true |>) log.
Proof. intros []. constructor; try done. cbn. destruct (cn_probe_sent c); lia. Qed.

Lemma inv_new now_ms : ConnInv (conn_new cr seed now_ms) [].
Proof.
  constructor; try done; unfold conn_new; cbn [cn_candidates cn_servers cn_pending].
  1-4: intros; exfalso; eapply none_in_replicate; eassumption.
  - intros l1 to ttl bytes l2 H. by destruct l1.
  - intros a [(b & H & _)|(tid & d & from & m & H & _)]; by apply elem_of_nil in H.
  - intros to tid (d & from & m & H & _). by apply elem_of_nil in H.
Qed.

(** An offered or proved address joins the table without a transaction. *)
Lemma inv_add_candidate c log a : ConnInv c log -> known log (canonical a) -> ConnInv (add_candidate c a).1 log.
Proof.
  intros Hinv Hk. unfold add_candidate. destruct (existsb _ _); [done|]. destruct (free_slot _) as [i|]; [|done]. cbn [fst].
  apply inv_candidates; [done|..].
  - intros x [[= <-]|Hx]%elem_of_slot_insert; [done|by apply (ci_candidates _ _ Hinv)].
  - intros x tid [[= <-]|Hx]%elem_of_slot_insert; [done|by apply (ci_outstanding _ _ Hinv)].
Qed.

Lemma inv_add_server c log a : ConnInv c log -> known log (canonical a) -> ConnInv (add_server c a).1 log.
Proof.
  intros Hinv Hk. unfold add_server. destruct (existsb _ _); [done|]. destruct (free_slot _) as [i|]; [|done]. cbn [fst].
  apply inv_servers; [done|]. intros x [[= <-]|Hx]%elem_of_slot_insert; [done|by apply (ci_servers _ _ Hinv)].
Qed.

Lemma inv_on_request c log m d from :
  ConnInv c log -> Received d from ∈ log -> stun_parse d = Ok m -> sm_method m = BindingRequest -> ConnInv (on_request c m (canonical from)).1 log.
Proof.
  intros Hinv Hin Hp Hm. unfold on_request. rewrite (ci_credentials _ _ Hinv). destruct (verify m (cr_local_pwd cr)) eqn:Hv; [|done]. cbn [negb].
  assert (Hck : checked_by log (canonical from) (sm_tid m)) by (exists d, from, m; done).
  pose proof (inv_add_candidate c log (canonical from) Hinv) as Hadd. rewrite canonical_twice in Hadd. specialize (Hadd (or_intror (ex_intro _ _ Hck))).
  unfold queue_response. destruct (free_slot _) as [i|]; [|done]. cbn [fst]. apply inv_pending; [done|].
  intros to tid [[= <- <-]|Hx]%elem_of_slot_insert; [done|by apply (ci_pending _ _ Hadd)].
Qed.

Lemma inv_on_success c log m d from :
  ConnInv c log -> stun_parse d = Ok m -> sm_method m = BindingSuccess -> bytes_ok d -> addr_ok from ->
  ConnInv (on_success c m (canonical from)).1 (log ++ [Received d from]).
Proof.
  intros Hinv0 Hp Hm Hd Hf. assert (Hinv : ConnInv c (log ++ [Received d from])) by (apply inv_event; [done|done|by left]).
  unfold on_success. destruct (find_slot _ (cn_servers c)) as [[i s]|] eqn:Hs.
  - apply find_slot_in in Hs. pose proof (ci_servers _ _ Hinv s Hs) as Hk.
    destruct (mapped_address m); cbn [fst]; (apply inv_servers; [done|]; intros x [[= <-]|Hx]%elem_of_slot_insert; [done|by apply (ci_servers _ _ Hinv)]).
  - rewrite (ci_credentials _ _ Hinv). destruct (verify m (cr_remote_pwd cr)) eqn:Hv; [|done]. cbn [negb].
    destruct (find_slot _ (cn_candidates c)) as [[i x]|] eqn:Hc; [|done]. apply find_slot_some in Hc as [Hi Ho%bool_decide_eq_true]. apply list_elem_of_lookup_2 in Hi.
    assert (Hinv' : ConnInv (c <| cn_candidates := <[i := Some (x <| ca_outstanding := None |>)]> (cn_candidates c) |>) (log ++ [Received d from])).
    { apply inv_candidates; [done|..].
      - intros y [[= <-]|Hy]%elem_of_slot_insert; [by apply (ci_candidates _ _ Hinv x)|by apply (ci_candidates _ _ Hinv)].
      - intros y tid [[= <-]|Hy]%elem_of_slot_insert; [done|by apply (ci_outstanding _ _ Hinv)]. }
    destruct (is_checking _); [|done]. cbn [fst]. apply inv_state; [done|]. intros a [= <-].
    destruct (ci_outstanding _ _ Hinv0 x _ Hi Ho) as (ttl & req & Hin & Hck). apply list_elem_of_split in Hin as (l1 & l2 & ->).
    exists l1, ttl, req, l2, d, from, [], m. by rewrite <- app_assoc.
Qed.

Context `{!HashLaws HS} (Hcr : credentials_ok cr) (Hseed : seed_ok seed).

Lemma tid_ok counter : let tid := take 12 (sha1 (seed ++ be_bytes 4 counter)) in zlen tid = 12 /\ bytes_ok tid.
Proof. cbv zeta. split; [rewrite zlen_take, sha1_length; done|apply Forall_take, sha1_bytes]. Qed.

Lemma inv_emit_check c log to ttl now_ms out c' out' r :
  ConnInv c log -> zlen out <= U64_MAX -> known log to -> (ttl = TtlProbe -> probes log = 0%nat /\ cn_probe_sent c = true) ->
  emit_check c to ttl now_ms out = (c', out', r) -> ConnInv c' (log ++ sent_event out' (Some r)).
Proof.
  intros Hinv Hout Hto Hpr. unfold emit_check, next_transaction_id. cbn [cn_credentials cn_seed tiebreaker].
  pose proof (tid_ok (cn_counter c)) as [Ht Bt]. rewrite (ci_seed _ _ Hinv). set (tid := take 12 _) in *.
  set (c1 := c <| cn_counter := _ |>). assert (H1 : ConnInv c1 log) by by apply inv_counter. rewrite (ci_credentials _ _ H1).
  assert (Htb : zlen (tiebreaker c1) = 8 /\ bytes_ok (tiebreaker c1)).
  { unfold tiebreaker. rewrite (ci_seed _ _ H1). destruct Hseed as [Hs Bs]. split; [rewrite zlen_take; lia|by apply Forall_take]. }
  destruct (encode_binding_request _ _ _ _ _ _) as [out1 [len|e]] eqn:He.
  2:{ intros [[<- <-]%pair_equal_spec <-]%pair_equal_spec. cbn [sent_event]. by rewrite app_nil_r. }
  destruct Hcr as [Bl Br]. destruct Htb as [Lt Bb].
  destruct (encode_binding_request_ok _ _ _ _ _ _ _ _ Hout Ht Bt Lt Bb Bl Br He) as (m & Hp & _ & Hme & Htid & Hv).
  intros [[<- <-]%pair_equal_spec <-]%pair_equal_spec. cbn [sent_event eg_to eg_ttl eg_len]. apply inv_last_sent. set (ev := Sent to ttl _).
  assert (H2 : ConnInv c1 (log ++ [ev])).
  { apply inv_event; [done| |destruct ttl; [by left|by right; apply Hpr]]. split; [done|]. exists m. split; [done|]. by rewrite Hme. }
  destruct (find_slot _ _) as [[i x]|] eqn:Hc; [|done]. apply find_slot_some in Hc as [Hi Ha%bool_decide_eq_true]. apply list_elem_of_lookup_2 in Hi.
  apply inv_candidates; [done|..].
  - intros y [[= <-]|Hy]%elem_of_slot_insert; [by apply (ci_candidates _ _ H2 x)|by apply (ci_candidates _ _ H2)].
  - intros y t [[= <-]|Hy]%elem_of_slot_insert; [|by apply (ci_outstanding _ _ H2)]. cbn. intros [= <-]. rewrite Ha. exists ttl, (take (Z.to_nat len) out1).
    split; [apply elem_of_app; right; apply list_elem_of_here|]. by exists m.
Qed.

Lemma inv_emit_reflexive c log index to now_ms out c' out' r :
  ConnInv c log -> zlen out <= U64_MAX -> known log to ->
  emit_reflexive c index to now_ms out = (c', out', r) -> ConnInv c' (log ++ sent_event out' (Some r)).
Proof.
  intros Hinv Hout Hto. unfold emit_reflexive, next_transaction_id. pose proof (tid_ok (cn_counter c)) as [Ht _]. rewrite (ci_seed _ _ Hinv).
  set (tid := take 12 _) in *. set (c1 := c <| cn_counter := _ |>). assert (H1 : ConnInv c1 log) by by apply inv_counter.
  destruct (encode_reflexive_request out tid) as [out1 [len|e]] eqn:He.
  2:{ intros [[<- <-]%pair_equal_spec <-]%pair_equal_spec. cbn [sent_event]. by rewrite app_nil_r. }
  destruct (encode_reflexive_request_ok _ _ _ _ Hout Ht He) as (m & Hp & Hme & _).
  intros [[<- <-]%pair_equal_spec <-]%pair_equal_spec. cbn [sent_event eg_to eg_ttl eg_len]. apply inv_last_sent. set (ev := Sent to _ _).
  assert (H2 : ConnInv c1 (log ++ [ev])).
  { apply inv_event; [done| |by left]. split; [done|]. exists m. split; [done|]. by rewrite Hme. }
  destruct (cn_servers c1 !! index) as [[s|]|] eqn:Hs; [|done..]. apply list_elem_of_lookup_2 in Hs. apply inv_servers; [done|].
  intros y [[= <-]|Hy]%elem_of_slot_insert; [by apply (ci_servers _ _ H2 s)|by apply (ci_servers _ _ H2)].
Qed.

Lemma inv_emit_response c log to tid now_ms out c' out' r :
  ConnInv c log -> zlen out <= U64_MAX -> checked_by log to tid ->
  emit_response c to tid now_ms out = (c', out', r) -> ConnInv c' (log ++ sent_event out' (Some r)).
Proof.
  intros Hinv Hout Hck. unfold emit_response. rewrite (ci_credentials _ _ Hinv).
  destruct (encode_binding_response out tid to (cr_local_pwd cr)) as [out1 [len|e]] eqn:He.
  2:{ intros [[<- <-]%pair_equal_spec <-]%pair_equal_spec. cbn [sent_event]. by rewrite app_nil_r. }
  destruct (ci_checked _ _ Hinv to tid Hck) as [Ht Bt]. assert (Hk : known log to) by (right; by exists tid).
  destruct (encode_binding_response_ok _ _ _ _ _ _ Hout Ht Bt (ci_known _ _ Hinv to Hk) He) as (m & Hp & _ & Hme & Htid & _ & Hv).
  intros [[<- <-]%pair_equal_spec <-]%pair_equal_spec. cbn [sent_event eg_to eg_ttl eg_len]. apply inv_last_sent, inv_event; [done| |by left].
  split; [done|]. exists m. split; [done|]. intros _. by rewrite Htid.
Qed.

Lemma inv_emit_due c log now_ms out c' out' r :
  ConnInv c log -> zlen out <= U64_MAX -> emit_due c now_ms out = (c', out', r) -> ConnInv c' (log ++ sent_event out' r).
Proof.
  intros Hinv Hout. unfold emit_due. destruct (find_slot _ (cn_servers c)) as [[i s]|] eqn:Hs.
  - apply find_slot_in in Hs. destruct (emit_reflexive _ _ _ _ _) as [[c1 out1] r1] eqn:He. intros [[<- <-]%pair_equal_spec <-]%pair_equal_spec.
    by apply (inv_emit_reflexive _ _ _ _ _ _ _ _ _ Hinv Hout (ci_servers _ _ Hinv s Hs) He).
  - destruct (find_slot _ (cn_candidates c)) as [[i x]|] eqn:Hx; [|intros [[<- <-]%pair_equal_spec <-]%pair_equal_spec; cbn [sent_event]; by rewrite app_nil_r].
    apply find_slot_in in Hx. destruct (emit_check _ _ _ _ _) as [[c1 out1] r1] eqn:He. intros [[<- <-]%pair_equal_spec <-]%pair_equal_spec.
    assert (H1 : ConnInv c1 (log ++ sent_event out1 (Some r1))) by (by apply (inv_emit_check _ _ _ _ _ _ _ _ _ Hinv Hout (ci_candidates _ _ Hinv x Hx)) in He).
    destruct r1; [|done]. destruct (cn_candidates c1 !! i) as [[y|]|] eqn:Hy; [|done..]. apply list_elem_of_lookup_2 in Hy. apply inv_candidates; [done|..].
    + intros z [[= <-]|Hz]%elem_of_slot_insert; [by apply (ci_candidates _ _ H1 y)|by apply (ci_candidates _ _ H1)].
    + intros z t [[= <-]|Hz]%elem_of_slot_insert; [by apply (ci_outstanding _ _ H1 y)|by apply (ci_outstanding _ _ H1)].
Qed.

Lemma inv_step c log op c' e : ConnInv c log -> conn_op_ok op -> conn_step c op = (c', e) -> ConnInv c' (log ++ e).
Proof.
  intros Hinv Hop. destruct op as [a|a|d from|now_ms|now_ms out]; cbn [conn_step conn_op_ok] in *.
  - intros [<- <-]%pair_equal_spec. apply inv_add_candidate; [apply inv_event; [done|done|by left]|left; exists a; split; [apply elem_of_app; right; apply list_elem_of_here|done]].
  - intros [<- <-]%pair_equal_spec. apply inv_add_server; [apply inv_event; [done|done|by left]|left; exists a; split; [apply elem_of_app; right; apply list_elem_of_here|done]].
  - intros [<- <-]%pair_equal_spec. destruct Hop as [Bd Hf]. assert (H1 : ConnInv c (log ++ [Received d from])) by (apply inv_event; [done|done|by left]).
    unfold conn_process_input. destruct (stun_parse d) as [m|] eqn:Hp; [|done]. destruct (sm_method m) eqn:Hm.
    + apply (inv_on_request _ _ _ d); try done. apply elem_of_app; right; apply list_elem_of_here.
    + by apply inv_on_success.
  - intros [<- <-]%pair_equal_spec. rewrite app_nil_r. unfold conn_poll. destruct (is_checking c); [|done]. cbn [negb]. case_match; [|done]. by apply inv_state.
  - destruct (conn_get_output c now_ms out) as [[c1 out1] r] eqn:He. intros [<- <-]%pair_equal_spec. revert He. unfold conn_get_output.
    destruct (f_zero <? pace_wait c now_ms)%f64; [intros [[<- <-]%pair_equal_spec <-]%pair_equal_spec; cbn [sent_event]; by rewrite app_nil_r|].
    destruct (find_slot _ (cn_pending c)) as [[i [to tid]]|] eqn:Hpe.
    + apply find_slot_in in Hpe. destruct (emit_response _ _ _ _ _) as [[c2 out2] r2] eqn:He. intros [[<- <-]%pair_equal_spec <-]%pair_equal_spec.
      apply (inv_emit_response _ log) in He; [done| |done|by apply (ci_pending _ _ Hinv)].
      apply inv_pending; [done|]. intros to' tid' [?|Hx]%elem_of_slot_insert; [done|by apply (ci_pending _ _ Hinv)].
    + destruct (is_checking c); [|intros [[<- <-]%pair_equal_spec <-]%pair_equal_spec; cbn [sent_event]; by rewrite app_nil_r]. cbn [negb].
      pose proof (ci_probes _ _ Hinv) as Hpr. destruct (cn_probe_sent c) eqn:Eps; [by apply inv_emit_due|].
      destruct (flatten (cn_candidates c)) as [|x xs] eqn:Ef; [by apply inv_emit_due|].
      destruct (emit_check _ _ _ _ _) as [[c2 out2] r2] eqn:He. intros [[<- <-]%pair_equal_spec <-]%pair_equal_spec. apply (inv_emit_check _ log) in He; try done; [by apply inv_probe| |by intros _; split; [lia|]].
      apply (ci_candidates _ _ Hinv), elem_of_flatten. rewrite Ef. apply list_elem_of_here.
Qed.

Lemma inv_run ops : forall c log c' es, ConnInv c log -> Forall conn_op_ok ops -> conn_run c ops = (c', es) -> ConnInv c' (log ++ es).
Proof.
  induction ops as [|op ops IH]; intros c log c' es Hinv Hops; cbn [conn_run].
  - intros [<- <-]%pair_equal_spec. by rewrite app_nil_r.
  - inversion_clear Hops as [|?? Hop Hops']. destruct (conn_step c op) as [c1 e] eqn:Hs. destruct (conn_run c1 ops) as [c2 es2] eqn:Hr. intros [<- <-]%pair_equal_spec.
    rewrite app_assoc. apply (IH c1); [by apply (inv_step c _ op)|done|done].
Qed.

(** (C38) An attempt trusts only what it can prove. In every run of the calls,
    if there is a path then a check was sent to exactly that address and, after
    it, an answer to that same transaction came that authenticates under the
    peer's password: neither an unanswered candidate, nor a replayed, forged or
    unsolicited answer, becomes the path. Every datagram that left went to an
    address that, before it left, the application had offered or a check
    authentic under our password had come from; an answer goes only to the
    source of the check whose transaction it carries, signed with our
    password; and at most one datagram of the attempt leaves at the probe's
    TTL. *)
Theorem attempt_is_safe ops now_ms c log :
  Forall conn_op_ok ops -> conn_run (conn_new cr seed now_ms) ops = (c, log) ->
  (forall a, conn_path c = Some a -> answered log a) /\
  (forall l1 to ttl bytes l2, log = l1 ++ Sent to ttl bytes :: l2 -> legit l1 to ttl bytes) /\ (probes log <= 1)%nat.
Proof.
  intros Hops Hrun. pose proof (inv_run ops _ [] _ _ (inv_new now_ms) Hops Hrun) as Hinv. split; [|split; [apply (ci_sent _ _ Hinv)|]].
  - intros a Hpath. apply (ci_state _ _ Hinv). unfold conn_path in Hpath. destruct (cn_state c); congruence.
  - pose proof (ci_probes _ _ Hinv) as H. cbn [app] in H. destruct (cn_probe_sent c); lia.
Qed.

End log.

(** ** Verdicts are final *)

Lemma emit_check_state c to ttl now_ms out : cn_state (emit_check c to ttl now_ms out).1.1 = cn_state c.
Proof.
  unfold emit_check, next_transaction_id. destruct (encode_binding_request _ _ _ _ _ _) as [out1 [len|e]]; [|done]. cbn [fst]. by destruct (find_slot _ _) as [[i x]|].
Qed.

Lemma emit_reflexive_state c index to now_ms out : cn_state (emit_reflexive c index to now_ms out).1.1 = cn_state c.
Proof.
  unfold emit_reflexive, next_transaction_id. destruct (encode_reflexive_request _ _) as [out1 [len|e]]; [|done]. cbn [fst]. by destruct (cn_servers _ !! index) as [[s|]|].
Qed.

Lemma emit_response_state c to tid now_ms out : cn_state (emit_response c to tid now_ms out).1.1 = cn_state c.
Proof. unfold emit_response. by destruct (encode_binding_response _ _ _ _) as [out1 [len|e]]. Qed.

Lemma output_state c now_ms out : cn_state (conn_get_output c now_ms out).1.1 = cn_state c.
Proof.
  unfold conn_get_output, emit_due. destruct (f_zero <? _)%f64; [done|]. destruct (find_slot _ (cn_pending c)) as [[i [to tid]]|].
  { set (c1 := c <| cn_pending := _ |>). pose proof (emit_response_state c1 to tid now_ms out). by destruct (emit_response _ _ _ _ _) as [[]]. }
  destruct (is_checking c); [|done]. cbn [negb].
  assert (Hdue : cn_state (emit_due c now_ms out).1.1 = cn_state c).
  { unfold emit_due. destruct (find_slot _ (cn_servers c)) as [[i s]|].
    { pose proof (emit_reflexive_state c i (sv_addr s) now_ms out). by destruct (emit_reflexive _ _ _ _ _) as [[]]. }
    destruct (find_slot _ (cn_candidates c)) as [[i x]|]; [|done]. pose proof (emit_check_state c (ca_addr x) TtlDefault now_ms out).
    destruct (emit_check _ _ _ _ _) as [[c1 out1] r1]. cbn [fst] in *. destruct r1; [|done]. by destruct (cn_candidates c1 !! i) as [[y|]|]. }
  destruct (cn_probe_sent c); [exact Hdue|]. destruct (flatten _) as [|x xs]; [exact Hdue|].
  set (c1 := c <| cn_probe_sent := true |>). pose proof (emit_check_state c1 (ca_addr x) TtlProbe now_ms out). by destruct (emit_check _ _ _ _ _) as [[]].
Qed.

Lemma step_final c op : is_checking c = false -> cn_state (conn_step c op).1 = cn_state c.
Proof.
  intros Hc. destruct op as [a|a|d from|now_ms|now_ms out]; cbn [conn_step fst].
  - unfold add_candidate. destruct (existsb _ _); [done|]. by destruct (free_slot _).
  - unfold add_server. destruct (existsb _ _); [done|]. by destruct (free_slot _).
  - unfold conn_process_input. destruct (stun_parse d) as [m|]; [|done]. destruct (sm_method m).
    + unfold on_request. destruct (verify _ _); [|done]. cbn [negb]. unfold queue_response, add_candidate.
      destruct (existsb _ _); [by destruct (free_slot _)|]. destruct (free_slot (cn_candidates c)); by destruct (free_slot _).
    + unfold on_success. destruct (find_slot _ (cn_servers c)) as [[i s]|]; [by destruct (mapped_address m)|]. destruct (verify _ _); [|done]. cbn [negb].
      destruct (find_slot _ (cn_candidates c)) as [[i x]|]; [|done]. set (c1 := c <| cn_candidates := _ |>). assert (Hc1 : is_checking c1 = false) by done. by rewrite Hc1.
  - unfold conn_poll. by rewrite Hc.
  - pose proof (output_state c now_ms out). by destruct (conn_get_output c now_ms out) as [[]].
Qed.

(** The first answer wins and verdicts are final: once a path is chosen
    or the attempt has failed, no later call changes the outcome, and the
    window closes: housekeeping at or past the deadline leaves no attempt
    undecided. *)
Theorem verdict_is_final c ops now_ms :
  (is_checking c = false -> cn_state (conn_run c ops).1 = cn_state c) /\
  ((now_ms - cn_started_ms c >=? PUNCH_WINDOW_MS)%f64 = true -> is_checking (conn_run (conn_poll c now_ms) ops).1 = false).
Proof.
  assert (Hrun : forall c, is_checking c = false -> cn_state (conn_run c ops).1 = cn_state c).
  { clear c now_ms. induction ops as [|op ops' IH]; intros c Hc; cbn [conn_run]; [done|]. pose proof (step_final c op Hc) as Hs.
    destruct (conn_step c op) as [c1 e]. cbn [fst] in Hs. assert (Hc1 : is_checking c1 = false) by (unfold is_checking in *; by rewrite Hs).
    specialize (IH c1 Hc1). destruct (conn_run c1 ops'). cbn [fst] in *. congruence. }
  split; [apply Hrun|]. intros Hw. assert (Hp : is_checking (conn_poll c now_ms) = false).
  { unfold conn_poll. destruct (is_checking c) eqn:Hc; [|done]. cbn [negb]. by rewrite Hw. }
  unfold is_checking at 1. rewrite Hrun by done. exact Hp.
Qed.

(** ** One exchange of the punch *)

Lemma find_slot_none {A} (p : A -> bool) l : (forall x, Some x ∈ l -> p x = false) -> find_slot p l = None.
Proof.
  induction l as [|[a|] l IH]; intros H; cbn [find_slot]; [done|rewrite (H a) by apply list_elem_of_here|];
    (rewrite IH; [done|]; intros x Hx; apply H; by apply list_elem_of_further).
Qed.

Lemma find_slot_found {A} (p : A -> bool) l x : Some x ∈ l -> p x = true -> exists r, find_slot p l = Some r.
Proof.
  intros Hx Hp. induction l as [|o l IH]; [by apply elem_of_nil in Hx|]. apply elem_of_cons in Hx as [<-|Hx]; cbn [find_slot]; [rewrite Hp; eauto|].
  destruct (IH Hx) as [[i y] E]. destruct o as [z|]; [destruct (p z); [eauto|]|]; rewrite E; cbn; eauto.
Qed.

(** Making one entry match makes it the one found. *)
Lemma find_slot_insert {A} (p : A -> bool) l i (a a' : A) :
  l !! i = Some (Some a) -> (forall x, Some x ∈ l -> p x = false) -> p a' = true -> find_slot p (<[i := Some a']> l) = Some (i, a').
Proof.
  intros Hi Hl Ha. revert i Hi. induction l as [|o l IH]; intros i Hi; [done|]. destruct i as [|i]; cbn in Hi.
  - cbn. by rewrite Ha.
  - assert (Hl' : forall x, Some x ∈ l -> p x = false) by (intros x Hx; apply Hl; by apply list_elem_of_further). specialize (IH Hl' i Hi).
    change (<[S i := Some a']> (o :: l)) with (o :: <[i := Some a']> l).
    destruct o as [b|]; cbn [find_slot]; [rewrite (Hl b) by apply list_elem_of_here|]; by rewrite IH.
Qed.

(** An edit the predicate does not see moves nothing. *)
Lemma find_slot_edit {A} (p : A -> bool) l j (y y' : A) i x :
  l !! j = Some (Some y) -> p y' = p y -> find_slot p l = Some (i, x) -> exists x', find_slot p (<[j := Some y']> l) = Some (i, x') /\ (x' = x \/ x' = y' /\ x = y).
Proof.
  intros Hj Hp. revert i j Hj. induction l as [|o l IH]; intros i j Hj Hf; [done|]. destruct j as [|j]; cbn in Hj.
  - injection Hj as ->. cbn in Hf |- *. rewrite Hp. destruct (p y); [injection Hf as <- <-; eauto|]. destruct (find_slot p l) as [[k z]|]; [|done]. injection Hf as <- <-. eauto.
  - change (<[S j := Some y']> (o :: l)) with (o :: <[j := Some y']> l). destruct o as [b|]; cbn [find_slot] in Hf |- *.
    + destruct (p b); [injection Hf as <- <-; eauto|]. destruct (find_slot p l) as [[k z]|]; [|done]. injection Hf as <- <-.
      destruct (IH k j Hj eq_refl) as (x' & E & Hx). rewrite E. eauto.
    + destruct (find_slot p l) as [[k z]|]; [|done]. injection Hf as <- <-.
      destruct (IH k j Hj eq_refl) as (x' & E & Hx). rewrite E. eauto.
Qed.

Context `{!HashLaws HS}.

(** The transaction [tid] is outstanding at [to], and only there. *)
Definition awaits (c : Conn) (tid : list Z) (to : SocketAddr) : Prop :=
  exists i x, find_slot (fun x => bool_decide (ca_outstanding x = Some tid)) (cn_candidates c) = Some (i, x) /\ ca_addr x = to.

Definition fresh (c : Conn) (tid : list Z) : Prop := forall x, Some x ∈ cn_candidates c -> ca_outstanding x <> Some tid.

Lemma emit_check_awaits c x ttl now_ms out c' out' e :
  credentials_ok (cn_credentials c) -> seed_ok (cn_seed c) -> zlen out <= U64_MAX -> Some x ∈ cn_candidates c ->
  let tid := (next_transaction_id c).2 in fresh c tid ->
  emit_check c (ca_addr x) ttl now_ms out = (c', out', Ok e) ->
  eg_to e = ca_addr x /\ awaits c' tid (ca_addr x) /\ is_check (cn_credentials c) (take (Z.to_nat (eg_len e)) out') tid /\
  bytes_ok (take (Z.to_nat (eg_len e)) out') /\
  cn_credentials c' = cn_credentials c /\ cn_servers c' = cn_servers c /\ cn_state c' = cn_state c /\ length (cn_candidates c') = length (cn_candidates c).
Proof.
  intros [Bl Br] [Hs Bs] Hout Hx tid Hfresh. unfold emit_check. change (next_transaction_id c) with (c <| cn_counter := wrapping_add32 (cn_counter c) 1 |>, tid).
  cbv iota beta. set (c1 := c <| cn_counter := _ |>). pose proof (tid_ok (cn_seed c) (cn_counter c)) as [Ht Bt]. fold tid in Ht, Bt.
  assert (Htb : zlen (tiebreaker c1) = 8 /\ bytes_ok (tiebreaker c1)) by (split; [unfold tiebreaker; cbn; rewrite zlen_take; lia|by apply Forall_take]).
  destruct Htb as [Lt Bb]. destruct (encode_binding_request _ _ _ _ _ _) as [out1 [len|err]] eqn:He; [|by intros [[_ _]%pair_equal_spec ?]%pair_equal_spec].
  destruct (encode_binding_request_ok _ _ _ _ _ _ _ _ Hout Ht Bt Lt Bb Bl Br He) as (m & Hp & Bo & Hme & Htid & Hv).
  intros [[<- <-]%pair_equal_spec [= <-]]%pair_equal_spec. cbn [eg_to eg_len]. split; [done|].
  destruct (find_slot (fun y => bool_decide (ca_addr y = ca_addr x)) (cn_candidates c1)) as [[i y]|] eqn:Hf.
  2:{ exfalso. destruct (find_slot_found (fun y => bool_decide (ca_addr y = ca_addr x)) (cn_candidates c1) x) as [r Hr]; [done|by apply bool_decide_eq_true_2|congruence]. }
  apply find_slot_some in Hf as [Hi Ha%bool_decide_eq_true]. split; [|split; [by exists m|split; [done|]]].
  - exists i, (y <| ca_outstanding := Some tid |>). split; [|done]. apply (find_slot_insert _ _ _ y); [done| |by apply bool_decide_eq_true_2].
    intros z Hz. apply bool_decide_eq_false_2. by apply Hfresh.
  - split; [done|]. split; [done|]. split; [done|]. cbn. by rewrite length_insert.
Qed.

(** What [get_output] does when the next datagram is a check. *)
Lemma output_check c now_ms out c' out' e :
  credentials_ok (cn_credentials c) -> seed_ok (cn_seed c) -> zlen out <= U64_MAX ->
  let tid := (next_transaction_id c).2 in fresh c tid ->
  is_checking c = true -> flatten (cn_pending c) = [] -> (forall s, Some s ∈ cn_servers c -> sv_answered s = true) ->
  conn_get_output c now_ms out = (c', out', Some (Ok e)) ->
  awaits c' tid (eg_to e) /\ is_check (cn_credentials c) (take (Z.to_nat (eg_len e)) out') tid /\ bytes_ok (take (Z.to_nat (eg_len e)) out') /\
  cn_credentials c' = cn_credentials c /\ cn_servers c' = cn_servers c /\ is_checking c' = true.
Proof.
  intros Hcr Hs Hout tid Hfresh Hck Hpend Hserv. unfold conn_get_output. destruct (f_zero <? _)%f64; [done|].
  assert (find_slot (fun _ => true) (cn_pending c) = None) as -> by (apply find_slot_none; intros x Hx; exfalso; apply elem_of_flatten in Hx; rewrite Hpend in Hx; by apply elem_of_nil in Hx).
  rewrite Hck. cbn [negb].
  assert (Hdue : emit_due c now_ms out = (c', out', Some (Ok e)) -> awaits c' tid (eg_to e) /\ is_check (cn_credentials c) (take (Z.to_nat (eg_len e)) out') tid /\ bytes_ok (take (Z.to_nat (eg_len e)) out') /\
    cn_credentials c' = cn_credentials c /\ cn_servers c' = cn_servers c /\ is_checking c' = true).
  { unfold emit_due. rewrite (find_slot_none _ (cn_servers c)) by (intros s Hin; by rewrite (Hserv s Hin)).
    destruct (find_slot _ (cn_candidates c)) as [[i x]|] eqn:Hx; [|done]. apply find_slot_in in Hx.
    destruct (emit_check _ _ _ _ _) as [[c1 out1] r1] eqn:He. intros [[<- <-]%pair_equal_spec [= ->]]%pair_equal_spec.
    destruct (emit_check_awaits c x _ _ _ _ _ _ Hcr Hs Hout Hx Hfresh He) as (Et & (j & y & Hf & Hy) & Hck' & Bo & Ecr & Es & Est & _). fold tid in Hf, Hck'.
    assert (Hchk : is_checking c1 = true) by (unfold is_checking in *; by rewrite Est). rewrite Et.
    destruct (cn_candidates c1 !! i) as [[z|]|] eqn:Hz; [|split; [by exists j, y|done]..].
    destruct (find_slot_edit (fun x => bool_decide (ca_outstanding x = Some tid)) _ _ _ (mkCandidate (ca_addr z) (Some now_ms) (ca_outstanding z)) _ _ Hz eq_refl Hf) as (y' & Hf' & Hy').
    split; [|done]. exists j, y'. split; [exact Hf'|]. destruct Hy' as [->|[-> ->]]; done. }
  destruct (cn_probe_sent c); [exact Hdue|]. destruct (flatten (cn_candidates c)) as [|x xs] eqn:Ef; [exact Hdue|].
  set (c0 := c <| cn_probe_sent := true |>). destruct (emit_check _ _ _ _ _) as [[c1 out1] r1] eqn:He. intros [[<- <-]%pair_equal_spec [= ->]]%pair_equal_spec.
  assert (Hx : Some x ∈ cn_candidates c0) by (apply elem_of_flatten; change (x ∈ flatten (cn_candidates c)); rewrite Ef; apply list_elem_of_here).
  destruct (emit_check_awaits c0 x _ _ _ _ _ _ Hcr Hs Hout Hx Hfresh He) as (Et & Haw & Hck' & Bo & Ecr & Es & Est & _).
  rewrite Et. split; [exact Haw|]. split; [exact Hck'|]. split; [done|]. split; [done|]. split; [done|]. unfold is_checking. rewrite Est. exact Hck.
Qed.

(** The punch works: if one side's check reaches the other, the answer
    that comes back establishes the path at the address that was checked. The
    checked side accepts the datagram under its own password, owes an answer to
    where it came from, and sends it next; fed back, that answer makes the
    attempt choose exactly the address its check went to. *)
Theorem check_establishes_path a b now1 out1 a1 buf1 e from now2 out2 from2 :
  credentials_ok (cn_credentials a) -> seed_ok (cn_seed a) -> fresh a (next_transaction_id a).2 ->
  cr_remote_pwd (cn_credentials a) = cr_local_pwd (cn_credentials b) ->
  is_checking a = true -> flatten (cn_pending a) = [] -> (forall s, Some s ∈ cn_servers a -> sv_answered s = true /\ sv_outstanding s = None) ->
  zlen out1 <= U64_MAX -> conn_get_output a now1 out1 = (a1, buf1, Some (Ok e)) ->
  cn_pending b = replicate MAX_PENDING None -> (pace_wait b now2 >? f_zero)%f64 = false -> addr_ok from -> MAX_MESSAGE <= zlen out2 <= U64_MAX ->
  exists b1 b2 buf2 e2 a2,
    conn_process_input b (take (Z.to_nat (eg_len e)) buf1) from = (b1, Ok CheckAnswered) /\
    conn_get_output b1 now2 out2 = (b2, buf2, Some (Ok e2)) /\ eg_to e2 = canonical from /\
    conn_process_input a1 (take (Z.to_nat (eg_len e2)) buf2) from2 = (a2, Ok (PathEstablished (eg_to e))) /\ conn_path a2 = Some (eg_to e).
Proof.
  intros Hcr Hseed Hfresh Hpwd Hck Hpend Hserv Hout1 He Hbp Hpace Hfrom Hout2.
  destruct (output_check a now1 out1 a1 buf1 e Hcr Hseed Hout1 Hfresh Hck Hpend (fun s Hs => proj1 (Hserv s Hs)) He)
    as ((i & x & Hf & Hx) & (m & Hp & Hme & Htid & Hv) & Bo & Ecr & Es & Hck1).
  set (tid := (next_transaction_id a).2) in *. rewrite Hpwd in Hv.
  assert (Ht : zlen tid = 12 /\ bytes_ok tid) by exact (tid_ok (cn_seed a) (cn_counter a)). destruct Ht as [Ht Bt].
  unfold conn_process_input at 1. rewrite Hp, Hme. unfold on_request. rewrite Hv. cbn [negb].
  set (b0 := (add_candidate b (canonical from)).1).
  assert (Hb0 : cn_pending b0 = replicate MAX_PENDING None /\ cn_credentials b0 = cn_credentials b /\ cn_last_sent_ms b0 = cn_last_sent_ms b).
  { unfold b0, add_candidate. destruct (existsb _ _); [done|]. by destruct (free_slot _). }
  destruct Hb0 as (Hb1 & Hb2 & Hb3). unfold queue_response. rewrite Hb1. change (free_slot (replicate MAX_PENDING None)) with (Some O). cbv iota.
  set (b1 := b0 <| cn_pending := _ |>). pose proof (encode_binding_response_exact out2 tid (canonical from) (cr_local_pwd (cn_credentials b))) as [Eok _]; [lia|done|by apply canonical_ok|].
  pose proof (zlen_response_attrs (canonical from) tid (canonical_ok _ Hfrom)) as Hla. set (msg := sealed_message _ _ _ _) in Eok.
  assert (Hlen : zlen msg <= zlen out2) by (unfold msg; rewrite zlen_sealed by done; unfold MAX_MESSAGE in Hout2; lia). specialize (Eok Hlen).
  destruct (encode_binding_response_ok _ _ _ _ _ _ (proj2 Hout2) Ht Bt (canonical_ok _ Hfrom) Eok) as (m2 & Hp2 & _ & Hme2 & Htid2 & _ & Hv2).
  eexists b1, _, _, (mkEgress (canonical from) TtlDefault (zlen msg)), _. split; [done|]. split.
  { unfold conn_get_output. assert (pace_wait b1 now2 = pace_wait b now2) as -> by (unfold pace_wait, b1; cbn; by rewrite Hb3). rewrite Hpace.
    change (find_slot (fun _ => true) (cn_pending b1)) with (Some (O, (canonical from, sm_tid m))). cbv iota beta zeta. set (b1' := b1 <| cn_pending := _ |>).
    unfold emit_response. change (cn_credentials b1') with (cn_credentials b0). rewrite Hb2, Htid, Eok. reflexivity. }
  split; [done|]. cbn [eg_len]. unfold conn_process_input. rewrite Hp2, Hme2. unfold on_success. rewrite Es, Htid2.
  rewrite (find_slot_none _ (cn_servers a)) by (intros s Hs; destruct (Hserv s Hs) as [_ ->]; by rewrite bool_decide_eq_false_2).
  rewrite Ecr, Hpwd, Hv2. cbn [negb]. rewrite Hf. set (a1' := a1 <| cn_candidates := _ |>). change (is_checking a1') with (is_checking a1). rewrite Hck1, Hx. done.
Qed.

End punch.

(** ** Witnesses *)

Definition demo_ours : Credentials := mkCredentials demo_local [112; 49] demo_remote [112; 50].
Definition demo_theirs : Credentials := mkCredentials demo_remote [112; 50] demo_local [112; 49].
Definition demo_here : SocketAddr := SV4 [198; 51; 100; 1] 4000.
Definition demo_there : SocketAddr := SV4 [198; 51; 100; 2] 4000.
Definition demo_seed : list Z := replicate 16 17.
Definition demo_buf : list Z := replicate 256 0.

(** Ours offers one candidate and sends its probe; theirs answers it. *)
Definition demo_a : Conn := (add_candidate (conn_new demo_ours demo_seed f_zero) demo_there).1.
Definition demo_b : Conn := conn_new demo_theirs (replicate 16 34) f_zero.

Definition demo_answer : list Z :=
  let '(buf, r) := encode_binding_response demo_buf (next_transaction_id demo_a).2 demo_here [112; 50] in
  match r with Ok len => take (Z.to_nat len) buf | Err _ => [] end.

Definition demo_conn_ops : list conn_op :=
  [CAddCandidate demo_there; COutput f_zero demo_buf; CInput demo_answer demo_there; CPoll (f_of_Z 8000)].

Lemma demo_addr_ok last : is_u8 last -> addr_ok (SV4 [198; 51; 100; last] 4000).
Proof. intros H. split; [reflexivity|]. split; [|done]. do 3 (constructor; [unfold is_u8; lia|]). by constructor. Qed.

Lemma demo_conn_ops_ok : Forall conn_op_ok demo_conn_ops.
Proof.
  constructor; [by apply demo_addr_ok|]. constructor; [by vm_compute|].
  constructor; [split; [apply bytes_ok_b; vm_compute; reflexivity|by apply demo_addr_ok]|]. by constructor.
Qed.

Lemma attempt_is_safe_witness :
  conn_path (conn_run (conn_new demo_ours demo_seed f_zero) demo_conn_ops).1 = Some demo_there /\
  answered demo_ours (conn_run (conn_new demo_ours demo_seed f_zero) demo_conn_ops).2 demo_there /\
  exists bytes, legit demo_ours [Offered demo_there] demo_there TtlProbe bytes.
Proof.
  assert (Hp : conn_path (conn_run (conn_new demo_ours demo_seed f_zero) demo_conn_ops).1 = Some demo_there) by (vm_compute; reflexivity).
  destruct (attempt_is_safe demo_ours demo_seed) with (ops := demo_conn_ops) (now_ms := f_zero)
    (c := (conn_run (conn_new demo_ours demo_seed f_zero) demo_conn_ops).1)
    (log := (conn_run (conn_new demo_ours demo_seed f_zero) demo_conn_ops).2) as (H1 & H2 & _).
  - split; apply bytes_ok_b; vm_compute; reflexivity.
  - split; [reflexivity|apply bytes_ok_b; vm_compute; reflexivity].
  - exact demo_conn_ops_ok.
  - apply surjective_pairing.
  - split; [exact Hp|]. split; [apply H1, Hp|]. eexists. eapply H2. vm_compute. reflexivity.
Defined.

Lemma verdict_is_final_witness : is_checking (conn_run (conn_poll demo_a (f_of_Z 7500)) demo_conn_ops).1 = false.
Proof. apply (verdict_is_final demo_a demo_conn_ops (f_of_Z 7500)). vm_compute. reflexivity. Defined.

Lemma check_establishes_path_witness :
  exists a1 buf1 e b1 b2 buf2 e2 a2,
    conn_get_output demo_a f_zero demo_buf = (a1, buf1, Some (Ok e)) /\ eg_to e = demo_there /\
    conn_process_input demo_b (take (Z.to_nat (eg_len e)) buf1) demo_here = (b1, Ok CheckAnswered) /\
    conn_get_output b1 f_zero demo_buf = (b2, buf2, Some (Ok e2)) /\ eg_to e2 = canonical demo_here /\
    conn_process_input a1 (take (Z.to_nat (eg_len e2)) buf2) demo_there = (a2, Ok (PathEstablished (eg_to e))) /\ conn_path a2 = Some (eg_to e).
Proof.
  destruct (conn_get_output demo_a f_zero demo_buf) as [[a1 buf1] [[e|]|]] eqn:E; [|vm_compute in E; discriminate E..].
  exists a1, buf1, e.
  destruct (check_establishes_path demo_a demo_b f_zero demo_buf a1 buf1 e demo_here f_zero demo_buf demo_there) as (b1 & b2 & buf2 & e2 & a2 & H).
  - split; apply bytes_ok_b; vm_compute; reflexivity.
  - split; [reflexivity|apply bytes_ok_b; vm_compute; reflexivity].
  - intros x [j Hx]%list_elem_of_lookup_1. do 16 (destruct j as [|j]; [vm_compute in Hx; try discriminate Hx; injection Hx as <-; discriminate|]). discriminate Hx.
  - reflexivity.
  - reflexivity.
  - reflexivity.
  - intros s [j Hx]%list_elem_of_lookup_1. do 4 (destruct j as [|j]; [discriminate Hx|]). discriminate Hx.
  - vm_compute; discriminate.
  - exact E.
  - reflexivity.
  - vm_compute; reflexivity.
  - apply demo_addr_ok. vm_compute. split; [discriminate|reflexivity].
  - vm_compute; split; discriminate.
  - exists b1, b2, buf2, e2, a2. split; [reflexivity|]. split; [|exact H].
    vm_compute in E. injection E as _ _ <-. reflexivity.
Defined.
