(* ===== verification/Endpoint.v ===== *)
(** * One peer, both state machines ([core/src/endpoint.rs])

    Connectivity first, then media: the punch, the session its path carries and
    the optional path-MTU controller behind one object. The shell also reaches
    the two engines through [conn()] and [session()]; those calls are the
    operations of their own files. *)

From S2P Require Import Prelude F64 Seq Packet Message RecvRing Policy SendRing Envelope Pmtu SendSafety Session SessionInv SessionProps Crc32 Stun Conn.

(** [endpoint::Inbound]. *)
Inductive EndpointInbound :=
  | Connectivity (inbound : ConnInbound)
  | Media (inbound : Inbound).

Inductive PathMtuRecovery :=
  | NotConfigured
  | Recovered (previous_datagram_size datagram_size dropped_video_fragments : Z)
  | Blocked
  | Unusable.

Record Endpoint := mkEndpoint {
  ep_conn : Conn;
  ep_session : Session;
  ep_path_mtu : option PathMtu;
}.

#[export] Instance eta_Endpoint : Eta Endpoint := fun e => mkEndpoint (ep_conn e) (ep_session e) (ep_path_mtu e).

(** [Endpoint::new]. *)
Definition endpoint_new (conn : Conn) (session : Session) : Endpoint := mkEndpoint conn session None.

(** [Endpoint::path]. *)
Definition endpoint_path (e : Endpoint) : option SocketAddr := conn_path (ep_conn e).

(** [Endpoint::health]. *)
Definition endpoint_health (e : Endpoint) (now_ms : f64) : Health := health (ep_session e) now_ms.

Definition configure_path_mtu (e : Endpoint) (config : PathConfig) (now_ms : f64) : Endpoint * bool :=
  let mtu := new_with_config config now_ms in
  if bool_decide (pm_state mtu = ErrorState) then (e, false) else
  let '(session, ok) := set_path_datagram_size (ep_session e) (datagram_size mtu) in
  let e := e <| ep_session := session |> in
  if negb ok then (e, false) else (e <| ep_path_mtu := Some mtu |>, true).

Definition recover_path_black_hole (e : Endpoint) (now_ms : f64) : Endpoint * PathMtuRecovery :=
  match ep_path_mtu e with
  | None => (e, NotConfigured)
  | Some mtu =>
      let previous := datagram_size mtu in
      if previous =? FLOOR then (e <| ep_path_mtu := Some (on_black_hole mtu now_ms).1 |>, Unusable) else
      if negb (can_recover_video_path_datagram_size (ep_session e) FLOOR) then (e, Blocked) else
      let '(mtu, ok) := on_black_hole mtu now_ms in
      let e := e <| ep_path_mtu := Some mtu |> in
      if negb ok then (e, Unusable) else
      let current := datagram_size mtu in
      match recover_video_path_datagram_size (ep_session e) current with
      | (session, None) => (e <| ep_session := session |>, Blocked)
      | (session, Some dropped) =>
          (e <| ep_session := reset_delivery_watchdog session now_ms |>, Recovered previous current dropped)
      end
  end.

(** [Endpoint::poll]. *)
Definition endpoint_poll (e : Endpoint) (now_ms : f64) : Endpoint :=
  let e := e <| ep_conn := conn_poll (ep_conn e) now_ms |> <| ep_session := session_poll (ep_session e) now_ms |> in
  match ep_path_mtu e with
  | Some mtu =>
      if match in_flight_probe mtu with Some _ => true | None => false end && (next_timer_ms mtu now_ms <=? f_zero)%f64
      then e <| ep_path_mtu := Some (on_probe_timeout mtu now_ms).1 |> else e
  | None => e
  end.

(** [Endpoint::next_timer_ms]. *)
Definition endpoint_next_timer_ms (e : Endpoint) (now_ms : f64) : f64 :=
  let path_mtu := match ep_path_mtu e with Some mtu => next_timer_ms mtu now_ms | None => f_inf end in
  f_min (f_min (conn_next_timer_ms (ep_conn e) now_ms) (session_next_timer_ms (ep_session e) now_ms)) path_mtu.

(** ** The sizes agree

    Where the session's datagram size is set, and what leaves it alone. *)

Definition path_view (s : Session) : Z * PacerConfig := (se_path_datagram_size s, p_config (se_pacer s)).

Section io.
Context `{A : Aead} `{HS : Hashes}.

(** What a probe acknowledgement does to the controller and the session. *)
Definition apply_probe_ack (e : Endpoint) (id size : Z) (now_ms : f64) : Endpoint :=
  match ep_path_mtu e with
  | None => e
  | Some mtu =>
      let previous := datagram_size mtu in
      let '(mtu, ok) := on_probe_ack mtu id size now_ms in
      let e := e <| ep_path_mtu := Some mtu |> in
      if ok && negb (datagram_size mtu =? previous) then
        let '(session, ok) := set_path_datagram_size (ep_session e) (datagram_size mtu) in
        let e := e <| ep_session := session |> in
        if negb ok then e <| ep_path_mtu := None |> else e
      else e
  end.

(** [Endpoint::process_input]. *)
Definition endpoint_process_input (e : Endpoint) (datagram : list Z) (from : SocketAddr) (now_ms : f64) (scratch : list Z)
  : Endpoint * list Z * result EndpointInbound :=
  match classify_datagram datagram with
  | Check =>
      let '(conn, r) := conn_process_input (ep_conn e) datagram from in
      (e <| ep_conn := conn |>, scratch, Connectivity <$> r)
  | Record_ =>
      let '(session, scratch, r) := process_input (ep_session e) datagram now_ms scratch in
      let e := e <| ep_session := session |> in
      match r with
      | Err error => (e, scratch, Err error)
      | Ok inbound =>
          (match inbound with IProbeAck id size => apply_probe_ack e id size now_ms | _ => e end, scratch, Ok (Media inbound))
      end
  end.

(** The session's datagram, addressed to the path. *)
Definition session_output (e : Endpoint) (to : SocketAddr) (now_ms : f64) (out : list Z) : Endpoint * list Z * option (result Egress) :=
  let '(session, out, r) := get_output (ep_session e) now_ms out in
  (e <| ep_session := session |>, out,
   match r with Some (Ok len) => Some (Ok (mkEgress to TtlDefault len)) | Some (Err error) => Some (Err error) | None => None end).

(** [Endpoint::get_output]. *)
Definition endpoint_get_output (e : Endpoint) (now_ms : f64) (out : list Z) : Endpoint * list Z * option (result Egress) :=
  match conn_get_output (ep_conn e) now_ms out with
  | (conn, out, Some r) => (e <| ep_conn := conn |>, out, Some r)
  | (conn, out, None) =>
      let e := e <| ep_conn := conn |> in
      match conn_path conn with
      | None => (e, out, None)
      | Some to =>
          if feedback_pending (ep_session e) then session_output e to now_ms out else
          match ep_path_mtu e with
          | None => session_output e to now_ms out
          | Some mtu =>
              match start_probe mtu now_ms with
              | (mtu, None) => session_output (e <| ep_path_mtu := Some mtu |>) to now_ms out
              | (mtu, Some probe) =>
                  let '(session, out, r) := emit_path_probe (ep_session e) probe out in
                  let e := e <| ep_session := session |> in
                  match r with
                  | Ok len => (e <| ep_path_mtu := Some mtu |>, out, Some (Ok (mkEgress to TtlDefault len)))
                  | Err error => (e <| ep_path_mtu := Some (on_probe_send_failed mtu).1 |>, out, Some (Err error))
                  end
              end
          end
      end
  end.

Lemma set_rate_config p now rate : p_config (set_rate p now rate) = p_config p.
Proof. unfold set_rate, refill. repeat (case_match; try done). Qed.

Lemma try_consume_config p now bytes : p_config (try_consume p now bytes).1 = p_config p.
Proof. unfold try_consume, refill. repeat (case_match; try done). Qed.

Lemma set_datagram_size_config p size : p_config (set_datagram_size p size).1 = p_config p.
Proof. unfold set_datagram_size. repeat (case_match; try done). Qed.

Lemma seal_view s len out : path_view (session_seal s len out).1.1 = path_view s.
Proof. unfold session_seal. destruct (_ <=? _); [done|]. destruct (checked_add64 _ _); [|done]. by destruct (seal_in_place _ _ _ _). Qed.

Lemma encode_and_seal_view s encode out : path_view (encode_and_seal s encode out).1.1 = path_view s.
Proof.
  destruct (encode_and_seal s encode out) as [[s' out'] r] eqn:E. apply encode_and_seal_state in E as [->| ->]; done.
Qed.

Lemma drain_one_view s index now out :
  match drain_one s index now out with DNext s' | DReturn s' _ _ => path_view s' = path_view s end.
Proof.
  unfold drain_one. destruct (channel_due s index now); [|done]. destruct (match priority_quantum index with Some _ => _ | None => _ end); [done|].
  destruct (send_ring s index); [|done]. set (paced := (index =? VIDEO_CHANNEL) && enabled (se_pacer s)). destruct (paced && _); [done|]. destruct (slice_from _ _); [|done].
  destruct (poll_send _ _ _ _ _) as [[ring body] [[w|e]|]]; [|done|done].
  set (s1 := s <| se_send := _ |>). pose proof (seal_view s1 w (default out (write out ENVELOPE_LEN body))) as Hv.
  destruct (session_seal _ _ _) as [[s2 out2] [len|e]]; cbn [fst] in Hv; [|by rewrite Hv].
  assert (H3 : path_view (if paced then s2 <| se_pacer := (try_consume (se_pacer s2) now len).1 |> else s2) = path_view s2).
  { destruct paced; [|done]. unfold path_view. cbn. by rewrite try_consume_config. }
  set (s3 := if paced then _ else s2) in *. transitivity (path_view s3); [by repeat case_match|]. by rewrite H3, Hv.
Qed.

Lemma drain_loop_view fuel s now out : path_view (drain_loop fuel s now out).1.1 = path_view s.
Proof.
  revert s. induction fuel as [|fuel IH]; intros s; cbn [drain_loop]; [done|]. destruct (get DRAIN_ORDER _) as [index|]; [|done].
  pose proof (drain_one_view s index now out) as Hv. destruct (drain_one s index now out); [by rewrite IH|done].
Qed.

Lemma get_output_view s now out : path_view (get_output s now out).1.1 = path_view s.
Proof.
  unfold get_output. assert (Hb : path_view (begin_output s) = path_view s) by (unfold begin_output; by destruct (se_drain_started s)).
  set (s1 := begin_output s) in *. destruct (se_ack_due s1).
  - unfold emit_ack. pose proof (encode_and_seal_view s1 (fun body => encode_ack body (build_ack s1)) out) as Hv.
    destruct (encode_and_seal _ _ _) as [[s2 out2] r]. cbn [fst] in *. rewrite <- Hb, <- Hv. by destruct (is_ok r).
  - destruct (se_pending_probe_ack s1) as [pa|]; [|by rewrite drain_loop_view].
    unfold emit_probe_ack. pose proof (encode_and_seal_view s1 (fun body => encode_probe_ack body pa) out) as Hv.
    destruct (encode_and_seal _ _ _) as [[s2 out2] r]. cbn [fst] in *. rewrite <- Hb, <- Hv. by destruct (is_ok r).
Qed.

Lemma process_input_view s d now scratch : path_view (process_input s d now scratch).1.1 = path_view s.
Proof.
  unfold process_input. destruct (negb _); [done|]. destruct (open _ _ _) as [o [op|e]]; [|done]. destruct (parse _) as [pkt|]; [|done].
  assert (Hh : path_view (handle_packet s pkt (zlen d) now).1 = path_view s); [|by destruct (handle_packet _ _ _ _)].
  unfold handle_packet. destruct pkt as [da|a|p|p]; cbn [fst].
  - by destruct (recv_ring _ _).
  - destruct (ack_all _ _ _ _) as [rings [t|]]; [|done]. cbn [fst]. unfold observe_rtt. by repeat case_match.
  - by destruct (negb _).
  - done.
Qed.

Lemma session_poll_view s now : path_view (session_poll s now) = path_view s.
Proof.
  unfold session_poll. cbv zeta.
  assert (Hc : path_view (poll_cadence s now) = path_view s) by (unfold poll_cadence; by case_match).
  set (s1 := poll_cadence s now) in *. rewrite <- Hc. clear Hc. clearbody s1.
  match goal with |- context [poll_aggregate ?x] => set (s2 := x) end. assert (H2 : path_view s2 = path_view s1) by (unfold s2; by case_match).
  clearbody s2. rewrite <- H2. unfold poll_controller. by repeat case_match.
Qed.

(** The session calls that do not set the path size. *)
Definition sizes_aside (op : session_op) : bool :=
  match op with OpPathSize _ | OpRecover _ | OpPathMtu _ => false | _ => true end.

Lemma session_step_view s op : sizes_aside op = true -> path_view (session_step s op).1 = path_view s.
Proof.
  intros Hop. destruct op; cbn [session_step fst] in *; try done.
  - unfold attach_recv. by case_match.
  - unfold attach_send. repeat case_match; done.
  - unfold path_view. cbn. by rewrite set_rate_config.
  - unfold set_pacing_datagram_size. pose proof (set_datagram_size_config (se_pacer s) bytes). destruct (set_datagram_size _ _). unfold path_view. cbn in *. by f_equal.
  - unfold reset_delivery_watchdog. by case_match.
  - unfold reset_recv. by case_match.
  - unfold send_message. repeat case_match; done.
  - unfold session_take_message. repeat case_match; done.
  - unfold session_escape_stall. repeat case_match; done.
  - apply process_input_view.
  - apply session_poll_view.
  - pose proof (get_output_view s now_ms out). by destruct (get_output _ _ _) as [[]].
  - unfold emit_path_probe. pose proof (encode_and_seal_view s (fun body => encode_probe body (mkProbe (mp_id probe) (mp_size probe))) out). by destruct (encode_and_seal _ _ _) as [[]].
Qed.

(** ** Runs of an endpoint *)

Inductive endpoint_op :=
  | EConfigure (config : PathConfig) (now_ms : f64)
  | ERecover (now_ms : f64)
  | EInput (datagram : list Z) (from : SocketAddr) (now_ms : f64) (scratch : list Z)
  | EPoll (now_ms : f64)
  | EOutput (now_ms : f64) (out : list Z)
  | EConn (op : conn_op)
  | ESession (op : session_op).

Definition endpoint_step (e : Endpoint) (op : endpoint_op) : Endpoint :=
  match op with
  | EConfigure config now_ms => (configure_path_mtu e config now_ms).1
  | ERecover now_ms => (recover_path_black_hole e now_ms).1
  | EInput datagram from now_ms scratch => (endpoint_process_input e datagram from now_ms scratch).1.1
  | EPoll now_ms => endpoint_poll e now_ms
  | EOutput now_ms out => (endpoint_get_output e now_ms out).1.1
  | EConn op => e <| ep_conn := (conn_step (ep_conn e) op).1 |>
  | ESession op => e <| ep_session := (session_step (ep_session e) op).1 |>
  end.

(** The shell leaves the path size to the controller. *)
Definition endpoint_op_ok (op : endpoint_op) : Prop :=
  match op with
  | EInput datagram _ _ _ => bytes_ok datagram
  | ESession op => session_op_ok op /\ sizes_aside op = true
  | _ => True
  end.

Context {L : AeadLaws A}.

Record EpInv (e : Endpoint) : Prop := {
  ei_session : SessOk (ep_session e);
  ei_config : p_config (se_pacer (ep_session e)) = compatibility_default;
  ei_mtu mtu : ep_path_mtu e = Some mtu -> MtuInv mtu;
  ei_size mtu : ep_path_mtu e = Some mtu -> se_path_datagram_size (ep_session e) = datagram_size mtu;
}.

(** A step that leaves the controller's size and the session's view alone. *)
Lemma EpInv_same e e' :
  EpInv e -> SessOk (ep_session e') -> path_view (ep_session e') = path_view (ep_session e) ->
  (forall mtu', ep_path_mtu e' = Some mtu' -> exists mtu, ep_path_mtu e = Some mtu /\ MtuInv mtu' /\ datagram_size mtu' = datagram_size mtu) -> EpInv e'.
Proof.
  intros [] Hs Hv Hm. unfold path_view in Hv. injection Hv as Hv1 Hv2. constructor; [done|congruence|..]; intros mtu' H'; destruct (Hm mtu' H') as (mtu & H & Hi & Hd); [done|].
  rewrite Hd, Hv1. by apply ei_size0.
Qed.

Lemma start_probe_size m now : datagram_size (start_probe m now).1 = datagram_size m.
Proof.
  unfold start_probe, datagram_size, allocate_probe_id, complete. destruct (_ || _ || _); [done|]. destruct (_ && _); [done|].
  destruct (bool_decide _); cbn; repeat (case_match; try done).
Qed.

Lemma on_probe_timeout_size m now : datagram_size (on_probe_timeout m now).1 = datagram_size m.
Proof. unfold on_probe_timeout, datagram_size, complete. repeat (case_match; try done). Qed.

Lemma on_probe_send_failed_size m : datagram_size (on_probe_send_failed m).1 = datagram_size m.
Proof. unfold on_probe_send_failed, datagram_size. by case_match. Qed.

(** What [set_path_datagram_size] does to the view. *)
Lemma set_path_view s size :
  let '(s', ok) := set_path_datagram_size s size in
  p_config (se_pacer s') = p_config (se_pacer s) /\ se_path_datagram_size s' = if ok then size else se_path_datagram_size s.
Proof.
  unfold set_path_datagram_size. destruct (negb _); [done|]. destruct (existsb _ _); [done|].
  pose proof (set_datagram_size_config (se_pacer s) size). destruct (set_datagram_size (se_pacer s) size) as [p ok]. by destruct ok.
Qed.

Lemma inv_configure e config now : EpInv e -> EpInv (configure_path_mtu e config now).1.
Proof.
  intros He. pose proof He as []. unfold configure_path_mtu. set (mtu := new_with_config config now). case_bool_decide as Herr; [done|].
  pose proof (set_path_view (ep_session e) (datagram_size mtu)) as Hv. pose proof (set_path_ok (ep_session e) (datagram_size mtu) ei_session0) as [Hs _].
  destruct (set_path_datagram_size (ep_session e) (datagram_size mtu)) as [s' ok]. cbn [fst] in *. destruct Hv as [Hc Hsz]. destruct ok; cbn [negb fst].
  - constructor; cbn; [done|congruence|..]; intros m [= <-]; [apply new_with_config_inv|done].
  - constructor; cbn; [done|congruence|done|]. intros m Hm. rewrite Hsz. by apply ei_size0.
Qed.

Lemma inv_apply_probe_ack e id size now : EpInv e -> EpInv (apply_probe_ack e id size now).
Proof.
  intros He. pose proof He as []. unfold apply_probe_ack. destruct (ep_path_mtu e) as [mtu|] eqn:Em; [|done].
  pose proof (pmtu_step_inv mtu (EAck id size now) (ei_mtu0 mtu eq_refl)) as Hi. cbn [pmtu_step] in Hi.
  assert (Hno : (on_probe_ack mtu id size now).2 = false -> datagram_size (on_probe_ack mtu id size now).1 = datagram_size mtu).
  { unfold on_probe_ack. repeat (case_match; try done). }
  destruct (on_probe_ack mtu id size now) as [mtu' ok]. cbn [fst snd] in *. destruct (ok && negb (datagram_size mtu' =? datagram_size mtu)) eqn:Ech.
  - cbn [ep_session set_field]. pose proof (set_path_view (ep_session e) (datagram_size mtu')) as Hv. pose proof (set_path_ok (ep_session e) (datagram_size mtu') ei_session0) as [Hs _].
    change (ep_session (e <| ep_path_mtu := Some mtu' |>)) with (ep_session e).
    destruct (set_path_datagram_size (ep_session e) (datagram_size mtu')) as [s' ok']. cbn [fst] in *. destruct Hv as [Hc Hsz].
    destruct ok'; cbn [negb]; constructor; cbn; try done; try congruence; by intros m [= <-].
  - apply (EpInv_same e); try done. cbn. intros m [= <-]. exists mtu. split; [done|]. split; [done|].
    destruct ok; [|by apply Hno]. cbn in Ech. apply negb_false_iff, Z.eqb_eq in Ech. done.
Qed.

Lemma on_black_hole_above mtu now :
  MtuInv mtu -> datagram_size mtu <> FLOOR ->
  exists mtu', on_black_hole mtu now = (mtu', true) /\ datagram_size mtu' = FLOOR /\ pm_state mtu' = Base /\ pm_probe mtu' = None.
Proof.
  intros Hm Hf. unfold on_black_hole. case_bool_decide as Herr; [by destruct (mi_error _ Hm Herr)|]. cbn [pm_current set_field].
  change (pm_current (mtu <| pm_probe := None |> <| pm_probe_attempts := 0 |>)) with (datagram_size mtu). rewrite (proj2 (Z.eqb_neq _ _)) by done. eexists. split; [reflexivity|done].
Qed.

Lemma pacer_takes_floor p : p_config p = compatibility_default -> (set_datagram_size p FLOOR).2 = true.
Proof. intros E. unfold set_datagram_size. rewrite E. reflexivity. Qed.

Lemma reset_watchdog_ok s now : SessOk s -> SessOk (reset_delivery_watchdog s now) /\ path_view (reset_delivery_watchdog s now) = path_view s.
Proof. intros H. unfold reset_delivery_watchdog. destruct (negb _); [done|]. split; [by apply (SessOk_same s)|done]. Qed.

(** What recovery does, case by case; its last arm never happens. *)
Lemma recover_cases e now :
  EpInv e ->
  match ep_path_mtu e with
  | None => recover_path_black_hole e now = (e, NotConfigured)
  | Some mtu =>
      if datagram_size mtu =? FLOOR then recover_path_black_hole e now = (e <| ep_path_mtu := Some (on_black_hole mtu now).1 |>, Unusable)
      else if can_recover_video_path_datagram_size (ep_session e) FLOOR then
        exists session, recover_video_path_datagram_size (ep_session e) FLOOR = (session, Some (match send_ring (ep_session e) VIDEO_CHANNEL with Some ring => in_flight ring | None => 0 end)) /\
          SessOk session /\ path_view session = (FLOOR, compatibility_default) /\
          recover_path_black_hole e now = (mkEndpoint (ep_conn e) (reset_delivery_watchdog session now) (Some (on_black_hole mtu now).1),
            Recovered (datagram_size mtu) FLOOR (match send_ring (ep_session e) VIDEO_CHANNEL with Some ring => in_flight ring | None => 0 end))
      else recover_path_black_hole e now = (e, Blocked)
  end.
Proof.
  intros []. unfold recover_path_black_hole. destruct (ep_path_mtu e) as [mtu|] eqn:Em; [|done].
  destruct (Z.eqb_spec (datagram_size mtu) FLOOR) as [Hf|Hf]; [done|].
  destruct (can_recover_video_path_datagram_size (ep_session e) FLOOR) eqn:Hc; cbn [negb]; [|done].
  destruct (on_black_hole_above mtu now (ei_mtu0 mtu eq_refl) Hf) as (mtu' & -> & Hd & _). cbn [negb fst]. rewrite Hd.
  pose proof (recover_ok (ep_session e) FLOOR ei_session0) as [Hs _]. pose proof (set_datagram_size_config (se_pacer (ep_session e)) FLOOR) as Hcf.
  pose proof (recover_eq (ep_session e) FLOOR Hc (pacer_takes_floor _ ei_config0)) as Er.
  change (ep_session (e <| ep_path_mtu := Some mtu' |>)) with (ep_session e). rewrite Er in Hs |- *. eexists. split; [reflexivity|]. split; [exact Hs|].
  split; [unfold path_view; cbn [se_path_datagram_size se_pacer set_field]; cbn; congruence|]. reflexivity.
Qed.

Lemma inv_recover e now : EpInv e -> EpInv (recover_path_black_hole e now).1.
Proof.
  intros He. pose proof (recover_cases e now He) as Hc. pose proof He as []. destruct (ep_path_mtu e) as [mtu|] eqn:Em; [|by rewrite Hc].
  pose proof (pmtu_step_inv mtu (EBlackHole now) (ei_mtu0 mtu eq_refl)) as Hi. cbn [pmtu_step] in Hi.
  destruct (Z.eqb_spec (datagram_size mtu) FLOOR) as [Hf|Hf].
  - rewrite Hc. cbn [fst]. apply (EpInv_same e); try done. cbn. intros m [= <-]. exists mtu. split; [done|]. split; [done|].
    unfold on_black_hole, datagram_size in *. case_bool_decide; [done|]. cbn. rewrite Hf. done.
  - destruct (can_recover_video_path_datagram_size _ _); [|by rewrite Hc]. destruct Hc as (session & _ & Hs & Hv & ->). cbn [fst].
    destruct (reset_watchdog_ok session now Hs) as [Hs' Hv']. rewrite Hv in Hv'. unfold path_view in Hv'. injection Hv' as Hv1 Hv2.
    destruct (on_black_hole_above mtu now (ei_mtu0 mtu eq_refl) Hf) as (mtu' & Eb & Hd & _). rewrite Eb in Hi |- *.
    constructor; cbn; [done|done|..]; intros m [= <-]; [done|congruence].
Qed.

Lemma inv_session_step e op : EpInv e -> session_op_ok op -> sizes_aside op = true -> EpInv (e <| ep_session := (session_step (ep_session e) op).1 |>).
Proof.
  intros He Ho Ha. pose proof He as []. destruct (session_step_ok (ep_session e) op ei_session0 Ho) as [(Hs & _) _].
  apply (EpInv_same e); [done|exact Hs|by apply session_step_view|]. intros m Hm. exists m. split; [exact Hm|]. split; [by apply ei_mtu0|done].
Qed.

Lemma inv_conn e c : EpInv e -> EpInv (e <| ep_conn := c |>).
Proof. intros []. by constructor. Qed.

Lemma inv_mtu e mtu mtu' : EpInv e -> ep_path_mtu e = Some mtu -> MtuInv mtu' -> datagram_size mtu' = datagram_size mtu -> EpInv (e <| ep_path_mtu := Some mtu' |>).
Proof. intros [] Hm Hi Hd. constructor; cbn; [done|done|..]; intros m [= <-]; [done|]. rewrite Hd. by apply ei_size0. Qed.

Lemma inv_input e d from now scratch : EpInv e -> bytes_ok d -> EpInv (endpoint_process_input e d from now scratch).1.1.
Proof.
  intros He Hd. unfold endpoint_process_input. destruct (classify_datagram d).
  - destruct (conn_process_input _ _ _) as [c r]. by apply inv_conn.
  - pose proof (inv_session_step e (OpInput d now scratch) He Hd eq_refl) as H1. cbn [session_step fst] in H1.
    destruct (process_input (ep_session e) d now scratch) as [[s' scratch'] r]. cbn [fst] in *. destruct r as [i|err]; [|done].
    destruct i; try done. by apply inv_apply_probe_ack.
Qed.

Lemma inv_poll e now : EpInv e -> EpInv (endpoint_poll e now).
Proof.
  intros He. unfold endpoint_poll. set (e1 := e <| ep_conn := _ |> <| ep_session := _ |>).
  assert (H1 : EpInv e1).
  { unfold e1. pose proof (inv_session_step _ (OpPoll now) (inv_conn e (conn_poll (ep_conn e) now) He) I eq_refl) as H. exact H. }
  destruct (ep_path_mtu e1) as [mtu|] eqn:Em; [|done]. destruct (_ && _); [|done].
  apply (inv_mtu _ mtu); [done|done|by apply on_probe_timeout_inv, (ei_mtu _ H1)|apply on_probe_timeout_size].
Qed.

Lemma inv_session_output e to now out : EpInv e -> EpInv (session_output e to now out).1.1.
Proof.
  intros He. unfold session_output. pose proof (inv_session_step e (OpOutput now out) He I eq_refl) as H1. cbn [session_step] in H1.
  by destruct (get_output (ep_session e) now out) as [[s' out'] r].
Qed.

Lemma inv_output e now out : EpInv e -> EpInv (endpoint_get_output e now out).1.1.
Proof.
  intros He. unfold endpoint_get_output. destruct (conn_get_output (ep_conn e) now out) as [[c out1] [r|]]; [by apply inv_conn|].
  pose proof (inv_conn e c He) as H1. set (e1 := e <| ep_conn := c |>) in *. clearbody e1. destruct (conn_path c) as [to|]; [|done].
  destruct (feedback_pending _); [by apply inv_session_output|]. destruct (ep_path_mtu e1) as [mtu|] eqn:Em; [|by apply inv_session_output].
  pose proof (start_probe_inv mtu now (ei_mtu _ H1 mtu Em)) as Hi. pose proof (start_probe_size mtu now) as Hd.
  destruct (start_probe mtu now) as [mtu' [probe|]]; cbn [fst] in *.
  - pose proof (inv_session_step e1 (OpProbe probe out1) H1 I eq_refl) as H2. cbn [session_step] in H2.
    destruct (emit_path_probe (ep_session e1) probe out1) as [[s' out2] r]. cbn [fst] in *. destruct r as [len|err]; cbn [fst].
    + apply (inv_mtu _ mtu); [exact H2|exact Em|done|done].
    + apply (inv_mtu _ mtu); [exact H2|exact Em|by apply (pmtu_step_inv mtu' ESendFailed)|by rewrite on_probe_send_failed_size].
  - apply inv_session_output. by apply (inv_mtu _ mtu).
Qed.

Lemma endpoint_step_inv e op : EpInv e -> endpoint_op_ok op -> EpInv (endpoint_step e op).
Proof.
  intros He Ho. destruct op; cbn [endpoint_step endpoint_op_ok] in *.
  - by apply inv_configure.
  - by apply inv_recover.
  - by apply inv_input.
  - by apply inv_poll.
  - by apply inv_output.
  - by apply inv_conn.
  - destruct Ho. by apply inv_session_step.
Qed.

Lemma endpoint_run_inv ops e : EpInv e -> Forall endpoint_op_ok ops -> EpInv (fold_left endpoint_step ops e).
Proof. intros He Hops. revert e He. induction Hops as [|op ops Hop _ IH]; intros e He; [done|]. cbn. by apply IH, endpoint_step_inv. Qed.

Lemma endpoint_new_inv conn env d level now : EpInv (endpoint_new conn (with_direction env d level now)).
Proof. constructor; cbn; [apply with_direction_ok|done|done|done]. Qed.

(** An endpoint a shell can have: built, then driven by any calls. *)
Definition reachable_endpoint (e : Endpoint) : Prop :=
  exists conn env d level now ops, Forall endpoint_op_ok ops /\ e = fold_left endpoint_step ops (endpoint_new conn (with_direction env d level now)).

Lemma reachable_endpoint_inv e : reachable_endpoint e -> EpInv e.
Proof. intros (conn & env & d & level & now & ops & Hops & ->). apply endpoint_run_inv; [apply endpoint_new_inv|done]. Qed.

(** ** Theorems *)

(** Controller and session never disagree. Whatever calls a shell makes
    (including configurations that are refused, forged acknowledgements and
    black holes), an installed controller's datagram size is the session's, it
    is legal, and every attached ring cuts fragments that fit it. *)
Theorem endpoint_sizes_agree e mtu :
  reachable_endpoint e -> ep_path_mtu e = Some mtu ->
  se_path_datagram_size (ep_session e) = datagram_size mtu /\ FLOOR <= datagram_size mtu <= CEILING /\
  attached (fits (body_of (datagram_size mtu))) (se_send (ep_session e)).
Proof.
  intros He Hm. destruct (reachable_endpoint_inv e He) as [Hs _ Hi Hz]. specialize (Hi mtu Hm). specialize (Hz mtu Hm). split; [done|]. rewrite <- Hz.
  split; [|apply (so_send _ Hs)]. pose proof (so_path _ Hs). unfold FLOOR, CEILING. lia.
Qed.

(** Black-hole recovery is exact. Without a controller nothing happens; at
    the floor the path is declared unusable and the session is left alone; if a
    reliable ring cannot shrink, nothing at all changes; and otherwise both
    controller and session return to the floor, the punch is untouched and the
    count reported is the video fragments that were outstanding. The refusal
    after the preflight, which the source calls unreachable, is. *)
Theorem black_hole_recovery e now :
  reachable_endpoint e ->
  let '(e', r) := recover_path_black_hole e now in
  match r with
  | NotConfigured => ep_path_mtu e = None /\ e' = e
  | Unusable => exists mtu mtu', ep_path_mtu e = Some mtu /\ datagram_size mtu = FLOOR /\ e' = e <| ep_path_mtu := Some mtu' |> /\ pm_state mtu' = ErrorState
  | Blocked => e' = e /\ can_recover_video_path_datagram_size (ep_session e) FLOOR = false
  | Recovered previous current dropped =>
      exists mtu mtu', ep_path_mtu e = Some mtu /\ ep_path_mtu e' = Some mtu' /\ previous = datagram_size mtu /\ FLOOR < previous /\ current = FLOOR /\
        datagram_size mtu' = FLOOR /\ se_path_datagram_size (ep_session e') = FLOOR /\ ep_conn e' = ep_conn e /\ pm_probe mtu' = None /\
        dropped = match send_ring (ep_session e) VIDEO_CHANNEL with Some ring => in_flight ring | None => 0 end
  end.
Proof.
  intros He%reachable_endpoint_inv. pose proof (recover_cases e now He) as Hc. pose proof He as [Hs Hcf Hi Hz].
  destruct (ep_path_mtu e) as [mtu|] eqn:Em; [|by rewrite Hc]. specialize (Hi mtu eq_refl).
  destruct (Z.eqb_spec (datagram_size mtu) FLOOR) as [Hf|Hf].
  - rewrite Hc. exists mtu, (on_black_hole mtu now).1. split; [done|]. split; [done|]. split; [done|].
    unfold on_black_hole, datagram_size in *. case_bool_decide; [done|]. cbn. by rewrite Hf.
  - destruct (can_recover_video_path_datagram_size (ep_session e) FLOOR); [|by rewrite Hc]. destruct Hc as (session & _ & Hs' & Hv & ->).
    destruct (on_black_hole_above mtu now Hi Hf) as (mtu' & Eb & Hd & _ & Hp). destruct (reset_watchdog_ok session now Hs') as [_ Hv'].
    rewrite Hv in Hv'. unfold path_view in Hv'. injection Hv' as Hv1 _. exists mtu, mtu'. rewrite Eb. cbn [ep_path_mtu ep_session ep_conn fst].
    pose proof (mi_floor _ Hi). unfold datagram_size in Hf |- *. repeat (split; [done || lia|]). done.
Qed.

(** What the session sends through an endpoint. *)
Lemma session_output_spec e to now out e' out' eg :
  EpInv e -> session_output e to now out = (e', out', Some (Ok eg)) ->
  eg_to eg = to /\ eg_ttl eg = TtlDefault /\ eg_len eg <= se_path_datagram_size (ep_session e).
Proof.
  intros He. unfold session_output. destruct (get_output (ep_session e) now out) as [[s' o] r] eqn:Hg.
  destruct (get_output_spec _ _ _ _ _ _ (ei_session _ He) Hg) as (_ & _ & _ & _ & Hr). destruct r as [[n|err]|]; [|done|done].
  intros [[_ _]%pair_equal_spec [= <-]]%pair_equal_spec. destruct Hr as (pkt & pt & _ & _ & _ & _ & Hn). done.
Qed.

Lemma emit_probe_len s probe out s' out' n : emit_path_probe s probe out = (s', out', Ok n) -> n = mp_size probe.
Proof.
  unfold emit_path_probe. intros H. pose proof (em_len _ _ _ _ _ _ (encode_and_seal_ok _ _ _ _ _ _ _ (encodes_probe _) H)) as ->.
  assert (Hp : ENVELOPE_LEN + 21 <= mp_size probe).
  { unfold encode_and_seal in H. destruct (slice_from _ _); [|done]. unfold encode_probe in H. cbn [probe_id probe_size] in H.
    destruct (_ || negb _) eqn:E in H; [done|]. apply orb_false_iff in E as [_ E%negb_false_iff]. apply legal_datagram_iff in E. unfold ENVELOPE_LEN, DEFAULT_DATAGRAM in *. lia. }
  unfold probe_bytes, ENVELOPE_LEN, HEADER_LEN in *. cbn [probe_size probe_id]. rewrite !zlen_app, zlen_data_header, zlen_be_bytes, zlen_replicate. unfold HEADER_LEN. lia.
Qed.

Lemma emit_probe_failed_rolls_back mtu now mtu' probe :
  start_probe mtu now = (mtu', Some probe) -> in_flight_probe mtu' = Some probe /\ in_flight_probe (on_probe_send_failed mtu').1 = None.
Proof.
  unfold start_probe, allocate_probe_id. destruct (_ || _ || _); [done|]. destruct (_ && _); [done|]. destruct (bool_decide _); cbn; repeat (case_match; try done).
  all: intros [= <- <-]; done.
Qed.

(** Everything leaves in its turn and goes where it should. Connectivity
    datagrams go first and leave the media side untouched; until there is a path
    nothing of the session moves; and once there is one, every datagram goes to
    it at the normal TTL and is either the session's, no larger than the size
    in use, or one exact-size path probe, which waits for owed feedback and is
    withdrawn if it could not be sent. *)
Theorem endpoint_output_routed e now out e' out' r :
  reachable_endpoint e -> endpoint_get_output e now out = (e', out', r) ->
  match conn_get_output (ep_conn e) now out, conn_path (ep_conn e) with
  | (c, o, Some rc), _ => r = Some rc /\ out' = o /\ e' = e <| ep_conn := c |>
  | (c, o, None), None => r = None /\ out' = o /\ e' = e <| ep_conn := c |>
  | (c, o, None), Some to =>
      conn_path (ep_conn e') = Some to /\
      (forall eg, r = Some (Ok eg) -> eg_to eg = to /\ eg_ttl eg = TtlDefault /\
        (eg_len eg <= se_path_datagram_size (ep_session e) \/
         feedback_pending (ep_session e) = false /\
         exists mtu' probe, ep_path_mtu e' = Some mtu' /\ in_flight_probe mtu' = Some probe /\ eg_len eg = mp_size probe)) /\
      (feedback_pending (ep_session e) = true -> ep_path_mtu e' = ep_path_mtu e) /\
      (forall err, r = Some (Err err) -> forall mtu', ep_path_mtu e' = Some mtu' -> in_flight_probe mtu' = None \/ ep_path_mtu e = Some mtu' \/
         exists mtu, ep_path_mtu e = Some mtu /\ start_probe mtu now = (mtu', None))
  end.
Proof.
  intros He%reachable_endpoint_inv. unfold endpoint_get_output. pose proof (output_state (ep_conn e) now out) as Hst.
  destruct (conn_get_output (ep_conn e) now out) as [[c o] [rc|]]; cbn [fst] in Hst.
  { by intros [[<- <-]%pair_equal_spec <-]%pair_equal_spec. }
  assert (Hpath : conn_path c = conn_path (ep_conn e)) by (unfold conn_path; by rewrite Hst). rewrite Hpath.
  destruct (conn_path (ep_conn e)) as [to|]; [|by intros [[<- <-]%pair_equal_spec <-]%pair_equal_spec].
  pose proof (inv_conn e c He) as H1. set (e1 := e <| ep_conn := c |>) in *.
  assert (Hso : forall e2, EpInv e2 -> ep_conn e2 = c -> ep_session e2 = ep_session e -> session_output e2 to now o = (e', out', r) ->
    conn_path (ep_conn e') = Some to /\ (forall eg, r = Some (Ok eg) -> eg_to eg = to /\ eg_ttl eg = TtlDefault /\ eg_len eg <= se_path_datagram_size (ep_session e)) /\ ep_path_mtu e' = ep_path_mtu e2).
  { intros e2 H2 Ec Es Hout. split; [|split].
    - unfold session_output in Hout. destruct (get_output _ _ _) as [[? ?] ?]. apply pair_equal_spec in Hout as [[<- _]%pair_equal_spec _]. cbn. by rewrite Ec.
    - intros eg ->. rewrite <- Es. by apply (session_output_spec e2 to now o e' out').
    - unfold session_output in Hout. destruct (get_output _ _ _) as [[? ?] ?]. by apply pair_equal_spec in Hout as [[<- _]%pair_equal_spec _]. }
  change (ep_session e1) with (ep_session e). change (ep_path_mtu e1) with (ep_path_mtu e). destruct (feedback_pending (ep_session e)).
  { intros Hout. destruct (Hso e1 H1 eq_refl eq_refl Hout) as (Hp & Heg & Hm). split; [done|]. split; [intros eg Hr; destruct (Heg eg Hr) as (? & ? & ?); auto|].
    split; [by intros _|]. intros err _ mtu' Hmtu. right. left. by rewrite Hm in Hmtu. }
  destruct (ep_path_mtu e) as [mtu|] eqn:Em.
  2:{ intros Hout. destruct (Hso e1 H1 eq_refl eq_refl Hout) as (Hp & Heg & Hm). split; [done|]. split; [intros eg Hr; destruct (Heg eg Hr) as (? & ? & ?); auto|].
      split; [done|]. intros err _ mtu' Hmtu. rewrite Hm in Hmtu. change (ep_path_mtu e1) with (ep_path_mtu e) in Hmtu. congruence. }
  pose proof (start_probe_inv mtu now (ei_mtu _ He mtu Em)) as Hi. pose proof (start_probe_size mtu now) as Hd.
  destruct (start_probe mtu now) as [mtu1 [probe|]] eqn:Hsp; cbn [fst] in *.
  - destruct (emit_probe_failed_rolls_back _ _ _ _ Hsp) as [Hin Hrb]. destruct (emit_path_probe (ep_session e) probe o) as [[s' o'] rp] eqn:Hep.
    destruct rp as [len|err]; intros [[<- <-]%pair_equal_spec <-]%pair_equal_spec; (split; [cbn; by rewrite Hpath|]).
    + split; [|done]. intros eg [= <-]. split; [done|]. split; [done|]. right. split; [done|]. exists mtu1, probe. split; [done|]. split; [done|]. by apply emit_probe_len in Hep.
    + split; [done|]. split; [done|]. intros ? _ mtu' [= <-]. by left.
  - intros Hout. destruct (Hso (e1 <| ep_path_mtu := Some mtu1 |>)) as (Hp & Heg & Hm); [by apply (inv_mtu _ mtu)|done|done|done|].
    split; [done|]. split; [intros eg Hr; destruct (Heg eg Hr) as (? & ? & ?); auto|]. split; [done|].
    intros err _ mtu' Hmtu. right. right. exists mtu. split; [done|]. rewrite Hm in Hmtu. by injection Hmtu as <-.
Qed.

End io.

(** ** Witnesses

    Configure the path, punch, then let the first path probe leave. *)

Definition demo_fresh : Endpoint := endpoint_new (conn_new demo_ours demo_seed f_zero) (session_new demo_key 1 f_zero).

Definition demo_endpoint_ops : list endpoint_op := EConfigure (direct_v4 1500) f_zero :: map EConn demo_conn_ops.

Definition demo_endpoint : Endpoint := fold_left (endpoint_step (A := null_aead)) demo_endpoint_ops demo_fresh.

Lemma demo_endpoint_reachable : reachable_endpoint (A := null_aead) demo_endpoint.
Proof.
  exists (conn_new demo_ours demo_seed f_zero), demo_key, Host, 1, f_zero, demo_endpoint_ops. split; [|reflexivity].
  unfold demo_endpoint_ops. constructor; [done|]. by repeat constructor.
Qed.

Lemma endpoint_sizes_agree_witness :
  exists mtu, ep_path_mtu demo_endpoint = Some mtu /\ se_path_datagram_size (ep_session demo_endpoint) = datagram_size mtu.
Proof.
  destruct (ep_path_mtu demo_endpoint) as [mtu|] eqn:E; [|vm_compute in E; discriminate E]. exists mtu. split; [reflexivity|].
  apply (endpoint_sizes_agree (A := null_aead) demo_endpoint mtu demo_endpoint_reachable E).
Defined.

Lemma black_hole_recovery_witness : exists mtu, ep_path_mtu demo_endpoint = Some mtu /\ datagram_size mtu = FLOOR.
Proof.
  pose proof (black_hole_recovery (A := null_aead) demo_endpoint (f_of_Z 20) demo_endpoint_reachable) as H.
  destruct (recover_path_black_hole demo_endpoint (f_of_Z 20)) as [e' r] eqn:E.
  assert (r = Unusable) as -> by (apply (f_equal snd) in E; vm_compute in E; symmetry; exact E).
  destruct H as (mtu & mtu' & Hm & Hf & _). exists mtu. split; assumption.
Defined.

Lemma endpoint_output_routed_witness :
  exists e' out' eg, endpoint_get_output (A := null_aead) demo_endpoint (f_of_Z 20) (replicate 1500 0) = (e', out', Some (Ok eg)) /\
    eg_to eg = demo_there /\ eg_ttl eg = TtlDefault /\ eg_len eg = 1280.
Proof.
  destruct (endpoint_get_output (A := null_aead) demo_endpoint (f_of_Z 20) (replicate 1500 0)) as [[e' out'] r] eqn:E.
  pose proof (endpoint_output_routed (A := null_aead) demo_endpoint (f_of_Z 20) (replicate 1500 0) e' out' r demo_endpoint_reachable E) as H.
  assert (Hr : r = Some (Ok (mkEgress demo_there TtlDefault 1280))) by (apply (f_equal snd) in E; vm_compute in E; symmetry; exact E).
  assert (Hc : (conn_get_output (ep_conn demo_endpoint) (f_of_Z 20) (replicate 1500 0)).2 = None) by (vm_compute; reflexivity).
  destruct (conn_get_output (ep_conn demo_endpoint) (f_of_Z 20) (replicate 1500 0)) as [[c o] rc]. cbn [snd] in Hc. rewrite Hc in H.
  replace (conn_path (ep_conn demo_endpoint)) with (Some demo_there) in H by (vm_compute; reflexivity).
  destruct H as (_ & Heg & _). destruct (Heg _ Hr) as (Hto & Httl & _).
  exists e', out', (mkEgress demo_there TtlDefault 1280). rewrite Hr. split; [reflexivity|]. split; [exact Hto|]. split; [exact Httl|reflexivity].
Defined.
