(* ===== verification/Delivery.v ===== *)
(** * The delivery estimator ([transport-policy/src/delivery.rs])

    Every encrypted packet sent on a path has a counter; the estimator keeps
    the unresolved ones in a ring of 2048 slots chosen by the counter modulo
    the ring, matches authenticated acknowledgement bitmaps against it and
    keeps telemetry per traffic class and in aggregate. [DeliveryEstimator] is
    the state; [record_sent], [acknowledge], [snapshot] and
    [reset_generation] are its operations. The abstract view is [outstanding],
    the map from counters to unresolved packets that the ring implements. *)

From Stdlib Require Import SpecFloat.
From S2P Require Import Prelude F64.
Open Scope Z_scope.

(** ** Data *)

Definition DELIVERY_HISTORY_CAPACITY : Z := 2048.
Definition STALE_AFTER_MS : f64 := f_of_Z 250.
Definition MIN_DELIVERY_SAMPLE_INTERVAL_MS : f64 := f_of_Z 10.
Definition MAX_ACK_DELAY_US : Z := 25000.
Definition DELIVERY_CLASS_COUNT : Z := 3.
(** [f64::MAX]. *)
Definition F64_MAX : f64 := S754_finite false 9007199254740991 971.

Inductive TrafficClass := Critical | Audio | Video.

#[export] Instance TrafficClass_eq_dec : EqDecision TrafficClass.
Proof. solve_decision. Defined.

Definition class_index (t : TrafficClass) : nat := match t with Critical => 0 | Audio => 1 | Video => 2 end.

Record SentPacket := mkSentPacket {
  sp_generation : Z;
  sp_outer_counter : Z;
  sp_bytes : Z;
  sp_sent_at_ms : f64;
  sp_traffic_class : TrafficClass;
  sp_ack_eliciting : bool;
  sp_logical_retransmission : bool;
}.
#[export] Instance SentPacket_eta : Eta SentPacket :=
  fun p => mkSentPacket (sp_generation p) (sp_outer_counter p) (sp_bytes p) (sp_sent_at_ms p) (sp_traffic_class p) (sp_ack_eliciting p) (sp_logical_retransmission p).

Record SendOutcome := mkSendOutcome {
  so_stale_evicted : bool;
  so_logical_retransmission : bool;
  so_outer_retransmission : bool;
}.

Record AckOutcome := mkAckOutcome {
  ao_newly_acknowledged_packets : Z;
  ao_newly_acknowledged_bytes : Z;
  ao_rtt_sample_ms : option f64;
  ao_ignored_stale_generation : bool;
}.

Definition IgnoredStaleGeneration : AckOutcome := mkAckOutcome 0 0 None true.
Definition acknowledged (packets bytes : Z) (rtt : option f64) : AckOutcome := mkAckOutcome packets bytes rtt false.

Inductive DeliveryError :=
  | InvalidGeneration | FutureGeneration | StaleGeneration | InvalidTimestamp | CounterUnderflow
  | FutureCounter | AckDelayTooLarge | HistoryFull | CounterReuse.

Record DeliveryClassSnapshot := mkDeliveryClassSnapshot {
  ds_sent_packets : Z;
  ds_sent_bytes : Z;
  ds_acknowledged_packets : Z;
  ds_acknowledged_bytes : Z;
  ds_delivery_rate_mbps : option f64;
  ds_in_flight : Z;
  ds_stale : Z;
  ds_logical_reliable_retries : Z;
  ds_outer_retransmissions : Z;
}.

Record ClassState := mkClassState {
  cs_sent_packets : Z;
  cs_sent_bytes : Z;
  cs_acknowledged_packets : Z;
  cs_acknowledged_bytes : Z;
  cs_delivery_rate_mbps : option f64;
  cs_in_flight : Z;
  cs_stale : Z;
  cs_logical_reliable_retries : Z;
  cs_outer_retransmissions : Z;
  cs_rate_bytes : Z;
}.
#[export] Instance ClassState_eta : Eta ClassState :=
  fun c => mkClassState (cs_sent_packets c) (cs_sent_bytes c) (cs_acknowledged_packets c) (cs_acknowledged_bytes c) (cs_delivery_rate_mbps c)
    (cs_in_flight c) (cs_stale c) (cs_logical_reliable_retries c) (cs_outer_retransmissions c) (cs_rate_bytes c).

Definition class_empty : ClassState := mkClassState 0 0 0 0 None 0 0 0 0 0.

Definition class_snapshot (c : ClassState) : DeliveryClassSnapshot :=
  mkDeliveryClassSnapshot (cs_sent_packets c) (cs_sent_bytes c) (cs_acknowledged_packets c) (cs_acknowledged_bytes c)
    (cs_delivery_rate_mbps c) (cs_in_flight c) (cs_stale c) (cs_logical_reliable_retries c) (cs_outer_retransmissions c).

Record DeliverySnapshot := mkDeliverySnapshot {
  dn_path_generation : Z;
  dn_sample_interval_ms : f64;
  dn_srtt_ms : option f64;
  dn_aggregate : DeliveryClassSnapshot;
  dn_video : DeliveryClassSnapshot;
  dn_audio : DeliveryClassSnapshot;
  dn_critical : DeliveryClassSnapshot;
}.

Record DeliveryEstimator := mkDeliveryEstimator {
  de_generation : Z;
  de_history : list (option SentPacket);
  de_highest_sent : option Z;
  de_aggregate : ClassState;
  de_classes : list ClassState;
  de_srtt_ms : option f64;
  de_last_timestamp_ms : option f64;
  de_rate_sample_start_ms : option f64;
  de_sample_interval_ms : f64;
}.
#[export] Instance DeliveryEstimator_eta : Eta DeliveryEstimator :=
  fun e => mkDeliveryEstimator (de_generation e) (de_history e) (de_highest_sent e) (de_aggregate e) (de_classes e) (de_srtt_ms e)
    (de_last_timestamp_ms e) (de_rate_sample_start_ms e) (de_sample_interval_ms e).

Definition estimator_new (generation : Z) : DeliveryEstimator :=
  mkDeliveryEstimator generation (replicate (Z.to_nat DELIVERY_HISTORY_CAPACITY) None) None class_empty
    (replicate (Z.to_nat DELIVERY_CLASS_COUNT) class_empty) None None None f_zero.

(** ** Arithmetic *)

Definition slot_index (counter : Z) : nat := Z.to_nat (counter mod DELIVERY_HISTORY_CAPACITY).

Definition elapsed_ms (now_ms earlier_ms : f64) : f64 :=
  let elapsed := (now_ms - earlier_ms)%f64 in
  if f_is_finite elapsed then f_max elapsed f_zero else F64_MAX.

Definition decimal_mbps (bytes : Z) (elapsed : f64) : f64 :=
  let bits := (f_of_Z bytes * f_of_Z 8)%f64 in
  let rate := (bits / (elapsed * f_of_Z 1000))%f64 in
  if f_is_finite rate then rate else f_zero.

Definition sat32_add (a b : Z) : Z := saturating_add U32_MAX a b.
Definition sat64_add (a b : Z) : Z := saturating_add U64_MAX a b.

(** ** Counters *)

Definition add_sent_stats (c : ClassState) (bytes : Z) (p : SentPacket) (outer_retransmission : bool) : ClassState :=
  let c := c <| cs_sent_packets := sat64_add (cs_sent_packets c) 1 |> <| cs_sent_bytes := sat64_add (cs_sent_bytes c) bytes |> in
  let c := if sp_logical_retransmission p && negb outer_retransmission
           then c <| cs_logical_reliable_retries := sat64_add (cs_logical_reliable_retries c) 1 |> else c in
  if outer_retransmission then c <| cs_outer_retransmissions := sat64_add (cs_outer_retransmissions c) 1 |> else c.

Definition class_in_flight (c : ClassState) : ClassState := c <| cs_in_flight := sat32_add (cs_in_flight c) 1 |>.

Definition class_stale (c : ClassState) : ClassState :=
  c <| cs_in_flight := saturating_sub (cs_in_flight c) 1 |> <| cs_stale := sat64_add (cs_stale c) 1 |>.

Definition class_acknowledged (bytes : Z) (c : ClassState) : ClassState :=
  c <| cs_in_flight := saturating_sub (cs_in_flight c) 1 |>
    <| cs_acknowledged_packets := sat64_add (cs_acknowledged_packets c) 1 |>
    <| cs_acknowledged_bytes := sat64_add (cs_acknowledged_bytes c) bytes |>
    <| cs_rate_bytes := sat64_add (cs_rate_bytes c) bytes |>.

(** The aggregate and the packet's class move together. *)
Definition both (e : DeliveryEstimator) (t : TrafficClass) (f : ClassState -> ClassState) : DeliveryEstimator :=
  e <| de_aggregate := f (de_aggregate e) |> <| de_classes := alter f (class_index t) (de_classes e) |>.

Definition record_sent_stats (e : DeliveryEstimator) (p : SentPacket) (outer : bool) : DeliveryEstimator :=
  both e (sp_traffic_class p) (fun c => add_sent_stats c (sp_bytes p) p outer).
Definition add_in_flight (e : DeliveryEstimator) (t : TrafficClass) : DeliveryEstimator := both e t class_in_flight.
Definition mark_stale (e : DeliveryEstimator) (p : SentPacket) : DeliveryEstimator := both e (sp_traffic_class p) class_stale.
Definition mark_acknowledged (e : DeliveryEstimator) (p : SentPacket) : DeliveryEstimator :=
  both e (sp_traffic_class p) (class_acknowledged (sp_bytes p)).

Definition sample_class (elapsed : f64) (c : ClassState) : ClassState :=
  let c := if 0 <? cs_rate_bytes c then c <| cs_delivery_rate_mbps := Some (decimal_mbps (cs_rate_bytes c) elapsed) |> else c in
  c <| cs_rate_bytes := 0 |>.

Definition maybe_sample_rate (e : DeliveryEstimator) (now_ms : f64) : DeliveryEstimator :=
  match de_rate_sample_start_ms e with
  | None => e
  | Some start_ms =>
      let elapsed := elapsed_ms now_ms start_ms in
      if (elapsed <? MIN_DELIVERY_SAMPLE_INTERVAL_MS)%f64 || (cs_rate_bytes (de_aggregate e) =? 0) then e
      else
        e <| de_sample_interval_ms := elapsed |>
          <| de_aggregate := de_aggregate e <| cs_delivery_rate_mbps := Some (decimal_mbps (cs_rate_bytes (de_aggregate e)) elapsed) |>
                                            <| cs_rate_bytes := 0 |> |>
          <| de_classes := sample_class elapsed <$> de_classes e |>
          <| de_rate_sample_start_ms := Some now_ms |>
  end.

(** ** Operations *)

(** [self.history\[index\]]; the index is always in range. *)
Definition history_at (e : DeliveryEstimator) (index : nat) : option SentPacket := mjoin (de_history e !! index).

Definition set_history (e : DeliveryEstimator) (index : nat) (s : option SentPacket) : DeliveryEstimator :=
  e <| de_history := <[index := s]> (de_history e) |>.

Definition acceptable_timestamp (e : DeliveryEstimator) (timestamp_ms : f64) : bool :=
  f_is_finite timestamp_ms && (timestamp_ms >=? f_zero)%f64 &&
  match de_last_timestamp_ms e with Some last => (timestamp_ms >=? last)%f64 | None => true end.

(** The entry of this very packet. *)
Definition entry_is (generation counter : Z) (p : SentPacket) : bool :=
  (sp_generation p =? generation) && (sp_outer_counter p =? counter).

Definition can_record (e : DeliveryEstimator) (generation outer_counter : Z) (now_ms : f64) : bool :=
  if (generation =? 0) || negb (generation =? de_generation e) || negb (acceptable_timestamp e now_ms) then false
  else
    let fresh :=
      match history_at e (slot_index outer_counter) with
      | None => true
      | Some entry => (elapsed_ms now_ms (sp_sent_at_ms entry) >=? STALE_AFTER_MS)%f64
      end in
    match de_highest_sent e with
    | Some highest =>
        if outer_counter <=? highest
        then match history_at e (slot_index outer_counter) with Some entry => entry_is generation outer_counter entry | None => false end
        else fresh
    | None => fresh
    end.

Definition validate_packet (e : DeliveryEstimator) (p : SentPacket) : option DeliveryError :=
  if sp_generation p =? 0 then Some InvalidGeneration
  else if sp_generation p <? de_generation e then Some StaleGeneration
  else if de_generation e <? sp_generation p then Some FutureGeneration
  else if negb (acceptable_timestamp e (sp_sent_at_ms p)) then Some InvalidTimestamp
  else None.

(** A counter at or below the highest sent: a resend of an unresolved packet. *)
Definition record_resend (e : DeliveryEstimator) (p : SentPacket) : DeliveryEstimator * (SendOutcome + DeliveryError) :=
  let index := slot_index (sp_outer_counter p) in
  match history_at e index with
  | Some existing =>
      if sp_ack_eliciting p && entry_is (sp_generation p) (sp_outer_counter p) existing then
        if negb (sp_bytes existing =? sp_bytes p) || negb (bool_decide (sp_traffic_class existing = sp_traffic_class p)) || negb (sp_ack_eliciting existing)
        then (e, inr CounterReuse)
        else
          let e := record_sent_stats (set_history e index (Some p)) p true in
          (e <| de_last_timestamp_ms := Some (sp_sent_at_ms p) |>, inl (mkSendOutcome false false true))
      else (e, inr CounterReuse)
  | None => (e, inr CounterReuse)
  end.

(** Take the slot of a fresh counter, evicting an aged entry. *)
Definition claim_slot (e : DeliveryEstimator) (p : SentPacket) : DeliveryEstimator * (bool + DeliveryError) :=
  let index := slot_index (sp_outer_counter p) in
  let take_slot e :=
    let e := add_in_flight (set_history e index (Some p)) (sp_traffic_class p) in
    match de_rate_sample_start_ms e with
    | None => e <| de_rate_sample_start_ms := Some (sp_sent_at_ms p) |>
    | Some _ => e
    end in
  match history_at e index with
  | Some existing =>
      if (elapsed_ms (sp_sent_at_ms p) (sp_sent_at_ms existing) <? STALE_AFTER_MS)%f64 then (e, inr HistoryFull)
      else (take_slot (set_history (mark_stale e existing) index None), inl true)
  | None => (take_slot e, inl false)
  end.

Definition record_fresh (e : DeliveryEstimator) (p : SentPacket) : DeliveryEstimator * (SendOutcome + DeliveryError) :=
  let '(e, claimed) := if sp_ack_eliciting p then claim_slot e p else (e, inl false) in
  match claimed with
  | inr err => (e, inr err)
  | inl stale_evicted =>
      let e := record_sent_stats e p false in
      let highest := match de_highest_sent e with None => sp_outer_counter p | Some h => Z.max h (sp_outer_counter p) end in
      (e <| de_highest_sent := Some highest |> <| de_last_timestamp_ms := Some (sp_sent_at_ms p) |>,
       inl (mkSendOutcome stale_evicted (sp_logical_retransmission p) false))
  end.

Definition record_sent (e : DeliveryEstimator) (p : SentPacket) : DeliveryEstimator * (SendOutcome + DeliveryError) :=
  match validate_packet e p with
  | Some err => (e, inr err)
  | None =>
      match de_highest_sent e with
      | Some highest => if sp_outer_counter p <=? highest then record_resend e p else record_fresh e p
      | None => record_fresh e p
      end
  end.

(** [received_mask & (1 << bit) != 0]. *)
Definition mask_bit (mask bit : Z) : bool := negb (Z.land mask (Z.shiftl 1 bit) =? 0).

Record ack_state := mkAckState {
  as_estimator : DeliveryEstimator;
  as_packets : Z;
  as_bytes : Z;
  as_largest : option SentPacket;
}.

(** One bit of the bitmap. *)
Definition ack_bit (generation largest mask : Z) (s : ack_state) (bit : Z) : ack_state :=
  if negb (mask_bit mask bit) then s
  else
    let counter := largest - bit in
    let index := slot_index counter in
    match history_at (as_estimator s) index with
    | None => s
    | Some entry =>
        if negb (entry_is generation counter entry) then s
        else mkAckState (mark_acknowledged (set_history (as_estimator s) index None) entry)
               (sat32_add (as_packets s) 1) (sat64_add (as_bytes s) (sp_bytes entry))
               (if bit =? 0 then Some entry else as_largest s)
    end.

Definition rtt_sample (entry : SentPacket) (ack_delay_us : Z) (now_ms : f64) : f64 :=
  let delay_ms := (f_of_Z ack_delay_us / f_of_Z 1000)%f64 in
  f_max (elapsed_ms now_ms (sp_sent_at_ms entry) - delay_ms)%f64 f_zero.

Definition smoothed (srtt : option f64) (sample : f64) : f64 :=
  match srtt with
  | None => sample
  | Some previous => (f_of_Z 7 / f_of_Z 8 * previous + f_of_Z 1 / f_of_Z 8 * sample)%f64
  end.

(** The checks that precede any change. *)
Definition ack_refused (e : DeliveryEstimator) (largest mask delay : Z) (now_ms : f64) : option DeliveryError :=
  if negb (acceptable_timestamp e now_ms) then Some InvalidTimestamp
  else if MAX_ACK_DELAY_US <? delay then Some AckDelayTooLarge
  else if negb (bool_decide (de_highest_sent e = Some largest)) &&
          match de_highest_sent e with None => true | Some highest => highest <? largest end then Some FutureCounter
  else if existsb (fun bit => mask_bit mask bit && (largest <? bit)) (seqZ 1 63) then Some CounterUnderflow
  else None.

(** The bits of the bitmap in turn, then the round-trip sample. *)
Definition ack_apply (e : DeliveryEstimator) (bits : list Z) (generation largest mask delay : Z) (now_ms : f64) : DeliveryEstimator * AckOutcome :=
  let s := fold_left (ack_bit generation largest mask) bits (mkAckState e 0 0 None) in
  let rtt := (fun entry => rtt_sample entry delay now_ms) <$> as_largest s in
  let e := as_estimator s in
  let e := match rtt with Some sample => e <| de_srtt_ms := Some (smoothed (de_srtt_ms e) sample) |> | None => e end in
  (e <| de_last_timestamp_ms := Some now_ms |>, acknowledged (as_packets s) (as_bytes s) rtt).

Definition acknowledge (e : DeliveryEstimator) (generation largest mask delay : Z) (now_ms : f64) : DeliveryEstimator * (AckOutcome + DeliveryError) :=
  if generation =? 0 then (e, inr InvalidGeneration)
  else if generation <? de_generation e then (e, inl IgnoredStaleGeneration)
  else if de_generation e <? generation then (e, inr FutureGeneration)
  else
    match ack_refused e largest mask delay now_ms with
    | Some err => (e, inr err)
    | None =>
        let '(e, outcome) := ack_apply e (seqZ 0 64) generation largest mask delay now_ms in (e, inl outcome)
    end.

Definition class_at (e : DeliveryEstimator) (t : TrafficClass) : ClassState := default class_empty (de_classes e !! class_index t).

Definition snapshot (e : DeliveryEstimator) (now_ms : f64) : DeliveryEstimator * DeliverySnapshot :=
  let e := if acceptable_timestamp e now_ms then maybe_sample_rate (e <| de_last_timestamp_ms := Some now_ms |>) now_ms else e in
  (e, mkDeliverySnapshot (de_generation e) (de_sample_interval_ms e) (de_srtt_ms e) (class_snapshot (de_aggregate e))
        (class_snapshot (class_at e Video)) (class_snapshot (class_at e Audio)) (class_snapshot (class_at e Critical))).

Definition reset_generation (e : DeliveryEstimator) (generation : Z) : DeliveryEstimator :=
  if generation =? 0 then e else estimator_new generation.

(** ** Counting slots *)

Fixpoint total {A} (w : A -> Z) (l : list A) : Z :=
  match l with [] => 0 | x :: l => w x + total w l end.

Lemma total_insert {A} (w : A -> Z) l i x y : l !! i = Some y -> total w (<[i := x]> l) = total w l - w y + w x.
Proof.
  revert i. induction l as [|z l IH]; intros [|i] H; try done.
  - injection H as ->. cbn. lia.
  - change (w z + total w (<[i := x]> l) = w z + total w l - w y + w x). rewrite (IH i H). lia.
Qed.

Lemma total_bounds {A} (w : A -> Z) l : (forall x, 0 <= w x <= 1) -> 0 <= total w l <= zlen l.
Proof. intros H. induction l as [|x l IH]; cbn [total]; [done|]. rewrite zlen_cons. specialize (H x). lia. Qed.

Lemma total_replicate {A} (w : A -> Z) n x : w x = 0 -> total w (replicate n x) = 0.
Proof. intros H. induction n; cbn; lia. Qed.

(** A slot counts when it holds a packet with the property. *)
Definition held (P : SentPacket -> bool) (s : option SentPacket) : Z :=
  match s with Some p => if P p then 1 else 0 | None => 0 end.
Definition any_class (p : SentPacket) : bool := true.
Definition in_class (t : TrafficClass) (p : SentPacket) : bool := bool_decide (sp_traffic_class p = t).

Lemma held_bounds P s : 0 <= held P s <= 1.
Proof. destruct s as [p|]; cbn; [destruct (P p)|]; lia. Qed.

Lemma slot_index_range c : (slot_index c < 2048)%nat.
Proof. unfold slot_index, DELIVERY_HISTORY_CAPACITY. pose proof (Z.mod_pos_bound c 2048). lia. Qed.

(** ** The invariant *)

Definition slot_ok (generation : Z) (i : nat) (p : SentPacket) : Prop :=
  sp_generation p = generation /\ i = slot_index (sp_outer_counter p) /\ sp_ack_eliciting p = true /\ is_u32 (sp_bytes p).

Definition rate_ok (c : ClassState) : Prop := forall r, cs_delivery_rate_mbps c = Some r -> f_is_finite r = true.

(** The 64-bit counters that the aggregate sums. *)
Definition counters : list (ClassState -> Z) :=
  [cs_sent_packets; cs_sent_bytes; cs_acknowledged_packets; cs_acknowledged_bytes; cs_stale; cs_logical_reliable_retries;
   cs_outer_retransmissions; cs_rate_bytes].

Definition summed (e : DeliveryEstimator) (f : ClassState -> Z) : Prop :=
  (forall t, 0 <= f (class_at e t) <= U64_MAX) /\
  f (de_aggregate e) = Z.min U64_MAX (f (class_at e Critical) + f (class_at e Audio) + f (class_at e Video)).

Record Core (e : DeliveryEstimator) : Prop := {
  co_history : length (de_history e) = 2048%nat;
  co_classes : length (de_classes e) = 3%nat;
  co_slot i p : history_at e i = Some p -> slot_ok (de_generation e) i p;
  co_flight : cs_in_flight (de_aggregate e) = total (held any_class) (de_history e);
  co_class_flight t : cs_in_flight (class_at e t) = total (held (in_class t)) (de_history e);
  co_sums : Forall (summed e) counters;
  co_rates : rate_ok (de_aggregate e) /\ forall t, rate_ok (class_at e t);
}.

(** Unresolved packets are at or below the highest counter sent. *)
Definition below (e : DeliveryEstimator) : Prop :=
  forall i p, history_at e i = Some p -> 0 <= sp_outer_counter p <= default (-1) (de_highest_sent e).

(** Every packet that took a slot was acknowledged, evicted or is in flight. *)
Definition ledger (e : DeliveryEstimator) (n acks stales : Z) : Prop :=
  0 <= acks /\ 0 <= stales /\ cs_acknowledged_packets (de_aggregate e) = Z.min U64_MAX acks /\
  cs_stale (de_aggregate e) = Z.min U64_MAX stales /\ acks + stales + cs_in_flight (de_aggregate e) = n.

Record EstOk (e : DeliveryEstimator) (n : Z) : Prop := {
  eo_core : Core e;
  eo_below : below e;
  eo_ledger : exists acks stales, ledger e n acks stales;
}.

(** [g] adds a fixed amount to the counter [f], saturating. *)
Definition bumps (g : ClassState -> ClassState) (f : ClassState -> Z) : Prop :=
  exists d, 0 <= d /\ forall c, 0 <= f c <= U64_MAX -> f (g c) = sat64_add (f c) d.

(** [g] changes the in-flight count by [d]. *)
Definition moves (g : ClassState -> ClassState) (d : Z) : Prop :=
  (forall c, 0 <= cs_in_flight c <= 2048 -> 0 <= cs_in_flight c + d <= 2048 -> cs_in_flight (g c) = cs_in_flight c + d) /\
  (forall c, cs_delivery_rate_mbps (g c) = cs_delivery_rate_mbps c).

Lemma both_class e t g t' : length (de_classes e) = 3%nat -> class_at (both e t g) t' = if decide (t = t') then g (class_at e t) else class_at e t'.
Proof.
  intros H. unfold class_at, both. cbn. destruct (de_classes e) as [|a [|b [|c [|? ?]]]]; try done.
  destruct t, t'; reflexivity.
Qed.

Lemma both_length e t g : length (de_classes (both e t g)) = length (de_classes e).
Proof. cbn. by rewrite length_alter. Qed.

Lemma summed_bump e t g f : length (de_classes e) = 3%nat -> bumps g f -> summed e f -> summed (both e t g) f.
Proof.
  intros Hl (d & Hd & Hg) [Hr Ha].
  assert (Hc : forall t', 0 <= f (class_at (both e t g) t') <= U64_MAX).
  { intros t'. rewrite both_class by done. case_decide; [|done]. rewrite Hg by done. specialize (Hr t).
    unfold sat64_add, saturating_add. lia. }
  split; [done|]. change (de_aggregate (both e t g)) with (g (de_aggregate e)).
  pose proof (Hr Critical). pose proof (Hr Audio). pose proof (Hr Video).
  rewrite Hg by (rewrite Ha; unfold U64_MAX in *; lia). rewrite !both_class, Ha by done. unfold sat64_add, saturating_add.
  destruct t; repeat (case_decide; try congruence); rewrite ?Hg by done; unfold sat64_add, saturating_add; lia.
Qed.

(** Moving one slot and its class together keeps the core invariant. *)
Lemma core_move e i s t g d :
  Core e -> (i < 2048)%nat -> Forall (bumps g) counters -> moves g d ->
  held any_class s = held any_class (history_at e i) + d ->
  (forall t', held (in_class t') s = held (in_class t') (history_at e i) + if decide (t = t') then d else 0) ->
  (forall p, s = Some p -> slot_ok (de_generation e) i p) ->
  Core (both (set_history e i s) t g).
Proof.
  intros [Hh Hc Hs Hf Hcf Hsum [Hra Hrc]] Hi Hb [Hm Hrate] Hd Hdt Hok.
  assert (Hlk : de_history e !! i = Some (history_at e i)).
  { unfold history_at. destruct (lookup_lt_is_Some_2 (de_history e) i) as [x Hx]; [lia|]. by rewrite Hx. }
  assert (Ht : forall P, total (held P) (<[i := s]> (de_history e)) = total (held P) (de_history e) - held P (history_at e i) + held P s).
  { intros P. by apply total_insert. }
  assert (Hb2 : forall P, 0 <= total (held P) (de_history e) <= 2048 /\ 0 <= total (held P) (<[i := s]> (de_history e)) <= 2048).
  { intros P. pose proof (total_bounds (held P) (de_history e) (held_bounds P)).
    pose proof (total_bounds (held P) (<[i := s]> (de_history e)) (held_bounds P)). rewrite zlen_insert in *. unfold zlen in *. lia. }
  constructor.
  - cbn. by rewrite length_insert.
  - by rewrite both_length.
  - intros j p. unfold history_at. cbn [both set_history de_history de_generation set_field]. cbn.
    intros H. destruct (decide (i = j)) as [->|Hne].
    + rewrite list_lookup_insert_eq in H by lia. by apply Hok.
    + rewrite list_lookup_insert_ne in H by done. by apply Hs.
  - cbn. rewrite Hm; [rewrite Ht; lia|rewrite Hf; apply Hb2|]. pose proof (Hb2 any_class) as [_ B]. rewrite Ht in B. lia.
  - intros t'. rewrite both_class by done. change (class_at (set_history e i s) ?x) with (class_at e x).
    change (de_history (both (set_history e i s) t g)) with (<[i := s]> (de_history e)). specialize (Hdt t').
    pose proof (Hb2 (in_class t')) as [B1 B2]. rewrite Ht in *. case_decide as E; [subst t'|rewrite Hcf; lia].
    rewrite Hm; rewrite Hcf; lia.
  - rewrite Forall_forall in Hsum |- *. rewrite Forall_forall in Hb. intros f Hin. apply summed_bump; [done|by apply Hb|].
    exact (Hsum f Hin).
  - split; [intros r; cbn; rewrite Hrate; apply Hra|]. intros t' r. rewrite both_class by done.
    change (class_at (set_history e i s) ?x) with (class_at e x). case_decide; [rewrite Hrate|]; apply Hrc.
Qed.

(** ** The four moves of the source *)

Ltac bump_by d :=
  exists d; split; [unfold is_u32 in *; lia|intros [? ? ? ? ? ? ? ? ? ?] Hc; cbn in *; unfold sat64_add, saturating_add; lia].
Ltac solve_bumps b :=
  repeat (apply List.Forall_cons; [first [bump_by 0 | bump_by 1 | bump_by b]|]); apply List.Forall_nil.

Lemma bumps_in_flight : Forall (bumps class_in_flight) counters.
Proof. solve_bumps 0. Qed.

Lemma bumps_stale : Forall (bumps class_stale) counters.
Proof. solve_bumps 0. Qed.

Lemma bumps_acknowledged b : is_u32 b -> Forall (bumps (class_acknowledged b)) counters.
Proof. intros Hb. solve_bumps b. Qed.

Lemma bumps_stats b p outer : is_u32 b -> Forall (bumps (fun c => add_sent_stats c b p outer)) counters.
Proof. intros Hb. unfold add_sent_stats. destruct (sp_logical_retransmission p), outer; solve_bumps b. Qed.

Lemma moves_in_flight : moves class_in_flight 1.
Proof. split; [|done]. intros c H1 H2. cbn. unfold sat32_add, saturating_add, U32_MAX. lia. Qed.

Lemma moves_stale : moves class_stale (-1).
Proof. split; [|done]. intros c H1 H2. cbn. unfold saturating_sub. lia. Qed.

Lemma moves_acknowledged b : moves (class_acknowledged b) (-1).
Proof. split; [|done]. intros c H1 H2. cbn. unfold saturating_sub. lia. Qed.

Lemma moves_stats b p outer : moves (fun c => add_sent_stats c b p outer) 0.
Proof. unfold add_sent_stats. destruct (sp_logical_retransmission p), outer; (split; [intros [] ? ?; cbn in *; lia|intros []; done]). Qed.

Create HintDb delivery.
#[export] Hint Resolve bumps_in_flight bumps_stale bumps_acknowledged bumps_stats moves_in_flight moves_stale moves_acknowledged moves_stats slot_index_range : delivery.

Lemma held_class_retire p t' : held (in_class t') None = held (in_class t') (Some p) + if decide (sp_traffic_class p = t') then -1 else 0.
Proof. cbn. unfold in_class. case_decide; [rewrite bool_decide_eq_true_2|rewrite bool_decide_eq_false_2]; (done || lia). Qed.

(** A slot is freed: its packet was acknowledged or evicted. *)
Lemma core_retire e i p g :
  Core e -> (i < 2048)%nat -> history_at e i = Some p -> Forall (bumps g) counters -> moves g (-1) ->
  Core (both (set_history e i None) (sp_traffic_class p) g).
Proof.
  intros H Hi Hp Hb Hm. apply (core_move _ _ _ _ _ (-1)); try done; rewrite Hp; [done|]. intros t'. apply held_class_retire.
Qed.

(** A slot is taken by a fresh packet. *)
Lemma core_occupy e p :
  Core e -> history_at e (slot_index (sp_outer_counter p)) = None ->
  slot_ok (de_generation e) (slot_index (sp_outer_counter p)) p ->
  Core (add_in_flight (set_history e (slot_index (sp_outer_counter p)) (Some p)) (sp_traffic_class p)).
Proof.
  intros H Hn Hok. apply (core_move _ _ _ _ _ 1); auto with delivery; rewrite ?Hn; try done.
  - intros t'. pose proof (held_class_retire p t'). cbn [held] in *. case_decide; lia.
  - by intros q [= <-].
Qed.

Lemma history_at_lt e i p : Core e -> history_at e i = Some p -> (i < 2048)%nat.
Proof.
  intros H. unfold history_at. destruct (de_history e !! i) as [x|] eqn:E; [|done]. intros _. apply lookup_lt_Some in E.
  by rewrite (co_history _ H) in E.
Qed.

(** An occupied slot is counted. *)
Lemma flight_pos e i p : Core e -> history_at e i = Some p -> 1 <= cs_in_flight (de_aggregate e).
Proof.
  intros H Hi. rewrite (co_flight _ H). assert (Hl : de_history e !! i = Some (Some p)).
  { unfold history_at in Hi. destruct (de_history e !! i); cbn in Hi; congruence. }
  pose proof (total_insert (held any_class) (de_history e) i None (Some p) Hl) as E.
  pose proof (total_bounds (held any_class) (<[i := None]> (de_history e)) (held_bounds _)). cbn [held any_class] in E. lia.
Qed.

Lemma class_flight_pos e i p t : Core e -> history_at e i = Some p -> in_class t p = true -> 1 <= cs_in_flight (class_at e t).
Proof.
  intros H Hi Ht. rewrite (co_class_flight _ H). assert (Hl : de_history e !! i = Some (Some p)).
  { unfold history_at in Hi. destruct (de_history e !! i); cbn in Hi; congruence. }
  pose proof (total_insert (held (in_class t)) (de_history e) i None (Some p) Hl) as E.
  pose proof (total_bounds (held (in_class t)) (<[i := None]> (de_history e)) (held_bounds _)). cbn [held] in E. rewrite Ht in E. lia.
Qed.

Lemma history_at_set e i s j : Core e -> (i < 2048)%nat -> history_at (set_history e i s) j = if decide (i = j) then s else history_at e j.
Proof.
  intros H Hi. unfold history_at, set_history. cbn. case_decide as E.
  - subst j. rewrite list_lookup_insert_eq; [done|]. rewrite (co_history _ H). lia.
  - by rewrite list_lookup_insert_ne.
Qed.

(** Sending statistics touch no slot. *)
Lemma core_stats e p outer : Core e -> is_u32 (sp_bytes p) -> Core (record_sent_stats e p outer).
Proof.
  intros H Hb. assert (E : set_history e 0 (history_at e 0) = e).
  { unfold set_history, history_at. destruct (lookup_lt_is_Some_2 (de_history e) 0) as [x Hx]; [rewrite (co_history _ H); lia|].
    rewrite Hx. cbn. rewrite list_insert_id by done. by destruct e. }
  unfold record_sent_stats. rewrite <- E at 1. apply (core_move _ _ _ _ _ 0); auto with delivery; try lia.
  - intros t'. case_decide; lia.
  - intros q Hq. exact (co_slot _ H _ _ Hq).
Qed.

(** A resend replaces an entry by one of the same class. *)
Lemma core_resend e p q :
  Core e -> history_at e (slot_index (sp_outer_counter p)) = Some q -> sp_traffic_class q = sp_traffic_class p ->
  slot_ok (de_generation e) (slot_index (sp_outer_counter p)) p ->
  Core (record_sent_stats (set_history e (slot_index (sp_outer_counter p)) (Some p)) p true).
Proof.
  intros H Hq Hc Hok. pose proof Hok as (_ & _ & _ & Hb). apply (core_move _ _ _ _ _ 0); auto with delivery; rewrite ?Hq; try done.
  - intros t'. cbn. unfold in_class. rewrite Hc. case_decide; lia.
  - by intros r [= <-].
Qed.

Lemma core_same e e' :
  Core e -> de_generation e' = de_generation e -> de_history e' = de_history e -> de_aggregate e' = de_aggregate e -> de_classes e' = de_classes e -> Core e'.
Proof.
  intros [? ? Hs ? Hcf Hsum Hr] Eg Eh Ea Ec.
  assert (Hc : forall t, class_at e' t = class_at e t) by (intros t; unfold class_at; by rewrite Ec).
  assert (Hh : forall i, history_at e' i = history_at e i) by (intros i; unfold history_at; by rewrite Eh).
  constructor; rewrite ?Eg, ?Eh, ?Ea, ?Ec; try done.
  - intros i p. rewrite Hh. apply Hs.
  - intros t. rewrite Hc. apply Hcf.
  - rewrite Forall_forall in Hsum |- *. intros f Hf. destruct (Hsum f Hf) as [Hb E]. split; [intros t; by rewrite Hc|].
    by rewrite Ea, !Hc.
  - destruct Hr as [? Hrt]. split; [done|]. intros t. rewrite Hc. apply Hrt.
Qed.

Lemma core_new g : Core (estimator_new g).
Proof.
  constructor; try done.
  - intros i p. unfold history_at, estimator_new. cbn [de_history]. destruct (replicate _ _ !! i) as [x|] eqn:E; [|done].
    apply lookup_replicate in E as [-> _]. done.
  - intros t. transitivity 0; [by destruct t|]. symmetry. cbn [estimator_new de_history]. by apply total_replicate.
  - assert (Hz : forall f, f class_empty = 0 -> summed (estimator_new g) f).
    { intros f Hf. assert (Hc : forall t, class_at (estimator_new g) t = class_empty) by (by intros []).
      split; [intros t; rewrite Hc|rewrite !Hc; cbn]; rewrite Hf; done. }
    repeat constructor; by apply Hz.
  - split; [done|]. intros []; done.
Qed.

Lemma decimal_mbps_finite b el : f_is_finite (decimal_mbps b el) = true.
Proof. unfold decimal_mbps. by destruct (f_is_finite (_ / _)%f64) eqn:E. Qed.

Lemma core_sample e now : Core e -> Core (maybe_sample_rate e now).
Proof.
  intros H. unfold maybe_sample_rate. destruct (de_rate_sample_start_ms e) as [st|]; [|done]. case_match; [done|].
  set (el := elapsed_ms now st) in *. set (e' := _ <| de_rate_sample_start_ms := _ |>).
  pose proof H as [Hh Hl Hs Hf Hcf Hsum [Hra Hrc]].
  assert (Hc : forall t, class_at e' t = sample_class el (class_at e t)).
  { intros t. unfold class_at, e'. cbn. rewrite list_lookup_fmap. destruct (lookup_lt_is_Some_2 (de_classes e) (class_index t)) as [x Hx].
    - destruct t; cbn; lia.
    - by rewrite Hx. }
  assert (Hcc : forall c, cs_rate_bytes (sample_class el c) = 0 /\ cs_in_flight (sample_class el c) = cs_in_flight c /\
    (rate_ok c -> rate_ok (sample_class el c))).
  { intros c. unfold sample_class. destruct (0 <? cs_rate_bytes c); (split; [done|]; split; [done|]); intros Hr r; cbn.
    - intros [= <-]. apply decimal_mbps_finite.
    - apply Hr. }
  constructor; try done.
  - unfold e'. cbn. by rewrite length_fmap.
  - intros t. rewrite Hc. destruct (Hcc (class_at e t)) as (_ & -> & _). apply Hcf.
  - repeat (apply List.Forall_cons; [|]); try apply List.Forall_nil.
    all: match goal with |- summed _ ?f => assert (Hsf : summed e f) by (rewrite Forall_forall in Hsum; apply Hsum; repeat constructor); destruct Hsf as [Hr Ha] end.
    1-7: split; [intros t; rewrite Hc; specialize (Hr t)|rewrite !Hc]; unfold sample_class; repeat case_match; cbn; done.
    split; [intros t; rewrite Hc|rewrite !Hc]; rewrite ?(proj1 (Hcc _)); done.
  - split; [intros r; cbn; intros [= <-]; apply decimal_mbps_finite|]. intros t. rewrite Hc. apply (Hcc (class_at e t)), Hrc.
Qed.

(** ** The abstract view *)

(** The unresolved packet with this counter. *)
Definition outstanding (e : DeliveryEstimator) (counter : Z) : option SentPacket :=
  match history_at e (slot_index counter) with
  | Some p => if sp_outer_counter p =? counter then Some p else None
  | None => None
  end.

(** A resend must repeat the packet it resends. *)
Definition repeats (e : DeliveryEstimator) (p : SentPacket) : bool :=
  match outstanding e (sp_outer_counter p) with
  | Some q => (sp_bytes q =? sp_bytes p) && bool_decide (sp_traffic_class q = sp_traffic_class p)
  | None => true
  end.

Definition packet_ok (p : SentPacket) : Prop := is_u64 (sp_generation p) /\ is_u64 (sp_outer_counter p) /\ is_u32 (sp_bytes p).

Lemma elapsed_num now earlier : f_is_nan (elapsed_ms now earlier) = false.
Proof. unfold elapsed_ms. destruct (f_is_finite _) eqn:E; [by apply f_max_num|done]. Qed.

Lemma stale_or_young now earlier :
  (elapsed_ms now earlier >=? STALE_AFTER_MS)%f64 = negb (elapsed_ms now earlier <? STALE_AFTER_MS)%f64.
Proof.
  destruct (elapsed_ms now earlier <? STALE_AFTER_MS)%f64 eqn:E; cbn; [by apply f_ltb_not_leb|].
  apply f_ltb_false; [apply elapsed_num|done|done].
Qed.

Lemma outstanding_history e c p : outstanding e c = Some p -> history_at e (slot_index c) = Some p /\ sp_outer_counter p = c.
Proof.
  unfold outstanding. destruct (history_at e (slot_index c)) as [q|]; [|done].
  destruct (Z.eqb_spec (sp_outer_counter q) c); [|done]. by intros [= <-].
Qed.

(** In the current generation the slot's identity is the counter alone. *)
Lemma entry_is_outstanding e c :
  Core e -> match history_at e (slot_index c) with Some p => if entry_is (de_generation e) c p then Some p else None | None => None end = outstanding e c.
Proof.
  intros H. unfold outstanding. destruct (history_at e (slot_index c)) as [p|] eqn:E; [|done].
  destruct (co_slot _ H _ _ E) as (Hg & _). unfold entry_is. by rewrite Hg, Z.eqb_refl.
Qed.

Lemma outstanding_set e e' i s c :
  Core e -> (i < 2048)%nat -> de_history e' = <[i := s]> (de_history e) -> (forall p, s = Some p -> i = slot_index (sp_outer_counter p)) ->
  outstanding e' c = if decide (slot_index c = i) then (match s with Some p => if sp_outer_counter p =? c then Some p else None | None => None end) else outstanding e c.
Proof.
  intros H Hi Eh Hs. assert (Hh : history_at e' (slot_index c) = history_at (set_history e i s) (slot_index c)).
  { unfold history_at, set_history. cbn. by rewrite Eh. }
  unfold outstanding. rewrite Hh, history_at_set by done. repeat case_decide; congruence || done.
Qed.

(** ** Recording *)

Lemma validate_none e p :
  validate_packet e p = None <->
  sp_generation p <> 0 /\ sp_generation p = de_generation e /\ acceptable_timestamp e (sp_sent_at_ms p) = true.
Proof.
  unfold validate_packet. destruct (Z.eqb_spec (sp_generation p) 0); [naive_solver|].
  destruct (Z.ltb_spec (sp_generation p) (de_generation e)); [split; [done|lia]|].
  destruct (Z.ltb_spec (de_generation e) (sp_generation p)); [split; [done|lia]|].
  destruct (acceptable_timestamp e (sp_sent_at_ms p)); cbn; [|naive_solver]. split; [intros _; split; [done|lia]|done].
Qed.

(** What a successful call left behind. *)
Record Recorded (e e' : DeliveryEstimator) (p : SentPacket) (o : SendOutcome) (n : Z) : Prop := {
  re_ok : EstOk e' (if sp_ack_eliciting p && negb (so_outer_retransmission o) then n + 1 else n);
  re_generation : de_generation e' = de_generation e;
  re_outstanding c :
    outstanding e' c =
    if sp_ack_eliciting p && bool_decide (slot_index c = slot_index (sp_outer_counter p))
    then (if sp_outer_counter p =? c then Some p else None) else outstanding e c;
  re_evicted : so_stale_evicted o = true <-> sp_ack_eliciting p = true /\ so_outer_retransmission o = false /\ is_Some (history_at e (slot_index (sp_outer_counter p)));
}.

Lemma resend_ok e p n highest :
  EstOk e n -> packet_ok p -> sp_generation p = de_generation e -> de_highest_sent e = Some highest -> sp_outer_counter p <= highest ->
  match record_resend e p with
  | (e', inl o) => Recorded e e' p o n /\ sp_ack_eliciting p = true /\ is_Some (outstanding e (sp_outer_counter p)) /\ repeats e p = true
  | (e', inr err) => e' = e /\ (sp_ack_eliciting p = true -> outstanding e (sp_outer_counter p) = None \/ repeats e p = false)
  end.
Proof.
  intros [Hc Hb (acks & stales & Hl)] (_ & Hpc & Hpb) Hg Hh Hle. unfold record_resend, repeats.
  pose proof (entry_is_outstanding e (sp_outer_counter p) Hc) as Ho. rewrite <- Hg in Ho.
  destruct (history_at e (slot_index (sp_outer_counter p))) as [q|] eqn:Eq; [|split; [done|]; rewrite <- Ho; by left].
  destruct (sp_ack_eliciting p) eqn:Ea; cbn [andb]; [|done].
  destruct (entry_is _ _ _) eqn:Ei; [|split; [done|]; rewrite <- Ho; by left]. rewrite <- Ho.
  destruct (co_slot _ Hc _ _ Eq) as (_ & _ & Hqa & _). rewrite Hqa. cbn [negb]. rewrite orb_false_r, <- negb_andb.
  destruct (_ && _) eqn:Em; cbn [negb]; [|by split; [|right]].
  apply andb_true_iff in Em as [_ Ecl%bool_decide_eq_true_1].
  assert (Hso : slot_ok (de_generation e) (slot_index (sp_outer_counter p)) p) by done.
  pose proof (core_resend e p q Hc Eq Ecl Hso) as Hc'. split; [|by eauto].
  constructor; cbn [so_outer_retransmission so_stale_evicted negb]; rewrite ?Ea; cbn [andb].
  - constructor.
    + by eapply core_same; [exact Hc'|..].
    + intros i r Hi. assert (Hi' : history_at (set_history e (slot_index (sp_outer_counter p)) (Some p)) i = Some r) by exact Hi.
      rewrite history_at_set in Hi' by (done || apply slot_index_range). change (de_highest_sent (_ <| de_last_timestamp_ms := _ |>)) with (de_highest_sent e).
      case_decide; [injection Hi' as <-; rewrite Hh; cbn; unfold is_u64 in Hpc; lia|]. exact (Hb _ _ Hi').
    + exists acks, stales. destruct Hl as (? & ? & ? & ? & ?). unfold ledger, record_sent_stats, add_sent_stats. cbn.
      rewrite andb_false_r. done.
  - done.
  - intros c. rewrite (outstanding_set e _ (slot_index (sp_outer_counter p)) (Some p) c Hc (slot_index_range _)); [|done|by intros ? [= <-]].
    case_decide; [rewrite bool_decide_eq_true_2 by done|rewrite bool_decide_eq_false_2 by done]; done.
  - split; [done|naive_solver].
Qed.

(** The slot of a fresh counter: taken when free or aged, else refused. *)
Lemma claim_slot_ok e p n :
  Core e -> packet_ok p -> sp_generation p = de_generation e -> sp_ack_eliciting p = true -> (exists acks stales, ledger e n acks stales) ->
  match claim_slot e p with
  | (e', inl evicted) =>
      Core e' /\ de_generation e' = de_generation e /\ de_highest_sent e' = de_highest_sent e /\
      de_history e' = <[slot_index (sp_outer_counter p) := Some p]> (de_history e) /\
      (exists acks stales, ledger e' (n + 1) acks stales) /\
      match history_at e (slot_index (sp_outer_counter p)) with
      | Some q => evicted = true /\ (elapsed_ms (sp_sent_at_ms p) (sp_sent_at_ms q) <? STALE_AFTER_MS)%f64 = false
      | None => evicted = false
      end
  | (e', inr err) =>
      e' = e /\ exists q, history_at e (slot_index (sp_outer_counter p)) = Some q /\ (elapsed_ms (sp_sent_at_ms p) (sp_sent_at_ms q) <? STALE_AFTER_MS)%f64 = true
  end.
Proof.
  intros Hc (_ & _ & Hb) Hg Ha (acks & stales & Hl). unfold claim_slot. set (i := slot_index (sp_outer_counter p)).
  assert (Hi : (i < 2048)%nat) by apply slot_index_range. assert (Hso : slot_ok (de_generation e) i p) by done.
  assert (Htake : forall e1 k, Core e1 -> history_at e1 i = None -> de_generation e1 = de_generation e -> (exists a s, ledger e1 k a s) ->
    let e2 := match de_rate_sample_start_ms (add_in_flight (set_history e1 i (Some p)) (sp_traffic_class p)) with
              | None => add_in_flight (set_history e1 i (Some p)) (sp_traffic_class p) <| de_rate_sample_start_ms := Some (sp_sent_at_ms p) |>
              | Some _ => add_in_flight (set_history e1 i (Some p)) (sp_traffic_class p) end in
    Core e2 /\ de_generation e2 = de_generation e1 /\ de_highest_sent e2 = de_highest_sent e1 /\ de_history e2 = <[i := Some p]> (de_history e1) /\
    exists a s, ledger e2 (k + 1) a s).
  { intros e1 k Hc1 Hn Hg1 (a & s & H1 & H2 & H3 & H4 & H5) e2. rewrite <- Hg1 in Hso. pose proof (core_occupy e1 p Hc1 Hn Hso) as Hc2.
    assert (E : de_generation e2 = de_generation e1 /\ de_highest_sent e2 = de_highest_sent e1 /\ de_history e2 = <[i := Some p]> (de_history e1) /\
      de_aggregate e2 = class_in_flight (de_aggregate e1) /\ de_classes e2 = de_classes (add_in_flight (set_history e1 i (Some p)) (sp_traffic_class p))).
    { unfold e2. by case_match. }
    destruct E as (E1 & E2 & E3 & E4 & E5). split; [by apply (core_same _ e2 Hc2)|]. do 3 (split; [done|]).
    exists a, s. unfold ledger. rewrite E4. cbn. rewrite (co_flight _ Hc1) in *.
    pose proof (total_bounds (held any_class) (de_history e1) (held_bounds _)) as B. unfold zlen in B. rewrite (co_history _ Hc1) in B.
    unfold sat32_add, saturating_add, U32_MAX. do 4 (split; [done|]). lia. }
  destruct (history_at e i) as [q|] eqn:Eq.
  - destruct (_ <? _)%f64 eqn:Ey; [by eauto|].
    pose proof (core_retire e i q class_stale Hc Hi Eq bumps_stale moves_stale) as Hc1.
    set (e1 := set_history (mark_stale e q) i None). assert (Hc1' : Core e1) by exact Hc1.
    destruct (Htake e1 n) as (R1 & R2 & R3 & R4 & R5).
    + done.
    + change (history_at (set_history e i None) i = None). rewrite history_at_set by done. by rewrite decide_True.
    + done.
    + exists acks, (stales + 1). destruct Hl as (L1 & L2 & L3 & L4 & L5). unfold ledger.
      change (de_aggregate e1) with (class_stale (de_aggregate e)). cbn. rewrite L3, L4. unfold sat64_add, saturating_add, saturating_sub.
      pose proof (flight_pos e i q Hc Eq). repeat split; lia.
    + split; [done|]. split; [done|]. split; [done|]. split; [|done]. rewrite R4. apply list_insert_insert_eq.
  - destruct (Htake e n Hc Eq eq_refl) as (R1 & R2 & R3 & R4 & R5); [by eauto|]. by split_and!.
Qed.

Lemma fresh_not_outstanding e c : below e -> default (-1) (de_highest_sent e) < c -> outstanding e c = None.
Proof.
  intros Hb Hc. destruct (outstanding e c) as [p|] eqn:E; [|done]. apply outstanding_history in E as [E <-]. specialize (Hb _ _ E). lia.
Qed.

(** The bookkeeping common to every fresh packet. *)
Lemma record_close e e1 p n highest :
  Core e1 -> is_u64 (sp_outer_counter p) -> is_u32 (sp_bytes p) -> (exists acks stales, ledger e1 n acks stales) -> below e ->
  default (-1) (de_highest_sent e) < sp_outer_counter p ->
  (forall i q, history_at e1 i = Some q -> q = p \/ history_at e i = Some q) -> highest = sp_outer_counter p ->
  EstOk (record_sent_stats e1 p false <| de_highest_sent := Some highest |> <| de_last_timestamp_ms := Some (sp_sent_at_ms p) |>) n.
Proof.
  intros Hc Hu Hby (acks & stales & Hl) Hb Hlt Hh ->. constructor.
  - eapply core_same; [exact (core_stats e1 p false Hc Hby)|done..].
  - intros i q Hq. cbn [default de_highest_sent set_field]. cbn. change (history_at _ i = Some q) with (history_at e1 i = Some q) in Hq.
    unfold is_u64 in Hu. destruct (Hh _ _ Hq) as [->|Hq']; [lia|]. specialize (Hb _ _ Hq'). lia.
  - exists acks, stales. destruct Hl as (? & ? & ? & ? & ?). unfold ledger, record_sent_stats, add_sent_stats. cbn. by destruct (sp_logical_retransmission p).
Qed.

Lemma fresh_ok e p n :
  EstOk e n -> packet_ok p -> sp_generation p = de_generation e -> default (-1) (de_highest_sent e) < sp_outer_counter p ->
  match record_fresh e p with
  | (e', inl o) => Recorded e e' p o n /\ so_outer_retransmission o = false /\
      (sp_ack_eliciting p = true -> forall q, history_at e (slot_index (sp_outer_counter p)) = Some q ->
        (elapsed_ms (sp_sent_at_ms p) (sp_sent_at_ms q) <? STALE_AFTER_MS)%f64 = false)
  | (e', inr err) => e' = e /\ sp_ack_eliciting p = true /\ exists q, history_at e (slot_index (sp_outer_counter p)) = Some q /\
        (elapsed_ms (sp_sent_at_ms p) (sp_sent_at_ms q) <? STALE_AFTER_MS)%f64 = true
  end.
Proof.
  intros [Hc Hb Hl] Hp Hg Hlt. pose proof Hp as (_ & Hu & Hby). unfold record_fresh.
  assert (Hmax : match de_highest_sent e with None => sp_outer_counter p | Some h => Z.max h (sp_outer_counter p) end = sp_outer_counter p).
  { destruct (de_highest_sent e); cbn in Hlt; [|done]. change (id z) with z in Hlt. lia. }
  destruct (sp_ack_eliciting p) eqn:Ea.
  - pose proof (claim_slot_ok e p n Hc Hp Hg Ea Hl) as Hcl. destruct (claim_slot e p) as [e1 [ev|err]]; [|by destruct Hcl as [-> ?]].
    destruct Hcl as (Hc1 & Hg1 & Hh1 & Hhist & Hl1 & Hev). split; [|split; [done|]].
    + constructor; cbn [so_outer_retransmission so_stale_evicted negb]; rewrite ?Ea; cbn [andb].
      * change (de_highest_sent (record_sent_stats e1 p false)) with (de_highest_sent e1). apply (record_close e); try done; [|by rewrite Hh1].
        intros i q Hq. assert (Hq' : history_at (set_history e (slot_index (sp_outer_counter p)) (Some p)) i = Some q).
        { revert Hq. unfold history_at at 1. rewrite Hhist. done. }
        rewrite history_at_set in Hq' by (done || apply slot_index_range). case_decide; [left; congruence|by right].
      * done.
      * intros c. rewrite (outstanding_set e _ (slot_index (sp_outer_counter p)) (Some p) c Hc (slot_index_range _)); [|done|by intros ? [= <-]].
        case_decide; [rewrite bool_decide_eq_true_2 by done|rewrite bool_decide_eq_false_2 by done]; done.
      * destruct (history_at e _) as [q|]; [destruct Hev as [-> _]; split; eauto|subst ev; split; [done|]; intros (_ & _ & [? [=]])].
    + intros _ q Hq. rewrite Hq in Hev. apply Hev.
  - split; [|split; [done|done]]. constructor; cbn [so_outer_retransmission so_stale_evicted negb]; rewrite ?Ea; cbn [andb].
    + change (de_highest_sent (record_sent_stats e p false)) with (de_highest_sent e). apply (record_close e); try done. by right.
    + done.
    + done.
    + naive_solver.
Qed.

Lemma record_sent_ok e p n :
  EstOk e n -> packet_ok p ->
  match record_sent e p with
  | (e', inl o) => Recorded e e' p o n /\ (sp_ack_eliciting p = true -> can_record e (sp_generation p) (sp_outer_counter p) (sp_sent_at_ms p) && repeats e p = true)
  | (e', inr err) => e' = e /\ (sp_ack_eliciting p = true -> can_record e (sp_generation p) (sp_outer_counter p) (sp_sent_at_ms p) && repeats e p = false)
  end.
Proof.
  intros He Hp. unfold record_sent, can_record. destruct (validate_packet e p) as [err|] eqn:Ev.
  { split; [done|]. intros _. apply andb_false_intro1.
    destruct (Z.eqb_spec (sp_generation p) 0); [done|]. destruct (Z.eqb_spec (sp_generation p) (de_generation e)); [|done]. cbn [orb negb].
    destruct (acceptable_timestamp e (sp_sent_at_ms p)) eqn:Et; [|done]. assert (validate_packet e p = None) by by apply validate_none. congruence. }
  apply validate_none in Ev as (Hg0 & Hg & Ht). rewrite (proj2 (Z.eqb_neq _ _) Hg0), Hg, Z.eqb_refl, Ht. cbn [negb orb].
  pose proof (entry_is_outstanding e (sp_outer_counter p) (eo_core _ _ He)) as Ho.
  assert (Hfresh : default (-1) (de_highest_sent e) < sp_outer_counter p ->
    match record_fresh e p with
    | (e', inl o) => Recorded e e' p o n /\ (sp_ack_eliciting p = true -> match history_at e (slot_index (sp_outer_counter p)) with
        | None => true | Some q => (elapsed_ms (sp_sent_at_ms p) (sp_sent_at_ms q) >=? STALE_AFTER_MS)%f64 end && repeats e p = true)
    | (e', inr err) => e' = e /\ (sp_ack_eliciting p = true -> match history_at e (slot_index (sp_outer_counter p)) with
        | None => true | Some q => (elapsed_ms (sp_sent_at_ms p) (sp_sent_at_ms q) >=? STALE_AFTER_MS)%f64 end && repeats e p = false)
    end).
  { intros Hlt. pose proof (fresh_ok e p n He Hp Hg Hlt) as Hf. unfold repeats. rewrite (fresh_not_outstanding e _ (eo_below _ _ He) Hlt), andb_true_r.
    destruct (record_fresh e p) as [e' [o|err]].
    - destruct Hf as (Hr & _ & Hy). split; [done|]. intros Ha. destruct (history_at e _) as [q|]; [|done]. rewrite stale_or_young.
      by rewrite (Hy Ha q eq_refl).
    - destruct Hf as (-> & Ha & q & -> & Hy). split; [done|]. intros _. by rewrite stale_or_young, Hy. }
  destruct (de_highest_sent e) as [h|] eqn:Eh.
  - destruct (Z.leb_spec (sp_outer_counter p) h) as [Hle|Hgt]; [|apply Hfresh; cbn; lia].
    pose proof (resend_ok e p n h He Hp Hg Eh Hle) as Hr. destruct (record_resend e p) as [e' [o|err]].
    + destruct Hr as (Hr & Ha & [q Hq] & ->). split; [done|]. intros _. rewrite andb_true_r. rewrite Hq in Ho.
      destruct (history_at e _) as [r|]; [|done]. by destruct (entry_is _ _ r).
    + destruct Hr as (-> & Hr). split; [done|]. intros Ha. destruct (Hr Ha) as [Hn| ->]; [|apply andb_false_r]. apply andb_false_intro1. rewrite Hn in Ho.
      destruct (history_at e _) as [r|]; [|done]. by destruct (entry_is _ _ r).
  - apply Hfresh. destruct Hp as (_ & Hu & _). cbn. unfold is_u64 in Hu. lia.
Qed.

(** ** Acknowledging *)

(** The packet a bit of the bitmap retires. *)
Definition retired_by (e : DeliveryEstimator) (largest mask bit : Z) : option SentPacket :=
  if mask_bit mask bit then outstanding e (largest - bit) else None.
Definition retired (e : DeliveryEstimator) (largest mask : Z) (bits : list Z) : list SentPacket := omap (retired_by e largest mask) bits.
Definition named (largest mask : Z) (bits : list Z) (c : Z) : bool := existsb (fun bit => mask_bit mask bit && (largest - bit =? c)) bits.

Lemma ack_bit_eq largest mask s bit :
  Core (as_estimator s) ->
  ack_bit (de_generation (as_estimator s)) largest mask s bit =
  match retired_by (as_estimator s) largest mask bit with
  | None => s
  | Some p => mkAckState (both (set_history (as_estimator s) (slot_index (largest - bit)) None) (sp_traffic_class p) (class_acknowledged (sp_bytes p)))
                (sat32_add (as_packets s) 1) (sat64_add (as_bytes s) (sp_bytes p)) (if bit =? 0 then Some p else as_largest s)
  end.
Proof.
  intros H. unfold ack_bit, retired_by. destruct (mask_bit mask bit); [|done]. cbn [negb].
  rewrite <- (entry_is_outstanding _ (largest - bit) H). destruct (history_at _ _) as [p|]; [|done]. by destruct (entry_is _ _ p).
Qed.

(** What acknowledging the packets [ps] adds to a class's counters, or to the
    aggregate's. *)
Definition credit (ps : list SentPacket) (c : ClassState) : ClassState :=
  mkClassState (cs_sent_packets c) (cs_sent_bytes c)
    (Z.min U64_MAX (cs_acknowledged_packets c + zlen ps)) (Z.min U64_MAX (cs_acknowledged_bytes c + total sp_bytes ps))
    (cs_delivery_rate_mbps c) (cs_in_flight c - zlen ps) (cs_stale c) (cs_logical_reliable_retries c) (cs_outer_retransmissions c)
    (Z.min U64_MAX (cs_rate_bytes c + total sp_bytes ps)).

Definition counters_bounded (c : ClassState) : Prop :=
  cs_acknowledged_packets c <= U64_MAX /\ cs_acknowledged_bytes c <= U64_MAX /\ cs_rate_bytes c <= U64_MAX.

Lemma core_bounded e : Core e -> counters_bounded (de_aggregate e) /\ forall t, counters_bounded (class_at e t).
Proof.
  intros H. pose proof (co_sums _ H) as Hs. unfold counters in Hs. repeat rewrite list.Forall_cons in Hs.
  destruct Hs as (_ & _ & [A1 A2] & [B1 B2] & _ & _ & _ & [C1 C2] & _). split.
  - unfold counters_bounded. lia.
  - intros t. specialize (A1 t). specialize (B1 t). specialize (C1 t). unfold counters_bounded. lia.
Qed.

(** What the loop over the bits leaves, relative to where it started. *)
Record Swept (largest mask : Z) (bits : list Z) (s s' : ack_state) (e e' : DeliveryEstimator) : Prop := {
  sw_core : Core e';
  sw_fields : de_generation e' = de_generation e /\ de_highest_sent e' = de_highest_sent e /\ de_srtt_ms e' = de_srtt_ms e;
  sw_history i p : history_at e' i = Some p -> history_at e i = Some p;
  sw_outstanding c : outstanding e' c = if named largest mask bits c then None else outstanding e c;
  sw_packets : as_packets s + zlen bits <= U32_MAX -> as_packets s' = as_packets s + zlen (retired e largest mask bits);
  sw_bytes : as_bytes s + zlen bits * U32_MAX <= U64_MAX -> as_bytes s' = as_bytes s + total sp_bytes (retired e largest mask bits);
  sw_flight : cs_in_flight (de_aggregate e') = cs_in_flight (de_aggregate e) - zlen (retired e largest mask bits);
  sw_acked : forall a, cs_acknowledged_packets (de_aggregate e) = Z.min U64_MAX a ->
    cs_acknowledged_packets (de_aggregate e') = Z.min U64_MAX (a + zlen (retired e largest mask bits));
  sw_stale : cs_stale (de_aggregate e') = cs_stale (de_aggregate e);
  sw_aggregate : de_aggregate e' = credit (retired e largest mask bits) (de_aggregate e);
  sw_class t : class_at e' t = credit (List.filter (in_class t) (retired e largest mask bits)) (class_at e t);
  sw_largest : as_largest s' = match (if bool_decide (0 ∈ bits) then retired_by e largest mask 0 else None) with Some p => Some p | None => as_largest s end;
}.

Lemma credit_nil c : counters_bounded c -> credit [] c = c.
Proof.
  intros (H1 & H2 & H3). destruct c. unfold credit. cbn in *. rewrite zlen_nil, !Z.add_0_r, Z.sub_0_r, !Z.min_r by lia. done.
Qed.

Lemma credit_cons p ps c :
  1 <= cs_in_flight c -> 0 <= sp_bytes p -> 0 <= total sp_bytes ps -> credit ps (class_acknowledged (sp_bytes p) c) = credit (p :: ps) c.
Proof.
  intros H Hp Hps. unfold credit, class_acknowledged, sat64_add, saturating_add, saturating_sub. cbn. rewrite zlen_cons. pose proof (zlen_nonneg ps).
  f_equal; unfold U64_MAX; lia.
Qed.

Lemma zlen_retired e largest mask bits : zlen (retired e largest mask bits) <= zlen bits.
Proof. unfold retired, zlen. induction bits as [|b bits IH]; cbn; [done|]. destruct (retired_by _ _ _ _); cbn; lia. Qed.

Lemma total_bytes_bound e largest mask bits : Core e -> 0 <= total sp_bytes (retired e largest mask bits) <= zlen bits * U32_MAX.
Proof.
  intros H. induction bits as [|b bits IH]; [done|]. rewrite zlen_cons. unfold retired in *. cbn [omap list_omap].
  destruct (retired_by e largest mask b) as [p|] eqn:E; [|unfold U32_MAX in *; lia].
  unfold retired_by in E. destruct (mask_bit mask b); [|done].
  apply outstanding_history in E as [E _]. destruct (co_slot _ H _ _ E) as (_ & _ & _ & Hb). cbn [total]. unfold is_u32, M32, U32_MAX in *. lia.
Qed.

Lemma retired_bytes e largest mask bits x : Core e -> x ∈ retired e largest mask bits -> 0 <= sp_bytes x.
Proof.
  intros H (b & _ & Hb)%list_elem_of_omap. unfold retired_by in Hb. destruct (mask_bit mask b); [|done].
  apply outstanding_history in Hb as [E _]. destruct (co_slot _ H _ _ E) as (_ & _ & _ & Hu). unfold is_u32 in Hu. lia.
Qed.

Lemma total_filter_nonneg {A} (w : A -> Z) P l : (forall x, x ∈ l -> 0 <= w x) -> 0 <= total w (List.filter P l).
Proof.
  induction l as [|x l IH]; intros H; [done|]. cbn [List.filter]. specialize (IH ltac:(intros y Hy; apply H; by apply list_elem_of_further)).
  destruct (P x); [|done]. cbn [total]. pose proof (H x (list_elem_of_here _ _)). lia.
Qed.

(** The estimator after one bit retired [p]. *)
Definition retire (e : DeliveryEstimator) (counter : Z) (p : SentPacket) : DeliveryEstimator :=
  both (set_history e (slot_index counter) None) (sp_traffic_class p) (class_acknowledged (sp_bytes p)).

Lemma retire_ok e c p :
  Core e -> outstanding e c = Some p ->
  Core (retire e c p) /\ cs_in_flight (de_aggregate (retire e c p)) = cs_in_flight (de_aggregate e) - 1 /\ is_u32 (sp_bytes p) /\
  (forall i q, history_at (retire e c p) i = Some q -> history_at e i = Some q) /\
  (forall c', outstanding (retire e c p) c' = if c =? c' then None else outstanding e c') /\
  (forall t, class_at (retire e c p) t = if in_class t p then class_acknowledged (sp_bytes p) (class_at e t) else class_at e t) /\
  (forall t, in_class t p = true -> 1 <= cs_in_flight (class_at e t)).
Proof.
  intros H Ho. pose proof (outstanding_history _ _ _ Ho) as [Hh Hpc]. destruct (co_slot _ H _ _ Hh) as (_ & _ & _ & Hby).
  pose proof (flight_pos _ _ _ H Hh).
  split; [exact (core_retire _ _ p _ H (slot_index_range _) Hh (bumps_acknowledged _ Hby) (moves_acknowledged _))|].
  split; [cbn; unfold saturating_sub; lia|]. split; [done|]. split.
  - intros i q Hq. change (history_at (set_history e (slot_index c) None) i = Some q) in Hq.
    rewrite history_at_set in Hq by (done || apply slot_index_range). by case_decide.
  - split; [|split].
    + intros c'. rewrite (outstanding_set e _ (slot_index c) None) by (done || apply slot_index_range).
      destruct (Z.eqb_spec c c') as [<-|Hne]; [by rewrite decide_True|]. case_decide as Es; [|done].
      unfold outstanding. rewrite Es, Hh, Hpc. by rewrite (proj2 (Z.eqb_neq _ _) Hne).
    + intros t. unfold retire, in_class. rewrite both_class by apply (co_classes _ H). case_decide as Et.
      * subst t. by rewrite bool_decide_eq_true_2.
      * by rewrite bool_decide_eq_false_2.
    + intros t Ht. exact (class_flight_pos _ _ _ t H Hh Ht).
Qed.

(** Freeing one slot of the bitmap does not disturb the others. *)
Lemma retired_other e p largest mask b bits :
  Core e -> outstanding e (largest - b) = Some p -> b ∉ bits -> retired (retire e (largest - b) p) largest mask bits = retired e largest mask bits.
Proof.
  intros H Ho Hn. destruct (retire_ok e _ p H Ho) as (_ & _ & _ & _ & Hc & _). unfold retired.
  induction bits as [|x l IHl]; [done|]. apply not_elem_of_cons in Hn as [Hx Hl]. cbn. rewrite (IHl Hl).
  assert (retired_by (retire e (largest - b) p) largest mask x = retired_by e largest mask x) as ->; [|done].
  unfold retired_by. destruct (mask_bit mask x); [|done]. rewrite Hc. by rewrite (proj2 (Z.eqb_neq _ _)) by lia.
Qed.

Lemma ack_bit_retire largest mask s bit :
  Core (as_estimator s) ->
  ack_bit (de_generation (as_estimator s)) largest mask s bit =
  match retired_by (as_estimator s) largest mask bit with
  | None => s
  | Some p => mkAckState (retire (as_estimator s) (largest - bit) p) (sat32_add (as_packets s) 1) (sat64_add (as_bytes s) (sp_bytes p))
                (if bit =? 0 then Some p else as_largest s)
  end.
Proof. apply ack_bit_eq. Qed.

Lemma swept_nil largest mask s : Core (as_estimator s) -> Swept largest mask [] s s (as_estimator s) (as_estimator s).
Proof.
  intros H. constructor; try done; cbn [retired omap list_omap total]; rewrite ?zlen_nil, ?Z.add_0_r, ?Z.sub_0_r; try done.
  - intros a. by rewrite Z.add_0_r.
  - symmetry. apply credit_nil, core_bounded, H.
  - intros t. symmetry. apply credit_nil, core_bounded, H.
Qed.

Lemma swept_skip largest mask b bits s s' :
  retired_by (as_estimator s) largest mask b = None -> b ∉ bits ->
  Swept largest mask bits s s' (as_estimator s) (as_estimator s') -> Swept largest mask (b :: bits) s s' (as_estimator s) (as_estimator s').
Proof.
  intros Er Hn [S1 S2 S3 S4 S5 S6 S7 S8 S9 SA SC S10].
  assert (Hcons : retired (as_estimator s) largest mask (b :: bits) = retired (as_estimator s) largest mask bits) by (unfold retired; cbn; by rewrite Er).
  constructor; rewrite ?Hcons, ?zlen_cons; try done; try (intros; (apply S5 || apply S6); unfold U32_MAX in *; lia).
  - intros c. rewrite S4. cbn [named existsb]. fold (named largest mask bits c). destruct (named largest mask bits c); [by rewrite orb_true_r|].
    rewrite orb_false_r. destruct (mask_bit mask b) eqn:Em; [|done]. cbn [andb]. destruct (Z.eqb_spec (largest - b) c) as [<-|]; [|done].
    unfold retired_by in Er. by rewrite Em in Er.
  - rewrite S10. destruct (decide (0 = b)) as [<-|Hne]; [rewrite bool_decide_eq_false_2 by done; rewrite bool_decide_eq_true_2 by constructor; by rewrite Er|].
    by rewrite (bool_decide_ext (0 ∈ b :: bits) (0 ∈ bits)) by (rewrite elem_of_cons; naive_solver).
Qed.

Lemma swept_retire largest mask b bits s s' p :
  Core (as_estimator s) -> retired_by (as_estimator s) largest mask b = Some p -> b ∉ bits -> 0 <= as_packets s -> 0 <= as_bytes s ->
  let s1 := mkAckState (retire (as_estimator s) (largest - b) p) (sat32_add (as_packets s) 1) (sat64_add (as_bytes s) (sp_bytes p))
              (if b =? 0 then Some p else as_largest s) in
  Swept largest mask bits s1 s' (as_estimator s1) (as_estimator s') -> Swept largest mask (b :: bits) s s' (as_estimator s) (as_estimator s').
Proof.
  intros Hc Er Hn H1 H2 s1 [S1 S2 S3 S4 S5 S6 S7 S8 S9 SA SC S10]. unfold s1 in *. cbn [as_estimator as_packets as_bytes as_largest] in *. clear s1.
  assert (Hp : mask_bit mask b = true /\ outstanding (as_estimator s) (largest - b) = Some p) by (unfold retired_by in Er; by destruct (mask_bit mask b)).
  destruct Hp as [Hm Ho]. destruct (retire_ok _ _ _ Hc Ho) as (R1 & R2 & R3 & R4 & R5 & R6 & R7). rewrite (retired_other _ _ _ _ _ _ Hc Ho Hn) in *.
  assert (Hcons : retired (as_estimator s) largest mask (b :: bits) = p :: retired (as_estimator s) largest mask bits) by (unfold retired; cbn; by rewrite Er).
  pose proof (zlen_nonneg bits). unfold sat32_add, sat64_add, saturating_add, U32_MAX, U64_MAX, is_u32, M32 in *.
  constructor; rewrite ?Hcons, ?zlen_cons; cbn [total]; unfold U32_MAX, U64_MAX in *; try done; try (intros; (rewrite S5 || rewrite S6 || rewrite S7); lia).
  - intros i q Hq. apply R4, S3, Hq.
  - intros c. rewrite S4, R5. cbn [named existsb]. fold (named largest mask bits c). rewrite Hm. cbn [andb].
    destruct (largest - b =? c); [by destruct (named _ _ _ _)|done].
  - intros a Ha. rewrite (S8 (a + 1)); [f_equal; lia|]. cbn. rewrite Ha. unfold sat64_add, saturating_add, U64_MAX. lia.
  - rewrite SA. apply credit_cons; [|lia|apply (total_bytes_bound _ _ _ _ Hc)]. apply outstanding_history in Ho as [Hh _]. apply (flight_pos _ _ _ Hc Hh).
  - intros t. rewrite SC, R6. cbn [List.filter]. destruct (in_class t p) eqn:Et; [|done].
    apply credit_cons; [by apply R7|lia|]. apply total_filter_nonneg. intros x. apply retired_bytes, Hc.
  - rewrite S10. destruct (Z.eqb_spec b 0) as [->|Hne].
    + rewrite bool_decide_eq_false_2 by done. rewrite bool_decide_eq_true_2 by constructor. by rewrite Er.
    + rewrite (bool_decide_ext (0 ∈ b :: bits) (0 ∈ bits)) by (rewrite elem_of_cons; naive_solver). case_bool_decide; [|done].
      unfold retired_by. destruct (mask_bit mask 0); [|done]. rewrite R5. by rewrite (proj2 (Z.eqb_neq _ _)) by lia.
Qed.

Lemma sweep_ok largest mask bits s :
  Core (as_estimator s) -> NoDup bits -> 0 <= as_packets s -> 0 <= as_bytes s ->
  let s' := fold_left (ack_bit (de_generation (as_estimator s)) largest mask) bits s in
  Swept largest mask bits s s' (as_estimator s) (as_estimator s').
Proof.
  revert s. induction bits as [|b bits IH]; intros s Hc Hnd H1 H2; [by apply swept_nil|].
  inversion_clear Hnd as [|? ? Hnb Hnd']. cbn [fold_left]. rewrite ack_bit_retire by done.
  destruct (retired_by (as_estimator s) largest mask b) as [p|] eqn:Er; [|by apply swept_skip; [..|apply IH]].
  assert (Ho : outstanding (as_estimator s) (largest - b) = Some p) by (unfold retired_by in Er; by destruct (mask_bit mask b)).
  destruct (retire_ok _ _ _ Hc Ho) as (R1 & _ & R3 & _). set (s1 := mkAckState _ _ _ _).
  refine (swept_retire largest mask b bits s _ p Hc Er Hnb H1 H2 (IH s1 R1 Hnd' _ _));
    cbn; unfold sat32_add, sat64_add, saturating_add, U32_MAX, U64_MAX, is_u32 in *; lia.
Qed.

(** ** Runs *)

(** The positions a bitmap names: bit [k] is the counter [largest - k]. *)
Definition acked (largest mask c : Z) : bool := (c <=? largest) && (largest - c <? 64) && mask_bit mask (largest - c).

Lemma named_acked largest mask c : named largest mask (seqZ 0 64) c = acked largest mask c.
Proof.
  apply eq_true_iff_eq. unfold named, acked. rewrite existsb_exists, !andb_true_iff, Z.leb_le, Z.ltb_lt. split.
  - intros (b & Hin & [Hm E%Z.eqb_eq]%andb_true_iff). apply list_elem_of_In, elem_of_seqZ in Hin. replace (largest - c) with b by lia. split; [lia|done].
  - intros [Hr Hm]. exists (largest - c). split; [apply list_elem_of_In, elem_of_seqZ; lia|]. rewrite Hm. apply Z.eqb_eq. lia.
Qed.

Definition window : list Z := seqZ 0 64.

(** An accepted acknowledgement, exactly. *)
Record Acknowledged (bits : list Z) (e e' : DeliveryEstimator) (largest mask delay : Z) (now : f64) (o : AckOutcome) (n : Z) : Prop := {
  ak_ok : EstOk e' n;
  ak_generation : de_generation e' = de_generation e;
  ak_outstanding c : outstanding e' c = if named largest mask bits c then None else outstanding e c;
  ak_packets : ao_newly_acknowledged_packets o = zlen (retired e largest mask bits);
  ak_bytes : ao_newly_acknowledged_bytes o = total sp_bytes (retired e largest mask bits);
  ak_aggregate : de_aggregate e' = credit (retired e largest mask bits) (de_aggregate e);
  ak_class t : class_at e' t = credit (List.filter (in_class t) (retired e largest mask bits)) (class_at e t);
  ak_rtt : ao_rtt_sample_ms o = (fun p => rtt_sample p delay now) <$> (if mask_bit mask 0 then outstanding e largest else None);
  ak_srtt : de_srtt_ms e' = match ao_rtt_sample_ms o with Some sample => Some (smoothed (de_srtt_ms e) sample) | None => de_srtt_ms e end;
  ak_highest : de_highest_sent e' = de_highest_sent e;
}.

Lemma ack_apply_ok e n bits largest mask delay now :
  EstOk e n -> NoDup bits -> zlen bits <= 64 -> 0 ∈ bits ->
  Acknowledged bits e (ack_apply e bits (de_generation e) largest mask delay now).1 largest mask delay now (ack_apply e bits (de_generation e) largest mask delay now).2 n.
Proof.
  intros [Hc Hb (acks & stales & Hl)] Hnd H64 H0. unfold ack_apply. cbn [fst snd].
  pose proof (sweep_ok largest mask bits (mkAckState e 0 0 None) Hc Hnd) as Hs. cbn [as_estimator as_packets as_bytes] in Hs.
  specialize (Hs (Z.le_refl 0) (Z.le_refl 0)). set (s := fold_left _ bits _) in *.
  destruct Hs as [S1 (S2 & S2' & S2r) S3 S4 S5 S6 S7 S8 S9 SA SC S10]. cbn [as_packets as_bytes as_largest] in *. clearbody s.
  rewrite S5, S6 by (unfold U64_MAX, U32_MAX; lia). rewrite !Z.add_0_l. set (e' := _ <| de_last_timestamp_ms := _ |>).
  assert (E : de_generation e' = de_generation (as_estimator s) /\ de_history e' = de_history (as_estimator s) /\ de_aggregate e' = de_aggregate (as_estimator s) /\
    de_classes e' = de_classes (as_estimator s) /\ de_highest_sent e' = de_highest_sent (as_estimator s) /\
    de_srtt_ms e' = match (fun entry => rtt_sample entry delay now) <$> as_largest s with
                    | Some sample => Some (smoothed (de_srtt_ms (as_estimator s)) sample) | None => de_srtt_ms (as_estimator s) end)
    by (unfold e'; by destruct (as_largest s)).
  destruct E as (E1 & E2 & E3 & E4 & E5 & E6).
  assert (Hh : forall i, history_at e' i = history_at (as_estimator s) i) by (intros i; unfold history_at; by rewrite E2). clearbody e'.
  constructor; cbn [acknowledged ao_newly_acknowledged_packets ao_newly_acknowledged_bytes ao_rtt_sample_ms]; try done.
  - constructor; [by apply (core_same (as_estimator s))|..].
    + intros i p. rewrite Hh, E5, S2'. intros Hp. apply (Hb i), S3, Hp.
    + exists (acks + zlen (retired e largest mask bits)), stales. destruct Hl as (L1 & L2 & L3 & L4 & L5). pose proof (zlen_nonneg (retired e largest mask bits)).
      unfold ledger. rewrite E3, (S8 acks L3), S9, S7. repeat split; lia.
  - by rewrite E1.
  - intros c. rewrite <- S4. unfold outstanding. by rewrite Hh.
  - by rewrite E3.
  - intros t. rewrite <- SC. unfold class_at. by rewrite E4.
  - rewrite S10, bool_decide_eq_true_2 by done. unfold retired_by. rewrite Z.sub_0_r.
    destruct (mask_bit mask 0); [|done]. by destruct (outstanding e largest).
  - by rewrite E6, S2r.
  - congruence.
Qed.

Lemma ack_apply_applied e bits g largest mask delay now : ao_ignored_stale_generation (ack_apply e bits g largest mask delay now).2 = false.
Proof. reflexivity. Qed.

Lemma acknowledge_ok e n g largest mask delay now :
  EstOk e n ->
  match acknowledge e g largest mask delay now with
  | (e', inr _) => e' = e
  | (e', inl o) => if ao_ignored_stale_generation o then e' = e /\ o = IgnoredStaleGeneration /\ g < de_generation e
                   else g = de_generation e /\ Acknowledged window e e' largest mask delay now o n
  end.
Proof.
  intros He. unfold acknowledge. destruct (g =? 0); [done|]. destruct (Z.ltb_spec g (de_generation e)); [done|].
  destruct (Z.ltb_spec (de_generation e) g); [done|]. assert (g = de_generation e) as -> by lia.
  destruct (ack_refused e largest mask delay now); [done|]. fold window.
  pose proof (ack_apply_ok e n window largest mask delay now He (NoDup_seqZ 0 64)) as Ha.
  pose proof (ack_apply_applied e window (de_generation e) largest mask delay now) as Hi.
  destruct (ack_apply _ _ _ _ _ _ _) as [e' o]. cbn [fst snd] in *. rewrite Hi.
  split; [done|]. apply Ha; [done|]. apply elem_of_seqZ. lia.
Qed.

Lemma retired_nil e largest mask : (forall c, acked largest mask c = true -> outstanding e c = None) -> retired e largest mask window = [].
Proof.
  intros H. unfold retired. assert (Hr : forall b, b ∈ window -> retired_by e largest mask b = None).
  { intros b Hb. unfold retired_by. destruct (mask_bit mask b) eqn:E; [|done]. apply H. apply elem_of_seqZ in Hb. unfold acked.
    replace (largest - (largest - b)) with b by lia. rewrite E, andb_true_r. apply andb_true_iff. rewrite Z.leb_le, Z.ltb_lt. lia. }
  clear H. induction window as [|b l IH]; [done|]. cbn. rewrite Hr by constructor. apply IH. intros. apply Hr. by constructor.
Qed.

(** The calls of an application. *)
Inductive delivery_op :=
  | DSent (p : SentPacket)
  | DAck (generation largest mask delay : Z) (now_ms : f64)
  | DSnapshot (now_ms : f64)
  | DReset (generation : Z).

(** The estimator and the number of packets that took a slot in this
    generation. *)
Definition delivery_step (x : DeliveryEstimator * Z) (op : delivery_op) : DeliveryEstimator * Z :=
  let '(e, n) := x in
  match op with
  | DSent p =>
      match record_sent e p with
      | (e', inl o) => (e', if sp_ack_eliciting p && negb (so_outer_retransmission o) then n + 1 else n)
      | (e', inr _) => (e', n)
      end
  | DAck g largest mask delay now => ((acknowledge e g largest mask delay now).1, n)
  | DSnapshot now => ((snapshot e now).1, n)
  | DReset g => (reset_generation e g, if g =? 0 then n else 0)
  end.

Definition delivery_op_ok (op : delivery_op) : Prop := match op with DSent p => packet_ok p | _ => True end.

Definition delivery_run (g : Z) (ops : list delivery_op) : DeliveryEstimator * Z := fold_left delivery_step ops (estimator_new g, 0).

Lemma est_new g : EstOk (estimator_new g) 0.
Proof.
  constructor; [apply core_new| |by exists 0, 0].
  intros i p. unfold history_at, estimator_new. cbn [de_history]. destruct (replicate _ _ !! i) as [x|] eqn:E; [|done].
  apply lookup_replicate in E as [-> _]. done.
Qed.

Lemma est_snapshot e n now : EstOk e n -> EstOk (snapshot e now).1 n.
Proof.
  intros [Hc Hb (a & s & Hl)]. unfold snapshot. cbn [fst]. destruct (acceptable_timestamp e now); [|by constructor; eauto].
  set (e1 := e <| de_last_timestamp_ms := Some now |>). assert (Hc1 : Core e1) by (by apply (core_same e)).
  assert (E : de_history (maybe_sample_rate e1 now) = de_history e /\ de_highest_sent (maybe_sample_rate e1 now) = de_highest_sent e /\
    cs_acknowledged_packets (de_aggregate (maybe_sample_rate e1 now)) = cs_acknowledged_packets (de_aggregate e) /\
    cs_stale (de_aggregate (maybe_sample_rate e1 now)) = cs_stale (de_aggregate e) /\ cs_in_flight (de_aggregate (maybe_sample_rate e1 now)) = cs_in_flight (de_aggregate e)).
  { unfold maybe_sample_rate. destruct (de_rate_sample_start_ms e1); [|done]. by case_match. }
  destruct E as (E1 & E2 & E3 & E4 & E5). constructor.
  - by apply core_sample.
  - intros i p. unfold history_at. rewrite E1, E2. apply Hb.
  - exists a, s. unfold ledger. by rewrite E3, E4, E5.
Qed.

Lemma est_step e n op : EstOk e n -> delivery_op_ok op -> EstOk (delivery_step (e, n) op).1 (delivery_step (e, n) op).2.
Proof.
  intros H Hop. destruct op as [p|g l m d t|t|g]; cbn [delivery_step].
  - pose proof (record_sent_ok e p n H Hop) as Hr. destruct (record_sent e p) as [e' [o|err]]; cbn [fst snd]; [apply Hr|by destruct Hr as [-> _]].
  - pose proof (acknowledge_ok e n g l m d t H) as Ha. destruct (acknowledge e g l m d t) as [e' [o|err]]; cbn [fst snd]; [|by subst].
    destruct (ao_ignored_stale_generation o); [by destruct Ha as [-> _]|]. exact (ak_ok _ _ _ _ _ _ _ _ _ (proj2 Ha)).
  - by apply est_snapshot.
  - unfold reset_generation. cbn [fst snd]. destruct (g =? 0); [done|apply est_new].
Qed.

Lemma est_run g ops : Forall delivery_op_ok ops -> EstOk (delivery_run g ops).1 (delivery_run g ops).2.
Proof.
  unfold delivery_run. intros Hops. assert (H : EstOk (estimator_new g, 0).1 (estimator_new g, 0).2) by apply est_new.
  revert H. generalize (estimator_new g, 0). induction Hops as [|op ops Hop _ IH]; intros [e n] H; [done|]. cbn [fold_left]. by apply IH, est_step.
Qed.

(** ** What the estimator guarantees *)

(** Nothing is lost or counted twice. After any calls, in flight is the
    number of occupied history slots, in aggregate and class by class; every
    packet that took a slot in this generation is acknowledged, evicted as
    stale or in flight; the aggregate of each 64-bit counter is the saturating
    sum of its classes; and a published delivery rate is finite. *)
Theorem delivery_conserved g ops e n :
  Forall delivery_op_ok ops -> delivery_run g ops = (e, n) ->
  cs_in_flight (de_aggregate e) = total (held any_class) (de_history e) /\
  (forall t, cs_in_flight (class_at e t) = total (held (in_class t)) (de_history e)) /\
  (n <= U64_MAX -> cs_acknowledged_packets (de_aggregate e) + cs_stale (de_aggregate e) + cs_in_flight (de_aggregate e) = n) /\
  Forall (fun f => f (de_aggregate e) = Z.min U64_MAX (f (class_at e Critical) + f (class_at e Audio) + f (class_at e Video))) counters /\
  (forall t r, cs_delivery_rate_mbps (class_at e t) = Some r -> f_is_finite r = true).
Proof.
  intros Hops Hrun. pose proof (est_run g ops Hops) as [Hc _ (a & s & L1 & L2 & L3 & L4 & L5)]. rewrite Hrun in *. cbn [fst snd] in *.
  pose proof (total_bounds (held any_class) (de_history e) (held_bounds _)). rewrite (co_flight _ Hc) in *.
  split; [done|]. split; [apply (co_class_flight _ Hc)|]. split; [lia|]. split; [|intros t; apply (proj2 (co_rates _ Hc))].
  eapply List.Forall_impl; [|exact (co_sums _ Hc)]. by intros f [_ ?].
Qed.

(** Recording implements the map of unresolved packets. For an
    acknowledgement-eliciting packet the call succeeds exactly when
    [can_record] said so and a resend repeats what it resends; then the packet
    is outstanding under its counter, an aged packet of the same slot is not
    any more, and every other counter is as before. A packet that elicits no
    acknowledgement changes no counter's entry, and a refused one changes
    nothing at all. *)
Theorem record_sent_exact g ops e n p :
  Forall delivery_op_ok ops -> delivery_run g ops = (e, n) -> packet_ok p ->
  (sp_ack_eliciting p = true ->
   (exists e' o, record_sent e p = (e', inl o)) <-> can_record e (sp_generation p) (sp_outer_counter p) (sp_sent_at_ms p) && repeats e p = true) /\
  (forall e' err, record_sent e p = (e', inr err) -> e' = e) /\
  (forall e' o, record_sent e p = (e', inl o) ->
   forall c, outstanding e' c =
     if sp_ack_eliciting p && bool_decide (slot_index c = slot_index (sp_outer_counter p))
     then (if sp_outer_counter p =? c then Some p else None) else outstanding e c).
Proof.
  intros Hops Hrun Hp. pose proof (est_run g ops Hops) as He. rewrite Hrun in He. cbn [fst snd] in He.
  pose proof (record_sent_ok e p n He Hp) as Hr. destruct (record_sent e p) as [e1 [o|err]]; destruct Hr as [Hr Hcan].
  - split; [intros Ha; split; [intros _; by apply Hcan|by eauto]|]. split; [done|]. intros e' o' [= <- <-]. apply (re_outstanding _ _ _ _ _ Hr).
  - split; [intros Ha; split; [intros (? & ? & ?); discriminate|rewrite (Hcan Ha); discriminate]|]. split; [|done]. intros e' err' [= <- _]. done.
Qed.

(** (C39) An acknowledgement retires exactly the outstanding packets its
    bitmap names, once. Accepted, it reports their number and bytes, and the
    aggregate's and each class's counters change by exactly those of the
    retired packets that they count: out of flight, into the acknowledged
    packets and bytes and the bytes of the next rate sample (saturating), the
    other six fields as they were; the highest counter sent stays. It carries a
    round-trip sample exactly when the largest counter was among them, the time
    since that packet was sent less the reported delay (never below zero), and
    only then the smoothed time moves, an eighth of the way. The same bitmap
    again reports nothing. An acknowledgement of an older generation, or a
    refused one, changes nothing. *)
Theorem acknowledge_exact g0 ops e n g largest mask delay now :
  Forall delivery_op_ok ops -> delivery_run g0 ops = (e, n) ->
  match acknowledge e g largest mask delay now with
  | (e', inr _) => e' = e
  | (e', inl o) =>
      if ao_ignored_stale_generation o then e' = e /\ g < de_generation e
      else
        let ps := retired e largest mask (seqZ 0 64) in
        (forall c, outstanding e' c = if acked largest mask c then None else outstanding e c) /\
        ao_newly_acknowledged_packets o = zlen ps /\ ao_newly_acknowledged_bytes o = total sp_bytes ps /\
        de_aggregate e' = credit ps (de_aggregate e) /\
        (forall t, class_at e' t = credit (List.filter (in_class t) ps) (class_at e t)) /\
        ao_rtt_sample_ms o =
          match (if mask_bit mask 0 then outstanding e largest else None) with
          | Some p => Some (f_max (elapsed_ms now (sp_sent_at_ms p) - f_of_Z delay / f_of_Z 1000)%f64 f_zero)
          | None => None
          end /\
        de_srtt_ms e' =
          match ao_rtt_sample_ms o, de_srtt_ms e with
          | Some sample, None => Some sample
          | Some sample, Some srtt => Some (f_of_Z 7 / f_of_Z 8 * srtt + f_of_Z 1 / f_of_Z 8 * sample)%f64
          | None, srtt => srtt
          end /\
        de_highest_sent e' = de_highest_sent e /\
        forall delay' now' e2 o2, acknowledge e' g largest mask delay' now' = (e2, inl o2) ->
          ao_newly_acknowledged_packets o2 = 0 /\ ao_newly_acknowledged_bytes o2 = 0 /\ ao_rtt_sample_ms o2 = None
  end.
Proof.
  intros Hops Hrun. pose proof (est_run g0 ops Hops) as He. rewrite Hrun in He. cbn [fst snd] in He.
  pose proof (acknowledge_ok e n g largest mask delay now He) as Ha. destruct (acknowledge e g largest mask delay now) as [e' [o|err]]; [|done].
  destruct (ao_ignored_stale_generation o); [by destruct Ha as (? & _ & ?)|]. destruct Ha as [Hg [A1 A2 A3 A4 A5 A6 A7 A8 A9 A10]].
  assert (Ho : forall c, outstanding e' c = if acked largest mask c then None else outstanding e c) by (intros c; by rewrite A3, <- named_acked).
  split; [done|]. split; [exact A4|]. split; [exact A5|]. split; [done|]. split; [exact A7|].
  split; [by rewrite A8; destruct (if mask_bit mask 0 then _ else _)|].
  split; [rewrite A9; unfold smoothed; by destruct (ao_rtt_sample_ms o), (de_srtt_ms e)|]. split; [done|].
  intros delay' now' e2 o2 H2. pose proof (acknowledge_ok e' n g largest mask delay' now' A1) as Hb. rewrite H2 in Hb.
  destruct (ao_ignored_stale_generation o2); [destruct Hb as (_ & _ & Hlt); lia|]. destruct Hb as [_ [_ _ _ B4 B5 _ _ B7 _ _]].
  assert (Hn : forall c, acked largest mask c = true -> outstanding e' c = None) by (intros c Hk; by rewrite Ho, Hk).
  rewrite (retired_nil _ _ _ Hn) in B4, B5. split; [done|]. split; [done|]. rewrite B7. destruct (mask_bit mask 0) eqn:Hm; [|done].
  rewrite Hn; [done|]. unfold acked. rewrite Z.leb_refl, Z.sub_diag, Hm. done.
Qed.

(** ** Witnesses *)

Definition demo_packet (counter : Z) (at_ : Z) (t : TrafficClass) : SentPacket := mkSentPacket 1 counter 100 (f_of_Z at_) t true false.

(** Three packets, the middle one acknowledged. *)
Definition demo_delivery_ops : list delivery_op :=
  [DSent (demo_packet 10 0 Critical); DSent (demo_packet 11 0 Audio); DSent (demo_packet 12 1 Video); DAck 1 11 1 0 (f_of_Z 20)].

Definition demo_estimator : DeliveryEstimator := (delivery_run 1 demo_delivery_ops).1.

Lemma demo_delivery_ok : Forall delivery_op_ok demo_delivery_ops.
Proof. repeat constructor; vm_compute; congruence. Qed.

Lemma demo_delivery_run : delivery_run 1 demo_delivery_ops = (demo_estimator, 3).
Proof. vm_compute. reflexivity. Qed.

Lemma delivery_conserved_witness :
  cs_in_flight (de_aggregate demo_estimator) = 2 /\
  cs_acknowledged_packets (de_aggregate demo_estimator) + cs_stale (de_aggregate demo_estimator) + cs_in_flight (de_aggregate demo_estimator) = 3.
Proof.
  split; [vm_compute; reflexivity|].
  apply (delivery_conserved 1 demo_delivery_ops demo_estimator 3 demo_delivery_ok demo_delivery_run). vm_compute. discriminate.
Defined.

Lemma record_sent_exact_witness :
  can_record demo_estimator 1 (12 + 2048) (f_of_Z 100) = false /\ can_record demo_estimator 1 (12 + 2048) (f_of_Z 251) = true /\
  exists e' o, record_sent demo_estimator (demo_packet (12 + 2048) 251 Video) = (e', inl o).
Proof.
  split; [vm_compute; reflexivity|]. split; [vm_compute; reflexivity|].
  apply (record_sent_exact 1 demo_delivery_ops demo_estimator 3 (demo_packet (12 + 2048) 251 Video) demo_delivery_ok demo_delivery_run);
    [repeat split; vm_compute; congruence|reflexivity|vm_compute; reflexivity].
Defined.

Lemma acknowledge_exact_witness :
  exists e' o, acknowledge demo_estimator 1 12 7 0 (f_of_Z 30) = (e', inl o) /\
    ao_newly_acknowledged_packets o = 2 /\ (forall c, outstanding e' c = if acked 12 7 c then None else outstanding demo_estimator c).
Proof.
  pose proof (acknowledge_exact 1 demo_delivery_ops demo_estimator 3 1 12 7 0 (f_of_Z 30) demo_delivery_ok demo_delivery_run) as H.
  destruct (acknowledge demo_estimator 1 12 7 0 (f_of_Z 30)) as [e' [o|err]] eqn:E; [|vm_compute in E; discriminate E].
  exists e', o. split; [reflexivity|]. assert (Hi : ao_ignored_stale_generation o = false /\ ao_newly_acknowledged_packets o = 2).
  { vm_compute in E. injection E as _ <-. split; reflexivity. }
  destruct Hi as [Hi Hp]. rewrite Hi in H. split; [exact Hp|apply H].
Defined.
