(* ===== verification/Sink.v ===== *)
(** * Appending to a caller's buffer

    [cursor.rs] and [png.rs] write through the same helper, [put(out, &mut at,
    bytes)]: bytes go to [out\[at..at + bytes.len()\]] and the position moves,
    or the call fails with the module's error and everything already written
    stays. [Sink] is the pair of buffer and position; [Sinks] says when a
    sequence of appends succeeds and what it leaves in the buffer. *)

From S2P Require Import Prelude.
Open Scope Z_scope.

Record Sink := mkSink { sk_out : list Z; sk_at : Z }.

#[export] Instance Sink_eta : Eta Sink := fun k => mkSink (sk_out k) (sk_at k).

Definition sink_put (err : Error) (k : Sink) (bytes : list Z) : Sink * result unit :=
  match write (sk_out k) (sk_at k) bytes with
  | Some out => (mkSink out (sk_at k + zlen bytes), Ok tt)
  | None => (k, Err err)
  end.

(** [first?; then]. *)
Definition sink_then {A} (x : Sink * result unit) (f : Sink -> Sink * result A) : Sink * result A :=
  match x with (k, Ok _) => f k | (k, Err e) => (k, Err e) end.

Declare Scope sink_scope.
Delimit Scope sink_scope with sink.
Notation "'into' k <- x ; y" := (sink_then x (fun k => y)) (at level 100, k name, x at level 99, y at level 200) : sink_scope.

(** The sink has written exactly [data] at the front of [out]. *)
Definition Sunk (out : list Z) (k : Sink) (data : list Z) : Prop :=
  sk_at k = zlen data /\ sk_out k = data ++ drop (length data) out /\ zlen data <= zlen out.

(** Writing up to [data] succeeds exactly when the buffer holds it. *)
Definition Sinks (err : Error) (out : list Z) (x : Sink * result unit) (data : list Z) : Prop :=
  (zlen data <= zlen out -> snd x = Ok tt /\ Sunk out (fst x) data) /\
  (zlen out < zlen data -> snd x = Err err).

Lemma Sunk_new out : Sunk out (mkSink out 0) [].
Proof. split; [done|]. split; [done|]. apply zlen_nonneg. Qed.

Lemma Sunk_length out k data : Sunk out k data -> zlen (sk_out k) = zlen out.
Proof. intros (_ & -> & H). unfold zlen in *. rewrite length_app, length_drop. lia. Qed.

Lemma Sinks_eq err out x d d' : Sinks err out x d -> d = d' -> Sinks err out x d'.
Proof. by intros ? <-. Qed.

Lemma put_Sinks err out k data bytes : Sunk out k data -> Sinks err out (sink_put err k bytes) (data ++ bytes).
Proof.
  intros Hk. pose proof (Sunk_length _ _ _ Hk) as Hlen. destruct Hk as (Hat & Hbuf & Hd). unfold sink_put. rewrite Hat. split; intros H.
  - rewrite write_some by zlia. split; [done|]. split; [cbn; zlia|]. split; [|done]. cbn. rewrite Hbuf.
    rewrite take_app_length' by (unfold zlen; lia). rewrite <- app_assoc. do 2 f_equal.
    rewrite drop_app_ge by (unfold zlen; lia). rewrite drop_drop. f_equal. rewrite length_app. unfold zlen. lia.
  - unfold write. rewrite (proj2 (Z.leb_gt _ (zlen (sk_out k)))) by zlia. by rewrite andb_false_r.
Qed.

Lemma Sinks_then err out x f d1 d2 :
  zlen d1 <= zlen d2 -> Sinks err out x d1 -> (forall k, Sunk out k d1 -> Sinks err out (f k) d2) -> Sinks err out (sink_then x f) d2.
Proof.
  intros Hle [H1 H1'] H2. destruct (Z.le_gt_cases (zlen d1) (zlen out)) as [Hd|Hd].
  - destruct (H1 Hd) as [E W]. destruct x as [k r]. cbn in E, W |- *. subst r. by apply H2.
  - pose proof (H1' ltac:(lia)) as E. destruct x as [k r]. cbn in E |- *. subst r. split; [lia|done].
Qed.

Lemma Sinks_ok err out k data : Sinks err out (k, Ok tt) data -> Sunk out k data.
Proof.
  intros [H1 H2]. destruct (Z.le_gt_cases (zlen data) (zlen out)) as [H|H]; [by destruct (H1 H)|]. by specialize (H2 ltac:(lia)).
Qed.

(** A failure while less than [data] was written is a failure for [data]. *)
Lemma Sinks_fail err out x front data :
  zlen front <= zlen data -> Sinks err out x front -> snd x <> Ok tt -> Sinks err out x data /\ snd x = Err err.
Proof.
  intros Hle [H1 H2] Hx. destruct (Z.le_gt_cases (zlen front) (zlen out)) as [H|H]; [by destruct (H1 H)|].
  specialize (H2 ltac:(lia)). split; [|done]. split; [lia|done].
Qed.

Lemma zlen_longer {A} (a b c : list A) : zlen (a ++ b) <= zlen (a ++ b ++ c).
Proof. rewrite !zlen_app. pose proof (zlen_nonneg c). lia. Qed.

(** One more append of a sequence, and the last one. *)
Ltac sink_step := eapply Sinks_then; [|apply put_Sinks; eassumption|cbv beta; intros ? ?]; [zlia|].
Ltac sink_last := eapply Sinks_eq; [apply put_Sinks; eassumption|by rewrite <- ?app_assoc].
