(* ===== verification/Payload.v ===== *)
(** * Payload formats ([control.rs], [video.rs], [audio.rs], [microphone.rs], [cursor.rs])

    What a reassembled message contains: thirteen bytes of control header in
    big endian and an optional body, ten bytes of video header and fifteen of
    audio header in little endian ahead of the bitstream, the fixed body of a
    guest's microphone, and the pointer message a host sends. Each format with
    a parser is an instance of [Payload], whose law is the round trip. *)

From S2P Require Import Prelude Sink.
Open Scope Z_scope.

(** ** Control messages *)

Definition CONTROL_HEADER_LEN : Z := 13.
Definition OP_USER_DATA : Z := 17.
Definition OP_CURSOR : Z := 9.
Definition USER_DATA_MAX : Z := 0x100000.

Record Control := mkControl {
  ct_a0 : Z;
  ct_a1 : Z;
  ct_a2 : Z;
  ct_opcode : Z;
  ct_body : list Z;
}.

Definition control_be32 (src : list Z) (offset : Z) : result Z := ok_or (be_val <$> slice src offset (offset + 4)) ShortPacket.

Definition control_parse (content : list Z) : result Control :=
  a0 ← control_be32 content 0;
  a1 ← control_be32 content 4;
  a2 ← control_be32 content 8;
  opcode ← ok_or (get content 12) ShortPacket;
  body ← ok_or (slice_from content CONTROL_HEADER_LEN) ShortPacket;
  Ok (mkControl a0 a1 a2 opcode body).

(** [out.get_mut(..len)] filled with [bytes], which is as long. *)
Definition fill_front (out : list Z) (len : Z) (bytes : list Z) : list Z * result Z :=
  if zlen out <? len then (out, Err BufferTooSmall)
  else match write out 0 bytes with Some out => (out, Ok len) | None => (out, Err BufferTooSmall) end.

Definition control_header (c : Control) : list Z := be_bytes 4 (ct_a0 c) ++ be_bytes 4 (ct_a1 c) ++ be_bytes 4 (ct_a2 c) ++ [ct_opcode c].

Definition encode_header (out : list Z) (c : Control) : list Z * result Z := fill_front out CONTROL_HEADER_LEN (control_header c).

(** [bytes.strip_suffix(&\[0\]).unwrap_or(bytes)]. *)
Definition strip_terminator (bytes : list Z) : list Z :=
  match rev bytes with 0 :: r => rev r | _ => bytes end.

Definition user_data (c : Control) : option (Z * list Z) :=
  if negb (ct_opcode c =? OP_USER_DATA) then None
  else
    let body := default (ct_body c) (slice_to (ct_body c) (ct_a0 c)) in
    Some (ct_a1 c, strip_terminator body).

Definition string_body_len (text_len : Z) : Z := text_len + 1.

(** ** Video *)

Definition VIDEO_HEADER_LEN : Z := 10.
Definition ROTATION_MASK : Z := 0x07.
Definition FLAG_TEN_BIT : Z := 0x08.
Definition FLAG_FULLSCREEN : Z := 0x10.
Definition RESERVED_BYTE : Z := 0x01.

Inductive Rotation := RotUnknown | RotNone | Deg90 | Deg180 | Deg270.

Definition rotation_bits (r : Rotation) : Z :=
  match r with RotUnknown => 0 | RotNone => 1 | Deg90 => 2 | Deg180 => 3 | Deg270 => 4 end.

Definition rotation_from_bits (bits : Z) : Rotation :=
  match Z.land bits ROTATION_MASK with 1 => RotNone | 2 => Deg90 | 3 => Deg180 | 4 => Deg270 | _ => RotUnknown end.

Definition quarter_turn (r : Rotation) : bool := match r with Deg90 | Deg270 => true | _ => false end.

Inductive VideoCodec := H264 | H265.

Record VideoHeader := mkVideoHeader {
  vh_frame_id : Z;
  vh_width : Z;
  vh_height : Z;
  vh_rotation : Rotation;
  vh_ten_bit : bool;
  vh_fullscreen : bool;
}.

Definition display_dimensions (h : VideoHeader) : Z * Z :=
  if quarter_turn (vh_rotation h) then (vh_height h, vh_width h) else (vh_width h, vh_height h).

Definition le16 (src : list Z) (offset : Z) : result Z := ok_or (le_val <$> slice src offset (offset + 2)) ShortPacket.
Definition le32 (src : list Z) (offset : Z) : result Z := ok_or (le_val <$> slice src offset (offset + 4)) ShortPacket.

Definition video_parse (content : list Z) : result VideoHeader :=
  frame_id ← le32 content 0;
  width ← le16 content 4;
  height ← le16 content 6;
  flags ← ok_or (get content 9) ShortPacket;
  Ok (mkVideoHeader frame_id width height (rotation_from_bits flags) (negb (Z.land flags FLAG_TEN_BIT =? 0)) (negb (Z.land flags FLAG_FULLSCREEN =? 0))).

Definition video_flags (h : VideoHeader) : Z :=
  let flags := rotation_bits (vh_rotation h) in
  let flags := if vh_ten_bit h then Z.lor flags FLAG_TEN_BIT else flags in
  if vh_fullscreen h then Z.lor flags FLAG_FULLSCREEN else flags.

Definition video_header (h : VideoHeader) : list Z :=
  le_bytes 4 (vh_frame_id h) ++ le_bytes 2 (vh_width h) ++ le_bytes 2 (vh_height h) ++ [RESERVED_BYTE; video_flags h].

Definition video_encode (out : list Z) (h : VideoHeader) : list Z * result Z := fill_front out VIDEO_HEADER_LEN (video_header h).

(** The byte following the first start code. *)
Definition first_unit_byte (bitstream : list Z) : option Z :=
  match slice_to bitstream 4 with
  | Some [0; 0; 0; 1] => get bitstream 4
  | _ => match slice_to bitstream 3 with Some [0; 0; 1] => get bitstream 3 | _ => None end
  end.

Definition is_keyframe (content : list Z) (codec : VideoCodec) : bool :=
  match slice_from content VIDEO_HEADER_LEN with
  | None => false
  | Some bitstream =>
      match first_unit_byte bitstream with
      | None => false
      | Some unit =>
          match codec with
          | H264 => let t := Z.land unit 0x1F in (t =? 7) || (t =? 5)
          | H265 => let t := Z.land (Z.shiftr unit 1) 0x3F in ((32 <=? t) && (t <=? 34)) || ((16 <=? t) && (t <=? 21))
          end
      end
  end.

(** ** Audio *)

Definition AUDIO_HEADER_LEN : Z := 15.
Definition SAMPLE_RATE : Z := 48000.
Definition STEREO_MASK : Z := 0x3.
Definition UNREAD_BYTE : Z := 2.
Definition PCM_PAYLOAD_MAX : Z := 32000.

Inductive AudioCodec := Opus | Pcm.

Definition codec_bits (c : AudioCodec) : Z := match c with Opus => 1 | Pcm => 2 end.
Definition codec_from_bits (bits : Z) : AudioCodec := match bits with 2 => Pcm | _ => Opus end.
Definition sample_bytes (c : AudioCodec) : option Z := match c with Pcm => Some 2 | Opus => None end.

Record AudioHeader := mkAudioHeader {
  ah_mask : Z;
  ah_samples : Z;
  ah_rate : Z;
  ah_codec : AudioCodec;
  ah_channels : Z;
}.

Definition stereo (samples : Z) (codec : AudioCodec) : AudioHeader := mkAudioHeader STEREO_MASK samples SAMPLE_RATE codec 2.

(** The product of a [u32], a [u8] and two fits a [usize]. *)
Definition payload_len (h : AudioHeader) : option Z :=
  width ← sample_bytes (ah_codec h); Some (ah_samples h * ah_channels h * width).

Definition audio_parse (content : list Z) : result AudioHeader :=
  mask ← le32 content 0;
  samples ← le32 content 4;
  rate ← le32 content 8;
  codec ← ok_or (get content 12) ShortPacket;
  channels ← ok_or (get content 14) ShortPacket;
  Ok (mkAudioHeader mask samples rate (codec_from_bits codec) channels).

Definition audio_header (h : AudioHeader) : list Z :=
  le_bytes 4 (ah_mask h) ++ le_bytes 4 (ah_samples h) ++ le_bytes 4 (ah_rate h) ++ [codec_bits (ah_codec h); UNREAD_BYTE; ah_channels h].

Definition audio_encode (out : list Z) (h : AudioHeader) : list Z * result Z := fill_front out AUDIO_HEADER_LEN (audio_header h).

(** ** Microphone *)

Definition MICROPHONE_SELECTOR : Z := 0xF055F055.
Definition MICROPHONE_ARGUMENT : Z := 1.
Definition MICROPHONE_KIND : Z := 12.
Definition MIC_BODY_LEN : Z := 1932.
Definition PAYLOAD_MAX : Z := 1920.
Definition KIND_AT : Z := 0.
Definition PAYLOAD_AT : Z := 4.
Definition LENGTH_AT : Z := 1924.
Definition ENCODING_AT : Z := 1928.

Inductive Encoding := Raw | Compressed.

#[export] Instance Encoding_eq_dec : EqDecision Encoding.
Proof. solve_decision. Defined.

Definition encoding_from_bits (bits : Z) : result Encoding :=
  match bits with 0 => Ok Raw | 1 => Ok Compressed | _ => Err Malformed end.
Definition encoding_bits (e : Encoding) : Z := match e with Raw => 0 | Compressed => 1 end.

Record MicPacket := mkMicPacket { mp_payload : list Z; mp_encoding : Encoding }.

Definition mic_parse (a0 a1 a2 : Z) (body : list Z) : result (option MicPacket) :=
  if negb (a2 =? MICROPHONE_SELECTOR) then Ok None
  else if negb (a1 =? MICROPHONE_ARGUMENT) then Err Malformed
  else
    let body := default body (slice_to body (Z.min a0 (zlen body))) in
    body ← ok_or (slice_to body MIC_BODY_LEN) ShortPacket;
    kind ← le32 body KIND_AT;
    if negb (kind =? MICROPHONE_KIND) then Err Malformed
    else
      length ← le32 body LENGTH_AT;
      if PAYLOAD_MAX <? length then Err Malformed
      else
        tag ← ok_or (get body ENCODING_AT) ShortPacket;
        encoding ← encoding_from_bits tag;
        if bool_decide (encoding = Raw) && negb (length mod 2 =? 0) then Err Malformed
        else
          payload ← ok_or (slice body PAYLOAD_AT (PAYLOAD_AT + length)) ShortPacket;
          Ok (Some (mkMicPacket payload encoding)).

Definition write32 (out : list Z) (at_ value : Z) : option (list Z) := write out at_ (le_bytes 4 value).

(** The writes into [out\[..1932\]]; none of them can be out of range. *)
Definition mic_body (p : MicPacket) : option (list Z) :=
  let out := replicate (Z.to_nat MIC_BODY_LEN) 0 in
  out ← write32 out KIND_AT MICROPHONE_KIND;
  out ← write32 out LENGTH_AT (zlen (mp_payload p));
  out ← write out ENCODING_AT [encoding_bits (mp_encoding p)];
  write out PAYLOAD_AT (mp_payload p).

Definition mic_encode (out : list Z) (p : MicPacket) : list Z * result Z :=
  if zlen out <? MIC_BODY_LEN then (out, Err BufferTooSmall)
  else if PAYLOAD_MAX <? zlen (mp_payload p) then (out, Err BufferTooSmall)
  else match mic_body p with
       | None => (out, Err BufferTooSmall)
       | Some body => fill_front out MIC_BODY_LEN body
       end.

(** ** Reading a concatenation *)

Lemma le16_at l p v q a : l = p ++ le_bytes 2 v ++ q -> a = zlen p -> is_u16 v -> le16 l a = Ok v.
Proof.
  intros -> -> H. unfold le16. rewrite slice_mid by (done || zlia). cbn [fmap option_fmap option_map ok_or]. by rewrite le_val_bytes.
Qed.

Lemma le32_at l p v q a : l = p ++ le_bytes 4 v ++ q -> a = zlen p -> is_u32 v -> le32 l a = Ok v.
Proof.
  intros -> -> H. unfold le32. rewrite slice_mid by (done || zlia). cbn [fmap option_fmap option_map ok_or]. by rewrite le_val_bytes.
Qed.

Lemma control_be32_at l p v q a : l = p ++ be_bytes 4 v ++ q -> a = zlen p -> is_u32 v -> control_be32 l a = Ok v.
Proof.
  intros -> -> H. unfold control_be32. rewrite slice_mid by (done || zlia). cbn [fmap option_fmap option_map ok_or]. by rewrite be_val_bytes.
Qed.

Lemma get_at {A} (l p : list A) x q a : l = p ++ x :: q -> a = zlen p -> get l a = Some x.
Proof. intros -> ->. zlen_pose. rewrite get_lookup by lia. rewrite lookup_app_r by (unfold zlen; lia). by replace (Z.to_nat (zlen p) - length p)%nat with O by (unfold zlen; lia). Qed.

(** Side conditions of the lemmas above. *)
Ltac at_field := first [by rewrite <- ?app_assoc | assumption | zlia].

(** These readers fail in one way only. *)
Lemma be32_err l a e : control_be32 l a = Err e -> e = ShortPacket.
Proof. unfold control_be32. destruct (slice l a (a + 4)); cbn; congruence. Qed.
Lemma le16_err l a e : le16 l a = Err e -> e = ShortPacket.
Proof. unfold le16. destruct (slice l a (a + 2)); cbn; congruence. Qed.
Lemma le32_err l a e : le32 l a = Err e -> e = ShortPacket.
Proof. unfold le32. destruct (slice l a (a + 4)); cbn; congruence. Qed.

(** A field that is there or cuts the parse short. *)
Ltac past_end :=
  match goal with
  | |- mbind _ ?x = Err ShortPacket =>
      let E := fresh in destruct x eqn:E; cbn [mbind result_bind];
      [|(apply be32_err in E || apply le16_err in E || apply le32_err in E || apply ok_or_err in E as [_ E]); by rewrite E]
  end.

(** ** The interface *)

(** A fixed-size header in front of a message: what it can carry, its size,
    its encoder and its parser. [payload_follow] is the value with the bytes
    that came after the header. *)
Class Payload (T : Type) := {
  payload_ok : T -> Prop;
  payload_size : Z;
  payload_encode : list Z -> T -> list Z * result Z;
  payload_parse : list Z -> result T;
  payload_follow : T -> list Z -> T;
}.

(** Encoding into a buffer that holds the header writes exactly it, and parsing
    it in front of anything gives the value back; a buffer too short is refused
    untouched, and so is content shorter than the header. *)
Class PayloadLaws (T : Type) {P : Payload T} : Prop := {
  payload_round_trip v out : payload_ok v -> payload_size <= zlen out ->
    exists wire, zlen wire = payload_size /\ payload_encode out v = (wire ++ drop (length wire) out, Ok payload_size) /\
      forall rest, payload_parse (wire ++ rest) = Ok (payload_follow v rest);
  payload_too_small v out : zlen out < payload_size -> payload_encode out v = (out, Err BufferTooSmall);
  payload_short content : zlen content < payload_size -> payload_parse content = Err ShortPacket;
}.

Lemma fill_front_ok out len bytes : zlen bytes = len -> len <= zlen out -> fill_front out len bytes = (bytes ++ drop (length bytes) out, Ok len).
Proof.
  intros H Hl. unfold fill_front. rewrite (proj2 (Z.ltb_ge _ _)) by lia. rewrite write_some by zlia. rewrite Z.add_0_l.
  unfold zlen. by rewrite Nat2Z.id.
Qed.

Lemma fill_front_small out len bytes : zlen out < len -> fill_front out len bytes = (out, Err BufferTooSmall).
Proof. intros H. unfold fill_front. by rewrite (proj2 (Z.ltb_lt _ _)) by lia. Qed.

#[export] Instance control_payload : Payload Control := {|
  payload_ok c := is_u32 (ct_a0 c) /\ is_u32 (ct_a1 c) /\ is_u32 (ct_a2 c) /\ is_u8 (ct_opcode c);
  payload_size := CONTROL_HEADER_LEN;
  payload_encode := encode_header;
  payload_parse := control_parse;
  payload_follow c rest := mkControl (ct_a0 c) (ct_a1 c) (ct_a2 c) (ct_opcode c) rest;
|}.

Lemma control_parse_header c rest :
  payload_ok c -> control_parse (control_header c ++ rest) = Ok (mkControl (ct_a0 c) (ct_a1 c) (ct_a2 c) (ct_opcode c) rest).
Proof.
  destruct c as [a0 a1 a2 op body]. intros (H0 & H1 & H2 & H3). cbn [ct_a0 ct_a1 ct_a2 ct_opcode] in *.
  unfold control_header, control_parse. cbn [ct_a0 ct_a1 ct_a2 ct_opcode].
  rewrite (control_be32_at _ [] a0 (be_bytes 4 a1 ++ be_bytes 4 a2 ++ [op] ++ rest) 0) by at_field. cbn [mbind result_bind].
  rewrite (control_be32_at _ (be_bytes 4 a0) a1 (be_bytes 4 a2 ++ [op] ++ rest) 4) by at_field. cbn [mbind result_bind].
  rewrite (control_be32_at _ (be_bytes 4 a0 ++ be_bytes 4 a1) a2 ([op] ++ rest) 8) by at_field. cbn [mbind result_bind].
  rewrite (get_at _ (be_bytes 4 a0 ++ be_bytes 4 a1 ++ be_bytes 4 a2) op rest 12) by at_field. cbn [ok_or mbind result_bind].
  by rewrite slice_tail by done.
Qed.

#[export] Instance control_laws : PayloadLaws Control.
Proof.
  constructor; cbn [payload_size payload_encode payload_parse payload_follow control_payload].
  - intros c out Hc Hout. exists (control_header c). split; [done|]. split; [by apply fill_front_ok|]. intros rest. by apply control_parse_header.
  - intros v out H. by apply fill_front_small.
  - intros content H. unfold control_parse. do 3 past_end. by rewrite get_none by (unfold CONTROL_HEADER_LEN in H; lia).
Qed.

#[export] Instance video_payload : Payload VideoHeader := {|
  payload_ok h := is_u32 (vh_frame_id h) /\ is_u16 (vh_width h) /\ is_u16 (vh_height h);
  payload_size := VIDEO_HEADER_LEN;
  payload_encode := video_encode;
  payload_parse := video_parse;
  payload_follow h rest := h;
|}.

#[export] Instance video_laws : PayloadLaws VideoHeader.
Proof.
  constructor; cbn [payload_ok payload_size payload_encode payload_parse payload_follow video_payload].
  - intros [f w h r t s] out (H0 & H1 & H2) Hout. cbn [vh_frame_id vh_width vh_height] in *. set (v := mkVideoHeader f w h r t s). exists (video_header v).
    split; [done|]. split; [by apply fill_front_ok|]. intros rest. unfold video_header, v. cbn [vh_frame_id vh_width vh_height]. fold v.
    unfold video_parse.
    rewrite (le32_at _ [] f (le_bytes 2 w ++ le_bytes 2 h ++ [RESERVED_BYTE; video_flags v] ++ rest) 0) by at_field. cbn [mbind result_bind].
    rewrite (le16_at _ (le_bytes 4 f) w (le_bytes 2 h ++ [RESERVED_BYTE; video_flags v] ++ rest) 4) by at_field. cbn [mbind result_bind].
    rewrite (le16_at _ (le_bytes 4 f ++ le_bytes 2 w) h ([RESERVED_BYTE; video_flags v] ++ rest) 6) by at_field. cbn [mbind result_bind].
    rewrite (get_at _ (le_bytes 4 f ++ le_bytes 2 w ++ le_bytes 2 h ++ [RESERVED_BYTE]) (video_flags v) rest 9) by at_field. cbn [ok_or mbind result_bind].
    unfold v. by destruct r, t, s.
  - intros v out H. by apply fill_front_small.
  - intros content H. unfold video_parse. do 3 past_end. by rewrite get_none by (unfold VIDEO_HEADER_LEN in H; lia).
Qed.

#[export] Instance audio_payload : Payload AudioHeader := {|
  payload_ok h := is_u32 (ah_mask h) /\ is_u32 (ah_samples h) /\ is_u32 (ah_rate h) /\ is_u8 (ah_channels h);
  payload_size := AUDIO_HEADER_LEN;
  payload_encode := audio_encode;
  payload_parse := audio_parse;
  payload_follow h rest := h;
|}.

#[export] Instance audio_laws : PayloadLaws AudioHeader.
Proof.
  constructor; cbn [payload_ok payload_size payload_encode payload_parse payload_follow audio_payload].
  - intros [m s r c n] out (H0 & H1 & H2 & H3) Hout. cbn [ah_mask ah_samples ah_rate ah_channels] in *. exists (audio_header (mkAudioHeader m s r c n)).
    split; [done|]. split; [by apply fill_front_ok|]. intros rest. unfold audio_header, audio_parse. cbn [ah_mask ah_samples ah_rate ah_codec ah_channels].
    rewrite (le32_at _ [] m (le_bytes 4 s ++ le_bytes 4 r ++ [codec_bits c; UNREAD_BYTE; n] ++ rest) 0) by at_field. cbn [mbind result_bind].
    rewrite (le32_at _ (le_bytes 4 m) s (le_bytes 4 r ++ [codec_bits c; UNREAD_BYTE; n] ++ rest) 4) by at_field. cbn [mbind result_bind].
    rewrite (le32_at _ (le_bytes 4 m ++ le_bytes 4 s) r ([codec_bits c; UNREAD_BYTE; n] ++ rest) 8) by at_field. cbn [mbind result_bind].
    rewrite (get_at _ (le_bytes 4 m ++ le_bytes 4 s ++ le_bytes 4 r) (codec_bits c) ([UNREAD_BYTE; n] ++ rest) 12) by at_field. cbn [ok_or mbind result_bind].
    rewrite (get_at _ (le_bytes 4 m ++ le_bytes 4 s ++ le_bytes 4 r ++ [codec_bits c; UNREAD_BYTE]) n rest 14) by at_field. cbn [ok_or mbind result_bind].
    by destruct c.
  - intros v out H. by apply fill_front_small.
  - intros content H. unfold audio_parse. do 4 past_end. by rewrite (get_none content 14) by (unfold AUDIO_HEADER_LEN in H; lia).
Qed.

(** The body of a microphone packet: kind, payload, padding, length, encoding. *)
Definition mic_wire (p : MicPacket) : list Z :=
  le_bytes 4 MICROPHONE_KIND ++ mp_payload p ++ replicate (Z.to_nat (PAYLOAD_MAX - zlen (mp_payload p))) 0 ++
  le_bytes 4 (zlen (mp_payload p)) ++ [encoding_bits (mp_encoding p)] ++ replicate 3 0.

Definition mic_ok (p : MicPacket) : Prop :=
  zlen (mp_payload p) <= PAYLOAD_MAX /\ (mp_encoding p = Raw -> zlen (mp_payload p) mod 2 = 0).

Lemma mic_body_wire p : zlen (mp_payload p) <= PAYLOAD_MAX -> mic_body p = Some (mic_wire p).
Proof.
  intros H. unfold mic_body, mic_wire, write32, PAYLOAD_MAX in *. set (n := zlen (mp_payload p)) in *. assert (Hn : 0 <= n) by apply zlen_nonneg.
  assert (E : replicate (Z.to_nat MIC_BODY_LEN) 0 =
    replicate 4 0 ++ replicate (Z.to_nat n) 0 ++ replicate (Z.to_nat (1920 - n)) 0 ++ replicate 4 0 ++ replicate 1 0 ++ replicate 3 0).
  { rewrite <- !replicate_add. f_equal. unfold MIC_BODY_LEN. lia. }
  rewrite E. set (pay := replicate (Z.to_nat n) 0). set (padding := replicate (Z.to_nat (1920 - n)) 0).
  assert (Hpay : zlen pay = n) by (unfold pay; rewrite zlen_replicate; lia). assert (Hpad : zlen padding = 1920 - n) by (unfold padding; rewrite zlen_replicate; lia).
  rewrite (write_mid _ [] (replicate 4 0) (le_bytes 4 MICROPHONE_KIND) (pay ++ padding ++ replicate 4 0 ++ replicate 1 0 ++ replicate 3 0)) by done.
  cbn [mbind option_bind].
  rewrite (write_mid _ (le_bytes 4 MICROPHONE_KIND ++ pay ++ padding) (replicate 4 0) (le_bytes 4 n) (replicate 1 0 ++ replicate 3 0))
    by first [by rewrite <- !app_assoc | by rewrite !zlen_app, Hpay, Hpad, zlen_le_bytes; unfold LENGTH_AT; lia | done].
  cbn [mbind option_bind].
  rewrite (write_mid _ (le_bytes 4 MICROPHONE_KIND ++ pay ++ padding ++ le_bytes 4 n) (replicate 1 0) [encoding_bits (mp_encoding p)] (replicate 3 0))
    by first [by rewrite <- !app_assoc | by rewrite !zlen_app, Hpay, Hpad, !zlen_le_bytes; unfold ENCODING_AT; lia | done].
  cbn [mbind option_bind].
  by rewrite (write_mid _ (le_bytes 4 MICROPHONE_KIND) pay (mp_payload p) (padding ++ le_bytes 4 n ++ [encoding_bits (mp_encoding p)] ++ replicate 3 0))
    by first [by rewrite <- !app_assoc | done].
Qed.

Lemma zlen_mic_wire p : zlen (mp_payload p) <= PAYLOAD_MAX -> zlen (mic_wire p) = MIC_BODY_LEN.
Proof. intros H. unfold mic_wire, MIC_BODY_LEN, PAYLOAD_MAX in *. zlia. Qed.

Lemma mic_parse_wire p rest : mic_ok p -> mic_parse MIC_BODY_LEN MICROPHONE_ARGUMENT MICROPHONE_SELECTOR (mic_wire p ++ rest) = Ok (Some p).
Proof.
  intros [Hl He]. unfold mic_parse. rewrite !Z.eqb_refl. cbn [negb]. pose proof (zlen_mic_wire p Hl) as Hw.
  rewrite Z.min_l by (rewrite zlen_app; zlen_pose; lia). rewrite slice_head by done. cbn [default].
  change (id (mic_wire p)) with (mic_wire p). unfold slice_to. rewrite <- Hw, slice_all. cbn [ok_or mbind result_bind].
  destruct p as [pl enc]. cbn [mp_payload mp_encoding] in *. unfold mic_wire. cbn [mp_payload mp_encoding].
  set (padding := replicate (Z.to_nat (PAYLOAD_MAX - zlen pl)) 0). assert (Hp : zlen padding = PAYLOAD_MAX - zlen pl) by (unfold padding; rewrite zlen_replicate; unfold PAYLOAD_MAX in *; zlen_pose; lia).
  rewrite (le32_at _ [] MICROPHONE_KIND (pl ++ padding ++ le_bytes 4 (zlen pl) ++ [encoding_bits enc] ++ replicate 3 0) KIND_AT) by done.
  cbn [mbind result_bind]. rewrite Z.eqb_refl. cbn [negb].
  rewrite (le32_at _ (le_bytes 4 MICROPHONE_KIND ++ pl ++ padding) (zlen pl) ([encoding_bits enc] ++ replicate 3 0) LENGTH_AT)
    by first [by rewrite <- !app_assoc | rewrite !zlen_app, Hp, zlen_le_bytes; unfold LENGTH_AT, PAYLOAD_MAX; lia | unfold is_u32, M32, PAYLOAD_MAX in *; zlen_pose; lia].
  cbn [mbind result_bind]. rewrite (proj2 (Z.ltb_ge _ _)) by lia.
  rewrite (get_at _ (le_bytes 4 MICROPHONE_KIND ++ pl ++ padding ++ le_bytes 4 (zlen pl)) (encoding_bits enc) (replicate 3 0) ENCODING_AT)
    by first [by rewrite <- !app_assoc | rewrite !zlen_app, Hp, !zlen_le_bytes; unfold ENCODING_AT, PAYLOAD_MAX; lia].
  cbn [ok_or mbind result_bind]. assert (encoding_from_bits (encoding_bits enc) = Ok enc) as -> by (by destruct enc). cbn [mbind result_bind].
  replace (bool_decide (enc = Raw) && negb (zlen pl mod 2 =? 0)) with false.
  - rewrite (slice_at _ (le_bytes 4 MICROPHONE_KIND) pl (padding ++ le_bytes 4 (zlen pl) ++ [encoding_bits enc] ++ replicate 3 0)) by done. done.
  - symmetry. destruct enc; [|done]. rewrite He by done. done.
Qed.

#[export] Instance mic_payload : Payload MicPacket := {|
  payload_ok := mic_ok;
  payload_size := MIC_BODY_LEN;
  payload_encode := mic_encode;
  payload_parse body :=
    p ← mic_parse MIC_BODY_LEN MICROPHONE_ARGUMENT MICROPHONE_SELECTOR body; ok_or p Malformed;
  payload_follow p rest := p;
|}.

#[export] Instance mic_laws : PayloadLaws MicPacket.
Proof.
  constructor; cbn [payload_ok payload_size payload_encode payload_parse payload_follow mic_payload].
  - intros p out Hok Hout. pose proof Hok as [Hl _]. pose proof (zlen_mic_wire p Hl) as Hw. exists (mic_wire p). split; [done|]. split.
    + unfold mic_encode. rewrite !(proj2 (Z.ltb_ge _ _)) by lia. rewrite mic_body_wire by done. by apply fill_front_ok.
    + intros rest. by rewrite mic_parse_wire.
  - intros v out H. unfold mic_encode. by rewrite (proj2 (Z.ltb_lt _ _)).
  - intros body H. unfold mic_parse. rewrite !Z.eqb_refl. cbn [negb]. rewrite Z.min_r by lia. unfold slice_to at 2. rewrite slice_all. cbn [default].
    change (id body) with body. unfold slice_to. destruct (slice body 0 MIC_BODY_LEN) as [s|] eqn:E; [|done]. apply slice_inv in E as (_ & _ & E & _). lia.
Qed.

(** ** The pointer message *)

Definition CURSOR_BODY_LEN : Z := 21.

(** [Flags], a set of bits. *)
Definition FLAG_IMAGE : Z := 0x0002.
Definition FLAG_CACHED : Z := 0x0010.
Definition FLAG_FORGET : Z := 0x0020.
Definition FLAG_RELATIVE : Z := 0x0100.
Definition FLAG_HIDDEN : Z := 0x0200.
Definition FLAG_SUPPRESSED : Z := 0x0800.

Definition flags_contains (flags other : Z) : bool := Z.land flags other =? other.

Record Update := mkUpdate {
  up_stream : Z;
  up_x : Z;
  up_y : Z;
  up_hot_x : Z;
  up_hot_y : Z;
  up_hidden : bool;
  up_relative : bool;
  up_suppressed : bool;
}.

Inductive Image :=
  | Unchanged
  | Fresh (png : list Z) (width height checksum : Z)
  | Cached (checksum : Z).

Definition encoded_len (image : Z) : Z := CONTROL_HEADER_LEN + CURSOR_BODY_LEN + image.

Definition or_if (b : bool) (flags bit : Z) : Z := if b then Z.lor flags bit else flags.

Definition mode_flags (u : Update) (forget : bool) : Z :=
  or_if forget (or_if (up_suppressed u) (or_if (up_relative u) (or_if (up_hidden u) 0 FLAG_HIDDEN) FLAG_RELATIVE) FLAG_SUPPRESSED) FLAG_FORGET.

(** Size, header arguments and the two fields at offsets 15 and 17, with the
    flags of the form. *)
Definition cursor_form (u : Update) (image : Image) (flags : Z) : result (Z * Z * Z * Z * Z * Z) :=
  match image with
  | Unchanged => Ok (flags, 0, 0, 0, up_hot_x u, up_hot_y u)
  | Fresh png _ _ _ =>
      size ← ok_or (try_from U32_MAX (zlen png)) BufferTooSmall;
      Ok (Z.lor flags FLAG_IMAGE, size, 0, 0, up_hot_x u, up_hot_y u)
  | Cached checksum =>
      Ok (Z.lor flags FLAG_CACHED, 0, up_hot_x u, up_hot_y u, Z.land checksum 0xFFFF, Z.shiftr checksum 16)
  end.

Definition cursor_put : Sink -> list Z -> Sink * result unit := sink_put BufferTooSmall.

Local Open Scope sink_scope.

Definition cursor_encode (out : list Z) (u : Update) (image : Image) (forget : bool) : list Z * result Z :=
  match cursor_form u image (mode_flags u forget) with
  | Err e => (out, Err e)
  | Ok (flags, size, a0, a1, at15, at17) =>
      let '(out, r) := encode_header out (mkControl a0 a1 (up_stream u) OP_CURSOR []) in
      match r with
      | Err e => (out, Err e)
      | Ok at_ =>
          let '(width, height) := match image with Fresh _ width height _ => (width, height) | _ => (0, 0) end in
          let '(k, r) :=
            into k <- cursor_put (mkSink out at_) [0; 0; 0];
            into k <- cursor_put k (be_bytes 4 size);
            into k <- cursor_put k (be_bytes 2 width);
            into k <- cursor_put k (be_bytes 2 height);
            into k <- cursor_put k (be_bytes 2 (up_x u));
            into k <- cursor_put k (be_bytes 2 (up_y u));
            into k <- cursor_put k (be_bytes 2 at15);
            into k <- cursor_put k (be_bytes 2 at17);
            into k <- cursor_put k (be_bytes 2 flags);
            match image with Fresh png _ _ _ => cursor_put k png | _ => (k, Ok tt) end in
          match r with Ok _ => (sk_out k, Ok (sk_at k)) | Err e => (sk_out k, Err e) end
      end
  end.

(** What the far side finds after the control header. *)
Definition cursor_body (u : Update) (image : Image) (forget : bool) : list Z :=
  [0; 0; 0] ++
  match image with
  | Unchanged => be_bytes 4 0 ++ be_bytes 2 0 ++ be_bytes 2 0 ++ be_bytes 2 (up_x u) ++ be_bytes 2 (up_y u) ++ be_bytes 2 (up_hot_x u) ++ be_bytes 2 (up_hot_y u) ++
                 be_bytes 2 (mode_flags u forget)
  | Fresh png w h _ => be_bytes 4 (zlen png) ++ be_bytes 2 w ++ be_bytes 2 h ++ be_bytes 2 (up_x u) ++ be_bytes 2 (up_y u) ++ be_bytes 2 (up_hot_x u) ++ be_bytes 2 (up_hot_y u) ++
                 be_bytes 2 (Z.lor (mode_flags u forget) FLAG_IMAGE) ++ png
  | Cached c => be_bytes 4 0 ++ be_bytes 2 0 ++ be_bytes 2 0 ++ be_bytes 2 (up_x u) ++ be_bytes 2 (up_y u) ++ be_bytes 2 (Z.land c 0xFFFF) ++ be_bytes 2 (Z.shiftr c 16) ++
                 be_bytes 2 (Z.lor (mode_flags u forget) FLAG_CACHED)
  end.

Definition image_len (image : Image) : Z := match image with Fresh png _ _ _ => zlen png | _ => 0 end.

(** Hotspot in the header for a cached picture, and zero otherwise. *)
Definition cursor_control (u : Update) (image : Image) (forget : bool) : Control :=
  match image with
  | Cached _ => mkControl (up_hot_x u) (up_hot_y u) (up_stream u) OP_CURSOR (cursor_body u image forget)
  | _ => mkControl 0 0 (up_stream u) OP_CURSOR (cursor_body u image forget)
  end.

Lemma zlen_cursor_body u image forget : zlen (cursor_body u image forget) = CURSOR_BODY_LEN + image_len image.
Proof. destruct image; unfold cursor_body, image_len, CURSOR_BODY_LEN; zlia. Qed.

Lemma cursor_encode_ok u image forget out :
  image_len image <= U32_MAX ->
  let wire := control_header (cursor_control u image forget) ++ cursor_body u image forget in
  (zlen wire <= zlen out -> cursor_encode out u image forget = (wire ++ drop (length wire) out, Ok (zlen wire))) /\
  (zlen out < zlen wire -> snd (cursor_encode out u image forget) = Err BufferTooSmall).
Proof.
  intros Hsz wire.
  assert (Hform : exists flags size a0 a1 at15 at17 w h, cursor_form u image (mode_flags u forget) = Ok (flags, size, a0, a1, at15, at17) /\
    match image with Fresh _ width height _ => (width, height) | _ => (0, 0) end = (w, h) /\
    wire = control_header (mkControl a0 a1 (up_stream u) OP_CURSOR []) ++ [0; 0; 0] ++ be_bytes 4 size ++ be_bytes 2 w ++ be_bytes 2 h ++ be_bytes 2 (up_x u) ++
      be_bytes 2 (up_y u) ++ be_bytes 2 at15 ++ be_bytes 2 at17 ++ be_bytes 2 flags ++ match image with Fresh png _ _ _ => png | _ => [] end).
  { destruct image as [|png w h c|c]; cbn [image_len] in Hsz; unfold cursor_form.
    - do 8 eexists. split; [done|]. split; [done|]. by rewrite ?app_nil_r.
    - rewrite try_from_some by (zlen_pose; lia). do 8 eexists. split; [done|]. split; [done|]. done.
    - do 8 eexists. split; [done|]. split; [done|]. by rewrite ?app_nil_r. }
  destruct Hform as (flags & size & a0 & a1 & at15 & at17 & w & h & Hf & Hwh & Hwire). clearbody wire. unfold cursor_encode. rewrite Hf.
  set (hd := control_header _) in Hwire. assert (Hhd : zlen hd = 13) by done. unfold encode_header. fold hd.
  destruct (Z.lt_ge_cases (zlen out) 13) as [Hs|Hs].
  { rewrite fill_front_small by done. split; [intros; exfalso; subst wire; zlia|done]. }
  rewrite fill_front_ok by done. rewrite Hwh.
  assert (Hk : Sunk out (mkSink (hd ++ drop (length hd) out) CONTROL_HEADER_LEN) hd) by (split; [done|]; split; [done|lia]).
  match goal with |- context [let '(_, _) := ?x in _] => assert (HS : Sinks BufferTooSmall out x wire) end.
  { rewrite Hwire. unfold cursor_put. do 9 sink_step. destruct image; [| |].
    1,3: split; [intros; split; [done|]|intros; exfalso; match goal with H : Sunk _ _ _ |- _ => destruct H as (_ & _ & ?) end; zlia].
    all: try (rewrite ?app_nil_r, <- ?app_assoc in *; assumption). sink_last. }
  destruct (sink_then _ _) as [k r]. destruct HS as [H1 H2]. split; intros H.
  - destruct (H1 H) as [E (Ea & Eo & _)]. cbn in E, Ea, Eo |- *. subst r. by rewrite Ea, Eo.
  - specialize (H2 H). cbn in H2 |- *. subst r. done.
Qed.

(** ** What the formats guarantee *)

Lemma strip_terminator_app text : strip_terminator (text ++ [0]) = text.
Proof. unfold strip_terminator. rewrite rev_app_distr. cbn. apply rev_involutive. Qed.

(** Payloads round-trip in the middle of a message. Each encoder writes
    its header, and only it, at the front of the buffer, and its parser reads
    the value back whatever follows: a control header in front of any body, a
    video or audio header in front of any bitstream, a microphone packet with a
    payload of any legal length. A text framed as a string body comes back
    without its terminator. *)
Theorem payload_formats_round_trip (c : Control) (v : VideoHeader) (a : AudioHeader) (m : MicPacket) (out rest text : list Z) (sub a2 : Z) :
  payload_ok c -> payload_ok v -> payload_ok a -> payload_ok m -> MIC_BODY_LEN <= zlen out -> string_body_len (zlen text) <= U32_MAX ->
  (exists w, encode_header out c = (w ++ drop 13 out, Ok 13) /\ control_parse (w ++ rest) = Ok (mkControl (ct_a0 c) (ct_a1 c) (ct_a2 c) (ct_opcode c) rest)) /\
  (exists w, video_encode out v = (w ++ drop 10 out, Ok 10) /\ video_parse (w ++ rest) = Ok v) /\
  (exists w, audio_encode out a = (w ++ drop 15 out, Ok 15) /\ audio_parse (w ++ rest) = Ok a) /\
  (exists w, mic_encode out m = (w ++ drop (Z.to_nat MIC_BODY_LEN) out, Ok MIC_BODY_LEN) /\
     mic_parse MIC_BODY_LEN MICROPHONE_ARGUMENT MICROPHONE_SELECTOR (w ++ rest) = Ok (Some m)) /\
  user_data (mkControl (string_body_len (zlen text)) sub a2 OP_USER_DATA (text ++ [0] ++ rest)) = Some (sub, text).
Proof.
  intros Hc Hv Ha Hm Hout Htext.
  destruct (payload_round_trip c out Hc) as (w1 & L1 & E1 & P1); [unfold MIC_BODY_LEN in Hout; cbn; unfold CONTROL_HEADER_LEN; lia|].
  destruct (payload_round_trip v out Hv) as (w2 & L2 & E2 & P2); [unfold MIC_BODY_LEN in Hout; cbn; unfold VIDEO_HEADER_LEN; lia|].
  destruct (payload_round_trip a out Ha) as (w3 & L3 & E3 & P3); [unfold MIC_BODY_LEN in Hout; cbn; unfold AUDIO_HEADER_LEN; lia|].
  destruct (payload_round_trip m out Hm) as (w4 & L4 & E4 & P4); [done|].
  assert (Hdrop : forall (w : list Z) n, zlen w = n -> drop (length w) out = drop (Z.to_nat n) out) by (intros w n Hn; f_equal; unfold zlen in Hn; lia).
  rewrite (Hdrop _ _ L1) in E1. rewrite (Hdrop _ _ L2) in E2. rewrite (Hdrop _ _ L3) in E3. rewrite (Hdrop _ _ L4) in E4.
  split; [by exists w1|]. split; [by exists w2|]. split; [by exists w3|]. split.
  - exists w4. split; [exact E4|]. specialize (P4 rest). cbn [payload_parse mic_payload payload_follow] in P4. apply bind_ok in P4 as (o & -> & P4).
    apply ok_or_ok in P4. by rewrite P4.
  - unfold user_data, string_body_len in *. cbn [ct_opcode ct_body ct_a0 ct_a1]. rewrite Z.eqb_refl. cbn [negb]. rewrite app_assoc.
    rewrite slice_head by zlia. cbn [default]. change (id (text ++ [0])) with (text ++ [0]). by rewrite strip_terminator_app.
Qed.

Lemma payload_formats_round_trip_witness :
  exists w, mic_encode (replicate 1932 7) (mkMicPacket [1; 2; 3; 4] Raw) = (w, Ok 1932) /\
    mic_parse 1932 1 MICROPHONE_SELECTOR w = Ok (Some (mkMicPacket [1; 2; 3; 4] Raw)).
Proof.
  destruct (payload_formats_round_trip (mkControl 1 2 3 4 []) (mkVideoHeader 1 1920 1080 Deg90 true false) (stereo 960 Opus) (mkMicPacket [1; 2; 3; 4] Raw)
    (replicate 1932 7) [] [104; 105] 5 0) as (_ & _ & _ & (w & E & P) & _).
  - repeat split; vm_compute; congruence.
  - repeat split; vm_compute; congruence.
  - repeat split; vm_compute; congruence.
  - split; [vm_compute; discriminate|reflexivity].
  - vm_compute. discriminate.
  - vm_compute. discriminate.
  - exists w. rewrite app_nil_r in P. split; [|exact P]. rewrite E. rewrite drop_replicate, app_nil_r. reflexivity.
Defined.

(** The flag word, the last field before the picture. *)
Definition body_flags (body : list Z) : option Z := be_val <$> slice body 19 21.

Lemma body_flags_at u image forget f rest :
  cursor_body u image forget = take 19 (cursor_body u image forget) ++ be_bytes 2 f ++ rest -> 0 <= f < 65536 -> body_flags (cursor_body u image forget) = Some f.
Proof.
  intros E Hf. unfold body_flags. rewrite E. pose proof (zlen_cursor_body u image forget) as Hz. unfold CURSOR_BODY_LEN in Hz.
  assert (0 <= image_len image) by (destruct image; cbn; zlen_pose; lia).
  rewrite (slice_mid _ (be_bytes 2 f) rest) by zlia. cbn [fmap option_fmap option_map]. by rewrite be_val_bytes.
Qed.

(** The pointer message says what it was told, and its states are
    independent. With room for [encoded_len] bytes the encoder writes exactly
    that many; the message parses as a control message with the pointer's
    opcode and stream, its hotspot in the header exactly when the picture is
    named rather than sent; and in the flag word each of hidden, relative,
    suppressed, forget, image and cached is set exactly when asked, image and
    cached never both. With less room it fails. *)
Theorem cursor_message_exact (u : Update) (image : Image) (forget : bool) (out : list Z) :
  is_u8 (up_stream u) -> is_u16 (up_hot_x u) -> is_u16 (up_hot_y u) -> image_len image <= U32_MAX ->
  (encoded_len (image_len image) <= zlen out ->
   exists w flags, zlen w = encoded_len (image_len image) /\ cursor_encode out u image forget = (w ++ drop (length w) out, Ok (zlen w)) /\
     control_parse w = Ok (cursor_control u image forget) /\ body_flags (cursor_body u image forget) = Some flags /\
     flags_contains flags FLAG_HIDDEN = up_hidden u /\ flags_contains flags FLAG_RELATIVE = up_relative u /\
     flags_contains flags FLAG_SUPPRESSED = up_suppressed u /\ flags_contains flags FLAG_FORGET = forget /\
     flags_contains flags FLAG_IMAGE = match image with Fresh _ _ _ _ => true | _ => false end /\
     flags_contains flags FLAG_CACHED = match image with Cached _ => true | _ => false end) /\
  (zlen out < encoded_len (image_len image) -> snd (cursor_encode out u image forget) = Err BufferTooSmall).
Proof.
  intros Hs Hx Hy Hsz. pose proof (cursor_encode_ok u image forget out Hsz) as [Hok Herr]. set (wire := control_header _ ++ _) in *.
  assert (Hl : zlen wire = encoded_len (image_len image)).
  { unfold wire, encoded_len. rewrite zlen_app, zlen_cursor_body. change (zlen (control_header _)) with CONTROL_HEADER_LEN. lia. }
  rewrite <- Hl. split; [|done]. intros H.
  set (flags := match image with Unchanged => mode_flags u forget | Fresh _ _ _ _ => Z.lor (mode_flags u forget) FLAG_IMAGE | Cached _ => Z.lor (mode_flags u forget) FLAG_CACHED end).
  exists wire, flags. split; [done|]. split; [by apply Hok|].
  assert (Hr : 0 <= flags < 65536) by (unfold flags; destruct image, u as [? ? ? ? ? [] [] []], forget; vm_compute; split; congruence).
  split.
  { unfold wire. rewrite control_parse_header; [by destruct image|].
    unfold is_u8, is_u16 in *. destruct image; cbn; unfold OP_CURSOR, is_u32, is_u8, M32; repeat split; lia. }
  split.
  { apply (body_flags_at u image forget flags (match image with Fresh png _ _ _ => png | _ => [] end)); [|done].
    destruct image; unfold flags, cursor_body; rewrite ?app_nil_r; reflexivity. }
  unfold flags. destruct image, u as [? ? ? ? ? [] [] []], forget; vm_compute; repeat split.
Qed.

Lemma cursor_message_exact_witness :
  exists w, fst (cursor_encode (replicate 40 0) (mkUpdate 0 10 20 3 4 true false true) (Cached 0xDEADBEEF) true) = w ++ replicate 6 0 /\
    control_parse w = Ok (cursor_control (mkUpdate 0 10 20 3 4 true false true) (Cached 0xDEADBEEF) true).
Proof.
  destruct (cursor_message_exact (mkUpdate 0 10 20 3 4 true false true) (Cached 0xDEADBEEF) true (replicate 40 0)) as [H _];
    [vm_compute; split; congruence..|vm_compute; congruence|].
  destruct H as (w & flags & Hl & E & P & _); [vm_compute; discriminate|]. exists w. split; [|exact P]. rewrite E. cbn [fst]. f_equal.
  rewrite drop_replicate. f_equal. change (Z.of_nat (length w) = 34) in Hl. lia.
Defined.
