(* ===== verification/Init.v ===== *)
(** * The connecting side's preferences ([init.rs])

    Session initialization carries a flat JSON object that the host reads by
    name: [value_after] searches for a quoted key followed by a colon and the
    rest of the object is not parsed. The search is the only unbounded loop of
    the payload layer; [value_after_terminates] shows that it ends within as
    many rounds as the object has bytes and finds exactly what a search from
    every position finds. *)

From Stdlib Require Import String Ascii.
From S2P Require Import Prelude.
Open Scope Z_scope.

(** The bytes of a key literal. *)
Definition bytes_of (s : string) : list Z := map (fun a => Z.of_N (N_of_ascii a)) (list_ascii_of_string s).

Definition QUOTE : Z := 34.
Definition COLON : Z := 58.
Definition OPEN_BRACE : Z := 123.

Definition VERSION : Z := 1.
Definition NO_LIMIT : Z := 60000.
Definition FLAG_HEVC : Z := 0x01.
Definition FLAG_COLOR444 : Z := 0x02.
Definition FLAG_BASE : Z := 0x08.
Definition FLAG_10BIT : Z := 0x10.

Record Init := mkInit {
  in_version : Z;
  in_max_width : Z;
  in_max_height : Z;
  in_flags : Z;
  in_resolution_x : Z;
  in_resolution_y : Z;
  in_media_container : Z;
  in_refresh_rate : Z;
  in_caches_cursor : bool;
  in_raw_audio : bool;
}.

Definition hevc (i : Init) : bool := negb (Z.land (in_flags i) FLAG_HEVC =? 0).
Definition color444 (i : Init) : bool := negb (Z.land (in_flags i) FLAG_COLOR444 =? 0).
Definition ten_bit (i : Init) : bool := negb (Z.land (in_flags i) FLAG_10BIT =? 0).
Definition has_preferred_size (i : Init) : bool := negb (in_resolution_x i =? 0) && negb (in_resolution_y i =? 0).
Definition has_size_limit (i : Init) : bool :=
  negb (in_max_width i =? NO_LIMIT) && negb (in_max_height i =? NO_LIMIT) && negb (in_max_width i =? 0) && negb (in_max_height i =? 0).

Definition is_space (b : Z) : bool := (b =? 32) || (b =? 9) || (b =? 10) || (b =? 13).
Definition is_digit (b : Z) : bool := (48 <=? b) && (b <=? 57).

(** The [position] of the first quote, counted from [at_]. *)
Fixpoint position (l : list Z) (at_ : Z) : option Z :=
  match l with
  | [] => None
  | b :: l => if b =? QUOTE then Some at_ else position l (at_ + 1)
  end.

(** [while body.get(cursor).is_some_and(is_space) { cursor += 1 }] *)
Fixpoint skip_from (l : list Z) (cursor : Z) : Z :=
  match l with
  | b :: l => if is_space b then skip_from l (cursor + 1) else cursor
  | [] => cursor
  end.
Definition skip_spaces (body : list Z) (cursor : Z) : Z := skip_from (drop (Z.to_nat cursor) body) cursor.

(** The loop of [value_after]: [None] when [fuel] runs out, otherwise what the
    function returns. *)
Fixpoint scan (fuel : nat) (body key : list Z) (at_ : Z) : option (option (list Z)) :=
  match fuel with
  | O => None
  | S fuel =>
      if at_ + zlen key + 2 <=? zlen body then
        match slice_from body at_ with
        | None => Some None
        | Some rest =>
            match position rest at_ with
            | None => Some None
            | Some quote =>
                match slice body (quote + 1) (quote + 1 + zlen key) with
                | None => Some None
                | Some name =>
                    if bool_decide (name = key) && bool_decide (get body (quote + 1 + zlen key) = Some QUOTE) then
                      let cursor := skip_spaces body (quote + 2 + zlen key) in
                      if negb (bool_decide (get body cursor = Some COLON)) then scan fuel body key (quote + 1)
                      else Some (slice_from body (skip_spaces body (cursor + 1)))
                    else scan fuel body key (quote + 1)
                end
            end
        end
      else Some None
  end.

(** One round per byte is more than the loop ever takes. *)
Definition value_after (body key : list Z) : option (list Z) := default None (scan (S (length body)) body key 0).

(** The digits and how many there were. *)
Fixpoint read_digits (l : list Z) (value digits : Z) : Z * Z :=
  match l with
  | [] => (value, digits)
  | b :: l =>
      if negb (is_digit b) then (value, digits)
      else read_digits l (saturating_add U32_MAX (Z.min U32_MAX (value * 10)) (b - 48)) (digits + 1)
  end.

Definition number (bytes : list Z) (fallback : Z) : Z :=
  let '(value, digits) := read_digits bytes 0 0 in if digits =? 0 then fallback else value.

Definition field (body : list Z) (key : string) (fallback : Z) : Z :=
  match value_after body (bytes_of key) with None => fallback | Some rest => number rest fallback end.

Definition truth (body : list Z) (key : string) : bool :=
  match value_after body (bytes_of key) with
  | None => false
  | Some rest => bool_decide (take 4 rest = bytes_of "true")
  end.

Definition init_parse (body : list Z) : result Init :=
  let body := match rev body with 0 :: head => rev head | _ => body end in
  if negb (bool_decide (get body 0 = Some OPEN_BRACE)) then Err Malformed
  else
    let version := field body "_version" 0 in
    if negb (version =? VERSION) then Err Malformed
    else Ok (mkInit version (field body "_max_w" 0) (field body "_max_h" 0) (field body "_flags" 0) (field body "resolutionX" 0)
               (field body "resolutionY" 0) (field body "mediaContainer" 0) (field body "refreshRate" 60)
               (truth body "_cache_cursor") (truth body "rawAudio")).

(** ** The search, declaratively *)

Fixpoint skip_blank (l : list Z) : list Z :=
  match l with b :: l' => if is_space b then skip_blank l' else l | [] => [] end.

Fixpoint strip_prefix (p l : list Z) : option (list Z) :=
  match p, l with
  | [], _ => Some l
  | x :: p, y :: l => if x =? y then strip_prefix p l else None
  | _ :: _, [] => None
  end.

(** The text starts with the quoted key and a colon: what follows them. *)
Definition entry_here (key l : list Z) : option (list Z) :=
  r ← strip_prefix ([QUOTE] ++ key ++ [QUOTE]) l;
  match skip_blank r with b :: r' => if b =? COLON then Some (skip_blank r') else None | [] => None end.

(** The first place where it does. *)
Fixpoint find_key (key l : list Z) : option (list Z) :=
  match entry_here key l with
  | Some r => Some r
  | None => match l with [] => None | _ :: l => find_key key l end
  end.

Lemma strip_prefix_spec p l r : strip_prefix p l = Some r <-> l = p ++ r.
Proof.
  revert l. induction p as [|x p IH]; intros l; cbn; [split; [by intros [= ->]|by intros ->]|].
  destruct l as [|y l]; [done|]. destruct (Z.eqb_spec x y) as [->|Hne]; [|split; congruence].
  rewrite IH. split; [by intros ->|by intros [= ->]].
Qed.

Lemma strip_prefix_none p l : (forall r, l <> p ++ r) -> strip_prefix p l = None.
Proof. intros H. destruct (strip_prefix p l) as [r|] eqn:E; [|done]. by apply strip_prefix_spec, H in E. Qed.

Lemma entry_here_no_quote key b l : b <> QUOTE -> entry_here key (b :: l) = None.
Proof. intros H. unfold entry_here. rewrite strip_prefix_none; [done|]. by intros r [= ->]. Qed.

(** Nothing is found in less room than the quoted key takes. *)
Lemma find_key_short key l : zlen l < zlen key + 2 -> find_key key l = None.
Proof.
  induction l as [|b l IH]; intros H; cbn [find_key]; unfold entry_here; rewrite strip_prefix_none; try done.
  - cbn. apply IH. zlia.
  - intros r E. apply (f_equal zlen) in E. zlia.
Qed.

(** Text without a quote is passed over. *)
Lemma find_key_skip key pre l : Forall (fun b => b <> QUOTE) pre -> find_key key (pre ++ l) = find_key key l.
Proof. induction 1 as [|b pre Hb _ IH]; [done|]. cbn [app find_key]. by rewrite entry_here_no_quote. Qed.

Lemma position_some l a q :
  position l a = Some q -> exists pre post, l = pre ++ QUOTE :: post /\ Forall (fun b => b <> QUOTE) pre /\ q = a + zlen pre.
Proof.
  revert a. induction l as [|b l IH]; intros a; cbn [position]; [done|]. destruct (Z.eqb_spec b QUOTE) as [->|Hne].
  - intros [= <-]. exists [], l. split; [done|]. split; [constructor|]. rewrite zlen_nil. lia.
  - intros (pre & post & -> & Hp & ->)%IH. exists (b :: pre), post. split; [done|]. split; [by constructor|]. rewrite zlen_cons. lia.
Qed.

Lemma position_none l a : position l a = None -> Forall (fun b => b <> QUOTE) l.
Proof.
  revert a. induction l as [|b l IH]; intros a; cbn [position]; [constructor|]. destruct (Z.eqb_spec b QUOTE); [done|].
  intros H. constructor; eauto.
Qed.

Lemma skip_from_shift l c : skip_from l c = c + zlen l - zlen (skip_blank l).
Proof. revert c. induction l as [|b l IH]; intros c; cbn; [lia|]. destruct (is_space b); [rewrite IH|]; zlia. Qed.

Lemma skip_blank_suffix l : exists g, l = g ++ skip_blank l.
Proof. induction l as [|b l [g IH]]; cbn; [by exists []|]. destruct (is_space b); [exists (b :: g); cbn; by f_equal|by exists []]. Qed.

(** Skipping spaces by index is skipping them in the rest of the text. *)
Lemma skip_spaces_ok front l :
  exists g, l = g ++ skip_blank l /\ skip_spaces (front ++ l) (zlen front) = zlen (front ++ g).
Proof.
  destruct (skip_blank_suffix l) as [g Hg]. exists g. split; [done|]. unfold skip_spaces. rewrite drop_app_length' by (unfold zlen; lia).
  rewrite skip_from_shift, zlen_app. apply (f_equal zlen) in Hg. rewrite zlen_app in Hg. lia.
Qed.

Lemma get_app_head (front l : list Z) : get (front ++ l) (zlen front) = head l.
Proof.
  zlen_pose. rewrite get_lookup by lia. rewrite lookup_app_r by (unfold zlen; lia).
  replace (Z.to_nat (zlen front) - length front)%nat with O by (unfold zlen; lia). by destruct l.
Qed.

(** What the loop does at one quote. *)
Definition at_quote (body key : list Z) (quote : Z) : option (option (list Z)) :=
  let cursor := skip_spaces body (quote + 2 + zlen key) in
  if bool_decide (slice body (quote + 1) (quote + 1 + zlen key) = Some key) && bool_decide (get body (quote + 1 + zlen key) = Some QUOTE) &&
     bool_decide (get body cursor = Some COLON)
  then Some (slice_from body (skip_spaces body (cursor + 1))) else None.

Lemma at_quote_entry front post key :
  at_quote (front ++ QUOTE :: post) key (zlen front) = Some <$> entry_here key (QUOTE :: post).
Proof.
  unfold at_quote, entry_here. replace (front ++ QUOTE :: post) with ((front ++ [QUOTE]) ++ post) by by rewrite <- app_assoc.
  set (f1 := front ++ [QUOTE]). assert (Hf1 : zlen front + 1 = zlen f1) by (unfold f1; zlia). rewrite Hf1. cbn [app strip_prefix]. rewrite Z.eqb_refl.
  destruct (bool_decide (slice _ _ _ = _)) eqn:Es; [apply bool_decide_eq_true_1 in Es|]; cycle 1.
  { cbn [andb]. rewrite strip_prefix_none; [done|]. intros r ->. apply bool_decide_eq_false_1 in Es. destruct Es.
    rewrite <- (app_assoc key). apply slice_mid; zlia. }
  apply slice_inv in Es as (_ & _ & Hl & Es). rewrite drop_app_length' in Es by (unfold zlen; lia).
  assert (Hp : exists p2, post = key ++ p2).
  { exists (drop (length key) post). rewrite Es at 1. replace (Z.to_nat (zlen f1 + zlen key - zlen f1)) with (length key) by (unfold zlen; lia). by rewrite take_drop. }
  clear Es Hl. destruct Hp as [p2 ->]. rewrite app_assoc. set (f2 := f1 ++ key). replace (zlen f1 + zlen key) with (zlen f2) by (unfold f2; zlia).
  replace (zlen front + 2 + zlen key) with (zlen (f2 ++ [QUOTE])) by (unfold f2, f1; zlia). rewrite get_app_head.
  destruct (bool_decide (head p2 = Some QUOTE)) eqn:Eq; [apply bool_decide_eq_true_1 in Eq|]; cycle 1.
  { cbn [andb]. rewrite strip_prefix_none; [done|]. intros r E. rewrite <- app_assoc in E. apply app_inv_head in E as ->. by apply bool_decide_eq_false_1 in Eq. }
  destruct p2 as [|? p3]; [done|]. injection Eq as ->. cbn [andb].
  assert (strip_prefix (key ++ [QUOTE]) (key ++ QUOTE :: p3) = Some p3) as -> by (apply strip_prefix_spec; by rewrite <- app_assoc). cbn [mbind option_bind].
  replace (f2 ++ QUOTE :: p3) with ((f2 ++ [QUOTE]) ++ p3) by by rewrite <- app_assoc. set (f3 := f2 ++ [QUOTE]).
  destruct (skip_spaces_ok f3 p3) as (g & Hg & ->).
  assert (E3 : f3 ++ p3 = (f3 ++ g) ++ skip_blank p3) by (by rewrite <- app_assoc, <- Hg). rewrite E3, get_app_head.
  destruct (skip_blank p3) as [|b p4]; [done|]. cbn [head]. destruct (Z.eqb_spec b COLON) as [->|Hne]; [|by rewrite bool_decide_eq_false_2 by congruence].
  rewrite bool_decide_eq_true_2 by done. set (f4 := f3 ++ g). replace (f4 ++ COLON :: p4) with ((f4 ++ [COLON]) ++ p4) by by rewrite <- app_assoc.
  replace (zlen f4 + 1) with (zlen (f4 ++ [COLON])) by zlia. destruct (skip_spaces_ok (f4 ++ [COLON]) p4) as (g2 & Hg2 & ->).
  assert (E5 : (f4 ++ [COLON]) ++ p4 = ((f4 ++ [COLON]) ++ g2) ++ skip_blank p4) by (rewrite <- (app_assoc _ g2), <- Hg2; done). rewrite E5. by rewrite slice_tail.
Qed.

Lemma position_app pre post a : Forall (fun b => b <> QUOTE) pre -> position (pre ++ QUOTE :: post) a = Some (a + zlen pre).
Proof.
  intros Hp. revert a. induction Hp as [|b pre Hb _ IH]; intros a; cbn; [f_equal; zlia|].
  rewrite (proj2 (Z.eqb_neq _ _) Hb), IH. f_equal. zlia.
Qed.

(** One round of the loop, with the next quote after [pre]. *)
Lemma scan_round fuel front pre post key :
  Forall (fun b => b <> QUOTE) pre ->
  let body := (front ++ pre) ++ QUOTE :: post in
  zlen front + zlen key + 2 <= zlen body ->
  scan (S fuel) body key (zlen front) =
  if zlen post <? zlen key then Some None
  else match at_quote body key (zlen (front ++ pre)) with
       | Some r => Some r
       | None => scan fuel body key (zlen (front ++ pre) + 1)
       end.
Proof.
  intros Hp body Hl. cbn [scan]. rewrite (proj2 (Z.leb_le _ _)) by lia.
  assert (Hs : slice_from body (zlen front) = Some (pre ++ QUOTE :: post)) by (unfold body; rewrite <- app_assoc; by apply slice_tail). rewrite Hs.
  rewrite position_app by done. rewrite <- zlen_app. destruct (Z.ltb_spec (zlen post) (zlen key)) as [Hk|Hk].
  - destruct (slice _ _ _) as [name|] eqn:Es; [|done]. apply slice_inv in Es as (_ & _ & Es & _). unfold body in Es. exfalso. zlia.
  - unfold at_quote. rewrite (slice_some _ (zlen (front ++ pre) + 1)) by (unfold body; zlia). set (name := take _ _).
    rewrite (bool_decide_ext (Some name = Some key) (name = key)) by (split; congruence).
    destruct (bool_decide (name = key) && _); [|done]. cbn [andb]. by case_bool_decide.
Qed.

Lemma scan_find fuel front l key :
  (length l < fuel)%nat -> scan fuel (front ++ l) key (zlen front) = Some (find_key key l).
Proof.
  revert front l. induction fuel as [|fuel IH]; intros front l Hf; [lia|].
  destruct (Z.le_gt_cases (zlen front + zlen key + 2) (zlen (front ++ l))) as [Hc|Hc];
    [|cbn [scan]; rewrite (proj2 (Z.leb_gt _ _)) by lia; by rewrite find_key_short by zlia].
  destruct (position l 0) as [q|] eqn:Eq.
  - apply position_some in Eq as (pre & post & -> & Hp & _). rewrite find_key_skip by done. rewrite app_assoc in Hc |- *.
    rewrite scan_round by done. destruct (Z.ltb_spec (zlen post) (zlen key)); [by rewrite find_key_short by zlia|].
    rewrite at_quote_entry. cbn [find_key]. destruct (entry_here key (QUOTE :: post)) as [r|]; [done|]. cbn.
    replace ((front ++ pre) ++ QUOTE :: post) with ((front ++ pre ++ [QUOTE]) ++ post) by by rewrite <- !app_assoc.
    replace (zlen (front ++ pre) + 1) with (zlen (front ++ pre ++ [QUOTE])) by zlia. apply IH. rewrite length_app in Hf. cbn in Hf. lia.
  - apply position_none in Eq. assert (find_key key l = None) as ->.
    { rewrite <- (app_nil_r l), find_key_skip by done. apply find_key_short. zlia. }
    cbn [scan]. rewrite (proj2 (Z.leb_le _ _)) by lia. rewrite slice_tail by done.
    destruct (position l (zlen front)) as [q|] eqn:Eq'; [|done].
    apply position_some in Eq' as (pre & post & -> & _). apply Forall_app in Eq as [_ Eq]. by inversion_clear Eq.
Qed.

(** The search loop ends, and finds what looking everywhere finds. *)
Lemma value_after_find body key : value_after body key = find_key key body.
Proof. unfold value_after. pose proof (scan_find (S (length body)) [] body key) as H. cbn [app] in H. change (zlen []) with 0 in H. rewrite H by lia. done. Qed.

(** ** Objects *)

(** One member as it is written: the key, blanks before the colon, and
    everything up to the next quote. *)
Record Member := mkMember { mb_key : list Z; mb_gap : list Z; mb_value : list Z }.

Definition no_quote (l : list Z) : Prop := Forall (fun b => b <> QUOTE) l.
Definition member_ok (m : Member) : Prop := no_quote (mb_key m) /\ Forall (fun b => is_space b = true) (mb_gap m) /\ no_quote (mb_value m).
Definition member_text (m : Member) : list Z := QUOTE :: mb_key m ++ QUOTE :: mb_gap m ++ COLON :: mb_value m.
Definition members_text (ms : list Member) : list Z := concat (map member_text ms).

(** The value of the first member of that name. *)
Fixpoint member_value (key : list Z) (ms : list Member) : option (list Z) :=
  match ms with
  | [] => None
  | m :: ms => if bool_decide (mb_key m = key) then Some (mb_value m) else member_value key ms
  end.

Lemma split_quote a b c d : no_quote a -> no_quote c -> a ++ QUOTE :: b = c ++ QUOTE :: d -> a = c /\ b = d.
Proof.
  intros Ha Hc. revert c Hc. induction Ha as [|x a Hx _ IH]; intros c Hc E; destruct Hc as [|y c Hy Hc]; try by simplify_eq/=.
  injection E as -> E. by destruct (IH c Hc E) as [-> ->].
Qed.

Lemma skip_blank_gap gap l : Forall (fun b => is_space b = true) gap -> skip_blank (gap ++ l) = skip_blank l.
Proof. induction 1 as [|b gap Hb _ IH]; [done|]. cbn. by rewrite Hb. Qed.

Lemma entry_here_member key m l :
  no_quote key -> member_ok m ->
  entry_here key (member_text m ++ l) = if bool_decide (mb_key m = key) then Some (skip_blank (mb_value m ++ l)) else None.
Proof.
  intros Hk (Hm & Hg & _). unfold entry_here, member_text. cbn [app]. rewrite <- app_assoc. cbn [app]. rewrite <- app_assoc. cbn [app].
  case_bool_decide as E.
  - rewrite E. assert (strip_prefix (QUOTE :: key ++ [QUOTE]) (QUOTE :: key ++ QUOTE :: mb_gap m ++ COLON :: mb_value m ++ l) = Some (mb_gap m ++ COLON :: mb_value m ++ l)) as ->.
    { apply strip_prefix_spec. cbn. by rewrite <- app_assoc. }
    cbn [mbind option_bind]. rewrite skip_blank_gap by done. cbn. done.
  - rewrite strip_prefix_none; [done|]. intros r [= E']. rewrite <- app_assoc in E'. cbn in E'. by apply split_quote in E' as [? _].
Qed.

(** The closing quote of a key opens nothing. *)
Lemma entry_here_closing key gap l :
  Forall (fun b => b <> COLON) key -> Forall (fun b => is_space b = true) gap -> entry_here key (QUOTE :: gap ++ COLON :: l) = None.
Proof.
  intros Hk Hg. unfold entry_here. rewrite strip_prefix_none; [done|]. intros r [= E]. rewrite <- app_assoc in E. cbn in E. clear -Hk Hg E.
  revert key Hk E. induction Hg as [|b gap Hb _ IH]; intros key Hk E; destruct Hk as [|x key Hx Hk]; injection E as E1 E.
  - discriminate E1.
  - congruence.
  - by subst b.
  - eauto.
Qed.

Lemma find_key_members key ms :
  no_quote key -> Forall (fun b => b <> COLON) key -> Forall member_ok ms ->
  match member_value key ms with
  | Some v => exists l, find_key key (members_text ms) = Some (skip_blank (v ++ l)) /\ (l = [] \/ exists l', l = QUOTE :: l')
  | None => find_key key (members_text ms) = None
  end.
Proof.
  intros Hq Hc. induction 1 as [|m ms Hm _ IH]; cbn [member_value]; [by apply find_key_short; zlia|].
  pose proof (entry_here_member key m (members_text ms) Hq Hm) as He. pose proof Hm as (Hk & Hg & Hv).
  change (members_text (m :: ms)) with (member_text m ++ members_text ms) in *. case_bool_decide as E.
  - exists (members_text ms). split; [unfold member_text in *; cbn [app find_key] in *; by rewrite He|]. destruct ms as [|m2 ms]; [by left|right]. by eexists.
  - assert (Hf : find_key key (member_text m ++ members_text ms) = find_key key (members_text ms)).
    { unfold member_text in *. cbn [app find_key] in *. rewrite He. rewrite <- app_assoc, find_key_skip by done. cbn [app find_key].
      rewrite <- app_assoc. cbn [app]. rewrite entry_here_closing by done. rewrite find_key_skip; [|].
      - cbn [find_key]. rewrite entry_here_no_quote by done. by apply find_key_skip.
      - eapply Forall_impl; [|exact Hg]. by intros b Hb ->. }
    by rewrite Hf.
Qed.

(** ** Numbers *)

Definition decimal (ds : list Z) (v : Z) : Z := fold_left (fun v d => v * 10 + (d - 48)) ds v.

Lemma decimal_mono ds v w : v <= w -> decimal ds v <= decimal ds w.
Proof. revert v w. induction ds as [|d ds IH]; intros v w H; cbn; [done|]. apply IH. lia. Qed.

Lemma read_digits_decimal ds l v n :
  Forall (fun b => is_digit b = true) ds -> match l with b :: _ => is_digit b = false | [] => True end -> 0 <= v ->
  read_digits (ds ++ l) (Z.min U32_MAX v) n = (Z.min U32_MAX (decimal ds v), n + zlen ds).
Proof.
  intros Hd Hl. revert v n. induction Hd as [|d ds Hb _ IH]; intros v n Hv.
  - cbn. rewrite Z.add_0_r. destruct l as [|b l]; [done|]. cbn. by rewrite Hl.
  - cbn [app read_digits]. rewrite Hb. cbn [negb]. unfold is_digit in Hb. bool_prop.
    replace (saturating_add U32_MAX (Z.min U32_MAX (Z.min U32_MAX v * 10)) (d - 48)) with (Z.min U32_MAX (v * 10 + (d - 48))) by (unfold saturating_add, U32_MAX; lia).
    rewrite IH by lia. cbn. f_equal. zlia.
Qed.

(** The digits at the front, read without a machine integer. *)
Fixpoint leading_digits (l : list Z) : list Z :=
  match l with b :: l' => if is_digit b then b :: leading_digits l' else [] | [] => [] end.

Lemma leading_digits_split l :
  exists r, l = leading_digits l ++ r /\ Forall (fun b => is_digit b = true) (leading_digits l) /\ match r with b :: _ => is_digit b = false | [] => True end.
Proof.
  induction l as [|b l (r & E & Hd & Hr)]; cbn; [by exists []|]. destruct (is_digit b) eqn:Eb.
  - exists r. split; [cbn; by f_equal|]. split; [by constructor|done].
  - exists (b :: l). split; [done|]. split; [constructor|done].
Qed.

Lemma number_decimal l fallback :
  number l fallback = match leading_digits l with [] => fallback | ds => Z.min U32_MAX (decimal ds 0) end.
Proof.
  destruct (leading_digits_split l) as (r & E & Hd & Hr). unfold number. pose proof (read_digits_decimal (leading_digits l) r 0 0 Hd Hr) as H.
  rewrite <- E in H. change (Z.min U32_MAX 0) with 0 in H. rewrite H by lia. destruct (leading_digits l) as [|d ds]; [done|].
  rewrite (proj2 (Z.eqb_neq _ _)) by zlia. done.
Qed.

Lemma leading_digits_app v l : (l = [] \/ exists l', l = QUOTE :: l') -> leading_digits (skip_blank (v ++ l)) = leading_digits (skip_blank v).
Proof.
  intros Hl. assert (Hq : forall l', leading_digits (QUOTE :: l') = []) by done. induction v as [|b v IH]; cbn [app skip_blank].
  - destruct Hl as [->|[l' ->]]; done.
  - destruct (is_space b); [done|]. clear IH. revert b. induction v as [|c v IH]; intros b.
    + cbn. destruct (is_digit b); [|done]. f_equal. destruct Hl as [->|[l' ->]]; done.
    + change (((b :: c :: v) ++ l)) with (b :: (c :: v) ++ l). cbn [leading_digits]. destruct (is_digit b); [|done]. f_equal. apply IH.
Qed.

Lemma take_true_app v l :
  (l = [] \/ exists l', l = QUOTE :: l') ->
  take 4 (skip_blank (v ++ l)) = bytes_of "true" <-> take 4 (skip_blank v) = bytes_of "true".
Proof.
  intros Hl. change (bytes_of "true") with [116; 114; 117; 101]. induction v as [|b v IH]; cbn [app skip_blank].
  - destruct Hl as [->|[l' ->]]; [done|]. cbn. split; [|done]. by intros [=].
  - destruct (is_space b); [done|]. clear IH.
    destruct v as [|c [|d [|e v]]]; (destruct Hl as [->|[l' ->]]; [rewrite ?app_nil_r; done|]); cbn; unfold QUOTE; try done; split; intros H; simplify_eq/=.
Qed.

(** ** What the reader guarantees *)

(** A key of ours, as the source spells it. *)
Definition plain (key : list Z) : Prop := no_quote key /\ Forall (fun b => b <> COLON) key.

Definition member_number (ms : list Member) (key : string) (fallback : Z) : Z :=
  match member_value (bytes_of key) ms with
  | None => fallback
  | Some v => match leading_digits (skip_blank v) with [] => fallback | ds => Z.min U32_MAX (decimal ds 0) end
  end.

Definition member_truth (ms : list Member) (key : string) : bool :=
  match member_value (bytes_of key) ms with None => false | Some v => bool_decide (take 4 (skip_blank v) = bytes_of "true") end.

Definition object (pre : list Z) (ms : list Member) : list Z := OPEN_BRACE :: pre ++ members_text ms.

Lemma value_after_object pre ms key :
  no_quote pre -> Forall member_ok ms -> plain key ->
  match member_value key ms with
  | Some v => exists l, value_after (object pre ms) key = Some (skip_blank (v ++ l)) /\ (l = [] \/ exists l', l = QUOTE :: l')
  | None => value_after (object pre ms) key = None
  end.
Proof.
  intros Hp Hms [Hq Hc]. rewrite value_after_find. unfold object.
  assert (Hf : find_key key (OPEN_BRACE :: pre ++ members_text ms) = find_key key (members_text ms)).
  { apply (find_key_skip key (OPEN_BRACE :: pre)). by constructor. }
  rewrite Hf. by apply find_key_members.
Qed.

Lemma field_object pre ms key fallback :
  no_quote pre -> Forall member_ok ms -> plain (bytes_of key) -> field (object pre ms) key fallback = member_number ms key fallback.
Proof.
  intros Hp Hms Hk. pose proof (value_after_object pre ms _ Hp Hms Hk) as H. unfold field, member_number.
  destruct (member_value (bytes_of key) ms) as [v|]; [|by rewrite H]. destruct H as (l & -> & Hl). by rewrite number_decimal, leading_digits_app.
Qed.

Lemma truth_object pre ms key : no_quote pre -> Forall member_ok ms -> plain (bytes_of key) -> truth (object pre ms) key = member_truth ms key.
Proof.
  intros Hp Hms Hk. pose proof (value_after_object pre ms _ Hp Hms Hk) as H. unfold truth, member_truth.
  destruct (member_value (bytes_of key) ms) as [v|]; [|by rewrite H]. destruct H as (l & -> & Hl). apply bool_decide_ext. by apply take_true_app.
Qed.

Lemma plain_b key : forallb (fun b => negb (b =? QUOTE) && negb (b =? COLON)) key = true -> plain key.
Proof. intros H. split; apply Forall_forall; intros b Hb; rewrite forallb_forall in H; specialize (H b Hb); bool_prop; done. Qed.

Ltac plain_key := by apply plain_b.

(** (C40) The search for a key ends. Whatever the object and the key, the loop
    returns within one round per byte, more rounds change nothing, and it
    returns what follows the first place in the object where the quoted key
    stands before a colon. *)
Theorem value_after_terminates (body key : list Z) (fuel : nat) :
  (length body < fuel)%nat -> scan fuel body key 0 = Some (find_key key body) /\ value_after body key = find_key key body.
Proof.
  intros H. split; [|apply value_after_find]. exact (scan_find fuel [] body key H).
Qed.

Lemma value_after_terminates_witness : scan 100 [123; 34; 97; 34; 58; 32; 55; 125] [97] 0 = Some (Some [55; 125]).
Proof.
  refine (eq_trans (proj1 (value_after_terminates [123; 34; 97; 34; 58; 32; 55; 125] [97] 100 _)) _); [cbn; lia|vm_compute; reflexivity].
Defined.

(** Preferences are read by name. From any object whose members are
    written in any order, with any blanks and any unknown members, terminated
    or not, each field is the first member of that name: its leading digits as
    a decimal number saturated at 32 bits, or the default when the member is
    missing or has none; a flag only when the value starts with [true]. The
    whole object is refused exactly when the version is not the one known. *)
Theorem init_reads_by_name (pre : list Z) (ms : list Member) (nul : bool) :
  no_quote pre -> Forall member_ok ms -> head (rev (object pre ms)) <> Some 0 ->
  init_parse (object pre ms ++ (if nul then [0] else [])) =
  if negb (member_number ms "_version" 0 =? VERSION) then Err Malformed
  else Ok (mkInit VERSION (member_number ms "_max_w" 0) (member_number ms "_max_h" 0) (member_number ms "_flags" 0) (member_number ms "resolutionX" 0)
             (member_number ms "resolutionY" 0) (member_number ms "mediaContainer" 0) (member_number ms "refreshRate" 60)
             (member_truth ms "_cache_cursor") (member_truth ms "rawAudio")).
Proof.
  intros Hp Hms Hlast. unfold init_parse. set (body := match rev _ with 0 :: h => _ | _ => _ end).
  assert (body = object pre ms) as ->.
  { unfold body. destruct nul; [rewrite rev_app_distr; change (rev [0]) with [0]; cbn [app]; by rewrite rev_involutive|]. rewrite app_nil_r.
    by destruct (rev (object pre ms)) as [|[|z|z] r]. }
  rewrite bool_decide_eq_true_2 by done. cbn [negb].
  rewrite !field_object, !truth_object by (done || plain_key). destruct (Z.eqb_spec (member_number ms "_version" 0) VERSION) as [->|]; done.
Qed.

(** [{"refreshRate" : 144, "other":9, "_version":1}] *)
Definition demo_members : list Member :=
  [mkMember (bytes_of "refreshRate") [32] (bytes_of " 144, "); mkMember (bytes_of "other") [] (bytes_of "9, ");
   mkMember (bytes_of "_cache_cursor") [] (bytes_of "true,"); mkMember (bytes_of "_version") [] (bytes_of "1}")].

Lemma init_reads_by_name_witness : init_parse (object [] demo_members ++ [0]) = Ok (mkInit 1 0 0 0 0 0 0 144 true false).
Proof.
  refine (eq_trans (init_reads_by_name [] demo_members true _ _ _) _).
  - constructor.
  - assert (H : forall m, forallb (fun b => negb (b =? QUOTE)) (mb_key m ++ mb_value m) = true -> forallb is_space (mb_gap m) = true -> member_ok m).
    { intros m H1 H2. rewrite forallb_app in H1. apply andb_true_iff in H1 as [Ha Hb].
      split; [|split]; apply Forall_forall; intros b Hin; rewrite forallb_forall in *; [specialize (Ha b Hin)|by apply H2|specialize (Hb b Hin)]; by intros ->. }
    repeat (apply List.Forall_cons; [by apply H|]). apply List.Forall_nil.
  - vm_compute. discriminate.
  - vm_compute. reflexivity.
Defined.
