(* ===== verification/Png.v ===== *)
(** * The pointer picture ([png.rs])

    A pointer travels as a PNG whose deflate stream is stored, not compressed.
    [png_encode] writes it into a caller's buffer: signature, header chunk, one
    data chunk with the filtered rows cut into stored blocks, end chunk. The
    loops are given fuel and return [None] when it runs out, which
    [png_encode_exact] shows never happens. Sizes are mathematical integers: a
    picture whose rows lie inside a slice cannot overflow a [usize]. *)

From S2P Require Import Prelude Sink Crc32.
Open Scope Z_scope.
Open Scope sink_scope.

Definition CHANNELS : Z := 4.
Definition BLOCK : Z := 0xFFFF.

Definition upper_bound (width height : Z) : Z :=
  let raw := height * (1 + width * CHANNELS) in
  8 + 25 + 12 + 12 + 6 + raw + 5 * (raw / BLOCK + 1).

Definition png_put : Sink -> list Z -> Sink * result unit := sink_put Malformed.

(** ** Adler-32 *)

Record Adler32 := mkAdler32 { ad_low : Z; ad_high : Z }.

Definition adler_new : Adler32 := mkAdler32 1 0.

Definition adler_byte (a : Adler32) (byte : Z) : Adler32 :=
  let low := (ad_low a + byte) mod 65521 in mkAdler32 low ((ad_high a + low) mod 65521).

Definition adler_update (a : Adler32) (bytes : list Z) : Adler32 := fold_left adler_byte bytes a.

Definition adler_finish (a : Adler32) : Z := Z.lor (Z.shiftl (ad_high a) 16) (ad_low a).

(** ** Chunks *)

Definition SIGNATURE : list Z := [0x89; 80; 78; 71; 0x0D; 0x0A; 0x1A; 0x0A].
Definition IHDR : list Z := [73; 72; 68; 82].
Definition IDAT : list Z := [73; 68; 65; 84].
Definition IEND : list Z := [73; 69; 78; 68].

Definition chunk (k : Sink) (name body : list Z) : Sink * result unit :=
  match try_from U32_MAX (zlen body) with
  | None => (k, Err Malformed)
  | Some length =>
      into k <- png_put k (be_bytes 4 length);
      into k <- png_put k name;
      into k <- png_put k body;
      png_put k (be_bytes 4 (crc_finish (crc_update (crc_update crc_new name) body)))
  end.

(** ** The data chunk *)

(** Where the copy stands: the output, the checksum, and the row and column of
    the next byte, column zero being the row's filter marker. *)
Record Rows := mkRows { rw_sink : Sink; rw_adler : Adler32; rw_row : Z; rw_column : Z }.

#[export] Instance Rows_eta : Eta Rows := fun r => mkRows (rw_sink r) (rw_adler r) (rw_row r) (rw_column r).

(** [while left > 0]. *)
Fixpoint fill_block (fuel : nat) (pixels : list Z) (row_bytes stride : Z) (st : Rows) (left : Z) : option (Rows * result unit) :=
  if left <=? 0 then Some (st, Ok tt)
  else
    match fuel with
    | O => None
    | S fuel =>
        if rw_column st =? 0 then
          match png_put (rw_sink st) [0] with
          | (k, Err e) => Some (st <| rw_sink := k |>, Err e)
          | (k, Ok _) => fill_block fuel pixels row_bytes stride (mkRows k (adler_update (rw_adler st) [0]) (rw_row st) 1) (left - 1)
          end
        else
          let taken := Z.min left (row_bytes - (rw_column st - 1)) in
          let from := rw_row st * stride + (rw_column st - 1) in
          match slice pixels from (from + taken) with
          | None => Some (st, Err Malformed)
          | Some s =>
              match png_put (rw_sink st) s with
              | (k, Err e) => Some (st <| rw_sink := k |>, Err e)
              | (k, Ok _) =>
                  let column := rw_column st + taken in
                  let '(row, column) := if column - 1 =? row_bytes then (rw_row st + 1, 0) else (rw_row st, column) in
                  fill_block fuel pixels row_bytes stride (mkRows k (adler_update (rw_adler st) s) row column) (left - taken)
              end
          end
    end.

(** The header of a stored block: the last-block bit, the length and its
    complement. *)
Definition block_header (k : Sink) (last run : Z) : Sink * result unit :=
  into k <- png_put k [last];
  match try_from U16_MAX run with
  | None => (k, Err Malformed)
  | Some length => into k <- png_put k (le_bytes 2 length); png_put k (le_bytes 2 (U16_MAX - length))
  end.

(** [while written < raw]. *)
Fixpoint stored_blocks (fuel : nat) (pixels : list Z) (row_bytes stride raw : Z) (st : Rows) (written : Z) : option (Rows * result unit) :=
  if raw <=? written then Some (st, Ok tt)
  else
    match fuel with
    | O => None
    | S fuel =>
        let run := Z.min BLOCK (raw - written) in
        let last := if written + run =? raw then 1 else 0 in
        match block_header (rw_sink st) last run with
        | (k, Err e) => Some (st <| rw_sink := k |>, Err e)
        | (k, Ok _) =>
            match fill_block (Z.to_nat run) pixels row_bytes stride (st <| rw_sink := k |>) run with
            | None => None
            | Some (st, Err e) => Some (st, Err e)
            | Some (st, Ok _) => stored_blocks fuel pixels row_bytes stride raw st (written + run)
            end
        end
    end.

(** The checksum, then the reserved length, then the chunk's own checksum. *)
Definition close_data (k : Sink) (adler : Adler32) (length_at body_at : Z) : Sink * result unit :=
  into k <- png_put k (be_bytes 4 (adler_finish adler));
  match slice (sk_out k) body_at (sk_at k) with
  | None => (k, Err Malformed)
  | Some body =>
      let checksum := crc_finish (crc_update crc_new body) in
      match try_from U32_MAX (sk_at k - body_at - 4) with
      | None => (k, Err Malformed)
      | Some length =>
          match write (sk_out k) length_at (be_bytes 4 length) with
          | None => (k, Err Malformed)
          | Some out => png_put (mkSink out (sk_at k)) (be_bytes 4 checksum)
          end
      end
  end.

Definition data (pixels : list Z) (width height stride : Z) (k : Sink) : option (Sink * result unit) :=
  let row_bytes := width * CHANNELS in
  let raw := height * (1 + row_bytes) in
  let length_at := sk_at k in
  match png_put k [0; 0; 0; 0] with
  | (k, Err e) => Some (k, Err e)
  | (k, Ok _) =>
      let body_at := sk_at k in
      match (into k <- png_put k IDAT; png_put k [0x78; 0x01]) with
      | (k, Err e) => Some (k, Err e)
      | (k, Ok _) =>
          match stored_blocks (S (Z.to_nat (raw / BLOCK))) pixels row_bytes stride raw (mkRows k adler_new 0 0) 0 with
          | None => None
          | Some (st, Err e) => Some (rw_sink st, Err e)
          | Some (st, Ok _) => Some (close_data (rw_sink st) (rw_adler st) length_at body_at)
          end
      end
  end.

Definition png_header (width height : Z) : list Z := be_bytes 4 width ++ be_bytes 4 height ++ [8; 6; 0; 0; 0].

Definition png_encode (pixels : list Z) (width height stride : Z) (out : list Z) : option (list Z * result Z) :=
  if (width =? 0) || (height =? 0) then Some (out, Err Malformed)
  else
    match (into k <- png_put (mkSink out 0) SIGNATURE; chunk k IHDR (png_header width height)) with
    | (k, Err e) => Some (sk_out k, Err e)
    | (k, Ok _) =>
        match data pixels width height stride k with
        | None => None
        | Some (k, Err e) => Some (sk_out k, Err e)
        | Some (k, Ok _) =>
            match chunk k IEND [] with
            | (k, Err e) => Some (sk_out k, Err e)
            | (k, Ok _) => Some (sk_out k, Ok (sk_at k))
            end
        end
    end.

(** ** The picture, declaratively *)

Definition chunk_bytes (name body : list Z) : list Z := be_bytes 4 (zlen body) ++ name ++ body ++ be_bytes 4 (crc_of (name ++ body)).

(** A filtered row: the marker for no filter, then the pixels. *)
Definition row_of (pixels : list Z) (row_bytes stride i : Z) : list Z := take (Z.to_nat row_bytes) (drop (Z.to_nat (i * stride)) pixels).

Fixpoint rows_from (pixels : list Z) (row_bytes stride : Z) (n : nat) (i : Z) : list Z :=
  match n with
  | O => []
  | S n => (0 :: row_of pixels row_bytes stride i) ++ rows_from pixels row_bytes stride n (i + 1)
  end.

Definition image_rows (pixels : list Z) (width height stride : Z) : list Z := rows_from pixels (width * CHANNELS) stride (Z.to_nat height) 0.

(** Stored blocks of a stream. *)
Definition stored_header (last run : Z) : list Z := [last] ++ le_bytes 2 run ++ le_bytes 2 (U16_MAX - run).

Fixpoint stored (fuel : nat) (s : list Z) : list Z :=
  match fuel, s with
  | O, _ | _, [] => []
  | S fuel, _ =>
      let run := Z.min BLOCK (zlen s) in
      stored_header (if run =? zlen s then 1 else 0) run ++ take (Z.to_nat run) s ++ stored fuel (drop (Z.to_nat run) s)
  end.

(** A decoder's reading of stored blocks. *)
Fixpoint inflate (fuel : nat) (l : list Z) : option (list Z * list Z) :=
  match fuel, l with
  | S fuel, last :: l0 :: l1 :: n0 :: n1 :: l =>
      let len := l0 + 256 * l1 in
      if n0 + 256 * n1 =? U16_MAX - len then
        body ← slice_to l len;
        rest ← slice_from l len;
        if last =? 1 then Some (body, rest)
        else '(more, rest) ← inflate fuel rest; Some (body ++ more, rest)
      else None
  | _, _ => None
  end.

Definition zlib_bytes (s : list Z) : list Z :=
  [0x78; 0x01] ++ stored (S (Z.to_nat (zlen s / BLOCK))) s ++ be_bytes 4 (adler_finish (adler_update adler_new s)).

Definition png_bytes (pixels : list Z) (width height stride : Z) : list Z :=
  SIGNATURE ++ chunk_bytes IHDR (png_header width height) ++ chunk_bytes IDAT (zlib_bytes (image_rows pixels width height stride)) ++ chunk_bytes IEND [].

Lemma le_bytes_2 v : exists a b, le_bytes 2 v = [a; b] /\ (0 <= v < 65536 -> a + 256 * b = v).
Proof.
  exists (v mod 256), (v / 256 mod 256). split; [done|]. intros H. rewrite (Z.mod_small (v / 256)) by (split; [apply Z.div_pos; lia|apply Z.div_lt_upper_bound; lia]).
  pose proof (Z.div_mod v 256). lia.
Qed.

Lemma inflate_stored fuel s tail :
  s <> [] -> zlen s <= Z.of_nat fuel * BLOCK -> inflate fuel (stored fuel s ++ tail) = Some (s, tail).
Proof.
  revert s. induction fuel as [|fuel IH]; intros s Hs Hl; [destruct s; [done|]; zlia|].
  destruct s as [|b s0] eqn:Es; [done|]. rewrite <- Es in *. assert (Hpos : 1 <= zlen s) by (rewrite Es; zlia).
  cbn [stored]. rewrite Es at 1. cbv iota. set (run := Z.min BLOCK (zlen s)). assert (Hr : 0 <= run <= U16_MAX) by (unfold run, BLOCK, U16_MAX; lia).
  unfold stored_header. destruct (le_bytes_2 run) as (a & c & -> & Ha). destruct (le_bytes_2 (U16_MAX - run)) as (d & f & -> & Hd).
  unfold U16_MAX in *. specialize (Ha ltac:(lia)). specialize (Hd ltac:(lia)). rewrite <- !app_assoc. cbn [app inflate]. rewrite Ha. unfold U16_MAX. rewrite Hd, Z.eqb_refl.
  assert (Htk : zlen (take (Z.to_nat run) s) = run) by (rewrite zlen_take; unfold run in *; lia).
  rewrite slice_head by done. rewrite slice_tail by done. cbn [mbind option_bind].
  destruct (Z.eqb_spec run (zlen s)) as [E|E]; cbn [Z.eqb].
  - rewrite take_ge, drop_ge by (unfold zlen in *; lia). by destruct fuel.
  - rewrite IH.
    + cbn [mbind option_bind]. by rewrite take_drop.
    + intros H. apply (f_equal zlen) in H. rewrite zlen_drop in H. change (zlen []) with 0 in H. unfold run, BLOCK in *. lia.
    + rewrite zlen_drop. unfold run, BLOCK in *. lia.
Qed.

Lemma zlen_stored fuel s : zlen s <= Z.of_nat fuel * BLOCK -> zlen (stored fuel s) <= zlen s + 5 * Z.of_nat fuel.
Proof.
  revert s. induction fuel as [|fuel IH]; intros s Hl; [by destruct s|]. destruct s as [|b s0] eqn:Es; [cbn; zlia|]. rewrite <- Es in *.
  cbn [stored]. rewrite Es at 1. cbv iota. set (run := Z.min BLOCK (zlen s)). specialize (IH (drop (Z.to_nat run) s)).
  assert (zlen s = zlen (take (Z.to_nat run) s) + zlen (drop (Z.to_nat run) s)) by (by rewrite <- zlen_app, take_drop).
  unfold stored_header. assert (zlen (drop (Z.to_nat run) s) <= Z.of_nat fuel * BLOCK) by (rewrite zlen_drop; unfold run, BLOCK in *; lia). zlia.
Qed.

(** ** The copy *)

Section copy.
Context (pixels : list Z) (row_bytes height stride : Z) (out : list Z).
Context (Hrb : 1 <= row_bytes) (Hstride : 0 <= stride).
Context (Hrows : forall i, 0 <= i < height -> i * stride + row_bytes <= zlen pixels).

Local Notation row i := (row_of pixels row_bytes stride i).
Local Notation rows n i := (rows_from pixels row_bytes stride n i).

(** What is still to be copied at a row and column. *)
Definition remaining (r c : Z) : list Z :=
  if r <? height then drop (Z.to_nat c) (0 :: row r) ++ rows (Z.to_nat (height - r - 1)) (r + 1) else [].

Definition at_position (r c : Z) : Prop := 0 <= r <= height /\ 0 <= c <= row_bytes.

Lemma zlen_row i : 0 <= i < height -> zlen (row i) = row_bytes.
Proof. intros Hi. unfold row_of. rewrite zlen_take, zlen_drop. specialize (Hrows i Hi). lia. Qed.

Lemma remaining_row r : 0 <= r <= height -> remaining r 0 = rows (Z.to_nat (height - r)) r.
Proof.
  intros H. unfold remaining. destruct (Z.ltb_spec r height).
  - by replace (Z.to_nat (height - r)) with (S (Z.to_nat (height - r - 1))) by lia.
  - by replace (Z.to_nat (height - r)) with O by lia.
Qed.

Lemma zlen_rows n i : 0 <= i -> i + Z.of_nat n <= height -> zlen (rows n i) = Z.of_nat n * (1 + row_bytes).
Proof.
  revert i. induction n as [|n IH]; intros i Hi Hn; [done|]. cbn [rows_from]. rewrite zlen_app, zlen_cons, zlen_row, IH by lia. lia.
Qed.

(** The marker of a row. *)
Lemma remaining_marker r : 0 <= r < height -> remaining r 0 = 0 :: remaining r 1.
Proof. intros H. unfold remaining. by rewrite (proj2 (Z.ltb_lt _ _)) by lia. Qed.

(** A run of pixels of the current row. *)
Lemma remaining_pixels r c t :
  0 <= r < height -> 1 <= c <= row_bytes -> 0 <= t <= row_bytes - (c - 1) ->
  let from := r * stride + (c - 1) in
  exists s, slice pixels from (from + t) = Some s /\ zlen s = t /\
    remaining r c = s ++ (if c + t - 1 =? row_bytes then remaining (r + 1) 0 else remaining r (c + t)).
Proof.
  intros Hr Hc Ht from. pose proof (Hrows r Hr) as Hin. pose proof (zlen_row r Hr) as Hrow. assert (0 <= r * stride) by nia.
  assert (Hs : slice pixels from (from + t) = Some (take (Z.to_nat t) (drop (Z.to_nat (c - 1)) (row r)))).
  { rewrite slice_some by (unfold from; lia). f_equal. unfold row_of. rewrite skipn_firstn_comm, take_take, drop_drop. f_equal; [lia|]. f_equal. unfold from. lia. }
  eexists. split; [exact Hs|]. split; [rewrite zlen_take, zlen_drop; lia|].
  assert (Hd : remaining r c = drop (Z.to_nat (c - 1)) (row r) ++ rows (Z.to_nat (height - r - 1)) (r + 1)).
  { unfold remaining. rewrite (proj2 (Z.ltb_lt _ _)) by lia. by replace (Z.to_nat c) with (S (Z.to_nat (c - 1))) by lia. }
  rewrite Hd. rewrite <- (take_drop (Z.to_nat t) (drop (Z.to_nat (c - 1)) (row r))) at 1. rewrite <- app_assoc. f_equal. rewrite drop_drop.
  destruct (Z.eqb_spec (c + t - 1) row_bytes) as [E|E].
  - rewrite drop_ge by (unfold zlen in Hrow; lia). rewrite remaining_row by lia. cbn [app]. f_equal. lia.
  - unfold remaining. rewrite (proj2 (Z.ltb_lt _ _)) by lia. replace (Z.to_nat (c + t)) with (S (Z.to_nat (c - 1) + Z.to_nat t))%nat by lia. done.
Qed.

Lemma adler_update_app a x y : adler_update a (x ++ y) = adler_update (adler_update a x) y.
Proof. apply fold_left_app. Qed.

(** Copying [left] bytes of the stream. *)
Definition Copied (x : option (Rows * result unit)) (st : Rows) (front emitted todo : list Z) (checked : list Z) : Prop :=
  exists st' res, x = Some (st', res) /\ Sinks Malformed out (rw_sink st', res) (front ++ emitted) /\
    (res = Ok tt -> rw_adler st' = adler_update (rw_adler st) checked /\ at_position (rw_row st') (rw_column st') /\
       remaining (rw_row st') (rw_column st') = todo).

Lemma put_cases k front bytes :
  Sunk out k front ->
  (exists k', png_put k bytes = (k', Ok tt) /\ Sunk out k' (front ++ bytes)) \/ (png_put k bytes = (k, Err Malformed) /\ zlen out < zlen front + zlen bytes).
Proof.
  intros Hk. destruct (put_Sinks Malformed out k front bytes Hk) as [H1 H2]. fold png_put in H1, H2. rewrite zlen_app in H1, H2.
  destruct (Z.le_gt_cases (zlen front + zlen bytes) (zlen out)) as [H|H].
  - left. destruct (H1 H) as [E Hs]. destruct (png_put k bytes) as [k' r]. cbn in E, Hs. subst r. eauto.
  - right. split; [|lia]. specialize (H2 ltac:(lia)). unfold png_put, sink_put in *. by destruct (write _ _ _).
Qed.

Lemma copied_refused st st0 k front emitted todo checked :
  zlen out < zlen front + zlen emitted -> Copied (Some (st0 <| rw_sink := k |>, Err Malformed)) st front emitted todo checked.
Proof. intros H. eexists _, _. split; [done|]. split; [|done]. split; [intros; exfalso; zlia|done]. Qed.

Lemma fill_block_ok fuel st left front :
  (Z.to_nat left <= fuel)%nat -> 0 <= left <= zlen (remaining (rw_row st) (rw_column st)) -> at_position (rw_row st) (rw_column st) ->
  Sunk out (rw_sink st) front ->
  let run := take (Z.to_nat left) (remaining (rw_row st) (rw_column st)) in
  Copied (fill_block fuel pixels row_bytes stride st left) st front run (drop (Z.to_nat left) (remaining (rw_row st) (rw_column st))) run.
Proof.
  revert st left front. induction fuel as [|fuel IH]; intros st left front Hf Hl Hp Hk run; subst run; cbn [fill_block]; destruct (Z.leb_spec left 0) as [H0|H0]; try lia.
  1,2: assert (left = 0) as -> by lia; exists st, (Ok tt); rewrite take_0, drop_0, app_nil_r; split; [done|]; split;
    [split; [done|destruct Hk as (_ & _ & ?); intros; exfalso; lia]|done].
  destruct st as [k a r c]. cbn [rw_sink rw_adler rw_row rw_column] in *. destruct Hp as [Hr Hc].
  assert (Hlt : r < height). { destruct (Z.lt_ge_cases r height); [done|]. unfold remaining in Hl. rewrite (proj2 (Z.ltb_ge _ _)) in Hl by lia. change (zlen []) with 0 in Hl. lia. }
  destruct (Z.eqb_spec c 0) as [->|Hc0].
  - rewrite (remaining_marker r) in * by lia. replace (Z.to_nat left) with (S (Z.to_nat (left - 1))) by lia. cbn [take drop].
    destruct (put_cases k front [0] Hk) as [(k' & -> & Hk')|[-> Hsm]].
    + destruct (IH (mkRows k' (adler_update a [0]) r 1) (left - 1) (front ++ [0])) as (st' & res & E & HS & HA); cbn [rw_row rw_column rw_sink] in *;
        [lia|rewrite zlen_cons in Hl; lia|split; lia|done|].
      exists st', res. split; [done|]. rewrite <- app_assoc in HS. split; [exact HS|]. intros Hok. destruct (HA Hok) as (-> & ? & ?). done.
    + apply (copied_refused (mkRows k a r 0) (mkRows k a r 0) k). zlia.
  - set (taken := Z.min left (row_bytes - (c - 1))). assert (Ht : 1 <= taken) by (unfold taken; lia).
    destruct (remaining_pixels r c taken) as (s & -> & Hs & Erem); [lia|lia|unfold taken; lia|]. rewrite Erem in *. set (next := if c + taken - 1 =? row_bytes then remaining (r + 1) 0 else remaining r (c + taken)) in *.
    assert (Hts : forall X : list Z, take (Z.to_nat left) (s ++ X) = s ++ take (Z.to_nat (left - taken)) X /\ drop (Z.to_nat left) (s ++ X) = drop (Z.to_nat (left - taken)) X).
    { intros X. rewrite take_app, drop_app. rewrite take_ge, drop_ge by (unfold zlen, taken in *; lia). cbn [app].
      replace (Z.to_nat left - length s)%nat with (Z.to_nat (left - taken)) by (unfold zlen in Hs; lia). done. }
    destruct (Hts next) as [-> ->]. rewrite zlen_app in Hl. destruct (put_cases k front s Hk) as [(k' & -> & Hk')|[-> Hsm]].
    + set (st1 := let '(row, column) := if c + taken - 1 =? row_bytes then (r + 1, 0) else (r, c + taken) in mkRows k' (adler_update a s) row column).
      assert (Hst : rw_sink st1 = k' /\ rw_adler st1 = adler_update a s /\ remaining (rw_row st1) (rw_column st1) = next /\ at_position (rw_row st1) (rw_column st1)).
      { unfold st1, next. destruct (Z.eqb_spec (c + taken - 1) row_bytes); (split; [done|]; split; [done|]; split; [done|]); unfold at_position; cbn; unfold taken in *; lia. }
      destruct Hst as (H1 & H2 & H3 & H4). destruct (IH st1 (left - taken) (front ++ s)) as (st' & res & E & HS & HA); [lia|rewrite H3; lia|done|by rewrite H1|].
      exists st', res. split; [rewrite <- E; unfold st1; by destruct (c + taken - 1 =? row_bytes)|]. rewrite H3 in HS, HA. rewrite H2 in HA. rewrite <- app_assoc in HS.
      split; [exact HS|]. intros Hok. destruct (HA Hok) as (-> & ? & ?). by rewrite adler_update_app.
    + apply (copied_refused (mkRows k a r c) (mkRows k a r c) k). zlia.
Qed.

Lemma block_header_ok k last run front :
  Sunk out k front -> 0 <= run <= U16_MAX -> Sinks Malformed out (block_header k last run) (front ++ stored_header last run).
Proof.
  intros Hk Hr. unfold block_header, png_put, stored_header. rewrite !try_from_some by done. do 2 sink_step. sink_last.
Qed.

Lemma stored_blocks_ok fuel raw st written front :
  let rem := remaining (rw_row st) (rw_column st) in
  raw - written = zlen rem -> zlen rem <= Z.of_nat fuel * BLOCK -> at_position (rw_row st) (rw_column st) -> Sunk out (rw_sink st) front ->
  Copied (stored_blocks fuel pixels row_bytes stride raw st written) st front (stored fuel rem) [] rem.
Proof.
  revert st written front. induction fuel as [|fuel IH]; intros st written front rem Hraw Hfuel Hp Hk; cbn [stored_blocks];
    destruct (Z.leb_spec raw written) as [H0|H0]; try (unfold BLOCK in *; lia).
  1,2: assert (Hnil : rem = []) by (destruct rem; [done|zlia]); rewrite Hnil; exists st, (Ok tt); split; [done|]; rewrite app_nil_r; split;
    [split; [done|destruct Hk as (_ & _ & ?); intros; exfalso; lia]|done].
  destruct rem as [|b rem0] eqn:Erem; [change (zlen []) with 0 in Hraw; lia|]. rewrite <- Erem in *. cbn [stored]. rewrite Erem at 1. cbv iota.
  rewrite Hraw. replace (written + Z.min BLOCK (zlen rem) =? raw) with (Z.min BLOCK (zlen rem) =? zlen rem) by (apply eq_true_iff_eq; rewrite !Z.eqb_eq; lia).
  set (run := Z.min BLOCK (zlen rem)). assert (Hrun : 1 <= run <= U16_MAX) by (unfold run, BLOCK, U16_MAX; lia).
  set (hd := stored_header _ run). pose proof (block_header_ok (rw_sink st) (if run =? zlen rem then 1 else 0) run front Hk ltac:(lia)) as Hh. fold hd in Hh.
  destruct (block_header _ _ _) as [k [[]|e]]; cycle 1.
  { destruct (Sinks_fail _ _ _ _ (front ++ hd ++ take (Z.to_nat run) rem ++ stored fuel (drop (Z.to_nat run) rem)) (zlen_longer _ _ _) Hh) as [HS [= ->]]; [done|].
    eexists _, _. split; [done|]. split; [exact HS|done]. }
  apply Sinks_ok in Hh.
  destruct (fill_block_ok (Z.to_nat run) (st <| rw_sink := k |>) run (front ++ hd)) as (st1 & res & -> & HS & HA); [lia|change (0 <= run <= zlen rem); unfold run in *; lia|done|done|].
  change (remaining (rw_row (st <| rw_sink := k |>)) (rw_column (st <| rw_sink := k |>))) with rem in *. rewrite <- app_assoc in HS.
  destruct res as [[]|e]; cycle 1.
  { rewrite app_assoc in HS. destruct (Sinks_fail _ _ _ _ ((front ++ hd) ++ take (Z.to_nat run) rem ++ stored fuel (drop (Z.to_nat run) rem)) (zlen_longer _ _ _) HS) as [HS' [= ->]]; [done|].
    rewrite <- app_assoc in HS'. eexists _, _. split; [done|]. split; [exact HS'|done]. }
  destruct (HA eq_refl) as (Ha & Hp1 & Hrem1).
  apply Sinks_ok in HS.
  destruct (IH st1 (written + run) (front ++ hd ++ take (Z.to_nat run) rem)) as (st2 & res & -> & HS2 & HA2); rewrite ?Hrem1; [rewrite zlen_drop; unfold run in *; lia|rewrite zlen_drop; unfold run, BLOCK in *; lia|done|done|].
  exists st2, res. split; [done|]. rewrite Hrem1 in HS2, HA2. rewrite <- !app_assoc in HS2. split; [exact HS2|]. intros Hok. destruct (HA2 Hok) as (-> & ? & ?). split; [|done].
  rewrite Ha, <- adler_update_app. by rewrite take_drop.
Qed.

End copy.

(** ** Chunks in the buffer *)

Lemma chunk_ok out k name body front :
  Sunk out k front -> zlen body <= U32_MAX -> Sinks Malformed out (chunk k name body) (front ++ chunk_bytes name body).
Proof.
  intros Hk Hb. unfold chunk, png_put, chunk_bytes. rewrite try_from_some by (zlen_pose; lia). do 3 sink_step.
  unfold crc_of, crc_update. rewrite fold_left_app. sink_last.
Qed.

(** The length reserved before the data is patched when it is known. *)
Lemma close_data_ok out k adler pre body :
  Sunk out k (pre ++ [0; 0; 0; 0] ++ IDAT ++ body) -> zlen body + 4 <= U32_MAX ->
  Sinks Malformed out (close_data k adler (zlen pre) (zlen pre + 4)) (pre ++ chunk_bytes IDAT (body ++ be_bytes 4 (adler_finish adler))).
Proof.
  intros Hk Hb. unfold close_data, png_put. set (z := body ++ be_bytes 4 (adler_finish adler)).
  assert (Hz : zlen z = zlen body + 4) by (unfold z; zlia).
  eapply Sinks_then; [|apply put_Sinks; exact Hk|]; [unfold chunk_bytes, z, IDAT; zlia|]. cbv beta. intros k1 Hk1.
  assert (Hk2 : Sunk out k1 (pre ++ [0; 0; 0; 0] ++ IDAT ++ z)) by (unfold z; by rewrite <- !app_assoc in Hk1). clear Hk1.
  destruct Hk2 as (Hat & Hout & Hle). rewrite Hat, Hout.
  assert (Hl : zlen (pre ++ [0; 0; 0; 0] ++ IDAT ++ z) = zlen pre + 4 + zlen (IDAT ++ z)) by zlia.
  rewrite (slice_at _ (pre ++ [0; 0; 0; 0]) (IDAT ++ z) (drop (length (pre ++ [0; 0; 0; 0] ++ IDAT ++ z)) out)) by first [by rewrite <- !app_assoc | zlia].
  rewrite try_from_some by (rewrite Hl, zlen_app; change (zlen IDAT) with 4; zlen_pose; lia).
  rewrite (write_mid _ pre [0; 0; 0; 0] _ ((IDAT ++ z) ++ drop (length (pre ++ [0; 0; 0; 0] ++ IDAT ++ z)) out)) by first [by rewrite <- !app_assoc | done].
  replace (zlen (pre ++ [0; 0; 0; 0] ++ IDAT ++ z) - (zlen pre + 4) - 4) with (zlen z) by (rewrite Hl, zlen_app; change (zlen IDAT) with 4; lia).
  assert (Hk3 : Sunk out (mkSink (pre ++ be_bytes 4 (zlen z) ++ (IDAT ++ z) ++ drop (length (pre ++ [0; 0; 0; 0] ++ IDAT ++ z)) out) (zlen (pre ++ [0; 0; 0; 0] ++ IDAT ++ z)))
    (pre ++ be_bytes 4 (zlen z) ++ IDAT ++ z)).
  { split; [cbn [sk_at]; zlia|]. split; [|zlia]. cbn [sk_out]. rewrite <- !app_assoc. do 4 f_equal. f_equal. by rewrite !length_app. }
  eapply Sinks_eq; [apply put_Sinks; exact Hk3|]. unfold chunk_bytes, crc_of. by rewrite <- !app_assoc.
Qed.

Lemma fuel_enough (s : list Z) : zlen s <= Z.of_nat (S (Z.to_nat (zlen s / BLOCK))) * BLOCK.
Proof.
  pose proof (Z.div_mod (zlen s) BLOCK ltac:(done)). pose proof (Z.mod_pos_bound (zlen s) BLOCK ltac:(done)).
  assert (0 <= zlen s / BLOCK) by (apply Z.div_pos; [apply zlen_nonneg|done]). rewrite Nat2Z.inj_succ, Z2Nat.id by done. unfold BLOCK in *. lia.
Qed.

Lemma data_ok out k pre pixels width height stride :
  1 <= width -> 0 <= height -> 0 <= stride -> (forall i, 0 <= i < height -> i * stride + width * CHANNELS <= zlen pixels) ->
  zlen (zlib_bytes (image_rows pixels width height stride)) <= U32_MAX -> Sunk out k pre ->
  exists k' r, data pixels width height stride k = Some (k', r) /\
    Sinks Malformed out (k', r) (pre ++ chunk_bytes IDAT (zlib_bytes (image_rows pixels width height stride))).
Proof.
  intros Hw Hh Hs Hrows Hz Hk. unfold data. set (rb := width * CHANNELS) in *. assert (Hrb : 1 <= rb) by (unfold rb, CHANNELS; lia).
  set (s := image_rows pixels width height stride) in *.
  assert (Hraw : zlen s = height * (1 + rb)).
  { unfold s, image_rows. fold rb. rewrite (zlen_rows pixels rb height stride) by (done || lia). lia. }
  assert (Hrem : remaining pixels rb height stride 0 0 = s) by (rewrite remaining_row by lia; by rewrite Z.sub_0_r).
  rewrite <- Hraw. set (goal_ := pre ++ chunk_bytes IDAT (zlib_bytes s)). assert (Hat : sk_at k = zlen pre) by apply Hk.
  assert (Hlen : zlen goal_ = zlen (pre ++ [0; 0; 0; 0] ++ IDAT ++ zlib_bytes s) + 4) by (unfold goal_, chunk_bytes; zlia).
  pose proof (put_Sinks Malformed out k pre [0; 0; 0; 0] Hk) as H1. fold png_put in H1. destruct (png_put k [0; 0; 0; 0]) as [k1 [[]|e]]; cycle 1.
  { pose proof (fun Hle => Sinks_fail _ _ _ _ goal_ Hle H1) as HF. destruct HF as [HF _]; [zlia|done|by eexists _, _]. }
  apply Sinks_ok in H1. assert (Hat1 : sk_at k1 = zlen pre + 4) by (rewrite (proj1 H1); zlia).
  assert (H2 : Sinks Malformed out (into k <- png_put k1 IDAT; png_put k [0x78; 0x01]) (pre ++ [0; 0; 0; 0] ++ IDAT ++ [0x78; 0x01])).
  { unfold png_put. rewrite app_assoc. sink_step. sink_last. }
  destruct (sink_then _ _) as [k2 [[]|e]]; cycle 1.
  { pose proof (fun Hle => Sinks_fail _ _ _ _ goal_ Hle H2) as HF. destruct HF as [HF _]; [unfold zlib_bytes in Hlen; zlia|done|by eexists _, _]. }
  apply Sinks_ok in H2. set (blocks := stored (S (Z.to_nat (zlen s / BLOCK))) s).
  destruct (stored_blocks_ok pixels rb height stride out Hrb Hs Hrows (S (Z.to_nat (zlen s / BLOCK))) (zlen s) (mkRows k2 adler_new 0 0) 0 (pre ++ [0; 0; 0; 0] ++ IDAT ++ [0x78; 0x01]))
    as (st & r & -> & HS & HA); cbn [rw_row rw_column rw_sink rw_adler] in *; rewrite ?Hrem in *; [lia|apply fuel_enough|unfold at_position; lia|done|]. fold blocks in HS.
  destruct r as [[]|e]; cycle 1.
  { pose proof (fun Hle => Sinks_fail _ _ _ _ goal_ Hle HS) as HF. destruct HF as [HF _]; [unfold zlib_bytes in Hlen; fold blocks in Hlen; zlia|done|by eexists _, _]. }
  apply Sinks_ok in HS. destruct (HA eq_refl) as (Ha & _). rewrite Ha, Hat, Hat1. eexists _, _. split; [by rewrite <- surjective_pairing|]. rewrite <- surjective_pairing.
  assert (Eg : goal_ = pre ++ chunk_bytes IDAT (([0x78; 0x01] ++ blocks) ++ be_bytes 4 (adler_finish (adler_update adler_new s)))) by (unfold goal_, zlib_bytes; by rewrite <- app_assoc).
  rewrite Eg. apply close_data_ok; [by rewrite <- !app_assoc in HS|]. unfold zlib_bytes in Hz. fold blocks in Hz. zlia.
Qed.

(** ** What the encoder guarantees *)

Lemma zlen_png pixels width height stride :
  1 <= width -> 0 <= height -> 0 <= stride -> (forall i, 0 <= i < height -> i * stride + width * CHANNELS <= zlen pixels) ->
  zlen (image_rows pixels width height stride) = height * (1 + width * CHANNELS) /\
  zlen (png_bytes pixels width height stride) = 57 + zlen (zlib_bytes (image_rows pixels width height stride)) /\
  zlen (png_bytes pixels width height stride) <= upper_bound width height.
Proof.
  intros Hw Hh Hs Hrows. set (s := image_rows pixels width height stride).
  assert (Hraw : zlen s = height * (1 + width * CHANNELS)).
  { unfold s, image_rows. rewrite (zlen_rows pixels (width * CHANNELS) height stride) by first [done | unfold CHANNELS; lia]. by rewrite Z2Nat.id. }
  pose proof (zlen_stored _ s (fuel_enough s)) as Hst. assert (0 <= zlen s / BLOCK) by (apply Z.div_pos; [apply zlen_nonneg|done]).
  rewrite Nat2Z.inj_succ, Z2Nat.id in Hst by done.
  assert (Hp : zlen (png_bytes pixels width height stride) = 57 + zlen (zlib_bytes s)).
  { unfold png_bytes. fold s. unfold chunk_bytes, png_header, SIGNATURE, IHDR, IDAT, IEND. zlia. }
  split; [done|]. split; [done|]. rewrite Hp. unfold upper_bound. rewrite <- Hraw. unfold zlib_bytes. zlia.
Qed.

(** The whole call as one sequence of appends. *)
Lemma png_encode_sinks pixels width height stride out :
  1 <= width <= U32_MAX -> 1 <= height <= U32_MAX -> 0 <= stride ->
  (forall i, 0 <= i < height -> i * stride + width * CHANNELS <= zlen pixels) ->
  zlen (zlib_bytes (image_rows pixels width height stride)) <= U32_MAX ->
  exists k r, png_encode pixels width height stride out = Some (sk_out k, match r with Ok _ => Ok (sk_at k) | Err e => Err e end) /\
    Sinks Malformed out (k, r) (png_bytes pixels width height stride).
Proof.
  intros Hw Hh Hs Hrows Hz. set (img := png_bytes pixels width height stride). set (rows := image_rows pixels width height stride) in *.
  unfold png_encode. rewrite (proj2 (Z.eqb_neq width 0)), (proj2 (Z.eqb_neq height 0)) by lia. cbn [orb].
  set (hd := SIGNATURE ++ chunk_bytes IHDR (png_header width height)). assert (Himg : img = hd ++ chunk_bytes IDAT (zlib_bytes rows) ++ chunk_bytes IEND []) by (unfold img, png_bytes, hd; by rewrite <- app_assoc).
  assert (H1 : Sinks Malformed out (into k <- png_put (mkSink out 0) SIGNATURE; chunk k IHDR (png_header width height)) hd).
  { pose proof (Sunk_new out). eapply Sinks_then; [|apply put_Sinks; eassumption|]; [unfold hd; zlia|]. intros k Hk. by apply chunk_ok. }
  destruct (sink_then _ _) as [k1 [[]|e]]; cycle 1.
  { pose proof (fun Hle => Sinks_fail _ _ _ _ img Hle H1) as HF. destruct HF as [HF _]; [rewrite Himg; apply (zlen_longer [])|discriminate|exists k1, (Err e); split; [reflexivity|exact HF]]. }
  apply Sinks_ok in H1. destruct (data_ok out k1 hd pixels width height stride) as (k2 & r2 & -> & H2); [lia|lia|done|done|done|done|]. fold rows in H2.
  destruct r2 as [[]|e]; cycle 1.
  { pose proof (fun Hle => Sinks_fail _ _ _ _ img Hle H2) as HF. destruct HF as [HF _]; [rewrite Himg; apply zlen_longer|discriminate|exists k2, (Err e); split; [reflexivity|exact HF]]. }
  apply Sinks_ok in H2. pose proof (chunk_ok out k2 IEND [] _ H2 ltac:(done)) as H3. rewrite <- app_assoc, <- Himg in H3.
  destruct (chunk k2 IEND []) as [k3 [[]|e]]; [exists k3, (Ok tt)|exists k3, (Err e)]; (split; [reflexivity|exact H3]).
Qed.

(** The encoder writes a PNG that decodes to the picture, and
    [upper_bound] is enough room for it. For a picture whose rows lie inside
    the pixel slice, every loop ends, and the call succeeds exactly when the
    buffer holds the encoding: signature, header, one data chunk and the end,
    each with its length and checksum. The data chunk's stored blocks read
    back as the rows, each behind a filter marker of none, followed by the
    Adler-32 checksum of exactly them. Otherwise it fails. *)
Theorem png_encode_exact (pixels : list Z) (width height stride : Z) (out : list Z) :
  1 <= width <= U32_MAX -> 1 <= height <= U32_MAX -> 0 <= stride ->
  (forall i, 0 <= i < height -> i * stride + width * CHANNELS <= zlen pixels) -> upper_bound width height <= U32_MAX ->
  let img := png_bytes pixels width height stride in
  let rows := image_rows pixels width height stride in
  (exists blocks, zlib_bytes rows = [0x78; 0x01] ++ blocks ++ be_bytes 4 (adler_finish (adler_update adler_new rows)) /\
     forall tail, inflate (S (Z.to_nat (zlen rows / BLOCK))) (blocks ++ tail) = Some (rows, tail)) /\
  zlen img <= upper_bound width height /\
  (zlen img <= zlen out -> png_encode pixels width height stride out = Some (img ++ drop (length img) out, Ok (zlen img))) /\
  (zlen out < zlen img -> exists out', png_encode pixels width height stride out = Some (out', Err Malformed)).
Proof.
  intros Hw Hh Hs Hrows Hub img rows. destruct (zlen_png pixels width height stride) as (Hraw & Hlen & Hbound); [lia|lia|done|done|]. fold img rows in Hraw, Hlen, Hbound.
  split; [|split; [done|]].
  { eexists. split; [done|]. intros tail. apply inflate_stored; [|apply fuel_enough]. intros E. rewrite E in Hraw. change (zlen []) with 0 in Hraw. unfold CHANNELS in *. nia. }
  assert (Hz : zlen (zlib_bytes rows) <= U32_MAX) by lia.
  destruct (png_encode_sinks pixels width height stride out Hw Hh Hs Hrows Hz) as (k & r & -> & H1 & H2). fold img in H1, H2. split; intros H.
  - destruct (H1 H) as [E (Ea & Eo & _)]. cbn in E, Ea, Eo. subst r. by rewrite Ea, Eo.
  - specialize (H2 H). cbn in H2. subst r. by eexists.
Qed.

(** A two by one picture, into exactly [upper_bound] bytes. *)
Lemma png_encode_exact_witness :
  png_encode [1; 2; 3; 4; 5; 6; 7; 8] 2 1 8 (replicate (Z.to_nat (upper_bound 2 1)) 0) = Some (png_bytes [1; 2; 3; 4; 5; 6; 7; 8] 2 1 8, Ok 77).
Proof.
  destruct (png_encode_exact [1; 2; 3; 4; 5; 6; 7; 8] 2 1 8 (replicate (Z.to_nat (upper_bound 2 1)) 0)) as (_ & _ & H & _).
  - unfold U32_MAX. lia.
  - unfold U32_MAX. lia.
  - lia.
  - intros i Hi. replace i with 0 by lia. vm_compute. discriminate.
  - vm_compute. discriminate.
  - rewrite H by (vm_compute; discriminate). vm_compute. reflexivity.
Defined.
