(* ===== verification/Fallible.v ===== *)
(** * Results with an error type of their own

    The core crate has one error type, and [result] of the prelude is fixed to
    it. The protocol crate has an error type per module: [fallible E A] is
    [Result<A, E>], with the do-notation as the [?] operator. *)

From S2P Require Import Prelude.

Inductive fallible (E A : Type) :=
  | Good (a : A)
  | Bad (e : E).
Arguments Good {E A} a.
Arguments Bad {E A} e.

#[export] Instance fallible_eq_dec `{EqDecision E, EqDecision A} : EqDecision (fallible E A).
Proof. solve_decision. Defined.

#[export] Instance fallible_ret {E} : MRet (fallible E) := fun A a => Good a.
#[export] Instance fallible_bind {E} : MBind (fallible E) :=
  fun A B f m => match m with Good a => f a | Bad e => Bad e end.
#[export] Instance fallible_fmap {E} : FMap (fallible E) :=
  fun A B f m => match m with Good a => Good (f a) | Bad e => Bad e end.

Definition is_good {E A} (r : fallible E A) : bool :=
  match r with Good _ => true | Bad _ => false end.

(** An early return: [if b { return Err(e) }]. *)
Definition refuse {E} (b : bool) (e : E) : fallible E () := if b then Bad e else Good tt.

Lemma refuse_good {E} (b : bool) (e : E) u : refuse b e = Good u <-> b = false.
Proof. destruct u, b; cbn; split; congruence. Qed.

Lemma bind_good {E A B} (m : fallible E A) (f : A -> fallible E B) b :
  (m ≫= f) = Good b <-> exists a, m = Good a /\ f a = Good b.
Proof. destruct m; cbn; naive_solver. Qed.

(** Split a successful chain of [?] into its steps. *)
Ltac good_inv :=
  repeat match goal with
  | H : (refuse ?b ?e ≫= _) = Good _ |- _ => apply bind_good in H as ([] & ?%refuse_good & H)
  | H : (_ ≫= _) = Good _ |- _ => let E := fresh "E" in apply bind_good in H as (? & E & H)
  | H : Good _ = Good _ |- _ => injection H as H
  | H : Bad _ = Good _ |- _ => discriminate H
  | H : (if ?b then Bad _ else _) = Good _ |- _ => destruct b eqn:?; [discriminate H|]
  end.
