(* ===== verification/Datagram.v ===== *)
(** * The encrypted datagram format ([protocol/src/lib.rs])

    [Kind], [Packet] and the stateful [Session] of the protocol crate: a sealed
    datagram is a 16-byte header authenticated as associated data, the
    ciphertext and the tag; the counter in the header is the nonce, and the
    receiver keeps a 64-bit window of the counters it has accepted. The AES-GCM
    crate is the interface [Gcm]. [Filter] is what the window promises: it
    remembers the accepted counters themselves. *)

From stdpp Require Import sets.
From S2P Require Import Prelude Fallible.

Definition MAX_DATAGRAM : Z := 1200.
Definition HEADER_LEN : Z := 16.
Definition TAG_LEN : Z := 16.
Definition MAX_PLAINTEXT : Z := MAX_DATAGRAM - HEADER_LEN - TAG_LEN.
Definition REPLAY_WINDOW_BITS : Z := 64.
Definition MAGIC : list Z := [0x4F; 0x53].
Definition VERSION : Z := 1.

Inductive Kind := Control | Video | Audio | Input.

#[export] Instance Kind_eq_dec : EqDecision Kind.
Proof. solve_decision. Defined.

Inductive DError :=
  | ShortDatagram
  | BadMagic
  | UnsupportedVersion (version : Z)
  | UnknownKind (kind : Z)
  | BadLength
  | TooLarge
  | CounterOverflow
  | AuthenticationFailed
  | WeakPublicKey.

#[export] Instance DError_eq_dec : EqDecision DError.
Proof. solve_decision. Defined.

(** [kind as u8] and [Kind::try_from]. *)
Definition kind_code (k : Kind) : Z :=
  match k with Control => 1 | Video => 2 | Audio => 3 | Input => 4 end.

Definition kind_try_from (value : Z) : fallible DError Kind :=
  match value with
  | 1 => Good Control
  | 2 => Good Video
  | 3 => Good Audio
  | 4 => Good Input
  | _ => Bad (UnknownKind value)
  end.

Record Packet := mkPacket {
  pk_kind : Kind;
  pk_channel : Z;
  pk_flags : Z;
  pk_counter : Z;
  pk_payload : list Z;
}.

#[export] Instance Packet_eq_dec : EqDecision Packet.
Proof. solve_decision. Defined.

(** ** AES-256-GCM

    [encrypt_in_place_detached] and [decrypt_in_place_detached] with associated
    data. On an error the caller drops the buffer, so only its contents on
    success matter. Encryption refuses only what is longer than the mode's
    limit. *)

Class Gcm := {
  gcm_encrypt : list Z -> list Z -> list Z -> list Z -> option (list Z * list Z);  (* key, nonce, data, plaintext *)
  gcm_decrypt : list Z -> list Z -> list Z -> list Z -> list Z -> option (list Z);  (* key, nonce, data, ciphertext, tag *)
}.

Definition GCM_LIMIT : Z := 68719476704.

Class GcmLaws (G : Gcm) : Prop := {
  gcm_accepts k n a p : zlen p <= GCM_LIMIT -> is_Some (gcm_encrypt k n a p);
  gcm_shape k n a p c t :
    gcm_encrypt k n a p = Some (c, t) -> zlen c = zlen p /\ zlen t = TAG_LEN /\ (bytes_ok p -> bytes_ok c) /\ bytes_ok t;
  gcm_round k n a p c t : gcm_encrypt k n a p = Some (c, t) -> gcm_decrypt k n a c t = Some p;
}.

(** ** The session *)

(** [Session]; a cipher is its key. *)
Record Session := mkSession {
  ds_tx_key : list Z;
  ds_rx_key : list Z;
  ds_next_tx : Z;
  ds_highest_rx : option Z;
  ds_received_window : Z;
}.

#[export] Instance Session_eta : Eta Session := fun s =>
  mkSession (ds_tx_key s) (ds_rx_key s) (ds_next_tx s) (ds_highest_rx s) (ds_received_window s).

Definition session_new (tx_key rx_key : list Z) : Session := mkSession tx_key rx_key 0 None 0.

Definition next_tx_counter (s : Session) : Z := ds_next_tx s.

Definition nonce (counter : Z) : list Z := replicate 4 0 ++ be_bytes 8 counter.

(** The fields of the header, which tile its sixteen bytes. *)
Definition header (kind : Kind) (channel flags counter len : Z) : list Z :=
  MAGIC ++ [VERSION; kind_code kind; channel; flags] ++ be_bytes 8 counter ++ be_bytes 2 len.

Definition is_replay (s : Session) (counter : Z) : bool :=
  match ds_highest_rx s with
  | None => false
  | Some highest =>
      if highest <? counter then false else
      let distance := highest - counter in
      (REPLAY_WINDOW_BITS <=? distance) || negb (Z.land (ds_received_window s) (Z.shiftl 1 distance) =? 0)
  end.

Definition accept_counter (s : Session) (counter : Z) : Session :=
  match ds_highest_rx s with
  | None => s <| ds_highest_rx := Some counter |> <| ds_received_window := 1 |>
  | Some highest =>
      if highest <? counter then
        let distance := counter - highest in
        let window :=
          if REPLAY_WINDOW_BITS <=? distance then 1
          else Z.lor (Z.land (Z.shiftl (ds_received_window s) distance) U64_MAX) 1 in
        s <| ds_received_window := window |> <| ds_highest_rx := Some counter |>
      else
        s <| ds_received_window := Z.lor (ds_received_window s) (Z.shiftl 1 (highest - counter)) |>
  end.

Section with_gcm.
Context `{G : Gcm}.

Definition seal_inner (s : Session) (kind : Kind) (channel flags : Z) (payload : list Z) :
    Session * fallible DError (Z * list Z) :=
  if MAX_PLAINTEXT <? zlen payload then (s, Bad TooLarge) else
  let counter := ds_next_tx s in
  match checked_add64 counter 1 with
  | None => (s, Bad CounterOverflow)
  | Some next =>
      let s := s <| ds_next_tx := next |> in
      match try_from U16_MAX (zlen payload) with
      | None => (s, Bad TooLarge)
      | Some len =>
          let head := header kind channel flags counter len in
          match gcm_encrypt (ds_tx_key s) (nonce counter) head payload with
          | None => (s, Bad AuthenticationFailed)
          | Some (ciphertext, tag) => (s, Good (counter, head ++ ciphertext ++ tag))
          end
      end
  end.

Definition seal (s : Session) (kind : Kind) (channel flags : Z) (payload : list Z) : Session * fallible DError (list Z) :=
  let '(s, r) := seal_inner s kind channel flags payload in (s, snd <$> r).

Definition seal_with_counter (s : Session) (kind : Kind) (channel flags : Z) (payload : list Z) :
    Session * fallible DError (Z * list Z) :=
  seal_inner s kind channel flags payload.

(** An index or range that the length check has put in range. *)
Definition byte_at (d : list Z) (i : Z) : Z := default 0 (get d i).
Definition range (d : list Z) (a b : Z) : list Z := default [] (slice d a b).

Definition open (s : Session) (datagram : list Z) : Session * fallible DError Packet :=
  if zlen datagram <? HEADER_LEN + TAG_LEN then (s, Bad ShortDatagram) else
  if negb (bool_decide (range datagram 0 2 = MAGIC)) then (s, Bad BadMagic) else
  if negb (byte_at datagram 2 =? VERSION) then (s, Bad (UnsupportedVersion (byte_at datagram 2))) else
  match kind_try_from (byte_at datagram 3) with
  | Bad e => (s, Bad e)
  | Good kind =>
      let counter := be_val (range datagram 6 14) in
      let payload_len := be_val (range datagram 14 16) in
      if (MAX_PLAINTEXT <? payload_len) || negb (zlen datagram =? HEADER_LEN + payload_len + TAG_LEN)
      then (s, Bad BadLength) else
      if is_replay s counter then (s, Bad AuthenticationFailed) else
      let ciphertext := range datagram HEADER_LEN (HEADER_LEN + payload_len) in
      let tag := range datagram (HEADER_LEN + payload_len) (zlen datagram) in
      match gcm_decrypt (ds_rx_key s) (nonce counter) (range datagram 0 HEADER_LEN) ciphertext tag with
      | None => (s, Bad AuthenticationFailed)
      | Some payload =>
          (accept_counter s counter, Good (mkPacket kind (byte_at datagram 4) (byte_at datagram 5) counter payload))
      end
  end.

(** A run of calls, in order. *)
Fixpoint open_all (s : Session) (datagrams : list (list Z)) : Session * list (fallible DError Packet) :=
  match datagrams with
  | [] => (s, [])
  | d :: datagrams =>
      let '(s, r) := open s d in
      let '(s, rs) := open_all s datagrams in (s, r :: rs)
  end.

(** What [open] makes of a datagram apart from the replay window. *)
Definition examine (rx_key datagram : list Z) : fallible DError Packet :=
  if zlen datagram <? HEADER_LEN + TAG_LEN then Bad ShortDatagram else
  if negb (bool_decide (range datagram 0 2 = MAGIC)) then Bad BadMagic else
  if negb (byte_at datagram 2 =? VERSION) then Bad (UnsupportedVersion (byte_at datagram 2)) else
  kind ← kind_try_from (byte_at datagram 3);
  let counter := be_val (range datagram 6 14) in
  let payload_len := be_val (range datagram 14 16) in
  if (MAX_PLAINTEXT <? payload_len) || negb (zlen datagram =? HEADER_LEN + payload_len + TAG_LEN) then Bad BadLength else
  match gcm_decrypt rx_key (nonce counter) (range datagram 0 HEADER_LEN)
          (range datagram HEADER_LEN (HEADER_LEN + payload_len)) (range datagram (HEADER_LEN + payload_len) (zlen datagram)) with
  | None => Bad AuthenticationFailed
  | Some payload => Good (mkPacket kind (byte_at datagram 4) (byte_at datagram 5) counter payload)
  end.

End with_gcm.

(** ** The filter a receiver promises

    The abstract receiver remembers every counter it has accepted and takes a
    packet exactly when its counter is new and less than 64 behind the newest. *)

Module Filter.

Definition fresh (seen : list Z) (counter : Z) : bool :=
  bool_decide (counter ∉ seen) && forallb (fun c => c - counter <? REPLAY_WINDOW_BITS) seen.

Fixpoint receive (seen : list Z) (rs : list (fallible DError Packet)) : list (fallible DError Packet) :=
  match rs with
  | [] => []
  | Bad e :: rs => Bad e :: receive seen rs
  | Good p :: rs =>
      if fresh seen (pk_counter p) then Good p :: receive (pk_counter p :: seen) rs
      else Bad AuthenticationFailed :: receive seen rs
  end.

End Filter.

(** The counters a run accepted. *)
Definition accepted (rs : list (fallible DError Packet)) : list Z :=
  rs ≫= fun r => match r with Good p => [pk_counter p] | Bad _ => [] end.

(** ** The window is the set of accepted counters *)

Definition Tracks (s : Session) (seen : list Z) : Prop :=
  Forall is_u64 seen /\
  match ds_highest_rx s with
  | None => seen = [] /\ ds_received_window s = 0
  | Some highest =>
      highest ∈ seen /\ Forall (fun c => c <= highest) seen /\
      forall d, 0 <= d < 64 -> Z.testbit (ds_received_window s) d = bool_decide ((highest - d) ∈ seen)
  end.

Lemma Tracks_new tx rx : Tracks (session_new tx rx) [].
Proof. repeat split; constructor. Qed.

Lemma fresh_spec seen c :
  Filter.fresh seen c = true <-> (c ∉ seen) /\ Forall (fun h => h - c < 64) seen.
Proof.
  unfold Filter.fresh, REPLAY_WINDOW_BITS. rewrite andb_true_iff, bool_decide_eq_true, forallb_forall, List.Forall_forall. by setoid_rewrite Z.ltb_lt.
Qed.

Lemma land_bit w d : 0 <= d -> (Z.land w (Z.shiftl 1 d) =? 0) = negb (Z.testbit w d).
Proof.
  intros Hd. rewrite Z.shiftl_1_l. destruct (Z.testbit w d) eqn:Hb.
  - apply Z.eqb_neq. intros H0. apply (f_equal (fun z => Z.testbit z d)) in H0.
    by rewrite Z.land_spec, Hb, Z.pow2_bits_true, Z.bits_0 in H0.
  - apply Z.eqb_eq, Z.bits_inj'. intros n Hn. rewrite Z.land_spec, Z.pow2_bits_eqb, Z.bits_0 by done.
    destruct (d =? n) eqn:E; bool_prop; subst; [by rewrite Hb|by rewrite andb_false_r].
Qed.

Lemma is_replay_spec s seen c : Tracks s seen -> is_replay s c = negb (Filter.fresh seen c).
Proof.
  intros [Hu Ht]. unfold is_replay. destruct (ds_highest_rx s) as [h|]; [|by destruct Ht as [-> _]].
  destruct Ht as (Hh & Hle & Hb). apply Bool.eq_true_iff_eq. rewrite negb_true_iff, <- not_true_iff_false, fresh_spec.
  rewrite list.Forall_forall in Hle. destruct (h <? c) eqn:E; bool_prop.
  - split; [done|]. intros []. split; [intros Hc%Hle; lia|]. apply list.Forall_forall. intros x Hx%Hle. lia.
  - unfold REPLAY_WINDOW_BITS. rewrite orb_true_iff. rewrite land_bit by lia. rewrite negb_involutive. split.
    + intros [?|Hw] [Hn Hf]; bool_prop.
      * rewrite list.Forall_forall in Hf. specialize (Hf h Hh). lia.
      * destruct (Z.lt_ge_cases (h - c) 64) as [Hlt|]; [|rewrite list.Forall_forall in Hf; specialize (Hf h Hh); lia].
        rewrite Hb in Hw by lia. apply bool_decide_eq_true in Hw. by replace (h - (h - c)) with c in Hw by lia.
    + intros Hn. destruct (Z.lt_ge_cases (h - c) 64) as [Hlt|Hge]; [right|left; lia].
      rewrite Hb by lia. apply bool_decide_eq_true. replace (h - (h - c)) with c by lia.
      destruct (decide (c ∈ seen)) as [|Hc]; [done|]. destruct Hn. split; [done|]. apply list.Forall_forall. intros x Hx%Hle. lia.
Qed.

Lemma testbit_shifted w k d : 0 <= k < 64 -> 0 <= d < 64 ->
  Z.testbit (Z.lor (Z.land (Z.shiftl w k) U64_MAX) 1) d = if d =? 0 then true else if d <? k then false else Z.testbit w (d - k).
Proof.
  intros Hk Hd. change U64_MAX with (Z.ones 64). change 1 with (2 ^ 0). rewrite Z.lor_spec, Z.land_spec, Z.ones_spec_low, Z.shiftl_spec, Z.pow2_bits_eqb by lia.
  rewrite andb_true_r. rewrite (Z.eqb_sym 0 d). destruct (d =? 0) eqn:E; [by rewrite orb_true_r|]. rewrite orb_false_r.
  destruct (d <? k) eqn:F; bool_prop; [by rewrite Z.testbit_neg_r by lia|done].
Qed.

Lemma accept_Tracks s seen c :
  Tracks s seen -> is_u64 c -> Filter.fresh seen c = true -> Tracks (accept_counter s c) (c :: seen).
Proof.
  intros [Hu Ht] Hc [Hn Hf]%fresh_spec. split; [by constructor|]. unfold accept_counter.
  destruct (ds_highest_rx s) as [h|] eqn:Eh.
  - destruct Ht as (Hh & Hle & Hb). rewrite list.Forall_forall in Hf, Hle. pose proof (Hf h Hh). destruct (h <? c) eqn:E; bool_prop; cbn.
    + split; [set_solver|]. split; [constructor; [done|]; apply list.Forall_forall; intros x ?%Hle; lia|]. intros d Hd.
      unfold REPLAY_WINDOW_BITS. destruct (64 <=? c - h) eqn:F; bool_prop.
      * change 1 with (2 ^ 0). rewrite Z.pow2_bits_eqb by lia. apply Bool.eq_true_iff_eq. rewrite bool_decide_eq_true, elem_of_cons, Z.eqb_eq.
        split; [intros <-; left; lia|]. intros [?|?%Hle]; lia.
      * rewrite testbit_shifted by lia. apply Bool.eq_true_iff_eq. rewrite bool_decide_eq_true, elem_of_cons.
        destruct (d =? 0) eqn:?; bool_prop; [subst; split; [left; lia|done]|]. destruct (d <? c - h) eqn:?; bool_prop.
        { split; [done|]. intros [?|?%Hle]; lia. }
        rewrite Hb, bool_decide_eq_true by lia. replace (h - (d - (c - h))) with (c - d) by lia. intuition lia.
    + rewrite Eh. split; [set_solver|]. split; [constructor; [lia|]; by apply list.Forall_forall|]. intros d Hd.
      rewrite Z.lor_spec, Z.shiftl_1_l, Z.pow2_bits_eqb, Hb by lia. apply Bool.eq_true_iff_eq.
      rewrite orb_true_iff, !bool_decide_eq_true, elem_of_cons, Z.eqb_eq. intuition lia.
  - destruct Ht as [-> Hw]. cbn. split; [set_solver|]. split; [by constructor|]. intros d Hd. change 1 with (2 ^ 0).
    rewrite Z.pow2_bits_eqb by lia. apply Bool.eq_true_iff_eq. rewrite bool_decide_eq_true, elem_of_cons, Z.eqb_eq, elem_of_nil. intuition lia.
Qed.

Section receiving.
Context `{G : Gcm}.

Lemma range_ok d a b : bytes_ok d -> bytes_ok (range d a b).
Proof. intros Hd. unfold range. destruct (slice d a b) eqn:E; [by eapply bytes_ok_slice|constructor]. Qed.

Lemma range_at (l x y z : list Z) a b : l = x ++ y ++ z -> a = zlen x -> b = a + zlen y -> range l a b = y.
Proof. intros E Ea Eb. unfold range. by rewrite (slice_at _ x y z) by (done || lia). Qed.

Lemma zlen_range d a b : 0 <= a <= b -> b <= zlen d -> zlen (range d a b) = b - a.
Proof. intros. unfold range. destruct (slice d a b) eqn:E; [by eapply zlen_slice|]. by rewrite slice_some in E by lia. Qed.

(** A buffer is its consecutive ranges. *)
Lemma range_all d : range d 0 (zlen d) = d.
Proof. unfold range. by rewrite slice_all. Qed.

Lemma range_split d a m b : 0 <= a <= m -> m <= b <= zlen d -> range d a b = range d a m ++ range d m b.
Proof.
  intros H1 H2. unfold range. rewrite !slice_some by lia. cbn. unfold id. replace (Z.to_nat (b - a)) with (Z.to_nat (m - a) + Z.to_nat (b - m))%nat by lia.
  rewrite <- take_take_drop, drop_drop. do 3 f_equal. lia.
Qed.

Lemma range_byte d a b : 0 <= a < zlen d -> b = a + 1 -> range d a b = [byte_at d a].
Proof.
  intros H ->. unfold range, byte_at. rewrite slice_some by lia. replace (Z.to_nat (a + 1 - a)) with 1%nat by lia. rewrite get_lookup by lia. cbn. unfold id.
  destruct (lookup_lt_is_Some_2 d (Z.to_nat a)) as [x Hx]; [unfold zlen in H; lia|]. rewrite Hx. by rewrite (drop_S _ _ _ Hx).
Qed.

Lemma be_bytes_range n d a b : bytes_ok d -> 0 <= a -> b = a + Z.of_nat n -> b <= zlen d -> be_bytes n (be_val (range d a b)) = range d a b.
Proof.
  intros Hd Ha -> Hb. apply be_bytes_val; [by apply range_ok|]. pose proof (zlen_range d a (a + Z.of_nat n)) as Hl. unfold zlen in *. lia.
Qed.

Lemma be_val_range_lt n d a b : bytes_ok d -> 0 <= a -> b = a + Z.of_nat n -> b <= zlen d -> 0 <= be_val (range d a b) < 256 ^ Z.of_nat n.
Proof.
  intros Hd Ha -> Hb. pose proof (be_val_range _ (range_ok d a (a + Z.of_nat n) Hd)) as H. rewrite zlen_range in H by lia. by replace (a + Z.of_nat n - a) with (Z.of_nat n) in H by lia.
Qed.

Lemma byte_at_ok d i : bytes_ok d -> is_u8 (byte_at d i).
Proof. intros Hd. unfold byte_at. destruct (get d i) eqn:E; [by eapply bytes_ok_get|done]. Qed.

Lemma open_examine s d :
  open s d = match examine (ds_rx_key s) d with
             | Bad e => (s, Bad e)
             | Good p => if is_replay s (pk_counter p) then (s, Bad AuthenticationFailed) else (accept_counter s (pk_counter p), Good p)
             end.
Proof.
  unfold open, examine. repeat (case_match; cbn [mbind fallible_bind pk_counter] in *; simplify_eq/=; try done).
Qed.

Lemma examine_counter k d p : bytes_ok d -> examine k d = Good p -> is_u64 (pk_counter p).
Proof.
  intros Hd. unfold examine. destruct (zlen d <? _) eqn:El; [done|]. destruct (negb _); [done|]. destruct (negb _); [done|].
  destruct (kind_try_from _); [|done]. cbn [mbind fallible_bind]. destruct (_ || _); [done|]. destruct (gcm_decrypt _ _ _ _ _); [|done].
  intros [= <-]. cbn [pk_counter]. unfold HEADER_LEN, TAG_LEN in *. bool_prop. pose proof (be_val_range (range d 6 14) (range_ok _ _ _ Hd)) as Hr.
  rewrite zlen_range in Hr by lia. unfold is_u64, U64_MAX. lia.
Qed.

Lemma accept_key s c : ds_rx_key (accept_counter s c) = ds_rx_key s.
Proof. unfold accept_counter. by repeat case_match. Qed.

Lemma open_all_filter s seen ds :
  Tracks s seen -> Forall bytes_ok ds ->
  (open_all s ds).2 = Filter.receive seen (map (examine (ds_rx_key s)) ds).
Proof.
  revert s seen. induction ds as [|d ds IH]; intros s seen Ht Hb; [done|]. inversion_clear Hb as [|?? Hd Hds].
  cbn [open_all map Filter.receive]. rewrite open_examine. destruct (examine (ds_rx_key s) d) as [p|e] eqn:E.
  - rewrite (is_replay_spec s seen) by done. destruct (Filter.fresh seen (pk_counter p)) eqn:F; cbn [negb].
    + specialize (IH (accept_counter s (pk_counter p)) _ (accept_Tracks _ _ _ Ht (examine_counter _ _ _ Hd E) F) Hds).
      rewrite accept_key in IH. by destruct (open_all _ ds); cbn in *; subst.
    + specialize (IH _ _ Ht Hds). by destruct (open_all _ ds); cbn in *; subst.
  - specialize (IH _ _ Ht Hds). by destruct (open_all _ ds); cbn in *; subst.
Qed.

Lemma receive_fresh seen rs :
  NoDup (accepted (Filter.receive seen rs)) /\ Forall (fun c => c ∉ seen) (accepted (Filter.receive seen rs)).
Proof.
  revert seen. induction rs as [|[p|e] rs IH]; intros seen; cbn [Filter.receive]; [split; constructor| |apply IH].
  destruct (Filter.fresh seen (pk_counter p)) eqn:F; [|apply IH]. apply fresh_spec in F as [Hn _].
  destruct (IH (pk_counter p :: seen)) as [Hd Hf]. cbn. rewrite list.Forall_forall in Hf. split.
  - constructor; [|done]. intros Hin. apply (Hf _ Hin). set_solver.
  - constructor; [done|]. apply list.Forall_forall. intros c Hc%Hf. set_solver.
Qed.

End receiving.

(** ** Sealing *)

(** A message handed to [seal]. *)
Record Outgoing := mkOutgoing { og_kind : Kind; og_channel : Z; og_flags : Z; og_payload : list Z }.

Definition sendable (m : Outgoing) : Prop :=
  is_u8 (og_channel m) /\ is_u8 (og_flags m) /\ bytes_ok (og_payload m) /\ zlen (og_payload m) <= MAX_PLAINTEXT.

Definition as_packet (counter : Z) (m : Outgoing) : Packet :=
  mkPacket (og_kind m) (og_channel m) (og_flags m) counter (og_payload m).

Section sealing.
Context `{G : Gcm} `{L : !GcmLaws G}.

Fixpoint seal_all (s : Session) (ms : list Outgoing) : Session * list (fallible DError (list Z)) :=
  match ms with
  | [] => (s, [])
  | m :: ms =>
      let '(s, r) := seal s (og_kind m) (og_channel m) (og_flags m) (og_payload m) in
      let '(s, rs) := seal_all s ms in (s, r :: rs)
  end.

Lemma zlen_header k ch fl c n : zlen (header k ch fl c n) = 16.
Proof. unfold header, MAGIC. by autorewrite with slices. Qed.

Lemma header_ok k ch fl c n : is_u8 ch -> is_u8 fl -> bytes_ok (header k ch fl c n).
Proof.
  intros. unfold header. rewrite !bytes_ok_app. split; [by apply bytes_ok_b|]. split; [|split; apply be_bytes_ok].
  repeat apply Forall_cons_2; try done; by destruct k.
Qed.

Lemma kind_round k : kind_try_from (kind_code k) = Good k.
Proof. by destruct k. Qed.

Lemma header_fields k ch fl c n rest :
  is_u64 c -> is_u16 n ->
  let d := header k ch fl c n ++ rest in
  range d 0 2 = MAGIC /\ byte_at d 2 = VERSION /\ byte_at d 3 = kind_code k /\ byte_at d 4 = ch /\ byte_at d 5 = fl /\
  be_val (range d 6 14) = c /\ be_val (range d 14 16) = n /\ range d 0 16 = header k ch fl c n.
Proof.
  intros Hc Hn d. split; [unfold d, range, header; by rewrite (slice_at _ [] MAGIC ([VERSION; kind_code k; ch; fl] ++ be_bytes 8 c ++ be_bytes 2 n ++ rest)) by (done || by rewrite <- !app_assoc)|].
  do 4 (split; [reflexivity|]). unfold d, range, header.
  rewrite (slice_at _ (MAGIC ++ [VERSION; kind_code k; ch; fl]) (be_bytes 8 c) (be_bytes 2 n ++ rest)) by (by rewrite <- ?app_assoc || done).
  rewrite (slice_at _ (MAGIC ++ [VERSION; kind_code k; ch; fl] ++ be_bytes 8 c) (be_bytes 2 n) rest) by (by rewrite <- ?app_assoc || done).
  rewrite (slice_at _ [] (header k ch fl c n) rest) by (done || by rewrite zlen_header).
  cbn [default]. unfold is_u64, U64_MAX, is_u16 in *. unfold id. rewrite !be_val_bytes by lia. done.
Qed.

Lemma examine_sealed key k ch fl c ct tag :
  is_u64 c -> zlen ct <= MAX_PLAINTEXT -> zlen tag = TAG_LEN ->
  examine key (header k ch fl c (zlen ct) ++ ct ++ tag) =
    match gcm_decrypt key (nonce c) (header k ch fl c (zlen ct)) ct tag with
    | None => Bad AuthenticationFailed
    | Some payload => Good (mkPacket k ch fl c payload)
    end.
Proof.
  intros Hc Hl Ht. unfold MAX_PLAINTEXT, MAX_DATAGRAM, HEADER_LEN, TAG_LEN in *. pose proof (zlen_nonneg ct).
  destruct (header_fields k ch fl c (zlen ct) (ct ++ tag)) as (E1 & E2 & E3 & E4 & E5 & E6 & E7 & E8); [done|unfold is_u16; lia|].
  pose proof (zlen_header k ch fl c (zlen ct)) as Hh. unfold examine, MAX_PLAINTEXT, MAX_DATAGRAM, HEADER_LEN, TAG_LEN.
  rewrite E1, E2, E3, E4, E5, E6, E7, E8, kind_round, Z.eqb_refl. set (h := header _ _ _ _ _) in *. clearbody h.
  rewrite (proj2 (Z.ltb_ge _ _)) by zlia. rewrite bool_decide_eq_true_2 by done. cbn [negb mbind fallible_bind].
  rewrite (proj2 (Z.ltb_ge _ _)), (proj2 (Z.eqb_eq _ _)) by zlia. cbn [orb negb]. unfold range.
  rewrite (slice_at _ h ct tag), (slice_at _ (h ++ ct) tag []) by (rewrite ?app_nil_r; zlia || by rewrite ?app_assoc, ?app_nil_r). done.
Qed.

Lemma seal_ok s m :
  sendable m -> 0 <= ds_next_tx s < U64_MAX ->
  exists d, seal s (og_kind m) (og_channel m) (og_flags m) (og_payload m) = (s <| ds_next_tx := ds_next_tx s + 1 |>, Good d) /\
    bytes_ok d /\ zlen d <= MAX_DATAGRAM /\ examine (ds_tx_key s) d = Good (as_packet (ds_next_tx s) m).
Proof.
  intros (Hch & Hfl & Hp & Hlen) Hn. unfold seal, seal_inner. rewrite (proj2 (Z.ltb_ge _ _)) by done.
  rewrite checked_add64_some by lia. unfold MAX_PLAINTEXT, MAX_DATAGRAM, HEADER_LEN, TAG_LEN in Hlen. zlen_pose.
  rewrite try_from_some by (unfold U16_MAX; lia). cbn [ds_tx_key set_field].
  set (h := header _ _ _ _ _). destruct (gcm_accepts (ds_tx_key s) (nonce (ds_next_tx s)) h (og_payload m)) as [[c t] Ee]; [unfold GCM_LIMIT; lia|].
  destruct (gcm_shape _ _ _ _ _ _ Ee) as (Hc & Ht & Hcb & Htb). rewrite Ee. exists (h ++ c ++ t). split; [done|].
  pose proof (zlen_header (og_kind m) (og_channel m) (og_flags m) (ds_next_tx s) (zlen (og_payload m))) as Hh. fold h in Hh.
  split; [rewrite !bytes_ok_app; split; [by apply header_ok|auto]|].
  split; [unfold MAX_DATAGRAM, TAG_LEN in *; zlia|]. unfold h. rewrite <- Hc. rewrite examine_sealed;
    [|split; lia|unfold MAX_PLAINTEXT, MAX_DATAGRAM, HEADER_LEN, TAG_LEN; lia|done].
  unfold h in Ee. rewrite <- Hc in Ee. by rewrite (gcm_round _ _ _ _ _ _ Ee).
Qed.

Lemma seal_all_ok ms : forall s,
  Forall sendable ms -> 0 <= ds_next_tx s -> ds_next_tx s + zlen ms <= U64_MAX ->
  exists ds, (seal_all s ms).2 = map Good ds /\ length ds = length ms /\ Forall bytes_ok ds /\ Forall (fun d => zlen d <= MAX_DATAGRAM) ds /\
    forall i d m, ds !! i = Some d -> ms !! i = Some m -> examine (ds_tx_key s) d = Good (as_packet (ds_next_tx s + Z.of_nat i) m).
Proof.
  induction ms as [|m ms IH]; intros s Hms Hn Hu; [by exists []|]. inversion_clear Hms as [|?? Hm Hms']. rewrite zlen_cons in Hu. pose proof (zlen_nonneg ms).
  destruct (seal_ok s m) as (d & Es & Hb & Hl & Hx); [done|lia|]. cbn [seal_all]. rewrite Es.
  destruct (IH (s <| ds_next_tx := ds_next_tx s + 1 |>)) as (ds & Eds & Hlen & Hbs & Hls & Hxs); [done|cbn; lia|cbn; lia|].
  destruct (seal_all _ ms) as [s' rs]. cbn in Eds, Hxs. subst rs. exists (d :: ds). split; [done|]. split; [by cbn; rewrite Hlen|].
  do 2 (split; [by constructor|]). intros [|i] d' m' Hd' Hm'; cbn in Hd', Hm'; simplify_eq.
  - by rewrite Z.add_0_r.
  - rewrite (Hxs i _ _ Hd' Hm'). f_equal. f_equal. lia.
Qed.

(** What a receiver that filters by counter takes from the messages [ms] when
    the datagrams arrive in the order [picks]. *)
Fixpoint taken (ms : list Outgoing) (seen : list Z) (picks : list nat) : list (fallible DError Packet) :=
  match picks with
  | [] => []
  | i :: picks =>
      match ms !! i with
      | None => taken ms seen picks
      | Some m =>
          if Filter.fresh seen (Z.of_nat i) then Good (as_packet (Z.of_nat i) m) :: taken ms (Z.of_nat i :: seen) picks
          else Bad AuthenticationFailed :: taken ms seen picks
      end
  end.

(** The datagrams at [picks]. *)
Definition arriving (ds : list (list Z)) (picks : list nat) : list (list Z) := picks ≫= fun i => option_list (ds !! i).

Lemma receive_arriving key ms ds seen picks :
  length ds = length ms ->
  (forall i d m, ds !! i = Some d -> ms !! i = Some m -> examine key d = Good (as_packet (Z.of_nat i) m)) ->
  Filter.receive seen (map (examine key) (arriving ds picks)) = taken ms seen picks.
Proof.
  intros Hlen Hx. revert seen. induction picks as [|i picks IH]; intros seen; [done|]. cbn [taken]. unfold arriving in *. cbn [mbind list_bind].
  destruct (ms !! i) as [m|] eqn:Em.
  - assert (is_Some (ds !! i)) as [d Ed] by (apply lookup_lt_is_Some; rewrite Hlen; by apply lookup_lt_is_Some; eexists).
    rewrite Ed. change (option_list (Some d) ++ ?l) with (d :: l). cbn [map Filter.receive]. rewrite (Hx i d m Ed Em). cbn [as_packet pk_counter]. by rewrite !IH.
  - assert (ds !! i = None) as -> by (apply lookup_ge_None; rewrite Hlen; by apply lookup_ge_None). apply IH.
Qed.

End sealing.

(** (C11) Replay protection is exact. For any datagrams at all, forged and
    repeated ones included, in any order, [open] returns what an examination of
    the bytes returns except that a packet is refused when its counter was
    accepted before or lies 64 or more behind the newest: the 64-bit window with
    its shifts is equivalent to remembering every accepted counter. In
    particular no counter is ever accepted twice. *)
Theorem replay_filter_exact `{G : Gcm} tx rx (datagrams : list (list Z)) :
  Forall bytes_ok datagrams ->
  let rs := (open_all (session_new tx rx) datagrams).2 in
  rs = Filter.receive [] (map (examine rx) datagrams) /\ NoDup (accepted rs).
Proof.
  intros Hb rs. assert (rs = Filter.receive [] (map (examine rx) datagrams)) as E
    by apply (open_all_filter (session_new tx rx) [] datagrams (Tracks_new tx rx) Hb).
  split; [done|]. rewrite E. apply receive_fresh.
Qed.

(** What one session seals the other opens, each message at most once: the
    messages leave under the counters 0, 1, 2, ... in datagrams of at most 1200
    bytes, and whatever the network makes of their order the receiver returns
    each packet as it was sealed, or refuses it as the filter does. *)
Lemma sealed_delivery `{G : Gcm} `{L : !GcmLaws G} key other back (ms : list Outgoing) (picks : list nat) :
  Forall sendable ms -> zlen ms <= U64_MAX ->
  exists datagrams,
    (seal_all (session_new key other) ms).2 = map Good datagrams /\
    Forall (fun d => zlen d <= MAX_DATAGRAM) datagrams /\
    (open_all (session_new back key) (arriving datagrams picks)).2 = taken ms [] picks.
Proof.
  intros Hms Hu. destruct (seal_all_ok ms (session_new key other)) as (ds & Es & Hl & Hb & Hz & Hx); [done|done|done|].
  exists ds. do 2 (split; [done|]). rewrite (open_all_filter _ [] _ (Tracks_new back key)).
  - apply receive_arriving; [done|]. intros i d m. apply Hx.
  - apply list.Forall_forall. intros d (i & Hi & _)%list_elem_of_bind. 
    destruct (ds !! i) eqn:E; cbn in Hi; [|by apply elem_of_nil in Hi]. apply list_elem_of_singleton in Hi as ->. by eapply Forall_lookup_1.
Qed.

(** ** A cipher with the laws, and concrete runs *)

Module Demo.

(** Encryption that changes nothing; the tag is the sum of key, nonce and data. *)
Definition checksum (k n a p : list Z) : list Z :=
  replicate 15 0 ++ [(foldr Z.add 0 k + 3 * foldr Z.add 0 n + foldr Z.add 0 a + foldr Z.add 0 p) mod 256].

Definition plain_gcm : Gcm := {|
  gcm_encrypt k n a p := if zlen p <=? GCM_LIMIT then Some (p, checksum k n a p) else None;
  gcm_decrypt k n a c t := if bool_decide (t = checksum k n a c) then Some c else None;
|}.

#[global] Instance plain_gcm_laws : GcmLaws plain_gcm.
Proof.
  split.
  - intros k n a p Hp. cbn. rewrite (proj2 (Z.leb_le _ _)) by done. by eexists.
  - intros k n a p c t. cbn. case_match; [|done]. intros [= <- <-]. split; [done|]. split; [done|]. split; [done|].
    apply (proj2 (bytes_ok_app (replicate 15 0) _)). split; [apply bytes_ok_replicate0|]. constructor; [|constructor].
    apply Z.mod_pos_bound. lia.
  - intros k n a p c t. cbn. case_match; [|done]. intros [= <- <-]. by rewrite bool_decide_eq_true_2.
Qed.

Definition hello : Outgoing := mkOutgoing Control 0 0 [104; 105].
Definition frame : Outgoing := mkOutgoing Video 3 1 [1; 2; 3].

End Demo.

Lemma replay_filter_exact_witness :
  let d := default [] (head ((seal_all (G := Demo.plain_gcm) (session_new [7] [8]) [Demo.hello]).2 ≫= fun r => match r with Good d => [d] | Bad _ => [] end)) in
  (open_all (G := Demo.plain_gcm) (session_new [8] [7]) [d; d; [1]]).2 =
    [Good (as_packet 0 Demo.hello); Bad AuthenticationFailed; Bad ShortDatagram].
Proof.
  intros d. destruct (replay_filter_exact (G := Demo.plain_gcm) [8] [7] [d; d; [1]]) as [-> _]; [|by vm_compute].
  repeat (apply Forall_cons_2; [apply bytes_ok_b; by vm_compute|]). apply Forall_nil_2.
Defined.
