(* ===== verification/Control.v ===== *)
(** * Ordered control ([protocol/src/lib.rs], module [control])

    The inner envelope of a control datagram and the bounded ordered channel
    built on it: frames carry a 32-bit sequence and a cumulative
    acknowledgement, the sender keeps what is not acknowledged, the receiver
    keeps what arrived early. A [BTreeMap] keyed by the sequence is a [gmap];
    the only place that depends on its order takes a maximum of distinct keys. *)

From stdpp Require Import gmap.
From S2P Require Import Prelude Fallible Datagram.

Definition MAGIC : list Z := [0x4F; 0x43].
Definition VERSION : Z := 1.
Definition ACK_PRESENT : Z := 1.
Definition ACK_ONLY : Z := 2.
Definition HEADER_LEN : Z := 12.
Definition MAX_PAYLOAD : Z := MAX_PLAINTEXT - HEADER_LEN.

Record Frame := mkFrame {
  fr_sequence : Z;
  fr_acknowledgement : option Z;
  fr_ack_only : bool;
  fr_payload : list Z;
}.

#[export] Instance Frame_eq_dec : EqDecision Frame.
Proof. solve_decision. Defined.

Inductive CError :=
  | ShortFrame
  | BadMagic
  | UnsupportedVersion (version : Z)
  | InvalidFlags (flags : Z)
  | InvalidAcknowledgement
  | EmptyMessage
  | TooLarge
  | WindowFull.

#[export] Instance CError_eq_dec : EqDecision CError.
Proof. solve_decision. Defined.

Definition is_empty {A} (l : list A) : bool := match l with [] => true | _ => false end.
Definition is_some {A} (o : option A) : bool := match o with Some _ => true | None => false end.

Definition frame_flags (f : Frame) : Z :=
  Z.lor (if fr_ack_only f then ACK_ONLY else 0) (if is_some (fr_acknowledgement f) then ACK_PRESENT else 0).

(** [Frame::encode]. *)
Definition frame_encode (f : Frame) : fallible CError (list Z) :=
  if fr_ack_only f && negb (is_some (fr_acknowledgement f)) then Bad InvalidAcknowledgement else
  if negb (fr_ack_only f) && is_empty (fr_payload f) then Bad EmptyMessage else
  if MAX_PAYLOAD <? zlen (fr_payload f) then Bad TooLarge else
  Good (MAGIC ++ [VERSION; frame_flags f] ++ be_bytes 4 (fr_sequence f) ++ be_bytes 4 (default 0 (fr_acknowledgement f)) ++ fr_payload f).

(** [Frame::decode]. [flags & !3] of a byte is [flags & 0xFC]. *)
Definition frame_decode (bytes : list Z) : fallible CError Frame :=
  if zlen bytes <? HEADER_LEN then Bad ShortFrame else
  if negb (bool_decide (range bytes 0 2 = MAGIC)) then Bad BadMagic else
  if negb (byte_at bytes 2 =? VERSION) then Bad (UnsupportedVersion (byte_at bytes 2)) else
  let flags := byte_at bytes 3 in
  if negb (Z.land flags (255 - Z.lor ACK_PRESENT ACK_ONLY) =? 0) then Bad (InvalidFlags flags) else
  let ack_only := negb (Z.land flags ACK_ONLY =? 0) in
  let acknowledgement := if negb (Z.land flags ACK_PRESENT =? 0) then Some (be_val (range bytes 8 12)) else None in
  if ack_only && negb (is_some acknowledgement) then Bad InvalidAcknowledgement else
  let payload := range bytes HEADER_LEN (zlen bytes) in
  if ack_only && negb (is_empty payload) then Bad (InvalidFlags flags) else
  if negb ack_only && is_empty payload then Bad EmptyMessage else
  if MAX_PAYLOAD <? zlen payload then Bad TooLarge else
  Good (mkFrame (be_val (range bytes 4 8)) acknowledgement ack_only payload).

(** ** The channel *)

Record Channel := mkChannel {
  ch_next_sequence : Z;
  ch_expected_sequence : Z;
  ch_received_any : bool;
  ch_pending_ack : option Z;
  ch_outstanding : gmap Z (list Z);
  ch_waiting : gmap Z (list Z);
  ch_max_pending : Z;
}.

#[export] Instance Channel_eta : Eta Channel := fun c =>
  mkChannel (ch_next_sequence c) (ch_expected_sequence c) (ch_received_any c) (ch_pending_ack c)
            (ch_outstanding c) (ch_waiting c) (ch_max_pending c).

Record Received := mkReceived { rc_delivered : list (list Z); rc_acknowledgement : option Z }.

Definition map_len {V} (m : gmap Z V) : Z := Z.of_nat (size m).

Definition channel_new (max_pending : Z) : Channel := mkChannel 0 0 false None ∅ ∅ (Z.max max_pending 1).

Definition queue (c : Channel) (payload : list Z) : Channel * fallible CError Z :=
  if is_empty payload then (c, Bad EmptyMessage) else
  if MAX_PAYLOAD <? zlen payload then (c, Bad TooLarge) else
  if ch_max_pending c <=? map_len (ch_outstanding c) then (c, Bad WindowFull) else
  let sequence := ch_next_sequence c in
  (c <| ch_next_sequence := wrapping_add32 (ch_next_sequence c) 1 |>
     <| ch_outstanding := <[sequence := payload]> (ch_outstanding c) |>, Good sequence).

(** [max_by_key]: among equals the last one wins. *)
Definition older (next : Z) (best : option (Z * list Z)) (e : Z * list Z) : option (Z * list Z) :=
  match best with
  | None => Some e
  | Some b => if wrapping_sub32 next b.1 <=? wrapping_sub32 next e.1 then Some e else Some b
  end.

Definition oldest (next : Z) (es : list (Z * list Z)) : option (Z * list Z) := foldl (older next) None es.

Definition next_frame (c : Channel) : option Frame :=
  '(sequence, payload) ← oldest (ch_next_sequence c) (map_to_list (ch_outstanding c));
  Some (mkFrame sequence (ch_pending_ack c) false payload).

Definition acknowledgement_frame (c : Channel) : option Frame :=
  (fun acknowledgement => mkFrame 0 (Some acknowledgement) true []) <$> ch_pending_ack c.

Definition sequence_at_or_before (sequence reference : Z) : bool :=
  (sequence =? reference) || (wrapping_sub32 reference sequence <? 0x80000000).

Definition acknowledge (c : Channel) (acknowledgement : Z) : Channel :=
  c <| ch_outstanding := filter (fun e => sequence_at_or_before e.1 acknowledgement = false) (ch_outstanding c) |>.

(** The loop that empties [waiting] from [expected] on. Every round removes an
    entry, so the number of entries is enough rounds. *)
Fixpoint drain (fuel : nat) (expected : Z) (waiting : gmap Z (list Z)) (delivered : list (list Z)) : Z * gmap Z (list Z) * list (list Z) :=
  match fuel with
  | O => (expected, waiting, delivered)
  | S fuel =>
      match waiting !! expected with
      | None => (expected, waiting, delivered)
      | Some payload => drain fuel (wrapping_add32 expected 1) (delete expected waiting) (delivered ++ [payload])
      end
  end.

Definition receive (c : Channel) (frame : Frame) : Channel * Received :=
  let c := match fr_acknowledgement frame with Some a => acknowledge c a | None => c end in
  if fr_ack_only frame then (c, mkReceived [] (ch_pending_ack c)) else
  if sequence_at_or_before (fr_sequence frame) (ch_expected_sequence c) && negb (fr_sequence frame =? ch_expected_sequence c)
  then (c, mkReceived [] (ch_pending_ack c)) else
  if negb (fr_sequence frame =? ch_expected_sequence c) then
    let c :=
      if map_len (ch_waiting c) <? ch_max_pending c then
        match ch_waiting c !! fr_sequence frame with
        | Some _ => c
        | None => c <| ch_waiting := <[fr_sequence frame := fr_payload frame]> (ch_waiting c) |>
        end
      else c in
    (c, mkReceived [] (ch_pending_ack c))
  else
    let '(expected, waiting, delivered) :=
      drain (size (ch_waiting c)) (wrapping_add32 (ch_expected_sequence c) 1) (ch_waiting c) [fr_payload frame] in
    let c := c <| ch_expected_sequence := expected |> <| ch_waiting := waiting |> <| ch_received_any := true |>
               <| ch_pending_ack := Some (wrapping_sub32 expected 1) |> in
    (c, mkReceived delivered (ch_pending_ack c)).

Definition outstanding (c : Channel) : Z := map_len (ch_outstanding c).
Definition has_capacity (c : Channel) : bool := map_len (ch_outstanding c) <? ch_max_pending c.
Definition waiting (c : Channel) : Z := map_len (ch_waiting c).
Definition received_any (c : Channel) : bool := ch_received_any c.

(** ** Positions

    The proofs follow the messages by their position in the whole stream [q] of
    queued messages; on the wire a position is its low 32 bits. A window of at
    most [HALF] positions keeps the serial order unambiguous. *)

Definition HALF : Z := 0x80000000.

Lemma wrap32_inj_near a b : wrap32 a = wrap32 b -> - M32 < a - b < M32 -> a = b.
Proof. unfold wrap32, M32. intros H ?. pose proof (Z.div_mod a 4294967296). pose proof (Z.div_mod b 4294967296). lia. Qed.

Lemma at_or_before_wrap i j : - HALF <= j - i < HALF -> sequence_at_or_before (wrap32 i) (wrap32 j) = (i <=? j).
Proof.
  unfold HALF. intros Hr. unfold sequence_at_or_before, wrapping_sub32. autorewrite with wrap.
  apply Bool.eq_true_iff_eq. rewrite orb_true_iff, Z.eqb_eq, Z.ltb_lt, Z.leb_le. split.
  - intros [H|H]; [apply wrap32_inj_near in H; unfold M32; lia|]. destruct (Z.lt_ge_cases j i); [|lia].
    unfold wrap32 in H. replace ((j - i) mod M32) with (j - i + M32) in H; [unfold M32 in H; lia|].
    symmetry. rewrite <- (Z.mod_small (j - i + M32) M32) by (unfold M32; lia). rewrite <- (Z_mod_plus_full (j - i) 1 M32). by f_equal.
  - intros H. right. rewrite wrap32_small by (unfold M32; lia). lia.
Qed.

(** The cumulative acknowledgement of the first [n] messages. *)
Definition ack_of (n : Z) : option Z := if n =? 0 then None else Some (wrap32 (n - 1)).

(** The sender holds exactly the messages from [base] on. *)
Record SendOk (c : Channel) (q : list (list Z)) (base : Z) : Prop := mkSendOk {
  so_base : 0 <= base <= zlen q;
  so_next : ch_next_sequence c = wrap32 (zlen q);
  so_window : zlen q - base <= ch_max_pending c;
  so_pending : ch_max_pending c <= HALF;
  so_held k p : ch_outstanding c !! k = Some p <-> exists i, base <= i < zlen q /\ k = wrap32 i /\ get q i = Some p;
}.

(** The receiver has delivered the first [n] messages and holds early ones. *)
Record RecvOk (c : Channel) (q : list (list Z)) (n : Z) : Prop := mkRecvOk {
  ro_count : 0 <= n <= zlen q;
  ro_expected : ch_expected_sequence c = wrap32 n;
  ro_ack : ch_pending_ack c = ack_of n;
  ro_any : ch_received_any c = (0 <? n);
  ro_bound : map_len (ch_waiting c) <= ch_max_pending c;
  ro_early k p : ch_waiting c !! k = Some p -> exists i, n < i < zlen q /\ k = wrap32 i /\ get q i = Some p;
}.

Lemma map_len_window (m : gmap Z (list Z)) a b :
  0 <= a <= b -> b - a <= M32 -> (forall k, is_Some (m !! k) <-> exists i, a <= i < b /\ k = wrap32 i) -> map_len m = b - a.
Proof.
  intros Ha Hw Hm. unfold map_len. rewrite <- size_dom. assert (dom m ≡ (list_to_set (map wrap32 (seqZ a (b - a))) : gset Z)) as ->.
  { intros k. rewrite elem_of_dom, Hm, elem_of_list_to_set. setoid_rewrite (list_elem_of_fmap wrap32). setoid_rewrite elem_of_seqZ.
    split; intros (i & H1 & H2); exists i; (split; [done || lia|done || lia]). }
  rewrite size_list_to_set; [rewrite length_map, length_seqZ; lia|]. apply NoDup_fmap_2_strong; [|apply NoDup_seqZ].
  intros x y Hx Hy H. apply elem_of_seqZ in Hx, Hy. apply wrap32_inj_near in H; lia.
Qed.

Lemma SendOk_size c q base : SendOk c q base -> map_len (ch_outstanding c) = zlen q - base.
Proof.
  intros [Hb Hn Hw Hp Hh]. unfold HALF in *. apply map_len_window; [done|unfold M32; lia|]. intros k. split.
  - intros [p Hk%Hh]. naive_solver.
  - intros (i & Hi & ->). destruct (get_some q i) as [p Hq]; [lia|]. exists p. apply Hh. eauto.
Qed.

Lemma SendOk_new m : m <= HALF -> SendOk (channel_new m) [] 0.
Proof.
  unfold HALF. intros. split; cbn; [done|done|zlia|unfold HALF; lia|]. intros k p. rewrite lookup_empty. split; [done|]. intros (i & Hi & _). zlia.
Qed.

Lemma RecvOk_new m : RecvOk (channel_new m) [] 0.
Proof. split; cbn; try done; unfold map_len; rewrite ?map_size_empty; lia. Qed.

(** ** Sending *)

Lemma get_snoc {A} (q : list A) x i : get (q ++ [x]) i = if i =? zlen q then Some x else get q i.
Proof.
  destruct (Z.lt_ge_cases i 0); [unfold get; rewrite (proj2 (Z.ltb_lt _ _)) by done; destruct (i =? zlen q) eqn:E; bool_prop; [pose proof (zlen_nonneg q); lia|done]|].
  rewrite !get_lookup by done. destruct (i =? zlen q) eqn:E; bool_prop.
  - subst. unfold zlen. rewrite Nat2Z.id. by rewrite list_lookup_middle.
  - destruct (Z.lt_ge_cases i (zlen q)); [by rewrite lookup_app_l by (unfold zlen in *; lia)|].
    rewrite !lookup_ge_None_2; [done|unfold zlen in *; lia|rewrite length_app; cbn; unfold zlen in *; lia].
Qed.

Lemma queue_ok c q base payload c' s :
  SendOk c q base -> queue c payload = (c', Good s) -> SendOk c' (q ++ [payload]) base /\ s = wrap32 (zlen q).
Proof.
  intros Hs. pose proof (SendOk_size _ _ _ Hs) as Hlen. destruct Hs as [Hb Hn Hw Hp Hh]. unfold queue.
  destruct (is_empty _); [done|]. destruct (_ <? _); [done|]. destruct (_ <=? _) eqn:E; [done|]. bool_prop. intros [<- [= <-]]%pair_equal_spec.
  split; [|done]. unfold HALF in *. split; cbn; autorewrite with slices.
  - lia.
  - rewrite Hn. unfold wrapping_add32. by autorewrite with wrap.
  - lia.
  - done.
  - intros k p. rewrite Hn, lookup_insert_Some. setoid_rewrite get_snoc. split.
    + intros [[<- <-]|[Hk (i & Hi & -> & Hg)%Hh]].
      * exists (zlen q). rewrite Z.eqb_refl. split; [lia|done].
      * exists i. rewrite (proj2 (Z.eqb_neq _ _)) by lia. split; [lia|done].
    + intros (i & Hi & -> & Hg). destruct (i =? zlen q) eqn:Ei; bool_prop; simplify_eq; [by left|right].
      split; [intros He; apply wrap32_inj_near in He; unfold M32; lia|]. apply Hh. exists i. split; [lia|done].
Qed.

Lemma queue_refused c payload c' e : queue c payload = (c', Bad e) -> c' = c.
Proof. unfold queue. repeat (case_match; try (by intros [= <- <-])). Qed.

Lemma oldest_spec next es e0 : let best := foldl (older next) e0 es in
  match best with
  | None => e0 = None /\ es = []
  | Some b => (e0 = Some b \/ b ∈ es) /\ forall e, (e0 = Some e \/ e ∈ es) -> wrapping_sub32 next e.1 <= wrapping_sub32 next b.1
  end.
Proof.
  revert e0. induction es as [|e es IH]; intros e0; cbn.
  - destruct e0 as [b|]; [|done]. split; [by left|]. intros e [[= ->]|?%elem_of_nil]; [lia|done].
  - specialize (IH (older next e0 e)). destruct (foldl _ _ es) as [b|].
    + destruct IH as [Hin Hmax]. unfold older in *. destruct e0 as [x|].
      * destruct (_ <=? _) eqn:E; bool_prop; (split; [set_solver|]).
        all: intros y [[= ->]|[->|Hy]%elem_of_cons]; [..|apply Hmax; by right]; try (apply Hmax; by left).
        all: etrans; [|apply Hmax; by left]; lia.
      * split; [set_solver|]. intros y [?|[->|Hy]%elem_of_cons]; [done|apply Hmax; by left|apply Hmax; by right].
    + destruct IH as [H _]. unfold older in H. by repeat case_match.
Qed.

(** The frame that is sent, first or again, is the oldest one not acknowledged. *)
Lemma next_frame_ok c q base :
  SendOk c q base -> next_frame c = (fun p => mkFrame (wrap32 base) (ch_pending_ack c) false p) <$> get q base.
Proof.
  intros [Hb Hn Hw Hp Hh]. unfold HALF in *. unfold next_frame, oldest. pose proof (oldest_spec (ch_next_sequence c) (map_to_list (ch_outstanding c)) None) as Ho.
  cbn in Ho. destruct (foldl _ _ _) as [[k p]|].
  - destruct Ho as [[?|Hin%elem_of_map_to_list%Hh] Hmax]; [done|]. destruct Hin as (i & Hi & -> & Hg).
    destruct (get_some q base) as [p0 Hp0]; [lia|]. rewrite Hp0. cbn. cut (i = base); [intros ->; simplify_eq; done|].
    specialize (Hmax (wrap32 base, p0)). cbn in Hmax. rewrite Hn in Hmax. unfold wrapping_sub32 in Hmax. autorewrite with wrap in Hmax.
    rewrite (wrap32_small (zlen q - base)), (wrap32_small (zlen q - i)) in Hmax by (unfold M32; lia). apply Z.le_antisymm; [|lia]. cut (zlen q - base <= zlen q - i); [lia|]. apply Hmax.
    right. apply elem_of_map_to_list, Hh. exists base. split; [lia|done].
  - destruct Ho as [_ Hnil]. apply map_to_list_empty_iff in Hnil. destruct (get q base) as [p|] eqn:Eg; [exfalso|reflexivity].
    assert (ch_outstanding c !! wrap32 base = Some p) as Hk by (apply Hh; exists base; pose proof (get_inv _ _ _ Eg) as [? _]; split; [lia|done]).
    by rewrite Hnil, lookup_empty in Hk.
Qed.

Lemma channel_acknowledge_ok c q base j :
  SendOk c q base -> 0 < j <= zlen q -> zlen q - j <= HALF -> SendOk (acknowledge c (wrap32 (j - 1))) q (Z.max base j).
Proof.
  intros [Hb Hn Hw Hp Hh] Hj Hr. unfold HALF in *. split; cbn; [lia|done|lia|done|]. intros k p. rewrite map_lookup_filter_Some. cbn. rewrite Hh. split.
  - intros [(i & Hi & -> & Hg) Hf]. rewrite at_or_before_wrap in Hf by (unfold HALF; lia). bool_prop. exists i. split; [lia|done].
  - intros (i & Hi & -> & Hg). split; [exists i; split; [lia|done]|]. rewrite at_or_before_wrap by (unfold HALF; lia). lia.
Qed.

(** ** Receiving *)

(** Messages [a .. b - 1] of the stream. *)
Definition span (q : list (list Z)) (a b : Z) : list (list Z) := take (Z.to_nat (b - a)) (drop (Z.to_nat a) q).

Lemma span_refl q a : span q a a = [].
Proof. unfold span. by rewrite Z.sub_diag. Qed.

Lemma span_step q a b p : 0 <= a < b -> get q a = Some p -> span q a b = p :: span q (a + 1) b.
Proof.
  intros Hab [_ Hp]%get_inv. unfold span. rewrite (drop_S _ _ _ Hp). replace (Z.to_nat (b - a)) with (S (Z.to_nat (b - (a + 1)))) by lia. cbn.
  do 2 f_equal. f_equal. lia.
Qed.

Lemma take_span q n m : 0 <= n <= m -> take (Z.to_nat n) q ++ span q n m = take (Z.to_nat m) q.
Proof. intros. unfold span. rewrite take_take_drop. f_equal. lia. Qed.

(** Entries at position [n] or later. *)
Definition Early (m : gmap Z (list Z)) (q : list (list Z)) (n : Z) : Prop :=
  forall k p, m !! k = Some p -> exists i, n <= i < zlen q /\ k = wrap32 i /\ get q i = Some p.

Lemma Early_delete m q n : 0 <= n -> zlen q - n <= HALF -> Early m q n -> Early (delete (wrap32 n) m) q (n + 1).
Proof.
  unfold HALF. intros Hn Hq He k p [Hk (i & Hi & -> & Hg)%He]%lookup_delete_Some. exists i. split; [|done]. cut (i <> n); [lia|]. by intros ->.
Qed.

Lemma drain_ok q fuel : forall n m del,
  0 <= n <= zlen q -> zlen q - n <= HALF -> Early m q n -> (size m <= fuel)%nat ->
  exists n' m', drain fuel (wrap32 n) m del = (wrap32 n', m', del ++ span q n n') /\ n <= n' <= zlen q /\ Early m' q (n' + 1) /\ map_len m' <= map_len m.
Proof.
  induction fuel as [|fuel IH]; intros n m del Hn Hq He Hf.
  - exists n, m. rewrite span_refl, app_nil_r. split; [done|]. split; [lia|]. split; [|lia].
    assert (m = ∅) as -> by (apply map_size_empty_iff; lia). intros k p. by rewrite lookup_empty.
  - cbn [drain]. destruct (m !! wrap32 n) as [p|] eqn:E.
    + destruct (He _ _ E) as (i & Hi & Hk & Hg). unfold HALF in *. apply wrap32_inj_near in Hk; [subst i|unfold M32; lia].
      destruct (IH (n + 1) (delete (wrap32 n) m) (del ++ [p])) as (n' & m' & Ed & Hn' & He' & Hl);
        [lia|unfold HALF; lia|apply Early_delete; [lia|unfold HALF; lia|done]|rewrite map_size_delete_Some by eauto; lia|].
      unfold wrapping_add32. autorewrite with wrap. exists n', m'. rewrite Ed, (span_step q n n' p), <- app_assoc by (done || lia). split; [done|]. split; [lia|]. split; [done|].
      unfold map_len in *. rewrite map_size_delete_Some in Hl by eauto. lia.
    + exists n, m. rewrite span_refl, app_nil_r. split; [done|]. split; [lia|]. split; [|lia].
      intros k p Hk. destruct (He _ _ Hk) as (i & Hi & -> & Hg). exists i. split; [|done]. cut (i <> n); [lia|]. intros ->. by rewrite Hk in E.
Qed.

(** A data frame for position [i]. *)
Definition carries (q : list (list Z)) (i : Z) (f : Frame) : Prop :=
  fr_ack_only f = false /\ fr_sequence f = wrap32 i /\ get q i = Some (fr_payload f).

Definition acknowledged (c : Channel) (f : Frame) : Channel :=
  match fr_acknowledgement f with Some a => acknowledge c a | None => c end.

Lemma RecvOk_acknowledged c f q n : RecvOk c q n -> RecvOk (acknowledged c f) q n.
Proof. intros []. unfold acknowledged. case_match; by split. Qed.

Lemma receive_ack_only c f : fr_ack_only f = true -> receive c f = (acknowledged c f, mkReceived [] (ch_pending_ack (acknowledged c f))).
Proof. intros H. unfold receive. by rewrite H. Qed.

(** A data frame: the receiver delivers the messages from the one it expected
    up to the first it lacks, and nothing when it expected another one. *)
Lemma receive_ok c f q n i :
  RecvOk c q n -> zlen q - n <= HALF -> carries q i f -> n - i < HALF ->
  exists n' c', receive c f = (c', mkReceived (span q n n') (ack_of n')) /\ RecvOk c' q n' /\ n <= n' <= zlen q /\ (n < n' <-> i = n) /\
    ch_outstanding c' = ch_outstanding (acknowledged c f) /\ ch_next_sequence c' = ch_next_sequence c /\ ch_max_pending c' = ch_max_pending c.
Proof.
  intros Hr Hq (Ho & Hs & Hg) Hi. unfold receive. fold (acknowledged c f). rewrite Ho, Hs.
  assert (ch_next_sequence (acknowledged c f) = ch_next_sequence c /\ ch_max_pending (acknowledged c f) = ch_max_pending c) as [<- <-]
    by (unfold acknowledged; by case_match).
  apply (RecvOk_acknowledged c f) in Hr. generalize dependent (acknowledged c f). clear c. intros c Hr.
  pose proof (proj1 (get_inv _ _ _ Hg)) as Hil. pose proof Hr as Hr0. destruct Hr as [Hc He Ha Hany Hb Hw]. rewrite He, at_or_before_wrap by (unfold HALF in *; lia).
  assert ((wrap32 i =? wrap32 n) = (i =? n)) as ->.
  { destruct (i =? n) eqn:E; bool_prop; [subst; apply Z.eqb_refl|]. apply Z.eqb_neq. intros H%wrap32_inj_near; [done|unfold HALF, M32 in *; lia]. }
  destruct (i =? n) eqn:Ein; bool_prop.
  - subst i. rewrite andb_false_r. cbn [negb]. destruct (drain_ok q (size (ch_waiting c)) (n + 1) (ch_waiting c) [fr_payload f])
      as (n' & m' & Ed & Hn' & He' & Hl); [lia|lia|intros k p Hk; destruct (Hw k p Hk) as (i & ? & ?); exists i; split; [lia|done]|lia|].
    unfold wrapping_add32. autorewrite with wrap. rewrite Ed. exists n'. eexists. split.
    { f_equal. cbn. rewrite (span_step q n n' (fr_payload f)) by (done || lia). unfold ack_of. rewrite (proj2 (Z.eqb_neq _ _)) by lia.
      unfold wrapping_sub32. by autorewrite with wrap. }
    split; [|split; [lia|split; [split; [done|lia]|done]]]. split; cbn; [lia|done| | | |].
    + unfold ack_of, wrapping_sub32. rewrite (proj2 (Z.eqb_neq _ _)) by lia. by autorewrite with wrap.
    + symmetry. apply Z.ltb_lt. lia.
    + lia.
    + intros k p Hk. destruct (He' k p Hk) as (i & ? & ?). exists i. split; [lia|done].
  - exists n. rewrite span_refl. cbn [negb]. rewrite andb_true_r. destruct (i <=? n) eqn:Ele; bool_prop.
    { exists c. rewrite Ha. split; [done|]. split; [by split|]. split; [lia|]. split; [lia|done]. }
    assert (Hk : forall c', RecvOk c' q n -> ch_outstanding c' = ch_outstanding c -> ch_next_sequence c' = ch_next_sequence c -> ch_max_pending c' = ch_max_pending c ->
      exists c'', (c', mkReceived [] (ch_pending_ack c')) = (c'', mkReceived [] (ack_of n)) /\ RecvOk c'' q n /\ n <= n <= zlen q /\ (n < n <-> i = n) /\
        ch_outstanding c'' = ch_outstanding c /\ ch_next_sequence c'' = ch_next_sequence c /\ ch_max_pending c'' = ch_max_pending c).
    { intros c' Hr' ???. exists c'. rewrite (ro_ack _ _ _ Hr'). split; [done|]. split; [done|]. split; [lia|]. split; [lia|done]. }
    destruct (map_len _ <? _) eqn:Esz; [|by apply Hk]. destruct (ch_waiting c !! wrap32 i) eqn:Ew; [by apply Hk|]. bool_prop. apply Hk; try done.
    split; cbn; try done.
    + unfold map_len in *. rewrite map_size_insert_None by done. lia.
    + intros k p [[<- <-]|[_ Hk']]%lookup_insert_Some; [|by apply Hw]. exists i. split; [lia|done].
Qed.

(** ** The frame on the wire *)

Definition frame_valid (f : Frame) : Prop :=
  is_u32 (fr_sequence f) /\ (forall a, fr_acknowledgement f = Some a -> is_u32 a) /\ bytes_ok (fr_payload f) /\ zlen (fr_payload f) <= MAX_PAYLOAD /\
  (if fr_ack_only f then is_some (fr_acknowledgement f) = true /\ fr_payload f = [] else fr_payload f <> []).

Lemma frame_fields s a flags p :
  let b := MAGIC ++ [VERSION; flags] ++ be_bytes 4 s ++ be_bytes 4 a ++ p in
  zlen b = 12 + zlen p /\ range b 0 2 = MAGIC /\ byte_at b 2 = VERSION /\ byte_at b 3 = flags /\
  range b 4 8 = be_bytes 4 s /\ range b 8 12 = be_bytes 4 a /\ range b 12 (zlen b) = p.
Proof.
  intros b. assert (Hb : zlen b = 12 + zlen p) by (unfold b, MAGIC; zlia). split; [done|].
  split; [by apply (range_at _ [] MAGIC ([VERSION; flags] ++ be_bytes 4 s ++ be_bytes 4 a ++ p))|]. do 2 (split; [reflexivity|]).
  split; [by apply (range_at _ (MAGIC ++ [VERSION; flags]) _ (be_bytes 4 a ++ p))|].
  split; [by apply (range_at _ (MAGIC ++ [VERSION; flags] ++ be_bytes 4 s) _ p)|].
  apply (range_at _ (MAGIC ++ [VERSION; flags] ++ be_bytes 4 s ++ be_bytes 4 a) _ []); [by rewrite app_nil_r|done|done].
Qed.

Lemma frame_round_trip f : frame_valid f -> exists b, frame_encode f = Good b /\ bytes_ok b /\ zlen b <= MAX_PLAINTEXT /\ frame_decode b = Good f.
Proof.
  destruct f as [s a o p]. unfold frame_valid. cbn. intros (Hs & Ha & Hp & Hl & Ho). unfold frame_encode. cbn [fr_sequence fr_acknowledgement fr_ack_only fr_payload].
  assert (Hk : o && negb (is_some a) = false /\ negb o && is_empty p = false) by (destruct o; [by destruct Ho as [-> ->]|by destruct p]).
  destruct Hk as [-> ->]. rewrite (proj2 (Z.ltb_ge _ _)) by done. set (flags := frame_flags _). eexists. split; [done|].
  destruct (frame_fields s (default 0 a) flags p) as (E0 & E1 & E2 & E3 & E4 & E5 & E6). split; [|split].
  - rewrite !bytes_ok_app. split; [by apply bytes_ok_b|]. split; [|split; [apply be_bytes_ok|split; [apply be_bytes_ok|done]]].
    apply bytes_ok_b. unfold flags, frame_flags. cbn. by destruct o, a.
  - rewrite E0. unfold MAX_PAYLOAD, HEADER_LEN in Hl. lia.
  - unfold frame_decode, HEADER_LEN. rewrite E1, E2, E3, E4, E5, E6, E0. pose proof (zlen_nonneg p). rewrite (proj2 (Z.ltb_ge _ _)) by lia.
    rewrite (proj2 (Z.ltb_ge _ _)) by done. rewrite (be_val_bytes 4 s) by done.
    assert (Hd : be_val (be_bytes 4 (default 0 a)) = default 0 a) by (apply be_val_bytes; destruct a; [by apply Ha|done]). rewrite Hd.
    unfold flags, frame_flags. cbn. destruct o; [destruct Ho as [Hsome ->]; by destruct a|]. by destruct a, p.
Qed.

(** The decoder yields only frames a channel can act on. *)
Lemma frame_decode_valid b f : bytes_ok b -> frame_decode b = Good f -> frame_valid f.
Proof.
  intros Hb H. unfold frame_decode in H. destruct (zlen b <? HEADER_LEN) eqn:El; [done|]. destruct (negb _); [done|]. destruct (negb _); [done|]. destruct (negb _); [done|].
  set (o := negb (Z.land _ ACK_ONLY =? 0)) in H. set (a := if negb (Z.land _ ACK_PRESENT =? 0) then _ else _) in H. change HEADER_LEN with 12 in *. bool_prop.
  destruct (o && negb (is_some a)) eqn:E1; [done|]. destruct (o && negb (is_empty _)) eqn:E2; [done|]. destruct (negb o && _) eqn:E3; [done|]. destruct (_ <? _) eqn:E4; [done|].
  injection H as <-. bool_prop. pose proof (be_val_range_lt 4 b 4 8 Hb). pose proof (be_val_range_lt 4 b 8 12 Hb). unfold frame_valid. cbn. split; [unfold is_u32, M32; lia|].
  split; [intros x; unfold a; case_match; [|done]; intros [= <-]; unfold is_u32, M32; lia|]. split; [by apply range_ok|]. split; [done|].
  destruct o; cbn in E1, E2, E3; [|by destruct (range b 12 (zlen b))]. destruct (is_some a); [|done]. by destruct (range b 12 (zlen b)).
Qed.
