(* ===== verification/Reliable.v ===== *)
(** * Reliable control between two peers ([client-core/src/lib.rs], [ReliableControl])

    The helper that the clients and hosts drive: one ordered channel per
    direction, the oldest outstanding frame sent again on a timer, an
    acknowledgement sent for every frame received. The encrypted session it
    sends through is a parameter. [Link] puts two peers on a network that may
    lose, reorder and repeat what they send, and follows what each application
    queued and was given. *)

From stdpp Require Import gmap.
From S2P Require Import Prelude Fallible Datagram Control.

Record ReliableControl := mkReliable { rel_outbound : Channel; rel_inbound : Channel }.

#[export] Instance ReliableControl_eta : Eta ReliableControl := fun r => mkReliable (rel_outbound r) (rel_inbound r).

Definition reliable_new (max_pending : Z) : ReliableControl := mkReliable (channel_new max_pending) (channel_new max_pending).

Definition rel_outstanding (r : ReliableControl) : Z := outstanding (rel_outbound r).

Section with_session.

(** The session's state, its errors, [Error::InvalidMessage] and
    [send_application_with_flag] for a control payload. *)
Context {S E : Type} (invalid_message : CError -> E) (send_application : S -> list Z -> bool -> S * fallible E ()).

Definition send_frame (session : S) (frame : Frame) (logical_retransmission : bool) : S * fallible E () :=
  match frame_encode frame with
  | Bad e => (session, Bad (invalid_message e))
  | Good payload => send_application session payload logical_retransmission
  end.

Definition flush (r : ReliableControl) (session : S) : S * fallible E () :=
  match next_frame (rel_outbound r) with
  | Some frame => send_frame session frame false
  | None => (session, Good tt)
  end.

Definition flush_retry (r : ReliableControl) (session : S) : S * fallible E () :=
  match next_frame (rel_outbound r) with
  | Some frame => send_frame session frame true
  | None => (session, Good tt)
  end.

Definition rel_send (r : ReliableControl) (session : S) (payload : list Z) : ReliableControl * S * fallible E (option Z) :=
  match queue (rel_outbound r) payload with
  | (outbound, Good sequence) =>
      let r := r <| rel_outbound := outbound |> in
      let '(session, sent) := flush r session in
      (r, session, match sent with Good _ => Good (Some sequence) | Bad e => Bad e end)
  | (outbound, Bad WindowFull) =>
      let r := r <| rel_outbound := outbound |> in
      let '(session, sent) := flush r session in
      (r, session, match sent with Good _ => Good None | Bad e => Bad e end)
  | (outbound, Bad e) => (r <| rel_outbound := outbound |>, session, Bad (invalid_message e))
  end.

Definition send_if_available (r : ReliableControl) (session : S) (payload : list Z) : ReliableControl * S * fallible E (option Z) :=
  if negb (has_capacity (rel_outbound r)) then (r, session, Good None) else rel_send r session payload.

Definition retry (r : ReliableControl) (session : S) : S * fallible E () := flush_retry r session.

(** [ReliableControl::receive]: [None] is a packet that is not reliable control. *)
Definition rel_receive (r : ReliableControl) (session : S) (packet : Packet) :
    ReliableControl * S * fallible E (option (list (list Z))) :=
  if negb (bool_decide (pk_kind packet = Datagram.Control)) then (r, session, Good None) else
  match frame_decode (pk_payload packet) with
  | Bad _ => (r, session, Good None)
  | Good frame =>
      let ack_only := fr_ack_only frame in
      let r := match fr_acknowledgement frame with
               | Some a => r <| rel_outbound := acknowledge (rel_outbound r) a |>
               | None => r
               end in
      let '(inbound, received) := receive (rel_inbound r) frame in
      let r := r <| rel_inbound := inbound |> in
      let '(session, acked) :=
        if negb ack_only then
          match acknowledgement_frame (rel_inbound r) with
          | Some acknowledgement => send_frame session acknowledgement false
          | None => (session, Good tt)
          end
        else (session, Good tt) in
      match acked with
      | Bad e => (r, session, Bad e)
      | Good _ =>
          let '(session, sent) := flush r session in
          (r, session, match sent with Good _ => Good (Some (rc_delivered received)) | Bad e => Bad e end)
      end
  end.

End with_session.

(** ** Two peers

    The session is the list of payloads handed to it, newest first; what
    becomes of them is up to the network. *)

Definition hand_over (sent : list (list Z)) (payload : list Z) (_ : bool) : list (list Z) * fallible CError () := (payload :: sent, Good tt).

(** A payload in the network, with the number of messages each side had queued
    when it was sent (the sender's first). *)
Record Flight := mkFlight { fl_payload : list Z; fl_own : Z; fl_other : Z }.

(** A peer: its state, what its application queued, what it was given. *)
Record Side := mkSide { sd_control : ReliableControl; sd_queued : list (list Z); sd_given : list (list Z) }.

(** The network keeps everything ever sent: a payload may arrive at any later
    time and any number of times, or never. *)
Record Link := mkLink { ln_left : Side; ln_right : Side; ln_to_right : list Flight; ln_to_left : list Flight }.

Definition swap (l : Link) : Link := mkLink (ln_right l) (ln_left l) (ln_to_left l) (ln_to_right l).

Definition link_new (w : Z) : Link := mkLink (mkSide (reliable_new w) [] []) (mkSide (reliable_new w) [] []) [] [].

Definition flights (sent : list (list Z)) (own other : list (list Z)) : list Flight :=
  map (fun p => mkFlight p (zlen own) (zlen other)) sent.

Definition control_packet (payload : list Z) : Packet := mkPacket Datagram.Control 0 0 0 payload.

Section network.
(** The window both peers were created with. *)
Context (w : Z).

(** While a payload is under way neither side queues so many messages that the
    serial order of sequences becomes ambiguous. *)
Definition recent (f : Flight) (sender receiver : Side) : Prop :=
  zlen (sd_queued sender) - fl_own f < HALF - w /\ zlen (sd_queued receiver) - fl_other f < HALF - w.

(** What the left peer does; the right one by symmetry. *)
Inductive acts (l : Link) : Link -> Prop :=
  | act_send payload control sent r :
      bytes_ok payload ->
      rel_send id hand_over (sd_control (ln_left l)) [] payload = (control, sent, r) ->
      let queued := match r with Good (Some _) => sd_queued (ln_left l) ++ [payload] | _ => sd_queued (ln_left l) end in
      acts l (mkLink (mkSide control queued (sd_given (ln_left l))) (ln_right l)
                     (flights sent queued (sd_queued (ln_right l)) ++ ln_to_right l) (ln_to_left l))
  | act_retry sent r :
      retry id hand_over (sd_control (ln_left l)) [] = (sent, r) ->
      acts l (mkLink (ln_left l) (ln_right l)
                     (flights sent (sd_queued (ln_left l)) (sd_queued (ln_right l)) ++ ln_to_right l) (ln_to_left l))
  | act_receive f control sent given :
      f ∈ ln_to_left l -> recent f (ln_right l) (ln_left l) ->
      rel_receive id hand_over (sd_control (ln_left l)) [] (control_packet (fl_payload f)) = (control, sent, Good (Some given)) ->
      acts l (mkLink (mkSide control (sd_queued (ln_left l)) (sd_given (ln_left l) ++ given)) (ln_right l)
                     (flights sent (sd_queued (ln_left l)) (sd_queued (ln_right l)) ++ ln_to_right l) (ln_to_left l)).

Inductive reachable : Link -> Prop :=
  | reach_new : reachable (link_new w)
  | reach_left l l' : reachable l -> acts l l' -> reachable l'
  | reach_right l l' : reachable l -> acts (swap l) l' -> reachable (swap l').

(** ** The invariant *)

Definition carried (p : list Z) : Prop := bytes_ok p /\ p <> [] /\ zlen p <= MAX_PAYLOAD.

(** A payload sent by [a] is a message of its stream or acknowledges what its
    application was given. *)
Definition FlightOk (a : Side) (f : Flight) : Prop :=
  exists frame, frame_decode (fl_payload f) = Good frame /\
    ((exists i, carries (sd_queued a) i frame /\ fr_acknowledgement frame = None /\ fl_own f - w <= i) \/
     (exists j, fr_ack_only frame = true /\ fr_acknowledgement frame = Some (wrap32 (j - 1)) /\ 0 < j <= zlen (sd_given a) /\ fl_other f - w <= j)).

(** The stream from [a] to [b]. *)
Record Stream (a b : Side) : Prop := mkStream {
  st_base : exists base, SendOk (rel_outbound (sd_control a)) (sd_queued a) base /\ base <= zlen (sd_given b);
  st_max : ch_max_pending (rel_outbound (sd_control a)) = w;
  st_mute : ch_pending_ack (rel_outbound (sd_control a)) = None;
  st_carried : Forall carried (sd_queued a);
  st_recv : RecvOk (rel_inbound (sd_control b)) (sd_queued a) (zlen (sd_given b));
  st_given : sd_given b = take (length (sd_given b)) (sd_queued a);
}.

Definition LinkOk (l : Link) : Prop :=
  Stream (ln_left l) (ln_right l) /\ Stream (ln_right l) (ln_left l) /\
  Forall (FlightOk (ln_left l)) (ln_to_right l) /\ Forall (FlightOk (ln_right l)) (ln_to_left l).

Lemma LinkOk_swap l : LinkOk l -> LinkOk (swap l).
Proof. unfold LinkOk. cbn. tauto. Qed.

Lemma FlightOk_grow a a' f :
  sd_queued a `prefix_of` sd_queued a' -> zlen (sd_given a) <= zlen (sd_given a') -> FlightOk a f -> FlightOk a' f.
Proof.
  intros [k Hq] Hg (frame & Hd & [(i & (Ho & Hs & Hp) & Hx)|(j & ? & ? & ? & ?)]); exists frame; (split; [done|]); [left|right; exists j; repeat split; lia || done].
  exists i. split; [|done]. split; [done|]. split; [done|]. rewrite Hq. apply get_inv in Hp as [Hi Hp]. rewrite get_lookup by lia. by apply lookup_app_l_Some.
Qed.

Lemma flights_grow a a' fs :
  sd_queued a `prefix_of` sd_queued a' -> zlen (sd_given a) <= zlen (sd_given a') -> Forall (FlightOk a) fs -> Forall (FlightOk a') fs.
Proof. intros Hq Hg. apply Forall_impl. intros f. by apply FlightOk_grow. Qed.

Lemma flight_data a base :
  SendOk (rel_outbound (sd_control a)) (sd_queued a) base -> Forall carried (sd_queued a) ->
  ch_pending_ack (rel_outbound (sd_control a)) = None -> ch_max_pending (rel_outbound (sd_control a)) = w ->
  forall retransmission sent, exists new,
    (match next_frame (rel_outbound (sd_control a)) with
     | Some frame => send_frame id hand_over sent frame retransmission
     | None => (sent, Good tt) end) = (new ++ sent, Good tt) /\
    (base < zlen (sd_queued a) -> exists p, new = [p]) /\
    forall other, Forall (FlightOk a) (flights new (sd_queued a) other).
Proof.
  intros Hs Hc Hm Hw retransmission sent. rewrite (next_frame_ok _ _ _ Hs), Hm. destruct (get (sd_queued a) base) as [p|] eqn:Eg; cbn.
  - assert (carried p) as (Hb & Hne & Hl) by (eapply Forall_get; eauto). unfold send_frame.
    destruct (frame_round_trip (mkFrame (wrap32 base) None false p)) as (b & Ee & _ & _ & Ed).
    { split; [apply wrap32_range|]. cbn. done. }
    rewrite Ee. exists [b]. split; [done|]. split; [by eexists|]. intros other. constructor; [|constructor]. exists (mkFrame (wrap32 base) None false p). split; [done|].
    left. exists base. split; [done|]. split; [done|]. cbn. destruct Hs. lia.
  - exists []. split; [done|]. split; [|intros; constructor]. intros Hlt. destruct (get_some (sd_queued a) base) as [? E]; [destruct Hs; lia|]. by rewrite Eg in E.
Qed.

Lemma flush_ok a b :
  Stream a b -> forall sent, exists new,
    flush id hand_over (sd_control a) sent = (new ++ sent, Good tt) /\ forall other, Forall (FlightOk a) (flights new (sd_queued a) other).
Proof.
  intros [(base & Hs & _) Hw Hm Hc _ _] sent. destruct (flight_data a base Hs Hc Hm Hw false sent) as (new & E & _ & H). by exists new.
Qed.

Lemma retry_ok a b :
  Stream a b -> exists new, retry id hand_over (sd_control a) [] = (new, Good tt) /\
    forall other, Forall (FlightOk a) (flights new (sd_queued a) other).
Proof.
  intros [(base & Hs & _) Hw Hm Hc _ _]. destruct (flight_data a base Hs Hc Hm Hw true []) as (new & E & _ & H).
  exists new. rewrite app_nil_r in E. by split.
Qed.

(** Enough room, no more: the receiver is never more than a window behind. *)
Lemma stream_window a b : Stream a b -> 0 <= w <= HALF /\ zlen (sd_queued a) - w <= zlen (sd_given b) <= zlen (sd_queued a).
Proof. intros [(base & [] & ?) Hw _ _ [] _]. rewrite Hw in *. lia. Qed.

Lemma send_ok a b payload control sent r :
  Stream a b -> bytes_ok payload -> rel_send id hand_over (sd_control a) [] payload = (control, sent, r) ->
  let queued := match r with Good (Some _) => sd_queued a ++ [payload] | _ => sd_queued a end in
  let a' := mkSide control queued (sd_given a) in
  Stream a' b /\ rel_inbound control = rel_inbound (sd_control a) /\ forall other, Forall (FlightOk a') (flights sent queued other).
Proof.
  intros Hst Hb. pose proof Hst as [(base & Hs & Hle) Hw Hm Hc Hr Hg]. unfold rel_send.
  destruct (queue (rel_outbound (sd_control a)) payload) as [outbound [sequence|e]] eqn:Eq.
  - destruct (queue_ok _ _ _ _ _ _ Hs Eq) as [Hs' ->].
    set (a' := mkSide (sd_control a <| rel_outbound := outbound |>) (sd_queued a ++ [payload]) (sd_given a)).
    assert (Hst' : Stream a' b).
    { assert (carried payload /\ ch_pending_ack outbound = None /\ ch_max_pending outbound = w) as (? & ? & ?).
      { unfold queue in Eq. destruct (is_empty payload) eqn:E1; [done|]. destruct (_ <? _) eqn:E2; [done|]. destruct (_ <=? _); [done|].
        apply pair_equal_spec in Eq as [<- _]. cbn. split; [|done]. split; [done|]. split; [by intros ->|]. bool_prop. done. }
      split; cbn; try done.
      - by exists base.
      - apply Forall_app. split; [done|]. by constructor.
      - destruct Hr as [? ? ? ? ? He]. split; try done; rewrite ?zlen_app; [zlia|]. intros k p (i & Hi & -> & Hp)%He. exists i.
        rewrite get_snoc, (proj2 (Z.eqb_neq _ _)) by lia. split; [zlia|done].
      - rewrite take_app_le; [done|]. destruct Hr. unfold zlen in *. lia. }
    destruct (flush_ok a' b Hst' []) as (new & Ef & Hn). rewrite app_nil_r in Ef. change (sd_control a') with (sd_control a <| rel_outbound := outbound |>) in Ef. rewrite Ef. intros [= <- <- <-]. cbn. done.
  - apply queue_refused in Eq as Eo. subst outbound. assert (sd_control a <| rel_outbound := rel_outbound (sd_control a) |> = sd_control a) as -> by (by destruct a as [[] ? ?]).
    destruct (flush_ok a b Hst []) as (new & Ef & Hn). rewrite app_nil_r in Ef. rewrite Ef.
    assert (mkSide (sd_control a) (sd_queued a) (sd_given a) = a) as Ea by (by destruct a).
    destruct e; intros [= <- <- <-]; cbn; rewrite Ea; split; try done; split; try done; intros; constructor.
Qed.

(** The acknowledgement that answers a frame. *)
Lemma ack_flight a b inbound n :
  ch_pending_ack inbound = ack_of n -> 0 <= n -> n = zlen (sd_given a) -> Stream b a ->
  forall sent, exists new,
    (match acknowledgement_frame inbound with Some f => send_frame id hand_over sent f false | None => (sent, Good tt) end) = (new ++ sent, Good tt) /\
    Forall (FlightOk a) (flights new (sd_queued a) (sd_queued b)) /\
    (0 < n -> exists p, new = [p] /\ frame_decode p = Good (mkFrame 0 (Some (wrap32 (n - 1))) true [])).
Proof.
  intros Hp Hn -> Hst sent. unfold acknowledgement_frame. rewrite Hp. unfold ack_of. destruct (_ =? 0) eqn:E; bool_prop; cbn.
  - exists []. split; [done|]. split; [constructor|lia].
  - unfold send_frame. set (f := mkFrame _ _ _ _). destruct (frame_round_trip f) as (bytes & Ee & _ & _ & Ed).
    { split; [done|]. cbn. split; [|split; [constructor|done]]. intros x [= <-]. apply wrap32_range. }
    rewrite Ee. exists [bytes]. split; [done|]. split; [|by exists bytes]. constructor; [|constructor]. exists f. split; [done|]. right. exists (zlen (sd_given a)).
    destruct (stream_window _ _ Hst). cbn. repeat split; done || lia.
Qed.

(** The two messages [a] may have sent, as [b] handles them. *)
Lemma receive_data a b i frame :
  Stream a b -> Stream b a -> carries (sd_queued a) i frame -> fr_acknowledgement frame = None -> zlen (sd_given b) - i < HALF ->
  exists n' sent,
    let b' := mkSide (sd_control b <| rel_inbound := (receive (rel_inbound (sd_control b)) frame).1 |>) (sd_queued b) (sd_given b ++ span (sd_queued a) (zlen (sd_given b)) n') in
    forall packet, pk_kind packet = Datagram.Control -> frame_decode (pk_payload packet) = Good frame ->
    rel_receive id hand_over (sd_control b) [] packet = (sd_control b', sent, Good (Some (span (sd_queued a) (zlen (sd_given b)) n'))) /\
    Stream a b' /\ Stream b' a /\ Forall (FlightOk b') (flights sent (sd_queued b) (sd_queued a)) /\
    zlen (sd_given b') = n' /\ zlen (sd_given b) <= n' /\ (zlen (sd_given b) < n' <-> i = zlen (sd_given b)) /\
    (0 < n' -> exists p, list.last sent = Some p /\ frame_decode p = Good (mkFrame 0 (Some (wrap32 (n' - 1))) true [])).
Proof.
  intros Hab Hba Hc Ha Hi. destruct (stream_window _ _ Hab). pose proof Hab as [(base & Hs & Hle) Hw Hm Hq Hr Hg].
  destruct (receive_ok (rel_inbound (sd_control b)) frame (sd_queued a) (zlen (sd_given b)) i) as (n' & c' & Er & Hr' & Hn' & Hiff & _);
    [done|lia|done|done|]. set (b' := mkSide (sd_control b <| rel_inbound := c' |>) (sd_queued b) (sd_given b ++ span (sd_queued a) (zlen (sd_given b)) n')).
  assert (Hgv : sd_given b' = take (Z.to_nat n') (sd_queued a)).
  { cbn. rewrite Hg at 1. replace (length (sd_given b)) with (Z.to_nat (zlen (sd_given b))) by (unfold zlen; lia). apply take_span. split; [apply zlen_nonneg|lia]. }
  assert (Hl : zlen (sd_given b') = n') by (rewrite Hgv; destruct Hr'; zlia).
  assert (Hab' : Stream a b').
  { split; try done; [exists base; split; [done|lia]|by rewrite Hl|]. rewrite Hgv at 1. f_equal. unfold zlen in Hl. lia. }
  assert (Hba' : Stream b' a) by (destruct Hba; by split).
  destruct (ack_flight b' a c' n' (ro_ack _ _ _ Hr') (proj1 (ro_count _ _ _ Hr')) (eq_sym Hl) Hab' []) as (acks & Ea & Hfa & Hp).
  destruct (flush_ok b' a Hba' (acks ++ [])) as (new & Ef & Hfn). exists n', (new ++ acks). cbv zeta. rewrite Er. cbn [fst]. fold b'. intros packet Hk Hd.
  unfold rel_receive. rewrite Hk, Hd, bool_decide_eq_true_2, Ha, Er by done. destruct Hc as (Ho & _). rewrite Ho. cbn [negb].
  change (rel_inbound (set_field rel_inbound (fun _ => c') (sd_control b))) with c'. rewrite Ea.
  change (sd_control b') with (sd_control b <| rel_inbound := c' |>) in Ef. rewrite Ef, app_nil_r. split; [done|]. split; [done|]. split; [done|].
  split; [unfold flights in *; rewrite map_app; apply Forall_app; split; [apply Hfn|done]|].
  split; [done|]. split; [lia|]. split; [done|]. intros Hpos. destruct (Hp Hpos) as (p & -> & Hdp). exists p. by rewrite last_snoc.
Qed.

Lemma receive_ack a b j frame :
  Stream a b -> Stream b a -> fr_ack_only frame = true -> fr_acknowledgement frame = Some (wrap32 (j - 1)) ->
  0 < j <= zlen (sd_given a) -> zlen (sd_queued b) - j <= HALF ->
  exists control sent,
    let b' := mkSide control (sd_queued b) (sd_given b ++ []) in
    forall packet, pk_kind packet = Datagram.Control -> frame_decode (pk_payload packet) = Good frame ->
    rel_receive id hand_over (sd_control b) [] packet = (control, sent, Good (Some [])) /\
    Stream a b' /\ Stream b' a /\ Forall (FlightOk b') (flights sent (sd_queued b) (sd_queued a)) /\
    forall base, SendOk (rel_outbound (sd_control b)) (sd_queued b) base -> SendOk (rel_outbound control) (sd_queued b) (Z.max base j).
Proof.
  intros Hab Hba Ho Ha Hj Hr. destruct (stream_window _ _ Hba). set (outbound := acknowledge (rel_outbound (sd_control b)) (wrap32 (j - 1))).
  set (inbound := acknowledged (rel_inbound (sd_control b)) frame). set (control := mkReliable outbound inbound).
  set (b' := mkSide control (sd_queued b) (sd_given b ++ [])).
  assert (Hack : forall base, SendOk (rel_outbound (sd_control b)) (sd_queued b) base -> SendOk outbound (sd_queued b) (Z.max base j))
    by (intros; apply channel_acknowledge_ok; done || lia).
  assert (Stream b' a) as Hba'.
  { destruct Hba as [(base & Hs & Hle) ? ? ? ? ?]. split; try done. exists (Z.max base j). split; [by apply Hack|lia]. }
  assert (Stream a b') as Hab'. { destruct Hab as [? ? ? ? Hrc ?]. split; cbn; rewrite ?app_nil_r; try done. by apply RecvOk_acknowledged. }
  destruct (flush_ok b' a Hba' []) as (new & Ef & Hfn). exists control, new. cbv zeta. fold b'. intros packet Hk Hd.
  unfold rel_receive. rewrite Hk, Hd, bool_decide_eq_true_2, Ha by done. rewrite receive_ack_only by done. rewrite Ho. cbn [negb].
  change (set_field rel_inbound _ _) with control. change (sd_control b') with control in Ef. rewrite Ef, app_nil_r.
  split; [done|]. split; [done|]. split; [done|]. split; [apply Hfn|done].
Qed.

Lemma acts_ok l l' : LinkOk l -> acts l l' -> LinkOk l'.
Proof.
  intros (Hlr & Hrl & Hfr & Hfl). destruct 1 as [payload control sent r Hb E queued|sent r E|f control sent given Hin [Ho Hoth] E].
  - destruct (send_ok _ _ _ _ _ _ Hlr Hb E) as (Hst & Hi & Hf). fold queued in Hst, Hf. split; [done|]. split; [destruct Hrl; split; cbn; rewrite ?Hi; done|].
    split; [|done]. apply Forall_app. split; [apply Hf|]. apply (flights_grow (ln_left l)); [|cbn; lia|exact Hfr].
    unfold queued. cbn. repeat case_match; try done. by apply prefix_app_r.
  - destruct (retry_ok _ _ Hlr) as (new & En & Hf). rewrite E in En. simplify_eq. split; [done|]. split; [done|]. split; [|done]. apply Forall_app. split; [apply Hf|done].
  - destruct (stream_window _ _ Hrl). assert (FlightOk (ln_right l) f) as (frame & Hd & Hcase) by (rewrite list.Forall_forall in Hfl; by apply Hfl).
    destruct Hcase as [(i & Hc & Ha & Hi)|(j & Hao & Ha & Hj & Hoj)].
    + destruct (receive_data _ _ i frame Hrl Hlr Hc Ha) as (n' & sent' & Hr); [lia|]. destruct (Hr (control_packet (fl_payload f)) eq_refl Hd) as (Er & H1 & H2 & H3 & H4 & H5 & _).
      rewrite E in Er. injection Er as -> -> ->. split; [done|]. split; [done|]. split; [|done]. apply Forall_app. split; [done|].
      apply (flights_grow (ln_left l)); [done|cbn; zlia|exact Hfr].
    + destruct (receive_ack _ _ j frame Hrl Hlr Hao Ha Hj) as (control' & sent' & Hr); [lia|]. destruct (Hr (control_packet (fl_payload f)) eq_refl Hd) as (Er & H1 & H2 & H3 & _).
      rewrite E in Er. injection Er as -> -> ->. split; [done|]. split; [done|]. split; [|done]. apply Forall_app. split; [done|].
      apply (flights_grow (ln_left l)); [done|cbn; zlia|exact Hfr].
Qed.

Lemma link_new_ok : 1 <= w < HALF -> LinkOk (link_new w).
Proof.
  intros Hw. assert (Stream (mkSide (reliable_new w) [] []) (mkSide (reliable_new w) [] [])).
  { split; try done; [|cbn; lia|apply RecvOk_new]. exists 0. split; [apply SendOk_new; lia|done]. }
  done.
Qed.

Lemma reachable_LinkOk l : 1 <= w < HALF -> reachable l -> LinkOk l.
Proof.
  intros Hw. induction 1 as [|l l' _ IH Ha|l l' _ IH Ha]; [by apply link_new_ok|by eapply acts_ok|].
  apply LinkOk_swap. eapply acts_ok; [by apply LinkOk_swap|done].
Qed.

End network.

(** ** Recovery

    An undisturbed exchange: one side's timer fires, the other receives the
    frame, and its acknowledgement comes back. *)

Definition exchange (a b : ReliableControl) : ReliableControl * ReliableControl * list (list Z) :=
  match retry id hand_over a [] with
  | ([p], _) =>
      match rel_receive id hand_over b [] (control_packet p) with
      | (b, answers, Good (Some given)) =>
          match list.last answers with
          | Some answer => let '(a, _, _) := rel_receive id hand_over a [] (control_packet answer) in (a, b, given)
          | None => (a, b, given)
          end
      | (b, _, _) => (a, b, [])
      end
  | _ => (a, b, [])
  end.

Fixpoint exchanges (n : nat) (a b : ReliableControl) : ReliableControl * ReliableControl * list (list Z) :=
  match n with
  | O => (a, b, [])
  | S n => let '(a, b, given) := exchange a b in let '(a, b, more) := exchanges n a b in (a, b, given ++ more)
  end.

Section recovery.
Context (w : Z) (Hw : 1 <= w < HALF).

Lemma exchange_ok a b base :
  Stream w a b -> Stream w b a -> SendOk (rel_outbound (sd_control a)) (sd_queued a) base -> base < zlen (sd_queued a) ->
  exists a' b' given base', exchange (sd_control a) (sd_control b) = (sd_control a', sd_control b', given) /\
    Stream w a' b' /\ Stream w b' a' /\ sd_queued a' = sd_queued a /\ sd_given b' = sd_given b ++ given /\
    SendOk (rel_outbound (sd_control a')) (sd_queued a') base' /\ base < base'.
Proof.
  intros Hab Hba Hs Hlt. destruct (stream_window _ _ _ Hab). pose proof Hab as [(base0 & Hs0 & Hle0) Hmax Hmute Hc Hr Hg].
  assert (base0 = base) as -> by (pose proof (SendOk_size _ _ _ Hs0); pose proof (SendOk_size _ _ _ Hs); lia).
  destruct (flight_data w a base Hs Hc Hmute Hmax true []) as (new & En & Hnew & Hfl). destruct (Hnew Hlt) as [p ->]. specialize (Hfl (sd_queued b)).
  inversion_clear Hfl as [|?? (frame & Hd & Hcase) _]. cbn in Hd, Hcase.
  assert (carries (sd_queued a) base frame /\ fr_acknowledgement frame = None) as [Hcar Hack].
  { rewrite (next_frame_ok _ _ _ Hs) in En. destruct (get (sd_queued a) base) as [q|] eqn:Eq; [|done]. cbn in En. unfold send_frame in En. rewrite Hmute in En.
    destruct (frame_round_trip (mkFrame (wrap32 base) None false q)) as (bytes & Ee & _ & _ & Ed).
    { assert (carried q) as (? & ? & ?) by (eapply Forall_get; eauto). split; [apply wrap32_range|]. done. }
    rewrite Ee in En. injection En as ->. rewrite Ed in Hd. injection Hd as <-. done. }
  destruct (receive_data w a b base frame Hab Hba Hcar Hack) as (n' & sent & Hrd); [destruct Hs; lia|].
  destruct (Hrd (control_packet p) eq_refl Hd) as (Er & H1 & H2 & _ & Hn' & Hle & Hiff & Hlast). set (b' := mkSide _ _ _) in *.
  assert (Hb' : base < n') by lia. destruct (Hlast ltac:(destruct Hs; lia)) as (answer & El & Hda).
  destruct (receive_ack w b' a n' (mkFrame 0 (Some (wrap32 (n' - 1))) true []) H2 H1 eq_refl eq_refl) as (control & sent' & Hra);
    [destruct Hs; lia|destruct Hs; lia|]. destruct (Hra (control_packet answer) eq_refl Hda) as (Er' & H3 & H4 & _ & Hso).
  exists (mkSide control (sd_queued a) (sd_given a ++ [])), b'. eexists. exists (Z.max base n'). unfold exchange, retry, flush_retry. rewrite En. cbn [app]. rewrite Er, El, Er'.
  split; [done|]. split; [done|]. split; [done|]. split; [done|]. split; [done|]. split; [by apply Hso|lia].
Qed.

Lemma exchanges_ok n : forall a b base,
  Stream w a b -> Stream w b a -> SendOk (rel_outbound (sd_control a)) (sd_queued a) base -> zlen (sd_queued a) - base <= Z.of_nat n ->
  exists a' b' given, exchanges n (sd_control a) (sd_control b) = (sd_control a', sd_control b', given) /\
    Stream w a' b' /\ sd_queued a' = sd_queued a /\ sd_given b' = sd_given b ++ given /\
    SendOk (rel_outbound (sd_control a')) (sd_queued a) (zlen (sd_queued a)).
Proof.
  induction n as [|n IH]; intros a b base Hab Hba Hs Hn.
  - exists a, b, []. rewrite app_nil_r. replace base with (zlen (sd_queued a)) in Hs by (destruct Hs; lia). done.
  - destruct (Z.lt_ge_cases base (zlen (sd_queued a))) as [Hlt|Hge].
    + destruct (exchange_ok a b base Hab Hba Hs Hlt) as (a' & b' & given & base' & E & H1 & H2 & Hq & Hg & Hs' & Hb).
      destruct (IH a' b' base' H1 H2 Hs') as (a2 & b2 & more & E2 & H3 & Hq2 & Hg2 & Hs2); [rewrite Hq; lia|].
      exists a2, b2, (given ++ more). cbn [exchanges]. rewrite E, E2, Hg2, Hg, app_assoc. rewrite Hq in *. done.
    + assert (Hx : exchange (sd_control a) (sd_control b) = (sd_control a, sd_control b, [])).
      { unfold exchange, retry, flush_retry. rewrite (next_frame_ok _ _ _ Hs). by rewrite get_none by lia. }
      destruct (IH a b base Hab Hba Hs) as (a2 & b2 & more & E2 & H); [lia|]. exists a2, b2, more. cbn [exchanges]. by rewrite Hx, E2.
Qed.

End recovery.

(** (C12) Control messages arrive in order, exactly once, whatever the network
    does. Two peers, each with a window of [w] messages, queue control messages
    and exchange frames over a network that may lose, delay, reorder and repeat
    them: in every reachable state what each application was given is a prefix
    of what the other queued, nothing that was not yet given has been
    forgotten by its sender, and no more than [w] messages are outstanding. The
    only assumption on the network is that a frame does not arrive more than
    2^31 - w messages late, so that 32-bit sequences stay ordered. *)
Theorem reliable_control_in_order (w : Z) (l : Link) :
  1 <= w < HALF -> reachable w l ->
  sd_given (ln_right l) `prefix_of` sd_queued (ln_left l) /\ sd_given (ln_left l) `prefix_of` sd_queued (ln_right l) /\
  zlen (sd_queued (ln_left l)) - zlen (sd_given (ln_right l)) <= rel_outstanding (sd_control (ln_left l)) <= w.
Proof.
  intros Hw (Hlr & Hrl & _)%reachable_LinkOk; [|done]. destruct (stream_window _ _ _ Hlr).
  pose proof Hlr as [(base & Hs & Hle) Hmax _ _ _ Hg]. destruct Hrl as [_ _ _ _ _ Hg'].
  split; [rewrite Hg; apply prefix_take|]. split; [rewrite Hg'; apply prefix_take|].
  unfold rel_outstanding, outstanding. rewrite (SendOk_size _ _ _ Hs). destruct Hs. lia.
Qed.

(** (C13) Control messages are delivered. From any reachable state, after as many
    undisturbed exchanges as the sender has outstanding messages (its timer
    fires, the frame arrives, the acknowledgement comes back) the other
    application has been given everything queued and nothing is outstanding:
    no state is stuck, and the retry timer alone drives recovery. *)
Theorem reliable_control_delivers (w : Z) (l : Link) :
  1 <= w < HALF -> reachable w l ->
  let a := sd_control (ln_left l) in
  let '(a', _, given) := exchanges (Z.to_nat (rel_outstanding a)) a (sd_control (ln_right l)) in
  sd_given (ln_right l) ++ given = sd_queued (ln_left l) /\ rel_outstanding a' = 0.
Proof.
  intros Hw (Hlr & Hrl & _)%reachable_LinkOk; [|done]. pose proof Hlr as [(base & Hs & Hle) _ _ _ _ _].
  destruct (exchanges_ok w Hw (Z.to_nat (rel_outstanding (sd_control (ln_left l)))) _ _ base Hlr Hrl Hs) as (a' & b' & given & E & Hab & Hq & Hg & Hs').
  { unfold rel_outstanding, outstanding. rewrite (SendOk_size _ _ _ Hs). destruct Hs. lia. }
  cbv zeta. rewrite E, <- Hg. unfold rel_outstanding, outstanding. rewrite (SendOk_size _ _ _ Hs'), Z.sub_diag. split; [|done].
  destruct Hab as [(base' & Hs2 & Hle') _ _ _ Hr Hgv]. rewrite Hq in *. pose proof (SendOk_size _ _ _ Hs2). pose proof (SendOk_size _ _ _ Hs').
  rewrite Hgv. apply take_ge. destruct Hr, Hs2. unfold zlen in *. lia.
Qed.

(** ** A concrete link: one message queued, its frame under way *)

Definition demo_link : Link :=
  let '(control, sent, _) := rel_send id hand_over (reliable_new 4) [] [5; 6] in
  mkLink (mkSide control [[5; 6]] []) (mkSide (reliable_new 4) [] []) (flights sent [[5; 6]] []) [].

Lemma demo_link_reachable : reachable 4 demo_link.
Proof.
  eapply reach_left; [apply reach_new|]. assert (bytes_ok [5; 6]) as Hb by by apply bytes_ok_b.
  exact (act_send 4 (link_new 4) [5; 6] _ _ _ Hb eq_refl).
Qed.

Lemma reliable_control_in_order_witness : (1 <= 4 < HALF) /\ sd_given (ln_right demo_link) `prefix_of` sd_queued (ln_left demo_link) /\
  rel_outstanding (sd_control (ln_left demo_link)) = 1.
Proof.
  split; [done|]. split; [|by vm_compute]. apply (reliable_control_in_order 4 demo_link); [done|apply demo_link_reachable].
Defined.

Lemma reliable_control_delivers_witness :
  (exchanges 1 (sd_control (ln_left demo_link)) (sd_control (ln_right demo_link))).2 = [[5; 6]] /\
  let a := sd_control (ln_left demo_link) in
  let '(a', _, given) := exchanges (Z.to_nat (rel_outstanding a)) a (sd_control (ln_right demo_link)) in
  sd_given (ln_right demo_link) ++ given = sd_queued (ln_left demo_link) /\ rel_outstanding a' = 0.
Proof. split; [by vm_compute|]. apply (reliable_control_delivers 4 demo_link); [done|apply demo_link_reachable]. Defined.
