(* ===== verification/Handshake.v ===== *)
(** * Key exchange and identity ([protocol/src/lib.rs])

    The ephemeral X25519 exchange that gives both peers mirrored traffic keys,
    and the Ed25519 identity that signs its transcript and authenticates a
    device to the control plane. X25519, SHA-256 and Ed25519 come from crates:
    they are the interfaces [Crypto] and their documented behaviour
    [CryptoLaws]. *)

From Stdlib Require Import String.
From S2P Require Import Prelude Fallible Init Datagram.
Open Scope Z_scope.

(** The [i]th argument order is that of the crates: a secret then a point; a
    PKCS#8 document then a message; a public key, a message, a signature. *)
Class Crypto := {
  x25519_public : list Z -> list Z;
  x25519 : list Z -> list Z -> list Z;
  sha256 : list Z -> list Z;
  ed25519_public : list Z -> option (list Z);  (* None: not an Ed25519 PKCS#8 document *)
  ed25519_sign : list Z -> list Z -> list Z;
  ed25519_verify : list Z -> list Z -> list Z -> bool;
}.

Definition ZERO_KEY : list Z := replicate 32 0.

Class CryptoLaws (K : Crypto) : Prop := {
  public_len s : zlen (x25519_public s) = 32;
  x25519_len s p : zlen (x25519 s p) = 32;
  x25519_agree s t : x25519 s (x25519_public t) = x25519 t (x25519_public s);
  x25519_zero s : x25519 s ZERO_KEY = ZERO_KEY;
  sha256_len m : zlen (sha256 m) = 32;
  sha256_bytes m : bytes_ok (sha256 m);
  ed25519_public_len d p : ed25519_public d = Some p -> zlen p = 32;
  ed25519_sign_len d m : zlen (ed25519_sign d m) = 64;
  ed25519_correct d p m : ed25519_public d = Some p -> ed25519_verify p m (ed25519_sign d m) = true;
}.

(** ** Transcripts *)

(** [u32::try_from(len).unwrap_or(u32::MAX).to_be_bytes()] *)
Definition length_prefix (id : list Z) : list Z := be_bytes 4 (default U32_MAX (try_from U32_MAX (zlen id))).

Definition device_auth_transcript (account_id device_id : list Z) (issued_at_ms : Z) (nonce : list Z) : list Z :=
  bytes_of "OpenStream device authentication" ++ [0] ++
  (length_prefix account_id ++ account_id) ++ (length_prefix device_id ++ device_id) ++ be_bytes 8 issued_at_ms ++ nonce.

Definition key_exchange_transcript (session_id : list Z) (role : Z) (ephemeral_public : list Z) : list Z :=
  bytes_of "OpenStream identity handshake v1" ++ [0] ++ length_prefix session_id ++ session_id ++ [role] ++ ephemeral_public.

(** ** The ephemeral exchange *)

Record KeyExchange := mkKeyExchange { kx_secret : list Z; kx_public : list Z }.
Record DirectionalKeys := mkKeys { dk_tx : list Z; dk_rx : list Z }.

(** [<=] on byte arrays is lexicographic. *)
Fixpoint bytes_le (a b : list Z) : bool :=
  match a, b with
  | [], _ => true
  | _ :: _, [] => false
  | x :: a, y :: b => (x <? y) || ((x =? y) && bytes_le a b)
  end.

Definition LG_LABEL : list Z := bytes_of "OpenStream X25519 AES-256-GCM v2 lesser-to-greater" ++ [0].
Definition GL_LABEL : list Z := bytes_of "OpenStream X25519 AES-256-GCM v2 greater-to-lesser" ++ [0].

Inductive IdentityError := GenerationFailed | InvalidKeyMaterial | SigningFailed.

#[export] Instance IdentityError_eq_dec : EqDecision IdentityError.
Proof. solve_decision. Defined.

Record IdentityKey := mkIdentity { ik_pkcs8 : list Z; ik_public : list Z }.

Definition hex_digit (d : Z) : Z := if d <? 10 then 48 + d else 87 + d.

Section with_crypto.
Context `{K : Crypto}.

(** [KeyExchange::generate]; the argument is what [getrandom] returned. *)
Definition generate {E} (random : fallible E (list Z)) : fallible E KeyExchange :=
  (fun secret => mkKeyExchange secret (x25519_public secret)) <$> random.

(** The bytes that [kdf_label] hashes. *)
Definition kdf_input (label shared lesser greater : list Z) : list Z := label ++ [0] ++ shared ++ lesser ++ greater.

Definition kdf_label (label shared lesser greater : list Z) : list Z := sha256 (kdf_input label shared lesser greater).

Definition derive_keys_inner (secret own peer_public : list Z) (session_id : option (list Z)) : fallible DError DirectionalKeys :=
  if bool_decide (peer_public = ZERO_KEY) then Bad WeakPublicKey else
  let shared := x25519 secret peer_public in
  if bool_decide (shared = ZERO_KEY) then Bad WeakPublicKey else
  let '(lesser, greater) := if bytes_le own peer_public then (own, peer_public) else (peer_public, own) in
  let tx_label := LG_LABEL ++ default [] session_id in
  let rx_label := GL_LABEL ++ default [] session_id in
  let key_lg := kdf_label tx_label shared lesser greater in
  let key_gl := kdf_label rx_label shared lesser greater in
  Good (if bytes_le own peer_public then mkKeys key_lg key_gl else mkKeys key_gl key_lg).

Definition derive_keys (k : KeyExchange) (peer_public : list Z) : fallible DError DirectionalKeys :=
  derive_keys_inner (kx_secret k) (kx_public k) peer_public None.

Definition derive_session_keys (k : KeyExchange) (peer_public session_id : list Z) : fallible DError DirectionalKeys :=
  derive_keys_inner (kx_secret k) (kx_public k) peer_public (Some session_id).

Definition fingerprint (public : list Z) : list Z :=
  sha256 (bytes_of "OpenStream X25519 fingerprint v1" ++ [0] ++ public) ≫= fun byte => [hex_digit (byte / 16); hex_digit (byte mod 16)].

(** ** The identity *)

Definition from_pkcs8 (bytes : list Z) : fallible IdentityError IdentityKey :=
  match ed25519_public bytes with
  | None => Bad InvalidKeyMaterial
  | Some public => if negb (zlen public =? 32) then Bad InvalidKeyMaterial else Good (mkIdentity bytes public)
  end.

(** [IdentityKey::generate]; the argument is what [generate_pkcs8] returned. *)
Definition identity_generate (document : option (list Z)) : fallible IdentityError IdentityKey :=
  match document with None => Bad GenerationFailed | Some bytes => from_pkcs8 bytes end.

Definition sign_message (k : IdentityKey) (message : list Z) : fallible IdentityError (list Z) :=
  match ed25519_public (ik_pkcs8 k) with
  | None => Bad InvalidKeyMaterial
  | Some _ =>
      let signature := ed25519_sign (ik_pkcs8 k) message in
      if zlen signature =? 64 then Good signature else Bad SigningFailed
  end.

Definition sign_key_exchange (k : IdentityKey) (session_id : list Z) (role : Z) (ephemeral_public : list Z) : fallible IdentityError (list Z) :=
  sign_message k (key_exchange_transcript session_id role ephemeral_public).

Definition verify_key_exchange (public signature session_id : list Z) (role : Z) (ephemeral_public : list Z) : bool :=
  ed25519_verify public (key_exchange_transcript session_id role ephemeral_public) signature.

Definition sign_device_auth (k : IdentityKey) (account_id device_id : list Z) (issued_at_ms : Z) (nonce : list Z) : fallible IdentityError (list Z) :=
  sign_message k (device_auth_transcript account_id device_id issued_at_ms nonce).

Definition verify_device_auth (public signature account_id device_id : list Z) (issued_at_ms : Z) (nonce : list Z) : bool :=
  ed25519_verify public (device_auth_transcript account_id device_id issued_at_ms nonce) signature.

End with_crypto.

(** ** Byte strings that determine their fields *)

Lemma bytes_le_total a b : bytes_le a b = false -> bytes_le b a = true.
Proof.
  revert b. induction a as [|x a IH]; intros [|y b]; try done. cbn [bytes_le]. intros H. bool_prop. destruct (y <? x) eqn:E; [done|]. bool_prop.
  assert (x = y) as -> by lia. rewrite Z.eqb_refl in *. cbn in *. apply IH. by destruct (bytes_le a b).
Qed.

Lemma bytes_le_antisym a b : bytes_le a b = true -> bytes_le b a = true -> a = b.
Proof.
  revert b. induction a as [|x a IH]; intros [|y b]; try done. cbn [bytes_le]. rewrite !orb_true_iff, !andb_true_iff, !Z.ltb_lt, !Z.eqb_eq.
  intros [?|[-> ?]] [?|[? ?]]; try lia. f_equal. by apply IH.
Qed.

Lemma app_split {A} (a b c d : list A) : zlen a = zlen c -> a ++ b = c ++ d -> a = c /\ b = d.
Proof. intros Hl He. apply app_inj_1 in He; [done|]. unfold zlen in Hl. lia. Qed.

Lemma app_split_r {A} (a b c d : list A) : zlen b = zlen d -> a ++ b = c ++ d -> a = c /\ b = d.
Proof. intros Hl He. apply app_inj_2 in He; [done|]. unfold zlen in Hl. lia. Qed.

Lemma length_prefix_inj id id' x y :
  zlen id <= U32_MAX -> zlen id' <= U32_MAX -> length_prefix id ++ id ++ x = length_prefix id' ++ id' ++ y -> id = id' /\ x = y.
Proof.
  intros H H' E. unfold length_prefix in E. apply app_split in E as [El E]; [|by rewrite !zlen_be_bytes].
  rewrite !try_from_some in El by (split; [apply zlen_nonneg|done]). change (default U32_MAX (Some ?x)) with x in El. apply (f_equal be_val) in El. unfold U32_MAX in *.
  rewrite !be_val_bytes in El by zlia. by apply app_split.
Qed.

Lemma be_bytes_same n u v : 0 <= u < 256 ^ Z.of_nat n -> 0 <= v < 256 ^ Z.of_nat n -> be_bytes n u = be_bytes n v -> u = v.
Proof. intros Hu Hv E. apply (f_equal be_val) in E. by rewrite !be_val_bytes in E. Qed.

Lemma key_exchange_transcript_inj s r e s' r' e' :
  zlen s <= U32_MAX -> zlen s' <= U32_MAX -> key_exchange_transcript s r e = key_exchange_transcript s' r' e' -> s = s' /\ r = r' /\ e = e'.
Proof.
  intros H H' E. unfold key_exchange_transcript in E. apply app_split in E as [_ E]; [|done]. apply app_split in E as [_ E]; [|done].
  apply length_prefix_inj in E as [-> E]; [|done..]. by simplify_eq/=.
Qed.

Lemma device_auth_transcript_inj a d t n a' d' t' n' :
  zlen a <= U32_MAX -> zlen a' <= U32_MAX -> zlen d <= U32_MAX -> zlen d' <= U32_MAX -> is_u64 t -> is_u64 t' ->
  device_auth_transcript a d t n = device_auth_transcript a' d' t' n' -> a = a' /\ d = d' /\ t = t' /\ n = n'.
Proof.
  intros ? ? ? ? Ht Ht' E. unfold device_auth_transcript in E. rewrite <- !app_assoc in E. apply app_split in E as [_ E]; [|done]. apply app_split in E as [_ E]; [|done].
  apply length_prefix_inj in E as [-> E]; [|done..]. apply length_prefix_inj in E as [-> E]; [|done..]. apply app_split in E as [E ->]; [|by rewrite !zlen_be_bytes].
  unfold is_u64, U64_MAX in *. apply be_bytes_same in E; [done|lia|lia].
Qed.

Lemma transcripts_disjoint s r e a d t n : key_exchange_transcript s r e <> device_auth_transcript a d t n.
Proof. intros E. unfold key_exchange_transcript, device_auth_transcript in E. apply app_split in E as [E _]; [|done]. discriminate E. Qed.

(** The label separates the two directions, and the fixed tail the session. *)
Lemma kdf_input_inj label label' id id' s s' l l' g g' :
  In label [LG_LABEL; GL_LABEL] -> In label' [LG_LABEL; GL_LABEL] -> zlen s = 32 -> zlen s' = 32 -> zlen l = 32 -> zlen l' = 32 -> zlen g = 32 -> zlen g' = 32 ->
  kdf_input (label ++ id) s l g = kdf_input (label' ++ id') s' l' g' -> label = label' /\ id = id' /\ s = s' /\ l = l' /\ g = g'.
Proof.
  intros Hl Hl' ? ? ? ? ? ? E. unfold kdf_input in E. apply app_split_r in E as [E E']; [|zlia].
  assert (zlen label = zlen label') by (destruct Hl as [<-|[<-|[]]], Hl' as [<-|[<-|[]]]; reflexivity).
  apply app_split in E as [-> ->]; [|done]. apply app_split in E' as [_ E']; [|done]. apply app_split in E' as [-> E']; [|lia]. by apply app_split in E' as [-> ->]; [|lia].
Qed.

(** ** What the handshake gives *)

Section agreement.
Context `{K : Crypto} `{KL : !CryptoLaws K}.

(** An exchange as [generate] makes it. *)
Definition exchange_of (secret : list Z) : KeyExchange := mkKeyExchange secret (x25519_public secret).

(** The hashed bytes of the two directions between [a] and [b]. *)
Definition lg_input (id a b shared : list Z) : list Z :=
  if bytes_le a b then kdf_input (LG_LABEL ++ id) shared a b else kdf_input (LG_LABEL ++ id) shared b a.
Definition gl_input (id a b shared : list Z) : list Z :=
  if bytes_le a b then kdf_input (GL_LABEL ++ id) shared a b else kdf_input (GL_LABEL ++ id) shared b a.

Lemma input_sym id a b shared : a <> b -> lg_input id a b shared = lg_input id b a shared /\ gl_input id a b shared = gl_input id b a shared.
Proof.
  intros Hn. unfold lg_input, gl_input. destruct (bytes_le a b) eqn:E, (bytes_le b a) eqn:F; try done.
  - by destruct Hn; apply bytes_le_antisym.
  - apply bytes_le_total in E. congruence.
Qed.

Lemma derive_eq s peer id :
  derive_keys_inner s (x25519_public s) peer (Some id) =
    if bool_decide (peer = ZERO_KEY) || bool_decide (x25519 s peer = ZERO_KEY) then Bad WeakPublicKey else
    let lg := sha256 (lg_input id (x25519_public s) peer (x25519 s peer)) in
    let gl := sha256 (gl_input id (x25519_public s) peer (x25519 s peer)) in
    Good (if bytes_le (x25519_public s) peer then mkKeys lg gl else mkKeys gl lg).
Proof.
  unfold derive_keys_inner, lg_input, gl_input, kdf_label. destruct (bool_decide (peer = _)); [done|]. cbn [orb].
  destruct (bool_decide (_ = ZERO_KEY)); [done|]. by destruct (bytes_le _ peer).
Qed.

Lemma derive_mirrored s t id :
  x25519_public s <> x25519_public t ->
  (derive_session_keys (exchange_of s) (x25519_public t) id = Bad WeakPublicKey /\
   derive_session_keys (exchange_of t) (x25519_public s) id = Bad WeakPublicKey) \/
  exists tx rx, derive_session_keys (exchange_of s) (x25519_public t) id = Good (mkKeys tx rx) /\
    derive_session_keys (exchange_of t) (x25519_public s) id = Good (mkKeys rx tx) /\
    exists m m', tx = sha256 m /\ rx = sha256 m' /\ m <> m'.
Proof.
  intros Hn. unfold derive_session_keys. cbn [kx_secret kx_public exchange_of]. rewrite !derive_eq, (x25519_agree t s).
  assert (Hz : forall k, bool_decide (x25519_public k = ZERO_KEY) = true -> forall j, bool_decide (x25519 j (x25519_public k) = ZERO_KEY) = true).
  { intros k Hk j. apply bool_decide_eq_true in Hk. rewrite Hk. apply bool_decide_eq_true, x25519_zero. }
  destruct (bool_decide (x25519 s (x25519_public t) = ZERO_KEY)) eqn:Ez; [left; by rewrite !orb_true_r|right].
  destruct (bool_decide (x25519_public t = ZERO_KEY)) eqn:Et; [by rewrite (Hz _ Et) in Ez|].
  destruct (bool_decide (x25519_public s = ZERO_KEY)) eqn:Es; [rewrite <- (x25519_agree t s) in Ez; by rewrite (Hz _ Es) in Ez|]. cbn [orb].
  set (shared := x25519 s (x25519_public t)). assert (Hs : zlen shared = 32) by apply x25519_len.
  destruct (input_sym id (x25519_public s) (x25519_public t) shared Hn) as [-> ->].
  assert (Hne : lg_input id (x25519_public t) (x25519_public s) shared <> gl_input id (x25519_public t) (x25519_public s) shared).
  { unfold lg_input, gl_input. destruct (bytes_le _ _); intros E%kdf_input_inj; try apply public_len; try done; try (cbn; tauto); by destruct E. }
  destruct (bytes_le (x25519_public s) (x25519_public t)) eqn:E, (bytes_le (x25519_public t) (x25519_public s)) eqn:F.
  - by destruct Hn; apply bytes_le_antisym.
  - eexists _, _. split; [done|]. split; [done|]. eauto.
  - eexists _, _. split; [done|]. split; [done|]. eauto.
  - apply bytes_le_total in E. congruence.
Qed.

End agreement.

(** (C10) The handshake sets up a channel. Two peers with different ephemeral keys
    that exchange their public halves either both refuse (the shared secret is
    weak) or derive mirrored keys, one per direction and hashed from different
    inputs. Sessions made from these keys then deliver: whatever the network
    makes of the order of the datagrams one peer seals, the other returns each
    packet as it was sealed, at most once, and refuses only what was accepted
    before or is 64 or more behind. *)
Theorem handshake_opens_channel `{K : Crypto} `{KL : !CryptoLaws K} `{G : Gcm} `{L : !GcmLaws G} s t id :
  x25519_public s <> x25519_public t ->
  let left := derive_session_keys (exchange_of s) (x25519_public t) id in
  let right := derive_session_keys (exchange_of t) (x25519_public s) id in
  (left = Bad WeakPublicKey /\ right = Bad WeakPublicKey) \/
  exists k k', left = Good k /\ right = Good k' /\ dk_tx k = dk_rx k' /\ dk_rx k = dk_tx k' /\
    (exists m m', dk_tx k = sha256 m /\ dk_rx k = sha256 m' /\ m <> m') /\
    forall (ms : list Outgoing) (picks : list nat), Forall sendable ms -> zlen ms <= U64_MAX ->
    exists datagrams,
      (seal_all (session_new (dk_tx k) (dk_rx k)) ms).2 = map Good datagrams /\ Forall (fun d => zlen d <= MAX_DATAGRAM) datagrams /\
      (open_all (session_new (dk_tx k') (dk_rx k')) (arriving datagrams picks)).2 = taken ms [] picks.
Proof.
  intros Hn left right. destruct (derive_mirrored s t id Hn) as [?|(tx & rx & Hl & Hr & Hm)]; [by left|right]. exists (mkKeys tx rx), (mkKeys rx tx).
  do 5 (split; [done|]). intros ms picks. by apply (sealed_delivery tx rx rx ms picks).
Qed.

(** A signature means one thing. What an identity signs verifies under its
    public key, and the signed bytes determine what was signed: two key-exchange
    transcripts that are equal name the same session, role and ephemeral key,
    two device proofs the same account, device, time and nonce, and no key
    exchange can be mistaken for a device proof or the other way round. *)
Theorem signatures_unambiguous `{K : Crypto} `{KL : !CryptoLaws K} (document : list Z) (k : IdentityKey) :
  from_pkcs8 document = Good k ->
  (forall session role key, exists signature, sign_key_exchange k session role key = Good signature /\
     verify_key_exchange (ik_public k) signature session role key = true) /\
  (forall account device issued nonce, exists signature, sign_device_auth k account device issued nonce = Good signature /\
     verify_device_auth (ik_public k) signature account device issued nonce = true) /\
  (forall s r e s' r' e', zlen s <= U32_MAX -> zlen s' <= U32_MAX ->
     key_exchange_transcript s r e = key_exchange_transcript s' r' e' -> s = s' /\ r = r' /\ e = e') /\
  (forall a d t n a' d' t' n', zlen a <= U32_MAX -> zlen a' <= U32_MAX -> zlen d <= U32_MAX -> zlen d' <= U32_MAX -> is_u64 t -> is_u64 t' ->
     device_auth_transcript a d t n = device_auth_transcript a' d' t' n' -> a = a' /\ d = d' /\ t = t' /\ n = n') /\
  (forall s r e a d t n, key_exchange_transcript s r e <> device_auth_transcript a d t n).
Proof.
  intros Hk. assert (Hp : ed25519_public (ik_pkcs8 k) = Some (ik_public k)).
  { unfold from_pkcs8 in Hk. destruct (ed25519_public document) eqn:E; [|done]. destruct (negb _); [done|]. by injection Hk as <-. }
  assert (Hs : forall m, exists signature, sign_message k m = Good signature /\ ed25519_verify (ik_public k) m signature = true).
  { intros m. unfold sign_message. rewrite Hp, ed25519_sign_len. eexists. split; [done|]. by apply ed25519_correct. }
  split; [intros; apply Hs|]. split; [intros; apply Hs|]. split; [intros; by apply key_exchange_transcript_inj|].
  split; [intros; by eapply device_auth_transcript_inj|apply transcripts_disjoint].
Qed.

(** ** Functions with the laws, and concrete runs *)

Module Toy.

Definition scalar (s : list Z) : Z := default 0 (head s) mod 251.
Definition total (m : list Z) : Z := foldr Z.add 0 m mod 256.

(** Multiplication modulo 251 agrees like Diffie-Hellman does; sums stand for
    digests and signatures. *)
Definition toy_crypto : Crypto := {|
  x25519_public s := replicate 32 (scalar s);
  x25519 s p := replicate 32 ((scalar s * default 0 (head p)) mod 251);
  sha256 m := replicate 31 0 ++ [total m];
  ed25519_public d := if bool_decide (d = []) then None else Some (replicate 32 (total d));
  ed25519_sign d m := replicate 64 ((total d + total m) mod 256);
  ed25519_verify p m g := bool_decide (g = replicate 64 ((default 0 (head p) + total m) mod 256));
|}.

#[global] Instance toy_laws : CryptoLaws toy_crypto.
Proof.
  split; try (intros; reflexivity).
  - intros s t. cbn [x25519 x25519_public toy_crypto]. change (default 0 (head (replicate 32 ?x))) with x. f_equal. f_equal. lia.
  - intros s. cbn [x25519 toy_crypto]. unfold ZERO_KEY. change (default 0 (head (replicate 32 0))) with 0. by rewrite Z.mul_0_r.
  - intros m. cbn [sha256 toy_crypto]. apply (proj2 (bytes_ok_app _ _)). split; [apply bytes_ok_replicate0|]. constructor; [|constructor]. apply Z.mod_pos_bound. lia.
  - intros d p. cbn. case_bool_decide; [done|]. by intros [= <-].
  - intros d p m. cbn [ed25519_public ed25519_verify ed25519_sign toy_crypto]. case_bool_decide; [done|]. intros [= <-]. by apply bool_decide_eq_true_2.
Qed.

End Toy.

Lemma handshake_opens_channel_witness :
  (exists k, derive_session_keys (K := Toy.toy_crypto) (exchange_of (K := Toy.toy_crypto) [3]) (x25519_public (Crypto := Toy.toy_crypto) [5]) [115] = Good k) /\
  exists k k' datagrams,
    derive_session_keys (K := Toy.toy_crypto) (exchange_of (K := Toy.toy_crypto) [3]) (x25519_public (Crypto := Toy.toy_crypto) [5]) [115] = Good k /\
    (seal_all (G := Demo.plain_gcm) (session_new (dk_tx k) (dk_rx k)) [Demo.hello; Demo.frame]).2 = map Good datagrams /\
    (open_all (G := Demo.plain_gcm) (session_new (dk_tx k') (dk_rx k')) (arriving datagrams [1; 0; 1]%nat)).2 =
      [Good (as_packet 1 Demo.frame); Good (as_packet 0 Demo.hello); Bad AuthenticationFailed].
Proof.
  split; [eexists; by vm_compute|].
  destruct (handshake_opens_channel (K := Toy.toy_crypto) (G := Demo.plain_gcm) [3] [5] [115]) as [[H _]|(k & k' & Hl & _ & _ & _ & _ & Hd)];
    [by vm_compute|by vm_compute in H|].
  destruct (Hd [Demo.hello; Demo.frame] [1; 0; 1]%nat) as (ds & Hs & _ & Ho).
  - repeat apply Forall_cons_2; try apply Forall_nil_2; repeat split; try (cbn; lia); try (apply bytes_ok_b; by vm_compute); by vm_compute.
  - by vm_compute.
  - exists k, k', ds. split; [exact Hl|]. split; [exact Hs|]. rewrite Ho. by vm_compute.
Defined.

Lemma signatures_unambiguous_witness :
  exists signature, sign_key_exchange (K := Toy.toy_crypto) (mkIdentity [9] (replicate 32 9)) [115] 1 [1; 2] = Good signature /\
    verify_key_exchange (K := Toy.toy_crypto) (replicate 32 9) signature [115] 1 [1; 2] = true.
Proof.
  destruct (signatures_unambiguous (K := Toy.toy_crypto) [9] (mkIdentity [9] (replicate 32 9))) as [H _]; [by vm_compute|]. apply (H [115] 1 [1; 2]).
Defined.
