(* ===== verification/Records.v ===== *)
(** * Records of the protocol crate ([protocol/src/lib.rs] module [relay],
    [path_control.rs], [transport_meta.rs])

    The registration a peer sends to the optional relay, the path-migration
    records of control channel 255 and the transport acknowledgement of channel
    254, one module each. [Wire] is what the rest of the program relies on: a
    record has one encoding, the decoder accepts nothing else, and a decoded
    record is valid. *)

From S2P Require Import Prelude Stun Fallible Datagram Control.

(** ** The interface *)

Class Wire (T E : Type) := {
  wire_encode : T -> fallible E (list Z);
  wire_decode : list Z -> fallible E T;
  wire_valid : T -> Prop;
}.

Class WireLaws {T E} (W : Wire T E) : Prop := {
  wire_round t : wire_valid t -> exists b, wire_encode t = Good b /\ bytes_ok b /\ zlen b <= MAX_PLAINTEXT /\ wire_decode b = Good t;
  wire_canonical b t : bytes_ok b -> wire_decode b = Good t -> wire_valid t /\ wire_encode t = Good b;
}.

(** ** Relay registration *)

Module Relay.

Definition MAGIC : list Z := [0x4F; 0x52].
Definition VERSION : Z := 1.
Definition REGISTER : Z := 1.
Definition REGISTER_ACK : Z := 2.
Definition UNREGISTER : Z := 3.
Definition UNREGISTER_ACK : Z := 4.
Definition HEADER_LEN : Z := 9.
Definition MAX_SESSION_ID : Z := 128.
Definition MAX_TOKEN : Z := 256.

Inductive Role := Host | Client.

#[export] Instance Role_eq_dec : EqDecision Role.
Proof. solve_decision. Defined.

Inductive RError := Short | BadMagic | UnsupportedVersion | InvalidType | InvalidRole | InvalidLength | InvalidUtf8.

#[export] Instance RError_eq_dec : EqDecision RError.
Proof. solve_decision. Defined.

Definition role_code (r : Role) : Z := match r with Host => 1 | Client => 2 end.

Definition role_decode (value : Z) : fallible RError Role :=
  match value with 1 => Good Host | 2 => Good Client | _ => Bad InvalidRole end.

Record Registration := mkRegistration { rg_role : Role; rg_session_id : list Z; rg_token : list Z }.

Definition encode_record (record_type : Z) (session_id : list Z) (role : Role) (token : list Z) : fallible RError (list Z) :=
  if (zlen session_id =? 0) || (MAX_SESSION_ID <? zlen session_id) || (zlen token =? 0) || (MAX_TOKEN <? zlen token) then Bad InvalidLength else
  match try_from U16_MAX (zlen session_id), try_from U16_MAX (zlen token) with
  | Some session_len, Some token_len =>
      Good (MAGIC ++ [VERSION; record_type; role_code role] ++ be_bytes 2 session_len ++ be_bytes 2 token_len ++ session_id ++ token)
  | _, _ => Bad InvalidLength
  end.

Definition encode_registration (session_id : list Z) (role : Role) (token : list Z) : fallible RError (list Z) :=
  encode_record REGISTER session_id role token.

Definition encode_unregister (session_id : list Z) (role : Role) (token : list Z) : fallible RError (list Z) :=
  encode_record UNREGISTER session_id role token.

Definition decode_record (bytes : list Z) (expected_type : Z) : fallible RError Registration :=
  if zlen bytes <? HEADER_LEN then Bad Short else
  if negb (bool_decide (range bytes 0 2 = MAGIC)) then Bad BadMagic else
  if negb (byte_at bytes 2 =? VERSION) then Bad UnsupportedVersion else
  if negb (byte_at bytes 3 =? expected_type) then Bad InvalidType else
  role ← role_decode (byte_at bytes 4);
  let session_len := be_val [byte_at bytes 5; byte_at bytes 6] in
  let token_len := be_val [byte_at bytes 7; byte_at bytes 8] in
  if (session_len =? 0) || (MAX_SESSION_ID <? session_len) || (token_len =? 0) || (MAX_TOKEN <? token_len) ||
     negb (bool_decide ((checked_add64 HEADER_LEN session_len ≫= fun length => checked_add64 length token_len) = Some (zlen bytes)))
  then Bad InvalidLength else
  let token_start := HEADER_LEN + session_len in
  let session_id := range bytes HEADER_LEN token_start in
  let token := range bytes token_start (zlen bytes) in
  if negb (utf8 session_id) then Bad InvalidUtf8 else
  if negb (utf8 token) then Bad InvalidUtf8 else
  Good (mkRegistration role session_id token).

Definition decode_registration (bytes : list Z) : fallible RError Registration := decode_record bytes REGISTER.
Definition decode_unregister (bytes : list Z) : fallible RError Registration := decode_record bytes UNREGISTER.

Definition encode_ack (role : Role) : list Z := MAGIC ++ [VERSION; REGISTER_ACK; role_code role].
Definition is_ack (bytes : list Z) (role : Role) : bool := bool_decide (bytes = encode_ack role).
Definition encode_unregister_ack (role : Role) : list Z := MAGIC ++ [VERSION; UNREGISTER_ACK; role_code role].
Definition is_unregister_ack (bytes : list Z) (role : Role) : bool := bool_decide (bytes = encode_unregister_ack role).

(** A string is well-formed UTF-8. *)
Definition valid (r : Registration) : Prop :=
  1 <= zlen (rg_session_id r) <= MAX_SESSION_ID /\ 1 <= zlen (rg_token r) <= MAX_TOKEN /\
  bytes_ok (rg_session_id r) /\ bytes_ok (rg_token r) /\ utf8 (rg_session_id r) = true /\ utf8 (rg_token r) = true.

End Relay.

(** ** Path control *)

Module PathControl.

Definition VERSION : Z := 1.
Definition MAX_PATH_CONTROL_BYTES : Z := 64.
Definition PATH_TOKEN_BYTES : Z := 16.
Definition PATH_CONTROL_CHANNEL : Z := 255.
Definition HEADER_LEN : Z := 4.
Definition REQUEST_LEN : Z := HEADER_LEN + 4.
Definition PREPARE_LEN : Z := HEADER_LEN + 8 + PATH_TOKEN_BYTES.
Definition TOKEN_RECORD_LEN : Z := HEADER_LEN + 8 + PATH_TOKEN_BYTES.
Definition READY_LEN : Z := TOKEN_RECORD_LEN + 2.
Definition ABORT_LEN : Z := HEADER_LEN + 8.

Definition REQUEST : Z := 1.
Definition PREPARE : Z := 2.
Definition PROBE : Z := 3.
Definition PROBE_ACK : Z := 4.
Definition READY : Z := 5.
Definition COMMIT : Z := 6.
Definition COMMIT_ACK : Z := 7.
Definition ABORT : Z := 8.

Inductive PathKind := DirectUdp | OpaqueRelay | Ice.
Inductive AbortReason := Unsupported | Timeout | CandidateUnavailable | ProbeFailed | PmtuUnavailable | ResourceLimit | CommitUnconfirmed.

#[export] Instance PathKind_eq_dec : EqDecision PathKind.
Proof. solve_decision. Defined.
#[export] Instance AbortReason_eq_dec : EqDecision AbortReason.
Proof. solve_decision. Defined.

Inductive PathControl :=
  | Request (request_id : Z) (kind : PathKind)
  | Prepare (generation : Z) (kind : PathKind) (token : list Z)
  | Probe (generation : Z) (token : list Z)
  | ProbeAck (generation : Z) (token : list Z)
  | Ready (generation : Z) (token : list Z) (datagram_size : Z)
  | Commit (generation : Z) (token : list Z)
  | CommitAck (generation : Z) (token : list Z)
  | Abort (generation : Z) (reason : AbortReason).

#[export] Instance PathControl_eq_dec : EqDecision PathControl.
Proof. solve_decision. Defined.

Inductive PError :=
  | TooLarge
  | Truncated (expected actual : Z)
  | InvalidLength (expected actual : Z)
  | UnsupportedVersion (version : Z)
  | UnknownRecordType (record_type : Z)
  | ReservedBits (bits : Z)
  | InvalidPathKind (kind : Z)
  | InvalidAbortReason (reason : Z)
  | ZeroGeneration
  | ZeroToken
  | InvalidDatagramSize (size : Z).

#[export] Instance PError_eq_dec : EqDecision PError.
Proof. solve_decision. Defined.

Definition path_kind_code (kind : PathKind) : Z := match kind with DirectUdp => 1 | OpaqueRelay => 2 | Ice => 3 end.

Definition decode_path_kind (kind : Z) : fallible PError PathKind :=
  match kind with 1 => Good DirectUdp | 2 => Good OpaqueRelay | 3 => Good Ice | _ => Bad (InvalidPathKind kind) end.

Definition abort_reason_code (reason : AbortReason) : Z :=
  match reason with
  | Unsupported => 1 | Timeout => 2 | CandidateUnavailable => 3 | ProbeFailed => 4
  | PmtuUnavailable => 5 | ResourceLimit => 6 | CommitUnconfirmed => 7
  end.

Definition decode_abort_reason (reason : Z) : fallible PError AbortReason :=
  match reason with
  | 1 => Good Unsupported | 2 => Good Timeout | 3 => Good CandidateUnavailable | 4 => Good ProbeFailed
  | 5 => Good PmtuUnavailable | 6 => Good ResourceLimit | 7 => Good CommitUnconfirmed
  | _ => Bad (InvalidAbortReason reason)
  end.

Definition header (record_type field : Z) : list Z := [VERSION; record_type; field; 0].

Definition all_zero (token : list Z) : bool := forallb (fun byte => byte =? 0) token.

Definition validate_generation_and_token (generation : Z) (token : list Z) : fallible PError () :=
  if generation =? 0 then Bad ZeroGeneration else
  if all_zero token then Bad ZeroToken else Good tt.

Definition append_generation_and_token (out : list Z) (generation : Z) (token : list Z) : list Z := out ++ be_bytes 8 generation ++ token.

Definition encode_token_record (record_type generation : Z) (token : list Z) : fallible PError (list Z) :=
  _ ← validate_generation_and_token generation token;
  Good (append_generation_and_token (header record_type 0) generation token).

Definition encode (r : PathControl) : fallible PError (list Z) :=
  match r with
  | Request request_id kind => Good (header REQUEST (path_kind_code kind) ++ be_bytes 4 request_id)
  | Prepare generation kind token =>
      _ ← validate_generation_and_token generation token;
      Good (append_generation_and_token (header PREPARE (path_kind_code kind)) generation token)
  | Probe generation token => encode_token_record PROBE generation token
  | ProbeAck generation token => encode_token_record PROBE_ACK generation token
  | Ready generation token datagram_size =>
      _ ← validate_generation_and_token generation token;
      if datagram_size =? 0 then Bad (InvalidDatagramSize datagram_size) else
      Good (append_generation_and_token (header READY 0) generation token ++ be_bytes 2 datagram_size)
  | Commit generation token => encode_token_record COMMIT generation token
  | CommitAck generation token => encode_token_record COMMIT_ACK generation token
  | Abort generation reason =>
      if generation =? 0 then Bad ZeroGeneration else
      Good (header ABORT (abort_reason_code reason) ++ be_bytes 8 generation)
  end.

Definition require_at_least (bytes : list Z) (expected : Z) : fallible PError () :=
  if zlen bytes <? expected then Bad (Truncated expected (zlen bytes)) else Good tt.

Definition require_exact (bytes : list Z) (expected : Z) : fallible PError () :=
  if zlen bytes <? expected then Bad (Truncated expected (zlen bytes)) else
  if negb (zlen bytes =? expected) then Bad (InvalidLength expected (zlen bytes)) else Good tt.

Definition require_zero_field (field : Z) : fallible PError () :=
  if negb (field =? 0) then Bad (ReservedBits field) else Good tt.

Definition decode_generation (bytes : list Z) : fallible PError Z :=
  let generation := be_val (range bytes 4 12) in
  if generation =? 0 then Bad ZeroGeneration else Good generation.

Definition decode_generation_and_token (bytes : list Z) : fallible PError (Z * list Z) :=
  generation ← decode_generation bytes;
  let token := range bytes 12 28 in
  if all_zero token then Bad ZeroToken else Good (generation, token).

Definition decode_token_record (bytes : list Z) (field : Z) (build : Z -> list Z -> PathControl) : fallible PError PathControl :=
  _ ← require_exact bytes TOKEN_RECORD_LEN;
  _ ← require_zero_field field;
  '(generation, token) ← decode_generation_and_token bytes;
  Good (build generation token).

Definition decode (bytes : list Z) : fallible PError PathControl :=
  if MAX_PATH_CONTROL_BYTES <? zlen bytes then Bad TooLarge else
  _ ← require_at_least bytes HEADER_LEN;
  if negb (byte_at bytes 0 =? VERSION) then Bad (UnsupportedVersion (byte_at bytes 0)) else
  let record_type := byte_at bytes 1 in
  let field := byte_at bytes 2 in
  if negb (byte_at bytes 3 =? 0) then Bad (ReservedBits (byte_at bytes 3)) else
  if record_type =? REQUEST then
    _ ← require_exact bytes REQUEST_LEN;
    kind ← decode_path_kind field;
    Good (Request (be_val (range bytes 4 8)) kind)
  else if record_type =? PREPARE then
    _ ← require_exact bytes PREPARE_LEN;
    '(generation, token) ← decode_generation_and_token bytes;
    kind ← decode_path_kind field;
    Good (Prepare generation kind token)
  else if record_type =? PROBE then decode_token_record bytes field Probe
  else if record_type =? PROBE_ACK then decode_token_record bytes field ProbeAck
  else if record_type =? READY then
    _ ← require_exact bytes READY_LEN;
    _ ← require_zero_field field;
    '(generation, token) ← decode_generation_and_token bytes;
    let datagram_size := be_val (range bytes 28 30) in
    if datagram_size =? 0 then Bad (InvalidDatagramSize datagram_size) else
    Good (Ready generation token datagram_size)
  else if record_type =? COMMIT then decode_token_record bytes field Commit
  else if record_type =? COMMIT_ACK then decode_token_record bytes field CommitAck
  else if record_type =? ABORT then
    _ ← require_exact bytes ABORT_LEN;
    generation ← decode_generation bytes;
    reason ← decode_abort_reason field;
    Good (Abort generation reason)
  else Bad (UnknownRecordType record_type).

(** A generation is not zero, a token is sixteen bytes and not all zero. *)
Definition generation_ok (g : Z) : Prop := 0 < g <= U64_MAX.
Definition token_ok (t : list Z) : Prop := zlen t = 16 /\ bytes_ok t /\ all_zero t = false.

Definition valid (r : PathControl) : Prop :=
  match r with
  | Request request_id _ => is_u32 request_id
  | Prepare g _ t | Probe g t | ProbeAck g t | Commit g t | CommitAck g t => generation_ok g /\ token_ok t
  | Ready g t size => generation_ok g /\ token_ok t /\ 0 < size < 65536
  | Abort g _ => generation_ok g
  end.

End PathControl.

(** ** Transport acknowledgement *)

Module TransportMeta.

Definition TRANSPORT_META_CHANNEL : Z := 254.
Definition MAX_ACK_DELAY_US : Z := 25000.
Definition ACK_BITMAP_BITS : Z := 64.
Definition VERSION : Z := 1.
Definition ACK_RECORD_TYPE : Z := 1.
Definition RESERVED_OFFSET : Z := 2.
Definition GENERATION_OFFSET : Z := 4.
Definition LARGEST_COUNTER_OFFSET : Z := 12.
Definition RECEIVED_MASK_OFFSET : Z := 20.
Definition ACK_DELAY_OFFSET : Z := 28.
Definition RECORD_LEN : Z := 32.

Record TransportAck := mkTransportAck {
  ta_generation : Z;
  ta_largest_counter : Z;
  ta_received_mask : Z;
  ta_ack_delay_us : Z;
}.

#[export] Instance TransportAck_eq_dec : EqDecision TransportAck.
Proof. solve_decision. Defined.

Inductive TransportMetaError :=
  | InvalidLength (expected actual : Z)
  | UnsupportedVersion (version : Z)
  | UnsupportedRecordType (record_type : Z)
  | ReservedBytes
  | LargestNotAcknowledged
  | CounterUnderflow
  | AckDelayTooLarge (delay : Z).

#[export] Instance TransportMetaError_eq_dec : EqDecision TransportMetaError.
Proof. solve_decision. Defined.

(** The fields and the two reserved bytes tile the record. *)
Definition encode (a : TransportAck) : fallible TransportMetaError (list Z) :=
  if Z.land (ta_received_mask a) 1 =? 0 then Bad LargestNotAcknowledged else
  if MAX_ACK_DELAY_US <? ta_ack_delay_us a then Bad (AckDelayTooLarge (ta_ack_delay_us a)) else
  Good ([VERSION; ACK_RECORD_TYPE; 0; 0] ++ be_bytes 8 (ta_generation a) ++ be_bytes 8 (ta_largest_counter a) ++
        be_bytes 8 (ta_received_mask a) ++ be_bytes 4 (ta_ack_delay_us a)).

(** A bit of the mask stands for a counter below zero. *)
Definition underflows (mask largest : Z) : bool :=
  existsb (fun bit => negb (Z.land mask (Z.shiftl 1 bit) =? 0) && (largest <? bit)) (seqZ 1 (ACK_BITMAP_BITS - 1)).

Definition decode (bytes : list Z) : fallible TransportMetaError TransportAck :=
  if negb (zlen bytes =? RECORD_LEN) then Bad (InvalidLength RECORD_LEN (zlen bytes)) else
  if negb (byte_at bytes 0 =? VERSION) then Bad (UnsupportedVersion (byte_at bytes 0)) else
  if negb (byte_at bytes 1 =? ACK_RECORD_TYPE) then Bad (UnsupportedRecordType (byte_at bytes 1)) else
  if negb (byte_at bytes RESERVED_OFFSET =? 0) || negb (byte_at bytes (RESERVED_OFFSET + 1) =? 0) then Bad ReservedBytes else
  let generation := be_val (range bytes GENERATION_OFFSET LARGEST_COUNTER_OFFSET) in
  let largest_counter := be_val (range bytes LARGEST_COUNTER_OFFSET RECEIVED_MASK_OFFSET) in
  let received_mask := be_val (range bytes RECEIVED_MASK_OFFSET ACK_DELAY_OFFSET) in
  if Z.land received_mask 1 =? 0 then Bad LargestNotAcknowledged else
  let ack_delay_us := be_val (range bytes ACK_DELAY_OFFSET RECORD_LEN) in
  if MAX_ACK_DELAY_US <? ack_delay_us then Bad (AckDelayTooLarge ack_delay_us) else
  if underflows received_mask largest_counter then Bad CounterUnderflow else
  Good (mkTransportAck generation largest_counter received_mask ack_delay_us).

(** The largest counter is acknowledged, and every acknowledged counter is one:
    [largest - bit] for a set [bit] is not negative. *)
Definition valid (a : TransportAck) : Prop :=
  is_u64 (ta_generation a) /\ is_u64 (ta_largest_counter a) /\ is_u64 (ta_received_mask a) /\ 0 <= ta_ack_delay_us a <= MAX_ACK_DELAY_US /\
  Z.testbit (ta_received_mask a) 0 = true /\
  forall bit, 1 <= bit < ACK_BITMAP_BITS -> Z.testbit (ta_received_mask a) bit = true -> bit <= ta_largest_counter a.

End TransportMeta.

(** ** The laws *)

#[export] Instance relay_wire : Wire Relay.Registration Relay.RError := {|
  wire_encode r := Relay.encode_registration (Relay.rg_session_id r) (Relay.rg_role r) (Relay.rg_token r);
  wire_decode := Relay.decode_registration;
  wire_valid := Relay.valid;
|}.

#[export] Instance path_wire : Wire PathControl.PathControl PathControl.PError := {|
  wire_encode := PathControl.encode;
  wire_decode := PathControl.decode;
  wire_valid := PathControl.valid;
|}.

#[export] Instance meta_wire : Wire TransportMeta.TransportAck TransportMeta.TransportMetaError := {|
  wire_encode := TransportMeta.encode;
  wire_decode := TransportMeta.decode;
  wire_valid := TransportMeta.valid;
|}.

Section path_laws.
Import PathControl.

Lemma path_kind_round k : decode_path_kind (path_kind_code k) = Good k.
Proof. by destruct k. Qed.

Lemma abort_reason_round r : decode_abort_reason (abort_reason_code r) = Good r.
Proof. by destruct r. Qed.

Lemma decode_path_kind_inv z k : decode_path_kind z = Good k -> z = path_kind_code k.
Proof. unfold decode_path_kind. repeat case_match; intros; simplify_eq; done. Qed.

Lemma decode_abort_reason_inv z r : decode_abort_reason z = Good r -> z = abort_reason_code r.
Proof. unfold decode_abort_reason. repeat case_match; intros; simplify_eq; done. Qed.

Lemma require_exact_good b n : zlen b = n -> require_exact b n = Good tt.
Proof. intros <-. unfold require_exact. by rewrite Z.ltb_irrefl, Z.eqb_refl. Qed.

Lemma require_exact_inv b n u : require_exact b n = Good u -> zlen b = n.
Proof. unfold require_exact. destruct (_ <? _); [done|]. destruct (zlen b =? n) eqn:E; [|done]. by bool_prop. Qed.

Lemma validate_ok g t : generation_ok g -> token_ok t -> validate_generation_and_token g t = Good tt.
Proof. intros Hg (_ & _ & Ht). unfold validate_generation_and_token. rewrite Ht. rewrite (proj2 (Z.eqb_neq _ _)) by (unfold generation_ok in Hg; lia). done. Qed.

Lemma decode_generation_at h g rest :
  zlen h = 4 -> generation_ok g -> decode_generation (h ++ be_bytes 8 g ++ rest) = Good g.
Proof.
  intros Hh Hg. unfold decode_generation. unfold generation_ok, U64_MAX in Hg. rewrite (range_at _ h (be_bytes 8 g) rest), be_val_bytes by (done || zlia).
  by rewrite (proj2 (Z.eqb_neq _ _)) by lia.
Qed.

Lemma decode_token_at h g t rest :
  zlen h = 4 -> generation_ok g -> token_ok t -> decode_generation_and_token (h ++ be_bytes 8 g ++ t ++ rest) = Good (g, t).
Proof.
  intros Hh Hg (Hl & Hb & Hz). unfold decode_generation_and_token. rewrite decode_generation_at by done. cbn [mbind fallible_bind].
  rewrite (range_at _ (h ++ be_bytes 8 g) t rest) by (by rewrite <- ?app_assoc || zlia). by rewrite Hz.
Qed.

Lemma decode_token_end h g t : zlen h = 4 -> generation_ok g -> token_ok t -> decode_generation_and_token (h ++ be_bytes 8 g ++ t) = Good (g, t).
Proof. intros. rewrite <- (decode_token_at h g t []) by done. by rewrite app_nil_r. Qed.

(** The four bytes before the fields. *)
Lemma decode_header ty f rest :
  zlen rest <= 60 -> let b := header ty f ++ rest in
  byte_at b 0 = VERSION /\ byte_at b 1 = ty /\ byte_at b 2 = f /\ byte_at b 3 = 0 /\ (MAX_PATH_CONTROL_BYTES <? zlen b) = false /\ require_at_least b HEADER_LEN = Good tt.
Proof.
  intros Hr b. do 4 (split; [reflexivity|]). unfold require_at_least, MAX_PATH_CONTROL_BYTES, HEADER_LEN.
  assert (zlen b = 4 + zlen rest) as -> by (unfold b, header; zlia). pose proof (zlen_nonneg rest). rewrite !(proj2 (Z.ltb_ge _ _)) by lia. done.
Qed.

Lemma header_bytes ty f rest : is_u8 ty -> is_u8 f -> bytes_ok rest -> bytes_ok (header ty f ++ rest).
Proof. intros. apply bytes_ok_app. split; [|done]. repeat apply Forall_cons_2; try apply Forall_nil_2; done. Qed.

Lemma path_kind_u8 k : is_u8 (path_kind_code k).
Proof. by destruct k. Qed.

Lemma abort_reason_u8 r : is_u8 (abort_reason_code r).
Proof. by destruct r. Qed.

(** A record that is a header and fields, as the decoder sees it. *)
Ltac decode_at ty f rest :=
  destruct (decode_header ty f rest) as (E0 & E1 & E2 & E3 & E4 & E5); [zlia|];
  unfold decode; rewrite E4, E5, E0, E1, E2, E3; cbn [mbind fallible_bind negb];
  repeat match goal with
  | |- context [?a =? ?b] =>
      let v := eval vm_compute in (a =? b) in
      match v with true => change (a =? b) with true | false => change (a =? b) with false end; cbn [negb]
  end.

Lemma token_record_round ty (build : Z -> list Z -> PathControl) g t :
  generation_ok g -> token_ok t -> is_u8 ty ->
  let b := header ty 0 ++ be_bytes 8 g ++ t in
  encode_token_record ty g t = Good b /\ bytes_ok b /\ zlen b = 28 /\ decode_token_record b 0 build = Good (build g t).
Proof.
  intros Hg Ht Hty b. destruct (Ht) as (Hl & Hb & Hz). unfold encode_token_record. rewrite validate_ok by done.
  assert (zlen b = 28) as Hlen by (unfold b, header; zlia). split; [done|].
  split; [apply header_bytes; [done|done|]; apply bytes_ok_app; split; [apply be_bytes_ok|done]|]. split; [done|].
  unfold decode_token_record. rewrite require_exact_good by done. cbn [mbind fallible_bind require_zero_field negb Z.eqb].
  unfold b. by rewrite decode_token_end by done.
Qed.

Lemma path_round r : valid r -> exists b, encode r = Good b /\ bytes_ok b /\ zlen b <= MAX_PLAINTEXT /\ decode b = Good r.
Proof.
  assert (Hm : forall b : list Z, zlen b <= 64 -> zlen b <= MAX_PLAINTEXT) by (intros; change MAX_PLAINTEXT with 1168; lia).
  assert (Htok : forall ty (build : Z -> list Z -> PathControl), is_u8 ty -> (forall g t, encode (build g t) = encode_token_record ty g t) ->
    (forall rest, zlen rest <= 60 -> decode (header ty 0 ++ rest) = decode_token_record (header ty 0 ++ rest) 0 build) ->
    forall g t, generation_ok g /\ token_ok t -> exists b, encode (build g t) = Good b /\ bytes_ok b /\ zlen b <= MAX_PLAINTEXT /\ decode b = Good (build g t)).
  { intros ty build Hty He Hd g t [Hg Ht]. destruct (token_record_round ty build g t Hg Ht Hty) as (H1 & H2 & H3 & H4).
    eexists. rewrite He. split; [exact H1|]. split; [done|]. split; [apply Hm; lia|]. rewrite Hd; [done|]. destruct Ht. zlia. }
  destruct r as [id k|g k t|g t|g t|g t size|g t|g t|g reason]; cbn [valid].
  - intros Hid. eexists. split; [done|]. split; [apply header_bytes; [done|apply path_kind_u8|apply be_bytes_ok]|]. split; [by apply Hm|].
    decode_at REQUEST (path_kind_code k) (be_bytes 4 id). rewrite require_exact_good by done. cbn [mbind fallible_bind]. rewrite path_kind_round. cbn [mbind fallible_bind].
    rewrite (range_at _ (header REQUEST (path_kind_code k)) (be_bytes 4 id) []) by (by rewrite ?app_nil_r || done). by rewrite be_val_bytes.
  - intros [Hg Ht]. destruct (Ht) as (Hl & Hb & Hz). cbn [encode]. rewrite validate_ok by done. eexists. split; [done|].
    unfold append_generation_and_token. split; [apply header_bytes; [done|apply path_kind_u8|]; apply bytes_ok_app; split; [apply be_bytes_ok|done]|].
    assert (zlen (header PREPARE (path_kind_code k) ++ be_bytes 8 g ++ t) = 28) as Hlen by (unfold header; zlia). split; [apply Hm; lia|].
    decode_at PREPARE (path_kind_code k) (be_bytes 8 g ++ t). rewrite require_exact_good by done. cbn [mbind fallible_bind].
    rewrite decode_token_end by done. cbn [mbind fallible_bind]. by rewrite path_kind_round.
  - apply (Htok PROBE); [done|done|]. intros rest Hr. by decode_at PROBE 0 rest.
  - apply (Htok PROBE_ACK); [done|done|]. intros rest Hr. by decode_at PROBE_ACK 0 rest.
  - intros (Hg & Ht & Hsz). destruct (Ht) as (Hl & Hb & Hz). cbn [encode]. rewrite validate_ok by done. cbn [mbind fallible_bind].
    rewrite (proj2 (Z.eqb_neq _ _)) by lia. eexists. split; [done|]. unfold append_generation_and_token. rewrite <- !app_assoc.
    split; [apply header_bytes; [done|done|]; rewrite !bytes_ok_app; split; [apply be_bytes_ok|split; [done|apply be_bytes_ok]]|].
    assert (zlen (header READY 0 ++ be_bytes 8 g ++ t ++ be_bytes 2 size) = 30) as Hlen by (unfold header; zlia). split; [apply Hm; lia|].
    decode_at READY 0 (be_bytes 8 g ++ t ++ be_bytes 2 size). rewrite require_exact_good by done. cbn [mbind fallible_bind require_zero_field negb Z.eqb].
    rewrite decode_token_at by done. cbn [mbind fallible_bind].
    rewrite (range_at _ (header READY 0 ++ be_bytes 8 g ++ t) (be_bytes 2 size) []), be_val_bytes by (rewrite ?app_nil_r, <- ?app_assoc; done || (unfold header; zlia)).
    by rewrite (proj2 (Z.eqb_neq _ _)) by lia.
  - apply (Htok COMMIT); [done|done|]. intros rest Hr. by decode_at COMMIT 0 rest.
  - apply (Htok COMMIT_ACK); [done|done|]. intros rest Hr. by decode_at COMMIT_ACK 0 rest.
  - intros Hg. cbn [encode]. rewrite (proj2 (Z.eqb_neq _ _)) by (unfold generation_ok in Hg; lia). eexists. split; [done|].
    split; [apply header_bytes; [done|apply abort_reason_u8|apply be_bytes_ok]|]. split; [by apply Hm|].
    decode_at ABORT (abort_reason_code reason) (be_bytes 8 g). rewrite require_exact_good by done. cbn [mbind fallible_bind].
    rewrite <- (app_nil_r (be_bytes 8 g)), decode_generation_at by done. cbn [mbind fallible_bind]. by rewrite abort_reason_round.
Qed.

Lemma record_header_split b : 4 <= zlen b -> byte_at b 0 = VERSION -> byte_at b 3 = 0 -> b = header (byte_at b 1) (byte_at b 2) ++ range b 4 (zlen b).
Proof.
  intros Hl H0 H3. rewrite <- (range_all b) at 1. rewrite (range_split b 0 1 (zlen b)), (range_split b 1 2 (zlen b)), (range_split b 2 3 (zlen b)), (range_split b 3 4 (zlen b)) by lia.
  rewrite !range_byte by lia. by rewrite H0, H3.
Qed.

Lemma decode_generation_inv b g :
  bytes_ok b -> 12 <= zlen b -> decode_generation b = Good g -> generation_ok g /\ range b 4 12 = be_bytes 8 g.
Proof.
  intros Hb Hl. unfold decode_generation. destruct (_ =? 0) eqn:E; [done|]. intros [= <-]. bool_prop.
  pose proof (be_val_range_lt 8 b 4 12 Hb). rewrite (be_bytes_range 8 b) by (done || lia). split; [|done]. unfold generation_ok, U64_MAX. lia.
Qed.

Lemma decode_token_inv b g t :
  bytes_ok b -> 28 <= zlen b -> decode_generation_and_token b = Good (g, t) ->
  generation_ok g /\ token_ok t /\ range b 4 28 = be_bytes 8 g ++ t.
Proof.
  intros Hb Hl H. unfold decode_generation_and_token in H. apply bind_good in H as (g' & Hg & H). destruct (all_zero _) eqn:Ez; [done|]. injection H as <- <-.
  destruct (decode_generation_inv b g' Hb) as [Hgo Hr]; [lia|done|]. split; [done|]. split; [split; [by rewrite zlen_range by lia|split; [by apply range_ok|done]]|].
  by rewrite (range_split b 4 12 28), Hr by lia.
Qed.

Lemma token_record_canonical b ty build r :
  bytes_ok b -> byte_at b 0 = VERSION -> byte_at b 1 = ty -> byte_at b 3 = 0 ->
  decode_token_record b (byte_at b 2) build = Good r -> exists g t, r = build g t /\ generation_ok g /\ token_ok t /\ encode_token_record ty g t = Good b.
Proof.
  intros Hb H0 <- H3 H. unfold decode_token_record in H. apply bind_good in H as (u & Hl%require_exact_inv & H). apply bind_good in H as (u' & Hz & H).
  change TOKEN_RECORD_LEN with 28 in Hl. apply bind_good in H as ([g t] & Ht & H). injection H as <-. unfold require_zero_field in Hz. destruct (byte_at b 2 =? 0) eqn:E2; [|done]. bool_prop.
  destruct (decode_token_inv b g t Hb) as (Hg & Hto & Hr); [lia|done|]. exists g, t. split; [done|]. split; [done|]. split; [done|].
  unfold encode_token_record. rewrite validate_ok by done. cbn. unfold append_generation_and_token. f_equal. symmetry.
  rewrite (record_header_split b) at 1 by (done || lia). by rewrite Hl, Hr, E2.
Qed.

Lemma path_canonical b r : bytes_ok b -> decode b = Good r -> valid r /\ encode r = Good b.
Proof.
  intros Hb H. unfold decode in H. destruct (_ <? _); [done|]. apply bind_good in H as (u & Hl & H). unfold require_at_least in Hl. destruct (zlen b <? _) eqn:El; [done|]. change HEADER_LEN with 4 in El.
  destruct (byte_at b 0 =? VERSION) eqn:E0; [|done]. destruct (byte_at b 3 =? 0) eqn:E3; [|done]. bool_prop. cbn [negb] in H. pose proof (record_header_split b El E0 E3) as Hs.
  assert (Htok : forall ty build, byte_at b 1 = ty -> (forall g t, valid (build g t) <-> generation_ok g /\ token_ok t) ->
    (forall g t, encode (build g t) = encode_token_record ty g t) -> decode_token_record b (byte_at b 2) build = Good r -> valid r /\ encode r = Good b).
  { intros ty build Hty Hv He Hd. destruct (token_record_canonical b ty build r Hb E0 Hty E3 Hd) as (g & t & -> & Hg & Ht & Hen). split; [by apply Hv|by rewrite He]. }
  destruct (_ =? REQUEST) eqn:E1; bool_prop.
  { apply bind_good in H as (u' & Hx%require_exact_inv & H). change REQUEST_LEN with 8 in Hx. apply bind_good in H as (k & Hk%decode_path_kind_inv & H). injection H as <-.
    pose proof (be_val_range_lt 4 b 4 8 Hb). cbn [valid encode]. split; [unfold is_u32, M32; lia|]. rewrite be_bytes_range by (done || lia). rewrite <- Hk, <- E1, <- Hx. by rewrite <- Hs. }
  destruct (_ =? PREPARE) eqn:E1'; bool_prop.
  { apply bind_good in H as (u' & Hx%require_exact_inv & H). change PREPARE_LEN with 28 in Hx. apply bind_good in H as ([g t] & Ht & H). apply bind_good in H as (k & Hk%decode_path_kind_inv & H). injection H as <-.
    destruct (decode_token_inv b g t Hb) as (Hg & Hto & Hr); [lia|done|]. cbn [valid encode]. split; [done|]. rewrite validate_ok by done. cbn [mbind fallible_bind].
    unfold append_generation_and_token. rewrite <- Hk, <- E1', <- Hr, <- Hx. by rewrite <- Hs. }
  destruct (_ =? PROBE) eqn:E2; bool_prop; [by apply (Htok PROBE Probe)|]. destruct (_ =? PROBE_ACK) eqn:E4; bool_prop; [by apply (Htok PROBE_ACK ProbeAck)|].
  destruct (_ =? READY) eqn:E5; bool_prop.
  { apply bind_good in H as (u' & Hx%require_exact_inv & H). change READY_LEN with 30 in Hx. apply bind_good in H as (u'' & Hz & H). unfold require_zero_field in Hz. destruct (byte_at b 2 =? 0) eqn:E6; [|done]. bool_prop.
    apply bind_good in H as ([g t] & Ht & H). destruct (be_val _ =? 0) eqn:E7; [done|]. injection H as <-. bool_prop. destruct (decode_token_inv b g t Hb) as (Hg & Hto & Hr); [lia|done|].
    pose proof (be_val_range_lt 2 b 28 30 Hb). cbn [valid encode]. split; [split; [done|split; [done|lia]]|]. rewrite validate_ok by done. cbn [mbind fallible_bind]. rewrite (proj2 (Z.eqb_neq _ _)) by done.
    unfold append_generation_and_token. rewrite be_bytes_range, <- Hr, <- E5, <- E6, <- app_assoc, <- range_split, <- Hx by (done || lia). by rewrite <- Hs. }
  destruct (_ =? COMMIT) eqn:E6; bool_prop; [by apply (Htok COMMIT Commit)|]. destruct (_ =? COMMIT_ACK) eqn:E7; bool_prop; [by apply (Htok COMMIT_ACK CommitAck)|].
  destruct (_ =? ABORT) eqn:E8; bool_prop; [|done].
  apply bind_good in H as (u' & Hx%require_exact_inv & H). change ABORT_LEN with 12 in Hx. apply bind_good in H as (g & Hg & H). apply bind_good in H as (k & Hk%decode_abort_reason_inv & H). injection H as <-.
  destruct (decode_generation_inv b g Hb) as (Hgo & Hr); [lia|done|]. cbn [valid encode]. split; [done|]. rewrite (proj2 (Z.eqb_neq _ _)) by (unfold generation_ok in Hgo; lia).
  rewrite <- Hk, <- E8, <- Hr, <- Hx. by rewrite <- Hs.
Qed.

#[export] Instance path_wire_laws : WireLaws path_wire.
Proof. split; [apply path_round|apply path_canonical]. Qed.

End path_laws.

Section relay_laws.
Import Relay.

Lemma role_round r : role_decode (role_code r) = Good r.
Proof. by destruct r. Qed.

Lemma role_decode_inv z r : role_decode z = Good r -> z = role_code r.
Proof. unfold role_decode. repeat case_match; intros; simplify_eq; done. Qed.

(** The nine bytes before the two strings. *)
Definition relay_head (ty : Z) (role : Role) (n m : Z) : list Z := MAGIC ++ [VERSION; ty; role_code role] ++ be_bytes 2 n ++ be_bytes 2 m.

Lemma be_pair n : is_u16 n -> be_val [n / 256 mod 256; n mod 256] = n.
Proof. intros Hn. apply (be_val_bytes 2 n). done. Qed.

Lemma be_pair_inv x y : is_u8 x -> is_u8 y -> be_bytes 2 (be_val [x; y]) = [x; y].
Proof. intros. apply be_bytes_val; [|done]. by repeat apply Forall_cons_2. Qed.

Lemma relay_fields ty role n m rest : is_u16 n -> is_u16 m ->
  let b := relay_head ty role n m ++ rest in
  range b 0 2 = MAGIC /\ byte_at b 2 = VERSION /\ byte_at b 3 = ty /\ byte_at b 4 = role_code role /\
  be_val [byte_at b 5; byte_at b 6] = n /\ be_val [byte_at b 7; byte_at b 8] = m.
Proof.
  intros Hn Hm b. split; [by apply (range_at _ [] MAGIC ([VERSION; ty; role_code role] ++ be_bytes 2 n ++ be_bytes 2 m ++ rest))|].
  do 3 (split; [reflexivity|]). split; [apply (be_pair n Hn)|apply (be_pair m Hm)].
Qed.

Lemma relay_round_trip ty r : is_u8 ty -> valid r ->
  exists b, encode_record ty (rg_session_id r) (rg_role r) (rg_token r) = Good b /\ bytes_ok b /\ zlen b <= MAX_PLAINTEXT /\
    decode_record b ty = Good r /\ forall ty', ty' <> ty -> decode_record b ty' = Bad InvalidType.
Proof.
  destruct r as [role s t]. unfold valid. cbn [rg_session_id rg_token rg_role]. intros Hty (Hs & Ht & Hsb & Htb & Hsu & Htu). unfold encode_record, MAX_SESSION_ID, MAX_TOKEN in *.
  rewrite !(proj2 (Z.eqb_neq _ _)), !(proj2 (Z.ltb_ge _ _)) by lia. rewrite !try_from_some by (unfold U16_MAX; lia). cbn [orb].
  eexists. split; [done|]. destruct (relay_fields ty role (zlen s) (zlen t) (s ++ t)) as (E1 & E2 & E3 & E4 & E5 & E6); [unfold is_u16; lia..|].
  unfold relay_head in *. rewrite <- !app_assoc in E1, E2, E3, E4, E5, E6. set (b := MAGIC ++ _) in *.
  assert (Hlen : zlen b = 9 + zlen s + zlen t) by (unfold b, MAGIC; zlia).
  split; [unfold b; rewrite !bytes_ok_app; split; [by apply bytes_ok_b|]; split; [by destruct role; repeat apply Forall_cons_2|]; repeat split; done || apply be_bytes_ok|].
  split; [change MAX_PLAINTEXT with 1168; lia|]. unfold decode_record, HEADER_LEN, MAX_SESSION_ID, MAX_TOKEN. rewrite E1, E2, E3, E4, E5, E6, role_round.
  rewrite (proj2 (Z.ltb_ge (zlen b) 9)) by lia. rewrite bool_decide_eq_true_2 by done. rewrite (Z.eqb_refl VERSION). cbn [negb]. split; [|intros ty' Hne; by rewrite (proj2 (Z.eqb_neq ty ty')) by done].
  rewrite (Z.eqb_refl ty). cbn [negb mbind fallible_bind]. rewrite !(proj2 (Z.eqb_neq _ _)), !(proj2 (Z.ltb_ge _ _)) by lia. cbn [orb].
  rewrite checked_add64_some by (unfold U64_MAX; lia). cbn [mbind option_bind]. rewrite checked_add64_some, Hlen, bool_decide_eq_true_2 by (done || (unfold U64_MAX; lia)). cbn [negb].
  rewrite (range_at b (MAGIC ++ [VERSION; ty; role_code role] ++ be_bytes 2 (zlen s) ++ be_bytes 2 (zlen t)) s t) by (by rewrite <- !app_assoc || done || zlia).
  rewrite (range_at b (MAGIC ++ [VERSION; ty; role_code role] ++ be_bytes 2 (zlen s) ++ be_bytes 2 (zlen t) ++ s) t []) by (by rewrite ?app_nil_r, <- ?app_assoc || (unfold MAGIC; zlia)).
  by rewrite Hsu, Htu.
Qed.

Lemma relay_canonical ty b r : bytes_ok b -> decode_record b ty = Good r ->
  valid r /\ encode_record ty (rg_session_id r) (rg_role r) (rg_token r) = Good b.
Proof.
  intros Hb H. unfold decode_record in H. destruct (zlen b <? HEADER_LEN) eqn:El; [done|]. change HEADER_LEN with 9 in El. bool_prop. destruct (bool_decide _) eqn:E0; [|done]. apply bool_decide_eq_true in E0.
  destruct (byte_at b 2 =? VERSION) eqn:E2; [|done]. destruct (byte_at b 3 =? ty) eqn:E3; [|done]. cbn [negb] in H. bool_prop.
  apply bind_good in H as (role & E4%role_decode_inv & H). destruct (_ || _) eqn:Eg; [done|]. destruct (utf8 (range b HEADER_LEN _)) eqn:U1; [|done]. destruct (utf8 (range b _ (zlen b))) eqn:U2; [|done].
  cbn [negb] in H. injection H as <-. change HEADER_LEN with 9 in *. unfold MAX_SESSION_ID, MAX_TOKEN in *. bool_prop.
  pose proof (be_pair_inv _ _ (byte_at_ok b 5 Hb) (byte_at_ok b 6 Hb)) as B1. pose proof (be_pair_inv _ _ (byte_at_ok b 7 Hb) (byte_at_ok b 8 Hb)) as B2.
  set (n := be_val [byte_at b 5; byte_at b 6]) in *. set (m := be_val [byte_at b 7; byte_at b 8]) in *.
  assert (0 <= n < 65536 /\ 0 <= m < 65536) as [Hn Hm] by (split; apply (be_val_range [_; _]); repeat apply Forall_cons_2; try apply Forall_nil_2; by apply byte_at_ok).
  assert (Hlen : zlen b = 9 + n + m).
  { assert (bool_decide ((checked_add64 9 n ≫= fun l => checked_add64 l m) = Some (zlen b)) = true) as Hd by (destruct (bool_decide _); [done|naive_solver]).
    apply bool_decide_eq_true in Hd. rewrite checked_add64_some in Hd by (unfold U64_MAX; lia). cbn [mbind option_bind] in Hd. rewrite checked_add64_some in Hd by (unfold U64_MAX; lia). by injection Hd. }
  assert (n <> 0 /\ n <= 128 /\ m <> 0 /\ m <= 256) as (? & ? & ? & ?) by done.
  split.
  { unfold valid, MAX_SESSION_ID, MAX_TOKEN. cbn [rg_session_id rg_token]. rewrite !zlen_range by lia. split; [lia|]. split; [lia|]. split; [by apply range_ok|]. by split; [apply range_ok|]. }
  cbn [rg_session_id rg_role rg_token]. unfold encode_record, MAX_SESSION_ID, MAX_TOKEN.
  rewrite !zlen_range by lia. replace (9 + n - 9) with n by lia. replace (zlen b - (9 + n)) with m by lia. rewrite !(proj2 (Z.eqb_neq _ _)), !(proj2 (Z.ltb_ge _ _)) by lia. cbn [orb].
  rewrite !try_from_some by (unfold U16_MAX; lia). f_equal. rewrite B1, B2, <- E0, <- E2, <- E3, <- E4. rewrite <- range_split by lia. etrans; [|apply (range_all b)].
  rewrite (range_split b 0 2 (zlen b)), (range_split b 2 3 (zlen b)), (range_split b 3 4 (zlen b)), (range_split b 4 5 (zlen b)), (range_split b 5 6 (zlen b)), (range_split b 6 7 (zlen b)), (range_split b 7 8 (zlen b)), (range_split b 8 9 (zlen b)) by lia.
  by rewrite (range_byte b 2), (range_byte b 3), (range_byte b 4), (range_byte b 5), (range_byte b 6), (range_byte b 7), (range_byte b 8) by lia.
Qed.

#[export] Instance relay_wire_laws : WireLaws relay_wire.
Proof.
  split; [|intros b r; apply relay_canonical]. intros r Hr. destruct (relay_round_trip REGISTER r) as (b & H1 & H2 & H3 & H4 & _); [done|done|]. by exists b.
Qed.

End relay_laws.

Section meta_laws.
Import TransportMeta.

Lemma land_one m : (Z.land m 1 =? 0) = negb (Z.testbit m 0).
Proof. apply (land_bit m 0). lia. Qed.

Lemma underflows_spec mask largest :
  underflows mask largest = false <-> forall bit, 1 <= bit < ACK_BITMAP_BITS -> Z.testbit mask bit = true -> bit <= largest.
Proof.
  unfold underflows, ACK_BITMAP_BITS. rewrite <- not_true_iff_false, existsb_exists. setoid_rewrite <- list_elem_of_In. setoid_rewrite elem_of_seqZ. split.
  - intros Hn bit Hb Ht. destruct (Z.le_gt_cases bit largest); [done|]. destruct Hn. exists bit. split; [lia|]. rewrite land_bit, Ht by lia. cbn. lia.
  - intros Hf (bit & Hb & Ht). rewrite land_bit, negb_involutive in Ht by lia. bool_prop. assert (bit <= largest) by (apply Hf; [lia|done]). lia.
Qed.

Lemma meta_fields g l m d :
  is_u64 g -> is_u64 l -> is_u64 m -> is_u32 d ->
  let b := [VERSION; ACK_RECORD_TYPE; 0; 0] ++ be_bytes 8 g ++ be_bytes 8 l ++ be_bytes 8 m ++ be_bytes 4 d in
  be_val (range b 4 12) = g /\ be_val (range b 12 20) = l /\ be_val (range b 20 28) = m /\ be_val (range b 28 32) = d.
Proof.
  intros Hg Hl Hm Hd b. unfold is_u64, is_u32, U64_MAX, M32 in Hg, Hl, Hm, Hd. set (h := [VERSION; ACK_RECORD_TYPE; 0; 0]).
  rewrite (range_at b h (be_bytes 8 g) (be_bytes 8 l ++ be_bytes 8 m ++ be_bytes 4 d)) by done.
  rewrite (range_at b (h ++ be_bytes 8 g) (be_bytes 8 l) (be_bytes 8 m ++ be_bytes 4 d)) by done.
  rewrite (range_at b (h ++ be_bytes 8 g ++ be_bytes 8 l) (be_bytes 8 m) (be_bytes 4 d)) by done.
  rewrite (range_at b (h ++ be_bytes 8 g ++ be_bytes 8 l ++ be_bytes 8 m) (be_bytes 4 d) []) by (by rewrite ?app_nil_r).
  rewrite !be_val_bytes by lia. done.
Qed.

(** Encoding and decoding any acknowledgement the encoder accepts: the decoder
    refuses it exactly when a bit stands for a negative counter. *)
Lemma meta_transfer a :
  is_u64 (ta_generation a) -> is_u64 (ta_largest_counter a) -> is_u64 (ta_received_mask a) -> 0 <= ta_ack_delay_us a <= MAX_ACK_DELAY_US ->
  Z.testbit (ta_received_mask a) 0 = true ->
  exists b, encode a = Good b /\ bytes_ok b /\ zlen b = 32 /\
    decode b = if underflows (ta_received_mask a) (ta_largest_counter a) then Bad CounterUnderflow else Good a.
Proof.
  destruct a as [g l m d]. cbn [ta_generation ta_largest_counter ta_received_mask ta_ack_delay_us]. intros Hg Hl Hm Hd Ht. unfold encode.
  cbn [ta_generation ta_largest_counter ta_received_mask ta_ack_delay_us]. unfold MAX_ACK_DELAY_US in *. rewrite land_one, Ht, (proj2 (Z.ltb_ge _ _)) by lia. cbn [negb].
  eexists. split; [done|]. destruct (meta_fields g l m d Hg Hl Hm) as (E1 & E2 & E3 & E4); [unfold is_u32, M32; lia|]. set (b := _ ++ _) in *.
  split; [unfold b; rewrite !bytes_ok_app; split; [by apply bytes_ok_b|]; repeat split; apply be_bytes_ok|]. split; [unfold b; zlia|].
  unfold decode, GENERATION_OFFSET, LARGEST_COUNTER_OFFSET, RECEIVED_MASK_OFFSET, ACK_DELAY_OFFSET, RECORD_LEN, MAX_ACK_DELAY_US.
  assert (zlen b = 32) as -> by (unfold b; zlia). rewrite E1, E2, E3, E4, land_one, Ht, (proj2 (Z.ltb_ge _ _)) by lia. done.
Qed.

Lemma meta_canonical b a : bytes_ok b -> decode b = Good a -> valid a /\ encode a = Good b.
Proof.
  intros Hb H. unfold decode in H. change (RESERVED_OFFSET + 1) with 3 in H.
  unfold RECORD_LEN, GENERATION_OFFSET, LARGEST_COUNTER_OFFSET, RECEIVED_MASK_OFFSET, ACK_DELAY_OFFSET, RESERVED_OFFSET in H.
  destruct (zlen b =? 32) eqn:El; [|done]. destruct (byte_at b 0 =? _) eqn:E0; [|done]. destruct (byte_at b 1 =? _) eqn:E1; [|done]. cbn [negb] in H.
  destruct (byte_at b 2 =? 0) eqn:E2; [|done]. destruct (byte_at b 3 =? 0) eqn:E3; [|done]. cbn [negb orb] in H. destruct (Z.land _ 1 =? 0) eqn:Em; [done|].
  destruct (_ <? _) eqn:Ed; [done|]. destruct (underflows _ _) eqn:Eu; [done|]. injection H as <-. bool_prop.
  pose proof (be_val_range_lt 8 b 4 12 Hb). pose proof (be_val_range_lt 8 b 12 20 Hb). pose proof (be_val_range_lt 8 b 20 28 Hb). pose proof (be_val_range_lt 4 b 28 32 Hb).
  pose proof (land_one (be_val (range b 20 28))) as Hlo. rewrite (proj2 (Z.eqb_neq _ _)) in Hlo by done. symmetry in Hlo. apply negb_false_iff in Hlo.
  split.
  - unfold valid, is_u64, U64_MAX. cbn. split; [lia|]. split; [lia|]. split; [lia|]. split; [lia|]. split; [done|]. by apply underflows_spec.
  - unfold encode. cbn [ta_generation ta_largest_counter ta_received_mask ta_ack_delay_us]. rewrite land_one, Hlo, (proj2 (Z.ltb_ge _ _)) by done. cbn [negb]. f_equal.
    rewrite !be_bytes_range by (done || lia). rewrite <- !range_split by lia. etrans; [|apply (range_all b)]. rewrite El.
    rewrite (range_split b 0 1 32), (range_split b 1 2 32), (range_split b 2 3 32), (range_split b 3 4 32) by lia.
    rewrite (range_byte b 0), (range_byte b 1), (range_byte b 2), (range_byte b 3) by lia. by rewrite E0, E1, E2, E3.
Qed.

#[export] Instance meta_wire_laws : WireLaws meta_wire.
Proof.
  split; [|apply meta_canonical]. intros a (Hg & Hl & Hm & Hd & H0 & Hu). destruct (meta_transfer a Hg Hl Hm Hd H0) as (b & E1 & E2 & E3 & E4).
  exists b. apply underflows_spec in Hu. rewrite Hu in E4. split; [done|]. split; [done|]. split; [rewrite E3; by vm_compute|done].
Qed.

End meta_laws.

(** ** What every format guarantees *)

(** Every valid record has an encoding that fits a datagram, and the decoder
    returns a record exactly for the encoding of that record. *)
Definition Exact {T E} (encode : T -> fallible E (list Z)) (decode : list Z -> fallible E T) (valid : T -> Prop) : Prop :=
  (forall r, valid r -> exists b, encode r = Good b /\ bytes_ok b /\ zlen b <= MAX_PLAINTEXT) /\
  (forall r b, bytes_ok b -> decode b = Good r <-> valid r /\ encode r = Good b).

Lemma wire_exact {T E} (W : Wire T E) `{L : !WireLaws W} : Exact (@wire_encode _ _ W) (@wire_decode _ _ W) (@wire_valid _ _ W).
Proof.
  split; [intros r (b & ? & ? & ? & _)%wire_round; eauto|]. intros r b Hb. split; [by apply wire_canonical|]. intros [Hv He].
  destruct (wire_round r Hv) as (b' & He' & _ & _ & Hd). rewrite He in He'. by injection He' as <-.
Qed.

(** (C37) The records have one encoding each. Relay registrations, path-migration
    records and transport acknowledgements: every valid record encodes into a
    payload that fits one datagram, and the decoder accepts a byte string
    exactly when it is the encoding of a valid record, returning that record; so
    nothing truncated, extended or with a reserved bit set is accepted, and
    generations, tokens, sizes and counters that are decoded are legal. A relay
    registration is never taken for an unregister request. Ordered control
    frames round-trip too and decode only to frames a channel can act on. *)
Theorem protocol_records_exact :
  Exact (fun r => Relay.encode_registration (Relay.rg_session_id r) (Relay.rg_role r) (Relay.rg_token r)) Relay.decode_registration Relay.valid /\
  Exact PathControl.encode PathControl.decode PathControl.valid /\
  Exact TransportMeta.encode TransportMeta.decode TransportMeta.valid /\
  (forall r, Relay.valid r -> exists b, Relay.encode_registration (Relay.rg_session_id r) (Relay.rg_role r) (Relay.rg_token r) = Good b /\
     Relay.decode_unregister b = Bad Relay.InvalidType) /\
  (forall f, frame_valid f -> exists b, frame_encode f = Good b /\ frame_decode b = Good f) /\
  (forall b f, bytes_ok b -> frame_decode b = Good f -> frame_valid f).
Proof.
  split; [apply (wire_exact relay_wire)|]. split; [apply (wire_exact path_wire)|]. split; [apply (wire_exact meta_wire)|].
  split; [|split; [|apply frame_decode_valid]].
  - intros r Hr. destruct (relay_round_trip Relay.REGISTER r) as (b & He & _ & _ & _ & Hd); [done|done|]. exists b. split; [done|]. by apply Hd.
  - intros f Hf. destruct (frame_round_trip f Hf) as (b & ? & _ & _ & ?). by exists b.
Qed.

(** An acknowledgement whose mask reaches below counter zero is encoded and then
    refused: the encoder does not make the check the decoder makes. *)
Lemma encoder_accepts_underflow :
  exists a b, TransportMeta.encode a = Good b /\ TransportMeta.decode b = Bad TransportMeta.CounterUnderflow.
Proof.
  exists (TransportMeta.mkTransportAck 1 0 3 0). destruct (meta_transfer (TransportMeta.mkTransportAck 1 0 3 0)) as (b & He & _ & _ & Hd); try done. exists b. split; [done|]. by rewrite Hd.
Qed.
