(* ===== verification/Migration.v ===== *)
(** * Path migration ([client-core/src/path.rs], [MigrationController])

    Host and client each run this clock-driven controller: the host prepares a
    replacement path, both probe it, and a commit handshake makes it the active
    one. The controller returns the actions its owner performs; opening sockets
    and sending records are the owner's. [Pair] puts a host and a client
    controller on a network that may lose, delay and repeat the records. *)

From S2P Require Import Prelude Fallible Records.
Import PathControl.

(** Instants and durations are nanoseconds. *)
Definition MIN_DRAIN_GRACE : Z := 250000000.
Definition MAX_DRAIN_GRACE : Z := 2000000000.
Definition COMMIT_RETRY : Z := 250000000.
Definition MIGRATION_DEADLINE : Z := 5000000000.
Definition FIRST_PATH_GENERATION : Z := 1.
Definition MAX_DATAGRAM : Z := 1200.
Definition ZERO_TOKEN : list Z := replicate 16 0.

Inductive Role := Host | Client.
Inductive MigrationTarget := ToDirectUdp | ToOpaqueRelay | ToIce.
Inductive MigrationState := Idle | Preparing | ReadyState | CommitPending | Active | CommitUnconfirmedState | Failed.
Inductive PathMigrationError :=
  | CapabilityNotNegotiated | MigrationAlreadyPending | HostMigrationRequired
  | UnsupportedIceRestart | CommitUnconfirmedError | PathUnavailable.

#[export] Instance Role_eq_dec : EqDecision Role.
Proof. solve_decision. Defined.
#[export] Instance MigrationTarget_eq_dec : EqDecision MigrationTarget.
Proof. solve_decision. Defined.
#[export] Instance MigrationState_eq_dec : EqDecision MigrationState.
Proof. solve_decision. Defined.

Definition from_kind (kind : PathKind) : MigrationTarget :=
  match kind with DirectUdp => ToDirectUdp | OpaqueRelay => ToOpaqueRelay | Ice => ToIce end.

Definition wire_kind (target : MigrationTarget) : PathKind :=
  match target with ToDirectUdp => DirectUdp | ToOpaqueRelay => OpaqueRelay | ToIce => Ice end.

Definition safe_datagram_size : Z := MAX_DATAGRAM.

(** [Duration] saturates at [u64::MAX] seconds. *)
Definition DURATION_MAX : Z := U64_MAX * 1000000000 + 999999999.

Definition drain_grace (rtt : option Z) : Z :=
  Z.min (Z.max (Z.min DURATION_MAX (default 0 rtt * 3)) MIN_DRAIN_GRACE) MAX_DRAIN_GRACE.

(** A path slot is its generation. *)
Inductive MigrationAction :=
  | Send (slot : Z) (record : PathControl)
  | Open (generation : Z) (target : MigrationTarget) (token : list Z)
  | Activate (generation : Z)
  | Retire
  | Discard.

Record PendingMigration := mkPending {
  pm_generation : Z;
  pm_token : list Z;
  pm_target : MigrationTarget;
  pm_deadline : Z;
  pm_opened : bool;
  pm_proved : bool;
  pm_peer_ready : bool;
  pm_next_retry : Z;
}.

#[export] Instance PendingMigration_eta : Eta PendingMigration := fun p =>
  mkPending (pm_generation p) (pm_token p) (pm_target p) (pm_deadline p) (pm_opened p) (pm_proved p) (pm_peer_ready p) (pm_next_retry p).

Record MigrationController := mkController {
  mc_role : Role;
  mc_state : MigrationState;
  mc_active_generation : Z;
  mc_pending : option PendingMigration;
  mc_committed : option (Z * list Z);
  mc_draining : option (Z * Z);
  mc_old_failed : bool;
  mc_last_request : option Z;
  mc_old_rtt : option Z;
}.

#[export] Instance MigrationController_eta : Eta MigrationController := fun m =>
  mkController (mc_role m) (mc_state m) (mc_active_generation m) (mc_pending m) (mc_committed m) (mc_draining m)
               (mc_old_failed m) (mc_last_request m) (mc_old_rtt m).

Definition is_some {A} (o : option A) : bool := match o with Some _ => true | None => false end.

Definition drain_deadline (m : MigrationController) : option Z := snd <$> mc_draining m.

Definition busy (m : MigrationController) : bool :=
  is_some (mc_pending m) || is_some (mc_draining m) || bool_decide (mc_state m = CommitUnconfirmedState).

Definition controller_new (role : Role) : MigrationController :=
  mkController role Idle FIRST_PATH_GENERATION None None None false None None.

Definition prepare (m : MigrationController) (generation : Z) (target : MigrationTarget) (token : list Z) (now : Z) :
    MigrationController * list MigrationAction :=
  (m <| mc_pending := Some (mkPending generation token target (now + MIGRATION_DEADLINE) false false false (now + COMMIT_RETRY)) |>
     <| mc_state := Preparing |> <| mc_old_failed := false |>,
   [Open generation target token]).

Definition start (m : MigrationController) (target : MigrationTarget) (token : list Z) (now : Z) :
    MigrationController * fallible PathMigrationError (list MigrationAction) :=
  if is_some (mc_pending m) || is_some (mc_draining m) || bool_decide (mc_state m = CommitUnconfirmedState)
  then (m, Bad MigrationAlreadyPending) else
  if negb (bool_decide (mc_role m = Host)) then (m, Bad HostMigrationRequired) else
  if bool_decide (target = ToIce) then (m, Bad UnsupportedIceRestart) else
  match checked_add64 (mc_active_generation m) 1 with
  | None => (m, Bad PathUnavailable)
  | Some generation =>
      let actions := [Send (mc_active_generation m) (Prepare generation (wire_kind target) token)] in
      let '(m, more) := prepare m generation target token now in (m, Good (actions ++ more))
  end.

Definition application_slot (m : MigrationController) : fallible PathMigrationError Z :=
  match mc_state m with
  | CommitPending => Bad MigrationAlreadyPending
  | CommitUnconfirmedState => Bad CommitUnconfirmedError
  | _ => Good (mc_active_generation m)
  end.

Definition accepts_application (m : MigrationController) (slot now : Z) : bool :=
  (slot =? mc_active_generation m) ||
  match mc_draining m with Some (old, until) => (slot =? old) && (now <? until) | None => false end.

Definition opened (m : MigrationController) (now : Z) : MigrationController * list MigrationAction :=
  match mc_pending m with
  | None => (m, [])
  | Some p =>
      (m <| mc_pending := Some (p <| pm_opened := true |> <| pm_next_retry := now + COMMIT_RETRY |>) |>,
       [Send (pm_generation p) (Probe (pm_generation p) (pm_token p))])
  end.

(** [activate]: the caller has checked that a migration is pending. *)
Definition activate (m : MigrationController) (p : PendingMigration) (now : Z) : MigrationController * list MigrationAction :=
  (m <| mc_pending := None |>
     <| mc_draining := Some (mc_active_generation m, now + drain_grace (mc_old_rtt m)) |>
     <| mc_active_generation := pm_generation p |>
     <| mc_committed := Some (pm_generation p, pm_token p) |>
     <| mc_state := Active |>,
   [Activate (pm_generation p)]).

(** The generation and token of the records of an attempt. *)
Definition attempt_of (record : PathControl) : option (Z * list Z) :=
  match record with
  | Probe g t | ProbeAck g t | Ready g t _ | Commit g t | CommitAck g t => Some (g, t)
  | _ => None
  end.

(** The host's last check of [receive]: both sides proved the path. *)
Definition try_commit (m : MigrationController) (p : PendingMigration) (now : Z) (actions : list MigrationAction) :
    MigrationController * list MigrationAction :=
  if bool_decide (mc_role m = Host) && pm_proved p && pm_peer_ready p && bool_decide (mc_state m = ReadyState) then
    (m <| mc_state := CommitPending |> <| mc_pending := Some (p <| pm_next_retry := now + COMMIT_RETRY |>) |>,
     actions ++ [Send (if mc_old_failed m then pm_generation p else mc_active_generation m) (Commit (pm_generation p) (pm_token p))])
  else (m <| mc_pending := Some p |>, actions).

(** The records of the current attempt. *)
Definition receive_attempt (m : MigrationController) (p : PendingMigration) (ingress : Z) (record : PathControl) (now : Z) :
    MigrationController * list MigrationAction :=
  let generation := pm_generation p in
  let token := pm_token p in
  let new := generation in
  let old := mc_active_generation m in
  match record with
  | Probe _ _ =>
      if pm_opened p && (ingress =? new) then try_commit m p now [Send new (ProbeAck generation token)] else try_commit m p now []
  | ProbeAck _ _ =>
      if pm_opened p && (ingress =? new) && negb (pm_proved p) then
        try_commit (m <| mc_state := ReadyState |>) (p <| pm_proved := true |>) now [Send old (Ready generation token safe_datagram_size)]
      else try_commit m p now []
  | Ready _ _ datagram_size =>
      if (ingress =? old) && (datagram_size =? safe_datagram_size) then try_commit m (p <| pm_peer_ready := true |>) now [] else try_commit m p now []
  | Commit _ _ =>
      if bool_decide (mc_role m = Client) && pm_proved p && ((ingress =? old) || (ingress =? new)) then
        let '(m, actions) := activate m p now in (m, actions ++ [Send new (CommitAck generation token)])
      else try_commit m p now []
  | CommitAck _ _ =>
      if bool_decide (mc_role m = Host) && bool_decide (mc_state m = CommitPending) && (ingress =? new) then activate m p now
      else try_commit m p now []
  | _ => try_commit m p now []
  end.

(** [receive]; [random] is what [MigrationToken::random] returned. *)
Definition receive (m : MigrationController) (ingress : Z) (record : PathControl) (now : Z) (random : option (list Z)) :
    MigrationController * list MigrationAction :=
  match record with
  | Request request_id kind =>
      if negb (bool_decide (mc_role m = Host)) || negb (ingress =? mc_active_generation m) ||
         bool_decide (mc_last_request m = Some request_id) || is_some (mc_pending m) || is_some (mc_draining m)
      then (m, []) else
      let m := m <| mc_last_request := Some request_id |> in
      if bool_decide (kind = Ice) then
        (m, [Send ingress (Abort (default (mc_active_generation m) (checked_add64 (mc_active_generation m) 1)) Unsupported)])
      else
        match random with
        | None => (m, [])
        | Some token => let '(m, r) := start m (from_kind kind) token now in (m, match r with Good actions => actions | Bad _ => [] end)
        end
  | Prepare generation kind token =>
      if negb (bool_decide (mc_role m = Client)) || negb (ingress =? mc_active_generation m) ||
         negb (bool_decide (checked_add64 (mc_active_generation m) 1 = Some generation)) || bool_decide (token = ZERO_TOKEN)
      then (m, []) else
      let target := from_kind kind in
      match mc_pending m with
      | Some p =>
          if negb (pm_generation p =? generation) || negb (bool_decide (pm_token p = token)) || negb (bool_decide (pm_target p = target)) then (m, []) else
          if pm_proved p then (m, [Send ingress (Ready generation token safe_datagram_size)]) else
          if pm_opened p then (m, [Send generation (Probe generation token)]) else (m, [])
      | None =>
          if is_some (mc_draining m) then (m, []) else
          if bool_decide (kind = Ice) then (m, [Send ingress (Abort generation Unsupported)]) else
          prepare m generation target token now
      end
  | Abort generation _ =>
      match mc_pending m with
      | Some p =>
          if (pm_generation p =? generation) && (ingress =? mc_active_generation m) &&
             (bool_decide (mc_state m = Preparing) || bool_decide (mc_state m = ReadyState))
          then (m <| mc_pending := None |> <| mc_state := Failed |>, [Discard]) else (m, [])
      | None => (m, [])
      end
  | _ =>
      let repeated :=
        match record with
        | Commit g t => bool_decide (mc_role m = Client) && bool_decide (mc_committed m = Some (g, t)) && accepts_application m ingress now
        | _ => false
        end in
      match attempt_of record with
      | None => (m, [])
      | Some (generation, token) =>
          if repeated then (m, [Send generation (CommitAck generation token)]) else
          match mc_pending m with
          | None => (m, [])
          | Some p =>
              if negb (generation =? pm_generation p) || negb (bool_decide (token = pm_token p)) || (pm_deadline p <=? now) then (m, [])
              else receive_attempt m p ingress record now
          end
      end
  end.

Definition old_path_failed (m : MigrationController) : MigrationController := m <| mc_old_failed := true |>.

Definition fail_preparation (m : MigrationController) (reason : AbortReason) : MigrationController * list MigrationAction :=
  if bool_decide (mc_state m = CommitPending) || bool_decide (mc_state m = CommitUnconfirmedState)
  then (m <| mc_state := CommitUnconfirmedState |>, [Discard]) else
  match mc_pending m with
  | None => (m, [])
  | Some p =>
      (m <| mc_pending := None |> <| mc_state := Failed |>, [Send (mc_active_generation m) (Abort (pm_generation p) reason); Discard])
  end.

Definition tick (m : MigrationController) (now : Z) : MigrationController * list MigrationAction :=
  if match mc_draining m with Some (_, until) => until <=? now | None => false end
  then (m <| mc_draining := None |>, [Retire]) else
  match mc_pending m with
  | None => (m, [])
  | Some p =>
      if pm_deadline p <=? now then fail_preparation m Timeout else
      if now <? pm_next_retry p then (m, []) else
      let m := m <| mc_pending := Some (p <| pm_next_retry := now + COMMIT_RETRY |>) |> in
      let generation := pm_generation p in
      let token := pm_token p in
      let old := mc_active_generation m in
      let new := generation in
      if bool_decide (mc_state m = CommitPending) then
        (m, [Send (if mc_old_failed m then new else old) (Commit generation token)])
      else
        (m, (if bool_decide (mc_role m = Host) then [Send old (Prepare generation (wire_kind (pm_target p)) token)] else []) ++
            (if pm_opened p && negb (pm_proved p) then [Send new (Probe generation token)] else []) ++
            (if pm_proved p then [Send old (Ready generation token safe_datagram_size)] else []))
  end.

(** ** Runs of a host and a client *)

(** What the owner of a controller, its clock and the network can do to it. *)
Inductive Op :=
  | OStart (target : MigrationTarget) (token : list Z) (now : Z)
  | OOpened (now : Z)
  | OReceive (ingress : Z) (record : PathControl) (now : Z) (random : option (list Z))
  | OOldFailed
  | OFail (reason : AbortReason)
  | OTick (now : Z)
  | ORtt (rtt : option Z).

Definition apply_op (m : MigrationController) (op : Op) : MigrationController * list MigrationAction :=
  match op with
  | OStart target token now => let '(m, r) := start m target token now in (m, match r with Good actions => actions | Bad _ => [] end)
  | OOpened now => opened m now
  | OReceive ingress record now random => receive m ingress record now random
  | OOldFailed => (old_path_failed m, [])
  | OFail reason => fail_preparation m reason
  | OTick now => tick m now
  | ORtt rtt => (m <| mc_old_rtt := rtt |>, [])
  end.

Definition sent (actions : list MigrationAction) : list PathControl :=
  actions ≫= fun a => match a with Send _ r => [r] | _ => [] end.

(** Both controllers and every record each has sent: the network may deliver
    any of them, at any time, on any slot, any number of times. *)
Record Pair := mkPair { pr_host : MigrationController; pr_client : MigrationController; pr_host_sent : list PathControl; pr_client_sent : list PathControl }.

Definition may_happen (op : Op) (heard : list PathControl) : Prop :=
  match op with OReceive _ record _ _ => record ∈ heard | _ => True end.

Inductive pair_step (s : Pair) : Pair -> Prop :=
  | step_host op : may_happen op (pr_client_sent s) ->
      pair_step s (mkPair (apply_op (pr_host s) op).1 (pr_client s) (sent (apply_op (pr_host s) op).2 ++ pr_host_sent s) (pr_client_sent s))
  | step_client op : may_happen op (pr_host_sent s) ->
      pair_step s (mkPair (pr_host s) (apply_op (pr_client s) op).1 (pr_host_sent s) (sent (apply_op (pr_client s) op).2 ++ pr_client_sent s)).

Inductive pair_reachable : Pair -> Prop :=
  | pair_start : pair_reachable (mkPair (controller_new Host) (controller_new Client) [] [])
  | pair_next s s' : pair_reachable s -> pair_step s s' -> pair_reachable s'.

(** A commit has been sent and not yet confirmed. *)
Definition committing (m : MigrationController) : Prop := mc_state m = CommitPending \/ mc_state m = CommitUnconfirmedState.

(** What every operation of one controller keeps. *)
Definition Local (m : MigrationController) : Prop :=
  (forall p, mc_pending m = Some p -> pm_generation p = mc_active_generation m + 1) /\
  (committing m -> exists p, mc_pending m = Some p /\ pm_proved p = true) /\
  (forall g t, mc_committed m = Some (g, t) -> g <= mc_active_generation m).

(** An operation either leaves the active path alone or activates the pending
    one, having received the record that entitles it to. *)
Definition Moved (m : MigrationController) (op : Op) (m' : MigrationController) (out : list PathControl) : Prop :=
  mc_role m' = mc_role m /\ Local m' /\
  (forall g t, Commit g t ∈ out -> mc_role m = Host -> committing m' /\ exists p, mc_pending m' = Some p /\ pm_generation p = g) /\
  (forall g t, CommitAck g t ∈ out -> g <= mc_active_generation m') /\
  ((mc_active_generation m' = mc_active_generation m /\
    (mc_role m = Host -> committing m -> committing m' /\ pm_generation <$> mc_pending m' = pm_generation <$> mc_pending m)) \/
   (mc_active_generation m' = mc_active_generation m + 1 /\
    exists ingress g t now random, g = mc_active_generation m + 1 /\
      (mc_role m = Client /\ op = OReceive ingress (Commit g t) now random \/
       mc_role m = Host /\ op = OReceive ingress (CommitAck g t) now random /\ mc_state m = CommitPending))).

(** An operation that keeps the active path and, while committing, the attempt. *)
Lemma moved_stay m op m' out :
  Local m -> mc_role m' = mc_role m -> mc_active_generation m' = mc_active_generation m -> mc_committed m' = mc_committed m ->
  (forall p, mc_pending m' = Some p -> pm_generation p = mc_active_generation m + 1) ->
  (committing m' -> exists p, mc_pending m' = Some p /\ pm_proved p = true) ->
  (forall g t, Commit g t ∈ out -> mc_role m = Host -> committing m' /\ exists p, mc_pending m' = Some p /\ pm_generation p = g) ->
  (forall g t, CommitAck g t ∈ out -> g <= mc_active_generation m) ->
  (committing m -> committing m' /\ pm_generation <$> mc_pending m' = pm_generation <$> mc_pending m) ->
  Moved m op m' out.
Proof.
  intros (_ & _ & H3) Hr Ha Hc Hp Hs Hno Hack Hkeep. split; [done|]. split; [split; [by rewrite Ha|]; split; [done|]; rewrite Hc, Ha; apply H3|].
  split; [done|]. split; [intros g t Hin; rewrite Ha; by eapply Hack|]. left. split; [done|]. intros _. apply Hkeep.
Qed.

(** Neither a commit nor an acknowledgement among some records. *)
Ltac no_commit :=
  let H := fresh in intros ?? H; cbn in H;
  repeat (apply elem_of_cons in H as [H|H]; [discriminate H|]); by apply elem_of_nil in H.

Lemma moved_same m op out :
  Local m -> (forall g t, Commit g t ∉ out) -> (forall g t, CommitAck g t ∈ out -> g <= mc_active_generation m) -> Moved m op m out.
Proof. intros HL Hno Hack. destruct (HL) as (H1 & H2 & H3). apply moved_stay; try done. intros g t Hin. by apply Hno in Hin. Qed.

Lemma moved_idle m op : Local m -> Moved m op m [].
Proof. intros HL. apply moved_same; [done|no_commit|no_commit]. Qed.

Lemma prepare_moved m op generation target token now m' actions out :
  Local m -> ~ committing m -> generation = mc_active_generation m + 1 -> prepare m generation target token now = (m', actions) ->
  (forall g t, Commit g t ∉ out) -> (forall g t, CommitAck g t ∉ out) -> Moved m op m' out.
Proof.
  intros HL Hn Hg [<- _]%pair_equal_spec Hc Ha. apply moved_stay; try done.
  - intros p [= <-]. done.
  - by intros [|].
  - intros g t Hin. by apply Hc in Hin.
  - intros g t Hin. by apply Ha in Hin.
Qed.

Lemma start_moved m op target token now m' r :
  Local m -> start m target token now = (m', r) ->
  Moved m op m' (sent (match r with Good actions => actions | Bad _ => [] end)).
Proof.
  intros HL. unfold start. destruct (_ || _ || _) eqn:E; [intros [= <- <-]; by apply moved_idle|].
  destruct (negb _); [intros [= <- <-]; by apply moved_idle|]. destruct (bool_decide (target = _)); [intros [= <- <-]; by apply moved_idle|].
  destruct (checked_add64 _ 1) as [g|] eqn:Eg; [|intros [= <- <-]; by apply moved_idle]. destruct (prepare _ _ _ _ _) as [m1 more] eqn:Ep. intros [= <- <-].
  apply orb_false_iff in E as [E Ecu]. apply orb_false_iff in E as [Epend _]. apply bool_decide_eq_false in Ecu.
  assert (g = mc_active_generation m + 1) as -> by (unfold checked_add64 in Eg; by case_match; simplify_eq).
  eapply prepare_moved; [done| |done|exact Ep|unfold prepare in Ep; apply pair_equal_spec in Ep as [_ <-]; no_commit..].
  intros Hc. destruct HL as (_ & H2 & _). destruct (H2 Hc) as (p & Hp & _). by rewrite Hp in Epend.
Qed.

Lemma activate_moved m op p now m' actions extra :
  Local m -> mc_pending m = Some p -> activate m p now = (m', actions) ->
  (forall g t, Commit g t ∉ extra) -> (forall g t, CommitAck g t ∈ extra -> g <= pm_generation p) ->
  (exists ingress g t now' random, g = mc_active_generation m + 1 /\
      (mc_role m = Client /\ op = OReceive ingress (Commit g t) now' random \/
       mc_role m = Host /\ op = OReceive ingress (CommitAck g t) now' random /\ mc_state m = CommitPending)) ->
  Moved m op m' extra.
Proof.
  intros (H1 & H2 & H3) Hp [<- _]%pair_equal_spec Hc Ha Hw. pose proof (H1 p Hp) as Hg. split; [done|]. split.
  - split; [done|]. split; [by intros [|]|]. intros g t [= <- <-]. done.
  - split; [intros g t Hin; by apply Hc in Hin|]. split; [by intros; eapply Ha|]. by right.
Qed.

(** [m'] is [m] but for its state, its attempt and its retry flags. *)
Lemma try_commit_moved m m1 op p p0 now actions m' out :
  Local m -> mc_pending m = Some p0 -> pm_generation p = pm_generation p0 ->
  mc_role m1 = mc_role m -> mc_active_generation m1 = mc_active_generation m -> mc_committed m1 = mc_committed m ->
  (committing m -> mc_state m1 = mc_state m) -> (committing m1 -> committing m) -> (pm_proved p0 = true -> pm_proved p = true) ->
  try_commit m1 p now actions = (m', out) ->
  (forall g t, Commit g t ∉ sent actions) -> (forall g t, CommitAck g t ∉ sent actions) ->
  Moved m op m' (sent out).
Proof.
  intros HL Hp Hg Hr Ha Hc Hst Hcm Hpv Et Hno Hnoa. destruct (HL) as (H1 & H2 & H3). pose proof (H1 p0 Hp) as Hg0. unfold try_commit in Et. destruct (_ && _) eqn:E.
  - apply pair_equal_spec in Et as [<- <-]. apply andb_true_iff in E as [E' E]. apply bool_decide_eq_true in E. apply andb_true_iff in E' as [E' _]. apply andb_true_iff in E' as [_ E'].
    apply moved_stay; try done; cbn.
    + intros q [= <-]. cbn. lia.
    + intros _. eexists. split; [done|]. done.
    + intros g t Hin _. split; [by left|]. eexists. split; [done|]. cbn. unfold sent in Hin. rewrite bind_app in Hin. apply elem_of_app in Hin as [Hin|Hin]; [by apply Hno in Hin|].
      cbn in Hin. apply list_elem_of_singleton in Hin. by injection Hin.
    + intros g t Hin. unfold sent in Hin. rewrite bind_app in Hin. apply elem_of_app in Hin as [Hin|Hin]; [by apply Hnoa in Hin|]. cbn in Hin. by apply list_elem_of_singleton in Hin.
    + intros Hcom. specialize (Hst Hcom). destruct Hcom as [Hcom|Hcom]; rewrite Hst, Hcom in E; discriminate.
  - apply pair_equal_spec in Et as [<- <-]. apply moved_stay; try done; cbn.
    + intros q [= <-]. lia.
    + intros Hcom. exists p. split; [done|]. apply Hpv. destruct (H2 (Hcm Hcom)) as (q & Hq & ?). by simplify_eq.
    + intros g t Hin. by apply Hno in Hin.
    + intros g t Hin. by apply Hnoa in Hin.
    + intros Hcom. rewrite Hp. cbn. split; [unfold committing in *; cbn; by rewrite (Hst Hcom)|by rewrite Hg].
Qed.

Lemma receive_attempt_moved m p ingress record now random m' out :
  Local m -> mc_pending m = Some p -> attempt_of record = Some (pm_generation p, pm_token p) ->
  receive_attempt m p ingress record now = (m', out) -> Moved m (OReceive ingress record now random) m' (sent out).
Proof.
  intros HL Hp Hat. pose proof (proj1 HL p Hp) as Hg.
  assert (Hsame : forall actions, (forall g t, Commit g t ∉ sent actions) -> (forall g t, CommitAck g t ∉ sent actions) ->
    forall op q, pm_generation q = pm_generation p -> pm_proved q = pm_proved p -> try_commit m q now actions = (m', out) -> Moved m op m' (sent out)).
  { intros actions H1 H2 op q Hq Hqp Et. eapply (try_commit_moved m m op q p); try done. by rewrite Hqp. }
  unfold receive_attempt. destruct record as [| |g t|g t|g t size|g t|g t|]; cbn in Hat; simplify_eq; cbv zeta.
  - destruct (_ && _); apply Hsame; done || no_commit.
  - destruct (_ && _ && _) eqn:E; [|apply Hsame; done || no_commit]. apply andb_true_iff in E as [_ E%negb_true_iff]. intros Et.
    assert (Hnc : ~ committing m) by (intros Hc; destruct (proj1 (proj2 HL) Hc) as (q & Hq & ?); simplify_eq; congruence).
    eapply (try_commit_moved m _ _ _ p); try exact Et; try done; try no_commit. by intros [|].
  - destruct (_ && _); apply Hsame; done || no_commit.
  - destruct (_ && _ && _) eqn:E; [|apply Hsame; done || no_commit]. apply andb_true_iff in E as [E _]. apply andb_true_iff in E as [E%bool_decide_eq_true _].
    destruct (activate m p now) as [m1 acts] eqn:Ea. intros [= <- <-]. assert (acts = [Activate (pm_generation p)]) as -> by (by apply pair_equal_spec in Ea as [_ <-]).
    eapply activate_moved; [done|done|exact Ea|no_commit| |].
    + intros g t Hin. cbn in Hin. apply list_elem_of_singleton in Hin. injection Hin as -> ->. lia.
    + exists ingress, (pm_generation p), (pm_token p), now, random. split; [done|]. by left.
  - destruct (_ && _ && _) eqn:E; [|apply Hsame; done || no_commit]. apply andb_true_iff in E as [E _]. apply andb_true_iff in E as [Er%bool_decide_eq_true Es%bool_decide_eq_true].
    intros Ea. assert (out = [Activate (pm_generation p)]) as -> by (by apply pair_equal_spec in Ea as [_ <-]).
    eapply activate_moved; [done|done|exact Ea|no_commit|no_commit|]. exists ingress, (pm_generation p), (pm_token p), now, random. split; [done|]. by right.
Qed.

Lemma fail_moved m op reason m' out : Local m -> fail_preparation m reason = (m', out) -> Moved m op m' (sent out).
Proof.
  intros HL. destruct (HL) as (H1 & H2 & H3). unfold fail_preparation. destruct (_ || _) eqn:E.
  - intros [= <- <-]. apply orb_true_iff in E as [E%bool_decide_eq_true|E%bool_decide_eq_true];
      (apply moved_stay; try done; [|no_commit|no_commit|]); intros _; try (apply H2; by (left + right)); (split; [by right|done]).
  - apply orb_false_iff in E as [E1%bool_decide_eq_false E2%bool_decide_eq_false]. destruct (mc_pending m) as [p|] eqn:Ep; intros [= <- <-]; [|by apply moved_idle].
    apply moved_stay; try done; [by intros [|]|no_commit|no_commit|by intros [|]].
Qed.

Lemma receive_moved m ingress record now random :
  Local m -> Moved m (OReceive ingress record now random) (receive m ingress record now random).1 (sent (receive m ingress record now random).2).
Proof.
  intros HL. set (op := OReceive _ _ _ _). destruct (receive m ingress record now random) as [m' out] eqn:E. cbn [fst snd].
  assert (Hrest : forall g t, attempt_of record = Some (g, t) ->
    (match mc_pending m with
     | None => (m, [])
     | Some p => if negb (g =? pm_generation p) || negb (bool_decide (t = pm_token p)) || (pm_deadline p <=? now) then (m, []) else receive_attempt m p ingress record now
     end) = (m', out) -> Moved m op m' (sent out)).
  { intros g t Hat Er. destruct (mc_pending m) as [p|] eqn:Ep; [|simplify_eq; by apply moved_idle]. destruct (_ || _ || _) eqn:Eg; [simplify_eq; by apply moved_idle|].
    apply orb_false_iff in Eg as [Eg _]. apply orb_false_iff in Eg as [Eg Et]. apply negb_false_iff in Eg, Et. apply Z.eqb_eq in Eg. apply bool_decide_eq_true in Et. subst g t. by eapply receive_attempt_moved. }
  unfold receive in E. destruct record as [id kind|g kind t|g t|g t|g t size|g t|g t|g reason]; cbn [attempt_of] in E, Hrest; cbv zeta in E.
  - clear Hrest. destruct (_ || _ || _ || _ || _) eqn:Eg; [simplify_eq; by apply moved_idle|]. set (m1 := m <| mc_last_request := Some id |>) in E.
    assert (HL1 : Local m1) by done. assert (Hlift : forall o x y, Moved m1 o x y -> Moved m o x y) by done.
    destruct (bool_decide (kind = Ice)); [simplify_eq; apply Hlift, moved_same; [done|no_commit|no_commit]|]. destruct random as [token|]; [|simplify_eq; by apply Hlift, moved_idle].
    destruct (start m1 (from_kind kind) token now) as [m2 r] eqn:Es. simplify_eq. apply Hlift. by eapply start_moved.
  - clear Hrest. destruct (_ || _ || _ || _) eqn:Eg; [simplify_eq; by apply moved_idle|]. destruct (mc_pending m) as [p|] eqn:Ep.
    + destruct (negb (pm_generation p =? g) || _ || _); [simplify_eq; by apply moved_idle|]. destruct (pm_proved p); [simplify_eq; apply moved_same; [done|no_commit|no_commit]|].
      destruct (pm_opened p); simplify_eq; (apply moved_same; [done|no_commit|no_commit]).
    + destruct (is_some _); [simplify_eq; by apply moved_idle|]. destruct (bool_decide (kind = Ice)); [simplify_eq; apply moved_same; [done|no_commit|no_commit]|].
      assert (g = mc_active_generation m + 1) as Hg.
      { apply orb_false_iff in Eg as [Eg _]. apply orb_false_iff in Eg as [_ Eg]. apply negb_false_iff, bool_decide_eq_true in Eg. unfold checked_add64 in Eg. by case_match; simplify_eq. }
      eapply prepare_moved; [done| |exact Hg|exact E|unfold prepare in E; apply pair_equal_spec in E as [_ <-]; no_commit..].
      intros Hc. destruct (proj1 (proj2 HL) Hc) as (p & Hp & _). congruence.
  - by apply (Hrest g t).
  - by apply (Hrest g t).
  - by apply (Hrest g t).
  - destruct (bool_decide (mc_role m = Client) && _ && _) eqn:Er; [|by apply (Hrest g t)]. simplify_eq. apply andb_true_iff in Er as [Er _]. apply andb_true_iff in Er as [_ Er%bool_decide_eq_true].
    apply moved_same; [done|no_commit|]. intros g' t' Hin. cbn in Hin. apply list_elem_of_singleton in Hin. injection Hin as -> ->. by eapply (proj2 (proj2 HL)).
  - by apply (Hrest g t).
  - clear Hrest. destruct (mc_pending m) as [p|] eqn:Ep; [|simplify_eq; by apply moved_idle]. destruct (_ && _ && _) eqn:Eg; simplify_eq; [|by apply moved_idle].
    apply andb_true_iff in Eg as [_ Eg]. assert (~ committing m).
    { intros [Hc|Hc]; rewrite Hc in Eg; done. }
    apply moved_stay; try done; [by intros [|]|no_commit|no_commit].
Qed.

Lemma opened_moved m op now : Local m -> Moved m op (opened m now).1 (sent (opened m now).2).
Proof.
  intros HL. destruct (HL) as (H1 & H2 & H3). unfold opened. destruct (mc_pending m) as [p|] eqn:Ep; [|by apply moved_idle]. cbn [fst snd].
  apply moved_stay; try done; [|intros Hc|no_commit|no_commit|intros Hc; split; [done|by rewrite Ep]].
  - intros q [= <-]. apply (H1 p eq_refl).
  - eexists. split; [done|]. destruct (H2 Hc) as (q & Hq & ?). by simplify_eq.
Qed.

Lemma tick_moved m op now : Local m -> Moved m op (tick m now).1 (sent (tick m now).2).
Proof.
  intros HL. destruct (HL) as (H1 & H2 & H3). unfold tick. destruct (match mc_draining m with Some (_, until) => until <=? now | None => false end).
  { apply moved_stay; try done; no_commit. }
  destruct (mc_pending m) as [p|] eqn:Ep; [|by apply moved_idle]. destruct (_ <=? now).
  { destruct (fail_preparation m Timeout) as [m' out] eqn:Ef. by eapply fail_moved. }
  destruct (now <? _); [by apply moved_idle|]. set (p' := p <| pm_next_retry := _ |>). set (m1 := m <| mc_pending := Some p' |>). cbv zeta.
  assert (Hstay : forall out, (forall g t, Commit g t ∈ out -> mc_state m1 = CommitPending /\ g = pm_generation p) -> (forall g t, CommitAck g t ∉ out) -> Moved m op m1 out).
  { intros out Hc Ha. apply moved_stay; try done.
    - intros q [= <-]. apply (H1 p eq_refl).
    - intros Hcm. exists p'. split; [done|]. destruct (H2 Hcm) as (q & Hq & ?). by simplify_eq.
    - intros g t [Hs ->]%Hc _. split; [by left|]. by exists p'.
    - intros g t Hin. by apply Ha in Hin.
    - intros Hcm. split; [done|]. by rewrite Ep. }
  destruct (bool_decide (mc_state m1 = CommitPending)) eqn:Es; cbn [fst snd].
  - apply bool_decide_eq_true in Es. apply Hstay; [|no_commit]. intros g t Hin. cbn in Hin. apply list_elem_of_singleton in Hin. by injection Hin as -> ->.
  - apply Hstay; destruct (bool_decide (mc_role m1 = Host)), (pm_opened p && negb (pm_proved p)), (pm_proved p); no_commit.
Qed.

Lemma op_moved m op : Local m -> Moved m op (apply_op m op).1 (sent (apply_op m op).2).
Proof.
  intros HL. destruct op as [target token now|now|ingress record now random| |reason|now|rtt]; cbn [apply_op].
  - destruct (start m target token now) as [m' r] eqn:E. by eapply start_moved.
  - by apply opened_moved.
  - by apply receive_moved.
  - pose proof HL as (H1 & H2 & H3). apply moved_stay; try done; no_commit.
  - destruct (fail_preparation m reason) as [m' out] eqn:E. by eapply fail_moved.
  - by apply tick_moved.
  - pose proof HL as (H1 & H2 & H3). apply moved_stay; try done; no_commit.
Qed.

(** A controller comes to wait for a confirmation only by sending the commit of
    its attempt, and only the host does. *)
Definition Commits (m m' : MigrationController) (out : list PathControl) : Prop :=
  committing m' ->
  (committing m /\ mc_active_generation m' = mc_active_generation m) \/
  (mc_role m = Host /\ exists t, Commit (mc_active_generation m' + 1) t ∈ out).

Ltac no_new_commit := intros Hc; first [left; split; [exact Hc|reflexivity] | by destruct Hc].

Lemma try_commit_commits m m1 p now actions :
  mc_role m1 = mc_role m -> mc_active_generation m1 = mc_active_generation m -> (committing m1 -> committing m) ->
  pm_generation p = mc_active_generation m + 1 -> Commits m (try_commit m1 p now actions).1 (sent (try_commit m1 p now actions).2).
Proof.
  intros Hr Ha Hc Hg. unfold try_commit. destruct (_ && _ && _ && _) eqn:E; cbn [fst snd]; intros Hcm; [right|left].
  - bool_prop. repeat match goal with H : bool_decide _ = true |- _ => apply bool_decide_eq_true in H end. split; [congruence|].
    exists (pm_token p). unfold sent. rewrite bind_app. apply elem_of_app. right. cbn.
    rewrite Ha, <- Hg. by apply list_elem_of_singleton.
  - split; [by apply Hc|exact Ha].
Qed.

Lemma receive_attempt_commits m p ingress record now :
  Local m -> mc_pending m = Some p -> Commits m (receive_attempt m p ingress record now).1 (sent (receive_attempt m p ingress record now).2).
Proof.
  intros HL Hp. pose proof (proj1 HL p Hp) as Hg.
  assert (Htry : forall q actions, pm_generation q = pm_generation p -> Commits m (try_commit m q now actions).1 (sent (try_commit m q now actions).2))
    by (intros q actions E; apply try_commit_commits; congruence || done).
  unfold receive_attempt. destruct record; repeat case_match; try (by apply Htry); try (unfold activate in *; simplify_eq; no_new_commit).
  apply try_commit_commits; try done. by intros [|].
Qed.

Lemma fail_commits m reason : Commits m (fail_preparation m reason).1 (sent (fail_preparation m reason).2).
Proof.
  unfold fail_preparation. destruct (_ || _) eqn:E; [|case_match; no_new_commit]. intros _. left. split; [|done]. bool_prop. unfold committing.
  apply orb_true_iff in E as [E%bool_decide_eq_true|E%bool_decide_eq_true]; [by left|by right].
Qed.

Lemma start_commits m target token now : Commits m (start m target token now).1 (sent (match (start m target token now).2 with Good actions => actions | Bad _ => [] end)).
Proof. unfold start. repeat (case_match; cbn [fst]; try (unfold prepare in *; simplify_eq; no_new_commit)). Qed.

Lemma op_commits m op : Local m -> Commits m (apply_op m op).1 (sent (apply_op m op).2).
Proof.
  intros HL. destruct op as [target token now|now|ingress record now random| |reason|now|rtt]; cbn [apply_op].
  - pose proof (start_commits m target token now) as Hs. by destruct (start m target token now).
  - unfold opened. case_match; no_new_commit.
  - unfold receive. destruct record as [id kind|g kind t|g t|g t|g t size|g t|g t|g reason]; cbn [attempt_of].
    + case_match; [no_new_commit|]. set (m1 := m <| mc_last_request := Some id |>). case_match; [no_new_commit|]. destruct random as [token|]; [|no_new_commit].
      pose proof (start_commits m1 (from_kind kind) token now) as Hs. by destruct (start m1 (from_kind kind) token now).
    + unfold prepare. repeat (case_match; try no_new_commit).
    + destruct (mc_pending m) as [p|] eqn:Hp; [|no_new_commit]. case_match; [no_new_commit|]. by apply receive_attempt_commits.
    + destruct (mc_pending m) as [p|] eqn:Hp; [|no_new_commit]. case_match; [no_new_commit|]. by apply receive_attempt_commits.
    + destruct (mc_pending m) as [p|] eqn:Hp; [|no_new_commit]. case_match; [no_new_commit|]. by apply receive_attempt_commits.
    + case_match; [no_new_commit|]. destruct (mc_pending m) as [p|] eqn:Hp; [|no_new_commit]. case_match; [no_new_commit|]. by apply receive_attempt_commits.
    + destruct (mc_pending m) as [p|] eqn:Hp; [|no_new_commit]. case_match; [no_new_commit|]. by apply receive_attempt_commits.
    + repeat (case_match; try no_new_commit).
  - no_new_commit.
  - by apply fail_commits.
  - unfold tick. destruct (match mc_draining m with Some (_, until) => until <=? now | None => false end); [no_new_commit|].
    destruct (mc_pending m) as [p|]; [|no_new_commit]. destruct (pm_deadline p <=? now); [apply fail_commits|].
    destruct (now <? pm_next_retry p); [no_new_commit|]. cbv zeta. destruct (bool_decide (mc_state _ = CommitPending)); no_new_commit.
  - no_new_commit.
Qed.

Definition PairOk (s : Pair) : Prop :=
  let h := pr_host s in
  let c := pr_client s in
  mc_role h = Host /\ mc_role c = Client /\ Local h /\ Local c /\
  (forall g t, Commit g t ∈ pr_host_sent s -> g <= mc_active_generation h \/ (committing h /\ exists p, mc_pending h = Some p /\ pm_generation p = g)) /\
  (forall g t, CommitAck g t ∈ pr_client_sent s -> g <= mc_active_generation c) /\
  (mc_active_generation c = mc_active_generation h \/ (mc_active_generation c = mc_active_generation h + 1 /\ committing h)).

Lemma host_step_ok s op : PairOk s -> may_happen op (pr_client_sent s) ->
  PairOk (mkPair (apply_op (pr_host s) op).1 (pr_client s) (sent (apply_op (pr_host s) op).2 ++ pr_host_sent s) (pr_client_sent s)).
Proof.
  intros (Hh & Hc & Lh & Lc & Hcommit & Hack & Hagree) Hmay. destruct (op_moved (pr_host s) op Lh) as (Hr & Ll & Hnew & _ & Hact).
  destruct (apply_op (pr_host s) op) as [h' out]. cbn [fst snd] in *. unfold PairOk. cbn.
  split; [by rewrite Hr|]. split; [done|]. split; [done|]. split; [done|]. split; [|split; [done|]].
  - intros g t [Hin|Hin]%elem_of_app; [right; by eapply Hnew|]. destruct Hact as [[Ha Hkeep]|(Ha & _)].
    + rewrite Ha. destruct (Hcommit g t Hin) as [|(Hcm & p & Hp & Hg)]; [by left|right]. destruct (Hkeep Hh Hcm) as [Hcm' Hpg]. split; [done|].
      rewrite Hp in Hpg. cbn in Hpg. destruct (mc_pending h') as [q|] eqn:Eq; [|done]. injection Hpg as Hpg. exists q. split; [done|congruence].
    + left. rewrite Ha. destruct (Hcommit g t Hin) as [|(_ & p & Hp & <-)]; [lia|]. rewrite (proj1 Lh p Hp). lia.
  - destruct Hact as [[Ha Hkeep]|(Ha & ingress & g & t & now & random & Hg & [[Hx _]|(_ & Ho & Hs)])]; [|congruence|].
    + rewrite Ha. destruct Hagree as [|[? Hcm]]; [by left|right]. split; [done|]. by apply Hkeep.
    + left. subst op. cbn in Hmay. pose proof (Hack g t Hmay). destruct Hagree as [|[? _]]; lia.
Qed.

Lemma client_step_ok s op : PairOk s -> may_happen op (pr_host_sent s) ->
  PairOk (mkPair (pr_host s) (apply_op (pr_client s) op).1 (pr_host_sent s) (sent (apply_op (pr_client s) op).2 ++ pr_client_sent s)).
Proof.
  intros (Hh & Hc & Lh & Lc & Hcommit & Hack & Hagree) Hmay. destruct (op_moved (pr_client s) op Lc) as (Hr & Ll & _ & Hnew & Hact).
  destruct (apply_op (pr_client s) op) as [c' out]. cbn [fst snd] in *. unfold PairOk. cbn.
  split; [done|]. split; [by rewrite Hr|]. split; [done|]. split; [done|]. split; [done|]. split.
  - intros g t [Hin|Hin]%elem_of_app; [by eapply Hnew|]. pose proof (Hack g t Hin). destruct Hact as [[-> _]|(-> & _)]; lia.
  - destruct Hact as [[-> _]|(Ha & ingress & g & t & now & random & Hg & [(_ & Ho)|(Hx & _)])]; [done| |congruence].
    right. subst op. cbn in Hmay. destruct (Hcommit g t Hmay) as [Hle|(Hcm & p & Hp & Hpg)]; [destruct Hagree as [|[? _]]; lia|].
    pose proof (proj1 Lh p Hp). destruct Hagree as [|[? _]]; [split; [lia|done]|lia].
Qed.

(** Waiting for a confirmation is having sent the commit of the next
    generation, and a client never waits. *)
Definition CommitSent (s : Pair) : Prop := exists t, Commit (mc_active_generation (pr_host s) + 1) t ∈ pr_host_sent s.

Lemma pair_ok s : pair_reachable s -> PairOk s.
Proof.
  induction 1 as [|s s' _ IH Hs].
  - assert (forall r, Local (controller_new r)) as HL by (intros r; repeat split; try done; by intros [|]).
    split; [done|]. split; [done|]. split; [apply HL|]. split; [apply HL|]. split; [no_commit|]. split; [no_commit|by left].
  - destruct Hs; [by apply host_step_ok|by apply client_step_ok].
Qed.

Lemma committing_sent s : pair_reachable s -> (committing (pr_host s) <-> CommitSent s) /\ ~ committing (pr_client s).
Proof.
  intros Hr. split; [split|].
  - induction Hr as [|s s' Hr IH Hs]; [by intros [|]|]. pose proof (pair_ok s Hr) as (Hh & _ & Lh & _). destruct Hs as [op Hm|op Hm]; unfold CommitSent in *; cbn; [|done].
    intros Hc. destruct (op_commits _ op Lh Hc) as [[H0 Ha]|[_ (t & Ht)]]; [destruct (IH H0) as (t & Ht); rewrite Ha|]; exists t; apply elem_of_app; first [by left|by right].
  - intros (t & Ht). pose proof (pair_ok s Hr) as (_ & _ & _ & _ & Hcommit & _). destruct (Hcommit _ _ Ht) as [|[? _]]; [lia|done].
  - induction Hr as [|s s' Hr IH Hs]; [by intros [|]|]. pose proof (pair_ok s Hr) as (_ & Hc & _ & Lc & _). destruct Hs as [op Hm|op Hm]; cbn; [done|].
    intros Hcm. destruct (op_commits _ op Lc Hcm) as [[H0 _]|[H0 _]]; [done|congruence].
Qed.

(** ** An undisturbed migration

    The owner opens the path it is asked to open at once and sends what it is
    asked to send; records arrive in order. *)

Fixpoint perform (m : MigrationController) (actions : list MigrationAction) (now : Z) : MigrationController * list (Z * PathControl) :=
  match actions with
  | [] => (m, [])
  | Send slot record :: actions => let '(m, out) := perform m actions now in (m, (slot, record) :: out)
  | Open _ _ _ :: actions =>
      let '(m, probes) := opened m now in
      let '(m, out) := perform m actions now in
      (m, (probes ≫= fun a => match a with Send slot r => [(slot, r)] | _ => [] end) ++ out)
  | _ :: actions => perform m actions now
  end.

Definition hear (m : MigrationController) (slot : Z) (record : PathControl) (now : Z) : MigrationController * list (Z * PathControl) :=
  let '(m, actions) := receive m slot record now None in perform m actions now.

Fixpoint pump (fuel : nat) (h c : MigrationController) (to_client to_host : list (Z * PathControl)) (now : Z) : MigrationController * MigrationController :=
  match fuel with
  | O => (h, c)
  | S fuel =>
      match to_client, to_host with
      | (slot, r) :: to_client, _ => let '(c, out) := hear c slot r now in pump fuel h c to_client (to_host ++ out) now
      | [], (slot, r) :: to_host => let '(h, out) := hear h slot r now in pump fuel h c out to_host now
      | [], [] => (h, c)
      end
  end.

(** A migration as the host runs it to the end. *)
Definition migrate (h c : MigrationController) (target : MigrationTarget) (token : list Z) (now : Z) : MigrationController * MigrationController :=
  match start h target token now with
  | (h, Good actions) => let '(h, out) := perform h actions now in pump 12 h c out [] now
  | (h, Bad _) => (h, c)
  end.

(** A controller in the middle of an attempt at generation [g + 1]. *)
Section attempt.
Context (g : Z) (token : list Z) (target : MigrationTarget) (now : Z).
Context (Hg : 0 <= g < U64_MAX) (Htok : token <> ZERO_TOKEN) (Htgt : target <> ToIce).

Definition at_ (role : Role) (st : MigrationState) (o pv rd : bool) (cm : option (Z * list Z)) (lr rtt : option Z) : MigrationController :=
  mkController role st g (Some (mkPending (g + 1) token target (now + MIGRATION_DEADLINE) o pv rd (now + COMMIT_RETRY))) cm None false lr rtt.

Lemma kind_back : from_kind (wire_kind target) = target /\ wire_kind target <> Ice.
Proof. by destruct target. Qed.

Lemma deadline_open : (now + MIGRATION_DEADLINE <=? now) = false.
Proof. apply Z.leb_gt. unfold MIGRATION_DEADLINE. lia. Qed.

Lemma slots_differ : (g + 1 =? g) = false /\ (g =? g + 1) = false.
Proof. split; apply Z.eqb_neq; lia. Qed.

Ltac attempt_step :=
  unfold hear, receive, receive_attempt, try_commit; cbn [attempt_of at_ mc_pending mc_role mc_committed mc_state mc_active_generation pm_generation pm_token pm_deadline pm_opened pm_proved pm_peer_ready];
  rewrite ?Z.eqb_refl, ?deadline_open, ?(proj1 slots_differ), ?(proj2 slots_differ), ?(bool_decide_eq_true_2 (token = token) eq_refl),
    ?(bool_decide_eq_true_2 (Host = Host) eq_refl), ?(bool_decide_eq_true_2 (Client = Client) eq_refl); cbn [negb andb orb];
  repeat (rewrite bool_decide_eq_false_2 by discriminate; cbn [negb andb orb]).

Lemma hear_probe role st pv rd cm lr rtt :
  (role = Host -> st = ReadyState -> pv && rd = false) ->
  hear (at_ role st true pv rd cm lr rtt) (g + 1) (Probe (g + 1) token) now = (at_ role st true pv rd cm lr rtt, [(g + 1, ProbeAck (g + 1) token)]).
Proof.
  intros Hn. attempt_step. destruct (_ && _ && _ && _) eqn:E; [|done]. apply andb_true_iff in E as [E E3]. apply andb_true_iff in E as [E E2]. apply andb_true_iff in E as [E0 E1].
  apply bool_decide_eq_true in E0, E3. specialize (Hn E0 E3). by rewrite E1, E2 in Hn.
Qed.

Lemma hear_prepare st (cm : option (Z * list Z)) f lr rtt :
  hear (mkController Client st g None cm None f lr rtt) g (Prepare (g + 1) (wire_kind target) token) now =
    (at_ Client Preparing true false false cm lr rtt, [(g + 1, Probe (g + 1) token)]).
Proof.
  unfold hear, receive. cbn [mc_pending mc_role mc_active_generation mc_draining is_some]. rewrite (proj1 kind_back).
  rewrite checked_add64_some by (unfold U64_MAX in *; lia). rewrite Z.eqb_refl, !bool_decide_eq_true_2 by done. rewrite (bool_decide_eq_false_2 (token = _)) by done.
  rewrite (bool_decide_eq_false_2 (wire_kind target = _)) by apply kind_back. done.
Qed.

Lemma hear_probe_ack role cm lr rtt rd :
  (role = Host -> rd = false) ->
  hear (at_ role Preparing true false rd cm lr rtt) (g + 1) (ProbeAck (g + 1) token) now =
    (at_ role ReadyState true true rd cm lr rtt, [(g, Ready (g + 1) token safe_datagram_size)]).
Proof. intros Hr. attempt_step. destruct role; [rewrite Hr by done|]; reflexivity. Qed.

Lemma hear_ready_client st pv rd cm lr rtt :
  hear (at_ Client st true pv rd cm lr rtt) g (Ready (g + 1) token safe_datagram_size) now = (at_ Client st true pv true cm lr rtt, []).
Proof. attempt_step. reflexivity. Qed.

Lemma hear_ready_host rd cm lr rtt :
  hear (at_ Host ReadyState true true rd cm lr rtt) g (Ready (g + 1) token safe_datagram_size) now =
    (at_ Host CommitPending true true true cm lr rtt, [(g, Commit (g + 1) token)]).
Proof. attempt_step. reflexivity. Qed.

(** The controller after the switch. *)
Definition after (role : Role) (lr rtt : option Z) : MigrationController :=
  mkController role Active (g + 1) None (Some (g + 1, token)) (Some (g, now + drain_grace rtt)) false lr rtt.

Lemma hear_commit st rd cm lr rtt :
  cm <> Some (g + 1, token) ->
  hear (at_ Client st true true rd cm lr rtt) g (Commit (g + 1) token) now = (after Client lr rtt, [(g + 1, CommitAck (g + 1) token)]).
Proof. intros Hc. attempt_step. rewrite (bool_decide_eq_false_2 (cm = _)) by done. reflexivity. Qed.

Lemma hear_commit_ack cm lr rtt :
  hear (at_ Host CommitPending true true true cm lr rtt) (g + 1) (CommitAck (g + 1) token) now = (after Host lr rtt, []).
Proof. attempt_step. reflexivity. Qed.

End attempt.

(** A controller that can take part in a migration. *)
Lemma not_busy m : busy m = false ->
  m = mkController (mc_role m) (mc_state m) (mc_active_generation m) None (mc_committed m) None (mc_old_failed m) (mc_last_request m) (mc_old_rtt m) /\
  mc_state m <> CommitUnconfirmedState.
Proof.
  unfold busy. intros H. apply orb_false_iff in H as [H Hs]. apply orb_false_iff in H as [Hp Hd]. apply bool_decide_eq_false in Hs.
  destruct m as [? ? ? [] ? [] ? ? ?]; try done. 
Qed.

Lemma migrate_done h c target token now :
  mc_role h = Host -> mc_role c = Client -> busy h = false -> busy c = false -> (forall g t, mc_committed c = Some (g, t) -> g <= mc_active_generation h) ->
  mc_active_generation c = mc_active_generation h -> 0 <= mc_active_generation h < U64_MAX -> target <> ToIce -> token <> ZERO_TOKEN ->
  migrate h c target token now =
    (after (mc_active_generation h) token now Host (mc_last_request h) (mc_old_rtt h), after (mc_active_generation h) token now Client (mc_last_request c) (mc_old_rtt c)).
Proof.
  intros Hh Hc [Eh Hsh]%not_busy [Ec _]%not_busy Hcm Ha Hg Ht Htok. rewrite Hh in Eh. rewrite Hc, Ha in Ec. set (g := mc_active_generation h) in *. rewrite Eh, Ec.
  unfold migrate, start. cbn [mc_pending mc_draining mc_state mc_role mc_active_generation is_some orb].
  rewrite (bool_decide_eq_false_2 (mc_state h = _)), (bool_decide_eq_true_2 (Host = Host)), (bool_decide_eq_false_2 (target = _)) by done. cbn [negb].
  rewrite checked_add64_some by (unfold U64_MAX in *; lia). unfold prepare. cbn [app perform].
  change (opened _ now) with (at_ g token target now Host Preparing true false false (mc_committed h) (mc_last_request h) (mc_old_rtt h), [Send (g + 1) (Probe (g + 1) token)]).
  cbn [mbind list_bind app pump]. rewrite hear_prepare by done. cbn [app pump]. rewrite hear_probe by done. cbn [app pump].
  rewrite hear_probe by done. cbn [app pump]. rewrite hear_probe_ack by done. cbn [app pump]. rewrite hear_probe_ack by done. cbn [app pump].
  rewrite hear_ready_client. cbn [app pump]. rewrite hear_ready_host. cbn [app pump]. rewrite hear_commit by (intros E%Hcm; lia). cbn [app pump].
  rewrite hear_commit_ack. reflexivity.
Qed.

(** A tick past the deadline gives the attempt up, one way or the other. *)
Lemma tick_expired m p now :
  mc_pending m = Some p -> pm_deadline p <= now -> match mc_draining m with Some (_, until) => now < until | None => True end ->
  tick m now = fail_preparation m Timeout.
Proof.
  intros Hp Hd Hdr. unfold tick. replace (match mc_draining m with Some (_, until) => until <=? now | None => false end) with false.
  - rewrite Hp. by rewrite (proj2 (Z.leb_le _ _)) by done.
  - destruct (mc_draining m) as [[? until]|]; [|done]. symmetry. by apply Z.leb_gt.
Qed.

Lemma fail_abandons m p reason :
  Local m -> mc_pending m = Some p -> ~ committing m ->
  fail_preparation m reason = (m <| mc_pending := None |> <| mc_state := Failed |>, [Send (mc_active_generation m) (Abort (mc_active_generation m + 1) reason); Discard]).
Proof.
  intros (Lp & _) Hp Hn. unfold fail_preparation. rewrite !bool_decide_eq_false_2 by (intros E; apply Hn; unfold committing; auto). cbn [orb].
  by rewrite Hp, (Lp p Hp).
Qed.

Lemma fail_closes m reason : committing m -> fail_preparation m reason = (m <| mc_state := CommitUnconfirmedState |>, [Discard]).
Proof. unfold fail_preparation. intros [E|E]; rewrite E; reflexivity. Qed.

(** ** What the controllers guarantee *)

(** (C14) The two ends never disagree about the path. In every run of a host and
    a client controller, whatever the owners, the clocks and the network do
    (records lost, delayed, repeated, on any slot, timeouts at any moment), the
    client is on the host's active generation, or one ahead while the host has
    sent a commit that is not confirmed. In that case the host refuses to send
    application data at all, so a path the host sends on is always the client's
    active one and the client accepts what arrives on it. *)
Theorem migration_agreement (s : Pair) :
  pair_reachable s ->
  let h := pr_host s in
  let c := pr_client s in
  (mc_active_generation c = mc_active_generation h \/
   (mc_active_generation c = mc_active_generation h + 1 /\ exists p, mc_pending h = Some p /\ pm_generation p = mc_active_generation c /\ application_slot h <> Good (mc_active_generation h))) /\
  (forall slot, application_slot h = Good slot -> slot = mc_active_generation c /\ forall now, accepts_application c slot now = true).
Proof.
  intros (_ & _ & (Lp & Lc & _) & _ & _ & _ & Hagree)%pair_ok h c. fold h c in Lp, Lc, Hagree. split.
  - destruct Hagree as [|[Ha Hcm]]; [by left|right]. split; [done|]. destruct (Lc Hcm) as (p & Hp & _). exists p. split; [done|]. split; [rewrite (Lp p Hp); lia|].
    unfold application_slot. by destruct Hcm as [-> | ->].
  - intros slot Hs. assert (slot = mc_active_generation h /\ ~ committing h) as [-> Hn].
    { unfold application_slot in Hs. destruct (mc_state h) eqn:E; simplify_eq; (split; [done|]); by intros [?|?]; congruence. }
    destruct Hagree as [Ha|[_ Hcm]]; [|done]. split; [done|]. intros now. unfold accepts_application. by rewrite Ha, Z.eqb_refl.
Qed.

(** (C15) A migration ends. From any reachable pair of controllers that are not
    busy, a migration that nothing disturbs completes: both ends are on the next
    generation, in the active state, with nothing pending and the old path
    draining. And no attempt hangs: at the first tick after both its deadline
    and the end of any drain have passed, the client, and the host when it never
    sent the commit of the attempt's generation, abandon it in the failed state
    with an abort on the old path; the host that did send that commit keeps the
    attempt, sends nothing and fails closed in the unconfirmed state. *)
Theorem migration_ends (s : Pair) (target : MigrationTarget) (token : list Z) (now : Z) :
  pair_reachable s -> target <> ToIce -> token <> ZERO_TOKEN ->
  let h := pr_host s in
  let c := pr_client s in
  let g := mc_active_generation h in
  (0 <= g < U64_MAX -> busy h = false -> busy c = false ->
   let '(h', c') := migrate h c target token now in
   mc_active_generation h' = g + 1 /\ mc_active_generation c' = g + 1 /\ mc_state h' = Active /\ mc_state c' = Active /\
   mc_pending h' = None /\ mc_pending c' = None /\ mc_draining h' = Some (g, now + drain_grace (mc_old_rtt h)) /\ mc_draining c' = Some (g, now + drain_grace (mc_old_rtt c))) /\
  (forall m p, mc_pending m = Some p -> pm_deadline p <= now -> match mc_draining m with Some (_, until) => now < until | None => True end ->
   let abandoned := (m <| mc_pending := None |> <| mc_state := Failed |>,
                     [Send (mc_active_generation m) (Abort (mc_active_generation m + 1) Timeout); Discard]) in
   (m = c -> tick m now = abandoned) /\
   (m = h -> ~ (exists t, Commit (g + 1) t ∈ pr_host_sent s) -> tick m now = abandoned) /\
   (m = h -> (exists t, Commit (g + 1) t ∈ pr_host_sent s) -> tick m now = (m <| mc_state := CommitUnconfirmedState |>, [Discard]))).
Proof.
  intros Hr Ht Htok h c g. pose proof (pair_ok s Hr) as (Hh & Hc & Lh & Lc & _ & _ & Hagree). fold h c in Hh, Hc, Lh, Lc, Hagree. split.
  - intros Hg Hbh Hbc. assert (Ha : mc_active_generation c = g).
    { destruct Hagree as [|[_ Hcm]]; [done|]. destruct (proj1 (proj2 Lh) Hcm) as (p & Hp & _). unfold busy in Hbh. by rewrite Hp in Hbh. }
    rewrite migrate_done; try done. intros g' t Hcm. fold g. rewrite <- Ha. by eapply (proj2 (proj2 Lc)).
  - intros m p Hp Hd Hdr abandoned. destruct (committing_sent s Hr) as [Hcs Hcc]. unfold abandoned. split; [|split].
    + intros ->. by rewrite (tick_expired c p) by done; rewrite (fail_abandons c p).
    + intros ->. intros Hn. rewrite (tick_expired h p) by done. apply (fail_abandons h p); [done..|]. intros Hcm. by apply Hn, Hcs.
    + intros ->. intros Hs. rewrite (tick_expired h p) by done. apply fail_closes. by apply Hcs.
Qed.

(** ** Concrete runs *)

Definition demo_pair : Pair := mkPair (controller_new Host) (controller_new Client) [] [].

Lemma migration_agreement_witness :
  let s := mkPair (apply_op (controller_new Host) (OStart ToDirectUdp [1] 0)).1 (controller_new Client) (sent (apply_op (controller_new Host) (OStart ToDirectUdp [1] 0)).2 ++ []) [] in
  application_slot (pr_host s) = Good 1 /\ mc_active_generation (pr_client s) = 1.
Proof.
  intros s. assert (pair_reachable s) as Hr.
  { eapply pair_next; [apply pair_start|]. exact (step_host demo_pair (OStart ToDirectUdp [1] 0) I). }
  split; [reflexivity|]. destruct (migration_agreement s Hr) as [_ H]. destruct (H 1 eq_refl) as [E _]. by symmetry.
Defined.

Lemma migration_ends_witness :
  let '(h', c') := migrate (pr_host demo_pair) (pr_client demo_pair) ToOpaqueRelay [7] 100 in
  mc_active_generation h' = 2 /\ mc_active_generation c' = 2.
Proof.
  destruct (migration_ends demo_pair ToOpaqueRelay [7] 100) as [H _]; [apply pair_start|done|done|].
  assert (0 <= mc_active_generation (pr_host demo_pair) < U64_MAX) as Hg by by vm_compute.
  specialize (H Hg eq_refl eq_refl). destruct (migrate _ _ _ _ _) as [h' c']. destruct H as (H1 & H2 & _). split; [exact H1|exact H2].
Defined.
