(* ===== verification/AckWindow.v ===== *)
(** * Transport acknowledgements ([client-core/src/transport_ack.rs])

    The receive window that coalesces acknowledgements of authenticated
    application packets: a 64-counter bitmap, a pending bitmap and the timer
    that bounds how long an acknowledgement is held back. The record it produces
    is the one [Records.TransportMeta] encodes. *)

From stdpp Require Import sets.
From Stdlib Require Import SpecFloat.
From S2P Require Import Prelude F64 Fallible Datagram Records.
Import TransportMeta.

(** A duration is nanoseconds; [as_secs_f64]. *)
Definition NANOS_PER_SEC : Z := 1000000000.
Definition as_secs_f64 (d : Z) : f64 := (f_of_Z (d / NANOS_PER_SEC) + f_of_Z (d mod NANOS_PER_SEC) / f_of_Z NANOS_PER_SEC)%f64.

(** [x.round() as u32]: ties away from zero, then saturation; not a number is 0. *)
Definition f_round_u32 (x : f64) : Z :=
  match x with
  | S754_finite false m e =>
      let v := if 0 <=? e then Z.shiftl (Zpos m) e else (Zpos m + Z.shiftl 1 (- e - 1)) / Z.shiftl 1 (- e) in
      Z.min U32_MAX v
  | S754_infinity false => U32_MAX
  | _ => 0
  end.

Record TransportAckConfig := mkAckConfig { tc_packet_threshold : Z; tc_max_delay : Z; tc_immediate_on_gap : bool }.

Definition default_config : TransportAckConfig := mkAckConfig 2 2000000 true.

Inductive TransportAckConfigError := ZeroPacketThreshold | ZeroMaxDelay | MaxDelayTooLarge.

Inductive TransportAckWindowError :=
  | InvalidGeneration
  | InvalidTimestamp
  | InvalidPolicy (e : TransportAckConfigError)
  | InvalidRecord (e : TransportMetaError).

Definition validate (c : TransportAckConfig) : fallible TransportAckConfigError TransportAckConfig :=
  if tc_packet_threshold c =? 0 then Bad ZeroPacketThreshold else
  if tc_max_delay c =? 0 then Bad ZeroMaxDelay else
  if MAX_ACK_DELAY_US * 1000 <? tc_max_delay c then Bad MaxDelayTooLarge else Good c.

Definition config_new (packet_threshold max_delay : Z) (immediate_on_gap : bool) : fallible TransportAckConfigError TransportAckConfig :=
  validate (mkAckConfig packet_threshold max_delay immediate_on_gap).

Record TransportAckWindow := mkAckWindow {
  aw_config : TransportAckConfig;
  aw_generation : Z;
  aw_largest_counter : option Z;
  aw_received_mask : Z;
  aw_pending_mask : Z;
  aw_largest_received_at_ms : f64;
  aw_pending_since_ms : option f64;
  aw_force_ack : bool;
}.

#[export] Instance TransportAckWindow_eta : Eta TransportAckWindow := fun w =>
  mkAckWindow (aw_config w) (aw_generation w) (aw_largest_counter w) (aw_received_mask w) (aw_pending_mask w)
              (aw_largest_received_at_ms w) (aw_pending_since_ms w) (aw_force_ack w).

Definition try_new (generation : Z) (config : TransportAckConfig) : fallible TransportAckWindowError TransportAckWindow :=
  if generation =? 0 then Bad InvalidGeneration else
  match validate config with
  | Bad e => Bad (InvalidPolicy e)
  | Good config => Good (mkAckWindow config generation None 0 0 f_zero None false)
  end.

(** [u64::count_ones]. *)
Definition count_ones (mask : Z) : Z := foldr (fun i n => n + Z.b2z (Z.testbit mask i)) 0 (seqZ 0 64).

Definition pending_count (w : TransportAckWindow) : Z := count_ones (aw_pending_mask w).
Definition pending (w : TransportAckWindow) : Z := count_ones (aw_pending_mask w).
Definition generation (w : TransportAckWindow) : Z := aw_generation w.

Definition mark_pending (w : TransportAckWindow) (received_at_ms : f64) (gap : bool) : TransportAckWindow :=
  let w := match aw_pending_since_ms w with None => w <| aw_pending_since_ms := Some received_at_ms |> | Some _ => w end in
  w <| aw_force_ack := aw_force_ack w || (gap && tc_immediate_on_gap (aw_config w)) |>.

(** [mask << shift] of a [u64]. *)
Definition shl64 (mask shift : Z) : Z := Z.land (Z.shiftl mask shift) U64_MAX.

Definition observe_valid (w : TransportAckWindow) (counter : Z) (received_at_ms : f64) : TransportAckWindow :=
  match aw_largest_counter w with
  | None =>
      w <| aw_largest_counter := Some counter |> <| aw_received_mask := 1 |> <| aw_pending_mask := 1 |>
        <| aw_largest_received_at_ms := received_at_ms |> <| aw_pending_since_ms := Some received_at_ms |>
  | Some largest_counter =>
      if largest_counter <? counter then
        let delta := counter - largest_counter in
        let w :=
          if 64 <=? delta then w <| aw_received_mask := 1 |> <| aw_pending_mask := 1 |>
          else w <| aw_received_mask := Z.lor (shl64 (aw_received_mask w) delta) 1 |> <| aw_pending_mask := Z.lor (shl64 (aw_pending_mask w) delta) 1 |> in
        let w := w <| aw_largest_counter := Some counter |> <| aw_largest_received_at_ms := received_at_ms |> in
        mark_pending w received_at_ms (1 <? delta)
      else
        let offset := largest_counter - counter in
        if 64 <=? offset then w else
        let bit := Z.shiftl 1 offset in
        if negb (Z.land (aw_received_mask w) bit =? 0) then w else
        mark_pending (w <| aw_received_mask := Z.lor (aw_received_mask w) bit |> <| aw_pending_mask := Z.lor (aw_pending_mask w) bit |>) received_at_ms true
  end.

(** The time checks of [observe]: the counter is looked at when this holds. *)
Definition timely (w : TransportAckWindow) (received_at_ms : f64) : bool :=
  if negb (f_is_finite received_at_ms) || (received_at_ms <? f_zero)%f64 then false else
  match aw_pending_since_ms w with
  | None => negb (match aw_largest_counter w with Some _ => (received_at_ms <? aw_largest_received_at_ms w)%f64 | None => false end)
  | Some last_received_at_ms => negb (received_at_ms <? last_received_at_ms)%f64
  end.

Definition observe (w : TransportAckWindow) (counter : Z) (received_at_ms : f64) : TransportAckWindow :=
  if timely w received_at_ms then observe_valid w counter received_at_ms else w.

Definition max_delay_ms (w : TransportAckWindow) : f64 := (as_secs_f64 (tc_max_delay (aw_config w)) * f_of_Z 1000)%f64.

Definition due (w : TransportAckWindow) (now_ms : f64) : bool :=
  match aw_pending_since_ms w with
  | None => false
  | Some pending_since_ms =>
      if negb (f_is_finite now_ms) || (now_ms <? pending_since_ms)%f64 then false else
      aw_force_ack w || (tc_packet_threshold (aw_config w) <=? pending_count w) || (max_delay_ms w <=? now_ms - pending_since_ms)%f64
  end.

Definition take (w : TransportAckWindow) (now_ms : f64) (generation : Z) : TransportAckWindow * option TransportAck :=
  if negb (generation =? aw_generation w) || negb (due w now_ms) then (w, None) else
  match aw_largest_counter w with
  | None => (w, None)
  | Some largest_counter =>
      let delay_ms := f_min (f_max (now_ms - aw_largest_received_at_ms w) f_zero) (f_of_Z MAX_ACK_DELAY_US / f_of_Z 1000) in
      let delay_us := f_round_u32 (delay_ms * f_of_Z 1000) in
      let ack := mkTransportAck (aw_generation w) largest_counter (aw_received_mask w) (Z.min delay_us MAX_ACK_DELAY_US) in
      (w <| aw_pending_mask := 0 |> <| aw_pending_since_ms := None |> <| aw_force_ack := false |>, Some ack)
  end.

Definition reset (w : TransportAckWindow) (generation : Z) : TransportAckWindow :=
  if generation =? 0 then w else
  w <| aw_generation := generation |> <| aw_largest_counter := None |> <| aw_received_mask := 0 |> <| aw_pending_mask := 0 |>
    <| aw_largest_received_at_ms := f_zero |> <| aw_pending_since_ms := None |> <| aw_force_ack := false |>.

(** [next_wake], as the seconds given to [Duration::from_secs_f64]. *)
Definition next_wake (w : TransportAckWindow) (now_ms : f64) : option f64 :=
  pending_since_ms ← aw_pending_since_ms w;
  if due w now_ms then Some f_zero else
  let due_ms := (pending_since_ms + max_delay_ms w)%f64 in
  let wait_ms := f_max (due_ms - now_ms)%f64 f_zero in
  if f_is_finite wait_ms then Some (wait_ms / f_of_Z 1000)%f64 else None.

(** ** Runs, with the counters they saw

    [seen] are the counters looked at since the last reset, [fresh] those of
    them not yet reported. *)

Inductive AckOp :=
  | AObserve (counter : Z) (received_at_ms : f64)
  | ATake (now_ms : f64) (generation : Z)
  | AReset (generation : Z).

Record AckRun := mkAckRun { ar_window : TransportAckWindow; ar_seen : list Z; ar_fresh : list Z }.

(** Whether [observe_valid] takes note of a counter. *)
Definition noted (w : TransportAckWindow) (counter : Z) : bool :=
  match aw_largest_counter w with
  | None => true
  | Some largest => (largest <? counter) || ((largest - counter <? 64) && negb (Z.testbit (aw_received_mask w) (largest - counter)))
  end.

Definition ack_step (r : AckRun) (op : AckOp) : AckRun :=
  let w := ar_window r in
  match op with
  | AObserve counter t =>
      if timely w t && noted w counter then mkAckRun (observe w counter t) (counter :: ar_seen r) (counter :: ar_fresh r)
      else mkAckRun (observe w counter t) (ar_seen r) (ar_fresh r)
  | ATake now generation =>
      match take w now generation with
      | (w, Some _) => mkAckRun w (ar_seen r) []
      | (w, None) => mkAckRun w (ar_seen r) (ar_fresh r)
      end
  | AReset generation => if generation =? 0 then mkAckRun (reset w generation) (ar_seen r) (ar_fresh r) else mkAckRun (reset w generation) [] []
  end.

Definition ack_run (w : TransportAckWindow) (ops : list AckOp) : AckRun := fold_left ack_step ops (mkAckRun w [] []).

Definition ack_op_ok (op : AckOp) : Prop := match op with AObserve c _ => is_u64 c | AReset g => is_u64 g | _ => True end.

(** Bit [d] of a mask says whether counter [largest - d] is in the list. *)
Definition Mirrors (mask largest : Z) (l : list Z) : Prop :=
  0 <= mask <= U64_MAX /\ forall d, 0 <= d < 64 -> Z.testbit mask d = bool_decide ((largest - d) ∈ l).

Record AckInv (r : AckRun) : Prop := mkAckInv {
  ai_u64 : Forall is_u64 (ar_seen r);
  ai_generation : 0 < aw_generation (ar_window r) <= U64_MAX;
  ai_fresh : Forall (fun c => c ∈ ar_seen r) (ar_fresh r);
  ai_masks : match aw_largest_counter (ar_window r) with
             | None => ar_seen r = [] /\ ar_fresh r = [] /\ aw_pending_since_ms (ar_window r) = None
             | Some largest =>
                 largest ∈ ar_seen r /\ Forall (fun c => c <= largest) (ar_seen r) /\
                 Mirrors (aw_received_mask (ar_window r)) largest (ar_seen r) /\ Mirrors (aw_pending_mask (ar_window r)) largest (ar_fresh r)
             end;
  ai_timer : (ar_fresh r = [] <-> aw_pending_since_ms (ar_window r) = None);
}.

Lemma u64_bound m : 0 <= m -> (forall i, 64 <= i -> Z.testbit m i = false) -> 0 <= m <= U64_MAX.
Proof.
  intros Hm Hb. split; [done|]. destruct (Z.eq_dec m 0) as [->|Hne]; [done|]. assert (Hl : Z.log2 m < 64).
  { destruct (Z.lt_ge_cases (Z.log2 m) 64) as [|Hge]; [done|]. pose proof (Z.bit_log2 m ltac:(lia)) as Ht. by rewrite Hb in Ht. }
  apply (Z.log2_lt_pow2 m 64) in Hl; [|lia]. unfold U64_MAX. lia.
Qed.

Lemma shl64_bound m k : 0 <= shl64 m k <= U64_MAX.
Proof.
  unfold shl64. change U64_MAX with (Z.ones 64) at 1 2. rewrite Z.land_ones by lia. pose proof (Z.mod_pos_bound (Z.shiftl m k) (2 ^ 64)). unfold U64_MAX. lia.
Qed.

Lemma lor_bound a b : 0 <= a <= U64_MAX -> 0 <= b <= U64_MAX -> 0 <= Z.lor a b <= U64_MAX.
Proof.
  intros Ha Hb. apply u64_bound; [apply Z.lor_nonneg; lia|]. intros i Hi. rewrite Z.lor_spec.
  assert (forall x, 0 <= x <= U64_MAX -> Z.testbit x i = false) as H.
  { intros x Hx. destruct (Z.eq_dec x 0) as [->|]; [apply Z.bits_0|]. apply Z.bits_above_log2; [lia|]. apply (Z.lt_le_trans _ 64); [|done]. apply Z.log2_lt_pow2; [lia|]. unfold U64_MAX in Hx. lia. }
  by rewrite !H.
Qed.

Lemma Mirrors_first c : is_u64 c -> Mirrors 1 c [c].
Proof.
  intros Hc. split; [done|]. intros d Hd. change 1 with (2 ^ 0). rewrite Z.pow2_bits_eqb by lia. apply Bool.eq_true_iff_eq.
  rewrite bool_decide_eq_true, Z.eqb_eq, list_elem_of_singleton. lia.
Qed.

(** A newer counter shifts the bitmap; one 64 or more ahead starts it again. *)
Lemma Mirrors_newer mask largest l c :
  Mirrors mask largest l -> Forall (fun x => x <= largest) l -> largest < c ->
  Mirrors (if 64 <=? c - largest then 1 else Z.lor (shl64 mask (c - largest)) 1) c (c :: l).
Proof.
  intros [_ Hm] Hle Hc. rewrite list.Forall_forall in Hle. destruct (64 <=? c - largest) eqn:E; bool_prop.
  - split; [done|]. intros d Hd. change 1 with (2 ^ 0). rewrite Z.pow2_bits_eqb by lia. apply Bool.eq_true_iff_eq.
    rewrite bool_decide_eq_true, Z.eqb_eq, elem_of_cons. split; [intros <-; left; lia|]. intros [?|?%Hle]; lia.
  - split; [apply lor_bound; [apply shl64_bound|done]|]. intros d Hd. unfold shl64. rewrite testbit_shifted by lia. apply Bool.eq_true_iff_eq.
    rewrite bool_decide_eq_true, elem_of_cons. destruct (d =? 0) eqn:Ed; bool_prop; [subst; split; [left; lia|done]|].
    destruct (d <? c - largest) eqn:El; bool_prop; [split; [done|]; intros [?|?%Hle]; lia|].
    rewrite Hm, bool_decide_eq_true by lia. replace (largest - (d - (c - largest))) with (c - d) by lia. intuition lia.
Qed.

Lemma Mirrors_older mask largest l c :
  Mirrors mask largest l -> 0 <= largest - c < 64 -> Mirrors (Z.lor mask (Z.shiftl 1 (largest - c))) largest (c :: l).
Proof.
  intros [Hb Hm] Hc. rewrite Z.shiftl_1_l. split.
  - apply lor_bound; [done|]. pose proof (Z.pow_pos_nonneg 2 (largest - c)). pose proof (Z.pow_le_mono_r 2 (largest - c) 63). unfold U64_MAX. lia.
  - intros d Hd. rewrite Z.lor_spec, Z.pow2_bits_eqb, Hm by lia. apply Bool.eq_true_iff_eq. rewrite orb_true_iff, !bool_decide_eq_true, elem_of_cons, Z.eqb_eq. intuition lia.
Qed.

Lemma observe_unnoted w c t : noted w c = false -> observe_valid w c t = w.
Proof.
  unfold noted, observe_valid. destruct (aw_largest_counter w) as [largest|]; [|done]. destruct (largest <? c) eqn:E; [done|]. cbn [orb]. bool_prop.
  destruct (64 <=? largest - c) eqn:E2; [done|]. bool_prop. rewrite (proj2 (Z.ltb_lt _ _)) by lia. cbn [andb]. intros Hb%negb_false_iff. rewrite land_bit, negb_involutive, Hb by lia. done.
Qed.

(** [mark_pending] only starts the timer and forces. *)
Lemma mark_pending_fields w t gap : let w' := mark_pending w t gap in
  aw_generation w' = aw_generation w /\ aw_largest_counter w' = aw_largest_counter w /\ aw_received_mask w' = aw_received_mask w /\
  aw_pending_mask w' = aw_pending_mask w /\ aw_pending_since_ms w' <> None /\ aw_config w' = aw_config w.
Proof. unfold mark_pending. destruct (aw_pending_since_ms w) eqn:E; cbn; rewrite ?E; done. Qed.

Lemma observe_inv r c t : AckInv r -> is_u64 c -> noted (ar_window r) c = true ->
  AckInv (mkAckRun (observe_valid (ar_window r) c t) (c :: ar_seen r) (c :: ar_fresh r)).
Proof.
  intros [Hu Hg Hf Hm Ht] Hc Hn. destruct r as [w seen fresh]. cbn [ar_window ar_seen ar_fresh] in *.
  assert (Hf' : Forall (fun x => x ∈ c :: seen) (c :: fresh)) by (constructor; [set_solver|]; eapply Forall_impl; [|exact Hf]; set_solver).
  unfold observe_valid. unfold noted in Hn. destruct (aw_largest_counter w) as [largest|] eqn:El.
  - destruct Hm as (Hin & Hle & Hrm & Hpm). assert (Hlef : Forall (fun x => x <= largest) fresh) by (rewrite list.Forall_forall in *; intros x Hx; by apply Hle, Hf).
    destruct (largest <? c) eqn:E; bool_prop.
    + cbv zeta. pose proof (Mirrors_newer _ _ _ c Hrm Hle E) as H1. pose proof (Mirrors_newer _ _ _ c Hpm Hlef E) as H2.
      set (w1 := if 64 <=? c - largest then _ else _). set (w2 := w1 <| aw_largest_counter := Some c |> <| aw_largest_received_at_ms := t |>).
      destruct (mark_pending_fields w2 t (1 <? c - largest)) as (F1 & F2 & F3 & F4 & F5 & _).
      assert (aw_received_mask w2 = if 64 <=? c - largest then 1 else Z.lor (shl64 (aw_received_mask w) (c - largest)) 1) as Er by (unfold w2, w1; by case_match).
      assert (aw_pending_mask w2 = if 64 <=? c - largest then 1 else Z.lor (shl64 (aw_pending_mask w) (c - largest)) 1) as Ep by (unfold w2, w1; by case_match).
      assert (aw_generation w2 = aw_generation w) as Eg by (unfold w2, w1; by case_match).
      split; cbn [ar_window ar_seen ar_fresh]; [by constructor|by rewrite F1, Eg|done| |by split].
      rewrite F2. cbn [aw_largest_counter w2 set_field]. rewrite F3, F4, Er, Ep. split; [set_solver|]. split; [constructor; [lia|]; eapply Forall_impl; [|exact Hle]; cbn; lia|done].
    + cbn [orb] in Hn. apply andb_true_iff in Hn as [Hlt Hbit]. bool_prop. cbv zeta. rewrite (proj2 (Z.leb_gt _ _)) by lia. rewrite land_bit, negb_involutive by lia.
      rewrite Hbit. set (w1 := w <| aw_received_mask := _ |> <| aw_pending_mask := _ |>).
      destruct (mark_pending_fields w1 t true) as (F1 & F2 & F3 & F4 & F5 & _).
      split; cbn [ar_window ar_seen ar_fresh]; [by constructor|by rewrite F1|done| |by split]. rewrite F2. unfold w1 at 1. cbn [aw_largest_counter set_field]. rewrite El, F3, F4.
      split; [set_solver|]. split; [by constructor|]. split; apply Mirrors_older; done || lia.
  - destruct Hm as (-> & -> & _). split; cbn; [by constructor|done|done| |done]. split; [set_solver|]. split; [by constructor|]. split; by apply Mirrors_first.
Qed.

Lemma take_inv r now g w' ack : AckInv r -> take (ar_window r) now g = (w', Some ack) -> AckInv (mkAckRun w' (ar_seen r) []).
Proof.
  intros [Hu Hg Hf Hm Ht]. unfold take. destruct (_ || _); [done|]. destruct (aw_largest_counter (ar_window r)) as [largest|] eqn:El; [|done].
  intros [<- _]%pair_equal_spec. destruct Hm as (Hin & Hle & Hrm & Hpm). split; cbn; [done|done|constructor| |done]. rewrite El. split; [done|]. split; [done|]. split; [done|].
  split; [unfold U64_MAX; lia|]. intros d Hd. rewrite Z.bits_0. symmetry. apply bool_decide_eq_false. apply not_elem_of_nil.
Qed.

Lemma take_none w now g w' : take w now g = (w', None) -> w' = w.
Proof. unfold take. destruct (_ || _); [by intros [= <-]|]. destruct (aw_largest_counter w); [done|by intros [= <-]]. Qed.

Lemma ack_step_inv r op : AckInv r -> ack_op_ok op -> AckInv (ack_step r op).
Proof.
  intros HI Hop. destruct op as [c t|now g|g]; cbn [ack_step ack_op_ok] in *.
  - unfold observe. destruct (timely (ar_window r) t) eqn:Et; cbn [andb]; [|by destruct r]. destruct (noted (ar_window r) c) eqn:En; [by apply observe_inv|].
    rewrite observe_unnoted by done. by destruct r.
  - destruct (take (ar_window r) now g) as [w' [ack|]] eqn:E; [by eapply take_inv|]. apply take_none in E as ->. by destruct r.
  - unfold reset. destruct (g =? 0) eqn:E; [by destruct r|]. bool_prop. destruct HI. split; cbn; [constructor|unfold is_u64 in Hop; lia|constructor|done|done].
Qed.

Lemma ack_run_inv g config w ops : is_u64 g -> try_new g config = Good w -> Forall ack_op_ok ops -> AckInv (ack_run w ops).
Proof.
  intros Hg Hw Hops. unfold ack_run. assert (AckInv (mkAckRun w [] [])) as HI.
  { unfold try_new in Hw. destruct (g =? 0) eqn:E; [done|]. destruct (validate config); [|done]. injection Hw as <-. bool_prop. split; cbn; [constructor|unfold is_u64 in Hg; lia|constructor|done|done]. }
  revert HI. generalize (mkAckRun w [] []). induction Hops as [|op ops Hop _ IH]; intros r HI; [done|]. apply IH. by apply ack_step_inv.
Qed.

Lemma f_round_u32_nonneg x : 0 <= f_round_u32 x.
Proof.
  destruct x as [s|s| |s m e]; cbn; try lia; destruct s; cbn; unfold U32_MAX; try lia. apply Z.min_glb; [lia|]. destruct (0 <=? e) eqn:E; bool_prop.
  - apply Z.shiftl_nonneg. lia.
  - apply Z.div_pos; [|rewrite Z.shiftl_1_l; apply Z.pow_pos_nonneg; lia]. pose proof (proj2 (Z.shiftl_nonneg 1 (- e - 1)) ltac:(lia)). lia.
Qed.

(** (C16) Transport acknowledgements are exact. After any sequence of packets,
    takes and path changes, the acknowledgement that [take] hands out names the
    current generation, the largest counter seen on it and, bit for bit, which of
    the 64 counters up to it were seen; it is a legal record, so it encodes and
    the peer decodes the same one; and it leaves nothing pending. Nothing waits
    for ever: while a counter is unreported a timer is running, and once the
    configured delay has passed on it an acknowledgement is due. *)
Theorem ack_window_exact (g : Z) (config : TransportAckConfig) (w : TransportAckWindow) (ops : list AckOp) :
  is_u64 g -> try_new g config = Good w -> Forall ack_op_ok ops ->
  let r := ack_run w ops in
  (forall now gen w' ack, take (ar_window r) now gen = (w', Some ack) ->
     ta_generation ack = aw_generation (ar_window r) /\ gen = aw_generation (ar_window r) /\
     ta_largest_counter ack ∈ ar_seen r /\ Forall (fun c => c <= ta_largest_counter ack) (ar_seen r) /\
     (forall d, 0 <= d < 64 -> Z.testbit (ta_received_mask ack) d = bool_decide ((ta_largest_counter ack - d) ∈ ar_seen r)) /\
     (exists b, encode ack = Good b /\ decode b = Good ack) /\ pending w' = 0) /\
  (ar_fresh r <> [] -> exists t, aw_pending_since_ms (ar_window r) = Some t /\
     forall now, f_is_finite now = true -> (now <? t)%f64 = false -> (max_delay_ms (ar_window r) <=? now - t)%f64 = true ->
     exists w' ack, take (ar_window r) now (aw_generation (ar_window r)) = (w', Some ack)).
Proof.
  intros Hg Hw Hops r. pose proof (ack_run_inv g config w ops Hg Hw Hops) as [Hu Hgen Hf Hm Ht]. fold r in Hu, Hgen, Hf, Hm, Ht. split.
  - intros now gen w' ack. unfold take. destruct (_ || _) eqn:E; [done|]. apply orb_false_iff in E as [E%negb_false_iff%Z.eqb_eq _].
    destruct (aw_largest_counter (ar_window r)) as [largest|] eqn:El; [|done]. destruct Hm as (Hin & Hle & [Hrb Hrm] & _).
    intros [<- [= <-]]%pair_equal_spec. cbn [ta_generation ta_largest_counter ta_received_mask]. do 5 (split; [done|]). split; [|by vm_compute].
    assert (is_u64 largest) as Hl by (rewrite list.Forall_forall in Hu; by apply Hu).
    destruct (wire_round (W := meta_wire) (mkTransportAck (aw_generation (ar_window r)) largest (aw_received_mask (ar_window r))
      (Z.min (f_round_u32 (f_min (f_max (now - aw_largest_received_at_ms (ar_window r)) f_zero) (f_of_Z MAX_ACK_DELAY_US / f_of_Z 1000) * f_of_Z 1000)) MAX_ACK_DELAY_US))) as (b & He & _ & _ & Hd); [|by exists b].
    split; [unfold is_u64; cbn; lia|]. split; [done|]. split; [done|]. split; [cbn; match goal with |- context [f_round_u32 ?x] => pose proof (f_round_u32_nonneg x); generalize dependent (f_round_u32 x) end; intros; unfold MAX_ACK_DELAY_US; lia|].
    cbn [ta_received_mask ta_largest_counter]. split; [rewrite Hrm by lia; apply bool_decide_eq_true; by rewrite Z.sub_0_r|]. intros bit Hbit. rewrite Hrm by (unfold ACK_BITMAP_BITS in Hbit; lia). intros Hx%bool_decide_eq_true.
    rewrite list.Forall_forall in Hu. apply Hu in Hx. unfold is_u64 in Hx. lia.
  - intros Hne. destruct (aw_pending_since_ms (ar_window r)) as [t|] eqn:Ep; [|by destruct Hne; apply Ht]. exists t. split; [done|]. intros now Hfin Hlt Hdel.
    unfold take, due. rewrite Ep, Hfin, Hlt, Hdel, Z.eqb_refl, orb_true_r. cbn [negb orb]. destruct (aw_largest_counter (ar_window r)) as [largest|]; [by eexists _, _|].
    by destruct Hm as (_ & Hm & _).
Qed.

Lemma ack_window_exact_witness :
  let w := mkAckWindow default_config 1 None 0 0 f_zero None false in
  let r := ack_run w [AObserve 5 (f_of_Z 1); AObserve 7 (f_of_Z 2)] in
  exists w' ack, take (ar_window r) (f_of_Z 2) 1 = (w', Some ack) /\ ta_largest_counter ack = 7 /\ ta_received_mask ack = 5 /\ exists b, encode ack = Good b /\ decode b = Good ack.
Proof.
  intros w r. destruct (ack_window_exact 1 default_config w [AObserve 5 (f_of_Z 1); AObserve 7 (f_of_Z 2)]) as [H _].
  - by vm_compute.
  - reflexivity.
  - repeat apply Forall_cons_2; try apply Forall_nil_2; by vm_compute.
  - destruct (take (ar_window r) (f_of_Z 2) 1) as [w' [ack|]] eqn:E; [|by vm_compute in E]. exists w', ack. destruct (H _ _ _ _ E) as (_ & _ & _ & _ & _ & Hb & _).
    split; [reflexivity|]. vm_compute in E. injection E as _ <-. split; [reflexivity|]. split; [reflexivity|exact Hb].
Defined.
