(* ===== verification/Scheduler.v ===== *)
(** * Outbound scheduler ([client-core/src/scheduler.rs])

    The bounded scheduler between the application and the cipher: three class
    queues, strict priority with a byte quantum after which a class yields, and
    the pacer of [Policy] in front of video. [SchedRun] drives it and remembers
    what was accepted and what left, which is what the theorems speak about. *)

From stdpp Require Import sets sorting.
From Stdlib Require Import SpecFloat.
From S2P Require Import Prelude F64 Policy Fallible Datagram Records.

Definition PORTABLE_WIRE_DATAGRAM_BYTES : Z := MAX_DATAGRAM.
Definition DEFAULT_WIRE_RATE_MBPS : f64 := f_of_Z 30.
Definition CRITICAL_QUEUE_CAPACITY : Z := 256.
Definition AUDIO_QUEUE_CAPACITY : Z := 32.
Definition VIDEO_QUEUE_CAPACITY : Z := 256.
Definition WIRE_OVERHEAD_BYTES : Z := HEADER_LEN + TAG_LEN.
Definition DEFAULT_GENERATION : Z := 1.

Inductive OutboundClass := CriticalClass | AudioClass | VideoClass.

#[export] Instance OutboundClass_eq_dec : EqDecision OutboundClass.
Proof. solve_decision. Defined.

Definition class_from_kind (kind : Kind) : OutboundClass :=
  match kind with
  | Datagram.Control | Datagram.Input => CriticalClass
  | Datagram.Audio => AudioClass
  | Datagram.Video => VideoClass
  end.

Record PendingPacket := mkPendingPacket {
  pp_queue_id : Z;
  pp_class : OutboundClass;
  pp_kind : Kind;
  pp_channel : Z;
  pp_flags : Z;
  pp_payload : list Z;
  pp_logical_retransmission : bool;
}.

Definition wire_len (p : PendingPacket) : Z := WIRE_OVERHEAD_BYTES + zlen (pp_payload p).

Inductive QueueOutcome := Queued | DroppedOldest.
Inductive SchedulerError := QueueFull | InvalidPacket | HistoryFull.

Record OutboundScheduler := mkScheduler {
  os_critical : list PendingPacket;
  os_audio : list PendingPacket;
  os_video : list PendingPacket;
  os_pacer : Pacer;
  os_wire_rate_mbps : f64;
  os_generation : Z;
  os_critical_debt_bytes : Z;
  os_audio_debt_bytes : Z;
  os_next_queue_id : Z;
}.

#[export] Instance eta_OutboundScheduler : Eta OutboundScheduler := fun s =>
  mkScheduler (os_critical s) (os_audio s) (os_video s) (os_pacer s) (os_wire_rate_mbps s) (os_generation s)
    (os_critical_debt_bytes s) (os_audio_debt_bytes s) (os_next_queue_id s).

(** The queue and the capacity that [match class] picks. *)
Definition queue_of (s : OutboundScheduler) (c : OutboundClass) : list PendingPacket :=
  match c with CriticalClass => os_critical s | AudioClass => os_audio s | VideoClass => os_video s end.

Definition set_queue (s : OutboundScheduler) (c : OutboundClass) (q : list PendingPacket) : OutboundScheduler :=
  match c with
  | CriticalClass => s <| os_critical := q |>
  | AudioClass => s <| os_audio := q |>
  | VideoClass => s <| os_video := q |>
  end.

Definition capacity_of (c : OutboundClass) : Z :=
  match c with
  | CriticalClass => CRITICAL_QUEUE_CAPACITY
  | AudioClass => AUDIO_QUEUE_CAPACITY
  | VideoClass => VIDEO_QUEUE_CAPACITY
  end.

Definition portable_config : PacerConfig :=
  mkPacerConfig PORTABLE_WIRE_DATAGRAM_BYTES PORTABLE_WIRE_DATAGRAM_BYTES MAX_BURST_DATAGRAMS MAX_BURST_TIME_MS.

(** [new_pacer]; the [expect] never fires ([portable_config_valid]). *)
Definition new_pacer (now_ms : f64) : Pacer :=
  match with_config now_ms portable_config with inl p => p | inr _ => pacer_new now_ms end.

(** [x.ceil() as usize]. *)
Definition f_ceil_usize (x : f64) : Z :=
  match x with
  | S754_finite false m e =>
      Z.min U64_MAX (if 0 <=? e then Z.shiftl (Zpos m) e else (Zpos m + (Z.shiftl 1 (- e) - 1)) / Z.shiftl 1 (- e))
  | S754_infinity false => U64_MAX
  | _ => 0
  end.

Definition priority_quantum_bytes (s : OutboundScheduler) : Z :=
  let datagram := datagram_size (os_pacer s) in
  let packet_cap := Z.min U64_MAX (datagram * MAX_BURST_DATAGRAMS) in
  let rate_bytes_per_ms := (os_wire_rate_mbps s * f_of_Z 1000000 / f_of_Z 8 / f_of_Z 1000)%f64 in
  let time_cap := (rate_bytes_per_ms * f_of_Z 2)%f64 in
  let quantum := f_min (f_max time_cap (f_of_Z datagram)) (f_of_Z packet_cap) in
  if negb (f_is_finite quantum) || (quantum <=? f_zero)%f64 then datagram else f_ceil_usize quantum.

Definition clamp_debt (s : OutboundScheduler) : OutboundScheduler :=
  let quantum := priority_quantum_bytes s in
  s <| os_critical_debt_bytes := Z.min (os_critical_debt_bytes s) quantum |>
    <| os_audio_debt_bytes := Z.min (os_audio_debt_bytes s) quantum |>.

Definition set_wire_rate_mbps (s : OutboundScheduler) (now_ms rate_mbps : f64) : OutboundScheduler :=
  let s := s <| os_pacer := set_rate (os_pacer s) now_ms rate_mbps |> in
  let s := s <| os_wire_rate_mbps := p_rate_mbps (os_pacer s) |> in
  clamp_debt s.

Definition scheduler_new (now_ms : f64) : OutboundScheduler :=
  set_wire_rate_mbps (mkScheduler [] [] [] (new_pacer now_ms) f_zero DEFAULT_GENERATION 0 0 0) now_ms DEFAULT_WIRE_RATE_MBPS.

Definition next_queue_id (s : OutboundScheduler) : OutboundScheduler * Z :=
  (s <| os_next_queue_id := (os_next_queue_id s + 1) mod 2 ^ 64 |>, os_next_queue_id s).

Definition queue_with_id (s : OutboundScheduler) (kind : Kind) (channel flags : Z) (payload : list Z) (logical_retransmission : bool) :
    OutboundScheduler * fallible SchedulerError (QueueOutcome * Z) :=
  if bool_decide (kind = Datagram.Control) && (channel =? TransportMeta.TRANSPORT_META_CHANNEL) then (s, Bad InvalidPacket) else
  if match checked_add64 (zlen payload) WIRE_OVERHEAD_BYTES with None => true | Some len => PORTABLE_WIRE_DATAGRAM_BYTES <? len end
  then (s, Bad InvalidPacket) else
  let class := class_from_kind kind in
  let '(s, queue_id) := next_queue_id s in
  let packet := mkPendingPacket queue_id class kind channel flags payload logical_retransmission in
  let queue := queue_of s class in
  if zlen queue =? capacity_of class then
    if bool_decide (class = CriticalClass) then (s, Bad QueueFull) else
    (set_queue s class (tail queue ++ [packet]), Good (DroppedOldest, queue_id))
  else (set_queue s class (queue ++ [packet]), Good (Queued, queue_id)).

Definition sched_queue (s : OutboundScheduler) (kind : Kind) (channel flags : Z) (payload : list Z) (logical_retransmission : bool) :
    OutboundScheduler * fallible SchedulerError QueueOutcome :=
  let '(s, r) := queue_with_id s kind channel flags payload logical_retransmission in (s, fst <$> r).

Definition video_due (s : OutboundScheduler) (now_ms : f64) : bool :=
  match os_video s with [] => false | packet :: _ => can_consume (os_pacer s) now_ms (wire_len packet) end.

Definition is_nil {A} (l : list A) : bool := match l with [] => true | _ => false end.

Definition priority_must_yield (s : OutboundScheduler) (class : OutboundClass) (now_ms : f64) : bool :=
  let lower_due := match class with
    | CriticalClass => negb (is_nil (os_audio s)) || video_due s now_ms
    | AudioClass => video_due s now_ms
    | VideoClass => false
    end in
  if negb lower_due then false else
  let debt := match class with CriticalClass => os_critical_debt_bytes s | AudioClass => os_audio_debt_bytes s | VideoClass => 0 end in
  priority_quantum_bytes s <=? debt.

Definition select_class (s : OutboundScheduler) (now_ms : f64) : option OutboundClass :=
  if negb (is_nil (os_critical s)) && negb (priority_must_yield s CriticalClass now_ms) then Some CriticalClass else
  if negb (is_nil (os_audio s)) && negb (priority_must_yield s AudioClass now_ms) then Some AudioClass else
  if video_due s now_ms then Some VideoClass else None.

Definition record_service (s : OutboundScheduler) (class : OutboundClass) (len : Z) : OutboundScheduler :=
  let quantum := priority_quantum_bytes s in
  match class with
  | CriticalClass => s <| os_critical_debt_bytes := Z.min (saturating_add U64_MAX (os_critical_debt_bytes s) len) quantum |>
  | AudioClass =>
      s <| os_critical_debt_bytes := 0 |> <| os_audio_debt_bytes := Z.min (saturating_add U64_MAX (os_audio_debt_bytes s) len) quantum |>
  | VideoClass => s <| os_critical_debt_bytes := 0 |> <| os_audio_debt_bytes := 0 |>
  end.

Definition pop_due (s : OutboundScheduler) (now_ms : f64) (next_outer_counter : Z) (can_record : Z -> bool) :
    OutboundScheduler * fallible SchedulerError (option PendingPacket) :=
  match select_class s now_ms with
  | None => (s, Good None)
  | Some class =>
      match queue_of s class with
      | [] => (s, Good None)
      | packet :: rest =>
          if negb (can_record next_outer_counter) then (s, Bad HistoryFull) else
          let '(s, admitted) :=
            if bool_decide (class = VideoClass) then
              let '(pacer, ok) := try_consume (os_pacer s) now_ms (wire_len packet) in (s <| os_pacer := pacer |>, ok)
            else (s, true) in
          if negb admitted then (s, Good None) else
          (record_service (set_queue s class rest) class (wire_len packet), Good (Some packet))
      end
  end.

Definition next_wake_ms (s : OutboundScheduler) (now_ms : f64) : option f64 :=
  match select_class s now_ms with
  | Some _ => Some now_ms
  | None =>
      match os_video s with
      | [] => None
      | packet :: _ =>
          let wait := wait_ms (os_pacer s) now_ms (wire_len packet) in
          if f_is_finite wait then Some (now_ms + wait)%f64 else None
      end
  end.

Definition sched_pending (s : OutboundScheduler) : Z :=
  saturating_add U64_MAX (saturating_add U64_MAX (zlen (os_critical s)) (zlen (os_audio s))) (zlen (os_video s)).

Definition sched_reset_generation (s : OutboundScheduler) (now_ms : f64) (generation : Z) : OutboundScheduler :=
  if generation =? 0 then s else
  s <| os_generation := generation |> <| os_pacer := set_rate (new_pacer now_ms) now_ms (os_wire_rate_mbps s) |>
    <| os_critical_debt_bytes := 0 |> <| os_audio_debt_bytes := 0 |>.

Definition wire_datagram_bytes (s : OutboundScheduler) : Z := datagram_size (os_pacer s).
Definition wire_rate_mbps (s : OutboundScheduler) : f64 := os_wire_rate_mbps s.
Definition sched_generation (s : OutboundScheduler) : Z := os_generation s.

(** ** Runs

    [accepted] are the packets queued so far, [left] those that have left their
    queue, each with whether it was handed out ([true]) or dropped. *)

Inductive SchedOp :=
  | SQueue (kind : Kind) (channel flags : Z) (payload : list Z) (retransmission : bool)
  | SPop (now_ms : f64) (counter : Z) (can_record : Z -> bool)
  | SRate (now_ms rate_mbps : f64)
  | SReset (now_ms : f64) (generation : Z).

Record SchedRun := mkSchedRun { sr_sched : OutboundScheduler; sr_accepted : list PendingPacket; sr_left : list (PendingPacket * bool) }.

Definition sched_step (r : SchedRun) (op : SchedOp) : SchedRun :=
  let s := sr_sched r in
  match op with
  | SQueue kind channel flags payload retransmission =>
      let packet := mkPendingPacket (os_next_queue_id s) (class_from_kind kind) kind channel flags payload retransmission in
      let oldest := head (queue_of s (class_from_kind kind)) in
      match queue_with_id s kind channel flags payload retransmission with
      | (s, Good (Queued, _)) => mkSchedRun s (sr_accepted r ++ [packet]) (sr_left r)
      | (s, Good (DroppedOldest, _)) =>
          mkSchedRun s (sr_accepted r ++ [packet]) (sr_left r ++ match oldest with Some p => [(p, false)] | None => [] end)
      | (s, Bad _) => mkSchedRun s (sr_accepted r) (sr_left r)
      end
  | SPop now counter can_record =>
      match pop_due s now counter can_record with
      | (s, Good (Some p)) => mkSchedRun s (sr_accepted r) (sr_left r ++ [(p, true)])
      | (s, _) => mkSchedRun s (sr_accepted r) (sr_left r)
      end
  | SRate now rate => mkSchedRun (set_wire_rate_mbps s now rate) (sr_accepted r) (sr_left r)
  | SReset now generation => mkSchedRun (sched_reset_generation s now generation) (sr_accepted r) (sr_left r)
  end.

Definition sched_run (s : OutboundScheduler) (ops : list SchedOp) : SchedRun := fold_left sched_step ops (mkSchedRun s [] []).

Definition of_class (c : OutboundClass) (l : list PendingPacket) : list PendingPacket := filter (fun p => pp_class p = c) l.

(** ** Queues *)

Lemma portable_config_valid now : with_config now portable_config = inl (new_pacer now).
Proof. reflexivity. Qed.

Lemma queue_of_set s c d q : queue_of (set_queue s c q) d = if decide (c = d) then q else queue_of s d.
Proof. by destruct c, d. Qed.

Lemma queue_of_service s c len d : queue_of (record_service s c len) d = queue_of s d.
Proof. by destruct c, d. Qed.

Lemma queue_of_rate s now rate c : queue_of (set_wire_rate_mbps s now rate) c = queue_of s c.
Proof. by destruct c. Qed.

Lemma queue_of_reset s now g c : queue_of (sched_reset_generation s now g) c = queue_of s c.
Proof. unfold sched_reset_generation. destruct (g =? 0); [done|]. by destruct c. Qed.

(** A datagram of at least one byte that the pacer says fits is consumed. *)
Lemma try_consume_can p now len : can_consume p now len = true -> (try_consume p now len).2 = true.
Proof.
  unfold can_consume, try_consume. destruct (enabled p) eqn:He; cbn [negb orb]; [|by destruct (len =? 0)]. destruct (len =? 0) eqn:E; [done|].
  intros Hle. rewrite refill_available by done. destruct (available p now <? f_of_Z len)%f64 eqn:Hlt; [|done]. apply f_ltb_not_leb in Hlt. by rewrite Hle in Hlt.
Qed.

Lemma select_nonempty s now c : select_class s now = Some c -> queue_of s c <> [].
Proof.
  unfold select_class. destruct (negb (is_nil (os_critical s)) && _) eqn:E1; [intros [= <-] H; cbn in H; by rewrite H in E1|].
  destruct (negb (is_nil (os_audio s)) && _) eqn:E2; [intros [= <-] H; cbn in H; by rewrite H in E2|].
  destruct (video_due s now) eqn:E3; [|done]. intros [= <-] H. cbn in H. unfold video_due in E3. by rewrite H in E3.
Qed.

Lemma select_video s now : select_class s now = Some VideoClass -> video_due s now = true.
Proof. unfold select_class. by repeat case_match. Qed.

(** Serving a class: the packet at its front leaves, the rest stays. *)
Definition serve (s : OutboundScheduler) (now : f64) (c : OutboundClass) (p : PendingPacket) (rest : list PendingPacket) : OutboundScheduler :=
  let s' := match c with VideoClass => s <| os_pacer := (try_consume (os_pacer s) now (wire_len p)).1 |> | _ => s end in
  record_service (set_queue s' c rest) c (wire_len p).

(** [pop_due] by cases; the refusal of the pacer after selection cannot occur. *)
Lemma pop_due_cases s now counter can :
  match select_class s now with
  | None => pop_due s now counter can = (s, Good None)
  | Some c => exists p rest, queue_of s c = p :: rest /\
      pop_due s now counter can = if can counter then (serve s now c p rest, Good (Some p)) else (s, Bad HistoryFull)
  end.
Proof.
  unfold pop_due. destruct (select_class s now) as [c|] eqn:Es; [|done]. pose proof (select_nonempty _ _ _ Es) as Hne.
  destruct (queue_of s c) as [|p rest] eqn:Eq; [done|]. exists p, rest. split; [done|]. destruct (can counter); [|done]. cbn [negb].
  destruct c; try done. cbn [bool_decide]. apply select_video in Es. unfold video_due in Es. cbn in Eq. rewrite Eq in Es. apply try_consume_can in Es.
  unfold serve. rewrite bool_decide_true by done. destruct (try_consume (os_pacer s) now (wire_len p)) as [pacer ok]. cbn in Es. by rewrite Es.
Qed.

Lemma queue_of_serve s now c p rest d : queue_of (serve s now c p rest) d = if decide (c = d) then rest else queue_of s d.
Proof. unfold serve. rewrite queue_of_service, queue_of_set. destruct (decide (c = d)); [done|]. by destruct c, d. Qed.

(** A packet as [queue] admits it. *)
Definition packet_ok (p : PendingPacket) : Prop :=
  pp_class p = class_from_kind (pp_kind p) /\ wire_len p <= PORTABLE_WIRE_DATAGRAM_BYTES /\
  ~ (pp_kind p = Datagram.Control /\ pp_channel p = TransportMeta.TRANSPORT_META_CHANNEL).

Record SchedInv (n : Z) (r : SchedRun) : Prop := mkSchedInv {
  si_order : forall c, of_class c (sr_accepted r) = of_class c (sr_left r).*1 ++ queue_of (sr_sched r) c;
  si_room : forall c, zlen (queue_of (sr_sched r) c) <= capacity_of c;
  si_critical : Forall (fun x => pp_class x.1 = CriticalClass -> x.2 = true) (sr_left r);
  si_packets : Forall packet_ok (sr_accepted r);
  si_next : 0 <= os_next_queue_id (sr_sched r) <= n;
  si_ids : Forall (fun p => pp_queue_id p < os_next_queue_id (sr_sched r)) (sr_accepted r);
  si_sorted : StronglySorted Z.lt (pp_queue_id <$> sr_accepted r);
}.

Lemma of_class_app c l k : of_class c (l ++ k) = of_class c l ++ of_class c k.
Proof. apply list.filter_app. Qed.

Lemma of_class_one c p : of_class c [p] = if decide (pp_class p = c) then [p] else [].
Proof. unfold of_class. cbn. by case_decide. Qed.

Lemma of_class_uniform c d l : Forall (fun p => pp_class p = c) l -> of_class d l = if decide (c = d) then l else [].
Proof.
  induction 1 as [|p l Hp _ IH]; [by case_decide|]. change (p :: l) with ([p] ++ l). rewrite of_class_app, of_class_one, IH, Hp. by case_decide.
Qed.

(** The front of a queue has its class. *)
Lemma queue_class n r c p rest : SchedInv n r -> queue_of (sr_sched r) c = p :: rest -> pp_class p = c.
Proof.
  intros HI Hq. pose proof (si_order n r HI c) as Ho. assert (p ∈ of_class c (sr_accepted r)) as Hp by (rewrite Ho, Hq; set_solver).
  unfold of_class in Hp. by apply list_elem_of_filter in Hp as [? _].
Qed.

(** [queue_with_id] by cases. *)
Definition fresh_packet (s : OutboundScheduler) (kind : Kind) (channel flags : Z) (payload : list Z) (rt : bool) : PendingPacket :=
  mkPendingPacket (os_next_queue_id s) (class_from_kind kind) kind channel flags payload rt.

Lemma queue_cases s kind channel flags payload rt :
  let p := fresh_packet s kind channel flags payload rt in
  let c := class_from_kind kind in
  let s1 := (next_queue_id s).1 in
  let r := queue_with_id s kind channel flags payload rt in
  r = (s, Bad InvalidPacket) \/
  packet_ok p /\
  (c = CriticalClass /\ r = (s1, Bad QueueFull) \/
   c <> CriticalClass /\ zlen (queue_of s c) = capacity_of c /\ r = (set_queue s1 c (tail (queue_of s c) ++ [p]), Good (DroppedOldest, os_next_queue_id s)) \/
   zlen (queue_of s c) <> capacity_of c /\ r = (set_queue s1 c (queue_of s c ++ [p]), Good (Queued, os_next_queue_id s))).
Proof.
  cbv zeta. unfold queue_with_id. destruct (bool_decide (kind = Datagram.Control) && _) eqn:E1; [by left|].
  destruct (checked_add64 (zlen payload) WIRE_OVERHEAD_BYTES) as [len|] eqn:E2; [|by left]. destruct (_ <? len) eqn:E3; [by left|right]. bool_prop. split.
  { split; [done|]. split.
    - unfold checked_add64 in E2. destruct (_ <=? U64_MAX); [|done]. injection E2 as <-. unfold wire_len. cbn. lia.
    - cbn. intros [-> ->]. rewrite bool_decide_true in E1 by done. by rewrite Z.eqb_refl in E1. }
  unfold next_queue_id. replace (queue_of (s <| os_next_queue_id := _ |>) (class_from_kind kind)) with (queue_of s (class_from_kind kind)) by (by destruct kind).
  destruct (zlen _ =? capacity_of _) eqn:E4; bool_prop; [|right; right; split; [exact E4|reflexivity]].
  clear E1. case_bool_decide as Ec; [left; split; [exact Ec|reflexivity]|right; left; split; [exact Ec|split; [exact E4|reflexivity]]].
Qed.

Lemma queue_of_next s c : queue_of (next_queue_id s).1 c = queue_of s c.
Proof. by destruct c. Qed.

(** Queueing at the back, with what is dropped from the front. *)
Lemma enqueue_inv n r p c dropped q :
  SchedInv n r -> n < 2 ^ 64 - 1 -> packet_ok p -> pp_class p = c -> pp_queue_id p = os_next_queue_id (sr_sched r) ->
  queue_of (sr_sched r) c = dropped ++ q -> zlen q < capacity_of c -> (c = CriticalClass -> dropped = []) ->
  SchedInv (n + 1) (mkSchedRun (set_queue (next_queue_id (sr_sched r)).1 c (q ++ [p])) (sr_accepted r ++ [p]) (sr_left r ++ ((., false) <$> dropped))).
Proof.
  intros HI Hn Hp Hc Hid Hq Hroom Hdrop. pose proof HI as [Ho Hr Hcr Hpk [Hn0 Hn1] Hids Hs].
  assert (Hfst : forall l : list PendingPacket, ((., false) <$> l).*1 = l) by (intros l; induction l as [|x l IH]; [done|]; cbn; by f_equal).
  assert (Hdc : Forall (fun x => pp_class x = c) dropped).
  { rewrite list.Forall_forall. intros x Hx. assert (x ∈ of_class c (sr_accepted r)) as Hf by (rewrite Ho, Hq; set_solver). unfold of_class in Hf. by apply list_elem_of_filter in Hf as [? _]. }
  split; cbn [sr_sched sr_accepted sr_left].
  - intros d. rewrite of_class_app, of_class_one, Ho, fmap_app, of_class_app, Hfst, queue_of_set, queue_of_next, Hc, <- !app_assoc. f_equal. case_decide as Hd.
    + subst d. by rewrite Hq, (of_class_uniform _ _ _ Hdc), decide_True, <- app_assoc.
    + by rewrite app_nil_r, (of_class_uniform _ _ _ Hdc), decide_False.
  - intros d. rewrite queue_of_set, queue_of_next. case_decide; [subst d; zlia|done].
  - apply Forall_app. split; [done|]. destruct (decide (c = CriticalClass)) as [Hcc|Hcc]; [rewrite Hdrop by done; constructor|].
    apply Forall_fmap. eapply Forall_impl; [|exact Hdc]. cbn. congruence.
  - apply Forall_app. by split; [|constructor].
  - destruct c; cbn; rewrite Z.mod_small; lia.
  - assert (os_next_queue_id (set_queue (next_queue_id (sr_sched r)).1 c (q ++ [p])) = os_next_queue_id (sr_sched r) + 1) as -> by (destruct c; cbn; rewrite Z.mod_small; lia).
    apply Forall_app. split; [eapply Forall_impl; [|exact Hids]; cbn; lia|]. constructor; [lia|constructor].
  - rewrite fmap_app. apply StronglySorted_app_2; [|done|repeat constructor]. intros x y Hx Hy. apply list_elem_of_singleton in Hy as ->.
    apply list_elem_of_fmap in Hx as (z & -> & Hz). rewrite list.Forall_forall in Hids. rewrite Hid. by apply Hids.
Qed.

Lemma next_id_inv n r : SchedInv n r -> n < 2 ^ 64 - 1 -> SchedInv (n + 1) (mkSchedRun (next_queue_id (sr_sched r)).1 (sr_accepted r) (sr_left r)).
Proof.
  intros [Ho Hr Hcr Hpk Hn Hids Hs] Hlt. split; cbn [sr_sched sr_accepted sr_left]; try done; try (intros c; by rewrite queue_of_next).
  - cbn. rewrite Z.mod_small; lia.
  - eapply Forall_impl; [|exact Hids]. cbn. rewrite Z.mod_small; lia.
Qed.

(** Operations that leave the queues and the identities alone. *)
Lemma same_queues_inv n r s : SchedInv n r -> (forall c, queue_of s c = queue_of (sr_sched r) c) -> os_next_queue_id s = os_next_queue_id (sr_sched r) ->
  SchedInv (n + 1) (mkSchedRun s (sr_accepted r) (sr_left r)).
Proof.
  intros [Ho Hr Hcr Hpk Hn Hids Hs] Hq Hid. split; cbn [sr_sched sr_accepted sr_left]; rewrite ?Hid; try done; try lia; intros c; by rewrite Hq.
Qed.

Lemma serve_inv n r now c p rest : SchedInv n r -> queue_of (sr_sched r) c = p :: rest ->
  SchedInv (n + 1) (mkSchedRun (serve (sr_sched r) now c p rest) (sr_accepted r) (sr_left r ++ [(p, true)])).
Proof.
  intros HI Hq. pose proof (queue_class n r c p rest HI Hq) as Hpc. destruct HI as [Ho Hr Hcr Hpk Hn Hids Hs].
  assert (Hid : os_next_queue_id (serve (sr_sched r) now c p rest) = os_next_queue_id (sr_sched r)) by (by destruct c).
  split; cbn [sr_sched sr_accepted sr_left]; rewrite ?Hid; try done; try lia.
  - intros d. rewrite Ho, fmap_app, of_class_app, <- app_assoc, queue_of_serve. f_equal. change [(p, true)].*1 with [p]. rewrite of_class_one, Hpc. case_decide; [subst d; by rewrite Hq|done].
  - intros d. rewrite queue_of_serve. specialize (Hr d). case_decide; [subst d; rewrite Hq in Hr; zlia|done].
  - apply Forall_app. split; [done|]. by constructor.
Qed.

Lemma sched_step_inv n r op : SchedInv n r -> n < 2 ^ 64 - 1 -> SchedInv (n + 1) (sched_step r op).
Proof.
  intros HI Hn. destruct op as [kind ch fl pl rt|now ctr can|now rate|now g]; cbn [sched_step].
  - destruct (queue_cases (sr_sched r) kind ch fl pl rt) as [->|[Hp [[_ ->]|[(Hc & Hlen & ->)|[Hlen ->]]]]]; cbv zeta.
    + by apply same_queues_inv.
    + by apply next_id_inv.
    + destruct (queue_of (sr_sched r) (class_from_kind kind)) as [|old q] eqn:Eq; [by destruct kind|]. apply (enqueue_inv n r _ (class_from_kind kind) [old] q); try done. zlia.
    + rewrite <- (app_nil_r (sr_left r)). apply (enqueue_inv n r _ (class_from_kind kind) [] (queue_of (sr_sched r) (class_from_kind kind))); try done.
      pose proof (si_room n r HI (class_from_kind kind)). lia.
  - pose proof (pop_due_cases (sr_sched r) now ctr can) as Hc. destruct (select_class (sr_sched r) now) as [c|]; [|rewrite Hc; by apply same_queues_inv].
    destruct Hc as (p & rest & Hq & ->). destruct (can ctr); [by apply serve_inv|by apply same_queues_inv].
  - apply same_queues_inv; [done| |done]. intros c. apply queue_of_rate.
  - apply same_queues_inv; [done| |unfold sched_reset_generation; by destruct (g =? 0)]. intros c. apply queue_of_reset.
Qed.

Lemma sched_run_inv start ops : zlen ops < 2 ^ 64 -> SchedInv (zlen ops) (sched_run (scheduler_new start) ops).
Proof.
  intros Hlen. assert (forall l n r, SchedInv n r -> n + zlen l < 2 ^ 64 -> SchedInv (n + zlen l) (fold_left sched_step l r)) as H.
  { induction l as [|op l IH]; intros n r HI Hn; [by rewrite zlen_nil, Z.add_0_r|]. cbn [fold_left]. rewrite zlen_cons in *. replace (n + (1 + zlen l)) with (n + 1 + zlen l) by lia.
    apply IH; [|lia]. apply sched_step_inv; [done|zlia]. }
  apply (H ops 0); [|lia]. split; cbn; try done; try constructor; intros c; by destruct c.
Qed.

(** The outbound queues lose nothing they promise to keep. In every run of
    fewer than 2^64 operations from a new scheduler, the packets of each class
    leave in the order they were accepted and each exactly once: what was
    accepted is what left followed by what is queued. A critical packet that left
    was handed out, never dropped; the queues are within their capacities; every
    packet fits a portable datagram and is no transport record; identities
    are distinct, in order. And a pop that hands out nothing changes nothing: it
    reports a full history exactly when some class could be served and the
    counter cannot be recorded, and nothing exactly when no class can be. *)
Theorem scheduler_queues_exact (start : f64) (ops : list SchedOp) :
  zlen ops < 2 ^ 64 ->
  let r := sched_run (scheduler_new start) ops in
  let s := sr_sched r in
  (forall c, of_class c (sr_accepted r) = of_class c (sr_left r).*1 ++ queue_of s c /\ zlen (queue_of s c) <= capacity_of c) /\
  Forall (fun x => pp_class x.1 = CriticalClass -> x.2 = true) (sr_left r) /\
  Forall packet_ok (sr_accepted r) /\
  StronglySorted Z.lt (pp_queue_id <$> sr_accepted r) /\
  (forall now counter can,
     match pop_due s now counter can with
     | (s', Good None) => s' = s /\ select_class s now = None
     | (s', Bad e) => s' = s /\ e = HistoryFull /\ can counter = false /\ select_class s now <> None
     | (s', Good (Some p)) => can counter = true /\ exists c rest, select_class s now = Some c /\ queue_of s c = p :: rest /\ queue_of s' c = rest
     end).
Proof.
  intros Hlen r s. destruct (sched_run_inv start ops Hlen) as [Ho Hr Hcr Hpk _ _ Hs]. fold r s in Ho, Hr, Hcr, Hpk, Hs.
  split; [done|]. split; [done|]. split; [done|]. split; [done|]. intros now counter can.
  pose proof (pop_due_cases s now counter can) as Hc. destruct (select_class s now) as [c|]; [|by rewrite Hc]. destruct Hc as (p & rest & Hq & ->).
  destruct (can counter); [|done]. split; [done|]. exists c, rest. split; [done|]. split; [done|]. rewrite queue_of_serve. by rewrite decide_True.
Qed.

Definition demo_queue (kind : Kind) (b : Z) : SchedOp := SQueue kind 1 0 [b] false.
Definition demo_ops : list SchedOp :=
  [demo_queue Datagram.Video 1; demo_queue Datagram.Audio 2; demo_queue Datagram.Control 3; SPop f_zero 0 (fun _ => true); SPop f_zero 0 (fun _ => false); SPop f_zero 1 (fun _ => true)].

Lemma scheduler_queues_exact_witness :
  let r := sched_run (scheduler_new f_zero) demo_ops in
  (pp_payload <$> (sr_left r).*1) = [[3]; [2]] /\ (pp_payload <$> os_video (sr_sched r)) = [[1]] /\
  of_class AudioClass (sr_accepted r) = of_class AudioClass (sr_left r).*1 ++ queue_of (sr_sched r) AudioClass.
Proof.
  intros r. destruct (scheduler_queues_exact f_zero demo_ops) as [H _]; [reflexivity|]. fold r in H. split; [by vm_compute|]. split; [by vm_compute|]. exact (proj1 (H AudioClass)).
Defined.

(** ** Fairness *)

(** What bounds how long a class can be served before it yields. *)
Record DebtInv (s : OutboundScheduler) : Prop := mkDebtInv {
  di_datagram : datagram_size (os_pacer s) = PORTABLE_WIRE_DATAGRAM_BYTES;
  di_critical : 0 <= os_critical_debt_bytes s <= priority_quantum_bytes s;
  di_audio : 0 <= os_audio_debt_bytes s <= priority_quantum_bytes s;
  di_class : forall c, Forall (fun p => pp_class p = c) (queue_of s c);
}.

Lemma set_rate_datagram p now rate : datagram_size (set_rate p now rate) = datagram_size p.
Proof. unfold set_rate, refill. by repeat case_match. Qed.

Lemma try_consume_datagram p now len : datagram_size (try_consume p now len).1 = datagram_size p.
Proof. unfold try_consume, refill. by repeat case_match. Qed.

Lemma f_ceil_usize_range x : 0 <= f_ceil_usize x <= U64_MAX.
Proof.
  destruct x as [[]|[]| |[] m e]; cbn; try (by split); try (unfold U64_MAX; lia). split; [|lia]. apply Z.min_glb; [done|]. destruct (0 <=? e) eqn:E; bool_prop.
  - by apply Z.shiftl_nonneg.
  - assert (0 < Z.shiftl 1 (- e)) by (rewrite Z.shiftl_1_l; apply Z.pow_pos_nonneg; lia). apply Z.div_pos; lia.
Qed.

Lemma quantum_range s : datagram_size (os_pacer s) = PORTABLE_WIRE_DATAGRAM_BYTES -> 0 <= priority_quantum_bytes s <= U64_MAX.
Proof.
  intros Hd. unfold priority_quantum_bytes. cbv zeta. rewrite Hd. destruct (_ || _); [by vm_compute|]. apply f_ceil_usize_range.
Qed.

Lemma quantum_same s s' : datagram_size (os_pacer s') = datagram_size (os_pacer s) -> os_wire_rate_mbps s' = os_wire_rate_mbps s ->
  priority_quantum_bytes s' = priority_quantum_bytes s.
Proof. intros H1 H2. unfold priority_quantum_bytes. by rewrite H1, H2. Qed.

Lemma quantum_debts s a b : priority_quantum_bytes (s <| os_critical_debt_bytes := a |> <| os_audio_debt_bytes := b |>) = priority_quantum_bytes s.
Proof. done. Qed.

(** A served class pays for its bytes, up to the quantum. *)
Definition charged (d len q : Z) : Z := Z.min (d + len) q.

Lemma serve_fields s now c p rest : DebtInv s -> let s' := serve s now c p rest in
  datagram_size (os_pacer s') = datagram_size (os_pacer s) /\ os_wire_rate_mbps s' = os_wire_rate_mbps s /\ priority_quantum_bytes s' = priority_quantum_bytes s /\
  os_critical_debt_bytes s' = match c with CriticalClass => charged (os_critical_debt_bytes s) (wire_len p) (priority_quantum_bytes s) | _ => 0 end /\
  os_audio_debt_bytes s' = match c with CriticalClass => os_audio_debt_bytes s | AudioClass => charged (os_audio_debt_bytes s) (wire_len p) (priority_quantum_bytes s) | VideoClass => 0 end.
Proof.
  intros [Hd _ _ _] s'. pose proof (quantum_range s Hd) as Hq.
  assert (H1 : datagram_size (os_pacer s') = datagram_size (os_pacer s)) by (destruct c; try done; apply try_consume_datagram).
  assert (H2 : os_wire_rate_mbps s' = os_wire_rate_mbps s) by (by destruct c).
  split; [done|]. split; [done|]. split; [by apply quantum_same|].
  assert (H3 : forall d, priority_quantum_bytes (set_queue s d rest) = priority_quantum_bytes s) by (intros []; done).
  destruct c; (split; [|try done]); try done; unfold s', serve, record_service; cbv zeta; rewrite H3; unfold saturating_add, charged; cbn -[priority_quantum_bytes]; lia.
Qed.

Lemma serve_debt s now c p rest : DebtInv s -> queue_of s c = p :: rest -> DebtInv (serve s now c p rest).
Proof.
  intros HI Hq. pose proof (serve_fields s now c p rest HI) as (F1 & _ & F3 & F4 & F5). destruct HI as [Hd Hc Ha Hcl].
  pose proof (zlen_nonneg (pp_payload p)). assert (0 <= wire_len p) by (unfold wire_len, WIRE_OVERHEAD_BYTES, HEADER_LEN, TAG_LEN; lia).
  split; [by rewrite F1|rewrite F3, F4; unfold charged; destruct c; lia|rewrite F3, F5; unfold charged; destruct c; lia|].
  intros d. rewrite queue_of_serve. case_decide; [subst d|apply Hcl]. specialize (Hcl c). rewrite Hq in Hcl. by inversion Hcl.
Qed.

Lemma queue_debt s kind ch fl pl rt : DebtInv s -> DebtInv (queue_with_id s kind ch fl pl rt).1.
Proof.
  intros HI. assert (Hn : DebtInv (next_queue_id s).1) by (by destruct HI).
  assert (Hs : forall c q, Forall (fun p => pp_class p = c) q -> DebtInv (set_queue (next_queue_id s).1 c q)).
  { intros c q Hq. destruct Hn as [H1 H2 H3 H4]. destruct c; (split; [done..|]); intros d; specialize (H4 d); by destruct d. }
  pose proof (di_class s HI (class_from_kind kind)) as Hcl.
  destruct (queue_cases s kind ch fl pl rt) as [->|[[Hp _] [[_ ->]|[(_ & _ & ->)|[_ ->]]]]]; try done; apply Hs; apply Forall_app; (split; [|by constructor]); [|done].
  destruct (queue_of s _); [done|]. by inversion Hcl.
Qed.

Lemma sched_step_debt r op : DebtInv (sr_sched r) -> DebtInv (sr_sched (sched_step r op)).
Proof.
  intros HI. destruct op as [kind ch fl pl rt|now ctr can|now rate|now g]; cbn [sched_step].
  - pose proof (queue_debt _ kind ch fl pl rt HI) as H. by destruct (queue_with_id _ _ _ _ _ _) as [s' [[[] ?]|]].
  - pose proof (pop_due_cases (sr_sched r) now ctr can) as Hc. destruct (select_class _ now) as [c|]; [|by rewrite Hc]. destruct Hc as (p & rest & Hq & ->).
    destruct (can ctr); [by apply serve_debt|done].
  - destruct HI as [Hd Hc Ha Hcl]. cbn [sr_sched]. set (s := sr_sched r) in *. unfold set_wire_rate_mbps, clamp_debt. cbv zeta.
    set (s2 := s <| os_pacer := _ |> <| os_wire_rate_mbps := _ |>). assert (datagram_size (os_pacer s2) = PORTABLE_WIRE_DATAGRAM_BYTES) as Hd2 by (cbn; by rewrite set_rate_datagram).
    pose proof (quantum_range s2 Hd2). split; [done| | |intros c; specialize (Hcl c); by destruct c];
      rewrite quantum_debts; cbn -[priority_quantum_bytes]; lia.
  - cbn [sr_sched]. unfold sched_reset_generation. destruct (g =? 0); [done|]. destruct HI as [Hd Hc Ha Hcl]. set (s2 := _ <| os_audio_debt_bytes := 0 |>).
    assert (datagram_size (os_pacer s2) = PORTABLE_WIRE_DATAGRAM_BYTES) as Hd2 by (cbn; by rewrite set_rate_datagram). pose proof (quantum_range s2 Hd2).
    split; [done|cbn; lia|cbn; lia|intros c; specialize (Hcl c); by destruct c].
Qed.

Lemma sched_run_debt start ops : DebtInv (sr_sched (sched_run (scheduler_new start) ops)).
Proof.
  assert (forall l r, DebtInv (sr_sched r) -> DebtInv (sr_sched (fold_left sched_step l r))) as H.
  { induction l as [|op l IH]; intros r HI; [done|]. apply IH. by apply sched_step_debt. }
  apply H. apply (sched_step_debt (mkSchedRun (mkScheduler [] [] [] (new_pacer start) f_zero DEFAULT_GENERATION 0 0 0) [] []) (SRate start DEFAULT_WIRE_RATE_MBPS)).
  split; [done| | |intros c; by destruct c]; by vm_compute.
Qed.

(** How many more packets a class with this debt can be served before it yields,
    and how many packets of the classes above it can be served before video. *)
Definition credit (q d : Z) : Z := (q - d + WIRE_OVERHEAD_BYTES - 1) / WIRE_OVERHEAD_BYTES.
Definition turns (q : Z) : Z := q / WIRE_OVERHEAD_BYTES + 1.
Definition rank (s : OutboundScheduler) : Z :=
  let q := priority_quantum_bytes s in credit q (os_audio_debt_bytes s) * (turns q + 1) + credit q (os_critical_debt_bytes s).

Lemma credit_range q d : 0 <= d <= q -> 0 <= credit q d <= turns q.
Proof. unfold credit, turns. change WIRE_OVERHEAD_BYTES with 32. intros. Z.to_euclidean_division_equations. lia. Qed.

Lemma credit_charged q d len : 0 <= d < q -> WIRE_OVERHEAD_BYTES <= len -> credit q (charged d len q) + 1 <= credit q d.
Proof. unfold credit, charged. change WIRE_OVERHEAD_BYTES with 32. intros. Z.to_euclidean_division_equations. lia. Qed.

Lemma rank_range s : DebtInv s -> 0 <= rank s < (turns (priority_quantum_bytes s) + 1) * (turns (priority_quantum_bytes s) + 1).
Proof.
  intros [Hd Hc%credit_range Ha%credit_range _]. unfold rank. cbv zeta. nia.
Qed.

(** While video is due, a pop serves video or brings it closer. *)
Lemma pop_progress s now ctr can : DebtInv s -> video_due s now = true -> can ctr = true ->
  exists c p rest, queue_of s c = p :: rest /\ pop_due s now ctr can = (serve s now c p rest, Good (Some p)) /\
    (c = VideoClass \/ rank (serve s now c p rest) + 1 <= rank s).
Proof.
  intros HI Hv Hcan. pose proof (pop_due_cases s now ctr can) as Hc. rewrite Hcan in Hc. destruct (select_class s now) as [c|] eqn:Es.
  - destruct Hc as (p & rest & Hq & Hp). exists c, p, rest. split; [done|]. split; [done|]. destruct (serve_fields s now c p rest HI) as (_ & _ & F3 & F4 & F5).
    assert (WIRE_OVERHEAD_BYTES <= wire_len p) by (unfold wire_len; pose proof (zlen_nonneg (pp_payload p)); lia). pose proof HI as [_ Hc Ha _].
    unfold select_class, priority_must_yield in Es. rewrite Hv, orb_true_r in Es. cbn [negb] in Es. unfold rank. cbv zeta. rewrite F3, F4, F5. set (q := priority_quantum_bytes s) in *.
    destruct (negb (is_nil (os_critical s)) && negb (q <=? os_critical_debt_bytes s)) eqn:E1.
    + injection Es as <-. right. apply andb_true_iff in E1 as [_ E1]. bool_prop. pose proof (credit_charged q (os_critical_debt_bytes s) (wire_len p)). lia.
    + destruct (negb (is_nil (os_audio s)) && negb (q <=? os_audio_debt_bytes s)) eqn:E2; [|injection Es as <-; by left].
      injection Es as <-. right. clear E1. apply andb_true_iff in E2 as [_ E2]. bool_prop. pose proof (credit_charged q (os_audio_debt_bytes s) (wire_len p) ltac:(lia) ltac:(done)).
      pose proof (credit_range q 0 ltac:(lia)). pose proof (credit_range q _ Hc). nia.
  - unfold select_class in Es. rewrite Hv in Es. by repeat case_match.
Qed.

(** Pops at instants when video is due and the history has room, with any
    queueing in between. *)
Fixpoint video_waits (r : SchedRun) (ops : list SchedOp) : bool :=
  match ops with
  | [] => true
  | op :: ops =>
      match op with
      | SQueue _ _ _ _ _ => true
      | SPop now counter can_record => video_due (sr_sched r) now && can_record counter
      | _ => false
      end && video_waits (sched_step r op) ops
  end.

Definition is_pop (op : SchedOp) : bool := match op with SPop _ _ _ => true | _ => false end.
Definition pops (ops : list SchedOp) : Z := zlen (filter is_pop ops).

Lemma queue_rank s kind ch fl pl rt : rank (queue_with_id s kind ch fl pl rt).1 = rank s /\
  priority_quantum_bytes (queue_with_id s kind ch fl pl rt).1 = priority_quantum_bytes s.
Proof. destruct (queue_cases s kind ch fl pl rt) as [->|[_ [[_ ->]|[(_ & _ & ->)|[_ ->]]]]]; [done|done|by destruct kind|by destruct kind]. Qed.

Lemma left_grows r op : exists l, sr_left (sched_step r op) = sr_left r ++ l.
Proof. destruct op; cbn [sched_step]; repeat case_match; cbn [sr_left]; eauto; exists []; by rewrite app_nil_r. Qed.

Lemma video_served r ops : DebtInv (sr_sched r) -> video_waits r ops = true -> rank (sr_sched r) < pops ops ->
  exists l p, sr_left (fold_left sched_step ops r) = sr_left r ++ l /\ (p, true) ∈ l /\ pp_class p = VideoClass.
Proof.
  revert r. induction ops as [|op ops IH]; intros r HI Hw Hr; [pose proof (rank_range _ HI); change (pops []) with 0 in Hr; lia|].
  apply andb_true_iff in Hw as [Hop Hw]. pose proof (sched_step_debt r op HI) as HI'. cbn [fold_left].
  assert (Hnext : rank (sr_sched (sched_step r op)) < pops ops -> exists l p, sr_left (fold_left sched_step ops (sched_step r op)) = sr_left r ++ l /\ (p, true) ∈ l /\ pp_class p = VideoClass).
  { intros Hlt. destruct (IH _ HI' Hw Hlt) as (l & p & -> & Hin & Hp). destruct (left_grows r op) as [l0 ->]. exists (l0 ++ l), p. rewrite app_assoc. split; [done|]. split; [set_solver|done]. }
  destruct op as [kind ch fl pl rt|now ctr can|now rate|now g]; try done.
  - apply Hnext. replace (pops (SQueue kind ch fl pl rt :: ops)) with (pops ops) in Hr by done. cbn [sched_step].
    pose proof (queue_rank (sr_sched r) kind ch fl pl rt) as [Hq _]. destruct (queue_with_id _ _ _ _ _ _) as [s' [[[] ?]|]]; cbn [sr_sched] in *; cbn [fst] in Hq; by rewrite Hq.
  - apply andb_true_iff in Hop as [Hv Hcan]. assert (pops (SPop now ctr can :: ops) = pops ops + 1) as Hpops by (unfold pops; rewrite filter_cons_True by done; zlia). rewrite Hpops in Hr. clear Hpops.
    destruct (pop_progress (sr_sched r) now ctr can HI Hv Hcan) as (c & p & rest & Hq & Hp & Hc).
    assert (Hs : sched_step r (SPop now ctr can) = mkSchedRun (serve (sr_sched r) now c p rest) (sr_accepted r) (sr_left r ++ [(p, true)])) by (cbn [sched_step]; by rewrite Hp).
    destruct Hc as [->|Hlt]; [|apply Hnext; rewrite Hs; cbn [sr_sched]; lia].
    assert (Hfold : exists l, sr_left (fold_left sched_step ops (sched_step r (SPop now ctr can))) = sr_left (sched_step r (SPop now ctr can)) ++ l).
    { clear. generalize (sched_step r (SPop now ctr can)). induction ops as [|op ops IH]; intros r'; [exists []; by rewrite app_nil_r|].
      cbn [fold_left]. destruct (IH (sched_step r' op)) as [l ->]. destruct (left_grows r' op) as [l0 ->]. exists (l0 ++ l). by rewrite app_assoc. }
    destruct Hfold as [l Hl]. exists ([(p, true)] ++ l), p. rewrite Hl, Hs, app_assoc. split; [done|]. split; [set_solver|].
    pose proof (di_class _ HI VideoClass) as Hcl. rewrite Hq in Hcl. by inversion Hcl.
Qed.

(** (C17) Video is not starved. From every reachable scheduler, whatever is queued
    meanwhile, among any (q/32 + 2)^2 pops made at instants when the pacer has
    credit for the video packet at the front, at least one hands out video: audio
    and critical packets go first only until each has spent its byte quantum [q],
    32 bytes a packet being the least it can pay. *)
Theorem scheduler_serves_video (start : f64) (before ops : list SchedOp) :
  let r := sched_run (scheduler_new start) before in
  let q := priority_quantum_bytes (sr_sched r) in
  video_waits r ops = true -> (turns q + 1) * (turns q + 1) <= pops ops ->
  exists l p, sr_left (fold_left sched_step ops r) = sr_left r ++ l /\ (p, true) ∈ l /\ pp_class p = VideoClass.
Proof.
  intros r q Hw Hp. pose proof (sched_run_debt start before) as HI. fold r in HI. apply video_served; [done|done|].
  pose proof (rank_range _ HI). fold q in H. lia.
Qed.

(** Unpaced, the quantum is one datagram. *)
Definition demo_rounds : list SchedOp := concat (replicate 1521 [demo_queue Datagram.Video 1; SPop f_zero 0 (fun _ => true)]).

Lemma scheduler_serves_video_witness :
  let r := sched_run (scheduler_new f_zero) [SRate f_zero f_zero; demo_queue Datagram.Control 2; demo_queue Datagram.Audio 3] in
  exists l p, sr_left (fold_left sched_step demo_rounds r) = sr_left r ++ l /\ (p, true) ∈ l /\ pp_class p = VideoClass.
Proof.
  intros r. apply (scheduler_serves_video f_zero [SRate f_zero f_zero; demo_queue Datagram.Control 2; demo_queue Datagram.Audio 3] demo_rounds).
  - vm_compute. reflexivity.
  - vm_compute. discriminate.
Defined.
