(* ===== verification/Ordering.v ===== *)
(** * Orderings and the stable sort

    Rust's [Ord] as a three-way comparison with its laws, the ways comparisons
    are built ([sort_by_key]-style pullbacks and [then_with]), and [sort_by] as
    a stable insertion sort with the facts callers rely on: the result is a
    permutation, sorted, keeps the order of equal elements, and is the only list
    with these properties. *)

From stdpp Require Import sorting strings.
From Stdlib Require Import String OrderedTypeEx.
From S2P Require Import Prelude.

(** ** Comparisons *)

Class OrdLaws {A} (cmp : A -> A -> comparison) := mkOrdLaws {
  ord_antisym x y : cmp y x = CompOpp (cmp x y);
  ord_trans x y z c : cmp x y = c -> cmp y z = c -> cmp x z = c;
}.

(** [f(a).cmp(f(b))] and [a.then_with(b)]. *)
Definition cmp_on {A B} (f : A -> B) (cmp : B -> B -> comparison) (x y : A) : comparison := cmp (f x) (f y).
Definition then_with {A} (cmp1 cmp2 : A -> A -> comparison) (x y : A) : comparison :=
  match cmp1 x y with Eq => cmp2 x y | c => c end.

Definition cmp_le (c : comparison) : bool := match c with Gt => false | _ => true end.

Section laws.
Context {A : Type} (cmp : A -> A -> comparison) {L : OrdLaws cmp}.

Lemma ord_refl x : cmp x x = Eq.
Proof. pose proof (ord_antisym (cmp := cmp) x x) as H. by destruct (cmp x x). Qed.

(** Equal elements compare alike with everything. *)
Lemma ord_eq_l x y z : cmp x y = Eq -> cmp x z = cmp y z.
Proof.
  intros H. pose proof (ord_antisym (cmp := cmp) x y) as H'. rewrite H in H'. cbn in H'. destruct (cmp x z) eqn:E; destruct (cmp y z) eqn:F; try done.
  all: pose proof (ord_antisym (cmp := cmp) x z) as Hx; pose proof (ord_antisym (cmp := cmp) y z) as Hy; rewrite E in Hx; rewrite F in Hy; cbn in Hx, Hy;
    pose proof (ord_trans (cmp := cmp) x y z Eq); pose proof (ord_trans (cmp := cmp) y x z Eq);
    pose proof (ord_trans (cmp := cmp) x z y Lt); pose proof (ord_trans (cmp := cmp) x z y Gt); intuition congruence.
Qed.

Lemma ord_eq_r x y z : cmp x y = Eq -> cmp z x = cmp z y.
Proof. intros H. rewrite (ord_antisym x z), (ord_antisym y z). f_equal. by apply ord_eq_l. Qed.

Lemma ord_le_trans x y z : cmp_le (cmp x y) = true -> cmp_le (cmp y z) = true -> cmp_le (cmp x z) = true.
Proof.
  intros Hx Hy. destruct (cmp x y) eqn:E; [by rewrite (ord_eq_l _ _ _ E)| |done]. destruct (cmp y z) eqn:F; [by rewrite <- (ord_eq_r _ _ _ F), E| |done].
  by rewrite (ord_trans _ _ _ _ E F).
Qed.

Lemma ord_le_total x y : cmp_le (cmp x y) = false -> cmp_le (cmp y x) = true.
Proof. rewrite (ord_antisym x y). by destruct (cmp x y). Qed.
End laws.

#[export] Instance Z_ord : OrdLaws Z.compare.
Proof.
  split; [apply Z.compare_antisym|]. intros x y z [] H1 H2.
  - apply Z.compare_eq in H1 as ->. done.
  - rewrite Z.compare_lt_iff in *. lia.
  - rewrite Z.compare_gt_iff in *. lia.
Qed.

#[export] Instance string_ord : OrdLaws String.compare.
Proof.
  assert (Hlt : forall x y z, String.compare x y = Lt -> String.compare y z = Lt -> String.compare x z = Lt).
  { intros x y z H1 H2. apply (proj2 (String_as_OT.cmp_lt x z)). eapply String_as_OT.lt_trans; by apply String_as_OT.cmp_lt. }
  split; [intros x y; apply String.compare_antisym|]. intros x y z [] H1 H2.
  - by apply String.compare_eq_iff in H1 as ->.
  - by eapply Hlt.
  - rewrite String.compare_antisym in H1, H2 |- *. destruct (String.compare y x) eqn:E1, (String.compare z y) eqn:E2; try done. by rewrite (Hlt z y x).
Qed.

#[export] Instance cmp_on_ord {A B} (f : A -> B) cmp `{!OrdLaws cmp} : OrdLaws (cmp_on f cmp).
Proof. split; unfold cmp_on; [intros; apply ord_antisym|intros x y z c; apply ord_trans]. Qed.

#[export] Instance then_with_ord {A} (cmp1 cmp2 : A -> A -> comparison) `{!OrdLaws cmp1, !OrdLaws cmp2} : OrdLaws (then_with cmp1 cmp2).
Proof.
  split; unfold then_with.
  - intros x y. rewrite (ord_antisym (cmp := cmp1) x y). destruct (cmp1 x y); [apply ord_antisym|done..].
  - intros x y z c. destruct (cmp1 x y) eqn:E1.
    + rewrite (ord_eq_l cmp1 _ _ _ E1). destruct (cmp1 y z); [apply ord_trans|congruence..].
    + intros <-. destruct (cmp1 y z) eqn:E2; intros H; [|by rewrite (ord_trans _ _ _ _ E1 E2)|done]. by rewrite <- (ord_eq_r cmp1 _ _ _ E2), E1.
    + intros <-. destruct (cmp1 y z) eqn:E2; intros H; [|done|by rewrite (ord_trans _ _ _ _ E1 E2)]. by rewrite <- (ord_eq_r cmp1 _ _ _ E2), E1.
Qed.

(** ** [sort_by] *)

Section sort.
Context {A : Type} (cmp : A -> A -> comparison).

Fixpoint insert_before (x : A) (l : list A) : list A :=
  match l with
  | [] => [x]
  | y :: l' => if cmp_le (cmp x y) then x :: l else y :: insert_before x l'
  end.

(** Stable: an element is put before those equal to it that came later. *)
Definition sort_by (l : list A) : list A := foldr insert_before [] l.

Definition cmp_ordered (x y : A) : Prop := cmp_le (cmp x y) = true.

Lemma insert_before_perm x l : insert_before x l ≡ₚ x :: l.
Proof. induction l as [|y l IH]; cbn; [done|]. destruct (cmp_le _); [done|]. rewrite IH. apply Permutation_swap. Qed.

Lemma sort_by_perm l : sort_by l ≡ₚ l.
Proof. induction l as [|x l IH]; cbn; [done|]. by rewrite insert_before_perm, IH. Qed.

Context {L : OrdLaws cmp}.

Lemma insert_before_sorted x l : StronglySorted cmp_ordered l -> StronglySorted cmp_ordered (insert_before x l).
Proof.
  induction 1 as [|y l Hs IH Hy]; cbn; [by repeat constructor|]. destruct (cmp_le (cmp x y)) eqn:E.
  - constructor; [by constructor|]. constructor; [done|]. eapply Forall_impl; [|exact Hy]. intros z. by apply (ord_le_trans cmp).
  - constructor; [done|]. rewrite insert_before_perm. constructor; [by apply (ord_le_total cmp)|done].
Qed.

Lemma sort_by_sorted l : StronglySorted cmp_ordered (sort_by l).
Proof. induction l; cbn; [constructor|by apply insert_before_sorted]. Qed.

(** The elements equal to [k], in order. *)
Definition ties (k : A) (l : list A) : list A := filter (fun x => cmp x k = Eq) l.

Lemma insert_before_ties k x l : StronglySorted cmp_ordered l -> ties k (insert_before x l) = ties k (x :: l).
Proof.
  unfold ties. induction 1 as [|y l Hs IH Hy]; cbn [insert_before]; [done|]. destruct (cmp_le (cmp x y)) eqn:E; [done|].
  rewrite filter_cons, IH, !filter_cons. destruct (decide (cmp x k = Eq)) as [Hx|], (decide (cmp y k = Eq)) as [Hk|]; try done.
  rewrite (ord_eq_l cmp _ _ _ Hx), (ord_antisym y k), Hk in E. done.
Qed.

(** Equal elements keep their order. *)
Lemma sort_by_stable k l : ties k (sort_by l) = ties k l.
Proof.
  induction l as [|x l IH]; cbn [sort_by foldr]; [done|]. rewrite insert_before_ties by apply sort_by_sorted. unfold ties in *. rewrite !filter_cons. unfold sort_by in IH. by rewrite IH.
Qed.

(** The head of a sorted list is a least element. *)
Lemma sort_by_head l x : head (sort_by l) = Some x -> forall y, y ∈ l -> cmp_ordered x y.
Proof.
  intros Hx y Hy. rewrite <- (sort_by_perm l) in Hy. pose proof (sort_by_sorted l) as Hs. destruct (sort_by l) as [|z l']; [done|]. injection Hx as ->.
  inversion Hs as [|? ? _ Hz]; subst. apply elem_of_cons in Hy as [->|Hy]; [unfold cmp_ordered; by rewrite (ord_refl cmp)|].
  rewrite list.Forall_forall in Hz. by apply Hz.
Qed.

(** Sorting forgets the order of the input when equal elements are identical. *)
Lemma sort_by_unique l k : l ≡ₚ k -> (forall x y, x ∈ l -> y ∈ l -> cmp x y = Eq -> x = y) -> sort_by l = sort_by k.
Proof.
  intros Hp Ha. assert (Hall : forall s t : list A, StronglySorted cmp_ordered s -> StronglySorted cmp_ordered t -> s ≡ₚ t ->
    (forall x y, x ∈ s -> y ∈ s -> cmp x y = Eq -> x = y) -> s = t).
  { induction s as [|x s IH]; intros t Hs Ht Hst Hu; [by symmetry; apply Permutation_nil|]. destruct t as [|y t]; [by apply symmetry, Permutation_nil in Hst|].
    inversion Hs as [|? ? Hs' Hxs]; inversion Ht as [|? ? Ht' Hyt]; subst. rewrite list.Forall_forall in Hxs, Hyt.
    assert (x = y) as ->.
    { assert (Hx : x ∈ y :: t) by (rewrite <- Hst; by left). assert (Hy : y ∈ x :: s) by (rewrite Hst; by left).
      apply elem_of_cons in Hx as [->|Hx]; [done|]. apply elem_of_cons in Hy as [->|Hy]; [done|]. apply Hu; [by left|by right|].
      pose proof (Hyt _ Hx) as H1. pose proof (Hxs _ Hy) as H2. unfold cmp_ordered in H1, H2. rewrite (ord_antisym x y) in H1. by destruct (cmp x y). }
    f_equal. apply IH; [done|done|by apply Permutation_cons_inv in Hst|]. intros a b Ha' Hb'. apply Hu; by right. }
  apply Hall; [apply sort_by_sorted|apply sort_by_sorted|by rewrite !sort_by_perm|]. intros x y. rewrite !sort_by_perm. apply Ha.
Qed.
End sort.
