(* ===== verification/Capability.v ===== *)
(** * Capability records and the pipeline planner ([capability/src])

    The records with which capture and encoder backends describe themselves
    ([record.rs]) and the planner that pairs them for a stream request
    ([planner.rs]): every viable pairing, costed, ranked best first. *)

From stdpp Require Import sets sorting strings.
From Stdlib Require Import String.
From S2P Require Import Prelude Ordering.

(** ** Records ([record.rs]) *)

Inductive Os := Linux | Windows | MacOs.
Inductive Vendor := Nvidia | Amd | Intel | Apple | Cpu | Other.
Record DeviceId := mkDeviceId { dv_vendor : Vendor; dv_id : string }.
Definition device_cpu : DeviceId := mkDeviceId Cpu "cpu"%string.
Inductive Codec := H264 | H265 | Av1.
Inductive BitDepth := Eight | Ten.
Inductive Chroma := Yuv420 | Yuv444.
Record PixelFormat := mkPixel { px_chroma : Chroma; px_bit_depth : BitDepth }.
Inductive SurfaceKind := SystemMemory | DmaBuf | D3D11Texture | IoSurface | CudaDevicePtr | VaapiSurface.
Record Surface := mkSurface { su_kind : SurfaceKind; su_pixel : PixelFormat }.
Inductive Permission := ScreenCapture | InputInjection | DeviceAccess.
Inductive ProbeStatus := Advertised | Verified | Failed (reason : string).
Inductive StabilityTier := Certified | Compatible | Experimental | Unavailable.

#[export] Instance Os_dec : EqDecision Os. Proof. solve_decision. Defined.
#[export] Instance Vendor_dec : EqDecision Vendor. Proof. solve_decision. Defined.
#[export] Instance DeviceId_dec : EqDecision DeviceId. Proof. solve_decision. Defined.
#[export] Instance Codec_dec : EqDecision Codec. Proof. solve_decision. Defined.
#[export] Instance BitDepth_dec : EqDecision BitDepth. Proof. solve_decision. Defined.
#[export] Instance Chroma_dec : EqDecision Chroma. Proof. solve_decision. Defined.
#[export] Instance PixelFormat_dec : EqDecision PixelFormat. Proof. solve_decision. Defined.
#[export] Instance SurfaceKind_dec : EqDecision SurfaceKind. Proof. solve_decision. Defined.
#[export] Instance Surface_dec : EqDecision Surface. Proof. solve_decision. Defined.
#[export] Instance StabilityTier_dec : EqDecision StabilityTier. Proof. solve_decision. Defined.

Definition is_device_local (k : SurfaceKind) : bool := match k with SystemMemory => false | _ => true end.
Definition probe_usable (p : ProbeStatus) : bool := match p with Failed _ => false | _ => true end.
Definition tier_rank (t : StabilityTier) : Z := match t with Unavailable => 0 | Experimental => 1 | Compatible => 2 | Certified => 3 end.
Definition worst (a b : StabilityTier) : StabilityTier := if tier_rank a <=? tier_rank b then a else b.
Definition tier_usable (t : StabilityTier) : bool := match t with Unavailable => false | _ => true end.
Definition tier_cmp : StabilityTier -> StabilityTier -> comparison := cmp_on tier_rank Z.compare.

Record Limits := mkLimits { max_width : Z; max_height : Z; max_fps : Z }.
Definition admits (l : Limits) (width height fps : Z) : bool := (width <=? max_width l) && (height <=? max_height l) && (fps <=? max_fps l).

Record CodecSupport := mkCodecSupport { cs_codec : Codec; cs_bit_depths : list BitDepth; cs_chroma : list Chroma; cs_limits : Limits }.
Definition supports (c : CodecSupport) (codec : Codec) (bit_depth : BitDepth) (chroma : Chroma) (width height fps : Z) : bool :=
  bool_decide (cs_codec c = codec) && bool_decide (bit_depth ∈ cs_bit_depths c) && bool_decide (chroma ∈ cs_chroma c) &&
  admits (cs_limits c) width height fps.

Record CaptureCapability := mkCapture {
  cc_backend_id : string;
  cc_os : Os;
  cc_device : DeviceId;
  cc_driver_version : option string;
  cc_limits : Limits;
  cc_output_surfaces : list Surface;
  cc_required_permissions : list Permission;
  cc_probe : ProbeStatus;
  cc_stability : StabilityTier;
}.
Definition capture_usable (c : CaptureCapability) : bool := probe_usable (cc_probe c) && tier_usable (cc_stability c).

Record EncoderCapability := mkEncoder {
  ec_backend_id : string;
  ec_os : Os;
  ec_device : DeviceId;
  ec_driver_version : option string;
  ec_codecs : list CodecSupport;
  ec_input_surfaces : list Surface;
  ec_required_permissions : list Permission;
  ec_probe : ProbeStatus;
  ec_stability : StabilityTier;
}.
Definition encoder_usable (e : EncoderCapability) : bool := probe_usable (ec_probe e) && tier_usable (ec_stability e).

Definition codec_support (e : EncoderCapability) (codec : Codec) (bit_depth : BitDepth) (chroma : Chroma) (width height fps : Z) : option CodecSupport :=
  List.find (fun c => supports c codec bit_depth chroma width height fps) (ec_codecs e).

Record StreamRequest := mkRequest { rq_codec : Codec; rq_bit_depth : BitDepth; rq_chroma : Chroma; rq_width : Z; rq_height : Z; rq_fps : Z }.
Definition h264_1080p60 : StreamRequest := mkRequest H264 Eight Yuv420 1920 1080 60.

(** ** The planner ([planner.rs]) *)

Inductive Conversion := ZeroCopy | Convert | Upload | CrossGpuCopy.
#[export] Instance Conversion_dec : EqDecision Conversion. Proof. solve_decision. Defined.

Definition copies (c : Conversion) : Z := match c with ZeroCopy => 0 | Convert | Upload => 1 | CrossGpuCopy => 2 end.
Definition host_roundtrip (c : Conversion) : bool := match c with Upload | CrossGpuCopy => true | _ => false end.
Definition latency_score (c : Conversion) : Z := copies c * 10 + (if host_roundtrip c then 100 else 0).

Record Cost := mkCost { reliability_penalty : Z; cost_latency : Z }.
Definition cost_cmp : Cost -> Cost -> comparison := then_with (cmp_on reliability_penalty Z.compare) (cmp_on cost_latency Z.compare).

Definition stability_penalty (t : StabilityTier) : Z :=
  match t with Certified => 0 | Compatible => 100 | Experimental => 1000 | Unavailable => 1000000 end.
Definition probe_penalty (p : ProbeStatus) : Z := match p with Verified => 0 | Advertised => 10 | Failed _ => 1000000 end.

Record Pipeline := mkPipeline {
  pl_capture_backend_id : string;
  pl_capture_device : DeviceId;
  pl_encoder_backend_id : string;
  pl_encoder_device : DeviceId;
  pl_conversion : Conversion;
  pl_encoder_input : Surface;
  pl_stability : StabilityTier;
  pl_cost : Cost;
  pl_warnings : list string;
}.

Definition is_zero_copy (p : Pipeline) : bool := bool_decide (pl_conversion p = ZeroCopy).

(** The comparison of [tiebreak()] tuples. *)
Definition tiebreak_cmp : Pipeline -> Pipeline -> comparison :=
  then_with (cmp_on pl_capture_backend_id String.compare)
  (then_with (cmp_on pl_encoder_backend_id String.compare)
  (then_with (cmp_on (fun p => dv_id (pl_capture_device p)) String.compare)
             (cmp_on (fun p => dv_id (pl_encoder_device p)) String.compare))).

Definition resolve_pair (cap_surface : Surface) (cap_device : DeviceId) (enc_surface : Surface) (enc_device : DeviceId) : option Conversion :=
  let cap_host := negb (is_device_local (su_kind cap_surface)) in
  let enc_host := negb (is_device_local (su_kind enc_surface)) in
  let same_pixel := bool_decide (su_pixel cap_surface = su_pixel enc_surface) in
  match cap_host, enc_host with
  | true, true => Some (if same_pixel then ZeroCopy else Convert)
  | true, false => Some Upload
  | false, true => Some Upload
  | false, false =>
      if bool_decide (cap_device = enc_device) then
        if bool_decide (su_kind cap_surface = su_kind enc_surface) then Some (if same_pixel then ZeroCopy else Convert) else None
      else Some CrossGpuCopy
  end.

(** One round of the two loops of [best_handoff]. *)
Definition better (best : option (Conversion * Surface)) (candidate : option Conversion) (landing : Surface) : option (Conversion * Surface) :=
  match candidate with
  | None => best
  | Some conversion =>
      let replace := match best with None => true | Some (current, _) => latency_score conversion <? latency_score current end in
      if replace then Some (conversion, landing) else best
  end.

Definition best_handoff (capture : CaptureCapability) (encoder : EncoderCapability) : option (Conversion * Surface) :=
  fold_left (fun best cap_surface =>
    fold_left (fun best enc_surface => better best (resolve_pair cap_surface (cc_device capture) enc_surface (ec_device encoder)) enc_surface)
      (ec_input_surfaces encoder) best)
    (cc_output_surfaces capture) None.

(** [{:?}] of a vendor. *)
Definition vendor_debug (v : Vendor) : string :=
  (match v with Nvidia => "Nvidia" | Amd => "Amd" | Intel => "Intel" | Apple => "Apple" | Cpu => "Cpu" | Other => "Other" end)%string.

(** The texts of [format!]. *)
Definition unproven (half id : string) : string := (half ++ " '" ++ id ++ "' is advertised but not verified on this machine")%string.
Definition device_debug (d : DeviceId) : string := (vendor_debug (dv_vendor d) ++ " device '" ++ dv_id d ++ "'")%string.

Definition warnings (capture : CaptureCapability) (encoder : EncoderCapability) (stability : StabilityTier) (conversion : Conversion) : list string :=
  match cc_probe capture with Advertised => [unproven "capture" (cc_backend_id capture)] | _ => [] end ++
  match ec_probe encoder with Advertised => [unproven "encoder" (ec_backend_id encoder)] | _ => [] end ++
  (if bool_decide (stability = Experimental) then ["pipeline uses an experimental backend"%string] else []) ++
  (if bool_decide (conversion = CrossGpuCopy) then
     [("cross-GPU copy from " ++ device_debug (cc_device capture) ++ " to " ++ device_debug (ec_device encoder))%string] else []).

Definition evaluate (capture : CaptureCapability) (encoder : EncoderCapability) (request : StreamRequest) : option Pipeline :=
  if negb (bool_decide (cc_os capture = ec_os encoder)) then None else
  if negb (capture_usable capture) || negb (encoder_usable encoder) then None else
  if negb (admits (cc_limits capture) (rq_width request) (rq_height request) (rq_fps request)) then None else
  _ ← codec_support encoder (rq_codec request) (rq_bit_depth request) (rq_chroma request) (rq_width request) (rq_height request) (rq_fps request);
  '(conversion, encoder_input) ← best_handoff capture encoder;
  let stability := worst (cc_stability capture) (ec_stability encoder) in
  let penalty := saturating_add U32_MAX (saturating_add U32_MAX (stability_penalty stability) (probe_penalty (cc_probe capture))) (probe_penalty (ec_probe encoder)) in
  Some (mkPipeline (cc_backend_id capture) (cc_device capture) (ec_backend_id encoder) (ec_device encoder) conversion encoder_input stability
          (mkCost penalty (latency_score conversion)) (warnings capture encoder stability conversion)).

Record Registry := mkRegistry { rg_captures : list CaptureCapability; rg_encoders : list EncoderCapability }.
#[export] Instance eta_Registry : Eta Registry := fun r => mkRegistry (rg_captures r) (rg_encoders r).
Definition registry_new : Registry := mkRegistry [] [].
Definition register_capture (r : Registry) (capture : CaptureCapability) : Registry := r <| rg_captures := rg_captures r ++ [capture] |>.
Definition register_encoder (r : Registry) (encoder : EncoderCapability) : Registry := r <| rg_encoders := rg_encoders r ++ [encoder] |>.

Definition devices (r : Registry) : list DeviceId :=
  fold_left (fun seen device => if bool_decide (device ∈ seen) then seen else seen ++ [device])
    ((cc_device <$> rg_captures r) ++ (ec_device <$> rg_encoders r)) [].

Record Plan := mkPlan { plan_request : StreamRequest; pipelines : list Pipeline }.
Definition primary (p : Plan) : option Pipeline := head (pipelines p).
Definition fallbacks (p : Plan) : list Pipeline := tail (pipelines p).
Definition is_viable (p : Plan) : bool := match pipelines p with [] => false | _ => true end.

(** The order [plan] sorts by. *)
Definition pipeline_cmp : Pipeline -> Pipeline -> comparison := then_with (cmp_on pl_cost cost_cmp) tiebreak_cmp.

(** The pairings, in the order of the loops. *)
Definition pairings (registry : Registry) (request : StreamRequest) : list Pipeline :=
  capture ← rg_captures registry; omap (fun encoder => evaluate capture encoder request) (rg_encoders registry).

Definition plan (registry : Registry) (request : StreamRequest) : Plan := mkPlan request (sort_by pipeline_cmp (pairings registry request)).

(** [host_capable] of [lib.rs]. *)
Definition host_capable (registry : Registry) : bool :=
  let has_capture := existsb capture_usable (rg_captures registry) in
  let has_encoder := existsb encoder_usable (rg_encoders registry) in
  if negb has_capture || negb has_encoder then false else
  existsb (fun c => capture_usable c && existsb (fun e => encoder_usable e && bool_decide (ec_os e = cc_os c)) (rg_encoders registry)) (rg_captures registry).

(** ** The handoff *)

Definition candidates (capture : CaptureCapability) (encoder : EncoderCapability) : list (option Conversion * Surface) :=
  cap ← cc_output_surfaces capture; (fun enc => (resolve_pair cap (cc_device capture) enc (ec_device encoder), enc)) <$> ec_input_surfaces encoder.

Definition try_candidate (best : option (Conversion * Surface)) (x : option Conversion * Surface) : option (Conversion * Surface) := better best x.1 x.2.

Lemma fold_left_bind {A B S} (f : S -> B -> S) (g : A -> list B) (l : list A) (s : S) :
  fold_left f (l ≫= g) s = fold_left (fun s a => fold_left f (g a) s) l s.
Proof. revert s. induction l as [|a l IH]; intros s; [done|]. rewrite bind_cons, fold_left_app. apply IH. Qed.

Lemma fold_left_fmap {A B S} (f : S -> B -> S) (g : A -> B) (l : list A) (s : S) :
  fold_left f (g <$> l) s = fold_left (fun s a => f s (g a)) l s.
Proof. revert s. induction l as [|a l IH]; intros s; [done|]. apply IH. Qed.

Lemma best_handoff_fold capture encoder : best_handoff capture encoder = fold_left try_candidate (candidates capture encoder) None.
Proof.
  unfold best_handoff, candidates. rewrite fold_left_bind. generalize (@None (Conversion * Surface)).
  induction (cc_output_surfaces capture) as [|cap l IH]; intros s; [done|]. cbn [fold_left]. rewrite fold_left_fmap. apply IH.
Qed.

(** The fold keeps the first of the cheapest. *)
Definition cheapest (l : list (option Conversion * Surface)) (best : option (Conversion * Surface)) : Prop :=
  match best with
  | None => forall x, x ∈ l -> x.1 = None
  | Some (conversion, landing) =>
      (Some conversion, landing) ∈ l /\ forall other s, (Some other, s) ∈ l -> latency_score conversion <= latency_score other
  end.

Lemma fold_cheapest l k best : cheapest k best -> cheapest (k ++ l) (fold_left try_candidate l best).
Proof.
  revert k best. induction l as [|x l IH]; intros k best Hb; [by rewrite app_nil_r|]. replace (k ++ x :: l) with ((k ++ [x]) ++ l) by by rewrite <- app_assoc.
  apply IH. destruct x as [[c|] s]; unfold try_candidate, better; cbn [fst snd].
  - destruct best as [[cur land]|]; cbn in Hb |- *.
    + destruct Hb as [Hin Hle]. destruct (latency_score c <? latency_score cur) eqn:E; bool_prop; cbn.
      * split; [set_solver|]. intros o t [Ho|Ho]%elem_of_app; [apply Hle in Ho; lia|]. apply list_elem_of_singleton in Ho. injection Ho as -> _. lia.
      * split; [set_solver|]. intros o t [Ho|Ho]%elem_of_app; [by eapply Hle|]. apply list_elem_of_singleton in Ho. injection Ho as -> _. lia.
    + split; [set_solver|]. intros o t [Ho|Ho]%elem_of_app; [by apply Hb in Ho|]. apply list_elem_of_singleton in Ho. injection Ho as -> _. lia.
  - destruct best as [[cur land]|]; cbn in Hb |- *.
    + destruct Hb as [Hin Hle]. split; [set_solver|]. intros o t [Ho|Ho]%elem_of_app; [by eapply Hle|]. by apply list_elem_of_singleton in Ho.
    + intros x [Hx|Hx]%elem_of_app; [by apply Hb|]. by apply list_elem_of_singleton in Hx as ->.
Qed.

(** Some surface of the capture reaches some surface of the encoder this way. *)
Definition interop (capture : CaptureCapability) (encoder : EncoderCapability) (conversion : Conversion) (landing : Surface) : Prop :=
  exists cap, cap ∈ cc_output_surfaces capture /\ landing ∈ ec_input_surfaces encoder /\
    resolve_pair cap (cc_device capture) landing (ec_device encoder) = Some conversion.

Lemma interop_candidate capture encoder c s : (Some c, s) ∈ candidates capture encoder <-> interop capture encoder c s.
Proof.
  unfold candidates, interop. rewrite list_elem_of_bind. split.
  - intros (cap & Hin & Hcap). apply list_elem_of_fmap in Hin as (enc & [= Hc ->] & Henc). by exists cap.
  - intros (cap & Hcap & Henc & Hr). exists cap. split; [|done]. apply list_elem_of_fmap. exists s. by rewrite Hr.
Qed.

Lemma best_handoff_spec capture encoder :
  match best_handoff capture encoder with
  | None => forall c s, ~ interop capture encoder c s
  | Some (c, s) => interop capture encoder c s /\ forall c' s', interop capture encoder c' s' -> latency_score c <= latency_score c'
  end.
Proof.
  rewrite best_handoff_fold. pose proof (fold_cheapest (candidates capture encoder) [] None) as H. cbn [app] in H. specialize (H ltac:(by intros x Hx%elem_of_nil)).
  destruct (fold_left _ _ _) as [[c s]|]; cbn in H.
  - destruct H as [Hin Hle]. split; [by apply interop_candidate|]. intros c' s' Hi. apply interop_candidate in Hi. by eapply Hle.
  - intros c s Hi. apply interop_candidate, H in Hi. done.
Qed.

(** ** Viable pairings *)

Record viable (capture : CaptureCapability) (encoder : EncoderCapability) (rq : StreamRequest) : Prop := mkViable {
  vi_os : cc_os capture = ec_os encoder;
  vi_capture : capture_usable capture = true;
  vi_encoder : encoder_usable encoder = true;
  vi_grabs : admits (cc_limits capture) (rq_width rq) (rq_height rq) (rq_fps rq) = true;
  vi_emits : exists cs, cs ∈ ec_codecs encoder /\ supports cs (rq_codec rq) (rq_bit_depth rq) (rq_chroma rq) (rq_width rq) (rq_height rq) (rq_fps rq) = true;
  vi_interop : exists c s, interop capture encoder c s;
}.

(** How many halves of a pairing are advertised but not verified. *)
Definition unverified (capture : CaptureCapability) (encoder : EncoderCapability) : Z :=
  (match cc_probe capture with Verified => 0 | _ => 1 end) + (match ec_probe encoder with Verified => 0 | _ => 1 end).

(** What a pipeline says of the pairing it was made from. *)
Record describes (capture : CaptureCapability) (encoder : EncoderCapability) (p : Pipeline) : Prop := mkDescribes {
  de_ids : pl_capture_backend_id p = cc_backend_id capture /\ pl_encoder_backend_id p = ec_backend_id encoder;
  de_devices : pl_capture_device p = cc_device capture /\ pl_encoder_device p = ec_device encoder;
  de_handoff : interop capture encoder (pl_conversion p) (pl_encoder_input p);
  de_cheapest : forall c s, interop capture encoder c s -> latency_score (pl_conversion p) <= latency_score c;
  de_stability : pl_stability p = worst (cc_stability capture) (ec_stability encoder) /\ pl_stability p <> Unavailable;
  de_cost : pl_cost p = mkCost (stability_penalty (pl_stability p) + 10 * unverified capture encoder) (latency_score (pl_conversion p));
  de_warnings : pl_warnings p = warnings capture encoder (pl_stability p) (pl_conversion p);
}.

Lemma codec_support_exact e codec depth chroma w h fps :
  codec_support e codec depth chroma w h fps <> None <-> exists cs, cs ∈ ec_codecs e /\ supports cs codec depth chroma w h fps = true.
Proof.
  unfold codec_support. destruct (List.find _ _) as [cs|] eqn:E.
  - split; [|done]. intros _. apply find_some in E as [Hin Hs]. exists cs. split; [by apply list_elem_of_In|done].
  - split; [done|]. intros (cs & Hin & Hs). apply list_elem_of_In in Hin. by rewrite (find_none _ _ E _ Hin) in Hs.
Qed.

Lemma worst_usable a b : tier_usable a = true -> tier_usable b = true -> worst a b <> Unavailable.
Proof. by destruct a, b. Qed.

Lemma penalty_exact c e : capture_usable c = true -> encoder_usable e = true ->
  let st := worst (cc_stability c) (ec_stability e) in
  saturating_add U32_MAX (saturating_add U32_MAX (stability_penalty st) (probe_penalty (cc_probe c))) (probe_penalty (ec_probe e)) =
  stability_penalty st + 10 * unverified c e.
Proof.
  unfold capture_usable, encoder_usable, unverified. intros [Hc _]%andb_true_iff [He _]%andb_true_iff. cbv zeta.
  assert (0 <= stability_penalty (worst (cc_stability c) (ec_stability e)) <= 1000000) by (by destruct (worst _ _)).
  unfold saturating_add, U32_MAX. destruct (cc_probe c), (ec_probe e); cbn in *; done || lia.
Qed.

Lemma evaluate_exact c e rq :
  match evaluate c e rq with
  | Some p => viable c e rq /\ describes c e p
  | None => ~ viable c e rq
  end.
Proof.
  unfold evaluate. destruct (bool_decide (cc_os c = ec_os e)) eqn:Eo; cbn [negb]; [|by intros [Ho]; rewrite bool_decide_true in Eo].
  apply bool_decide_eq_true in Eo. destruct (capture_usable c) eqn:Ec; [|by intros [_ H]; rewrite H in Ec]. destruct (encoder_usable e) eqn:Ee; [|by intros [_ _ H]; rewrite H in Ee].
  cbn [negb orb]. destruct (admits (cc_limits c) _ _ _) eqn:Ea; [|by intros [_ _ _ H]; rewrite H in Ea]. cbn [negb].
  pose proof (codec_support_exact e (rq_codec rq) (rq_bit_depth rq) (rq_chroma rq) (rq_width rq) (rq_height rq) (rq_fps rq)) as Hs.
  destruct (codec_support e _ _ _ _ _ _) as [cs|]; [|by intros [_ _ _ _ H]; apply Hs in H]. cbn [mbind option_bind].
  pose proof (best_handoff_spec c e) as Hb. destruct (best_handoff c e) as [[conv land]|]; [|intros [_ _ _ _ _ (c' & s & H)]; by apply Hb in H].
  destruct Hb as [Hi Hle]. split; [split; try done; [by apply Hs|by exists conv, land]|]. rewrite penalty_exact by done.
  split; cbn; try done. split; [done|]. unfold capture_usable, encoder_usable in Ec, Ee. apply andb_true_iff in Ec as [_ ?], Ee as [_ ?]. by apply worst_usable.
Qed.

Lemma pairings_elem reg rq p : p ∈ pairings reg rq <-> exists c e, c ∈ rg_captures reg /\ e ∈ rg_encoders reg /\ evaluate c e rq = Some p.
Proof.
  unfold pairings. rewrite list_elem_of_bind. split.
  - intros (c & Hp & Hc). apply list_elem_of_omap in Hp as (e & He & Hev). by exists c, e.
  - intros (c & e & Hc & He & Hev). exists c. split; [|done]. apply list_elem_of_omap. by exists e.
Qed.

(** The costs rank by stability, then by how many halves are unverified, then by
    latency. *)
Definition worthiness : CaptureCapability * EncoderCapability * Pipeline -> CaptureCapability * EncoderCapability * Pipeline -> comparison :=
  then_with (cmp_on (fun x => - tier_rank (pl_stability x.2)) Z.compare)
  (then_with (cmp_on (fun x => unverified x.1.1 x.1.2) Z.compare) (cmp_on (fun x => latency_score (pl_conversion x.2)) Z.compare)).

Lemma compare_lex a b u v : 0 <= u <= 2 -> 0 <= v <= 2 -> (exists x, a = stability_penalty x /\ x <> Unavailable) -> (exists y, b = stability_penalty y /\ y <> Unavailable) ->
  (a + 10 * u ?= b + 10 * v) = match a ?= b with Eq => u ?= v | c => c end.
Proof.
  intros Hu Hv (x & -> & Hx) (y & -> & Hy). assert (u = 0 \/ u = 1 \/ u = 2) as [->|[->| ->]] by lia; assert (v = 0 \/ v = 1 \/ v = 2) as [->|[->| ->]] by lia; by destruct x, y.
Qed.

Lemma cost_is_lexicographic c e p c' e' q : describes c e p -> describes c' e' q ->
  cost_cmp (pl_cost p) (pl_cost q) = worthiness (c, e, p) (c', e', q).
Proof.
  intros Hp Hq. unfold cost_cmp, worthiness, then_with, cmp_on. cbn [fst snd]. rewrite (de_cost _ _ _ Hp), (de_cost _ _ _ Hq). cbn [reliability_penalty cost_latency].
  destruct (de_stability _ _ _ Hp) as [_ Hsp], (de_stability _ _ _ Hq) as [_ Hsq].
  rewrite compare_lex; [|unfold unverified; by destruct (cc_probe c), (ec_probe e)|unfold unverified; by destruct (cc_probe c'), (ec_probe e')|by eexists|by eexists].
  assert ((stability_penalty (pl_stability p) ?= stability_penalty (pl_stability q)) = (- tier_rank (pl_stability p) ?= - tier_rank (pl_stability q))) as -> by (by destruct (pl_stability p), (pl_stability q)).
  by destruct (_ ?= _).
Qed.

Lemma existsb_elem {A} (f : A -> bool) l : existsb f l = true <-> exists x, x ∈ l /\ f x = true.
Proof. rewrite existsb_exists. split; intros (x & Hx & Hf); exists x; (split; [by apply list_elem_of_In|done]). Qed.

Lemma host_capable_exact reg : host_capable reg = true <->
  exists c e, c ∈ rg_captures reg /\ e ∈ rg_encoders reg /\ capture_usable c = true /\ encoder_usable e = true /\ ec_os e = cc_os c.
Proof.
  unfold host_capable. split.
  - destruct (_ || _); [done|]. intros (c & Hc & [Hu (e & He & [Hv Ho%bool_decide_eq_true]%andb_true_iff)%existsb_elem]%andb_true_iff)%existsb_elem. by exists c, e.
  - intros (c & e & Hc & He & Hu & Hv & Ho). assert (existsb capture_usable (rg_captures reg) = true) as -> by (apply existsb_elem; by exists c).
    assert (existsb encoder_usable (rg_encoders reg) = true) as -> by (apply existsb_elem; by exists e). cbn [negb orb]. apply existsb_elem. exists c. split; [done|].
    rewrite Hu. apply existsb_elem. exists e. split; [done|]. by rewrite Hv, bool_decide_true.
Qed.

(** (C19) Planning is exact and ranks truthfully. A pipeline is in the plan exactly
    when it comes from a viable pairing: one host system, both halves usable, the
    capture admits the geometry, the encoder has an entry for the codec, and some
    surface gets across; it uses a cheapest handoff and reports its own
    pairing. The plan is sorted, and its order is the documented one: stability
    of the weaker half first, then how many halves are unverified, then latency,
    then the identifiers. A plan that is not empty proves the host capable, and a
    host is capable exactly when two usable halves share a system. *)
Theorem plan_exact (reg : Registry) (rq : StreamRequest) :
  let ps := pipelines (plan reg rq) in
  (forall c e, c ∈ rg_captures reg -> e ∈ rg_encoders reg -> viable c e rq <-> exists p, p ∈ ps /\ evaluate c e rq = Some p) /\
  (forall p, p ∈ ps -> exists c e, c ∈ rg_captures reg /\ e ∈ rg_encoders reg /\ viable c e rq /\ describes c e p) /\
  length ps = length (pairings reg rq) /\
  StronglySorted (fun p q => cmp_le (pipeline_cmp p q) = true) ps /\
  (forall c e p c' e' q, evaluate c e rq = Some p -> evaluate c' e' rq = Some q ->
     pipeline_cmp p q = match worthiness (c, e, p) (c', e', q) with Eq => tiebreak_cmp p q | r => r end) /\
  (is_viable (plan reg rq) = true -> host_capable reg = true) /\
  (host_capable reg = true <-> exists c e, c ∈ rg_captures reg /\ e ∈ rg_encoders reg /\ capture_usable c = true /\ encoder_usable e = true /\ ec_os e = cc_os c).
Proof.
  intros ps. assert (Hperm : ps ≡ₚ pairings reg rq) by apply sort_by_perm.
  assert (Hof : forall p, p ∈ ps -> exists c e, c ∈ rg_captures reg /\ e ∈ rg_encoders reg /\ viable c e rq /\ describes c e p).
  { intros p. rewrite Hperm, pairings_elem. intros (c & e & Hc & He & Hev). exists c, e. pose proof (evaluate_exact c e rq) as H. by rewrite Hev in H. }
  split; [|split; [done|split; [by rewrite Hperm|split; [apply sort_by_sorted; apply _|split; [|split; [|apply host_capable_exact]]]]]].
  - intros c e Hc He. pose proof (evaluate_exact c e rq) as H. destruct (evaluate c e rq) as [p|] eqn:E; [|split; [done|intros (? & _ & ?); done]].
    split; [|intros _; by apply H]. intros _. exists p. split; [|done]. rewrite Hperm. apply pairings_elem. by exists c, e.
  - intros c e p c' e' q Hp Hq. pose proof (evaluate_exact c e rq) as H. rewrite Hp in H. pose proof (evaluate_exact c' e' rq) as H'. rewrite Hq in H'.
    unfold pipeline_cmp, then_with at 1. unfold cmp_on at 1. by rewrite (cost_is_lexicographic _ _ _ _ _ _ (proj2 H) (proj2 H')).
  - intros Hv. destruct ps as [|p ps'] eqn:E; unfold ps in E; unfold is_viable in Hv; [by rewrite E in Hv|].
    destruct (Hof p) as (c & e & Hc & He & [Ho Hu Hw _ _ _] & _); [by left|]. apply host_capable_exact. by exists c, e.
Qed.

Lemma omap_Permutation {A B} (f : A -> option B) (l k : list A) : l ≡ₚ k -> omap f l ≡ₚ omap f k.
Proof.
  induction 1 as [|x l k _ IH|x y l|l k m _ IH1 _ IH2]; cbn; [done| | |by rewrite IH1].
  - destruct (f x); [by apply perm_skip|done].
  - destruct (f x), (f y); done || apply perm_swap.
Qed.

Lemma pairings_perm r r' rq : rg_captures r ≡ₚ rg_captures r' -> rg_encoders r ≡ₚ rg_encoders r' -> pairings r rq ≡ₚ pairings r' rq.
Proof.
  intros Hc He. unfold pairings. transitivity (rg_captures r' ≫= fun c => omap (fun e => evaluate c e rq) (rg_encoders r)).
  - by rewrite Hc.
  - clear Hc. induction (rg_captures r') as [|c l IH]; [done|]. rewrite !bind_cons. by apply Permutation_app; [apply omap_Permutation|].
Qed.

(** The plan does not depend on the order of registration, as long as no two
    different pipelines agree on cost and on the four identifiers compared after
    it: registering the same records in any order gives the same plan. Pipelines
    that do agree on all of these keep the order in which they were registered. *)
Theorem plan_order_independent (reg reg' : Registry) (rq : StreamRequest) :
  rg_captures reg ≡ₚ rg_captures reg' -> rg_encoders reg ≡ₚ rg_encoders reg' ->
  ((forall p q, p ∈ pairings reg rq -> q ∈ pairings reg rq -> pipeline_cmp p q = Eq -> p = q) -> plan reg rq = plan reg' rq) /\
  (forall k, ties pipeline_cmp k (pipelines (plan reg rq)) = ties pipeline_cmp k (pairings reg rq)).
Proof.
  intros Hc He. split; [|intros k; by apply sort_by_stable; apply _]. intros Hu. unfold plan. f_equal. apply sort_by_unique; [apply _| |done]. by apply pairings_perm.
Qed.

(** Two records of one backend on one device, handing off different surfaces. *)
Definition nv : DeviceId := mkDeviceId Nvidia "0000:01:00.0"%string.
Definition yuv8 : PixelFormat := mkPixel Yuv420 Eight.
Definition demo_capture (id : string) (kind : SurfaceKind) : CaptureCapability :=
  mkCapture id Linux nv None (mkLimits 3840 2160 120) [mkSurface kind yuv8] [ScreenCapture] Verified Certified.
Definition demo_encoder : EncoderCapability :=
  mkEncoder "nvenc" Linux nv None [mkCodecSupport H264 [Eight] [Yuv420] (mkLimits 3840 2160 120)]
    [mkSurface DmaBuf yuv8; mkSurface CudaDevicePtr yuv8] [] Verified Certified.
Definition demo_registry : Registry := mkRegistry [demo_capture "wgc" CudaDevicePtr; demo_capture "pipewire" DmaBuf] [demo_encoder].
Definition demo_registry' : Registry := mkRegistry [demo_capture "pipewire" DmaBuf; demo_capture "wgc" CudaDevicePtr] [demo_encoder].

Lemma plan_order_independent_witness :
  plan demo_registry h264_1080p60 = plan demo_registry' h264_1080p60 /\ pl_capture_backend_id <$> pipelines (plan demo_registry h264_1080p60) = ["pipewire"; "wgc"]%string.
Proof.
  split; [|by vm_compute]. apply (plan_order_independent demo_registry demo_registry' h264_1080p60); [apply Permutation_swap|done|].
  intros p q Hp Hq. vm_compute in Hp, Hq. apply list_elem_of_In in Hp, Hq. cbn in Hp, Hq. destruct Hp as [<-|[<-|[]]], Hq as [<-|[<-|[]]]; vm_compute; done.
Defined.

(** The identifiers do not separate every two pipelines, and then the order of
    registration shows. *)
Lemma registration_order_matters :
  let r := mkRegistry [demo_capture "pipewire" CudaDevicePtr; demo_capture "pipewire" DmaBuf] [demo_encoder] in
  let r' := mkRegistry [demo_capture "pipewire" DmaBuf; demo_capture "pipewire" CudaDevicePtr] [demo_encoder] in
  pl_encoder_input <$> primary (plan r h264_1080p60) = Some (mkSurface CudaDevicePtr yuv8) /\
  pl_encoder_input <$> primary (plan r' h264_1080p60) = Some (mkSurface DmaBuf yuv8).
Proof. by vm_compute. Qed.

(** The example of the crate's documentation. *)
Example crate_example : is_zero_copy <$> primary (plan (register_encoder (register_capture registry_new (demo_capture "pipewire-dmabuf" DmaBuf)) demo_encoder) h264_1080p60) = Some true.
Proof. by vm_compute. Qed.
