(* ===== verification/MediaWire.v ===== *)
(** * Media framing ([media/src/lib.rs])

    The records media puts inside sealed datagrams: frame acknowledgements, video
    fragments and audio frames, and [fragment_frame], which cuts an encoded
    frame into fragments. Each format is an instance of the [Wire] interface of
    [Records]. *)

From S2P Require Import Prelude Fallible Datagram Records.

Module FrameAck.

Definition FRAME_ACK_MAGIC : list Z := [0x46; 0x41].
Definition FRAME_ACK_VERSION : Z := 1.
Definition FRAME_ACK_LEN : Z := 12.

Record FrameAck := mkFrameAck { fa_frame_id : Z; fa_lost_frames : Z }.

Inductive FrameAckError := BadLength | BadMagic | UnsupportedVersion (version : Z) | ReservedBits.

(** The fields tile the array; the gaps stay zero. *)
Definition encode (a : FrameAck) : list Z :=
  FRAME_ACK_MAGIC ++ [FRAME_ACK_VERSION; 0] ++ be_bytes 4 (fa_frame_id a) ++ be_bytes 2 (fa_lost_frames a) ++ [0; 0].

Definition decode (bytes : list Z) : fallible FrameAckError FrameAck :=
  if negb (zlen bytes =? FRAME_ACK_LEN) then Bad BadLength else
  if negb (bool_decide (range bytes 0 2 = FRAME_ACK_MAGIC)) then Bad BadMagic else
  if negb (byte_at bytes 2 =? FRAME_ACK_VERSION) then Bad (UnsupportedVersion (byte_at bytes 2)) else
  if negb (byte_at bytes 3 =? 0) || negb (bool_decide (range bytes 10 12 = [0; 0])) then Bad ReservedBits else
  Good (mkFrameAck (be_val (range bytes 4 8)) (be_val (range bytes 8 10))).

Definition valid (a : FrameAck) : Prop := is_u32 (fa_frame_id a) /\ is_u16 (fa_lost_frames a).

End FrameAck.

Definition MAGIC : list Z := [0x56; 0x46].
Definition VERSION : Z := 1.
Definition KEYFRAME : Z := 1.
Definition MAX_FRAGMENTS_PER_FRAME : Z := 8192.
Definition FRAGMENT_HEADER_LEN : Z := 20.
Definition MAX_FRAGMENT_BYTES : Z := MAX_PLAINTEXT - FRAGMENT_HEADER_LEN.
Definition AUDIO_HEADER_LEN : Z := 16.
Definition MAX_AUDIO_BYTES : Z := MAX_PLAINTEXT - AUDIO_HEADER_LEN.

Record Fragment := mkFragment {
  fg_frame_id : Z;
  fg_index : Z;
  fg_count : Z;
  fg_time : Z;
  fg_keyframe : bool;
  fg_payload : list Z;
}.

Record EncodedFrame := mkEncodedFrame { ef_frame_id : Z; ef_time : Z; ef_keyframe : bool; ef_payload : list Z }.

Inductive MError :=
  | ShortFragment | BadMagic | UnsupportedVersion (version : Z) | InvalidFlags (flags : Z) | ZeroFragments | FragmentIndexOutOfRange
  | BadLength | TooLarge | TooManyInflight | MetadataMismatch | ShortAudioFrame | BadAudioMagic
  | UnsupportedAudioVersion (version : Z) | InvalidAudioFlags (flags : Z).

Definition fragment_encode (f : Fragment) : fallible MError (list Z) :=
  if fg_count f =? 0 then Bad ZeroFragments else
  if fg_count f <=? fg_index f then Bad FragmentIndexOutOfRange else
  if MAX_FRAGMENT_BYTES <? zlen (fg_payload f) then Bad TooLarge else
  Good (MAGIC ++ [VERSION; if fg_keyframe f then KEYFRAME else 0] ++ be_bytes 4 (fg_frame_id f) ++ be_bytes 2 (fg_index f) ++
        be_bytes 2 (fg_count f) ++ be_bytes 8 (fg_time f) ++ fg_payload f).

Definition fragment_decode (bytes : list Z) : fallible MError Fragment :=
  if zlen bytes <? FRAGMENT_HEADER_LEN then Bad ShortFragment else
  if negb (bool_decide (range bytes 0 2 = MAGIC)) then Bad BadMagic else
  if negb (byte_at bytes 2 =? VERSION) then Bad (UnsupportedVersion (byte_at bytes 2)) else
  if negb (Z.land (byte_at bytes 3) (Z.lxor KEYFRAME 255) =? 0) then Bad (InvalidFlags (byte_at bytes 3)) else
  let frame_id := be_val (range bytes 4 8) in
  let fragment_index := be_val (range bytes 8 10) in
  let fragment_count := be_val (range bytes 10 12) in
  if fragment_count =? 0 then Bad ZeroFragments else
  if fragment_count <=? fragment_index then Bad FragmentIndexOutOfRange else
  if FRAGMENT_HEADER_LEN + MAX_FRAGMENT_BYTES <? zlen bytes then Bad BadLength else
  Good (mkFragment frame_id fragment_index fragment_count (be_val (range bytes 12 20))
          (negb (Z.land (byte_at bytes 3) KEYFRAME =? 0)) (range bytes FRAGMENT_HEADER_LEN (zlen bytes))).

Definition fragment_valid (f : Fragment) : Prop :=
  is_u32 (fg_frame_id f) /\ is_u16 (fg_count f) /\ 0 <= fg_index f < fg_count f /\ is_u64 (fg_time f) /\
  bytes_ok (fg_payload f) /\ zlen (fg_payload f) <= MAX_FRAGMENT_BYTES.

(** [payload.chunks(n)]. *)
Fixpoint chunks (fuel : nat) (n : Z) (l : list Z) : list (list Z) :=
  match fuel, l with
  | S fuel, _ :: _ => take (Z.to_nat n) l :: chunks fuel n (drop (Z.to_nat n) l)
  | _, _ => []
  end.

(** [collect] into a [Result]: the first error wins. *)
Fixpoint collect {E A} (l : list (fallible E A)) : fallible E (list A) :=
  match l with
  | [] => Good []
  | Bad e :: _ => Bad e
  | Good a :: l => match collect l with Good r => Good (a :: r) | Bad e => Bad e end
  end.

(** The fragments before they are encoded. *)
Definition fragments (frame_id time : Z) (keyframe : bool) (payload : list Z) (count : Z) : list Fragment :=
  imap (fun index part => mkFragment frame_id (Z.of_nat index) count time keyframe part) (chunks (length payload) MAX_FRAGMENT_BYTES payload).

Definition fragment_frame (frame_id time : Z) (keyframe : bool) (payload : list Z) : fallible MError (list (list Z)) :=
  if zlen payload =? 0 then Bad BadLength else
  let count := (zlen payload + MAX_FRAGMENT_BYTES - 1) / MAX_FRAGMENT_BYTES in
  if 65535 <? count then Bad TooLarge else
  collect (fragment_encode <$> fragments frame_id time keyframe payload count).

Record AudioFrame := mkAudioFrame { af_sequence : Z; af_time : Z; af_payload : list Z }.

Definition audio_encode (f : AudioFrame) : fallible MError (list Z) :=
  if MAX_AUDIO_BYTES <? zlen (af_payload f) then Bad TooLarge else
  Good ([0x41; 0x46; 1; 0] ++ be_bytes 4 (af_sequence f) ++ be_bytes 8 (af_time f) ++ af_payload f).

Definition audio_decode (bytes : list Z) : fallible MError AudioFrame :=
  if zlen bytes <? AUDIO_HEADER_LEN then Bad ShortAudioFrame else
  if negb (bool_decide (range bytes 0 2 = [0x41; 0x46])) then Bad BadAudioMagic else
  if negb (byte_at bytes 2 =? 1) then Bad (UnsupportedAudioVersion (byte_at bytes 2)) else
  if negb (byte_at bytes 3 =? 0) then Bad (InvalidAudioFlags (byte_at bytes 3)) else
  if AUDIO_HEADER_LEN + MAX_AUDIO_BYTES <? zlen bytes then Bad TooLarge else
  Good (mkAudioFrame (be_val (range bytes 4 8)) (be_val (range bytes 8 16)) (range bytes AUDIO_HEADER_LEN (zlen bytes))).

Definition audio_valid (f : AudioFrame) : Prop :=
  is_u32 (af_sequence f) /\ is_u64 (af_time f) /\ bytes_ok (af_payload f) /\ zlen (af_payload f) <= MAX_AUDIO_BYTES.

(** ** Laws *)

#[export] Instance frame_ack_wire : Wire FrameAck.FrameAck FrameAck.FrameAckError :=
  {| wire_encode a := Good (FrameAck.encode a); wire_decode := FrameAck.decode; wire_valid := FrameAck.valid |}.
#[export] Instance fragment_wire : Wire Fragment MError :=
  {| wire_encode := fragment_encode; wire_decode := fragment_decode; wire_valid := fragment_valid |}.
#[export] Instance audio_wire : Wire AudioFrame MError :=
  {| wire_encode := audio_encode; wire_decode := audio_decode; wire_valid := audio_valid |}.

Lemma bytes_four a b c d : is_u8 a -> is_u8 b -> is_u8 c -> is_u8 d -> bytes_ok [a; b; c; d].
Proof. intros. repeat apply Forall_cons_2; done || apply Forall_nil_2. Qed.

(** A header of four bytes, fields, and a payload to the end. *)
Lemma media_header_bytes b : 4 <= zlen b -> range b 0 4 = [byte_at b 0; byte_at b 1; byte_at b 2; byte_at b 3].
Proof.
  intros H. rewrite (range_split b 0 1 4), (range_split b 1 2 4), (range_split b 2 3 4) by lia. by rewrite !range_byte by lia.
Qed.

Lemma magic_bytes b x y : 2 <= zlen b -> range b 0 2 = [x; y] -> byte_at b 0 = x /\ byte_at b 1 = y.
Proof. intros H. rewrite (range_split b 0 1 2), !range_byte by lia. by intros [= -> ->]. Qed.

#[export] Instance frame_ack_laws : WireLaws frame_ack_wire.
Proof.
  split.
  - intros [i l] [Hi Hl]. cbn in Hi, Hl. eexists. split; [done|]. cbn [wire_decode frame_ack_wire]. unfold FrameAck.encode. cbn [FrameAck.fa_frame_id FrameAck.fa_lost_frames].
    set (b := _ ++ _ ++ _ ++ _ ++ _). assert (Hlen : zlen b = 12) by (unfold b; rewrite !zlen_app, !zlen_be_bytes; done).
    split; [unfold b; rewrite !bytes_ok_app; split_and!; try apply be_bytes_ok; repeat apply Forall_cons_2; try apply Forall_nil_2; by vm_compute|].
    split; [rewrite Hlen; by vm_compute|]. unfold FrameAck.decode. rewrite Hlen. cbn [Z.eqb negb].
    set (h := [0x46; 0x41; 1; 0]). unfold is_u32, is_u16, M32 in *.
    assert (Hb : b = h ++ be_bytes 4 i ++ be_bytes 2 l ++ [0; 0]) by done.
    rewrite (range_at b [] [0x46; 0x41] ([1; 0] ++ be_bytes 4 i ++ be_bytes 2 l ++ [0; 0])) by done.
    rewrite (range_at b (h ++ be_bytes 4 i ++ be_bytes 2 l) [0; 0] []) by (by rewrite ?Hb, ?app_nil_r, <- ?app_assoc, ?zlen_app, ?zlen_be_bytes).
    rewrite (range_at b h (be_bytes 4 i) (be_bytes 2 l ++ [0; 0])) by (by rewrite ?zlen_be_bytes).
    rewrite (range_at b (h ++ be_bytes 4 i) (be_bytes 2 l) [0; 0]) by (by rewrite ?Hb, <- ?app_assoc, ?zlen_app, ?zlen_be_bytes).
    rewrite !be_val_bytes by lia. done.
  - intros b a Hb. cbn [wire_decode wire_valid wire_encode frame_ack_wire]. unfold FrameAck.decode.
    destruct (zlen b =? FrameAck.FRAME_ACK_LEN) eqn:El; [|done]. bool_prop. unfold FrameAck.FRAME_ACK_LEN in El. cbn [negb].
    destruct (bool_decide (range b 0 2 = FrameAck.FRAME_ACK_MAGIC)) eqn:Em; [|done]. apply bool_decide_eq_true, magic_bytes in Em as [E0 E1]; [|lia]. cbn [negb].
    destruct (byte_at b 2 =? FrameAck.FRAME_ACK_VERSION) eqn:E2; [|done]. cbn [negb]. destruct (byte_at b 3 =? 0) eqn:E3; [|done]. cbn [negb orb].
    destruct (bool_decide (range b 10 12 = [0; 0])) eqn:E4; [|done]. apply bool_decide_eq_true in E4. bool_prop. intros [= <-]. split.
    + split; cbn [FrameAck.fa_frame_id FrameAck.fa_lost_frames].
      * pose proof (be_val_range_lt 4 b 4 8 Hb). unfold is_u32, M32. lia.
      * pose proof (be_val_range_lt 2 b 8 10 Hb). unfold is_u16. lia.
    + f_equal. unfold FrameAck.encode. cbn [FrameAck.fa_frame_id FrameAck.fa_lost_frames]. rewrite !be_bytes_range by (done || lia). rewrite <- E4, <- (range_split b 8 10 12), <- (range_split b 4 8 12) by lia.
      rewrite <- (range_all b) at 2. rewrite El, (range_split b 0 4 12), media_header_bytes by lia. by rewrite E0, E1, E2, E3.
Qed.

Lemma flag_byte k : is_u8 k -> Z.land k (Z.lxor KEYFRAME 255) = 0 -> k = if negb (Z.land k KEYFRAME =? 0) then KEYFRAME else 0.
Proof.
  intros Hk H. change (Z.lxor KEYFRAME 255) with 254 in H. unfold KEYFRAME, is_u8 in *.
  assert (forallb (fun k => if Z.land k 254 =? 0 then k =? (if negb (Z.land k 1 =? 0) then 1 else 0) else true) (seqZ 0 256) = true) as Ht by (by vm_compute).
  rewrite forallb_forall in Ht. specialize (Ht k). rewrite H in Ht. cbn [Z.eqb] in Ht. apply Z.eqb_eq, Ht, list_elem_of_In, elem_of_seqZ. lia.
Qed.

Lemma fragment_fields i x n t k p :
  is_u32 i -> is_u16 x -> is_u16 n -> is_u64 t ->
  let b := MAGIC ++ [VERSION; k] ++ be_bytes 4 i ++ be_bytes 2 x ++ be_bytes 2 n ++ be_bytes 8 t ++ p in
  zlen b = FRAGMENT_HEADER_LEN + zlen p /\ range b 0 2 = MAGIC /\ byte_at b 2 = VERSION /\ byte_at b 3 = k /\
  be_val (range b 4 8) = i /\ be_val (range b 8 10) = x /\ be_val (range b 10 12) = n /\ be_val (range b 12 20) = t /\ range b 20 (zlen b) = p.
Proof.
  intros Hi Hx Hn Ht b. unfold is_u32, is_u16, is_u64, M32, U64_MAX in *. set (h := [0x56; 0x46; 1; k]).
  assert (Hlen : zlen b = 20 + zlen p) by (unfold b; rewrite !zlen_app, !zlen_be_bytes; change (zlen MAGIC) with 2; change (zlen [VERSION; k]) with 2; lia).
  split; [done|]. split; [by rewrite (range_at b [] MAGIC ([VERSION; k] ++ be_bytes 4 i ++ be_bytes 2 x ++ be_bytes 2 n ++ be_bytes 8 t ++ p))|]. split; [done|]. split; [done|].
  rewrite (range_at b h (be_bytes 4 i) (be_bytes 2 x ++ be_bytes 2 n ++ be_bytes 8 t ++ p)) by (done || by rewrite zlen_be_bytes).
  rewrite (range_at b (h ++ be_bytes 4 i) (be_bytes 2 x) (be_bytes 2 n ++ be_bytes 8 t ++ p)) by (rewrite <- ?app_assoc, ?zlen_app, ?zlen_be_bytes; done).
  rewrite (range_at b (h ++ be_bytes 4 i ++ be_bytes 2 x) (be_bytes 2 n) (be_bytes 8 t ++ p)) by (rewrite <- ?app_assoc, ?zlen_app, ?zlen_be_bytes; done).
  rewrite (range_at b (h ++ be_bytes 4 i ++ be_bytes 2 x ++ be_bytes 2 n) (be_bytes 8 t) p) by (rewrite <- ?app_assoc, ?zlen_app, ?zlen_be_bytes; done).
  rewrite (range_at b (h ++ be_bytes 4 i ++ be_bytes 2 x ++ be_bytes 2 n ++ be_bytes 8 t) p []) by (rewrite ?app_nil_r, <- ?app_assoc, ?Hlen, ?zlen_app, ?zlen_be_bytes; done || (change (zlen h) with 4; lia)).
  rewrite !be_val_bytes by lia. done.
Qed.

Lemma fragment_encode_ok f : fragment_valid f -> exists b, fragment_encode f = Good b /\ bytes_ok b /\ zlen b <= MAX_PLAINTEXT /\ fragment_decode b = Good f.
Proof.
  intros (Hi & Hn & Hx & Ht & Hp & Hlen). destruct f as [i x n t k p]. cbn [fg_frame_id fg_index fg_count fg_time fg_keyframe fg_payload] in *.
  unfold fragment_encode. cbn [fg_frame_id fg_index fg_count fg_time fg_keyframe fg_payload]. rewrite (proj2 (Z.eqb_neq _ _)), (proj2 (Z.leb_gt _ _)), (proj2 (Z.ltb_ge _ _)) by lia.
  eexists. split; [done|]. set (b := MAGIC ++ _). assert (is_u16 x) as Hx16 by (unfold is_u16 in *; lia).
  pose proof (fragment_fields i x n t (if k then KEYFRAME else 0) p Hi Hx16 Hn Ht) as (F1 & F2 & F3 & F4 & F5 & F6 & F7 & F8 & F9). fold b in F1, F2, F3, F4, F5, F6, F7, F8, F9.
  pose proof (zlen_nonneg p). split; [unfold b; rewrite !bytes_ok_app; split_and!; try apply be_bytes_ok; try done; repeat apply Forall_cons_2; try apply Forall_nil_2; by destruct k|].
  split; [rewrite F1; unfold MAX_FRAGMENT_BYTES in Hlen; lia|]. unfold fragment_decode. rewrite F2, F3, F4, F5, F6, F7, F8. change FRAGMENT_HEADER_LEN with 20 in *. rewrite F9, F1.
  rewrite (proj2 (Z.ltb_ge _ _)) by lia. rewrite bool_decide_true by done. cbn [negb Z.eqb VERSION Pos.eqb].
  assert (Z.land (if k then KEYFRAME else 0) (Z.lxor KEYFRAME 255) = 0) as -> by (by destruct k). cbn [Z.eqb negb].
  rewrite (proj2 (Z.eqb_neq _ _)), (proj2 (Z.leb_gt _ _)), (proj2 (Z.ltb_ge _ _)) by lia. by destruct k.
Qed.

#[export] Instance fragment_laws : WireLaws fragment_wire.
Proof.
  split; [apply fragment_encode_ok|]. intros b f Hb. cbn [wire_decode wire_valid wire_encode fragment_wire]. unfold fragment_decode, FRAGMENT_HEADER_LEN.
  destruct (zlen b <? 20) eqn:El; [done|]. destruct (bool_decide (range b 0 2 = MAGIC)) eqn:Em; [|done]. cbn [negb].
  destruct (byte_at b 2 =? VERSION) eqn:E2; [|done]. cbn [negb]. destruct (Z.land (byte_at b 3) _ =? 0) eqn:E3; [|done]. cbn [negb].
  destruct (be_val (range b 10 12) =? 0) eqn:En; [done|]. destruct (_ <=? be_val (range b 8 10)) eqn:Ex; [done|]. destruct (_ <? zlen b) eqn:Eh; [done|]. bool_prop.
  apply bool_decide_eq_true, magic_bytes in Em as [E0 E1]; [|lia]. intros [= <-]. set (kf := negb _).
  pose proof (be_val_range_lt 4 b 4 8 Hb). pose proof (be_val_range_lt 2 b 8 10 Hb). pose proof (be_val_range_lt 2 b 10 12 Hb). pose proof (be_val_range_lt 8 b 12 20 Hb).
  assert (Hp : zlen (range b 20 (zlen b)) = zlen b - 20) by (apply zlen_range; lia). split.
  - unfold fragment_valid, is_u32, is_u16, is_u64, M32, U64_MAX. cbn [fg_frame_id fg_index fg_count fg_time fg_payload]. split; [lia|]. split; [lia|]. split; [lia|]. split; [lia|]. split; [by apply range_ok|lia].
  - unfold fragment_encode. cbn [fg_frame_id fg_index fg_count fg_time fg_keyframe fg_payload]. rewrite (proj2 (Z.eqb_neq _ _)), (proj2 (Z.leb_gt _ _)), (proj2 (Z.ltb_ge _ _)) by lia. f_equal.
    assert (Hk : (if kf then KEYFRAME else 0) = byte_at b 3) by (symmetry; apply flag_byte; [by apply byte_at_ok|done]). rewrite Hk.
    rewrite !be_bytes_range by (done || lia). rewrite <- (range_split b 12 20 (zlen b)), <- (range_split b 10 12 (zlen b)), <- (range_split b 8 10 (zlen b)), <- (range_split b 4 8 (zlen b)) by lia.
    transitivity (range b 0 (zlen b)); [|apply range_all]. rewrite (range_split b 0 4 (zlen b)), media_header_bytes by lia. by rewrite E0, E1, E2.
Qed.

Lemma audio_fields s t p : is_u32 s -> is_u64 t ->
  let b := [0x41; 0x46; 1; 0] ++ be_bytes 4 s ++ be_bytes 8 t ++ p in
  zlen b = AUDIO_HEADER_LEN + zlen p /\ range b 0 2 = [0x41; 0x46] /\ be_val (range b 4 8) = s /\ be_val (range b 8 16) = t /\ range b 16 (zlen b) = p.
Proof.
  intros Hs Ht b. unfold is_u32, is_u64, M32, U64_MAX in *. set (h := [0x41; 0x46; 1; 0]).
  assert (Hlen : zlen b = 16 + zlen p) by (unfold b; rewrite !zlen_app, !zlen_be_bytes; change (zlen [0x41; 0x46; 1; 0]) with 4; lia).
  split; [done|]. split; [by rewrite (range_at b [] [0x41; 0x46] ([1; 0] ++ be_bytes 4 s ++ be_bytes 8 t ++ p))|].
  rewrite (range_at b h (be_bytes 4 s) (be_bytes 8 t ++ p)) by (done || by rewrite zlen_be_bytes).
  rewrite (range_at b (h ++ be_bytes 4 s) (be_bytes 8 t) p) by (rewrite <- ?app_assoc, ?zlen_app, ?zlen_be_bytes; done).
  rewrite (range_at b (h ++ be_bytes 4 s ++ be_bytes 8 t) p []) by (rewrite ?app_nil_r, <- ?app_assoc, ?Hlen, ?zlen_app, ?zlen_be_bytes; done || (change (zlen h) with 4; lia)).
  rewrite !be_val_bytes by lia. done.
Qed.

#[export] Instance audio_laws : WireLaws audio_wire.
Proof.
  split; cbn [wire_decode wire_valid wire_encode audio_wire].
  - intros [s t p] (Hs & Ht & Hp & Hlen). cbn [af_sequence af_time af_payload] in *. pose proof (zlen_nonneg p). unfold audio_encode. cbn [af_sequence af_time af_payload].
    rewrite (proj2 (Z.ltb_ge _ _)) by lia. eexists. split; [done|]. set (b := _ ++ be_bytes 4 s ++ _). pose proof (audio_fields s t p Hs Ht) as (F1 & F2 & F3 & F4 & F5). fold b in F1, F2, F3, F4, F5.
    split; [unfold b; rewrite !bytes_ok_app; split_and!; try apply be_bytes_ok; try done; repeat apply Forall_cons_2; try apply Forall_nil_2; by vm_compute|].
    split; [rewrite F1; unfold MAX_AUDIO_BYTES in Hlen; lia|]. unfold audio_decode. change AUDIO_HEADER_LEN with 16 in *. rewrite F2, F3, F4, F5, F1.
    rewrite (proj2 (Z.ltb_ge _ _)) by lia. rewrite bool_decide_true by done. change (byte_at b 2) with 1. change (byte_at b 3) with 0. cbn [negb Z.eqb Pos.eqb]. by rewrite (proj2 (Z.ltb_ge _ _)) by lia.
  - intros b f Hb. unfold audio_decode, AUDIO_HEADER_LEN. destruct (zlen b <? 16) eqn:El; [done|]. destruct (bool_decide (range b 0 2 = _)) eqn:Em; [|done]. cbn [negb].
    destruct (byte_at b 2 =? 1) eqn:E2; [|done]. cbn [negb]. destruct (byte_at b 3 =? 0) eqn:E3; [|done]. cbn [negb]. destruct (_ <? zlen b) eqn:Eh; [done|]. bool_prop.
    apply bool_decide_eq_true, magic_bytes in Em as [E0 E1]; [|lia]. intros [= <-].
    pose proof (be_val_range_lt 4 b 4 8 Hb). pose proof (be_val_range_lt 8 b 8 16 Hb). assert (Hp : zlen (range b 16 (zlen b)) = zlen b - 16) by (apply zlen_range; lia). split.
    + unfold audio_valid, is_u32, is_u64, M32, U64_MAX. cbn [af_sequence af_time af_payload]. split; [lia|]. split; [lia|]. split; [by apply range_ok|lia].
    + unfold audio_encode. cbn [af_sequence af_time af_payload]. rewrite (proj2 (Z.ltb_ge _ _)) by lia. f_equal. rewrite !be_bytes_range by (done || lia).
      rewrite <- (range_split b 8 16 (zlen b)), <- (range_split b 4 8 (zlen b)) by lia. transitivity (range b 0 (zlen b)); [|apply range_all]. rewrite (range_split b 0 4 (zlen b)), media_header_bytes by lia. by rewrite E0, E1, E2, E3.
Qed.

(** ** Cutting a frame *)

Lemma chunks_concat fuel n l : 0 < n -> (length l <= fuel)%nat -> concat (chunks fuel n l) = l.
Proof.
  intros Hn. revert l. induction fuel as [|fuel IH]; intros l Hl; [destruct l; [done|cbn in Hl; lia]|]. destruct l as [|x l]; [done|]. cbn [chunks concat].
  rewrite IH, take_drop; [done|]. rewrite length_drop. cbn in *. lia.
Qed.

Lemma chunks_len fuel n l : 0 < n -> (length l <= fuel)%nat -> zlen (chunks fuel n l) = (zlen l + n - 1) / n.
Proof.
  intros Hn. revert l. induction fuel as [|fuel IH]; intros l Hl.
  - destruct l; [|cbn in Hl; lia]. change (0 = (0 + n - 1) / n). symmetry. apply Z.div_small. lia.
  - destruct l as [|x l]; [change (0 = (0 + n - 1) / n); symmetry; apply Z.div_small; lia|]. cbn [chunks]. rewrite zlen_cons, IH by (rewrite length_drop; cbn in *; lia).
    rewrite zlen_drop, Z2Nat.id by lia. pose proof (zlen_nonneg l) as Hz. rewrite zlen_cons. destruct (Z.le_gt_cases (1 + zlen l) n).
    + rewrite Z.max_l by lia. rewrite (Z.div_small (0 + n - 1)) by lia. apply Z.div_unique with (zlen l); lia.
    + rewrite Z.max_r by lia. replace (1 + zlen l + n - 1) with ((1 + zlen l - n + n - 1) + 1 * n) by lia. rewrite Z.div_add by lia. lia.
Qed.

Lemma chunks_each fuel n l : 0 < n -> Forall (fun c => c <> [] /\ zlen c <= n /\ (bytes_ok l -> bytes_ok c)) (chunks fuel n l).
Proof.
  intros Hn. revert l. induction fuel as [|fuel IH]; intros l; [constructor|]. destruct l as [|x l]; [constructor|]. cbn [chunks]. constructor.
  - split; [|split; [rewrite zlen_take, Z2Nat.id; lia|by apply Forall_take]]. destruct (Z.to_nat n) eqn:E; [lia|done].
  - eapply Forall_impl; [|apply IH]. cbn. intros c (H1 & H2 & H3). split; [done|]. split; [done|]. intros H. by apply H3, Forall_drop.
Qed.

Lemma collect_good {E A} (l : list (fallible E A)) (f : list A) : Forall2 (fun r a => r = Good a) l f -> collect l = Good f.
Proof. induction 1 as [|r a l f -> _ IH]; [done|]. cbn. by rewrite IH. Qed.

(** What [fragment_frame] accepts. *)
Definition frame_ok (id t : Z) (payload : list Z) : Prop :=
  is_u32 id /\ is_u64 t /\ bytes_ok payload /\ 0 < zlen payload <= 65535 * MAX_FRAGMENT_BYTES.

Definition fragment_count (payload : list Z) : Z := (zlen payload + MAX_FRAGMENT_BYTES - 1) / MAX_FRAGMENT_BYTES.

Lemma fragment_count_range payload : 0 < zlen payload <= 65535 * MAX_FRAGMENT_BYTES -> 0 < fragment_count payload <= 65535.
Proof.
  intros [H0 H1]. unfold fragment_count. change MAX_FRAGMENT_BYTES with 1148 in *. Z.to_euclidean_division_equations. lia.
Qed.

Lemma fragments_spec id t k payload : let fs := fragments id t k payload (fragment_count payload) in
  zlen fs = fragment_count payload /\ concat (fg_payload <$> fs) = payload /\
  forall i f, fs !! i = Some f -> fg_frame_id f = id /\ fg_index f = Z.of_nat i /\ fg_count f = fragment_count payload /\ fg_time f = t /\ fg_keyframe f = k.
Proof.
  intros fs. unfold fs, fragments. split; [|split].
  - unfold zlen at 1. rewrite length_imap. apply (chunks_len (length payload) MAX_FRAGMENT_BYTES payload); done.
  - rewrite fmap_imap. transitivity (concat (chunks (length payload) MAX_FRAGMENT_BYTES payload)); [f_equal|by apply chunks_concat].
    apply list_eq. intros i. rewrite list_lookup_imap. by destruct (_ !! i).
  - intros i f. rewrite list_lookup_imap. destruct (_ !! i); [|done]. by intros [= <-].
Qed.

Lemma fragments_valid id t k payload : frame_ok id t payload -> Forall fragment_valid (fragments id t k payload (fragment_count payload)).
Proof.
  intros (Hid & Ht & Hp & Hlen). pose proof (fragments_spec id t k payload) as (F1 & _ & F3). pose proof (fragment_count_range payload Hlen).
  apply Forall_lookup. intros i f Hf. destruct (F3 i f Hf) as (E1 & E2 & E3 & E4 & _).
  assert (Z.of_nat i < fragment_count payload) by (rewrite <- F1; apply lookup_lt_Some in Hf; unfold zlen; lia).
  unfold fragment_valid. rewrite E1, E2, E3, E4. split; [done|]. split; [unfold is_u16; lia|]. split; [lia|]. split; [done|].
  unfold fragments in Hf. rewrite list_lookup_imap in Hf. destruct (_ !! i) as [c|] eqn:Ec; [|done]. injection Hf as <-. cbn [fg_payload].
  pose proof (chunks_each (length payload) MAX_FRAGMENT_BYTES payload) as He. rewrite Forall_lookup in He. destruct (He ltac:(done) _ _ Ec) as (_ & ? & Hb). split; [by apply Hb|done].
Qed.

Lemma fragment_frame_ok id t k payload : frame_ok id t payload ->
  exists wires, fragment_frame id t k payload = Good wires /\
    Forall2 (fun f w => fragment_encode f = Good w /\ fragment_decode w = Good f /\ zlen w <= MAX_PLAINTEXT) (fragments id t k payload (fragment_count payload)) wires.
Proof.
  intros Hok. pose proof (fragments_valid id t k payload Hok) as Hv. destruct Hok as (Hid & Ht & Hp & Hlen). pose proof (fragment_count_range payload Hlen).
  assert (exists wires, Forall2 (fun f w => fragment_encode f = Good w /\ fragment_decode w = Good f /\ zlen w <= MAX_PLAINTEXT) (fragments id t k payload (fragment_count payload)) wires) as [wires Hw].
  { induction Hv as [|f fs Hf _ [ws IH]]; [by exists []|]. destruct (fragment_encode_ok f Hf) as (b & E1 & _ & E3 & E4). exists (b :: ws). by constructor. }
  exists wires. split; [|done]. unfold fragment_frame. rewrite (proj2 (Z.eqb_neq _ _)) by lia. fold (fragment_count payload). rewrite (proj2 (Z.ltb_ge _ _)) by lia.
  apply collect_good. clear -Hw. induction Hw as [|f w fs ws [He _] _ IH]; by constructor.
Qed.

(** (C20) The media formats have one encoding each. Fragments, frame
    acknowledgements and audio frames: every valid value encodes into a payload
    that fits one datagram, and a decoder accepts a byte string exactly when it
    is the encoding of a valid value, returning that value: no truncation,
    trailing byte, reserved bit, foreign magic, zero count or index past the
    count gets through. And a frame is cut without loss: the fragments of
    [fragment_frame] are all valid, are numbered from zero to the count they
    carry, and their payloads concatenate to the frame. *)
Theorem media_records_exact :
  Exact fragment_encode fragment_decode fragment_valid /\
  Exact (fun a => Good (FrameAck.encode a)) FrameAck.decode FrameAck.valid /\
  Exact audio_encode audio_decode audio_valid /\
  (forall id t k payload, frame_ok id t payload -> exists wires fs, fragment_frame id t k payload = Good wires /\
     Forall2 (fun f w => fragment_encode f = Good w /\ fragment_decode w = Good f) fs wires /\
     concat (fg_payload <$> fs) = payload /\ zlen fs = fragment_count payload /\
     forall i f, fs !! i = Some f -> fragment_valid f /\ f = mkFragment id (Z.of_nat i) (zlen fs) t k (fg_payload f)).
Proof.
  split; [apply (wire_exact fragment_wire)|]. split; [apply (wire_exact frame_ack_wire)|]. split; [apply (wire_exact audio_wire)|].
  intros id t k payload Hok. destruct (fragment_frame_ok id t k payload Hok) as (wires & Hw & Hf). exists wires, (fragments id t k payload (fragment_count payload)).
  destruct (fragments_spec id t k payload) as (Hl & Hc & Hi). split; [done|]. split; [eapply list.Forall2_impl; [exact Hf|]; naive_solver|]. split; [done|]. split; [done|].
  intros i f Hfi. split; [|destruct (Hi i f Hfi) as (H1 & H2 & H3 & H4 & H5); rewrite Hl; destruct f; cbn in *; congruence].
  pose proof (fragments_valid id t k payload Hok) as Hv. rewrite list.Forall_forall in Hv. apply Hv. by eapply list_elem_of_lookup_2.
Qed.
