(* ===== verification/Jitter.v ===== *)
(** * Audio jitter queue ([JitterBuffer] of [media/src/lib.rs])

    The bounded queue between the network and the audio decoder: it plays
    sequence numbers in order, says which are missing, and when it is full gives
    up the frame furthest ahead. *)

From stdpp Require Import gmap.
From S2P Require Import Prelude Fallible Datagram Records MediaWire.

Definition map_size {V} (m : gmap Z V) : Z := Z.of_nat (size m).

(** [sequence_before]. *)
Definition sequence_before (a b : Z) : bool := negb (a =? b) && (wrapping_sub32 b a <? 0x80000000).

(** [iter().max_by_key(key)] and [min_by_key(key)]: the last of the greatest, the
    first of the least. *)
Definition max_by_key (key : Z -> Z) (l : list Z) : option Z :=
  fold_left (fun best x => match best with None => Some x | Some b => if key b <=? key x then Some x else Some b end) l None.
Definition min_by_key (key : Z -> Z) (l : list Z) : option Z :=
  fold_left (fun best x => match best with None => Some x | Some b => if key x <? key b then Some x else Some b end) l None.

(** [keys()]. *)
Definition keys {V} (m : gmap Z V) : list Z := (map_to_list m).*1.

Inductive AudioEvent := AFrame (f : AudioFrame) | AMissing (sequence : Z).

Record JitterBuffer := mkJitter { jb_max_depth : Z; jb_expected : option Z; jb_frames : gmap Z AudioFrame }.
#[export] Instance eta_JitterBuffer : Eta JitterBuffer := fun j => mkJitter (jb_max_depth j) (jb_expected j) (jb_frames j).

Definition jitter_new (max_depth : Z) : JitterBuffer := mkJitter (Z.max max_depth 1) None ∅.

(** The [while] of [push]: one frame leaves per round. *)
Fixpoint jitter_evict (fuel : nat) (j : JitterBuffer) : JitterBuffer :=
  match fuel with
  | O => j
  | S fuel =>
      if map_size (jb_frames j) <=? jb_max_depth j then j else
      match jb_expected j with
      | None => j
      | Some expected =>
          match max_by_key (fun sequence => wrapping_sub32 sequence expected) (keys (jb_frames j)) with
          | None => j
          | Some sequence => jitter_evict fuel (j <| jb_frames := delete sequence (jb_frames j) |>)
          end
      end
  end.

Definition jitter_push (j : JitterBuffer) (frame : AudioFrame) : JitterBuffer :=
  if match jb_expected j with Some expected => sequence_before (af_sequence frame) expected | None => false end then j else
  let j := j <| jb_expected := Some (default (af_sequence frame) (jb_expected j)) |> in
  let j := match jb_frames j !! af_sequence frame with
           | Some _ => j
           | None => j <| jb_frames := <[af_sequence frame := frame]> (jb_frames j) |>
           end in
  jitter_evict (size (jb_frames j)) j.

Definition jitter_poll (j : JitterBuffer) : JitterBuffer * option AudioEvent :=
  match jb_expected j with
  | None => (j, None)
  | Some expected =>
      match jb_frames j !! expected with
      | Some frame =>
          (j <| jb_frames := delete expected (jb_frames j) |> <| jb_expected := Some (wrapping_add32 expected 1) |>, Some (AFrame frame))
      | None =>
          if map_size (jb_frames j) <? jb_max_depth j then (j, None) else
          (j <| jb_expected := Some (wrapping_add32 expected 1) |>, Some (AMissing expected))
      end
  end.

Definition jitter_clear (j : JitterBuffer) : JitterBuffer := j <| jb_expected := None |> <| jb_frames := ∅ |>.
Definition jitter_len (j : JitterBuffer) : Z := map_size (jb_frames j).
Definition jitter_is_empty (j : JitterBuffer) : bool := map_size (jb_frames j) =? 0.

(** ** Extrema and serial distance *)

Lemma max_by_key_spec key l : match max_by_key key l with None => l = [] | Some m => m ∈ l /\ forall x, x ∈ l -> key x <= key m end.
Proof.
  unfold max_by_key. assert (H : forall l k best, match best with None => k = [] | Some m => m ∈ k /\ forall x, x ∈ k -> key x <= key m end ->
    match fold_left (fun best x => match best with None => Some x | Some b => if key b <=? key x then Some x else Some b end) l best with
    | None => k ++ l = [] | Some m => m ∈ k ++ l /\ forall x, x ∈ k ++ l -> key x <= key m end).
  { clear l. induction l as [|y l IH]; intros k best Hb; cbn [fold_left]; [by rewrite app_nil_r|]. replace (k ++ y :: l) with ((k ++ [y]) ++ l) by by rewrite <- app_assoc.
    apply IH. destruct best as [b|]; [destruct (key b <=? key y) eqn:E; bool_prop|subst k].
    - split; [set_solver|]. destruct Hb as [_ Hb]. intros x [Hx|Hx]%elem_of_app; [specialize (Hb x Hx); lia|]. by apply list_elem_of_singleton in Hx as ->.
    - destruct Hb as [Hin Hb]. split; [set_solver|]. intros x [Hx|Hx]%elem_of_app; [by apply Hb|]. apply list_elem_of_singleton in Hx as ->. lia.
    - split; [set_solver|]. intros x Hx. by apply list_elem_of_singleton in Hx as ->. }
  apply (H l [] None). done.
Qed.

Lemma min_by_key_spec key l : match min_by_key key l with None => l = [] | Some m => m ∈ l /\ forall x, x ∈ l -> key m <= key x end.
Proof.
  unfold min_by_key. assert (H : forall l k best, match best with None => k = [] | Some m => m ∈ k /\ forall x, x ∈ k -> key m <= key x end ->
    match fold_left (fun best x => match best with None => Some x | Some b => if key x <? key b then Some x else Some b end) l best with
    | None => k ++ l = [] | Some m => m ∈ k ++ l /\ forall x, x ∈ k ++ l -> key m <= key x end).
  { clear l. induction l as [|y l IH]; intros k best Hb; cbn [fold_left]; [by rewrite app_nil_r|]. replace (k ++ y :: l) with ((k ++ [y]) ++ l) by by rewrite <- app_assoc.
    apply IH. destruct best as [b|]; [destruct (key y <? key b) eqn:E; bool_prop|subst k].
    - split; [set_solver|]. destruct Hb as [_ Hb]. intros x [Hx|Hx]%elem_of_app; [specialize (Hb x Hx); lia|]. by apply list_elem_of_singleton in Hx as ->.
    - destruct Hb as [Hin Hb]. split; [set_solver|]. intros x [Hx|Hx]%elem_of_app; [by apply Hb|]. apply list_elem_of_singleton in Hx as ->. lia.
    - split; [set_solver|]. intros x Hx. by apply list_elem_of_singleton in Hx as ->. }
  apply (H l [] None). done.
Qed.

Lemma elem_of_keys {V} (m : gmap Z V) k : k ∈ keys m <-> is_Some (m !! k).
Proof.
  unfold keys. rewrite list_elem_of_fmap. split.
  - intros ([k' v] & -> & Hin%elem_of_map_to_list). by exists v.
  - intros [v Hv]. exists (k, v). split; [done|by apply elem_of_map_to_list].
Qed.

Lemma keys_nil {V} (m : gmap Z V) : keys m = [] -> m = ∅.
Proof. intros H. apply map_to_list_empty_iff. unfold keys in H. by apply fmap_nil_inv in H. Qed.

(** How far [k] is ahead of [e]. *)
Definition ahead (e k : Z) : Z := wrapping_sub32 k e.

Lemma ahead_range e k : 0 <= ahead e k < M32.
Proof. apply wrap32_range. Qed.

Lemma ahead_self e : ahead e e = 0.
Proof. unfold ahead, wrapping_sub32. by rewrite Z.sub_diag. Qed.

Lemma ahead_zero e k : is_u32 e -> is_u32 k -> ahead e k = 0 -> k = e.
Proof. unfold ahead, wrapping_sub32, wrap32, is_u32, M32. intros. Z.to_euclidean_division_equations. lia. Qed.

Lemma ahead_succ e k : is_u32 e -> is_u32 k -> k <> e -> ahead (wrapping_add32 e 1) k = ahead e k - 1.
Proof.
  unfold ahead, wrapping_sub32, wrapping_add32, wrap32, is_u32, M32. intros. Z.to_euclidean_division_equations. lia.
Qed.

Lemma before_ahead k e : is_u32 e -> is_u32 k -> sequence_before k e = (0x80000000 <? ahead e k).
Proof.
  unfold sequence_before, ahead, wrapping_sub32, wrap32, is_u32, M32. intros. destruct (k =? e) eqn:E; bool_prop.
  - subst. rewrite Z.sub_diag. done.
  - cbn [negb andb]. apply Bool.eq_true_iff_eq. rewrite !Z.ltb_lt. Z.to_euclidean_division_equations. lia.
Qed.

Lemma map_size_insert_fresh {V} (m : gmap Z V) k v : m !! k = None -> map_size (<[k := v]> m) = map_size m + 1.
Proof. intros H. unfold map_size. rewrite map_size_insert_None by done. lia. Qed.

Lemma map_size_delete_some {V} (m : gmap Z V) k : is_Some (m !! k) -> map_size (delete k m) = map_size m - 1.
Proof. intros [v H]. unfold map_size. pose proof (map_size_ne_0_lookup_2 m k ltac:(by eexists)). rewrite map_size_delete_Some by (by eexists). lia. Qed.

Lemma map_size_delete_le {V} (m : gmap Z V) k : map_size (delete k m) <= map_size m.
Proof. unfold map_size. rewrite map_size_delete. destruct (m !! k); cbn; lia. Qed.

Lemma map_size_nonneg {V} (m : gmap Z V) : 0 <= map_size m.
Proof. unfold map_size. lia. Qed.

(** ** The queue in motion *)

(** The frame that gives way when the queue is full: the one furthest ahead. *)
Definition furthest (e : Z) (m : gmap Z AudioFrame) (k : Z) : Prop := is_Some (m !! k) /\ forall k', is_Some (m !! k') -> ahead e k' <= ahead e k.

Lemma evict_one j e : jb_expected j = Some e -> map_size (jb_frames j) = jb_max_depth j + 1 -> 0 <= jb_max_depth j ->
  exists k, furthest e (jb_frames j) k /\ jitter_evict (size (jb_frames j)) j = j <| jb_frames := delete k (jb_frames j) |>.
Proof.
  intros He Hs Hd. destruct (size (jb_frames j)) as [|n] eqn:En; [unfold map_size in Hs; lia|]. cbn [jitter_evict]. rewrite (proj2 (Z.leb_gt _ _)) by lia. rewrite He.
  pose proof (max_by_key_spec (fun s => wrapping_sub32 s e) (keys (jb_frames j))) as Hm. destruct (max_by_key _ _) as [k|].
  - destruct Hm as [Hk Hle]. apply elem_of_keys in Hk. exists k. split; [split; [done|]; intros k' Hk'; apply elem_of_keys in Hk'; by apply Hle|].
    destruct n as [|n]; [done|]. cbn [jitter_evict jb_frames jb_max_depth set_field]. rewrite map_size_delete_some by done. by rewrite (proj2 (Z.leb_le _ _)) by lia.
  - apply keys_nil in Hm. rewrite Hm in En. done.
Qed.

Inductive JitterOp := JPush (f : AudioFrame) | JPoll.

Record JitterRun := mkJitterRun { jr_queue : JitterBuffer; jr_pushed : list AudioFrame; jr_played : list AudioEvent }.

Definition jitter_step (r : JitterRun) (op : JitterOp) : JitterRun :=
  match op with
  | JPush f => mkJitterRun (jitter_push (jr_queue r) f) (jr_pushed r ++ [f]) (jr_played r)
  | JPoll => let '(j, e) := jitter_poll (jr_queue r) in mkJitterRun j (jr_pushed r) (jr_played r ++ option_list e)
  end.

Definition jitter_run (max_depth : Z) (ops : list JitterOp) : JitterRun := fold_left jitter_step ops (mkJitterRun (jitter_new max_depth) [] []).

Definition jitter_op_ok (op : JitterOp) : Prop := match op with JPush f => is_u32 (af_sequence f) | JPoll => True end.

Definition event_sequence (e : AudioEvent) : Z := match e with AFrame f => af_sequence f | AMissing s => s end.

Record JitterInv (r : JitterRun) : Prop := mkJitterInv {
  ji_depth : 1 <= jb_max_depth (jr_queue r);
  ji_size : map_size (jb_frames (jr_queue r)) <= jb_max_depth (jr_queue r);
  ji_idle : jb_expected (jr_queue r) = None -> jr_pushed r = [] /\ jr_played r = [] /\ jb_frames (jr_queue r) = ∅;
  ji_expected : forall e, jb_expected (jr_queue r) = Some e ->
    exists first, head (jr_pushed r) = Some first /\ is_u32 (af_sequence first) /\ e = wrapping_add32 (af_sequence first) (zlen (jr_played r));
  ji_frames : forall k f, jb_frames (jr_queue r) !! k = Some f ->
    af_sequence f = k /\ is_u32 k /\ f ∈ jr_pushed r /\ forall e, jb_expected (jr_queue r) = Some e -> ahead e k <= 0x80000000;
  ji_order : forall i ev, jr_played r !! i = Some ev -> exists first, head (jr_pushed r) = Some first /\ event_sequence ev = wrapping_add32 (af_sequence first) (Z.of_nat i);
  ji_heard : forall f, AFrame f ∈ jr_played r -> f ∈ jr_pushed r;
}.

(** What a frame that is not late leaves in the queue. *)
Definition with_frame (m : gmap Z AudioFrame) (f : AudioFrame) : gmap Z AudioFrame :=
  match m !! af_sequence f with Some _ => m | None => <[af_sequence f := f]> m end.

Definition push_spec (j : JitterBuffer) (f : AudioFrame) (j' : JitterBuffer) : Prop :=
  let e := default (af_sequence f) (jb_expected j) in
  if match jb_expected j with Some e => sequence_before (af_sequence f) e | None => false end then j' = j else
  exists m', j' = mkJitter (jb_max_depth j) (Some e) m' /\
    (map_size (with_frame (jb_frames j) f) <= jb_max_depth j /\ m' = with_frame (jb_frames j) f \/
     map_size (jb_frames j) = jb_max_depth j /\ exists k, furthest e (with_frame (jb_frames j) f) k /\ m' = delete k (with_frame (jb_frames j) f)).

Lemma with_frame_size m f : map_size m <= map_size (with_frame m f) <= map_size m + 1.
Proof. unfold with_frame. destruct (m !! _) eqn:E; [lia|]. rewrite map_size_insert_fresh by done. lia. Qed.

Lemma jitter_push_exact j f : 1 <= jb_max_depth j -> map_size (jb_frames j) <= jb_max_depth j -> push_spec j f (jitter_push j f).
Proof.
  intros Hd Hs. unfold push_spec, jitter_push. destruct (match jb_expected j with Some _ => _ | None => _ end); [done|].
  set (e := default (af_sequence f) (jb_expected j)). set (j1 := match jb_frames (j <| jb_expected := Some e |>) !! af_sequence f with Some _ => _ | None => _ end).
  assert (j1 = mkJitter (jb_max_depth j) (Some e) (with_frame (jb_frames j) f)) as -> by (unfold j1, with_frame; cbn [jb_frames set_field]; destruct j; cbn; by destruct (_ !! _)).
  cbn [jb_frames]. pose proof (with_frame_size (jb_frames j) f) as Hw. destruct (Z.le_gt_cases (map_size (with_frame (jb_frames j) f)) (jb_max_depth j)) as [Hle|Hgt].
  - exists (with_frame (jb_frames j) f). split; [|by left]. destruct (size _); [done|]. cbn [jitter_evict jb_frames jb_max_depth]. by rewrite (proj2 (Z.leb_le _ _)).
  - destruct (evict_one (mkJitter (jb_max_depth j) (Some e) (with_frame (jb_frames j) f)) e) as (k & Hk & Hev); [done|cbn; lia|cbn; lia|]. cbn [jb_frames] in Hk, Hev. rewrite Hev.
    eexists. split; [done|]. right. split; [lia|]. by exists k.
Qed.

Lemma jitter_push_inv r f : JitterInv r -> is_u32 (af_sequence f) -> JitterInv (mkJitterRun (jitter_push (jr_queue r) f) (jr_pushed r ++ [f]) (jr_played r)).
Proof.
  intros HI Hf. pose proof HI as [Hd Hs Hidle Hexp Hfr Hord Hh]. pose proof (jitter_push_exact (jr_queue r) f Hd Hs) as Hp. unfold push_spec in Hp.
  assert (Hhead : forall g, head (jr_pushed r) = Some g -> head (jr_pushed r ++ [f]) = Some g) by (intros g; by destruct (jr_pushed r)).
  destruct (jb_expected (jr_queue r)) as [e|] eqn:Ee; cbn [default from_option id] in Hp.
  - destruct (Hexp e eq_refl) as (first & Hfirst & Hu & He). assert (Hue : is_u32 e) by (rewrite He; apply wrapping_add32_u32). destruct (sequence_before (af_sequence f) e) eqn:Eb.
    + rewrite Hp. split; cbn [jr_queue jr_pushed jr_played]; rewrite ?Ee; try done.
      * intros e' [= <-]. exists first. by split; [apply Hhead|].
      * intros k g Hg. destruct (Hfr k g Hg) as (? & ? & ? & ?). split; [done|]. split; [done|]. split; [set_solver|done].
      * intros i ev Hi. destruct (Hord i ev Hi) as (g & Hg & ?). exists g. split; [by apply Hhead|done].
      * intros g Hg. apply Hh in Hg. set_solver.
    + rewrite before_ahead in Eb by done. bool_prop.
      assert (Hm : forall k g, with_frame (jb_frames (jr_queue r)) f !! k = Some g -> af_sequence g = k /\ is_u32 k /\ g ∈ jr_pushed r ++ [f] /\ ahead e k <= 0x80000000).
      { unfold with_frame. intros k g Hg. assert (jb_frames (jr_queue r) !! k = Some g \/ k = af_sequence f /\ g = f) as [Hg'|[-> ->]].
        { destruct (jb_frames (jr_queue r) !! af_sequence f); [by left|]. apply lookup_insert_Some in Hg as [[<- <-]|[_ Hg]]; [by right|by left]. }
        - destruct (Hfr k g Hg') as (? & ? & ? & Ha). split; [done|]. split; [done|]. split; [set_solver|by apply Ha].
        - split; [done|]. split; [done|]. split; [set_solver|done]. }
      destruct Hp as (m' & -> & Hm'). split; cbn [jr_queue jr_pushed jr_played jb_max_depth jb_expected jb_frames]; try done.
      * destruct Hm' as [[Hle ->]|(Hsz & k & [Hk _] & ->)]; [done|]. rewrite map_size_delete_some by done. pose proof (with_frame_size (jb_frames (jr_queue r)) f). lia.
      * intros e' [= <-]. exists first. by split; [apply Hhead|].
      * intros k g Hg. assert (with_frame (jb_frames (jr_queue r)) f !! k = Some g) as Hg' by (destruct Hm' as [[_ ->]|(_ & k' & _ & ->)]; [done|by apply lookup_delete_Some in Hg as [_ Hg]]).
        destruct (Hm k g Hg') as (? & ? & ? & ?). split; [done|]. split; [done|]. split; [done|]. by intros e' [= <-].
      * intros i ev Hi. destruct (Hord i ev Hi) as (g & Hg & ?). exists g. split; [by apply Hhead|done].
      * intros g Hg. apply Hh in Hg. set_solver.
  - destruct (Hidle eq_refl) as (Hpu & Hpl & Hfe). rewrite Hpu, Hpl in *. rewrite Hfe in Hp. unfold with_frame in Hp. rewrite lookup_empty in Hp.
    destruct Hp as (m' & -> & Hm'). assert (map_size (<[af_sequence f := f]> (∅ : gmap Z AudioFrame)) = 1) as Hone by (rewrite map_size_insert_fresh by apply lookup_empty; done).
    destruct Hm' as [[Hle ->]|(Hsz & _)]; [|unfold map_size in Hsz; rewrite map_size_empty in Hsz; lia].
    split; cbn [jr_queue jr_pushed jr_played jb_max_depth jb_expected jb_frames]; try done.
    + intros e [= <-]. exists f. split; [done|]. split; [done|]. rewrite zlen_nil. unfold wrapping_add32. rewrite Z.add_0_r. by rewrite wrap32_small.
    + intros k g Hg. apply lookup_insert_Some in Hg as [[<- <-]|[_ Hg]]; [|by rewrite lookup_empty in Hg]. split; [done|]. split; [done|]. split; [set_solver|].
      intros e [= <-]. by rewrite ahead_self.
    + intros g Hg. by apply elem_of_nil in Hg.
Qed.

Lemma wrapping_add_succ a n : 0 <= n -> wrapping_add32 (wrapping_add32 a n) 1 = wrapping_add32 a (n + 1).
Proof. unfold wrapping_add32, wrap32, M32. intros. Z.to_euclidean_division_equations. lia. Qed.

Lemma jitter_poll_inv r : JitterInv r -> JitterInv (jitter_step r JPoll).
Proof.
  intros HI. pose proof HI as [Hd Hs Hidle Hexp Hfr Hord Hh]. cbn [jitter_step]. unfold jitter_poll.
  destruct (jb_expected (jr_queue r)) as [e|] eqn:Ee; [|rewrite app_nil_r; by destruct r]. destruct (Hexp e eq_refl) as (first & Hfirst & Hu & He).
  assert (Hue : is_u32 e) by (rewrite He; apply wrapping_add32_u32).
  assert (Hnext : forall ev, event_sequence ev = e -> (forall f, ev = AFrame f -> f ∈ jr_pushed r) ->
    (forall i ev', (jr_played r ++ [ev]) !! i = Some ev' -> exists g, head (jr_pushed r) = Some g /\ event_sequence ev' = wrapping_add32 (af_sequence g) (Z.of_nat i)) /\
    (forall f, AFrame f ∈ jr_played r ++ [ev] -> f ∈ jr_pushed r)).
  { intros ev Hev Hin. split.
    - intros i ev' [Hi|[Hi Hx]]%lookup_app_Some; [by apply Hord|]. exists first. split; [done|]. apply list_lookup_singleton_Some in Hx as [Hx <-]. rewrite Hev, He. f_equal. unfold zlen. lia.
    - intros f [Hf|Hf]%elem_of_app; [by apply Hh|]. apply list_elem_of_singleton in Hf. by apply Hin. }
  assert (He1 : wrapping_add32 e 1 = wrapping_add32 (af_sequence first) (zlen (jr_played r) + 1)) by (rewrite He; apply wrapping_add_succ, zlen_nonneg).
  assert (Hfr' : forall k f, k <> e -> jb_frames (jr_queue r) !! k = Some f -> af_sequence f = k /\ is_u32 k /\ f ∈ jr_pushed r /\
     forall e', Some (wrapping_add32 e 1) = Some e' -> ahead e' k <= 0x80000000).
  { intros k f Hk Hf. destruct (Hfr k f Hf) as (H1 & H2 & H3 & H4). specialize (H4 e eq_refl). split; [done|]. split; [done|]. split; [done|]. intros e' [= <-]. rewrite ahead_succ by done. lia. }
  destruct (jb_frames (jr_queue r) !! e) as [f|] eqn:Ef.
  - destruct (Hfr e f Ef) as (Hfs & _ & Hfp & _). destruct (Hnext (AFrame f) Hfs) as [Hn1 Hn2]; [by intros g [= <-]|].
    split; cbn [jr_queue jr_pushed jr_played jb_max_depth jb_expected jb_frames set_field option_list eta eta_JitterBuffer]; try done.
    + rewrite map_size_delete_some by (by eexists). lia.
    + intros e' [= <-]. exists first. split; [done|]. split; [done|]. rewrite zlen_app. exact He1.
    + intros k g Hg. apply lookup_delete_Some in Hg as [Hk Hg]. by apply Hfr'.
  - destruct (map_size _ <? _) eqn:E; [rewrite app_nil_r; by destruct r|]. destruct (Hnext (AMissing e) eq_refl) as [Hn1 Hn2]; [done|].
    split; cbn [jr_queue jr_pushed jr_played jb_max_depth jb_expected jb_frames set_field option_list eta eta_JitterBuffer]; try done.
    + intros e' [= <-]. exists first. split; [done|]. split; [done|]. rewrite zlen_app. exact He1.
    + intros k g Hg. apply Hfr'; [|done]. intros ->. by rewrite Ef in Hg.
Qed.

Lemma jitter_run_inv depth ops : Forall jitter_op_ok ops -> JitterInv (jitter_run depth ops).
Proof.
  intros Hops. unfold jitter_run. assert (JitterInv (mkJitterRun (jitter_new depth) [] [])) as HI.
  { split; cbn; try done; try lia; try (intros ? Hf; by apply elem_of_nil in Hf). unfold map_size. rewrite map_size_empty. lia. }
  revert HI. generalize (mkJitterRun (jitter_new depth) [] []). induction Hops as [|op ops Hop _ IH]; intros r HI; [done|]. apply IH. destruct op; [by apply jitter_push_inv|by apply jitter_poll_inv].
Qed.

(** Audio is played in order. Whatever arrives and whenever it is polled, the
    queue plays consecutive sequence numbers from the first frame it was given,
    across the 32-bit wrap: each is a frame that was pushed or is reported missing.
    It never holds more than its bound. A frame is refused only when its turn has
    passed, and is dropped later only to make room, when it is the one furthest
    ahead. A poll is silent exactly before the first frame, or while the next frame
    is absent and the queue is not full; a frame is reported missing only when it
    is absent and the queue is full. *)
Theorem jitter_plays_in_order (depth : Z) (ops : list JitterOp) :
  Forall jitter_op_ok ops ->
  let r := jitter_run depth ops in
  let j := jr_queue r in
  (forall i ev, jr_played r !! i = Some ev -> exists first, head (jr_pushed r) = Some first /\
     event_sequence ev = wrapping_add32 (af_sequence first) (Z.of_nat i) /\ (forall f, ev = AFrame f -> f ∈ jr_pushed r)) /\
  jitter_len j <= Z.max depth 1 /\
  (forall f, push_spec j f (jitter_push j f)) /\
  match jitter_poll j with
  | (j', None) => j' = j /\ (jr_pushed r = [] \/ exists e, jb_expected j = Some e /\ jb_frames j !! e = None /\ jitter_len j < Z.max depth 1)
  | (j', Some (AFrame f)) => jb_expected j = Some (af_sequence f) /\ jb_frames j !! af_sequence f = Some f
  | (j', Some (AMissing s)) => jb_expected j = Some s /\ jb_frames j !! s = None /\ jitter_len j = Z.max depth 1
  end.
Proof.
  intros Hops r j. pose proof (jitter_run_inv depth ops Hops) as [Hd Hs Hidle Hexp Hfr Hord Hh]. fold r in Hd, Hs, Hidle, Hexp, Hfr, Hord, Hh. fold j in Hd, Hs, Hidle, Hexp, Hfr.
  assert (Hdepth : jb_max_depth j = Z.max depth 1).
  { clear. subst j r. unfold jitter_run. assert (forall l r, jb_max_depth (jr_queue (fold_left jitter_step l r)) = jb_max_depth (jr_queue r)) as H; [|by rewrite H].
    assert (forall n j, jb_max_depth (jitter_evict n j) = jb_max_depth j) as Hev by (induction n as [|n IH]; intros j; [done|]; cbn [jitter_evict]; repeat case_match; by rewrite ?IH).
    induction l as [|op l IH]; intros r; [done|]. cbn [fold_left]. rewrite IH. destruct op as [f|]; cbn [jitter_step].
    - cbn [jr_queue]. unfold jitter_push. destruct (match jb_expected _ with Some _ => _ | None => _ end); [done|]. rewrite Hev. by destruct (_ !! _).
    - unfold jitter_poll. destruct (jb_expected (jr_queue r)) as [e|]; [|done]. destruct (jb_frames (jr_queue r) !! e); [done|]. by destruct (_ <? _). }
  split; [|split; [unfold jitter_len; lia|split; [intros f; by apply jitter_push_exact|]]].
  - intros i ev Hi. destruct (Hord i ev Hi) as (g & Hg & He). exists g. split; [done|]. split; [done|]. intros f ->. apply Hh. by eapply list_elem_of_lookup_2.
  - unfold jitter_poll, jitter_len. destruct (jb_expected j) as [e|] eqn:Ee; [|split; [done|left; by apply Hidle]]. destruct (jb_frames j !! e) as [f|] eqn:Ef.
    + destruct (Hfr e f Ef) as (<- & _). done.
    + destruct (map_size (jb_frames j) <? jb_max_depth j) eqn:E; bool_prop; [split; [done|]; right; exists e; split; [done|]; split; [done|lia]|]. split; [done|]. split; [done|lia].
Qed.

Definition demo_audio (s : Z) : AudioFrame := mkAudioFrame s 0 [s].

Lemma jitter_plays_in_order_witness :
  let ops := [JPush (demo_audio 4294967295); JPush (demo_audio 1); JPoll; JPoll; JPush (demo_audio 2); JPoll; JPoll] in
  let r := jitter_run 2 ops in
  event_sequence <$> jr_played r = [4294967295; 0; 1] /\ jitter_len (jr_queue r) <= 2.
Proof.
  intros ops r. destruct (jitter_plays_in_order 2 ops) as (_ & H & _).
  - repeat apply Forall_cons_2; try apply Forall_nil_2; by vm_compute.
  - split; [by vm_compute|exact H].
Defined.
