(* ===== verification/Assembler.v ===== *)
(** * Video reassembly ([Assembler] of [media/src/lib.rs])

    The bounded out-of-order reassembler: fragments of several frames at once,
    a reorder queue for frames that completed early, bounds on everything it
    keeps, and the bookkeeping that asks for a keyframe after a loss. *)

From stdpp Require Import gmap.
From S2P Require Import Prelude Fallible Datagram Records MediaWire Jitter.

Inductive FragmentOutcome := AcceptedIncomplete | Completed | Duplicate.

Record PushOutcome := mkOutcome {
  po_completed : option Z;
  po_ready : option EncodedFrame;
  po_dropped : list Z;
  po_fragment : FragmentOutcome;
}.
#[export] Instance eta_PushOutcome : Eta PushOutcome := fun o => mkOutcome (po_completed o) (po_ready o) (po_dropped o) (po_fragment o).

Definition outcome_new (fragment : FragmentOutcome) : PushOutcome := mkOutcome None None [] fragment.
Definition into_ready (o : PushOutcome) : option EncodedFrame := po_ready o.

Record InProgress := mkInProgress {
  ip_time : Z;
  ip_keyframe : bool;
  ip_parts : list (option (list Z));
  ip_bytes : Z;
  ip_order : Z;
}.
#[export] Instance eta_InProgress : Eta InProgress := fun p => mkInProgress (ip_time p) (ip_keyframe p) (ip_parts p) (ip_bytes p) (ip_order p).

Record Assembler := mkAssembler {
  as_max_frame_bytes : Z;
  as_max_inflight : Z;
  as_order : Z;
  as_frames : gmap Z InProgress;
  as_completed : list Z;
  as_ready : gmap Z EncodedFrame;
  as_next_ready : option Z;
  as_last_frame_id : option Z;
  as_keyframe_request : bool;
  as_gap_frames : Z;
}.
#[export] Instance eta_Assembler : Eta Assembler := fun a =>
  mkAssembler (as_max_frame_bytes a) (as_max_inflight a) (as_order a) (as_frames a) (as_completed a) (as_ready a)
    (as_next_ready a) (as_last_frame_id a) (as_keyframe_request a) (as_gap_frames a).

Definition assembler_new (max_frame_bytes max_inflight : Z) : Assembler :=
  mkAssembler max_frame_bytes (Z.max max_inflight 1) 0 ∅ [] ∅ None None false 0.

Definition saturating_mul (a b : Z) : Z := Z.min U64_MAX (a * b).

(** [evict_if_needed]: one frame leaves per round, the one begun first. The
    orders are distinct, so which of equals [min_by_key] takes does not matter. *)
Fixpoint evict_if_needed (fuel : nat) (a : Assembler) (dropped : list Z) : Assembler * list Z :=
  match fuel with
  | O => (a, dropped)
  | S fuel =>
      if map_size (as_frames a) <? as_max_inflight a then (a, dropped) else
      match min_by_key (fun id => match as_frames a !! id with Some frame => ip_order frame | None => 0 end) (keys (as_frames a)) with
      | None => (a, dropped)
      | Some oldest => evict_if_needed fuel (a <| as_frames := delete oldest (as_frames a) |>) (dropped ++ [oldest])
      end
  end.

(** [evict_ready_if_needed]. *)
Fixpoint evict_ready_if_needed (fuel : nat) (a : Assembler) (dropped : list Z) : Assembler * list Z :=
  match fuel with
  | O => (a, dropped)
  | S fuel =>
      let limit := Z.max (saturating_mul (as_max_inflight a) 4) 2 in
      if map_size (as_ready a) <=? limit then (a, dropped) else
      match as_next_ready a with
      | None => (a, dropped)
      | Some expected =>
          match max_by_key (fun id => wrapping_sub32 id expected) (keys (as_ready a)) with
          | None => (a, dropped)
          | Some farthest => evict_ready_if_needed fuel (a <| as_ready := delete farthest (as_ready a) |>) (dropped ++ [farthest])
          end
      end
  end.

Definition accept_ordered_frame (a : Assembler) (frame : EncodedFrame) : Assembler :=
  let discontinuity :=
    match as_last_frame_id a with
    | Some previous => negb (ef_frame_id frame =? wrapping_add32 previous 1)
    | None => negb (ef_keyframe frame)
    end in
  let a := if discontinuity && negb (ef_keyframe frame) then a <| as_keyframe_request := true |> else a in
  let a :=
    if ef_keyframe frame then
      if match as_last_frame_id a with None => true | Some last => negb (sequence_before (ef_frame_id frame) last) end
      then a <| as_keyframe_request := false |> else a
    else a in
  a <| as_last_frame_id := Some (ef_frame_id frame) |>.

(** Removing the frame at [next_ready] and accepting it. *)
Definition release (a : Assembler) (next : Z) : Assembler * option EncodedFrame :=
  match as_ready a !! next with
  | None => (a, None)
  | Some frame =>
      let a := accept_ordered_frame (a <| as_ready := delete next (as_ready a) |>) frame in
      (a <| as_next_ready := Some (wrapping_add32 (ef_frame_id frame) 1) |>, Some frame)
  end.

Definition pop_ready (a : Assembler) : Assembler * option EncodedFrame :=
  match as_next_ready a with
  | None => (a, None)
  | Some expected =>
      match as_ready a !! expected with
      | Some _ => release a expected
      | None =>
          if map_size (as_ready a) <? Z.max (as_max_inflight a) 2 then (a, None) else
          match min_by_key (fun id => wrapping_sub32 id expected) (filter (fun id => negb (sequence_before id expected) = true) (keys (as_ready a))) with
          | None => (a, None)
          | Some next =>
              let gap := wrapping_sub32 next expected in
              let a := a <| as_gap_frames := saturating_add 65535 (as_gap_frames a) (if 65535 <? gap then 65535 else gap) |> in
              release (a <| as_next_ready := Some next |>) next
          end
      end
  end.

(** The history of completed frames, trimmed from the front. *)
Definition remember (a : Assembler) (id : Z) : Assembler :=
  let completed := as_completed a ++ [id] in
  a <| as_completed := drop (length completed - Z.to_nat (saturating_mul (as_max_inflight a) 16)) completed |>.

(** The completion of a frame: reorder queue, late frames, release. *)
Definition complete (a : Assembler) (id : Z) (encoded : EncodedFrame) (dropped : list Z) : Assembler * PushOutcome :=
  let a := remember a id in
  let outcome := outcome_new Completed <| po_completed := Some id |> in
  if match as_next_ready a with Some next => sequence_before id next | None => false end then
    (a, outcome <| po_dropped := dropped ++ [id] |>)
  else
    let a := a <| as_next_ready := Some (default id (as_next_ready a)) |> in
    let a := match as_ready a !! id with Some _ => a | None => a <| as_ready := <[id := encoded]> (as_ready a) |> end in
    let '(a, dropped) := evict_ready_if_needed (size (as_ready a)) a dropped in
    let '(a, ready) := pop_ready a in
    (a, outcome <| po_ready := ready |> <| po_dropped := dropped |>).

(** The payload of a frame whose parts are all there. *)
Fixpoint gather_parts (parts : list (option (list Z))) : option (list Z) :=
  match parts with
  | [] => Some []
  | None :: _ => None
  | Some p :: parts => app p <$> gather_parts parts
  end.

Definition is_none {A} (o : option A) : bool := match o with None => true | Some _ => false end.

Definition push (a : Assembler) (f : Fragment) : Assembler * fallible MError PushOutcome :=
  let id := fg_frame_id f in
  let count := fg_count f in
  if (count =? 0) || (count <=? fg_index f) then (a, Bad FragmentIndexOutOfRange) else
  if MAX_FRAGMENTS_PER_FRAME <? count then (a, Bad TooLarge) else
  if bool_decide (id ∈ as_completed a) then (a, Good (outcome_new Duplicate)) else
  let '(a, dropped) :=
    match as_frames a !! id with
    | Some _ => (a, [])
    | None =>
        let '(a, dropped) := evict_if_needed (size (as_frames a)) a [] in
        let a := a <| as_order := (as_order a + 1) mod 2 ^ 64 |> in
        (a <| as_frames := <[id := mkInProgress (fg_time f) (fg_keyframe f) (replicate (Z.to_nat count) None) 0 (as_order a)]> (as_frames a) |>, dropped)
    end in
  match as_frames a !! id with
  | None => (a, Bad TooManyInflight)
  | Some frame =>
      if negb (zlen (ip_parts frame) =? count) || negb (ip_time frame =? fg_time f) || negb (Bool.eqb (ip_keyframe frame) (fg_keyframe f)) then
        (a <| as_frames := delete id (as_frames a) |>, Bad MetadataMismatch)
      else
        match ip_parts frame !! Z.to_nat (fg_index f) with
        | None => (a, Bad FragmentIndexOutOfRange)
        | Some (Some _) => (a, Good (outcome_new Duplicate <| po_dropped := dropped |>))
        | Some None =>
            let frame := frame <| ip_bytes := saturating_add U64_MAX (ip_bytes frame) (zlen (fg_payload f)) |> in
            if as_max_frame_bytes a <? ip_bytes frame then (a <| as_frames := delete id (as_frames a) |>, Bad TooLarge) else
            let frame := frame <| ip_parts := <[Z.to_nat (fg_index f) := Some (fg_payload f)]> (ip_parts frame) |> in
            if existsb is_none (ip_parts frame) then
              (a <| as_frames := <[id := frame]> (as_frames a) |>, Good (outcome_new AcceptedIncomplete <| po_dropped := dropped |>))
            else
              let a := a <| as_frames := delete id (as_frames a) |> in
              match gather_parts (ip_parts frame) with
              | None => (a, Bad BadLength)
              | Some payload =>
                  let '(a, outcome) := complete a id (mkEncodedFrame id (ip_time frame) (ip_keyframe frame) payload) dropped in (a, Good outcome)
              end
        end
  end.

Definition assembler_clear (a : Assembler) : Assembler :=
  a <| as_frames := ∅ |> <| as_completed := [] |> <| as_ready := ∅ |> <| as_next_ready := None |> <| as_last_frame_id := None |>
    <| as_keyframe_request := false |> <| as_gap_frames := 0 |>.

Definition take_keyframe_request (a : Assembler) : Assembler * bool := (a <| as_keyframe_request := false |>, as_keyframe_request a).
Definition take_frame_gap (a : Assembler) : Assembler * Z := (a <| as_gap_frames := 0 |>, as_gap_frames a).
Definition inflight (a : Assembler) : Z := map_size (as_frames a).
Definition assembler_default : Assembler := assembler_new (8 * 1024 * 1024) 8.

Definition demo_fragments : list Fragment := fragments 7 0 true (replicate 3000 1) (fragment_count (replicate 3000 1)).

Example reassembles :
  let '(a1, _) := push assembler_default (nth 2 demo_fragments (mkFragment 0 0 0 0 false [])) in
  let '(a2, _) := push a1 (nth 0 demo_fragments (mkFragment 0 0 0 0 false [])) in
  po_ready <$> (push a2 (nth 1 demo_fragments (mkFragment 0 0 0 0 false []))).2 = Good (Some (mkEncodedFrame 7 0 true (replicate 3000 1))).
Proof. vm_compute. reflexivity. Qed.

(** ** Parts *)

Fixpoint parts_bytes (parts : list (option (list Z))) : Z :=
  match parts with
  | [] => 0
  | p :: parts => match p with Some l => zlen l | None => 0 end + parts_bytes parts
  end.

Lemma parts_bytes_nonneg parts : 0 <= parts_bytes parts.
Proof. induction parts as [|[l|] parts IH]; cbn [parts_bytes]; [lia| |lia]. pose proof (zlen_nonneg l). lia. Qed.

Lemma parts_bytes_empty n : parts_bytes (replicate n None) = 0.
Proof. induction n as [|n IH]; [done|]. cbn [replicate parts_bytes]. lia. Qed.

Lemma parts_bytes_insert parts i l : parts !! i = Some None -> parts_bytes (<[i := Some l]> parts) = parts_bytes parts + zlen l.
Proof.
  revert i. induction parts as [|p parts IH]; intros [|i]; [done|done| |].
  - intros [= ->]. cbn. lia.
  - intros Hi. change (<[S i := Some l]> (p :: parts)) with (p :: <[i := Some l]> parts). cbn [parts_bytes]. rewrite (IH i Hi). lia.
Qed.

Lemma existsb_is_none parts : existsb is_none parts = true <-> exists i, parts !! i = Some (@None (list Z)).
Proof.
  rewrite existsb_exists. split.
  - intros ([p|] & Hin & H); [done|]. apply list_elem_of_In, list_elem_of_lookup in Hin. done.
  - intros [i Hi]. exists None. split; [|done]. apply list_elem_of_In. by eapply list_elem_of_lookup_2.
Qed.

(** All parts there: the payload is their concatenation. *)
Lemma all_parts parts : existsb is_none parts = false -> exists ls, parts = Some <$> ls /\ gather_parts parts = Some (concat ls).
Proof.
  induction parts as [|[l|] parts IH]; cbn; [by exists []| |done]. intros (ls & -> & Hg)%IH. exists (l :: ls). split; [done|]. by rewrite Hg.
Qed.

(** ** What is pushed and what comes out *)

(** A frame put together from fragments of [pushed], one per part. *)
Definition Built (pushed : list Fragment) (f : EncodedFrame) : Prop :=
  exists parts, parts <> [] /\ ef_payload f = concat parts /\
    forall i p, parts !! i = Some p -> mkFragment (ef_frame_id f) (Z.of_nat i) (zlen parts) (ef_time f) (ef_keyframe f) p ∈ pushed.

Lemma Built_more pushed f k : Built pushed f -> Built (pushed ++ k) f.
Proof. intros (parts & H1 & H2 & H3). exists parts. split; [done|]. split; [done|]. intros i p Hp. apply elem_of_app. left. by apply H3. Qed.

(** A frame being put together. *)
Record Holds (limit : Z) (pushed : list Fragment) (id : Z) (p : InProgress) : Prop := mkHolds {
  ho_id : is_u32 id;
  ho_count : 0 < zlen (ip_parts p) <= MAX_FRAGMENTS_PER_FRAME;
  ho_parts : forall i l, ip_parts p !! i = Some (Some l) -> mkFragment id (Z.of_nat i) (zlen (ip_parts p)) (ip_time p) (ip_keyframe p) l ∈ pushed;
  ho_bytes : ip_bytes p = Z.min U64_MAX (parts_bytes (ip_parts p)) /\ (ip_bytes p <= limit \/ ip_bytes p = 0);
}.

Lemma Holds_more limit pushed id p k : Holds limit pushed id p -> Holds limit (pushed ++ k) id p.
Proof. intros [H1 H2 H3 H4]. split; try done. intros i l Hl. apply elem_of_app. left. by apply H3. Qed.

Record Ready (a : Assembler) (pushed : list Fragment) (id : Z) (f : EncodedFrame) : Prop := mkReady {
  rd_id : ef_frame_id f = id /\ is_u32 id;
  rd_built : Built pushed f;
  rd_ahead : exists next, as_next_ready a = Some next /\ ahead next id <= 0x80000000;
}.

(** Released frames go forward: each is at or ahead of the one after its
    predecessor. *)
Definition forward (ids : list Z) : Prop := forall i x y, ids !! i = Some x -> ids !! S i = Some y -> ahead (wrapping_add32 x 1) y <= 0x80000000.

Record AsmRun := mkAsmRun { ar_asm : Assembler; ar_pushed : list Fragment; ar_released : list EncodedFrame }.

(** [slack] is 1 between the completion of a frame and the pop that follows. *)
Record AsmInv (slack : Z) (r : AsmRun) : Prop := mkAsmInv {
  av_inflight : 1 <= as_max_inflight (ar_asm r) <= U64_MAX;
  av_frames : map_size (as_frames (ar_asm r)) <= as_max_inflight (ar_asm r);
  av_holds : forall id p, as_frames (ar_asm r) !! id = Some p -> Holds (as_max_frame_bytes (ar_asm r)) (ar_pushed r) id p;
  av_ready : forall id f, as_ready (ar_asm r) !! id = Some f -> Ready (ar_asm r) (ar_pushed r) id f;
  av_queue : map_size (as_ready (ar_asm r)) < Z.max (as_max_inflight (ar_asm r)) 2 + slack;
  av_next : forall n, as_next_ready (ar_asm r) = Some n -> is_u32 n;
  av_history : zlen (as_completed (ar_asm r)) <= saturating_mul (as_max_inflight (ar_asm r)) 16;
  av_built : Forall (Built (ar_pushed r)) (ar_released r);
  av_forward : forward (ef_frame_id <$> ar_released r);
  av_last : forall f, list.last (ar_released r) = Some f -> as_next_ready (ar_asm r) = Some (wrapping_add32 (ef_frame_id f) 1);
}.

Lemma forward_snoc ids x : forward ids -> (forall y, list.last ids = Some y -> ahead (wrapping_add32 y 1) x <= 0x80000000) -> forward (ids ++ [x]).
Proof.
  intros Hf Hl i a b Ha Hb. apply lookup_app_Some in Hb as [Hb|[Hi Hb]].
  - apply (Hf i); [|done]. rewrite lookup_app_l in Ha; [done|]. apply lookup_lt_Some in Hb. lia.
  - apply list_lookup_singleton_Some in Hb as [Hi' <-]. apply Hl. rewrite last_lookup. replace (Init.Nat.pred (length ids)) with i by lia.
    rewrite lookup_app_l in Ha; [done|]. lia.
Qed.

Lemma last_fmap_id (l : list EncodedFrame) y : list.last (ef_frame_id <$> l) = Some y -> exists f, list.last l = Some f /\ ef_frame_id f = y.
Proof. rewrite fmap_last. destruct (list.last l) as [f|]; [|done]. intros [= <-]. by exists f. Qed.

Lemma ahead_sub e n k : ahead e n <= ahead e k -> ahead n k = ahead e k - ahead e n.
Proof. unfold ahead, wrapping_sub32, wrap32, M32. intros. Z.to_euclidean_division_equations. lia. Qed.

(** ** Evicting *)

Lemma evict_spec fuel a dropped : 1 <= as_max_inflight a -> map_size (as_frames a) <= Z.of_nat fuel ->
  exists m d, evict_if_needed fuel a dropped = (a <| as_frames := m |>, d) /\ m ⊆ as_frames a /\ map_size m < as_max_inflight a.
Proof.
  revert a dropped. induction fuel as [|fuel IH]; intros a dropped Hm Hs; cbn [evict_if_needed].
  - exists (as_frames a), dropped. split; [by destruct a|]. split; [done|lia].
  - destruct (map_size (as_frames a) <? as_max_inflight a) eqn:E; bool_prop; [exists (as_frames a), dropped; split; [by destruct a|done]|].
    pose proof (min_by_key_spec (fun id => match as_frames a !! id with Some frame => ip_order frame | None => 0 end) (keys (as_frames a))) as Hk.
    destruct (min_by_key _ _) as [k|]; [|apply keys_nil in Hk; rewrite Hk in E; unfold map_size in E; rewrite map_size_empty in E; lia].
    destruct Hk as [Hk%elem_of_keys _]. destruct (IH (a <| as_frames := delete k (as_frames a) |>) (dropped ++ [k])) as (m & d & -> & Hsub & Hlt); [done|cbn; rewrite map_size_delete_some by done; lia|].
    cbn in Hsub, Hlt. exists m, d. split; [done|]. split; [|done]. etransitivity; [exact Hsub|apply delete_subseteq].
Qed.

Lemma evict_ready_none fuel a dropped : map_size (as_ready a) <= Z.max (as_max_inflight a) 2 -> as_max_inflight a <= U64_MAX -> evict_ready_if_needed fuel a dropped = (a, dropped).
Proof.
  intros Hs Hm. destruct fuel; [done|]. cbn [evict_ready_if_needed]. rewrite (proj2 (Z.leb_le _ _)); [done|]. unfold saturating_mul. lia.
Qed.

(** ** Releasing *)

(** Accepting a frame only touches the decoder bookkeeping. *)
Lemma accept_fields a f : let a' := accept_ordered_frame a f in
  as_max_frame_bytes a' = as_max_frame_bytes a /\ as_max_inflight a' = as_max_inflight a /\ as_frames a' = as_frames a /\
  as_completed a' = as_completed a /\ as_ready a' = as_ready a /\ as_next_ready a' = as_next_ready a.
Proof. unfold accept_ordered_frame. cbv zeta. destruct (_ && _), (ef_keyframe f); try done; by destruct (match as_last_frame_id _ with None => _ | Some _ => _ end). Qed.

Lemma release_fields a next f : as_ready a !! next = Some f -> exists a', release a next = (a', Some f) /\
  as_max_frame_bytes a' = as_max_frame_bytes a /\ as_max_inflight a' = as_max_inflight a /\ as_frames a' = as_frames a /\
  as_completed a' = as_completed a /\ as_ready a' = delete next (as_ready a) /\ as_next_ready a' = Some (wrapping_add32 (ef_frame_id f) 1).
Proof.
  intros Hf. unfold release. rewrite Hf. pose proof (accept_fields (a <| as_ready := delete next (as_ready a) |>) f) as (F1 & F2 & F3 & F4 & F5 & F6).
  set (b := accept_ordered_frame _ f) in *. clearbody b. exists (b <| as_next_ready := Some (wrapping_add32 (ef_frame_id f) 1) |>). split; [done|]. cbn. by rewrite F1, F2, F3, F4, F5.
Qed.

(** Releasing the frame at [next], the least ahead of those waiting. *)
Lemma release_inv slack a pushed released expected next f :
  AsmInv slack (mkAsmRun a pushed released) -> slack <= 1 -> as_next_ready a = Some expected -> as_ready a !! next = Some f ->
  (forall k, is_Some (as_ready a !! k) -> ahead expected next <= ahead expected k) ->
  forall a0, as_ready a0 = as_ready a -> as_frames a0 = as_frames a -> as_completed a0 = as_completed a -> as_max_inflight a0 = as_max_inflight a -> as_max_frame_bytes a0 = as_max_frame_bytes a ->
  exists a', release a0 next = (a', Some f) /\ AsmInv 0 (mkAsmRun a' pushed (released ++ [f])).
Proof.
  intros HI Hsl He Hf Hmin a0 G1 G2 G3 G4 G5. rewrite <- G1 in Hf. destruct (release_fields a0 next f Hf) as (a' & Hr & F1 & F2 & F3 & F4 & F5 & F6). rewrite G1, G2, G3, G4, G5 in *.
  exists a'. split; [done|]. destruct HI as [Hm Hfr Hho Hre Hqu Hnx Hhi Hbu Hfw Hla]. cbn [ar_asm ar_pushed ar_released] in *.
  destruct (Hre next f Hf) as [[Hid Hnu] Hbf (n & Hn & Ha)]. rewrite He in Hn. injection Hn as <-. pose proof (Hnx _ He) as Heu.
  split; cbn [ar_asm ar_pushed ar_released]; rewrite ?F1, ?F2, ?F3, ?F4, ?F5, ?F6; try done.
  - intros k g [Hk Hg]%lookup_delete_Some. destruct (Hre k g Hg) as [[Hgid Hku] Hgb (n & Hn & Hga)]. rewrite He in Hn. injection Hn as <-. split; [done|done|].
    eexists. split; [exact F6|]. rewrite Hid, ahead_succ by done. rewrite (ahead_sub expected) by (apply Hmin; by exists g). pose proof (ahead_range expected next). lia.
  - rewrite map_size_delete_some by (by exists f). lia.
  - intros n [= <-]. apply wrapping_add32_u32.
  - apply Forall_app. split; [done|]. by constructor.
  - rewrite fmap_app. apply forward_snoc; [done|]. intros y Hy. apply last_fmap_id in Hy as (g & Hg & <-). apply Hla in Hg. rewrite He in Hg. injection Hg as <-. by rewrite Hid.
  - intros g Hg. rewrite last_snoc in Hg. by injection Hg as <-.
Qed.

Lemma pop_ready_inv slack a pushed released : AsmInv slack (mkAsmRun a pushed released) -> slack <= 1 ->
  let '(a', o) := pop_ready a in AsmInv 0 (mkAsmRun a' pushed (released ++ option_list o)) /\
    (o = None -> a' = a /\ forall e, as_next_ready a = Some e -> as_ready a !! e = None /\ map_size (as_ready a) < Z.max (as_max_inflight a) 2).
Proof.
  intros HI Hsl. pose proof HI as [Hm Hfr Hho Hre Hqu Hnx Hhi Hbu Hfw Hla]. cbn [ar_asm ar_pushed ar_released] in *. unfold pop_ready.
  destruct (as_next_ready a) as [e|] eqn:He.
  - destruct (as_ready a !! e) as [f|] eqn:Hf.
    + destruct (release_inv slack a pushed released e e f HI Hsl He Hf) with (a0 := a) as (a' & -> & HI'); try done. intros k _. rewrite ahead_self. apply ahead_range.
    + destruct (map_size (as_ready a) <? Z.max (as_max_inflight a) 2) eqn:E; bool_prop.
      * cbn [option_list]. rewrite app_nil_r. split; [|intros _; split; [done|]; by intros e' [= <-]]. split; cbn [ar_asm ar_pushed ar_released]; try done; rewrite ?He; try done. lia.
      * pose proof (min_by_key_spec (fun id => wrapping_sub32 id e) (filter (fun id => negb (sequence_before id e) = true) (keys (as_ready a)))) as Hk.
        assert (Hall : forall k, is_Some (as_ready a !! k) -> k ∈ filter (fun id => negb (sequence_before id e) = true) (keys (as_ready a))).
        { intros k [g Hg]. apply list_elem_of_filter. split; [|apply elem_of_keys; by exists g]. destruct (Hre k g Hg) as [[_ Hku] _ (n & Hn & Ha)]. rewrite He in Hn. injection Hn as <-.
          rewrite before_ahead by (done || by apply Hnx). rewrite (proj2 (Z.ltb_ge _ _)); done. }
        destruct (min_by_key _ _) as [next|].
        -- destruct Hk as [[_ [f Hf']%elem_of_keys]%list_elem_of_filter Hmin].
           destruct (release_inv slack a pushed released e next f HI Hsl He Hf') with (a0 := a <| as_gap_frames := saturating_add 65535 (as_gap_frames a) (if 65535 <? wrapping_sub32 next e then 65535 else wrapping_sub32 next e) |> <| as_next_ready := Some next |>) as (a' & -> & HI'); try done.
           intros k Hk'. by apply Hmin, Hall.
        -- exfalso. destruct (decide (as_ready a = ∅)) as [Hem|Hne]; [rewrite Hem in E; unfold map_size in E; rewrite map_size_empty in E; lia|].
           apply map_choose in Hne as (k & g & Hg). assert (Hin : k ∈ @nil Z) by (rewrite <- Hk; apply Hall; by exists g). by apply elem_of_nil in Hin.
  - cbn [option_list]. rewrite app_nil_r. split; [|by intros _]. split; cbn [ar_asm ar_pushed ar_released]; rewrite ?He; try done.
    destruct (decide (as_ready a = ∅)) as [Hem|Hne]; [rewrite Hem; unfold map_size; rewrite map_size_empty; lia|].
    apply map_choose in Hne as (k & g & Hg). destruct (Hre k g Hg) as [_ _ (n & Hn & _)]. by rewrite He in Hn.
Qed.

(** ** Pushing *)

Lemma AsmInv_frames slack a pushed released m : AsmInv slack (mkAsmRun a pushed released) -> map_size m <= as_max_inflight a ->
  (forall id p, m !! id = Some p -> Holds (as_max_frame_bytes a) pushed id p) -> AsmInv slack (mkAsmRun (a <| as_frames := m |>) pushed released).
Proof. intros [H1 _ _ H4 H5 H6 H7 H8 H9 H10] Hs Hm. cbn [ar_asm ar_pushed ar_released] in *. split; cbn [ar_asm ar_pushed ar_released]; try done. intros id f Hf. by destruct (H4 id f Hf). Qed.

Lemma AsmInv_delete slack a pushed released id : AsmInv slack (mkAsmRun a pushed released) -> AsmInv slack (mkAsmRun (a <| as_frames := delete id (as_frames a) |>) pushed released).
Proof.
  intros HI. apply AsmInv_frames; [done| |].
  - pose proof (map_size_delete_le (as_frames a) id). pose proof (av_frames _ _ HI). cbn [ar_asm] in *. lia.
  - intros k p [_ Hp]%lookup_delete_Some. by apply (av_holds _ _ HI).
Qed.

Lemma AsmInv_more slack a pushed released k : AsmInv slack (mkAsmRun a pushed released) -> AsmInv slack (mkAsmRun a (pushed ++ k) released).
Proof.
  intros [H1 H2 H3 H4 H5 H6 H7 H8 H9 H10]. cbn [ar_asm ar_pushed ar_released] in *. split; cbn [ar_asm ar_pushed ar_released]; try done.
  - intros id p Hp. by apply Holds_more, H3.
  - intros id f Hf. destruct (H4 id f Hf) as [? ? ?]. split; [done|by apply Built_more|done].
  - eapply Forall_impl; [|exact H8]. intros f. apply Built_more.
Qed.

Lemma remember_inv slack a pushed released id : AsmInv slack (mkAsmRun a pushed released) -> AsmInv slack (mkAsmRun (remember a id) pushed released).
Proof.
  intros [H1 H2 H3 H4 H5 H6 H7 H8 H9 H10]. cbn [ar_asm ar_pushed ar_released] in *. split; cbn [ar_asm ar_pushed ar_released]; try done.
  - intros k f Hf. by destruct (H4 k f Hf).
  - cbn [as_completed remember as_max_inflight set_field]. rewrite zlen_drop. unfold saturating_mul in *. unfold zlen in *. lia.
Qed.

Lemma completion_inv a pushed released id f dropped : AsmInv 0 (mkAsmRun a pushed released) -> Built pushed f -> ef_frame_id f = id -> is_u32 id ->
  let '(a', o) := complete a id f dropped in AsmInv 0 (mkAsmRun a' pushed (released ++ option_list (po_ready o))) /\ po_completed o = Some id /\ po_fragment o = Completed.
Proof.
  intros HI Hb Hid Hu. apply (remember_inv 0 a pushed released id) in HI. unfold complete. set (a1 := remember a id) in *. clearbody a1.
  destruct (match as_next_ready a1 with Some next => sequence_before id next | None => false end) eqn:Elate.
  { cbn. by rewrite app_nil_r. }
  set (n := default id (as_next_ready a1)). set (a2 := a1 <| as_next_ready := Some n |>).
  assert (Hn : is_u32 n /\ ahead n id <= 0x80000000).
  { unfold n. pose proof (av_next _ _ HI) as Hnx. cbn [ar_asm] in Hnx. destruct (as_next_ready a1) as [n'|]; cbn; [|split; [done|by rewrite ahead_self]].
    specialize (Hnx n' eq_refl). split; [done|]. rewrite before_ahead in Elate by done. by bool_prop. }
  assert (HI2 : AsmInv 0 (mkAsmRun a2 pushed released)).
  { destruct HI as [H1 H2 H3 H4 H5 H6 H7 H8 H9 H10]. cbn [ar_asm ar_pushed ar_released] in *. split; cbn [ar_asm ar_pushed ar_released a2]; try done.
    - intros k g Hg. destruct (H4 k g Hg) as [? ? (n' & Hn' & ?)]. split; [done|done|]. exists n'. split; [|done]. cbn. unfold n. by rewrite Hn'.
    - cbn. intros n' [= <-]. by destruct Hn.
    - cbn. intros g Hg. unfold n. by rewrite (H10 g Hg). }
  set (a3 := match as_ready a2 !! id with Some _ => a2 | None => a2 <| as_ready := <[id := f]> (as_ready a2) |> end).
  assert (HI3 : AsmInv 1 (mkAsmRun a3 pushed released)).
  { unfold a3. destruct HI2 as [H1 H2 H3 H4 H5 H6 H7 H8 H9 H10]. cbn [ar_asm ar_pushed ar_released] in *. destruct (as_ready a2 !! id) eqn:Er; (split; cbn [ar_asm ar_pushed ar_released]; try done).
    - lia.
    - intros k g Hg. cbn in Hg. apply lookup_insert_Some in Hg as [[<- <-]|[_ Hg]]; [|by destruct (H4 k g Hg)]. split; [done|done|]. exists n. by destruct Hn.
    - cbn [as_ready as_max_inflight set_field eta eta_Assembler]. rewrite map_size_insert_fresh by done. cbn in H5 |- *. lia. }
  clearbody a3. rewrite evict_ready_none.
  - pose proof (pop_ready_inv 1 a3 pushed released HI3 ltac:(done)) as Hp. destruct (pop_ready a3) as [a4 o]. by destruct Hp as [Hp _].
  - pose proof (av_queue _ _ HI3) as Hq. cbn [ar_asm] in Hq. lia.
  - pose proof (av_inflight _ _ HI3) as Hq. cbn [ar_asm] in Hq. lia.
Qed.

(** A fragment as [Fragment::decode] returns it. *)
Definition fragment_small (f : Fragment) : Prop := is_u32 (fg_frame_id f) /\ 0 <= fg_index f.

Lemma push_inv a pushed released f : AsmInv 0 (mkAsmRun a pushed released) -> fragment_small f ->
  let '(a', r) := push a f in
  AsmInv 0 (mkAsmRun a' (pushed ++ [f]) (released ++ match r with Good o => option_list (po_ready o) | Bad _ => [] end)).
Proof.
  intros HI [Hu Hix]. unfold push. apply (AsmInv_more _ _ _ _ [f]) in HI. assert (Hin : f ∈ pushed ++ [f]) by (apply elem_of_app; right; by left). set (all := pushed ++ [f]) in *. clearbody all.
  destruct (_ || _) eqn:E1; [by rewrite app_nil_r|]. destruct (MAX_FRAGMENTS_PER_FRAME <? fg_count f) eqn:E2; [by rewrite app_nil_r|].
  destruct (bool_decide _); [by rewrite app_nil_r|]. apply orb_false_iff in E1 as [E0 E1]. bool_prop.
  set (begun := match as_frames a !! fg_frame_id f with Some _ => _ | None => _ end).
  assert (Hb : exists a1 d p, begun = (a1, d) /\ AsmInv 0 (mkAsmRun a1 all released) /\ as_frames a1 !! fg_frame_id f = Some p).
  { unfold begun. destruct (as_frames a !! fg_frame_id f) as [p|] eqn:Ef; [by exists a, [], p|].
    destruct (evict_spec (size (as_frames a)) a []) as (m & d & -> & Hsub & Hlt); [by apply (av_inflight _ _ HI)|unfold map_size; lia|].
    eexists _, d, _. split; [done|]. cbn [as_frames set_field eta eta_Assembler]. split; [|apply lookup_insert_eq].
    set (p := mkInProgress _ _ _ _ _). assert (HI' : AsmInv 0 (mkAsmRun (a <| as_order := (as_order a + 1) mod 2 ^ 64 |>) all released)).
    { destruct HI as [H1 H2 H3 H4 H5 H6 H7 H8 H9 H10]. split; try done. intros k g Hg. by destruct (H4 k g Hg). }
    assert (Hmn : m !! fg_frame_id f = None) by (by eapply lookup_weaken_None).
    apply (AsmInv_frames 0 (a <| as_order := (as_order a + 1) mod 2 ^ 64 |>) all released (<[fg_frame_id f := p]> m) HI'); [rewrite map_size_insert_fresh by done; cbn; lia|].
    intros k q [[<- <-]|[_ Hq]]%lookup_insert_Some.
    - split; cbn; [done|rewrite zlen_replicate; lia| |rewrite parts_bytes_empty; split; [done|by right]].
      intros i l Hl. apply lookup_replicate in Hl as [Hl _]. done.
    - apply (av_holds _ _ HI). by eapply lookup_weaken. }
  destruct Hb as (a1 & d & p & -> & HI1 & Hp). rewrite Hp. pose proof (av_holds _ _ HI1 _ _ Hp) as [_ Hcnt Hparts [Hby Hlim]]. cbn [ar_asm ar_pushed] in *.
  destruct (_ || _) eqn:E3; [rewrite app_nil_r; by apply AsmInv_delete|]. apply orb_false_iff in E3 as [[E3 E4]%orb_false_iff E5]. bool_prop. apply eqb_prop in E5.
  destruct (ip_parts p !! Z.to_nat (fg_index f)) as [[l|]|] eqn:Ei; [by rewrite app_nil_r| |by rewrite app_nil_r].
  set (p1 := p <| ip_bytes := _ |>). destruct (as_max_frame_bytes a1 <? ip_bytes p1) eqn:E6; [rewrite app_nil_r; by apply AsmInv_delete|]. bool_prop.
  set (p2 := p1 <| ip_parts := _ |>). assert (Hlen : zlen (ip_parts p2) = zlen (ip_parts p)) by (cbn; unfold zlen; by rewrite length_insert).
  assert (Hp2 : forall i l, ip_parts p2 !! i = Some (Some l) -> mkFragment (fg_frame_id f) (Z.of_nat i) (zlen (ip_parts p2)) (ip_time p) (ip_keyframe p) l ∈ all).
  { intros i l Hl. rewrite Hlen. cbn in Hl. apply list_lookup_insert_Some in Hl as [(<- & [= <-] & _)|[_ Hl]]; [|by apply Hparts].
    rewrite Z2Nat.id, E3, E4, E5 by done. by destruct f. }
  destruct (existsb is_none (ip_parts p2)) eqn:E7.
  - cbn [po_ready outcome_new set_field option_list eta eta_PushOutcome]. rewrite app_nil_r. apply AsmInv_frames; [done| |].
    + unfold map_size. rewrite map_size_insert_Some by (by eexists). apply (av_frames _ _ HI1).
    + intros k q [[<- <-]|[_ Hq]]%lookup_insert_Some; [|by apply (av_holds _ _ HI1)]. split; [done|by rewrite Hlen|done|].
      cbn [ip_bytes ip_parts p2 p1 set_field eta eta_InProgress]. rewrite parts_bytes_insert by done. cbn in E6. split; [|left; exact E6].
      unfold saturating_add. rewrite Hby. pose proof (parts_bytes_nonneg (ip_parts p)). pose proof (zlen_nonneg (fg_payload f)). lia.
  - destruct (all_parts _ E7) as (ls & Hls & ->). set (fr := mkEncodedFrame _ _ _ _). assert (Hfr : Built all fr).
    { exists ls. assert (Hl : zlen ls = zlen (ip_parts p2)) by (rewrite Hls; unfold zlen; by rewrite length_fmap). split; [intros ->; rewrite zlen_nil in Hl; lia|]. split; [done|].
      intros i q Hq. rewrite Hl. apply Hp2. rewrite Hls, list_lookup_fmap, Hq. done. }
    pose proof (completion_inv _ all released (fg_frame_id f) fr d (AsmInv_delete _ _ _ _ (fg_frame_id f) HI1) Hfr eq_refl Hu) as Hc.
    destruct (complete _ _ _ _) as [a2 o]. by destruct Hc as [Hc _].
Qed.

Inductive AsmOp := APush (f : Fragment) | APop | AClear | ATakeKeyframe | ATakeGap.

(** [ar_released] are the frames released since the last [clear]. *)
Definition asm_step (r : AsmRun) (op : AsmOp) : AsmRun :=
  let a := ar_asm r in
  match op with
  | APush f => let '(a, x) := push a f in mkAsmRun a (ar_pushed r ++ [f]) (ar_released r ++ match x with Good o => option_list (po_ready o) | Bad _ => [] end)
  | APop => let '(a, o) := pop_ready a in mkAsmRun a (ar_pushed r) (ar_released r ++ option_list o)
  | AClear => mkAsmRun (assembler_clear a) (ar_pushed r) []
  | ATakeKeyframe => mkAsmRun (take_keyframe_request a).1 (ar_pushed r) (ar_released r)
  | ATakeGap => mkAsmRun (take_frame_gap a).1 (ar_pushed r) (ar_released r)
  end.

Definition asm_run (max_frame_bytes max_inflight : Z) (ops : list AsmOp) : AsmRun :=
  fold_left asm_step ops (mkAsmRun (assembler_new max_frame_bytes max_inflight) [] []).

Definition asm_op_ok (op : AsmOp) : Prop := match op with APush f => fragment_small f | _ => True end.

Lemma asm_fresh mfb mi a pushed : 1 <= mi <= U64_MAX -> as_max_frame_bytes a = mfb -> as_max_inflight a = mi -> as_frames a = ∅ -> as_completed a = [] -> as_ready a = ∅ -> as_next_ready a = None ->
  AsmInv 0 (mkAsmRun a pushed []).
Proof.
  intros Hm E1 E2 E3 E4 E5 E6. split; cbn [ar_asm ar_pushed ar_released]; rewrite ?E1, ?E2, ?E3, ?E4, ?E5, ?E6; try done; unfold map_size, saturating_mul; rewrite ?map_size_empty, ?zlen_nil; try lia.
Qed.

Lemma asm_step_inv r op : AsmInv 0 r -> asm_op_ok op -> AsmInv 0 (asm_step r op).
Proof.
  intros HI Hop. destruct r as [a pushed released]. destruct op as [f| | | |]; cbn [asm_step ar_asm ar_pushed ar_released].
  - pose proof (push_inv a pushed released f HI Hop) as H. by destruct (push a f).
  - pose proof (pop_ready_inv 0 a pushed released HI ltac:(done)) as H. destruct (pop_ready a). by destruct H as [H _].
  - apply (asm_fresh (as_max_frame_bytes a) (as_max_inflight a)); try done. apply (av_inflight _ _ HI).
  - destruct HI as [H1 H2 H3 H4 H5 H6 H7 H8 H9 H10]. split; try done. intros id f Hf. by destruct (H4 id f Hf).
  - destruct HI as [H1 H2 H3 H4 H5 H6 H7 H8 H9 H10]. split; try done. intros id f Hf. by destruct (H4 id f Hf).
Qed.

Lemma asm_run_inv mfb mi ops : mi <= U64_MAX -> Forall asm_op_ok ops -> AsmInv 0 (asm_run mfb mi ops).
Proof.
  intros Hm Hops. unfold asm_run. assert (AsmInv 0 (mkAsmRun (assembler_new mfb mi) [] [])) as HI by (apply (asm_fresh mfb (Z.max mi 1)); try done; unfold U64_MAX in *; lia).
  revert HI. generalize (mkAsmRun (assembler_new mfb mi) [] []). induction Hops as [|op ops Hop _ IH]; intros r HI; [done|]. apply IH. by apply asm_step_inv.
Qed.

(** The configuration never changes. *)
Definition config (a : Assembler) : Z * Z := (as_max_inflight a, as_max_frame_bytes a).

Lemma evict_config n a d : config (evict_if_needed n a d).1 = config a.
Proof. revert a d. induction n as [|n IH]; intros a d; [done|]. cbn [evict_if_needed]. destruct (_ <? _); [done|]. destruct (min_by_key _ _); [|done]. by rewrite IH. Qed.

Lemma evict_ready_config n a d : config (evict_ready_if_needed n a d).1 = config a.
Proof.
  revert a d. induction n as [|n IH]; intros a d; [done|]. cbn [evict_ready_if_needed]. destruct (_ <=? _); [done|]. destruct (as_next_ready a); [|done]. destruct (max_by_key _ _); [|done]. by rewrite IH.
Qed.

Lemma release_config a n : config (release a n).1 = config a.
Proof.
  destruct (as_ready a !! n) as [g|] eqn:E; [|unfold release; by rewrite E]. destruct (release_fields a n g E) as (b & -> & H1 & H2 & _). unfold config. cbn [fst]. by rewrite H1, H2.
Qed.

Lemma pop_config a : config (pop_ready a).1 = config a.
Proof.
  unfold pop_ready. destruct (as_next_ready a) as [e|]; [|done]. destruct (as_ready a !! e); [apply release_config|]. destruct (_ <? _); [done|]. destruct (min_by_key _ _); [|done]. by rewrite release_config.
Qed.

Lemma complete_config a id f d : config (complete a id f d).1 = config a.
Proof.
  unfold complete. destruct (match as_next_ready _ with Some _ => _ | None => _ end); [done|]. set (b := match as_ready _ !! id with Some _ => _ | None => _ end).
  assert (config b = config a) as <- by (unfold b; by destruct (as_ready _ !! id)).
  rewrite <- (evict_ready_config (size (as_ready b)) b d). destruct (evict_ready_if_needed _ _ _) as [c d0]. cbn [fst]. rewrite <- (pop_config c). by destruct (pop_ready c).
Qed.

Lemma push_config a f : config (push a f).1 = config a.
Proof.
  unfold push. destruct (_ || _); [done|]. destruct (_ <? _); [done|]. destruct (bool_decide _); [done|]. set (begun := match as_frames a !! _ with Some _ => _ | None => _ end).
  assert (config begun.1 = config a) as <-.
  { unfold begun. destruct (as_frames a !! _); [done|]. rewrite <- (evict_config (size (as_frames a)) a []). by destruct (evict_if_needed _ _ _). }
  destruct begun as [b d]. destruct (as_frames b !! _) as [p|]; [|done]. destruct (_ || _); [done|]. destruct (ip_parts p !! _) as [[?|]|]; [done| |done].
  destruct (_ <? _); [done|]. destruct (existsb _ _); [done|]. destruct (gather_parts _) as [pl|]; [|done].
  match goal with |- context [complete ?x ?i ?e ?dd] => pose proof (complete_config x i e dd) as H; destruct (complete x i e dd) end. exact H.
Qed.

Lemma asm_run_config mfb mi ops : config (ar_asm (asm_run mfb mi ops)) = (Z.max mi 1, mfb).
Proof.
  unfold asm_run. assert (H : forall r, config (ar_asm (fold_left asm_step ops r)) = config (ar_asm r)); [|by rewrite H].
  induction ops as [|op ops IH]; intros r; [done|]. cbn [fold_left]. rewrite IH. destruct op as [f| | | |]; cbn [asm_step]; try done.
  - rewrite <- (push_config (ar_asm r) f). by destruct (push _ _).
  - rewrite <- (pop_config (ar_asm r)). by destruct (pop_ready _).
Qed.

(** Reassembly is sound, ordered and bounded. In every run, whatever
    fragments arrive (decoded, otherwise arbitrary), every frame released is put
    together from fragments that were pushed, one for each of its parts, agreeing
    on time, keyframe flag and count; since the last clear the released frames
    go forward in serial order, so none comes out twice. What is kept is bounded:
    frames in progress by the inflight limit, each by 8192 parts and by the byte
    limit, the history by sixteen times the limit, and the reorder queue stays
    below the limit because a pop releases a frame as soon as the queue fills: a
    pop is silent only while the next frame is absent and the queue is not full. *)
Theorem assembler_sound (mfb mi : Z) (ops : list AsmOp) :
  mi <= U64_MAX -> 0 <= mfb < U64_MAX -> Forall asm_op_ok ops ->
  let r := asm_run mfb mi ops in
  let a := ar_asm r in
  Forall (Built (ar_pushed r)) (ar_released r) /\
  forward (ef_frame_id <$> ar_released r) /\
  inflight a <= Z.max mi 1 /\
  (forall id p, as_frames a !! id = Some p -> 0 < zlen (ip_parts p) <= MAX_FRAGMENTS_PER_FRAME /\ parts_bytes (ip_parts p) <= mfb) /\
  map_size (as_ready a) < Z.max mi 2 /\
  zlen (as_completed a) <= saturating_mul (Z.max mi 1) 16 /\
  (forall a', pop_ready a = (a', None) -> a' = a /\ forall e, as_next_ready a = Some e -> as_ready a !! e = None /\ map_size (as_ready a) < Z.max mi 2).
Proof.
  intros Hmi Hmfb Hops r a. pose proof (asm_run_inv mfb mi ops Hmi Hops) as HI. pose proof (asm_run_config mfb mi ops) as Hc. fold r in HI, Hc. unfold config in Hc. injection Hc as Hc1 Hc2.
  pose proof HI as [H1 H2 H3 H4 H5 H6 H7 H8 H9 H10]. fold a in H1, H2, H3, H4, H5, H6, H7, H10, Hc1, Hc2. rewrite Hc1 in *. rewrite Hc2 in *. unfold inflight. split; [done|]. split; [done|]. split; [done|]. split.
  - intros id p Hp. destruct (H3 id p Hp) as [_ Hcnt _ [Hb Hl]]. split; [done|]. rewrite Hb in Hl. pose proof (parts_bytes_nonneg (ip_parts p)). lia.
  - split; [lia|]. split; [done|]. intros a' Hp. destruct r as [ra rp rr]. cbn in a. subst a. pose proof (pop_ready_inv 0 ra rp rr HI ltac:(done)) as H. cbn [ar_asm] in Hp. rewrite Hp in H. destruct H as [_ H].
    destruct (H eq_refl) as [-> He]. split; [done|]. intros e Hn. cbn [ar_asm] in *. destruct (He e Hn) as [? ?]. split; [done|]. lia.
Qed.

Lemma assembler_sound_witness :
  let ops := APush (mkFragment 9 0 1 5 true [4]) :: (APush <$> demo_fragments) in
  let r := asm_run 5000 2 ops in
  ef_frame_id <$> ar_released r = [9] /\ inflight (ar_asm r) <= 2.
Proof.
  intros ops r. destruct (assembler_sound 5000 2 ops) as (_ & _ & H & _); [done|done| |split; [by vm_compute|exact H]].
  apply Forall_forall. assert (forallb (fun op => match op with APush f => (0 <=? fg_frame_id f) && (fg_frame_id f <? M32) && (0 <=? fg_index f) | _ => true end) ops = true) as Ht by (by vm_compute).
  rewrite forallb_forall in Ht. intros op Hop. specialize (Ht op Hop). destruct op; [|done..]. cbn. unfold fragment_small, is_u32. bool_prop. lia.
Defined.

(** ** A stream of frames *)

(** Datagram payloads in, as the video task handles them. *)
Fixpoint receive_all (a : Assembler) (ds : list (list Z)) : Assembler * list (fallible MError PushOutcome) :=
  match ds with
  | [] => (a, [])
  | d :: ds =>
      let '(a, r) := match fragment_decode d with Bad e => (a, Bad e) | Good f => push a f end in
      let '(a, rs) := receive_all a ds in (a, r :: rs)
  end.

Fixpoint push_all (a : Assembler) (fs : list Fragment) : Assembler * list (fallible MError PushOutcome) :=
  match fs with
  | [] => (a, [])
  | f :: fs => let '(a, r) := push a f in let '(a, rs) := push_all a fs in (a, r :: rs)
  end.

Definition ready_of (r : fallible MError PushOutcome) : option EncodedFrame := match r with Good o => po_ready o | Bad _ => None end.

Lemma push_all_app a l k : push_all a (l ++ k) = let '(a1, r1) := push_all a l in let '(a2, r2) := push_all a1 k in (a2, r1 ++ r2).
Proof. revert a. induction l as [|f l IH]; intros a; cbn [push_all app]; [by destruct (push_all a k)|]. destruct (push a f) as [a1 r]. rewrite IH. destruct (push_all a1 l) as [a2 r1]. by destruct (push_all a2 k). Qed.

(** The items at the given positions, those that exist. *)
Definition pick {A} (l : list A) (picks : list nat) : list A := omap (fun i => l !! i) picks.

(** The parts of a frame of which the indices in [seen] have arrived. *)
Definition partial (fs : list Fragment) (seen : list nat) : list (option (list Z)) :=
  imap (fun i f => if bool_decide (i ∈ seen) then Some (fg_payload f) else None) fs.

Lemma partial_lookup fs seen i : partial fs seen !! i = (fun f => if bool_decide (i ∈ seen) then Some (fg_payload f) else None) <$> fs !! i.
Proof. apply list_lookup_imap. Qed.

Lemma partial_nil fs : partial fs [] = replicate (length fs) None.
Proof.
  apply list_eq. intros i. rewrite partial_lookup. destruct (fs !! i) eqn:E; cbn.
  - symmetry. apply lookup_replicate. split; [done|by apply lookup_lt_Some in E].
  - symmetry. apply lookup_replicate_None. by apply lookup_ge_None.
Qed.

Lemma partial_insert fs seen i f : fs !! i = Some f -> <[i := Some (fg_payload f)]> (partial fs seen) = partial fs (i :: seen).
Proof.
  intros Hf. apply list_eq. intros j. rewrite partial_lookup. destruct (decide (i = j)) as [<-|Hij].
  - rewrite list_lookup_insert_eq by (unfold partial; rewrite length_imap; by apply lookup_lt_Some in Hf). rewrite Hf. cbn. by rewrite bool_decide_true by set_solver.
  - rewrite list_lookup_insert_ne, partial_lookup by done. destruct (fs !! j); [|done]. cbn. by rewrite (bool_decide_ext (j ∈ seen) (j ∈ i :: seen)) by (rewrite elem_of_cons; split; [by right|intros [->|?]; done]).
Qed.

Lemma partial_bytes fs seen : parts_bytes (partial fs seen) <= zlen (concat (fg_payload <$> fs)).
Proof.
  assert (H : forall g : nat -> bool, parts_bytes (imap (fun i f => if g i then Some (fg_payload f) else None) fs) <= zlen (concat (fg_payload <$> fs))); [|apply (H (fun i => bool_decide (i ∈ seen)))].
  induction fs as [|f fs IH]; intros g; [done|]. cbn [imap fmap list_fmap concat parts_bytes]. rewrite zlen_app. specialize (IH (g ∘ S)). unfold compose in *.
  pose proof (zlen_nonneg (fg_payload f)). destruct (g 0%nat); lia.
Qed.

Lemma partial_all fs seen : existsb is_none (partial fs seen) = false -> gather_parts (partial fs seen) = Some (concat (fg_payload <$> fs)).
Proof.
  intros H. destruct (all_parts _ H) as (ls & Hls & ->). do 2 f_equal. apply list_eq. intros i. assert (Hi : (Some <$> ls) !! i = partial fs seen !! i) by by rewrite Hls.
  rewrite partial_lookup, list_lookup_fmap in Hi. rewrite list_lookup_fmap. destruct (fs !! i), (ls !! i); cbn in *; try done. case_bool_decide; [|done]. congruence.
Qed.

Lemma partial_missing fs seen : existsb is_none (partial fs seen) = true <-> exists i, (i < length fs)%nat /\ i ∉ seen.
Proof.
  rewrite existsb_is_none. split.
  - intros [i Hi]. rewrite partial_lookup in Hi. destruct (fs !! i) eqn:E; [|done]. exists i. split; [by apply lookup_lt_Some in E|]. cbn in Hi. by case_bool_decide.
  - intros (i & Hi & Hs). exists i. rewrite partial_lookup. apply lookup_lt_is_Some in Hi as [f ->]. cbn. by rewrite bool_decide_false.
Qed.

(** Completing the frame that is next releases it at once. *)
Lemma complete_next a id f d : as_ready a = ∅ -> as_next_ready a = None \/ as_next_ready a = Some id -> is_u32 id -> ef_frame_id f = id -> 1 <= as_max_inflight a <= U64_MAX ->
  exists a' o, complete a id f d = (a', o) /\ po_ready o = Some f /\ config a' = config a /\ as_frames a' = as_frames a /\ as_ready a' = ∅ /\
    as_next_ready a' = Some (wrapping_add32 id 1) /\ as_completed a' = as_completed (remember a id).
Proof.
  intros Hr Hn Hu Hid Hm. unfold complete. set (a1 := remember a id). change (as_next_ready a1) with (as_next_ready a). change (as_ready (a1 <| as_next_ready := _ |>)) with (as_ready a). rewrite Hr, lookup_empty.
  assert ((match as_next_ready a with Some next => sequence_before id next | None => false end) = false) as -> by (destruct Hn as [-> | ->]; [done|]; unfold sequence_before; by rewrite Z.eqb_refl).
  assert (default id (as_next_ready a) = id) as -> by (by destruct Hn as [-> | ->]).
  set (a3 := a1 <| as_next_ready := Some id |> <| as_ready := <[id := f]> ∅ |>). rewrite evict_ready_none.
  - unfold pop_ready. change (as_next_ready a3) with (Some id). cbv beta iota. assert (Hf : as_ready a3 !! id = Some f) by apply lookup_insert_eq. rewrite Hf.
    destruct (release_fields a3 id f Hf) as (a4 & -> & F1 & F2 & F3 & F4 & F5 & F6). eexists a4, _. split; [done|]. split; [done|].
    split; [unfold config; by rewrite F1, F2|]. split; [done|]. split; [rewrite F5; apply delete_insert_id, lookup_empty|]. split; [by rewrite F6, Hid|done].
  - change (map_size (<[id := f]> (∅ : gmap Z EncodedFrame)) <= Z.max (as_max_inflight a) 2). rewrite map_size_insert_fresh by apply lookup_empty. unfold map_size. rewrite map_size_empty. lia.
  - change (as_max_inflight a <= U64_MAX). lia.
Qed.

Lemma remember_elem a id c : 1 <= as_max_inflight a -> id ∈ as_completed (remember a id) /\ (c ∈ as_completed (remember a id) -> c ∈ as_completed a \/ c = id).
Proof.
  intros Hm. cbn [remember as_completed set_field eta eta_Assembler]. split.
  - set (n := (_ - _)%nat). assert (Hn : (n <= length (as_completed a))%nat) by (unfold n, saturating_mul, U64_MAX; rewrite length_app; cbn [length]; lia).
    rewrite drop_app_le by done. set_solver.
  - intros Hc. apply subseteq_drop in Hc. apply elem_of_app in Hc as [Hc|Hc]; [by left|right; by apply list_elem_of_singleton in Hc].
Qed.

Section frame.
Context (id t : Z) (k : bool) (payload : list Z) (mfb mi : Z).
Hypothesis Hinflight : 1 <= mi <= U64_MAX.
Hypothesis Hframe : frame_ok id t payload.
Hypothesis Hcount : fragment_count payload <= MAX_FRAGMENTS_PER_FRAME.
Hypothesis Hbytes : zlen payload <= mfb.

Let fs : list Fragment := fragments id t k payload (fragment_count payload).
Let frame : EncodedFrame := mkEncodedFrame id t k payload.

(** The assembler before the frame's first fragment. *)
Record Listening (a : Assembler) : Prop := mkListening {
  li_inflight : as_max_inflight a = mi;
  li_bytes : as_max_frame_bytes a = mfb;
  li_new : id ∉ as_completed a;
  li_ready : as_ready a = ∅;
  li_next : as_next_ready a = None \/ as_next_ready a = Some id;
}.

(** The fragments in [seen] have arrived, and no others. *)
Definition Going (a : Assembler) (seen : list nat) : Prop :=
  Listening a /\ exists p, as_frames a = {[id := p]} /\ ip_time p = t /\ ip_keyframe p = k /\ ip_parts p = partial fs seen /\ ip_bytes p = parts_bytes (partial fs seen).

(** The frame is out. *)
Record Over (done : list Z) (a : Assembler) : Prop := mkOver {
  ov_config : as_max_inflight a = mi /\ as_max_frame_bytes a = mfb;
  ov_frames : as_frames a = ∅;
  ov_ready : as_ready a = ∅;
  ov_next : as_next_ready a = Some (wrapping_add32 id 1);
  ov_completed : id ∈ as_completed a /\ forall c, c ∈ as_completed a -> c ∈ done \/ c = id;
}.

Lemma frame_len : zlen fs = fragment_count payload.
Proof. apply (fragments_spec id t k payload). Qed.

Lemma frame_field i f : fs !! i = Some f -> fg_frame_id f = id /\ fg_index f = Z.of_nat i /\ fg_count f = fragment_count payload /\ fg_time f = t /\ fg_keyframe f = k /\ (i < length fs)%nat.
Proof. intros Hf. destruct (fragments_spec id t k payload) as (_ & _ & H). destruct (H i f Hf) as (? & ? & ? & ? & ?). apply lookup_lt_Some in Hf. done. Qed.

(** The guards of [push] pass. *)
Lemma frame_guards i f : fs !! i = Some f -> (fg_count f =? 0) || (fg_count f <=? fg_index f) = false /\ (MAX_FRAGMENTS_PER_FRAME <? fg_count f) = false.
Proof.
  intros Hf. destruct (frame_field i f Hf) as (_ & -> & -> & _ & _ & Hi). pose proof frame_len as Hl. unfold zlen in Hl.
  destruct Hframe as (_ & _ & _ & Hp). pose proof (fragment_count_range payload Hp). split; [|apply Z.ltb_ge; done]. rewrite (proj2 (Z.eqb_neq _ _)), (proj2 (Z.leb_gt _ _)) by lia. done.
Qed.

Definition ready_none (r : fallible MError PushOutcome) : Prop := exists o, r = Good o /\ po_ready o = None.

(** The first fragment opens the frame; the rest of [push] is the same. *)
Lemma push_begin a i f : Listening a -> as_frames a = ∅ -> fs !! i = Some f -> exists a1, Going a1 [] /\ as_completed a1 = as_completed a /\ push a f = push a1 f.
Proof.
  intros HL Hem Hf. destruct (frame_field i f Hf) as (Hid & _ & Hc & Ht & Hk & _). set (p := mkInProgress t k (replicate (Z.to_nat (fg_count f)) None) 0 ((as_order a + 1) mod 2 ^ 64)).
  set (a1 := a <| as_order := (as_order a + 1) mod 2 ^ 64 |> <| as_frames := {[id := p]} |>). exists a1. split; [|split; [done|]].
  - split; [by destruct HL|]. exists p. split; [done|]. split; [done|]. split; [done|]. rewrite partial_nil, parts_bytes_empty. split; [|done]. cbn. f_equal. rewrite Hc, <- frame_len. unfold zlen. lia.
  - destruct (frame_guards i f Hf) as [G1 G2]. unfold push. rewrite G1, G2. change (as_completed a1) with (as_completed a). rewrite Hid, bool_decide_false by (by destruct HL).
    change (as_frames a1) with ({[id := p]} : gmap Z InProgress). rewrite Hem, lookup_empty, lookup_singleton_eq. 
    change (evict_if_needed (size (∅ : gmap Z InProgress)) a []) with (a, @nil Z). cbv beta iota zeta.
    match goal with |- (match as_frames ?b !! _ with _ => _ end) = _ => assert (b = a1) as -> by (unfold a1, p; cbn; by rewrite Hem, Ht, Hk) end.
    change (as_frames a1) with ({[id := p]} : gmap Z InProgress). by rewrite lookup_singleton_eq.
Qed.

Lemma push_going a seen i f : Going a seen -> existsb is_none (partial fs seen) = true -> fs !! i = Some f ->
  exists a' r, push a f = (a', r) /\
    ((i ∈ seen /\ a' = a /\ ready_none r) \/
     (existsb is_none (partial fs (i :: seen)) = true /\ Going a' (i :: seen) /\ as_completed a' = as_completed a /\ ready_none r) \/
     (existsb is_none (partial fs (i :: seen)) = false /\ Over (as_completed a) a' /\ exists o, r = Good o /\ po_ready o = Some frame)).
Proof.
  intros [HL (p & Hfr & Hpt & Hpk & Hpp & Hpb)] Hmiss Hf. destruct (frame_field i f Hf) as (Hid & Hix & Hc & Ht & Hk & Hlt). destruct (frame_guards i f Hf) as [G1 G2].
  destruct HL as [Hm0 Hmb Hnew Hrdy Hnext]. assert (Hm : 1 <= as_max_inflight a <= U64_MAX) by by rewrite Hm0. unfold push. rewrite G1, G2, Hid. rewrite bool_decide_false by done. rewrite Hfr, lookup_singleton_eq. cbv beta iota. rewrite Hfr, lookup_singleton_eq.
  assert (zlen (ip_parts p) = fg_count f) as -> by (rewrite Hpp, Hc, <- frame_len; unfold partial, zlen; by rewrite length_imap). rewrite Hpt, Hpk, Ht, Hk, !Z.eqb_refl, eqb_reflx. cbn [negb orb].
  rewrite Hix, Nat2Z.id, Hpp, partial_lookup, Hf. cbn [fmap option_fmap option_map]. destruct (decide (i ∈ seen)) as [Hin|Hin].
  { rewrite bool_decide_true by done. eexists _, _. split; [done|]. left. split; [done|]. split; [done|]. by eexists. }
  rewrite bool_decide_false by done. set (p1 := p <| ip_bytes := _ |>).
  assert (Hnew_bytes : ip_bytes p1 = parts_bytes (partial fs (i :: seen)) /\ ip_bytes p1 <= mfb).
  { cbn. assert (parts_bytes (partial fs (i :: seen)) = parts_bytes (partial fs seen) + zlen (fg_payload f)) as Hadd by (rewrite <- (partial_insert fs seen i f Hf); apply parts_bytes_insert; rewrite partial_lookup, Hf; cbn; by rewrite bool_decide_false).
    pose proof (partial_bytes fs (i :: seen)) as Hle. destruct (fragments_spec id t k payload) as (_ & Hcat & _). fold fs in Hcat. rewrite Hcat in Hle. destruct Hframe as (_ & _ & _ & Hp). rewrite Hpb.
    unfold saturating_add. change MAX_FRAGMENT_BYTES with 1148 in Hp. unfold U64_MAX. lia. }
  destruct Hnew_bytes as [Hb1 Hb2]. rewrite Hmb. rewrite (proj2 (Z.ltb_ge _ _)) by done. change (ip_parts p1) with (ip_parts p). rewrite Hpp, (partial_insert fs seen i f Hf).
  set (p2 := p1 <| ip_parts := _ |>). change (ip_parts p2) with (partial fs (i :: seen)). destruct (existsb is_none (partial fs (i :: seen))) eqn:Em.
  - eexists _, _. split; [done|]. right. left. split; [done|]. split; [|split; [done|by eexists]]. split; [done|]. exists p2. split; [apply insert_singleton_eq|]. done.
  - rewrite (partial_all fs _ Em). destruct (fragments_spec id t k payload) as (_ & Hcat & _). fold fs in Hcat. rewrite Hcat. change (ip_time p2) with (ip_time p). change (ip_keyframe p2) with (ip_keyframe p). rewrite Hpt, Hpk. fold frame.
    set (a2 := a <| as_frames := delete id _ |>). destruct (complete_next a2 id frame []) as (a' & o & -> & Ho & Hcf & F1 & F2 & F3 & F4); [done|done|by destruct Hframe|done|done|].
    eexists _, _. split; [done|]. right. right. split; [done|]. split; [|by eexists]. unfold config in Hcf. injection Hcf as Hc1 Hc2.
    split; [rewrite Hc1, Hc2; by split|rewrite F1; apply delete_singleton_eq|done|done|]. rewrite F4. split; [by apply (remember_elem a2 id 0 (proj1 Hm))|]. intros c. by apply (remember_elem a2 id c (proj1 Hm)).
Qed.

Lemma push_over done a i f : Over done a -> fs !! i = Some f -> push a f = (a, Good (outcome_new Duplicate)).
Proof.
  intros [_ _ _ _ [Hin _]] Hf. destruct (frame_field i f Hf) as (Hid & _). destruct (frame_guards i f Hf) as [G1 G2]. unfold push. rewrite G1, G2, Hid. by rewrite bool_decide_true.
Qed.


Lemma push_over_all done a l : Over done a -> Forall (fun f => f ∈ fs) l -> exists rs, push_all a l = (a, rs) /\ omap ready_of rs = [] /\ forallb is_good rs = true.
Proof.
  intros HO Hl. induction Hl as [|f l Hf _ (rs & IH & Hr & Hg)]; [by exists []|]. apply list_elem_of_lookup in Hf as [i Hf].
  cbn [push_all]. rewrite (push_over done a i f HO Hf), IH. eexists. split; [reflexivity|]. by split.
Qed.

(** Everything that remains to arrive does: the frame comes out once. *)
Lemma push_going_all picks a seen : Going a seen -> existsb is_none (partial fs seen) = true ->
  (forall i, (i < length fs)%nat -> i ∈ seen \/ i ∈ picks) ->
  exists a' rs, push_all a (pick fs picks) = (a', rs) /\ Over (as_completed a) a' /\ omap ready_of rs = [frame] /\ forallb is_good rs = true.
Proof.
  revert a seen. induction picks as [|i picks IH]; intros a seen HG Hm Hcov.
  { apply partial_missing in Hm as (i & Hi & Hs). destruct (Hcov i Hi) as [?|Hin]; [done|]. by apply not_elem_of_nil in Hin. }
  destruct (fs !! i) as [f|] eqn:Hf; unfold pick; cbn [omap list_omap]; rewrite Hf; fold (pick fs picks).
  - cbn [push_all]. destruct (push_going a seen i f HG Hm Hf) as (a1 & r & -> & [(Hin & -> & o & -> & Ho)|[(Hm' & HG' & Hc & o & -> & Ho)|(_ & HO & o & -> & Ho)]]).
    + destruct (IH a seen HG Hm) as (a2 & rs & -> & HO & Hr & Hg); [intros j Hj; destruct (Hcov j Hj) as [?|[->|?]%elem_of_cons]; auto|].
      eexists _, _. split; [done|]. split; [done|]. cbn. by rewrite Ho.
    + destruct (IH a1 (i :: seen) HG' Hm') as (a2 & rs & -> & HO & Hr & Hg); [intros j Hj; rewrite elem_of_cons; destruct (Hcov j Hj) as [?|[->|?]%elem_of_cons]; auto|].
      eexists _, _. split; [done|]. split; [by rewrite <- Hc|]. cbn. by rewrite Ho.
    + destruct (push_over_all (as_completed a) a1 (pick fs picks) HO) as (rs & -> & Hr & Hg).
      { apply list.Forall_forall. intros g (j & _ & Hj)%list_elem_of_omap. by eapply list_elem_of_lookup_2. }
      eexists _, _. split; [done|]. split; [done|]. cbn. by rewrite Ho, Hr.
  - apply IH with seen; [done..|]. intros j Hj. destruct (Hcov j Hj) as [?|[->|?]%elem_of_cons]; [by left| |by right].
    apply lookup_ge_None in Hf. lia.
Qed.

(** A frame's fragments in any order, some of them repeatedly. *)
Lemma frame_crosses picks a : Listening a -> as_frames a = ∅ -> (forall i, (i < length fs)%nat -> i ∈ picks) ->
  exists a' rs, push_all a (pick fs picks) = (a', rs) /\ Over (as_completed a) a' /\ omap ready_of rs = [frame] /\ forallb is_good rs = true.
Proof.
  intros HL He Hcov. pose proof frame_len as Hlen. destruct Hframe as (_ & _ & _ & Hp). pose proof (fragment_count_range payload Hp). unfold zlen in Hlen.
  assert (H0 : (0 < length fs)%nat) by lia. assert (Hm : existsb is_none (partial fs []) = true) by (apply partial_missing; exists 0%nat; split; [done|apply not_elem_of_nil]).
  destruct (pick fs picks) as [|f l] eqn:El.
  - apply lookup_lt_is_Some in H0 as [f Hf]. assert (f ∈ pick fs picks) as Hin by (apply list_elem_of_omap; exists 0%nat; split; [apply Hcov; by apply lookup_lt_Some in Hf|done]).
    rewrite El in Hin. by apply not_elem_of_nil in Hin.
  - assert (f ∈ pick fs picks) as Hin by (rewrite El; apply list_elem_of_here). apply list_elem_of_omap in Hin as (i & _ & Hf).
    destruct (push_begin a i f HL He Hf) as (a1 & HG & Hc & Hpush).
    destruct (push_going_all picks a1 [] HG Hm) as (a2 & rs & H1 & H2 & H3 & H4); [intros j Hj; right; by apply Hcov|].
    exists a2, rs. rewrite <- Hc. split; [|done]. rewrite <- H1, El. cbn [push_all]. by rewrite Hpush.
Qed.

End frame.

(** A frame the video task sends, with the order in which the network hands
    its datagrams over: each at least once, positions that exist or not. *)
Record Sent := mkSent { se_time : Z; se_keyframe : bool; se_payload : list Z; se_picks : list nat }.

Definition sent_ok (mfb : Z) (s : Sent) : Prop :=
  frame_ok 0 (se_time s) (se_payload s) /\ fragment_count (se_payload s) <= MAX_FRAGMENTS_PER_FRAME /\ zlen (se_payload s) <= mfb /\
  forall i, Z.of_nat i < fragment_count (se_payload s) -> i ∈ se_picks s.

(** What arrives of the frames sent under [id] and the identifiers after it. *)
Fixpoint stream (id : Z) (l : list Sent) : list (list Z) :=
  match l with
  | [] => []
  | s :: l =>
      match fragment_frame id (se_time s) (se_keyframe s) (se_payload s) with Good wires => pick wires (se_picks s) | Bad _ => [] end
      ++ stream (wrapping_add32 id 1) l
  end.

Fixpoint expected (id : Z) (l : list Sent) : list EncodedFrame :=
  match l with
  | [] => []
  | s :: l => mkEncodedFrame id (se_time s) (se_keyframe s) (se_payload s) :: expected (wrapping_add32 id 1) l
  end.

Lemma receive_all_app a l k : receive_all a (l ++ k) = let '(a1, r1) := receive_all a l in let '(a2, r2) := receive_all a1 k in (a2, r1 ++ r2).
Proof.
  revert a. induction l as [|d l IH]; intros a; cbn [receive_all app]; [by destruct (receive_all a k)|].
  destruct (match fragment_decode d with Bad e => _ | Good f => _ end) as [a1 r]. rewrite IH. destruct (receive_all a1 l) as [a2 r1]. by destruct (receive_all a2 k).
Qed.

Lemma receive_decoded fs wires picks a :
  Forall2 (fun f w => fragment_encode f = Good w /\ fragment_decode w = Good f /\ zlen w <= MAX_PLAINTEXT) fs wires ->
  receive_all a (pick wires picks) = push_all a (pick fs picks).
Proof.
  intros Hw. revert a. induction picks as [|i picks IH]; intros a; [done|]. unfold pick. cbn [omap list_omap]. fold (pick wires picks). fold (pick fs picks).
  destruct (fs !! i) as [f|] eqn:Hf.
  - destruct (Forall2_lookup_l _ _ _ _ _ Hw Hf) as (w & -> & _ & Hd & _). cbn [receive_all push_all]. rewrite Hd. destruct (push a f) as [a1 r]. by rewrite IH.
  - apply lookup_ge_None in Hf. rewrite (Forall2_length Hw) in Hf. apply lookup_ge_None in Hf. by rewrite Hf.
Qed.

(** Between frames: nothing pending, the history behind [id]. *)
Record Idle (mfb mi start id : Z) (a : Assembler) : Prop := mkIdle {
  id_config : as_max_inflight a = mi /\ as_max_frame_bytes a = mfb;
  id_frames : as_frames a = ∅;
  id_ready : as_ready a = ∅;
  id_next : as_next_ready a = None \/ as_next_ready a = Some id;
  id_history : forall c, c ∈ as_completed a -> ahead start c < ahead start id;
}.

Lemma ahead_next start id : is_u32 start -> is_u32 id -> ahead start id + 1 < M32 -> ahead start (wrapping_add32 id 1) = ahead start id + 1.
Proof. unfold is_u32, ahead, wrapping_sub32, wrapping_add32, wrap32, M32. intros. Z.to_euclidean_division_equations. lia. Qed.

Lemma stream_crosses mfb mi start id l a : 1 <= mi <= U64_MAX -> is_u32 start -> is_u32 id -> Idle mfb mi start id a -> Forall (sent_ok mfb) l ->
  ahead start id + zlen l < M32 ->
  exists a' rs, receive_all a (stream id l) = (a', rs) /\ omap ready_of rs = expected id l /\ forallb is_good rs = true /\ as_frames a' = ∅ /\ as_ready a' = ∅.
Proof.
  intros Hmi Hs. revert id a. induction l as [|s l IH]; intros id a Hid [[Hm Hb] He Hrd Hn Hh] Hok Hlen.
  { exists a, []. by repeat split. }
  apply list.Forall_cons in Hok as [(Hf & Hc & Hpb & Hcov) Hok]. rewrite zlen_cons in Hlen. pose proof (zlen_nonneg l).
  assert (Hf' : frame_ok id (se_time s) (se_payload s)) by (destruct Hf as [_ Hf]; by split).
  destruct (fragment_frame_ok id (se_time s) (se_keyframe s) (se_payload s) Hf') as (wires & Hw & Hdec). cbn [stream expected]. rewrite Hw, receive_all_app, (receive_decoded _ _ _ a Hdec).
  destruct (frame_crosses id (se_time s) (se_keyframe s) (se_payload s) mfb mi Hmi Hf' Hc Hpb (se_picks s) a) as (a1 & r1 & -> & [[O1 O2] O3 O4 O5 [_ O6]] & Hr1 & Hg1).
  { split; [done|done| |done|done]. intros Hin%Hh. lia. }
  { done. }
  { intros i Hi. apply Hcov. pose proof (frame_len id (se_time s) (se_keyframe s) (se_payload s)) as Hl. unfold zlen in Hl. lia. }
  pose proof (ahead_next start id Hs Hid ltac:(lia)) as Hnx.
  destruct (IH (wrapping_add32 id 1) a1) as (a2 & r2 & -> & Hr2 & Hg2 & F1 & F2); [apply wrapping_add32_u32| |done|lia|].
  { split; [done|done|done|by right|]. intros c Hcc. destruct (O6 c Hcc) as [Hcc' | -> ]; [specialize (Hh c Hcc')|]; lia. }
  exists a2, (r1 ++ r2). split; [done|]. rewrite omap_app, Hr1, Hr2, forallb_app, Hg1, Hg2. by split.
Qed.

(** (C18) Video crosses the framing layer. Any sequence of frames cut by
    [fragment_frame], its datagrams delivered frame by frame in any order and
    any number of times each (at least once), comes out of a fresh [Assembler]
    exactly as it went in: every frame once, in order, with its identifier, time,
    keyframe flag and payload; nothing is refused and nothing is left over. The
    identifiers wrap; a run is shorter than the identifier space. *)
Theorem video_stream_crosses (mfb mi id : Z) (l : list Sent) :
  mi <= U64_MAX -> is_u32 id -> Forall (sent_ok mfb) l -> zlen l < M32 ->
  exists a rs, receive_all (assembler_new mfb mi) (stream id l) = (a, rs) /\
    omap ready_of rs = expected id l /\ forallb is_good rs = true /\ inflight a = 0 /\ as_ready a = ∅.
Proof.
  intros Hmi Hid Hok Hlen. assert (Ha : ahead id id = 0) by (unfold ahead, wrapping_sub32, wrap32; by rewrite Z.sub_diag).
  destruct (stream_crosses mfb (Z.max mi 1) id id l (assembler_new mfb mi)) as (a & rs & H1 & H2 & H3 & H4 & H5); try done.
  - unfold U64_MAX in *. lia.
  - split; [done|done|done|by left|]. intros c Hc. by apply not_elem_of_nil in Hc.
  - by rewrite Ha.
  - exists a, rs. repeat split; try done. unfold inflight, map_size. by rewrite H4, map_size_empty.
Qed.

Definition demo_sent : list Sent :=
  [mkSent 10 true (replicate 3000 1) [2; 0; 0; 1; 2]%nat; mkSent 26 false (replicate 1148 2) [5; 0]%nat; mkSent 42 false [3] [0]%nat].

Lemma video_stream_crosses_witness :
  omap ready_of (receive_all (assembler_new 5000 1) (stream (M32 - 2) demo_sent)).2 = expected (M32 - 2) demo_sent /\
  ef_frame_id <$> expected (M32 - 2) demo_sent = [M32 - 2; M32 - 1; 0].
Proof.
  assert (Hc : forall n p, n = fragment_count p -> forall picks : list nat, (forall i : nat, Z.of_nat i < n -> i ∈ picks) -> forall i : nat, Z.of_nat i < fragment_count p -> i ∈ picks) by (intros n p ->; done).
  assert (Hok : Forall (sent_ok 5000) demo_sent).
  { repeat apply Forall_cons_2; [| | |apply Forall_nil_2]; (split; [split; [done|split; [done|split; [by apply bytes_ok_b|done]]]|split; [done|split; [done|]]]).
    - apply (Hc 3); [done|]. intros i Hi. destruct i as [|[|[|i]]]; [repeat constructor..|lia].
    - apply (Hc 1); [done|]. intros i Hi. destruct i as [|i]; [repeat constructor|lia].
    - apply (Hc 1); [done|]. intros i Hi. destruct i as [|i]; [repeat constructor|lia]. }
  split; [|by vm_compute]. destruct (video_stream_crosses 5000 1 (M32 - 2) demo_sent) as (a & rs & -> & H & _); done.
Defined.
