(* ===== verification/InputMaps.v ===== *)
(** * Input code tables ([inject/src/usage.rs], [inject/src/gamepad.rs])

    What a peer's key codes, pad buttons and axis values are called by the
    kernel: tables and pure scalings. *)

From S2P Require Import Prelude.

(** ** Keys *)

(** Usage codes zero through 255, as the kernel translates them. *)
Definition KERNEL_KEY : list Z :=
  [ 0; 0; 0; 0; 30; 48; 46; 32; 18; 33; 34; 35; 23; 36; 37; 38;
    50; 49; 24; 25; 16; 19; 31; 20; 22; 47; 17; 45; 21; 44; 2; 3;
    4; 5; 6; 7; 8; 9; 10; 11; 28; 1; 14; 15; 57; 12; 13; 26;
    27; 43; 43; 39; 40; 41; 51; 52; 53; 58; 59; 60; 61; 62; 63; 64;
    65; 66; 67; 68; 87; 88; 99; 70; 119; 110; 102; 104; 111; 107; 109; 106;
    105; 108; 103; 69; 98; 55; 74; 78; 96; 79; 80; 81; 75; 76; 77; 71;
    72; 73; 82; 83; 86; 127; 116; 117; 183; 184; 185; 186; 187; 188; 189; 190;
    191; 192; 193; 194; 134; 138; 130; 132; 128; 129; 131; 137; 133; 135; 136; 113;
    115; 114; 0; 0; 0; 121; 0; 89; 93; 124; 92; 94; 95; 0; 0; 0;
    122; 123; 90; 91; 85; 0; 0; 0; 0; 0; 0; 0; 111; 0; 0; 0;
    0; 0; 0; 0; 0; 0; 0; 0; 0; 0; 0; 0; 0; 0; 0; 0;
    0; 0; 0; 0; 0; 0; 179; 180; 0; 0; 0; 0; 0; 0; 0; 0;
    0; 0; 0; 0; 0; 0; 0; 0; 0; 0; 0; 0; 0; 0; 0; 0;
    0; 0; 0; 0; 0; 0; 0; 0; 111; 0; 0; 0; 0; 0; 0; 0;
    29; 42; 56; 125; 97; 54; 100; 126; 164; 166; 165; 163; 161; 115; 114; 113;
    150; 158; 159; 128; 136; 177; 178; 176; 142; 152; 173; 140; 0; 0; 0; 0 ].

Definition EXTRA_FIRST : Z := 258.
Definition EXTRA : list Z := [163; 165; 166; 164; 113; 226].
Definition OVERRIDE : list (Z * Z) := [(118, 127)].
Definition USAGE_PAGE : Z := 0x00070000.

(** [code != 0] of [then_some]. *)
Definition named (code : option Z) : option Z :=
  match code with Some code => if code =? 0 then None else Some code | None => None end.

Definition key_code (usage : Z) : option Z :=
  match find (fun entry => entry.1 =? usage) OVERRIDE with
  | Some (_, code) => Some code
  | None =>
      named (if usage <=? 255 then get KERNEL_KEY usage
             else match checked_sub usage EXTRA_FIRST with Some offset => get EXTRA offset | None => None end)
  end.

Definition scan_code (usage : Z) : option Z := if usage <=? 255 then Some (Z.lor USAGE_PAGE usage) else None.

(** ** Pads *)

Definition MAX_PADS : nat := 4.

Module Bit.
Definition DPAD_UP : Z := 0x0001.
Definition DPAD_DOWN : Z := 0x0002.
Definition DPAD_LEFT : Z := 0x0004.
Definition DPAD_RIGHT : Z := 0x0008.
Definition START : Z := 0x0010.
Definition BACK : Z := 0x0020.
Definition LEFT_THUMB : Z := 0x0040.
Definition RIGHT_THUMB : Z := 0x0080.
Definition LEFT_SHOULDER : Z := 0x0100.
Definition RIGHT_SHOULDER : Z := 0x0200.
Definition GUIDE : Z := 0x0400.
Definition TOUCHPAD : Z := 0x0800.
Definition A : Z := 0x1000.
Definition B : Z := 0x2000.
Definition X : Z := 0x4000.
Definition Y : Z := 0x8000.
End Bit.

Module Key.
Definition SOUTH : Z := 0x130.
Definition EAST : Z := 0x131.
Definition NORTH : Z := 0x133.
Definition WEST : Z := 0x134.
Definition TL : Z := 0x136.
Definition TR : Z := 0x137.
Definition SELECT : Z := 0x13a.
Definition START : Z := 0x13b.
Definition MODE : Z := 0x13c.
Definition THUMBL : Z := 0x13d.
Definition THUMBR : Z := 0x13e.
End Key.

Module Axis.
Definition X : Z := 0x00.
Definition Y : Z := 0x01.
Definition Z_ : Z := 0x02.
Definition RX : Z := 0x03.
Definition RY : Z := 0x04.
Definition RZ : Z := 0x05.
Definition HAT0X : Z := 0x10.
Definition HAT0Y : Z := 0x11.
End Axis.

Definition STICK_RANGE : Z := 32767.
Definition TRIGGER_RANGE : Z := 255.

(** The per-button message's index, as the whole-pad message's bit. *)
Definition bit_for_index (index : Z) : option Z :=
  if index <? 0 then None else
  [Bit.A; Bit.B; Bit.X; Bit.Y; Bit.BACK; Bit.GUIDE; Bit.START; Bit.LEFT_THUMB; Bit.RIGHT_THUMB; Bit.LEFT_SHOULDER; Bit.RIGHT_SHOULDER;
   Bit.DPAD_UP; Bit.DPAD_DOWN; Bit.DPAD_LEFT; Bit.DPAD_RIGHT] !! Z.to_nat index.

Definition key_for_bit (button : Z) : option Z :=
  if button =? Bit.A then Some Key.SOUTH else if button =? Bit.B then Some Key.EAST else
  if button =? Bit.X then Some Key.NORTH else if button =? Bit.Y then Some Key.WEST else
  if button =? Bit.LEFT_SHOULDER then Some Key.TL else if button =? Bit.RIGHT_SHOULDER then Some Key.TR else
  if button =? Bit.BACK then Some Key.SELECT else if button =? Bit.START then Some Key.START else
  if button =? Bit.GUIDE then Some Key.MODE else if button =? Bit.LEFT_THUMB then Some Key.THUMBL else
  if button =? Bit.RIGHT_THUMB then Some Key.THUMBR else None.

Definition KEYED_BITS : list Z :=
  [Bit.A; Bit.B; Bit.X; Bit.Y; Bit.LEFT_SHOULDER; Bit.RIGHT_SHOULDER; Bit.BACK; Bit.START; Bit.GUIDE; Bit.LEFT_THUMB; Bit.RIGHT_THUMB].

(** [mask & bit != 0]. *)
Definition has (buttons bit : Z) : bool := negb (Z.land buttons bit =? 0).

Definition axis_of (buttons negative positive : Z) : Z :=
  match has buttons negative, has buttons positive with
  | true, true | false, false => 0
  | true, false => -1
  | false, true => 1
  end.
Definition hat_x (buttons : Z) : Z := axis_of buttons Bit.DPAD_LEFT Bit.DPAD_RIGHT.
Definition hat_y (buttons : Z) : Z := axis_of buttons Bit.DPAD_UP Bit.DPAD_DOWN.

Definition stick (value : Z) (vertical : bool) : Z := if vertical then - Z.max value (- STICK_RANGE) else value.

(** [clamp]. *)
Definition clamp (low high z : Z) : Z := if z <? low then low else if high <? z then high else z.

Definition trigger_from_axis (value : Z) : Z := clamp 0 TRIGGER_RANGE (Z.quot (TRIGGER_RANGE * value) STICK_RANGE).

(** ** The tables are consistent *)

Lemma key_code_range usage code : key_code usage = Some code -> 0 < code < 256.
Proof.
  assert (Hk : forall l u c, forallb (fun z => (0 <=? z) && (z <? 256)) l = true -> named (get l u) = Some c -> 0 < c < 256).
  { intros l u c Hl Hc. destruct (get l u) as [z|] eqn:E; [|done]. unfold get in E. destruct (u <? 0); [done|]. apply list_elem_of_lookup_2, list_elem_of_In in E.
    rewrite forallb_forall in Hl. specialize (Hl z E). cbn in Hc. destruct (z =? 0) eqn:Ez; [done|]. injection Hc as <-. bool_prop. lia. }
  unfold key_code. destruct (find _ OVERRIDE) as [[k c]|] eqn:E.
  - apply find_some in E as [[[= <- <-]|[]] _]. intros [= <-]. lia.
  - destruct (usage <=? 255); [by apply Hk|]. destruct (checked_sub usage EXTRA_FIRST); [by apply Hk|done].
Qed.

(** The bit a mask holds, by its position. *)
Lemma has_testbit x k : 0 <= k -> has x (2 ^ k) = Z.testbit x k.
Proof.
  intros Hk. unfold has. destruct (Z.testbit x k) eqn:E.
  - apply negb_true_iff, Z.eqb_neq. intros H. assert (Z.testbit (Z.land x (2 ^ k)) k = true) as Ht by (rewrite Z.land_spec, E, Z.pow2_bits_true by lia; done).
    rewrite H, Z.bits_0 in Ht. done.
  - apply negb_false_iff, Z.eqb_eq. apply Z.bits_inj'. intros n Hn. rewrite Z.land_spec, Z.bits_0, Z.pow2_bits_eqb by lia.
    destruct (Z.eqb_spec k n) as [->|]; [by rewrite E|apply andb_false_r].
Qed.

Definition single (bit : Z) : Prop := exists k, 0 <= k /\ bit = 2 ^ k.

Lemma has_lxor b a bit : single bit -> has (Z.lxor b a) bit = xorb (has b bit) (has a bit).
Proof. intros (k & Hk & ->). by rewrite !has_testbit, Z.lxor_spec. Qed.

Lemma has_zero bit : has 0 bit = false.
Proof. by unfold has. Qed.

Lemma keyed_single : Forall single KEYED_BITS.
Proof.
  unfold KEYED_BITS. repeat apply Forall_cons_2; try apply Forall_nil_2.
  all: [> exists 12 | exists 13 | exists 14 | exists 15 | exists 8 | exists 9 | exists 5 | exists 4 | exists 10 | exists 6 | exists 7]; by split.
Qed.
