(* ===== verification/Inject.v ===== *)
(** * Input injection ([inject/src/event.rs])

    One guest's held state and the expansion of its control messages into
    kernel input events. The sink is the log of what was emitted; what a machine
    driven by that log would hold down is computed from the log. *)

From stdpp Require Import sets.
From S2P Require Import Prelude Payload InputMaps.

Definition EV_SYN : Z := 0x00.
Definition EV_KEY : Z := 0x01.
Definition EV_REL : Z := 0x02.
Definition EV_ABS : Z := 0x03.
Definition EV_MSC : Z := 0x04.
Definition SYN_REPORT : Z := 0.
Definition MSC_SCAN : Z := 4.
Definition REL_X : Z := 0x00.
Definition REL_Y : Z := 0x01.
Definition REL_HWHEEL : Z := 0x06.
Definition REL_WHEEL : Z := 0x08.
Definition REL_WHEEL_HI_RES : Z := 0x0b.
Definition REL_HWHEEL_HI_RES : Z := 0x0c.
Definition ABS_X : Z := 0x00.
Definition ABS_Y : Z := 0x01.
Definition BTN_LEFT : Z := 0x110.
Definition BTN_RIGHT : Z := 0x111.
Definition BTN_MIDDLE : Z := 0x112.
Definition BTN_SIDE : Z := 0x113.
Definition BTN_EXTRA : Z := 0x114.
Definition KEY_CAPSLOCK : Z := 58.
Definition KEY_NUMLOCK : Z := 69.
Definition USAGE_CAPS_LOCK : Z := 57.
Definition USAGE_NUM_LOCK : Z := 83.
Definition MOD_NUM : Z := 0x1000.
Definition MOD_CAPS : Z := 0x2000.
Definition WHEEL_DETENT : Z := 120.
Definition ABS_RANGE : Z := 65535.
Definition KEY_SLOTS : nat := 256.
Definition BUTTONS : nat := 5.
Definition SCRATCH : nat := 64.

(** The opcodes a host receives input under ([core/src/control.rs]). *)
Definition OP_KEYBOARD : Z := 0.
Definition OP_MOUSE_BUTTON : Z := 1.
Definition OP_MOUSE_WHEEL : Z := 2.
Definition OP_MOUSE_MOTION : Z := 3.
Definition OP_GAMEPAD_BUTTON : Z := 4.
Definition OP_GAMEPAD_AXIS : Z := 5.
Definition OP_GAMEPAD_UNPLUG : Z := 6.
Definition OP_GAMEPAD_STATE : Z := 23.
Definition OP_RELEASE : Z := 24.
Definition OP_MOUSE_MOTION_STREAM : Z := 26.

Record Event := mkEvent { ev_kind : Z; ev_code : Z; ev_value : Z }.
Inductive Device := Keyboard | Pointer | PointerAbsolute | Gamepad (pad : Z).
#[export] Instance Device_eq_dec : EqDecision Device.
Proof. solve_decision. Defined.

(** What a sink is told. *)
Inductive Effect := Emit (device : Device) (events : list Event) | Unplug (pad : Z).
Definition Log := list Effect.

Record Permissions := mkPermissions { pm_keyboard : bool; pm_pointer : bool; pm_gamepad : bool }.
Definition default_permissions : Permissions := mkPermissions true true true.
Definition from_keyboard_pointer_grants (keyboard pointer gamepad : bool) : Permissions := mkPermissions keyboard pointer gamepad.
Definition from_host_grants (input gamepad : bool) : Permissions := from_keyboard_pointer_grants input input (input && gamepad).

Record Place := mkPlace { pl_x : Z; pl_y : Z; pl_width : Z; pl_height : Z; pl_desktop_width : Z; pl_desktop_height : Z }.
Record Extents := mkExtents { ex_width : Z; ex_height : Z; ex_place : Place }.
Definition alone (width height : Z) : Extents := mkExtents width height (mkPlace 0 0 width height width height).
Definition placed (width height : Z) (place : Place) : Extents := mkExtents width height place.

Record Tally := mkTally { ta_keys : Z; ta_buttons : Z; ta_wheels : Z; ta_motions : Z; ta_pads : Z }.
#[export] Instance eta_Tally : Eta Tally := fun t => mkTally (ta_keys t) (ta_buttons t) (ta_wheels t) (ta_motions t) (ta_pads t).

Record Pad := mkPad { pd_id : Z; pd_buttons : Z }.
#[export] Instance eta_Pad : Eta Pad := fun p => mkPad (pd_id p) (pd_buttons p).

(** [in_scratch] is [scratch[..used]]; what lies beyond is never read. *)
Record Injector := mkInjector {
  in_extents : Extents;
  in_permissions : Permissions;
  in_keys : list bool;
  in_buttons : list bool;
  in_pressed_on : list Device;
  in_absolute : bool;
  in_last_abs : option (Z * Z);
  in_commanded : option (Z * Z);
  in_hidden : bool;
  in_num_lock : option bool;
  in_caps_lock : option bool;
  in_floor : bool;
  in_pads : list (option Pad);
  in_tally : Tally;
  in_scratch : list Event;
}.
#[export] Instance eta_Injector : Eta Injector := fun i =>
  mkInjector (in_extents i) (in_permissions i) (in_keys i) (in_buttons i) (in_pressed_on i) (in_absolute i) (in_last_abs i) (in_commanded i)
    (in_hidden i) (in_num_lock i) (in_caps_lock i) (in_floor i) (in_pads i) (in_tally i) (in_scratch i).

Definition injector_new (extents : Extents) : Injector :=
  mkInjector extents default_permissions (replicate KEY_SLOTS false) (replicate BUTTONS false) (replicate BUTTONS PointerAbsolute) false None None
    false None None true (replicate MAX_PADS None) (mkTally 0 0 0 0 0) [].

Definition commanded (i : Injector) : option (Z * Z) := in_commanded i.
Definition set_extents (i : Injector) (extents : Extents) : Injector := i <| in_extents := extents |>.

(** ** Scratch *)

Definition push (kind code value : Z) (i : Injector) : Injector :=
  if (length (in_scratch i) <? SCRATCH)%nat then i <| in_scratch := in_scratch i ++ [mkEvent kind code value] |> else i.
Definition report (i : Injector) : Injector := push EV_SYN SYN_REPORT 0 i.
Definition restart (i : Injector) : Injector := i <| in_scratch := [] |>.
Definition flush (device : Device) (i : Injector) (out : Log) : Injector * Log := (restart i, out ++ [Emit device (in_scratch i)]).

(** ** Arithmetic of the wire fields *)

Definition button_code (button : Z) : option Z :=
  if button =? 1 then Some BTN_LEFT else if button =? 2 then Some BTN_MIDDLE else if button =? 3 then Some BTN_RIGHT else
  if button =? 4 then Some BTN_SIDE else if button =? 5 then Some BTN_EXTRA else None.

Definition detents (units : Z) : Z :=
  let whole := Z.quot units WHEEL_DETENT in
  if negb (whole =? 0) then whole else if 0 <? units then 1 else -1.

Definition scale (value extent origin within desktop : Z) : Z :=
  if (extent <=? 0) || (desktop <=? 0) then 0 else
  let clamped := clamp 0 extent value in
  let placed := origin + Z.quot (clamped * within) extent in
  clamp 0 ABS_RANGE (Z.quot (placed * ABS_RANGE) desktop).

(** [value as i16] of sixteen bits. *)
Definition as_i16 (value : Z) : Z := if value <? 32768 then value else value - 65536.
Definition low16 (value : Z) : Z := value mod 65536.
Definition high16_signed (value : Z) : Z := as_i16 ((value / 65536) mod 65536).
(** Subtraction of [i32]s as release builds do it. *)
Definition wrapping_sub_i32 (a b : Z) : Z := as_i32 (wrap32 (a - b)).

(** ** Tally *)

Definition bump (n : Z) : Z := saturating_add U32_MAX n 1.

Definition tally_count (t : Tally) (opcode : Z) : Tally :=
  if opcode =? OP_KEYBOARD then t <| ta_keys := bump (ta_keys t) |> else
  if opcode =? OP_MOUSE_BUTTON then t <| ta_buttons := bump (ta_buttons t) |> else
  if opcode =? OP_MOUSE_WHEEL then t <| ta_wheels := bump (ta_wheels t) |> else
  if (opcode =? OP_MOUSE_MOTION) || (opcode =? OP_MOUSE_MOTION_STREAM) then t <| ta_motions := bump (ta_motions t) |> else
  if (opcode =? OP_GAMEPAD_BUTTON) || (opcode =? OP_GAMEPAD_AXIS) || (opcode =? OP_GAMEPAD_STATE) || (opcode =? OP_GAMEPAD_UNPLUG) then t <| ta_pads := bump (ta_pads t) |> else t.

(** ** Operations *)

(** [iter().position(f)]. *)
Fixpoint index_of {A} (f : A -> bool) (l : list A) : option nat :=
  match l with
  | [] => None
  | x :: l => if f x then Some O else S <$> index_of f l
  end.

Definition is_pad (id : Z) (p : option Pad) : bool := match p with Some p => pd_id p =? id | None => false end.
Definition is_free (p : option Pad) : bool := match p with None => true | Some _ => false end.

(** The pad in a slot. *)
Definition pad_at (i : Injector) (index : nat) : option Pad := match in_pads i !! index with Some (Some p) => Some p | _ => None end.
Definition set_pad (i : Injector) (index : nat) (p : option Pad) : Injector := i <| in_pads := <[index := p]> (in_pads i) |>.

Definition pad (id : Z) (i : Injector) : Injector * option nat :=
  match index_of (is_pad id) (in_pads i) with
  | Some index => (i, Some index)
  | None =>
      match index_of is_free (in_pads i) with
      | None => (i, None)
      | Some index => (set_pad i index (Some (mkPad id 0)), Some index)
      end
  end.

Definition pointer_allowed (i : Injector) : bool := pm_pointer (in_permissions i) && in_floor i.
Definition pointer (i : Injector) : Device := if in_absolute i then PointerAbsolute else Pointer.
Definition holds_pointer_button (i : Injector) : bool := existsb id (in_buttons i).

Fixpoint flatten_pads (l : list (option Pad)) : list Pad :=
  match l with [] => [] | Some p :: l => p :: flatten_pads l | None :: l => flatten_pads l end.
Definition pad_holding (i : Injector) (mask : Z) : option Z := pd_id <$> find (fun p => Z.land (pd_buttons p) mask =? mask) (flatten_pads (in_pads i)).

Definition key_events (usage key : Z) (pressed : bool) (i : Injector) : Injector :=
  let i := match scan_code usage with Some scan => push EV_MSC MSC_SCAN scan i | None => i end in
  report (push EV_KEY key (Z.b2z pressed) i).

Definition tap (usage key : Z) (i : Injector) : Injector := key_events usage key false (key_events usage key true i).

(** [lock.replace(now) == Some(!now)]. *)
Definition lock_moved (was : option bool) (now : bool) : bool := match was with Some w => Bool.eqb w (negb now) | None => false end.

Definition lock_sync (modifiers injected : Z) (i : Injector) : Injector :=
  let num := has modifiers MOD_NUM in
  let moved := lock_moved (in_num_lock i) num in
  let i := i <| in_num_lock := Some num |> in
  let i := if moved && negb (injected =? KEY_NUMLOCK) then tap USAGE_NUM_LOCK KEY_NUMLOCK i else i in
  let caps := has modifiers MOD_CAPS in
  let moved := lock_moved (in_caps_lock i) caps in
  let i := i <| in_caps_lock := Some caps |> in
  if moved && negb (injected =? KEY_CAPSLOCK) then tap USAGE_CAPS_LOCK KEY_CAPSLOCK i else i.

Definition keyboard (code modifiers : Z) (pressed : bool) (i : Injector) (out : Log) : Injector * Log :=
  match try_from U16_MAX code with
  | None => (i, out)
  | Some peer_code =>
      match key_code peer_code with
      | None => (i, out)
      | Some key =>
          match in_keys i !! Z.to_nat key with
          | None => (i, out)
          | Some held =>
              if negb pressed && negb held then (i, out) else
              let i := restart (i <| in_keys := <[Z.to_nat key := pressed]> (in_keys i) |>) in
              flush Keyboard (key_events peer_code key pressed (lock_sync modifiers key i)) out
          end
      end
  end.

Definition button (button : Z) (pressed : bool) (i : Injector) (out : Log) : Injector * Log :=
  match checked_sub button 1 with
  | None => (i, out)
  | Some index =>
      match in_buttons i !! Z.to_nat index with
      | None => (i, out)
      | Some held =>
          match button_code button with
          | None => (i, out)
          | Some code =>
              if negb pressed && negb held then (i, out) else
              let i := i <| in_buttons := <[Z.to_nat index := pressed]> (in_buttons i) |> in
              let device := if pressed then pointer i else default Pointer (in_pressed_on i !! Z.to_nat index) in
              let i := if pressed then i <| in_pressed_on := <[Z.to_nat index := device]> (in_pressed_on i) |> else i in
              flush device (report (push EV_KEY code (Z.b2z pressed) (restart i))) out
          end
      end
  end.

Definition wheel (x y : Z) (i : Injector) (out : Log) : Injector * Log :=
  if (x =? 0) && (y =? 0) then (i, out) else
  let i := restart i in
  let i := if negb (y =? 0) then push EV_REL REL_WHEEL_HI_RES y (push EV_REL REL_WHEEL (detents y) i) else i in
  let i := if negb (x =? 0) then push EV_REL REL_HWHEEL_HI_RES x (push EV_REL REL_HWHEEL (detents x) i) else i in
  let i := report i in
  flush (pointer i) i out.

(** The two relative moves of [motion]. *)
Definition move_by (x y : Z) (i : Injector) (out : Log) : Injector * Log :=
  flush Pointer (report (push EV_REL REL_Y y (push EV_REL REL_X x (restart i)))) out.

Definition motion (relative : bool) (x y : Z) (i : Injector) (out : Log) : Injector * Log :=
  if relative then move_by x y (i <| in_last_abs := None |> <| in_absolute := false |>) out else
  if in_hidden i then
    let previous := in_last_abs i in
    let i := i <| in_last_abs := Some (x, y) |> in
    match previous with
    | None => (i, out)
    | Some (px, py) => move_by (wrapping_sub_i32 x px) (wrapping_sub_i32 y py) (i <| in_absolute := false |>) out
    end
  else
    let i := i <| in_last_abs := None |> <| in_absolute := true |> <| in_commanded := Some (x, y) |> in
    let place := ex_place (in_extents i) in
    let i := push EV_ABS ABS_X (scale x (ex_width (in_extents i)) (pl_x place) (pl_width place) (pl_desktop_width place)) (restart i) in
    let i := push EV_ABS ABS_Y (scale y (ex_height (in_extents i)) (pl_y place) (pl_height place) (pl_desktop_height place)) i in
    flush PointerAbsolute (report i) out.

(** One key of [release_keys]. *)
Definition release_key (w : Injector * Log) (key : nat) : Injector * Log :=
  let '(i, out) := w in
  if negb (bool_decide (in_keys i !! key = Some true)) then (i, out) else
  let i := push EV_KEY (Z.of_nat key) 0 (i <| in_keys := <[key := false]> (in_keys i) |>) in
  if (SCRATCH <=? length (in_scratch i) + 1)%nat then flush Keyboard (report i) out else (i, out).

Definition flush_rest (device : Device) (w : Injector * Log) : Injector * Log :=
  let '(i, out) := w in match in_scratch i with [] => (i, out) | _ => flush device (report i) out end.

Definition release_keys (i : Injector) (out : Log) : Injector * Log :=
  let '(i, out) := flush_rest Keyboard (fold_left release_key (seq 0 KEY_SLOTS) (restart i, out)) in
  (i <| in_num_lock := None |> <| in_caps_lock := None |>, out).

(** One button of [release_buttons]. *)
Definition release_button (device : Device) (i : Injector) (index : nat) : Injector :=
  if negb (bool_decide (in_buttons i !! index = Some true)) then i else
  if negb (bool_decide (in_pressed_on i !! index = Some device)) then i else
  let i := i <| in_buttons := <[index := false]> (in_buttons i) |> in
  match button_code (Z.of_nat index + 1) with Some code => push EV_KEY code 0 i | None => i end.

Definition release_on (device : Device) (i : Injector) (out : Log) : Injector * Log :=
  flush_rest device (fold_left (release_button device) (seq 0 BUTTONS) (restart i), out).

Definition release_buttons (i : Injector) (out : Log) : Injector * Log :=
  let '(i, out) := release_on PointerAbsolute i out in release_on Pointer i out.

(** One bit of [buttons_changed]. *)
Definition keyed (changed after : Z) (i : Injector) (bit : Z) : Injector :=
  if Z.land changed bit =? 0 then i else
  match key_for_bit bit with Some code => push EV_KEY code (Z.b2z (has after bit)) i | None => i end.

Definition HAT : Z := Z.lor (Z.lor (Z.lor Bit.DPAD_UP Bit.DPAD_DOWN) Bit.DPAD_LEFT) Bit.DPAD_RIGHT.

Definition buttons_changed (id before after : Z) (i : Injector) (out : Log) : Injector * Log :=
  let changed := Z.lxor before after in
  if changed =? 0 then (i, out) else
  let i := fold_left (keyed changed after) KEYED_BITS (restart i) in
  let i := if has changed HAT then push EV_ABS Axis.HAT0Y (hat_y after) (push EV_ABS Axis.HAT0X (hat_x after) i) else i in
  flush_rest (Gamepad id) (i, out).

Definition axis (id which value : Z) (i : Injector) (out : Log) : Injector * Log :=
  let send code scaled := flush (Gamepad id) (report (push EV_ABS code scaled (restart i))) out in
  if which =? 0 then send Axis.X (stick value false) else
  if which =? 1 then send Axis.Y (stick value true) else
  if which =? 2 then send Axis.RX (stick value false) else
  if which =? 3 then send Axis.RY (stick value true) else
  if which =? 4 then send Axis.Z_ (trigger_from_axis value) else
  if which =? 5 then send Axis.RZ (trigger_from_axis value) else (i, out).

(** The six axes pushed in order. *)
Definition push_axes (values : list (Z * Z)) (i : Injector) : Injector := fold_left (fun i v => push EV_ABS v.1 v.2 i) values i.

(** One slot of [centre_pads]. *)
Definition centre_pad (w : Injector * Log) (index : nat) : Injector * Log :=
  let '(i, out) := w in
  match pad_at i index with
  | None => (i, out)
  | Some p =>
      let '(i, out) := buttons_changed (pd_id p) (pd_buttons p) 0 (set_pad i index (Some (p <| pd_buttons := 0 |>))) out in
      let i := push_axes [(Axis.X, 0); (Axis.Y, 0); (Axis.RX, 0); (Axis.RY, 0); (Axis.Z_, 0); (Axis.RZ, 0)] (restart i) in
      flush (Gamepad (pd_id p)) (report i) out
  end.

Definition centre_pads (i : Injector) (out : Log) : Injector * Log := fold_left centre_pad (seq 0 MAX_PADS) (i, out).

Definition unplug (id : Z) (i : Injector) (out : Log) : Injector * Log :=
  match index_of (is_pad id) (in_pads i) with
  | None => (i, out)
  | Some index => (set_pad i index None, out ++ [Unplug id])
  end.

Definition field16 (fields : list Z) (offset : Z) : Z := be_val (default [0; 0] (slice fields offset (offset + 2))).

Definition pad_state (id : Z) (body : list Z) (i : Injector) (out : Log) : Injector * Log :=
  match slice body 3 (3 + 12) with
  | None => (i, out)
  | Some fields =>
      let buttons := field16 fields 0 in
      match pad id i with
      | (i, None) => (i, out)
      | (i, Some index) =>
          let before := match pad_at i index with Some p => pd_buttons p | None => 0 end in
          let i := match pad_at i index with Some p => set_pad i index (Some (p <| pd_buttons := buttons |>)) | None => i end in
          let '(i, out) := buttons_changed id before buttons i out in
          let i := push_axes [(Axis.X, stick (as_i16 (field16 fields 2)) false); (Axis.Y, stick (as_i16 (field16 fields 4)) true);
                              (Axis.RX, stick (as_i16 (field16 fields 6)) false); (Axis.RY, stick (as_i16 (field16 fields 8)) true);
                              (Axis.Z_, default 0 (get fields 10)); (Axis.RZ, default 0 (get fields 11))] (restart i) in
          flush (Gamepad id) (report i) out
      end
  end.

Definition gamepad_button (index state id : Z) (i : Injector) (out : Log) : Injector * Log :=
  match bit_for_index index with
  | None => (i, out)
  | Some bit =>
      match pad id i with
      | (i, None) => (i, out)
      | (i, Some slot) =>
          match pad_at i slot with
          | None => (i, out)
          | Some p =>
              let after := if state =? 0 then Z.ldiff (pd_buttons p) bit else Z.lor (pd_buttons p) bit in
              buttons_changed (pd_id p) (pd_buttons p) after (set_pad i slot (Some (p <| pd_buttons := after |>))) out
          end
      end
  end.

Definition gamepad_axis (which value id : Z) (i : Injector) (out : Log) : Injector * Log :=
  match pad id i with
  | (i, None) => (i, out)
  | (i, Some slot) => match pad_at i slot with None => (i, out) | Some p => axis (pd_id p) which (high16_signed (wrap32 (Z.shiftl value 16))) i out end
  end.

Definition release_all (i : Injector) (out : Log) : Injector * Log :=
  let '(i, out) := release_keys i out in
  let '(i, out) := release_buttons i out in
  centre_pads i out.

Definition on_control (m : Control) (i : Injector) (out : Log) : Injector * Log :=
  let i := i <| in_tally := tally_count (in_tally i) (ct_opcode m) |> in
  let op := ct_opcode m in
  if (op =? OP_KEYBOARD) && pm_keyboard (in_permissions i) then keyboard (ct_a0 m) (ct_a1 m) (negb (ct_a2 m =? 0)) i out else
  if (op =? OP_MOUSE_BUTTON) && pointer_allowed i then button (ct_a0 m) (negb (ct_a1 m =? 0)) i out else
  if (op =? OP_MOUSE_WHEEL) && pointer_allowed i then wheel (as_i32 (ct_a0 m)) (as_i32 (ct_a1 m)) i out else
  if (op =? OP_MOUSE_MOTION) && pointer_allowed i then motion (negb (ct_a0 m =? 0)) (as_i32 (ct_a1 m)) (as_i32 (ct_a2 m)) i out else
  if (op =? OP_MOUSE_MOTION_STREAM) && pointer_allowed i then motion (has (ct_a0 m) 1) (low16 (ct_a1 m)) (high16_signed (ct_a1 m)) i out else
  if (op =? OP_GAMEPAD_BUTTON) && pm_gamepad (in_permissions i) then gamepad_button (ct_a0 m) (ct_a1 m) (ct_a2 m) i out else
  if (op =? OP_GAMEPAD_AXIS) && pm_gamepad (in_permissions i) then gamepad_axis (ct_a0 m) (ct_a1 m) (ct_a2 m) i out else
  if (op =? OP_GAMEPAD_UNPLUG) && pm_gamepad (in_permissions i) then unplug (ct_a2 m) i out else
  if (op =? OP_GAMEPAD_STATE) && pm_gamepad (in_permissions i) then pad_state (ct_a0 m) (ct_body m) i out else
  if op =? OP_RELEASE then release_all i out else (i, out).

Definition set_permissions (permissions : Permissions) (i : Injector) (out : Log) : Injector * Log :=
  let was := in_permissions i in
  let i := i <| in_permissions := permissions |> in
  let '(i, out) := if pm_keyboard was && negb (pm_keyboard permissions) then release_keys i out else (i, out) in
  if pm_pointer was && negb (pm_pointer permissions) then release_buttons i out else (i, out).

Definition set_floor (held : bool) (i : Injector) (out : Log) : Injector * Log :=
  let '(i, out) := if in_floor i && negb held then release_buttons i out else (i, out) in
  (i <| in_floor := held |>, out).

Definition set_cursor_hidden (hidden : bool) (i : Injector) : Injector :=
  let i := if negb hidden then i <| in_last_abs := None |> else i in i <| in_hidden := hidden |>.

(** ** What a machine driven by the log holds *)

Definition down_ev (code : Z) (b : bool) (evs : list Event) : bool :=
  fold_left (fun b e => if (ev_kind e =? EV_KEY) && (ev_code e =? code) then negb (ev_value e =? 0) else b) evs b.
Definition axis_ev (code v : Z) (evs : list Event) : Z :=
  fold_left (fun v e => if (ev_kind e =? EV_ABS) && (ev_code e =? code) then ev_value e else v) evs v.

(** Whether a key or button of a device is down, and where an axis stands,
    after a log. A device that is unplugged is gone with all it held. *)
Definition down (d : Device) (code : Z) (log : Log) : bool :=
  fold_left (fun b eff => match eff with Emit d' evs => if bool_decide (d' = d) then down_ev code b evs else b
                          | Unplug p => if bool_decide (Gamepad p = d) then false else b end) log false.
Definition axis_at (d : Device) (code : Z) (log : Log) : Z :=
  fold_left (fun v eff => match eff with Emit d' evs => if bool_decide (d' = d) then axis_ev code v evs else v
                          | Unplug p => if bool_decide (Gamepad p = d) then 0 else v end) log 0.

Lemma down_emit d code log d' evs : down d code (log ++ [Emit d' evs]) = if bool_decide (d' = d) then down_ev code (down d code log) evs else down d code log.
Proof. unfold down at 1. by rewrite fold_left_app. Qed.

Lemma axis_emit d code log d' evs : axis_at d code (log ++ [Emit d' evs]) = if bool_decide (d' = d) then axis_ev code (axis_at d code log) evs else axis_at d code log.
Proof. unfold axis_at at 1. by rewrite fold_left_app. Qed.

Lemma down_ev_app code b l k : down_ev code b (l ++ k) = down_ev code (down_ev code b l) k.
Proof. apply fold_left_app. Qed.

Lemma axis_ev_app code v l k : axis_ev code v (l ++ k) = axis_ev code (axis_ev code v l) k.
Proof. apply fold_left_app. Qed.

(** Two logs that leave a device alike. *)
Definition same_on (d : Device) (log log' : Log) : Prop := forall code, down d code log' = down d code log /\ axis_at d code log' = axis_at d code log.

Lemma same_on_refl d log : same_on d log log.
Proof. done. Qed.

Lemma same_on_trans d a b c : same_on d a b -> same_on d b c -> same_on d a c.
Proof. intros H1 H2 code. destruct (H1 code), (H2 code). split; congruence. Qed.

Lemma same_on_emit d d' log evs : d' <> d -> same_on d log (log ++ [Emit d' evs]).
Proof. intros Hd code. by rewrite down_emit, axis_emit, !bool_decide_false by done. Qed.

(** The pointer a button was last pressed on, by what both pointers were sent. *)
Definition pointer_device (d : Device) : bool := match d with Pointer | PointerAbsolute => true | _ => false end.
Definition presses (code : Z) (e : Event) : bool := (ev_kind e =? EV_KEY) && (ev_code e =? code) && negb (ev_value e =? 0).
Definition press_ev (d : Device) (code : Z) (p : option Device) (evs : list Event) : option Device :=
  if pointer_device d && existsb (presses code) evs then Some d else p.
Definition last_press (code : Z) (log : Log) : option Device :=
  fold_left (fun p eff => match eff with Emit d evs => press_ev d code p evs | Unplug _ => p end) log None.

Lemma last_press_emit code log d evs : last_press code (log ++ [Emit d evs]) = press_ev d code (last_press code log) evs.
Proof. unfold last_press at 1. by rewrite fold_left_app. Qed.

(** Two logs that press no button differently. *)
Definition same_press (log log' : Log) : Prop := forall code, last_press code log' = last_press code log.

Lemma same_press_trans a b c : same_press a b -> same_press b c -> same_press a c.
Proof. intros H1 H2 code. by rewrite H2, H1. Qed.

Lemma same_press_emit d log evs : pointer_device d = false -> same_press log (log ++ [Emit d evs]).
Proof. intros Hd code. rewrite last_press_emit. unfold press_ev. by rewrite Hd. Qed.

Lemma same_press_quiet d log evs : Forall (fun e => ev_kind e <> EV_KEY \/ ev_value e = 0) evs -> same_press log (log ++ [Emit d evs]).
Proof.
  intros He code. rewrite last_press_emit. unfold press_ev. assert (existsb (presses code) evs = false) as ->; [|by rewrite andb_false_r].
  induction He as [|e evs Hk _ IH]; [done|]. cbn [existsb]. rewrite IH, orb_false_r. unfold presses. destruct Hk as [Hk|Hk].
  - by rewrite (proj2 (Z.eqb_neq _ _)).
  - rewrite Hk. apply andb_false_r.
Qed.

(** Some events only lift keys. *)
Lemma down_lifts code b evs : Forall (fun e => ev_kind e <> EV_KEY \/ ev_value e = 0) evs -> down_ev code b evs = true -> b = true.
Proof.
  intros He. revert b. induction He as [|e evs Hk _ IH]; intros b; [done|]. cbn [down_ev fold_left]. intros H%IH.
  destruct ((ev_kind e =? EV_KEY) && (ev_code e =? code)) eqn:E; [|done]. apply andb_true_iff in E as [E%Z.eqb_eq _]. destruct Hk as [?|Hk]; [done|]. by rewrite Hk in H.
Qed.

(** A button that is down on a pointer other than the one it was pressed on
    last. *)
Definition stranded (d : Device) (code : Z) (log : Log) : Prop := down d code log = true /\ last_press code log <> Some d.

(** ** Sending *)

Definition syn : Event := mkEvent EV_SYN SYN_REPORT 0.

Lemma syn_down code b : down_ev code b [syn] = b.
Proof. done. Qed.

Lemma syn_axis code v : axis_ev code v [syn] = v.
Proof. done. Qed.

Definition push_events (es : list Event) (i : Injector) : Injector := fold_left (fun i e => push (ev_kind e) (ev_code e) (ev_value e) i) es i.

Lemma push_events_app a b i : push_events (a ++ b) i = push_events b (push_events a i).
Proof. apply fold_left_app. Qed.

Lemma push_events_scratch es i : (length (in_scratch i) + length es <= SCRATCH)%nat -> push_events es i = i <| in_scratch := in_scratch i ++ es |>.
Proof.
  revert i. induction es as [|[k c v] es IH]; intros i Hl; [rewrite app_nil_r; by destruct i|]. cbn [length] in Hl. cbn [push_events fold_left ev_kind ev_code ev_value].
  fold (push_events es (push k c v i)). unfold push. assert ((length (in_scratch i) <? SCRATCH)%nat = true) as -> by (apply Nat.ltb_lt; lia).
  rewrite IH; cbn [in_scratch set_field eta eta_Injector]; [by rewrite <- app_assoc|]. rewrite length_app. cbn [length]. lia.
Qed.

(** A chunk the sink is handed: bounded, ended by a report, and absolute
    positions within the axis. *)
Definition effect_ok (eff : Effect) : Prop :=
  match eff with
  | Emit d evs => (exists body, evs = body ++ [syn]) /\ (length evs <= SCRATCH)%nat /\
      (d = PointerAbsolute -> Forall (fun e => ev_kind e = EV_ABS -> 0 <= ev_value e <= ABS_RANGE) evs)
  | Unplug _ => True
  end.

Definition on_axis (d : Device) (es : list Event) : Prop := d = PointerAbsolute -> Forall (fun e => ev_kind e = EV_ABS -> 0 <= ev_value e <= ABS_RANGE) es.

(** What a report of [es] on one device comes to. *)
Definition sent (d : Device) (es : list Event) (i : Injector) (out : Log) : Injector * Log := (restart i, out ++ [Emit d (es ++ [syn])]).

Lemma flush_report d es i out : (length es < SCRATCH)%nat -> flush d (report (push_events es (restart i))) out = sent d es i out.
Proof.
  intros Hl. unfold flush, report. rewrite push_events_scratch by (cbn; lia). change (restart i <| in_scratch := in_scratch (restart i) ++ es |>) with (i <| in_scratch := es |>).
  unfold push. cbn [in_scratch set_field eta eta_Injector]. assert ((length es <? SCRATCH)%nat = true) as -> by (by apply Nat.ltb_lt). done.
Qed.

Lemma sent_ok d es out : (length es < SCRATCH)%nat -> on_axis d es -> Forall effect_ok out -> Forall effect_ok (out ++ [Emit d (es ++ [syn])]).
Proof.
  intros Hl Ha Ho. apply Forall_app. split; [done|]. constructor; [|constructor]. split; [by eexists|]. split; [rewrite length_app; cbn; lia|].
  intros Hd. apply Forall_app. split; [by apply Ha|]. constructor; [by intros [=]|constructor].
Qed.

(** What is left in the scratch, sent unless it is nothing. *)
Definition rest (d : Device) (es : list Event) (out : Log) : Log := match es with [] => out | _ => out ++ [Emit d (es ++ [syn])] end.

Lemma flush_rest_spec d i out : (length (in_scratch i) < SCRATCH)%nat ->
  flush_rest d (i, out) = (restart i, rest d (in_scratch i) out).
Proof.
  intros Hl. unfold flush_rest. destruct (in_scratch i) as [|e es] eqn:E; [destruct i; cbn in *; by subst|].
  unfold flush, report, push. rewrite E. assert ((length (e :: es) <? SCRATCH)%nat = true) as -> by (by apply Nat.ltb_lt). done.
Qed.

Lemma rest_down d code d' es out : down d' code (rest d es out) = if bool_decide (d = d') then down_ev code (down d' code out) es else down d' code out.
Proof. destruct es as [|e es]; [by case_bool_decide|]. unfold rest. rewrite down_emit. case_bool_decide; [|done]. by rewrite down_ev_app. Qed.

Lemma rest_axis d code d' es out : axis_at d' code (rest d es out) = if bool_decide (d = d') then axis_ev code (axis_at d' code out) es else axis_at d' code out.
Proof. destruct es as [|e es]; [by case_bool_decide|]. unfold rest. rewrite axis_emit. case_bool_decide; [|done]. by rewrite axis_ev_app. Qed.

Lemma rest_same d d' es out : d <> d' -> same_on d' out (rest d es out).
Proof. intros Hd code. by rewrite rest_down, rest_axis, !bool_decide_false by done. Qed.

Lemma rest_same_press d es out : pointer_device d = false \/ Forall (fun e => ev_kind e <> EV_KEY \/ ev_value e = 0) es -> same_press out (rest d es out).
Proof.
  intros H. destruct es as [|e es]; [done|]. destruct H as [H|H]; [by apply same_press_emit|]. apply same_press_quiet, Forall_app. split; [done|].
  constructor; [by left|constructor].
Qed.

Lemma rest_lifts d es out d' code : Forall (fun e => ev_kind e <> EV_KEY \/ ev_value e = 0) es -> down d' code (rest d es out) = true -> down d' code out = true.
Proof. intros He. rewrite rest_down. case_bool_decide; [|done]. by apply down_lifts. Qed.

Lemma rest_ok d es out : (length es < SCRATCH)%nat -> on_axis d es -> Forall effect_ok out -> Forall effect_ok (rest d es out).
Proof. intros. destruct es; [done|by apply sent_ok]. Qed.

(** ** The keyboard *)

Definition key_event_list (usage key : Z) (pressed : bool) : list Event :=
  match scan_code usage with Some scan => [mkEvent EV_MSC MSC_SCAN scan] | None => [] end ++ [mkEvent EV_KEY key (Z.b2z pressed)].

Lemma key_events_push usage key pressed i : key_events usage key pressed i = push_events (key_event_list usage key pressed ++ [syn]) i.
Proof. unfold key_events, key_event_list. by destruct (scan_code usage). Qed.

Definition tap_list (usage key : Z) : list Event := (key_event_list usage key true ++ [syn]) ++ key_event_list usage key false ++ [syn].

Lemma tap_push usage key i : tap usage key i = push_events (tap_list usage key) i.
Proof. unfold tap, tap_list. by rewrite !key_events_push, !push_events_app. Qed.

Lemma down_key_event_list code b usage key pressed : down_ev code b (key_event_list usage key pressed) = if key =? code then pressed else b.
Proof.
  unfold key_event_list. rewrite down_ev_app. assert (down_ev code b (match scan_code usage with Some scan => [mkEvent EV_MSC MSC_SCAN scan] | None => [] end) = b) as -> by by destruct (scan_code usage).
  unfold down_ev. cbn. destruct (key =? code); [|done]. by destruct pressed.
Qed.

Lemma down_tap_list code b usage key : down_ev code b (tap_list usage key) = if key =? code then false else b.
Proof. unfold tap_list. rewrite !down_ev_app, !syn_down, !down_key_event_list. by destruct (key =? code). Qed.

Lemma push_events_caps es i x : push_events es i <| in_caps_lock := x |> = push_events es (i <| in_caps_lock := x |>).
Proof.
  revert i. induction es as [|e es IH]; intros i; [done|]. cbn [push_events fold_left]. fold (push_events es (push (ev_kind e) (ev_code e) (ev_value e) i)).
  rewrite IH. change (push_events (e :: es) (i <| in_caps_lock := x |>)) with (push_events es (push (ev_kind e) (ev_code e) (ev_value e) (i <| in_caps_lock := x |>))).
  f_equal. unfold push. cbn [in_scratch set_field eta eta_Injector]. by destruct (_ <? _)%nat.
Qed.

(** The lock keys tapped on the way. *)
Definition is_lock (code : Z) : bool := (code =? KEY_NUMLOCK) || (code =? KEY_CAPSLOCK).

Lemma lock_sync_spec modifiers key i : exists es, (length es <= 12)%nat /\
  lock_sync modifiers key i = push_events es (i <| in_num_lock := Some (has modifiers MOD_NUM) |> <| in_caps_lock := Some (has modifiers MOD_CAPS) |>) /\
  forall code b, down_ev code b es = b \/ is_lock code = true /\ code <> key /\ down_ev code b es = false.
Proof.
  unfold lock_sync. set (n := lock_moved (in_num_lock i) _ && _). set (i1 := i <| in_num_lock := _ |>).
  assert (H : exists es, (length es <= 6)%nat /\ (if n then tap USAGE_NUM_LOCK KEY_NUMLOCK i1 else i1) = push_events es i1 /\
    forall code b, down_ev code b es = b \/ is_lock code = true /\ code <> key /\ down_ev code b es = false).
  { destruct n eqn:En; [|exists []; split; [cbn; lia|]; split; [done|by left]]. exists (tap_list USAGE_NUM_LOCK KEY_NUMLOCK). split; [cbn; lia|]. split; [apply tap_push|].
    intros code b. rewrite down_tap_list. destruct (KEY_NUMLOCK =? code) eqn:E; [|by left]. right. subst n. bool_prop. unfold is_lock. subst code. split; [done|]. split; [by apply not_eq_sym|done]. }
  destruct H as (es & Hl & -> & Hd). cbv zeta. rewrite push_events_caps. set (i2 := i1 <| in_caps_lock := _ |>).
  assert (Hc : in_caps_lock (push_events es i1) = in_caps_lock i1).
  { clear. generalize i1. induction es as [|e es IH]; intros j; [done|]. cbn [push_events fold_left]. rewrite IH. unfold push. by destruct (_ <? _)%nat. }
  rewrite Hc. destruct (lock_moved (in_caps_lock i1) _ && _) eqn:Ec; [|exists es; split; [lia|done]].
  exists (es ++ tap_list USAGE_CAPS_LOCK KEY_CAPSLOCK). split; [rewrite length_app; cbn; lia|]. split; [by rewrite tap_push, <- push_events_app|].
  intros code b. rewrite down_ev_app, down_tap_list. destruct (KEY_CAPSLOCK =? code) eqn:E; [|apply Hd]. right. bool_prop. unfold is_lock. subst code. split; [done|]. split; [by apply not_eq_sym|done].
Qed.

(** Held keys. A lock key tapped on the peer's behalf may be up while the peer
    holds it. *)
Record KeysInv (i : Injector) (out : Log) : Prop := mkKeysInv {
  ki_len : length (in_keys i) = KEY_SLOTS;
  ki_held : forall code, down Keyboard code out = true -> 0 <= code /\ in_keys i !! Z.to_nat code = Some true;
  ki_down : forall n, in_keys i !! n = Some true -> is_lock (Z.of_nat n) = false -> down Keyboard (Z.of_nat n) out = true;
}.

Lemma keys_frame i i' out out' : in_keys i' = in_keys i -> same_on Keyboard out out' -> KeysInv i out -> KeysInv i' out'.
Proof.
  intros Hk Hs [H1 H2 H3]. split; rewrite ?Hk; [done| | ].
  - intros code. rewrite (proj1 (Hs code)). apply H2.
  - intros n. rewrite (proj1 (Hs _)). apply H3.
Qed.

(** The parts of the state, and what an operation on one of them leaves. *)
Definition core (i : Injector) : Permissions * bool * Extents := (in_permissions i, in_floor i, in_extents i).
Definition held_buttons (i : Injector) : list bool * list Device := (in_buttons i, in_pressed_on i).

Record OnKeys (i : Injector) (out : Log) (w : Injector * Log) : Prop := mkOnKeys {
  ok_effects : Forall effect_ok out -> Forall effect_ok w.2;
  ok_inv : KeysInv i out -> KeysInv w.1 w.2;
  ok_core : core w.1 = core i;
  ok_fewer : pm_keyboard (in_permissions i) = true \/ forall n, in_keys w.1 !! n = Some true -> in_keys i !! n = Some true;
  ok_buttons : held_buttons w.1 = held_buttons i /\ in_absolute w.1 = in_absolute i;
  ok_pads : in_pads w.1 = in_pads i;
  ok_devices : forall d, d <> Keyboard -> same_on d out w.2;
  ok_presses : same_press out w.2;
}.

Lemma OnKeys_refl i out : OnKeys i out (i, out).
Proof. split; try done. by right. Qed.

Lemma keyboard_ok code modifiers pressed i out : pm_keyboard (in_permissions i) = true -> OnKeys i out (keyboard code modifiers pressed i out).
Proof.
  intros Hp. unfold keyboard. destruct (try_from U16_MAX code) as [u|]; [|apply OnKeys_refl]. destruct (key_code u) as [key|] eqn:Ek; [|apply OnKeys_refl].
  destruct (in_keys i !! Z.to_nat key) as [held|] eqn:Eh; [|apply OnKeys_refl]. destruct (negb pressed && negb held); [apply OnKeys_refl|]. apply key_code_range in Ek.
  set (i0 := i <| in_keys := _ |>). destruct (lock_sync_spec modifiers key (restart i0)) as (es & Hl & -> & Hd). rewrite key_events_push, <- push_events_app, app_assoc, push_events_app.
  change (restart i0 <| in_num_lock := ?n |> <| in_caps_lock := ?c |>) with (restart (i0 <| in_num_lock := n |> <| in_caps_lock := c |>)).
  set (i1 := i0 <| in_num_lock := _ |> <| in_caps_lock := _ |>). set (l := es ++ _).
  change (push_events [syn] ?j) with (report j). rewrite flush_report by (unfold l, key_event_list; rewrite !length_app; destruct (scan_code u); cbn; unfold SCRATCH; lia).
  assert (Hnew : forall c b, down_ev c b (l ++ [syn]) = if key =? c then pressed else down_ev c b es) by (intros c b; by rewrite down_ev_app, syn_down; unfold l; rewrite down_ev_app, down_key_event_list).
  unfold sent. split; cbn [fst snd].
  - apply sent_ok; [|by intros [=]]. unfold l, key_event_list. rewrite !length_app. destruct (scan_code u); cbn; unfold SCRATCH; lia.
  - intros [H1 H2 H3]. split.
    + change (length (<[Z.to_nat key := pressed]> (in_keys i)) = KEY_SLOTS). by rewrite length_insert.
    + intros c. rewrite down_emit, bool_decide_true, Hnew by done. change (in_keys (restart i1)) with (<[Z.to_nat key := pressed]> (in_keys i)). destruct (Z.eqb_spec key c) as [<-|Hne].
      * intros ->. split; [lia|]. apply list_lookup_insert_eq. by apply lookup_lt_Some in Eh.
      * intros Hc. assert (down Keyboard c out = true) as Hc' by (destruct (Hd c (down Keyboard c out)) as [<-|(_ & _ & E)]; [done|by rewrite E in Hc]).
        apply H2 in Hc' as [? Hk]. split; [done|]. rewrite list_lookup_insert_ne; [done|lia].
    + intros n Hn Hlock. rewrite down_emit, bool_decide_true, Hnew by done. change (in_keys (restart i1)) with (<[Z.to_nat key := pressed]> (in_keys i)) in Hn. destruct (Z.eqb_spec key (Z.of_nat n)) as [->|Hne].
      * rewrite Nat2Z.id, list_lookup_insert_eq in Hn by (rewrite Nat2Z.id in Eh; by apply lookup_lt_Some in Eh). congruence.
      * rewrite list_lookup_insert_ne in Hn by lia. destruct (Hd (Z.of_nat n) (down Keyboard (Z.of_nat n) out)) as [->|(E & _)]; [by apply H3|congruence].
  - done.
  - by left.
  - done.
  - done.
  - intros d Hne. by apply same_on_emit.
  - by apply same_press_emit.
Qed.

(** Releasing keys: what a chunk not yet sent will do is counted already. *)
Record Pending (j : Injector) (log : Log) : Prop := mkPending {
  pn_len : length (in_keys j) = KEY_SLOTS;
  pn_held : forall code, down_ev code (down Keyboard code log) (in_scratch j) = true -> 0 <= code /\ in_keys j !! Z.to_nat code = Some true;
  pn_down : forall n, in_keys j !! n = Some true -> is_lock (Z.of_nat n) = false -> down_ev (Z.of_nat n) (down Keyboard (Z.of_nat n) log) (in_scratch j) = true;
}.

Record Releasing (i : Injector) (out : Log) (j : Injector) (log : Log) : Prop := mkReleasing {
  rl_effects : Forall effect_ok out -> Forall effect_ok log;
  rl_pending : KeysInv i out -> Pending j log;
  rl_frame : core j = core i /\ held_buttons j = held_buttons i /\ in_absolute j = in_absolute i /\ in_pads j = in_pads i;
  rl_devices : forall d, d <> Keyboard -> same_on d out log;
  rl_presses : same_press out log;
  rl_fewer : forall n, in_keys j !! n = Some true -> in_keys i !! n = Some true;
  rl_scratch : (length (in_scratch j) < 63)%nat;
}.

Lemma Pending_release j log n : Pending j log -> (length (in_scratch j) < SCRATCH)%nat ->
  Pending (push EV_KEY (Z.of_nat n) 0 (j <| in_keys := <[n := false]> (in_keys j) |>)) log.
Proof.
  intros [H1 H2 H3] Hl. set (j1 := j <| in_keys := _ |>). change (push EV_KEY (Z.of_nat n) 0 j1) with (push_events [mkEvent EV_KEY (Z.of_nat n) 0] j1).
  rewrite push_events_scratch by (unfold j1; cbn [in_scratch set_field eta eta_Injector length]; lia). set (j2 := j1 <| in_scratch := _ |>).
  change (in_scratch j1) with (in_scratch j) in j2.
  assert (Hd : forall code b, down_ev code b (in_scratch j2) = if Z.of_nat n =? code then false else down_ev code b (in_scratch j)) by (intros code b; unfold j2; cbn [in_scratch set_field eta eta_Injector]; rewrite down_ev_app; unfold down_ev at 1; cbn; by destruct (_ =? _)).
  split; change (in_keys j2) with (<[n := false]> (in_keys j)).
  - by rewrite length_insert.
  - intros code. rewrite Hd. destruct (Z.eqb_spec (Z.of_nat n) code) as [|Hne]; [done|]. intros Hc. destruct (H2 code Hc) as [? Hk]. split; [done|]. rewrite list_lookup_insert_ne; [done|lia].
  - intros m Hm Hlock. rewrite Hd. destruct (decide (n = m)) as [->|Hne].
    + apply list_lookup_insert_Some in Hm as [(_ & ? & _)|[? _]]; [done|congruence].
    + rewrite list_lookup_insert_ne in Hm by done. rewrite (proj2 (Z.eqb_neq _ _)) by lia. by apply H3.
Qed.

Lemma release_key_ok i out j log n : Releasing i out j log ->
  let w := release_key (j, log) n in Releasing i out w.1 w.2 /\ in_keys w.1 !! n <> Some true /\ forall m, in_keys w.1 !! m = Some true -> in_keys j !! m = Some true.
Proof.
  intros [H1 H2 H3 H4 HP H6 H5] w. unfold w, release_key. case_bool_decide as E; cbn [negb]; [|done]. set (j1 := j <| in_keys := _ |>).
  assert (Hp : KeysInv i out -> Pending (push EV_KEY (Z.of_nat n) 0 j1) log) by (intros HI; apply Pending_release; [by apply H2|unfold SCRATCH; lia]).
  change (push EV_KEY (Z.of_nat n) 0 j1) with (push_events [mkEvent EV_KEY (Z.of_nat n) 0] j1) in *.
  rewrite push_events_scratch in * by (unfold j1, SCRATCH; cbn [in_scratch set_field eta eta_Injector length]; lia). set (j2 := j1 <| in_scratch := _ |>) in *.
  assert (Hlen : length (in_scratch j2) = S (length (in_scratch j))) by (unfold j2; cbn [in_scratch set_field eta eta_Injector]; rewrite length_app; cbn; lia).
  assert (Hkeys : in_keys j2 !! n <> Some true /\ forall m, in_keys j2 !! m = Some true -> in_keys j !! m = Some true).
  { change (in_keys j2) with (<[n := false]> (in_keys j)). split; [intros [(_ & ? & _)|[? _]]%list_lookup_insert_Some; done|].
    intros m [(<- & ? & _)|[_ ?]]%list_lookup_insert_Some; done. }
  destruct (SCRATCH <=? length (in_scratch j2) + 1)%nat eqn:Ef; [|split; [split; [done|done|exact H3|done|done|intros m Hm; by apply H6, Hkeys|]|exact Hkeys]; apply Nat.leb_gt in Ef; unfold SCRATCH in Ef; cbn [fst]; lia].
  assert (flush Keyboard (report j2) log = sent Keyboard (in_scratch j2) j2 log) as ->.
  { rewrite <- flush_report by (unfold SCRATCH; lia). by rewrite push_events_scratch by (unfold SCRATCH; cbn [in_scratch restart set_field eta eta_Injector]; cbn [length]; lia). }
  split; [|exact Hkeys]. unfold sent. split; cbn [fst snd].
  - intros Ho. apply sent_ok; [unfold SCRATCH; lia|by intros [=]|by apply H1].
  - intros HI. destruct (Hp HI) as [P1 P2 P3]. split; [done| |].
    + intros code. rewrite down_emit, bool_decide_true, down_ev_app, syn_down by done. apply P2.
    + intros m. rewrite down_emit, bool_decide_true, down_ev_app, syn_down by done. apply P3.
  - exact H3.
  - intros d Hd. eapply same_on_trans; [by apply H4|by apply same_on_emit].
  - eapply same_press_trans; [exact HP|by apply same_press_emit].
  - intros m Hm. by apply H6, Hkeys.
  - cbn. lia.
Qed.

Lemma release_fold_ok i out l w : Releasing i out w.1 w.2 ->
  let w' := fold_left release_key l w in Releasing i out w'.1 w'.2 /\ (forall n, n ∈ l -> in_keys w'.1 !! n <> Some true) /\ forall m, in_keys w'.1 !! m = Some true -> in_keys w.1 !! m = Some true.
Proof.
  revert w. induction l as [|n l IH]; intros w Hw; cbn [fold_left]; [split; [done|split; [by intros n ?%not_elem_of_nil|done]]|].
  destruct w as [j log]. destruct (release_key_ok i out j log n Hw) as (Hw' & Hn & Hm). destruct (IH _ Hw') as (H1 & H2 & H3). split; [done|]. split.
  - intros m [->|Hml]%elem_of_cons; [|by apply H2]. intros Hk. by apply Hn, H3.
  - intros m Hk. by apply Hm, H3.
Qed.

Lemma release_keys_ok i out : OnKeys i out (release_keys i out) /\
  (KeysInv i out -> (forall n, in_keys (release_keys i out).1 !! n <> Some true) /\ forall code, down Keyboard code (release_keys i out).2 = false).
Proof.
  unfold release_keys. assert (H0 : Releasing i out (restart i) out).
  { split; [done| |done|done|done|done|cbn; lia]. intros [H1 H2 H3]. by split. }
  destruct (release_fold_ok i out (seq 0 KEY_SLOTS) (restart i, out) H0) as ([H1 H2 (F1 & F2 & F3 & F4) H4 HP H6 H5] & Hn & _). destruct (fold_left release_key _ _) as [j log] eqn:Ew. cbn [fst snd] in *. clear Ew.
  rewrite flush_rest_spec by (unfold SCRATCH; lia). set (log' := rest Keyboard (in_scratch j) log).
  assert (Hall : KeysInv i out -> forall n, in_keys j !! n <> Some true).
  { intros HI n Hk. apply (Hn n); [|done]. apply elem_of_seq. destruct (H2 HI) as [Hl _ _]. apply lookup_lt_Some in Hk. rewrite Hl in Hk. unfold KEY_SLOTS in *. lia. }
  assert (Hdown : KeysInv i out -> forall code, down Keyboard code log' = false).
  { intros HI code. apply not_true_is_false. unfold log'. rewrite rest_down, bool_decide_true by done. intros Hc. destruct (H2 HI) as [_ Hh _]. apply Hh in Hc as [_ Hc]. by eapply Hall. }
  split; [|intros HI; split; cbn [fst snd]; [by apply Hall|by apply Hdown]]. split; cbn [fst snd].
  - intros Ho. apply rest_ok; [unfold SCRATCH; lia|by intros [=]|by apply H1].
  - intros HI. split.
    + by destruct (H2 HI).
    + intros code Hc. by rewrite Hdown in Hc.
    + intros n Hc. by apply Hall in Hc.
  - exact F1.
  - right. exact H6.
  - split; [exact F2|exact F3].
  - exact F4.
  - intros d Hd. eapply same_on_trans; [by apply H4|by apply rest_same].
  - eapply same_press_trans; [exact HP|]. apply rest_same_press. by left.
Qed.

(** ** The pointers *)

Definition is_pointer (d : Device) : Prop := d = Pointer \/ d = PointerAbsolute.

Definition on_button (i : Injector) (d : Device) (code : Z) (n : nat) : Prop :=
  in_buttons i !! n = Some true /\ in_pressed_on i !! n = Some d /\ button_code (Z.of_nat n + 1) = Some code.

(** A button is held exactly when it is down on the pointer that took its last
    press. *)
Record ButtonsInv (i : Injector) (out : Log) : Prop := mkButtonsInv {
  bi_len : length (in_buttons i) = BUTTONS /\ length (in_pressed_on i) = BUTTONS;
  bi_devices : Forall is_pointer (in_pressed_on i);
  bi_down : forall d code, is_pointer d -> (exists n, on_button i d code n) <-> down d code out = true /\ last_press code out = Some d;
}.

Lemma buttons_frame i i' out out' : held_buttons i' = held_buttons i -> (forall d code, is_pointer d -> down d code out' = down d code out) -> same_press out out' ->
  ButtonsInv i out -> ButtonsInv i' out'.
Proof.
  unfold held_buttons. intros [= Hb Hp] Hs Hl [H1 H2 H3]. split; rewrite ?Hb, ?Hp; [done|done|].
  intros d code Hd. rewrite Hs, Hl by done. unfold on_button. rewrite Hb, Hp. by apply H3.
Qed.

Lemma is_pointer_device d : is_pointer d -> pointer_device d = true.
Proof. by intros [-> | ->]. Qed.

Lemma button_code_inj a b c : button_code a = Some c -> button_code b = Some c -> a = b.
Proof.
  assert (H : forall x, button_code x = Some c -> x = (if c =? BTN_LEFT then 1 else if c =? BTN_MIDDLE then 2 else if c =? BTN_RIGHT then 3 else if c =? BTN_SIDE then 4 else 5)).
  { intros x. unfold button_code.
    repeat match goal with |- (if x =? ?k then _ else _) = _ -> _ => destruct (Z.eqb_spec x k); [intros [= <-]; done|] end. done. }
  intros ->%H Hb%H. done.
Qed.

Record OnPointers (i : Injector) (out : Log) (w : Injector * Log) : Prop := mkOnPointers {
  op_effects : Forall effect_ok out -> Forall effect_ok w.2;
  op_inv : ButtonsInv i out -> ButtonsInv w.1 w.2;
  op_core : core w.1 = core i;
  op_fewer : pointer_allowed i = true \/ forall n, in_buttons w.1 !! n = Some true -> in_buttons i !! n = Some true;
  op_keys : in_keys w.1 = in_keys i;
  op_pads : in_pads w.1 = in_pads i;
  op_devices : forall d, ~ is_pointer d -> same_on d out w.2;
}.

Lemma OnPointers_refl i out : OnPointers i out (i, out).
Proof. split; try done. by right. Qed.

Lemma OnPointers_trans i out w w' : OnPointers i out w -> OnPointers w.1 w.2 w' -> OnPointers i out w'.
Proof.
  intros [A1 A2 A3 A7 A4 A5 A6] [B1 B2 B3 B7 B4 B5 B6]. split; [auto|auto|congruence| |congruence..|].
  - assert (pointer_allowed w.1 = pointer_allowed i) as Hal by (unfold core in A3; injection A3 as Hp Hf _; unfold pointer_allowed; by rewrite Hp, Hf).
    destruct A7 as [?|A7]; [by left|]. rewrite Hal in B7. destruct B7 as [?|B7]; [by left|]. right. intros n Hn. by apply A7, B7.
  - intros d Hd. eapply same_on_trans; [by apply A6|by apply B6].
Qed.

Lemma button_ok b pressed i out : pointer_allowed i = true -> Forall is_pointer (in_pressed_on i) ->
  OnPointers i out (button b pressed i out).
Proof.
  intros Hal Hdev. unfold button. destruct (checked_sub b 1) as [index|] eqn:Eb; [|apply OnPointers_refl]. unfold checked_sub in Eb. destruct (1 <=? b) eqn:E1; [|done]. injection Eb as <-. bool_prop.
  destruct (in_buttons i !! Z.to_nat (b - 1)) as [held|] eqn:Eh; [|apply OnPointers_refl]. destruct (button_code b) as [code|] eqn:Ec; [|apply OnPointers_refl].
  destruct (negb pressed && negb held) eqn:Ep; [apply OnPointers_refl|]. set (n := Z.to_nat (b - 1)) in *. assert (Hn : Z.of_nat n + 1 = b) by (unfold n; lia).
  set (i1 := i <| in_buttons := _ |>). set (d := if pressed then pointer i1 else _). set (i2 := if pressed then _ else i1).
  change (push EV_KEY code (Z.b2z pressed) (restart i2)) with (push_events [mkEvent EV_KEY code (Z.b2z pressed)] (restart i2)). rewrite flush_report by (cbn; unfold SCRATCH; lia).
  assert (Hd : is_pointer d).
  { unfold d. destruct pressed; [unfold pointer; destruct (in_absolute i1); [by right|by left]|]. change (in_pressed_on i1) with (in_pressed_on i).
    destruct (in_pressed_on i !! n) as [d'|] eqn:Ed; [|by left]. eapply list.Forall_lookup_1 in Hdev; [exact Hdev|exact Ed]. }
  assert (Hon : held_buttons i2 = (<[n := pressed]> (in_buttons i), if pressed then <[n := d]> (in_pressed_on i) else in_pressed_on i)) by (unfold i2, d; by destruct pressed).
  assert (Hcore : core i2 = core i /\ in_keys i2 = in_keys i /\ in_pads i2 = in_pads i) by (unfold i2; by destruct pressed).
  unfold sent. split; cbn [fst snd]; try apply Hcore.
  - intros Ho. apply sent_ok; [cbn; unfold SCRATCH; lia| |done]. intros _. constructor; [by intros [=]|constructor].
  - intros [[H1 H2] _ H3]. unfold held_buttons in Hon. injection Hon as Hb Hp. split; change (in_buttons (restart i2)) with (in_buttons i2); change (in_pressed_on (restart i2)) with (in_pressed_on i2); rewrite ?Hb, ?Hp.
    + destruct pressed; by rewrite !length_insert.
    + destruct pressed; [by apply list.Forall_insert|done].
    + intros d' c Hd'. assert (Hl : (n < length (in_buttons i))%nat) by by apply lookup_lt_Some in Eh.
      assert (Hsame : forall m, m <> n -> on_button (restart i2) d' c m <-> on_button i d' c m).
      { intros m Hm. unfold on_button. change (in_buttons (restart i2)) with (in_buttons i2). change (in_pressed_on (restart i2)) with (in_pressed_on i2). rewrite Hb, Hp. rewrite list_lookup_insert_ne by done. destruct pressed; [|done]. by rewrite list_lookup_insert_ne. }
      assert (Hnew : on_button (restart i2) d' c n <-> pressed = true /\ d = d' /\ code = c).
      { unfold on_button. change (in_buttons (restart i2)) with (in_buttons i2). change (in_pressed_on (restart i2)) with (in_pressed_on i2). rewrite Hb, Hp, Hn, Ec, list_lookup_insert_eq by done.
        destruct pressed; [rewrite list_lookup_insert_eq by lia|]; clear; naive_solver. }
      assert (Hold : on_button i d' c n -> code = c) by (intros (_ & _ & Hc0); congruence).
      assert (Hheld : pressed = false -> on_button i d code n).
      { intros ->. cbn in Ep. apply negb_false_iff in Ep. subst held. split; [done|]. split; [|by rewrite Hn].
        assert (Hl' : (n < length (in_pressed_on i))%nat) by lia. apply lookup_lt_is_Some in Hl' as [d0 Hd0].
        unfold d. change (in_pressed_on i1) with (in_pressed_on i). by rewrite Hd0. }
      rewrite down_emit, last_press_emit, down_ev_app, syn_down. unfold down_ev, press_ev, presses. cbn [fold_left existsb app ev_kind ev_code ev_value].
      rewrite (is_pointer_device d Hd), Z.eqb_refl. cbn [andb].
      change ((EV_SYN =? EV_KEY) && _ && _) with false. rewrite orb_false_r.
      destruct (Z.eqb_spec code c) as [<-|Hcc].
      * assert ((exists m, on_button (restart i2) d' code m) <-> (pressed = true /\ d = d')) as ->.
        { split; [|intros [Hp1 Hd1]; exists n; by apply Hnew]. intros [m Hm]. assert (m = n) as ->; [|apply Hnew in Hm; tauto].
          destruct Hm as (_ & _ & Hm). pose proof (button_code_inj _ _ _ Hm Ec). lia. }
        destruct pressed; cbn [negb andb Z.b2z].
        -- change (negb (1 =? 0)) with true. case_bool_decide as Edd; [subst d'; split; [by intros|done]|]. split; [by intros [_ ?]|]. intros [_ [= ?]]. done.
        -- change (negb (0 =? 0)) with false. split; [by intros [? _]|]. destruct (proj1 (H3 d code Hd) ltac:(exists n; by apply Hheld)) as [_ ->].
           intros [Hdn [= <-]]. by rewrite bool_decide_true in Hdn.
      * cbn [andb]. assert ((exists m, on_button (restart i2) d' c m) <-> exists m, on_button i d' c m) as ->.
        { split; intros [m Hm]; (exists m); (destruct (decide (m = n)) as [->|Hne]; [exfalso|by apply Hsame]).
          - apply Hnew in Hm as (_ & _ & Hm). done.
          - by apply Hcc, Hold. }
        rewrite H3 by done. by case_bool_decide.
  - by left.
  - intros d' Hd'. apply same_on_emit. congruence.
Qed.

Lemma clamp_range low high z : low <= high -> low <= clamp low high z <= high.
Proof. intros H. unfold clamp. destruct (z <? low) eqn:E1; [lia|]. destruct (high <? z) eqn:E2; bool_prop; lia. Qed.

Lemma scale_range value extent origin within desktop : 0 <= scale value extent origin within desktop <= ABS_RANGE.
Proof. unfold scale. destruct (_ || _); [by split|]. by apply clamp_range. Qed.

Lemma no_keys_down code b es : Forall (fun e => ev_kind e <> EV_KEY) es -> down_ev code b es = b.
Proof.
  intros He. revert b. induction He as [|e es Hk _ IH]; intros b; [done|]. cbn [down_ev fold_left]. fold (down_ev code (if (ev_kind e =? EV_KEY) && (ev_code e =? code) then negb (ev_value e =? 0) else b) es).
  rewrite IH. by rewrite (proj2 (Z.eqb_neq _ _)).
Qed.

(** Events that press nothing. *)
Definition presses_none (es : list Event) : Prop := Forall (fun e => ev_kind e <> EV_KEY \/ ev_value e = 0) es.

Lemma no_keys_quiet es : Forall (fun e => ev_kind e <> EV_KEY) es -> presses_none es.
Proof. intros H. eapply list.Forall_impl; [exact H|]. by left. Qed.

Lemma syn_quiet es : presses_none es -> presses_none (es ++ [syn]).
Proof. intros H. apply Forall_app. split; [done|]. constructor; [by left|constructor]. Qed.

(** On the pointers nothing goes down, and no button is pressed. *)
Definition pointers_lift (out out' : Log) : Prop := (forall d code, is_pointer d -> down d code out' = true -> down d code out = true) /\ same_press out out'.

Lemma pointers_lift_refl out : pointers_lift out out.
Proof. done. Qed.

Lemma pointers_lift_trans a b c : pointers_lift a b -> pointers_lift b c -> pointers_lift a c.
Proof. intros [A1 A2] [B1 B2]. split; [intros d code Hd Hc; by apply A1, B1|by eapply same_press_trans]. Qed.

Lemma pointers_lift_sent d es i out : presses_none es -> pointers_lift out (sent d es i out).2.
Proof.
  intros He%syn_quiet. split; [|by apply same_press_quiet]. intros d' code _. cbn [snd sent]. rewrite down_emit. case_bool_decide; [|done]. by apply down_lifts.
Qed.

(** Movement: whatever is reported on a pointer without a key among it. *)
Lemma movement_ok d es i i' out : is_pointer d -> (length es < SCRATCH)%nat -> on_axis d es -> Forall (fun e => ev_kind e <> EV_KEY) es ->
  held_buttons i' = held_buttons i -> core i' = core i -> in_keys i' = in_keys i -> in_pads i' = in_pads i ->
  OnPointers i out (sent d es i' out) /\ pointers_lift out (sent d es i' out).2.
Proof.
  intros Hd Hl Ha Hk Hb Hc Hkeys Hp. split; [|by apply pointers_lift_sent, no_keys_quiet]. unfold sent. split; cbn [fst snd]; [by apply sent_ok| |done|right; unfold held_buttons in Hb; injection Hb as Hb _; intros n; change (in_buttons (restart i')) with (in_buttons i'); by rewrite Hb|done..|].
  - apply buttons_frame; [done| |].
    + intros d' code _. rewrite down_emit. case_bool_decide; [|done]. by rewrite down_ev_app, syn_down, no_keys_down.
    + by apply same_press_quiet, syn_quiet, no_keys_quiet.
  - intros d' Hd'. apply same_on_emit. congruence.
Qed.

Lemma pointer_is i : is_pointer (pointer i).
Proof. unfold pointer. destruct (in_absolute i); [by right|by left]. Qed.

Lemma wheel_ok x y i out : OnPointers i out (wheel x y i out) /\ pointers_lift out (wheel x y i out).2.
Proof.
  unfold wheel. destruct ((x =? 0) && (y =? 0)); [split; [apply OnPointers_refl|done]|].
  set (ey := if negb (y =? 0) then [mkEvent EV_REL REL_WHEEL (detents y); mkEvent EV_REL REL_WHEEL_HI_RES y] else []).
  set (ex := if negb (x =? 0) then [mkEvent EV_REL REL_HWHEEL (detents x); mkEvent EV_REL REL_HWHEEL_HI_RES x] else []).
  assert (Hl : (length (ey ++ ex) < SCRATCH)%nat) by (unfold ey, ex; destruct (negb (y =? 0)), (negb (x =? 0)); cbn; unfold SCRATCH; lia).
  assert (Hk : Forall (fun e => ev_kind e = EV_REL) (ey ++ ex)) by (apply Forall_app; unfold ey, ex; destruct (negb (y =? 0)), (negb (x =? 0)); repeat constructor).
  cbv zeta. match goal with |- OnPointers _ _ (flush _ (report ?j) _) /\ _ => assert (j = push_events (ey ++ ex) (restart i)) as -> by (unfold ey, ex; rewrite push_events_app; by destruct (negb (y =? 0)), (negb (x =? 0))) end.
  assert (Hp : pointer (report (push_events (ey ++ ex) (restart i))) = pointer i).
  { rewrite push_events_scratch by (cbn [in_scratch restart set_field eta eta_Injector]; cbn [length]; lia). unfold report, push. by destruct (_ <? _)%nat. }
  rewrite Hp, flush_report by done. apply movement_ok; [apply pointer_is|done| | |done..].
  - intros _. eapply list.Forall_impl; [exact Hk|]. intros e -> [=].
  - eapply list.Forall_impl; [exact Hk|]. by intros e ->.
Qed.

Lemma move_by_ok x y i i' out : held_buttons i' = held_buttons i -> core i' = core i -> in_keys i' = in_keys i -> in_pads i' = in_pads i ->
  OnPointers i out (move_by x y i' out) /\ pointers_lift out (move_by x y i' out).2.
Proof.
  intros. unfold move_by. change (push EV_REL REL_Y y (push EV_REL REL_X x (restart i'))) with (push_events [mkEvent EV_REL REL_X x; mkEvent EV_REL REL_Y y] (restart i')).
  rewrite flush_report by (cbn; unfold SCRATCH; lia). apply movement_ok; [by left|cbn; unfold SCRATCH; lia|by intros [=]|by repeat constructor|done..].
Qed.

Lemma motion_ok relative x y i out : OnPointers i out (motion relative x y i out) /\ pointers_lift out (motion relative x y i out).2.
Proof.
  unfold motion. destruct relative; [by apply move_by_ok|]. destruct (in_hidden i).
  - destruct (in_last_abs i) as [[px py]|]; [by apply move_by_ok|]. split; [|done]. split; cbn [fst snd]; try done; [by apply buttons_frame|by right].
  - set (j := i <| in_last_abs := None |> <| in_absolute := true |> <| in_commanded := Some (x, y) |>). cbv zeta.
    match goal with |- OnPointers i out (flush _ (report (push _ _ ?b (push _ _ ?a _))) _) /\ _ =>
      change (flush PointerAbsolute (report (push EV_ABS ABS_Y b (push EV_ABS ABS_X a (restart j)))) out) with (flush PointerAbsolute (report (push_events [mkEvent EV_ABS ABS_X a; mkEvent EV_ABS ABS_Y b] (restart j))) out) end.
    rewrite flush_report by (cbn; unfold SCRATCH; lia). apply movement_ok; [by right|cbn; unfold SCRATCH; lia| |by repeat constructor|done..].
    intros _. constructor; [intros _; apply scale_range|constructor; [intros _; apply scale_range|constructor]].
Qed.

(** Nothing goes down, and no button is pressed. *)
Definition lifts (out out' : Log) : Prop := (forall d code, down d code out' = true -> down d code out = true) /\ same_press out out'.

Lemma lifts_trans a b c : lifts a b -> lifts b c -> lifts a c.
Proof. intros [A1 A2] [B1 B2]. split; [intros d code Hd; by apply A1, B1|by eapply same_press_trans]. Qed.

(** Releasing the buttons of one device. *)
Record Unpressing (d : Device) (i : Injector) (out : Log) (j : Injector) : Prop := mkUnpressing {
  un_frame : core j = core i /\ in_keys j = in_keys i /\ in_pads j = in_pads i /\ in_pressed_on j = in_pressed_on i /\ length (in_buttons j) = length (in_buttons i);
  un_down : ButtonsInv i out -> forall code, (exists n, on_button j d code n) <-> down_ev code (down d code out) (in_scratch j) = true /\ last_press code out = Some d;
  un_other : forall n, in_buttons j !! n = Some true -> in_buttons i !! n = Some true;
  un_kept : forall n, in_pressed_on i !! n <> Some d -> in_buttons j !! n = in_buttons i !! n;
  un_keys : Forall (fun e => ev_kind e = EV_KEY /\ ev_value e = 0) (in_scratch j);
}.

Lemma release_button_ok d i out j n : is_pointer d -> Unpressing d i out j -> (length (in_scratch j) < SCRATCH)%nat ->
  let j' := release_button d j n in Unpressing d i out j' /\ (length (in_scratch j') <= S (length (in_scratch j)))%nat /\
    (forall m, in_buttons j' !! m = Some true -> in_buttons j !! m = Some true) /\ ~ (in_buttons j' !! n = Some true /\ in_pressed_on i !! n = Some d).
Proof.
  intros Hd HU Hl. pose proof HU as [(F1 & F2 & F3 & F4 & F5) H2 H3 H4 H5]. intros j'. unfold j', release_button.
  case_bool_decide as Eb; cbn [negb]; [|split; [done|]; split; [lia|]; split; [done|]; by intros []].
  case_bool_decide as Ep; cbn [negb]; [|split; [done|]; split; [lia|]; split; [done|]; rewrite <- F4; by intros []]. set (j1 := j <| in_buttons := _ |>).
  assert (Hb : forall m, in_buttons j1 !! m = Some true -> m <> n /\ in_buttons j !! m = Some true).
  { intros m Hm. change (in_buttons j1) with (<[n := false]> (in_buttons j)) in Hm. apply list_lookup_insert_Some in Hm as [(_ & ? & _)|[? ?]]; [done|]. split; [by apply not_eq_sym|done]. }
  set (es := match button_code (Z.of_nat n + 1) with Some code => [mkEvent EV_KEY code 0] | None => [] end).
  assert ((match button_code (Z.of_nat n + 1) with Some code => push EV_KEY code 0 j1 | None => j1 end) = push_events es j1) as -> by (unfold es; by destruct (button_code _)).
  assert (Hes : (length es <= 1)%nat) by (unfold es; destruct (button_code _); cbn; lia).
  rewrite push_events_scratch by (change (in_scratch j1) with (in_scratch j); lia). change (in_scratch j1) with (in_scratch j). set (j2 := j1 <| in_scratch := in_scratch j ++ es |>).
  change (in_buttons j2) with (in_buttons j1). change (in_scratch j2) with (in_scratch j ++ es).
  split; [|split; [rewrite length_app; lia|split; [intros m Hm; by apply Hb|intros [Hm _]; by apply Hb in Hm as [? _]]]]. split.
  - split; [exact F1|]. split; [exact F2|]. split; [exact F3|]. split; [exact F4|]. change (in_buttons j2) with (<[n := false]> (in_buttons j)). by rewrite length_insert.
  - intros HI code. change (in_scratch j2) with (in_scratch j ++ es). rewrite down_ev_app.
    assert ((exists m, on_button j2 d code m) <-> (button_code (Z.of_nat n + 1) <> Some code /\ exists m, on_button j d code m)) as ->.
    { unfold on_button. change (in_pressed_on j2) with (in_pressed_on j). change (in_buttons j2) with (in_buttons j1). split.
      - intros [m (Hm & Hp & Hc)]. destruct (Hb m Hm) as [Hne Hm']. split; [|by exists m]. intros Hc'. apply Hne. pose proof (button_code_inj _ _ _ Hc Hc'). lia.
      - intros [Hne [m (Hm & Hp & Hc)]]. exists m. split; [|done]. change (in_buttons j1) with (<[n := false]> (in_buttons j)). rewrite list_lookup_insert_ne; [done|]. intros ->. by rewrite Hc in Hne. }
    rewrite H2 by done. unfold es. destruct (button_code _) as [c|]; [|cbn; naive_solver]. unfold down_ev at 2. cbn [fold_left ev_kind ev_code ev_value]. rewrite Z.eqb_refl. cbn [andb].
    destruct (Z.eqb_spec c code) as [->|Hne]; cbn; [split; [by intros [? _]|by intros [? _]]|]. split; [by intros [_ ?]|intros ?; split; [congruence|done]].
  - intros m Hm. by apply H3, Hb.
  - intros m Hm. change (in_buttons j2) with (<[n := false]> (in_buttons j)). rewrite list_lookup_insert_ne; [by apply H4|]. intros ->. apply Hm. by rewrite <- F4.
  - change (in_scratch j2) with (in_scratch j ++ es). apply Forall_app. split; [done|]. unfold es. destruct (button_code _); by repeat constructor.
Qed.

Lemma release_button_fold d i out l j : is_pointer d -> Unpressing d i out j -> (length (in_scratch j) + length l < SCRATCH)%nat ->
  let j' := fold_left (release_button d) l j in Unpressing d i out j' /\ (length (in_scratch j') < SCRATCH)%nat /\
    (forall m, in_buttons j' !! m = Some true -> in_buttons j !! m = Some true) /\ (forall n, n ∈ l -> ~ (in_buttons j' !! n = Some true /\ in_pressed_on i !! n = Some d)).
Proof.
  intros Hd. revert j. induction l as [|n l IH]; intros j HU Hl; cbn [fold_left]; cbn [length] in Hl.
  { split; [done|]. split; [lia|]. split; [done|]. by intros n ?%not_elem_of_nil. }
  destruct (release_button_ok d i out j n Hd HU) as (HU' & Hl' & Hm & Hn); [lia|]. destruct (IH _ HU') as (H1 & H2 & H3 & H4); [lia|].
  split; [done|]. split; [done|]. split; [intros m ?; by apply Hm, H3|]. intros m [->|Hml]%elem_of_cons; [|by apply H4]. intros [Hk Hp]. apply Hn. split; [by apply H3|done].
Qed.

Lemma release_on_ok d i out : is_pointer d -> OnPointers i out (release_on d i out) /\
  (ButtonsInv i out -> forall n, in_buttons (release_on d i out).1 !! n = Some true -> in_buttons i !! n = Some true /\ in_pressed_on i !! n <> Some d) /\
  in_pressed_on (release_on d i out).1 = in_pressed_on i /\ lifts out (release_on d i out).2.
Proof.
  intros Hd. unfold release_on. assert (H0 : Unpressing d i out (restart i)).
  { split; [done| |done|done|constructor]. intros [_ _ H] code. exact (H d code Hd). }
  destruct (release_button_fold d i out (seq 0 BUTTONS) (restart i) Hd H0) as (HU & Hl & _ & Hn).
  { rewrite length_seq. change (length (in_scratch (restart i))) with 0%nat. unfold BUTTONS, SCRATCH. lia. }
  revert HU Hl Hn. generalize (fold_left (release_button d) (seq 0 BUTTONS) (restart i)). intros j [(F1 & F2 & F3 & F4 & F5) U2 U3 U4 U5] Hl Hn. rewrite flush_rest_spec by exact Hl. cbn [fst snd].
  assert (Hgone : ButtonsInv i out -> forall n, in_buttons j !! n = Some true -> in_buttons i !! n = Some true /\ in_pressed_on i !! n <> Some d).
  { intros [[Hlen _] _ _] n Hk. split; [by apply U3|]. intros Hp. apply (Hn n); [|done]. apply elem_of_seq. apply lookup_lt_Some in Hk. rewrite F5, Hlen in Hk. unfold BUTTONS in *. lia. }
  assert (Hq : presses_none (in_scratch j)) by (eapply list.Forall_impl; [exact U5|]; intros e [_ ?]; by right).
  split; [|split; [exact Hgone|split; [exact F4|]]].
  2: { split; [intros d' code; by apply rest_lifts|]. apply rest_same_press. by right. }
  split; cbn [fst snd]; [| |done|right; exact U3|done..|].
  - apply rest_ok; [exact Hl|]. intros _. eapply list.Forall_impl; [exact U5|]. by intros e [-> _].
  - intros HI. pose proof HI as [[H1 H2] H3 H4]. split; change (in_buttons (restart j)) with (in_buttons j); change (in_pressed_on (restart j)) with (in_pressed_on j); rewrite ?F4, ?F5; [done|done|].
    + intros d' code Hd'. rewrite rest_down, (rest_same_press d (in_scratch j) out (or_intror Hq) code). case_bool_decide as E; [subst d'; by apply U2|]. rewrite <- H4 by done. unfold on_button. change (in_buttons (restart j)) with (in_buttons j). change (in_pressed_on (restart j)) with (in_pressed_on j).
      rewrite F4. split; intros [n (Hb & Hp & Hc)]; exists n; (split; [|done]); [by apply U3|rewrite U4; [done|congruence]].
  - intros d' Hd'. apply rest_same. congruence.
Qed.

Lemma release_buttons_ok i out : OnPointers i out (release_buttons i out) /\
  (ButtonsInv i out -> forall n, in_buttons (release_buttons i out).1 !! n <> Some true) /\ lifts out (release_buttons i out).2.
Proof.
  unfold release_buttons. destruct (release_on_ok PointerAbsolute i out) as (H1 & G1 & P1 & L1); [by right|]. destruct (release_on PointerAbsolute i out) as [i1 o1]. cbn [fst snd] in *.
  destruct (release_on_ok Pointer i1 o1) as (H2 & G2 & P2 & L2); [by left|]. split; [by apply (OnPointers_trans i out (i1, o1))|]. split; [|by eapply lifts_trans].
  intros HI n Hk. destruct (G2 (op_inv _ _ _ H1 HI) n Hk) as [Hk1 Hp1]. destruct (G1 HI n Hk1) as [Hk0 Hp]. rewrite P1 in Hp1.
  destruct HI as [[Hl Hl'] Hdev _]. apply lookup_lt_Some in Hk0. rewrite Hl, <- Hl' in Hk0. apply lookup_lt_is_Some in Hk0 as [d Hk0].
  destruct (list.Forall_lookup_1 _ _ _ _ Hdev Hk0) as [->| ->]; congruence.
Qed.

(** ** Pads *)

(** Whether a kernel button is down when a pad holds the bits [b]. *)
Definition key_held (b code : Z) : bool :=
  match find (fun bit => bool_decide (key_for_bit bit = Some code)) KEYED_BITS with Some bit => has b bit | None => false end.

Definition sticks : list Z := [Axis.X; Axis.Y; Axis.RX; Axis.RY; Axis.Z_; Axis.RZ].

Record Holding (id b : Z) (out : Log) : Prop := mkHolding {
  ho_down : forall code, down (Gamepad id) code out = key_held b code;
  ho_hats : axis_at (Gamepad id) Axis.HAT0X out = hat_x b /\ axis_at (Gamepad id) Axis.HAT0Y out = hat_y b;
  ho_none : forall code, code ∉ sticks -> code <> Axis.HAT0X -> code <> Axis.HAT0Y -> axis_at (Gamepad id) code out = 0;
}.

Definition Clear (id : Z) (out : Log) : Prop := forall code, down (Gamepad id) code out = false /\ axis_at (Gamepad id) code out = 0.

Definition absent (id : Z) (pads : list (option Pad)) : Prop := forall n p, pads !! n = Some (Some p) -> pd_id p <> id.

Record PadsInv (i : Injector) (out : Log) : Prop := mkPadsInv {
  pi_len : length (in_pads i) = MAX_PADS;
  pi_distinct : forall n m p q, in_pads i !! n = Some (Some p) -> in_pads i !! m = Some (Some q) -> pd_id p = pd_id q -> n = m;
  pi_held : forall n p, in_pads i !! n = Some (Some p) -> Holding (pd_id p) (pd_buttons p) out;
  pi_absent : forall id, absent id (in_pads i) -> Clear id out;
}.

Lemma Holding_same id b out out' : same_on (Gamepad id) out out' -> Holding id b out -> Holding id b out'.
Proof.
  intros Hs [H1 [H2 H3] H4]. split; [intros code; rewrite (proj1 (Hs code)); apply H1| |].
  - by rewrite !(fun c => proj2 (Hs c)).
  - intros code. rewrite (proj2 (Hs code)). apply H4.
Qed.

Lemma Clear_same id out out' : same_on (Gamepad id) out out' -> Clear id out -> Clear id out'.
Proof. intros Hs Hc code. destruct (Hs code) as [-> ->]. apply Hc. Qed.

Lemma key_held_zero code : key_held 0 code = false.
Proof. unfold key_held. destruct (find _ _); [apply has_zero|done]. Qed.

Lemma Clear_holding id out : Clear id out -> Holding id 0 out.
Proof. intros H. split; [intros code; rewrite key_held_zero; apply H|split; apply H|intros code _ _ _; apply H]. Qed.

Lemma pads_frame i i' out out' : in_pads i' = in_pads i -> (forall id, same_on (Gamepad id) out out') -> PadsInv i out -> PadsInv i' out'.
Proof.
  intros Hp Hs [H1 H2 H3 H4]. split; rewrite ?Hp; [done|done| |].
  - intros n p Hn. eapply Holding_same; [apply Hs|by eapply H3].
  - intros id Hid. eapply Clear_same; [apply Hs|by apply H4].
Qed.

(** The events of a button change. *)
Definition keyed_event (changed after bit : Z) : option Event :=
  if Z.land changed bit =? 0 then None else match key_for_bit bit with Some code => Some (mkEvent EV_KEY code (Z.b2z (has after bit))) | None => None end.

Lemma keyed_fold changed after l i : fold_left (keyed changed after) l i = push_events (omap (keyed_event changed after) l) i.
Proof.
  revert i. induction l as [|bit l IH]; intros i; [done|]. cbn [fold_left omap list_omap]. rewrite IH. unfold keyed, keyed_event. destruct (Z.land changed bit =? 0); [done|]. by destruct (key_for_bit bit).
Qed.

Lemma keyed_down_other changed after l code b : Forall (fun bit => key_for_bit bit <> Some code) l -> down_ev code b (omap (keyed_event changed after) l) = b.
Proof.
  intros Hl. revert b. induction Hl as [|bit l Hb _ IH]; intros b; [done|]. cbn [omap list_omap]. unfold keyed_event at 1. destruct (Z.land changed bit =? 0); [apply IH|].
  destruct (key_for_bit bit) as [c|]; [|apply IH]. cbn [down_ev fold_left ev_kind ev_code ev_value]. rewrite Z.eqb_refl, (proj2 (Z.eqb_neq _ _)) by congruence. cbn [andb]. apply IH.
Qed.

Lemma keyed_event_has changed after bit :
  keyed_event changed after bit = if has changed bit then match key_for_bit bit with Some code => Some (mkEvent EV_KEY code (Z.b2z (has after bit))) | None => None end else None.
Proof. unfold keyed_event, has at 2. by destruct (Z.land changed bit =? 0). Qed.

Lemma keyed_down before after l code : NoDup (key_for_bit <$> l) -> Forall single l ->
  let held b := match find (fun bit => bool_decide (key_for_bit bit = Some code)) l with Some bit => has b bit | None => false end in
  down_ev code (held before) (omap (keyed_event (Z.lxor before after) after) l) = held after.
Proof.
  induction l as [|bit l IH]; intros Hnd Hs held; [done|]. unfold held in *. cbn [fmap list_fmap] in Hnd. apply list.NoDup_cons in Hnd as [Hni Hnd]. apply list.Forall_cons in Hs as [Hb Hs].
  cbn [find omap list_omap]. rewrite keyed_event_has, has_lxor by done. case_bool_decide as Ec.
  - assert (Hl : Forall (fun bit => key_for_bit bit <> Some code) l) by (apply list.Forall_forall; intros x Hx Hc; apply Hni; rewrite Ec, <- Hc; by apply list_elem_of_fmap_2).
    rewrite Ec. destruct (xorb (has before bit) (has after bit)) eqn:Ex.
    + cbn [down_ev fold_left ev_kind ev_code ev_value]. rewrite !Z.eqb_refl. cbn [andb]. pose proof (keyed_down_other (Z.lxor before after) after l code) as H. unfold down_ev in H. rewrite H by done. by destruct (has after bit).
    + rewrite keyed_down_other by done. by destruct (has before bit), (has after bit).
  - specialize (IH Hnd Hs). destruct (xorb _ _); [|exact IH]. destruct (key_for_bit bit) as [c|] eqn:Ek; [|exact IH].
    cbn [down_ev fold_left ev_kind ev_code ev_value]. rewrite (proj2 (Z.eqb_neq c code)) by congruence. rewrite andb_false_r. exact IH.
Qed.

Lemma keyed_abs changed after l code v : axis_ev code v (omap (keyed_event changed after) l) = v.
Proof.
  revert v. induction l as [|bit l IH]; intros v; [done|]. cbn [omap list_omap]. rewrite keyed_event_has. destruct (has changed bit); [|apply IH]. destruct (key_for_bit bit); [|apply IH].
  cbn [axis_ev fold_left ev_kind]. apply IH.
Qed.

Lemma keyed_length changed after l : (length (omap (keyed_event changed after) l) <= length l)%nat.
Proof. induction l as [|bit l IH]; [done|]. cbn [omap list_omap]. destruct (keyed_event changed after bit); cbn [length]; lia. Qed.

Lemma keyed_codes : NoDup (key_for_bit <$> KEYED_BITS).
Proof. apply (bool_decide_unpack _). by vm_compute. Qed.

Lemma has_lor x a b : has x (Z.lor a b) = has x a || has x b.
Proof.
  unfold has. rewrite Z.land_lor_distr_r. destruct (Z.eqb_spec (Z.land x a) 0) as [->|Ha]; [by rewrite Z.lor_0_l|]. cbn. rewrite (proj2 (Z.eqb_neq _ _)); [done|].
  intros H. apply Z.lor_eq_0_iff in H as [? _]. done.
Qed.

Lemma hats_still before after : has (Z.lxor before after) HAT = false -> hat_x after = hat_x before /\ hat_y after = hat_y before.
Proof.
  assert (Hs : single Bit.DPAD_UP /\ single Bit.DPAD_DOWN /\ single Bit.DPAD_LEFT /\ single Bit.DPAD_RIGHT) by (split_and!; [exists 0|exists 1|exists 2|exists 3]; by split).
  destruct Hs as (S1 & S2 & S3 & S4). unfold HAT. rewrite !has_lor, !has_lxor by done. unfold hat_x, hat_y, axis_of. intros H.
  repeat match goal with H : _ || _ = false |- _ => apply orb_false_iff in H; destruct H end. repeat match goal with H : xorb _ _ = false |- _ => apply xorb_eq in H end.
  repeat match goal with H : has before _ = has after _ |- _ => rewrite H; clear H end. by split.
Qed.

Definition hat_events (changed after : Z) : list Event :=
  if has changed HAT then [mkEvent EV_ABS Axis.HAT0X (hat_x after); mkEvent EV_ABS Axis.HAT0Y (hat_y after)] else [].

Lemma buttons_changed_spec id before after i out :
  buttons_changed id before after i out = (i, out) /\ before = after \/
  exists es, buttons_changed id before after i out = (restart i, rest (Gamepad id) es out) /\ es = omap (keyed_event (Z.lxor before after) after) KEYED_BITS ++ hat_events (Z.lxor before after) after.
Proof.
  unfold buttons_changed. destruct (Z.eqb_spec (Z.lxor before after) 0) as [E|E]; [left; split; [done|by apply Z.lxor_eq]|]. right. set (changed := Z.lxor before after) in *.
  set (es := omap (keyed_event changed after) KEYED_BITS ++ hat_events changed after). exists es. split; [|done].
  rewrite keyed_fold. assert (Hes : (length es < 14)%nat) by (unfold es, hat_events; rewrite length_app; pose proof (keyed_length changed after KEYED_BITS) as Hk; cbn [length KEYED_BITS] in Hk; destruct (has changed HAT); cbn [length]; lia).
  match goal with |- flush_rest _ (?j, _) = _ => assert (j = push_events es (restart i)) as -> by (unfold es, hat_events; rewrite push_events_app; by destruct (has changed HAT)) end.
  rewrite push_events_scratch by (change (in_scratch (restart i)) with (@nil Event); unfold SCRATCH; cbn [length]; lia). rewrite flush_rest_spec; [done|].
  change (length es < SCRATCH)%nat. unfold SCRATCH. lia.
Qed.

Lemma hat_down changed after code b : down_ev code b (hat_events changed after) = b.
Proof. apply no_keys_down. unfold hat_events. destruct (has changed HAT); by repeat constructor. Qed.

Lemma keyed_hats before after v : let es := omap (keyed_event (Z.lxor before after) after) KEYED_BITS ++ hat_events (Z.lxor before after) after in
  axis_ev Axis.HAT0X (hat_x before) es = hat_x after /\ axis_ev Axis.HAT0Y (hat_y before) es = hat_y after /\
  forall code, code <> Axis.HAT0X -> code <> Axis.HAT0Y -> axis_ev code v es = v.
Proof.
  intros es. unfold es. rewrite !axis_ev_app, !keyed_abs. unfold hat_events. destruct (has (Z.lxor before after) HAT) eqn:Eh.
  - split; [done|]. split; [done|]. intros code Hx Hy. rewrite axis_ev_app, keyed_abs. cbn [axis_ev fold_left ev_kind ev_code ev_value]. by rewrite (proj2 (Z.eqb_neq Axis.HAT0X code)), (proj2 (Z.eqb_neq Axis.HAT0Y code)), !andb_false_r by congruence.
  - apply hats_still in Eh as [-> ->]. split; [done|]. split; [done|]. intros code _ _. by rewrite app_nil_r, keyed_abs.
Qed.

Lemma buttons_changed_ok id before after i out : let w := buttons_changed id before after i out in
  (Forall effect_ok out -> Forall effect_ok w.2) /\ (Holding id before out -> Holding id after w.2) /\ (forall d, d <> Gamepad id -> same_on d out w.2) /\ restart w.1 = restart i /\
  (forall code, code ∈ sticks -> axis_at (Gamepad id) code w.2 = axis_at (Gamepad id) code out) /\ same_press out w.2.
Proof.
  intros w. unfold w. destruct (buttons_changed_spec id before after i out) as [[-> <-]|(es & -> & ->)]; [by split_and!|]. cbn [fst snd]. set (es := _ ++ _).
  assert (Hl : (length es < SCRATCH)%nat) by (unfold es, hat_events, SCRATCH; rewrite length_app; pose proof (keyed_length (Z.lxor before after) after KEYED_BITS) as Hk; cbn [length KEYED_BITS] in Hk; destruct (has _ HAT); cbn [length]; lia).
  split; [|split; [|split; [|split; [|split]]]].
  - apply rest_ok; [exact Hl|by intros [=]].
  - intros [H1 [H2 H3] H4]. split.
    + intros code. rewrite rest_down, bool_decide_true, H1 by done. unfold es. rewrite down_ev_app, hat_down. apply keyed_down; [exact keyed_codes|exact keyed_single].
    + rewrite !rest_axis, bool_decide_true, H2, H3 by done. split; by apply (keyed_hats before after 0).
    + intros code Hs Hx Hy. rewrite rest_axis, bool_decide_true, H4 by done. by apply (keyed_hats before after 0).
  - intros d Hd. apply rest_same. congruence.
  - done.
  - intros code Hc. rewrite rest_axis, bool_decide_true by done. apply keyed_hats; intros ->; revert Hc; unfold sticks; rewrite !elem_of_cons, elem_of_nil; intros Hc; vm_compute in Hc; naive_solver.
  - apply rest_same_press. by left.
Qed.

(** Stick and trigger positions move nothing else. *)
Lemma stick_events_hold id b es out : Forall (fun e => ev_kind e = EV_ABS /\ ev_code e ∈ sticks) es -> Holding id b out -> Holding id b (out ++ [Emit (Gamepad id) (es ++ [syn])]).
Proof.
  intros He [H1 [H2 H3] H4]. assert (Ha : forall code v, code ∉ sticks -> axis_ev code v es = v).
  { intros code v Hc. revert v. induction He as [|e es [Hk Hs] _ IH]; intros v; [done|]. cbn [axis_ev fold_left]. rewrite Hk, Z.eqb_refl, (proj2 (Z.eqb_neq _ _)) by congruence. cbn [andb]. apply IH. }
  assert (Hn : forall code, code = Axis.HAT0X \/ code = Axis.HAT0Y -> code ∉ sticks) by (intros code Hc Hin; unfold sticks in Hin; rewrite !elem_of_cons, elem_of_nil in Hin; destruct Hc as [-> | ->]; vm_compute in Hin; naive_solver).
  split.
  - intros code. assert (Hk : Forall (fun e => ev_kind e <> EV_KEY) es) by (eapply list.Forall_impl; [exact He|]; by intros e [-> _]).
    rewrite down_emit, bool_decide_true, down_ev_app, syn_down, no_keys_down by done. apply H1.
  - rewrite !axis_emit, !bool_decide_true, !axis_ev_app, !syn_axis by done. rewrite !Ha by auto. done.
  - intros code Hc Hx Hy. rewrite axis_emit, bool_decide_true, axis_ev_app, syn_axis, Ha by done. by apply H4.
Qed.

Record OnPads (i : Injector) (out : Log) (w : Injector * Log) : Prop := mkOnPads {
  od_effects : Forall effect_ok out -> Forall effect_ok w.2;
  od_inv : PadsInv i out -> PadsInv w.1 w.2;
  od_core : core w.1 = core i;
  od_keys : in_keys w.1 = in_keys i;
  od_buttons : held_buttons w.1 = held_buttons i;
  od_devices : forall d, (forall id, d <> Gamepad id) -> same_on d out w.2;
  od_presses : same_press out w.2;
}.

Lemma OnPads_refl i out : OnPads i out (i, out).
Proof. by split. Qed.

Lemma OnPads_trans i out w w' : OnPads i out w -> OnPads w.1 w.2 w' -> OnPads i out w'.
Proof.
  intros [A1 A2 A3 A4 A5 A6 A7] [B1 B2 B3 B4 B5 B6 B7]. split; [auto|auto|congruence..| |by eapply same_press_trans].
  intros d Hd. eapply same_on_trans; [by apply A6|by apply B6].
Qed.

Lemma index_of_Some {A} (f : A -> bool) l n : index_of f l = Some n -> exists x, l !! n = Some x /\ f x = true.
Proof.
  revert n. induction l as [|x l IH]; intros n; [done|]. cbn [index_of]. destruct (f x) eqn:E; [intros [= <-]; by exists x|].
  destruct (index_of f l) as [m|]; [|done]. cbn. intros [= <-]. by apply IH.
Qed.

Lemma index_of_None {A} (f : A -> bool) l n x : index_of f l = None -> l !! n = Some x -> f x = false.
Proof.
  revert n. induction l as [|y l IH]; intros n; [done|]. cbn [index_of]. destruct (f y) eqn:E; [done|]. destruct (index_of f l); [done|]. intros _.
  destruct n as [|n]; [by intros [= <-]|]. by apply IH.
Qed.

Lemma is_pad_Some id o : is_pad id o = true -> exists p, o = Some p /\ pd_id p = id.
Proof. destruct o as [p|]; [|done]. intros H%Z.eqb_eq. by exists p. Qed.

Lemma not_pad id pads : index_of (is_pad id) pads = None -> absent id pads.
Proof. intros H n p Hn Hid. pose proof (index_of_None _ _ _ _ H Hn) as Hf. cbn in Hf. by bool_prop. Qed.

(** Taking a free slot emits nothing and shows nothing. *)
Lemma pad_ok id i out : exists i' r, pad id i = (i', r) /\ OnPads i out (i', out) /\ forall n, r = Some n -> exists p, pad_at i' n = Some p /\ in_pads i' !! n = Some (Some p) /\ pd_id p = id.
Proof.
  unfold pad. destruct (index_of (is_pad id) (in_pads i)) as [n|] eqn:E1.
  - eexists _, _. split; [done|]. split; [apply OnPads_refl|]. intros m [= <-]. apply index_of_Some in E1 as (o & Ho & (p & -> & Hp)%is_pad_Some). exists p. unfold pad_at. by rewrite Ho.
  - apply not_pad in E1. destruct (index_of is_free (in_pads i)) as [n|] eqn:E2; [|eexists _, _; split; [done|]; split; [apply OnPads_refl|done]].
    apply index_of_Some in E2 as (o & Ho & Hfree). destruct o; [done|]. clear Hfree. assert (Hl : (n < length (in_pads i))%nat) by by apply lookup_lt_Some in Ho.
    eexists _, _. split; [done|]. split.
    + split; try done. cbn [fst snd]. intros [H1 H2 H3 H4]. split; change (in_pads (set_pad i n ?o)) with (<[n := o]> (in_pads i)).
      * by rewrite length_insert.
      * intros a b p q Ha Hb Hpq. apply list_lookup_insert_Some in Ha as [(<- & [= <-] & _)|[Hna Ha]]; apply list_lookup_insert_Some in Hb as [(<- & [= <-] & _)|[Hnb Hb]]; [done| | |by eapply H2]; cbn in Hpq.
        -- by destruct (E1 b q Hb).
        -- by destruct (E1 a p Ha).
      * intros a p Ha. apply list_lookup_insert_Some in Ha as [(<- & [= <-] & _)|[Hna Ha]]; [by apply Clear_holding, H4|by eapply H3].
      * intros id' Hid'. apply H4. intros a p Ha. apply (Hid' a). rewrite list_lookup_insert_ne; [done|]. intros <-. congruence.
    + intros m [= <-]. exists (mkPad id 0). unfold pad_at. change (in_pads (set_pad i n ?o)) with (<[n := o]> (in_pads i)). rewrite list_lookup_insert_eq by done. done.
Qed.

(** A pad's buttons change, its slot and the device together. *)
Lemma change_pad_ok i out n p b out' i' : in_pads i !! n = Some (Some p) -> restart i' = restart (set_pad i n (Some (p <| pd_buttons := b |>))) ->
  (Forall effect_ok out -> Forall effect_ok out') -> (Holding (pd_id p) (pd_buttons p) out -> Holding (pd_id p) b out') -> (forall d, d <> Gamepad (pd_id p) -> same_on d out out') -> same_press out out' ->
  OnPads i out (i', out').
Proof.
  intros Hn Hr He Hh Hs Hsp. assert (Hpads : in_pads i' = <[n := Some (p <| pd_buttons := b |>)]> (in_pads i)) by (change (in_pads i') with (in_pads (restart i')); by rewrite Hr).
  assert (Hf : core i' = core i /\ in_keys i' = in_keys i /\ held_buttons i' = held_buttons i).
  { change (core i' ) with (core (restart i')). change (in_keys i') with (in_keys (restart i')). change (held_buttons i') with (held_buttons (restart i')). by rewrite Hr. }
  destruct Hf as (F1 & F2 & F3). assert (Hl : (n < length (in_pads i))%nat) by by apply lookup_lt_Some in Hn.
  split; cbn [fst snd]; [done| |done..|intros d Hd; by apply Hs|done].
  intros [H1 H2 H3 H4]. split; rewrite Hpads.
  - by rewrite length_insert.
  - intros a c q q' Ha Hc Hq. apply list_lookup_insert_Some in Ha as [(<- & [= <-] & _)|[Hna Ha]]; apply list_lookup_insert_Some in Hc as [(<- & [= <-] & _)|[Hnc Hc]]; cbn in Hq; [done|by eapply H2|by eapply H2|by eapply H2].
  - intros a q Ha. apply list_lookup_insert_Some in Ha as [(<- & [= <-] & _)|[Hna Ha]]; cbn [pd_id pd_buttons set_field eta eta_Pad]; [by eapply Hh, H3|].
    eapply Holding_same; [|by eapply H3]. apply Hs. intros [= Hq]. apply Hna. by eapply H2.
  - intros id Hid. assert (Habs : absent id (in_pads i)).
    { intros a q Ha Hq. destruct (decide (n = a)) as [<-|Hne].
      - rewrite Hn in Ha. injection Ha as <-. apply (Hid n (p <| pd_buttons := b |>)); [by apply list_lookup_insert_eq|done].
      - apply (Hid a q); [|done]. by rewrite list_lookup_insert_ne. }
    eapply Clear_same; [|by apply H4]. apply Hs. intros [= ->]. by apply (Habs n p).
Qed.

Lemma sticks_ok i out n p es i' : in_pads i !! n = Some (Some p) -> Forall (fun e => ev_kind e = EV_ABS /\ ev_code e ∈ sticks) es -> (length es < SCRATCH)%nat -> restart i' = restart i ->
  OnPads i out (sent (Gamepad (pd_id p)) es i' out).
Proof.
  intros Hn He Hl Hr. unfold sent. apply (change_pad_ok i out n p (pd_buttons p)); [done| | |by apply stick_events_hold| |by apply same_press_emit].
  - change (restart (restart i')) with (restart i'). rewrite Hr. unfold set_pad. destruct p as [pid pb]. cbn [set_field eta eta_Pad pd_id pd_buttons]. rewrite list_insert_id by done. by destruct i.
  - apply sent_ok; [done|by intros [=]].
  - intros d Hd. apply same_on_emit. congruence.
Qed.

Lemma stick_codes code v : code ∈ sticks -> ev_kind (mkEvent EV_ABS code v) = EV_ABS /\ ev_code (mkEvent EV_ABS code v) ∈ sticks.
Proof. done. Qed.

Lemma axis_ok i out n p which value : in_pads i !! n = Some (Some p) -> OnPads i out (axis (pd_id p) which value i out).
Proof.
  intros Hn. assert (H : forall code scaled, code ∈ sticks -> OnPads i out (flush (Gamepad (pd_id p)) (report (push EV_ABS code scaled (restart i))) out)).
  { intros code scaled Hc. change (push EV_ABS code scaled (restart i)) with (push_events [mkEvent EV_ABS code scaled] (restart i)). rewrite flush_report by (cbn; unfold SCRATCH; lia).
    apply (sticks_ok i out n p); [done| |cbn; unfold SCRATCH; lia|done]. constructor; [by apply stick_codes|constructor]. }
  unfold axis. repeat (destruct (which =? _); [apply H; unfold sticks; set_solver|]). apply OnPads_refl.
Qed.

Definition axis_values (a b c d e f : Z) : list (Z * Z) := [(Axis.X, a); (Axis.Y, b); (Axis.RX, c); (Axis.RY, d); (Axis.Z_, e); (Axis.RZ, f)].

Lemma push_axes_sent id a b c d e f i out :
  flush (Gamepad id) (report (push_axes (axis_values a b c d e f) (restart i))) out =
  sent (Gamepad id) [mkEvent EV_ABS Axis.X a; mkEvent EV_ABS Axis.Y b; mkEvent EV_ABS Axis.RX c; mkEvent EV_ABS Axis.RY d; mkEvent EV_ABS Axis.Z_ e; mkEvent EV_ABS Axis.RZ f] i out.
Proof.
  rewrite <- flush_report by (cbn [length]; unfold SCRATCH; lia). unfold push_axes, axis_values, push_events.
  cbn [fold_left fst snd ev_kind ev_code ev_value]. reflexivity.
Qed.

Lemma axis_values_ok a b c d e f : Forall (fun ev => ev_kind ev = EV_ABS /\ ev_code ev ∈ sticks)
  [mkEvent EV_ABS Axis.X a; mkEvent EV_ABS Axis.Y b; mkEvent EV_ABS Axis.RX c; mkEvent EV_ABS Axis.RY d; mkEvent EV_ABS Axis.Z_ e; mkEvent EV_ABS Axis.RZ f].
Proof. repeat (constructor; [split; [done|unfold sticks; set_solver]|]). constructor. Qed.

Lemma buttons_pad_ok i out n p after : in_pads i !! n = Some (Some p) ->
  let w := buttons_changed (pd_id p) (pd_buttons p) after (set_pad i n (Some (p <| pd_buttons := after |>))) out in
  OnPads i out w /\ in_pads w.1 !! n = Some (Some (p <| pd_buttons := after |>)).
Proof.
  intros Hn w. set (i1 := set_pad i n (Some (p <| pd_buttons := after |>))) in *. destruct (buttons_changed_ok (pd_id p) (pd_buttons p) after i1 out) as (H1 & H2 & H3 & H4 & _ & H5). fold w in H1, H2, H3, H4, H5.
  destruct w as [i' out']. cbn [fst snd] in *. split; [by apply (change_pad_ok i out n p after)|].
  change (in_pads i') with (in_pads (restart i')). rewrite H4. change (in_pads (restart i1)) with (<[n := Some (p <| pd_buttons := after |>)]> (in_pads i)). apply list_lookup_insert_eq. by apply lookup_lt_Some in Hn.
Qed.

Lemma gamepad_button_ok index state id i out : OnPads i out (gamepad_button index state id i out).
Proof.
  unfold gamepad_button. destruct (bit_for_index index) as [bit|]; [|apply OnPads_refl]. destruct (pad_ok id i out) as (i1 & r & -> & H1 & Hr). destruct r as [n|]; [|done].
  destruct (Hr n eq_refl) as (p & -> & Hn & Hid). eapply OnPads_trans; [exact H1|]. by apply buttons_pad_ok.
Qed.

Lemma gamepad_axis_ok which value id i out : OnPads i out (gamepad_axis which value id i out).
Proof.
  unfold gamepad_axis. destruct (pad_ok id i out) as (i1 & r & -> & H1 & Hr). destruct r as [n|]; [|done].
  destruct (Hr n eq_refl) as (p & -> & Hn & Hid). eapply OnPads_trans; [exact H1|]. by eapply axis_ok.
Qed.

Lemma pad_state_ok id body i out : OnPads i out (pad_state id body i out).
Proof.
  unfold pad_state. destruct (slice body 3 (3 + 12)) as [fields|]; [|apply OnPads_refl]. destruct (pad_ok id i out) as (i1 & r & -> & H1 & Hr). destruct r as [n|]; [|done].
  destruct (Hr n eq_refl) as (p & -> & Hn & <-). eapply OnPads_trans; [exact H1|]. cbn [fst snd]. destruct (buttons_pad_ok i1 out n p (field16 fields 0) Hn) as [H2 Hn2].
  destruct (buttons_changed _ _ _ _ _) as [i2 out2]. cbn [fst snd] in *. eapply OnPads_trans; [exact H2|]. fold (axis_values (stick (as_i16 (field16 fields 2)) false) (stick (as_i16 (field16 fields 4)) true) (stick (as_i16 (field16 fields 6)) false) (stick (as_i16 (field16 fields 8)) true) (default 0 (get fields 10)) (default 0 (get fields 11))).
  rewrite push_axes_sent.
  assert (Hl : (6 < SCRATCH)%nat) by (unfold SCRATCH; lia). exact (sticks_ok i2 out2 n _ _ i2 Hn2 (axis_values_ok _ _ _ _ _ _) Hl eq_refl).
Qed.

Lemma unplug_ok id i out : OnPads i out (unplug id i out).
Proof.
  unfold unplug. destruct (index_of (is_pad id) (in_pads i)) as [n|] eqn:E; [|apply OnPads_refl]. apply index_of_Some in E as (o & Hn & (p & -> & Hid)%is_pad_Some).
  assert (Hl : (n < length (in_pads i))%nat) by by apply lookup_lt_Some in Hn.
  assert (Hs : forall d, d <> Gamepad id -> same_on d out (out ++ [Unplug id])) by (intros d Hd code; unfold down, axis_at; rewrite !fold_left_app; cbn [fold_left]; by rewrite !bool_decide_false by congruence).
  split; cbn [fst snd]; [| |done..| |].
  - intros Ho. apply Forall_app. split; [done|]. by repeat constructor.
  - intros [H1 H2 H3 H4]. split; change (in_pads (set_pad i n None)) with (<[n := None]> (in_pads i)).
    + by rewrite length_insert.
    + intros a b q q' [(_ & ? & _)|[_ Ha]]%list_lookup_insert_Some [(_ & ? & _)|[_ Hb]]%list_lookup_insert_Some; [done..|by eapply H2].
    + intros a q [(_ & ? & _)|[Hna Ha]]%list_lookup_insert_Some; [done|]. eapply Holding_same; [|by eapply H3]. apply Hs. intros [= Hq]. apply Hna. apply (H2 n a p q); [done|done|congruence].
    + intros id' Habs. destruct (decide (id' = id)) as [->|Hne].
      * intros code. unfold down, axis_at. rewrite !fold_left_app. cbn [fold_left]. by rewrite !bool_decide_true.
      * eapply Clear_same; [apply Hs; congruence|]. apply H4. intros a q Ha Hq. apply (Habs a q); [|done]. rewrite list_lookup_insert_ne; [done|]. intros <-. congruence.
  - intros d Hd. by apply Hs.
  - intros code. unfold last_press. by rewrite fold_left_app.
Qed.

(** ** Everything at once *)

Lemma axes_zero code v : code ∈ sticks -> axis_ev code v [mkEvent EV_ABS Axis.X 0; mkEvent EV_ABS Axis.Y 0; mkEvent EV_ABS Axis.RX 0; mkEvent EV_ABS Axis.RY 0; mkEvent EV_ABS Axis.Z_ 0; mkEvent EV_ABS Axis.RZ 0] = 0.
Proof. unfold sticks. intros Hc. repeat (apply elem_of_cons in Hc as [->|Hc]; [reflexivity|]). by apply not_elem_of_nil in Hc. Qed.

Lemma sticks_dec code : code ∈ sticks \/ code = Axis.HAT0X \/ code = Axis.HAT0Y \/ (code ∉ sticks /\ code <> Axis.HAT0X /\ code <> Axis.HAT0Y).
Proof. destruct (decide (code ∈ sticks)), (decide (code = Axis.HAT0X)), (decide (code = Axis.HAT0Y)); tauto. Qed.

(** A pad with no bit and centred sticks shows nothing. *)
Lemma centred_clear id out : Holding id 0 out -> (forall code, code ∈ sticks -> axis_at (Gamepad id) code out = 0) -> Clear id out.
Proof.
  intros [H1 [H2 H3] H4] Hs code. rewrite H1, key_held_zero. split; [done|]. destruct (sticks_dec code) as [Hc|[->|[->|(? & ? & ?)]]]; [by apply Hs|by rewrite H2|by rewrite H3|by apply H4].
Qed.

Definition pad_ids (i : Injector) : list (option Z) := map (option_map pd_id) (in_pads i).

Lemma centre_pad_ok i out n : OnPads i out (centre_pad (i, out) n) /\
  (PadsInv i out -> (forall p, in_pads i !! n = Some (Some p) -> Clear (pd_id p) (centre_pad (i, out) n).2) /\ forall id, Clear id out -> Clear id (centre_pad (i, out) n).2) /\
  pad_ids (centre_pad (i, out) n).1 = pad_ids i.
Proof.
  assert (Hpad : forall p, in_pads i !! n = Some (Some p) <-> pad_at i n = Some p) by (intros p; unfold pad_at; destruct (in_pads i !! n) as [[q|]|]; naive_solver).
  unfold centre_pad. destruct (pad_at i n) as [p|] eqn:Ep; [|split; [apply OnPads_refl|]; split; [intros _; split; [by intros p ?%Hpad|done]|done]].
  assert (Hn : in_pads i !! n = Some (Some p)) by by apply Hpad.
  destruct (buttons_pad_ok i out n p 0 Hn) as [H1 Hn1]. destruct (buttons_changed_ok (pd_id p) (pd_buttons p) 0 (set_pad i n (Some (p <| pd_buttons := 0 |>))) out) as (_ & Hh & Hs & Hr & _).
  destruct (buttons_changed _ _ _ _ _) as [i1 out1]. cbn [fst snd] in *. fold (axis_values 0 0 0 0 0 0). rewrite push_axes_sent.
  assert (Hl : (6 < SCRATCH)%nat) by (unfold SCRATCH; lia). pose proof (sticks_ok i1 out1 n _ _ i1 Hn1 (axis_values_ok 0 0 0 0 0 0) Hl eq_refl) as H2. cbn [pd_id set_field eta eta_Pad] in H2.
  unfold sent in *. cbn [fst snd] in *. set (es := [_; _; _; _; _; _]) in *.
  assert (Hclear : Holding (pd_id p) (pd_buttons p) out -> Clear (pd_id p) (out1 ++ [Emit (Gamepad (pd_id p)) (es ++ [syn])])).
  { intros HH. apply centred_clear; [apply stick_events_hold; [apply axis_values_ok|by apply Hh]|]. intros code Hc. rewrite axis_emit, bool_decide_true, axis_ev_app, syn_axis by done. by apply axes_zero. }
  split; [by apply (OnPads_trans i out (i1, out1))|]. split.
  - intros HI. split; [intros p' Hp'; assert (p' = p) as -> by (apply Hpad in Hp'; congruence); by eapply Hclear, pi_held|]. intros id Hid. destruct (decide (id = pd_id p)) as [->|Hne]; [by eapply Hclear, pi_held|].
    eapply Clear_same; [|exact Hid]. eapply same_on_trans; [apply Hs; congruence|apply same_on_emit; congruence].
  - unfold pad_ids. rewrite Hr. change (in_pads (restart (set_pad i n ?o))) with (<[n := o]> (in_pads i)). change (map (option_map pd_id)) with (fmap (M := list) (option_map pd_id)). rewrite list_fmap_insert. apply list_insert_id. by rewrite list_lookup_fmap, Hn.
Qed.

Lemma centre_fold_ok l i out : let w := fold_left centre_pad l (i, out) in OnPads i out w /\
  (PadsInv i out -> (forall n p, n ∈ l -> in_pads i !! n = Some (Some p) -> Clear (pd_id p) w.2) /\ forall id, Clear id out -> Clear id w.2) /\
  pad_ids w.1 = pad_ids i.
Proof.
  revert i out. induction l as [|n l IH]; intros i out; cbn [fold_left].
  { split; [apply OnPads_refl|]. split; [intros _; split; [by intros n p ?%not_elem_of_nil|done]|done]. }
  destruct (centre_pad_ok i out n) as (H1 & H2 & H3). destruct (centre_pad (i, out) n) as [i1 out1]. cbn [fst snd] in *. destruct (IH i1 out1) as (G1 & G2 & G3).
  split; [by apply (OnPads_trans i out (i1, out1))|]. split.
  - intros HI. destruct (H2 HI) as [C1 C2]. destruct (G2 (od_inv _ _ _ H1 HI)) as [D1 D2]. split; [|intros id Hid; by apply D2, C2].
    intros m p [->|Hm]%elem_of_cons Hp; [by apply D2, C1|].
    assert (Hi : pad_ids i1 !! m = Some (Some (pd_id p))) by (rewrite H3; unfold pad_ids; change (map (option_map pd_id)) with (fmap (M := list) (option_map pd_id)); by rewrite list_lookup_fmap, Hp).
    unfold pad_ids in Hi. change (map (option_map pd_id)) with (fmap (M := list) (option_map pd_id)) in Hi. rewrite list_lookup_fmap in Hi. destruct (in_pads i1 !! m) as [[q|]|] eqn:Hq; try done. cbn in Hi. injection Hi as <-. by eapply D1.
  - congruence.
Qed.

Record InjInv (i : Injector) (out : Log) : Prop := mkInjInv {
  iv_keys : KeysInv i out;
  iv_buttons : ButtonsInv i out;
  iv_pads : PadsInv i out;
  iv_effects : Forall effect_ok out;
  iv_keys_allowed : pm_keyboard (in_permissions i) = false -> forall n, in_keys i !! n <> Some true;
  iv_buttons_allowed : pointer_allowed i = false -> forall n, in_buttons i !! n <> Some true;
}.

Lemma core_allowed i j : core j = core i -> in_permissions j = in_permissions i /\ pointer_allowed j = pointer_allowed i.
Proof. unfold core, pointer_allowed. intros [= -> -> _]. done. Qed.

Lemma OnKeys_inv i out w : OnKeys i out w -> InjInv i out -> InjInv w.1 w.2.
Proof.
  intros [H1 H2 H3 H4 [H5 H6] H7 H8 H9] [K B P E KA BA]. destruct (core_allowed _ _ H3) as [Hp Ha]. split; [auto| | |auto| |].
  - apply (buttons_frame i w.1 out); [done| |done|done]. intros d code Hd. apply H8. by destruct Hd as [-> | ->].
  - apply (pads_frame i w.1 out); [done| |done]. intros id. by apply H8.
  - rewrite Hp. intros Hf n Hn. destruct H4 as [H4|H4]; [congruence|]. by apply (KA Hf n), H4.
  - rewrite Ha. unfold held_buttons in H5. injection H5 as -> _. done.
Qed.

Lemma OnPointers_inv i out w : OnPointers i out w -> InjInv i out -> InjInv w.1 w.2.
Proof.
  intros [H1 H2 H3 H4 H5 H6 H8] [K B P E KA BA]. destruct (core_allowed _ _ H3) as [Hp Ha]. split; [|auto| |auto| |].
  - apply (keys_frame i w.1 out); [done| |done]. apply H8. by intros [|].
  - apply (pads_frame i w.1 out); [done| |done]. intros id. apply H8. by intros [|].
  - by rewrite Hp, H5.
  - rewrite Ha. intros Hf n Hn. destruct H4 as [H4|H4]; [congruence|]. by apply (BA Hf n), H4.
Qed.

Lemma OnPads_inv i out w : OnPads i out w -> InjInv i out -> InjInv w.1 w.2.
Proof.
  intros [H1 H2 H3 H4 H5 H6 H7] [K B P E KA BA]. destruct (core_allowed _ _ H3) as [Hp Ha]. split; [| |auto|auto| |].
  - apply (keys_frame i w.1 out); [done| |done]. by apply H6.
  - apply (buttons_frame i w.1 out); [done| |done|done]. intros d code Hd. apply H6. by destruct Hd as [-> | ->].
  - by rewrite Hp, H4.
  - rewrite Ha. unfold held_buttons in H5. injection H5 as -> _. done.
Qed.

(** Fields the invariant does not speak of. *)
Lemma InjInv_fields i j out : in_keys j = in_keys i -> held_buttons j = held_buttons i -> in_pads j = in_pads i -> in_permissions j = in_permissions i -> in_floor j = in_floor i -> InjInv i out -> InjInv j out.
Proof.
  intros Hk Hb Hp Hpm Hf [K B P E KA BA]. split; [by apply (keys_frame i j out)|by apply (buttons_frame i j out)|by apply (pads_frame i j out)|done|by rewrite Hpm, Hk|].
  unfold pointer_allowed in *. unfold held_buttons in Hb. injection Hb as -> _. by rewrite Hpm, Hf.
Qed.

Definition none_on (d : Device) (out : Log) : Prop := forall code, down d code out = false.

(** A device on which only stranded buttons are down, and a log that leaves
    nothing else down anywhere. *)
Definition let_go_on (d : Device) (out : Log) : Prop := forall code, down d code out = true -> last_press code out <> Some d.
Definition let_go (out : Log) : Prop := forall d code, down d code out = true -> is_pointer d /\ stranded d code out.

Lemma no_buttons i out : ButtonsInv i out -> (forall n, in_buttons i !! n <> Some true) -> forall d, is_pointer d -> let_go_on d out.
Proof. intros [_ _ H] Hn d Hd code Hc Hl. destruct (proj2 (H d code Hd) (conj Hc Hl)) as (n & Hb & _). by apply (Hn n). Qed.

Lemma lifts_pointers out out' : lifts out out' -> pointers_lift out out'.
Proof. intros [H1 H2]. split; [intros d code _; apply H1|done]. Qed.

Lemma OnKeys_lift i out w : OnKeys i out w -> pointers_lift out w.2.
Proof. intros H. split; [|apply (ok_presses _ _ _ H)]. intros d code Hd. rewrite (proj1 (ok_devices _ _ _ H d ltac:(by destruct Hd as [-> | ->]) code)). done. Qed.

Lemma OnPads_lift i out w : OnPads i out w -> pointers_lift out w.2.
Proof. intros H. split; [|apply (od_presses _ _ _ H)]. intros d code Hd. rewrite (proj1 (od_devices _ _ _ H d ltac:(by destruct Hd as [-> | ->]) code)). done. Qed.

Lemma stranded_before out out' d code : pointers_lift out out' -> is_pointer d -> stranded d code out' -> stranded d code out.
Proof. intros [H1 H2] Hd [Hc Hl]. split; [by apply H1|by rewrite <- H2]. Qed.

Lemma let_go_before out out' d code : pointers_lift out out' -> let_go_on d out' -> is_pointer d -> down d code out' = true -> stranded d code out.
Proof. intros Hp Hl Hd Hc. apply (stranded_before out out'); [done|done|]. split; [done|by apply Hl]. Qed.

Lemma release_all_ok i out : InjInv i out -> let w := release_all i out in
  InjInv w.1 w.2 /\ let_go w.2 /\ pointers_lift out w.2 /\ forall id code, axis_at (Gamepad id) code w.2 = 0.
Proof.
  intros HI w. unfold w, release_all. destruct (release_keys_ok i out) as [H1 G1]. destruct (G1 (iv_keys _ _ HI)) as [_ Hk]. pose proof (OnKeys_inv _ _ _ H1 HI) as I1. pose proof (OnKeys_lift _ _ _ H1) as L1.
  destruct (release_keys i out) as [i1 out1]. cbn [fst snd] in *. destruct (release_buttons_ok i1 out1) as (H2 & G2 & L2%lifts_pointers). specialize (G2 (iv_buttons _ _ I1)). pose proof (OnPointers_inv _ _ _ H2 I1) as I2.
  destruct (release_buttons i1 out1) as [i2 out2]. cbn [fst snd] in *. unfold centre_pads. destruct (centre_fold_ok (seq 0 MAX_PADS) i2 out2) as (H3 & G3 & Hids). pose proof (OnPads_inv _ _ _ H3 I2) as I3. pose proof (OnPads_lift _ _ _ H3) as L3.
  destruct (G3 (iv_pads _ _ I2)) as [C1 C2]. destruct (fold_left centre_pad _ _) as [i3 out3]. cbn [fst snd] in *.
  assert (Hclear : forall id, Clear id out3).
  { intros id. destruct (index_of (is_pad id) (in_pads i2)) as [n|] eqn:E; [|apply C2, (pi_absent _ _ (iv_pads _ _ I2)); by apply not_pad].
    apply index_of_Some in E as (o & Hn & (p & -> & <-)%is_pad_Some). apply (C1 n); [|done]. apply elem_of_seq. apply lookup_lt_Some in Hn. rewrite (pi_len _ _ (iv_pads _ _ I2)) in Hn. unfold MAX_PADS in *. lia. }
  assert (Hp : forall d code, is_pointer d -> down d code out3 = true -> is_pointer d /\ stranded d code out3).
  { intros d code Hd Hc. split; [done|]. split; [done|]. rewrite (proj2 L3). apply (no_buttons i2 out2); [apply I2|exact G2|done|by apply L3]. }
  split; [done|]. split; [|split; [by eapply pointers_lift_trans, pointers_lift_trans|intros id code; apply Hclear]]. intros [| | |id] code Hc.
  - assert (S3 : same_on Keyboard out2 out3) by by apply (od_devices _ _ _ H3). assert (S2 : same_on Keyboard out1 out2) by (apply (op_devices _ _ _ H2); by intros [|]).
    by rewrite (proj1 (S3 code)), (proj1 (S2 code)), Hk in Hc.
  - apply Hp; [by left|done].
  - apply Hp; [by right|done].
  - by rewrite (proj1 (Hclear id code)) in Hc.
Qed.

Lemma on_control_inv m i out : InjInv i out -> InjInv (on_control m i out).1 (on_control m i out).2.
Proof.
  intros HI. unfold on_control. set (j := i <| in_tally := _ |>). cbv zeta. assert (HJ : InjInv j out) by by apply (InjInv_fields i j out).
  repeat match goal with |- InjInv (fst (if ?c then _ else _)) _ => destruct c eqn:? end; [..|exact HJ]; bool_prop.
  - apply (OnKeys_inv j out); [by apply keyboard_ok|done].
  - apply (OnPointers_inv j out); [|done]. apply button_ok; [done|apply (bi_devices _ _ (iv_buttons _ _ HJ))].
  - apply (OnPointers_inv j out); [apply wheel_ok|done].
  - apply (OnPointers_inv j out); [apply motion_ok|done].
  - apply (OnPointers_inv j out); [apply motion_ok|done].
  - apply (OnPads_inv j out); [apply gamepad_button_ok|done].
  - apply (OnPads_inv j out); [apply gamepad_axis_ok|done].
  - apply (OnPads_inv j out); [apply unplug_ok|done].
  - apply (OnPads_inv j out); [apply pad_state_ok|done].
  - by apply release_all_ok.
Qed.

(** A press of a button that is held on [d], while the other pointer is the
    current one. *)
Definition repeats (m : Control) (i : Injector) (d : Device) (code : Z) : Prop :=
  ct_opcode m = OP_MOUSE_BUTTON /\ ct_a1 m <> 0 /\ pointer i <> d /\ exists n, Z.of_nat n + 1 = ct_a0 m /\ on_button i d code n.

Lemma button_strands b pressed i out d code : ButtonsInv i out -> is_pointer d -> stranded d code (button b pressed i out).2 ->
  stranded d code out \/ (pressed = true /\ pointer i <> d /\ exists n, Z.of_nat n + 1 = b /\ on_button i d code n).
Proof.
  intros HB Hd. unfold button. destruct (checked_sub b 1) as [index|] eqn:Eb; [|by left]. unfold checked_sub in Eb. destruct (1 <=? b) eqn:E1; [|done]. injection Eb as <-. bool_prop.
  destruct (in_buttons i !! Z.to_nat (b - 1)) as [held|] eqn:Eh; [|by left]. destruct (button_code b) as [c|] eqn:Ec; [|by left].
  destruct (negb pressed && negb held) eqn:Ep; [by left|]. set (i1 := i <| in_buttons := _ |>). set (d0 := if pressed then pointer i1 else _). set (i2 := if pressed then _ else i1).
  change (push EV_KEY c (Z.b2z pressed) (restart i2)) with (push_events [mkEvent EV_KEY c (Z.b2z pressed)] (restart i2)). rewrite flush_report by (cbn; unfold SCRATCH; lia).
  destruct pressed.
  - cbn [snd sent]. unfold stranded. rewrite down_emit, last_press_emit, down_ev_app, syn_down. change d0 with (pointer i) in *. clear d0.
    unfold down_ev, press_ev. cbn [fold_left existsb app ev_kind ev_code ev_value Z.b2z]. rewrite (is_pointer_device _ (pointer_is i)).
    unfold presses. cbn [ev_kind ev_code ev_value andb]. rewrite Z.eqb_refl. cbn [andb]. destruct (Z.eqb_spec c code) as [->|Hc]; cbn [andb orb].
    + change (negb (1 =? 0)) with true. cbn [orb]. case_bool_decide as Edd; [subst d; by intros [_ ?]|]. intros [Hc _].
      destruct (decide (last_press code out = Some d)) as [Hl|Hl]; [|by left]. right. split; [done|]. split; [done|].
      destruct (proj2 (bi_down _ _ HB d code Hd) (conj Hc Hl)) as (n & Hn). exists n. split; [|done]. destruct Hn as (_ & _ & Hn). by apply (button_code_inj _ _ _ Hn Ec).
    + change ((EV_SYN =? EV_KEY) && _ && _) with false. left. by case_bool_decide.
  - intros Hs. left. eapply stranded_before; [apply (pointers_lift_sent d0 [mkEvent EV_KEY c (Z.b2z false)] i2 out)|done|exact Hs]. constructor; [by right|constructor].
Qed.

(** Only a repeated press strands a button. *)
Lemma on_control_strands m i out d code : InjInv i out -> is_pointer d -> stranded d code (on_control m i out).2 -> stranded d code out \/ repeats m i d code.
Proof.
  intros HI Hd. unfold on_control. set (j := i <| in_tally := _ |>). cbv zeta. assert (HJ : InjInv j out) by by apply (InjInv_fields i j out).
  assert (HL : forall out', pointers_lift out out' -> stranded d code out' -> stranded d code out \/ repeats m i d code) by (intros out' Hp Hs; left; by apply (stranded_before out out')).
  repeat match goal with |- stranded _ _ (snd (if ?c then _ else _)) -> _ => destruct c eqn:? end; bool_prop; [..|by left].
  - by eapply HL, OnKeys_lift, keyboard_ok.
  - intros Hs. destruct (button_strands _ _ j out d code (iv_buttons _ _ HJ) Hd Hs) as [?|(Hp & Hne & n & Hn & Ho)]; [by left|right].
    bool_prop. split; [done|]. split; [done|]. split; [done|]. by exists n.
  - by apply HL, wheel_ok.
  - by apply HL, motion_ok.
  - by apply HL, motion_ok.
  - by eapply HL, OnPads_lift, gamepad_button_ok.
  - by eapply HL, OnPads_lift, gamepad_axis_ok.
  - by eapply HL, OnPads_lift, unplug_ok.
  - by eapply HL, OnPads_lift, pad_state_ok.
  - by apply HL, release_all_ok.
Qed.

Lemma set_permissions_ok p i out : InjInv i out -> let w := set_permissions p i out in
  InjInv w.1 w.2 /\ (pm_keyboard p = false -> none_on Keyboard w.2) /\ (pm_pointer p = false -> forall d, is_pointer d -> let_go_on d w.2) /\ pointers_lift out w.2.
Proof.
  intros HI w. unfold w, set_permissions. set (j := i <| in_permissions := p |>). cbv zeta. pose proof HI as [K B P E KA BA].
  assert (H1 : exists w1, (if pm_keyboard (in_permissions i) && negb (pm_keyboard p) then release_keys j out else (j, out)) = w1 /\ OnKeys j out w1 /\
    (pm_keyboard p = false -> (forall n, in_keys w1.1 !! n <> Some true) /\ none_on Keyboard w1.2)).
  { eexists; split; [reflexivity|]. assert (HK : KeysInv j out) by by apply (keys_frame i j out). destruct (pm_keyboard (in_permissions i) && negb (pm_keyboard p)) eqn:Ek.
    - destruct (release_keys_ok j out) as [H1 H2]. split; [done|]. intros _. by apply H2.
    - split; [apply OnKeys_refl|]. intros Hp. rewrite Hp, andb_true_r in Ek. split; [by apply KA|]. intros code. apply not_true_is_false. intros Hc. apply (ki_held _ _ K) in Hc as [_ Hc]. by apply (KA Ek) in Hc. }
  destruct H1 as ([i1 out1] & -> & H1 & G1). cbn [fst snd] in *. destruct (core_allowed _ _ (ok_core _ _ _ H1)) as [Hp1 _]. destruct (ok_buttons _ _ _ H1) as [Hb1 _]. cbn [fst snd] in Hp1, Hb1.
  assert (HB : ButtonsInv i1 out1) by (apply (buttons_frame i i1 out); [done| |apply (ok_presses _ _ _ H1)|done]; intros d code Hd; apply (ok_devices _ _ _ H1); by destruct Hd as [-> | ->]).
  assert (HP : PadsInv i1 out1) by (apply (pads_frame i i1 out); [apply (ok_pads _ _ _ H1)|by intros id; apply (ok_devices _ _ _ H1)|done]).
  assert (HK : KeysInv i1 out1) by (apply (ok_inv _ _ _ H1); by apply (keys_frame i j out)). pose proof (ok_effects _ _ _ H1 E) as HE.
  assert (Hfl : in_floor i1 = in_floor i) by (pose proof (ok_core _ _ _ H1) as Hc; unfold core in Hc; by injection Hc).
  assert (H2 : exists w2, (if pm_pointer (in_permissions i) && negb (pm_pointer p) then release_buttons i1 out1 else (i1, out1)) = w2 /\ OnPointers i1 out1 w2 /\
    (pm_pointer p = false -> forall n, in_buttons w2.1 !! n <> Some true) /\ lifts out1 w2.2).
  { eexists; split; [reflexivity|]. destruct (pm_pointer (in_permissions i) && negb (pm_pointer p)) eqn:Ep.
    - destruct (release_buttons_ok i1 out1) as (H2 & H3 & L2). split; [done|]. split; [|done]. intros _. by apply H3.
    - split; [apply OnPointers_refl|]. split; [|done]. intros Hp. rewrite Hp, andb_true_r in Ep. unfold held_buttons in Hb1. injection Hb1 as Hb1 _. cbn [fst]. rewrite Hb1. apply BA. unfold pointer_allowed. by rewrite Ep. }
  destruct H2 as ([i2 out2] & -> & H2 & G2 & L2). cbn [fst snd] in *. destruct (core_allowed _ _ (op_core _ _ _ H2)) as [Hp2 Ha2]. cbn [fst snd] in Hp2, Ha2.
  assert (SK : same_on Keyboard out1 out2) by (apply (op_devices _ _ _ H2); by intros [|]). pose proof (op_inv _ _ _ H2 HB) as HB2.
  assert (Hperm : in_permissions i2 = p) by by rewrite Hp2, Hp1. assert (Hfl2 : in_floor i2 = in_floor i) by (pose proof (op_core _ _ _ H2) as Hc; unfold core in Hc; injection Hc as _ Hc _; congruence).
  split; [|split; [|split]].
  - split; [apply (keys_frame i1 i2 out1); [apply (op_keys _ _ _ H2)|done|done]|done| |by apply (op_effects _ _ _ H2)| |].
    + apply (pads_frame i1 i2 out1); [apply (op_pads _ _ _ H2)| |done]. intros id. apply (op_devices _ _ _ H2). by intros [|].
    + rewrite Hperm. intros Hp. pose proof (op_keys _ _ _ H2) as Hk2. cbn [fst snd] in Hk2. rewrite Hk2. by apply G1.
    + unfold pointer_allowed. rewrite Hperm, Hfl2. intros Hal. destruct (pm_pointer p) eqn:Ep; [|by apply G2]. destruct (op_fewer _ _ _ H2) as [Ha|Hfew].
      * exfalso. unfold pointer_allowed in Ha. rewrite Hp1, Hfl in Ha. change (in_permissions j) with p in Ha. rewrite Ep in Ha. cbn in Ha, Hal. congruence.
      * intros n Hn. apply Hfew in Hn. unfold held_buttons in Hb1. injection Hb1 as Hb1 _. rewrite Hb1 in Hn. apply (BA) in Hn; [done|]. unfold pointer_allowed. cbn in Hal. rewrite Hal. apply andb_false_r.
  - intros Hp code. rewrite (proj1 (SK code)). by apply G1.
  - intros Hp d Hd. by apply (no_buttons i2 out2), Hd; [|apply G2].
  - eapply pointers_lift_trans; [apply (OnKeys_lift _ _ _ H1)|by apply lifts_pointers].
Qed.

Lemma set_floor_ok held i out : InjInv i out -> let w := set_floor held i out in
  InjInv w.1 w.2 /\ (held = false -> forall d, is_pointer d -> let_go_on d w.2) /\ pointers_lift out w.2.
Proof.
  intros HI w. unfold w, set_floor. pose proof HI as [K B P E KA BA]. destruct (in_floor i && negb held) eqn:Ef.
  - destruct (release_buttons_ok i out) as (H2 & G2 & L2). specialize (G2 B). pose proof (OnPointers_inv _ _ _ H2 HI) as [K2 B2 P2 E2 KA2 BA2]. destruct (release_buttons i out) as [i2 out2]. cbn [fst snd] in *.
    split; [|split; [intros _ d Hd; by apply (no_buttons i2 out2)|by apply lifts_pointers]]. split; [by apply (keys_frame i2 _ out2)|by apply (buttons_frame i2 _ out2)|by apply (pads_frame i2 _ out2)|done|done|]. by intros _.
  - cbn [fst snd]. split; [|split; [|done]].
    + split; [by apply (keys_frame i _ out)|by apply (buttons_frame i _ out)|by apply (pads_frame i _ out)|done|done|]. intros Hal. apply BA. unfold pointer_allowed in *. change (pm_pointer (in_permissions i) && held = false) in Hal.
      destruct (pm_pointer (in_permissions i)), (in_floor i), held; done.
    + intros -> d Hd. apply (no_buttons i out); [done| |done]. apply BA. unfold pointer_allowed. rewrite andb_true_r in Ef. rewrite Ef. apply andb_false_r.
Qed.

Lemma injector_new_inv e : InjInv (injector_new e) [].
Proof.
  assert (Hr : forall n m, replicate m false !! n <> Some true) by (intros n m [? _]%lookup_replicate_1; done). split.
  - split; [done|done|]. intros n Hn. by apply Hr in Hn.
  - split; [done| |]; [by repeat (constructor; [by right|])|]. intros d code _. split; [|by intros []]. intros (n & Hn & _). by apply Hr in Hn.
  - split; [done| | |by split]; intros n; [intros m p q Hn|intros p Hn]; apply lookup_replicate_1 in Hn as [? _]; done.
  - constructor.
  - done.
  - intros _ n. apply Hr.
Qed.

(** A guest's life: messages, permission and floor changes, the pointer hiding,
    the picture changing. *)
Inductive InjReach (e : Extents) : Injector -> Log -> Prop :=
  | reach_new : InjReach e (injector_new e) []
  | reach_control i out m : InjReach e i out -> InjReach e (on_control m i out).1 (on_control m i out).2
  | reach_permissions i out p : InjReach e i out -> InjReach e (set_permissions p i out).1 (set_permissions p i out).2
  | reach_floor i out held : InjReach e i out -> InjReach e (set_floor held i out).1 (set_floor held i out).2
  | reach_hidden i out hidden : InjReach e i out -> InjReach e (set_cursor_hidden hidden i) out
  | reach_extents i out e' : InjReach e i out -> InjReach e (set_extents i e') out.

Lemma InjReach_inv e i out : InjReach e i out -> InjInv i out.
Proof.
  induction 1 as [|i out m _ IH|i out p _ IH|i out h _ IH|i out h _ IH|i out e' _ IH].
  - apply injector_new_inv.
  - by apply on_control_inv.
  - by apply set_permissions_ok.
  - by apply set_floor_ok.
  - unfold set_cursor_hidden. apply (InjInv_fields i); [by destruct (negb h)..|done].
  - by apply (InjInv_fields i).
Qed.

(** (C21) Nothing stays held but a button pressed again on the other pointer.
    In every reachable state of a guest's injector, whatever it sent and however
    its permissions and the pointer floor changed, a machine driven by the
    emitted events holds exactly the keys and pad buttons the injector tracks (a
    lock key tapped for the peer may be up), and the injector tracks a pointer
    button on a device exactly when it is down there and that device took the
    button's last press. A button down on the other device is stranded; only one
    kind of message strands one, a repeated press of a held button after the
    pointer device changed. Letting go of everything leaves no key and no pad
    button down, every pad axis centred, and of the pointer buttons only those
    that were stranded; so do, for their kinds, withdrawing the keyboard or the
    pointer and losing the floor. Every chunk handed to the sink is bounded and
    ends at a report, and absolute positions are on the axis. *)
Theorem nothing_stays_held (e : Extents) (i : Injector) (out : Log) :
  InjReach e i out ->
  (forall code, down Keyboard code out = true -> in_keys i !! Z.to_nat code = Some true) /\
  (forall n, in_keys i !! n = Some true -> is_lock (Z.of_nat n) = false -> down Keyboard (Z.of_nat n) out = true) /\
  (forall d code, is_pointer d -> (exists n, on_button i d code n) <-> down d code out = true /\ last_press code out = Some d) /\
  (forall m d code, is_pointer d -> stranded d code (on_control m i out).2 -> stranded d code out \/ repeats m i d code) /\
  (forall n p code, in_pads i !! n = Some (Some p) -> down (Gamepad (pd_id p)) code out = key_held (pd_buttons p) code) /\
  (forall d code, down d code (release_all i out).2 = true -> is_pointer d /\ stranded d code out) /\
  (forall id code, axis_at (Gamepad id) code (release_all i out).2 = 0) /\
  (forall p, (pm_keyboard p = false -> none_on Keyboard (set_permissions p i out).2) /\
             (pm_pointer p = false -> forall d code, is_pointer d -> down d code (set_permissions p i out).2 = true -> stranded d code out)) /\
  (forall d code, is_pointer d -> down d code (set_floor false i out).2 = true -> stranded d code out) /\
  Forall effect_ok out.
Proof.
  intros HI%InjReach_inv. pose proof HI as [K B P E KA BA]. destruct (release_all_ok i out HI) as (_ & R1 & R2 & R3).
  split; [intros code Hc; by apply (ki_held _ _ K)|]. split; [apply (ki_down _ _ K)|]. split; [intros d code; apply (bi_down _ _ B)|].
  split; [intros m d code; by apply on_control_strands|]. split; [intros n p code Hn; by apply (pi_held _ _ P n p Hn)|].
  split; [intros d code Hc; destruct (R1 d code Hc); split; [done|by eapply stranded_before]|]. split; [done|]. split; [|split; [|done]].
  - intros p. destruct (set_permissions_ok p i out HI) as (_ & S1 & S2 & S3). split; [done|]. intros Hp d code Hd. apply (let_go_before out); auto.
  - destruct (set_floor_ok false i out HI) as (_ & S2 & S3). intros d code Hd. apply (let_go_before out); auto.
Qed.

Definition demo_press : Control := mkControl 4 0 1 OP_KEYBOARD [].

Lemma nothing_stays_held_witness :
  let w := on_control demo_press (injector_new (alone 1920 1080)) [] in
  down Keyboard 30 w.2 = true /\ none_on Keyboard (release_all w.1 w.2).2 /\ none_on Keyboard (set_permissions (mkPermissions false true true) w.1 w.2).2.
Proof.
  intros w. destruct (nothing_stays_held (alone 1920 1080) w.1 w.2) as (_ & _ & _ & _ & _ & H1 & _ & H2 & _); [apply reach_control, reach_new|].
  split; [by vm_compute|]. split; [|exact (proj1 (H2 (mkPermissions false true true)) eq_refl)].
  intros code. destruct (down Keyboard code (release_all w.1 w.2).2) eqn:E; [|done]. by destruct (H1 Keyboard code E) as [[?|?] _].
Defined.

(** Withdrawing the gamepad permission releases nothing: the pad's button is
    still down, and the peer's release is refused from then on. *)
Lemma revoked_gamepad_stays_down :
  let (i1, o1) := on_control (mkControl 0 1 7 OP_GAMEPAD_BUTTON []) (injector_new (alone 1920 1080)) [] in
  let (i2, o2) := set_permissions (mkPermissions true true false) i1 o1 in
  let (i3, o3) := on_control (mkControl 0 0 7 OP_GAMEPAD_BUTTON []) i2 o2 in
  down (Gamepad 7) Key.SOUTH o3 = true.
Proof. vm_compute. reflexivity. Qed.

(** Such a button does stay: a second press of a held button after the pointer
    device changed moves the record of where it is held, the release goes to the
    second device, and the first keeps the button down even after everything is
    released. *)
Lemma repeated_press_sticks :
  let (i1, o1) := on_control (mkControl 0 10 10 OP_MOUSE_MOTION []) (injector_new (alone 1920 1080)) [] in
  let (i2, o2) := on_control (mkControl 1 1 0 OP_MOUSE_BUTTON []) i1 o1 in
  let (i3, o3) := on_control (mkControl 1 5 5 OP_MOUSE_MOTION []) i2 o2 in
  let (i4, o4) := on_control (mkControl 1 1 0 OP_MOUSE_BUTTON []) i3 o3 in
  let (i5, o5) := release_all i4 o4 in
  down PointerAbsolute BTN_LEFT o5 = true.
Proof. vm_compute. reflexivity. Qed.

(** ** Where a position lands *)

Lemma clamp_id low high z : low <= z <= high -> clamp low high z = z.
Proof. intros H. unfold clamp. destruct (z <? low) eqn:E1; [bool_prop; lia|]. destruct (high <? z) eqn:E2; bool_prop; lia. Qed.

Lemma clamp_mono low high a b : low <= high -> a <= b -> clamp low high a <= clamp low high b.
Proof. intros H Hab. unfold clamp. destruct (a <? low) eqn:E1, (b <? low) eqn:E2, (high <? a) eqn:E3, (high <? b) eqn:E4; bool_prop; lia. Qed.

(** (C22) A coordinate lands where the picture is. For 32-bit extents and any
    32-bit coordinate no intermediate product leaves a 64-bit integer; the axis
    value grows with the coordinate; when the output lies within the desktop the
    value never leaves the output's own stretch of the axis, whatever the peer
    sends, and both ends of that stretch are reached; a picture that is the
    whole desktop spans the whole axis. *)
Theorem position_lands_in_output (value extent origin within desktop : Z) :
  - 2147483648 <= value < 2147483648 -> 0 < extent < M32 -> is_u32 origin -> is_u32 within -> 0 < desktop < M32 ->
  let at_edge edge := edge * ABS_RANGE / desktop in
  clamp 0 extent value * within < 2 ^ 63 /\ (origin + Z.quot (clamp 0 extent value * within) extent) * ABS_RANGE < 2 ^ 63 /\
  (forall value', value <= value' -> scale value extent origin within desktop <= scale value' extent origin within desktop) /\
  (origin + within <= desktop ->
     at_edge origin <= scale value extent origin within desktop <= at_edge (origin + within) /\
     scale 0 extent origin within desktop = at_edge origin /\ scale extent extent origin within desktop = at_edge (origin + within)) /\
  scale 0 extent 0 extent extent = 0 /\ scale extent extent 0 extent extent = ABS_RANGE.
Proof.
  intros Hv He Ho Hw Hd at_edge. unfold is_u32, M32 in He, Ho, Hw, Hd. assert (Hc : forall v, 0 <= clamp 0 extent v <= extent) by (intros v; apply clamp_range; lia).
  assert (Hq : forall v, 0 <= Z.quot (clamp 0 extent v * within) extent <= within).
  { intros v. specialize (Hc v). rewrite Z.quot_div_nonneg by nia. split; [apply Z.div_pos; nia|]. apply Z.div_le_upper_bound; nia. }
  assert (Hc31 : clamp 0 extent value < 2147483648) by (unfold clamp; destruct (value <? 0) eqn:E1; [lia|]; destruct (extent <? value) eqn:E2; bool_prop; lia).
  assert (Hs : forall v, scale v extent origin within desktop = clamp 0 ABS_RANGE ((origin + Z.quot (clamp 0 extent v * within) extent) * ABS_RANGE / desktop)).
  { intros v. unfold scale. rewrite !(proj2 (Z.leb_gt _ _)) by lia. cbn [orb]. specialize (Hq v). rewrite (Z.quot_div_nonneg (_ * ABS_RANGE)) by (unfold ABS_RANGE; lia). done. }
  assert (Hmono : forall a b, a <= b -> a * ABS_RANGE / desktop <= b * ABS_RANGE / desktop) by (intros a b Hab; apply Z.div_le_mono; unfold ABS_RANGE; lia).
  assert (Hval : forall v v', v <= v' -> scale v extent origin within desktop <= scale v' extent origin within desktop).
  { intros v v' Hvv. rewrite !Hs. apply clamp_mono; [done|]. apply Hmono, Zplus_le_compat_l. pose proof (Hc v). pose proof (Hc v'). rewrite !Z.quot_div_nonneg by nia. apply Z.div_le_mono; [lia|].
    apply Z.mul_le_mono_nonneg_r; [lia|]. apply clamp_mono; lia. }
  assert (H0 : clamp 0 extent 0 = 0) by (apply clamp_id; lia). assert (H1 : clamp 0 extent extent = extent) by (apply clamp_id; lia).
  split; [nia|]. split; [pose proof (Hq value); unfold ABS_RANGE; lia|]. split; [apply Hval|]. split.
  - intros Hin. assert (Hr : forall x, 0 <= x <= desktop -> clamp 0 ABS_RANGE (x * ABS_RANGE / desktop) = x * ABS_RANGE / desktop).
    { intros x Hx. apply clamp_id. unfold ABS_RANGE. split; [apply Z.div_pos; lia|apply Z.div_le_upper_bound; lia]. }
    pose proof (Hq value) as Hqv. rewrite !Hs, H0, H1, !Hr; [|rewrite Z.mul_comm, Z.quot_mul by lia; lia|cbn; rewrite Z.quot_0_l by lia; lia|lia].
    unfold at_edge. rewrite (Z.mul_comm extent), Z.quot_mul by lia. cbn [Z.mul]. rewrite Z.quot_0_l, Z.add_0_r by lia. split; [|done]. split; apply Hmono; lia.
  - unfold scale. rewrite !(proj2 (Z.leb_gt _ _)) by lia. cbn [orb]. rewrite H0, H1. split.
    + assert (Z.quot ((0 + Z.quot (0 * extent) extent) * ABS_RANGE) extent = 0) as -> by (rewrite Z.mul_0_l, (Z.quot_0_l extent) by lia; apply (Z.quot_0_l extent); lia). done.
    + rewrite Z.quot_mul, Z.add_0_l, Z.mul_comm, Z.quot_mul by lia. by apply clamp_id.
Qed.

Lemma position_lands_in_output_witness : scale 2000 1920 1920 1920 3840 <= (1920 + 1920) * ABS_RANGE / 3840 /\ scale 2000 1920 1920 1920 3840 = ABS_RANGE.
Proof.
  split; [|by vm_compute]. assert (H0 : is_u32 1920) by by unfold is_u32, M32. assert (H1 : 0 < 1920 < M32) by by unfold M32. assert (H2 : 0 < 3840 < M32) by by unfold M32. assert (H3 : - 2147483648 <= 2000 < 2147483648) by lia.
  pose proof (position_lands_in_output 2000 1920 1920 1920 3840 H3 H1 H0 H0 H2) as (_ & _ & _ & H & _). apply H. lia.
Defined.
