(* ===== verification/InputEvents.v ===== *)
(** * The input seam ([media/src/input.rs])

    Platform-independent input events: the 32-byte wire form and the 12-byte
    force-feedback form as [Wire] instances, the translation into control
    fields, the bounded coalescing queue, the lease that lets go of input whose
    sender has vanished, and the gate in front of absolute pointer motion. *)

From stdpp Require Import sets.
From S2P Require Import Prelude Fallible Datagram Records.

Definition FLAG_RELATIVE : Z := 0x0001.
Definition FLAG_PEN_ERASER : Z := 0x0002.
Definition PEN_PRESSURE_MAX : Z := 8191.
Definition MAGIC : list Z := [0x4F; 0x49].
Definition VERSION : Z := 1.
Definition EVENT_LEN : Z := 32.
Definition RUMBLE_MAGIC : list Z := [0x4F; 0x52].
Definition RUMBLE_VERSION : Z := 1.
Definition RUMBLE_LEN : Z := 12.
Definition I32_MIN : Z := -2147483648.
Definition I32_MAX : Z := 2147483647.

Module Kind.

Inductive InputKind :=
  | Keyboard | PointerMotion | PointerButton | Wheel | GamepadButton | GamepadAxis | Release | GamepadUnplug
  | PenMotion | PenButton | PenProximity.

#[export] Instance InputKind_eq_dec : EqDecision InputKind.
Proof. solve_decision. Defined.

(** [kind as u8]. *)
Definition code (k : InputKind) : Z :=
  match k with
  | Keyboard => 1 | PointerMotion => 2 | PointerButton => 3 | Wheel => 4 | GamepadButton => 5 | GamepadAxis => 6
  | Release => 7 | GamepadUnplug => 8 | PenMotion => 9 | PenButton => 10 | PenProximity => 11
  end.

Inductive InputCapability := BasicInput | Gamepad | Tablet.

Definition capability (k : InputKind) : InputCapability :=
  match k with
  | GamepadButton | GamepadAxis | GamepadUnplug => Gamepad
  | PenMotion | PenButton | PenProximity => Tablet
  | Keyboard | PointerMotion | PointerButton | Wheel | Release => BasicInput
  end.

End Kind.
Export (hints) Kind.

Inductive IError := BadLength | BadMagic | UnsupportedVersion (version : Z) | UnknownKind (kind : Z) | ReservedBits.

Definition kind_try_from (value : Z) : fallible IError Kind.InputKind :=
  match value with
  | 1 => Good Kind.Keyboard | 2 => Good Kind.PointerMotion | 3 => Good Kind.PointerButton | 4 => Good Kind.Wheel
  | 5 => Good Kind.GamepadButton | 6 => Good Kind.GamepadAxis | 7 => Good Kind.Release | 8 => Good Kind.GamepadUnplug
  | 9 => Good Kind.PenMotion | 10 => Good Kind.PenButton | 11 => Good Kind.PenProximity
  | _ => Bad (UnknownKind value)
  end.

Record InputEvent := mkInputEvent {
  ie_kind : Kind.InputKind;
  ie_flags : Z;
  ie_device_id : Z;
  ie_code : Z;
  ie_value : Z;
  ie_value2 : Z;
  ie_timestamp_us : Z;
}.

#[export] Instance InputEvent_eq_dec : EqDecision InputEvent.
Proof. solve_decision. Defined.
#[export] Instance eta_InputEvent : Eta InputEvent := fun e =>
  mkInputEvent (ie_kind e) (ie_flags e) (ie_device_id e) (ie_code e) (ie_value e) (ie_value2 e) (ie_timestamp_us e).

Record LowlatFields := mkLowlatFields { lf_opcode : Z; lf_a0 : Z; lf_a1 : Z; lf_a2 : Z }.

(** ** Wire form *)

Definition event_encode (e : InputEvent) : list Z :=
  MAGIC ++ [VERSION; Kind.code (ie_kind e)] ++ be_bytes 2 (ie_flags e) ++ be_bytes 4 (ie_device_id e) ++ be_bytes 4 (ie_code e) ++
  be_bytes 4 (wrap32 (ie_value e)) ++ be_bytes 4 (wrap32 (ie_value2 e)) ++ be_bytes 8 (ie_timestamp_us e) ++ [0; 0].

Definition event_decode (bytes : list Z) : fallible IError InputEvent :=
  if negb (zlen bytes =? EVENT_LEN) then Bad BadLength else
  if negb (bool_decide (range bytes 0 2 = MAGIC)) then Bad BadMagic else
  if negb (byte_at bytes 2 =? VERSION) then Bad (UnsupportedVersion (byte_at bytes 2)) else
  if negb (bool_decide (range bytes 30 32 = [0; 0])) then Bad ReservedBits else
  kind ← kind_try_from (byte_at bytes 3);
  Good (mkInputEvent kind (be_val (range bytes 4 6)) (be_val (range bytes 6 10)) (be_val (range bytes 10 14))
    (as_i32 (be_val (range bytes 14 18))) (as_i32 (be_val (range bytes 18 22))) (be_val (range bytes 22 30))).

Record RumbleEvent := mkRumbleEvent { re_device_id : Z; re_strong : Z; re_weak : Z }.

Inductive RumbleError := RBadLength | RBadMagic | RUnsupportedVersion (version : Z) | RReservedBits.

Definition rumble_encode (r : RumbleEvent) : list Z :=
  RUMBLE_MAGIC ++ [RUMBLE_VERSION; 0] ++ be_bytes 4 (re_device_id r) ++ [re_strong r; re_weak r; 0; 0].

Definition rumble_decode (bytes : list Z) : fallible RumbleError RumbleEvent :=
  if negb (zlen bytes =? RUMBLE_LEN) then Bad RBadLength else
  if negb (bool_decide (range bytes 0 2 = RUMBLE_MAGIC)) then Bad RBadMagic else
  if negb (byte_at bytes 2 =? RUMBLE_VERSION) then Bad (RUnsupportedVersion (byte_at bytes 2)) else
  if negb (byte_at bytes 3 =? 0) || negb (bool_decide (range bytes 10 12 = [0; 0])) then Bad RReservedBits else
  Good (mkRumbleEvent (be_val (range bytes 4 8)) (byte_at bytes 8) (byte_at bytes 9)).

(** ** Constructors *)

Definition keyboard (usage modifiers : Z) (pressed : bool) (timestamp_us : Z) : InputEvent :=
  mkInputEvent Kind.Keyboard modifiers 0 usage (Z.b2z pressed) 0 timestamp_us.
Definition pointer_motion (relative : bool) (x y timestamp_us : Z) : InputEvent :=
  mkInputEvent Kind.PointerMotion (if relative then FLAG_RELATIVE else 0) 0 0 x y timestamp_us.
Definition pointer_button (button : Z) (pressed : bool) (timestamp_us : Z) : InputEvent :=
  mkInputEvent Kind.PointerButton 0 0 button (Z.b2z pressed) 0 timestamp_us.
Definition wheel (x y timestamp_us : Z) : InputEvent := mkInputEvent Kind.Wheel 0 0 0 x y timestamp_us.
Definition gamepad_button (pad button : Z) (pressed : bool) (timestamp_us : Z) : InputEvent :=
  mkInputEvent Kind.GamepadButton 0 pad button (Z.b2z pressed) 0 timestamp_us.
Definition gamepad_axis (pad axis value timestamp_us : Z) : InputEvent := mkInputEvent Kind.GamepadAxis 0 pad axis value 0 timestamp_us.
Definition gamepad_unplug (pad timestamp_us : Z) : InputEvent := mkInputEvent Kind.GamepadUnplug 0 pad 0 0 0 timestamp_us.
Definition pen_motion (tablet x y pressure : Z) (eraser : bool) (timestamp_us : Z) : InputEvent :=
  mkInputEvent Kind.PenMotion (if eraser then FLAG_PEN_ERASER else 0) tablet
    (if PEN_PRESSURE_MAX <? pressure then PEN_PRESSURE_MAX else pressure) x y timestamp_us.
Definition pen_button (tablet button : Z) (pressed : bool) (timestamp_us : Z) : InputEvent :=
  mkInputEvent Kind.PenButton 0 tablet button (Z.b2z pressed) 0 timestamp_us.
Definition pen_proximity (tablet : Z) (in_range : bool) (timestamp_us : Z) : InputEvent :=
  mkInputEvent Kind.PenProximity 0 tablet 0 (Z.b2z in_range) 0 timestamp_us.
Definition release_all (timestamp_us : Z) : InputEvent := mkInputEvent Kind.Release 0 0 0 0 0 timestamp_us.
Definition release (timestamp_us : Z) : InputEvent := release_all timestamp_us.

(** ** Control fields *)

Definition is_relative (flags : Z) : bool := negb (Z.land flags FLAG_RELATIVE =? 0).
Definition pressed (e : InputEvent) : Z := Z.b2z (negb (ie_value e =? 0)).

(** The clamped axis value as the sixteen bits of an [i16]. *)
Definition axis_bits (value : Z) : Z := Z.max (-32768) (Z.min 32767 value) mod 65536.

Definition lowlat_fields (e : InputEvent) : LowlatFields :=
  match ie_kind e with
  | Kind.Keyboard => mkLowlatFields 0 (ie_code e) (ie_flags e) (pressed e)
  | Kind.PointerMotion => mkLowlatFields 3 (Z.b2z (is_relative (ie_flags e))) (wrap32 (ie_value e)) (wrap32 (ie_value2 e))
  | Kind.PointerButton => mkLowlatFields 1 (ie_code e) (pressed e) 0
  | Kind.Wheel => mkLowlatFields 2 (wrap32 (ie_value e)) (wrap32 (ie_value2 e)) 0
  | Kind.GamepadButton => mkLowlatFields 4 (ie_code e) (pressed e) (ie_device_id e)
  | Kind.GamepadAxis => mkLowlatFields 5 (ie_code e) (axis_bits (ie_value e)) (ie_device_id e)
  | Kind.Release => mkLowlatFields 24 0 0 0
  | Kind.GamepadUnplug => mkLowlatFields 6 0 0 (ie_device_id e)
  | Kind.PenMotion => mkLowlatFields 3 0 (wrap32 (ie_value e)) (wrap32 (ie_value2 e))
  | Kind.PenButton => mkLowlatFields 1 (ie_code e) (pressed e) 0
  | Kind.PenProximity => mkLowlatFields 17 0 0 0
  end.

(** ** The queue *)

Inductive EnqueueStatus := Enqueued | Coalesced | DroppedRelativeMotion.
Inductive InputQueueError := Full (kind : Kind.InputKind).

Record InputQueue := mkInputQueue { iq_events : list InputEvent; iq_capacity : Z }.
#[export] Instance eta_InputQueue : Eta InputQueue := fun q => mkInputQueue (iq_events q) (iq_capacity q).

Definition with_capacity (capacity : Z) : InputQueue := mkInputQueue [] capacity.
Definition queue_len (q : InputQueue) : Z := zlen (iq_events q).
Definition queue_is_empty (q : InputQueue) : bool := queue_len q =? 0.

Definition can_coalesce (previous next : InputEvent) : bool :=
  bool_decide (ie_kind previous = Kind.PointerMotion) && bool_decide (ie_kind next = Kind.PointerMotion) &&
  (ie_flags previous =? ie_flags next) && is_relative (ie_flags previous) &&
  (ie_device_id previous =? ie_device_id next) && (ie_code previous =? ie_code next).

Definition is_relative_motion (e : InputEvent) : bool := bool_decide (ie_kind e = Kind.PointerMotion) && is_relative (ie_flags e).

Definition saturating_add_i32 (a b : Z) : Z := Z.max I32_MIN (Z.min I32_MAX (a + b)).

(** [back_mut]: the merged event takes the place of the last one. *)
Definition merge (previous event : InputEvent) : InputEvent :=
  previous <| ie_value := saturating_add_i32 (ie_value previous) (ie_value event) |>
    <| ie_value2 := saturating_add_i32 (ie_value2 previous) (ie_value2 event) |>
    <| ie_timestamp_us := ie_timestamp_us event |>.

Definition enqueue (q : InputQueue) (event : InputEvent) : InputQueue * fallible InputQueueError EnqueueStatus :=
  if iq_capacity q <=? zlen (iq_events q) then
    if is_relative_motion event then (q, Good DroppedRelativeMotion) else (q, Bad (Full (ie_kind event)))
  else (q <| iq_events := iq_events q ++ [event] |>, Good Enqueued).

Definition push (q : InputQueue) (event : InputEvent) : InputQueue * fallible InputQueueError EnqueueStatus :=
  match list.last (iq_events q) with
  | Some previous =>
      if can_coalesce previous event
      then (q <| iq_events := <[pred (length (iq_events q)) := merge previous event]> (iq_events q) |>, Good Coalesced)
      else enqueue q event
  | None => enqueue q event
  end.

Definition pop_front (q : InputQueue) : InputQueue * option InputEvent :=
  match iq_events q with e :: rest => (q <| iq_events := rest |>, Some e) | [] => (q, None) end.

(** ** The lease *)

Record InputLease := mkInputLease { il_timeout_us : Z; il_renewed_at_us : option Z }.
#[export] Instance eta_InputLease : Eta InputLease := fun l => mkInputLease (il_timeout_us l) (il_renewed_at_us l).

Definition lease_new (timeout_us : Z) : InputLease := mkInputLease timeout_us None.
Definition is_active (l : InputLease) : bool := match il_renewed_at_us l with Some _ => true | None => false end.
Definition renew (l : InputLease) (timestamp_us : Z) : InputLease := l <| il_renewed_at_us := Some timestamp_us |>.
Definition disarm (l : InputLease) : InputLease := l <| il_renewed_at_us := None |>.

Definition poll_expiry (l : InputLease) (timestamp_us : Z) : InputLease * option InputEvent :=
  match il_renewed_at_us l with
  | None => (l, None)
  | Some renewed_at_us =>
      if timestamp_us <? saturating_add U64_MAX renewed_at_us (il_timeout_us l) then (l, None)
      else (disarm l, Some (release_all timestamp_us))
  end.

Definition focus_lost (l : InputLease) (timestamp_us : Z) : InputLease * option InputEvent :=
  match il_renewed_at_us l with
  | None => (l, None)
  | Some _ => (disarm l, Some (release_all timestamp_us))
  end.

(** ** The motion gate *)

Definition Key : Type := Z * Z * Z.
Definition MotionGate : Type := option Key.

(** The tuple's derived order. *)
Definition key_leb (a b : Key) : bool :=
  let '(t, x, y) := a in let '(t', x', y') := b in
  (t <? t') || ((t =? t') && ((x <? x') || ((x =? x') && (y <=? y')))).

Definition is_absolute_motion (e : InputEvent) : bool := bool_decide (ie_kind e = Kind.PointerMotion) && negb (is_relative (ie_flags e)).
Definition motion_key (e : InputEvent) : Key := (ie_timestamp_us e, ie_value e, ie_value2 e).

Definition admit_motion (g : MotionGate) (e : InputEvent) : MotionGate * bool :=
  if negb (is_absolute_motion e) then (g, true) else
  let key := motion_key e in
  match g with
  | Some newest => if key_leb key newest then (g, false) else (Some key, true)
  | None => (Some key, true)
  end.

Definition motion_reset (g : MotionGate) : MotionGate := None.

(** ** The wire forms are exact *)

Definition is_i32 (z : Z) : Prop := I32_MIN <= z <= I32_MAX.

Definition event_valid (e : InputEvent) : Prop :=
  is_u16 (ie_flags e) /\ is_u32 (ie_device_id e) /\ is_u32 (ie_code e) /\ is_i32 (ie_value e) /\ is_i32 (ie_value2 e) /\ is_u64 (ie_timestamp_us e).

Definition rumble_valid (r : RumbleEvent) : Prop := is_u32 (re_device_id r) /\ is_u8 (re_strong r) /\ is_u8 (re_weak r).

#[export] Instance event_wire : Wire InputEvent IError := {|
  wire_encode e := Good (event_encode e);
  wire_decode := event_decode;
  wire_valid := event_valid;
|}.

#[export] Instance rumble_wire : Wire RumbleEvent RumbleError := {|
  wire_encode r := Good (rumble_encode r);
  wire_decode := rumble_decode;
  wire_valid := rumble_valid;
|}.

Lemma input_kind_round k : kind_try_from (Kind.code k) = Good k.
Proof. by destruct k. Qed.

Lemma kind_inv z k : kind_try_from z = Good k -> z = Kind.code k.
Proof. unfold kind_try_from. repeat case_match; intros; simplify_eq; done. Qed.

Lemma kind_u8 k : is_u8 (Kind.code k).
Proof. by destruct k. Qed.

(** Two's complement there and back. *)
Lemma as_i32_wrap v : is_i32 v -> as_i32 (wrap32 v) = v.
Proof.
  unfold is_i32, I32_MIN, I32_MAX, as_i32, wrap32, M32. intros H.
  destruct (Z_lt_le_dec v 0); [rewrite <- (Z.mod_add _ 1), Z.mod_small by lia|rewrite Z.mod_small by lia]; case_match; bool_prop; lia.
Qed.

Lemma wrap_as_i32 v : is_u32 v -> wrap32 (as_i32 v) = v /\ is_i32 (as_i32 v).
Proof.
  unfold is_u32, is_i32, I32_MIN, I32_MAX, as_i32, wrap32, M32. intros H. case_match; bool_prop; (split; [|lia]).
  - by apply Z.mod_small.
  - rewrite <- (Z.mod_add _ 1), Z.mod_small by lia. lia.
Qed.

Lemma be_field n v : bytes_ok (be_bytes n v) /\ zlen (be_bytes n v) = Z.of_nat n.
Proof. split; [apply be_bytes_ok|apply zlen_be_bytes]. Qed.

Ltac event_field x y z :=
  rewrite (range_at _ x y z) by ((rewrite <- ?app_assoc; reflexivity) || zlia).

Lemma event_round e : event_valid e -> bytes_ok (event_encode e) /\ zlen (event_encode e) = EVENT_LEN /\ event_decode (event_encode e) = Good e.
Proof.
  destruct e as [k fl d c v v2 t]. intros (H1 & H2 & H3 & H4 & H5 & H6). cbn [ie_flags ie_device_id ie_code ie_value ie_value2 ie_timestamp_us] in *.
  assert (Hl : zlen (event_encode (mkInputEvent k fl d c v v2 t)) = EVENT_LEN) by (unfold event_encode, EVENT_LEN, MAGIC; cbn [ie_kind ie_flags ie_device_id ie_code ie_value ie_value2 ie_timestamp_us]; zlia).
  split; [|split; [done|]].
  { unfold event_encode. cbn [ie_kind ie_flags ie_device_id ie_code ie_value ie_value2 ie_timestamp_us]. rewrite !bytes_ok_app. repeat split; try apply be_bytes_ok; by repeat (apply Forall_cons_2; [done || apply kind_u8|]). }
  unfold event_decode. rewrite Hl. cbn [Z.eqb EVENT_LEN Pos.eqb negb]. unfold event_encode. cbn [ie_kind ie_flags ie_device_id ie_code ie_value ie_value2 ie_timestamp_us].
  set (h := MAGIC ++ [VERSION; Kind.code k]). set (f1 := be_bytes 2 fl). set (f2 := be_bytes 4 d). set (f3 := be_bytes 4 c). set (f4 := be_bytes 4 (wrap32 v)).
  set (f5 := be_bytes 4 (wrap32 v2)). set (f6 := be_bytes 8 t). rewrite app_assoc. fold h. change (byte_at (h ++ ?r) 2) with VERSION. change (byte_at (h ++ ?r) 3) with (Kind.code k).
  change (range (h ++ ?r) 0 2) with MAGIC. rewrite bool_decide_true by done. cbn [negb Z.eqb VERSION Pos.eqb].
  assert (L1 : zlen f1 = 2) by apply zlen_be_bytes. assert (L2 : zlen f2 = 4) by apply zlen_be_bytes. assert (L3 : zlen f3 = 4) by apply zlen_be_bytes.
  assert (L4 : zlen f4 = 4) by apply zlen_be_bytes. assert (L5 : zlen f5 = 4) by apply zlen_be_bytes. assert (L6 : zlen f6 = 8) by apply zlen_be_bytes. assert (L0 : zlen h = 4) by done.
  assert (Ht : range (h ++ f1 ++ f2 ++ f3 ++ f4 ++ f5 ++ f6 ++ [0; 0]) 30 32 = [0; 0]).
  { rewrite (range_at _ (h ++ f1 ++ f2 ++ f3 ++ f4 ++ f5 ++ f6) [0; 0] []); [done|by rewrite <- !app_assoc, app_nil_r|rewrite !zlen_app; lia|done]. }
  rewrite Ht, bool_decide_true by done. cbn [negb]. rewrite input_kind_round. cbn [mbind fallible_bind].
  rewrite (range_at _ h f1 (f2 ++ f3 ++ f4 ++ f5 ++ f6 ++ [0; 0]) 4 6), (range_at _ (h ++ f1) f2 (f3 ++ f4 ++ f5 ++ f6 ++ [0; 0]) 6 10),
    (range_at _ (h ++ f1 ++ f2) f3 (f4 ++ f5 ++ f6 ++ [0; 0]) 10 14), (range_at _ (h ++ f1 ++ f2 ++ f3) f4 (f5 ++ f6 ++ [0; 0]) 14 18),
    (range_at _ (h ++ f1 ++ f2 ++ f3 ++ f4) f5 (f6 ++ [0; 0]) 18 22), (range_at _ (h ++ f1 ++ f2 ++ f3 ++ f4 ++ f5) f6 [0; 0] 22 30)
    by (first [by rewrite <- ?app_assoc | rewrite ?zlen_app; lia]).
  unfold f1, f2, f3, f4, f5, f6. pose proof (wrap32_range v). pose proof (wrap32_range v2). unfold is_u16, is_u32, is_u64, U64_MAX, M32 in *.
  rewrite !be_val_bytes by (change (256 ^ Z.of_nat 2) with 65536; change (256 ^ Z.of_nat 4) with 4294967296; change (256 ^ Z.of_nat 8) with 18446744073709551616; lia).
  by rewrite !as_i32_wrap.
Qed.

Lemma event_canonical b e : bytes_ok b -> event_decode b = Good e -> event_valid e /\ event_encode e = b.
Proof.
  intros Hb H. unfold event_decode in H. destruct (zlen b =? EVENT_LEN) eqn:El; [|done]. destruct (bool_decide (range b 0 2 = MAGIC)) eqn:Em; [|done].
  destruct (byte_at b 2 =? VERSION) eqn:Ev; [|done]. destruct (bool_decide (range b 30 32 = [0; 0])) eqn:Er; [|done]. cbn [negb] in H.
  apply bind_good in H as (k & Hk%kind_inv & H). injection H as <-. apply bool_decide_eq_true in Em, Er. bool_prop. change EVENT_LEN with 32 in El.
  pose proof (be_val_range_lt 2 b 4 6 Hb) as R1. pose proof (be_val_range_lt 4 b 6 10 Hb) as R2. pose proof (be_val_range_lt 4 b 10 14 Hb) as R3.
  pose proof (be_val_range_lt 4 b 14 18 Hb) as R4. pose proof (be_val_range_lt 4 b 18 22 Hb) as R5. pose proof (be_val_range_lt 8 b 22 30 Hb) as R6.
  change (256 ^ Z.of_nat 2) with 65536 in *. change (256 ^ Z.of_nat 4) with M32 in *. change (256 ^ Z.of_nat 8) with 18446744073709551616 in *.
  destruct (wrap_as_i32 (be_val (range b 14 18))) as [W1 W1']; [unfold is_u32; lia|]. destruct (wrap_as_i32 (be_val (range b 18 22))) as [W2 W2']; [unfold is_u32; lia|].
  split; [unfold event_valid, is_u16, is_u32, is_u64, U64_MAX; cbn; repeat split; (lia || apply W1' || apply W2')|].
  unfold event_encode. cbn [ie_kind ie_flags ie_device_id ie_code ie_value ie_value2 ie_timestamp_us]. rewrite W1, W2, !be_bytes_range by (done || lia).
  rewrite <- Em, <- Er, <- Hk, <- Ev. assert (Hall : range b 0 32 = b) by (rewrite <- El; apply range_all). transitivity (range b 0 32); [|done].
  rewrite (range_split b 0 2 32), (range_split b 2 3 32), (range_split b 3 4 32), (range_split b 4 6 32), (range_split b 6 10 32), (range_split b 10 14 32),
    (range_split b 14 18 32), (range_split b 18 22 32), (range_split b 22 30 32) by lia.
  rewrite (range_byte b 2 3), (range_byte b 3 4) by lia. reflexivity.
Qed.

#[export] Instance event_wire_laws : WireLaws event_wire.
Proof.
  split; cbn [wire_valid wire_encode wire_decode event_wire].
  - intros e He. destruct (event_round e He) as (H1 & H2 & H3). exists (event_encode e). split; [done|]. split; [done|]. split; [by rewrite H2|done].
  - intros b e Hb Hd. destruct (event_canonical b e Hb Hd) as [H1 H2]. by rewrite H2.
Qed.

Lemma rumble_round r : rumble_valid r -> bytes_ok (rumble_encode r) /\ zlen (rumble_encode r) = RUMBLE_LEN /\ rumble_decode (rumble_encode r) = Good r.
Proof.
  destruct r as [d s w]. intros (H1 & H2 & H3). cbn [re_device_id re_strong re_weak] in *. unfold rumble_encode. cbn [re_device_id re_strong re_weak].
  split; [rewrite !bytes_ok_app; repeat split; try apply be_bytes_ok; by repeat (apply Forall_cons_2; [done|])|].
  destruct (be_bytes_4 d) as (a & b & c & e & E). split; [by rewrite E|].
  pose proof (be_val_bytes 4 d) as Hv. rewrite E in *. unfold rumble_decode. change (_ ++ _) with [79; 82; RUMBLE_VERSION; 0; a; b; c; e; s; w; 0; 0].
  rewrite (range_at _ [79; 82; RUMBLE_VERSION; 0] [a; b; c; e] [s; w; 0; 0] 4 8) by done. rewrite Hv by exact H1. reflexivity.
Qed.

Lemma rumble_canonical b r : bytes_ok b -> rumble_decode b = Good r -> rumble_valid r /\ rumble_encode r = b.
Proof.
  intros Hb H. unfold rumble_decode in H. destruct (zlen b =? RUMBLE_LEN) eqn:El; [|done]. destruct (bool_decide (range b 0 2 = RUMBLE_MAGIC)) eqn:Em; [|done].
  destruct (byte_at b 2 =? RUMBLE_VERSION) eqn:Ev; [|done]. destruct (byte_at b 3 =? 0) eqn:Ez; [|done]. destruct (bool_decide (range b 10 12 = [0; 0])) eqn:Er; [|done]. cbn in H.
  injection H as <-. apply bool_decide_eq_true in Em, Er. bool_prop. change RUMBLE_LEN with 12 in El. pose proof (be_val_range_lt 4 b 4 8 Hb).
  change (256 ^ Z.of_nat 4) with M32 in *. split; [split; [unfold is_u32; cbn [re_device_id]; lia|split; by apply byte_at_ok]|].
  unfold rumble_encode. cbn [re_device_id re_strong re_weak]. rewrite be_bytes_range by (done || lia). change [byte_at b 8; byte_at b 9; 0; 0] with ([byte_at b 8] ++ [byte_at b 9] ++ [0; 0]). change [RUMBLE_VERSION; 0] with ([RUMBLE_VERSION] ++ [0]).
  assert (Hall : range b 0 12 = b) by (rewrite <- El; apply range_all). transitivity (range b 0 12); [|done].
  rewrite (range_split b 0 2 12), (range_split b 2 3 12), (range_split b 3 4 12), (range_split b 4 8 12), (range_split b 8 9 12), (range_split b 9 10 12) by lia.
  rewrite (range_byte b 2 3), (range_byte b 3 4), (range_byte b 8 9), (range_byte b 9 10) by lia. rewrite Em, Ev, Ez, Er. reflexivity.
Qed.

#[export] Instance rumble_wire_laws : WireLaws rumble_wire.
Proof.
  split; cbn [wire_valid wire_encode wire_decode rumble_wire].
  - intros r Hr. destruct (rumble_round r Hr) as (H1 & H2 & H3). exists (rumble_encode r). split; [done|]. split; [done|]. split; [by rewrite H2|done].
  - intros b r Hb Hd. destruct (rumble_canonical b r Hb Hd) as [H1 H2]. by rewrite H2.
Qed.

(** ** The queue loses nothing that matters *)

(** What a run of the queue accepted and handed out. *)
Record QRun := mkQRun { qr_queue : InputQueue; qr_accepted : list InputEvent; qr_popped : list InputEvent }.

Inductive qop := QPush (event : InputEvent) | QPop.

Definition took (r : fallible InputQueueError EnqueueStatus) : bool :=
  match r with Good (Enqueued | Coalesced) => true | _ => false end.

Definition qstep (r : QRun) (op : qop) : QRun :=
  match op with
  | QPush e =>
      let '(q, result) := push (qr_queue r) e in
      mkQRun q (if took result then qr_accepted r ++ [e] else qr_accepted r) (qr_popped r)
  | QPop =>
      let '(q, e) := pop_front (qr_queue r) in
      mkQRun q (qr_accepted r) (qr_popped r ++ match e with Some e => [e] | None => [] end)
  end.

Definition queue_run (capacity : Z) (ops : list qop) : QRun := fold_left qstep ops (mkQRun (with_capacity capacity) [] []).

(** A run of events that one queued event stands for. *)
Inductive Merges : list InputEvent -> InputEvent -> Prop :=
  | merges_one e : Merges [e] e
  | merges_more g p e : Merges g p -> can_coalesce p e = true -> Merges (g ++ [e]) (merge p e).

Definition QueueInv (capacity : Z) (r : QRun) : Prop :=
  iq_capacity (qr_queue r) = capacity /\ zlen (iq_events (qr_queue r)) <= capacity /\
  exists groups, concat groups = qr_accepted r /\ Forall2 Merges groups (qr_popped r ++ iq_events (qr_queue r)).

Lemma last_split (l : list InputEvent) p : list.last l = Some p -> exists k, l = k ++ [p].
Proof. intros H. apply last_Some in H as [k ->]. by exists k. Qed.

Lemma insert_last {A} (k : list A) p x : <[pred (length (k ++ [p])) := x]> (k ++ [p]) = k ++ [x].
Proof. rewrite length_app. cbn. replace (pred (length k + 1)) with (length k + 0)%nat by lia. by rewrite insert_app_r. Qed.

Lemma queue_enqueue_inv capacity q e acc popped :
  QueueInv capacity (mkQRun q acc popped) -> let '(q', r) := enqueue q e in
  QueueInv capacity (mkQRun q' (if took r then acc ++ [e] else acc) popped).
Proof.
  intros (Hc & Hl & groups & Hg & HF). cbn [qr_queue qr_accepted qr_popped] in *. unfold enqueue. destruct (iq_capacity q <=? zlen (iq_events q)) eqn:E; bool_prop.
  - destruct (is_relative_motion e); (split; [done|split; [done|by exists groups]]).
  - cbn [took]. split; [done|]. split; [cbn; zlia|]. exists (groups ++ [[e]]). cbn [qr_queue qr_accepted qr_popped]. split; [by rewrite concat_app, Hg|].
    change (iq_events (q <| iq_events := ?l |>)) with l. rewrite app_assoc. apply Forall2_app; [done|]. constructor; [constructor|done].
Qed.

Lemma qstep_inv capacity r op : QueueInv capacity r -> QueueInv capacity (qstep r op).
Proof.
  intros HI. destruct r as [q acc popped]. destruct op as [e|]; unfold qstep; cbn [qr_queue qr_accepted qr_popped].
  - unfold push. destruct (list.last (iq_events q)) as [p|] eqn:Ep; [destruct (can_coalesce p e) eqn:Ec|].
    + destruct HI as (Hc & Hl & groups & Hg & HF). cbn [qr_queue qr_accepted qr_popped took] in *. apply last_split in Ep as [k Hk]. rewrite Hk in *.
      rewrite app_assoc in HF. apply Forall2_app_inv_r in HF as (gs & gl & H1 & H2 & ->). apply Forall2_cons_inv_r in H2 as (g & gs' & Hm & H2 & ->). apply Forall2_nil_inv_r in H2 as ->.
      split; [done|]. change (iq_events (q <| iq_events := ?l |>)) with l. cbn [qr_queue]. rewrite insert_last. split; [change (zlen (k ++ [merge p e]) <= capacity); rewrite zlen_app in *; done|].
      exists (gs ++ [g ++ [e]]). cbn [qr_queue qr_accepted qr_popped]. split; [rewrite <- Hg, !concat_app; cbn; by rewrite !app_nil_r, app_assoc|].
      change (iq_events (q <| iq_events := ?l |>)) with l. rewrite app_assoc. apply Forall2_app; [done|]. constructor; [by constructor|done].
    + pose proof (queue_enqueue_inv capacity q e acc popped HI). by destruct (enqueue q e).
    + pose proof (queue_enqueue_inv capacity q e acc popped HI). by destruct (enqueue q e).
  - destruct HI as (Hc & Hl & groups & Hg & HF). unfold pop_front. cbn [qr_queue qr_accepted qr_popped] in *. destruct (iq_events q) as [|x l] eqn:E.
    + split; [done|]. cbn. rewrite E. split; [done|]. exists groups. by rewrite app_nil_r.
    + split; [done|]. cbn. split; [zlia|]. exists groups. by rewrite <- app_assoc.
Qed.

Lemma queue_run_inv capacity ops : 0 <= capacity -> QueueInv capacity (queue_run capacity ops).
Proof.
  intros Hc. unfold queue_run. assert (H0 : QueueInv capacity (mkQRun (with_capacity capacity) [] [])) by (split; [done|split; [done|by exists []]]).
  revert H0. generalize (mkQRun (with_capacity capacity) [] []) as r. induction ops as [|op ops IH]; cbn; [done|]. intros r Hr. by apply IH, qstep_inv.
Qed.

(** Where a run of motions ends up, and how far it travels on the way. *)
Definition net (f : InputEvent -> Z) (g : list InputEvent) : Z := foldr (fun e n => f e + n) 0 g.
Definition travel (f : InputEvent -> Z) (g : list InputEvent) : Z := foldr (fun e n => Z.abs (f e) + n) 0 g.

Lemma net_snoc f g e : net f (g ++ [e]) = net f g + f e.
Proof. unfold net. induction g; cbn in *; lia. Qed.

Lemma travel_snoc f g e : travel f (g ++ [e]) = travel f g + Z.abs (f e).
Proof. unfold travel. induction g; cbn in *; lia. Qed.

Lemma coalesce_relative p e : can_coalesce p e = true -> is_relative_motion p = true /\ is_relative_motion e = true /\ is_relative_motion (merge p e) = true.
Proof.
  unfold can_coalesce, is_relative_motion. intros H. change (ie_kind (merge p e)) with (ie_kind p). change (ie_flags (merge p e)) with (ie_flags p).
  apply andb_true_iff in H as [H _]. apply andb_true_iff in H as [H _]. apply andb_true_iff in H as [H Hr]. apply andb_true_iff in H as [H Hf]. apply andb_true_iff in H as [Hp He].
  apply Z.eqb_eq in Hf. by rewrite Hp, He, <- Hf, Hr.
Qed.

Lemma merges_class g e : Merges g e -> g = [e] \/ Forall (fun x => is_relative_motion x = true) (e :: g).
Proof.
  induction 1 as [e|g p e Hm IH Hc]; [by left|]. right. destruct (coalesce_relative p e Hc) as (H1 & H2 & H3). constructor; [done|]. apply Forall_app. split; [|by constructor].
  destruct IH as [-> | IH]; [by constructor|by inversion IH].
Qed.

Lemma saturating_id a b : Z.abs (a + b) <= I32_MAX -> saturating_add_i32 a b = a + b.
Proof. unfold saturating_add_i32, I32_MIN, I32_MAX. lia. Qed.

Lemma merges_sum g e : Merges g e ->
  (travel ie_value g <= I32_MAX -> ie_value e = net ie_value g) /\ (travel ie_value2 g <= I32_MAX -> ie_value2 e = net ie_value2 g) /\
  Z.abs (net ie_value g) <= travel ie_value g /\ Z.abs (net ie_value2 g) <= travel ie_value2 g.
Proof.
  induction 1 as [e|g p e Hm (I1 & I2 & I3 & I4) Hc]; [cbn; lia|]. rewrite !net_snoc, !travel_snoc. split; [|split; [|lia]]; intros Ht.
  - change (saturating_add_i32 (ie_value p) (ie_value e) = net ie_value g + ie_value e). rewrite I1 by lia. apply saturating_id. lia.
  - change (saturating_add_i32 (ie_value2 p) (ie_value2 e) = net ie_value2 g + ie_value2 e). rewrite I2 by lia. apply saturating_id. lia.
Qed.

(** What may be turned away, and what may be lost. *)
Definition push_refuses (q : InputQueue) (e : InputEvent) : Prop :=
  (forall k, (push q e).2 = Bad (Full k) -> k = ie_kind e /\ is_relative_motion e = false /\ iq_capacity q <= zlen (iq_events q) /\ (push q e).1 = q) /\
  ((push q e).2 = Good DroppedRelativeMotion -> is_relative_motion e = true /\ iq_capacity q <= zlen (iq_events q) /\ (push q e).1 = q).

Lemma push_refuses_all q e : push_refuses q e.
Proof.
  assert (H : forall q' r, enqueue q e = (q', r) ->
    (forall k, r = Bad (Full k) -> k = ie_kind e /\ is_relative_motion e = false /\ iq_capacity q <= zlen (iq_events q) /\ q' = q) /\
    (r = Good DroppedRelativeMotion -> is_relative_motion e = true /\ iq_capacity q <= zlen (iq_events q) /\ q' = q)).
  { intros q' r. unfold enqueue. destruct (iq_capacity q <=? _) eqn:E; bool_prop; [destruct (is_relative_motion e)|]; intros [= <- <-]; split; intros; simplify_eq; done. }
  unfold push_refuses, push. destruct (list.last _) as [p|]; [destruct (can_coalesce p e)|].
  - split; [intros k|]; intros [=].
  - by destruct (enqueue q e); apply H.
  - by destruct (enqueue q e); apply H.
Qed.

(** The input queue loses nothing that matters. In every run of pushes and
    pops the queue stays within its capacity, and what was handed out followed
    by what is queued is the accepted events in order, cut into runs each stood
    for by one event: a run of more than one is relative pointer motion alone,
    so every other event comes out unchanged, once and in order; a merged event
    moves by the sum of its run unless the run travels further than 32 bits. A
    push is refused only when the queue is full and changes nothing then, with
    an error unless it is relative motion. *)
Theorem input_queue_exact (capacity : Z) (ops : list qop) :
  0 <= capacity ->
  let r := queue_run capacity ops in
  zlen (iq_events (qr_queue r)) <= capacity /\
  (exists groups, concat groups = qr_accepted r /\
    Forall2 (fun g e => (g = [e] \/ Forall (fun x => is_relative_motion x = true) (e :: g)) /\
        (travel ie_value g <= I32_MAX -> ie_value e = net ie_value g) /\ (travel ie_value2 g <= I32_MAX -> ie_value2 e = net ie_value2 g))
      groups (qr_popped r ++ iq_events (qr_queue r))) /\
  forall e, push_refuses (qr_queue r) e.
Proof.
  intros Hc r. destruct (queue_run_inv capacity ops Hc) as (_ & Hl & groups & Hg & HF). split; [done|]. split; [|intros e; apply push_refuses_all].
  exists groups. split; [done|]. eapply Forall2_impl; [|exact HF]. intros g e Hm. split; [by apply merges_class|]. destruct (merges_sum g e Hm) as (? & ? & _). done.
Qed.

Definition demo_ops : list qop :=
  [QPush (pointer_motion true 3 4 10); QPush (pointer_motion true 5 (-1) 20); QPush (keyboard 4 0 true 30); QPush (pointer_motion true 1 1 40); QPop].

Lemma input_queue_exact_witness :
  let r := queue_run 2 demo_ops in
  qr_popped r = [pointer_motion true 8 3 20] /\ iq_events (qr_queue r) = [keyboard 4 0 true 30] /\
  zlen (iq_events (qr_queue r)) <= 2 /\ push_refuses (qr_queue r) (wheel 0 120 50).
Proof.
  destruct (input_queue_exact 2 demo_ops) as (H1 & _ & H2); [lia|]. split; [by vm_compute|]. split; [by vm_compute|]. split; [exact H1|exact (H2 (wheel 0 120 50))].
Defined.

(** ** The motion gate does not depend on arrival order *)

(** What passes a gate. *)
Fixpoint passed (g : MotionGate) (l : list InputEvent) : list InputEvent :=
  match l with
  | [] => []
  | e :: l => let '(g, ok) := admit_motion g e in if ok then e :: passed g l else passed g l
  end.

Definition gate_after (g : MotionGate) (l : list InputEvent) : MotionGate := fold_left (fun g e => (admit_motion g e).1) l g.

(** Where the pointer is after a sequence of applied events. *)
Definition applied_position (at_ : option (Z * Z)) (l : list InputEvent) : option (Z * Z) :=
  fold_left (fun p e => if is_absolute_motion e then Some (ie_value e, ie_value2 e) else p) l at_.

Definition key_position (k : Key) : Z * Z := (k.1.2, k.2).

Lemma key_leb_total a b : key_leb a b = true \/ key_leb b a = true.
Proof. destruct a as [[t x] y], b as [[t' x'] y']. unfold key_leb. rewrite !orb_true_iff, !andb_true_iff, !orb_true_iff, !andb_true_iff. bool_prop. lia. Qed.

Lemma key_leb_trans a b c : key_leb a b = true -> key_leb b c = true -> key_leb a c = true.
Proof.
  destruct a as [[t x] y], b as [[t' x'] y'], c as [[t'' x''] y'']. unfold key_leb. rewrite !orb_true_iff, !andb_true_iff, !orb_true_iff, !andb_true_iff.
  rewrite ?Z.ltb_lt, ?Z.eqb_eq, ?Z.leb_le. lia.
Qed.

Lemma key_leb_antisym a b : key_leb a b = true -> key_leb b a = true -> a = b.
Proof.
  destruct a as [[t x] y], b as [[t' x'] y']. unfold key_leb. rewrite !orb_true_iff, !andb_true_iff, !orb_true_iff, !andb_true_iff.
  rewrite ?Z.ltb_lt, ?Z.eqb_eq, ?Z.leb_le. intros. assert (t = t' /\ x = x' /\ y = y') as (-> & -> & ->) by lia. done.
Qed.

Definition motion_keys (l : list InputEvent) : list Key := motion_key <$> filter (fun e => is_absolute_motion e = true) l.

(** The gate holds the largest key there was. *)
Definition Largest (k : Key) (ks : list Key) : Prop := k ∈ ks /\ forall k', k' ∈ ks -> key_leb k' k = true.

#[global] Arguments key_leb _ _ : simpl never.

Lemma key_leb_refl k : key_leb k k = true.
Proof. by destruct (key_leb_total k k). Qed.

Lemma largest_unique a b ks ks' : Largest a ks -> Largest b ks' -> ks ≡ₚ ks' -> a = b.
Proof. intros [A1 A2] [B1 B2] HP. apply key_leb_antisym; [apply B2; by rewrite <- HP|apply A2; by rewrite HP]. Qed.

Definition gate_keys (g : MotionGate) : list Key := match g with Some k => [k] | None => [] end.

Lemma admit_motion_largest g e : let g' := (admit_motion g e).1 in
  match g' with Some k => Largest k (gate_keys g ++ motion_keys [e]) | None => gate_keys g ++ motion_keys [e] = [] end.
Proof.
  unfold admit_motion, motion_keys. destruct (is_absolute_motion e) eqn:Ea.
  - rewrite filter_cons_True by done. cbn. destruct g as [n|]; cbn; [destruct (key_leb (motion_key e) n) eqn:El; cbn|].
    + split; [set_solver|]. intros k' [-> | ->%list_elem_of_singleton]%elem_of_cons; [apply key_leb_refl|done].
    + split; [set_solver|]. intros k' [-> | ->%list_elem_of_singleton]%elem_of_cons; [|apply key_leb_refl]. destruct (key_leb_total (motion_key e) n); congruence.
    + split; [set_solver|]. intros k' ->%list_elem_of_singleton. apply key_leb_refl.
  - rewrite filter_cons_False by (by rewrite Ea). cbn. destruct g as [n|]; cbn; [|done]. split; [set_solver|]. intros k' ->%list_elem_of_singleton. apply key_leb_refl.
Qed.

Lemma motion_keys_cons e l : motion_keys (e :: l) = motion_keys [e] ++ motion_keys l.
Proof. unfold motion_keys. destruct (is_absolute_motion e) eqn:Ea; [by rewrite !filter_cons_True|by rewrite !filter_cons_False by (by rewrite Ea)]. Qed.

Lemma largest_step k ks k' ls : Largest k ks -> Largest k' (k :: ls) -> Largest k' (ks ++ ls).
Proof.
  intros [H1 H2] [H3 H4]. split.
  - apply elem_of_app. apply elem_of_cons in H3 as [-> | H3]; auto.
  - intros x [Hx|Hx]%elem_of_app; [|apply H4; by constructor]. apply (key_leb_trans x k); [by apply H2|apply H4; by constructor].
Qed.

Lemma gate_after_largest g l :
  match gate_after g l with Some k => Largest k (gate_keys g ++ motion_keys l) | None => gate_keys g ++ motion_keys l = [] end.
Proof.
  revert g. induction l as [|e l IH]; intros g.
  - cbn. destruct g; cbn; [|done]. split; [set_solver|]. intros k' ->%list_elem_of_singleton. apply key_leb_refl.
  - change (gate_after g (e :: l)) with (gate_after (admit_motion g e).1 l). rewrite motion_keys_cons, app_assoc.
    pose proof (admit_motion_largest g e) as H. cbv zeta in H. specialize (IH (admit_motion g e).1). destruct (admit_motion g e).1 as [k|].
    + cbn [gate_keys app] in IH. destruct (gate_after _ l) as [k'|]; [|done]. by apply (largest_step k).
    + rewrite H. exact IH.
Qed.

Lemma position_passed g l : applied_position (key_position <$> g) (passed g l) = key_position <$> gate_after g l.
Proof.
  revert g. induction l as [|e l IH]; intros g; [done|]. change (gate_after g (e :: l)) with (gate_after (admit_motion g e).1 l). rewrite <- IH.
  cbn [passed]. destruct (admit_motion g e) as [g' ok] eqn:E. cbn [fst]. unfold admit_motion in E. destruct (is_absolute_motion e) eqn:Ea; cbn [negb] in E.
  - assert (H : (g' = g /\ ok = false) \/ (g' = Some (motion_key e) /\ ok = true)) by (destruct g as [n|]; [destruct (key_leb _ n)|]; injection E as <- <-; auto).
    destruct H as [[-> ->]|[-> ->]]; [done|]. unfold applied_position. cbn [fold_left]. by rewrite Ea.
  - injection E as <- <-. unfold applied_position. cbn [fold_left]. by rewrite Ea.
Qed.

(** Every position let through is newer than all before it. *)
Fixpoint newer (g : MotionGate) (ks : list Key) : Prop :=
  match ks with
  | [] => True
  | k :: ks => match g with Some n => key_leb k n = false | None => True end /\ newer (Some k) ks
  end.

Lemma passed_newer g l : newer g (motion_keys (passed g l)).
Proof.
  revert g. induction l as [|e l IH]; intros g; [done|]. cbn [passed]. destruct (admit_motion g e) as [g' ok] eqn:E. unfold admit_motion in E.
  destruct (is_absolute_motion e) eqn:Ea; cbn [negb] in E.
  - assert (Hk : forall m, motion_keys (e :: m) = motion_key e :: motion_keys m) by (intros m; unfold motion_keys; by rewrite filter_cons_True).
    destruct g as [n|]; [destruct (key_leb _ n) eqn:El|]; injection E as <- <-; [apply IH| |]; rewrite Hk; (split; [done|apply IH]).
  - injection E as <- <-. unfold motion_keys. rewrite filter_cons_False by (by rewrite Ea). apply IH.
Qed.

Lemma passed_others g l : filter (fun e => is_absolute_motion e = false) (passed g l) = filter (fun e => is_absolute_motion e = false) l.
Proof.
  revert g. induction l as [|e l IH]; intros g; [done|]. cbn [passed]. destruct (admit_motion g e) as [g' ok] eqn:E. unfold admit_motion in E.
  destruct (is_absolute_motion e) eqn:Ea; cbn [negb] in E.
  - rewrite (filter_cons_False _ e l) by (by rewrite Ea). destruct ok; [rewrite filter_cons_False by (by rewrite Ea)|]; apply IH.
  - injection E as <- <-. by rewrite !filter_cons_True, IH by done.
Qed.

Lemma motion_keys_perm l l' : l ≡ₚ l' -> motion_keys l ≡ₚ motion_keys l'.
Proof. intros H. unfold motion_keys. by rewrite H. Qed.

(** (C30) Where the pointer ends up does not depend on the order of arrival. A
    gate lets positions through strictly forward in the order of their stamps
    (and of the position itself on a tie) and never holds back anything else;
    so whatever an unordered transport does to a set of events, the pointer
    stands at the position with the greatest key among all that arrived. *)
Theorem motion_order_independent (l l' : list InputEvent) :
  l ≡ₚ l' ->
  applied_position None (passed None l) = applied_position None (passed None l') /\
  match applied_position None (passed None l) with
  | Some p => exists k, key_position k = p /\ Largest k (motion_keys l)
  | None => motion_keys l = []
  end /\
  newer None (motion_keys (passed None l)) /\
  filter (fun e => is_absolute_motion e = false) (passed None l) = filter (fun e => is_absolute_motion e = false) l.
Proof.
  intros HP. pose proof (position_passed None l) as E. pose proof (position_passed None l') as E'. cbn [fmap option_fmap option_map] in E, E'. rewrite E, E'.
  pose proof (gate_after_largest None l) as H. pose proof (gate_after_largest None l') as H'. cbn [gate_keys app] in H, H'. pose proof (motion_keys_perm l l' HP) as HK.
  split; [|split; [destruct (gate_after None l); [by eexists|done]|split; [apply passed_newer|apply passed_others]]].
  destruct (gate_after None l) as [k|], (gate_after None l') as [k'|]; [|rewrite H' in HK|rewrite H in HK|done].
  - by rewrite (largest_unique k k' _ _ H H' HK).
  - destruct H as [Hk _]. rewrite HK in Hk. by apply elem_of_nil in Hk.
  - destruct H' as [Hk _]. rewrite <- HK in Hk. by apply elem_of_nil in Hk.
Qed.

Lemma motion_order_independent_witness :
  let a := pointer_motion false 10 20 100 in let b := pointer_motion false 30 40 200 in
  applied_position None (passed None [a; b]) = applied_position None (passed None [b; a]) /\ applied_position None (passed None [b; a]) = Some (30, 40).
Proof.
  intros a b. split; [|by vm_compute]. exact (proj1 (motion_order_independent [a; b] [b; a] (perm_swap b a []))).
Defined.
