(* ===== verification/Broker.v ===== *)
(** * Where a client's input meets the devices ([host-broker/src/inject.rs],
    [linux-host/src/main.rs], [host-ipc/src/token.rs])

    The privileged broker's input sink: a payload is decoded, gated on order,
    checked against the capabilities of the session, and injected; a lease lets
    go of everything once its sender has been silent. The Linux host applies
    payloads the same way. What [Devices::rumble] reports is an argument. *)

From S2P Require Import Prelude Fallible Payload InputMaps Inject InputEvents.

(** ** Capabilities *)

Module Capabilities.
Definition CAPTURE : Z := 1.
Definition KEYBOARD : Z := 2.
Definition MOUSE : Z := 4.
Definition GAMEPAD : Z := 8.
Definition CLIPBOARD : Z := 16.
Definition KNOWN : Z := 31.
Definition none : Z := 0.
Definition all : Z := KNOWN.
Definition from_bits_truncate (bits : Z) : Z := Z.land bits KNOWN.
Definition contains (self needle : Z) : bool := Z.land self needle =? needle.
Definition with_ (self other : Z) : Z := Z.lor self other.
Definition clamped_to (self ceiling : Z) : Z := Z.land self ceiling.
Definition is_empty (self : Z) : bool := self =? 0.
End Capabilities.

Record InputGrants := mkInputGrants { gr_keyboard : bool; gr_mouse : bool; gr_gamepad : bool }.

#[export] Instance InputGrants_eq_dec : EqDecision InputGrants.
Proof. solve_decision. Defined.

Definition grants (granted : Z) : InputGrants :=
  mkInputGrants (Capabilities.contains granted Capabilities.KEYBOARD) (Capabilities.contains granted Capabilities.MOUSE)
    (Capabilities.contains granted Capabilities.GAMEPAD).

Definition event_allowed (event : InputEvent) (g : InputGrants) : bool :=
  match Kind.capability (ie_kind event) with
  | Kind.BasicInput =>
      match ie_kind event with
      | Kind.Keyboard => gr_keyboard g
      | Kind.PointerMotion | Kind.PointerButton | Kind.Wheel => gr_mouse g
      | Kind.Release => true
      | _ => false
      end
  | Kind.Gamepad => gr_gamepad g
  | Kind.Tablet => false
  end.

(** ** Applying a payload *)

(** What a payload acts on. *)
Record Target := mkTarget { tg_injector : Injector; tg_out : Log; tg_motion : MotionGate; tg_lease : InputLease }.
#[export] Instance eta_Target : Eta Target := fun t => mkTarget (tg_injector t) (tg_out t) (tg_motion t) (tg_lease t).

Definition with_injector (t : Target) (w : Injector * Log) : Target := t <| tg_injector := w.1 |> <| tg_out := w.2 |>.

(** The lease follows what the payload is. *)
Definition hold_lease (is_release : bool) (now_us : Z) (t : Target) : Target :=
  t <| tg_lease := if is_release then disarm (tg_lease t) else renew (tg_lease t) now_us |>.

Definition fields_control (f : LowlatFields) : Control := mkControl (lf_a0 f) (lf_a1 f) (lf_a2 f) (lf_opcode f) [].

(** A control record is written out and parsed back before it is applied. *)
Definition apply_fields (f : LowlatFields) (t : Target) : Target :=
  if lf_opcode f =? OP_RELEASE then with_injector t (Inject.release_all (tg_injector t) (tg_out t)) else
  let '(encoded, r) := encode_header (replicate (Z.to_nat CONTROL_HEADER_LEN) 0) (fields_control f) in
  match r, control_parse encoded with
  | Ok _, Ok control => with_injector t (on_control control (tg_injector t) (tg_out t))
  | _, _ => t
  end.

Definition apply_input_payload (payload : list Z) (g : InputGrants) (now_us : Z) (t : Target) : Target :=
  match event_decode payload with
  | Good event =>
      let '(motion, fresh) := admit_motion (tg_motion t) event in
      let t := t <| tg_motion := motion |> in
      if negb fresh then t else
      if negb (event_allowed event g) then t else
      apply_fields (lowlat_fields event) (hold_lease (bool_decide (ie_kind event = Kind.Release)) now_us t)
  | Bad _ =>
      match control_parse payload with
      | Ok control =>
          let t := hold_lease (ct_opcode control =? OP_RELEASE) now_us t in
          with_injector t (on_control control (tg_injector t) (tg_out t))
      | Err _ => t
      end
  end.

(** ** The broker's sink *)

Definition LEASE_MS : Z := 2000.

Record NativeInputSink := mkSink {
  ns_devices : option (Injector * Log);
  ns_motion : MotionGate;
  ns_lease : InputLease;
  ns_last_grants : option InputGrants;
}.
#[export] Instance eta_Sink : Eta NativeInputSink := fun s => mkSink (ns_devices s) (ns_motion s) (ns_lease s) (ns_last_grants s).

(** [available]: whether the devices could be created. *)
Definition sink_new (available : bool) : NativeInputSink :=
  mkSink (if available then Some (injector_new (alone 1920 1080), []) else None) None (lease_new (Z.min U64_MAX (LEASE_MS * 1000))) None.

Definition permissions_of (g : InputGrants) : Permissions := from_keyboard_pointer_grants (gr_keyboard g) (gr_mouse g) (gr_gamepad g).

Definition regrant (g : InputGrants) (last : option InputGrants) (w : Injector * Log) : Injector * Log :=
  if bool_decide (last = Some g) then w else Inject.set_permissions (permissions_of g) w.1 w.2.

Definition inject (payload : list Z) (granted now_us : Z) (s : NativeInputSink) : NativeInputSink :=
  match ns_devices s with
  | None => s
  | Some w =>
      let g := grants granted in
      let '(i, out) := regrant g (ns_last_grants s) w in
      let t := apply_input_payload payload g now_us (mkTarget i out (ns_motion s) (ns_lease s)) in
      mkSink (Some (tg_injector t, tg_out t)) (tg_motion t) (tg_lease t) (Some g)
  end.

Record Rumble := mkRumble { ru_pad : Z; ru_large : Z; ru_small : Z }.
Record RumbleOut := mkRumbleOut { ro_device_id : Z; ro_strong : Z; ro_weak : Z }.

Definition take_rumble (now_us : Z) (pending : option Rumble) (s : NativeInputSink) : NativeInputSink * option RumbleOut :=
  match ns_devices s with
  | None => (s, None)
  | Some (i, out) =>
      let '(lease, expired) := poll_expiry (ns_lease s) now_us in
      let w := match expired with Some _ => Inject.release_all i out | None => (i, out) end in
      (s <| ns_lease := lease |> <| ns_devices := Some w |>,
       (fun r => mkRumbleOut (default 0 (try_from U8_MAX (ru_pad r))) (ru_large r) (ru_small r)) <$> pending)
  end.

(** ** What an event does *)

Lemma lowlat_ok e : event_valid e -> payload_ok (fields_control (lowlat_fields e)).
Proof.
  assert (Hb : forall b, is_u32 (Z.b2z b)) by by intros []. assert (H0 : is_u32 0) by done.
  assert (Hx : forall v, is_u32 (axis_bits v)) by (intros v; unfold axis_bits, is_u32, M32; pose proof (Z.mod_pos_bound (Z.max (-32768) (Z.min 32767 v)) 65536); lia).
  assert (H16 : forall z, is_u16 z -> is_u32 z) by (unfold is_u16, is_u32, M32; lia).
  intros (Hf & Hd & Hc & _). unfold lowlat_fields, fields_control, pressed.
  destruct (ie_kind e); cbn; refine (conj _ (conj _ (conj _ _))); try apply wrap32_range; try apply Hb; try apply Hx; try (by apply H16); done.
Qed.

(** Writing a control record out and parsing it back changes nothing. *)
Lemma apply_fields_exact f t : payload_ok (fields_control f) -> lf_opcode f <> OP_RELEASE ->
  apply_fields f t = with_injector t (on_control (fields_control f) (tg_injector t) (tg_out t)).
Proof.
  intros Hok Hne. unfold apply_fields. rewrite (proj2 (Z.eqb_neq (lf_opcode f) OP_RELEASE)) by done. cbn [payload_ok control_payload] in Hok.
  unfold encode_header. rewrite fill_front_ok by done. rewrite drop_ge by done. rewrite app_nil_r.
  rewrite <- (app_nil_r (control_header _)), control_parse_header by done. done.
Qed.

Lemma release_opcode e : lf_opcode (lowlat_fields e) = OP_RELEASE <-> ie_kind e = Kind.Release.
Proof. unfold lowlat_fields. by destruct (ie_kind e). Qed.

Lemma apply_event e g now_us t : event_valid e ->
  apply_input_payload (event_encode e) g now_us t =
    let t' := t <| tg_motion := (admit_motion (tg_motion t) e).1 |> in
    if (admit_motion (tg_motion t) e).2 && event_allowed e g then
      if bool_decide (ie_kind e = Kind.Release) then with_injector (hold_lease true now_us t') (Inject.release_all (tg_injector t) (tg_out t))
      else with_injector (hold_lease false now_us t') (on_control (fields_control (lowlat_fields e)) (tg_injector t) (tg_out t))
    else t'.
Proof.
  intros He. destruct (event_round e He) as (_ & _ & Hd). unfold apply_input_payload. rewrite Hd. destruct (admit_motion (tg_motion t) e) as [m fresh]. cbn [fst snd].
  destruct fresh; cbn [negb andb]; [|done]. destruct (event_allowed e g); cbn [negb]; [|done]. case_bool_decide as Hk.
  - unfold apply_fields. by rewrite (proj2 (Z.eqb_eq _ _)) by (by apply release_opcode).
  - rewrite apply_fields_exact; [done|by apply lowlat_ok|by rewrite release_opcode].
Qed.

(** ** The invariant *)

Lemma release_all_core i out : core (Inject.release_all i out).1 = core i.
Proof.
  unfold Inject.release_all. destruct (release_keys_ok i out) as [H1 _]. destruct (release_keys i out) as [i1 out1]. cbn [fst snd] in *.
  destruct (release_buttons_ok i1 out1) as [H2 _]. destruct (release_buttons i1 out1) as [i2 out2]. cbn [fst snd] in *.
  unfold centre_pads. destruct (centre_fold_ok (seq 0 MAX_PADS) i2 out2) as [H3 _]. destruct (fold_left centre_pad _ _) as [i3 out3]. cbn [fst snd] in *.
  etransitivity; [apply H3|]. etransitivity; [apply H2|apply H1].
Qed.

Lemma on_control_frame m i out : InjInv i out ->
  core (on_control m i out).1 = core i /\
  (pm_gamepad (in_permissions i) = false -> ct_opcode m <> OP_RELEASE -> forall id, same_on (Gamepad id) out (on_control m i out).2).
Proof.
  intros HI. unfold on_control. set (j := i <| in_tally := _ |>). cbv zeta. assert (HJ : InjInv j out) by by apply (InjInv_fields i j out).
  change (core i) with (core j). change (in_permissions i) with (in_permissions j).
  set (G := fun w : Injector * Log => core w.1 = core j /\ (pm_gamepad (in_permissions j) = false -> ct_opcode m <> OP_RELEASE -> forall id, same_on (Gamepad id) out w.2)).
  assert (HP : forall w, OnPointers j out w -> G w).
  { intros w Hw. split; [apply Hw|]. intros _ _ id. apply (op_devices _ _ _ Hw). by intros [|]. }
  assert (HG : forall w, pm_gamepad (in_permissions j) = true -> OnPads j out w -> G w).
  { intros w Hb Hw. split; [apply Hw|]. intros Hf. by rewrite Hf in Hb. }
  match goal with |- _ ?w.1 = _ /\ _ => change (G w) end.
  repeat match goal with |- G (if ?c then _ else _) => destruct c eqn:? end; bool_prop; [..|split; [done|by split]].
  - pose proof (keyboard_ok (ct_a0 m) (ct_a1 m) (negb (ct_a2 m =? 0)) j out) as HK. split; [by apply HK|]. intros _ _ id. by apply HK.
  - apply HP, button_ok; [done|apply (bi_devices _ _ (iv_buttons _ _ HJ))].
  - apply HP, wheel_ok.
  - apply HP, motion_ok.
  - apply HP, motion_ok.
  - apply HG; [done|apply gamepad_button_ok].
  - apply HG; [done|apply gamepad_axis_ok].
  - apply HG; [done|apply unplug_ok].
  - apply HG; [done|apply pad_state_ok].
  - split; [apply release_all_core|done].
Qed.

Record TargetInv (g : InputGrants) (t : Target) : Prop := mkTargetInv {
  ti_injector : InjInv (tg_injector t) (tg_out t);
  ti_permissions : in_permissions (tg_injector t) = permissions_of g;
  ti_lease : is_active (tg_lease t) = false -> let_go (tg_out t);
}.

(** No pad button goes down that was not. *)
Definition pads_quiet (out out' : Log) : Prop := forall id code, down (Gamepad id) code out' = true -> down (Gamepad id) code out = true.

(** Without the pointer no message strands a button. *)
Definition strands_none (out out' : Log) : Prop := forall d code, is_pointer d -> stranded d code out' -> stranded d code out.

Lemma lift_strands_none out out' : pointers_lift out out' -> strands_none out out'.
Proof. intros H d code. by apply stranded_before. Qed.

Lemma with_release_inv g now_us t : TargetInv g t -> TargetInv g (with_injector (hold_lease true now_us t) (Inject.release_all (tg_injector t) (tg_out t))) /\
  pads_quiet (tg_out t) (Inject.release_all (tg_injector t) (tg_out t)).2 /\ strands_none (tg_out t) (Inject.release_all (tg_injector t) (tg_out t)).2.
Proof.
  intros [HI HP HL]. destruct (release_all_ok _ _ HI) as (H1 & H2 & H3 & _). split; [|split; [intros id code Hd; by destruct (H2 _ _ Hd) as [[?|?] _]|by apply lift_strands_none]]. split; [done| |intros _; exact H2].
  change (in_permissions (Inject.release_all (tg_injector t) (tg_out t)).1 = permissions_of g). pose proof (release_all_core (tg_injector t) (tg_out t)) as [Hp _]%core_allowed. congruence.
Qed.

Lemma with_control_inv g now_us t c : TargetInv g t -> ct_opcode c <> OP_RELEASE ->
  TargetInv g (with_injector (hold_lease false now_us t) (on_control c (tg_injector t) (tg_out t))) /\
  (gr_gamepad g = false -> pads_quiet (tg_out t) (on_control c (tg_injector t) (tg_out t)).2) /\
  (gr_mouse g = false -> strands_none (tg_out t) (on_control c (tg_injector t) (tg_out t)).2).
Proof.
  intros [HI HP HL] Hop. destruct (on_control_frame c _ _ HI) as [Hcore HG]. split; [|split].
  - split; [by apply on_control_inv| |done]. change (in_permissions (on_control c (tg_injector t) (tg_out t)).1 = permissions_of g). apply core_allowed in Hcore as [Hp _]. congruence.
  - intros Hg id code. rewrite (proj1 (HG ltac:(by rewrite HP) Hop id code)). done.
  - intros Hg d code Hd Hs. destruct (on_control_strands c _ _ d code HI Hd Hs) as [|(_ & _ & _ & n & _ & Hb & _)]; [done|].
    exfalso. revert Hb. apply (iv_buttons_allowed _ _ HI). unfold pointer_allowed. rewrite HP. cbn. by rewrite Hg.
Qed.

Lemma on_release_control c i out : ct_opcode c = OP_RELEASE -> exists j, on_control c i out = Inject.release_all j out /\ j = i <| in_tally := tally_count (in_tally i) (ct_opcode c) |>.
Proof. intros E. eexists. split; [|done]. unfold on_control. by rewrite E. Qed.

Lemma apply_inv payload g now_us t :
  bytes_ok payload -> TargetInv g t ->
  TargetInv g (apply_input_payload payload g now_us t) /\
  (gr_gamepad g = false -> pads_quiet (tg_out t) (tg_out (apply_input_payload payload g now_us t))) /\
  (gr_mouse g = false -> strands_none (tg_out t) (tg_out (apply_input_payload payload g now_us t))).
Proof.
  intros Hb HT. assert (Hid : (gr_gamepad g = false -> pads_quiet (tg_out t) (tg_out t)) /\ (gr_mouse g = false -> strands_none (tg_out t) (tg_out t))) by (by split; intros _ ??).
  destruct (event_decode payload) as [e|err] eqn:Ed.
  - destruct (event_canonical payload e Hb Ed) as [He <-]. rewrite apply_event by done. set (t' := t <| tg_motion := _ |>). cbv zeta.
    assert (HT' : TargetInv g t') by (destruct HT; by split). destruct (_ && _); [|split; [exact HT'|exact Hid]]. case_bool_decide as Hk.
    + destruct (with_release_inv g now_us t' HT') as (H1 & H2 & H3). split; [exact H1|]. split; intros _; [exact H2|exact H3].
    + apply (with_control_inv g now_us t'); [done|]. change (lf_opcode (lowlat_fields e) <> OP_RELEASE). by rewrite release_opcode.
  - unfold apply_input_payload. rewrite Ed. destruct (control_parse payload) as [c|]; [|split; [exact HT|exact Hid]]. destruct (ct_opcode c =? OP_RELEASE) eqn:Eo; bool_prop; [|exact (with_control_inv g now_us t c HT Eo)].
    cbv zeta. change (tg_injector (hold_lease true now_us t)) with (tg_injector t). change (tg_out (hold_lease true now_us t)) with (tg_out t).
    destruct (on_release_control c (tg_injector t) (tg_out t) Eo) as (j & -> & Hj). set (u := t <| tg_injector := j |>).
    assert (HU : TargetInv g u) by (destruct HT as [H1 H2 H3]; split; [change (InjInv j (tg_out t)); apply (InjInv_fields (tg_injector t)); by rewrite ?Hj|by rewrite <- H2; subst u j|done]).
    destruct (with_release_inv g now_us u HU) as (H1 & H2 & H3). split; [|split; intros _; [exact H2|exact H3]]. destruct H1 as [A1 A2 A3]. by split.
Qed.

(** ** The sink in operation *)

Inductive SinkReach (available : bool) : NativeInputSink -> Prop :=
  | sink_start : SinkReach available (sink_new available)
  | sink_inject s payload granted now_us :
      SinkReach available s -> bytes_ok payload ->
      SinkReach available (inject payload granted now_us s)
  | sink_rumble s now_us pending : SinkReach available s -> SinkReach available (take_rumble now_us pending s).1.

Record SinkInv (s : NativeInputSink) : Prop := mkSinkInv {
  si_timeout : il_timeout_us (ns_lease s) = LEASE_MS * 1000;
  si_devices : forall i out, ns_devices s = Some (i, out) ->
    InjInv i out /\ (is_active (ns_lease s) = false -> let_go out) /\ forall g, ns_last_grants s = Some g -> in_permissions i = permissions_of g;
}.

(** Withdrawing a permission only lets go. *)
Definition quiet (out out' : Log) : Prop := forall d code, down d code out' = true -> down d code out = true.

Lemma set_permissions_quiet p i out : InjInv i out ->
  in_permissions (Inject.set_permissions p i out).1 = p /\ quiet out (Inject.set_permissions p i out).2.
Proof.
  intros HI. unfold Inject.set_permissions. set (j := i <| in_permissions := p |>). cbv zeta. assert (HK : KeysInv j out) by (apply (keys_frame i j out); [done|by intros|apply HI]).
  assert (H1 : exists w1, (if pm_keyboard (in_permissions i) && negb (pm_keyboard p) then release_keys j out else (j, out)) = w1 /\ OnKeys j out w1 /\ quiet out w1.2).
  { eexists; split; [reflexivity|]. destruct (_ && _); [|split; [apply OnKeys_refl|by intros ??]]. destruct (release_keys_ok j out) as [H1 H2]. split; [done|].
    intros d code Hd. destruct (decide (d = Keyboard)) as [->|Hne]; [by rewrite (proj2 (H2 HK)) in Hd|]. by rewrite <- (proj1 (ok_devices _ _ _ H1 d Hne code)). }
  destruct H1 as ([i1 out1] & -> & H1 & Q1). cbn [fst snd] in *. pose proof (ok_core _ _ _ H1) as [C1 _]%core_allowed. cbn [fst] in C1.
  destruct (_ && _); [|done]. destruct (release_buttons_ok i1 out1) as (H2 & _ & Q2 & _). pose proof (op_core _ _ _ H2) as [C2 _]%core_allowed.
  split; [by rewrite C2, C1|]. intros d code Hd. by apply Q1, Q2.
Qed.

Lemma let_go_quiet out out' : let_go out -> quiet out out' -> same_press out out' -> let_go out'.
Proof. intros Hl Hq Hs d code Hd. destruct (Hl d code (Hq d code Hd)) as [? [_ ?]]. split; [done|]. split; [done|by rewrite Hs]. Qed.

Lemma regrant_inv g last i out :
  InjInv i out -> (forall h, last = Some h -> in_permissions i = permissions_of h) ->
  let w := regrant g last (i, out) in
  InjInv w.1 w.2 /\ in_permissions w.1 = permissions_of g /\ quiet out w.2 /\ pointers_lift out w.2.
Proof.
  intros HI Hl w. unfold w, regrant. case_bool_decide as E; [split; [done|split; [by apply Hl|by split; [intros ??|]]]|].
  destruct (set_permissions_quiet (permissions_of g) i out HI). destruct (set_permissions_ok (permissions_of g) i out HI) as (? & _ & _ & ?). by split_and!.
Qed.

Lemma apply_lease payload g now_us t : il_timeout_us (tg_lease (apply_input_payload payload g now_us t)) = il_timeout_us (tg_lease t).
Proof.
  unfold apply_input_payload, apply_fields, hold_lease, with_injector. destruct (event_decode payload) as [e|].
  - destruct (admit_motion _ e) as [m fresh]. destruct fresh; cbn [negb]; [|done]. destruct (event_allowed e g); cbn [negb]; [|done].
    destruct (lf_opcode _ =? _); [by destruct (bool_decide _)|]. destruct (encode_header _ _) as [enc [n|]]; [destruct (control_parse enc)|]; by destruct (bool_decide _).
  - destruct (control_parse payload); [|done]. by destruct (_ =? _).
Qed.

Lemma SinkReach_inv available s : SinkReach available s -> SinkInv s.
Proof.
  induction 1 as [|s payload granted now_us _ [HT HD] Hb|s now_us pending _ [HT HD]].
  - split; [done|]. destruct available; [|done]. intros i out [= <- <-]. split; [apply injector_new_inv|]. split; [|done]. by intros _ d code.
  - unfold inject. destruct (ns_devices s) as [[i out]|] eqn:Ed; [|split; [done|by rewrite Ed]]. destruct (HD i out eq_refl) as (HI & HL & HG).
    destruct (regrant_inv (grants granted) _ i out HI HG) as (R1 & R2 & R3 & R4). destruct (regrant _ _ (i, out)) as [i1 out1]. cbn [fst snd] in *.
    set (t := mkTarget i1 out1 _ _). assert (HT1 : TargetInv (grants granted) t).
    { split; [done|done|]. intros Ha. apply (let_go_quiet out out1); [by apply HL|done|apply R4]. }
    destruct (apply_inv payload (grants granted) now_us t Hb HT1) as [[A1 A2 A3] _]. split; cbn [ns_lease ns_devices ns_last_grants].
    + rewrite apply_lease. exact HT.
    + intros i' out' [= <- <-]. split; [done|]. split; [exact A3|]. by intros g [= <-].
  - unfold take_rumble. destruct (ns_devices s) as [[i out]|] eqn:Ed; [|split; [done|cbn; by rewrite Ed]]. destruct (HD i out eq_refl) as (HI & HL & HG).
    unfold poll_expiry. destruct (il_renewed_at_us (ns_lease s)) as [r|] eqn:Er; [destruct (now_us <? _)|].
    + split; [done|]. cbn. intros i' out' [= <- <-]. done.
    + split; [done|]. cbn. intros i' out' Hw. injection Hw as Hw. destruct (release_all_ok i out HI) as (H1 & H2 & _). pose proof (release_all_core i out) as [Hp _]%core_allowed.
      rewrite Hw in *. cbn [fst snd] in *. split; [done|]. split; [intros _; exact H2|]. intros g Hg. rewrite Hp. by apply HG.
    + split; [done|]. cbn. intros i' out' [= <- <-]. done.
Qed.

(** (C29) The broker's input sink keeps to the session's grant. In every run of
    payloads - any bytes, under any grants - and polls: while no lease is
    running, nothing is down but pointer buttons stranded by a repeated press
    ([stranded]); whatever else is held, the lease that will release it is
    running, and the first poll after it has run out releases everything, again
    but buttons that were stranded before. (Nothing happens between the end of
    the lease and that poll.) After each payload, under a grant without the
    keyboard no key is down, under one without the mouse no pointer button is
    down that was not stranded before, and under one without the gamepad no pad
    button is newly pressed, though one already down stays. A fresh event the
    grant covers reaches the injector as exactly the control message its fields
    stand for, while any other valid event leaves the injector as the grant put
    it. *)
Theorem broker_input_safe (available : bool) (s : NativeInputSink) (i : Injector) (out : Log) :
  SinkReach available s -> ns_devices s = Some (i, out) ->
  (is_active (ns_lease s) = false -> forall d code, down d code out = true -> is_pointer d /\ stranded d code out) /\
  (forall now_us pending renewed, il_renewed_at_us (ns_lease s) = Some renewed -> renewed + LEASE_MS * 1000 <= now_us ->
     let s' := (take_rumble now_us pending s).1 in
     is_active (ns_lease s') = false /\
     exists w, ns_devices s' = Some w /\ forall d code, down d code w.2 = true -> is_pointer d /\ stranded d code out) /\
  (forall payload granted now_us, bytes_ok payload ->
     exists i' out', ns_devices (inject payload granted now_us s) = Some (i', out') /\
       (Capabilities.contains granted Capabilities.KEYBOARD = false -> none_on Keyboard out') /\
       (Capabilities.contains granted Capabilities.MOUSE = false -> forall d code, is_pointer d -> down d code out' = true -> stranded d code out) /\
       (Capabilities.contains granted Capabilities.GAMEPAD = false -> pads_quiet out out')) /\
  (forall e granted now_us, event_valid e -> ie_kind e <> Kind.Release ->
     let w := regrant (grants granted) (ns_last_grants s) (i, out) in
     ns_devices (inject (event_encode e) granted now_us s) =
       Some (if (admit_motion (ns_motion s) e).2 && event_allowed e (grants granted)
             then on_control (fields_control (lowlat_fields e)) w.1 w.2 else w)).
Proof.
  intros [HT HD]%SinkReach_inv Ed. destruct (HD i out Ed) as (HI & HL & HG). split; [done|]. split; [|split].
  - intros now_us pending r Hr Hn. unfold take_rumble. rewrite Ed. unfold poll_expiry. rewrite Hr.
    rewrite (proj2 (Z.ltb_ge _ _)) by (unfold saturating_add; rewrite HT; lia). cbn. split; [done|]. eexists. split; [done|].
    destruct (release_all_ok i out HI) as (_ & R1 & R2 & _). intros d code Hd. destruct (R1 d code Hd). split; [done|by eapply stranded_before].
  - intros payload granted now_us Hb. destruct (regrant_inv (grants granted) _ i out HI HG) as (R1 & R2 & R3 & R4). unfold inject. rewrite Ed.
    destruct (regrant _ _ (i, out)) as [i1 out1]. cbn [fst snd] in *. set (t := mkTarget i1 out1 _ _). assert (HT1 : TargetInv (grants granted) t).
    { split; [done|done|]. intros Ha. apply (let_go_quiet out out1); [by apply HL|done|apply R4]. }
    destruct (apply_inv payload (grants granted) now_us t Hb HT1) as ([A1 A2 _] & A3 & A4). do 2 eexists. split; [done|]. split; [|split].
    + intros Hk code. apply not_true_is_false. intros Hd. apply (ki_held _ _ (iv_keys _ _ A1)) in Hd as [_ Hd]. revert Hd. apply (iv_keys_allowed _ _ A1). by rewrite A2.
    + intros Hm d code Hd Hc. apply (lift_strands_none _ _ R4 d code Hd), (A4 Hm d code Hd). split; [done|].
      apply (no_buttons _ _ (iv_buttons _ _ A1)); [|done|done]. apply (iv_buttons_allowed _ _ A1). unfold pointer_allowed. rewrite A2. change (Capabilities.contains granted Capabilities.MOUSE && in_floor (tg_injector (apply_input_payload payload (grants granted) now_us t)) = false). by rewrite Hm.
    + intros Hg id code Hd. by apply R3, (A3 Hg).
  - intros e granted now_us He Hk w. unfold inject. rewrite Ed. fold w. destruct w as [i1 out1]. rewrite apply_event by done. cbn [ns_devices].
    change (tg_motion (mkTarget i1 out1 (ns_motion s) (ns_lease s))) with (ns_motion s). cbv zeta. destruct (_ && _); [|done]. rewrite bool_decide_false by done. by destruct (on_control _ _ _).
Qed.

Definition demo_key : InputEvent := keyboard 4 0 true 10.
Definition demo_sink : NativeInputSink := inject (event_encode demo_key) Capabilities.all 1000 (sink_new true).

Lemma demo_sink_reach : SinkReach true demo_sink.
Proof.
  unfold demo_sink. apply sink_inject; [apply sink_start|by apply event_round; vm_compute].
Qed.

Lemma broker_input_safe_witness :
  exists i out, ns_devices demo_sink = Some (i, out) /\ down Inject.Keyboard 30 out = true /\
    exists w, ns_devices (take_rumble 2001000 None demo_sink).1 = Some w /\ none_on Inject.Keyboard w.2.
Proof.
  eexists _, _. split; [vm_compute; reflexivity|]. split; [vm_compute; reflexivity|].
  destruct (broker_input_safe true demo_sink _ _ demo_sink_reach eq_refl) as (_ & H & _).
  destruct (proj2 (H 2001000 None 1000 eq_refl ltac:(vm_compute; discriminate))) as (w & Hw & Hn). exists w. split; [exact Hw|].
  intros code. destruct (down Inject.Keyboard code w.2) eqn:E; [|done]. by destruct (Hn _ _ E) as [[?|?] _].
Defined.
