(* ===== verification/Gate.v ===== *)
(** * Who receives a frame ([host/src/gate.rs])

    The delivery gate of the host: one encode serves every guest, so each frame
    is admitted guest by guest, and a guest that misses one waits for a
    keyframe. The [deliver] callback is the list of indices it is called with. *)

From Stdlib Require Import SpecFloat.
From S2P Require Import Prelude F64.

Definition MAX_GUESTS : nat := 16.
Definition KEYFRAME_INTERVAL_MS : f64 := f_of_Z 500.
Definition MARK_WINDOW_MS : f64 := f_of_Z 2000.

Definition elapsed (then_ now_ms interval : f64) : bool := (now_ms <? then_)%f64 || (now_ms - then_ >=? interval)%f64.

(** A rate is [f32]: its value, compared with exact literals. *)
Definition ceiling (rate_mbps : f64) : Z :=
  if (rate_mbps >=? f_of_Z 30)%f64 then 4000 else if (rate_mbps >=? f_of_Z 20)%f64 then 2500 else 1500.

Record Guest := mkGuest { gu_ceiling : Z; gu_outstanding : Z; gu_pending_keyframe : bool }.
#[export] Instance eta_Guest : Eta Guest := fun g => mkGuest (gu_ceiling g) (gu_outstanding g) (gu_pending_keyframe g).

Definition joining (rate_mbps : f64) : Guest := mkGuest (ceiling rate_mbps) 0 true.
Definition set_outstanding (fragments : Z) (g : Guest) : Guest := g <| gu_outstanding := fragments |>.
Definition is_skipping (g : Guest) : bool := gu_pending_keyframe g.
Definition mark_skipping (g : Guest) : Guest := g <| gu_pending_keyframe := true |>.
Definition set_rate (rate_mbps : f64) (g : Guest) : Guest := g <| gu_ceiling := ceiling rate_mbps |>.
Definition has_room_for (g : Guest) (fragments : Z) : bool := saturating_add U32_MAX (gu_outstanding g) fragments <=? gu_ceiling g.

Inductive Keyframe := NotNeeded | Request.

Record Gate := mkGate { gt_largest : Z; gt_previous : Z; gt_window_began_ms : option f64; gt_last_request_ms : option f64 }.
#[export] Instance eta_Gate : Eta Gate := fun g => mkGate (gt_largest g) (gt_previous g) (gt_window_began_ms g) (gt_last_request_ms g).

Definition gate_new : Gate := mkGate 0 0 None None.
Definition largest (g : Gate) : Z := Z.max (gt_largest g) (gt_previous g).

Definition roll (now_ms : f64) (g : Gate) : Gate :=
  match gt_window_began_ms g with
  | None => g <| gt_window_began_ms := Some now_ms |>
  | Some began =>
      if elapsed began now_ms MARK_WINDOW_MS
      then g <| gt_previous := gt_largest g |> <| gt_largest := 0 |> <| gt_window_began_ms := Some now_ms |>
      else g
  end.

Definition throttle_allows (now_ms : f64) (g : Gate) : bool :=
  match gt_last_request_ms g with None => true | Some last => elapsed last now_ms KEYFRAME_INTERVAL_MS end.

Definition request_keyframe (now_ms : f64) (g : Gate) : Gate * Keyframe :=
  if negb (throttle_allows now_ms g) then (g, NotNeeded) else (g <| gt_last_request_ms := Some now_ms |>, Request).

(** One guest's turn: its new state, whether it takes the frame, and whether it
    wants a keyframe. *)
Definition turn (fragments mark : Z) (keyframe : bool) (g : Guest) : Guest * bool * bool :=
  if gu_pending_keyframe g then
    if negb keyframe then (g, false, has_room_for g mark) else
    if negb (has_room_for g fragments) then (g, false, has_room_for g mark) else
    (g <| gu_pending_keyframe := false |>, true, false)
  else if negb (has_room_for g fragments) then (g <| gu_pending_keyframe := true |>, false, false)
  else (g, true, false).

(** The loop over the guests from [index] on: their new states, the indices
    delivered to, and whether any wants a keyframe. *)
Fixpoint turns (fragments mark : Z) (keyframe : bool) (index : nat) (guests : list Guest) : list Guest * list nat * bool :=
  match guests with
  | [] => ([], [], false)
  | g :: rest =>
      let '(g, takes, wants) := turn fragments mark keyframe g in
      let '(rest, indices, wanted) := turns fragments mark keyframe (S index) rest in
      (g :: rest, if takes then index :: indices else indices, wants || wanted)
  end.

Definition gate_admit (fragments : Z) (keyframe : bool) (now_ms : f64) (gate : Gate) (guests : list Guest) : Gate * list Guest * list nat * Keyframe :=
  let gate := roll now_ms gate in
  let gate := gate <| gt_largest := Z.max (gt_largest gate) fragments |> in
  let mark := largest gate in
  let '(guests, delivered, wanted) := turns fragments mark keyframe 0 guests in
  if wanted then let '(gate, k) := request_keyframe now_ms gate in (gate, guests, delivered, k) else (gate, guests, delivered, NotNeeded).

(** ** The loop, guest by guest *)

Lemma turns_length fragments mark keyframe n guests : length (turns fragments mark keyframe n guests).1.1 = length guests.
Proof.
  revert n. induction guests as [|g guests IH]; intros n; [done|]. cbn [turns]. destruct (turn _ _ _ g) as [[g' t] w]. specialize (IH (S n)).
  destruct (turns _ _ _ _ guests) as [[gs l] w']. cbn in *. by rewrite IH.
Qed.

Lemma turns_lookup fragments mark keyframe n guests k :
  (turns fragments mark keyframe n guests).1.1 !! k = (fun g => (turn fragments mark keyframe g).1.1) <$> guests !! k.
Proof.
  revert n k. induction guests as [|g guests IH]; intros n k; [done|]. cbn [turns]. destruct (turn _ _ _ g) as [[g' t] w] eqn:Et. specialize (IH (S n)).
  destruct (turns _ _ _ _ guests) as [[gs l] w']. cbn in *. destruct k as [|k]; cbn; [by rewrite Et|apply IH].
Qed.

Lemma turns_delivered fragments mark keyframe n guests k :
  k ∈ (turns fragments mark keyframe n guests).1.2 <-> (n <= k)%nat /\ exists g, guests !! (k - n)%nat = Some g /\ (turn fragments mark keyframe g).1.2 = true.
Proof.
  revert n. induction guests as [|g guests IH]; intros n.
  - cbn. split; [by intros ?%not_elem_of_nil|]. by intros (_ & g & Hg & _).
  - cbn [turns]. destruct (turn _ _ _ g) as [[g' t] w] eqn:Et. specialize (IH (S n)). destruct (turns _ _ _ _ guests) as [[gs l] w']. cbn [fst snd] in *.
    assert (Hrest : k ∈ l <-> (S n <= k)%nat /\ exists h, (g :: guests) !! (k - n)%nat = Some h /\ (turn fragments mark keyframe h).1.2 = true).
    { rewrite IH. split; intros [Hk Hx]; (split; [done|]); replace (k - n)%nat with (S (k - S n)) in * by lia; done. }
    assert (Hhead : k = n -> (exists h, (g :: guests) !! (k - n)%nat = Some h /\ (turn fragments mark keyframe h).1.2 = true) <-> t = true).
    { intros ->. rewrite Nat.sub_diag. cbn. split; [intros (h & [= <-] & Ht); by rewrite Et in Ht|]. intros ->. exists g. by rewrite Et. }
    destruct t.
    + rewrite elem_of_cons, Hrest. split.
      * intros [-> | [Hk Hx]]; [split; [lia|by apply Hhead]|]. split; [lia|done].
      * intros [Hk Hx]. destruct (decide (k = n)) as [->|Hne]; [by left|]. right. split; [lia|done].
    + rewrite Hrest. split; [intros [Hk Hx]; split; [lia|done]|]. intros [Hk Hx]. split; [|done].
      destruct (decide (k = n)) as [E|]; [|lia]. by apply (Hhead E) in Hx.
Qed.

Lemma turns_sorted fragments mark keyframe n guests : NoDup (turns fragments mark keyframe n guests).1.2.
Proof.
  revert n. induction guests as [|g guests IH]; intros n; [constructor|]. cbn [turns]. destruct (turn _ _ _ g) as [[g' t] w]. specialize (IH (S n)).
  pose proof (turns_delivered fragments mark keyframe (S n) guests n) as Hd. destruct (turns _ _ _ _ guests) as [[gs l] w']. cbn [fst snd] in *. destruct t; [|done].
  constructor; [|done]. rewrite Hd. intros [? _]. lia.
Qed.

Lemma turns_wanted fragments mark keyframe n guests :
  (turns fragments mark keyframe n guests).2 = existsb (fun g => (turn fragments mark keyframe g).2) guests.
Proof.
  revert n. induction guests as [|g guests IH]; intros n; [done|]. cbn [turns existsb]. destruct (turn _ _ _ g) as [[g' t] w]. specialize (IH (S n)).
  destruct (turns _ _ _ _ guests) as [[gs l] w']. cbn in *. by rewrite IH.
Qed.

(** A guest takes a frame exactly when it fits and, if the guest is waiting, the
    frame is a keyframe; it waits afterwards exactly when it did not. *)
Lemma turn_spec fragments mark keyframe g :
  let '(g', takes, wants) := turn fragments mark keyframe g in
  takes = has_room_for g fragments && (keyframe || negb (gu_pending_keyframe g)) /\
  gu_pending_keyframe g' = negb takes /\ gu_ceiling g' = gu_ceiling g /\ gu_outstanding g' = gu_outstanding g /\
  wants = gu_pending_keyframe g && negb takes && has_room_for g mark.
Proof.
  destruct g as [c o p]. unfold turn. cbn [gu_pending_keyframe]. destruct p; cbn [negb andb].
  - destruct keyframe; cbn; [destruct (has_room_for _ fragments) eqn:E; cbn; rewrite ?E; done|]. rewrite andb_false_r. done.
  - destruct (has_room_for _ fragments) eqn:E; cbn; rewrite ?orb_true_r; done.
Qed.

(** ** What the gate decides *)

Lemma gate_admit_split fragments keyframe now_ms gate guests :
  let gate1 := roll now_ms gate <| gt_largest := Z.max (gt_largest (roll now_ms gate)) fragments |> in
  let '(guests', delivered, wanted) := turns fragments (largest gate1) keyframe 0 guests in
  exists gate' k, gate_admit fragments keyframe now_ms gate guests = (gate', guests', delivered, k) /\
    largest gate' = largest gate1 /\
    (k = Request <-> wanted = true /\ throttle_allows now_ms gate = true) /\
    gt_last_request_ms gate' = match k with Request => Some now_ms | NotNeeded => gt_last_request_ms gate end.
Proof.
  intros gate1. unfold gate_admit. fold gate1. assert (Hlast : gt_last_request_ms gate1 = gt_last_request_ms gate).
  { unfold gate1, roll. destruct (gt_window_began_ms gate) as [b|]; [by destruct (elapsed b _ _)|done]. }
  assert (Hthr : throttle_allows now_ms gate1 = throttle_allows now_ms gate) by (unfold throttle_allows; by rewrite Hlast).
  destruct (turns fragments (largest gate1) keyframe 0 guests) as [[gs d] wanted]. destruct wanted.
  - unfold request_keyframe. rewrite Hthr. destruct (throttle_allows now_ms gate); cbn [negb]; do 2 eexists; (split; [reflexivity|]); (split; [done|]); (split; [|done]); naive_solver.
  - do 2 eexists. split; [reflexivity|]. split; [done|]. split; [naive_solver|done].
Qed.

(** (C27) The gate decides exactly. A guest takes a frame exactly when its window
    has room for it and, if it is waiting, the frame is a keyframe; afterwards it
    waits exactly when it did not take it, so a guest that misses one frame
    misses every frame until a keyframe it has room for. The frame counts toward
    the mark; a keyframe is asked for exactly when some guest that stays waiting
    has room for the mark and the throttle allows it, which it does only when
    nothing was asked before, half a second has passed since, or the clock was
    replaced; and only then is the request's time recorded. *)
Theorem gate_admit_exact (fragments : Z) (keyframe : bool) (now_ms : f64) (gate : Gate) (guests : list Guest) :
  let '(gate', guests', delivered, k) := gate_admit fragments keyframe now_ms gate guests in
  length guests' = length guests /\ NoDup delivered /\ fragments <= largest gate' /\
  (forall i g, guests !! i = Some g -> exists g', guests' !! i = Some g' /\
     (i ∈ delivered <-> has_room_for g fragments = true /\ (keyframe = true \/ is_skipping g = false)) /\
     (is_skipping g' = false <-> i ∈ delivered) /\ gu_ceiling g' = gu_ceiling g /\ gu_outstanding g' = gu_outstanding g) /\
  (forall i, i ∈ delivered -> (i < length guests)%nat) /\
  (k = Request <->
     (exists i g, guests !! i = Some g /\ is_skipping g = true /\ i ∉ delivered /\ has_room_for g (largest gate') = true) /\
     forall last, gt_last_request_ms gate = Some last -> elapsed last now_ms KEYFRAME_INTERVAL_MS = true) /\
  gt_last_request_ms gate' = match k with Request => Some now_ms | NotNeeded => gt_last_request_ms gate end.
Proof.
  pose proof (gate_admit_split fragments keyframe now_ms gate guests) as H. set (gate1 := _ <| gt_largest := _ |>) in H. cbv zeta in H. set (mark := largest gate1) in *.
  pose proof (turns_length fragments mark keyframe 0 guests) as Tl. pose proof (turns_lookup fragments mark keyframe 0 guests) as Tk. pose proof (turns_delivered fragments mark keyframe 0 guests) as Td.
  pose proof (turns_sorted fragments mark keyframe 0 guests) as Ts. pose proof (turns_wanted fragments mark keyframe 0 guests) as Tw.
  destruct (turns fragments mark keyframe 0 guests) as [[gs d] wanted]. cbn [fst snd] in *. destruct H as (gate' & k & -> & Hmark & Hk & Hlast).
  assert (Hd : forall i g, guests !! i = Some g -> i ∈ d <-> (turn fragments mark keyframe g).1.2 = true).
  { intros i g Hi. rewrite Td, Nat.sub_0_r. split; [intros (_ & g0 & Hg0 & ?); by simplify_eq|]. intros ?. split; [lia|by exists g]. }
  split; [done|]. split; [done|]. split; [rewrite Hmark; unfold mark, largest; cbn; lia|]. split; [|split; [|split; [|done]]].
  - intros i g Hi. specialize (Tk i). rewrite Hi in Tk. cbn in Tk. eexists. split; [exact Tk|]. rewrite (Hd i g Hi). pose proof (turn_spec fragments mark keyframe g) as Hs.
    destruct (turn fragments mark keyframe g) as [[g' t] w]. cbn [fst snd]. destruct Hs as (-> & Hp & Hc & Ho & _). unfold is_skipping. rewrite Hp.
    split; [|split; [by destruct (_ && _)|done]]. destruct (has_room_for g fragments), keyframe, (gu_pending_keyframe g); cbn; naive_solver.
  - intros i (_ & g & Hg & _)%Td. rewrite Nat.sub_0_r in Hg. by eapply lookup_lt_Some.
  - rewrite Hk, Tw, Hmark. fold mark. unfold throttle_allows. assert (Hex : existsb (fun g => (turn fragments mark keyframe g).2) guests = true <->
      exists i g, guests !! i = Some g /\ is_skipping g = true /\ i ∉ d /\ has_room_for g mark = true).
    { rewrite existsb_exists. split.
      - intros (g & [i Hi]%list_elem_of_In%list_elem_of_lookup & Hw). exists i, g. split; [done|]. rewrite (Hd i g Hi). pose proof (turn_spec fragments mark keyframe g) as Hs.
        destruct (turn fragments mark keyframe g) as [[g' t] w]. cbn [fst snd] in *. destruct Hs as (_ & _ & _ & _ & ->). apply andb_true_iff in Hw as [[? Ht]%andb_true_iff ?]. split; [done|]. split; [|done]. by destruct t.
      - intros (i & g & Hi & Hs & Hn & Hr). exists g. split; [apply list_elem_of_In; by eapply list_elem_of_lookup_2|]. rewrite (Hd i g Hi) in Hn. pose proof (turn_spec fragments mark keyframe g) as Ht.
        destruct (turn fragments mark keyframe g) as [[g' t] w]. cbn [fst snd] in *. destruct Ht as (_ & _ & _ & _ & ->). unfold is_skipping in Hs. rewrite Hs, Hr. by destruct t. }
    rewrite Hex. destruct (gt_last_request_ms gate) as [last|]; split; intros [H1 H2]; (split; [done|]); [by intros ? [= <-]|by apply H2|done|done].
Qed.
