(* ===== verification/Floor.v ===== *)
(** * Who has the pointer ([host/src/floor.rs], [host/src/admission.rs])

    The arbitration of the one pointer guests share, and how each guest's
    thread asks for it before its message reaches the injector and lets go of
    what it held when it has lost it. Every operation on the shared state runs
    under its lock, so the threads interleave operation by operation. *)

From stdpp Require Import gmap.
From S2P Require Import Prelude F64 Payload InputMaps Inject.

Definition HOLD_MS : f64 := f_of_Z 500.
Definition HOLD_MIN_MS : f64 := f_of_Z 50.
Definition HOLD_MAX_MS : f64 := f_of_Z 5000.

(** [fl_poisoned]: a thread has panicked while holding the lock. *)
Record Floor := mkFloor {
  fl_enabled : bool;
  fl_announces : bool;
  fl_hold_ms : f64;
  fl_poisoned : bool;
  fl_holder : option Z;
  fl_since_ms : f64;
}.
#[export] Instance eta_Floor : Eta Floor := fun f => mkFloor (fl_enabled f) (fl_announces f) (fl_hold_ms f) (fl_poisoned f) (fl_holder f) (fl_since_ms f).

Definition announcing (enabled : bool) (hold_ms : f64) (raise : bool) : Floor :=
  let hold_ms := if f_is_finite hold_ms then f_clamp hold_ms HOLD_MIN_MS HOLD_MAX_MS else HOLD_MS in
  mkFloor enabled raise hold_ms false None f_zero.
Definition with_hold (enabled : bool) (hold_ms : f64) : Floor := announcing enabled hold_ms false.
Definition floor_new (enabled : bool) : Floor := with_hold enabled HOLD_MS.

(** The answer, and the guest a change of holder is announced for. *)
Definition claim (guest : Z) (owner : bool) (now_ms : f64) (f : Floor) : Floor * bool * option Z :=
  if negb (fl_enabled f) then (f, true, None) else
  if fl_poisoned f then (f, true, None) else
  match fl_holder f with
  | Some held =>
      if negb (held =? guest) && negb owner && (now_ms - fl_since_ms f <? fl_hold_ms f)%f64 then (f, false, None)
      else (f <| fl_holder := Some guest |> <| fl_since_ms := now_ms |>, true, if negb (held =? guest) && fl_announces f then Some guest else None)
  | None => (f <| fl_holder := Some guest |> <| fl_since_ms := now_ms |>, true, if fl_announces f then Some guest else None)
  end.

Definition refresh (guest : Z) (now_ms : f64) (f : Floor) : Floor :=
  if negb (fl_enabled f) then f else
  if fl_poisoned f then f else
  if bool_decide (fl_holder f = Some guest) then f <| fl_since_ms := now_ms |> else f.

Definition holds (guest : Z) (now_ms : f64) (f : Floor) : bool :=
  if negb (fl_enabled f) then true else
  if fl_poisoned f then true else
  match fl_holder f with
  | Some held => (held =? guest) || (now_ms - fl_since_ms f >=? fl_hold_ms f)%f64
  | None => true
  end.

Definition release (guest : Z) (f : Floor) : Floor :=
  if fl_poisoned f then f else
  if bool_decide (fl_holder f = Some guest) then f <| fl_holder := None |> else f.

(** ** A guest's thread *)

Definition moves_the_pointer (opcode : Z) : bool :=
  (opcode =? OP_MOUSE_BUTTON) || (opcode =? OP_MOUSE_WHEEL) || (opcode =? OP_MOUSE_MOTION) || (opcode =? OP_MOUSE_MOTION_STREAM).

(** The input part of [drain_control]: what one message does. *)
Definition control_input (guest : Z) (owner : bool) (now_ms : f64) (m : Control) (f : Floor) (w : Injector * Log) : Floor * (Injector * Log) :=
  if moves_the_pointer (ct_opcode m) then
    let '(f, held, _) := claim guest owner now_ms f in
    let '(i, out) := set_floor held w.1 w.2 in
    (f, on_control m i out)
  else (f, on_control m w.1 w.2).

(** [follow_pointer]: its two looks at the floor are separate operations. *)
Definition follow_refresh (guest : Z) (now_ms : f64) (w : Injector * Log) (f : Floor) : Floor :=
  if holds_pointer_button w.1 then refresh guest now_ms f else f.
Definition follow_holds (guest : Z) (now_ms : f64) (f : Floor) (w : Injector * Log) : Injector * Log :=
  set_floor (holds guest now_ms f) w.1 w.2.

(** ** The room *)

Record Room := mkRoom { rm_floor : Floor; rm_guests : gmap Z (Injector * Log) }.

(** Guests come and go, their threads' operations interleave. Nothing in the
    host calls [release], so a guest that leaves keeps the floor until it
    lapses. *)
Inductive RoomStep : Room -> Room -> Prop :=
  | step_join f gs g e : gs !! g = None -> RoomStep (mkRoom f gs) (mkRoom f (<[g := (injector_new e, [])]> gs))
  | step_leave f gs g : RoomStep (mkRoom f gs) (mkRoom f (delete g gs))
  | step_message f gs g w owner now m : gs !! g = Some w ->
      RoomStep (mkRoom f gs) (mkRoom (control_input g owner now m f w).1 (<[g := (control_input g owner now m f w).2]> gs))
  | step_refresh f gs g w now : gs !! g = Some w -> RoomStep (mkRoom f gs) (mkRoom (follow_refresh g now w f) gs)
  | step_holds f gs g w now : gs !! g = Some w -> RoomStep (mkRoom f gs) (mkRoom f (<[g := follow_holds g now f w]> gs))
  | step_permissions f gs g w p : gs !! g = Some w -> RoomStep (mkRoom f gs) (mkRoom f (<[g := set_permissions p w.1 w.2]> gs)).

Inductive RoomReach (f : Floor) : Room -> Prop :=
  | room_start : RoomReach f (mkRoom f ∅)
  | room_step r r' : RoomReach f r -> RoomStep r r' -> RoomReach f r'.

(** ** One pointer *)

Lemma claim_refused guest owner now f f' ev :
  claim guest owner now f = (f', false, ev) ->
  fl_enabled f = true /\ owner = false /\ f' = f /\ ev = None /\ exists held, fl_holder f = Some held /\ held <> guest /\ (now - fl_since_ms f <? fl_hold_ms f)%f64 = true.
Proof.
  unfold claim. destruct (fl_enabled f) eqn:Een; cbn [negb]; [|by intros [=]]. destruct (fl_poisoned f); [by intros [=]|]. destruct (fl_holder f) as [held|]; [|by intros [=]].
  destruct (_ && _) eqn:E; [|by intros [=]]. intros [= <- <-]. apply andb_true_iff in E as [E El]. apply andb_true_iff in E as [E Eo]. bool_prop. destruct owner; [done|].
  split; [done|]. split; [done|]. split; [done|]. split; [done|]. by exists held.
Qed.

Lemma set_floor_in_floor held i out : in_floor (set_floor held i out).1 = held.
Proof. unfold set_floor. destruct (in_floor i && negb held); [by destruct (release_buttons i out)|done]. Qed.

(** A pointer message without the floor does nothing. *)
Lemma on_control_without_floor m i out : in_floor i = false -> moves_the_pointer (ct_opcode m) = true ->
  on_control m i out = (i <| in_tally := tally_count (in_tally i) (ct_opcode m) |>, out).
Proof.
  intros Hf Hm. unfold on_control. set (j := i <| in_tally := _ |>). cbv zeta. assert (pointer_allowed j = false) as -> by (unfold pointer_allowed; change (in_floor j) with (in_floor i); by rewrite Hf, andb_false_r).
  rewrite !andb_false_r. unfold moves_the_pointer in Hm. rewrite !orb_true_iff in Hm. rewrite !Z.eqb_eq in Hm. by destruct Hm as [[[-> | ->]| ->]| ->].
Qed.

Definition AllInv (gs : gmap Z (Injector * Log)) : Prop := forall g w, gs !! g = Some w -> InjInv w.1 w.2.

Lemma AllInv_insert gs g w : AllInv gs -> InjInv w.1 w.2 -> AllInv (<[g := w]> gs).
Proof. intros H Hw g' w' [[<- <-]|[_ Hg]]%lookup_insert_Some; [done|by apply (H g')]. Qed.

Lemma RoomReach_inv f r : RoomReach f r -> AllInv (rm_guests r).
Proof.
  induction 1 as [|r r' _ IH Hs]; [cbn; by intros g w ?%lookup_empty_Some|].
  destruct Hs as [fl gs g e Hg|fl gs g|fl gs g w owner now m Hg|fl gs g w now Hg|fl gs g w now Hg|fl gs g w p Hg]; cbn [rm_guests] in *.
  - apply AllInv_insert; [done|apply injector_new_inv].
  - intros g' w' [_ Hg']%lookup_delete_Some. by apply (IH g').
  - apply AllInv_insert; [done|]. specialize (IH g w Hg). unfold control_input. destruct (moves_the_pointer _) eqn:Em.
    + destruct (claim g owner now fl) as [[f' held] ev]. destruct (set_floor_ok held _ _ IH) as [HI _]. destruct (set_floor held w.1 w.2) as [i out]. by apply on_control_inv.
    + by apply on_control_inv.
  - done.
  - apply AllInv_insert; [done|]. by apply set_floor_ok, (IH g).
  - apply AllInv_insert; [done|]. by apply set_permissions_ok, (IH g).
Qed.

(** No pointer button of a guest is down but those that already were stranded
    on the pointer device it has moved away from ([Inject.stranded]). *)
Definition hands_off (before w : Injector * Log) : Prop :=
  forall d code, is_pointer d -> down d code w.2 = true -> stranded d code before.2.

(** (C28) One pointer, one guest. However the guests of a room, their threads
    and their messages interleave, and whatever the messages are: a guest whose
    claim is refused has no pointer button down once its message is handled, and
    the message itself moves and presses nothing; a thread that finds the floor
    lost leaves no pointer button down; a guest without the floor has none down.
    In all three the one exception is a button that was already stranded: down
    on a pointer device while its last press, a repeated one, went to the other
    device. While a guest holds the floor and has used it within the hold, no
    other guest but an owner takes it, moves it or refreshes it; and a holder
    with a button down renews its hold at every look. *)
Theorem one_pointer_one_guest (f : Floor) (r : Room) (g : Z) (w : Injector * Log) :
  RoomReach f r -> rm_guests r !! g = Some w ->
  (forall owner now m fl ev, moves_the_pointer (ct_opcode m) = true -> claim g owner now (rm_floor r) = (fl, false, ev) ->
     let '(fl', w') := control_input g owner now m (rm_floor r) w in
     fl' = rm_floor r /\ hands_off w w' /\ w'.2 = (set_floor false w.1 w.2).2) /\
  (forall now, holds g now (rm_floor r) = false -> hands_off w (follow_holds g now (rm_floor r) w)) /\
  (in_floor w.1 = false -> hands_off w w) /\
  (forall h now, fl_enabled (rm_floor r) = true -> fl_poisoned (rm_floor r) = false -> fl_holder (rm_floor r) = Some h ->
     (now - fl_since_ms (rm_floor r) <? fl_hold_ms (rm_floor r))%f64 = true ->
     (g <> h -> claim g false now (rm_floor r) = (rm_floor r, false, None) /\ holds g now (rm_floor r) = false /\ follow_refresh g now w (rm_floor r) = rm_floor r) /\
     (g = h -> (claim g false now (rm_floor r)).1.2 = true /\ holds g now (rm_floor r) = true /\
        (holds_pointer_button w.1 = true -> fl_since_ms (follow_refresh g now w (rm_floor r)) = now))).
Proof.
  intros Hr Hw. pose proof (RoomReach_inv f r Hr g w Hw) as HI. destruct (set_floor_ok false w.1 w.2 HI) as (HF & HH & HL). specialize (HH eq_refl).
  assert (HO : hands_off w (set_floor false w.1 w.2)) by (intros d code Hd; apply (let_go_before w.2); auto). split; [|split; [|split]].
  - intros owner now m fl ev Hm Hc. unfold control_input. rewrite Hm, Hc. destruct (claim_refused _ _ _ _ _ _ Hc) as (_ & _ & -> & _). pose proof (set_floor_in_floor false w.1 w.2) as Hfl.
    destruct (set_floor false w.1 w.2) as [i out]. cbn [fst snd] in *. rewrite on_control_without_floor by done. done.
  - intros now Hn. unfold follow_holds. rewrite Hn. exact HO.
  - intros Hf d code Hd Hc. split; [done|]. apply (no_buttons w.1 w.2); [apply HI| |done|done]. apply (iv_buttons_allowed _ _ HI). unfold pointer_allowed. by rewrite Hf, andb_false_r.
  - intros h now He Hp Hh Hn. unfold claim, holds, follow_refresh, refresh. rewrite He, Hp, Hh. cbn [negb]. split.
    + intros Hne. rewrite (proj2 (Z.eqb_neq h g)) by congruence. cbn [negb andb orb]. rewrite Hn. rewrite bool_decide_false by congruence.
      split; [done|]. split; [by apply f_ltb_not_leb|by destruct (holds_pointer_button _)].
    + intros ->. rewrite Z.eqb_refl, bool_decide_true by done. cbn. split; [done|]. split; [done|]. by intros ->.
Qed.

Definition demo_floor : Floor := floor_new true.
Definition demo_motion : Control := mkControl 1 5 5 OP_MOUSE_MOTION [].
Definition demo_room : Room :=
  let gs : gmap Z (Injector * Log) := <[2 := (injector_new (alone 1920 1080), [])]> (<[1 := (injector_new (alone 1920 1080), [])]> ∅) in
  let w := control_input 1 false (f_of_Z 100) demo_motion demo_floor (injector_new (alone 1920 1080), []) in
  mkRoom w.1 (<[1 := w.2]> gs).

Lemma demo_room_reach : RoomReach demo_floor demo_room.
Proof.
  eapply room_step; [eapply room_step; [eapply room_step; [apply room_start|]|]|].
  - apply (step_join demo_floor ∅ 1 (alone 1920 1080)). done.
  - apply (step_join demo_floor _ 2 (alone 1920 1080)). done.
  - apply (step_message demo_floor _ 1 (injector_new (alone 1920 1080), []) false (f_of_Z 100) demo_motion); done.
Qed.

(** The second guest, 200 ms after the first moved. *)
Lemma one_pointer_one_guest_witness :
  claim 2 false (f_of_Z 300) (rm_floor demo_room) = (rm_floor demo_room, false, None) /\
  hands_off (injector_new (alone 1920 1080), []) (control_input 2 false (f_of_Z 300) demo_motion (rm_floor demo_room) (injector_new (alone 1920 1080), [])).2.
Proof.
  destruct (one_pointer_one_guest demo_floor demo_room 2 (injector_new (alone 1920 1080), []) demo_room_reach eq_refl) as (H1 & _ & _ & H2).
  pose proof (proj1 (H2 1 (f_of_Z 300) eq_refl eq_refl eq_refl ltac:(vm_compute; reflexivity)) ltac:(discriminate)) as (Hc & _). split; [exact Hc|].
  specialize (H1 false (f_of_Z 300) demo_motion _ _ eq_refl Hc). destruct (control_input 2 false (f_of_Z 300) demo_motion (rm_floor demo_room) (injector_new (alone 1920 1080), [])) as [fl w]. exact (proj1 (proj2 H1)).
Defined.
