(* ===== verification/Budget.v ===== *)
(** * What bitrate the one encoder runs at ([host/src/rate.rs])

    The budget of a stream: the configured rate less what sound costs, divided
    by the guests, is the ceiling of every guest's controller, and the least of
    what the controllers return is the rate applied. [None] is a panic. *)

From Stdlib Require Import SpecFloat.
From S2P Require Import Prelude F64 Policy.

Definition DEADBAND_MBPS : f64 := f_lit 1 100.

Record Sample := mkSample { sm_window : Z; sm_stale : Z; sm_measured_mbps : f64 }.

Record Budget := mkBudget {
  bu_configured_mbps : f64;
  bu_min_mbps : f64;
  bu_guests : Z;
  bu_applied_mbps : f64;
  bu_audio_mbps : f64;
}.
#[export] Instance eta_Budget : Eta Budget := fun b =>
  mkBudget (bu_configured_mbps b) (bu_min_mbps b) (bu_guests b) (bu_applied_mbps b) (bu_audio_mbps b).

Definition budget_new (configured_mbps min_mbps : f64) : Budget := mkBudget configured_mbps min_mbps 0 f_zero f_zero.

Definition budget_ceiling (b : Budget) : f64 :=
  let left := f_max (bu_configured_mbps b - bu_audio_mbps b)%f64 f_zero in
  f_max (left / f_of_Z (Z.max (bu_guests b) 1))%f64 (bu_min_mbps b).

Definition rebound (guests : Z) (b : Budget) (controllers : list Controller) : Budget * list Controller :=
  let b := b <| bu_guests := guests |> in
  (b, map (fun c => set_bounds c (bu_min_mbps b) (budget_ceiling b)) controllers).

Definition set_audio (audio_mbps : f64) (b : Budget) (controllers : list Controller) : Budget * list Controller :=
  let b := b <| bu_audio_mbps := f_max audio_mbps f_zero |> in
  rebound (bu_guests b) b controllers.

Definition reconfigure (configured_mbps min_mbps : f64) (b : Budget) (controllers : list Controller) : Budget * list Controller :=
  let b := b <| bu_configured_mbps := configured_mbps |> <| bu_min_mbps := f_min min_mbps configured_mbps |> in
  rebound (bu_guests b) b controllers.

(** The loop over [controllers.iter_mut().zip(samples)]. *)
Fixpoint tick_all (best : option f64) (controllers : list Controller) (samples : list Sample) : option (list Controller * option f64) :=
  match controllers, samples with
  | c :: cs, s :: ss =>
      let '(c, rate) := tick c (sm_window s) (sm_stale s) (sm_measured_mbps s) in
      rate ← rate;
      let best := Some (match best with Some current => f_min current rate | None => rate end) in
      '(cs, best) ← tick_all best cs ss;
      Some (c :: cs, best)
  | cs, _ => Some (cs, best)
  end.

Definition budget_tick (b : Budget) (controllers : list Controller) (samples : list Sample) : option (Budget * list Controller * option f64) :=
  '(controllers, best) ← tick_all None controllers samples;
  match best with
  | None => Some (b, controllers, None)
  | Some best =>
      if (SFabs (best - bu_applied_mbps b)%f64 <=? DEADBAND_MBPS)%f64 then Some (b, controllers, None)
      else Some (b <| bu_applied_mbps := best |>, controllers, Some best)
  end.

(** ** Controllers under a budget *)

(** A controller whose state is numbers, whatever its bounds. *)
Definition Numeric (c : Controller) : Prop :=
  f_is_nan (c_current_mbps c) = false /\ f_is_nan (c_peak_mbps c) = false /\ 1 <= c_step c.

(** A controller bound by a budget. *)
Definition Bound (b : Budget) (c : Controller) : Prop :=
  Controller_ok c /\ c_min_mbps c = bu_min_mbps b /\ c_max_mbps c = budget_ceiling b.

Lemma Bound_numeric b c : Bound b c -> Numeric c.
Proof. by intros [[? ? ? ?] _]. Qed.

Lemma controller_new_numeric level lo hi : f_is_nan lo = false -> Numeric (controller_new level lo hi).
Proof. intros H. split; [done|]. split; [done|cbn; lia]. Qed.

Lemma ceiling_above_floor b : f_is_nan (bu_min_mbps b) = false -> (bu_min_mbps b <=? budget_ceiling b)%f64 = true.
Proof. intros H. by apply f_max_ge_r. Qed.

Lemma set_bounds_bound b c : f_is_nan (bu_min_mbps b) = false -> Numeric c -> Bound b (set_bounds c (bu_min_mbps b) (budget_ceiling b)).
Proof.
  intros Hm (Hc & Hp & Hs). pose proof (ceiling_above_floor b Hm) as Hle. destruct (f_leb_num _ _ Hle) as [_ Hn].
  unfold set_bounds, Bound. cbn. destruct (budget_ceiling b <? c_current_mbps c)%f64; cbn; destruct (budget_ceiling b <? c_peak_mbps c)%f64; split; constructor; done.
Qed.

Lemma rebound_bound guests b cs : f_is_nan (bu_min_mbps b) = false -> Forall Numeric cs ->
  let w := rebound guests b cs in Forall (Bound w.1) w.2 /\ bu_min_mbps w.1 = bu_min_mbps b /\ length w.2 = length cs.
Proof.
  intros Hm Hcs. split; [|split; [done|by apply length_map]]. unfold rebound. cbn [fst snd]. set (b' := b <| bu_guests := guests |>). apply Forall_map. eapply list.Forall_impl; [exact Hcs|]. intros c Hc. by apply set_bounds_bound.
Qed.

Lemma Bound_tick b c w s m : Bound b c -> Bound b (tick c w s m).1 /\ exists rate, (tick c w s m).2 = Some rate /\ (bu_min_mbps b <=? rate)%f64 = true /\ (rate <=? budget_ceiling b)%f64 = true.
Proof.
  intros (Hok & Hlo & Hhi). pose proof (tick_ok c w s m Hok) as Hok'. destruct (tick_bounds c w s m) as [E1 E2]. split; [split; [done|split; congruence]|].
  assert (E : (tick c w s m).2 = rate_mbps (tick c w s m).1) by done. rewrite E. unfold rate_mbps. destruct Hok' as [Hb Hcur _ _]. rewrite Hb. eexists. split; [done|].
  pose proof (f_clamp_range _ _ _ Hcur Hb) as Hr. by rewrite <- Hlo, <- Hhi, <- E1, <- E2.
Qed.

(** The rates the controllers that have a sample return. *)
Fixpoint rates (controllers : list Controller) (samples : list Sample) : list f64 :=
  match controllers, samples with
  | c :: cs, s :: ss => match (tick c (sm_window s) (sm_stale s) (sm_measured_mbps s)).2 with Some r => r :: rates cs ss | None => rates cs ss end
  | _, _ => []
  end.

Definition Within (b : Budget) (r : f64) : Prop := (bu_min_mbps b <=? r)%f64 = true /\ (r <=? budget_ceiling b)%f64 = true.

Lemma Within_min b x y : Within b x -> Within b y -> Within b (f_min x y) /\ (f_min x y <=? x)%f64 = true /\ (f_min x y <=? y)%f64 = true.
Proof.
  intros [X1 X2] [Y1 Y2]. destruct (f_leb_num _ _ X2) as [Hx _]. destruct (f_leb_num _ _ Y2) as [Hy _]. split; [split|split].
  - by apply f_min_glb.
  - eapply f_leb_trans; [by apply f_min_le_l|done].
  - by apply f_min_le_l.
  - by apply f_min_le_r.
Qed.

(** The least of the rates, starting from what is at hand. *)
Definition Least (best : option f64) (rs : list f64) (r : option f64) : Prop :=
  match r with
  | None => best = None /\ rs = []
  | Some r => Forall (fun x => (r <=? x)%f64 = true) rs /\ (forall x, best = Some x -> (r <=? x)%f64 = true) /\ (best = Some r \/ r ∈ rs)
  end.

Lemma f_min_one x y : f_is_nan x = false -> f_is_nan y = false -> f_min x y = x \/ f_min x y = y.
Proof. intros Hx Hy. unfold f_min. rewrite Hx, Hy. destruct (y <? x)%f64; auto. Qed.

Lemma tick_all_spec b best cs ss : Forall (Bound b) cs -> (forall x, best = Some x -> Within b x) ->
  exists cs' r, tick_all best cs ss = Some (cs', r) /\ Forall (Bound b) cs' /\ length cs' = length cs /\ Least best (rates cs ss) r /\ (forall x, r = Some x -> Within b x).
Proof.
  intros Hcs. revert best ss. induction Hcs as [|c cs Hc Hcs IH]; intros best ss Hbest.
  - exists [], best. cbn. split; [done|]. split; [constructor|]. split; [done|]. split; [|done]. destruct best; cbn; [|done]. destruct (f_leb_num _ _ (proj2 (Hbest _ eq_refl))) as [Hn _].
    split; [constructor|]. split; [intros x [= <-]; by apply f_leb_refl|by left].
  - destruct ss as [|s ss].
    + exists (c :: cs), best. cbn. split; [done|]. split; [by constructor|]. split; [done|]. split; [|done]. destruct best; cbn; [|done]. destruct (f_leb_num _ _ (proj2 (Hbest _ eq_refl))) as [Hn _].
      split; [constructor|]. split; [intros x [= <-]; by apply f_leb_refl|by left].
    + destruct (Bound_tick b c (sm_window s) (sm_stale s) (sm_measured_mbps s) Hc) as (Hc' & rate & Er & Hr). cbn [tick_all rates].
      destruct (tick c (sm_window s) (sm_stale s) (sm_measured_mbps s)) as [c' r']. cbn [fst snd] in *. subst r'. cbn [mbind option_bind].
      set (best' := match best with Some current => f_min current rate | None => rate end).
      assert (HB : Within b best' /\ (best' <=? rate)%f64 = true /\ (forall x, best = Some x -> (best' <=? x)%f64 = true) /\ (best = Some best' \/ best' = rate)).
      { unfold best'. destruct (f_leb_num _ _ (proj2 Hr)) as [Hn _]. destruct best as [x|]; [|split; [done|split; [by apply f_leb_refl|by split; [|right]]]].
        specialize (Hbest x eq_refl). destruct (Within_min b x rate Hbest Hr) as (? & ? & ?). split; [done|]. split; [done|]. split; [by intros y [= <-]|].
        destruct (f_min_one x rate) as [-> | ->]; [by apply (f_leb_num _ _ (proj2 Hbest))|done|by left|by right]. }
      destruct HB as (HB1 & HB2 & HB3 & HB4). destruct (IH (Some best') ss) as (cs' & r & E & F1 & F2 & F3 & F4); [by intros x [= <-]|]. rewrite E. cbn [mbind option_bind].
      exists (c' :: cs'), r. split; [done|]. split; [by constructor|]. split; [cbn; by rewrite F2|]. split; [|done]. destruct r as [r|]; [|by destruct F3].
      destruct F3 as (L1 & L2 & L3). specialize (L2 _ eq_refl). split; [constructor; [by eapply f_leb_trans|done]|]. split; [intros x Hx; eapply f_leb_trans; [exact L2|by apply HB3]|].
      destruct L3 as [[= <-]|L3]; [|by right; constructor]. destruct HB4 as [HB4| ->]; [by left|right; constructor].
Qed.

(** A tick never panics; what it hands the encoder is the least of what the
    controllers return, between the floor and the ceiling, and it hands over
    nothing only when the least rate is within the deadband of what is applied
    or no controller had a sample. *)
Lemma budget_tick_spec b cs ss : Forall (Bound b) cs ->
  exists b' cs' out, budget_tick b cs ss = Some (b', cs', out) /\ Forall (Bound b') cs' /\ length cs' = length cs /\
    b' = (match out with Some r => b <| bu_applied_mbps := r |> | None => b end) /\
    match out with
    | Some r => Within b r /\ Least None (rates cs ss) (Some r) /\ (SFabs (r - bu_applied_mbps b)%f64 <=? DEADBAND_MBPS)%f64 = false
    | None => rates cs ss = [] \/ exists r, Least None (rates cs ss) (Some r) /\ (SFabs (r - bu_applied_mbps b)%f64 <=? DEADBAND_MBPS)%f64 = true
    end.
Proof.
  intros Hcs. destruct (tick_all_spec b None cs ss Hcs) as (cs' & r & E & F1 & F2 & F3 & F4); [done|]. unfold budget_tick. rewrite E. cbn [mbind option_bind].
  destruct r as [r|]; [destruct (SFabs _ <=? DEADBAND_MBPS)%f64 eqn:Ed|]; do 3 eexists; (split; [reflexivity|]); (split; [exact F1|]); (split; [exact F2|]); (split; [reflexivity|]).
  - right. by exists r.
  - split; [by apply F4|done].
  - left. by destruct F3.
Qed.
