(* ===== verification/Stream.v ===== *)
(** * The encode loop's roster ([host/src/stream.rs])

    The seats guests take, the roster of guests the loop has admitted, and what
    the loop does to them: admitting and retiring, binding the rate, the rate
    tick, and the collection of an encoded frame and its delivery. The guests'
    threads are steps of their own. What is asked of the devices and of the
    rings is an argument of the operation that asks. *)

From Stdlib Require Import SpecFloat.
From S2P Require Import Prelude F64 Packet Message Policy Payload Gate Budget.

(** ** State *)

Inductive SeatState := FREE | CLAIMED | STREAMING | LEAVING.

#[export] Instance SeatState_eq_dec : EqDecision SeatState.
Proof. solve_decision. Defined.

Definition MAX_SEATS : nat := MAX_GUESTS.

Record Config := mkConfig { cf_cg_level : Z; cf_min_mbps : f64; cf_configured_mbps : f64 }.

(** [ro_took] is a history variable: for every entry of the roster the frames
    its ring has taken, and [None] where the chain of references was cut under
    it. *)
Record Roster := mkRoster {
  ro_active : list nat;
  ro_guests : list Guest;
  ro_controllers : list Controller;
  ro_gate : Gate;
  ro_took : list (list (option nat));
}.
#[export] Instance eta_Roster : Eta Roster := fun r => mkRoster (ro_active r) (ro_guests r) (ro_controllers r) (ro_gate r) (ro_took r).

Definition roster_default : Roster := mkRoster [] [] [] gate_new [].

(** [st_keyframes] is a history variable too: the frames the encoder has
    produced, oldest first, and whether each is a keyframe. *)
Record Stream := mkStream {
  st_seats : list SeatState;
  st_joins : list nat;
  st_roster : Roster;
  st_budget : Budget;
  st_config : Config;
  st_epoch : Z;
  st_keyframes : list bool;
}.
#[export] Instance eta_Stream : Eta Stream := fun s =>
  mkStream (st_seats s) (st_joins s) (st_roster s) (st_budget s) (st_config s) (st_epoch s) (st_keyframes s).

Definition stream_new (config : Config) : Stream :=
  mkStream (replicate MAX_SEATS FREE) [] roster_default (budget_new (cf_configured_mbps config) (cf_min_mbps config)) config 0 [].

(** ** Seats *)

Fixpoint find_free (index : nat) (seats : list SeatState) : option nat :=
  match seats with
  | [] => None
  | FREE :: _ => Some index
  | _ :: rest => find_free (S index) rest
  end.

(** [Seats::take]: claim the first free seat and announce it. *)
Definition take_seat (s : Stream) : Stream * option nat :=
  match find_free 0 (st_seats s) with
  | Some k => (s <| st_seats := <[k := CLAIMED]> (st_seats s) |> <| st_joins := st_joins s ++ [k] |>, Some k)
  | None => (s, None)
  end.

(** [SeatHold::drop]. *)
Definition drop_seat (k : nat) (s : Stream) : Stream := s <| st_seats := <[k := LEAVING]> (st_seats s) |>.

Definition retire_leaving (s : Stream) : Stream :=
  s <| st_seats := map (fun state => if bool_decide (state = LEAVING) then FREE else state) (st_seats s) |>.

Definition occupied (s : Stream) : bool := existsb (fun state => negb (bool_decide (state = FREE))) (st_seats s).

(** ** Admitting and retiring *)

(** [Vec::swap_remove], for an index in range. *)
Definition swap_remove {A} (at_ : nat) (l : list A) : list A :=
  match list.last l with Some x => take (pred (length l)) (<[at_ := x]> l) | None => l end.

Definition admit_join (config : Config) (k : nat) (w : list SeatState * Roster * bool) : list SeatState * Roster * bool :=
  let '(seats, r, moved) := w in
  match seats !! k with
  | None => w
  | Some state =>
      if negb (bool_decide (state = CLAIMED)) then w else
      (<[k := STREAMING]> seats,
       mkRoster (ro_active r ++ [k]) (ro_guests r ++ [joining (cf_configured_mbps config)])
         (ro_controllers r ++ [controller_new (cf_cg_level config) (cf_min_mbps config) (cf_configured_mbps config)]) (ro_gate r) (ro_took r ++ [[]]),
       true)
  end.

Definition remove_entry (at_ : nat) (r : Roster) : Roster :=
  mkRoster (swap_remove at_ (ro_active r)) (swap_remove at_ (ro_guests r)) (swap_remove at_ (ro_controllers r)) (ro_gate r) (swap_remove at_ (ro_took r)).

(** The retiring loop. Each round moves [at_] on or shortens the roster, so its
    length is fuel enough. *)
Fixpoint retire (fuel at_ : nat) (w : list SeatState * Roster * bool) : list SeatState * Roster * bool :=
  match fuel with
  | O => w
  | S fuel =>
      let '(seats, r, moved) := w in
      match ro_active r !! at_ with
      | None => w
      | Some k =>
          match seats !! k with
          | None => w
          | Some state =>
              if negb (bool_decide (state = LEAVING)) then retire fuel (S at_) w
              else retire fuel at_ (<[k := FREE]> seats, remove_entry at_ r, true)
          end
      end
  end.

Definition admit_and_retire (s : Stream) : Stream * bool :=
  let w := fold_left (fun w k => admit_join (st_config s) k w) (st_joins s) (st_seats s, st_roster s, false) in
  let '(seats, r, moved) := retire (length (ro_active w.1.2)) 0 w in
  (s <| st_seats := seats |> <| st_joins := [] |> <| st_roster := r |>, moved).

(** ** The rate *)

(** [x as f32]: rounded to 24 bits. *)
Definition f32_of (x : f64) : f64 :=
  match x with S754_finite sign m e => binary_normalize 24 128 (cond_Zopp sign (Zpos m)) e sign | _ => x end.

Definition ceiling_step (b : Budget) : f64 := f32_of (budget_ceiling b).

Definition set_rates (b : Budget) (r : Roster) : Roster := r <| ro_guests := map (set_rate (ceiling_step b)) (ro_guests r) |>.

Definition with_budget (s : Stream) (w : Budget * list Controller) : Stream :=
  s <| st_budget := w.1 |> <| st_roster := st_roster s <| ro_controllers := w.2 |> |>.

Definition rebind (s : Stream) : Stream :=
  let s := with_budget s (rebound (Z.of_nat (length (ro_active (st_roster s)))) (st_budget s) (ro_controllers (st_roster s))) in
  s <| st_roster := set_rates (st_budget s) (st_roster s) |>.

(** The top of the loop: admit, retire, and rebind when the room changed. *)
Definition admission_pass (s : Stream) : Stream :=
  let '(s, moved) := admit_and_retire s in if moved then rebind s else s.

(** Sound's price moved past the deadband. *)
Definition sound_pass (sound_mbps : f64) (s : Stream) : Stream :=
  if (SFabs (sound_mbps - bu_audio_mbps (st_budget s))%f64 >? DEADBAND_MBPS)%f64 then
    let s := with_budget s (set_audio sound_mbps (st_budget s) (ro_controllers (st_roster s))) in
    s <| st_roster := set_rates (st_budget s) (st_roster s) |>
  else s.

(** A live video change re-bases the budget. *)
Definition live_video (bitrate_mbps min_mbps : f64) (s : Stream) : Stream :=
  with_budget s (reconfigure bitrate_mbps min_mbps (st_budget s) (ro_controllers (st_roster s))).

(** [tick_rate]: a sample and the missed-frame mark per entry. *)
Definition refresh_guest (g : Guest) (sample : Sample * bool) : Guest :=
  let g := set_outstanding (sm_window sample.1) g in if sample.2 then mark_skipping g else g.

Definition note_missed (log : list (option nat)) (sample : Sample * bool) : list (option nat) :=
  if sample.2 then log ++ [None] else log.

(** [zip]: what is past the shorter list stays. *)
Fixpoint zip_update {A B} (f : A -> B -> A) (l : list A) (k : list B) : list A :=
  match l, k with x :: l, y :: k => f x y :: zip_update f l k | _, _ => l end.

Definition tick_rate (samples : list (Sample * bool)) (s : Stream) : option (Stream * option f64) :=
  let r := st_roster s in
  let r := r <| ro_guests := zip_update refresh_guest (ro_guests r) samples |> <| ro_took := zip_update note_missed (ro_took r) samples |> in
  '(b, controllers, rate) ← budget_tick (st_budget s) (ro_controllers r) (map fst samples);
  Some (s <| st_budget := b |> <| st_roster := r <| ro_controllers := controllers |> |>, rate).

(** ** Frames *)

Definition fragments_for (len : Z) : Z :=
  let body := DEFAULT_DATAGRAM - ENVELOPE_LEN - Packet.HEADER_LEN in
  let total := len + VIDEO_HEADER_LEN + LENGTH_PREFIX_LEN in
  default U32_MAX (try_from U32_MAX ((total + body - 1) / body)).

(** A frame dropped before the gate: every guest has missed it. *)
Definition drop_frame (keyframe : bool) (now_ms : f64) (s : Stream) : Stream * Keyframe :=
  let r := st_roster s in
  let '(gate, k) := request_keyframe now_ms (ro_gate r) in
  (s <| st_roster := r <| ro_guests := map mark_skipping (ro_guests r) |> <| ro_gate := gate |> |>
     <| st_keyframes := st_keyframes s ++ [keyframe] |>, k).

(** The seats behind the picked entries, in order; an entry whose seat is not
    there is passed over. *)
Definition targets (active : list nat) (seats : nat) (picked : list nat) : list nat :=
  omap (fun at_ => k ← active !! at_; if (k <? seats)%nat then Some k else None) picked.

(** A ring that refused is a guest that missed the frame. *)
Definition latch_refused (taken : nat -> bool) (picked : list nat) (guests : list Guest) (at_ : nat) : list Guest :=
  if taken at_ then guests else match picked !! at_ with Some index => alter mark_skipping index guests | None => guests end.

(** [taken]: the mask [Writer::publish] returns, a bit per ring in the order
    given. *)
Definition deliver (active : list nat) (seats : nat) (taken : nat -> bool) (picked : list nat) (guests : list Guest) : list Guest :=
  fold_left (latch_refused taken picked) (seq 0 (length (targets active seats picked))) guests.

(** The history of the rings: what each entry's ring took of this frame. *)
Definition record_taken (frame : nat) (taken : nat -> bool) (picked : list nat) (n : nat) (took : list (list (option nat))) : list (list (option nat)) :=
  imap (fun k log => if existsb (fun at_ => bool_decide (picked !! at_ = Some k) && taken at_) (seq 0 n) then log ++ [Some frame] else log) took.

Definition deliver_frame (len : Z) (keyframe : bool) (now_ms : f64) (taken : nat -> bool) (s : Stream) : Stream * Keyframe :=
  let r := st_roster s in
  let '(gate, guests, delivered, k) := gate_admit (fragments_for len) keyframe now_ms (ro_gate r) (ro_guests r) in
  let picked := take MAX_SEATS delivered in
  let n := length (targets (ro_active r) (length (st_seats s)) picked) in
  (s <| st_roster := r <| ro_gate := gate |> <| ro_guests := deliver (ro_active r) (length (st_seats s)) taken picked guests |>
        <| ro_took := record_taken (length (st_keyframes s)) taken picked n (ro_took r) |> |>
     <| st_keyframes := st_keyframes s ++ [keyframe] |>, k).

(** A refresh asked for by a peer. *)
Definition refresh_requested (now_ms : f64) (s : Stream) : Stream * Keyframe :=
  let '(gate, k) := request_keyframe now_ms (ro_gate (st_roster s)) in (s <| st_roster := st_roster s <| ro_gate := gate |> |>, k).

(** The encoder is rebuilt: every guest is latched and the generation moves. *)
Definition rebuild (s : Stream) : Stream :=
  let r := st_roster s in
  s <| st_roster := r <| ro_guests := map mark_skipping (ro_guests r) |> <| ro_took := map (fun log => log ++ [None]) (ro_took r) |> |>
    <| st_epoch := wrapping_add32 (st_epoch s) 1 |>.

Definition HEARTBEAT_MS : f64 := f_of_Z 1000.

Definition must_send (full_fps changed refresh seats_moved : bool) (since_forced_ms : f64) : bool :=
  full_fps || changed || refresh || seats_moved || (since_forced_ms >=? HEARTBEAT_MS)%f64.

(** ** Lists with holes filled from the end *)

Lemma swap_remove_lookup {A} (at_ : nat) (l : list A) k x :
  (at_ < length l)%nat -> swap_remove at_ l !! k = Some x ->
  exists j, (j < length l)%nat /\ l !! j = Some x /\ j <> at_ /\ (k < pred (length l))%nat /\ j = if decide (k = at_) then pred (length l) else k.
Proof.
  intros Ha. unfold swap_remove. destruct (list.last l) as [y|] eqn:El; [|apply last_None in El as ->; cbn in Ha; lia].
  apply last_Some in El as [l' ->]. rewrite length_app in *. cbn in *. replace (pred (length l' + 1)) with (length l') in * by lia.
  rewrite lookup_take_Some. intros [Hx Hk]. destruct (decide (k = at_)) as [->|Hne].
  - rewrite list_lookup_insert_eq in Hx by (rewrite length_app; cbn; lia). injection Hx as <-. exists (length l'). rewrite lookup_app_r, Nat.sub_diag by lia. cbn. repeat split; lia || done.
  - rewrite list_lookup_insert_ne in Hx by done. exists k. repeat split; lia || done.
Qed.

Lemma swap_remove_length {A} (at_ : nat) (l : list A) : length (swap_remove at_ l) = pred (length l).
Proof.
  unfold swap_remove. destruct (list.last l) eqn:El; [rewrite length_take, length_insert; lia|]. by apply last_None in El as ->.
Qed.

Lemma swap_remove_source {A B} (at_ : nat) (l : list A) (l' : list B) k x y :
  length l = length l' -> (at_ < length l)%nat -> swap_remove at_ l !! k = Some x -> swap_remove at_ l' !! k = Some y ->
  exists j, l !! j = Some x /\ l' !! j = Some y /\ j <> at_.
Proof.
  intros Hl Ha Hx Hy. apply swap_remove_lookup in Hx as (j & _ & Hj & Hne & _ & Ej); [|done]. apply swap_remove_lookup in Hy as (j' & _ & Hj' & _ & _ & Ej'); [|lia].
  exists j. rewrite Ej, Ej', <- Hl in *. done.
Qed.

Lemma swap_remove_NoDup {A} (at_ : nat) (l : list A) : (at_ < length l)%nat -> NoDup l -> NoDup (swap_remove at_ l).
Proof.
  intros Ha Hl. apply NoDup_alt. intros i j x Hi Hj. apply swap_remove_lookup in Hi as (i' & _ & Hi & Hi1 & Hi2 & Ei); [|done]. apply swap_remove_lookup in Hj as (j' & _ & Hj & Hj1 & Hj2 & Ej); [|done].
  assert (E : i' = j') by (eapply NoDup_lookup; eauto). rewrite Ei, Ej in E. destruct (decide (i = at_)), (decide (j = at_)); lia.
Qed.

Lemma zip_update_lookup {A B} (f : A -> B -> A) l k i :
  zip_update f l k !! i = match l !! i, k !! i with Some x, Some y => Some (f x y) | r, _ => r end.
Proof. revert k i. induction l as [|x l IH]; intros [|y k] [|i]; cbn; try done; try (by destruct (l !! i)); apply IH. Qed.

(** ** The chain of references *)

(** What a ring has taken can be decoded: a frame that is not a keyframe comes
    right after the frame before it. *)
Inductive Chain (keyframes : list bool) : list (option nat) -> Prop :=
  | chain_start : Chain keyframes []
  | chain_cut log : Chain keyframes log -> Chain keyframes (log ++ [None])
  | chain_key log n : Chain keyframes log -> keyframes !! n = Some true -> Chain keyframes (log ++ [Some n])
  | chain_next log n : Chain keyframes log -> list.last log = Some (Some n) -> (S n < length keyframes)%nat -> Chain keyframes (log ++ [Some (S n)]).

Lemma Chain_more kf more log : Chain kf log -> Chain (kf ++ more) log.
Proof.
  induction 1; [constructor|by constructor|constructor; [done|by apply lookup_app_l_Some]|constructor; [done..|rewrite length_app; lia]].
Qed.

(** An entry of the roster: its history is a chain, and a guest that is not
    waiting has taken the newest frame. *)
Record EntryInv (kf : list bool) (g : Guest) (log : list (option nat)) : Prop := mkEntryInv {
  en_chain : Chain kf log;
  en_newest : gu_pending_keyframe g = false -> exists n, length kf = S n /\ list.last log = Some (Some n);
}.

(** [fits]: no frame was delivered to a roster longer than there are seats. *)
Record RosterInv (fits : bool) (kf : list bool) (r : Roster) : Prop := mkRosterInv {
  rv_guests : length (ro_guests r) = length (ro_active r);
  rv_controllers : length (ro_controllers r) = length (ro_active r);
  rv_took : length (ro_took r) = length (ro_active r);
  rv_entries : fits = true -> forall k g log, ro_guests r !! k = Some g -> ro_took r !! k = Some log -> EntryInv kf g log;
}.

Lemma EntryInv_waiting kf more g log : EntryInv kf g log -> EntryInv (kf ++ more) (mark_skipping g) log.
Proof. intros [Hc _]. split; [by apply Chain_more|done]. Qed.

Lemma EntryInv_cut kf g log : EntryInv kf g log -> EntryInv kf (mark_skipping g) (log ++ [None]).
Proof. intros [Hc _]. split; [by constructor|done]. Qed.

Lemma EntryInv_pending kf g g' log : gu_pending_keyframe g' = gu_pending_keyframe g -> EntryInv kf g log -> EntryInv kf g' log.
Proof. intros E [Hc Hn]. split; [done|]. by rewrite E. Qed.

(** ** Delivery, entry by entry *)

Lemma mark_twice g : mark_skipping (mark_skipping g) = mark_skipping g.
Proof. by destruct g. Qed.

Definition refused (taken : nat -> bool) (picked : list nat) (k : nat) (l : list nat) : bool :=
  existsb (fun at_ => bool_decide (picked !! at_ = Some k) && negb (taken at_)) l.

Lemma latch_lookup taken picked l guests k g : guests !! k = Some g ->
  fold_left (latch_refused taken picked) l guests !! k = Some (if refused taken picked k l then mark_skipping g else g).
Proof.
  revert guests g. induction l as [|a l IH]; intros guests g Hg; [done|]. cbn [fold_left refused existsb]. fold (refused taken picked k l).
  unfold latch_refused at 2. destruct (taken a); cbn [negb]; [rewrite andb_false_r; by apply IH|]. rewrite andb_true_r. destruct (picked !! a) as [index|] eqn:Ep.
  - destruct (decide (index = k)) as [->|Hne].
    + rewrite bool_decide_true by done. cbn [orb]. rewrite (IH _ (mark_skipping g)) by (by rewrite list_lookup_alter_eq, Hg). rewrite mark_twice. by destruct (refused _ _ _ _).
    + rewrite bool_decide_false by congruence. apply IH. by rewrite list_lookup_alter_ne.
  - rewrite bool_decide_false by done. by apply IH.
Qed.

Lemma latch_length taken picked l guests : length (fold_left (latch_refused taken picked) l guests) = length guests.
Proof.
  revert guests. induction l as [|a l IH]; intros guests; [done|]. cbn. rewrite IH. unfold latch_refused. destruct (taken a); [done|]. destruct (picked !! a); [by rewrite length_alter|done].
Qed.

(** A pick is at one place. *)
Lemma pick_once (p : nat -> bool) (picked : list nat) (k a n : nat) : NoDup picked -> picked !! a = Some k -> (a < n)%nat ->
  existsb (fun at_ => bool_decide (picked !! at_ = Some k) && p at_) (seq 0 n) = p a.
Proof.
  intros Hnd Ha Hn. apply eq_true_iff_eq. rewrite existsb_exists. split.
  - intros (b & _ & Hb). apply andb_true_iff in Hb as [Hb Hp]. apply bool_decide_eq_true in Hb. by rewrite (NoDup_lookup picked a b k Hnd Ha Hb).
  - intros Hp. exists a. split; [apply in_seq; lia|]. by rewrite bool_decide_true, Hp.
Qed.

Lemma pick_never (p : nat -> bool) (picked : list nat) (k : nat) l : k ∉ picked -> existsb (fun at_ => bool_decide (picked !! at_ = Some k) && p at_) l = false.
Proof.
  intros Hk. apply not_true_is_false. rewrite existsb_exists. intros (b & _ & Hb). apply andb_true_iff in Hb as [Hb _]. apply bool_decide_eq_true in Hb. apply list_elem_of_lookup_2 in Hb. done.
Qed.

(** Every pick has a ring when every entry has a seat. *)
Lemma targets_all active seats picked :
  (forall k, k ∈ active -> (k < seats)%nat) -> (forall at_, at_ ∈ picked -> (at_ < length active)%nat) -> length (targets active seats picked) = length picked.
Proof.
  intros Ha Hp. unfold targets. induction picked as [|a picked IH]; [done|]. cbn [omap list_omap]. destruct (lookup_lt_is_Some_2 active a) as [k Hk]; [apply Hp; by constructor|].
  rewrite Hk. cbn [mbind option_bind]. rewrite (proj2 (Nat.ltb_lt k seats)) by (apply Ha; by eapply list_elem_of_lookup_2). cbn [length]. f_equal. apply IH. intros at_ Hat. apply Hp. by constructor.
Qed.

Lemma turn_pending fragments mark keyframe g : gu_pending_keyframe (turn fragments mark keyframe g).1.1 = negb (turn fragments mark keyframe g).1.2.
Proof. pose proof (turn_spec fragments mark keyframe g) as H. destruct (turn _ _ _ g) as [[g' t] w]. by destruct H as (_ & ? & _). Qed.

Lemma turn_takes fragments mark keyframe g : (turn fragments mark keyframe g).1.2 = true -> keyframe = true \/ gu_pending_keyframe g = false.
Proof.
  pose proof (turn_spec fragments mark keyframe g) as H. destruct (turn _ _ _ g) as [[g' t] w]. destruct H as (-> & _). cbn. intros H. apply andb_true_iff in H as [_ H].
  destruct keyframe; [by left|]. right. by destruct (gu_pending_keyframe g).
Qed.

(** One frame, for one entry: the guest after its turn and the answers of the
    rings, and the history with what its ring took. *)
Lemma entry_frame kf keyframe fragments mark g log took_it :
  EntryInv kf g log -> let t := turn fragments mark keyframe g in
  EntryInv (kf ++ [keyframe]) (if t.1.2 && negb took_it then mark_skipping t.1.1 else t.1.1) (if t.1.2 && took_it then log ++ [Some (length kf)] else log).
Proof.
  intros [Hc Hn] t. pose proof (turn_pending fragments mark keyframe g) as Hp. pose proof (turn_takes fragments mark keyframe g) as Ht. fold t in Hp, Ht.
  destruct t.1.2; cbn [andb]; [destruct took_it; cbn [negb]|].
  - split.
    + destruct (Ht eq_refl) as [-> | Hg].
      * apply chain_key; [by apply Chain_more|by apply list_lookup_middle].
      * destruct (Hn Hg) as (n & Hl & Hlast). rewrite Hl. apply chain_next; [by apply Chain_more|done|rewrite length_app; cbn; lia].
    + intros _. exists (length kf). rewrite length_app, last_snoc. cbn. split; [lia|done].
  - split; [by apply Chain_more|done].
  - split; [by apply Chain_more|]. by rewrite Hp.
Qed.

Lemma imap_lookup {A B} (f : nat -> A -> B) l k : imap f l !! k = f k <$> l !! k.
Proof. apply list_lookup_imap. Qed.

(** The picks of a frame are at most as many as there are seats. *)
Definition frame_fits (s : Stream) : bool := (length (ro_active (st_roster s)) <=? MAX_SEATS)%nat.

Lemma deliver_frame_inv fits len keyframe now taken s :
  RosterInv fits (st_keyframes s) (st_roster s) ->
  (forall k, k ∈ ro_active (st_roster s) -> (k < length (st_seats s))%nat) ->
  let s' := (deliver_frame len keyframe now taken s).1 in RosterInv (fits && frame_fits s) (st_keyframes s') (st_roster s').
Proof.
  intros [G1 G2 G3 GE] Hseat. unfold deliver_frame. set (r := st_roster s) in *. set (kf := st_keyframes s) in *. unfold gate_admit. set (gate1 := _ <| gt_largest := _ |>). set (mark := largest gate1). set (frag := fragments_for len).
  pose proof (turns_length frag mark keyframe 0 (ro_guests r)) as Tl. pose proof (turns_lookup frag mark keyframe 0 (ro_guests r)) as Tk.
  pose proof (turns_delivered frag mark keyframe 0 (ro_guests r)) as Td. pose proof (turns_sorted frag mark keyframe 0 (ro_guests r)) as Ts.
  destruct (turns frag mark keyframe 0 (ro_guests r)) as [[gs delivered] wanted]. cbn [fst snd] in *.
  assert (Hd : forall k, k ∈ delivered <-> exists g, ro_guests r !! k = Some g /\ (turn frag mark keyframe g).1.2 = true).
  { intros k. rewrite Td, Nat.sub_0_r. split; [by intros [_ ?]|]. intros ?. split; [lia|done]. }
  assert (Hin : forall k, k ∈ delivered -> (k < length (ro_active r))%nat).
  { intros k (g & Hg & _)%Hd. rewrite <- G1. by eapply lookup_lt_Some. }
  assert (Hsmall : (length delivered <= length (ro_active r))%nat).
  { rewrite <- (length_seq (length (ro_active r)) 0). apply submseteq_length, NoDup_submseteq; [done|]. intros k Hk. apply elem_of_seq. specialize (Hin k Hk). lia. }
  set (mid := if wanted then _ else _). assert (Hmid : exists gate k, mid = (gate, gs, delivered, k)).
  { unfold mid. destruct wanted; [destruct (request_keyframe now gate1)|]; by do 2 eexists. }
  destruct Hmid as (gate & k0 & ->). cbn [fst]. set (picked := take MAX_SEATS delivered).
  change (RosterInv (fits && frame_fits s) (kf ++ [keyframe]) (r <| ro_gate := gate |> <| ro_guests := deliver (ro_active r) (length (st_seats s)) taken picked gs |>
    <| ro_took := record_taken (length kf) taken picked (length (targets (ro_active r) (length (st_seats s)) picked)) (ro_took r) |>)).
  unfold deliver. split; cbn [ro_guests ro_active ro_controllers ro_took set_field eta eta_Roster].
  - rewrite latch_length, Tl. exact G1.
  - exact G2.
  - unfold record_taken. by rewrite length_imap.
  - intros [Hf Hmax%Nat.leb_le]%andb_true_iff k g log Hg Hlog. specialize (GE Hf). fold r in Hmax.
    assert (picked = delivered) as Ep by (apply take_ge; lia). rewrite Ep in Hg, Hlog. clear picked Ep. rewrite targets_all in Hg, Hlog by done.
    unfold record_taken in Hlog. rewrite imap_lookup in Hlog. destruct (ro_took r !! k) as [log0|] eqn:El; [|done]. cbn in Hlog. injection Hlog as <-.
    destruct (lookup_lt_is_Some_2 (ro_guests r) k) as [g0 Hg0]; [rewrite G1, <- G3; by eapply lookup_lt_Some|]. specialize (GE k g0 log0 Hg0 El). specialize (Tk k). rewrite Hg0 in Tk. cbn in Tk.
    rewrite (latch_lookup taken delivered _ gs k _ Tk) in Hg. injection Hg as <-. unfold refused.
    destruct (decide (k ∈ delivered)) as [Hk|Hk].
    + destruct (list_elem_of_lookup_1 _ _ Hk) as [a Ha]. pose proof (lookup_lt_Some _ _ _ Ha) as Hal.
      rewrite (pick_once (fun at_ => negb (taken at_)) delivered k a), (pick_once taken delivered k a) by done. apply Hd in Hk as (g1 & Hg1 & Ht). rewrite Hg0 in Hg1. injection Hg1 as <-.
      pose proof (entry_frame kf keyframe frag mark g0 log0 (taken a) GE) as HE. cbv zeta in HE. by rewrite Ht in HE.
    + rewrite !pick_never by done. pose proof (entry_frame kf keyframe frag mark g0 log0 true GE) as HE. cbv zeta in HE.
      destruct (turn frag mark keyframe g0).1.2 eqn:Et; [|exact HE]. exfalso. apply Hk, Hd. by exists g0.
Qed.

(** ** The loop's invariant *)

(** A new encoder's loop: its budget starts from the configuration. *)
Definition begin_loop (s : Stream) : Stream :=
  rebind (s <| st_budget := budget_new (cf_configured_mbps (st_config s)) (cf_min_mbps (st_config s)) |>).

(** A build that failed with nothing to fall back on. *)
Definition abandon (s : Stream) : Stream := s <| st_roster := roster_default |>.

Definition seated (seats : list SeatState) (k : nat) : Prop := seats !! k = Some STREAMING \/ seats !! k = Some LEAVING.

(** [tidy]: no seat was given back while an entry of the roster had it. *)
Record SeatsInv (tidy : bool) (seats : list SeatState) (active : list nat) : Prop := mkSeatsInv {
  sv_count : length seats = MAX_SEATS;
  sv_known : forall k, k ∈ active -> (k < length seats)%nat;
  sv_once : tidy = true -> NoDup active;
  sv_seated : tidy = true -> forall k, k ∈ active -> seated seats k;
}.

Definition RateInv (b : Budget) (r : Roster) : Prop := f_is_nan (bu_min_mbps b) = false /\ Forall (Bound b) (ro_controllers r).

Record StreamInv (fits tidy : bool) (s : Stream) : Prop := mkStreamInv {
  sm_seats : SeatsInv tidy (st_seats s) (ro_active (st_roster s));
  sm_roster : RosterInv fits (st_keyframes s) (st_roster s);
  sm_rate : RateInv (st_budget s) (st_roster s);
  sm_config : f_is_nan (cf_min_mbps (st_config s)) = false;
  sm_tidy : tidy = true -> fits = true;
}.

Lemma seated_lt seats k : seated seats k -> (k < length seats)%nat.
Proof. intros [H|H]; by eapply lookup_lt_Some. Qed.

(** The seats hold the roster. *)
Lemma roster_bounded seats active : SeatsInv true seats active -> (length active <= MAX_SEATS)%nat.
Proof.
  intros [Hc Hk Ho Hs]. rewrite <- Hc, <- (length_seq (length seats) 0). apply submseteq_length, NoDup_submseteq; [by apply Ho|]. intros k Hin. apply elem_of_seq.
  specialize (Hk k Hin). lia.
Qed.

(** Guests may change as long as none stops waiting. *)
Lemma RosterInv_guests fits kf r guests gate :
  length guests = length (ro_guests r) ->
  (forall k g', guests !! k = Some g' -> exists g, ro_guests r !! k = Some g /\ (gu_pending_keyframe g' = true \/ gu_pending_keyframe g' = gu_pending_keyframe g)) ->
  RosterInv fits kf r -> RosterInv fits kf (r <| ro_guests := guests |> <| ro_gate := gate |>).
Proof.
  intros Hl Hg [G1 G2 G3 GE]. split; cbn; [congruence|done|done|]. intros Hf k g' log Hk Hlog. destruct (Hg k g' Hk) as (g & Hg0 & [E|E]).
  - destruct (GE Hf k g log Hg0 Hlog) as [Hc _]. split; [done|]. by rewrite E.
  - apply (EntryInv_pending kf g); [done|]. by apply (GE Hf k).
Qed.

Lemma RosterInv_controllers fits kf r cs : length cs = length (ro_controllers r) -> RosterInv fits kf r -> RosterInv fits kf (r <| ro_controllers := cs |>).
Proof. intros Hl [G1 G2 G3 GE]. split; cbn; [done|congruence|done|exact GE]. Qed.

Lemma set_rates_inv fits kf b r : RosterInv fits kf r -> RosterInv fits kf (set_rates b r).
Proof.
  intros HR. change (set_rates b r) with (r <| ro_guests := map (set_rate (ceiling_step b)) (ro_guests r) |> <| ro_gate := ro_gate r |>).
  apply RosterInv_guests; [apply length_map| |done]. intros k g' Hk. apply list_lookup_fmap_Some in Hk as (g & -> & Hg). exists g. split; [done|by right].
Qed.

(** ** Admitting and retiring *)

Definition LoopInv (fits tidy : bool) (kf : list bool) (w : list SeatState * Roster * bool) : Prop :=
  SeatsInv tidy w.1.1 (ro_active w.1.2) /\ RosterInv fits kf w.1.2 /\ Forall Numeric (ro_controllers w.1.2).

Lemma RosterInv_add fits kf r k g c :
  gu_pending_keyframe g = true -> RosterInv fits kf r ->
  RosterInv fits kf (mkRoster (ro_active r ++ [k]) (ro_guests r ++ [g]) (ro_controllers r ++ [c]) (ro_gate r) (ro_took r ++ [[]])).
Proof.
  intros Hg [G1 G2 G3 GE]. split; cbn; rewrite ?length_app; cbn; [lia|lia|lia|]. intros Hf j g' log Hj Hlog.
  apply lookup_app_Some in Hj as [Hj|[Hj1 Hj2]]; apply lookup_app_Some in Hlog as [Hlog|[Hl1 Hl2]].
  - by apply (GE Hf j).
  - apply lookup_lt_Some in Hj. lia.
  - apply lookup_lt_Some in Hlog. lia.
  - apply list_lookup_singleton_Some in Hj2 as [_ <-]. apply list_lookup_singleton_Some in Hl2 as [_ <-]. split; [constructor|]. by rewrite Hg.
Qed.

Lemma admit_join_inv config fits tidy kf k w : f_is_nan (cf_min_mbps config) = false -> LoopInv fits tidy kf w -> LoopInv fits tidy kf (admit_join config k w).
Proof.
  intros Hm HL. destruct w as [[seats r] moved]. unfold admit_join. destruct (seats !! k) as [state|] eqn:Ek; [|done]. case_bool_decide as Hst; cbn [negb]; [|done]. subst state.
  destruct HL as ([Hc Hk Ho Hs] & HR & HN). cbn [fst snd] in *. split; [|split]; cbn [fst snd ro_active ro_controllers].
  - split; [by rewrite length_insert| | |].
    + intros j [Hj| ->%list_elem_of_singleton]%elem_of_app; rewrite length_insert; [by apply Hk|by eapply lookup_lt_Some].
    + intros Ht. specialize (Ho Ht). specialize (Hs Ht). apply list.NoDup_app. split; [done|]. split; [|apply list.NoDup_singleton]. intros j Hj ->%list_elem_of_singleton. destruct (Hs k Hj); congruence.
    + intros Ht. specialize (Hs Ht). intros j [Hj| ->%list_elem_of_singleton]%elem_of_app; unfold seated.
      * rewrite list_lookup_insert_ne; [by apply Hs|]. intros ->. destruct (Hs j Hj); congruence.
      * left. apply list_lookup_insert_eq. by eapply lookup_lt_Some.
  - by apply RosterInv_add.
  - apply Forall_app. split; [done|]. constructor; [by apply controller_new_numeric|constructor].
Qed.

Lemma elem_of_swap_remove {A} at_ (l : list A) x : (at_ < length l)%nat -> x ∈ swap_remove at_ l -> x ∈ l.
Proof. intros Ha Hx. apply list_elem_of_lookup in Hx as [k Hk]. apply swap_remove_lookup in Hk as (j & _ & Hj & _); [|done]. by eapply list_elem_of_lookup_2. Qed.

Lemma remove_entry_inv fits kf r at_ : (at_ < length (ro_active r))%nat -> RosterInv fits kf r -> RosterInv fits kf (remove_entry at_ r).
Proof.
  intros Ha [G1 G2 G3 GE]. split; cbn; rewrite ?swap_remove_length; [congruence..|]. intros Hf k g log Hg Hlog.
  destruct (swap_remove_source at_ (ro_guests r) (ro_took r) k g log) as (j & Hj & Hj' & _); [congruence|lia|done|done|]. by apply (GE Hf j).
Qed.

Lemma retire_inv fits tidy kf fuel at_ w : LoopInv fits tidy kf w -> LoopInv fits tidy kf (retire fuel at_ w).
Proof.
  revert at_ w. induction fuel as [|fuel IH]; intros at_ w HL; [done|]. destruct w as [[seats r] moved]. cbn [retire].
  destruct (ro_active r !! at_) as [k|] eqn:Ea; [|done]. destruct (seats !! k) as [state|] eqn:Ek; [|done]. case_bool_decide as Hst; cbn [negb]; [|by apply IH]. subst state.
  apply IH. destruct HL as ([Hc Hkn Ho Hs] & HR & HN). cbn [fst snd] in *. pose proof (lookup_lt_Some _ _ _ Ea) as Hlt. split; [|split]; cbn [fst snd].
  - split; [by rewrite length_insert| |intros Ht; apply swap_remove_NoDup; auto|].
    { intros j Hj. rewrite length_insert. apply Hkn. by eapply elem_of_swap_remove. }
    intros Ht j Hj. specialize (Ho Ht). specialize (Hs Ht). cbn [ro_active remove_entry] in Hj.
    assert (j <> k) as Hne.
    { intros ->. apply list_elem_of_lookup in Hj as [i Hi]. apply swap_remove_lookup in Hi as (i' & _ & Hi & Hne & _); [|done]. apply Hne. by eapply NoDup_lookup. }
    unfold seated. rewrite list_lookup_insert_ne by done. apply Hs. by eapply elem_of_swap_remove.
  - by apply remove_entry_inv.
  - apply list.Forall_forall. intros c Hx. cbn [ro_controllers remove_entry] in Hx. rewrite list.Forall_forall in HN. apply HN. apply (elem_of_swap_remove at_); [rewrite (rv_controllers _ _ _ HR); done|done].
Qed.

(** The loop is finished with its fuel: no entry's seat is leaving. *)
Lemma retire_done fuel at_ seats r moved :
  NoDup (ro_active r) -> (forall k, k ∈ ro_active r -> seated seats k) -> (length (ro_active r) - at_ <= fuel)%nat ->
  let w := retire fuel at_ (seats, r, moved) in
  (forall i k, (at_ <= i)%nat -> ro_active w.1.2 !! i = Some k -> w.1.1 !! k = Some STREAMING) /\
  (forall i, (i < at_)%nat -> (at_ <= length (ro_active r))%nat -> ro_active w.1.2 !! i = ro_active r !! i) /\
  (forall k, k ∉ ro_active r -> w.1.1 !! k = seats !! k) /\ (forall k, k ∈ ro_active w.1.2 -> k ∈ ro_active r /\ w.1.1 !! k = seats !! k).
Proof.
  revert at_ seats r moved. induction fuel as [|fuel IH]; intros at_ seats r moved Ho Hs Hf.
  - cbn. split; [|done]. intros i k Hi Hk. apply lookup_lt_Some in Hk. lia.
  - cbn [retire]. destruct (ro_active r !! at_) as [k|] eqn:Ea.
    2: { cbn. split; [|done]. intros i k Hi Hk. apply lookup_ge_None in Ea. apply lookup_lt_Some in Hk. lia. }
    pose proof (lookup_lt_Some _ _ _ Ea) as Hlt. pose proof (list_elem_of_lookup_2 _ _ _ Ea) as Hin. pose proof (Hs k Hin) as Hk.
    destruct (seats !! k) as [state|] eqn:Ek; [|by destruct Hk; congruence]. case_bool_decide as Hst; cbn [negb].
    + subst state. set (r' := remove_entry at_ r). assert (Hr' : NoDup (ro_active r')) by by apply swap_remove_NoDup.
      assert (Hlen : length (ro_active r') = pred (length (ro_active r))) by apply swap_remove_length.
      assert (Hsub : forall j, j ∈ ro_active r' -> j ∈ ro_active r /\ j <> k).
      { intros j Hj. split; [by eapply elem_of_swap_remove|]. intros ->. apply list_elem_of_lookup in Hj as [i Hi]. apply swap_remove_lookup in Hi as (i' & _ & Hi & Hne & _); [|done]. apply Hne. exact (NoDup_lookup _ _ _ _ Ho Hi Ea). }
      destruct (IH at_ (<[k := FREE]> seats) r' true Hr') as (I1 & I2 & I3 & I4); [|lia|].
      { intros j [Hj Hne]%Hsub. unfold seated. rewrite list_lookup_insert_ne by done. by apply Hs. }
      split; [done|]. split; [|split].
      * intros i Hi Hat. rewrite I2 by lia. cbn [ro_active r' remove_entry]. unfold swap_remove. destruct (list.last (ro_active r)) as [x|] eqn:El; [|by apply last_None in El; rewrite El in Hlt; cbn in Hlt; lia].
        rewrite lookup_take_lt by lia. by rewrite list_lookup_insert_ne by lia.
      * intros j Hj. rewrite I3 by (intros [Hx _]%Hsub; done). rewrite list_lookup_insert_ne; [done|]. by intros ->.
      * intros j Hj. destruct (I4 j Hj) as [[H1 H2]%Hsub H3]. split; [done|]. rewrite H3. by rewrite list_lookup_insert_ne.
    + destruct (IH (S at_) seats r moved Ho Hs) as (I1 & I2 & I3 & I4); [lia|]. split; [|split; [|done]].
      * intros i j Hi Hj. destruct (decide (i = at_)) as [->|Hne]; [|apply (I1 i); [lia|done]]. destruct (I4 j) as [_ ->]; [by eapply list_elem_of_lookup_2|].
        rewrite I2 in Hj by lia. rewrite Ea in Hj. injection Hj as <-. destruct Hk; congruence.
      * intros i Hi Hat. apply I2; lia.
Qed.

(** When the room did not move the roster did not either. *)
Lemma admit_join_still config k w : (admit_join config k w).2 = false -> (admit_join config k w).1.2 = w.1.2 /\ w.2 = false.
Proof. destruct w as [[seats r] moved]. unfold admit_join. destruct (seats !! k); [|done]. by destruct (negb _). Qed.

Lemma admit_joins_still config joins w : (fold_left (fun w k => admit_join config k w) joins w).2 = false ->
  (fold_left (fun w k => admit_join config k w) joins w).1.2 = w.1.2 /\ w.2 = false.
Proof.
  revert w. induction joins as [|k joins IH]; intros w Hw; [done|]. cbn in *. destruct (IH _ Hw) as [E H]. rewrite E. by apply admit_join_still.
Qed.

Lemma retire_still fuel at_ w : (retire fuel at_ w).2 = false -> (retire fuel at_ w).1.2 = w.1.2 /\ w.2 = false.
Proof.
  revert at_ w. induction fuel as [|fuel IH]; intros at_ w Hw; [done|]. destruct w as [[seats r] moved]. cbn [retire] in *.
  destruct (ro_active r !! at_) as [k|]; [|done]. destruct (seats !! k) as [state|]; [|done]. destruct (negb _); [by apply IH|]. destruct (IH _ _ Hw) as [_ H]. done.
Qed.

Lemma with_budget_inv fits s w : RosterInv fits (st_keyframes s) (st_roster s) -> length w.2 = length (ro_controllers (st_roster s)) ->
  RosterInv fits (st_keyframes s) (st_roster (with_budget s w)).
Proof. intros HR Hl. by apply RosterInv_controllers. Qed.

(** What rebinding needs is weaker than what it gives. *)
Lemma rebind_inv fits tidy s :
  SeatsInv tidy (st_seats s) (ro_active (st_roster s)) -> RosterInv fits (st_keyframes s) (st_roster s) -> Forall Numeric (ro_controllers (st_roster s)) ->
  f_is_nan (bu_min_mbps (st_budget s)) = false -> f_is_nan (cf_min_mbps (st_config s)) = false -> (tidy = true -> fits = true) -> StreamInv fits tidy (rebind s).
Proof.
  intros HS HR HN Hm Hc Ht. unfold rebind. set (n := Z.of_nat _). destruct (rebound_bound n (st_budget s) (ro_controllers (st_roster s)) Hm HN) as (H1 & H2 & H3).
  set (w := rebound n _ _) in *. split; [done| | |done|done].
  - apply (set_rates_inv fits (st_keyframes s) w.1 (st_roster (with_budget s w))), with_budget_inv; done.
  - split; [by change (f_is_nan (bu_min_mbps w.1) = false); rewrite H2|exact H1].
Qed.

Lemma StreamInv_numeric fits tidy s : StreamInv fits tidy s -> Forall Numeric (ro_controllers (st_roster s)).
Proof. intros [_ _ [_ H] _ _]. eapply list.Forall_impl; [exact H|]. apply Bound_numeric. Qed.

Lemma admission_pass_inv fits tidy s : StreamInv fits tidy s -> StreamInv fits tidy (admission_pass s).
Proof.
  intros HI. pose proof (StreamInv_numeric _ _ s HI) as HN. destruct HI as [HS HR [Hm HB] Hc Ht]. unfold admission_pass, admit_and_retire.
  set (w0 := fold_left _ (st_joins s) _). assert (H0 : LoopInv fits tidy (st_keyframes s) w0).
  { assert (Hw : LoopInv fits tidy (st_keyframes s) (st_seats s, st_roster s, false)) by done. revert Hw. unfold w0. generalize (st_seats s, st_roster s, false). induction (st_joins s) as [|k joins IH]; intros w Hw; [done|].
    cbn. by apply IH, admit_join_inv. }
  pose proof (retire_inv fits tidy _ (length (ro_active w0.1.2)) 0 w0 H0) as H1. pose proof (retire_still (length (ro_active w0.1.2)) 0 w0) as Hstill.
  pose proof (admit_joins_still (st_config s) (st_joins s) (st_seats s, st_roster s, false)) as Hstill0. fold w0 in Hstill0.
  destruct (retire _ 0 w0) as [[seats r] moved]. destruct H1 as (A1 & A2 & A3). cbn [fst snd] in *. destruct moved.
  - by apply rebind_inv.
  - destruct (Hstill eq_refl) as [E1 E2]. destruct (Hstill0 E2) as [E3 _]. cbn [fst snd] in E3. rewrite E3 in E1. split; [done|done| |done|done]. split; [done|]. cbn. by rewrite E1.
Qed.

(** Every entry has a seat its guest is still in. *)
Definition wait_tidy (s : Stream) : bool := forallb (fun k => bool_decide (st_seats s !! k = Some STREAMING)) (ro_active (st_roster s)).

(** A step, with what it says of [fits] and [tidy]. The wait between two
    encoders gives back every leaving seat, whether or not the roster that
    survives the rebuild still has its entry. *)
Inductive StreamStep : Stream -> bool -> bool -> Stream -> Prop :=
  | step_take s : StreamStep s true true (take_seat s).1
  | step_drop s k : st_seats s !! k = Some CLAIMED \/ st_seats s !! k = Some STREAMING -> StreamStep s true true (drop_seat k s)
  | step_admission s : StreamStep s true true (admission_pass s)
  | step_sound s mbps : StreamStep s true true (sound_pass mbps s)
  | step_live s bitrate floor : f_is_nan floor = false -> StreamStep s true true (live_video bitrate floor s)
  | step_tick s samples s' rate : tick_rate samples s = Some (s', rate) -> StreamStep s true true s'
  | step_frame s len keyframe now taken : StreamStep s (frame_fits s) true (deliver_frame len keyframe now taken s).1
  | step_dropped s keyframe now : StreamStep s true true (drop_frame keyframe now s).1
  | step_refresh s now : StreamStep s true true (refresh_requested now s).1
  | step_rebuild s : StreamStep s true true (rebuild s)
  | step_begin s : StreamStep s true true (begin_loop s)
  | step_abandon s : StreamStep s true true (abandon s)
  | step_wait s : StreamStep s true (wait_tidy s) (retire_leaving s).

Inductive StreamReach (config : Config) : bool -> bool -> Stream -> Prop :=
  | stream_start : StreamReach config true true (stream_new config)
  | stream_step s s' fits tidy f t : StreamReach config fits tidy s -> StreamStep s f t s' -> StreamReach config (fits && f) (tidy && t) s'.

Lemma find_free_spec n seats k : find_free n seats = Some k -> (n <= k)%nat /\ seats !! (k - n)%nat = Some FREE.
Proof.
  revert n. induction seats as [|x seats IH]; intros n; [done|]. cbn. destruct x; try (intros [H1 H2]%IH; split; [lia|]; replace (k - n)%nat with (S (k - S n)) by lia; done).
  intros [= ->]. by rewrite Nat.sub_diag.
Qed.

Lemma SeatsInv_other tidy seats active k state : SeatsInv tidy seats active -> (tidy = true -> k ∉ active) -> SeatsInv tidy (<[k := state]> seats) active.
Proof.
  intros [Hc Hkn Ho Hs] Hk. split; [by rewrite length_insert|by rewrite length_insert|done|]. intros Ht j Hj. specialize (Hs Ht). specialize (Hk Ht). unfold seated. rewrite list_lookup_insert_ne by (by intros ->). by apply Hs.
Qed.

Lemma sound_pass_inv fits tidy mbps s : StreamInv fits tidy s -> StreamInv fits tidy (sound_pass mbps s).
Proof.
  intros HI. pose proof (StreamInv_numeric _ _ s HI) as HN. pose proof HI as [HS HR [Hm HB] Hc Ht]. unfold sound_pass. destruct (DEADBAND_MBPS <? _)%f64; [|done]. unfold set_audio. set (b := st_budget s <| bu_audio_mbps := _ |>).
  destruct (rebound_bound (bu_guests b) b (ro_controllers (st_roster s)) Hm HN) as (H1 & H2 & H3). set (w := rebound _ b _) in *. split; [done| | |done|done].
  - apply (set_rates_inv fits (st_keyframes s) w.1 (st_roster (with_budget s w))), with_budget_inv; done.
  - split; [by change (f_is_nan (bu_min_mbps w.1) = false); rewrite H2|exact H1].
Qed.

Lemma f_min_left_num a b : f_is_nan a = false -> f_is_nan (f_min a b) = false.
Proof. intros H. unfold f_min. rewrite H. destruct (f_is_nan b) eqn:Eb; [done|]. by destruct (b <? a)%f64. Qed.

Lemma live_video_inv fits tidy bitrate floor s : f_is_nan floor = false -> StreamInv fits tidy s -> StreamInv fits tidy (live_video bitrate floor s).
Proof.
  intros Hf HI. pose proof (StreamInv_numeric _ _ s HI) as HN. pose proof HI as [HS HR [Hm HB] Hc Ht]. unfold live_video, reconfigure. set (b := _ <| bu_min_mbps := _ |>).
  assert (Hb : f_is_nan (bu_min_mbps b) = false) by by apply f_min_left_num. destruct (rebound_bound (bu_guests b) b (ro_controllers (st_roster s)) Hb HN) as (H1 & H2 & H3). set (w := rebound _ b _) in *. split; [done| | |done|done].
  - exact (with_budget_inv fits s w HR H3).
  - split; [by change (f_is_nan (bu_min_mbps w.1) = false); rewrite H2|exact H1].
Qed.

Lemma zip_update_length {A B} (f : A -> B -> A) l k : length (zip_update f l k) = length l.
Proof. revert k. induction l as [|x l IH]; intros [|y k]; cbn; [done..|]. by rewrite IH. Qed.

Lemma missed_inv fits kf r samples : RosterInv fits kf r ->
  RosterInv fits kf (r <| ro_guests := zip_update refresh_guest (ro_guests r) samples |> <| ro_took := zip_update note_missed (ro_took r) samples |>).
Proof.
  intros [G1 G2 G3 GE]. split; cbn; rewrite ?zip_update_length; [done..|]. intros Hf k g log. rewrite !zip_update_lookup.
  destruct (ro_guests r !! k) as [g0|] eqn:Eg; [|done]. destruct (ro_took r !! k) as [log0|] eqn:El; [|by destruct (samples !! k)]. specialize (GE Hf k g0 log0 Eg El).
  destruct (samples !! k) as [[sample missed]|]; intros [= <-] [= <-]; [|done]. unfold refresh_guest, note_missed. cbn. destruct missed; [by apply EntryInv_cut, (EntryInv_pending kf g0)|by apply (EntryInv_pending kf g0)].
Qed.

(** A tick never panics. *)
Lemma tick_rate_inv fits tidy samples s : StreamInv fits tidy s -> exists s' rate, tick_rate samples s = Some (s', rate) /\ StreamInv fits tidy s' /\
  match rate with
  | Some r => Within (st_budget s) r /\ Least None (rates (ro_controllers (st_roster s)) (map fst samples)) (Some r) /\ bu_applied_mbps (st_budget s') = r
  | None => st_budget s' = st_budget s /\ (rates (ro_controllers (st_roster s)) (map fst samples) = [] \/
      exists r, Least None (rates (ro_controllers (st_roster s)) (map fst samples)) (Some r) /\ (SFabs (r - bu_applied_mbps (st_budget s))%f64 <=? DEADBAND_MBPS)%f64 = true)
  end.
Proof.
  intros [HS HR [Hm HB] Hc Ht]. unfold tick_rate. set (r := st_roster s <| ro_guests := _ |> <| ro_took := _ |>).
  destruct (budget_tick_spec (st_budget s) (ro_controllers r) (map fst samples) HB) as (b' & cs' & out & E & F1 & F2 & F3 & F4). rewrite E. cbn [mbind option_bind].
  do 2 eexists. split; [reflexivity|]. split.
  - split; [done| | |done|done].
    + change (RosterInv fits (st_keyframes s) (r <| ro_controllers := cs' |>)). apply RosterInv_controllers; [done|by apply missed_inv].
    + split; [|exact F1]. change (f_is_nan (bu_min_mbps b') = false). rewrite F3. by destruct out.
  - destruct out as [x|]; [|split; [exact F3|exact F4]]. destruct F4 as (W & L & _). split; [done|]. split; [done|]. change (bu_applied_mbps b' = x). by rewrite F3.
Qed.

Lemma pending_all_inv fits kf kf' f r gate :
  (forall log, Chain kf log -> Chain kf' (f log)) -> RosterInv fits kf r ->
  RosterInv fits kf' (r <| ro_guests := map mark_skipping (ro_guests r) |> <| ro_gate := gate |> <| ro_took := map f (ro_took r) |>).
Proof.
  intros Hf [G1 G2 G3 GE]. split; cbn; rewrite ?length_map; [done..|]. intros Hff k g log Hg Hlog. apply list_lookup_fmap_Some in Hg as (g0 & -> & Hg). apply list_lookup_fmap_Some in Hlog as (log0 & -> & Hlog).
  destruct (GE Hff k g0 log0 Hg Hlog) as [Hc _]. split; [by apply Hf|done].
Qed.

Lemma StreamStep_inv fits tidy f t s s' : StreamStep s f t s' -> StreamInv fits tidy s -> StreamInv (fits && f) (tidy && t) s'.
Proof.
  intros Hstep HI. pose proof HI as [HS HR [Hm HB] Hc Ht]. destruct Hstep as [s|s k Hk|s|s mbps|s bitrate floor Hf|s samples s' rate E|s len keyframe now taken|s keyframe now|s now|s|s|s|s]; rewrite ?andb_true_r.
  - unfold take_seat. destruct (find_free 0 (st_seats s)) as [k|] eqn:E; [|done]. apply find_free_spec in E as [_ E]. rewrite Nat.sub_0_r in E. split; [|done..].
    apply SeatsInv_other; [done|]. intros Htt Hin. destruct (sv_seated _ _ _ HS Htt k Hin); congruence.
  - split; [|done..]. destruct HS as [S1 S2 S3 S4]. split; [by cbn; rewrite length_insert|cbn; by rewrite length_insert|done|]. intros Htt j Hj. unfold seated. cbn. destruct (decide (j = k)) as [->|Hne].
    + right. apply list_lookup_insert_eq. by apply S2.
    + rewrite list_lookup_insert_ne by done. by apply S4.
  - by apply admission_pass_inv.
  - by apply sound_pass_inv.
  - by apply live_video_inv.
  - destruct (tick_rate_inv _ _ samples s HI) as (s1 & r1 & E1 & H1 & _). rewrite E in E1. by injection E1 as -> _.
  - assert (Hfit : tidy = true -> fits && frame_fits s = true).
    { intros Htt. rewrite (Ht Htt). unfold frame_fits. apply Nat.leb_le. rewrite Htt in HS. by eapply roster_bounded. }
    pose proof (deliver_frame_inv fits len keyframe now taken s HR (sv_known _ _ _ HS)) as H. cbv zeta in H.
    unfold deliver_frame in *. destruct (gate_admit _ _ _ _ _) as [[[gate guests] delivered] k0]. cbn [fst] in *. by split.
  - unfold drop_frame. destruct (request_keyframe now _) as [gate k0]. split; [done| |done|done|done]. destruct HR as [G1 G2 G3 GE]. split; cbn; rewrite ?length_map; [done..|].
    intros Hff k g log Hg Hlog. apply list_lookup_fmap_Some in Hg as (g0 & -> & Hg). by apply EntryInv_waiting, (GE Hff k).
  - unfold refresh_requested. destruct (request_keyframe now _) as [gate k0]. split; [done| |done|done|done]. by destruct HR.
  - split; [done| |done|done|done]. apply (pending_all_inv fits (st_keyframes s) (st_keyframes s) (fun log => log ++ [None]) (st_roster s) (ro_gate (st_roster s))); [by constructor|done].
  - apply rebind_inv; [done|done|exact (StreamInv_numeric _ _ s HI)|done|done|done].
  - split; [|split; [done..|]|by split|done|done].
    + destruct HS. split; [done|intros k Hk; by apply not_elem_of_nil in Hk|constructor|intros _ k Hk; by apply not_elem_of_nil in Hk].
    + cbn. intros _ k g log Hg. by rewrite lookup_nil in Hg.
  - split; [|done..|by intros [? _]%andb_true_iff; auto]. destruct HS as [S1 S2 S3 S4]. split; [by cbn; rewrite length_map|cbn; by rewrite length_map|intros [? _]%andb_true_iff; auto|].
    intros [Htt Hw]%andb_true_iff k Hk. unfold wait_tidy in Hw. rewrite forallb_forall in Hw. specialize (Hw k (proj1 (list_elem_of_In _ _) Hk)). apply bool_decide_eq_true in Hw.
    left. cbn. change (map ?f ?l) with (f <$> l). rewrite list_lookup_fmap, Hw. done.
Qed.

Lemma StreamReach_inv config fits tidy s : f_is_nan (cf_min_mbps config) = false -> StreamReach config fits tidy s -> StreamInv fits tidy s.
Proof.
  intros Hm. induction 1 as [|s s' fits tidy f t _ IH Hs]; [|by apply (StreamStep_inv fits tidy f t s)]. split; [|split; try done|by split|done|done].
  split; [done|intros k Hk; by apply not_elem_of_nil in Hk|constructor|]. intros _ k Hk. by apply not_elem_of_nil in Hk.
Qed.

(** ** What the room is promised *)



(** A guest joins, and takes a keyframe and the frame after it. *)
Definition demo_config : Config := mkConfig 1 (f_of_Z 2) (f_of_Z 20).
Definition demo_seated : Stream := begin_loop (admission_pass (take_seat (stream_new demo_config)).1).

Lemma demo_seated_reach : StreamReach demo_config true true demo_seated.
Proof.
  eapply (stream_step _ _ _ true true true true); [|apply step_begin]. eapply (stream_step _ _ _ true true true true); [|apply step_admission].
  eapply (stream_step _ _ _ true true true true); [apply stream_start|apply step_take].
Qed.



(** A guest leaves while the encoder is being rebuilt: the wait frees its seat
    and keeps its entry, the next guest takes the same seat, and the roster has
    it twice. When that guest leaves, one entry is retired and the other stays,
    with a seat nobody is in. *)
Lemma wait_serves_a_seat_twice :
  let s1 := admission_pass (take_seat (retire_leaving (drop_seat 0 demo_seated))).1 in
  let s2 := admission_pass (drop_seat 0 s1) in
  StreamReach demo_config true false s1 /\ ro_active (st_roster s1) = [0; 0]%nat /\
  ro_active (st_roster s2) = [0]%nat /\ st_seats s2 !! 0%nat = Some FREE.
Proof.
  split; [|vm_compute; done]. eapply (stream_step _ _ _ true false true true); [|apply step_admission]. eapply (stream_step _ _ _ true false true true); [|apply step_take].
  eapply (stream_step _ _ _ true true true false); [|exact (step_wait (drop_seat 0 demo_seated))].
  eapply (stream_step _ _ _ true true true true); [apply demo_seated_reach|]. apply step_drop. right. by vm_compute.
Qed.

(** (C26) The rate the encoder is given. In every run of the room a rate tick
    never panics, and the rate it hands over - if any - is the least of what the
    guests' controllers return, no less than the floor and no more than the
    configured rate less sound's share, divided by the guests; it hands over
    nothing only when no guest has a sample or the least rate is within the
    deadband of the one applied. *)
Theorem room_rate_bounded (config : Config) (fits tidy : bool) (s : Stream) (samples : list (Sample * bool)) :
  f_is_nan (cf_min_mbps config) = false -> StreamReach config fits tidy s ->
  let rs := rates (ro_controllers (st_roster s)) (map fst samples) in
  exists s' rate, tick_rate samples s = Some (s', rate) /\
    match rate with
    | Some r => (bu_min_mbps (st_budget s) <=? r)%f64 = true /\ (r <=? budget_ceiling (st_budget s))%f64 = true /\
        r ∈ rs /\ (forall x, x ∈ rs -> (r <=? x)%f64 = true) /\ bu_applied_mbps (st_budget s') = r
    | None => st_budget s' = st_budget s /\ (rs = [] \/ exists r, r ∈ rs /\ (forall x, x ∈ rs -> (r <=? x)%f64 = true) /\ (SFabs (r - bu_applied_mbps (st_budget s))%f64 <=? DEADBAND_MBPS)%f64 = true)
    end.
Proof.
  intros Hm Hr rs. destruct (tick_rate_inv _ _ samples s (StreamReach_inv config fits tidy s Hm Hr)) as (s' & rate & E & _ & H). exists s', rate. split; [done|].
  assert (HL : forall r, Least None rs (Some r) -> r ∈ rs /\ forall x, x ∈ rs -> (r <=? x)%f64 = true).
  { intros r (L1 & _ & L3). split; [by destruct L3|]. by rewrite list.Forall_forall in L1. }
  destruct rate as [r|].
  - destruct H as ((? & ?) & L & ?). destruct (HL r L). done.
  - destruct H as (? & [?|(r & L & ?)]); (split; [done|]); [by left|right]. exists r. destruct (HL r L). done.
Qed.

Lemma room_rate_bounded_witness :
  exists s' r, tick_rate [(mkSample 10 0 f_zero, false)] demo_seated = Some (s', Some r) /\ (f_of_Z 2 <=? r)%f64 = true /\ (r <=? f_of_Z 20)%f64 = true.
Proof.
  destruct (room_rate_bounded demo_config true true demo_seated [(mkSample 10 0 f_zero, false)] eq_refl demo_seated_reach) as (s' & rate & E & H).
  assert (Hr : snd <$> tick_rate [(mkSample 10 0 f_zero, false)] demo_seated = Some (Some (f_of_Z 2))) by (vm_compute; reflexivity).
  rewrite E in Hr. cbn in Hr. injection Hr as ->. exists s', (f_of_Z 2). split; [exact E|]. destruct H as (H1 & H2 & _).
  split; [exact H1|]. assert (Ec : budget_ceiling (st_budget demo_seated) = f_of_Z 20) by (vm_compute; reflexivity). rewrite Ec in H2. exact H2.
Defined.

(** ** What goes wrong *)

(** A seat given up before its guest is admitted. *)
Definition lost (s : Stream) (k : nat) : Prop := st_seats s !! k = Some LEAVING /\ k ∉ ro_active (st_roster s).

Lemma admit_join_lost config kf k w j : f_is_nan (cf_min_mbps config) = false -> LoopInv true true kf w ->
  w.1.1 !! k = Some LEAVING -> k ∉ ro_active w.1.2 ->
  (admit_join config j w).1.1 !! k = Some LEAVING /\ k ∉ ro_active (admit_join config j w).1.2.
Proof.
  intros Hm HL Hk Hn. destruct w as [[seats r] moved]. unfold admit_join. cbn [fst snd] in *. destruct (seats !! j) as [state|] eqn:Ej; [|done].
  case_bool_decide as Hst; cbn [negb]; [|done]. subst state. assert (Hne : k <> j) by (intros ->; congruence). cbn [fst snd ro_active]. split; [by rewrite list_lookup_insert_ne|].
  intros [H|H%list_elem_of_singleton]%elem_of_app; done.
Qed.

Lemma admission_keeps_lost s k : StreamInv true true s -> lost s k -> lost (admission_pass s) k.
Proof.
  intros HI [Hk Hn]. pose proof (StreamInv_numeric _ _ s HI) as HN. destruct HI as [HS HR _ Hc _]. unfold admission_pass, admit_and_retire.
  set (w0 := fold_left _ (st_joins s) _). assert (H0 : LoopInv true true (st_keyframes s) w0 /\ w0.1.1 !! k = Some LEAVING /\ k ∉ ro_active w0.1.2).
  { assert (Hw : LoopInv true true (st_keyframes s) (st_seats s, st_roster s, false)) by done. revert Hw Hk Hn. unfold w0.
    change (st_seats s !! k) with ((st_seats s, st_roster s, false).1.1 !! k). change (ro_active (st_roster s)) with (ro_active (st_seats s, st_roster s, false).1.2).
    generalize (st_seats s, st_roster s, false). induction (st_joins s) as [|j joins IH]; intros w Hw Hk Hn; [done|].
    cbn [fold_left]. destruct (admit_join_lost (st_config s) _ k w j Hc Hw Hk Hn). apply IH; [by apply admit_join_inv|done..]. }
  destruct H0 as (HL & Hk0 & Hn0). destruct w0 as [[seats r] moved]. destruct HL as ([_ _ L1 L2] & _). specialize (L1 eq_refl). specialize (L2 eq_refl). cbn [fst snd] in *.
  destruct (retire_done (length (ro_active r)) 0 seats r moved L1 L2) as (_ & _ & R3 & R4); [lia|].
  destruct (retire _ 0 _) as [[seats' r'] moved']. cbn [fst snd] in *. assert (lost (s <| st_seats := seats' |> <| st_joins := [] |> <| st_roster := r' |>) k) as HL'.
  { split; cbn; [by rewrite R3|]. by intros [? _]%R4. }
  by destruct moved'.
Qed.

(** Only the wait between encoders gives a lost seat back: every other step
    leaves it lost. *)
Lemma given_up_seat_is_lost s f t s' k : StreamInv true true s -> StreamStep s f t s' -> lost s k -> lost s' k \/ s' = retire_leaving s.
Proof.
  intros HI Hstep HL. pose proof HL as [Hk Hn]. destruct Hstep as [s|s j Hj|s|s mbps|s bitrate floor Hf|s samples s' rate E|s len keyframe now taken|s keyframe now|s now|s|s|s|s]; [..|by right]; left.
  - unfold take_seat. destruct (find_free 0 (st_seats s)) as [j|] eqn:E; [|done]. apply find_free_spec in E as [_ E]. rewrite Nat.sub_0_r in E. split; [|done]. cbn.
    rewrite list_lookup_insert_ne; [done|]. intros ->. congruence.
  - split; [|done]. cbn. rewrite list_lookup_insert_ne; [done|]. intros ->. destruct Hj; congruence.
  - by apply admission_keeps_lost.
  - unfold sound_pass. by destruct (DEADBAND_MBPS <? _)%f64.
  - done.
  - unfold tick_rate in E. apply bind_Some in E as ([[b c] r0] & _ & E). by injection E as <- _.
  - unfold deliver_frame. by destruct (gate_admit _ _ _ _ _) as [[[gate guests] delivered] k0].
  - unfold drop_frame. by destruct (request_keyframe now _) as [gate k0].
  - unfold refresh_requested. by destruct (request_keyframe now _) as [gate k0].
  - done.
  - done.
  - split; [done|]. apply not_elem_of_nil.
Qed.

(** A live change of the bitrate lasts until the encoder is next rebuilt: the
    loop that starts then divides what the stream was configured with. *)
Lemma live_change_forgotten s bitrate floor :
  bu_configured_mbps (st_budget (begin_loop (live_video bitrate floor s))) = cf_configured_mbps (st_config s).
Proof. done. Qed.

(** A live change moves the controllers' ceiling and not the one the guests'
    gates budget a window with, which stays until the room next changes. *)
Lemma live_change_leaves_gates s bitrate floor :
  ro_guests (st_roster (live_video bitrate floor s)) = ro_guests (st_roster s) /\
  budget_ceiling (st_budget (live_video (f_of_Z 40) (f_of_Z 2) demo_seated)) = f_of_Z 40 /\
  map gu_ceiling (ro_guests (st_roster (live_video (f_of_Z 40) (f_of_Z 2) demo_seated))) = map gu_ceiling (ro_guests (st_roster demo_seated)).
Proof. split; [done|]. by split; vm_compute. Qed.
