(* ===== verification/Spsc.v ===== *)
(** * The bounded single-producer single-consumer ring ([common/src/spsc.rs])

    A ring is two wrapping counters over an array of slots. [push] and [pop] are
    the operations as a whole; [SpscStep] splits each at its accesses to memory
    the other thread touches, so a run is any interleaving of a producer and a
    consumer. A load of the other end's counter gives any value that counter has
    had since the last such load: that is what an acquire load of it promises.
    A slot that is not initialised is [None]; reading a value moves it out. *)

From stdpp Require Import relations.
From S2P Require Import Prelude.

Definition M64 : Z := 2 ^ 64.
Definition wrap64 (z : Z) : Z := z mod M64.
Definition wrapping_add64 (a b : Z) : Z := wrap64 (a + b).
Definition wrapping_sub64 (a b : Z) : Z := wrap64 (a - b).

(** What a pop finds. [Uninit] is the read of a slot nothing was written to. *)
Inductive Popped (T : Type) := Empty | Value (value : T) | Uninit.
Arguments Empty {T}.
Arguments Value {T} value.
Arguments Uninit {T}.

(** ** The queue a ring promises *)

(** The operations, whatever stores the values. A refused push hands its value
    back. *)
Class Fifo (R T : Type) := mkFifo {
  fifo_new : R;
  fifo_push : T -> R -> R * option T;
  fifo_pop : R -> R * Popped T;
}.

(** [Queued r l]: the ring holds the values of [l], oldest first. *)
Class FifoLaws {R T : Type} (F : Fifo R T) (capacity : Z) := mkFifoLaws {
  Queued : R -> list T -> Prop;
  fifo_starts : Queued fifo_new [];
  fifo_bounded r l : Queued r l -> zlen l <= capacity;
  fifo_refuses r l v : Queued r l -> zlen l = capacity -> fifo_push v r = (r, Some v);
  fifo_accepts r l v : Queued r l -> zlen l < capacity -> exists r', fifo_push v r = (r', None) /\ Queued r' (l ++ [v]);
  fifo_empty r : Queued r [] -> fifo_pop r = (r, Empty);
  fifo_gives r x l : Queued r (x :: l) -> exists r', fifo_pop r = (r', Value x) /\ Queued r' l;
}.

Section Ring.
Context {T : Type} (N : Z).

Record Ring := mkRing { rg_slots : list (option T); rg_head : Z; rg_tail : Z }.
#[export] Instance eta_Ring : Eta Ring := fun r => mkRing (rg_slots r) (rg_head r) (rg_tail r).

Definition ring_new : Ring := mkRing (replicate (Z.to_nat N) None) 0 0.
Definition capacity (r : Ring) : Z := N.
Definition ring_len (r : Ring) : Z := wrapping_sub64 (rg_tail r) (rg_head r).
Definition is_empty (r : Ring) : bool := ring_len r =? 0.
Definition is_full (r : Ring) : bool := N <=? ring_len r.

Definition index_of (counter : Z) : nat := Z.to_nat (counter mod N).

Definition push (value : T) (r : Ring) : Ring * option T :=
  let tail := rg_tail r in
  let head := rg_head r in
  if N <=? wrapping_sub64 tail head then (r, Some value) else
  (mkRing (<[index_of tail := Some value]> (rg_slots r)) head (wrapping_add64 tail 1), None).

Definition pop (r : Ring) : Ring * Popped T :=
  let head := rg_head r in
  let tail := rg_tail r in
  if head =? tail then (r, Empty) else
  match rg_slots r !! index_of head with
  | Some (Some value) => (mkRing (<[index_of head := None]> (rg_slots r)) (wrapping_add64 head 1) tail, Value value)
  | _ => (r, Uninit)
  end.

(** [Drop]: pop until the ring is empty; a ring never holds more than its
    capacity, so that is fuel enough. *)
Fixpoint drain (fuel : nat) (r : Ring) : Ring * list T :=
  match fuel with
  | O => (r, [])
  | S fuel =>
      match pop r with
      | (r, Value value) => let '(r, rest) := drain fuel r in (r, value :: rest)
      | (r, _) => (r, [])
      end
  end.

(** ** Two threads *)

(** Where the producer is in [push]: before the check, past it, and past the
    write of the slot. *)
Inductive PState := PIdle | PWrite (value : T) | PStore (value : T).
(** Where the consumer is in [pop]. *)
Inductive CState := CIdle | CRead | CStore (value : T).

(** [w_seen_head] and [w_seen_tail] count, unwrapped, the pops the producer and
    the pushes the consumer last saw; [w_pushed] and [w_popped] are the history. *)
Record World := mkWorld {
  w_ring : Ring;
  w_producer : PState;
  w_seen_head : Z;
  w_consumer : CState;
  w_seen_tail : Z;
  w_pushed : list T;
  w_popped : list T;
}.
#[export] Instance eta_World : Eta World := fun w =>
  mkWorld (w_ring w) (w_producer w) (w_seen_head w) (w_consumer w) (w_seen_tail w) (w_pushed w) (w_popped w).

Definition world_new : World := mkWorld ring_new PIdle 0 CIdle 0 [] [].

(** The producer's loads and its check, having seen [head] pops. *)
Definition offer (value : T) (head : Z) (w : World) : World :=
  w <| w_seen_head := head |>
    <| w_producer := if N <=? wrapping_sub64 (rg_tail (w_ring w)) (wrap64 head) then PIdle else PWrite value |>.

Definition write_slot (value : T) (w : World) : World :=
  let r := w_ring w in
  w <| w_ring := r <| rg_slots := <[index_of (rg_tail r) := Some value]> (rg_slots r) |> |> <| w_producer := PStore value |>.

Definition store_tail (value : T) (w : World) : World :=
  let r := w_ring w in
  w <| w_ring := r <| rg_tail := wrapping_add64 (rg_tail r) 1 |> |> <| w_producer := PIdle |> <| w_pushed := w_pushed w ++ [value] |>.

Definition look (tail : Z) (w : World) : World :=
  w <| w_seen_tail := tail |> <| w_consumer := if rg_head (w_ring w) =? wrap64 tail then CIdle else CRead |>.

Definition read_slot (value : T) (w : World) : World :=
  let r := w_ring w in
  w <| w_ring := r <| rg_slots := <[index_of (rg_head r) := None]> (rg_slots r) |> |> <| w_consumer := CStore value |>.

Definition store_head (value : T) (w : World) : World :=
  let r := w_ring w in
  w <| w_ring := r <| rg_head := wrapping_add64 (rg_head r) 1 |> |> <| w_consumer := CIdle |> <| w_popped := w_popped w ++ [value] |>.

Inductive SpscStep : World -> World -> Prop :=
  | step_offer w value head : w_producer w = PIdle -> w_seen_head w <= head <= zlen (w_popped w) -> SpscStep w (offer value head w)
  | step_write w value : w_producer w = PWrite value -> SpscStep w (write_slot value w)
  | step_store_tail w value : w_producer w = PStore value -> SpscStep w (store_tail value w)
  | step_look w tail : w_consumer w = CIdle -> w_seen_tail w <= tail <= zlen (w_pushed w) -> SpscStep w (look tail w)
  | step_read w value : w_consumer w = CRead -> rg_slots (w_ring w) !! index_of (rg_head (w_ring w)) = Some (Some value) -> SpscStep w (read_slot value w)
  | step_store_head w value : w_consumer w = CStore value -> SpscStep w (store_head value w).

Inductive SpscReach : World -> Prop :=
  | spsc_start : SpscReach world_new
  | spsc_step w w' : SpscReach w -> SpscStep w w' -> SpscReach w'.

(** The counters index the slots as positions do: always when the capacity
    divides the counters' range, and otherwise until they first wrap. *)
Definition Indexed (count : Z) : Prop := (N | M64) \/ count < M64.

End Ring.
Arguments Ring : clear implicits.
Arguments World : clear implicits.
Arguments PState : clear implicits.
Arguments CState : clear implicits.

(** ** Slots *)

Section Laws.
Context {T : Type} (N : Z) (HN : 0 < N < M64).

Definition at_position (p : Z) : nat := Z.to_nat (p mod N).

Lemma at_position_lt p : (at_position p < Z.to_nat N)%nat.
Proof. unfold at_position. pose proof (Z.mod_pos_bound p N ltac:(lia)). lia. Qed.

Lemma at_position_inj lo p q : lo <= p < lo + N -> lo <= q < lo + N -> at_position p = at_position q -> p = q.
Proof.
  unfold at_position. intros Hp Hq E. pose proof (Z.mod_pos_bound p N ltac:(lia)) as Bp. pose proof (Z.mod_pos_bound q N ltac:(lia)) as Bq.
  assert (Em : p mod N = q mod N) by lia. pose proof (Z.div_mod p N ltac:(lia)) as Dp. pose proof (Z.div_mod q N ltac:(lia)) as Dq. rewrite Em in Dp. assert (p / N = q / N) as Ed by nia. rewrite Ed in Dp. lia.
Qed.

Lemma at_position_round p : at_position (p + N) = at_position p.
Proof. unfold at_position. f_equal. rewrite <- (Z.mul_1_l N) at 1. apply Z_mod_plus_full. Qed.

(** Where a wrapped counter points. *)
Lemma index_wrap p : 0 <= p -> Indexed N p -> index_of N (wrap64 p) = at_position p.
Proof.
  intros Hp [Hd|Hlt]; unfold index_of, at_position, wrap64.
  - f_equal. by apply Z.mod_mod_divide.
  - by rewrite (Z.mod_small p M64) by lia.
Qed.

Lemma wrap_distance a b : 0 <= a - b < M64 -> wrapping_sub64 (wrap64 a) (wrap64 b) = a - b.
Proof. intros H. unfold wrapping_sub64, wrap64. rewrite <- Zminus_mod. by apply Z.mod_small. Qed.

Lemma wrap_eq a b : 0 <= a - b < M64 -> (wrap64 a =? wrap64 b) = (a =? b).
Proof.
  intros H. apply eq_iff_eq_true. rewrite !Z.eqb_eq. split; [|by intros ->]. intros E. pose proof (wrap_distance a b H) as D. rewrite E in D.
  unfold wrapping_sub64, wrap64 in D. rewrite Z.sub_diag in D. change (0 mod M64) with 0 in D. lia.
Qed.

Lemma wrap_next a : wrapping_add64 (wrap64 a) 1 = wrap64 (a + 1).
Proof. unfold wrapping_add64, wrap64. apply Zplus_mod_idemp_l. Qed.

(** The slots hold the values of [l] at the positions from [lo] on, and nothing
    at the free ones. *)
Record Contents (slots : list (option T)) (lo : Z) (l : list T) : Prop := mkContents {
  cn_slots : length slots = Z.to_nat N;
  cn_bound : zlen l <= N;
  cn_at p : lo <= p < lo + N -> slots !! at_position p = Some (l !! Z.to_nat (p - lo));
}.

Lemma contents_new lo : Contents (replicate (Z.to_nat N) None) lo [].
Proof.
  split; [apply length_replicate|unfold zlen; cbn; lia|]. intros p _. rewrite lookup_nil. apply lookup_replicate_2, at_position_lt.
Qed.

Lemma contents_head slots lo x l : Contents slots lo (x :: l) -> slots !! at_position lo = Some (Some x).
Proof. intros [_ _ H]. rewrite H by lia. by rewrite Z.sub_diag. Qed.

Lemma contents_free slots lo l : Contents slots lo l -> zlen l < N -> slots !! at_position (lo + zlen l) = Some None.
Proof.
  intros [_ _ H] Hl. rewrite H by zlia. f_equal. apply lookup_ge_None. replace (lo + zlen l - lo) with (zlen l) by lia. unfold zlen. lia.
Qed.

Lemma contents_push slots lo l v : Contents slots lo l -> zlen l < N -> Contents (<[at_position (lo + zlen l) := Some v]> slots) lo (l ++ [v]).
Proof.
  intros [Hs Hb H] Hl. split; [by rewrite length_insert|rewrite zlen_app; unfold zlen in *; cbn; lia|]. intros p Hp. destruct (decide (p = lo + zlen l)) as [->|Hne].
  - rewrite list_lookup_insert_eq by (rewrite Hs; apply at_position_lt). replace (lo + zlen l - lo) with (zlen l) by lia. unfold zlen. rewrite Nat2Z.id. by rewrite list_lookup_middle.
  - rewrite list_lookup_insert_ne by (intros E; apply Hne; symmetry; apply (at_position_inj lo); [zlia|done|done]). rewrite H by done. f_equal.
    destruct (decide (p < lo + zlen l)).
    + symmetry. apply lookup_app_l. unfold zlen in *. lia.
    + rewrite (lookup_ge_None_2 l) by (unfold zlen in *; lia). symmetry. apply lookup_ge_None. rewrite length_app. unfold zlen in *. cbn. lia.
Qed.

Lemma contents_pop slots lo x l : Contents slots lo (x :: l) -> Contents (<[at_position lo := None]> slots) (lo + 1) l.
Proof.
  intros [Hs Hb H]. rewrite zlen_cons in Hb. split; [by rewrite length_insert|lia|]. intros p Hp. destruct (decide (p = lo + N)) as [->|Hne].
  - rewrite at_position_round, list_lookup_insert_eq by (rewrite Hs; apply at_position_lt). f_equal. symmetry. apply lookup_ge_None. unfold zlen in *. lia.
  - rewrite list_lookup_insert_ne by (intros E; assert (lo = p) by (apply (at_position_inj lo); [lia|lia|done]); lia). rewrite H by lia. f_equal.
    by replace (Z.to_nat (p - lo)) with (S (Z.to_nat (p - (lo + 1)))) by lia.
Qed.

(** ** The ring is a queue *)

Definition Repr (r : Ring T) (l : list T) : Prop :=
  exists lo, 0 <= lo /\ rg_head r = wrap64 lo /\ rg_tail r = wrap64 (lo + zlen l) /\ Contents (rg_slots r) lo l /\ Indexed N (lo + zlen l).

Lemma Repr_len r l : Repr r l -> ring_len r = zlen l.
Proof.
  intros (lo & Hlo & Eh & Et & HC & _). unfold ring_len. rewrite Eh, Et, wrap_distance; [lia|]. pose proof (cn_bound _ _ _ HC). zlia.
Qed.

Section Divides.
Hypothesis Hdiv : (N | M64).

#[export] Instance ring_fifo : Fifo (Ring T) T := mkFifo _ _ (ring_new N) (push N) (pop N).

Lemma ring_starts : Repr (ring_new N) [].
Proof. exists 0. split; [lia|]. split; [done|]. split; [done|]. split; [apply contents_new; lia|by left]. Qed.

Lemma ring_bounded r l : Repr r l -> zlen l <= N.
Proof. intros (lo & _ & _ & _ & HC & _). exact (cn_bound _ _ _ HC). Qed.

Lemma ring_refuses r l v : Repr r l -> zlen l = N -> push N v r = (r, Some v).
Proof. intros H E. unfold push. fold (ring_len r). rewrite (Repr_len r l H), E. by rewrite Z.leb_refl. Qed.

Lemma ring_accepts r l v : Repr r l -> zlen l < N -> exists r', push N v r = (r', None) /\ Repr r' (l ++ [v]).
Proof.
  intros H Hl. unfold push. fold (ring_len r). rewrite (Repr_len r l H). destruct (Z.leb_spec N (zlen l)) as [?|_]; [lia|]. eexists. split; [done|].
  destruct H as (lo & Hlo & Eh & Et & HC & HI). exists lo. cbn. split; [done|]. split; [done|]. rewrite Et, wrap_next, zlen_app, index_wrap by (done || zlia).
  split; [f_equal; unfold zlen; cbn; lia|]. split; [by apply contents_push|by left].
Qed.

Lemma ring_empty r : Repr r [] -> pop N r = (r, Empty).
Proof. intros (lo & _ & Eh & Et & _). unfold pop. rewrite Eh, Et, Z.add_0_r, Z.eqb_refl. done. Qed.

Lemma ring_gives r x l : Repr r (x :: l) -> exists r', pop N r = (r', Value x) /\ Repr r' l.
Proof.
  intros (lo & Hlo & Eh & Et & HC & HI). pose proof (cn_bound _ _ _ HC) as Hb. rewrite zlen_cons in *. unfold pop. rewrite Eh, Et, Z.eqb_sym, wrap_eq by zlia.
  destruct (Z.eqb_spec (lo + (1 + zlen l)) lo) as [?|_]; [zlia|]. rewrite index_wrap by (done || by left). rewrite (contents_head _ _ _ _ HC). eexists. split; [done|].
  exists (lo + 1). cbn. rewrite wrap_next. split; [lia|]. split; [done|]. replace (lo + 1 + zlen l) with (lo + (1 + zlen l)) by lia. split; [done|]. split; [by apply contents_pop in HC|by left].
Qed.

#[export] Instance ring_fifo_laws : FifoLaws ring_fifo N := {|
  Queued := Repr; fifo_starts := ring_starts; fifo_bounded := ring_bounded; fifo_refuses := ring_refuses; fifo_accepts := ring_accepts;
  fifo_empty := ring_empty; fifo_gives := ring_gives |}.

End Divides.
(** ** Every interleaving *)

Definition moving (c : CState T) : list T := match c with CStore v => [v] | _ => [] end.
Definition writing (p : PState T) : list T := match p with PStore v => [v] | _ => [] end.

Record SpscInv (w : World T) : Prop := mkSpscInv {
  iv_head : rg_head (w_ring w) = wrap64 (zlen (w_popped w));
  iv_tail : rg_tail (w_ring w) = wrap64 (zlen (w_pushed w));
  iv_seen : 0 <= w_seen_head w <= zlen (w_popped w) /\ zlen (w_popped w) <= w_seen_tail w <= zlen (w_pushed w);
  iv_room : zlen (w_pushed w) - w_seen_head w <= N /\ (w_producer w <> PIdle -> zlen (w_pushed w) - w_seen_head w < N);
  iv_next : w_consumer w <> CIdle -> zlen (w_popped w) < w_seen_tail w;
  iv_values : exists queue, w_popped w ++ moving (w_consumer w) ++ queue = w_pushed w ++ writing (w_producer w) /\
    Contents (rg_slots (w_ring w)) (zlen (w_popped w ++ moving (w_consumer w))) queue;
}.

Lemma Indexed_le a b : Indexed N b -> a <= b -> Indexed N a.
Proof. intros [?|?] ?; [by left|right; lia]. Qed.

Lemma SpscStep_mono (w w' : World T) : SpscStep N w w' -> zlen (w_pushed w) <= zlen (w_pushed w').
Proof. destruct 1; cbn; rewrite ?zlen_app; unfold zlen; lia. Qed.

Lemma queue_here (w : World T) queue : SpscInv w ->
  w_popped w ++ moving (w_consumer w) ++ queue = w_pushed w ++ writing (w_producer w) ->
  zlen (w_popped w ++ moving (w_consumer w)) + zlen queue = zlen (w_pushed w ++ writing (w_producer w)).
Proof. intros _ E. rewrite <- E, !zlen_app. lia. Qed.

Lemma SpscStep_inv (w w' : World T) : Indexed N (zlen (w_pushed w)) -> SpscStep N w w' -> SpscInv w -> SpscInv w'.
Proof.
  intros HI Hstep [Eh Et Hs Hr Hn (queue & Eq & HC)]. destruct Hstep as [w v head Ep Hh|w v Ep|w v Ep|w tail Ec Ht|w v Ec Ev|w v Ec]; cbn in *.
  - rewrite Ep in Eq. split; cbn; [done|done|lia| |done|].
    + rewrite Et, wrap_distance by lia. destruct (Z.leb_spec N (zlen (w_pushed w) - head)); split; lia || done.
    + exists queue. by destruct (N <=? _).
  - rewrite Ep in *. assert (Hroom := proj2 Hr ltac:(done)). split; cbn; [done|done|done|split; [lia|done]|done|]. exists (queue ++ [v]). split.
    + cbn in Eq. rewrite app_nil_r in Eq. rewrite <- Eq. by rewrite <- !app_assoc.
    + cbn in Eq. rewrite app_nil_r in Eq. rewrite Et, index_wrap by (done || zlia). assert (El : zlen (w_pushed w) = zlen (w_popped w ++ moving (w_consumer w)) + zlen queue) by (rewrite <- Eq, !zlen_app; lia).
      rewrite El. apply contents_push; [done|]. rewrite !zlen_app in *. zlia.
  - rewrite Ep in *. assert (Hroom := proj2 Hr ltac:(done)). split; cbn; [done| | | |done|].
    + rewrite Et, wrap_next, zlen_app. done.
    + rewrite zlen_app. unfold zlen in *. cbn. lia.
    + rewrite zlen_app. unfold zlen in *. cbn. split; [lia|done].
    + exists queue. rewrite app_nil_r. done.
  - rewrite Ec in *. split; cbn; [done|done|lia|done| |].
    + rewrite Eh. rewrite Z.eqb_sym. rewrite wrap_eq by lia. destruct (Z.eqb_spec tail (zlen (w_popped w))); [done|]. lia.
    + exists queue. by destruct (_ =? _).
  - rewrite Ec in *. assert (Hlt := Hn ltac:(done)). rewrite Eh, index_wrap in Ev by (zlia || (eapply Indexed_le; [exact HI|lia])). cbn in Eq, HC. rewrite app_nil_r in HC.
    destruct queue as [|x queue]; [apply (f_equal (fun l => zlen l)) in Eq; rewrite !zlen_app in Eq; zlia|]. rewrite (contents_head _ _ _ _ HC) in Ev. injection Ev as ->.
    split; cbn; [done|done|done|done|done|]. exists queue. split; [done|]. rewrite Eh, index_wrap by (zlia || (eapply Indexed_le; [exact HI|lia])). rewrite zlen_app. by apply contents_pop in HC.
  - rewrite Ec in *. assert (Hlt := Hn ltac:(done)). split; cbn; [|done| |done|done|].
    + by rewrite Eh, wrap_next, zlen_app.
    + rewrite zlen_app. unfold zlen in *. cbn. lia.
    + exists queue. split; [by rewrite <- app_assoc|]. by rewrite app_nil_r.
Qed.

Lemma SpscReach_inv (w : World T) : SpscReach N w -> Indexed N (zlen (w_pushed w)) -> SpscInv w.
Proof.
  induction 1 as [|w w' _ IH Hs]; intros HI.
  - split; cbn; [done|done|unfold zlen; cbn; lia|unfold zlen; cbn; split; [lia|done]|done|]. exists []. split; [done|]. apply contents_new.
  - assert (HI' : Indexed N (zlen (w_pushed w))) by (eapply Indexed_le; [exact HI|by apply SpscStep_mono]). by eapply SpscStep_inv; [|exact Hs|apply IH].
Qed.

End Laws.

(** ** What the two ends are promised *)

Lemma app_prefix {A} (l k : list A) l' k' : l ++ l' = k ++ k' -> (length l <= length k)%nat -> l `prefix_of` k.
Proof.
  intros E Hl. exists (drop (length l) k). rewrite <- (take_drop (length l) k) at 1. f_equal.
  apply (f_equal (take (length l))) in E. rewrite take_app_length, take_app_le in E by done. done.
Qed.

(** A whole push, run with nothing in between, is [push]; a whole pop is [pop]. *)
Lemma push_is_a_run {T} (N : Z) (w : World T) v :
  0 < N < M64 -> SpscInv N w -> Indexed N (zlen (w_pushed w)) -> w_producer w = PIdle ->
  let w1 := offer N v (zlen (w_popped w)) w in
  let w' := match w_producer w1 with PIdle => w1 | _ => store_tail v (write_slot N v w1) end in
  rtc (SpscStep N) w w' /\ (w_ring w', match w_producer w1 with PIdle => Some v | _ => None end) = push N v (w_ring w).
Proof.
  intros HN HI Hx Ep w1. pose proof HI as [Eh Et Hs _ _ _]. assert (S1 : SpscStep N w w1) by (apply step_offer; [done|lia]).
  revert S1. unfold w1, offer, push. cbn. rewrite <- Eh. destruct (N <=? _); cbn; intros S1.
  - split; [by apply rtc_once|done].
  - split; [|done]. eapply rtc_l; [exact S1|]. eapply rtc_l; [by apply (step_write N _ v)|]. apply rtc_once. by apply (step_store_tail N _ v).
Qed.

Lemma pop_is_a_run {T} (N : Z) (w : World T) :
  0 < N < M64 -> SpscInv N w -> Indexed N (zlen (w_pushed w)) -> w_consumer w = CIdle ->
  exists w', rtc (SpscStep N) w w' /\ w_consumer w' = CIdle /\
    match pop N (w_ring w) with
    | (r, Value v) => w_ring w' = r /\ w_popped w' = w_popped w ++ [v]
    | (r, Empty) => w_ring w' = r /\ w_popped w' = w_popped w
    | (_, Uninit) => False
    end.
Proof.
  intros HN HI Hx Ec. pose proof HI as [Eh Et Hs _ _ (queue & Eq & HC)]. rewrite Ec in Eq, HC. cbn in Eq, HC. rewrite app_nil_r in HC.
  set (w1 := look (zlen (w_pushed w)) w). assert (S1 : SpscStep N w w1) by (apply step_look; [done|lia]). unfold pop. rewrite Et.
  destruct (rg_head (w_ring w) =? wrap64 (zlen (w_pushed w))) eqn:E.
  - exists w1. split; [by apply rtc_once|]. unfold w1, look. cbn. by rewrite E.
  - assert (Hlt : zlen (w_popped w) < zlen (w_pushed w)).
    { destruct (Z.eq_dec (zlen (w_popped w)) (zlen (w_pushed w))) as [El|?]; [|lia]. rewrite Eh, El, Z.eqb_refl in E. done. }
    destruct queue as [|x queue]; [apply (f_equal (fun l => zlen l)) in Eq; rewrite !zlen_app in Eq; zlia|]. pose proof (contents_head N HN _ _ _ _ HC) as Hx0.
    assert (Ei : rg_slots (w_ring w) !! index_of N (rg_head (w_ring w)) = Some (Some x)) by (rewrite Eh, index_wrap by (zlia || (eapply Indexed_le; [exact Hx|lia])); done).
    rewrite Ei. exists (store_head x (read_slot N x w1)). split; [|cbn; by rewrite <- Et]. eapply rtc_l; [exact S1|]. eapply rtc_l; [apply (step_read N _ x); unfold w1, look; cbn; [by rewrite E|exact Ei]|]. apply rtc_once. by apply (step_store_head N _ x).
Qed.

(** (C23) The two ends never touch the same slot. In every interleaving of a
    producer and a consumer, however old the counters they last saw of each
    other, what was popped is a prefix of what was pushed and at most the
    capacity is queued; a slot about to be written holds nothing, a slot about
    to be read holds the next value in order; and a push that sees the current
    counter is refused exactly when the ring is full, a pop finds it empty
    exactly when it is. *)
Theorem ring_never_races {T} (N : Z) (w : World T) :
  0 < N < M64 -> SpscReach N w -> Indexed N (zlen (w_pushed w)) ->
  w_popped w `prefix_of` w_pushed w /\ zlen (w_pushed w) - zlen (w_popped w) <= N /\
  (forall v, w_producer w = PWrite v -> rg_slots (w_ring w) !! index_of N (rg_tail (w_ring w)) = Some None) /\
  (w_consumer w = CRead -> exists v, rg_slots (w_ring w) !! index_of N (rg_head (w_ring w)) = Some (Some v) /\ w_pushed w !! length (w_popped w) = Some v) /\
  (forall v, w_producer (offer N v (zlen (w_popped w)) w) = PIdle <-> zlen (w_pushed w) = zlen (w_popped w) + N) /\
  (w_consumer (look (zlen (w_pushed w)) w) = CIdle <-> w_pushed w = w_popped w).
Proof.
  intros HN Hr Hx. pose proof (SpscReach_inv N HN w Hr Hx) as HI. pose proof HI as [Eh Et Hs Hroom Hn (queue & Eq & HC)]. pose proof (queue_here N w queue HI Eq) as El.
  assert (Hp : w_popped w `prefix_of` w_pushed w) by (apply (app_prefix _ _ _ _ Eq); unfold zlen in *; lia). pose proof Hp as [rest Er].
  split; [done|]. split; [lia|]. split; [|split; [|split]].
  - intros v Ep. rewrite Ep in *. assert (Hlt := proj2 Hroom ltac:(done)). rewrite app_nil_r in El. rewrite Et, index_wrap by (done || zlia). rewrite <- El. apply contents_free; [done|]. rewrite !zlen_app in *. zlia.
  - intros Ec. rewrite Ec in *. assert (Hlt := Hn ltac:(done)). cbn in Eq, HC. rewrite app_nil_r in HC. rewrite Eh, index_wrap by (zlia || (eapply Indexed_le; [exact Hx|lia])).
    destruct queue as [|x queue]; [cbn in El; rewrite !zlen_app in El; zlia|]. exists x. split; [by apply (contents_head N HN _ _ x queue)|]. rewrite Er in Eq, Hs |- *. rewrite zlen_app in Hs. rewrite <- app_assoc in Eq.
    apply app_inv_head in Eq. destruct rest as [|y rest]; [rewrite zlen_app in *; zlia|]. injection Eq as -> _. by apply list_lookup_middle.
  - intros v. unfold offer. cbn. rewrite Et, wrap_distance by lia. destruct (Z.leb_spec N (zlen (w_pushed w) - zlen (w_popped w))); split; intros; try lia; done.
  - unfold look. cbn. rewrite Eh, Z.eqb_sym, wrap_eq by lia. destruct (Z.eqb_spec (zlen (w_pushed w)) (zlen (w_popped w))) as [E|E]; split; intros H; try done.
    + rewrite Er. rewrite Er, zlen_app in E. destruct rest; [by rewrite app_nil_r|]. rewrite zlen_cons in E. zlia.
    + by rewrite H in E.
Qed.

(** A ring of two, the consumer working from an old counter while the producer
    wraps onto the first slot. *)
Definition demo_pushed (v : Z) (w : World Z) : World Z := store_tail v (write_slot 2 v (offer 2 v (zlen (w_popped w)) w)).
Definition demo_reading : World Z := look 2 (store_head 10 (read_slot 2 10 (look 1 (demo_pushed 20 (demo_pushed 10 (world_new 2)))))).
Definition demo_run : World Z := offer 2 30 1 demo_reading.

Lemma demo_pushed_reach v w : SpscReach 2 w -> w_producer w = PIdle -> w_producer (offer 2 v (zlen (w_popped w)) w) = PWrite v ->
  w_seen_head w <= zlen (w_popped w) -> SpscReach 2 (demo_pushed v w).
Proof.
  intros Hr Ep Ew Hs. unfold demo_pushed. apply (spsc_step 2 (write_slot 2 v (offer 2 v (zlen (w_popped w)) w))); [|by apply step_store_tail].
  apply (spsc_step 2 (offer 2 v (zlen (w_popped w)) w)); [|by apply step_write]. apply (spsc_step 2 w); [done|]. apply step_offer; [done|lia].
Qed.

Lemma demo_run_reach : SpscReach 2 demo_run.
Proof.
  unfold demo_run, demo_reading. eapply spsc_step; [|apply (step_offer 2 _ 30 1); [done|by vm_compute]].
  eapply spsc_step; [|apply (step_look 2 _ 2); [done|by vm_compute]]. eapply spsc_step; [|by apply (step_store_head 2 _ 10)].
  eapply spsc_step; [|by apply (step_read 2 _ 10)]. eapply spsc_step; [|apply (step_look 2 _ 1); [done|by vm_compute]].
  apply demo_pushed_reach; [|done|done|by vm_compute]. apply demo_pushed_reach; [apply spsc_start|done|done|by vm_compute].
Qed.

Lemma ring_never_races_witness :
  w_producer demo_run = PWrite 30 /\ w_consumer demo_run = CRead /\ rg_slots (w_ring demo_run) !! 0%nat = Some None /\
  (exists v, rg_slots (w_ring demo_run) !! 1%nat = Some (Some v) /\ w_pushed demo_run !! 1%nat = Some v).
Proof.
  assert (HN : 0 < 2 < M64) by (vm_compute; split; reflexivity). assert (Hd : Indexed 2 (zlen (w_pushed demo_run))) by (right; vm_compute; reflexivity).
  destruct (ring_never_races 2 demo_run HN demo_run_reach Hd) as (_ & _ & H1 & H2 & _).
  split; [vm_compute; reflexivity|]. split; [vm_compute; reflexivity|]. split; [exact (H1 30 ltac:(vm_compute; reflexivity))|exact (H2 ltac:(vm_compute; reflexivity))].
Defined.
