(* ===== verification/Frames.v ===== *)
(** * The encoded-frame pool ([host/src/frames.rs])

    One encode serves every guest: a frame is copied once into a slot, the slot
    index travels on each guest's ring, and a count of holders says when the
    slot may be written again. The rings are any bounded queue ([Spsc.Fifo]);
    [Spsc] proves that the ring of [common/src/spsc.rs] is one under every
    interleaving. [FrameStep] runs the encoding thread and the guests' threads
    one access to a count or a ring at a time. Only the encoding thread raises a
    count, so its scan may read each count in turn. *)

From S2P Require Import Prelude Spsc.

(** ** The pool *)

Record Slot := mkSlot { sl_holders : Z; sl_len : Z; sl_keyframe : bool; sl_bytes : list Z }.
#[export] Instance eta_Slot : Eta Slot := fun s => mkSlot (sl_holders s) (sl_len s) (sl_keyframe s) (sl_bytes s).

Record Pool := mkPool { po_slots : list Slot; po_hint : nat }.
#[export] Instance eta_Pool : Eta Pool := fun p => mkPool (po_slots p) (po_hint p).

Definition pool_new (slots : nat) (bytes : nat) : Pool := mkPool (replicate slots (mkSlot 0 0 false (replicate bytes 0))) 0.

Definition on_slot (index : nat) (f : Slot -> Slot) (pool : Pool) : Pool := pool <| po_slots := alter f index (po_slots pool) |>.

(** [fetch_add] and [fetch_sub] on a count. *)
Definition hold (n : Z) (s : Slot) : Slot := s <| sl_holders := wrapping_add64 (sl_holders s) n |>.
Definition release (index : nat) (pool : Pool) : Pool := on_slot index (hold (-1)) pool.

Record Writer := mkWriter { wr_index : nat; wr_len : Z }.

(** One round of the search: the slot is taken if its count is zero. *)
Definition acquire_at (start step : nat) (pool : Pool) : option (Pool * Writer) :=
  let count := length (po_slots pool) in
  let index := ((start + step) mod count)%nat in
  slot ← po_slots pool !! index;
  if sl_holders slot =? 0
  then Some (on_slot index (fun s => s <| sl_holders := 1 |>) pool <| po_hint := ((index + 1) mod count)%nat |>, mkWriter index 0)
  else None.

Fixpoint acquire_loop (fuel start step : nat) (pool : Pool) : Pool * option Writer :=
  match fuel with
  | O => (pool, None)
  | S fuel => match acquire_at start step pool with Some (pool, w) => (pool, Some w) | None => acquire_loop fuel start (S step) pool end
  end.

Definition acquire (pool : Pool) : Pool * option Writer := acquire_loop (length (po_slots pool)) (po_hint pool) 0 pool.

(** The index of a frame a guest holds. *)
Definition claim (index : Z) (pool : Pool) : option nat :=
  let index := Z.to_nat index in _ ← po_slots pool !! index; Some index.

Definition fill (bitstream : list Z) (w : Writer) (pool : Pool) : Pool * Writer * bool :=
  match po_slots pool !! wr_index w with
  | None => (pool, w, false)
  | Some slot =>
      if zlen (sl_bytes slot) <? zlen bitstream then (pool, w, false) else
      (on_slot (wr_index w) (fun s => s <| sl_bytes := bitstream ++ drop (length bitstream) (sl_bytes s) |>) pool,
       mkWriter (wr_index w) (zlen bitstream), true)
  end.

(** [publish] until the first push: the length, the kind, and every hold. *)
Definition publish_begin (w : Writer) (keyframe : bool) (rings : Z) (pool : Pool) : Pool :=
  on_slot (wr_index w) (fun s => hold rings (s <| sl_len := wr_len w |> <| sl_keyframe := keyframe |>)) pool.

Definition writer_drop (w : Writer) (pool : Pool) : Pool := release (wr_index w) pool.

Definition frame_bytes (index : nat) (pool : Pool) : list Z :=
  match po_slots pool !! index with Some s => default [] (slice_to (sl_bytes s) (sl_len s)) | None => [] end.
Definition frame_keyframe (index : nat) (pool : Pool) : bool :=
  match po_slots pool !! index with Some s => sl_keyframe s | None => false end.
Definition frame_drop (index : nat) (pool : Pool) : Pool := release index pool.

Section Rings.
Context {R : Type} {F : Fifo R Z}.

(** One ring's turn in [publish]: a refusal gives its hold back. *)
Definition publish_one (w : Writer) (at_ : nat) (ring : R) (pool : Pool) (taken : Z) : R * Pool * Z :=
  match fifo_push (Z.of_nat (wr_index w)) ring with
  | (ring, None) => (ring, pool, Z.lor taken (Z.shiftl 1 (Z.of_nat at_ mod 32)))
  | (ring, Some _) => (ring, release (wr_index w) pool, taken)
  end.

Fixpoint publish_loop (w : Writer) (at_ : nat) (rings : list R) (pool : Pool) (taken : Z) : list R * Pool * Z :=
  match rings with
  | [] => ([], pool, taken)
  | ring :: rings =>
      let '(ring, pool, taken) := publish_one w at_ ring pool taken in
      let '(rings, pool, taken) := publish_loop w (S at_) rings pool taken in
      (ring :: rings, pool, taken)
  end.

Definition publish (w : Writer) (keyframe : bool) (rings : list R) (pool : Pool) : list R * Pool * Z :=
  match po_slots pool !! wr_index w with
  | None => (rings, writer_drop w pool, 0)
  | Some _ =>
      let '(rings, pool, taken) := publish_loop w 0 rings (publish_begin w keyframe (zlen rings) pool) 0 in
      (rings, writer_drop w pool, taken)
  end.

(** ** Threads *)

(** What was published, as a history: the slot, the bytes, the kind. *)
Record Publication := mkPublication { pb_index : nat; pb_bytes : list Z; pb_keyframe : bool }.

(** A guest's end: its ring and the frame it holds; [gu_taken] is everything its
    ring ever took and [gu_got] everything it was handed. *)
Record Guest := mkGuest { gu_ring : R; gu_frame : option nat; gu_taken : list Publication; gu_got : list Publication }.
#[export] Instance eta_Guest : Eta Guest := fun g => mkGuest (gu_ring g) (gu_frame g) (gu_taken g) (gu_got g).

(** Where the encoding thread is. *)
Inductive Producer :=
  | Idle
  | Scanning (start step : nat)
  | Writing (w : Writer)
  | Publishing (w : Writer) (keyframe : bool) (rings : list nat) (at_ : nat) (taken : Z).

Record World := mkWorld { fw_pool : Pool; fw_producer : Producer; fw_guests : list Guest }.
#[export] Instance eta_World : Eta World := fun w => mkWorld (fw_pool w) (fw_producer w) (fw_guests w).

Definition world_new (slots bytes guests : nat) : World :=
  mkWorld (pool_new slots bytes) Idle (replicate guests (mkGuest fifo_new None [] [])).

Definition scan (start step : nat) (w : World) : World :=
  if (length (po_slots (fw_pool w)) <=? step)%nat then w <| fw_producer := Idle |> else
  match acquire_at start step (fw_pool w) with
  | Some (pool, wr) => w <| fw_pool := pool |> <| fw_producer := Writing wr |>
  | None => w <| fw_producer := Scanning start (S step) |>
  end.

Definition abandon (wr : Writer) (w : World) : World := w <| fw_pool := writer_drop wr (fw_pool w) |> <| fw_producer := Idle |>.

(** A frame that does not fit is given up. *)
Definition fill_step (bitstream : list Z) (wr : Writer) (w : World) : World :=
  let '(pool, wr', ok) := fill bitstream wr (fw_pool w) in
  if ok then w <| fw_pool := pool |> <| fw_producer := Writing wr' |> else abandon wr w.

Definition begin_publish (wr : Writer) (keyframe : bool) (rings : list nat) (w : World) : World :=
  w <| fw_pool := publish_begin wr keyframe (zlen rings) (fw_pool w) |> <| fw_producer := Publishing wr keyframe rings 0 0 |>.

(** The publication a writer makes. *)
Definition publication (wr : Writer) (keyframe : bool) (pool : Pool) : Publication :=
  mkPublication (wr_index wr) (frame_bytes (wr_index wr) pool) keyframe.

Definition push_step (wr : Writer) (keyframe : bool) (rings : list nat) (at_ : nat) (taken : Z) (k : nat) (g : Guest) (w : World) : World :=
  let '(ring, pool, taken') := publish_one wr at_ (gu_ring g) (fw_pool w) taken in
  let log := match (fifo_push (Z.of_nat (wr_index wr)) (gu_ring g)).2 with None => gu_taken g ++ [publication wr keyframe (fw_pool w)] | Some _ => gu_taken g end in
  mkWorld pool (Publishing wr keyframe rings (S at_) taken') (<[k := g <| gu_ring := ring |> <| gu_taken := log |>]> (fw_guests w)).

(** [SeatHold::next_frame]. *)
Definition next_frame (k : nat) (g : Guest) (w : World) : World :=
  match fifo_pop (gu_ring g) with
  | (ring, Value index) =>
      w <| fw_guests := <[k := g <| gu_ring := ring |> <| gu_frame := claim index (fw_pool w) |> <| gu_got := take (S (length (gu_got g))) (gu_taken g) |>]> (fw_guests w) |>
  | (ring, _) => w <| fw_guests := <[k := g <| gu_ring := ring |>]> (fw_guests w) |>
  end.

Definition finish (k : nat) (g : Guest) (index : nat) (w : World) : World :=
  w <| fw_pool := frame_drop index (fw_pool w) |> <| fw_guests := <[k := g <| gu_frame := None |>]> (fw_guests w) |>.

Inductive FrameStep : World -> World -> Prop :=
  | step_acquire w : fw_producer w = Idle -> FrameStep w (w <| fw_producer := Scanning (po_hint (fw_pool w)) 0 |>)
  | step_scan w start step : fw_producer w = Scanning start step -> FrameStep w (scan start step w)
  | step_fill w wr bitstream : fw_producer w = Writing wr -> FrameStep w (fill_step bitstream wr w)
  | step_abandon w wr : fw_producer w = Writing wr -> FrameStep w (abandon wr w)
  | step_publish w wr keyframe rings : fw_producer w = Writing wr -> (length rings <= 32)%nat -> Forall (fun k => (k < length (fw_guests w))%nat) rings ->
      FrameStep w (begin_publish wr keyframe rings w)
  | step_push w wr keyframe rings at_ taken k g : fw_producer w = Publishing wr keyframe rings at_ taken -> rings !! at_ = Some k -> fw_guests w !! k = Some g ->
      FrameStep w (push_step wr keyframe rings at_ taken k g w)
  | step_published w wr keyframe rings at_ taken : fw_producer w = Publishing wr keyframe rings at_ taken -> at_ = length rings -> FrameStep w (abandon wr w)
  | step_next w k g : fw_guests w !! k = Some g -> gu_frame g = None -> FrameStep w (next_frame k g w)
  | step_finish w k g index : fw_guests w !! k = Some g -> gu_frame g = Some index -> FrameStep w (finish k g index w).

Inductive FrameReach (slots bytes guests : nat) : World -> Prop :=
  | frame_start : FrameReach slots bytes guests (world_new slots bytes guests)
  | frame_step w w' : FrameReach slots bytes guests w -> FrameStep w w' -> FrameReach slots bytes guests w'.

End Rings.
Arguments Guest : clear implicits.
Arguments World : clear implicits.

(** ** What is still needed of each slot *)

Section Invariant.
Context {R : Type} {F : Fifo R Z} (depth : Z) {L : FifoLaws F depth}.

Definition share (i : nat) (p : Publication) : Z := if decide (pb_index p = i) then 1 else 0.
Definition occ (i : nat) (l : list Publication) : Z := foldr (fun p n => share i p + n) 0 l.

Lemma share_bounds i p : 0 <= share i p <= 1.
Proof. unfold share. case_decide; lia. Qed.
Lemma occ_cons i p l : occ i (p :: l) = share i p + occ i l.
Proof. done. Qed.
Lemma occ_app i l k : occ i (l ++ k) = occ i l + occ i k.
Proof. induction l as [|p l IH]; [done|]. cbn [app]. rewrite !occ_cons. lia. Qed.
Lemma occ_bounds i l : 0 <= occ i l <= zlen l.
Proof. induction l as [|p l IH]; [done|]. rewrite zlen_cons, occ_cons. pose proof (share_bounds i p). lia. Qed.
Lemma occ_zero i l p : occ i l = 0 -> p ∈ l -> pb_index p <> i.
Proof.
  induction l as [|q l IH]; [by intros _ ?%elem_of_nil|]. rewrite occ_cons. pose proof (share_bounds i q). pose proof (occ_bounds i l). intros Ho [->|Hp]%elem_of_cons; [|apply IH; [lia|done]].
  intros E. unfold share in *. rewrite decide_True in Ho by done. lia.
Qed.

Definition queued (g : Guest R) : list Publication := drop (length (gu_got g)) (gu_taken g).
Definition in_hand (g : Guest R) : list Publication :=
  match gu_frame g with Some _ => match list.last (gu_got g) with Some p => [p] | None => [] end | None => [] end.
(** The publications a guest still has to read. *)
Definition mentions (g : Guest R) : list Publication := queued g ++ in_hand g.

Definition total (i : nat) (guests : list (Guest R)) : Z := foldr (fun g n => occ i (mentions g) + n) 0 guests.

Lemma total_cons i g gs : total i (g :: gs) = occ i (mentions g) + total i gs.
Proof. done. Qed.

Lemma total_nonneg i gs : 0 <= total i gs.
Proof. induction gs as [|g gs IH]; [done|]. rewrite total_cons. pose proof (occ_bounds i (mentions g)). lia. Qed.

Lemma holds_insert i gs k g g' : gs !! k = Some g -> total i (<[k := g']> gs) = total i gs - occ i (mentions g) + occ i (mentions g').
Proof.
  revert k. induction gs as [|h gs IH]; intros k Hk; [done|]. destruct k as [|k]; cbn in Hk.
  - injection Hk as ->. change (<[0%nat := g']> (g :: gs)) with (g' :: gs). rewrite !total_cons. lia.
  - change (<[S k := g']> (h :: gs)) with (h :: <[k := g']> gs). rewrite !total_cons, (IH k) by done. lia.
Qed.

Lemma total_zero i gs k g p : total i gs = 0 -> gs !! k = Some g -> p ∈ mentions g -> pb_index p <> i.
Proof.
  revert k. induction gs as [|h gs IH]; intros k Ht Hk Hp; [done|]. rewrite total_cons in Ht. pose proof (occ_bounds i (mentions h)). pose proof (total_nonneg i gs).
  destruct k as [|k]; cbn in Hk; [injection Hk as ->; by apply (occ_zero i (mentions g)); [lia|]|]. by apply (IH k); [lia|..].
Qed.

(** The holds of the encoding thread: its own, and those raised for rings not
    yet pushed to. *)
Definition own (i : nat) (p : Producer) : Z :=
  match p with
  | Writing wr => if decide (wr_index wr = i) then 1 else 0
  | Publishing wr _ rings at_ _ => if decide (wr_index wr = i) then 1 + zlen rings - Z.of_nat at_ else 0
  | _ => 0
  end.

Definition shown (pool : Pool) (p : Publication) : Prop :=
  (pb_index p < length (po_slots pool))%nat /\ frame_bytes (pb_index p) pool = pb_bytes p /\ frame_keyframe (pb_index p) pool = pb_keyframe p.

Record GuestInv (pool : Pool) (g : Guest R) : Prop := mkGuestInv {
  gi_prefix : gu_got g `prefix_of` gu_taken g;
  gi_ring : Queued (gu_ring g) (map (fun p => Z.of_nat (pb_index p)) (queued g));
  gi_frame i : gu_frame g = Some i -> exists p, list.last (gu_got g) = Some p /\ pb_index p = i;
  gi_shown p : p ∈ mentions g -> shown pool p;
}.

Definition ProducerInv (w : World R) : Prop :=
  match fw_producer w with
  | Writing wr => (wr_index wr < length (po_slots (fw_pool w)))%nat /\ total (wr_index wr) (fw_guests w) = 0
  | Publishing wr keyframe rings at_ _ => (wr_index wr < length (po_slots (fw_pool w)))%nat /\ (at_ <= length rings <= 32)%nat /\
      frame_keyframe (wr_index wr) (fw_pool w) = keyframe
  | _ => True
  end.

Record FrameInv (w : World R) : Prop := mkFrameInv {
  fi_count i s : po_slots (fw_pool w) !! i = Some s -> sl_holders s = own i (fw_producer w) + total i (fw_guests w);
  fi_guest k g : fw_guests w !! k = Some g -> GuestInv (fw_pool w) g;
  fi_producer : ProducerInv w;
}.

(** *** Changing one slot *)

Lemma on_slot_length i f pool : length (po_slots (on_slot i f pool)) = length (po_slots pool).
Proof. apply length_alter. Qed.

Lemma on_slot_same i f pool : po_slots (on_slot i f pool) !! i = f <$> po_slots pool !! i.
Proof. cbn. apply list_lookup_alter_eq. Qed.

Lemma on_slot_other i j f pool : i <> j -> po_slots (on_slot i f pool) !! j = po_slots pool !! j.
Proof. intros H. cbn. by apply list_lookup_alter_ne. Qed.

Definition keeps_content (f : Slot -> Slot) : Prop := forall s, sl_len (f s) = sl_len s /\ sl_keyframe (f s) = sl_keyframe s /\ sl_bytes (f s) = sl_bytes s.

Lemma keeps_bytes i j f pool : keeps_content f -> frame_bytes j (on_slot i f pool) = frame_bytes j pool /\ frame_keyframe j (on_slot i f pool) = frame_keyframe j pool.
Proof.
  intros Hf. unfold frame_bytes, frame_keyframe. destruct (decide (i = j)) as [->|Hne]; [|by rewrite on_slot_other]. rewrite on_slot_same. destruct (po_slots pool !! j) as [s|]; [|done]. cbn.
  destruct (Hf s) as (-> & -> & ->). done.
Qed.

Lemma other_bytes i j f pool : i <> j -> frame_bytes j (on_slot i f pool) = frame_bytes j pool /\ frame_keyframe j (on_slot i f pool) = frame_keyframe j pool.
Proof. intros H. unfold frame_bytes, frame_keyframe. by rewrite on_slot_other. Qed.

Lemma shown_on_slot i f pool p : keeps_content f \/ pb_index p <> i -> shown pool p -> shown (on_slot i f pool) p.
Proof.
  intros Hf (H1 & H2 & H3). split; [by rewrite on_slot_length|]. destruct Hf as [Hf|Hne].
  - destruct (keeps_bytes i (pb_index p) f pool Hf) as [-> ->]. done.
  - destruct (other_bytes i (pb_index p) f pool) as [-> ->]; [by intros ->|done].
Qed.

Lemma GuestInv_on_slot i f pool g : keeps_content f \/ (forall p, p ∈ mentions g -> pb_index p <> i) -> GuestInv pool g -> GuestInv (on_slot i f pool) g.
Proof.
  intros Hf [G1 G2 G3 G4]. split; [done..|]. intros p Hp. apply shown_on_slot; [|by apply G4]. destruct Hf as [?|Hf]; [by left|right; by apply Hf].
Qed.

Lemma GuestInv_slots pool pool' g : po_slots pool' = po_slots pool -> GuestInv pool g -> GuestInv pool' g.
Proof. intros E [G1 G2 G3 G4]. split; [done..|]. intros p Hp. unfold shown, frame_bytes, frame_keyframe. rewrite E. by apply G4. Qed.

(** *** Counting *)

Lemma mentions_bound pool g : GuestInv pool g -> zlen (mentions g) <= depth + 1.
Proof.
  intros [_ G2 _ _]. apply fifo_bounded in G2. rewrite zlen_map in G2. unfold mentions. rewrite zlen_app. assert (zlen (in_hand g) <= 1); [|lia].
  unfold in_hand. destruct (gu_frame g); [|done]. by destruct (list.last _).
Qed.

Lemma total_bound pool i gs : (forall k g, gs !! k = Some g -> GuestInv pool g) -> total i gs <= zlen gs * (depth + 1).
Proof.
  induction gs as [|g gs IH]; intros H; [done|]. rewrite total_cons, zlen_cons. pose proof (mentions_bound pool g (H 0%nat g eq_refl)). pose proof (occ_bounds i (mentions g)).
  assert (total i gs <= zlen gs * (depth + 1)) by (apply IH; intros k g' Hk; by apply (H (S k))). lia.
Qed.

Lemma own_bound (w : World R) i : ProducerInv w -> 0 <= own i (fw_producer w) <= 33.
Proof.
  unfold ProducerInv, own. destruct (fw_producer w) as [|? ?|wr|wr kf rings at_ taken]; intros H; [lia|lia|case_decide; lia|]. destruct H as (_ & H & _). case_decide; unfold zlen; lia.
Qed.

Definition Small (w : World R) : Prop := zlen (fw_guests w) * (depth + 1) + 33 < M64.

Lemma hold_exact n s c c' : sl_holders s = c -> c' = c + n -> 0 <= c' < M64 -> sl_holders (hold n s) = c'.
Proof. intros <- -> H. cbn. unfold wrapping_add64, wrap64. by apply Z.mod_small. Qed.

Lemma count_on_slot idx f pool (c c' : nat -> Z) :
  (forall i s, po_slots pool !! i = Some s -> sl_holders s = c i) ->
  (forall s, po_slots pool !! idx = Some s -> sl_holders s = c idx -> sl_holders (f s) = c' idx) -> (forall i, i <> idx -> c' i = c i) ->
  forall i s, po_slots (on_slot idx f pool) !! i = Some s -> sl_holders s = c' i.
Proof.
  intros Hc Hf Ho i s Hs. destruct (decide (i = idx)) as [->|Hne].
  - rewrite on_slot_same in Hs. destruct (po_slots pool !! idx) as [s0|] eqn:E; [|done]. injection Hs as <-. apply Hf; [done|by apply Hc].
  - rewrite on_slot_other in Hs by done. rewrite Ho by done. by apply Hc.
Qed.

Lemma hold_keeps n : keeps_content (hold n).
Proof. done. Qed.

Lemma FrameInv_pieces (w : World R) : Small w -> (forall k g, fw_guests w !! k = Some g -> GuestInv (fw_pool w) g) -> ProducerInv w ->
  forall i, 0 <= own i (fw_producer w) + total i (fw_guests w) < M64.
Proof.
  intros HS HG HP i. pose proof (own_bound w i HP). pose proof (total_bound (fw_pool w) i (fw_guests w) HG). pose proof (total_nonneg i (fw_guests w)). unfold Small in HS. lia.
Qed.

(** *** The encoding thread *)

Lemma scan_inv start step (w : World R) : fw_producer w = Scanning start step -> FrameInv w -> FrameInv (scan start step w).
Proof.
  intros Ep [HC HG HP]. unfold scan. rewrite Ep in HC. destruct (_ <=? _)%nat; [by split|]. destruct (acquire_at start step (fw_pool w)) as [[pool wr]|] eqn:E; [|by split].
  unfold acquire_at in E. apply bind_Some in E as (s & Hs & E). destruct (sl_holders s =? 0) eqn:E0; [|done]. apply Z.eqb_eq in E0. injection E as <- <-.
  set (idx := ((start + step) mod _)%nat) in *. assert (Ht : total idx (fw_guests w) = 0) by (pose proof (HC idx s Hs) as H; cbn in H; lia).
  set (f := fun s : Slot => s <| sl_holders := 1 |>). change (set_field po_hint _ _) with (on_slot idx f (fw_pool w) <| po_hint := ((idx + 1) mod length (po_slots (fw_pool w)))%nat |>). split.
  - apply (count_on_slot idx f (fw_pool w) _ (fun i => own i (Writing (mkWriter idx 0)) + total i (fw_guests w)) HC).
    + intros s' _ _. cbn. rewrite decide_True by done. lia.
    + intros i Hne. cbn. rewrite decide_False by congruence. done.
  - intros k g Hk. apply (GuestInv_slots (on_slot idx f (fw_pool w))); [done|]. apply GuestInv_on_slot; [by left|by apply (HG k)].
  - split; [|done]. change (idx < length (po_slots (on_slot idx f (fw_pool w))))%nat. rewrite on_slot_length. by eapply lookup_lt_Some.
Qed.

(** Giving the writer's hold back. *)
Lemma abandon_inv wr (w : World R) : Small w -> own (wr_index wr) (fw_producer w) = 1 -> (forall i, i <> wr_index wr -> own i (fw_producer w) = 0) -> FrameInv w -> FrameInv (abandon wr w).
Proof.
  intros HS H1 H0 [HC HG HP]. assert (HG' : forall k g, fw_guests w !! k = Some g -> GuestInv (release (wr_index wr) (fw_pool w)) g).
  { intros k g Hk. apply GuestInv_on_slot; [left; apply hold_keeps|by apply (HG k)]. }
  split; [|exact HG'|done]. apply (count_on_slot (wr_index wr) (hold (-1)) (fw_pool w) _ (fun i => own i Idle + total i (fw_guests w)) HC).
  - intros s _ Hs. apply (hold_exact _ _ _ _ Hs); [rewrite H1; cbn; lia|]. exact (FrameInv_pieces (abandon wr w) HS HG' I (wr_index wr)).
  - intros i Hne. rewrite H0 by done. done.
Qed.

Lemma own_writing (w : World R) wr : fw_producer w = Writing wr -> own (wr_index wr) (fw_producer w) = 1 /\ forall i, i <> wr_index wr -> own i (fw_producer w) = 0.
Proof. intros ->. cbn. rewrite decide_True by done. split; [done|]. intros i Hne. by rewrite decide_False by congruence. Qed.

Lemma fill_inv bitstream wr (w : World R) : Small w -> fw_producer w = Writing wr -> FrameInv w -> FrameInv (fill_step bitstream wr w).
Proof.
  intros HS Ep HI. pose proof HI as [HC HG HP]. destruct (own_writing w wr Ep) as [O1 O2]. unfold fill_step, fill. destruct (po_slots (fw_pool w) !! wr_index wr) as [s|] eqn:Es; [|by apply abandon_inv].
  destruct (_ <? _); [by apply abandon_inv|]. unfold ProducerInv in HP. rewrite Ep in HP, HC. destruct HP as [P1 P2]. split.
  - apply (count_on_slot (wr_index wr) _ (fw_pool w) _ (fun i => own i (Writing (mkWriter (wr_index wr) (zlen bitstream))) + total i (fw_guests w)) HC); [intros s' _ H; exact H|done].
  - intros k g Hk. apply GuestInv_on_slot; [|by apply (HG k)]. right. intros p Hp. by apply (total_zero _ (fw_guests w) k g).
  - split; [|done]. cbn. by rewrite length_alter.
Qed.

Lemma begin_publish_inv wr keyframe rings (w : World R) : Small w -> fw_producer w = Writing wr -> (length rings <= 32)%nat -> FrameInv w -> FrameInv (begin_publish wr keyframe rings w).
Proof.
  intros HS Ep Hl [HC HG HP]. unfold ProducerInv in HP. rewrite Ep in HP, HC. destruct HP as [P1 P2]. set (f := fun s : Slot => hold (zlen rings) (s <| sl_len := wr_len wr |> <| sl_keyframe := keyframe |>)).
  assert (HP' : ProducerInv (begin_publish wr keyframe rings w)).
  { split; [|split; [lia|]].
    - change (wr_index wr < length (po_slots (on_slot (wr_index wr) f (fw_pool w))))%nat. by rewrite on_slot_length.
    - change (frame_keyframe (wr_index wr) (on_slot (wr_index wr) f (fw_pool w)) = keyframe). unfold frame_keyframe. rewrite on_slot_same. apply lookup_lt_is_Some in P1 as [s ->]. done. }
  assert (HG' : forall k g, fw_guests w !! k = Some g -> GuestInv (on_slot (wr_index wr) f (fw_pool w)) g).
  { intros k g Hk. apply GuestInv_on_slot; [|by apply (HG k)]. right. intros p Hp. by apply (total_zero _ (fw_guests w) k g). }
  split; [|exact HG'|exact HP']. apply (count_on_slot (wr_index wr) f (fw_pool w) _ (fun i => own i (Publishing wr keyframe rings 0 0) + total i (fw_guests w)) HC).
  - intros s _ Hs. apply (hold_exact _ (s <| sl_len := wr_len wr |> <| sl_keyframe := keyframe |>) _ _ Hs); [cbn; rewrite !decide_True by done; lia|].
    exact (FrameInv_pieces (begin_publish wr keyframe rings w) HS HG' HP' (wr_index wr)).
  - intros i Hne. cbn. by rewrite !decide_False by congruence.
Qed.

Lemma queued_le pool g : GuestInv pool g -> (length (gu_got g) <= length (gu_taken g))%nat.
Proof. intros [G1 _ _ _]. by apply prefix_length. Qed.

(** A ring that takes the publication has one more to give. *)
Lemma queued_more pool (g : Guest R) ring p : GuestInv pool g ->
  queued (g <| gu_ring := ring |> <| gu_taken := gu_taken g ++ [p] |>) = queued g ++ [p].
Proof. intros HG. unfold queued. cbn. apply drop_app_le. by eapply queued_le. Qed.

Lemma GuestInv_push pool (g : Guest R) ring p : GuestInv pool g -> shown pool p ->
  Queued ring (map (fun p => Z.of_nat (pb_index p)) (queued g) ++ [Z.of_nat (pb_index p)]) ->
  GuestInv pool (g <| gu_ring := ring |> <| gu_taken := gu_taken g ++ [p] |>).
Proof.
  intros HG Hp HQ. pose proof (queued_more pool g ring p HG) as E. pose proof HG as [G1 G2 G3 G4]. split.
  - cbn. by apply prefix_app_r.
  - rewrite E, map_app. exact HQ.
  - exact G3.
  - intros q Hq. unfold mentions in Hq. rewrite E in Hq. apply elem_of_app in Hq as [[Hq|Hq%list_elem_of_singleton]%elem_of_app|Hq].
    + apply G4. unfold mentions. apply elem_of_app. by left.
    + by subst q.
    + apply G4. unfold mentions. apply elem_of_app. by right.
Qed.

Lemma ring_push_inv wr keyframe rings at_ taken k g (w : World R) :
  Small w -> fw_producer w = Publishing wr keyframe rings at_ taken -> rings !! at_ = Some k -> fw_guests w !! k = Some g ->
  FrameInv w -> FrameInv (push_step wr keyframe rings at_ taken k g w).
Proof.
  intros HS Ep Hk Hg [HC HG HP]. unfold ProducerInv in HP. rewrite Ep in HP, HC. destruct HP as (P1 & P2 & P3). pose proof (HG k g Hg) as HGk. pose proof (lookup_lt_Some _ _ _ Hk) as Hat.
  unfold push_step, publish_one. pose proof (fifo_bounded _ _ (gi_ring _ _ HGk)) as Hb. destruct (Z.eq_dec (zlen (map (fun p => Z.of_nat (pb_index p)) (queued g))) depth) as [Efull|Hroom].
  - rewrite (fifo_refuses _ _ _ (gi_ring _ _ HGk) Efull). cbn [snd]. replace (g <| gu_ring := gu_ring g |> <| gu_taken := gu_taken g |>) with g by by destruct g. rewrite list_insert_id by done.
    assert (HG' : forall k g, fw_guests w !! k = Some g -> GuestInv (release (wr_index wr) (fw_pool w)) g).
    { intros k' g' Hk'. apply GuestInv_on_slot; [left; apply hold_keeps|by apply (HG k')]. }
    set (w' := mkWorld (release (wr_index wr) (fw_pool w)) (Publishing wr keyframe rings (S at_) taken) (fw_guests w)). assert (HP' : ProducerInv w').
    { split; [|split; [lia|]]; cbn [fw_pool w']; unfold release; [by rewrite on_slot_length|]. by destruct (keeps_bytes (wr_index wr) (wr_index wr) (hold (-1)) (fw_pool w) (hold_keeps _)) as [_ ->]. }
    split; [|exact HG'|exact HP']. apply (count_on_slot (wr_index wr) (hold (-1)) (fw_pool w) _ (fun i => own i (Publishing wr keyframe rings (S at_) taken) + total i (fw_guests w)) HC).
    + intros s _ Hs. apply (hold_exact _ _ _ _ Hs); [cbn; rewrite !decide_True by done; lia|]. exact (FrameInv_pieces w' HS HG' HP' (wr_index wr)).
    + intros i Hne. cbn. by rewrite !decide_False by congruence.
  - destruct (fifo_accepts _ _ (Z.of_nat (wr_index wr)) (gi_ring _ _ HGk)) as (ring & E & HQ); [lia|]. rewrite E. cbn [snd]. set (p := publication wr keyframe (fw_pool w)). set (g' := g <| gu_ring := ring |> <| gu_taken := gu_taken g ++ [p] |>).
    split; cbn [fw_pool fw_producer fw_guests].
    + intros i s Hs. rewrite (HC i s Hs), (holds_insert i _ k g) by done. unfold mentions, g'. rewrite (queued_more (fw_pool w)) by done.
      rewrite !occ_app. change (in_hand (g <| gu_ring := ring |> <| gu_taken := gu_taken g ++ [p] |>)) with (in_hand g). rewrite occ_cons. change (occ i []) with 0. unfold own, share. change (pb_index p) with (wr_index wr). case_decide; lia.
    + intros j h Hj. apply list_lookup_insert_Some in Hj as [(<- & <- & _)|[_ Hj]]; [|by apply (HG j)]. apply GuestInv_push; [done| |exact HQ]. split; [done|]. split; [done|exact P3].
    + split; [done|]. split; [cbn; lia|done].
Qed.

(** *** The guests' threads *)

Lemma prefix_next {A} (l k : list A) : l `prefix_of` k -> drop (length l) k = [] \/ exists x, drop (length l) k = x :: drop (S (length l)) k /\ take (S (length l)) k = l ++ [x].
Proof.
  intros [rest ->]. rewrite drop_app_length. destruct rest as [|x rest]; [by left|]. right. exists x. split.
  - f_equal. rewrite drop_app_ge by lia. by replace (S (length l) - length l)%nat with 1%nat by lia.
  - rewrite take_app_ge by lia. by replace (S (length l) - length l)%nat with 1%nat by lia.
Qed.

Lemma next_inv k g (w : World R) : fw_guests w !! k = Some g -> gu_frame g = None -> FrameInv w -> FrameInv (next_frame k g w).
Proof.
  intros Hg Hf [HC HG HP]. pose proof (HG k g Hg) as HGk. pose proof HGk as [G1 G2 G3 G4]. unfold next_frame.
  destruct (prefix_next _ _ G1) as [En|(p & En & Et)].
  - unfold queued in G2. rewrite En in G2. rewrite (fifo_empty _ G2). replace (g <| gu_ring := gu_ring g |>) with g by by destruct g. rewrite list_insert_id by done. by split.
  - pose proof G2 as HQ. unfold queued in HQ. rewrite En in HQ. cbn [map] in HQ. destruct (fifo_gives _ _ _ HQ) as (ring & -> & HQ'). rewrite Et.
    assert (Hp : p ∈ mentions g) by (unfold mentions, queued; rewrite En; apply elem_of_app; left; apply elem_of_cons; by left). destruct (G4 p Hp) as (S1 & S2 & S3).
    assert (claim (Z.of_nat (pb_index p)) (fw_pool w) = Some (pb_index p)) as -> by (unfold claim; rewrite Nat2Z.id; apply lookup_lt_is_Some in S1 as [s ->]; done).
    set (g' := g <| gu_ring := ring |> <| gu_frame := Some (pb_index p) |> <| gu_got := gu_got g ++ [p] |>).
    assert (Eq : queued g' = drop (S (length (gu_got g))) (gu_taken g)) by (unfold queued; cbn; rewrite length_app; cbn; by rewrite Nat.add_1_r).
    assert (Eh : in_hand g' = [p]) by (unfold in_hand; cbn; by rewrite list.last_snoc).
    assert (Em : forall i, occ i (mentions g') = occ i (mentions g)).
    { intros i. unfold mentions. rewrite Eq, Eh. unfold queued, in_hand. rewrite En, Hf. rewrite !occ_app, !occ_cons. change (occ i []) with 0. lia. }
    change (FrameInv (mkWorld (fw_pool w) (fw_producer w) (<[k := g']> (fw_guests w)))). split; cbn [fw_pool fw_producer fw_guests].
    + intros i s Hs. rewrite (HC i s Hs). rewrite (holds_insert i _ k g) by done. rewrite Em. lia.
    + intros j h Hj. apply list_lookup_insert_Some in Hj as [(<- & <- & _)|[_ Hj]]; [|by apply (HG j)]. split.
      * cbn. rewrite <- Et. apply prefix_take.
      * rewrite Eq. exact HQ'.
      * intros i [= <-]. exists p. split; [apply list.last_snoc|done].
      * intros q Hq. apply G4. unfold mentions in Hq |- *. rewrite Eq, Eh in Hq. unfold queued. rewrite En. apply elem_of_app. left. apply elem_of_cons. apply elem_of_app in Hq as [?|Hq%list_elem_of_singleton]; [by right|by left].
    + unfold ProducerInv in *. cbn [fw_producer fw_pool fw_guests]. destruct (fw_producer w) as [| |wr|] eqn:Epr; try done. destruct HP as [P1 P2]. split; [done|].
      rewrite (holds_insert _ _ k g) by done. rewrite Em. lia.
Qed.

Lemma finish_inv k g index (w : World R) : Small w -> fw_guests w !! k = Some g -> gu_frame g = Some index -> FrameInv w -> FrameInv (finish k g index w).
Proof.
  intros HS Hg Hf [HC HG HP]. pose proof (HG k g Hg) as HGk. destruct (gi_frame _ _ HGk index Hf) as (p & Hl & <-). set (g' := g <| gu_frame := None |>).
  assert (Em : mentions g = queued g ++ [p]) by (unfold mentions, in_hand; by rewrite Hf, Hl). assert (Em' : mentions g' = queued g) by (unfold mentions, in_hand; cbn; apply app_nil_r).
  set (w' := mkWorld (release (pb_index p) (fw_pool w)) (fw_producer w) (<[k := g']> (fw_guests w))). change (FrameInv w').
  assert (HG' : forall j h, fw_guests w' !! j = Some h -> GuestInv (fw_pool w') h).
  { intros j h Hj. apply GuestInv_on_slot; [left; apply hold_keeps|]. apply list_lookup_insert_Some in Hj as [(<- & <- & _)|[_ Hj]]; [|by apply (HG j)].
    destruct HGk as [G1 G2 G3 G4]. split; [done|done|done|]. intros q Hq. apply G4. rewrite Em. apply elem_of_app. left. by rewrite Em' in Hq. }
  assert (Et : forall i, total i (fw_guests w') = total i (fw_guests w) - share i p).
  { intros i. cbn [fw_guests w']. rewrite (holds_insert i _ k g), Em, Em', occ_app, occ_cons by done. change (occ i []) with 0. lia. }
  assert (HP' : ProducerInv w').
  { unfold ProducerInv in *. cbn [fw_producer fw_pool w']. unfold release. destruct (fw_producer w) as [| |wr|wr kf rings at_ taken]; try done.
    - destruct HP as [P1 P2]. rewrite on_slot_length. split; [done|]. pose proof (total_nonneg (wr_index wr) (fw_guests w')). pose proof (share_bounds (wr_index wr) p). rewrite Et in *. lia.
    - destruct HP as (P1 & P2 & P3). rewrite on_slot_length. split; [done|]. split; [done|]. by destruct (keeps_bytes (pb_index p) (wr_index wr) (hold (-1)) (fw_pool w) (hold_keeps _)) as [_ ->]. }
  assert (HS' : Small w') by (unfold Small in *; cbn [fw_guests w']; by rewrite zlen_insert).
  split; [|exact HG'|exact HP']. apply (count_on_slot (pb_index p) (hold (-1)) (fw_pool w) _ (fun i => own i (fw_producer w) + total i (fw_guests w')) HC).
  - intros s _ Hs. apply (hold_exact _ _ _ _ Hs); [|exact (FrameInv_pieces w' HS' HG' HP' (pb_index p))]. rewrite Et. unfold share. rewrite decide_True by done. lia.
  - intros i Hne. rewrite Et. unfold share. rewrite decide_False by congruence. lia.
Qed.

Lemma FrameStep_size (w w' : World R) : FrameStep w w' -> length (fw_guests w') = length (fw_guests w) /\ length (po_slots (fw_pool w')) = length (po_slots (fw_pool w)).
Proof.
  destruct 1; try done.
  - unfold scan. destruct (_ <=? _)%nat; [done|]. destruct (acquire_at _ _ _) as [[pool wr]|] eqn:E; [|done]. unfold acquire_at in E. apply bind_Some in E as (s & _ & E).
    destruct (_ =? _); [|done]. injection E as <- <-. split; [done|]. cbn. apply length_alter.
  - unfold fill_step, fill. destruct (po_slots _ !! _); [|split; [done|apply on_slot_length]]. destruct (_ <? _); (split; [done|apply on_slot_length]).
  - split; [done|apply on_slot_length].
  - split; [done|apply on_slot_length].
  - unfold push_step, publish_one. destruct (fifo_push _ _) as [ring [?|]]; cbn; by rewrite ?length_insert, ?length_alter.
  - split; [done|apply on_slot_length].
  - unfold next_frame. destruct (fifo_pop _) as [ring []]; cbn; by rewrite length_insert.
  - unfold finish. cbn. by rewrite length_insert, length_alter.
Qed.

Lemma FrameStep_inv (w w' : World R) : Small w -> FrameStep w w' -> FrameInv w -> FrameInv w'.
Proof.
  intros HS Hstep HI. destruct Hstep as [w Ep|w start step Ep|w wr bits Ep|w wr Ep|w wr kf rings Ep Hl _|w wr kf rings at_ taken k g Ep Hk Hg|w wr kf rings at_ taken Ep ->|w k g Hg Hf|w k g index Hg Hf].
  - destruct HI as [HC HG HP]. split; [|done|done]. intros i s Hs. rewrite (HC i s Hs), Ep. done.
  - by apply scan_inv.
  - by apply fill_inv.
  - destruct (own_writing w wr Ep). by apply abandon_inv.
  - by apply begin_publish_inv.
  - by apply ring_push_inv.
  - apply abandon_inv; [done| | |done]; rewrite Ep; cbn; [rewrite decide_True by done; unfold zlen; lia|]. intros i Hne. by rewrite decide_False by congruence.
  - by apply next_inv.
  - by apply finish_inv.
Qed.

Lemma FrameReach_inv slots bytes guests w : Z.of_nat guests * (depth + 1) + 33 < M64 -> FrameReach slots bytes guests w ->
  FrameInv w /\ length (fw_guests w) = guests /\ length (po_slots (fw_pool w)) = slots.
Proof.
  intros HS. induction 1 as [|w w' _ (HI & Hg & Hs) Hstep].
  - split; [|by cbn; rewrite !length_replicate]. set (g0 := mkGuest fifo_new None [] []). assert (Ht : forall i n, total i (replicate n g0) = 0) by (intros i n; induction n as [|n IH]; [done|]; cbn [replicate]; by rewrite total_cons, IH).
    split; [| |done].
    + intros i s Hi. apply lookup_replicate in Hi as [-> _]. cbn [fw_guests world_new fw_producer own]. by rewrite Ht.
    + intros k g Hk. apply lookup_replicate in Hk as [-> _]. split; [done|apply fifo_starts|done|]. by intros p ?%elem_of_nil.
  - destruct (FrameStep_size w w' Hstep) as [-> ->]. split; [|done]. apply (FrameStep_inv w); [|done|done]. unfold Small, zlen. by rewrite Hg.
Qed.

End Invariant.

(** ** What the pool is promised *)

(** With nobody holding anything the first round of the search succeeds. *)
Lemma acquire_free pool : (0 < length (po_slots pool))%nat -> (forall i s, po_slots pool !! i = Some s -> sl_holders s = 0) ->
  exists pool' w, acquire pool = (pool', Some w).
Proof.
  intros Hc Hfree. unfold acquire. destruct (length (po_slots pool)) as [|n] eqn:En; [lia|]. cbn [acquire_loop]. unfold acquire_at.
  destruct (lookup_lt_is_Some_2 (po_slots pool) ((po_hint pool + 0) mod length (po_slots pool))%nat) as [s Hs]; [apply Nat.mod_upper_bound; lia|].
  rewrite Hs. cbn [mbind option_bind]. rewrite (Hfree _ s Hs). cbn. by eauto.
Qed.

(** (C24) A frame is never rewritten under a reader. In every interleaving of the
    encoding thread - searching, filling, publishing to one ring after another,
    giving up - with guests that take and finish frames: what a guest was handed
    is a prefix of what its ring took; the frame it holds has the bytes and the
    kind that were published, and so has every frame still queued to it; the
    slot being written is neither held by a guest nor queued to one; and once
    the encoding thread is idle and every guest has taken and finished what it
    was given, every count is back at zero and a slot is found. *)
Theorem frames_shared_safely {R : Type} {F : Fifo R Z} (depth : Z) {L : FifoLaws F depth} (slots bytes guests : nat) (w : World R) :
  Z.of_nat guests * (depth + 1) + 33 < M64 -> FrameReach slots bytes guests w ->
  (forall k g, fw_guests w !! k = Some g ->
     gu_got g `prefix_of` gu_taken g /\ Queued (gu_ring g) (map (fun p => Z.of_nat (pb_index p)) (queued g)) /\
     (forall p, p ∈ queued g -> shown (fw_pool w) p) /\
     (forall i, gu_frame g = Some i -> exists p, list.last (gu_got g) = Some p /\ pb_index p = i /\ shown (fw_pool w) p)) /\
  (forall wr k g p, fw_producer w = Writing wr -> fw_guests w !! k = Some g -> p ∈ mentions g -> pb_index p <> wr_index wr) /\
  (fw_producer w = Idle -> (forall k g, fw_guests w !! k = Some g -> gu_frame g = None /\ gu_got g = gu_taken g) ->
     (forall i s, po_slots (fw_pool w) !! i = Some s -> sl_holders s = 0) /\ ((0 < slots)%nat -> exists pool wr, acquire (fw_pool w) = (pool, Some wr))).
Proof.
  intros HS Hr. destruct (FrameReach_inv depth slots bytes guests w HS Hr) as ([HC HG HP] & Hn & Hs). split; [|split].
  - intros k g Hg. destruct (HG k g Hg) as [G1 G2 G3 G4]. split; [done|]. split; [done|]. split.
    + intros p Hp. apply G4. unfold mentions. apply elem_of_app. by left.
    + intros i Hi. destruct (G3 i Hi) as (p & Hl & Ep). exists p. split; [done|]. split; [done|]. apply G4. unfold mentions, in_hand. rewrite Hi, Hl. apply elem_of_app. right. by apply list_elem_of_singleton.
  - intros wr k g p Ep Hg Hp. unfold ProducerInv in HP. rewrite Ep in HP. by apply (total_zero _ (fw_guests w) k g); [apply HP|..].
  - intros Ep Hidle. assert (Ht : forall i, total i (fw_guests w) = 0).
    { intros i. assert (H : forall k g, fw_guests w !! k = Some g -> mentions g = []).
      { intros k g Hg. destruct (Hidle k g Hg) as [Hf E]. unfold mentions, queued, in_hand. by rewrite Hf, E, drop_all. }
      clear -H. induction (fw_guests w) as [|g gs IH]; [done|]. rewrite total_cons, (H 0%nat g eq_refl), IH; [done|]. intros k g' Hk. exact (H (S k) g' Hk). }
    assert (Hfree : forall i s, po_slots (fw_pool w) !! i = Some s -> sl_holders s = 0) by (intros i s Hi; rewrite (HC i s Hi), Ep, Ht; done).
    split; [done|]. intros Hlt. apply acquire_free; [lia|done].
Qed.

(** *** A run over the ring of [Spsc] *)

Definition demo_fifo : Fifo (Ring Z) Z := ring_fifo 2.

Lemma demo_capacity : 0 < 2 < M64.
Proof. by vm_compute. Qed.

Lemma demo_divides : (2 | M64).
Proof. by exists (2 ^ 63). Qed.

Definition demo_laws : FifoLaws demo_fifo 2 := ring_fifo_laws 2 demo_capacity demo_divides.
#[local] Existing Instance demo_fifo | 0.
#[local] Existing Instance demo_laws | 0.

Definition demo_guest (w : World (Ring Z)) : Guest (Ring Z) := default (mkGuest (ring_new 2) None [] []) (fw_guests w !! 0%nat).
Definition demo_published : World (Ring Z) :=
  let w := scan 0 0 (world_new 2 4 1 <| fw_producer := Scanning 0 0 |>) in
  let w := begin_publish (mkWriter 0 3) true [0%nat] (fill_step [7; 8; 9] (mkWriter 0 0) w) in
  abandon (mkWriter 0 3) (push_step (mkWriter 0 3) true [0%nat] 0 0 0 (demo_guest w) w).
Definition demo_world : World (Ring Z) :=
  let w := next_frame 0 (demo_guest demo_published) demo_published in
  scan 1 0 (w <| fw_producer := Scanning (po_hint (fw_pool w)) 0 |>).

Lemma demo_published_reach : FrameReach 2 4 1 demo_published.
Proof.
  unfold demo_published. eapply frame_step; [|apply (step_published _ (mkWriter 0 3) true [0%nat] 1 1); by vm_compute].
  eapply frame_step; [|apply (step_push _ (mkWriter 0 3) true [0%nat] 0 0 0); [by vm_compute|done|by vm_compute]].
  eapply frame_step; [|apply (step_publish _ (mkWriter 0 3) true [0%nat]); [by vm_compute|cbn; lia|by repeat constructor]].
  eapply frame_step; [|apply (step_fill _ (mkWriter 0 0) [7; 8; 9]); by vm_compute].
  eapply frame_step; [|apply (step_scan _ 0 0); by vm_compute]. eapply frame_step; [apply frame_start|by apply (step_acquire (world_new 2 4 1))].
Qed.

Lemma demo_world_reach : FrameReach 2 4 1 demo_world.
Proof.
  unfold demo_world. eapply frame_step; [|apply (step_scan _ 1 0); by vm_compute]. eapply frame_step; [|apply (step_acquire (F := demo_fifo)); by vm_compute].
  eapply frame_step; [apply demo_published_reach|apply (step_next _ 0); by vm_compute].
Qed.

Lemma frames_shared_safely_witness :
  fw_producer demo_world = Writing (mkWriter 1 0) /\ gu_frame (demo_guest demo_world) = Some 0%nat /\
  (exists p, list.last (gu_got (demo_guest demo_world)) = Some p /\ pb_index p = 0%nat /\ shown (fw_pool demo_world) p).
Proof.
  destruct (frames_shared_safely (L := demo_laws) 2 2 4 1 demo_world ltac:(vm_compute; reflexivity) demo_world_reach) as (H & _ & _).
  split; [vm_compute; reflexivity|]. split; [vm_compute; reflexivity|].
  destruct (H 0%nat (demo_guest demo_world) ltac:(vm_compute; reflexivity)) as (_ & _ & _ & H1). exact (H1 0%nat ltac:(vm_compute; reflexivity)).
Defined.

(** ** The mask [publish] returns *)

Section Mask.
Context {R : Type} {F : Fifo R Z} (depth : Z) {L : FifoLaws F depth}.

(** The bit of a ring says whether it took the frame, in the order the rings
    were given; this is the [taken] a delivery acts on ([Stream.deliver]). *)
Lemma publish_loop_mask w at_ rings pool taken (queues : list (list Z)) :
  Forall2 Queued rings queues -> (at_ + length rings <= 32)%nat -> (forall j, Z.of_nat at_ <= j -> Z.testbit taken j = false) ->
  exists rings' pool' taken', publish_loop w at_ rings pool taken = (rings', pool', taken') /\
    (forall j, 0 <= j < Z.of_nat at_ -> Z.testbit taken' j = Z.testbit taken j) /\
    (forall j l, queues !! j = Some l -> Z.testbit taken' (Z.of_nat (at_ + j)) = (zlen l <? depth)) /\
    Forall2 Queued rings' (map (fun l => if zlen l <? depth then l ++ [Z.of_nat (wr_index w)] else l) queues).
Proof.
  intros HF. revert at_ pool taken. induction HF as [|ring l rings queues HQ HF IH]; intros at_ pool taken Hl Hz; cbn [publish_loop].
  - exists [], pool, taken. split; [done|]. split; [done|]. split; [done|constructor].
  - cbn [length] in Hl. unfold publish_one. pose proof (fifo_bounded _ _ HQ) as Hb. destruct (Z.ltb_spec (zlen l) depth) as [Hlt|Hge].
    + destruct (fifo_accepts _ _ (Z.of_nat (wr_index w)) HQ Hlt) as (ring' & E & HQ'). rewrite E. set (taken1 := Z.lor taken _).
      assert (Hbit : forall j, 0 <= j -> Z.testbit taken1 j = Z.testbit taken j || (j =? Z.of_nat at_)).
      { intros j Hj. unfold taken1. rewrite Z.lor_spec, Z.mod_small, Z.shiftl_spec by lia. f_equal. destruct (Z.eqb_spec j (Z.of_nat at_)) as [->|Hne]; [by rewrite Z.sub_diag|].
        destruct (Z.ltb_spec (j - Z.of_nat at_) 0); [by apply Z.testbit_neg_r|]. apply Z.bits_above_log2; cbn; lia. }
      destruct (IH (S at_) pool taken1) as (rings' & pool' & taken' & E' & B1 & B2 & B3); [lia|intros j Hj; rewrite Hbit, Hz by lia; cbn; lia|]. rewrite E'. exists (ring' :: rings'), pool', taken'.
      split; [done|]. split; [|split].
      * intros j Hj. rewrite B1, Hbit by lia. destruct (Z.eqb_spec j (Z.of_nat at_)); [lia|]. apply orb_false_r.
      * intros [|j] l' Hj; cbn in Hj; [|replace (at_ + S j)%nat with (S at_ + j)%nat by lia; by apply B2]. injection Hj as <-. rewrite Nat.add_0_r, B1, Hbit, Z.eqb_refl, orb_true_r by lia. symmetry. by apply Z.ltb_lt.
      * cbn [map]. apply Z.ltb_lt in Hlt. rewrite Hlt. by constructor.
    + rewrite (fifo_refuses _ _ _ HQ) by lia. destruct (IH (S at_) (release (wr_index w) pool) taken) as (rings' & pool' & taken' & E' & B1 & B2 & B3); [lia|intros j Hj; apply Hz; lia|]. rewrite E'. exists (ring :: rings'), pool', taken'.
      split; [done|]. split; [intros j Hj; apply B1; lia|]. split.
      * intros [|j] l' Hj; cbn in Hj; [|replace (at_ + S j)%nat with (S at_ + j)%nat by lia; by apply B2]. injection Hj as <-. rewrite Nat.add_0_r, B1, Hz by lia. symmetry. apply Z.ltb_ge. lia.
      * cbn [map]. apply Z.ltb_ge in Hge. rewrite Hge. by constructor.
Qed.

End Mask.
