(* ===== verification/HostIpc.v ===== *)
(** * The wire between the machine service and its broker
    ([host-ipc/src/wire.rs], [protocol.rs], [transport.rs])

    The bounds-checked reader and writer, the message set of both directions and
    the length-prefixed framing. A [Vec<u8>] under construction is a list; the
    reader keeps its buffer and position, and each read hands back the reader
    advanced. *)

From S2P Require Import Prelude Stun Fallible InputEvents Broker.

(** ** What is captured ([lifecycle.rs]) *)

Module Seat.
Inductive Seat := Empty | Greeter | User.
#[export] Instance Seat_eq_dec : EqDecision Seat.
Proof. solve_decision. Defined.
End Seat.
Export Seat (Seat).
#[export] Existing Instance Seat.Seat_eq_dec.

Inductive CaptureKind := Scanout | PipeWire.

#[export] Instance CaptureKind_eq_dec : EqDecision CaptureKind.
Proof. solve_decision. Defined.

(** ** Reader and writer *)

Inductive DecodeError := Truncated | BadTag (tag : Z) | TrailingBytes | TooLong.

Definition MAX_FIELD_LEN : Z := 2 * 1024 * 1024.

(** [Writer]: what each call appends. *)
Module Writer.
Definition tagged (tag : Z) : list Z := [tag].
Definition u8 (value : Z) : list Z := [value].
Definition u16 (value : Z) : list Z := be_bytes 2 value.
Definition u32 (value : Z) : list Z := be_bytes 4 value.
Definition u64 (value : Z) : list Z := be_bytes 8 value.
Definition u128 (value : Z) : list Z := be_bytes 16 value.
Definition bool (value : bool) : list Z := [Z.b2z value].
Definition bytes (value : list Z) : list Z :=
  let len := default U32_MAX (try_from U32_MAX (zlen value)) in
  u32 len ++ take (Z.to_nat (Z.min len (zlen value))) value.
End Writer.

Record Reader := mkReader { rd_buf : list Z; rd_pos : Z }.

Definition reader_new (buf : list Z) : Reader := mkReader buf 0.

Definition read (n : Z) (r : Reader) : fallible DecodeError (list Z * Reader) :=
  match checked_add64 (rd_pos r) n with
  | None => Bad Truncated
  | Some end_ =>
      match slice (rd_buf r) (rd_pos r) end_ with
      | None => Bad Truncated
      | Some s => Good (s, mkReader (rd_buf r) end_)
      end
  end.

Definition read_be (n : Z) (r : Reader) : fallible DecodeError (Z * Reader) := '(b, r) ← read n r; Good (be_val b, r).
Definition read_u8 : Reader -> fallible DecodeError (Z * Reader) := read_be 1.
Definition read_tag : Reader -> fallible DecodeError (Z * Reader) := read_be 1.
Definition read_u16 : Reader -> fallible DecodeError (Z * Reader) := read_be 2.
Definition read_u32 : Reader -> fallible DecodeError (Z * Reader) := read_be 4.
Definition read_u64 : Reader -> fallible DecodeError (Z * Reader) := read_be 8.
Definition read_u128 : Reader -> fallible DecodeError (Z * Reader) := read_be 16.
Definition read_bool (r : Reader) : fallible DecodeError (bool * Reader) := '(b, r) ← read_u8 r; Good (negb (b =? 0), r).
Definition read_bytes (r : Reader) : fallible DecodeError (list Z * Reader) :=
  '(len, r) ← read_u32 r; _ ← refuse (MAX_FIELD_LEN <? len) TooLong; read len r.
Definition reader_finish (r : Reader) : fallible DecodeError () := refuse (negb (rd_pos r =? zlen (rd_buf r))) TrailingBytes.

(** [String::from_utf8_lossy]: the next character of well-formed input, or the
    longest prefix of one that is not, which becomes U+FFFD. *)
Definition utf8_next (a : Z) (bs : list Z) : bool * nat :=
  let b := nth 0 bs 0 in
  let c := nth 1 bs 0 in
  let d := nth 2 bs 0 in
  if utf8_cont 0 0x7F a then (true, 1%nat) else
  if utf8_cont 0xC2 0xDF a then (if utf8_cont 0x80 0xBF b then (true, 2%nat) else (false, 1%nat)) else
  if utf8_cont 0xE0 0xEF a then
    (if negb (utf8_cont (if a =? 0xE0 then 0xA0 else 0x80) (if a =? 0xED then 0x9F else 0xBF) b) then (false, 1%nat) else
     if negb (utf8_cont 0x80 0xBF c) then (false, 2%nat) else (true, 3%nat)) else
  if utf8_cont 0xF0 0xF4 a then
    (if negb (utf8_cont (if a =? 0xF0 then 0x90 else 0x80) (if a =? 0xF4 then 0x8F else 0xBF) b) then (false, 1%nat) else
     if negb (utf8_cont 0x80 0xBF c) then (false, 2%nat) else if negb (utf8_cont 0x80 0xBF d) then (false, 3%nat) else (true, 4%nat)) else
  (false, 1%nat).

(** Every round consumes a byte, so the length is fuel enough. *)
Fixpoint lossy_loop (fuel : nat) (bs : list Z) : list Z :=
  match fuel, bs with
  | S fuel, a :: rest =>
      let '(ok, n) := utf8_next a rest in
      (if ok then take n bs else [0xEF; 0xBF; 0xBD]) ++ lossy_loop fuel (drop n bs)
  | _, _ => []
  end.

Definition from_utf8_lossy (bs : list Z) : list Z := lossy_loop (length bs) bs.

(** ** Messages *)

Definition PROTOCOL_VERSION : Z := 3.

Module Tag.
Definition HELLO : Z := 0x01.
Definition OPEN_CAPTURE : Z := 0x02.
Definition SWITCH_CAPTURE : Z := 0x03.
Definition SET_BITRATE : Z := 0x04.
Definition REQUEST_KEYFRAME : Z := 0x05.
Definition CLOSE_CAPTURE : Z := 0x06.
Definition INPUT : Z := 0x07.
Definition SHUTDOWN : Z := 0x08.
Definition EV_HELLO : Z := 0x81.
Definition EV_CAPTURE_STARTED : Z := 0x82.
Definition EV_FRAME : Z := 0x83.
Definition EV_RUMBLE : Z := 0x84.
Definition EV_CAPTURE_ERROR : Z := 0x85.
Definition EV_CLOSED : Z := 0x86.
End Tag.

Definition seat_to_wire (seat : Seat) : Z := match seat with Seat.Empty => 0 | Seat.Greeter => 1 | Seat.User => 2 end.
Definition seat_from_wire (byte : Z) : fallible DecodeError Seat :=
  match byte with 0 => Good Seat.Empty | 1 => Good Seat.Greeter | 2 => Good Seat.User | other => Bad (BadTag other) end.
Definition kind_to_wire (kind : CaptureKind) : Z := match kind with Scanout => 0 | PipeWire => 1 end.
Definition kind_from_wire (byte : Z) : fallible DecodeError CaptureKind :=
  match byte with 0 => Good Scanout | 1 => Good PipeWire | other => Bad (BadTag other) end.

Record CaptureParams := mkParams { cp_seat : Seat; cp_kind : CaptureKind; cp_width : Z; cp_height : Z; cp_fps : Z; cp_bitrate_kbps : Z }.

Inductive ServiceRequest :=
  | Hello (protocol : Z)
  | OpenCapture (token_id : Z) (grant : list Z) (requested : Z) (params : CaptureParams)
  | SwitchCapture (token_id : Z) (seat : Seat) (kind : CaptureKind)
  | SetBitrate (kbps : Z)
  | RequestKeyframe
  | CloseCapture
  | Input (token_id : Z) (payload : list Z)
  | Shutdown.

Definition request_encode (m : ServiceRequest) : list Z :=
  match m with
  | Hello protocol => Writer.tagged Tag.HELLO ++ Writer.u16 protocol
  | OpenCapture token_id grant requested p =>
      Writer.tagged Tag.OPEN_CAPTURE ++ Writer.u128 token_id ++ Writer.bytes grant ++ Writer.u32 requested ++ Writer.u8 (seat_to_wire (cp_seat p)) ++
      Writer.u8 (kind_to_wire (cp_kind p)) ++ Writer.u16 (cp_width p) ++ Writer.u16 (cp_height p) ++ Writer.u8 (cp_fps p) ++ Writer.u32 (cp_bitrate_kbps p)
  | SwitchCapture token_id seat kind =>
      Writer.tagged Tag.SWITCH_CAPTURE ++ Writer.u128 token_id ++ Writer.u8 (seat_to_wire seat) ++ Writer.u8 (kind_to_wire kind)
  | SetBitrate kbps => Writer.tagged Tag.SET_BITRATE ++ Writer.u32 kbps
  | RequestKeyframe => Writer.tagged Tag.REQUEST_KEYFRAME
  | CloseCapture => Writer.tagged Tag.CLOSE_CAPTURE
  | Input token_id payload => Writer.tagged Tag.INPUT ++ Writer.u128 token_id ++ Writer.bytes payload
  | Shutdown => Writer.tagged Tag.SHUTDOWN
  end.

Definition read_seat (r : Reader) : fallible DecodeError (Seat * Reader) := '(b, r) ← read_u8 r; s ← seat_from_wire b; Good (s, r).
Definition read_kind (r : Reader) : fallible DecodeError (CaptureKind * Reader) := '(b, r) ← read_u8 r; k ← kind_from_wire b; Good (k, r).

Definition request_body (tag : Z) (r : Reader) : fallible DecodeError (ServiceRequest * Reader) :=
  if tag =? Tag.HELLO then '(protocol, r) ← read_u16 r; Good (Hello protocol, r) else
  if tag =? Tag.OPEN_CAPTURE then
    '(token_id, r) ← read_u128 r;
    '(grant, r) ← read_bytes r;
    '(bits, r) ← read_u32 r;
    '(seat, r) ← read_seat r;
    '(kind, r) ← read_kind r;
    '(width, r) ← read_u16 r;
    '(height, r) ← read_u16 r;
    '(fps, r) ← read_u8 r;
    '(bitrate_kbps, r) ← read_u32 r;
    Good (OpenCapture token_id grant (Capabilities.from_bits_truncate bits) (mkParams seat kind width height fps bitrate_kbps), r)
  else if tag =? Tag.SWITCH_CAPTURE then
    '(token_id, r) ← read_u128 r; '(seat, r) ← read_seat r; '(kind, r) ← read_kind r; Good (SwitchCapture token_id seat kind, r)
  else if tag =? Tag.SET_BITRATE then '(kbps, r) ← read_u32 r; Good (SetBitrate kbps, r)
  else if tag =? Tag.REQUEST_KEYFRAME then Good (RequestKeyframe, r)
  else if tag =? Tag.CLOSE_CAPTURE then Good (CloseCapture, r)
  else if tag =? Tag.INPUT then '(token_id, r) ← read_u128 r; '(payload, r) ← read_bytes r; Good (Input token_id payload, r)
  else if tag =? Tag.SHUTDOWN then Good (Shutdown, r)
  else Bad (BadTag tag).

Definition request_decode (bytes : list Z) : fallible DecodeError ServiceRequest :=
  '(tag, r) ← read_tag (reader_new bytes); '(m, r) ← request_body tag r; _ ← reader_finish r; Good m.

Module Ev.
Inductive BrokerEvent :=
  | Hello (protocol capabilities : Z)
  | CaptureStarted (token_id : Z) (seat : Seat) (kind : CaptureKind) (width height granted : Z)
  | Frame (sequence timestamp_us : Z) (keyframe : bool) (data : list Z)
  | Rumble (device_id strong weak : Z)
  | CaptureError (code : Z) (message : list Z)
  | Closed (reason : Z).
End Ev.
Export Ev (BrokerEvent).

Definition broker_encode (m : BrokerEvent) : list Z :=
  match m with
  | Ev.Hello protocol capabilities => Writer.tagged Tag.EV_HELLO ++ Writer.u16 protocol ++ Writer.u32 capabilities
  | Ev.CaptureStarted token_id seat kind width height granted =>
      Writer.tagged Tag.EV_CAPTURE_STARTED ++ Writer.u128 token_id ++ Writer.u8 (seat_to_wire seat) ++ Writer.u8 (kind_to_wire kind) ++
      Writer.u16 width ++ Writer.u16 height ++ Writer.u32 granted
  | Ev.Frame sequence timestamp_us keyframe data =>
      Writer.tagged Tag.EV_FRAME ++ Writer.u32 sequence ++ Writer.u64 timestamp_us ++ Writer.bool keyframe ++ Writer.bytes data
  | Ev.Rumble device_id strong weak => Writer.tagged Tag.EV_RUMBLE ++ Writer.u8 device_id ++ Writer.u16 strong ++ Writer.u16 weak
  | Ev.CaptureError code message => Writer.tagged Tag.EV_CAPTURE_ERROR ++ Writer.u16 code ++ Writer.bytes message
  | Ev.Closed reason => Writer.tagged Tag.EV_CLOSED ++ Writer.u16 reason
  end.

Definition broker_body (tag : Z) (r : Reader) : fallible DecodeError (BrokerEvent * Reader) :=
  if tag =? Tag.EV_HELLO then '(protocol, r) ← read_u16 r; '(bits, r) ← read_u32 r; Good (Ev.Hello protocol (Capabilities.from_bits_truncate bits), r)
  else if tag =? Tag.EV_CAPTURE_STARTED then
    '(token_id, r) ← read_u128 r;
    '(seat, r) ← read_seat r;
    '(kind, r) ← read_kind r;
    '(width, r) ← read_u16 r;
    '(height, r) ← read_u16 r;
    '(bits, r) ← read_u32 r;
    Good (Ev.CaptureStarted token_id seat kind width height (Capabilities.from_bits_truncate bits), r)
  else if tag =? Tag.EV_FRAME then
    '(sequence, r) ← read_u32 r; '(timestamp_us, r) ← read_u64 r; '(keyframe, r) ← read_bool r; '(data, r) ← read_bytes r;
    Good (Ev.Frame sequence timestamp_us keyframe data, r)
  else if tag =? Tag.EV_RUMBLE then
    '(device_id, r) ← read_u8 r; '(strong, r) ← read_u16 r; '(weak, r) ← read_u16 r; Good (Ev.Rumble device_id strong weak, r)
  else if tag =? Tag.EV_CAPTURE_ERROR then
    '(code, r) ← read_u16 r; '(message, r) ← read_bytes r; Good (Ev.CaptureError code (from_utf8_lossy message), r)
  else if tag =? Tag.EV_CLOSED then '(reason, r) ← read_u16 r; Good (Ev.Closed reason, r)
  else Bad (BadTag tag).

Definition broker_decode (bytes : list Z) : fallible DecodeError BrokerEvent :=
  '(tag, r) ← read_tag (reader_new bytes); '(m, r) ← broker_body tag r; _ ← reader_finish r; Good m.

(** ** Framing *)

Definition MAX_MESSAGE_LEN : Z := MAX_FIELD_LEN + 256.

(** What a read from the stream can end in: it closed or ran short, or the data
    are invalid. *)
Inductive FrameError := UnexpectedEof | InvalidData.

Definition write_message (body : list Z) : fallible FrameError (list Z) :=
  match try_from U32_MAX (zlen body) with
  | None => Bad InvalidData
  | Some len => Good (be_bytes 4 len ++ body)
  end.

(** [read_exact]: [n] bytes of what the stream still has to give. *)
Definition read_exact (n : Z) (stream : list Z) : fallible FrameError (list Z * list Z) :=
  if zlen stream <? n then Bad UnexpectedEof else Good (take (Z.to_nat n) stream, drop (Z.to_nat n) stream).

Definition read_message (stream : list Z) : fallible FrameError (list Z * list Z) :=
  '(len_bytes, stream) ← read_exact 4 stream;
  let len := be_val len_bytes in
  _ ← refuse (MAX_MESSAGE_LEN <? len) InvalidData;
  read_exact len stream.

Definition recv_request (stream : list Z) : fallible FrameError (ServiceRequest * list Z) :=
  '(body, stream) ← read_message stream;
  match request_decode body with Good m => Good (m, stream) | Bad _ => Bad InvalidData end.
Definition recv_event (stream : list Z) : fallible FrameError (BrokerEvent * list Z) :=
  '(body, stream) ← read_message stream;
  match broker_decode body with Good m => Good (m, stream) | Bad _ => Bad InvalidData end.
Definition send_request (m : ServiceRequest) : fallible FrameError (list Z) := write_message (request_encode m).
Definition send_event (m : BrokerEvent) : fallible FrameError (list Z) := write_message (broker_encode m).

(** ** Reading what was written *)

(** The reader stands where [rest] begins; no buffer is longer than an address
    can say. *)
Definition Rest (r : Reader) (rest : list Z) : Prop :=
  exists pre, rd_buf r = pre ++ rest /\ rd_pos r = zlen pre /\ zlen (rd_buf r) <= U64_MAX.

Lemma reader_new_rest buf : zlen buf <= U64_MAX -> Rest (reader_new buf) buf.
Proof. by exists []. Qed.

Lemma read_rest n r x rest : Rest r (x ++ rest) -> zlen x = n -> exists r', read n r = Good (x, r') /\ Rest r' rest.
Proof.
  intros (pre & Eb & Ep & Hl) <-. pose proof (zlen_nonneg pre). pose proof (zlen_nonneg x). unfold read. rewrite Eb, Ep in *. rewrite !zlen_app in Hl. pose proof (zlen_nonneg rest).
  rewrite checked_add64_some by lia. rewrite (slice_mid pre x rest) by lia. eexists. split; [done|].
  exists (pre ++ x). cbn. rewrite <- app_assoc. split; [done|]. rewrite !zlen_app. lia.
Qed.

Lemma read_be_rest (n : nat) r v rest : Rest r (be_bytes n v ++ rest) -> 0 <= v < 256 ^ Z.of_nat n -> exists r', read_be (Z.of_nat n) r = Good (v, r') /\ Rest r' rest.
Proof.
  intros H Hv. destruct (read_rest (Z.of_nat n) r _ _ H) as (r' & E & H'); [apply zlen_be_bytes|]. exists r'. split; [|done]. unfold read_be. rewrite E. cbn. by rewrite be_val_bytes.
Qed.

Definition is_u128 (z : Z) : Prop := 0 <= z < 256 ^ 16.

Lemma read_u8_rest r v rest : Rest r (v :: rest) -> is_u8 v -> exists r', read_u8 r = Good (v, r') /\ Rest r' rest.
Proof.
  intros H Hv. destruct (read_rest 1 r [v] rest H) as (r' & E & H'); [done|]. exists r'. split; [|done]. unfold read_u8, read_be. rewrite E. cbn. by rewrite Z.add_0_r.
Qed.
Lemma read_u16_rest r v rest : Rest r (Writer.u16 v ++ rest) -> is_u16 v -> exists r', read_u16 r = Good (v, r') /\ Rest r' rest.
Proof. intros H Hv. exact (read_be_rest 2 r v rest H Hv). Qed.
Lemma read_u32_rest r v rest : Rest r (Writer.u32 v ++ rest) -> is_u32 v -> exists r', read_u32 r = Good (v, r') /\ Rest r' rest.
Proof. intros H Hv. exact (read_be_rest 4 r v rest H Hv). Qed.
Lemma read_u64_rest r v rest : Rest r (Writer.u64 v ++ rest) -> is_u64 v -> exists r', read_u64 r = Good (v, r') /\ Rest r' rest.
Proof. intros H Hv. apply (read_be_rest 8 r v rest H). unfold is_u64, U64_MAX in Hv. change (256 ^ Z.of_nat 8) with 18446744073709551616. lia. Qed.
Lemma read_u128_rest r v rest : Rest r (Writer.u128 v ++ rest) -> is_u128 v -> exists r', read_u128 r = Good (v, r') /\ Rest r' rest.
Proof. intros H Hv. exact (read_be_rest 16 r v rest H Hv). Qed.

Lemma read_bool_rest r b rest : Rest r (Writer.bool b ++ rest) -> exists r', read_bool r = Good (b, r') /\ Rest r' rest.
Proof. intros H. destruct (read_u8_rest r (Z.b2z b) rest H) as (r' & E & H'); [by destruct b|]. exists r'. split; [|done]. unfold read_bool. rewrite E. by destruct b. Qed.

Lemma writer_bytes v : zlen v <= MAX_FIELD_LEN -> Writer.bytes v = Writer.u32 (zlen v) ++ v.
Proof.
  intros H. unfold Writer.bytes. pose proof (zlen_nonneg v). unfold MAX_FIELD_LEN in H. rewrite (try_from_some U32_MAX) by (unfold U32_MAX; lia). cbn [default from_option id]. rewrite Z.min_id.
  f_equal. apply firstn_all2. unfold zlen. lia.
Qed.

Lemma read_bytes_rest r v rest : Rest r (Writer.bytes v ++ rest) -> zlen v <= MAX_FIELD_LEN -> exists r', read_bytes r = Good (v, r') /\ Rest r' rest.
Proof.
  intros H Hv. rewrite (writer_bytes v Hv), <- app_assoc in H. pose proof (zlen_nonneg v). destruct (read_u32_rest r _ _ H) as (r1 & E1 & H1); [unfold is_u32, M32, MAX_FIELD_LEN in *; lia|].
  destruct (read_rest (zlen v) r1 v rest H1 eq_refl) as (r2 & E2 & H2). exists r2. split; [|done]. unfold read_bytes. rewrite E1. cbn. destruct (Z.ltb_spec MAX_FIELD_LEN (zlen v)); [lia|]. cbn. exact E2.
Qed.

Lemma read_seat_rest r s rest : Rest r (Writer.u8 (seat_to_wire s) ++ rest) -> exists r', read_seat r = Good (s, r') /\ Rest r' rest.
Proof. intros H. destruct (read_u8_rest r _ rest H) as (r' & E & H'); [by destruct s|]. exists r'. split; [|done]. unfold read_seat. rewrite E. by destruct s. Qed.
Lemma read_kind_rest r k rest : Rest r (Writer.u8 (kind_to_wire k) ++ rest) -> exists r', read_kind r = Good (k, r') /\ Rest r' rest.
Proof. intros H. destruct (read_u8_rest r _ rest H) as (r' & E & H'); [by destruct k|]. exists r'. split; [|done]. unfold read_kind. rewrite E. by destruct k. Qed.

Lemma finish_rest r : Rest r [] -> reader_finish r = Good tt.
Proof. intros (pre & Eb & Ep & _). unfold reader_finish. by rewrite Eb, Ep, app_nil_r, Z.eqb_refl. Qed.

(** Read the next field of the buffer. *)
Ltac next_field :=
  match goal with
  | H : Rest ?r (Writer.u16 ?v ++ ?l) |- context [read_u16 ?r] => destruct (read_u16_rest r v l H) as (? & -> & ?); [done|]
  | H : Rest ?r (Writer.u32 ?v ++ ?l) |- context [read_u32 ?r] => destruct (read_u32_rest r v l H) as (? & -> & ?); [done|]
  | H : Rest ?r (Writer.u64 ?v ++ ?l) |- context [read_u64 ?r] => destruct (read_u64_rest r v l H) as (? & -> & ?); [done|]
  | H : Rest ?r (Writer.u128 ?v ++ ?l) |- context [read_u128 ?r] => destruct (read_u128_rest r v l H) as (? & -> & ?); [done|]
  | H : Rest ?r (Writer.bytes ?v ++ ?l) |- context [read_bytes ?r] => destruct (read_bytes_rest r v l H) as (? & -> & ?); [done|]
  | H : Rest ?r (Writer.bool ?v ++ ?l) |- context [read_bool ?r] => destruct (read_bool_rest r v l H) as (? & -> & ?)
  | H : Rest ?r (Writer.u8 (seat_to_wire ?v) ++ ?l) |- context [read_seat ?r] => destruct (read_seat_rest r v l H) as (? & -> & ?)
  | H : Rest ?r (Writer.u8 (kind_to_wire ?v) ++ ?l) |- context [read_kind ?r] => destruct (read_kind_rest r v l H) as (? & -> & ?)
  | H : Rest ?r (Writer.u8 ?v ++ ?l) |- context [read_u8 ?r] => destruct (read_u8_rest r v l H) as (? & -> & ?); [done|]
  end; cbn [mbind fallible_bind].

Definition capabilities_valid (bits : Z) : Prop := is_u32 bits /\ Capabilities.from_bits_truncate bits = bits.

Definition request_valid (m : ServiceRequest) : Prop :=
  match m with
  | Hello protocol => is_u16 protocol
  | OpenCapture token_id grant requested p =>
      is_u128 token_id /\ zlen grant <= MAX_FIELD_LEN /\ capabilities_valid requested /\ is_u16 (cp_width p) /\ is_u16 (cp_height p) /\ is_u8 (cp_fps p) /\ is_u32 (cp_bitrate_kbps p)
  | SwitchCapture token_id _ _ => is_u128 token_id
  | SetBitrate kbps => is_u32 kbps
  | Input token_id payload => is_u128 token_id /\ zlen payload <= MAX_FIELD_LEN
  | _ => True
  end.

Definition broker_valid (m : BrokerEvent) : Prop :=
  match m with
  | Ev.Hello protocol capabilities => is_u16 protocol /\ capabilities_valid capabilities
  | Ev.CaptureStarted token_id _ _ width height granted => is_u128 token_id /\ is_u16 width /\ is_u16 height /\ capabilities_valid granted
  | Ev.Frame sequence timestamp_us _ data => is_u32 sequence /\ is_u64 timestamp_us /\ zlen data <= MAX_FIELD_LEN
  | Ev.Rumble device_id strong weak => is_u8 device_id /\ is_u16 strong /\ is_u16 weak
  | Ev.CaptureError code message => is_u16 code /\ zlen message <= MAX_FIELD_LEN /\ utf8 message = true
  | Ev.Closed reason => is_u16 reason
  end.

(** A well-formed string survives the lossy conversion. *)
Lemma lossy_valid bs : utf8 bs = true -> from_utf8_lossy bs = bs.
Proof.
  unfold from_utf8_lossy. remember (length bs) as n eqn:En. assert (Hn : (length bs <= n)%nat) by lia. clear En. revert bs Hn.
  induction n as [|n IH]; intros [|a bs] Hn Hu; [done|cbn in Hn; lia|done|]. cbn [length] in Hn. cbn [lossy_loop]. unfold utf8_next.
  cbn [utf8] in Hu. destruct (utf8_cont 0 0x7F a); [cbn; rewrite drop_0; f_equal; apply IH; [lia|done]|]. destruct bs as [|b bs]; [done|]. cbn [nth length] in *.
  destruct (utf8_cont 0xC2 0xDF a).
  { apply andb_true_iff in Hu as [-> Hu]. cbn. rewrite drop_0. do 2 f_equal. apply IH; [lia|done]. }
  destruct bs as [|c bs]; [done|]. cbn [nth length] in *. destruct (utf8_cont 0xE0 0xEF a).
  { apply andb_true_iff in Hu as [Hu Hr]. apply andb_true_iff in Hu as [-> ->]. cbn. rewrite drop_0. do 3 f_equal. apply IH; [lia|done]. }
  destruct bs as [|d bs]; [done|]. cbn [nth length] in *. rewrite !andb_true_iff in Hu. destruct Hu as ((((-> & ->) & ->) & ->) & Hu). cbn. rewrite drop_0. do 4 f_equal. apply IH; [lia|done].
Qed.

Lemma zlen_writer_bytes v : zlen v <= MAX_FIELD_LEN -> zlen (Writer.bytes v) = 4 + zlen v.
Proof. intros H. rewrite writer_bytes by done. unfold Writer.u32. zlia. Qed.

(** Unfold the writer of a length. *)
Ltac wire_len := unfold Writer.tagged, Writer.u8, Writer.u16, Writer.u32, Writer.u64, Writer.u128, Writer.bool; rewrite ?zlen_app, ?zlen_writer_bytes, ?zlen_be_bytes by done; unfold zlen, MAX_MESSAGE_LEN in *; cbn [length]; lia.

Lemma request_len m : request_valid m -> zlen (request_encode m) <= MAX_MESSAGE_LEN.
Proof.
  destruct m as [v|t g c p|t s k|v| | |t p|]; intros Hv; cbn [request_valid request_encode] in *; try (unfold MAX_MESSAGE_LEN, MAX_FIELD_LEN; wire_len).
  - destruct Hv as (_ & Hg & _). wire_len.
  - destruct Hv as (_ & Hp). wire_len.
Qed.

Lemma broker_len m : broker_valid m -> zlen (broker_encode m) <= MAX_MESSAGE_LEN.
Proof.
  destruct m; intros Hv; cbn [broker_valid broker_encode] in *; try (unfold MAX_MESSAGE_LEN, MAX_FIELD_LEN; wire_len).
  - destruct Hv as (_ & _ & Hd). wire_len.
  - destruct Hv as (_ & Hd & _). wire_len.
Qed.

Lemma message_u64 (l : list Z) : zlen l <= MAX_MESSAGE_LEN -> zlen l <= U64_MAX.
Proof. unfold MAX_MESSAGE_LEN, MAX_FIELD_LEN, U64_MAX. lia. Qed.

Lemma request_round m : request_valid m -> request_decode (request_encode m) = Good m.
Proof.
  intros Hv. pose proof (reader_new_rest _ (message_u64 _ (request_len m Hv))) as H. unfold request_decode. rewrite <- (app_nil_r (request_encode m)) in H at 2.
  destruct m as [v|t g c p|t s k|v| | |t p|]; cbn [request_valid request_encode] in *; rewrite <- ?app_assoc in H; change (Writer.tagged ?t ++ ?l) with (t :: l) in *; try change (Writer.tagged ?t) with [t] in *;
    change read_tag with read_u8; apply read_u8_rest in H as (r & -> & H); try done; cbn [mbind fallible_bind]; unfold request_body; cbn [Z.eqb Pos.eqb Tag.HELLO Tag.OPEN_CAPTURE Tag.SWITCH_CAPTURE Tag.SET_BITRATE Tag.REQUEST_KEYFRAME Tag.CLOSE_CAPTURE Tag.INPUT Tag.SHUTDOWN].
  - next_field. by rewrite finish_rest.
  - destruct Hv as (? & ? & [? Hc] & ? & ? & ? & ?). do 9 next_field. rewrite finish_rest by done. cbn. rewrite Hc. by destruct p.
  - do 3 next_field. by rewrite finish_rest.
  - next_field. by rewrite finish_rest.
  - cbn [mbind fallible_bind]. by rewrite finish_rest.
  - cbn [mbind fallible_bind]. by rewrite finish_rest.
  - destruct Hv. do 2 next_field. by rewrite finish_rest.
  - cbn [mbind fallible_bind]. by rewrite finish_rest.
Qed.

Lemma broker_round m : broker_valid m -> broker_decode (broker_encode m) = Good m.
Proof.
  intros Hv. pose proof (reader_new_rest _ (message_u64 _ (broker_len m Hv))) as H. unfold broker_decode. rewrite <- (app_nil_r (broker_encode m)) in H at 2.
  destruct m; cbn [broker_valid broker_encode] in *; rewrite <- ?app_assoc in H; change (Writer.tagged ?t ++ ?l) with (t :: l) in *; try change (Writer.tagged ?t) with [t] in *;
    change read_tag with read_u8; apply read_u8_rest in H as (r & -> & H); try done; cbn [mbind fallible_bind]; unfold broker_body; cbn [Z.eqb Pos.eqb Tag.EV_HELLO Tag.EV_CAPTURE_STARTED Tag.EV_FRAME Tag.EV_RUMBLE Tag.EV_CAPTURE_ERROR Tag.EV_CLOSED].
  - destruct Hv as (? & ? & Hc). do 2 next_field. rewrite finish_rest by done. cbn. by rewrite Hc.
  - destruct Hv as (? & ? & ? & ? & Hc). do 6 next_field. rewrite finish_rest by done. cbn. by rewrite Hc.
  - destruct Hv as (? & ? & ?). do 4 next_field. by rewrite finish_rest.
  - destruct Hv as (? & ? & ?). do 3 next_field. by rewrite finish_rest.
  - destruct Hv as (? & ? & Hu). do 2 next_field. rewrite finish_rest by done. cbn. by rewrite lossy_valid.
  - next_field. by rewrite finish_rest.
Qed.

(** ** Messages over a stream *)

Lemma read_exact_app n x rest : zlen x = n -> read_exact n (x ++ rest) = Good (x, rest).
Proof.
  intros <-. unfold read_exact. rewrite zlen_app. pose proof (zlen_nonneg rest). destruct (Z.ltb_spec (zlen x + zlen rest) (zlen x)); [lia|]. unfold zlen. rewrite Nat2Z.id. by rewrite take_app_length, drop_app_length.
Qed.

Lemma message_framed body rest : zlen body <= MAX_MESSAGE_LEN -> exists framed, write_message body = Good framed /\ read_message (framed ++ rest) = Good (body, rest).
Proof.
  intros Hb. pose proof (zlen_nonneg body). unfold write_message. rewrite try_from_some by (unfold MAX_MESSAGE_LEN, MAX_FIELD_LEN, U32_MAX in *; lia). eexists. split; [done|].
  unfold read_message. rewrite <- app_assoc. rewrite (read_exact_app 4) by apply zlen_be_bytes. cbn [mbind fallible_bind]. rewrite be_val_bytes by (unfold MAX_MESSAGE_LEN, MAX_FIELD_LEN in *; change (256 ^ Z.of_nat 4) with 4294967296; lia).
  destruct (Z.ltb_spec MAX_MESSAGE_LEN (zlen body)); [lia|]. cbn. by apply read_exact_app.
Qed.

(** The stream of a list of messages, and what is read from one. *)
Fixpoint send_all {M} (send : M -> fallible FrameError (list Z)) (ms : list M) : fallible FrameError (list Z) :=
  match ms with [] => Good [] | m :: ms => b ← send m; rest ← send_all send ms; Good (b ++ rest) end.
Fixpoint recv_all {M} (recv : list Z -> fallible FrameError (M * list Z)) (n : nat) (stream : list Z) : fallible FrameError (list M * list Z) :=
  match n with O => Good ([], stream) | S n => '(m, stream) ← recv stream; '(ms, stream) ← recv_all recv n stream; Good (m :: ms, stream) end.

Lemma stream_round {M} (send : M -> fallible FrameError (list Z)) recv (valid : M -> Prop) ms rest :
  (forall m rest, valid m -> exists b, send m = Good b /\ recv (b ++ rest) = Good (m, rest)) -> Forall valid ms ->
  exists stream, send_all send ms = Good stream /\ recv_all recv (length ms) (stream ++ rest) = Good (ms, rest).
Proof.
  intros H. induction 1 as [|m ms Hm Hms (s & Es & Er)]; [by exists []|]. destruct (H m (s ++ rest) Hm) as (b & Eb & Hb). exists (b ++ s). cbn. rewrite Eb, Es. split; [done|].
  rewrite <- app_assoc, Hb. cbn. by rewrite Er.
Qed.

(** A message of one direction read as one of the other fails on its tag. *)
Lemma read_tag_new t l : read_tag (reader_new (t :: l)) = Good (t, mkReader (t :: l) 1).
Proof.
  unfold read_tag, read_be, read, reader_new. cbn [rd_pos rd_buf]. change (checked_add64 0 1) with (Some 1). cbn iota beta.
  rewrite (slice_mid [] [t] l 0 1 eq_refl eq_refl : slice (t :: l) 0 1 = Some [t]). cbn. by rewrite Z.add_0_r.
Qed.

Lemma request_of_event e : exists tag, request_decode (broker_encode e) = Bad (BadTag tag).
Proof. unfold request_decode. destruct e; cbn [broker_encode]; change (Writer.tagged ?t ++ ?l) with (t :: l); rewrite read_tag_new; by eexists. Qed.

Lemma event_of_request m : exists tag, broker_decode (request_encode m) = Bad (BadTag tag).
Proof.
  unfold broker_decode. destruct m; cbn [request_encode]; try change (Writer.tagged ?t ++ ?l) with (t :: l); try change (Writer.tagged ?t) with [t]; rewrite read_tag_new; by eexists.
Qed.

(** (C36) What crosses the broker's socket. Any sequence of well-formed requests
    written to the stream is read back message for message, with whatever
    follows left in the stream, and any sequence of well-formed events the other
    way; no message fits both directions: one read as the other fails on its
    tag; and a length above the bound is refused before anything is read for it. *)
Theorem broker_wire_exact (requests : list ServiceRequest) (events : list BrokerEvent) (rest : list Z) :
  Forall request_valid requests -> Forall broker_valid events ->
  (exists stream, send_all send_request requests = Good stream /\ recv_all recv_request (length requests) (stream ++ rest) = Good (requests, rest)) /\
  (exists stream, send_all send_event events = Good stream /\ recv_all recv_event (length events) (stream ++ rest) = Good (events, rest)) /\
  (forall e, exists tag, request_decode (broker_encode e) = Bad (BadTag tag)) /\ (forall m, exists tag, broker_decode (request_encode m) = Bad (BadTag tag)) /\
  (forall len, MAX_MESSAGE_LEN < len -> is_u32 len -> read_message (be_bytes 4 len ++ rest) = Bad InvalidData).
Proof.
  intros Hr He. split; [|split; [|split; [|split]]].
  - apply (stream_round _ _ request_valid); [|done]. intros m rest' Hm. destruct (message_framed (request_encode m) rest' (request_len m Hm)) as (b & Eb & Er). exists b. split; [done|].
    unfold recv_request. rewrite Er. cbn. by rewrite request_round.
  - apply (stream_round _ _ broker_valid); [|done]. intros m rest' Hm. destruct (message_framed (broker_encode m) rest' (broker_len m Hm)) as (b & Eb & Er). exists b. split; [done|].
    unfold recv_event. rewrite Er. cbn. by rewrite broker_round.
  - apply request_of_event.
  - apply event_of_request.
  - intros len Hl Hu. unfold read_message. rewrite (read_exact_app 4) by apply zlen_be_bytes. cbn [mbind fallible_bind]. rewrite be_val_bytes by exact Hu. apply Z.ltb_lt in Hl. by rewrite Hl.
Qed.

Definition demo_requests : list ServiceRequest :=
  [Hello 3; OpenCapture 0 [1; 2; 3] 7 (mkParams Seat.Greeter Scanout 1920 1080 60 8000); Input 9 [79; 73]; CloseCapture].
Definition demo_events : list BrokerEvent := [Ev.Hello 3 31; Ev.Frame 1 16666 true [0; 0; 1]; Ev.CaptureError 12 [110; 111]].

Lemma broker_wire_exact_witness :
  exists stream, send_all send_request demo_requests = Good stream /\ zlen stream = 82 /\ recv_all recv_request 4 (stream ++ [7]) = Good (demo_requests, [7]).
Proof.
  destruct (broker_wire_exact demo_requests demo_events [7]) as ((s & E & H) & _).
  - repeat (apply Forall_cons_2 || apply Forall_nil_2); cbn; unfold is_u16, is_u128, is_u32, is_u8, capabilities_valid, MAX_FIELD_LEN, M32; repeat split; (vm_compute; congruence || reflexivity).
  - repeat (apply Forall_cons_2 || apply Forall_nil_2); cbn; unfold is_u16, is_u32, is_u64, capabilities_valid, MAX_FIELD_LEN, M32; repeat split; (vm_compute; congruence || reflexivity).
  - exists s. split; [exact E|]. split; [|exact H]. vm_compute in E. injection E as <-. vm_compute. reflexivity.
Defined.

(** A read that is given up keeps what it has taken off the stream: after the
    length of a frame has been read and the read abandoned, the next read takes
    the body for a length. *)
Lemma abandoned_read_desyncs :
  let frame := Ev.Frame 1 16666 true [0; 0; 1] in
  exists stream, send_event frame = Good stream /\ recv_event stream = Good (frame, []) /\ recv_event (drop 4 stream) = Bad InvalidData.
Proof. eexists. split; [vm_compute; reflexivity|]. split; vm_compute; reflexivity. Qed.
