(* ===== verification/Lifecycle.v ===== *)
(** * What is captured as the seat changes ([host-ipc/src/lifecycle.rs])

    The reducer from what the session monitor, the agent and the service see to
    what the broker must do. [perform] is what the broker's capture is left at by
    an action, and when one may be asked for. *)

From S2P Require Import Prelude Stun Fallible InputEvents Broker HostIpc.

Inductive Link := Down | Up.

#[export] Instance Link_eq_dec : EqDecision Link.
Proof. solve_decision. Defined.

Inductive Event := SeatObserved (seat : Seat) | AgentOffersPipeWire | AgentGone | PeerApproved | PeerLost.

#[export] Instance Event_eq_dec : EqDecision Event.
Proof. solve_decision. Defined.

Inductive Action :=
  | StartCapture (seat : Seat) (kind : CaptureKind)
  | SwitchCapture (seat : Seat) (kind : CaptureKind)
  | StopCapture
  | RequestKeyframe.

Record Lifecycle := mkLifecycle { lc_seat : Seat; lc_link : Link; lc_agent_pipewire : bool; lc_capturing : option (Seat * CaptureKind) }.
#[export] Instance eta_Lifecycle : Eta Lifecycle := fun l => mkLifecycle (lc_seat l) (lc_link l) (lc_agent_pipewire l) (lc_capturing l).

Definition lifecycle_new : Lifecycle := mkLifecycle Seat.Empty Down false None.

Definition desired (l : Lifecycle) : option (Seat * CaptureKind) :=
  match lc_link l with
  | Down => None
  | Up =>
      match lc_seat l with
      | Seat.Empty => None
      | Seat.Greeter => Some (Seat.Greeter, Scanout)
      | Seat.User => Some (Seat.User, if lc_agent_pipewire l then PipeWire else Scanout)
      end
  end.

Definition reconcile (l : Lifecycle) : Lifecycle * list Action :=
  match lc_capturing l, desired l with
  | None, None => (l, [])
  | Some current, Some target =>
      if bool_decide (current = target) then (l, [])
      else (l <| lc_capturing := Some target |>, [SwitchCapture target.1 target.2; RequestKeyframe])
  | None, Some target => (l <| lc_capturing := Some target |>, [StartCapture target.1 target.2; RequestKeyframe])
  | Some _, None => (l <| lc_capturing := None |>, [StopCapture])
  end.

Definition observe (event : Event) (l : Lifecycle) : Lifecycle :=
  match event with
  | SeatObserved seat =>
      let l := if negb (bool_decide (seat = Seat.User)) then l <| lc_agent_pipewire := false |> else l in
      l <| lc_seat := seat |>
  | AgentOffersPipeWire => if bool_decide (lc_seat l = Seat.User) then l <| lc_agent_pipewire := true |> else l
  | AgentGone => l <| lc_agent_pipewire := false |>
  | PeerApproved => l <| lc_link := Up |>
  | PeerLost => l <| lc_link := Down |>
  end.

Definition on (event : Event) (l : Lifecycle) : Lifecycle * list Action := reconcile (observe event l).

(** ** What the actions do *)

(** The broker's capture after an action, where it may be asked for: nothing is
    started twice, and nothing is moved, stopped or refreshed that is not live. *)
Definition perform (capture : option (Seat * CaptureKind)) (a : Action) : option (option (Seat * CaptureKind)) :=
  match a, capture with
  | StartCapture seat kind, None => Some (Some (seat, kind))
  | SwitchCapture seat kind, Some _ => Some (Some (seat, kind))
  | StopCapture, Some _ => Some None
  | RequestKeyframe, Some c => Some (Some c)
  | _, _ => None
  end.

Fixpoint perform_all (capture : option (Seat * CaptureKind)) (actions : list Action) : option (option (Seat * CaptureKind)) :=
  match actions with [] => Some capture | a :: actions => perform capture a ≫= fun c => perform_all c actions end.

(** A run: the lifecycle after a list of events, and every action asked for. *)
Fixpoint run (events : list Event) (l : Lifecycle) : Lifecycle * list Action :=
  match events with
  | [] => (l, [])
  | e :: events => let '(l, actions) := on e l in let '(l, rest) := run events l in (l, actions ++ rest)
  end.

(** ** What the events say, without a state *)

(** The seat last observed, whether a peer is approved, and whether an agent of
    the running user session offers a stream. *)
Definition seat_of (events : list Event) : Seat := fold_left (fun s e => match e with SeatObserved seat => seat | _ => s end) events Seat.Empty.
Definition link_of (events : list Event) : Link := fold_left (fun s e => match e with PeerApproved => Up | PeerLost => Down | _ => s end) events Down.

(** The event that withdraws an agent's offer. *)
Definition withdraws (e : Event) : bool :=
  match e with AgentGone => true | SeatObserved seat => negb (bool_decide (seat = Seat.User)) | _ => false end.

(** An offer stands when it was made in a user session and nothing withdrew it
    since. *)
Definition offered (events : list Event) : Prop :=
  exists before after, events = before ++ AgentOffersPipeWire :: after /\ seat_of before = Seat.User /\ Forall (fun e => withdraws e = false) after.

Lemma perform_all_app c a b : perform_all c (a ++ b) = perform_all c a ≫= fun c => perform_all c b.
Proof. revert c. induction a as [|x a IH]; intros c; [done|]. cbn. destruct (perform c x); [apply IH|done]. Qed.

Lemma seat_of_snoc events e : seat_of (events ++ [e]) = match e with SeatObserved seat => seat | _ => seat_of events end.
Proof. unfold seat_of. by rewrite fold_left_app. Qed.
Lemma link_of_snoc events e : link_of (events ++ [e]) = match e with PeerApproved => Up | PeerLost => Down | _ => link_of events end.
Proof. unfold link_of. by rewrite fold_left_app. Qed.

Lemma offered_snoc events e : offered (events ++ [e]) <-> (offered events /\ withdraws e = false) \/ (e = AgentOffersPipeWire /\ seat_of events = Seat.User).
Proof.
  split.
  - intros (before & after & E & Hs & Hf). destruct after as [|x after _] using rev_ind.
    + apply app_inj_tail in E as [-> ->]. by right.
    + rewrite app_comm_cons, app_assoc in E. apply app_inj_tail in E as [-> ->]. apply Forall_app in Hf as [Hf Hx]. left. split; [by exists before, after|]. by inversion Hx.
  - intros [((before & after & -> & Hs & Hf) & He)|[-> Hs]].
    + exists before, (after ++ [e]). split; [by rewrite <- app_assoc|]. split; [done|]. apply Forall_app. split; [done|]. by constructor.
    + exists events, []. done.
Qed.

Lemma run_snoc events e l : run (events ++ [e]) l = let '(l1, a1) := run events l in let '(l2, a2) := on e l1 in (l2, a1 ++ a2).
Proof.
  revert l. induction events as [|x events IH]; intros l; cbn.
  - destruct (on e l) as [l' a]. by rewrite app_nil_r.
  - destruct (on x l) as [l1 a1]. rewrite IH. destruct (run events l1) as [l2 a2]. destruct (on e l2) as [l3 a3]. by rewrite app_assoc.
Qed.

(** The lifecycle agrees with what the events say. *)
Record LifeInv (events : list Event) (l : Lifecycle) : Prop := mkLifeInv {
  li_seat : lc_seat l = seat_of events;
  li_link : lc_link l = link_of events;
  li_agent : lc_agent_pipewire l = true <-> offered events;
  li_user : lc_agent_pipewire l = true -> lc_seat l = Seat.User;
  li_capturing : lc_capturing l = desired l;
}.

Lemma observe_life events e l : LifeInv events l ->
  let l' := observe e l in lc_seat l' = seat_of (events ++ [e]) /\ lc_link l' = link_of (events ++ [e]) /\ (lc_agent_pipewire l' = true <-> offered (events ++ [e])) /\
    (lc_agent_pipewire l' = true -> lc_seat l' = Seat.User) /\ lc_capturing l' = lc_capturing l.
Proof.
  intros [L1 L2 L3 L4 _]. cbv zeta. rewrite seat_of_snoc, link_of_snoc, offered_snoc, <- L1, <- L2, <- L3. destruct e as [s| | | |]; unfold observe.
  - destruct s; cbn; (split; [done|split; [done|split; [|split; [|done]]]]); naive_solver.
  - case_bool_decide as E; cbn; (split; [done|split; [done|split; [|split; [|done]]]]); naive_solver.
  - cbn. (split; [done|split; [done|split; [|split; [|done]]]]); naive_solver.
  - cbn. (split; [done|split; [done|split; [|split; [|done]]]]); naive_solver.
  - cbn. (split; [done|split; [done|split; [|split; [|done]]]]); naive_solver.
Qed.

(** Reconciling brings the capture to what is desired, by actions the broker may
    be asked for. *)
Lemma reconcile_spec l : let '(l', actions) := reconcile l in
  lc_capturing l' = desired l /\ desired l' = desired l /\ lc_seat l' = lc_seat l /\ lc_link l' = lc_link l /\ lc_agent_pipewire l' = lc_agent_pipewire l /\
  perform_all (lc_capturing l) actions = Some (desired l) /\
  (forall current target, lc_capturing l = Some current -> desired l = Some target -> current <> target -> actions = [SwitchCapture target.1 target.2; RequestKeyframe]) /\
  (StopCapture ∈ actions -> desired l = None).
Proof.
  unfold reconcile. destruct (lc_capturing l) as [current|] eqn:Ec, (desired l) as [target|] eqn:Ed; [case_bool_decide as Et|..].
  - subst. rewrite Ec, Ed. do 6 (split; [done|]). split; [congruence|by intros ?%elem_of_nil].
  - destruct target as [s k]. do 6 (split; [done|]). split; [congruence|]. intros [?|[?|?%elem_of_nil]%elem_of_cons]%elem_of_cons; done.
  - do 6 (split; [done|]). split; [congruence|done].
  - destruct target as [s k]. do 6 (split; [done|]). split; [congruence|]. intros [?|[?|?%elem_of_nil]%elem_of_cons]%elem_of_cons; done.
  - rewrite Ec, Ed. do 6 (split; [done|]). split; [congruence|done].
Qed.


Lemma run_inv events : let '(l, actions) := run events lifecycle_new in LifeInv events l /\ perform_all None actions = Some (desired l).
Proof.
  induction events as [|e events IH] using rev_ind.
  - cbn. split; [|done]. split; try done. split; [done|]. intros (before & after & E & _). by destruct before.
  - rewrite run_snoc. destruct (run events lifecycle_new) as [l a]. destruct IH as [HI Hp]. pose proof (observe_life events e l HI) as (O1 & O2 & O3 & O4 & O5). unfold on.
    pose proof (reconcile_spec (observe e l)) as HR. destruct (reconcile (observe e l)) as [l' a']. destruct HR as (R1 & R2 & R3 & R4 & R5 & R6 & _). split.
    + split; [by rewrite R3|by rewrite R4|by rewrite R5|by rewrite R5, R3|congruence].
    + rewrite perform_all_app, Hp. cbn. rewrite R2, <- R6, O5. f_equal. symmetry. apply (li_capturing _ _ HI).
Qed.

(** (C34) The capture follows the seat and never the peer. Whatever the events,
    the actions asked for are each possible where they are asked for, and leave
    the broker capturing exactly what the events call for: nothing while no peer
    is approved or no session is on the seat, the greeter by scanout, a user's
    session by the agent's stream exactly while an offer made in that session
    stands. A change of what is shown while a capture is live re-points it and
    asks for a keyframe; it is stopped only when the peer is gone or the seat is
    empty. *)
Theorem lifecycle_follows_seat (events : list Event) (e : Event) :
  let '(l, actions) := run events lifecycle_new in
  perform_all None actions = Some (lc_capturing l) /\
  lc_capturing l = match link_of events, seat_of events with
                   | Down, _ | _, Seat.Empty => None
                   | Up, Seat.Greeter => Some (Seat.Greeter, Scanout)
                   | Up, Seat.User => Some (Seat.User, if lc_agent_pipewire l then PipeWire else Scanout)
                   end /\
  (lc_agent_pipewire l = true <-> offered events) /\
  (forall current target, lc_capturing l = Some current -> lc_capturing (on e l).1 = Some target -> current <> target ->
     (on e l).2 = [SwitchCapture target.1 target.2; RequestKeyframe]) /\
  (StopCapture ∈ (on e l).2 -> link_of (events ++ [e]) = Down \/ seat_of (events ++ [e]) = Seat.Empty).
Proof.
  pose proof (run_inv events) as H. destruct (run events lifecycle_new) as [l a]. destruct H as [HI Hp]. pose proof HI as [L1 L2 L3 L4 L5].
  pose proof (observe_life events e l HI) as (O1 & O2 & O3 & O4 & O5). unfold on. pose proof (reconcile_spec (observe e l)) as HR. destruct (reconcile (observe e l)) as [l' a']. destruct HR as (R1 & R2 & R3 & R4 & R5 & R6 & R7 & R8).
  split; [by rewrite L5|]. split; [rewrite L5; unfold desired; rewrite L1, L2; by destruct (link_of events), (seat_of events)|]. split; [done|]. split.
  - intros current target Hc Ht. cbn in Ht |- *. apply R7; [by rewrite O5|congruence].
  - intros Hs. cbn in Hs. apply R8 in Hs. unfold desired in Hs. rewrite O1, O2 in Hs. revert Hs. destruct (link_of (events ++ [e])); [by left|]. destruct (seat_of (events ++ [e])); by right || done.
Qed.
