(* ===== verification/Grant.v ===== *)
(** * Approvals the machine service cannot manufacture
    ([host-ipc/src/grant.rs], [token.rs])

    A session grant, the bytes its tag is computed over, its encoding, and the
    one way to read it: decoded and verified in one step. The tag is HMAC-SHA256,
    a parameter. A [String] is the list of its bytes. *)

From S2P Require Import Prelude Stun Fallible InputEvents Broker HostIpc.

Definition TAG_LEN : Z := 32.
Definition GRANT_TAG : Z := 0xA1.
(** [b"openstream/session-grant/v1"]. *)
Definition DOMAIN : list Z :=
  [0x6f; 0x70; 0x65; 0x6e; 0x73; 0x74; 0x72; 0x65; 0x61; 0x6d; 0x2f; 0x73; 0x65; 0x73; 0x73; 0x69; 0x6f; 0x6e; 0x2d; 0x67; 0x72; 0x61; 0x6e; 0x74; 0x2f; 0x76; 0x31].

Record SessionGrant := mkGrant {
  sg_session_id : list Z;
  sg_requester_device_id : list Z;
  sg_target_device_id : list Z;
  sg_capabilities : Z;
  sg_issued_at_ms : Z;
  sg_expires_at_ms : Z;
  sg_nonce : Z;
}.

#[export] Instance SessionGrant_eq_dec : EqDecision SessionGrant.
Proof. solve_decision. Defined.

Inductive GrantError := Malformed | BadTag | Expired | NotYetValid | Inverted | WrongDevice.

(** The fields after the domain string, which the tag and the encoding share. *)
Definition grant_fields (g : SessionGrant) (bits : Z) : list Z :=
  Writer.bytes (sg_session_id g) ++ Writer.bytes (sg_requester_device_id g) ++ Writer.bytes (sg_target_device_id g) ++ Writer.u32 bits ++
  Writer.u64 (sg_issued_at_ms g) ++ Writer.u64 (sg_expires_at_ms g) ++ Writer.u128 (sg_nonce g).

Definition signing_input (g : SessionGrant) : list Z :=
  Writer.tagged GRANT_TAG ++ Writer.bytes DOMAIN ++ grant_fields g (sg_capabilities g).

Definition read_string (r : Reader) : fallible GrantError (list Z * Reader) :=
  match read_bytes r with
  | Bad _ => Bad Malformed
  | Good (b, r) => if utf8 b then Good (b, r) else Bad Malformed
  end.

Definition malformed {A} (r : fallible DecodeError A) : fallible GrantError A := match r with Good a => Good a | Bad _ => Bad Malformed end.

(** The difference is gathered over the whole of both, so the time taken does
    not say where they part. *)
Definition constant_time_eq (left right : list Z) : bool :=
  if negb (zlen left =? zlen right) then false else
  fold_left (fun diff p => Z.lor diff (Z.lxor p.1 p.2)) (zip left right) 0 =? 0.

Section Mac.
Variable mac : list Z -> list Z -> list Z.

Definition tag (g : SessionGrant) (key : list Z) : list Z := mac key (signing_input g).

Definition grant_encode (g : SessionGrant) (key : list Z) : list Z :=
  Writer.tagged GRANT_TAG ++ grant_fields g (sg_capabilities g) ++ Writer.bytes (tag g key).

Definition decode_and_verify (bytes key : list Z) (now_ms : Z) (this_device_id : list Z) : fallible GrantError SessionGrant :=
  '(t, r) ← malformed (read_tag (reader_new bytes));
  _ ← refuse (negb (t =? GRANT_TAG)) Malformed;
  '(session_id, r) ← read_string r;
  '(requester_device_id, r) ← read_string r;
  '(target_device_id, r) ← read_string r;
  '(bits, r) ← malformed (read_u32 r);
  '(issued_at_ms, r) ← malformed (read_u64 r);
  '(expires_at_ms, r) ← malformed (read_u64 r);
  '(nonce, r) ← malformed (read_u128 r);
  let grant := mkGrant session_id requester_device_id target_device_id (Capabilities.from_bits_truncate bits) issued_at_ms expires_at_ms nonce in
  '(presented, r) ← malformed (read_bytes r);
  _ ← malformed (reader_finish r);
  _ ← refuse (negb (zlen presented =? TAG_LEN)) Malformed;
  _ ← refuse (negb (constant_time_eq presented (tag grant key))) BadTag;
  _ ← refuse (expires_at_ms <? issued_at_ms) Inverted;
  _ ← refuse (now_ms <? issued_at_ms) NotYetValid;
  _ ← refuse (expires_at_ms <? now_ms) Expired;
  _ ← refuse (negb (bool_decide (target_device_id = this_device_id))) WrongDevice;
  Good grant.

End Mac.

(** ** The capability the broker issues ([token.rs]) *)

Definition NO_GRANT : Z := 0.

Record SessionToken := mkToken { tk_id : Z; tk_capabilities : Z }.

Definition token_grant (id requested ceiling : Z) : SessionToken := mkToken id (Capabilities.clamped_to requested ceiling).
Definition token_allows (t : SessionToken) (capability : Z) : bool := Capabilities.contains (tk_capabilities t) capability.

(** ** Comparing tags *)

Lemma fold_diff l d : fold_left (fun diff (p : Z * Z) => Z.lor diff (Z.lxor p.1 p.2)) l d = 0 <-> d = 0 /\ Forall (fun p => p.1 = p.2) l.
Proof.
  revert d. induction l as [|p l IH]; intros d; cbn; [by split; [|intros []]|]. rewrite IH, Z.lor_eq_0_iff, Z.lxor_eq_0_iff. rewrite list.Forall_cons. tauto.
Qed.

Lemma constant_time_eq_spec l k : constant_time_eq l k = true <-> l = k.
Proof.
  unfold constant_time_eq. destruct (Z.eqb_spec (zlen l) (zlen k)) as [El|Hne]; cbn [negb]; [|split; [done|intros ->; done]].
  rewrite Z.eqb_eq, fold_diff. assert (Hl : length l = length k) by (unfold zlen in El; lia). clear El. split.
  - intros [_ H]. revert k Hl H. induction l as [|x l IH]; intros [|y k] Hl H; try done. cbn in *. apply list.Forall_cons in H as [H1 H2]. cbn in H1. f_equal; [done|]. apply IH; [lia|done].
  - intros ->. split; [done|]. clear Hl. induction k as [|y k IH]; constructor; done.
Qed.

(** ** What a read says of the buffer *)

Lemma read_inv n r l x r' : Rest r l -> read n r = Good (x, r') -> exists rest, l = x ++ rest /\ zlen x = n /\ Rest r' rest.
Proof.
  intros (pre & Eb & Ep & Hl) E. unfold read, checked_add64 in E. destruct (rd_pos r + n <=? U64_MAX) eqn:Ec; [|done]. destruct (slice (rd_buf r) (rd_pos r) (rd_pos r + n)) as [s|] eqn:Es; [|done]. injection E as <- <-.
  pose proof (zlen_slice _ _ _ _ Es) as Hn. apply slice_inv in Es as (_ & _ & _ & Hs). rewrite Eb, Ep in Hs. replace (zlen pre + n - zlen pre) with n in Hs by lia.
  assert (Hd : drop (Z.to_nat (zlen pre)) (pre ++ l) = l) by (unfold zlen; rewrite Nat2Z.id; apply drop_app_length). rewrite Hd in Hs. exists (drop (Z.to_nat n) l).
  split; [by rewrite Hs, take_drop|]. split; [lia|]. exists (pre ++ s). cbn. rewrite <- app_assoc, zlen_app. rewrite Hs at 1. rewrite take_drop. split; [done|]. split; [lia|done].
Qed.

(** The fields of a grant, read back from bytes. *)
Lemma read_be_inv (n : nat) r l v r' : bytes_ok l -> Rest r l -> read_be (Z.of_nat n) r = Good (v, r') ->
  exists rest, l = be_bytes n v ++ rest /\ 0 <= v < 256 ^ Z.of_nat n /\ bytes_ok rest /\ Rest r' rest.
Proof.
  intros Hb HR E. unfold read_be in E. apply bind_good in E as ([b r1] & E & Ev). injection Ev as <- <-. destruct (read_inv _ _ _ _ _ HR E) as (rest & -> & Hl & HR'). apply bytes_ok_app in Hb as [Hb Hr].
  exists rest. pose proof (be_val_range b Hb) as Hv. rewrite Hl in Hv. rewrite be_bytes_val by (done || (unfold zlen in Hl; lia)). done.
Qed.

Lemma read_bytes_inv r l v r' : bytes_ok l -> Rest r l -> read_bytes r = Good (v, r') ->
  exists rest, l = Writer.bytes v ++ rest /\ zlen v <= MAX_FIELD_LEN /\ bytes_ok v /\ bytes_ok rest /\ Rest r' rest.
Proof.
  intros Hb HR E. unfold read_bytes in E. apply bind_good in E as ([len r1] & E1 & E). destruct (read_be_inv 4 _ _ _ _ Hb HR E1) as (l1 & -> & Hlen & Hb1 & HR1).
  apply bind_good in E as ([] & Hle%refuse_good & E). apply Z.ltb_ge in Hle. destruct (read_inv _ _ _ _ _ HR1 E) as (rest & -> & <- & HR2). apply bytes_ok_app in Hb1 as [Hv Hrest].
  exists rest. rewrite writer_bytes by done. unfold Writer.u32. by rewrite <- app_assoc.
Qed.

Lemma malformed_good {A} (r : fallible DecodeError A) a : malformed r = Good a <-> r = Good a.
Proof. destruct r; cbn; split; congruence. Qed.

Lemma read_string_inv r l v r' : bytes_ok l -> Rest r l -> read_string r = Good (v, r') ->
  exists rest, l = Writer.bytes v ++ rest /\ zlen v <= MAX_FIELD_LEN /\ bytes_ok v /\ utf8 v = true /\ bytes_ok rest /\ Rest r' rest.
Proof.
  intros Hb HR E. unfold read_string in E. destruct (read_bytes r) as [[b r1]|] eqn:Er; [|done]. destruct (utf8 b) eqn:Eu; [|done]. injection E as <- <-.
  destruct (read_bytes_inv _ _ _ _ Hb HR Er) as (rest & H1 & H2 & H3 & H4 & H5). by exists rest.
Qed.

Definition string_valid (v : list Z) : Prop := zlen v <= MAX_FIELD_LEN /\ bytes_ok v /\ utf8 v = true.

Definition grant_valid (g : SessionGrant) : Prop :=
  string_valid (sg_session_id g) /\ string_valid (sg_requester_device_id g) /\ string_valid (sg_target_device_id g) /\ capabilities_valid (sg_capabilities g) /\
  is_u64 (sg_issued_at_ms g) /\ is_u64 (sg_expires_at_ms g) /\ is_u128 (sg_nonce g).

(** Two writings of a byte string that begin the same buffer are one. *)
Lemma be_bytes_eq n a b : 0 <= a < 256 ^ Z.of_nat n -> 0 <= b < 256 ^ Z.of_nat n -> be_bytes n a = be_bytes n b -> a = b.
Proof. intros Ha Hb E. rewrite <- (be_val_bytes n a), <- (be_val_bytes n b) by done. by rewrite E. Qed.

Lemma be_prefix n a b k k' : 0 <= a < 256 ^ Z.of_nat n -> 0 <= b < 256 ^ Z.of_nat n -> be_bytes n a ++ k = be_bytes n b ++ k' -> a = b /\ k = k'.
Proof.
  intros Ha Hb E. apply app_inj_1 in E as [E1 E2]; [|pose proof (zlen_be_bytes n a); pose proof (zlen_be_bytes n b); unfold zlen in *; lia]. split; [by apply (be_bytes_eq n)|done].
Qed.

Lemma bytes_prefix v v' k k' : zlen v <= MAX_FIELD_LEN -> zlen v' <= MAX_FIELD_LEN -> Writer.bytes v ++ k = Writer.bytes v' ++ k' -> v = v' /\ k = k'.
Proof.
  intros Hv Hv' E. rewrite !writer_bytes in E by done. pose proof (zlen_nonneg v). pose proof (zlen_nonneg v'). unfold Writer.u32 in E. rewrite <- !app_assoc in E.
  apply be_prefix in E as [El E]; [|unfold MAX_FIELD_LEN in *; change (256 ^ Z.of_nat 4) with 4294967296; lia..]. apply app_inj_1 in E as [-> ->]; [done|unfold zlen in El; lia].
Qed.

(** Every field is under the tag, and no two grants have the same input: the
    length prefixes keep one field from running into the next. *)
Lemma signing_input_inj g g' : grant_valid g -> grant_valid g' -> signing_input g = signing_input g' -> g = g'.
Proof.
  destruct g as [s q t c i e n], g' as [s' q' t' c' i' e' n']. intros H H' E. unfold grant_valid, string_valid, capabilities_valid, is_u32, is_u64, U64_MAX, is_u128 in H, H'. cbn in H, H'.
  unfold signing_input, grant_fields in E. cbn [sg_session_id sg_requester_device_id sg_target_device_id sg_capabilities sg_issued_at_ms sg_expires_at_ms sg_nonce] in E.
  apply app_inv_head, app_inv_head in E. apply bytes_prefix in E as [-> E]; [|tauto..]. apply bytes_prefix in E as [-> E]; [|tauto..]. apply bytes_prefix in E as [-> E]; [|tauto..].
  apply (be_prefix 4) in E as [-> E]; [|tauto..]. apply (be_prefix 8) in E as [-> E]; [|change (256 ^ Z.of_nat 8) with 18446744073709551616; lia..].
  apply (be_prefix 8) in E as [-> E]; [|change (256 ^ Z.of_nat 8) with 18446744073709551616; lia..]. apply (be_bytes_eq 16) in E as ->; [done|tauto..].
Qed.

Lemma truncate_valid bits : is_u32 bits -> capabilities_valid (Capabilities.from_bits_truncate bits).
Proof.
  intros Hb. unfold capabilities_valid, Capabilities.from_bits_truncate. rewrite <- Z.land_assoc. change (Z.land Capabilities.KNOWN Capabilities.KNOWN) with Capabilities.KNOWN. split; [|done].
  change Capabilities.KNOWN with (Z.ones 5). rewrite Z.land_ones by lia. pose proof (Z.mod_pos_bound bits (2 ^ 5) ltac:(lia)). unfold is_u32, M32. lia.
Qed.

Lemma read_string_rest r v rest : Rest r (Writer.bytes v ++ rest) -> string_valid v -> exists r', read_string r = Good (v, r') /\ Rest r' rest.
Proof. intros H (Hl & _ & Hu). destruct (read_bytes_rest r v rest H Hl) as (r' & E & H'). exists r'. split; [|done]. unfold read_string. by rewrite E, Hu. Qed.

(** What is accepted encodes a grant. *)
Lemma decode_inv (mac : list Z -> list Z -> list Z) (bytes key : list Z) (now_ms : Z) (device : list Z) (g : SessionGrant) :
  bytes_ok bytes -> zlen bytes <= U64_MAX -> decode_and_verify mac bytes key now_ms device = Good g ->
  grant_valid g /\ sg_issued_at_ms g <= now_ms <= sg_expires_at_ms g /\ sg_target_device_id g = device /\
  exists bits, is_u32 bits /\ Capabilities.from_bits_truncate bits = sg_capabilities g /\
     bytes = Writer.tagged GRANT_TAG ++ grant_fields g bits ++ Writer.bytes (tag mac g key).
Proof.
  intros Hb Hl E. unfold decode_and_verify in E. apply bind_good in E as ([t r0] & E0%malformed_good & E). pose proof (reader_new_rest bytes Hl) as HR. destruct (read_be_inv 1 _ _ _ _ Hb HR E0) as (l0 & Eb & Ht & Hb0 & HR0).
  apply bind_good in E as ([] & Ht'%refuse_good & E). apply negb_false_iff, Z.eqb_eq in Ht'. subst t. clear HR E0.
  apply bind_good in E as ([s r1] & E1 & E). destruct (read_string_inv _ _ _ _ Hb0 HR0 E1) as (l1 & -> & S1 & S2 & S3 & Hb1 & HR1).
  apply bind_good in E as ([q r2] & E2 & E). destruct (read_string_inv _ _ _ _ Hb1 HR1 E2) as (l2 & -> & Q1 & Q2 & Q3 & Hb2 & HR2).
  apply bind_good in E as ([d r3] & E3 & E). destruct (read_string_inv _ _ _ _ Hb2 HR2 E3) as (l3 & -> & D1 & D2 & D3 & Hb3 & HR3).
  apply bind_good in E as ([bits r4] & E4%malformed_good & E). destruct (read_be_inv 4 _ _ _ _ Hb3 HR3 E4) as (l4 & -> & B1 & Hb4 & HR4).
  apply bind_good in E as ([i r5] & E5%malformed_good & E). destruct (read_be_inv 8 _ _ _ _ Hb4 HR4 E5) as (l5 & -> & I1 & Hb5 & HR5).
  apply bind_good in E as ([e r6] & E6%malformed_good & E). destruct (read_be_inv 8 _ _ _ _ Hb5 HR5 E6) as (l6 & -> & X1 & Hb6 & HR6).
  apply bind_good in E as ([n r7] & E7%malformed_good & E). destruct (read_be_inv 16 _ _ _ _ Hb6 HR6 E7) as (l7 & -> & N1 & Hb7 & HR7). cbv zeta in E.
  apply bind_good in E as ([p r8] & E8%malformed_good & E). destruct (read_bytes_inv _ _ _ _ Hb7 HR7 E8) as (l8 & -> & P1 & P2 & Hb8 & HR8).
  apply bind_good in E as ([] & E9%malformed_good & E). apply refuse_good, negb_false_iff, Z.eqb_eq in E9. destruct HR8 as (pre & Epre & Epos & _). rewrite Epre, Epos, zlen_app in E9.
  destruct l8 as [|x l8]; [clear E9|rewrite zlen_cons in E9; pose proof (zlen_nonneg l8); lia].
  good_inv. repeat match goal with H : negb _ = false |- _ => apply negb_false_iff in H end. bool_prop.
  match goal with H : constant_time_eq _ _ = true |- _ => apply constant_time_eq_spec in H; subst p end. try match goal with H : bool_decide (_ = _) = true |- _ => apply bool_decide_eq_true in H end.
  subst g. cbn [sg_issued_at_ms sg_expires_at_ms sg_target_device_id sg_capabilities]. split; [|split; [lia|split; [done|]]].
  - unfold grant_valid, string_valid. cbn. change (256 ^ Z.of_nat 8) with 18446744073709551616 in *. split; [done|]. split; [done|]. split; [done|]. split; [apply truncate_valid; exact B1|]. split; [unfold is_u64, U64_MAX; lia|]. split; [unfold is_u64, U64_MAX; lia|exact N1].
  - exists bits. split; [exact B1|]. split; [done|]. rewrite Eb. unfold grant_fields. cbn [sg_session_id sg_requester_device_id sg_target_device_id sg_issued_at_ms sg_expires_at_ms sg_nonce]. rewrite app_nil_r. by rewrite <- !app_assoc.
Qed.

(** What encodes a grant, in its window and for this machine, is accepted. *)
Lemma decode_encoded (mac : list Z -> list Z -> list Z) (bytes key : list Z) (now_ms : Z) (device : list Z) (g : SessionGrant) :
  (forall k m, zlen (mac k m) = TAG_LEN) -> zlen bytes <= U64_MAX ->
  grant_valid g /\ sg_issued_at_ms g <= now_ms <= sg_expires_at_ms g /\ sg_target_device_id g = device /\
  (exists bits, is_u32 bits /\ Capabilities.from_bits_truncate bits = sg_capabilities g /\
     bytes = Writer.tagged GRANT_TAG ++ grant_fields g bits ++ Writer.bytes (tag mac g key)) ->
  decode_and_verify mac bytes key now_ms device = Good g.
Proof.
  intros Hmac Hl (Hg & Hw & Hd & bits & Hbits & Hc & Eb). pose proof (reader_new_rest bytes Hl) as H. rewrite Eb in H at 2. unfold grant_fields in H. rewrite <- !app_assoc in H. rewrite <- (app_nil_r (Writer.bytes (tag mac g key))) in H.
  destruct g as [s q d c i e n]. destruct Hg as (S1 & Q1 & D1 & C1 & I1 & X1 & N1). cbn [sg_session_id sg_requester_device_id sg_target_device_id sg_issued_at_ms sg_expires_at_ms sg_nonce sg_capabilities] in *.
  unfold decode_and_verify. change (Writer.tagged GRANT_TAG ++ ?l) with (GRANT_TAG :: l) in H. change read_tag with read_u8. apply read_u8_rest in H as (r & -> & H); [|done]. cbn [mbind fallible_bind malformed].
  change (negb (GRANT_TAG =? GRANT_TAG)) with false. cbn [refuse mbind fallible_bind].
  do 3 (apply read_string_rest in H as (? & -> & H); [|done]; cbn [mbind fallible_bind]).
  apply read_u32_rest in H as (? & -> & H); [|done]. cbn [mbind fallible_bind malformed]. do 2 (apply read_u64_rest in H as (? & -> & H); [|done]; cbn [mbind fallible_bind malformed]).
  apply read_u128_rest in H as (? & -> & H); [|done]. cbn [mbind fallible_bind malformed]. rewrite Hc. assert (Ht : zlen (tag mac (mkGrant s q d c i e n) key) = TAG_LEN) by apply Hmac.
  apply read_bytes_rest in H as (? & -> & H); [|rewrite Ht; done]. cbn [mbind fallible_bind malformed]. rewrite finish_rest by done. cbn [mbind fallible_bind malformed]. rewrite Ht. change (negb (TAG_LEN =? TAG_LEN)) with false.
  cbn [refuse mbind fallible_bind]. rewrite (proj2 (constant_time_eq_spec _ _) eq_refl). cbn [negb refuse mbind fallible_bind].
  destruct (Z.ltb_spec e i); [lia|]. destruct (Z.ltb_spec now_ms i); [lia|]. destruct (Z.ltb_spec e now_ms); [lia|]. rewrite bool_decide_true by done. done.
Qed.

(** (C35) A grant says who approved what, or nothing. Bytes are taken as a grant
    exactly when they encode a well-formed grant - up to capability bits that do
    not exist - with the tag the holder of this machine's key computes over all
    of its fields, the present lies in its window and it names this machine; and
    no two grants have the same bytes under the tag, so a tag for one is never
    one for another. *)
Theorem grant_verifies_exactly (mac : list Z -> list Z -> list Z) (bytes key : list Z) (now_ms : Z) (device : list Z) (g : SessionGrant) :
  (forall k m, zlen (mac k m) = TAG_LEN) -> bytes_ok bytes -> zlen bytes <= U64_MAX ->
  (decode_and_verify mac bytes key now_ms device = Good g <->
   grant_valid g /\ sg_issued_at_ms g <= now_ms <= sg_expires_at_ms g /\ sg_target_device_id g = device /\
   exists bits, is_u32 bits /\ Capabilities.from_bits_truncate bits = sg_capabilities g /\
     bytes = Writer.tagged GRANT_TAG ++ grant_fields g bits ++ Writer.bytes (tag mac g key)) /\
  (forall g', grant_valid g -> grant_valid g' -> signing_input g' = signing_input g -> g' = g).
Proof.
  intros Hmac Hb Hl. split; [|intros g' Hg Hg' E; by apply signing_input_inj]. split; [by apply decode_inv|by apply decode_encoded].
Qed.

(** A grant that verifies is in its window. *)
Lemma verified_window mac bytes key now_ms device g : decode_and_verify mac bytes key now_ms device = Good g -> sg_issued_at_ms g <= now_ms <= sg_expires_at_ms g.
Proof.
  intros E. unfold decode_and_verify in E. repeat (apply bind_good in E as ([? ?] & _ & E); try (apply bind_good in E as ([] & _ & E))). cbv zeta in E.
  good_inv. subst g. bool_prop. cbn. lia.
Qed.

(** The time decides whether, never what. *)
Lemma verified_same mac bytes key t t' device g g' : decode_and_verify mac bytes key t device = Good g -> decode_and_verify mac bytes key t' device = Good g' -> g = g'.
Proof.
  intros E E'. unfold decode_and_verify in E, E'. cbv zeta in E, E'.
  repeat (apply bind_good in E as (? & ? & E); apply bind_good in E' as (? & ? & E'); simplify_eq; repeat match goal with x : _ * _ |- _ => destruct x end). congruence.
Qed.

(** A stand-in for the keyed hash, to evaluate on. *)
Definition demo_mac (key message : list Z) : list Z := replicate 31 (zlen key mod 256) ++ [foldr Z.add 0 message mod 256].
Definition demo_grant : SessionGrant := mkGrant [115; 49] [100; 49] [100; 50] 7 1000 2000 99.

Lemma grant_verifies_exactly_witness :
  decode_and_verify demo_mac (grant_encode demo_mac demo_grant [1; 2]) [1; 2] 1500 [100; 50] = Good demo_grant /\
  decode_and_verify demo_mac (grant_encode demo_mac demo_grant [1; 2]) [1; 2] 2500 [100; 50] <> Good demo_grant.
Proof.
  assert (Hm : forall k m, zlen (demo_mac k m) = TAG_LEN) by (intros k m; reflexivity).
  assert (Hb : bytes_ok (grant_encode demo_mac demo_grant [1; 2])) by (apply bytes_ok_b; vm_compute; reflexivity).
  assert (Hl : zlen (grant_encode demo_mac demo_grant [1; 2]) <= U64_MAX) by (vm_compute; congruence).
  split.
  - apply (proj2 (proj1 (grant_verifies_exactly demo_mac _ [1; 2] 1500 [100; 50] demo_grant Hm Hb Hl))). split; [|split; [split; vm_compute; congruence|split; [reflexivity|]]].
    + unfold grant_valid, string_valid, capabilities_valid, is_u32, is_u64, is_u128. cbn. repeat split; try (apply bytes_ok_b; vm_compute; reflexivity); vm_compute; congruence.
    + exists 7. split; [split; vm_compute; congruence|]. split; reflexivity.
  - intros E. apply (proj1 (proj1 (grant_verifies_exactly demo_mac _ [1; 2] 2500 [100; 50] demo_grant Hm Hb Hl))) in E as (_ & [_ E] & _). vm_compute in E. congruence.
Defined.
