(* ===== verification/BrokerSession.v ===== *)
(** * The broker's sessions ([host-broker/src/session.rs], [device.rs];
    [machine-service/src/main.rs])

    One service connection's state machine: the handshake, the approval checked
    on every open, the ceilings on what is granted, the lease that ties an
    approval to one connection. The two device traits are classes; the clock and
    the entropy are arguments of a step. [World] is the server: connections come
    and go and share the leases. [Service] is the machine service driving one
    connection from the capture lifecycle, with what is on the socket between
    the two; the branches of their loops come in any order. *)

From Stdlib Require Import String.
From stdpp Require Import gmap.
From S2P Require Import Prelude Stun Fallible Init InputMaps Inject InputEvents Broker Lifecycle Grant HostIpc.
Open Scope Z_scope.

(** ** The devices ([device.rs]) *)

Record OpenedCapture := mkOpened { op_width : Z; op_height : Z }.
Record EncodedFrame := mkEncoded { ef_sequence : Z; ef_timestamp_us : Z; ef_keyframe : bool; ef_data : list Z }.
Record CaptureFailure := mkFailure { cf_code : Z; cf_message : list Z }.

Class FrameSource (F : Type) := mkFrameSource {
  open : CaptureParams -> F -> F * fallible CaptureFailure OpenedCapture;
  switch : Seat -> CaptureKind -> F -> F * fallible CaptureFailure OpenedCapture;
  set_bitrate : Z -> F -> F;
  request_keyframe : F -> F;
  next_frame : F -> F * option EncodedFrame;
  close : F -> F;
}.

Class InputSink (I : Type) := mkInputSink {
  sink_inject : list Z -> Z -> I -> I;
  sink_take_rumble : I -> I * option RumbleOut;
}.

(** The native sink, with the time its clock reads and what its pads report. *)
Record NativeInput := mkNative { ni_sink : NativeInputSink; ni_now_us : Z; ni_pending : list Rumble }.

#[export] Instance native_input : InputSink NativeInput := mkInputSink NativeInput
  (fun payload granted n => mkNative (inject payload granted (ni_now_us n) (ni_sink n)) (ni_now_us n) (ni_pending n))
  (fun n => let '(sink, out) := take_rumble (ni_now_us n) (head (ni_pending n)) (ni_sink n) in (mkNative sink (ni_now_us n) (tail (ni_pending n)), out)).

(** ** Reasons, policy, authority *)

Module Code.
Definition PROTOCOL_VERSION : Z := 10.
Definition PROTOCOL_VIOLATION : Z := 11.
Definition UNAUTHORISED : Z := 12.
Definition CLOSED_ON_REQUEST : Z := 0.
End Code.

Record GrantAuthority := mkAuthority { au_key : list Z; au_device_id : list Z }.

Definition authority_unconfigured : GrantAuthority := mkAuthority [] [].
Definition is_configured (a : GrantAuthority) : bool := negb (bool_decide (au_key a = [])) && negb (bool_decide (au_device_id a = [])).

(** ** Leases *)

Record Lease := mkLease { ls_nonce : Z; ls_session_id : list Z; ls_expires_at_ms : Z; ls_holder : option Z }.
#[export] Instance eta_Lease : Eta Lease := fun l => mkLease (ls_nonce l) (ls_session_id l) (ls_expires_at_ms l) (ls_holder l).

Definition SessionLeases := list Lease.

Inductive LeaseOutcome := Granted | Reattached | HeldElsewhere | SessionMismatch.

#[export] Instance LeaseOutcome_eq_dec : EqDecision LeaseOutcome.
Proof. solve_decision. Defined.

Definition acquire (nonce : Z) (session_id : list Z) (expires_at_ms now_ms connection : Z) (leases : SessionLeases) : SessionLeases * LeaseOutcome :=
  let entries := filter (fun lease => now_ms <= ls_expires_at_ms lease) leases in
  match list_find (fun lease => ls_nonce lease = nonce) entries with
  | Some (at_, lease) =>
      if negb (bool_decide (ls_session_id lease = session_id)) then (entries, SessionMismatch) else
      match ls_holder lease with
      | Some holder => if holder =? connection then (entries, Reattached) else (entries, HeldElsewhere)
      | None => (<[at_ := lease <| ls_holder := Some connection |>]> entries, Reattached)
      end
  | None => (entries ++ [mkLease nonce session_id expires_at_ms (Some connection)], Granted)
  end.

Definition release (connection : Z) (leases : SessionLeases) : SessionLeases :=
  map (fun lease => if bool_decide (ls_holder lease = Some connection) then lease <| ls_holder := None |> else lease) leases.

(** ** What may be granted *)

Definition seat_ceiling (seat : Seat) : Z :=
  match seat with
  | Seat.Greeter => Capabilities.with_ (Capabilities.with_ Capabilities.CAPTURE Capabilities.KEYBOARD) Capabilities.MOUSE
  | Seat.Empty => Capabilities.CAPTURE
  | Seat.User => Capabilities.all
  end.

Definition effective_grant (requested ceiling : Z) (seat : Seat) : Z :=
  Capabilities.clamped_to (Capabilities.clamped_to requested ceiling) (seat_ceiling seat).

(** ** One connection *)

Record BrokerSession := mkSession {
  bs_ceiling : Z;
  bs_handshaken : bool;
  bs_done : bool;
  bs_capturing : bool;
  bs_requested : Z;
  bs_granted : Z;
  bs_seat : Seat;
  bs_grant : option SessionToken;
  bs_authority : GrantAuthority;
  bs_connection : Z;
  bs_approved_capabilities : Z;
  bs_session_id : option (list Z);
}.
#[export] Instance eta_BrokerSession : Eta BrokerSession := fun s =>
  mkSession (bs_ceiling s) (bs_handshaken s) (bs_done s) (bs_capturing s) (bs_requested s) (bs_granted s) (bs_seat s) (bs_grant s) (bs_authority s)
    (bs_connection s) (bs_approved_capabilities s) (bs_session_id s).

Definition session_new (ceiling : Z) (authority : GrantAuthority) (connection : Z) : BrokerSession :=
  mkSession ceiling false false false Capabilities.none Capabilities.none Seat.Empty None authority connection Capabilities.none None.

(** A connection with its own devices. *)
Record Conn (F I : Type) := mkConn { cn_session : BrokerSession; cn_frames : F; cn_input : I }.
Arguments mkConn {F I}.
Arguments cn_session {F I}.
Arguments cn_frames {F I}.
Arguments cn_input {F I}.
#[export] Instance eta_Conn {F I} : Eta (Conn F I) := fun c => mkConn (cn_session c) (cn_frames c) (cn_input c).

Definition capture_error (code : Z) (message : string) : list BrokerEvent := [Ev.CaptureError code (bytes_of message)].
Definition failed (failure : CaptureFailure) : list BrokerEvent := [Ev.CaptureError (cf_code failure) (cf_message failure)].

Definition authorised (token_id : Z) (s : BrokerSession) : bool :=
  negb (token_id =? NO_GRANT) && match bs_grant s with Some grant => tk_id grant =? token_id | None => false end.

Definition handle_handshake (request : ServiceRequest) (s : BrokerSession) : BrokerSession * list BrokerEvent :=
  match request with
  | Hello protocol =>
      if protocol =? PROTOCOL_VERSION then (s <| bs_handshaken := true |>, [Ev.Hello PROTOCOL_VERSION (bs_ceiling s)])
      else (s <| bs_done := true |>, capture_error Code.PROTOCOL_VERSION "unsupported protocol version")
  | _ => (s <| bs_done := true |>, capture_error Code.PROTOCOL_VIOLATION "expected Hello before any other request")
  end.

(** Pull until nothing is ready: what came out, if it ended in [fuel] rounds. *)
Fixpoint drain {S A} (fuel : nat) (next : S -> S * option A) (s : S) : option (S * list A) :=
  match fuel with
  | O => None
  | Datatypes.S fuel =>
      match next s with
      | (s, None) => Some (s, [])
      | (s, Some a) => '(s, rest) ← drain fuel next s; Some (s, a :: rest)
      end
  end.

Section Broker.
Variable mac : list Z -> list Z -> list Z.

(** [verify_approval]: the approval, if it stands, and the leases after. *)
Definition verify_approval (now : Z) (encoded : list Z) (leases : SessionLeases) (s : BrokerSession) : SessionLeases * option SessionGrant :=
  if negb (is_configured (bs_authority s)) then (leases, None) else
  match decode_and_verify mac encoded (au_key (bs_authority s)) now (au_device_id (bs_authority s)) with
  | Bad _ => (leases, None)
  | Good approved =>
      let '(leases, outcome) := acquire (sg_nonce approved) (sg_session_id approved) (sg_expires_at_ms approved) now (bs_connection s) leases in
      match outcome with
      | Granted | Reattached => (leases, Some approved)
      | HeldElsewhere | SessionMismatch => (leases, None)
      end
  end.

Context {F I : Type} `{FrameSource F} `{InputSink I}.

(** The part of [OpenCapture] after the approval: [fresh] is what the entropy
    source gives if a capability is minted. *)
Definition open_approved (fresh requested : Z) (params : CaptureParams) (approved : SessionGrant) (c : Conn F I) : Conn F I * list BrokerEvent :=
  let s := cn_session c in
  if match bs_session_id s with Some existing => negb (bool_decide (existing = sg_session_id approved)) | None => false end
  then (c, capture_error Code.UNAUTHORISED "this connection is serving a different session") else
  let s := s <| bs_session_id := Some (sg_session_id approved) |> in
  let ceiling := effective_grant (sg_capabilities approved) (bs_ceiling s) (cp_seat params) in
  match (match bs_grant s with
         | Some existing => Some existing
         | None => if fresh =? NO_GRANT then None else Some (token_grant fresh requested ceiling)
         end) with
  | None => (c <| cn_session := s |>, capture_error Code.UNAUTHORISED "could not issue a session grant")
  | Some grant =>
      let s := s <| bs_grant := Some grant |> <| bs_requested := requested |> <| bs_approved_capabilities := sg_capabilities approved |>
                 <| bs_seat := cp_seat params |> <| bs_granted := Capabilities.clamped_to requested ceiling |> in
      let '(frames, opened) := open params (cn_frames c) in
      match opened with
      | Good opened =>
          (mkConn (s <| bs_capturing := true |>) frames (cn_input c),
           [Ev.CaptureStarted (tk_id grant) (cp_seat params) (cp_kind params) (op_width opened) (op_height opened) (bs_granted s)])
      | Bad failure => (mkConn (s <| bs_capturing := false |>) frames (cn_input c), failed failure)
      end
  end.

Definition open_capture (now fresh token_id : Z) (approval : list Z) (requested : Z) (params : CaptureParams) (leases : SessionLeases) (c : Conn F I)
    : SessionLeases * Conn F I * list BrokerEvent :=
  if negb (token_id =? NO_GRANT) && negb (authorised token_id (cn_session c))
  then (leases, c, capture_error Code.UNAUTHORISED "unknown session grant") else
  match verify_approval now approval leases (cn_session c) with
  | (leases, None) => (leases, c, capture_error Code.UNAUTHORISED "no session approval could be verified")
  | (leases, Some approved) => let '(c, events) := open_approved fresh requested params approved c in (leases, c, events)
  end.

Definition switch_capture (token_id : Z) (seat : Seat) (kind : CaptureKind) (c : Conn F I) : Conn F I * list BrokerEvent :=
  let s := cn_session c in
  if negb (authorised token_id s) then (c, capture_error Code.UNAUTHORISED "unknown session grant") else
  let ceiling := effective_grant (bs_approved_capabilities s) (bs_ceiling s) seat in
  let s := s <| bs_seat := seat |> <| bs_granted := Capabilities.clamped_to (bs_requested s) ceiling |> in
  let '(frames, opened) := switch seat kind (cn_frames c) in
  (mkConn s frames (cn_input c),
   match opened with
   | Good opened => [Ev.CaptureStarted token_id seat kind (op_width opened) (op_height opened) (bs_granted s)]
   | Bad failure => failed failure
   end).

Definition handle_request (now fresh : Z) (request : ServiceRequest) (leases : SessionLeases) (c : Conn F I) : SessionLeases * Conn F I * list BrokerEvent :=
  let s := cn_session c in
  if negb (bs_handshaken s) then let '(s, events) := handle_handshake request s in (leases, c <| cn_session := s |>, events) else
  match request with
  | Hello _ => (leases, c, [])
  | OpenCapture token_id approval requested params => open_capture now fresh token_id approval requested params leases c
  | SwitchCapture token_id seat kind => let '(c, events) := switch_capture token_id seat kind c in (leases, c, events)
  | SetBitrate kbps => (leases, c <| cn_frames := set_bitrate kbps (cn_frames c) |>, [])
  | RequestKeyframe => (leases, c <| cn_frames := request_keyframe (cn_frames c) |>, [])
  | CloseCapture =>
      (leases, c <| cn_frames := close (cn_frames c) |> <| cn_session := s <| bs_capturing := false |> |>, [Ev.Closed Code.CLOSED_ON_REQUEST])
  | Input token_id payload =>
      (leases, if negb (authorised token_id s) then c else c <| cn_input := sink_inject payload (bs_granted s) (cn_input c) |>, [])
  | Shutdown =>
      (leases, c <| cn_frames := close (cn_frames c) |> <| cn_session := s <| bs_capturing := false |> <| bs_done := true |> |>, [])
  end.

Definition pump (fuel : nat) (c : Conn F I) : option (Conn F I * list BrokerEvent) :=
  if negb (bs_capturing (cn_session c)) then Some (c, []) else
  '(frames, ready) ← drain fuel next_frame (cn_frames c);
  '(input, rumbles) ← drain fuel sink_take_rumble (cn_input c);
  Some (c <| cn_frames := frames |> <| cn_input := input |>,
        map (fun f => Ev.Frame (ef_sequence f) (ef_timestamp_us f) (ef_keyframe f) (ef_data f)) ready ++
        map (fun r => Ev.Rumble (ro_device_id r) (ro_strong r) (ro_weak r)) rumbles).

End Broker.

(** ** The leases *)

(** Who holds what: the entry of a nonce, if it has not run out. *)
Definition unexpired (now : Z) (leases : SessionLeases) : SessionLeases := filter (fun lease => now <= ls_expires_at_ms lease) leases.

Lemma unexpired_in now leases l : l ∈ unexpired now leases <-> l ∈ leases /\ now <= ls_expires_at_ms l.
Proof. unfold unexpired. rewrite list_elem_of_filter. tauto. Qed.

Lemma unexpired_nonces now leases : NoDup (map ls_nonce leases) -> NoDup (map ls_nonce (unexpired now leases)).
Proof. intros H. eapply sublist_NoDup; [exact H|]. apply fmap_sublist, sublist_filter. Qed.

(** Two entries of one nonce are one entry. *)
Lemma nonce_inj leases a b : NoDup (map ls_nonce leases) -> a ∈ leases -> b ∈ leases -> ls_nonce a = ls_nonce b -> a = b.
Proof.
  intros H (i & Hi)%list_elem_of_lookup (j & Hj)%list_elem_of_lookup E. assert (i = j); [|congruence].
  eapply (NoDup_lookup (ls_nonce <$> leases) i j (ls_nonce a)); [done|by rewrite list_lookup_fmap, Hi|by rewrite list_lookup_fmap, Hj, E].
Qed.

(** What [acquire] does, case by case. *)
Lemma acquire_cases nonce session_id expires now connection leases :
  let entries := unexpired now leases in
  let '(leases', outcome) := acquire nonce session_id expires now connection leases in
  (outcome = Granted /\ leases' = entries ++ [mkLease nonce session_id expires (Some connection)] /\ (forall l, l ∈ entries -> ls_nonce l <> nonce)) \/
  (exists l, l ∈ entries /\ ls_nonce l = nonce /\
    ((outcome = SessionMismatch /\ leases' = entries /\ ls_session_id l <> session_id) \/
     (ls_session_id l = session_id /\
      ((outcome = Reattached /\ leases' = entries /\ ls_holder l = Some connection) \/
       (outcome = HeldElsewhere /\ leases' = entries /\ exists h, ls_holder l = Some h /\ h <> connection) \/
       (outcome = Reattached /\ ls_holder l = None /\ exists k, entries !! k = Some l /\ leases' = <[k := l <| ls_holder := Some connection |>]> entries))))).
Proof.
  cbv zeta. unfold acquire. change (filter _ leases) with (unexpired now leases). destruct (list_find _ (unexpired now leases)) as [[k l]|] eqn:E.
  - apply list_find_Some in E as (Ek & En & _). assert (Hin : l ∈ unexpired now leases) by (by apply list_elem_of_lookup_2 in Ek). case_bool_decide as Es; cbn [negb].
    + destruct (ls_holder l) as [h|] eqn:Eh; [destruct (Z.eqb_spec h connection) as [->|Hne]|]; right; exists l; (split; [done|split; [done|right; split; [done|]]]); [by left|right; left; eauto|right; right; eauto].
    + right. exists l. split; [done|split; [done|by left]].
  - left. split; [done|split; [done|]]. intros l Hl En. apply list_find_None in E. rewrite list.Forall_forall in E. by apply (E l).
Qed.

Lemma release_in connection leases l : l ∈ release connection leases <->
  exists l0, l0 ∈ leases /\ l = (if bool_decide (ls_holder l0 = Some connection) then l0 <| ls_holder := None |> else l0).
Proof. unfold release. rewrite list_elem_of_fmap. split; intros (l0 & H1 & H2); by exists l0. Qed.

Lemma release_nonces connection leases : map ls_nonce (release connection leases) = map ls_nonce leases.
Proof. unfold release. rewrite map_map. apply map_ext. intros l. by case_bool_decide. Qed.

Lemma held_nonces leases k l h : leases !! k = Some l -> map ls_nonce (<[k := l <| ls_holder := h |>]> leases) = map ls_nonce leases.
Proof. revert k. induction leases as [|x leases IH]; intros [|k] E; [done..| |]; cbn in *; [by injection E as ->|]. f_equal. by apply IH. Qed.

(** ** The server *)

Section World.
Variable mac : list Z -> list Z -> list Z.
Variables (ceiling : Z) (authority : GrantAuthority).
Context {F I : Type} `{FrameSource F} `{InputSink I}.

(** The approvals the control plane has issued: one for each nonce. *)
Variable issued : SessionGrant -> Prop.

(** What the tag is for: an approval that verifies was issued. *)
Definition from_issuer (request : ServiceRequest) : Prop :=
  match request with
  | OpenCapture _ approval _ _ => forall t g, decode_and_verify mac approval (au_key authority) t (au_device_id authority) = Good g -> issued g
  | _ => True
  end.

(** The approval a request has accepted, if any. *)
Definition accepts (now : Z) (request : ServiceRequest) (leases : SessionLeases) (s : BrokerSession) : option SessionGrant :=
  match request with
  | OpenCapture token_id approval _ _ =>
      if bs_handshaken s && ((token_id =? NO_GRANT) || authorised token_id s) then (verify_approval mac now approval leases s).2 else None
  | _ => None
  end.

Record World := mkWorld { w_leases : SessionLeases; w_conns : gmap Z (Conn F I); w_now : Z; w_next : Z }.

(** Runs of the server, with every approval accepted and by which connection.
    The devices change under the connections at any time. *)
Inductive Served : World -> list (Z * SessionGrant) -> Prop :=
  | served_start now : Served (mkWorld [] ∅ now 0) []
  | served_connect leases conns now next acc frames input : Served (mkWorld leases conns now next) acc -> next < U64_MAX ->
      Served (mkWorld leases (<[next := mkConn (session_new ceiling authority next) frames input]> conns) now (next + 1)) acc
  | served_request leases conns now next acc c conn request fresh leases' conn' events : Served (mkWorld leases conns now next) acc ->
      conns !! c = Some conn -> bs_done (cn_session conn) = false -> from_issuer request ->
      handle_request mac now fresh request leases conn = (leases', conn', events) ->
      Served (mkWorld leases' (<[c := conn']> conns) now next) (match accepts now request leases (cn_session conn) with Some g => acc ++ [(c, g)] | None => acc end)
  | served_pump leases conns now next acc c conn fuel conn' events : Served (mkWorld leases conns now next) acc ->
      conns !! c = Some conn -> pump fuel conn = Some (conn', events) -> Served (mkWorld leases (<[c := conn']> conns) now next) acc
  | served_devices leases conns now next acc c conn frames input : Served (mkWorld leases conns now next) acc ->
      conns !! c = Some conn -> Served (mkWorld leases (<[c := mkConn (cn_session conn) frames input]> conns) now next) acc
  | served_close leases conns now next acc c conn : Served (mkWorld leases conns now next) acc ->
      conns !! c = Some conn -> Served (mkWorld (release c leases) (delete c conns) now next) acc
  | served_tick leases conns now next acc later : Served (mkWorld leases conns now next) acc -> now <= later -> Served (mkWorld leases conns later next) acc.

(** The leases agree with the approvals accepted. *)
Record LeaseInv (w : World) (acc : list (Z * SessionGrant)) : Prop := mkLeaseInv {
  wi_nonces : NoDup (map ls_nonce (w_leases w));
  wi_lease : forall l, l ∈ w_leases w -> exists c g, (c, g) ∈ acc /\ ls_nonce l = sg_nonce g /\ ls_session_id l = sg_session_id g /\ ls_expires_at_ms l = sg_expires_at_ms g;
  wi_holder : forall l c, l ∈ w_leases w -> ls_holder l = Some c -> is_Some (w_conns w !! c) /\ exists g, (c, g) ∈ acc /\ ls_nonce l = sg_nonce g;
  wi_held : forall c g, (c, g) ∈ acc -> is_Some (w_conns w !! c) -> w_now w <= sg_expires_at_ms g ->
    exists l, l ∈ w_leases w /\ ls_nonce l = sg_nonce g /\ ls_holder l = Some c;
  wi_issued : forall c g, (c, g) ∈ acc -> issued g /\ c < w_next w /\
    exists t bytes, t <= w_now w /\ decode_and_verify mac bytes (au_key authority) t (au_device_id authority) = Good g;
  wi_conns : forall c conn, w_conns w !! c = Some conn -> c < w_next w /\ bs_connection (cn_session conn) = c /\ bs_authority (cn_session conn) = authority /\ bs_ceiling (cn_session conn) = ceiling;
}.
(** The parts of a session no request changes, and what an accepted approval
    leaves. *)
Lemma handle_frame now fresh request leases (conn : Conn F I) leases' conn' events : handle_request mac now fresh request leases conn = (leases', conn', events) ->
  bs_connection (cn_session conn') = bs_connection (cn_session conn) /\ bs_authority (cn_session conn') = bs_authority (cn_session conn) /\
  bs_ceiling (cn_session conn') = bs_ceiling (cn_session conn).
Proof.
  intros E. unfold handle_request in E. destruct (bs_handshaken (cn_session conn)) eqn:Eh; cbn [negb] in E.
  - destruct request; try by injection E as <- <- <-.
    + unfold open_capture in E. destruct (_ && _); [by injection E as <- <- <-|]. destruct (verify_approval _ _ _ _ _) as [ls [g|]]; [|by injection E as <- <- <-].
      unfold open_approved in E. destruct (match bs_session_id _ with Some _ => _ | None => _ end); [by injection E as <- <- <-|]. cbv zeta in E. destruct (match bs_grant _ with Some _ => _ | None => _ end) as [t|]; [|by injection E as <- <- <-].
      destruct (open params (cn_frames conn)) as [f [o|]]; by injection E as <- <- <-.
    + unfold switch_capture in E. destruct (negb _); [by injection E as <- <- <-|]. cbv zeta in E. destruct (switch seat kind (cn_frames conn)) as [f o]. by injection E as <- <- <-.
    + injection E as <- <- <-. by destruct (negb _).
  - unfold handle_handshake in E. destruct request; try by injection E as <- <- <-. by destruct (_ =? _); injection E as <- <- <-.
Qed.

(** The leases move with an accepted or a refused approval, and in no other way. *)
Lemma handle_leases now fresh request leases (conn : Conn F I) leases' conn' events : handle_request mac now fresh request leases conn = (leases', conn', events) ->
  (leases' = leases /\ accepts now request leases (cn_session conn) = None) \/
  exists token_id approval requested params, request = OpenCapture token_id approval requested params /\
    leases' = (verify_approval mac now approval leases (cn_session conn)).1 /\ accepts now request leases (cn_session conn) = (verify_approval mac now approval leases (cn_session conn)).2.
Proof.
  intros E. unfold handle_request in E. unfold accepts. destruct (bs_handshaken (cn_session conn)) eqn:Eh; cbn [negb andb] in *.
  - destruct request; try (injection E as <- <- <-; by left).
    + unfold open_capture in E. rewrite <- negb_orb in E. destruct ((token_id =? NO_GRANT) || authorised token_id (cn_session conn)); cbn [negb] in E; [|injection E as <- <- <-; by left].
      right. do 4 eexists. split; [done|]. destruct (verify_approval _ _ _ _ _) as [ls [g|]]; [|by injection E as <- <- <-]. destruct (open_approved _ _ _ _ _). by injection E as <- <- <-.
    + destruct (switch_capture _ _ _ _). injection E as <- <- <-. by left.
  - destruct (handle_handshake _ _). injection E as <- <- <-. left. by destruct request.
Qed.

Lemma pump_frame fuel (conn conn' : Conn F I) events : pump fuel conn = Some (conn', events) -> cn_session conn' = cn_session conn.
Proof.
  unfold pump. destruct (negb _); [congruence|]. intros E. apply bind_Some in E as ([f r] & _ & E). apply bind_Some in E as ([i r'] & _ & E). by injection E as <- <-.
Qed.

Hypothesis nonce_once : forall g g', issued g -> issued g' -> sg_nonce g = sg_nonce g' -> g = g'.

(** Entries that have run out held nothing the invariant speaks of. *)
Lemma unexpired_inv leases conns now next acc : LeaseInv (mkWorld leases conns now next) acc -> LeaseInv (mkWorld (unexpired now leases) conns now next) acc.
Proof.
  intros [W1 W2 W3 W4 W5 W6]. split; cbn in *.
  - by apply unexpired_nonces.
  - intros l [Hl _]%unexpired_in. by apply W2.
  - intros l c [Hl _]%unexpired_in. by apply W3.
  - intros c g Hg Hc Hn. destruct (W4 c g Hg Hc Hn) as (l & Hl & En & Eh). exists l. split; [|done]. apply unexpired_in. split; [done|].
    destruct (W2 l Hl) as (c' & g' & Hg' & En' & _ & Ee). assert (g' = g) as ->; [|by rewrite Ee]. apply nonce_once; [apply (W5 c' g' Hg')|apply (W5 c g Hg)|congruence].
  - done.
  - done.
Qed.

(** Connection [c] comes to hold the entry of an approval it has verified. *)
Lemma hold_inv leases leases' conns now next acc c (conn : Conn F I) g t bytes :
  LeaseInv (mkWorld leases conns now next) acc -> conns !! c = Some conn -> issued g -> t <= now -> decode_and_verify mac bytes (au_key authority) t (au_device_id authority) = Good g ->
  NoDup (map ls_nonce leases') ->
  (forall l, l ∈ leases' -> l ∈ leases \/ (ls_nonce l = sg_nonce g /\ ls_session_id l = sg_session_id g /\ ls_expires_at_ms l = sg_expires_at_ms g /\ ls_holder l = Some c)) ->
  (forall l, l ∈ leases -> ls_holder l <> None -> l ∈ leases') ->
  (exists l, l ∈ leases' /\ ls_nonce l = sg_nonce g /\ ls_holder l = Some c) ->
  LeaseInv (mkWorld leases' conns now next) (acc ++ [(c, g)]).
Proof.
  intros [W1 W2 W3 W4 W5 W6] Hc Hi Ht Hd Hn Hfrom Hkeep Hnew. cbn in *. assert (Hacc : forall x, x ∈ acc ++ [(c, g)] <-> x ∈ acc \/ x = (c, g)) by (intros x; rewrite elem_of_app, list_elem_of_singleton; done).
  split; cbn.
  - done.
  - intros l [Hl|(E1 & E2 & E3 & _)]%Hfrom; [|exists c, g; rewrite Hacc; tauto]. destruct (W2 l Hl) as (c' & g' & Hg & ?). exists c', g'. rewrite Hacc. tauto.
  - intros l c' [Hl|(E1 & _ & _ & E4)]%Hfrom Hh.
    + destruct (W3 l c' Hl Hh) as [? (g' & Hg & ?)]. split; [done|]. exists g'. rewrite Hacc. tauto.
    + rewrite E4 in Hh. injection Hh as <-. split; [by eexists|]. exists g. rewrite Hacc. tauto.
  - intros c' g' [Hg|[= -> ->]]%Hacc Hl Hnow; [|done]. destruct (W4 c' g' Hg Hl Hnow) as (l & Hin & En & Eh). exists l. split; [|done]. apply Hkeep; [done|congruence].
  - intros c' g' [Hg|[= -> ->]]%Hacc; [by apply W5|]. split; [done|]. split; [by apply (W6 c conn)|]. by exists t, bytes.
  - done.
Qed.

Lemma insert_in {A} (l : list A) k x y : y ∈ <[k := x]> l -> y = x \/ y ∈ l.
Proof. intros (i & Hi)%list_elem_of_lookup. apply list_lookup_insert_Some in Hi as [(_ & -> & _)|[_ Hi]]; [by left|right]. by eapply list_elem_of_lookup_2. Qed.

Lemma insert_keeps {A} (l : list A) k x y z : l !! k = Some z -> y ∈ l -> y <> z -> y ∈ <[k := x]> l.
Proof. intros Hk (i & Hi)%list_elem_of_lookup Hne. apply list_elem_of_lookup. exists i. rewrite list_lookup_insert_ne by congruence. done. Qed.

(** What a verification by connection [c] does to the leases. *)
Lemma verify_leases leases conns now next acc c (conn : Conn F I) encoded :
  LeaseInv (mkWorld leases conns now next) acc -> conns !! c = Some conn ->
  (forall t g, decode_and_verify mac encoded (au_key authority) t (au_device_id authority) = Good g -> issued g) ->
  let r := verify_approval mac now encoded leases (cn_session conn) in
  LeaseInv (mkWorld r.1 conns now next) (match r.2 with Some g => acc ++ [(c, g)] | None => acc end) /\
  (forall g, r.2 = Some g <-> is_configured authority = true /\ decode_and_verify mac encoded (au_key authority) now (au_device_id authority) = Good g /\
     ~ exists c', c' <> c /\ is_Some (conns !! c') /\ (c', g) ∈ acc).
Proof.
  intros HW Hc Hiss. destruct (wi_conns _ _ HW c conn Hc) as (_ & Ec & Ea & _). cbv zeta. unfold verify_approval. rewrite Ea, Ec.
  destruct (is_configured authority); cbn [negb]; [|split; [done|by split; [|intros []]]].
  destruct (decode_and_verify mac encoded _ now _) as [a|] eqn:Ed; [|split; [done|by split; [|intros (_ & ? & _)]]].
  pose proof (Hiss now a Ed) as Hi. pose proof (verified_window _ _ _ _ _ _ Ed) as Hw. apply unexpired_inv in HW. pose proof HW as [W1 W2 W3 W4 W5 W6]. cbn in *.
  assert (Hheld : forall c', is_Some (conns !! c') -> (c', a) ∈ acc -> exists l, l ∈ unexpired now leases /\ ls_nonce l = sg_nonce a /\ ls_holder l = Some c') by (intros c' Hl Hg; apply W4; [done|done|lia]).
  pose proof (acquire_cases (sg_nonce a) (sg_session_id a) (sg_expires_at_ms a) now c leases) as HA. cbv zeta in HA. destruct (acquire _ _ _ now c leases) as [leases' outcome].
  assert (Hhold := fun ls => hold_inv (unexpired now leases) ls conns now next acc c conn a now encoded HW Hc Hi ltac:(lia) Ed).
  destruct HA as [(-> & -> & Hno)|(l & Hl & En & HA)].
  - cbn. split.
    + apply Hhold.
      * rewrite map_app. apply list.NoDup_app. split; [done|]. split; [|apply NoDup_singleton]. intros n (l & -> & Hl)%list_elem_of_fmap ?%list_elem_of_singleton. by apply (Hno l Hl).
      * intros l [Hl| ->%list_elem_of_singleton]%elem_of_app; [by left|by right].
      * intros l Hl _. apply elem_of_app. by left.
      * eexists. split; [apply elem_of_app; right; by apply list_elem_of_singleton|done].
    + intros g. split; [intros [= <-]; split; [done|split; [done|]]|by intros (_ & [= ->] & _)]. intros (c' & _ & Hl' & Hg'). destruct (Hheld c' Hl' Hg') as (l & Hl & En & _). by apply (Hno l).
  - assert (Hsame : forall l', l' ∈ unexpired now leases -> ls_nonce l' = sg_nonce a -> l' = l) by (intros l' Hl' En'; eapply nonce_inj; [exact W1|done|done|congruence]).
    destruct HA as [(-> & -> & Hne)|[Es HA]].
    { destruct (W2 l Hl) as (c' & g' & Hg' & En' & Es & _). assert (g' = a) as -> by (apply nonce_once; [apply (W5 c' g' Hg')|done|congruence]). done. }
    destruct (W2 l Hl) as (c0 & g0 & Hg0 & En0 & _ & Ee0). assert (g0 = a) as -> by (apply nonce_once; [apply (W5 c0 g0 Hg0)|done|congruence]).
    destruct HA as [(-> & -> & Eh)|[(-> & -> & h & Eh & Hne)|(-> & Eh & k & Ek & ->)]]; cbn.
    + split; [apply Hhold; [done|by left|done|by exists l]|]. intros g. split; [intros [= <-]; split; [done|split; [done|]]|by intros (_ & [= ->] & _)].
      intros (c' & Hne & Hl' & Hg'). destruct (Hheld c' Hl' Hg') as (l' & Hin & En' & Eh'). rewrite (Hsame l' Hin En') in Eh'. congruence.
    + split; [done|]. intros g. split; [done|]. intros (_ & [= <-] & Hno). destruct Hno. destruct (W3 l h Hl Eh) as [Hlive (g' & Hg' & En')]. exists h. split; [done|]. split; [done|].
      assert (g' = a) as ->; [apply nonce_once; [apply (W5 h g' Hg')|done|congruence]|done].
    + split.
      * apply Hhold.
        -- exact (eq_ind_r (@NoDup Z) W1 (held_nonces (unexpired now leases) k l (Some c) Ek)).
        -- intros l' [ -> |Hl']%insert_in; [right|by left]. done.
        -- intros l' Hl' Hh. apply (insert_keeps _ _ _ _ l); [done|done|congruence].
        -- eexists. split; [eapply list_elem_of_lookup_2; apply list_lookup_insert_eq; by eapply lookup_lt_Some|done].
      * intros g. split; [intros [= <-]; split; [done|split; [done|]]|by intros (_ & [= ->] & _)].
        intros (c' & Hne & Hl' & Hg'). destruct (Hheld c' Hl' Hg') as (l' & Hin & En' & Eh'). rewrite (Hsame l' Hin En') in Eh'. congruence.
Qed.
(** A session replaced by one of the same connection. *)
Lemma conn_inv leases conns now next acc c (conn conn' : Conn F I) :
  LeaseInv (mkWorld leases conns now next) acc -> conns !! c = Some conn ->
  bs_connection (cn_session conn') = bs_connection (cn_session conn) -> bs_authority (cn_session conn') = bs_authority (cn_session conn) -> bs_ceiling (cn_session conn') = bs_ceiling (cn_session conn) ->
  LeaseInv (mkWorld leases (<[c := conn']> conns) now next) acc.
Proof.
  intros [W1 W2 W3 W4 W5 W6] Hc E1 E2 E3. assert (Hlive : forall d, is_Some (<[c := conn']> conns !! d) <-> is_Some (conns !! d)) by (intros d; destruct (decide (d = c)) as [->|]; [rewrite lookup_insert_eq, Hc; by split|by rewrite lookup_insert_ne]).
  split; cbn in *; try done.
  - intros l d Hl Hh. rewrite Hlive. by apply W3.
  - intros d g Hg Hd. apply W4; [done|by apply Hlive].
  - intros d k. destruct (decide (d = c)) as [->|]; [rewrite lookup_insert_eq; intros [= <-]; rewrite E1, E2, E3; by apply W6|rewrite lookup_insert_ne by done; apply W6].
Qed.

Lemma served_inv w acc : Served w acc -> LeaseInv w acc.
Proof.
  induction 1 as [now|leases conns now next acc frames input _ IH Hb|leases conns now next acc c conn request fresh leases' conn' events _ IH Hc Hd Hi E|leases conns now next acc c conn fuel conn' events _ IH Hc E|
                  leases conns now next acc c conn frames input _ IH Hc|leases conns now next acc c conn _ IH Hc|leases conns now next acc later _ IH Hl].
  - split; cbn; try (by intros ? ?%elem_of_nil || by intros ? ? ?%elem_of_nil); [constructor|by intros c conn].
  - destruct IH as [W1 W2 W3 W4 W5 W6]; split; cbn in *; try done.
    + intros l c Hl Hh. destruct (W3 l c Hl Hh) as [Hlive ?]. split; [|done]. destruct (decide (c = next)) as [->|]; [rewrite lookup_insert_eq; by eexists|by rewrite lookup_insert_ne].
    + intros c g Hg Hlive Hn. destruct (W5 c g Hg) as (_ & Hlt & _). rewrite lookup_insert_ne in Hlive by lia. by apply W4.
    + intros c g Hg. destruct (W5 c g Hg) as (? & ? & ?). split; [done|]. split; [lia|done].
    + intros c conn. destruct (decide (c = next)) as [->|]; [rewrite lookup_insert_eq; intros [= <-]; split; [lia|done]|rewrite lookup_insert_ne by done; intros Hc; destruct (W6 c conn Hc); split; [lia|done]].
  - destruct (handle_frame _ _ _ _ _ _ _ _ E) as (E1 & E2 & E3). eapply conn_inv; [|destruct (handle_leases _ _ _ _ _ _ _ _ E); exact Hc|done..].
    destruct (handle_leases _ _ _ _ _ _ _ _ E) as [[-> ->]|(token & approval & requested & params & -> & -> & ->)]; [done|]. by apply (verify_leases leases conns now next acc c conn approval).
  - apply pump_frame in E. eapply conn_inv; [done..| | |]; by rewrite E.
  - by eapply conn_inv.
  - destruct IH as [W1 W2 W3 W4 W5 W6]; split; cbn in *.
    + by rewrite release_nonces.
    + intros l (l0 & Hl & ->)%release_in. destruct (W2 l0 Hl) as (d & g & ?). exists d, g. by case_bool_decide.
    + intros l d (l0 & Hl & ->)%release_in. case_bool_decide as Eh; [done|]. intros Hh. destruct (W3 l0 d Hl Hh). by rewrite lookup_delete_ne by congruence.
    + intros d g Hg [k [Hne Hk]%lookup_delete_Some] Hn. destruct (W4 d g Hg) as (l & Hl & En & Eh); [by eexists|done|]. exists l. split; [|done]. apply release_in. exists l. split; [done|]. rewrite bool_decide_false by congruence. done.
    + done.
    + intros d k [_ Hk]%lookup_delete_Some. by apply W6.
  - destruct IH as [W1 W2 W3 W4 W5 W6]; split; cbn in *; try done.
    + intros c g Hg Hc Hn. apply W4; [done|done|lia].
    + intros c g Hg. destruct (W5 c g Hg) as (? & ? & t & bytes & ? & ?). split; [done|]. split; [done|]. exists t, bytes. split; [lia|done].
Qed.
(** What a session may do and where that came from. *)
Record AuthInv (c : Z) (s : BrokerSession) (acc : list (Z * SessionGrant)) : Prop := mkAuthInv {
  ai_granted : bs_granted s = Capabilities.clamped_to (bs_requested s) (effective_grant (bs_approved_capabilities s) (bs_ceiling s) (bs_seat s));
  ai_token : forall t, bs_grant s = Some t -> tk_id t <> NO_GRANT /\
    exists g, (c, g) ∈ acc /\ bs_session_id s = Some (sg_session_id g) /\ bs_approved_capabilities s = sg_capabilities g;
  ai_capturing : bs_capturing s = true -> bs_grant s <> None;
}.

Lemma auth_mono c s acc acc' : AuthInv c s acc -> acc ⊆ acc' -> AuthInv c s acc'.
Proof. intros [A1 A2 A3] Hs. split; [done| |done]. intros t Ht. destruct (A2 t Ht) as (? & g & Hg & ?). split; [done|]. exists g. split; [by apply Hs|done]. Qed.

(** The session and its devices once an approval has been accepted. *)
Lemma open_approved_auth c fresh requested params g (conn : Conn F I) acc : AuthInv c (cn_session conn) acc ->
  AuthInv c (cn_session (open_approved fresh requested params g conn).1) (acc ++ [(c, g)]).
Proof.
  intros HA. assert (Hsub : acc ⊆ acc ++ [(c, g)]) by (intros x Hx; apply elem_of_app; by left). assert (Hin : (c, g) ∈ acc ++ [(c, g)]) by (apply elem_of_app; right; by apply list_elem_of_singleton).
  unfold open_approved. destruct (match bs_session_id _ with Some _ => _ | None => _ end) eqn:Es; [by eapply auth_mono|]. destruct HA as [A1 A2 A3].
  cbv zeta. cbn -[effective_grant token_grant open]. destruct (bs_grant (cn_session conn)) as [t|] eqn:Et.
  - destruct (open params (cn_frames conn)) as [f [o|]]; (split; cbn; [done| |done]; intros t' [= <-]; destruct (A2 t eq_refl) as (? & _); split; [done|by exists g]).
  - destruct (Z.eqb_spec fresh NO_GRANT).
    + split; cbn; [done|intros t; congruence|intros Hc; by destruct (A3 Hc)].
    + destruct (open params (cn_frames conn)) as [f [o|]]; (split; cbn; [done| |done]; intros t' [= <-]; split; [done|by exists g]).
Qed.

Lemma handle_auth now fresh request leases c (conn : Conn F I) acc leases' conn' events : AuthInv c (cn_session conn) acc ->
  handle_request mac now fresh request leases conn = (leases', conn', events) ->
  AuthInv c (cn_session conn') (match accepts now request leases (cn_session conn) with Some g => acc ++ [(c, g)] | None => acc end).
Proof.
  intros HA E. unfold handle_request in E. unfold accepts. destruct (bs_handshaken (cn_session conn)) eqn:Eh; cbn [negb andb] in *.
  - destruct request; try (injection E as <- <- <-; done).
    + unfold open_capture in E. rewrite <- negb_orb in E. destruct (_ || _); cbn [negb] in E; [|by injection E as <- <- <-].
      destruct (verify_approval _ _ _ _ _) as [ls [g|]]; [|by injection E as <- <- <-]. pose proof (open_approved_auth c fresh requested params g conn acc HA) as HO. destruct (open_approved _ _ _ _ _). by injection E as <- <- <-.
    + unfold switch_capture in E. destruct (negb _); [by injection E as <- <- <-|]. cbv zeta in E. destruct (switch seat kind (cn_frames conn)) as [f o]. injection E as <- <- <-. by destruct HA.
    + injection E as <- <- <-. destruct HA. by split.
    + injection E as <- <- <-. by destruct (negb _).
    + injection E as <- <- <-. destruct HA. by split.
  - destruct (handle_handshake request (cn_session conn)) as [s e] eqn:Es. injection E as <- <- <-. cbn. assert (AuthInv c s acc); [|by destruct request].
    destruct HA. unfold handle_handshake in Es. destruct request; try destruct (_ =? _); injection Es as <- <-; by split.
Qed.

Lemma served_auth w acc c conn : Served w acc -> w_conns w !! c = Some conn -> AuthInv c (cn_session conn) acc.
Proof.
  intros HS. revert c conn. induction HS as [now|leases conns now next acc frames input _ IH Hb|leases conns now next acc c conn request fresh leases' conn' events _ IH Hc Hd Hi E|leases conns now next acc c conn fuel conn' events _ IH Hc E|
                  leases conns now next acc c conn frames input _ IH Hc|leases conns now next acc c conn _ IH Hc|leases conns now next acc later _ IH Hl]; cbn in *; intros d k.
  - done.
  - intros [[-> <-]|[_ Hk]]%lookup_insert_Some; [|by apply IH]. by split.
  - assert (Hsub : acc ⊆ match accepts now request leases (cn_session conn) with Some g => acc ++ [(c, g)] | None => acc end) by (destruct (accepts _ _ _ _); [intros x Hx; apply elem_of_app; by left|done]).
    intros [[-> <-]|[_ Hk]]%lookup_insert_Some; [|eapply auth_mono; [by apply IH|done]]. eapply handle_auth; [by apply IH|done].
  - intros [[-> <-]|[_ Hk]]%lookup_insert_Some; [|by apply IH]. rewrite (pump_frame _ _ _ _ E). by apply IH.
  - intros [[-> <-]|[_ Hk]]%lookup_insert_Some; [exact (IH _ _ Hc)|by apply IH].
  - intros [_ Hk]%lookup_delete_Some. by apply IH.
  - apply IH.
Qed.

Lemma contains_land a b n : Capabilities.contains (Z.land a b) n = Capabilities.contains a n && Capabilities.contains b n.
Proof.
  apply eq_bool_prop_intro. unfold Capabilities.contains. rewrite andb_True, !Is_true_true, !Z.eqb_eq. split; [intros E; rewrite <- E; split|intros [E1 E2]].
  - by rewrite !Z.land_assoc, Z.land_diag.
  - by rewrite (Z.land_comm a b), !Z.land_assoc, Z.land_diag.
  - rewrite <- Z.land_assoc. congruence.
Qed.
(** Who may reach the devices, and what a request leaves of the session's name. *)
Lemma handle_reach now fresh request leases (conn : Conn F I) leases' conn' events :
  handle_request mac now fresh request leases conn = (leases', conn', events) ->
  (cn_input conn' = cn_input conn \/ exists t payload, bs_grant (cn_session conn) = Some t /\ tk_id t <> NO_GRANT /\ request = Input (tk_id t) payload /\
     cn_input conn' = sink_inject payload (bs_granted (cn_session conn)) (cn_input conn)) /\
  (forall id seat kind width height granted, Ev.CaptureStarted id seat kind width height granted ∈ events ->
     granted = bs_granted (cn_session conn') /\ seat = bs_seat (cn_session conn') /\
     exists t, bs_grant (cn_session conn') = Some t /\ tk_id t = id /\ (bs_grant (cn_session conn) = Some t \/ exists g, accepts now request leases (cn_session conn) = Some g)) /\
  (forall name, bs_session_id (cn_session conn) = Some name -> bs_session_id (cn_session conn') = Some name).
Proof.
  assert (Hauth : forall token_id, authorised token_id (cn_session conn) = true -> exists t, bs_grant (cn_session conn) = Some t /\ tk_id t = token_id /\ token_id <> NO_GRANT).
  { intros id. unfold authorised. destruct (Z.eqb_spec id NO_GRANT); [done|]. destruct (bs_grant (cn_session conn)) as [t|]; [|done]. destruct (Z.eqb_spec (tk_id t) id); [|done]. intros _. by exists t. }
  intros E. unfold handle_request in E. unfold accepts. destruct (bs_handshaken (cn_session conn)) eqn:Eh; cbn [negb andb] in *.
  - destruct request; try (injection E as <- <- <-; split; [by left|split; [by intros ? ? ? ? ? ? ?%elem_of_nil|done]]).
    + unfold open_capture in E. rewrite <- negb_orb in E. destruct (_ || _); cbn [negb] in E.
      2: { injection E as <- <- <-. split; [by left|]. split; [|done]. by intros ? ? ? ? ? ? ?%list_elem_of_singleton. }
      destruct (verify_approval _ _ _ _ _) as [ls [g|]].
      2: { injection E as <- <- <-. split; [by left|]. split; [|done]. by intros ? ? ? ? ? ? ?%list_elem_of_singleton. }
      unfold open_approved in E. destruct (match bs_session_id _ with Some _ => _ | None => _ end) eqn:Es.
      { injection E as <- <- <-. split; [by left|]. split; [|done]. by intros ? ? ? ? ? ? ?%list_elem_of_singleton. }
      cbv zeta in E. cbn -[effective_grant token_grant open] in E.
      assert (Hname : forall name, bs_session_id (cn_session conn) = Some name -> Some (sg_session_id g) = Some name) by (intros name Hn; rewrite Hn in Es; apply negb_false_iff, bool_decide_eq_true in Es; congruence).
      destruct (match bs_grant (cn_session conn) with Some _ => _ | None => _ end) as [t|] eqn:Et.
      2: { injection E as <- <- <-. split; [by left|]. split; [|done]. by intros ? ? ? ? ? ? ?%list_elem_of_singleton. }
      destruct (open params (cn_frames conn)) as [f [o|]]; injection E as <- <- <-; (split; [by left|]; split; [|done]); intros ? ? ? ? ? ? Hin%list_elem_of_singleton; [|done].
      injection Hin as -> -> -> -> -> ->. split; [done|]. split; [done|]. exists t. split; [done|]. split; [done|]. right. by exists g.
    + unfold switch_capture in E. destruct (authorised token_id (cn_session conn)) eqn:Ea; cbn [negb] in E.
      2: { injection E as <- <- <-. split; [by left|]. split; [|done]. by intros ? ? ? ? ? ? ?%list_elem_of_singleton. }
      destruct (Hauth _ Ea) as (t & Et & <- & _). cbv zeta in E. destruct (switch seat kind (cn_frames conn)) as [f [o|]]; injection E as <- <- <-; (split; [by left|]; split; [|done]); intros ? ? ? ? ? ? Hin%list_elem_of_singleton; [|done].
      injection Hin as -> -> -> -> -> ->. split; [done|]. split; [done|]. exists t. split; [done|]. split; [done|]. by left.
    + injection E as <- <- <-. split; [by left|]. split; [|done]. by intros ? ? ? ? ? ? ?%list_elem_of_singleton.
    + destruct (authorised token_id (cn_session conn)) eqn:Ea; cbn [negb] in E; injection E as <- <- <-; (split; [|split; [by intros ? ? ? ? ? ? ?%elem_of_nil|done]]); [right|by left].
      destruct (Hauth _ Ea) as (t & Et & <- & Ht). by exists t, payload.
  - destruct (handle_handshake request (cn_session conn)) as [s e] eqn:Es. injection E as <- <- <-. cbn. split; [by left|].
    unfold handle_handshake in Es. destruct request; try destruct (_ =? _); injection Es as <- <-; (split; [by intros ? ? ? ? ? ? ?%list_elem_of_singleton|done]).
Qed.

(** (C31) A session never does more than it was approved for. In every run of
    the server: what a connection may do is the intersection of what was asked,
    what an approval it presented grants, the operator's ceiling and what the
    seat allows - at the greeter never a gamepad or the clipboard; the capability
    it holds was minted for it after an approval that verified, and it captures
    only with one; the input devices are reached only by a request that names
    that capability, under exactly that grant; every capture it reports carries
    the grant in force; and a connection that serves a session never serves
    another. *)
Theorem session_keeps_to_approval (w : World) (acc : list (Z * SessionGrant)) (c : Z) (conn : Conn F I) :
  Served w acc -> w_conns w !! c = Some conn ->
  let s := cn_session conn in
  (forall capability, Capabilities.contains (bs_granted s) capability =
     Capabilities.contains (bs_requested s) capability && Capabilities.contains (bs_approved_capabilities s) capability &&
     Capabilities.contains ceiling capability && Capabilities.contains (seat_ceiling (bs_seat s)) capability) /\
  (bs_seat s = Seat.Greeter -> Capabilities.contains (bs_granted s) Capabilities.GAMEPAD = false /\ Capabilities.contains (bs_granted s) Capabilities.CLIPBOARD = false) /\
  (bs_capturing s = true -> bs_grant s <> None) /\
  (forall t, bs_grant s = Some t -> tk_id t <> NO_GRANT /\ exists g, (c, g) ∈ acc /\ bs_session_id s = Some (sg_session_id g) /\ bs_approved_capabilities s = sg_capabilities g) /\
  forall now fresh request leases leases' conn' events, handle_request mac now fresh request leases conn = (leases', conn', events) ->
    (cn_input conn' <> cn_input conn -> exists t payload, bs_grant s = Some t /\ request = Input (tk_id t) payload /\
       cn_input conn' = sink_inject payload (bs_granted s) (cn_input conn)) /\
    (forall id seat kind width height granted, Ev.CaptureStarted id seat kind width height granted ∈ events ->
       granted = bs_granted (cn_session conn') /\ seat = bs_seat (cn_session conn') /\
       exists t, bs_grant (cn_session conn') = Some t /\ tk_id t = id /\ (bs_grant s = Some t \/ exists g, accepts now request leases s = Some g)) /\
    (forall name, bs_session_id s = Some name -> bs_session_id (cn_session conn') = Some name).
Proof.
  intros HS Hc s. destruct (served_auth w acc c conn HS Hc) as [A1 A2 A3]. fold s in A1, A2, A3.
  assert (Hceil : bs_ceiling s = ceiling).
  { clear A1 A2 A3. subst s. revert c conn Hc. induction HS as [now|? conns ? ? ? ? ? _ IH Hb|? conns ? ? ? c conn ? ? ? conn' ? _ IH Hc Hd Hi E|? conns ? ? ? c conn ? conn' ? _ IH Hc E|? conns ? ? ? c conn ? ? _ IH Hc|? conns ? ? ? c conn _ IH Hc|]; cbn in *; intros d k.
    - done.
    - intros [[-> <-]|[_ Hk]]%lookup_insert_Some; [done|by eapply IH].
    - destruct (handle_frame _ _ _ _ _ _ _ _ E) as (_ & _ & Ec). intros [[-> <-]|[_ Hk]]%lookup_insert_Some; [rewrite Ec; exact (IH _ _ Hc)|by eapply IH].
    - apply pump_frame in E. intros [[-> <-]|[_ Hk]]%lookup_insert_Some; [rewrite E; exact (IH _ _ Hc)|by eapply IH].
    - intros [[-> <-]|[_ Hk]]%lookup_insert_Some; [exact (IH _ _ Hc)|by eapply IH].
    - intros [_ Hk]%lookup_delete_Some. by eapply IH.
    - intros Hk. by eapply IHHS. }
  assert (Hg : forall cap, Capabilities.contains (bs_granted s) cap = Capabilities.contains (bs_requested s) cap && Capabilities.contains (bs_approved_capabilities s) cap && Capabilities.contains ceiling cap && Capabilities.contains (seat_ceiling (bs_seat s)) cap).
  { intros cap. rewrite A1, Hceil. unfold effective_grant, Capabilities.clamped_to. rewrite !contains_land. by rewrite !andb_assoc. }
  split; [done|]. split; [intros Es; rewrite !Hg, Es; cbn; by rewrite !andb_false_r|]. split; [done|]. split; [done|].
  intros now fresh request leases leases' conn' events E. destruct (handle_reach _ _ _ _ _ _ _ _ E) as (H1 & H2 & H3). split; [|done]. intros Hne. destruct H1 as [|(t & payload & ? & _ & ?)]; [done|]. by exists t, payload.
Qed.

(** (C32) An approval serves one live connection. Every approval accepted was
    issued and verified, in its window, by then; two live connections that have
    both had the same unexpired nonce accepted are one connection, and the
    approvals one; and an approval that verifies is accepted exactly when no
    other live connection has had it accepted - so a reconnect takes it back as
    soon as the old connection is gone, and a second live one never shares it. *)
Theorem approval_serves_one_connection (w : World) (acc : list (Z * SessionGrant)) :
  Served w acc ->
  (forall c g, (c, g) ∈ acc -> issued g /\ exists t bytes, t <= w_now w /\ decode_and_verify mac bytes (au_key authority) t (au_device_id authority) = Good g) /\
  (forall c1 c2 g1 g2, (c1, g1) ∈ acc -> (c2, g2) ∈ acc -> is_Some (w_conns w !! c1) -> is_Some (w_conns w !! c2) ->
     sg_nonce g1 = sg_nonce g2 -> w_now w <= sg_expires_at_ms g1 -> c1 = c2 /\ g1 = g2) /\
  (forall c conn encoded g, w_conns w !! c = Some conn ->
     (forall t g', decode_and_verify mac encoded (au_key authority) t (au_device_id authority) = Good g' -> issued g') ->
     ((verify_approval mac (w_now w) encoded (w_leases w) (cn_session conn)).2 = Some g <->
      is_configured authority = true /\ decode_and_verify mac encoded (au_key authority) (w_now w) (au_device_id authority) = Good g /\
      ~ exists c', c' <> c /\ is_Some (w_conns w !! c') /\ (c', g) ∈ acc)).
Proof.
  intros HS%served_inv. split; [|split].
  - intros c g Hg. destruct (wi_issued _ _ HS c g Hg) as (? & _ & ?). done.
  - intros c1 c2 g1 g2 H1 H2 L1 L2 En Hw. assert (g1 = g2) as -> by (apply nonce_once; [apply (wi_issued _ _ HS c1 g1 H1)|apply (wi_issued _ _ HS c2 g2 H2)|done]). split; [|done].
    destruct (wi_held _ _ HS c1 g2 H1 L1 Hw) as (l1 & I1 & N1 & O1), (wi_held _ _ HS c2 g2 H2 L2 Hw) as (l2 & I2 & N2 & O2).
    assert (l1 = l2) as -> by (eapply nonce_inj; [apply HS|done|done|congruence]). congruence.
  - intros c conn encoded g Hc Hiss. destruct w as [leases conns now next]. by apply (verify_leases leases conns now next acc c conn encoded).
Qed.
End World.

(** ** The machine service on top ([machine-service/src/main.rs]) *)

Record CaptureContext := mkCapture {
  cc_requested : Z;
  cc_width : Z;
  cc_height : Z;
  cc_fps : Z;
  cc_bitrate_kbps : Z;
  cc_approval : list Z;
  cc_grant : Z;
}.
#[export] Instance eta_CaptureContext : Eta CaptureContext := fun c =>
  mkCapture (cc_requested c) (cc_width c) (cc_height c) (cc_fps c) (cc_bitrate_kbps c) (cc_approval c) (cc_grant c).

Definition capture_params (seat : Seat) (kind : CaptureKind) (c : CaptureContext) : CaptureParams :=
  mkParams seat kind (cc_width c) (cc_height c) (cc_fps c) (cc_bitrate_kbps c).

(** [apply_actions]: the request an action becomes. *)
Definition action_request (c : CaptureContext) (a : Action) : ServiceRequest :=
  match a with
  | Lifecycle.StartCapture seat kind => OpenCapture (cc_grant c) (cc_approval c) (cc_requested c) (capture_params seat kind c)
  | Lifecycle.SwitchCapture seat kind => SwitchCapture (cc_grant c) seat kind
  | Lifecycle.StopCapture => CloseCapture
  | Lifecycle.RequestKeyframe => RequestKeyframe
  end.

(** [forward_broker_event], as far as the capture goes: the context after, and
    whether the session ends. *)
Definition forward_broker_event (c : CaptureContext) (e : BrokerEvent) : CaptureContext * bool :=
  match e with
  | Ev.CaptureStarted token_id _ _ _ _ _ => (c <| cc_grant := token_id |>, false)
  | Ev.CaptureError _ _ => (c, true)
  | _ => (c, false)
  end.

(** What the peer asks of the broker through the service
    ([handle_control_payload], [handle_peer_packet]; the bitrate is the
    controller's). *)
Inductive Ask := AskBitrate (kbps : Z) | AskKeyframe | AskInput (payload : list Z).

Definition ask_request (c : CaptureContext) (k : Ask) : ServiceRequest :=
  match k with
  | AskBitrate kbps => SetBitrate kbps
  | AskKeyframe => RequestKeyframe
  | AskInput payload => Input (cc_grant c) payload
  end.

(** What a frame source promises: it opens, what is open can be switched, and
    stays open. *)
Class FrameLaws (F : Type) `{FrameSource F} := mkFrameLaws {
  live : F -> Prop;
  open_works : forall params f, live (open params f).1 /\ exists opened, (open params f).2 = Good opened;
  switch_works : forall seat kind f, live f -> live (switch seat kind f).1 /\ exists opened, (switch seat kind f).2 = Good opened;
  keyframe_live : forall f, live f -> live (request_keyframe f);
  bitrate_live : forall kbps f, live f -> live (set_bitrate kbps f);
  next_live : forall f, live f -> live (next_frame f).1;
}.

Section Service.
Variable mac : list Z -> list Z -> list Z.
Context {F I : Type} `{FrameLaws F} `{InputSink I}.

(** The service and the broker, with what is on the socket each way: requests
    the broker has not served yet, answers the service has not taken yet.
    Messages are whole: what a read given up part-way does is
    [HostIpc.abandoned_read_desyncs]. *)
Record Service := mkService {
  sv_lifecycle : Lifecycle;
  sv_capture : CaptureContext;
  sv_requests : list ServiceRequest;
  sv_answers : list BrokerEvent;
  sv_leases : SessionLeases;
  sv_conn : Conn F I;
  sv_ended : bool;
}.

(** The branches of the service's [select!], and the two things the broker's
    thread does ([session.rs]'s [serve]); they come in any order. *)
Inductive ServiceStep :=
  | EventSeen (event : Event)
  | PeerAsked (ask : Ask)
  | AnswerTaken
  | RequestServed (now fresh : Z)
  | FramesPushed (fuel : nat).

(** One step. An answer that ends the session closes with [Shutdown], the last
    request of all. *)
Definition service_step (step : ServiceStep) (v : Service) : Service :=
  let '(mkService l capture requests answers leases conn ended) := v in
  match step with
  | EventSeen event =>
      if ended then v else
      let '(l, actions) := on event l in
      mkService l capture (requests ++ map (action_request capture) actions) answers leases conn ended
  | PeerAsked ask => if ended then v else mkService l capture (requests ++ [ask_request capture ask]) answers leases conn ended
  | AnswerTaken =>
      match answers with
      | [] => v
      | answer :: answers =>
          if ended then v else
          let '(capture, ends) := forward_broker_event capture answer in
          mkService l capture (requests ++ if ends then [Shutdown] else []) answers leases conn ends
      end
  | RequestServed now fresh =>
      match requests with
      | [] => v
      | request :: requests =>
          let '(leases, conn, events) := handle_request mac now fresh request leases conn in
          mkService l capture requests (answers ++ events) leases conn ended
      end
  | FramesPushed fuel =>
      match pump fuel conn with
      | None => v
      | Some (conn, events) => mkService l capture requests (answers ++ events) leases conn ended
      end
  end.

Definition service_run (steps : list ServiceStep) (v : Service) : Service := fold_left (fun v step => service_step step v) steps v.


(** The approval, the machine's identity and the capture the service was started
    with. *)
Variables (authority : GrantAuthority) (ceiling connection : Z) (g : SessionGrant) (start : CaptureContext).




Hypothesis configured : is_configured authority = true.






(** *** What was asked, and what has been done about it *)































Definition service_start (c : Conn F I) : Service := mkService lifecycle_new start [] [] [] c false.





(** *** A hurried session *)










End Service.

(** ** Evaluated *)

(** Devices that record what reaches them. *)
#[export] Instance demo_frames : FrameSource bool := mkFrameSource bool
  (fun p _ => (true, Good (mkOpened (cp_width p) (cp_height p))))
  (fun _ _ f => (f, if f then Good (mkOpened 1920 1080) else Bad (mkFailure 1 [])))
  (fun _ f => f) (fun f => f) (fun f => (f, None)) (fun _ => false).
#[export] Instance demo_laws : FrameLaws bool.
Proof. refine (mkFrameLaws bool _ (fun f => f = true) _ _ _ _ _); [intros; split; [done|by eexists]|intros s k f ->; split; [done|by eexists]|done..]. Defined.
#[export] Instance demo_input : InputSink (list (list Z * Z)) := mkInputSink (list (list Z * Z)) (fun payload granted i => i ++ [(payload, granted)]) (fun i => (i, None)).

Definition demo_authority : GrantAuthority := mkAuthority [1; 2] [100; 50].
Definition demo_approval : list Z := grant_encode demo_mac demo_grant [1; 2].
Definition demo_params : CaptureParams := mkParams Seat.User Scanout 1920 1080 60 8000.
Definition demo_open : ServiceRequest := OpenCapture NO_GRANT demo_approval Capabilities.all demo_params.
Definition demo_issued (g : SessionGrant) : Prop := g = demo_grant.
Definition demo_conn (connection : Z) : Conn bool (list (list Z * Z)) := mkConn (session_new Capabilities.all demo_authority connection) false [].
Definition demo_ask (request : ServiceRequest) (w : SessionLeases * Conn bool (list (list Z * Z))) : SessionLeases * Conn bool (list (list Z * Z)) :=
  (handle_request demo_mac 1500 77 request w.1 w.2).1.
Definition demo_hello : ServiceRequest := Hello PROTOCOL_VERSION.
Definition demo_serving : SessionLeases * Conn bool (list (list Z * Z)) := demo_ask demo_open (demo_ask demo_hello ([], demo_conn 0)).
Definition demo_world : World := mkWorld demo_serving.1 (<[1 := demo_conn 1]> (<[0 := demo_serving.2]> (<[0 := (demo_ask demo_hello ([], demo_conn 0)).2]> (<[0 := demo_conn 0]> ∅)))) 1500 2.

Lemma demo_issuer t g : decode_and_verify demo_mac demo_approval [1; 2] t [100; 50] = Good g -> demo_issued g.
Proof. intros E. assert (E' : decode_and_verify demo_mac demo_approval [1; 2] 1500 [100; 50] = Good demo_grant) by (vm_compute; reflexivity). exact (verified_same _ _ _ _ _ _ _ _ E E'). Qed.

Lemma demo_served : Served demo_mac Capabilities.all demo_authority demo_issued demo_world [(0, demo_grant)].
Proof.
  unfold demo_world. apply (served_connect demo_mac Capabilities.all demo_authority demo_issued _ _ 1500 1); [|done].
  apply (served_request demo_mac Capabilities.all demo_authority demo_issued [] (<[0 := (demo_ask demo_hello ([], demo_conn 0)).2]> (<[0 := demo_conn 0]> ∅)) 1500 1 [] 0 (demo_ask demo_hello ([], demo_conn 0)).2 demo_open 77 _ _
    [Ev.CaptureStarted 77 Seat.User Scanout 1920 1080 7]); [|done|done|exact demo_issuer|vm_compute; reflexivity].
  apply (served_request demo_mac Capabilities.all demo_authority demo_issued [] (<[0 := demo_conn 0]> ∅) 1500 1 [] 0 (demo_conn 0) demo_hello 77 _ _ [Ev.Hello PROTOCOL_VERSION Capabilities.all]); [|done|done|done|vm_compute; reflexivity].
  apply (served_connect demo_mac Capabilities.all demo_authority demo_issued [] ∅ 1500 0); [apply served_start|done].
Qed.

Lemma session_keeps_to_approval_witness :
  bs_granted (cn_session demo_serving.2) = 7 /\ Capabilities.contains (bs_granted (cn_session demo_serving.2)) Capabilities.GAMEPAD = false.
Proof.
  split; [vm_compute; reflexivity|].
  destruct (session_keeps_to_approval demo_mac Capabilities.all demo_authority demo_issued demo_world [(0, demo_grant)] 0 demo_serving.2 demo_served ltac:(vm_compute; reflexivity)) as (E & _). rewrite E. vm_compute. reflexivity.
Defined.

Lemma approval_serves_one_connection_witness :
  ~ (verify_approval demo_mac 1500 demo_approval demo_serving.1 (cn_session (demo_conn 1))).2 = Some demo_grant /\
  (verify_approval demo_mac 1500 demo_approval demo_serving.1 (cn_session demo_serving.2)).2 = Some demo_grant.
Proof.
  destruct (approval_serves_one_connection demo_mac Capabilities.all demo_authority demo_issued ltac:(intros ? ? -> ->; done) demo_world [(0, demo_grant)] demo_served) as (_ & _ & E). split.
  - intros Hv. apply (E 1 (demo_conn 1) demo_approval demo_grant) in Hv as (_ & _ & []); [|vm_compute; reflexivity|exact demo_issuer]. exists 0. split; [done|]. split; [by eexists|]. by apply list_elem_of_singleton.
  - apply (E 0 demo_serving.2 demo_approval demo_grant); [vm_compute; reflexivity|exact demo_issuer|]. split; [done|]. split; [vm_compute; reflexivity|]. intros (c' & Hne & _ & Hin%list_elem_of_singleton). congruence.
Defined.

Definition demo_start : CaptureContext := mkCapture 7 1920 1080 60 8000 demo_approval NO_GRANT.
Definition demo_shaken : Conn bool (list (list Z * Z)) := demo_conn 0 <| cn_session := session_new Capabilities.all demo_authority 0 <| bs_handshaken := true |> |>.

(** The user logs in before the greeter's capture has been answered for. *)
Definition hurried_steps : list ServiceStep := [EventSeen (SeatObserved Seat.Greeter); EventSeen PeerApproved; EventSeen (SeatObserved Seat.User)].


(** The hurried session, run out: a user who logs in while the greeter's capture
    is being opened loses the connection. *)
Lemma login_before_answer_ends :
  let v := service_run demo_mac (hurried_steps ++ [RequestServed 1500 77; RequestServed 1500 77; RequestServed 1500 77; AnswerTaken; AnswerTaken]) (service_start demo_start demo_shaken) in
  sv_ended v = true /\ cc_grant (sv_capture v) = 77 /\ bs_capturing (cn_session (sv_conn v)) = true /\ bs_seat (cn_session (sv_conn v)) = Seat.Greeter.
Proof. vm_compute. repeat split. Qed.

(** ** What a refused or a finished capture leaves *)

(** An approval for a second session is refused on a connection that serves
    another, after its lease has been taken: until this connection closes, the
    session it names is refused wherever else it is presented. *)
Definition other_grant : SessionGrant := mkGrant [115; 50] [100; 49] [100; 50] 7 1000 2000 100.
Definition other_open : ServiceRequest := OpenCapture NO_GRANT (grant_encode demo_mac other_grant [1; 2]) Capabilities.all demo_params.

Lemma refused_approval_stays_leased :
  let r := handle_request demo_mac 1500 77 other_open demo_serving.1 demo_serving.2 in
  r.2 = capture_error Code.UNAUTHORISED "this connection is serving a different session" /\
  (verify_approval demo_mac 1600 (grant_encode demo_mac other_grant [1; 2]) r.1.1 (cn_session (demo_conn 1))).2 = None.
Proof. split; vm_compute; reflexivity. Qed.

(** Once the capture is closed nothing polls the input lease: a key held then
    stays held however long the peer is silent. *)
Definition native_conn (capturing : bool) (now_us : Z) : Conn bool NativeInput :=
  mkConn (cn_session demo_serving.2 <| bs_capturing := capturing |>) capturing (mkNative demo_sink now_us []).

Definition holds (c : Conn bool NativeInput) : bool := match ns_devices (ni_sink (cn_input c)) with Some (_, out) => down Inject.Keyboard 30 out | None => false end.

Lemma closed_capture_strands_input :
  (handle_request demo_mac 1500 77 CloseCapture [] (native_conn true 3000000)).1.2 = native_conn false 3000000 /\
  (holds <$> (fst <$> pump 10 (native_conn true 3000000))) = Some false /\
  (forall fuel now_us, (holds <$> (fst <$> pump fuel (native_conn false now_us))) = Some true).
Proof. split; [vm_compute; reflexivity|]. split; [vm_compute; reflexivity|]. intros fuel now_us. vm_compute. reflexivity. Qed.

(** A capability outlives its approval: once issued, it moves the devices after
    the approval's window has closed, until the capture is opened again. *)
Lemma capability_outlives_approval :
  (verify_approval demo_mac 5000 demo_approval demo_serving.1 (cn_session demo_serving.2)).2 = None /\
  cn_input (handle_request demo_mac 5000 77 (Input 77 [1]) demo_serving.1 demo_serving.2).1.2 = [([1], 7)].
Proof. split; vm_compute; reflexivity. Qed.

(** An approval collected again carries a nonce of its own, and the leases know
    sessions by nonce: while one connection runs the session, another takes it
    up with the second copy. *)
Definition demo_retry : SessionGrant := mkGrant (sg_session_id demo_grant) (sg_requester_device_id demo_grant) (sg_target_device_id demo_grant) (sg_capabilities demo_grant) 1000 2000 100.

Lemma retried_approval_is_another :
  sg_session_id demo_retry = sg_session_id demo_grant /\ bs_capturing (cn_session demo_serving.2) = true /\
  (verify_approval demo_mac 1500 demo_approval demo_serving.1 (cn_session (demo_conn 1))).2 = None /\
  (verify_approval demo_mac 1500 (grant_encode demo_mac demo_retry [1; 2]) demo_serving.1 (cn_session (demo_conn 1))).2 = Some demo_retry.
Proof. repeat split; vm_compute; reflexivity. Qed.
