(* ===== verification/HostText.v ===== *)
(** * What the host reads from text ([host-broker/src/session.rs],
    [machine-service/src/approval.rs], [machine-service/src/session.rs])

    The operator's capability ceiling, the choice of the approval to relay, and
    the login manager's session files. A [str] is the list of its characters. *)

From Stdlib Require Import String.
From S2P Require Import Prelude Fallible Init InputEvents Broker HostIpc.
Open Scope Z_scope.

(** ** Strings *)

(** [char::is_whitespace]. *)
Definition is_whitespace (c : Z) : bool :=
  ((9 <=? c) && (c <=? 13)) || bool_decide (c ∈ [32; 0x85; 0xA0; 0x1680; 0x2028; 0x2029; 0x202F; 0x205F; 0x3000]) || ((0x2000 <=? c) && (c <=? 0x200A)).

Fixpoint trim_start (s : list Z) : list Z := match s with [] => [] | c :: rest => if is_whitespace c then trim_start rest else s end.
Definition trim_end (s : list Z) : list Z := rev (trim_start (rev s)).
Definition trim (s : list Z) : list Z := trim_end (trim_start s).

Definition to_ascii_lowercase (s : list Z) : list Z := map (fun c => if (65 <=? c) && (c <=? 90) then c + 32 else c) s.
Definition eq_ignore_ascii_case (a b : list Z) : bool := bool_decide (to_ascii_lowercase a = to_ascii_lowercase b).

(** [split]: the pieces between separators, one more than there are of them. *)
Fixpoint split (at_ : Z) (s : list Z) : list (list Z) :=
  match s with
  | [] => [[]]
  | c :: s => if c =? at_ then [] :: split at_ s else match split at_ s with piece :: pieces => (c :: piece) :: pieces | [] => [[c]] end
  end.

(** [lines]: no line after a final line feed, no carriage return before one. *)
Definition strip_cr (l : list Z) : list Z := if bool_decide (list.last l = Some 13) then removelast l else l.
Definition lines (s : list Z) : list (list Z) :=
  let pieces := split 10 s in
  map strip_cr (removelast pieces) ++ match list.last pieces with Some (c :: l) => [c :: l] | _ => [] end.

Fixpoint split_once (at_ : Z) (s : list Z) : option (list Z * list Z) :=
  match s with
  | [] => None
  | c :: s => if c =? at_ then Some ([], s) else '(a, b) ← split_once at_ s; Some (c :: a, b)
  end.

(** ** The operator's ceiling ([parse_ceiling]) *)

Definition capability_named (name : list Z) : option Z :=
  let name := to_ascii_lowercase name in
  if bool_decide (name = bytes_of "capture") then Some Capabilities.CAPTURE else
  if bool_decide (name = bytes_of "keyboard") then Some Capabilities.KEYBOARD else
  if bool_decide (name = bytes_of "mouse") then Some Capabilities.MOUSE else
  if bool_decide (name = bytes_of "gamepad") then Some Capabilities.GAMEPAD else
  if bool_decide (name = bytes_of "clipboard") then Some Capabilities.CLIPBOARD else None.

(** The loop over the names; a refusal carries the name it could not read. *)
Fixpoint ceiling_loop (names : list (list Z)) (ceiling : Z) : fallible (list Z) Z :=
  match names with
  | [] => Good ceiling
  | name :: names =>
      let name := trim name in
      if bool_decide (name = []) then ceiling_loop names ceiling else
      match capability_named name with
      | None => Bad (to_ascii_lowercase name)
      | Some capability => ceiling_loop names (Capabilities.with_ ceiling capability)
      end
  end.

Definition parse_ceiling (spec : list Z) : fallible (list Z) Z :=
  let spec := trim spec in
  if bool_decide (spec = []) || eq_ignore_ascii_case spec (bytes_of "none") then Good Capabilities.none else
  if eq_ignore_ascii_case spec (bytes_of "all") then Good Capabilities.all else
  ceiling_loop (split 44 spec) Capabilities.none.

(** ** Which approval is relayed ([approval.rs]) *)

Inductive ApprovalSource := Pairing | Environment | NoApproval.

Definition carries (grant : option (list Z)) : bool := match grant with Some grant => negb (bool_decide (trim grant = [])) | None => false end.

Definition select (pairing_grant environment_grant : option (list Z)) : ApprovalSource :=
  if carries pairing_grant then Pairing else if carries environment_grant then Environment else NoApproval.

(** ** Who is on the seat ([machine-service/src/session.rs]) *)

Fixpoint field_in (lines : list (list Z)) (key : list Z) : option (list Z) :=
  match lines with
  | [] => None
  | line :: lines =>
      match split_once 61 line with
      | Some (name, value) => if bool_decide (trim name = key) then Some (trim value) else field_in lines key
      | None => field_in lines key
      end
  end.
Definition field (contents key : list Z) : option (list Z) := field_in (lines contents) key.

Definition one_of (value : option (list Z)) (choices : list string) : bool :=
  match value with Some v => existsb (fun c => bool_decide (v = bytes_of c)) choices | None => false end.

Definition classify (session_file : list Z) : Seat :=
  let graphical := one_of (field session_file (bytes_of "TYPE")) ["wayland"; "x11"; "mir"]%string in
  let remote := bool_decide (field session_file (bytes_of "REMOTE") = Some (bytes_of "1")) in
  if remote || negb graphical then Seat.Empty else
  if one_of (field session_file (bytes_of "CLASS")) ["greeter"]%string then Seat.Greeter else
  if one_of (field session_file (bytes_of "CLASS")) ["user"; "user-early"; "user-incomplete"]%string then Seat.User else Seat.Empty.

(** [seat_under]: [read] is what the files under [/run/systemd] hold. *)
Definition seat_under (read : list (list Z) -> option (list Z)) (seat : list Z) : Seat :=
  match read [bytes_of "seats"; seat] with
  | None => Seat.Empty
  | Some seat_file =>
      match field seat_file (bytes_of "ACTIVE") with
      | None => Seat.Empty
      | Some session_id => match read [bytes_of "sessions"; session_id] with None => Seat.Empty | Some session_file => classify session_file end
      end
  end.

(** ** What holds of them *)

(** Pieces put back together. *)
Fixpoint join (at_ : Z) (pieces : list (list Z)) : list Z :=
  match pieces with [] => [] | [p] => p | p :: pieces => p ++ at_ :: join at_ pieces end.

Lemma split_not_nil at_ s : split at_ s <> [].
Proof. induction s as [|c s IH]; [done|]. cbn. destruct (c =? at_); [done|]. by destruct (split at_ s). Qed.

Lemma join_split at_ s : join at_ (split at_ s) = s.
Proof.
  induction s as [|c s IH]; [done|]. cbn. pose proof (split_not_nil at_ s) as Hn. destruct (Z.eqb_spec c at_) as [->|].
  - destruct (split at_ s) as [|p ps]; [done|]. by rewrite <- IH.
  - destruct (split at_ s) as [|p [|q ps]]; [done|..]; by rewrite <- IH.
Qed.

(** The names a list of pieces holds. *)
Definition names (pieces : list (list Z)) : list (list Z) := filter (fun name => name <> []) (map trim pieces).

(** The loop gathers exactly the capabilities named, and stops at the first name
    that is none. *)
Lemma ceiling_loop_exact pieces ceiling :
  (forall c, ceiling_loop pieces ceiling = Good c <->
     Forall (fun name => is_Some (capability_named name)) (names pieces) /\ c = fold_left (fun c name => Z.lor c (default 0 (capability_named name))) (names pieces) ceiling) /\
  (forall e, ceiling_loop pieces ceiling = Bad e <->
     exists before name after, names pieces = before ++ name :: after /\ Forall (fun n => is_Some (capability_named n)) before /\ capability_named name = None /\ e = to_ascii_lowercase name).
Proof.
  revert ceiling. induction pieces as [|p pieces IH]; intros ceiling; cbn [ceiling_loop]; unfold names; cbn [map].
  - split; [intros c; split; [by intros [= <-]|by intros [_ ->]]|]. intros e. split; [done|]. by intros ([|] & ? & ? & ? & _).
  - case_bool_decide as Ep; [rewrite filter_cons_False by (by intros []); apply IH|]. rewrite filter_cons_True by done. fold (names pieces). destruct (capability_named (trim p)) as [k|] eqn:Ek.
    + destruct (IH (Capabilities.with_ ceiling k)) as [H1 H2]. split.
      * intros c. rewrite H1, list.Forall_cons. cbn. rewrite Ek. cbn. split; [intros [? ->]|intros [[_ ?] ->]]; by eauto.
      * intros e. rewrite H2. split; [intros (b & n & a & -> & Hb & ?); exists (trim p :: b), n, a; split; [done|split; [|done]]; constructor; [by rewrite Ek|done]|].
        intros ([|x b] & n & a & E & Hb & Hn & ->); injection E as <- E; [congruence|]. apply list.Forall_cons in Hb as [_ Hb]. by exists b, n, a.
    + split.
      * intros c. split; [done|]. rewrite list.Forall_cons, Ek. intros [[[] _] _]; done.
      * intros e. split; [intros [= <-]; by exists [], (trim p), (names pieces)|]. intros ([|x b] & n & a & E & Hb & Hn & ->); injection E as <- E; [done|]. apply list.Forall_cons in Hb as [[k Hk] _]. congruence.
Qed.

(** A ceiling written out in names, and read back. *)
Definition print_ceiling (c : Z) : list Z :=
  join 44 (List.concat (map (fun p => if Capabilities.contains c p.2 then [bytes_of p.1] else [])
    [("capture", Capabilities.CAPTURE); ("keyboard", Capabilities.KEYBOARD); ("mouse", Capabilities.MOUSE); ("gamepad", Capabilities.GAMEPAD); ("clipboard", Capabilities.CLIPBOARD)]%string)).

Lemma ceiling_round c : 0 <= c < 32 -> parse_ceiling (print_ceiling c) = Good c.
Proof.
  intros Hc. assert (H : forallb (fun n => bool_decide (parse_ceiling (print_ceiling (Z.of_nat n)) = Good (Z.of_nat n))) (seq 0 32) = true) by (vm_compute; reflexivity).
  rewrite forallb_forall in H. specialize (H (Z.to_nat c) ltac:(apply in_seq; lia)). apply bool_decide_eq_true in H. by rewrite Z2Nat.id in H by lia.
Qed.

(** The pairing's approval is never displaced. *)
Lemma pairing_wins pairing environment : carries pairing = true -> select pairing environment = Pairing.
Proof. unfold select. by intros ->. Qed.

(** A remote or a text session is nobody's seat. *)
Lemma classify_local session_file : classify session_file <> Seat.Empty ->
  field session_file (bytes_of "REMOTE") <> Some (bytes_of "1") /\ one_of (field session_file (bytes_of "TYPE")) ["wayland"; "x11"; "mir"]%string = true.
Proof. unfold classify. cbv zeta. case_bool_decide; [done|]. cbn [orb]. by destruct (one_of (field session_file (bytes_of "TYPE")) _). Qed.
