(* ===== verification/Connect.v ===== *)
(** * How a client reaches a host it is allowed to use
    ([signal-server/src/connect.rs])

    The Connect broker: presence, requests, approvals, and the two role
    credentials that each go to one party. A [HashMap] is a finite map; the order
    in which it is walked is a parameter. [Ran] is a run of the server: every
    operation takes the lock once, at a time that never goes back, and what each
    one answered is kept in a log. *)

From stdpp Require Import gmap sorting.
From S2P Require Import Prelude Fallible Ordering.
Open Scope Z_scope.

(** Instants and durations are nanoseconds. *)
Definition PRESENCE_TTL : Z := 90 * 1000000000.
Definition REQUEST_TTL : Z := 120 * 1000000000.
Definition APPROVAL_TTL : Z := 60 * 1000000000.
Definition MAX_PENDING_REQUESTS : Z := 1024.
Definition MAX_TRACKED_PRESENCE : Z := 4096.
Definition MAX_REQUESTS_PER_ACCOUNT : Z := 16.

Notation str := (list Z).

Record Party := mkParty { pa_account_id : str; pa_device_id : str }.
#[export] Instance Party_eq_dec : EqDecision Party.
Proof. solve_decision. Defined.

Record Permissions := mkPermissions {
  pm_view : bool; pm_keyboard : bool; pm_mouse : bool; pm_gamepad : bool;
  pm_clipboard : bool; pm_microphone : bool; pm_tablet : bool; pm_virtual_usb : bool;
}.
Definition no_permissions : Permissions := mkPermissions false false false false false false false false.

Record SessionGrant := mkSessionGrant { sg_session_id : str; sg_host_credential : str; sg_client_credential : str }.

Inductive ConnectState := Pending | Approved | Denied | Expired.
#[export] Instance ConnectState_eq_dec : EqDecision ConnectState.
Proof. solve_decision. Defined.

Inductive ConnectError := NotFound | Forbidden | InvalidState | AlreadyApproved | NotPublished | TargetOffline | TargetNotConnectable | Busy.

Record ConnectRequest := mkRequest {
  cr_request_id : str;
  cr_account_id : str;
  cr_requester_device_id : str;
  cr_target_device_id : str;
  cr_state : ConnectState;
  cr_created_at : Z;
  cr_expires_at : Z;
  cr_requested : Permissions;
  cr_granted : Permissions;
  cr_session_id : option str;
  cr_published : bool;
  cr_host_credential : option str;
  cr_client_credential : option str;
}.
#[export] Instance eta_ConnectRequest : Eta ConnectRequest := fun r =>
  mkRequest (cr_request_id r) (cr_account_id r) (cr_requester_device_id r) (cr_target_device_id r) (cr_state r) (cr_created_at r) (cr_expires_at r)
    (cr_requested r) (cr_granted r) (cr_session_id r) (cr_published r) (cr_host_credential r) (cr_client_credential r).

Definition is_expired (now : Z) (r : ConnectRequest) : bool := cr_expires_at r <=? now.

Record Presence := mkPresence { pr_account_id_hash : Z; pr_last_seen : Z }.

Record ConnectBroker := mkBroker { cb_requests : gmap str ConnectRequest; cb_presence : gmap str Presence }.
#[export] Instance eta_ConnectBroker : Eta ConnectBroker := fun b => mkBroker (cb_requests b) (cb_presence b).

Definition broker_new : ConnectBroker := mkBroker ∅ ∅.

Definition saturating_duration_since (now then_ : Z) : Z := Z.max 0 (now - then_).

Definition size_ {V} (m : gmap str V) : Z := Z.of_nat (size m).

(** Who a request is for, and who made it. *)
Definition is_target (p : Party) (r : ConnectRequest) : bool :=
  bool_decide (cr_account_id r = pa_account_id p) && bool_decide (cr_target_device_id r = pa_device_id p).
Definition is_requester (p : Party) (r : ConnectRequest) : bool :=
  bool_decide (cr_account_id r = pa_account_id p) && bool_decide (cr_requester_device_id r = pa_device_id p).

Definition expire (now : Z) (b : ConnectBroker) : ConnectBroker :=
  mkBroker (filter (fun e => is_expired now e.2 = false) (cb_requests b))
           (filter (fun e => saturating_duration_since now (pr_last_seen e.2) < PRESENCE_TTL) (cb_presence b)).

Section Broker.
(** The digest of an account id, and the order a map is walked in. *)
Variable account_digest : str -> Z.
Variable walk : forall V, gmap str V -> list (str * V).

(** [min_by_key]: the first of the entries with the least key. *)
Definition stalest (entries : list (str * Presence)) : option (str * Presence) :=
  fold_left (fun best e => match best with None => Some e | Some b => if pr_last_seen e.2 <? pr_last_seen b.2 then Some e else Some b end) entries None.

Definition heartbeat (account_id device_id : str) (now : Z) (b : ConnectBroker) : ConnectBroker :=
  let b := expire now b in
  let b := if (MAX_TRACKED_PRESENCE <=? size_ (cb_presence b)) && bool_decide (cb_presence b !! device_id = None)
           then match stalest (walk _ (cb_presence b)) with Some (device, _) => b <| cb_presence := delete device (cb_presence b) |> | None => b end
           else b in
  b <| cb_presence := <[device_id := mkPresence (account_digest account_id) now]> (cb_presence b) |>.

Definition is_online (account_id device_id : str) (now : Z) (b : ConnectBroker) : bool :=
  match cb_presence b !! device_id with
  | Some entry => (pr_account_id_hash entry =? account_digest account_id) && (saturating_duration_since now (pr_last_seen entry) <? PRESENCE_TTL)
  | None => false
  end.

Definition go_offline (device_id : str) (b : ConnectBroker) : ConnectBroker := b <| cb_presence := delete device_id (cb_presence b) |>.

(** How many requests an account has. *)
Definition held (account_id : str) (b : ConnectBroker) : Z := size_ (filter (fun e => cr_account_id e.2 = account_id) (cb_requests b)).

Definition request_scoped (request_id account_id requester target : str) (requested : Permissions) (now : Z) (b : ConnectBroker)
    : ConnectBroker * fallible ConnectError ConnectRequest :=
  let b := expire now b in
  if negb (is_online account_id target now b) then (b, Bad TargetOffline) else
  if bool_decide (requester = target) then (b, Bad TargetNotConnectable) else
  if MAX_PENDING_REQUESTS <=? size_ (cb_requests b) then (b, Bad Busy) else
  if MAX_REQUESTS_PER_ACCOUNT <=? held account_id b then (b, Bad Busy) else
  let request := mkRequest request_id account_id requester target Pending now (now + REQUEST_TTL) requested no_permissions None false None None in
  (b <| cb_requests := <[request_id := request]> (cb_requests b) |>, Good request).

Definition pending_for_target (account_id target : str) (now : Z) (b : ConnectBroker) : ConnectBroker * list ConnectRequest :=
  let b := expire now b in
  (b, sort_by (cmp_on cr_created_at Z.compare)
        (List.filter (fun r => bool_decide (cr_state r = Pending) && is_target (mkParty account_id target) r) (map snd (walk _ (cb_requests b))))).

Definition approve_scoped (request_id : str) (answered_by : Party) (grant : SessionGrant) (granted : Permissions) (now : Z) (b : ConnectBroker)
    : ConnectBroker * fallible ConnectError ConnectRequest :=
  let b := expire now b in
  match cb_requests b !! request_id with
  | None => (b, Bad NotFound)
  | Some r =>
      if negb (is_target answered_by r) then (b, Bad Forbidden) else
      if bool_decide (cr_state r = Approved) then (b, Bad AlreadyApproved) else
      if negb (bool_decide (cr_state r = Pending)) then (b, Bad InvalidState) else
      let r := r <| cr_state := Approved |> <| cr_granted := granted |> <| cr_session_id := Some (sg_session_id grant) |>
                 <| cr_host_credential := Some (sg_host_credential grant) |> <| cr_client_credential := Some (sg_client_credential grant) |>
                 <| cr_expires_at := now + APPROVAL_TTL |> in
      (b <| cb_requests := <[request_id := r]> (cb_requests b) |>, Good r)
  end.

Definition deny (request_id account_id target : str) (now : Z) (b : ConnectBroker) : ConnectBroker * fallible ConnectError () :=
  let b := expire now b in
  match cb_requests b !! request_id with
  | None => (b, Bad NotFound)
  | Some r =>
      if negb (is_target (mkParty account_id target) r) then (b, Bad Forbidden) else
      if negb (bool_decide (cr_state r = Pending)) then (b, Bad InvalidState) else
      (b <| cb_requests := <[request_id := r <| cr_state := Denied |> <| cr_expires_at := now + APPROVAL_TTL |>]> (cb_requests b) |>, Good tt)
  end.

(** What the two collections share: the session and one credential, for the
    party [who] admits. *)
Definition collect (who : ConnectRequest -> bool) (credential : ConnectRequest -> option str) (request_id : str) (b : ConnectBroker) : fallible ConnectError (str * str) :=
  match cb_requests b !! request_id with
  | None => Bad NotFound
  | Some r =>
      if negb (who r) then Bad Forbidden else
      if negb (bool_decide (cr_state r = Approved)) then Bad InvalidState else
      if negb (cr_published r) then Bad NotPublished else
      match cr_session_id r, credential r with Some session_id, Some c => Good (session_id, c) | _, _ => Bad InvalidState end
  end.

Definition collect_host_credential (request_id : str) (answered_by : Party) (now : Z) (b : ConnectBroker) : ConnectBroker * fallible ConnectError (str * str) :=
  let b := expire now b in (b, collect (is_target answered_by) cr_host_credential request_id b).
Definition collect_client_credential (request_id : str) (asked_by : Party) (now : Z) (b : ConnectBroker) : ConnectBroker * fallible ConnectError (str * str) :=
  let b := expire now b in (b, collect (is_requester asked_by) cr_client_credential request_id b).

Definition granted_permissions (request_id : str) (b : ConnectBroker) : Permissions :=
  match cb_requests b !! request_id with Some r => cr_granted r | None => no_permissions end.
Definition requester_device (request_id : str) (b : ConnectBroker) : option str := cr_requester_device_id <$> cb_requests b !! request_id.
Definition requester_for_target (request_id : str) (target : Party) (b : ConnectBroker) : option str :=
  match cb_requests b !! request_id with Some r => if is_target target r then Some (cr_requester_device_id r) else None | None => None end.

Definition minted_credentials (request_id : str) (answered_by : Party) (b : ConnectBroker) : fallible ConnectError (str * str) :=
  match cb_requests b !! request_id with
  | None => Bad NotFound
  | Some r =>
      if negb (is_target answered_by r) then Bad Forbidden else
      match cr_host_credential r, cr_client_credential r with Some host, Some client => Good (host, client) | _, _ => Bad InvalidState end
  end.

Definition mark_published (request_id : str) (b : ConnectBroker) : ConnectBroker :=
  b <| cb_requests := alter (fun r => r <| cr_published := true |>) request_id (cb_requests b) |>.
Definition withdraw (request_id : str) (b : ConnectBroker) : ConnectBroker := b <| cb_requests := delete request_id (cb_requests b) |>.

Definition observe (request_id account_id requester : str) (now : Z) (b : ConnectBroker) : ConnectBroker * fallible ConnectError ConnectState :=
  let b := expire now b in
  (b, match cb_requests b !! request_id with
      | None => Bad NotFound
      | Some r => if negb (is_requester (mkParty account_id requester) r) then Bad Forbidden else Good (cr_state r)
      end).

(** ** Operations and runs *)

Inductive Op :=
  | OpHeartbeat (account_id device_id : str)
  | OpGoOffline (device_id : str)
  | OpRequest (request_id account_id requester target : str) (requested : Permissions)
  | OpPending (account_id target : str)
  | OpApprove (request_id : str) (answered_by : Party) (grant : SessionGrant) (granted : Permissions)
  | OpDeny (request_id account_id target : str)
  | OpCollectHost (request_id : str) (answered_by : Party)
  | OpCollectClient (request_id : str) (asked_by : Party)
  | OpMarkPublished (request_id : str)
  | OpWithdraw (request_id : str)
  | OpObserve (request_id account_id requester : str).

Inductive Answer :=
  | Done
  | Requested (r : fallible ConnectError ConnectRequest)
  | Listed (l : list ConnectRequest)
  | Denial (r : fallible ConnectError ())
  | Collected (r : fallible ConnectError (str * str))
  | Observed (r : fallible ConnectError ConnectState).

Definition exec (now : Z) (op : Op) (b : ConnectBroker) : ConnectBroker * Answer :=
  match op with
  | OpHeartbeat account_id device_id => (heartbeat account_id device_id now b, Done)
  | OpGoOffline device_id => (go_offline device_id b, Done)
  | OpRequest request_id account_id requester target requested => let '(b, r) := request_scoped request_id account_id requester target requested now b in (b, Requested r)
  | OpPending account_id target => let '(b, l) := pending_for_target account_id target now b in (b, Listed l)
  | OpApprove request_id answered_by grant granted => let '(b, r) := approve_scoped request_id answered_by grant granted now b in (b, Requested r)
  | OpDeny request_id account_id target => let '(b, r) := deny request_id account_id target now b in (b, Denial r)
  | OpCollectHost request_id answered_by => let '(b, r) := collect_host_credential request_id answered_by now b in (b, Collected r)
  | OpCollectClient request_id asked_by => let '(b, r) := collect_client_credential request_id asked_by now b in (b, Collected r)
  | OpMarkPublished request_id => (mark_published request_id b, Done)
  | OpWithdraw request_id => (withdraw request_id b, Done)
  | OpObserve request_id account_id requester => let '(b, r) := observe request_id account_id requester now b in (b, Observed r)
  end.

Record Entry := mkEntry { en_at : Z; en_op : Op; en_answer : Answer }.

(** Request ids are drawn afresh: one is never asked for twice. *)
Definition names_request (request_id : str) (op : Op) : Prop :=
  match op with OpRequest id _ _ _ _ => id = request_id | _ => False end.

Inductive Ran : ConnectBroker -> Z -> list Entry -> Prop :=
  | ran_start now : Ran broker_new now []
  | ran_op b now log at_ op : Ran b now log -> now <= at_ ->
      (forall id a q t p, op = OpRequest id a q t p -> Forall (fun e => ~ names_request id (en_op e)) log) ->
      Ran (exec at_ op b).1 at_ (log ++ [mkEntry at_ op (exec at_ op b).2]).

(** ** What an operation does to one request *)

Definition approved (now : Z) (grant : SessionGrant) (granted : Permissions) (r : ConnectRequest) : ConnectRequest :=
  r <| cr_state := Approved |> <| cr_granted := granted |> <| cr_session_id := Some (sg_session_id grant) |>
    <| cr_host_credential := Some (sg_host_credential grant) |> <| cr_client_credential := Some (sg_client_credential grant) |> <| cr_expires_at := now + APPROVAL_TTL |>.

Lemma expire_lookup now b id r : cb_requests (expire now b) !! id = Some r <-> cb_requests b !! id = Some r /\ now < cr_expires_at r.
Proof. cbn. rewrite map_lookup_filter_Some. unfold is_expired. cbn. rewrite Z.leb_gt. tauto. Qed.

Lemma heartbeat_requests account_id device_id now b : cb_requests (heartbeat account_id device_id now b) = cb_requests (expire now b).
Proof. unfold heartbeat. destruct (_ && _); [|done]. by destruct (stalest _) as [[]|]. Qed.

(** How a request of the state after an operation came to be there. *)
Inductive Came (now : Z) (b : ConnectBroker) (op : Op) (answer : Answer) (id : str) (r : ConnectRequest) : Prop :=
  | came_kept : cb_requests b !! id = Some r -> Came now b op answer id r
  | came_asked account requester target requested : op = OpRequest id account requester target requested -> requester <> target -> answer = Requested (Good r) ->
      r = mkRequest id account requester target Pending now (now + REQUEST_TTL) requested no_permissions None false None None -> Came now b op answer id r
  | came_approved r0 answered_by grant granted : op = OpApprove id answered_by grant granted -> answer = Requested (Good r) -> cb_requests b !! id = Some r0 ->
      cr_state r0 = Pending -> is_target answered_by r0 = true -> r = approved now grant granted r0 -> Came now b op answer id r
  | came_denied r0 account target : op = OpDeny id account target -> cb_requests b !! id = Some r0 -> cr_state r0 = Pending ->
      r = r0 <| cr_state := Denied |> <| cr_expires_at := now + APPROVAL_TTL |> -> Came now b op answer id r
  | came_published r0 : op = OpMarkPublished id -> cb_requests b !! id = Some r0 -> r = r0 <| cr_published := true |> -> Came now b op answer id r.

Lemma kept_after_expire now b op answer id r : cb_requests (expire now b) !! id = Some r -> Came now b op answer id r.
Proof. intros [H _]%expire_lookup. by apply came_kept. Qed.

Lemma exec_came now op b id r : cb_requests (exec now op b).1 !! id = Some r -> Came now b op (exec now op b).2 id r.
Proof.
  destruct op; cbn [exec].
  - cbn [fst]. rewrite heartbeat_requests. apply kept_after_expire.
  - cbn. apply came_kept.
  - unfold request_scoped. destruct (negb _); [apply kept_after_expire|]. case_bool_decide as En; [apply kept_after_expire|]. destruct (_ <=? _); [apply kept_after_expire|]. destruct (_ <=? _); [apply kept_after_expire|].
    cbn. intros [[<- <-]|[_ Hm]]%lookup_insert_Some; [by eapply came_asked|by apply kept_after_expire].
  - cbn [pending_for_target fst]. apply kept_after_expire.
  - unfold approve_scoped. destruct (cb_requests (expire now b) !! request_id) as [r0|] eqn:E; [|apply kept_after_expire]. destruct (is_target answered_by r0) eqn:Et; [|apply kept_after_expire]. cbn [negb].
    case_bool_decide; [apply kept_after_expire|]. destruct (bool_decide (cr_state r0 = Pending)) eqn:Ep; [|apply kept_after_expire]. apply bool_decide_eq_true in Ep. apply expire_lookup in E as [E _]. cbn.
    intros [[<- <-]|[_ Hm]]%lookup_insert_Some; [by eapply came_approved|by apply kept_after_expire].
  - unfold deny. destruct (cb_requests (expire now b) !! request_id) as [r0|] eqn:E; [|apply kept_after_expire]. destruct (negb _); [apply kept_after_expire|]. destruct (bool_decide (cr_state r0 = Pending)) eqn:Ep; [|apply kept_after_expire].
    apply bool_decide_eq_true in Ep. apply expire_lookup in E as [E _]. cbn. intros [[<- <-]|[_ Hm]]%lookup_insert_Some; [by eapply came_denied|by apply kept_after_expire].
  - apply kept_after_expire.
  - apply kept_after_expire.
  - cbn. intros [[-> (r0 & Hr0 & ->)]|[_ Hm]]%lookup_alter_Some; [by eapply came_published|by apply came_kept].
  - cbn. intros [_ Hm]%lookup_delete_Some. by apply came_kept.
  - apply kept_after_expire.
Qed.

(** What a successful answer says of the state it was given in. *)
Lemma approve_good now b id p grant granted r : (approve_scoped id p grant granted now b).2 = Good r ->
  exists r0, cb_requests b !! id = Some r0 /\ now < cr_expires_at r0 /\ cr_state r0 = Pending /\ is_target p r0 = true /\ r = approved now grant granted r0 /\
    cb_requests (approve_scoped id p grant granted now b).1 !! id = Some r.
Proof.
  unfold approve_scoped. destruct (cb_requests (expire now b) !! id) as [r0|] eqn:E; [|done]. destruct (is_target p r0) eqn:Et; [|done]. cbn [negb]. case_bool_decide; [done|]. case_bool_decide; [|done].
  intros [= <-]. apply expire_lookup in E as [E Hn]. exists r0. do 5 (split; [done|]). cbn. by rewrite lookup_insert_eq.
Qed.

Lemma collect_gives who credential id b s c : collect who credential id b = Good (s, c) <->
  exists r, cb_requests b !! id = Some r /\ who r = true /\ cr_state r = Approved /\ cr_published r = true /\ cr_session_id r = Some s /\ credential r = Some c.
Proof.
  unfold collect. destruct (cb_requests b !! id) as [r|]; [|split; [done|by intros (? & ? & _)]]. split.
  - destruct (who r) eqn:Ew; [|done]. cbn [negb]. case_bool_decide as Es; [|done]. cbn [negb]. destruct (cr_published r) eqn:Ep; [|done]. cbn [negb]. destruct (cr_session_id r) eqn:E1; [|done]. destruct (credential r) eqn:E2; [|done]. intros [= -> ->]. by exists r.
  - intros (? & [= <-] & -> & -> & -> & -> & ->). done.
Qed.

(** ** What the log says *)

Definition Approves (e : Entry) (id : str) (p : Party) (g : SessionGrant) (granted : Permissions) : Prop :=
  en_op e = OpApprove id p g granted /\ exists r, en_answer e = Requested (Good r).

(** The device [q] asked the device [p] of its own account, and [p] approved at
    [at_], with the session [g]. *)
Definition Agreed (log : list Entry) (id : str) (p q : Party) (g : SessionGrant) (at_ : Z) : Prop :=
  pa_account_id q = pa_account_id p /\ pa_device_id q <> pa_device_id p /\
  (exists ea requested, ea ∈ log /\ en_op ea = OpRequest id (pa_account_id p) (pa_device_id q) (pa_device_id p) requested) /\
  exists e granted, e ∈ log /\ Approves e id p g granted /\ en_at e = at_.

Definition published_in (log : list Entry) (id : str) : Prop := exists e, e ∈ log /\ en_op e = OpMarkPublished id.

Definition target_of (r : ConnectRequest) : Party := mkParty (cr_account_id r) (cr_target_device_id r).
Definition requester_of (r : ConnectRequest) : Party := mkParty (cr_account_id r) (cr_requester_device_id r).

Definition holds (g : SessionGrant) (r : ConnectRequest) : Prop :=
  cr_state r = Approved /\ cr_session_id r = Some (sg_session_id g) /\ cr_host_credential r = Some (sg_host_credential g) /\ cr_client_credential r = Some (sg_client_credential g).

(** A request as the log has it. *)
Record ReqInv (log : list Entry) (id : str) (r : ConnectRequest) : Prop := mkReqInv {
  ri_asked : cr_requester_device_id r <> cr_target_device_id r /\
    exists ea requested, ea ∈ log /\ en_op ea = OpRequest id (cr_account_id r) (cr_requester_device_id r) (cr_target_device_id r) requested;
  ri_state : match cr_state r with
             | Approved => exists e g granted, e ∈ log /\ Approves e id (target_of r) g granted /\ holds g r /\ cr_expires_at r = en_at e + APPROVAL_TTL
             | Pending | Denied => cr_session_id r = None /\ cr_host_credential r = None /\ cr_client_credential r = None
             | Expired => False
             end;
  ri_published : cr_published r = true -> published_in log id;
}.

Record RunInv (b : ConnectBroker) (now : Z) (log : list Entry) : Prop := mkRunInv {
  ru_time : forall e, e ∈ log -> en_at e <= now;
  ru_req : forall id r, cb_requests b !! id = Some r -> ReqInv log id r;
  ru_asked : forall e e' id a q t p a' q' t' p', e ∈ log -> e' ∈ log -> en_op e = OpRequest id a q t p -> en_op e' = OpRequest id a' q' t' p' -> a = a' /\ q = q' /\ t = t';
  ru_approved : forall e id p g granted, e ∈ log -> Approves e id p g granted ->
    (exists ea, ea ∈ log /\ names_request id (en_op ea)) /\
    (forall r, cb_requests b !! id = Some r -> target_of r = p /\ holds g r /\ cr_expires_at r = en_at e + APPROVAL_TTL);
  ru_once : forall e e' id p g granted p' g' granted', e ∈ log -> e' ∈ log -> Approves e id p g granted -> Approves e' id p' g' granted' -> p = p' /\ g = g' /\ en_at e = en_at e';
  ru_host : forall e id p s c, e ∈ log -> en_op e = OpCollectHost id p -> en_answer e = Collected (Good (s, c)) ->
    exists q g at_, Agreed log id p q g at_ /\ s = sg_session_id g /\ c = sg_host_credential g /\ at_ <= en_at e < at_ + APPROVAL_TTL /\ published_in log id;
  ru_client : forall e id q s c, e ∈ log -> en_op e = OpCollectClient id q -> en_answer e = Collected (Good (s, c)) ->
    exists p g at_, Agreed log id p q g at_ /\ s = sg_session_id g /\ c = sg_client_credential g /\ at_ <= en_at e < at_ + APPROVAL_TTL /\ published_in log id;
}.

Lemma in_snoc {A} (l : list A) x y : y ∈ l ++ [x] <-> y ∈ l \/ y = x.
Proof. by rewrite elem_of_app, list_elem_of_singleton. Qed.

Lemma agreed_more log e id p q g at_ : Agreed log id p q g at_ -> Agreed (log ++ [e]) id p q g at_.
Proof.
  intros (H1 & H2 & (ea & rq & H3 & H4) & e' & gr & H5 & H6 & H7). split; [done|]. split; [done|]. split; [exists ea, rq|exists e', gr]; rewrite in_snoc; tauto.
Qed.

Lemma published_more log e id : published_in log id -> published_in (log ++ [e]) id.
Proof. intros (x & ? & ?). exists x. rewrite in_snoc. tauto. Qed.

Lemma req_more log e id r : ReqInv log id r -> ReqInv (log ++ [e]) id r.
Proof.
  intros [[H1 (ea & rq & H2 & H3)] H4 H5]. split.
  - split; [done|]. exists ea, rq. rewrite in_snoc. tauto.
  - destruct (cr_state r); try done. destruct H4 as (x & g & gr & ? & ? & ?). exists x, g, gr. rewrite in_snoc. tauto.
  - intros Hp. by apply published_more, H5.
Qed.

Lemma is_target_of p r : is_target p r = true <-> target_of r = p.
Proof. unfold is_target, target_of. rewrite andb_true_iff, !bool_decide_eq_true. destruct p; cbn. split; [intros [-> ->]; done|intros [= -> ->]; done]. Qed.
Lemma is_requester_of p r : is_requester p r = true <-> requester_of r = p.
Proof. unfold is_requester, requester_of. rewrite andb_true_iff, !bool_decide_eq_true. destruct p; cbn. split; [intros [-> ->]; done|intros [= -> ->]; done]. Qed.

(** The requests after an operation are as the longer log has them. *)
Lemma came_req b now log at_ op id r : RunInv b now log ->
  Came at_ b op (exec at_ op b).2 id r -> ReqInv (log ++ [mkEntry at_ op (exec at_ op b).2]) id r.
Proof.
  intros HI HC. set (e := mkEntry at_ op (exec at_ op b).2). assert (He : e ∈ log ++ [e]) by (rewrite in_snoc; by right).
  destruct HC as [Hk|a q t rq Hop Hne Hans Hr|r0 p g gr Hop Hans H0 Hs Ht Hr|r0 a t Hop H0 Hs Hr|r0 Hop H0 Hr].
  - by apply req_more, (ru_req _ _ _ HI).
  - subst r. split; cbn; [|done|done]. split; [done|]. exists e, rq. by split.
  - subst r. destruct (req_more _ e _ _ (ru_req _ _ _ HI _ _ H0)) as [R1 R2 R3]. rewrite Hs in R2. apply is_target_of in Ht. split; cbn; [done| |done].
    exists e, g, gr. split; [done|]. split; [|done]. split; [cbn; rewrite Hop; f_equal; exact (eq_sym Ht)|]. eexists. exact Hans.
  - subst r. destruct (req_more _ e _ _ (ru_req _ _ _ HI _ _ H0)) as [R1 R2 R3]. rewrite Hs in R2. by split.
  - subst r. destruct (req_more _ e _ _ (ru_req _ _ _ HI _ _ H0)) as [R1 R2 R3]. split; cbn; [done| |].
    + destruct (cr_state r0) eqn:Es; try done. destruct R2 as (x & g & gr & ? & ? & [? ?] & ?). exists x, g, gr. split; [done|]. split; [done|]. split; [|done]. by split.
    + intros _. exists e. by split.
Qed.

(** A request that can be collected from was agreed on. *)
Lemma collectable b now log id r : RunInv b now log -> cb_requests b !! id = Some r -> cr_state r = Approved -> cr_published r = true ->
  exists g at_, Agreed log id (target_of r) (requester_of r) g at_ /\ holds g r /\ cr_expires_at r = at_ + APPROVAL_TTL /\ at_ <= now /\ published_in log id.
Proof.
  intros HI Hr Hs Hp. destruct (ru_req _ _ _ HI _ _ Hr) as [[R1 (ea & rq & R2 & R3)] R4 R5]. rewrite Hs in R4. destruct R4 as (e & g & gr & He & HA & Hh & Hx).
  exists g, (en_at e). split; [|split; [done|split; [done|split; [by apply (ru_time _ _ _ HI)|by apply R5]]]]. split; [done|]. split; [done|]. split; [by exists ea, rq|]. by exists e, gr.
Qed.
Lemma run_inv_step b now log at_ op : RunInv b now log -> now <= at_ ->
  (forall id a q t p, op = OpRequest id a q t p -> Forall (fun e => ~ names_request id (en_op e)) log) ->
  RunInv (exec at_ op b).1 at_ (log ++ [mkEntry at_ op (exec at_ op b).2]).
Proof.
  intros HI Hle Hfresh. set (e := mkEntry at_ op (exec at_ op b).2). pose proof HI as [U1 U2 U3 U4 U5 U6 U7].
  assert (Hnew : forall e0 id a q t p, e0 ∈ log -> op = OpRequest id a q t p -> ~ names_request id (en_op e0)) by (intros e0 id a q t p H0 Hop; specialize (Hfresh _ _ _ _ _ Hop); rewrite list.Forall_forall in Hfresh; by apply Hfresh).
  assert (Hgood : forall id p g gr, Approves e id p g gr -> exists r0, cb_requests b !! id = Some r0 /\ at_ < cr_expires_at r0 /\ cr_state r0 = Pending /\ is_target p r0 = true /\ cb_requests (exec at_ op b).1 !! id = Some (approved at_ g gr r0)).
  { intros id p g gr [Hop [r Hr]]. cbn in Hop. subst e op. cbn in Hr |- *. destruct (approve_scoped id p g gr at_ b) as [b' [r'|]] eqn:E; cbn in Hr; [|done]. injection Hr as ->.
    pose proof (approve_good at_ b id p g gr r) as HG. rewrite E in HG. destruct (HG eq_refl) as (r0 & H1 & H2 & H3 & H4 & -> & H6). exists r0. done. }
  split.
  - intros x [Hx| ->]%in_snoc; [specialize (U1 x Hx); lia|done].
  - intros id r Hr. by apply (came_req b now), exec_came.
  - intros x x' id a q t p a' q' t' p' [Hx| ->]%in_snoc [Hx'| ->]%in_snoc E1 E2.
    + exact (U3 _ _ _ _ _ _ _ _ _ _ _ Hx Hx' E1 E2).
    + destruct (Hnew x id _ _ _ _ Hx E2). by rewrite E1.
    + destruct (Hnew x' id _ _ _ _ Hx' E1). by rewrite E2.
    + rewrite E1 in E2. by injection E2 as -> -> ->.
  - intros x id p g gr [Hx| ->]%in_snoc HA.
    + destruct (U4 x id p g gr Hx HA) as ((ea & Hea & Hn) & Hr). split; [exists ea; rewrite in_snoc; tauto|].
      intros r [Hk|a q t rq Hop _ _ _|r0 p' g' gr' Hop _ H0 Hs _ _|r0 a t Hop H0 Hs _|r0 Hop H0 ->]%exec_came.
      * by apply Hr.
      * destruct (Hnew ea id _ _ _ _ Hea Hop Hn).
      * destruct (Hr r0 H0) as (_ & [Ha _] & _). congruence.
      * destruct (Hr r0 H0) as (_ & [Ha _] & _). congruence.
      * destruct (Hr r0 H0) as (? & [? ?] & ?). split; [done|]. split; [by split|done].
    + destruct (Hgood _ _ _ _ HA) as (r0 & H0 & _ & _ & Ht & H1). split.
      * destruct (U2 _ _ H0) as [[_ (ea & rq & Hea & Ho)] _ _]. exists ea. rewrite in_snoc, Ho. split; [by left|done].
      * intros r Hr. rewrite H1 in Hr. injection Hr as <-. apply is_target_of in Ht. split; [done|]. by split.
  - intros x x' id p g gr p' g' gr' [Hx| ->]%in_snoc [Hx'| ->]%in_snoc HA HA'.
    + exact (U5 _ _ _ _ _ _ _ _ _ Hx Hx' HA HA').
    + destruct (Hgood _ _ _ _ HA') as (r0 & H0 & _ & Hs & _). destruct (proj2 (U4 _ _ _ _ _ Hx HA) _ H0) as (_ & [Ha _] & _). congruence.
    + destruct (Hgood _ _ _ _ HA) as (r0 & H0 & _ & Hs & _). destruct (proj2 (U4 _ _ _ _ _ Hx' HA') _ H0) as (_ & [Ha _] & _). congruence.
    + destruct HA as [E1 _], HA' as [E2 _]. rewrite E1 in E2. by injection E2 as -> -> ->.
  - intros x id p s c [Hx| ->]%in_snoc Eo Ea.
    + destruct (U6 _ _ _ _ _ Hx Eo Ea) as (q & g & t & HA & ? & ? & ? & ?). exists q, g, t. split; [by apply agreed_more|]. do 3 (split; [done|]). by apply published_more.
    + cbn in Eo. subst e op. cbn [exec collect_host_credential en_answer en_at snd] in *. injection Ea as Ea. apply collect_gives in Ea as (r & [Hr Hx]%expire_lookup & Ht & Hs & Hp & E1 & E2). apply is_target_of in Ht.
      destruct (collectable _ _ _ _ _ HI Hr Hs Hp) as (g & t & HA & (_ & G1 & G2 & G3) & Ex & Hle' & Hpub). rewrite Ht in HA. exists (requester_of r), g, t. split; [by apply agreed_more|]. split; [congruence|]. split; [congruence|]. split; [lia|by apply published_more].
  - intros x id q s c [Hx| ->]%in_snoc Eo Ea.
    + destruct (U7 _ _ _ _ _ Hx Eo Ea) as (p & g & t & HA & ? & ? & ? & ?). exists p, g, t. split; [by apply agreed_more|]. do 3 (split; [done|]). by apply published_more.
    + cbn in Eo. subst e op. cbn [exec collect_client_credential en_answer en_at snd] in *. injection Ea as Ea. apply collect_gives in Ea as (r & [Hr Hx]%expire_lookup & Ht & Hs & Hp & E1 & E2). apply is_requester_of in Ht.
      destruct (collectable _ _ _ _ _ HI Hr Hs Hp) as (g & t & HA & (_ & G1 & G2 & G3) & Ex & Hle' & Hpub). rewrite Ht in HA. exists (target_of r), g, t. split; [by apply agreed_more|]. split; [congruence|]. split; [congruence|]. split; [lia|by apply published_more].
Qed.

Lemma ran_inv b now log : Ran b now log -> RunInv b now log.
Proof.
  induction 1 as [now|b now log at_ op _ IH Hle Hf]; [|by apply run_inv_step with now].
  split; intros; match goal with H : _ ∈ [] |- _ => by apply elem_of_nil in H | H : _ !! _ = Some _ |- _ => cbn in H; by rewrite lookup_empty in H end.
Qed.

(** An id names one agreement. *)
Lemma agreed_once b now log id p q g t p' q' g' t' : RunInv b now log -> Agreed log id p q g t -> Agreed log id p' q' g' t' -> p = p' /\ q = q' /\ g = g' /\ t = t'.
Proof.
  intros HI (A1 & A2 & (ea & rq & A3 & A4) & e & gr & A5 & A6 & A7) (B1 & B2 & (ea' & rq' & B3 & B4) & e' & gr' & B5 & B6 & B7).
  destruct (ru_once _ _ _ HI _ _ _ _ _ _ _ _ _ A5 B5 A6 B6) as (-> & -> & Et). destruct (ru_asked _ _ _ HI _ _ _ _ _ _ _ _ _ _ _ A3 B3 A4 B4) as (_ & Eq & _).
  split; [done|]. split; [|split; [done|congruence]]. destruct q, q'; cbn in *; congruence.
Qed.
(** An approved request stays as it is until it runs out or is withdrawn. *)
Lemma exec_keeps now op b id r : cb_requests b !! id = Some r -> now < cr_expires_at r -> cr_state r = Approved ->
  op <> OpWithdraw id -> (forall a q t p, op <> OpRequest id a q t p) ->
  exists r', cb_requests (exec now op b).1 !! id = Some r' /\ (r' = r \/ r' = r <| cr_published := true |>) /\ (op = OpMarkPublished id -> r' = r <| cr_published := true |>).
Proof.
  intros Hr Hn Hs Hw Hq. assert (He : cb_requests (expire now b) !! id = Some r) by by apply expire_lookup.
  assert (Hsame : forall m : gmap str ConnectRequest, m !! id = Some r -> op <> OpMarkPublished id ->
    exists r', m !! id = Some r' /\ (r' = r \/ r' = r <| cr_published := true |>) /\ (op = OpMarkPublished id -> r' = r <| cr_published := true |>)) by (intros m Hm Ho; exists r; split; [done|split; [by left|done]]).
  destruct op; cbn [exec].
  - apply Hsame; [|done]. cbn [fst]. by rewrite heartbeat_requests.
  - by apply Hsame.
  - apply Hsame; [|done]. unfold request_scoped. destruct (negb _); [done|]. case_bool_decide; [done|]. do 2 (destruct (_ <=? _); [done|]). cbn. rewrite lookup_insert_ne; [done|]. intros ->. by eapply Hq.
  - by apply Hsame.
  - apply Hsame; [|done]. unfold approve_scoped. destruct (cb_requests (expire now b) !! request_id) as [r0|] eqn:E; [|done]. destruct (negb _); [done|]. case_bool_decide as E1; [done|]. destruct (negb _) eqn:E2; [done|].
    cbn. rewrite lookup_insert_ne; [done|]. intros ->. congruence.
  - apply Hsame; [|done]. unfold deny. destruct (cb_requests (expire now b) !! request_id) as [r0|] eqn:E; [|done]. destruct (negb _); [done|]. destruct (bool_decide (cr_state r0 = Pending)) eqn:E2; [|done]. apply bool_decide_eq_true in E2.
    cbn. rewrite lookup_insert_ne; [done|]. intros ->. congruence.
  - by apply Hsame.
  - by apply Hsame.
  - cbn. destruct (decide (request_id = id)) as [->|Hne]; [|apply Hsame; [by rewrite lookup_alter_ne|congruence]]. exists (r <| cr_published := true |>). rewrite lookup_alter_eq, Hr. split; [done|]. split; [by right|done].
  - apply Hsame; [|done]. cbn. rewrite lookup_delete_ne; [done|]. congruence.
  - by apply Hsame.
Qed.

(** What an approval leaves, as long as its window lasts. *)
Lemma approval_stands b now log : Ran b now log -> forall l1 e l2 id p g granted, log = l1 ++ e :: l2 -> Approves e id p g granted ->
  Forall (fun x => en_op x <> OpWithdraw id) l2 -> now < en_at e + APPROVAL_TTL ->
  exists r, cb_requests b !! id = Some r /\ (published_in l2 id -> cr_published r = true).
Proof.
  induction 1 as [|b now log at_ op HR IH Hle Hf]; intros l1 e l2 id p g granted E HA Hw Hn; [by destruct l1|].
  pose proof (ran_inv _ _ _ HR) as HI. destruct l2 as [|x l2 _] using rev_ind.
  - apply app_inj_tail in E as [<- <-]. destruct HA as [Hop [r Hr]]. cbn in Hop. subst op. cbn in Hr |- *. destruct (approve_scoped id p g granted at_ b) as [b' [r'|]] eqn:E; cbn in Hr; [|done]. injection Hr as ->.
    pose proof (approve_good at_ b id p g granted r) as HG. rewrite E in HG. destruct (HG eq_refl) as (r0 & _ & _ & _ & _ & _ & H6). exists r. split; [exact H6|]. by intros (? & ?%elem_of_nil & _).
  - rewrite app_comm_cons, app_assoc in E. apply app_inj_tail in E as [-> <-]. apply Forall_app in Hw as [Hw Hx]. apply list.Forall_cons in Hx as [Hx _]. cbn in Hx.
    destruct (IH l1 e l2 id p g granted eq_refl HA Hw ltac:(lia)) as (r & Hr & Hp). assert (Hin : e ∈ l1 ++ e :: l2) by (apply elem_of_app; right; by left).
    destruct (ru_approved _ _ _ HI _ _ _ _ _ Hin HA) as ((ea & Hea & Hnm) & Hall). destruct (Hall r Hr) as (_ & [Hs _] & Hexp).
    destruct (exec_keeps at_ op b id r Hr ltac:(lia) Hs Hx) as (r' & Hr' & Hsame & Hpub).
    { intros a q t rq Hop. specialize (Hf _ _ _ _ _ Hop). rewrite list.Forall_forall in Hf. by apply (Hf ea). }
    exists r'. split; [done|]. intros (y & [Hy| ->]%in_snoc & Ho); [|by rewrite (Hpub Ho)]. assert (Hp' : cr_published r = true) by (apply Hp; by exists y). destruct Hsame as [-> | ->]; done.
Qed.
(** ** Bounds *)

Lemma size_le {A B : Type} (m : gmap str A) (m' : gmap str B) : (forall id, is_Some (m !! id) -> is_Some (m' !! id)) -> size_ m <= size_ m'.
Proof.
  intros H. unfold size_. rewrite <- (size_dom (D := gset str) m), <- (size_dom (D := gset str) m'). apply inj_le, subseteq_size. intros id. rewrite !elem_of_dom. apply H.
Qed.

Lemma size_insert_le {V} (m : gmap str V) k v : size_ (<[k := v]> m) <= size_ m + 1.
Proof. unfold size_. rewrite map_size_insert. destruct (m !! k); cbn; lia. Qed.

Lemma held_lookup account b id : is_Some (filter (fun e => cr_account_id e.2 = account) (cb_requests b) !! id) <-> exists r, cb_requests b !! id = Some r /\ cr_account_id r = account.
Proof. split; [intros [r [H1 H2]%map_lookup_filter_Some]; by exists r|intros (r & H1 & H2); exists r; by apply map_lookup_filter_Some]. Qed.

Lemma expire_presence now b id v : cb_presence (expire now b) !! id = Some v -> cb_presence b !! id = Some v.
Proof. cbn. by intros [? _]%map_lookup_filter_Some. Qed.

(** The broker holds no more than it says it may. *)
Record Bounded (b : ConnectBroker) : Prop := mkBounded {
  bd_requests : size_ (cb_requests b) <= MAX_PENDING_REQUESTS;
  bd_account : forall account, held account b <= MAX_REQUESTS_PER_ACCOUNT;
  bd_presence : size_ (cb_presence b) <= MAX_TRACKED_PRESENCE;
}.

Lemma bounded_by b b' : Bounded b -> (forall id r, cb_requests b' !! id = Some r -> exists r0, cb_requests b !! id = Some r0 /\ cr_account_id r0 = cr_account_id r) ->
  (forall id v, cb_presence b' !! id = Some v -> is_Some (cb_presence b !! id)) -> Bounded b'.
Proof.
  intros [B1 B2 B3] Hr Hp. split.
  - eapply Z.le_trans; [|exact B1]. apply size_le. intros id [r H]. destruct (Hr id r H) as (r0 & H0 & _). by eexists.
  - intros a. etransitivity; [|apply (B2 a)]. apply size_le. intros id. rewrite !held_lookup. intros (r & H & Ha). destruct (Hr id r H) as (r0 & H0 & E). exists r0. split; [done|congruence].
  - eapply Z.le_trans; [|exact B3]. apply size_le. intros id [v H]. by eapply Hp.
Qed.

Lemma expire_bounded now b : Bounded b -> Bounded (expire now b).
Proof. intros HB. apply (bounded_by b); [done| |]; [intros id r [H _]%expire_lookup; by exists r|intros id v H%expire_presence; by eexists]. Qed.

Lemma request_bounded id a q t p now b : Bounded b -> Bounded (request_scoped id a q t p now b).1.
Proof.
  intros HB%(expire_bounded now). unfold request_scoped. destruct (negb _); [done|]. case_bool_decide; [done|]. destruct (Z.leb_spec MAX_PENDING_REQUESTS (size_ (cb_requests (expire now b)))); [done|]. destruct (Z.leb_spec MAX_REQUESTS_PER_ACCOUNT (held a (expire now b))) as [|Hh]; [done|].
  destruct HB as [B1 B2 B3]. split; cbn [fst cb_requests cb_presence set_field]; [|intros account|done].
  - etransitivity; [apply (size_insert_le (cb_requests (expire now b)))|lia].
  - set (new := mkRequest _ _ _ _ _ _ _ _ _ _ _ _ _). destruct (decide (account = a)) as [->|Hne].
    + etransitivity; [|assert (held a (expire now b) + 1 <= MAX_REQUESTS_PER_ACCOUNT) as H1 by lia; exact H1]. etransitivity; [|apply (size_insert_le _ id new)]. apply size_le. intros x. rewrite held_lookup. cbn [cb_requests set_field].
      intros (r & Hr & Hacc). destruct (decide (x = id)) as [->|Hx]; [rewrite lookup_insert_eq; by eexists|]. cbn in Hr. rewrite lookup_insert_ne in Hr |- * by done. apply held_lookup. by exists r.
    + etransitivity; [|apply (B2 account)]. apply size_le. intros x. rewrite !held_lookup. cbn. intros (r & [[<- <-]|[_ Hr]]%lookup_insert_Some & Hacc); [by cbn in Hacc|by exists r].
Qed.

Lemma exec_presence now op b id v : (forall a d, op <> OpHeartbeat a d) -> cb_presence (exec now op b).1 !! id = Some v -> is_Some (cb_presence b !! id).
Proof.
  intros Hh. assert (He : cb_presence (expire now b) !! id = Some v -> is_Some (cb_presence b !! id)) by (intros H%expire_presence; by eexists).
  destruct op; cbn [exec]; try exact He.
  - by destruct (Hh account_id device_id).
  - cbn. intros [_ H]%lookup_delete_Some. by eexists.
  - unfold request_scoped. destruct (negb _); [exact He|]. case_bool_decide; [exact He|]. do 2 (destruct (_ <=? _); [exact He|]). exact He.
  - unfold approve_scoped. destruct (cb_requests (expire now b) !! request_id); [|exact He]. destruct (negb _); [exact He|]. case_bool_decide; [exact He|]. destruct (negb _); [exact He|]. exact He.
  - unfold deny. destruct (cb_requests (expire now b) !! request_id); [|exact He]. destruct (negb _); [exact He|]. destruct (negb _); [exact He|]. exact He.
  - cbn. intros H. by eexists.
  - cbn. intros H. by eexists.
Qed.

Hypothesis walk_all : forall V (m : gmap str V), walk V m ≡ₚ map_to_list m.

Lemma stalest_some entries : entries <> [] -> exists e, stalest entries = Some e /\ e ∈ entries.
Proof.
  unfold stalest. assert (H : forall l acc, exists e, fold_left (fun (best : option (str * Presence)) (e : str * Presence) => match best with None => Some e | Some b => if pr_last_seen e.2 <? pr_last_seen b.2 then Some e else Some b end) l (Some acc) = Some e /\ (e = acc \/ e ∈ l)).
  { induction l as [|x l IH]; intros acc; cbn; [exists acc; split; [done|by left]|]. destruct (_ <? _); [destruct (IH x) as (e & E & He)|destruct (IH acc) as (e & E & He)]; exists e; (split; [done|]).
    - right. destruct He as [-> |He]; [by left|by right].
    - destruct He as [-> |He]; [by left|right; by right]. }
  destruct entries as [|x l]; [done|]. intros _. cbn. destruct (H l x) as (e & E & He). exists e. split; [done|]. destruct He as [-> |He]; [by left|by right].
Qed.

Lemma heartbeat_bounded a d now b : Bounded b -> Bounded (heartbeat a d now b).
Proof.
  intros HB%(expire_bounded now). assert (Hreq : cb_requests (heartbeat a d now b) = cb_requests (expire now b)) by apply heartbeat_requests.
  assert (Hpres : size_ (cb_presence (heartbeat a d now b)) <= MAX_TRACKED_PRESENCE); [|destruct HB as [B1 B2 B3]; split; [by rewrite Hreq|intros account; unfold held; rewrite Hreq; apply B2|done]].
  destruct HB as [_ _ B3]. unfold heartbeat. set (m := cb_presence (expire now b)) in *. set (v := mkPresence _ _). destruct (Z.leb_spec MAX_TRACKED_PRESENCE (size_ m)) as [Hfull|Hroom]; cbn [andb].
  - case_bool_decide as Ed.
    + assert (Hne : walk _ m <> []).
      { intros E. unfold size_ in Hfull. rewrite <- length_map_to_list, <- (walk_all _ m), E in Hfull. by cbn in Hfull. }
      destruct (stalest_some _ Hne) as ([k x] & -> & Hk). rewrite walk_all in Hk. apply elem_of_map_to_list in Hk. etransitivity; [apply (size_insert_le (delete k m) d v)|].
      unfold size_ in *. rewrite map_size_delete, Hk. cbv beta iota. assert (size m <> 0%nat) by (intros E; apply map_size_empty_inv in E; by rewrite E, lookup_empty in Hk). lia.
    + change (size_ (<[d := v]> m) <= MAX_TRACKED_PRESENCE). unfold size_ in *. rewrite map_size_insert. destruct (m !! d); [exact B3|by destruct Ed].
  - etransitivity; [apply (size_insert_le m d v)|]. lia.
Qed.

Lemma ran_bounded b now log : Ran b now log -> Bounded b.
Proof.
  induction 1 as [now|b now log at_ op _ IH Hle Hf].
  - split; [|intros a; unfold held|]; cbn; unfold size_; rewrite ?map_filter_empty, map_size_empty; done.
  - destruct op as [a d| |id a q t p|a t|id p g gr|id a t|id p|id p|id|id|id a q] eqn:Eop; [apply heartbeat_bounded, IH| |by apply (request_bounded id a q t p at_ b) in IH; unfold exec; destruct (request_scoped _ _ _ _ _ _ _)| | | | | | | |];
      rewrite <- Eop; (apply (bounded_by b); [done| |intros x v; apply exec_presence; by subst op]);
      (intros x r [H|? ? ? ? H|? ? ? ? H Ha H0 Hs Ht ->|? ? ? H H0 Hs ->|? H H0 ->]%exec_came; [by exists r|by subst op|..]; eexists; (split; [exact H0|done])).
Qed.
(** (C8) Each role credential reaches one party. In every run of the server: a
    host credential is collected only by the device that was asked and that
    approved, a client credential only by the device of the same account that
    asked, always within the approval's window and after the session was
    published; whatever of one request the two ends collect belongs to one
    session, and they are never one device; no second device ever collects
    either; and the broker never holds more requests or devices than it may. *)
Theorem credentials_reach_one_party (b : ConnectBroker) (now : Z) (log : list Entry) :
  Ran b now log ->
  (forall e id p s c, e ∈ log -> en_op e = OpCollectHost id p -> en_answer e = Collected (Good (s, c)) ->
     exists q g at_, Agreed log id p q g at_ /\ s = sg_session_id g /\ c = sg_host_credential g /\ at_ <= en_at e < at_ + APPROVAL_TTL /\ published_in log id) /\
  (forall e id q s c, e ∈ log -> en_op e = OpCollectClient id q -> en_answer e = Collected (Good (s, c)) ->
     exists p g at_, Agreed log id p q g at_ /\ s = sg_session_id g /\ c = sg_client_credential g /\ at_ <= en_at e < at_ + APPROVAL_TTL /\ published_in log id) /\
  (forall e e' id p q s c s' c', e ∈ log -> e' ∈ log -> en_op e = OpCollectHost id p -> en_op e' = OpCollectClient id q ->
     en_answer e = Collected (Good (s, c)) -> en_answer e' = Collected (Good (s', c')) -> s = s' /\ pa_account_id p = pa_account_id q /\ pa_device_id p <> pa_device_id q) /\
  (forall e e' id p p' a a', e ∈ log -> e' ∈ log -> en_answer e = Collected (Good a) -> en_answer e' = Collected (Good a') ->
     (en_op e = OpCollectHost id p /\ en_op e' = OpCollectHost id p') \/ (en_op e = OpCollectClient id p /\ en_op e' = OpCollectClient id p') -> p = p' /\ a = a') /\
  Bounded b.
Proof.
  intros HR. pose proof (ran_inv _ _ _ HR) as HI. pose proof HI as [_ _ _ _ _ U6 U7]. split; [done|]. split; [done|]. split; [|split; [|by eapply ran_bounded]].
  - intros e e' id p q s c s' c' He He' Ho Ho' Ha Ha'. destruct (U6 _ _ _ _ _ He Ho Ha) as (q0 & g & t & HA & -> & _), (U7 _ _ _ _ _ He' Ho' Ha') as (p0 & g' & t' & HA' & -> & _).
    destruct (agreed_once _ _ _ _ _ _ _ _ _ _ _ _ HI HA HA') as (<- & <- & <- & _). destruct HA as (E1 & E2 & _). done.
  - intros e e' id p p' [s c] [s' c'] He He' Ha Ha' [[Ho Ho']|[Ho Ho']].
    + destruct (U6 _ _ _ _ _ He Ho Ha) as (q0 & g & t & HA & -> & -> & _), (U6 _ _ _ _ _ He' Ho' Ha') as (q1 & g' & t' & HA' & -> & -> & _). by destruct (agreed_once _ _ _ _ _ _ _ _ _ _ _ _ HI HA HA') as (<- & _ & <- & _).
    + destruct (U7 _ _ _ _ _ He Ho Ha) as (q0 & g & t & HA & -> & -> & _), (U7 _ _ _ _ _ He' Ho' Ha') as (q1 & g' & t' & HA' & -> & -> & _). by destruct (agreed_once _ _ _ _ _ _ _ _ _ _ _ _ HI HA HA') as (_ & <- & <- & _).
Qed.

(** (C9) A lost answer can be asked for again. Once a device has approved a
    request and the session has been published, then for as long as the
    approval's window lasts and nobody withdraws it - whatever else the server is
    asked - the device that approved and the device that asked can each collect
    their own credential, every time, and anybody else is refused; when the
    window is over there is nothing left to collect. *)
Theorem approval_collectable (b : ConnectBroker) (now : Z) (l1 l2 : list Entry) (e : Entry) (id : str) (p : Party) (g : SessionGrant) (granted : Permissions) (at_ : Z) :
  Ran b now (l1 ++ e :: l2) -> Approves e id p g granted -> Forall (fun x => en_op x <> OpWithdraw id) l2 -> published_in l2 id -> now <= at_ ->
  (at_ < en_at e + APPROVAL_TTL ->
   exists q, pa_account_id q = pa_account_id p /\ pa_device_id q <> pa_device_id p /\
     (forall x, (exec at_ (OpCollectHost id x) b).2 = Collected (if bool_decide (x = p) then Good (sg_session_id g, sg_host_credential g) else Bad Forbidden)) /\
     (forall x, (exec at_ (OpCollectClient id x) b).2 = Collected (if bool_decide (x = q) then Good (sg_session_id g, sg_client_credential g) else Bad Forbidden))) /\
  (en_at e + APPROVAL_TTL <= at_ -> forall x, (exec at_ (OpCollectHost id x) b).2 = Collected (Bad NotFound) /\ (exec at_ (OpCollectClient id x) b).2 = Collected (Bad NotFound)).
Proof.
  intros HR HA Hw Hp Hle. pose proof (ran_inv _ _ _ HR) as HI. assert (Hin : e ∈ l1 ++ e :: l2) by (apply elem_of_app; right; by left). destruct (ru_approved _ _ _ HI _ _ _ _ _ Hin HA) as [_ Hall]. split.
  - intros Hn. destruct (approval_stands _ _ _ HR l1 e l2 id p g granted eq_refl HA Hw ltac:(lia)) as (r & Hr & Hpub). specialize (Hpub Hp). destruct (Hall r Hr) as (Ht & (Hs & G1 & G2 & G3) & Hx).
    assert (He : cb_requests (expire at_ b) !! id = Some r) by (apply expire_lookup; split; [done|lia]). destruct (ru_req _ _ _ HI _ _ Hr) as [[Hne _] _ _]. subst p. exists (requester_of r). split; [done|]. split; [done|]. split.
    + intros x. cbn [exec snd collect_host_credential]. unfold collect. rewrite He. destruct (bool_decide (x = target_of r)) eqn:Ex; [apply bool_decide_eq_true in Ex|apply bool_decide_eq_false in Ex; destruct (is_target x r) eqn:Et; [apply is_target_of in Et; congruence|done]]. rewrite (proj2 (is_target_of x r)) by congruence.
      rewrite Hs, Hpub, G1, G2. done.
    + intros x. cbn [exec snd collect_client_credential]. unfold collect. rewrite He. destruct (bool_decide (x = requester_of r)) eqn:Ex; [apply bool_decide_eq_true in Ex|apply bool_decide_eq_false in Ex; destruct (is_requester x r) eqn:Et; [apply is_requester_of in Et; congruence|done]]. rewrite (proj2 (is_requester_of x r)) by congruence.
      rewrite Hs, Hpub, G1, G3. done.
  - intros Hn x. assert (He : cb_requests (expire at_ b) !! id = None).
    { apply eq_None_not_Some. intros [r [Hr Hx]%expire_lookup]. destruct (Hall r Hr) as (_ & _ & E). lia. }
    cbn [exec snd collect_host_credential collect_client_credential]. unfold collect. by rewrite He.
Qed.
End Broker.

(** ** Evaluated *)

Definition demo_digest (account : str) : Z := foldr Z.add 0 account.
Definition demo_walk (V : Type) (m : gmap str V) : list (str * V) := map_to_list m.

Definition demo_host : Party := mkParty [1] [10].
Definition demo_client : Party := mkParty [1] [20].
Definition demo_session : SessionGrant := mkSessionGrant [7] [8] [9].
Definition demo_ops : list (Z * Op) :=
  [(1, OpHeartbeat [1] [10]); (2, OpRequest [5] [1] [20] [10] no_permissions); (3, OpApprove [5] demo_host demo_session no_permissions);
   (4, OpMarkPublished [5]); (5, OpCollectHost [5] demo_host); (6, OpCollectClient [5] demo_client)].

Definition demo_exec (w : ConnectBroker * list Entry) (x : Z * Op) : ConnectBroker * list Entry :=
  ((exec demo_digest demo_walk x.1 x.2 w.1).1, w.2 ++ [mkEntry x.1 x.2 (exec demo_digest demo_walk x.1 x.2 w.1).2]).
Definition demo_end : ConnectBroker * list Entry := fold_left demo_exec demo_ops (broker_new, []).

Lemma demo_ran : Ran demo_digest demo_walk demo_end.1 6 demo_end.2.
Proof.
  unfold demo_end, demo_ops, demo_exec. cbn [fold_left fst snd].
  eapply (ran_op demo_digest demo_walk _ 5); [|lia|by intros ? ? ? ? ? [=]].
  eapply (ran_op demo_digest demo_walk _ 4); [|lia|by intros ? ? ? ? ? [=]].
  eapply (ran_op demo_digest demo_walk _ 3); [|lia|by intros ? ? ? ? ? [=]].
  eapply (ran_op demo_digest demo_walk _ 2); [|lia|by intros ? ? ? ? ? [=]].
  eapply (ran_op demo_digest demo_walk _ 1); [|lia|intros ? ? ? ? ? _; apply list.Forall_singleton; by intros []].
  eapply (ran_op demo_digest demo_walk _ 1); [|lia|by intros ? ? ? ? ? [=]].
  apply ran_start.
Qed.

Lemma credentials_reach_one_party_witness :
  map en_answer (drop 4 demo_end.2) = [Collected (Good ([7], [8])); Collected (Good ([7], [9]))] /\ pa_device_id demo_host <> pa_device_id demo_client.
Proof.
  split; [vm_compute; reflexivity|].
  destruct (credentials_reach_one_party demo_digest demo_walk ltac:(intros V m; reflexivity) _ _ _ demo_ran) as (_ & _ & H & _).
  assert (M1 : mkEntry 5 (OpCollectHost [5] demo_host) (Collected (Good ([7], [8]))) ∈ demo_end.2) by (apply (list_elem_of_lookup_2 _ 4%nat); vm_compute; reflexivity).
  assert (M2 : mkEntry 6 (OpCollectClient [5] demo_client) (Collected (Good ([7], [9]))) ∈ demo_end.2) by (apply (list_elem_of_lookup_2 _ 5%nat); vm_compute; reflexivity).
  exact (proj2 (proj2 (H _ _ [5] demo_host demo_client [7] [8] [7] [9] M1 M2 eq_refl eq_refl eq_refl eq_refl))).
Defined.

Lemma approval_collectable_witness :
  (exec demo_digest demo_walk 50000000000 (OpCollectHost [5] demo_host) demo_end.1).2 = Collected (Good ([7], [8])) /\
  (exec demo_digest demo_walk 70000000000 (OpCollectClient [5] demo_client) demo_end.1).2 = Collected (Bad NotFound).
Proof.
  assert (El : demo_end.2 = take 2 demo_end.2 ++ mkEntry 3 (OpApprove [5] demo_host demo_session no_permissions) (match demo_end.2 !! 2%nat with Some e => en_answer e | None => Done end) :: drop 3 demo_end.2) by (vm_compute; reflexivity).
  pose proof demo_ran as HR. rewrite El in HR. set (l2 := drop 3 demo_end.2) in HR.
  assert (HA : Approves (mkEntry 3 (OpApprove [5] demo_host demo_session no_permissions) (match demo_end.2 !! 2%nat with Some e => en_answer e | None => Done end)) [5] demo_host demo_session no_permissions) by (split; [reflexivity|eexists; vm_compute; reflexivity]).
  assert (Hw : Forall (fun x => en_op x <> OpWithdraw [5]) l2) by (vm_compute; repeat constructor; discriminate).
  assert (Hp : published_in l2 [5]) by (exists (mkEntry 4 (OpMarkPublished [5]) Done); split; [apply (list_elem_of_lookup_2 _ 0%nat); vm_compute; reflexivity|reflexivity]).
  split.
  - destruct (proj1 (approval_collectable demo_digest demo_walk _ _ _ l2 _ [5] demo_host demo_session no_permissions 50000000000 HR HA Hw Hp ltac:(lia)) ltac:(vm_compute; reflexivity)) as (q & _ & _ & H & _).
    exact (H demo_host).
  - exact (proj2 (proj2 (approval_collectable demo_digest demo_walk _ _ _ l2 _ [5] demo_host demo_session no_permissions 70000000000 HR HA Hw Hp ltac:(lia)) ltac:(vm_compute; congruence) demo_client)).
Defined.
